(* ===== verification/_CoqProject ===== *)
-Q . S2P
Prelude.v
Float64.v
GoStrings.v
SafePath.v
CameraEvent.v
ActivityStore.v
ActivityInvariant.v
ActivityOperations.v
ActivityFrame.v
ActivityReachability.v
ActivityGrouping.v
ActivityTheorems.v
NotifyStore.v
NotifyDispatch.v
NotifyDelivery.v
NotifyTheorems.v
NotifyFanout.v
Tracker.v
TrackerMatching.v
TrackerTheorems.v
Presence.v
PresenceTheorems.v
Motion.v
MotionTheorems.v
DoorbellFrames.v
CameraLoop.v
CameraLoopTheorems.v
SegmentStore.v
Retention.v
RetentionLemmas.v
RetentionTheorems.v
RecordingSessions.v
Recompress.v
RecompressTheorems.v
RecompressBackfill.v
H264.v
Cry.v
ObjectCount.v
MemoryGuard.v
AuthScopes.v
Auth.v
AuthSessions.v
AuthTheorems.v
Mp4Bytes.v
Mp4BytesTheorems.v
Mp4Index.v
Mp4IndexTheorems.v
Mp4Trim.v
SegmentWriter.v
SegmentWriterTheorems.v
RtspSource.v
RecordedSegments.v
RecordingConsumer.v
RecordingConsumerTheorems.v
TranscodeProcess.v
EventProcessor.v
EventTheorems.v
EventSweep.v
GoSlices.v
OnnxProto.v
OnnxModel.v
OnnxEncode.v
OnnxModelTheorems.v
OnnxTensor.v
OnnxShapeOps.v
OnnxMathOps.v
OnnxConv.v
OnnxGraph.v
OnnxTensorTheorems.v
OnnxBroadcast.v
OnnxColumns.v
OnnxFusedConv.v
OnnxFusion.v
OnnxRun.v
OnnxConvTheorems.v
Detector.v
Identities.v
IdentityTheorems.v
