(* ===== verification/Prelude.v ===== *)
(** * Vedetta: a verification library

    Vedetta is a network video recorder written in Go ([src/]).  Cameras are read
    over RTSP; a detector finds objects in their frames; a tracker gives the objects
    an identity; zones turn them into presence; events are stored and grouped into
    activities; activities are notified to users; the streams are recorded to
    segments that are recompressed as they age and that retention, a storage cap and
    emergency deletion remove again; playback reads them back as fragmented MP4; and
    every request passes an authentication guard.  The models that look at the frames
    run on an inference engine of the repository's own.  This library translates the
    logic of those parts into Rocq definitions that evaluate, and proves what makes
    them correct.

    ** How the parts interact

    The camera loop ([CameraLoop.processFrame]) looks for motion in each frame
    ([Motion.Detect]), feeds what the detector finds to the tracker ([Tracker.Update]) and
    the tracked objects to zone matching and presence ([Presence.matchZones], then
    [UpdateObserved]); a confirmed track becomes a [camera.Event] ([CameraEvent.Event]) and
    a deleted one the end of it.  A doorbell keeps the frames worth a photo
    ([DoorbellFrames]).
    The detector ([Detector]) runs an ONNX model on the engine: a file is parsed
    ([OnnxModel]) into a session ([OnnxGraph.NewSession]), which fuses its graph and runs it
    operator by operator on tensors ([OnnxTensor]); its output is decoded to boxes.  The
    embeddings of faces and objects are matched to those already known ([Identities]).
    The event processor ([EventProcessor]) saves them ([ActivityStore.SaveEvent],
    [UpdateEventEndTime]); saving groups them into activities.  Activities are
    notified once through the fan-out ([NotifyFanout.fanout_EnqueueActivity]), whose
    push provider is the dispatcher ([NotifyDispatch]), which reads subscriptions,
    preferences and cooldowns ([NotifyStore], behind the class [Store]).
    A stream is read once and shared: the hub keeps one source per URL ([RtspSource]).
    Independently, recording sessions ([RecordingSessions]) attach recording consumers
    ([RecordingConsumer]), which run segment writers ([SegmentWriter]) and keep a row
    for each segment in the segment table ([SegmentStore]), which [Recompress] revisits and [Retention] empties.  Playback indexes the files
    ([Mp4Index]) over the byte-level operations of [Mp4Bytes]; [RecordedSegments]
    joins the writer to the index.  The HTTP API stands behind [Auth].

    ** Files

    - [Prelude]: machine integers, time, fallible results, row orders, tactics.
    - [Float64], [GoStrings]: Go's [float64] as executable IEEE 754 binary64, and the
      functions of package [strings] that are used.  [SafePath]: [safepath/safepath.go]
      with the lexical part of [path/filepath].
    - [CameraEvent]: [camera.Event] ([internal/camera/camera.go]) and the images it
      carries, [snapshot/notification.go].
    - [ActivityStore]: tables and transactions of [storage/db_activities.go], the
      event writes of [storage/db.go], [storage/db_events_retention.go] and the
      backfill of [storage/migrate.go].  [ActivityInvariant] states well-formedness
      and proves it for [reconcileActivityTx]; [ActivityOperations] for every
      transaction; [ActivityFrame] what transactions leave alone;
      [ActivityReachability] the transition system of committed transactions;
      [ActivityGrouping] the grouping specification; [ActivityTheorems] the exclusion
      and restoration of evidence, and the properties.
    - [NotifyStore]: [storage/db_push.go], [storage/db_notifications.go], the
      key-value rows of [storage/db.go], [notify/store.go], [notify/cooldown.go].
      [NotifyDispatch]: [notify/dispatcher.go] in a state monad with panics.
      [NotifyDelivery], [NotifyTheorems]: its lemmas and properties.
      [NotifyFanout]: [notify/fanout.go], [notify/delivery.go].
    - [Tracker]: [detect/tracker.go], [iou] of [detect/yolo.go], [detect/box.go].
      [TrackerMatching], [TrackerTheorems]: the matching and the properties.
    - [Presence]: [camera/zone.go], [camera/presence.go]; [PresenceTheorems].
    - [Motion]: [detect/motion.go] with its union-find structure; [MotionTheorems].
    - [CameraLoop]: [camera/camera.go]; [CameraLoopTheorems].  [DoorbellFrames]:
      [snapshot/doorbell.go], [camera/doorbell_snapshot.go].
    - [SegmentStore]: the segment table of [storage/db.go] and the files it names.
      [Retention]: [recording/retention.go], [recording/emergency_cleanup.go],
      [recording/storage.go], [media/diskspace.go], [recording/diskpressure.go].
      [RetentionLemmas], [RetentionTheorems]: their loops and properties.
    - [RecordingSessions]: the sessions and leases of [recording/segment.go].
    - [Recompress]: [recording/recompress.go], the statements of [storage/db.go] it
      runs and the tiers of [config/config.go].  [RecompressTheorems]: selection,
      the outcome of a turn, the manual pass; [RecompressBackfill]: startup.
    - [TranscodeProcess]: [recording/transcode_subprocess.go] and what it guarantees.
    - [SegmentWriter]: [media/mp4writer.go], [media/recording_audio.go],
      [rtsp/h264_access_unit.go]; [SegmentWriterTheorems].  [RecordingConsumer]:
      [media/recording_consumer.go] with the callbacks of [recording/segment.go];
      [RecordingConsumerTheorems].
    - [RtspSource]: [rtsp/source.go], [rtsp/health.go], [rtsp/reattach.go], [rtsp/hub.go],
      [backoff/backoff.go].
    - [Mp4Bytes]: the parts of [media/mp4reader.go] that work on bytes: probing,
      patching, removing and splitting samples; [Mp4BytesTheorems].
      [Mp4Index]: its index of fragments, trimming, concatenation and playlists;
      [Mp4IndexTheorems], and [Mp4Trim], what a trim keeps.  [RecordedSegments]: from recording to
      playback.
    - [AuthScopes], [Auth]: [auth/auth.go], [storage/db_auth.go], [api/auth.go].
      [AuthSessions]: the limits on logins and the life of a session;
      [AuthTheorems]: the guard.
    - [H264]: [h264au/h264au.go], [h264au/spslevel.go].
    - [Cry]: [cry/episode.go].  [ObjectCount]: [event/object_count.go].
      [MemoryGuard]: [watchdog/memguard.go] and the tick of [watchdog/watchdog.go].
    - [EventProcessor]: [event/processor.go], [event/artifacts.go],
      [event/publisher_queue.go].  [EventTheorems]: the tally, the order of begins and
      ends, the ends that wait; [EventSweep]: the hand-over of finished incidents.

    - [GoSlices]: slices with the panics of an index out of range, and loops over them.
      [OnnxProto]: [detect/onnxruntime/proto.go], with what keeps its readers safe;
      [OnnxModel]: [model.go]; [OnnxEncode]: the encoder the round trip is stated
      with; [OnnxModelTheorems].  [OnnxTensor]: [tensor.go];
      [OnnxShapeOps]: [ops.go], [ops_shape.go], [ops_constant.go]; [OnnxMathOps]:
      [ops_math.go], [blas.go], [ops_activation.go], [ops_norm.go]; [OnnxConv]:
      [ops_conv.go], [ops_pool.go], [ops_resize.go]; [OnnxGraph]: [graph.go].
      [OnnxTensorTheorems], [OnnxBroadcast]: tensors and broadcasting.  [OnnxColumns]:
      matrix products and the columns of a convolution; [OnnxConvTheorems]: the
      convolution.  [OnnxFusedConv]: the fused operator beside the three it replaces.
      [OnnxFusion]: the evaluation of a graph by names, which it shows fusion
      keeps and [OnnxRun] that a run of a session implements.
    - [Detector]: [detect/detector.go], [detect/yolo.go], [detect/backend_go.go], with what
      the detector reports.  [Identities]: [storage/db_faces.go], [storage/db_objects.go],
      [reid/reid.go], [event/recognition.go], the face handler of [event/processor.go] and
      the merge of [api/handler_people.go]; [IdentityTheorems].

    ** State and operations

    A table is a finite map or a list of rows, as its keys and orders demand; a
    transaction is a function from the whole store to a [result], and one that fails
    leaves the store as it was, as its rollback does.  What a mutex guards is one
    step.  Handlers that call out (clock, sender, file system) take the answers as
    arguments or streams, so a theorem holds whatever they answer.

    ** What the theorems show

    - Activities ([ActivityTheorems]): every reachable store is well formed;
      grouping equals the connected components of the ninety-second proximity
      relation, whatever the order of arrival; an incident is notified once;
      expiry is exact and terminates; finalization is exact; excluding and restoring
      evidence is a round trip; late evidence reopens; a saved event reads back.
    - Notifications ([NotifyTheorems], [NotifyFanout]): the contract of one
      recipient's dispatch, the cooldown across jobs, the queue, the outcome line,
      the subscription upsert; at-most-once acceptance per provider under retries.
    - Detection ([TrackerTheorems], [PresenceTheorems]): the frame update is a stable
      matching and conserves detections; identity and life of a track; presence
      events are backed by a whole debounce and are exactly the changes of status.
    - Cameras ([MotionTheorems], [CameraLoopTheorems], [DoorbellFrames]): the motion
      reported is the connected components of the mask; which events and ends a frame
      emits, and that over any run a track is one event; the photos a doorbell holds are
      few and recent and the best of them is taken.  Paths ([SafePath]): a joined path
      stays below its root, and a file name is one component.
    - Recording ([RetentionTheorems], [RecordingSessions]): which segments each
      kind of deletion removes; the cap terminates and is minimal when files can be
      removed and does not return when they cannot; the disk level's transitions;
      one live session per camera, and the way two can record at once.
    - Recompression ([RecompressTheorems], [RecompressBackfill]): what is selected and
      what a turn records; when the manual pass and the startup backfill end, and
      when they do not.  [TranscodeProcess]: a recording is replaced only by a
      validated smaller one of a child that exited well in time and reported it, and given
      up only when the worker said so.
    - Sources ([RtspSource]): the group of pictures a viewer starts from is whole; a lost
      connection raises each counter of its URL by one; how long a failing source waits and
      when it is reported as broken.
    - Recorded media ([SegmentWriterTheorems], [RecordedSegments]): parts tile the
      timeline, the buffer is capped, no accepted sample is lost, and a recorded
      segment can be entered anywhere on a keyframe; the table promises of a segment
      exactly the video its file holds, and when a row can claim time without media
      ([RecordingConsumerTheorems]).  Files ([Mp4BytesTheorems],
      [Mp4IndexTheorems], [Mp4Trim]): patching and indexing are exact, a trim keeps the
      fragments of its window with their times moved and every other byte as recorded,
      concatenations move every track by one origin, playlists divide a file.
    - The event processor ([EventTheorems], [EventSweep]): whatever interleaves, the
      tally of objects counts the active events, an end may overtake its event, the ends
      that wait are bounded; finished incidents reach the notifier in order and once.
    - Access ([AuthTheorems], [AuthSessions]): a served request was
      authorised, tokens stay within their scopes and mint no stronger ones, sessions
      refine their specification, attempts are bounded.
    - Inference ([OnnxModelTheorems]): a model file is always answered
      and read back as it was encoded, but for a length that crashes the parser;
      transposition permutes ([OnnxTensorTheorems]); the fast paths of the element-wise
      operators agree with the generic broadcast ([OnnxBroadcast]); the convolution its attributes
      ask for is the textbook sum, bit for bit, through its columns and the tiles of its matrix product
      ([OnnxColumns], [OnnxConvTheorems]); a fused graph gives every name that
      is left the value it had ([OnnxFusion]); a run answers as the evaluation of its
      graph ([OnnxRun]), whose theorems on views and outputs bound what may be fused and
      recycled.
      The detector reports the best of the model's candidates and nothing that overlaps
      ([Detector]).
    - Recognition ([IdentityTheorems]): merging two people keeps every face and says
      whose it is, the tables of people and objects stay consistent under every
      interleaving, a face is filed under the most similar person, clustered
      or left alone, and never taken from anybody.
    - The remaining files hold a state machine each, with its exact behaviour.

    ** Bounds and fuel

    - [ActivityStore.reconcileActivityTx] loops while it merges neighbors; each turn
      removes at least one activity, so [S (size (activities db))] turns are enough,
      and [reconcile_wf] shows it never runs out.
    - [ActivityStore.deleteEventsOlderThan] runs one turn per batch; a batch that is
      full removes an event, so [S (size (events db))] turns are enough (the expiry
      theorem concludes with a result, not only about one).
    - [Retention.enforceStorageCap] takes its fuel from the caller:
      [S (number of segments)] is proved enough when files can be removed, and no
      fuel is enough otherwise.
    - [Recompress.run_loop] takes its fuel from the caller: the number of attempts the
      failure caps leave is proved enough ([RunNow_terminates]), and none is enough
      for the behaviours of [RunNow_diverges]; likewise [backfill_loop].
    - The loops over boxes in memory ([patch_boxes], [strip_loop]) and over samples
      advance by at least one byte a turn, so the length of the data is fuel enough;
      the scans of a file ([find_mvhd], [init_scan]) take their fuel from the caller,
      and a box of size zero shows that none is enough.
    - [Motion.find] follows parents that never point up, so [S x] turns are enough from
      [x]; [DoorbellFrames.evict] removes a photo a turn, so as many as there are.
    - The readers of a model take the length of the message they read as fuel: every
      turn of a field loop reads at least one byte ([ParseModel_answers]); a varint
      has at most ten bytes.
    - Counters are [int64] or [int] with their wrap-around; a theorem that needs room
      says so ([id_room], [stamped], [sizes_ok]).

    ** Parameters

    The order in which Go's unstable sort leaves equally overlapping pairs (class
    [SortsPairs], with its instance for a stable sort); the web push service and the
    payload encoding; the clock of the dispatcher (non-decreasing); the SPS parser
    of mediacommon; the answers of [statfs] and of the file system; the boxes
    go-mp4 reads of a file ([BoxReader]) and the order of a range over a map
    ([TrackOrder], [CameraOrder], [EndOrder], [BoxOrder]); image codecs and resampling
    ([Imaging]); what a recycled buffer holds and which empty arrays
    are nil ([Recycled]), the rounding of a
    multiply-add and [math.Exp] on the processor ([Machine]), the order of a range over
    the initializers of a model ([InitOrder]); the order unstable sorts and listings leave
    ties in ([SortsScores], [RowOrder]); the drawing of boxes on an image ([Drawing]); what the detector and the
    recognizer answer; the RTP depacketizers, AVCC marshalling and audio
    codecs ([Codecs]); the transcoder of a recompression ([Transcoder]), the child process of a transcode and its JSON ([Json]); addresses
    and networks ([NetIP]), hashing and randomness ([Crypto]), and SQLite's [julianday].

    ** Not modelled

    Codecs, network transports, Apple Accelerate, process spawning and HTTP handlers
    are input and output around the modelled logic, over third-party code; filtered
    list queries of the stores build SQL text.  Of the schema migrations, the backfill of
    activities (version 7) and their closing (version 8) are modelled, as what makes the
    first store a run works on; the others add columns with their defaults, rewrite the
    text of timestamps, or link sightings of objects, before the model starts, and a
    database that an older program has used at version 7 is not covered.  SQL failures are not
    modelled: a failed statement rolls its transaction back.  Of the segment writer,
    the failures of creating and closing its file and its log lines are left out; of
    playlists, their text; of recompression, its ticker; of an RTSP source, its network
    session (a pass of the connect loop is an input) and the redaction of URLs; the live
    streaming transports, which mux those sources for browsers.

    ** Plan

    Next: the live HLS window and its manager over the hub; clip retention and the
    reconciliation of availability flags; the supervisor's heartbeat; sizes and schedule
    windows of the configuration. *)
From Stdlib Require Export ZArith Lia Bool.
From stdpp Require Export base gmap sets list strings sorting.

#[global] Open Scope Z_scope.

(** ** Machine integers

    Go's [intN] and [uintN] are kept as [Z] with their wrap-around explicit. *)

Definition wrapU (w z : Z) : Z := z mod 2 ^ w.
Definition wrapS (w z : Z) : Z := (z + 2 ^ (w - 1)) mod 2 ^ w - 2 ^ (w - 1).

Abbreviation u8 := (wrapU 8).
Abbreviation u32 := (wrapU 32).
Abbreviation u64 := (wrapU 64).
Abbreviation i16 := (wrapS 16).
Abbreviation i32 := (wrapS 32).
Abbreviation i64 := (wrapS 64).

Definition max_int64 : Z := 2 ^ 63 - 1.
Definition min_int64 : Z := - 2 ^ 63.

(** ** Time

    A [time.Time] is its number of nanoseconds since Go's zero instant (year 1,
    UTC), so the zero [Time] is [0]; a [time.Duration] is an [int64] of
    nanoseconds.  [Time.Sub] saturates at the ends of [Duration], [Time.Add]
    does not wrap (a [Time] has far more range than a [Duration]). *)

Definition Nanosecond : Z := 1.
Definition Millisecond : Z := 1000000.
Definition Second : Z := 1000000000.
Definition Minute : Z := 60 * Second.
Definition Hour : Z := 60 * Minute.

Definition zero_time : Z := 0.
Definition IsZero (t : Z) : bool := t =? zero_time.
Definition Sub (t u : Z) : Z := Z.max min_int64 (Z.min max_int64 (t - u)).
Definition Add (t d : Z) : Z := t + d.
Definition Before (t u : Z) : bool := t <? u.
Definition After (t u : Z) : bool := u <? t.

(** ** Fallible operations: a value, or a Go [error] rendered as its text. *)

Inductive result (E A : Type) : Type :=
| Ok (a : A)
| Err (e : E).
Arguments Ok {E A} a.
Arguments Err {E A} e.

Definition rbind {E A B} (r : result E A) (k : A -> result E B) : result E B :=
  match r with Ok a => k a | Err e => Err e end.

Declare Scope go_scope.
Delimit Scope go_scope with go.
Notation "'let?' x := r 'in' k" := (rbind r (fun x => k))
  (at level 10, x pattern, r at level 100, k at level 200) : go_scope.
#[global] Open Scope go_scope.

(** Ordering of rows the way [ORDER BY time ASC, id ASC] orders them. *)
Definition time_id_le (p q : Z * string) : Prop :=
  p.1 < q.1 \/ (p.1 = q.1 /\ String.le p.2 q.2).

#[global] Instance time_id_le_dec : RelDecision time_id_le.
Proof. intros [a x] [b y]. unfold time_id_le; simpl. apply _. Defined.

(** ** Tactics *)

(** Turns boolean tests of the translated code into propositions. *)
Ltac bool_to_prop :=
  repeat match goal with
  | H : _ && _ = true |- _ => apply andb_true_iff in H as [? ?]
  | H : _ || _ = false |- _ => apply orb_false_iff in H as [? ?]
  | H : negb _ = true |- _ => apply negb_true_iff in H
  | H : negb _ = false |- _ => apply negb_false_iff in H
  | H : (_ <? _) = true |- _ => apply Z.ltb_lt in H
  | H : (_ <? _) = false |- _ => apply Z.ltb_ge in H
  | H : (_ <=? _) = true |- _ => apply Z.leb_le in H
  | H : (_ <=? _) = false |- _ => apply Z.leb_gt in H
  | H : (_ =? _) = true |- _ => apply Z.eqb_eq in H
  | H : (_ =? _) = false |- _ => apply Z.eqb_neq in H
  | H : bool_decide _ = true |- _ => apply bool_decide_eq_true in H
  | H : bool_decide _ = false |- _ => apply bool_decide_eq_false in H
  | H : String.eqb _ _ = true |- _ => apply String.eqb_eq in H
  | H : String.eqb _ _ = false |- _ => apply String.eqb_neq in H
  end.

(** Case analysis on the tests and matches of a hypothesis or the goal, each
    test left as a proposition. *)
Ltac split_ifs :=
  repeat (case_match; bool_to_prop; simplify_eq/=; try done).

(** ** Machine integer lemmas *)

Lemma wrapU_range w z : 0 <= w -> 0 <= wrapU w z < 2 ^ w.
Proof. intros Hw. apply Z.mod_pos_bound, Z.pow_pos_nonneg; lia. Qed.

Lemma wrapS_range w z : 1 <= w -> - 2 ^ (w - 1) <= wrapS w z < 2 ^ (w - 1).
Proof.
  intros Hw. unfold wrapS.
  assert (2 ^ w = 2 * 2 ^ (w - 1)) as E by (rewrite <- Z.pow_succ_r by lia; f_equal; lia).
  assert (0 < 2 ^ (w - 1)) by (apply Z.pow_pos_nonneg; lia).
  pose proof (Z.mod_pos_bound (z + 2 ^ (w - 1)) (2 ^ w) ltac:(lia)). lia.
Qed.

Lemma wrapU_small w z : 0 <= z < 2 ^ w -> wrapU w z = z.
Proof. apply Z.mod_small. Qed.

Lemma wrapS_small w z : 1 <= w -> - 2 ^ (w - 1) <= z < 2 ^ (w - 1) -> wrapS w z = z.
Proof.
  intros Hw Hz. unfold wrapS.
  assert (2 ^ w = 2 * 2 ^ (w - 1)) as E by (rewrite <- Z.pow_succ_r by lia; f_equal; lia).
  rewrite Z.mod_small; lia.
Qed.

Lemma i64_small z : min_int64 <= z <= max_int64 -> i64 z = z.
Proof.
  unfold min_int64, max_int64. intros H. apply wrapS_small; [lia|].
  change (64 - 1) with 63. lia.
Qed.

Lemma u32_small z : 0 <= z < 2 ^ 32 -> u32 z = z.
Proof. apply wrapU_small. Qed.

Lemma u64_small z : 0 <= z < 2 ^ 64 -> u64 z = z.
Proof. apply wrapU_small. Qed.

Lemma wrapU_add_l w a b : wrapU w (wrapU w a + b) = wrapU w (a + b).
Proof. unfold wrapU. apply Zplus_mod_idemp_l. Qed.

Lemma wrapU_add_r w a b : wrapU w (a + wrapU w b) = wrapU w (a + b).
Proof. unfold wrapU. apply Zplus_mod_idemp_r. Qed.

Lemma wrapS_add_l w a b : wrapS w (wrapS w a + b) = wrapS w (a + b).
Proof.
  unfold wrapS. f_equal.
  replace ((a + 2 ^ (w - 1)) mod 2 ^ w - 2 ^ (w - 1) + b + 2 ^ (w - 1)) with ((a + 2 ^ (w - 1)) mod 2 ^ w + b) by lia.
  rewrite Zplus_mod_idemp_l. f_equal. lia.
Qed.

(** ** Time lemmas *)

Lemma Sub_exact t u : min_int64 <= t - u <= max_int64 -> Sub t u = t - u.
Proof. unfold Sub, min_int64, max_int64 in *. lia. Qed.

Lemma Sub_ge t u d : min_int64 < d <= max_int64 -> (d <= Sub t u <-> d <= t - u).
Proof. unfold Sub, min_int64, max_int64 in *. lia. Qed.

Lemma Sub_self t : Sub t t = 0.
Proof. unfold Sub, min_int64, max_int64. lia. Qed.

(** [Sub] answers the comparison with an in-range duration exactly, saturated or not. *)
Lemma Sub_lt t u d : min_int64 < d <= max_int64 -> (Sub t u < d <-> t - u < d).
Proof. unfold Sub, min_int64, max_int64 in *. lia. Qed.

Lemma Sub_gt t u d : min_int64 <= d < max_int64 -> (d < Sub t u <-> d < t - u).
Proof. unfold Sub, min_int64, max_int64 in *. lia. Qed.

(** ** Row order lemmas *)

#[global] Instance time_id_le_total : Total time_id_le.
Proof.
  intros [a x] [b y]. unfold time_id_le; simpl.
  destruct (Z.lt_trichotomy a b) as [?|[->|?]]; [tauto| |tauto].
  destruct (total String.le x y); tauto.
Qed.

#[global] Instance time_id_le_trans : Transitive time_id_le.
Proof.
  intros [a x] [b y] [c z]. unfold time_id_le; simpl.
  intros [?|[-> ?]] [?|[-> ?]]; try (left; lia); right.
  split; [done|]. by etrans.
Qed.

Lemma merge_sort_elem_of {A} (R : relation A) `{!RelDecision R} (x : A) l :
  x ∈ merge_sort R l <-> x ∈ l.
Proof. by rewrite merge_sort_Permutation. Qed.

Lemma StronglySorted_weaken {A} (R S : relation A) l :
  (forall x y, x ∈ l -> y ∈ l -> R x y -> S x y) -> Sorted.StronglySorted R l -> Sorted.StronglySorted S l.
Proof.
  intros H Hs. induction Hs as [|x l Hs IH Hx]; [constructor|]. constructor.
  - apply IH. intros; apply H; [by right..|done].
  - rewrite Forall_forall in Hx |- *. intros y Hy. apply H; [by left|by right|by apply Hx].
Qed.

Lemma StronglySorted_take {A} (R : relation A) n l : Sorted.StronglySorted R l -> Sorted.StronglySorted R (take n l).
Proof.
  revert n. induction l as [|a l IH]; intros [|k]; cbn; try done; [constructor|].
  intros [Hs Ha]%Sorted.StronglySorted_inv. constructor; [by apply IH|]. by apply Forall_take.
Qed.

Lemma filter_ext_in {A} (P Q : A -> Prop) `{forall x, Decision (P x)} `{forall x, Decision (Q x)} (l : list A) :
  (forall x, x ∈ l -> P x <-> Q x) -> filter P l = filter Q l.
Proof.
  induction l as [|x l IH]; intros HPQ; [done|]. rewrite !filter_cons, IH by (intros; apply HPQ; by right).
  pose proof (HPQ x ltac:(by left)). destruct (decide (P x)), (decide (Q x)); naive_solver.
Qed.

Create HintDb vedetta.
Create Rewrite HintDb vedetta.
#[export] Hint Rewrite @merge_sort_elem_of Sub_self wrapU_add_l wrapU_add_r wrapS_add_l : vedetta.
#[export] Hint Resolve wrapU_range wrapS_range : vedetta.
