(* ===== verification/Float64.v ===== *)
(** Go's [float64] arithmetic, as IEEE 754 binary64 with round to nearest even.

    The values are the Standard Library's [spec_float]; every operation is its
    executable specification at precision 53 and maximal exponent 1024, so a
    definition translated from Go evaluates to the same bits.  A [float32] value
    is kept as a [spec_float] of precision 24. *)

From Stdlib Require Import SpecFloat.
From S2P Require Import Prelude.

Abbreviation float64 := spec_float.

Definition fadd : float64 -> float64 -> float64 := SFadd 53 1024.
Definition fsub : float64 -> float64 -> float64 := SFsub 53 1024.
Definition fmul : float64 -> float64 -> float64 := SFmul 53 1024.
Definition fdiv : float64 -> float64 -> float64 := SFdiv 53 1024.
Definition fsqrt : float64 -> float64 := SFsqrt 53 1024.
Definition flt : float64 -> float64 -> bool := SFltb.
Definition fle : float64 -> float64 -> bool := SFleb.
Definition feq : float64 -> float64 -> bool := SFeqb.
Definition fgt (x y : float64) : bool := SFltb y x.
Definition fge (x y : float64) : bool := SFleb y x.

Definition fzero : float64 := S754_zero false.

(** [float64(n)] for an integer, rounded to nearest even. *)
Definition f64_of_Z (n : Z) : float64 := binary_normalize 53 1024 n 0 false.

(** The constant [num/den], as the Go compiler rounds a decimal literal. *)
Definition f64_lit (num den : Z) : float64 := fdiv (f64_of_Z num) (f64_of_Z den).

(** [float32(x * y)] and friends, at precision 24. *)
Definition mul32 : float64 -> float64 -> float64 := SFmul 24 128.
Definition f32_lit (num den : Z) : float64 :=
  SFdiv 24 128 (binary_normalize 24 128 num 0 false) (binary_normalize 24 128 den 0 false).

Definition add32 : float64 -> float64 -> float64 := SFadd 24 128.
Definition sub32 : float64 -> float64 -> float64 := SFsub 24 128.
Definition div32 : float64 -> float64 -> float64 := SFdiv 24 128.
Definition f32_of_Z (n : Z) : float64 := binary_normalize 24 128 n 0 false.

(** [float64(x)] for a [float32] [x]: the same value, in the normal form of binary64. *)
Definition widen (x : float64) : float64 :=
  match x with
  | S754_finite s m e => binary_normalize 53 1024 (cond_Zopp s (Zpos m)) e s
  | _ => x
  end.

Definition is_nan (x : float64) : bool :=
  match x with S754_nan => true | _ => false end.

(** [math.Max] and [math.Min]: NaN is absorbing unless an infinity decides, and
    the zeros are ordered [-0 < +0]. *)
Definition fmax (x y : float64) : float64 :=
  match x, y with
  | S754_infinity false, _ | _, S754_infinity false => S754_infinity false
  | S754_nan, _ | _, S754_nan => S754_nan
  | S754_zero true, S754_zero _ => y
  | S754_zero false, S754_zero _ => x
  | _, _ => if fgt x y then x else y
  end.

Definition fmin (x y : float64) : float64 :=
  match x, y with
  | S754_infinity true, _ | _, S754_infinity true => S754_infinity true
  | S754_nan, _ | _, S754_nan => S754_nan
  | S754_zero true, S754_zero _ => x
  | S754_zero false, S754_zero _ => y
  | _, _ => if flt x y then x else y
  end.

(** [int64(x)]: truncation towards zero.  Go leaves the out-of-range results to
    the implementation; [None] stands for them. *)
Definition f64_trunc (x : float64) : option Z :=
  match x with
  | S754_zero _ => Some 0
  | S754_finite s m e =>
      let v := if 0 <=? e then Zpos m * 2 ^ e else Zpos m / 2 ^ (- e) in
      let v := if s then - v else v in
      if (min_int64 <=? v) && (v <=? max_int64) then Some v else None
  | _ => None
  end.

(** [Duration.Seconds]: whole seconds plus the fraction, added in [float64]. *)
Definition Seconds (d : Z) : float64 :=
  fadd (f64_of_Z (d ÷ Second)) (fdiv (f64_of_Z (Z.rem d Second)) (f64_of_Z Second)).

(** Comparing the other way round reverses the answer. *)
Lemma SFcompare_antisym x y : SFcompare y x = CompOpp <$> SFcompare x y.
Proof.
  destruct x as [[]|[]| |[] mx ex], y as [[]|[]| |[] my ey]; try done; simpl;
    rewrite (Z.compare_antisym ex ey); destruct (ex ?= ey)%Z; try done; simpl;
    change (Pos.compare_cont Eq) with Pos.compare;
    rewrite (Pos.compare_antisym mx my); by destruct (mx ?= my)%positive.
Qed.

(** [x < y] and [y <= x] never hold together. *)
Lemma flt_fle_excl x y : flt x y = true -> fle y x = false.
Proof.
  unfold flt, fle, SFltb, SFleb. rewrite (SFcompare_antisym x y).
  by destruct (SFcompare x y) as [[]|].
Qed.

Lemma flt_irrefl x : flt x x = false.
Proof.
  destruct (flt x x) eqn:E; [|done]. pose proof (flt_fle_excl _ _ E) as E'.
  unfold flt, fle, SFltb, SFleb in *. by destruct (SFcompare x x) as [[]|].
Qed.

(** ** The order of the comparable values

    A value that is not NaN is ranked by its class, then (for a finite one) by its
    signed exponent and signed mantissa; the comparison is the lexicographic one. *)

Definition f64_rank (x : float64) : Z * Z * Z :=
  match x with
  | S754_infinity true => (-2, 0, 0)
  | S754_finite true m e => (-1, - e, Zneg m)
  | S754_zero _ | S754_nan => (0, 0, 0)
  | S754_finite false m e => (1, e, Zpos m)
  | S754_infinity false => (2, 0, 0)
  end.

Definition rank_le (p q : Z * Z * Z) : Prop :=
  p.1.1 < q.1.1 \/ (p.1.1 = q.1.1 /\ (p.1.2 < q.1.2 \/ (p.1.2 = q.1.2 /\ p.2 <= q.2))).

#[global] Instance rank_le_dec p q : Decision (rank_le p q).
Proof. unfold rank_le. apply _. Defined.

Lemma rank_le_trans p q r : rank_le p q -> rank_le q r -> rank_le p r.
Proof. unfold rank_le. lia. Qed.

Lemma rank_le_total p q : rank_le p q \/ rank_le q p.
Proof. unfold rank_le. lia. Qed.

Lemma flt_rank x y :
  is_nan x = false -> is_nan y = false -> flt x y = false <-> rank_le (f64_rank y) (f64_rank x).
Proof.
  intros Hx Hy. unfold flt, SFltb, rank_le.
  destruct x as [[]|[]| |[] mx ex], y as [[]|[]| |[] my ey]; try done; simpl;
    try (split; intros; (lia || done));
    destruct (Z.compare_spec ex ey); simpl; change (Pos.compare_cont Eq) with Pos.compare;
    try destruct (Pos.compare_spec mx my); subst; simpl; split; intros; (lia || done).
Qed.

Lemma flt_rank_true x y : flt x y = true <-> is_nan x = false /\ is_nan y = false /\ ~ rank_le (f64_rank y) (f64_rank x).
Proof.
  destruct (is_nan x) eqn:Hx, (is_nan y) eqn:Hy; [destruct x, y; naive_solver| | |].
  - destruct x; try done. split; [by destruct y as [|[]| |]|naive_solver].
  - destruct y; try done. split; [by destruct x as [|[]| |]|naive_solver].
  - rewrite <- (flt_rank x y) by done. destruct (flt x y); naive_solver.
Qed.

Lemma feq_rank_true x y : feq x y = true <->
  is_nan x = false /\ is_nan y = false /\ rank_le (f64_rank x) (f64_rank y) /\ rank_le (f64_rank y) (f64_rank x).
Proof.
  assert (feq x y = negb (is_nan x) && negb (is_nan y) && negb (flt x y) && negb (flt y x)) as ->.
  { unfold feq, SFeqb, flt, SFltb. rewrite (SFcompare_antisym x y).
    destruct x as [[]|[]| |[] mx ex], y as [[]|[]| |[] my ey]; try done; cbn; destruct (ex ?= ey); try done; cbn;
      change (Pos.compare_cont Eq) with Pos.compare; by destruct (mx ?= my)%positive. }
  rewrite !andb_true_iff, !negb_true_iff. split.
  - intros [[[Hx Hy] H1] H2]. by rewrite flt_rank in H1, H2.
  - intros (Hx & Hy & H1 & H2). split_and!; try done; by apply flt_rank.
Qed.
