(* ===== verification/GoStrings.v ===== *)
(** The parts of Go's [strings] package the modelled code calls, on byte strings. *)

From S2P Require Import Prelude.
From Stdlib Require Import Ascii.

Fixpoint bytes_to_string (l : list nat) : string :=
  match l with
  | [] => EmptyString
  | b :: l => String (ascii_of_nat b) (bytes_to_string l)
  end.

(** The UTF-8 encodings of the runes [unicode.IsSpace] accepts. *)
Definition white_space : list string :=
  bytes_to_string <$>
    [[9]; [10]; [11]; [12]; [13]; [32]; [194; 133]; [194; 160]; [225; 154; 128];
     [226; 128; 128]; [226; 128; 129]; [226; 128; 130]; [226; 128; 131]; [226; 128; 132];
     [226; 128; 133]; [226; 128; 134]; [226; 128; 135]; [226; 128; 136]; [226; 128; 137];
     [226; 128; 138]; [226; 128; 168]; [226; 128; 169]; [226; 128; 175]; [226; 129; 159];
     [227; 128; 128]]%nat.

Fixpoint strip_prefix (p s : string) : option string :=
  match p, s with
  | EmptyString, _ => Some s
  | String a p, String b s => if Ascii.eqb a b then strip_prefix p s else None
  | String _ _, EmptyString => None
  end.

Fixpoint strip_any (ps : list string) (s : string) : option string :=
  match ps with
  | [] => None
  | p :: ps => match strip_prefix p s with Some s' => Some s' | None => strip_any ps s end
  end.

(** Drops leading members of [ps]; the fuel is the string's length. *)
Fixpoint trim_fuel (fuel : nat) (ps : list string) (s : string) : string :=
  match fuel with
  | O => s
  | S fuel => match strip_any ps s with Some s' => trim_fuel fuel ps s' | None => s end
  end.

Definition trim_left (ps : list string) (s : string) : string :=
  trim_fuel (String.length s) ps s.

(** [strings.TrimSpace]. *)
Definition TrimSpace (s : string) : string :=
  String.rev (trim_left (String.rev <$> white_space) (String.rev (trim_left white_space s))).

Example TrimSpace_ascii : TrimSpace "  not mine	 " = "not mine"%string.
Proof. reflexivity. Qed.

Example TrimSpace_blank : TrimSpace "   " = ""%string.
Proof. reflexivity. Qed.

Definition HasPrefix (s p : string) : bool := bool_decide (is_Some (strip_prefix p s)).
Definition TrimPrefix (s p : string) : string := default s (strip_prefix p s).

Fixpoint strip_suffix (p s : string) : option string :=
  if String.eqb s p then Some EmptyString
  else match s with
       | EmptyString => None
       | String a s => String a <$> strip_suffix p s
       end.

Definition HasSuffix (s p : string) : bool := bool_decide (is_Some (strip_suffix p s)).
Definition TrimSuffix (s p : string) : string := default s (strip_suffix p s).

(** [strings.Trim(s, cut)] for a one-byte cutset. *)
Definition Trim (s cut : string) : string :=
  String.rev (trim_left [cut] (String.rev (trim_left [cut] s))).

(** [strings.Split(s, sep)] for a one-byte separator. *)
Fixpoint Split (s : string) (sep : ascii) : list string :=
  match s with
  | EmptyString => [EmptyString]
  | String a s =>
      let rest := Split s sep in
      if Ascii.eqb a sep then EmptyString :: rest
      else match rest with
           | x :: xs => String a x :: xs
           | [] => [String a EmptyString]
           end
  end.

(** Simple case folding to ASCII: the upper-case letters, the long s and the Kelvin
    sign are the only runes that fold to an ASCII letter. *)
Definition fold_byte (a : ascii) : ascii :=
  let n := nat_of_ascii a in
  if ((65 <=? n) && (n <=? 90))%nat then ascii_of_nat (n + 32) else a.

Fixpoint fold_fuel (fuel : nat) (s : string) : string :=
  match fuel, s with
  | S fuel, String a s' =>
      match strip_prefix (bytes_to_string [197; 191]%nat) s, strip_prefix (bytes_to_string [226; 132; 170]%nat) s with
      | Some r, _ => String "s" (fold_fuel fuel r)
      | None, Some r => String "k" (fold_fuel fuel r)
      | None, None => String (fold_byte a) (fold_fuel fuel s')
      end
  | _, _ => EmptyString
  end.

(** [strings.EqualFold(s, t)], for an ASCII [t]. *)
Definition EqualFold (s t : string) : bool :=
  String.eqb (fold_fuel (String.length s) s) (fold_fuel (String.length t) t).

Lemma strip_prefix_Some p s r : strip_prefix p s = Some r <-> s = (p +:+ r)%string.
Proof.
  revert s. induction p as [|a p IH]; intros s; simpl; [split; [by intros [= ->]|by intros ->]|].
  destruct s as [|b s]; [done|]. destruct (Ascii.eqb_spec a b) as [->|Hne].
  - rewrite IH. split; [by intros ->|by intros [= ->]].
  - split; [done|]. by intros [= -> _].
Qed.

Lemma HasPrefix_spec s p : HasPrefix s p = true <-> exists r, s = (p +:+ r)%string.
Proof.
  unfold HasPrefix. rewrite bool_decide_eq_true. split; intros [r H]; exists r; by apply strip_prefix_Some.
Qed.

Lemma app_string_length s t : String.length (s +:+ t) = (String.length s + String.length t)%nat.
Proof. induction s as [|a s IH]; simpl; [done|]. by rewrite IH. Qed.

Lemma strip_suffix_Some p s r : strip_suffix p s = Some r <-> s = (r +:+ p)%string.
Proof.
  revert r. induction s as [|a s IH]; intros r; cbn -[String.eqb].
  - destruct (String.eqb_spec "" p) as [<-|Hne]; split.
    + by intros [= <-].
    + by destruct r; simpl; [intros _|].
    + done.
    + destruct r; simpl; [|done]. intros E. by destruct Hne.
  - destruct (String.eqb_spec (String a s) p) as [<-|Hne]; split.
    + by intros [= <-].
    + destruct r as [|b r]; simpl; [done|]. intros E. exfalso.
      apply (f_equal String.length) in E. simpl in E. rewrite app_string_length in E. simpl in E. lia.
    + intros (r' & Hr & ->)%fmap_Some. apply IH in Hr as ->. done.
    + destruct r as [|b r]; simpl; [intros E; by destruct Hne|]. intros [= -> E].
      apply IH in E. by rewrite E.
Qed.

Lemma HasSuffix_spec s p : HasSuffix s p = true <-> exists r, s = (r +:+ p)%string.
Proof.
  unfold HasSuffix. rewrite bool_decide_eq_true. split; intros [r H]; exists r; by apply strip_suffix_Some.
Qed.

Lemma TrimSuffix_app r p : TrimSuffix (r +:+ p) p = r.
Proof. unfold TrimSuffix. by rewrite (proj2 (strip_suffix_Some p _ r) eq_refl). Qed.

Example Split_path : Split "a//b" "/" = ["a"; ""; "b"]%string.
Proof. reflexivity. Qed.

Example Trim_path : Trim "//a/b/" "/" = "a/b"%string.
Proof. reflexivity. Qed.

Example EqualFold_https : EqualFold "HttpS" "https" = true /\ EqualFold "http" "https" = false.
Proof. split; reflexivity. Qed.

#[local] Open Scope string_scope.

(** ** Splitting and joining *)

Lemma Split_not_nil s sep : Split s sep <> [].
Proof. destruct s as [|a s]; cbn [Split]; [done|]. destruct (Ascii.eqb a sep); [done|]. by destruct (Split s sep). Qed.

Lemma Split_app s t sep : Split (s +:+ String sep t) sep = (Split s sep ++ Split t sep)%list.
Proof.
  induction s as [|a s IH].
  - change ("" +:+ String sep t) with (String sep t). cbn [Split]. by rewrite Ascii.eqb_refl.
  - change (String a s +:+ String sep t) with (String a (s +:+ String sep t)). cbn [Split]. rewrite IH. destruct (Ascii.eqb a sep); [done|].
    pose proof (Split_not_nil s sep). by destruct (Split s sep).
Qed.

(** No separator in a piece. *)
Lemma Split_single s sep : Forall (fun c => Split c sep = [c]) (Split s sep).
Proof.
  induction s as [|a s IH]; cbn [Split]; [by repeat constructor|]. destruct (Ascii.eqb a sep) eqn:E; [by constructor|].
  destruct (Split s sep) as [|x xs]; [constructor; [|done]|apply Forall_cons in IH as [Hx Hxs]; constructor; [|done]]; cbn [Split]; rewrite E; [done|].
  by rewrite Hx.
Qed.

Lemma Split_concat l sep : l <> [] -> Split (String.concat (String sep EmptyString) l) sep = mjoin ((fun c => Split c sep) <$> l).
Proof.
  induction l as [|c l IH]; [done|]. intros _. destruct l as [|d l]; [cbn; by rewrite app_nil_r|].
  change (String.concat (String sep "") (c :: d :: l)) with (c +:+ String sep (String.concat (String sep "") (d :: l))).
  rewrite Split_app, IH by done. done.
Qed.

(** ** Characters *)

Abbreviation chars := String.list_ascii_of_string.

Lemma chars_rev s : chars (String.rev s) = rev (chars s).
Proof.
  assert (forall t, chars (String.rev_app s t) = (rev (chars s) ++ chars t)%list) as H.
  { induction s as [|a s IH]; intros t; cbn; [done|]. rewrite IH. cbn. by rewrite <- app_assoc. }
  unfold String.rev. rewrite H. cbn. apply app_nil_r.
Qed.

Lemma chars_inj s t : chars s = chars t -> s = t.
Proof. intros E. by rewrite <- (String.string_of_list_ascii_of_string s), E, String.string_of_list_ascii_of_string. Qed.

Lemma chars_length s : length (chars s) = String.length s.
Proof. induction s as [|a s IH]; cbn; [done|]. by rewrite IH. Qed.

Lemma Split_none s sep : Forall (fun a => a <> sep) (chars s) -> Split s sep = [s].
Proof.
  induction s as [|a s IH]; [done|]. cbn [String.list_ascii_of_string Split]. intros [Ha Hs]%Forall_cons. rewrite IH by done.
  by destruct (Ascii.eqb_spec a sep).
Qed.
