(* ===== verification/SafePath.v ===== *)
(** Paths below a root ([safepath/safepath.go]) over Go's lexical [path/filepath].

    The functions of [path/filepath] are those of a Unix system; the working directory,
    which [os.Getwd] reads, is an argument. *)

From S2P Require Import Prelude GoStrings.
From Stdlib Require Import Ascii.

#[local] Open Scope string_scope.

(** ** [path/filepath] *)

Definition IsAbs (path : string) : bool := HasPrefix path "/".

(** One element of a path; the elements kept so far are in reverse. *)
Definition clean_step (rooted : bool) (out : list string) (c : string) : list string :=
  if String.eqb c "" || String.eqb c "." then out
  else if String.eqb c ".." then
    match out with
    | top :: rest => if String.eqb top ".." then ".." :: out else rest
    | [] => if rooted then [] else [".."]
    end
  else c :: out.

Definition clean_parts (rooted : bool) (cs : list string) : list string := rev (fold_left (clean_step rooted) cs []).

Definition render (rooted : bool) (parts : list string) : string :=
  if rooted then "/" +:+ String.concat "/" parts
  else match parts with [] => "." | _ => String.concat "/" parts end.

Definition Clean (path : string) : string := render (IsAbs path) (clean_parts (IsAbs path) (Split path "/")).

Fixpoint filepath_Join (elems : list string) : string :=
  match elems with
  | [] => ""
  | e :: rest => if String.eqb e "" then filepath_Join rest else Clean (String.concat "/" elems)
  end.

Definition Abs (wd : result string string) (path : string) : result string string :=
  if IsAbs path then Ok (Clean path) else let? wd := wd in Ok (filepath_Join [wd; path]).

(** The words of a clean path. *)
Definition words (path : string) : list string :=
  let path := TrimPrefix path "/" in if String.eqb path "" then [] else Split path "/".

Fixpoint strip_common (base targ : list string) : list string * list string :=
  match base, targ with
  | x :: base', y :: targ' => if String.eqb x y then strip_common base' targ' else (base, targ)
  | _, _ => (base, targ)
  end.

Definition Rel (basepath targpath : string) : result string string :=
  let failure := "Rel: can't make " +:+ targpath +:+ " relative to " +:+ basepath in
  let base := Clean basepath in
  let targ := Clean targpath in
  if String.eqb targ base then Ok "."
  else
    let base := if String.eqb base "." then "" else base in
    if negb (Bool.eqb (IsAbs base) (IsAbs targ)) then Err failure
    else
      match strip_common (words base) (words targ) with
      | (".." :: _, _ :: _) => Err failure
      | (base, targ) => Ok (String.concat "/" (replicate (length base) ".." ++ targ)%list)
      end.

(** ** The package *)

Definition Join (wd : result string string) (root : string) (elems : list string) : result string string :=
  if String.eqb (TrimSpace root) "" then Err "root path is required"
  else
    match Abs wd root with
    | Err e => Err ("resolve root: " +:+ e)
    | Ok cleanRoot =>
        match Abs wd (filepath_Join (cleanRoot :: elems)) with
        | Err e => Err ("resolve target: " +:+ e)
        | Ok target =>
            match Rel cleanRoot target with
            | Err e => Err ("rel target: " +:+ e)
            | Ok rel =>
                if String.eqb rel ".." || HasPrefix rel "../" || IsAbs rel then Err "path escapes root" else Ok target
            end
        end
    end.

(** The bytes after the first rune, by the first byte and what follows it: a rune that is
    not well formed is one byte. *)
Definition in_range (lo hi : nat) (a : ascii) : bool := ((lo <=? nat_of_ascii a) && (nat_of_ascii a <=? hi))%nat.

Definition continues (lo hi : nat) (s : string) : option string :=
  match s with String a s => if in_range lo hi a then Some s else None | EmptyString => None end.

Definition then_cont (s : option string) : option string := match s with Some s => continues 128 191 s | None => None end.

Definition after_rune (a : ascii) (s : string) : string :=
  let n := nat_of_ascii a in
  default s
    (if n <? 194 then None
     else if n <=? 223 then continues 128 191 s
     else if n =? 224 then then_cont (continues 160 191 s)
     else if n =? 237 then then_cont (continues 128 159 s)
     else if n <=? 239 then then_cont (continues 128 191 s)
     else if n =? 240 then then_cont (then_cont (continues 144 191 s))
     else if n <=? 243 then then_cont (then_cont (continues 128 191 s))
     else if n =? 244 then then_cont (then_cont (continues 128 143 s))
     else None)%nat.

Definition plain_letter (a : ascii) : bool := in_range 97 122 a || in_range 65 90 a || in_range 48 57 a.
Definition plain (a : ascii) : bool := plain_letter a || existsb (Ascii.eqb a) ["."; "_"; "-"]%char.

(** What the builder holds after the loop, which stops at 160 bytes. *)
Fixpoint component_bytes (fuel room : nat) (value : string) : string :=
  match fuel, room, value with
  | S fuel, S room, String a s => String (if plain a then a else "_"%char) (component_bytes fuel room (after_rune a s))
  | _, _, _ => EmptyString
  end.

(** [strings.Trim(s, ".-_")]. *)
Definition trim_marks (s : string) : string :=
  let marks := ["."; "-"; "_"] in String.rev (trim_left marks (String.rev (trim_left marks s))).

Definition FileComponent (value : string) : string :=
  let out := trim_marks (component_bytes (String.length value) 160 value) in
  if String.eqb out "" then "item" else out.

Example Join_inside : Join (Ok "/srv") "media" ["cam"; "a/../b.jpg"] = Ok "/srv/media/cam/b.jpg".
Proof. reflexivity. Qed.

Example Join_outside : Join (Ok "/srv") "media" ["../secret"] = Err "path escapes root".
Proof. reflexivity. Qed.

Example FileComponent_path : FileComponent "../cam 1/é.jpg" = "cam_1__.jpg".
Proof. reflexivity. Qed.

(** ** Cleaning *)

(** An element of a path that names something in its directory. *)
Definition component (c : string) : Prop := Split c "/" = [c] /\ c <> "" /\ c <> "." /\ c <> "..".

Lemma components_split R : Forall component R -> mjoin ((fun c => Split c "/") <$> R) = R.
Proof. induction 1 as [|c R [Hc _] _ IH]; [done|].
  change (Split c "/" ++ mjoin ((fun c => Split c "/") <$> R) = c :: R)%list. by rewrite Hc, IH.
Qed.

Lemma clean_step_components out c : Forall component out -> Split c "/" = [c] -> Forall component (clean_step true out c).
Proof.
  intros Ho Hc. unfold clean_step. destruct (String.eqb_spec c ""), (String.eqb_spec c "."); cbn; try done.
  destruct (String.eqb_spec c ".."); [|by constructor].
  destruct Ho as [|top rest (_ & _ & _ & Ht) Hr]; [done|]. by destruct (String.eqb_spec top "..").
Qed.

Lemma clean_fold_components cs out : Forall component out -> Forall (fun c => Split c "/" = [c]) cs ->
  Forall component (fold_left (clean_step true) cs out).
Proof. intros Ho Hc. revert out Ho. induction Hc as [|c cs Hc _ IH]; intros out Ho; [done|]. apply IH. by apply clean_step_components. Qed.

Lemma clean_fold_keeps R out : Forall component R -> fold_left (clean_step true) R out = (rev R ++ out)%list.
Proof.
  intros HR. revert out. induction HR as [|c R (_ & H1 & H2 & H3) _ IH]; intros out; [done|]. cbn [fold_left rev].
  assert (clean_step true out c = c :: out) as ->.
  { unfold clean_step. destruct (String.eqb_spec c ""), (String.eqb_spec c "."), (String.eqb_spec c ".."); done. }
  by rewrite IH, <- app_assoc.
Qed.

Lemma IsAbs_render parts : IsAbs (render true parts) = true.
Proof. apply HasPrefix_spec. by eexists. Qed.

Lemma IsAbs_slash path : IsAbs path = true -> exists rest, path = String "/" rest.
Proof. intros [r ->]%HasPrefix_spec. by exists r. Qed.

(** Where following elements from the directory [R] leads. *)
Definition follow (R : list string) (path : list string) : list string := rev (fold_left (clean_step true) path (rev R)).

Lemma follow_components R path : Forall component R -> Forall (fun c => Split c "/" = [c]) path -> Forall component (follow R path).
Proof. intros HR Hp. apply Forall_rev, clean_fold_components; [by apply Forall_rev|done]. Qed.

Lemma Clean_rooted rest : Clean (String "/" rest) = render true (follow [] (Split rest "/")).
Proof. done. Qed.

Lemma render_split R : Forall component R -> Split (render true R) "/" = "" :: match R with [] => [""] | _ => R end.
Proof.
  intros HR. change (render true R) with (String "/" (String.concat "/" R)).
  change (Split (String "/" (String.concat "/" R)) "/") with ("" :: Split (String.concat "/" R) "/").
  f_equal. destruct R as [|c R]; [done|]. rewrite Split_concat by done. by apply components_split.
Qed.

(** Joining elements to a clean absolute path follows them from there. *)
Lemma filepath_Join_render R elems : Forall component R ->
  filepath_Join (render true R :: elems) = render true (follow R (mjoin ((fun e => Split e "/") <$> elems))).
Proof.
  intros HR. cbn [filepath_Join]. change (String.eqb (render true R) "") with false. cbv iota.
  assert (IsAbs (String.concat "/" (render true R :: elems)) = true) as Ha by (destruct elems; apply HasPrefix_spec; by eexists).
  unfold Clean. rewrite Ha. f_equal. unfold clean_parts, follow. f_equal.
  rewrite Split_concat by done. cbn [fmap list_fmap mjoin list_join]. rewrite render_split by done. rewrite fold_left_app. f_equal.
  destruct R as [|c R]; [done|]. change (fold_left (clean_step true) ("" :: c :: R) []) with (fold_left (clean_step true) (c :: R) []).
  rewrite clean_fold_keeps by done. by rewrite app_nil_r.
Qed.

Lemma Clean_render R : Forall component R -> Clean (render true R) = render true R.
Proof.
  intros HR. change (Clean (render true R)) with (filepath_Join [render true R]). rewrite (filepath_Join_render R [] HR).
  unfold follow. cbn. by rewrite rev_involutive.
Qed.

(** A clean absolute path: its own words, below the working directory unless it is absolute. *)
Lemma Abs_render wd path : IsAbs wd = true -> exists R, Abs (Ok wd) path = Ok (render true R) /\ Forall component R.
Proof.
  intros Hwd. unfold Abs. destruct (IsAbs path) eqn:Ha.
  - apply IsAbs_slash in Ha as [rest ->]. exists (follow [] (Split rest "/")). split; [done|]. apply follow_components; [done|apply Split_single].
  - apply IsAbs_slash in Hwd as [rest ->]. cbn [rbind]. exists (follow [] (mjoin ((fun e => Split e "/") <$> [rest; path]))).
    split; [f_equal|]; [|apply follow_components; [done|]; cbn; rewrite app_nil_r; apply Forall_app; split; apply Split_single].
    cbn -[Clean String.concat]. change (String.concat "/" [String "/" rest; path]) with (String "/" (String.concat "/" [rest; path])).
    rewrite Clean_rooted. by rewrite Split_concat by done.
Qed.

(** ** Joining under a root *)

Lemma words_render R : Forall component R -> words (render true R) = R.
Proof.
  intros HR. unfold words. change (TrimPrefix (render true R) "/") with (String.concat "/" R). destruct R as [|c R]; [done|].
  assert (Split (String.concat "/" (c :: R)) "/" = c :: R) as E by (rewrite Split_concat by done; by apply components_split).
  destruct (String.eqb_spec (String.concat "/" (c :: R)) "") as [Hn|_]; [|done]. rewrite Hn in E. injection E as <- <-.
  by apply Forall_cons in HR as [(_ & ? & _) _].
Qed.

Lemma render_inj R T : Forall component R -> Forall component T -> render true R = render true T -> R = T.
Proof. intros HR HT E. by rewrite <- (words_render R), <- (words_render T), E. Qed.

Lemma strip_common_spec R T b t : strip_common R T = (b, t) -> exists c, R = (c ++ b)%list /\ T = (c ++ t)%list /\
  forall x b' y t', b = x :: b' -> t = y :: t' -> x <> y.
Proof.
  revert T. induction R as [|x R IH]; intros T; cbn; [intros [= <- <-]; by exists []|].
  destruct T as [|y T]; [intros [= <- <-]; by exists []|]. destruct (String.eqb_spec x y) as [<-|Hne].
  - intros (c & -> & -> & H)%IH. by exists (x :: c).
  - intros [= <- <-]. exists []. split; [done|]. split; [done|]. by intros ? ? ? ? [= -> _] [= -> _].
Qed.

Lemma escapes_first c l : Split (String.concat "/" (c :: l)) "/" = c :: l ->
  let rel := String.concat "/" (c :: l) in
  String.eqb rel ".." || HasPrefix rel "../" || IsAbs rel = bool_decide (c = ".." \/ (c = "" /\ l <> [])).
Proof.
  intros E. cbn zeta. set (rel := String.concat "/" (c :: l)) in *. apply eq_true_iff_eq. rewrite bool_decide_eq_true, !orb_true_iff, String.eqb_eq.
  unfold IsAbs. rewrite !HasPrefix_spec. split.
  - intros [[Hr|[r Hr]]|[r Hr]]; rewrite Hr in E.
    + injection E as <- <-. by left.
    + change (Split ("../" +:+ r) "/") with (".." :: Split r "/") in E. injection E as <- _. by left.
    + change (Split ("/" +:+ r) "/") with ("" :: Split r "/") in E. injection E as <- <-. right. split; [done|]. apply Split_not_nil.
  - intros [->|[-> Hl]]; destruct l as [|d l]; [by left; left|left; right|done|right]; by eexists.
Qed.

Lemma Rel_render R T : Forall component R -> Forall component T ->
  exists rel, Rel (render true R) (render true T) = Ok rel /\
    (String.eqb rel ".." || HasPrefix rel "../" || IsAbs rel = true <-> ~ exists below, T = (R ++ below)%list).
Proof.
  intros HR HT. unfold Rel. rewrite !Clean_render by done. destruct (String.eqb_spec (render true T) (render true R)) as [E|Hne].
  - exists ".". split; [done|]. split; [done|]. apply render_inj in E as ->; [|done..]. intros []. exists []. by rewrite app_nil_r.
  - assert (String.eqb (render true R) "." = false) as -> by (by destruct (String.eqb_spec (render true R) ".")).
    cbv iota. rewrite !IsAbs_render. cbn [negb Bool.eqb]. rewrite !words_render by done.
    destruct (strip_common R T) as [b t] eqn:Es. apply strip_common_spec in Es as (c & -> & -> & Hd).
    apply Forall_app in HR as [_ Hb]. apply Forall_app in HT as [_ Ht].
    assert (t <> [] \/ b <> []) as Hsome by (destruct t, b; auto). exists (String.concat "/" (replicate (length b) ".." ++ t)%list). split.
    { destruct b as [|x b]; [done|]. apply Forall_cons in Hb as [(_ & _ & _ & Hx) _].
      destruct (String.eqb_spec x ".."); [done|]. destruct t; by repeat (case_match; try done). }
    assert (Forall (fun c => Split c "/" = [c]) (replicate (length b) ".." ++ t)%list) as Hsplit.
    { apply Forall_app. split; [by apply Forall_replicate|]. eapply Forall_impl; [exact Ht|]. by intros ? []. }
    assert (forall l : list string, l <> [] -> Forall (fun c => Split c "/" = [c]) l -> Split (String.concat "/" l) "/" = l) as Hl.
    { intros l Hnil Hf. rewrite Split_concat by done. clear Hnil. induction Hf as [|d l Hx _ IH]; [done|].
      change (Split d "/" ++ mjoin ((fun c => Split c "/") <$> l) = d :: l)%list. by rewrite Hx, IH. }
    destruct b as [|x b]; [destruct t as [|y t]; [naive_solver|]|].
    + rewrite app_nil_r. cbn [length replicate app]. rewrite escapes_first by (by apply Hl). rewrite bool_decide_eq_true.
      apply Forall_cons in Ht as [(_ & ? & _ & ?) _]. split; [naive_solver|]. intros []. by exists (y :: t).
    + cbn [length replicate app]. rewrite escapes_first by (by apply Hl). rewrite bool_decide_eq_true. split; [intros _|by left].
      intros [below Hbe]. rewrite <- app_assoc in Hbe. apply app_inv_head in Hbe. cbn in Hbe. by eapply Hd.
Qed.

(** C11: a path joined under a root stays there.  Following the elements from the root,
    up and down as they say, leads somewhere; when that is the root or below it, the
    answer is that path, each of its elements an ordinary name; when it is not, the
    answer is the error that the path escapes the root, and nothing else. *)
Theorem Join_stays_below wd root elems :
  IsAbs wd = true -> TrimSpace root <> "" ->
  exists R, Abs (Ok wd) root = Ok (render true R) /\ Forall component R /\
    let reached := follow R (mjoin ((fun e => Split e "/") <$> elems)) in
    Forall component reached /\
    ((exists below, reached = (R ++ below)%list) -> Join (Ok wd) root elems = Ok (render true reached)) /\
    ((~ exists below, reached = (R ++ below)%list) -> Join (Ok wd) root elems = Err "path escapes root").
Proof.
  intros Hwd Hroot. destruct (Abs_render wd root Hwd) as (R & Ha & HR). exists R. split; [done|]. split; [done|]. cbn zeta.
  set (reached := follow R _). assert (Forall component reached) as Hre.
  { apply follow_components; [done|]. apply Forall_join, Forall_fmap, Forall_true. intros e. apply Split_single. }
  split; [done|]. unfold Join. destruct (String.eqb_spec (TrimSpace root) "") as [|_]; [done|]. rewrite Ha, filepath_Join_render by done. fold reached.
  assert (Abs (Ok wd) (render true reached) = Ok (render true reached)) as -> by (unfold Abs; by rewrite IsAbs_render, Clean_render).
  destruct (Rel_render R reached HR Hre) as (rel & -> & Hrel). destruct (_ || IsAbs rel).
  - split; [|done]. intros Hb. by destruct (proj1 Hrel eq_refl).
  - split; [done|]. by intros Hn%Hrel.
Qed.

Lemma Join_stays_below_witness :
  Join (Ok "/srv") "media" ["cam"; "2024/../latest.jpg"] = Ok "/srv/media/cam/latest.jpg" /\
  Join (Ok "/srv") "media" [".."; "media2"] = Err "path escapes root".
Proof.
  assert (Abs (Ok "/srv") "media" = Ok (render true ["srv"; "media"])) as Ha by reflexivity. split.
  - destruct (Join_stays_below "/srv" "media" ["cam"; "2024/../latest.jpg"]) as (R & E & HR & _ & Hin & _); [done|done|].
    assert (R = ["srv"; "media"]) as -> by (apply render_inj; [done|by repeat constructor|congruence]).
    apply Hin. by exists ["cam"; "latest.jpg"].
  - destruct (Join_stays_below "/srv" "media" [".."; "media2"]) as (R & E & HR & _ & _ & Hout); [done|done|].
    assert (R = ["srv"; "media"]) as -> by (apply render_inj; [done|by repeat constructor|congruence]).
    apply Hout. by intros [below Hb].
Defined.

(** ** File names *)

Definition mark (a : ascii) : bool := existsb (Ascii.eqb a) ["."; "-"; "_"]%char.

Lemma strip_mark a s : strip_any ["."; "-"; "_"] (String a s) = if mark a then Some s else None.
Proof.
  unfold mark. cbn [strip_any strip_prefix existsb]. rewrite !(Ascii.eqb_sym a).
  by destruct (Ascii.eqb "." a), (Ascii.eqb "-" a), (Ascii.eqb "_" a).
Qed.

(** The marks at the front are dropped, and only those. *)
Lemma trim_left_marks s : exists n, chars (trim_left ["."; "-"; "_"] s) = drop n (chars s) /\
  (forall a, head (chars (trim_left ["."; "-"; "_"] s)) = Some a -> mark a = false).
Proof.
  unfold trim_left. assert (forall f, String.length s <= f -> exists n, chars (trim_fuel f ["."; "-"; "_"] s) = drop n (chars s) /\
    (forall a, head (chars (trim_fuel f ["."; "-"; "_"] s)) = Some a -> mark a = false))%nat as H; [|by apply H].
  induction s as [|a s IH]; intros f Hf; [exists 0%nat; by destruct f|]. destruct f as [|f]; [cbn in Hf; lia|].
  cbn [trim_fuel]. rewrite strip_mark. destruct (mark a) eqn:Em.
  - destruct (IH f) as (n & Hn & Hh); [cbn in Hf; lia|]. by exists (S n).
  - exists 0%nat. split; [done|]. by intros b [= <-].
Qed.

Lemma trim_left_none s : (forall a, head (chars s) = Some a -> mark a = false) -> trim_left ["."; "-"; "_"] s = s.
Proof. destruct s as [|a s]; intros H; [done|]. unfold trim_left. cbn [String.length trim_fuel]. by rewrite strip_mark, (H a). Qed.

Lemma last_rev {A} (l : list A) : last (rev l) = head l.
Proof. destruct l as [|a l]; [done|]. cbn [rev]. by rewrite last_snoc. Qed.

Lemma head_rev {A} (l : list A) : head (rev l) = last l.
Proof. by rewrite <- (rev_involutive l) at 2; rewrite last_rev. Qed.

Lemma trim_marks_spec s (P : ascii -> Prop) : Forall P (chars s) ->
  Forall P (chars (trim_marks s)) /\ (length (chars (trim_marks s)) <= length (chars s))%nat /\
  (forall a, head (chars (trim_marks s)) = Some a \/ last (chars (trim_marks s)) = Some a -> mark a = false).
Proof.
  intros HP. unfold trim_marks. rewrite chars_rev.
  destruct (trim_left_marks s) as (n & En & Hn). set (u := trim_left _ s) in *.
  destruct (trim_left_marks (String.rev u)) as (k & Ek & Hk). set (v := trim_left _ (String.rev u)) in *.
  rewrite chars_rev in Ek. split; [|split].
  - apply Forall_rev. rewrite Ek. apply Forall_drop, Forall_rev. rewrite En. by apply Forall_drop.
  - rewrite length_rev, Ek, length_drop, length_rev, En, length_drop. lia.
  - intros a [Ha|Ha]; [|rewrite last_rev in Ha; by apply Hk]. apply Hn. rewrite head_rev, Ek in Ha.
    rewrite <- last_rev, <- (take_drop k (rev (chars u))), last_app, Ha. done.
Qed.

Lemma trim_marks_none s : (forall a, head (chars s) = Some a \/ last (chars s) = Some a -> mark a = false) -> trim_marks s = s.
Proof.
  intros H. unfold trim_marks. rewrite (trim_left_none s) by auto. rewrite trim_left_none; [|intros a; rewrite chars_rev, head_rev; auto].
  apply chars_inj. by rewrite !chars_rev, rev_involutive.
Qed.

Definition is_plain (a : ascii) : Prop := plain a = true.

Lemma plain_mark a : is_plain a -> mark a = false -> plain_letter a = true.
Proof.
  unfold is_plain, plain, mark. cbn [existsb]. intros [Hl|Hm]%orb_true_iff; [done|].
  by destruct (Ascii.eqb a "."), (Ascii.eqb a "-"), (Ascii.eqb a "_").
Qed.

Lemma plain_ascii a : is_plain a -> (nat_of_ascii a < 128)%nat.
Proof. unfold is_plain. destruct a as [[] [] [] [] [] [] [] []]; first [intros Hp; vm_compute in Hp; discriminate|intros _; by apply Nat.ltb_lt]. Qed.

Lemma component_bytes_plain fuel room s : Forall is_plain (chars (component_bytes fuel room s)) /\
  (length (chars (component_bytes fuel room s)) <= room)%nat.
Proof.
  revert room s. induction fuel as [|fuel IH]; intros [|room] [|a s]; cbn -[after_rune plain]; try (split; [constructor|cbn; lia]).
  destruct (IH room (after_rune a s)) as [Hp Hl]. split; [|lia]. constructor; [|done]. unfold is_plain. by destruct (plain a) eqn:E.
Qed.

Lemma component_bytes_same s fuel room : Forall is_plain (chars s) -> (String.length s <= fuel)%nat -> (String.length s <= room)%nat ->
  component_bytes fuel room s = s.
Proof.
  revert fuel room. induction s as [|a s IH]; intros [|fuel] [|room] Hp Hf Hr; cbn in Hf, Hr; try done; try lia.
  cbn in Hp. apply Forall_cons in Hp as [Ha Hp]. cbn -[after_rune plain].
  pose proof (plain_ascii a Ha) as Hn. assert (after_rune a s = s) as ->.
  { unfold after_rune. destruct (Nat.ltb_spec (nat_of_ascii a) 194); [done|lia]. }
  rewrite IH by (done || lia). unfold is_plain in Ha. by rewrite Ha.
Qed.

Lemma plain_single s : Forall is_plain (chars s) -> Split s "/" = [s].
Proof.
  intros Hp. apply Split_none. eapply Forall_impl; [exact Hp|]. cbn. intros a Ha ->. by vm_compute in Ha.
Qed.

(** The name [FileComponent] makes of any text is one ordinary element of a path.
    It has at most 160 bytes, all of them letters, digits, dots, dashes and underscores,
    and begins and ends with a letter or digit; so it is never empty, never [.] or [..],
    and holds no separator, with or without an extension appended.  A name it made is
    left as it is. *)
Theorem FileComponent_is_a_component value ext :
  Forall is_plain (chars ext) ->
  let out := FileComponent value in
  Forall is_plain (chars out) /\ (String.length out <= 160)%nat /\
  (exists a b, head (chars out) = Some a /\ last (chars out) = Some b /\ plain_letter a = true /\ plain_letter b = true) /\
  component (out +:+ ext) /\ FileComponent out = out.
Proof.
  intros Hext. cbn zeta. set (out := FileComponent value).
  assert (Forall is_plain (chars out) /\ (String.length out <= 160)%nat /\ out <> "" /\
    (forall a, head (chars out) = Some a \/ last (chars out) = Some a -> mark a = false)) as (Hp & Hl & Hne & Hm).
  { subst out. unfold FileComponent. destruct (component_bytes_plain (String.length value) 160 value) as [Hp Hl].
    destruct (trim_marks_spec _ _ Hp) as (Hp' & Hl' & Hm). destruct (String.eqb_spec (trim_marks (component_bytes (String.length value) 160 value)) "") as [|Hne].
    - split; [by repeat constructor|]. split; [cbn; lia|]. split; [done|]. by intros a [[= <-]|[= <-]].
    - split; [done|]. split; [rewrite <- chars_length; lia|done]. }
  split; [done|]. split; [done|]. split; [|split].
  - destruct (head (chars out)) as [a|] eqn:Ea; [|by destruct out]. destruct (last (chars out)) as [b|] eqn:Eb; [|apply last_None in Eb; by destruct out].
    exists a, b. rewrite Forall_forall in Hp. split; [done|]. split; [done|].
    split; (apply plain_mark; [apply Hp|by apply Hm; auto]); [destruct out; [done|]; injection Ea as <-; by left|by apply last_Some_elem_of].
  - assert (chars (out +:+ ext) = chars out ++ chars ext)%list as Happ.
    { clear. induction out as [|a s IH]; [done|]. change (a :: chars (s +:+ ext) = a :: chars s ++ chars ext)%list. by rewrite IH. }
    destruct out as [|a s] eqn:Eo; [done|]. assert (mark a = false) as Ha by (apply Hm; by left).
    split; [apply plain_single; rewrite Happ; by apply Forall_app|].
    split; [done|]. split; intros E; change (String a (s +:+ ext) = ".") in E || change (String a (s +:+ ext) = "..") in E; by injection E as -> _.
  - unfold FileComponent at 1. rewrite component_bytes_same, trim_marks_none by (done || lia). by destruct (String.eqb_spec out "").
Qed.

Lemma FileComponent_is_a_component_witness : component (FileComponent "../front door-t7-1700000000000" +:+ ".jpg").
Proof. apply (FileComponent_is_a_component "../front door-t7-1700000000000" ".jpg"). by repeat constructor. Defined.
