(* ===== verification/CameraEvent.v ===== *)
(** The event every subsystem exchanges: [camera.Event] of
    [internal/camera/camera.go], with its category and kind vocabularies.

    Decoded images on their way with an event: the pixels a camera keeps
    ([rawToRGBA] of [camera/camera.go]) and the attachment of a notification
    ([snapshot/notification.go]).

    An image starts at the origin; its pixels are four bytes each, row by row. *)

From S2P Require Import Prelude Float64.
From Stdlib Require Import Ascii.

(** [camera.Event].  The three image attachments are decoded pixels that no
    modelled operation inspects; they are left out. *)
Record Event := mkEvent {
  ID : string;
  CameraName : string;
  Label : string;
  Score : float64;
  TrackID : Z;
  Box : Z * Z * Z * Z;
  Timestamp : Z;
  EndTime : Z;
  SnapshotPath : string;
  SnapshotAvailable : bool;
  ClipPath : string;
  ClipAvailable : bool;
  ZoneName : string;
  ObjectName : string;
  SubLabel : string;
  Kind : string;
  AnsweredAt : Z;
  AnsweredBy : string;
  Category : string
}.

Definition CategoryAlert : string := "alert".
Definition CategoryDetection : string := "detection".

Definition EventKindObject : string := "object".
Definition EventKindDoorbell : string := "doorbell".
Definition EventKindCry : string := "cry".

Definition stationaryTierLabels : list string := ["car"; "truck"; "bus"; "motorcycle"]%string.

(** A vehicle that has not moved is a detection; everything else is an alert. *)
Definition eventCategory (label : string) (moved : bool) : string :=
  if bool_decide (label ∈ stationaryTierLabels) && negb moved then CategoryDetection
  else CategoryAlert.

Lemma eventCategory_detection label moved :
  eventCategory label moved = CategoryDetection <-> label ∈ stationaryTierLabels /\ moved = false.
Proof.
  unfold eventCategory. destruct (bool_decide _) eqn:E; bool_to_prop; destruct moved; simpl;
    split; try done; intros [? ?]; done.
Qed.

(** * Decoded images *)

#[local] Open Scope Z_scope.

Record RGBA := mkRGBA { im_Dx : Z; im_Dy : Z; im_pixels : string }.

(** The resampling of [golang.org/x/image/draw], the JPEG codec, and the gray crop of
    sixty-four pixels a side [ApproxBiLinear] makes of a rectangle. *)
Class Imaging := {
  CatmullRom : Z -> Z -> RGBA -> string;
  encodeJPEG : RGBA -> Z -> option string;
  DecodeConfig : string -> option (Z * Z);
  ApproxBiLinear : Z -> Z -> RGBA -> string;
  gray_crop : RGBA -> Z * Z * Z * Z -> list Z
}.

(** An event on its way through the processor, with its images. *)
Record Submission := mkSubmission {
  sb_event : Event;
  sb_SnapshotImage : option RGBA;
  sb_AnnotatedImage : option RGBA
}.

Record EventEnd := mkEventEnd { ee_EventID : string; ee_CameraName : string; ee_EndTime : Z }.

(** The bytes of an image in memory. *)
Definition pix_len (img : RGBA) : Z := Z.of_nat (String.length (im_pixels img)).

(** ** Frames *)

(** [None] is the panic of a frame shorter than its size. *)
Fixpoint rgba_pixels (n : nat) (data : list Z) : option string :=
  match n, data with
  | O, _ => Some EmptyString
  | S n, r :: g :: b :: data =>
      let byte z := ascii_of_N (Z.to_N z) in
      rest ← rgba_pixels n data;
      Some (String (byte r) (String (byte g) (String (byte b) (String (byte 255) rest))))
  | S _, _ => None
  end.

Definition rawToRGBA (data : list Z) (w h : nat) : option RGBA :=
  mkRGBA (Z.of_nat w) (Z.of_nat h) <$> rgba_pixels (w * h) data.

(** ** The attachment of a notification *)

Definition NotificationJPEGMaxBytes : Z := Z.shiftl 2 20.
Definition notificationMaxSide : Z := 1280.

Section attachment.
Context `{Imaging}.

Definition shrink (img : RGBA) : RGBA :=
  let longest := Z.max (im_Dx img) (im_Dy img) in
  if notificationMaxSide <? longest then
    let width := Z.max 1 (im_Dx img * notificationMaxSide ÷ longest) in
    let height := Z.max 1 (im_Dy img * notificationMaxSide ÷ longest) in
    mkRGBA width height (ApproxBiLinear width height img)
  else img.

Definition EncodeNotificationJPEG (img : option RGBA) : result string string :=
  match img with
  | None => Err "notification image unavailable"%string
  | Some img =>
      if (im_Dx img <=? 0) || (im_Dy img <=? 0) then Err "notification image unavailable"%string
      else
        match encodeJPEG (shrink img) 85 with
        | None => Err "cannot encode notification image"%string
        | Some out =>
            if NotificationJPEGMaxBytes <? Z.of_nat (String.length out) then Err "notification image exceeds size limit"%string
            else Ok out
        end
  end.

Definition ValidNotificationJPEG (data : string) : bool :=
  let size := Z.of_nat (String.length data) in
  if (size =? 0) || (NotificationJPEGMaxBytes <? size) then false
  else
    match DecodeConfig data with
    | Some (width, height) => (0 <? width) && (0 <? height) && (width <=? notificationMaxSide) && (height <=? notificationMaxSide)
    | None => false
    end.
End attachment.

(** ** Lemmas *)

Lemma rgba_pixels_length n data s : rgba_pixels n data = Some s -> String.length s = (4 * n)%nat.
Proof.
  revert data s. induction n as [|n IH]; intros data s; cbn; [by intros [= <-]|].
  destruct data as [|r [|g [|b data]]]; try done. destruct (rgba_pixels n data) as [rest|] eqn:E; [|done].
  cbn. intros [= <-]. cbn. rewrite (IH _ _ E). lia.
Qed.

Lemma rgba_pixels_some n data : is_Some (rgba_pixels n data) <-> (3 * n <= length data)%nat.
Proof.
  revert data. induction n as [|n IH]; intros data; cbn; [split; [lia|by eexists]|].
  destruct data as [|r [|g [|b data]]]; cbn; try (split; [by intros []|lia]).
  specialize (IH data). destruct (rgba_pixels n data) as [rest|]; cbn.
  - split; [intros _|by eexists]. assert (3 * n <= length data)%nat by (by apply IH). lia.
  - split; [by intros []|]. intros Hl. destruct (proj2 IH ltac:(lia)). done.
Qed.

(** An attachment the encoder accepts fits in its bounds: at most the longest side, when
    the JPEG codec reads back the size it was given. *)
Lemma shrink_bounds `{Imaging} img : 0 < im_Dx img -> 0 < im_Dy img ->
  1 <= im_Dx (shrink img) <= notificationMaxSide /\ 1 <= im_Dy (shrink img) <= notificationMaxSide.
Proof.
  intros Hx Hy. unfold shrink. destruct (notificationMaxSide <? Z.max (im_Dx img) (im_Dy img)) eqn:E; bool_to_prop; [|lia]. cbn.
  set (l := Z.max (im_Dx img) (im_Dy img)) in *. unfold notificationMaxSide in *.
  assert (forall d, 0 < d <= l -> d * 1280 ÷ l <= 1280) as Hd.
  { intros d Hd. rewrite Z.quot_div_nonneg by lia. apply Z.div_le_upper_bound; nia. }
  pose proof (Hd (im_Dx img) ltac:(lia)). pose proof (Hd (im_Dy img) ltac:(lia)). lia.
Qed.

(** A prepared attachment passes the check of the queue. *)
Lemma prepared_attachment_is_valid `{Imaging} img out :
  (forall i q s, encodeJPEG i q = Some s -> s <> EmptyString /\ DecodeConfig s = Some (im_Dx i, im_Dy i)) ->
  EncodeNotificationJPEG img = Ok out -> ValidNotificationJPEG out = true.
Proof.
  intros Hjpeg. unfold EncodeNotificationJPEG. destruct img as [img|]; [|done]. destruct (_ || _) eqn:Ed; [done|]. bool_to_prop.
  destruct (encodeJPEG _ _) as [s|] eqn:Ee; [|done]. destruct (NotificationJPEGMaxBytes <? _) eqn:El; [done|]. intros [= <-].
  destruct (Hjpeg _ _ _ Ee) as [Hne Hdec]. unfold ValidNotificationJPEG. rewrite El, Hdec.
  assert (Z.of_nat (String.length s) =? 0 = false) as -> by (apply Z.eqb_neq; destruct s; [done|cbn; lia]). cbn [orb].
  destruct (shrink_bounds img) as [? ?]; [lia..|]. rewrite !andb_true_iff, !Z.ltb_lt, !Z.leb_le. lia.
Qed.
