(* ===== verification/ActivityStore.v ===== *)
(** The activity store: the [events], [activities], [activity_events] and
    [activity_event_corrections] tables of [internal/storage], and the
    transactions that group raw events into camera-local activities
    ([db_activities.go], the event writes of [db.go] and the retention deletes
    of [db_events_retention.go]).

    A table is a finite map from its primary (or unique) key to its row, so the
    constraints of the schema are built in; the foreign keys' [ON DELETE CASCADE]
    is written out in the two row deletions.  A transaction is a function on the
    whole store: one that returns an error leaves the store it was given, which
    is what its deferred rollback does.  [now] is the operation's clock reading. *)

From S2P Require Import Prelude Float64 GoStrings CameraEvent.

(** ** Tables *)

Definition activityMergeGap : Z := 90 * Second.

Inductive ActivityState := ActivityStateOpen | ActivityStateFinalized.

#[global] Instance ActivityState_eq_dec : EqDecision ActivityState.
Proof. solve_decision. Defined.

(** A row of [events]; the nullable columns are options. *)
Record EventRow := mkEventRow {
  e_camera : string;
  e_label : string;
  e_score : float64;
  e_box : Z * Z * Z * Z;
  e_timestamp : Z;
  e_end_time : option Z;
  e_snapshot_path : string;
  e_snapshot_available : bool;
  e_clip_path : string;
  e_clip_available : bool;
  e_zone_name : option string;
  e_object_name : option string;
  e_sub_label : option string;
  e_category : string;
  e_kind : string;
  e_answered_at : option Z;
  e_answered_by : option string
}.

(** A row of [activities]. *)
Record ActivityRow := mkActivityRow {
  a_camera : string;
  a_start_time : Z;
  a_end_time : Z;
  a_category : string;
  a_state : ActivityState;
  a_finalized_at : option Z;
  a_notification_queued_at : option Z;
  a_updated_at : Z
}.

(** A row of [activity_event_corrections]; the only action is an exclusion. *)
Record CorrectionRow := mkCorrectionRow {
  c_id : Z;
  c_activity : string;
  c_event : string;
  c_reason : string;
  c_actor : string;
  c_created_at : Z;
  c_restored_at : option Z;
  c_restored_by : option string
}.

(** The store.  [links] is [activity_events], keyed by its unique [event_id]. *)
Record DB := mkDB {
  events : gmap string EventRow;
  activities : gmap string ActivityRow;
  links : gmap string string;
  corrections : list CorrectionRow;
  next_correction : Z
}.

Definition empty_db : DB := mkDB ∅ ∅ ∅ [] 1.

Definition set_activities (f : gmap string ActivityRow -> gmap string ActivityRow) (db : DB) : DB :=
  mkDB (events db) (f (activities db)) (links db) (corrections db) (next_correction db).
Definition set_links (f : gmap string string -> gmap string string) (db : DB) : DB :=
  mkDB (events db) (activities db) (f (links db)) (corrections db) (next_correction db).
Definition set_events (f : gmap string EventRow -> gmap string EventRow) (db : DB) : DB :=
  mkDB (f (events db)) (activities db) (links db) (corrections db) (next_correction db).
Definition set_corrections (f : list CorrectionRow -> list CorrectionRow) (db : DB) : DB :=
  mkDB (events db) (activities db) (links db) (f (corrections db)) (next_correction db).

Inductive StoreError :=
| ErrActivityNotFound
| ErrActivityEvidenceMissing
| ErrActivityNeedsEvidence
| ErrNoEvidence (activity : string)
| ErrUnique (column : string)
| PanicIndex
| ErrFuel.

(** ** Statements shared by the transactions *)

(** [DELETE FROM activities WHERE id = ?], with its two cascades. *)
Definition delete_activity (id : string) (db : DB) : DB :=
  mkDB (events db) (delete id (activities db))
    (filter (fun kv => kv.2 <> id) (links db))
    (filter (fun c => c_activity c <> id) (corrections db)) (next_correction db).

(** [DELETE FROM events WHERE id = ?], with its two cascades. *)
Definition delete_event (id : string) (db : DB) : DB :=
  mkDB (delete id (events db)) (activities db) (delete id (links db))
    (filter (fun c => c_event c <> id) (corrections db)) (next_correction db).

(** [UPDATE activity_events SET activity_id = canonical WHERE activity_id = merged]. *)
Definition move_links (canonical merged : string) (db : DB) : DB :=
  set_links (fmap (fun a => if bool_decide (a = merged) then canonical else a)) db.

Definition set_c_activity (id : string) (c : CorrectionRow) : CorrectionRow :=
  mkCorrectionRow (c_id c) id (c_event c) (c_reason c) (c_actor c) (c_created_at c)
    (c_restored_at c) (c_restored_by c).

Definition moveActivityCorrectionsTx (canonical merged : string) (db : DB) : DB :=
  set_corrections
    (fmap (fun c => if bool_decide (c_activity c = merged) then set_c_activity canonical c else c)) db.

Definition set_notification (t : option Z) (a : ActivityRow) : ActivityRow :=
  mkActivityRow (a_camera a) (a_start_time a) (a_end_time a) (a_category a) (a_state a)
    (a_finalized_at a) t (a_updated_at a).

(** [notification_queued_at = COALESCE(notification_queued_at, (SELECT ... merged))]. *)
Definition preserveActivityNotificationTx (canonical merged : string) (db : DB) : DB :=
  set_activities
    (alter (fun a =>
      match a_notification_queued_at a with
      | Some _ => a
      | None => set_notification (activities db !! merged ≫= a_notification_queued_at) a
      end) canonical) db.

Definition reopenActivityTx (now : Z) (id : string) (db : DB) : DB :=
  set_activities
    (alter (fun a => mkActivityRow (a_camera a) (a_start_time a) (a_end_time a) (a_category a)
      ActivityStateOpen None (a_notification_queued_at a) now) id) db.

(** The four statements that fold one activity into another, in the code's order. *)
Definition merge_activity (canonical : string) (db : DB) (merged : string) : DB :=
  delete_activity merged
    (moveActivityCorrectionsTx canonical merged
      (move_links canonical merged
        (preserveActivityNotificationTx canonical merged db))).

Definition overlaps (camera : string) (lo hi : Z) (a : ActivityRow) : Prop :=
  a_camera a = camera /\ a_start_time a <= hi /\ lo <= a_end_time a.

#[global] Instance overlaps_dec camera lo hi a : Decision (overlaps camera lo hi a).
Proof. unfold overlaps. apply _. Defined.

(** [SELECT id, start_time FROM activities WHERE camera = ? AND id != ? AND
    start_time <= hi AND end_time >= lo ORDER BY start_time ASC, id ASC], as
    (start time, id) pairs; [except] is [None] where the query has no [id != ?]. *)
Definition neighboring (except : option string) (camera : string) (lo hi : Z) (db : DB)
    : list (Z * string) :=
  merge_sort time_id_le
    ((fun kv => (a_start_time kv.2, kv.1)) <$>
      filter (fun kv => Some kv.1 <> except /\ overlaps camera lo hi kv.2)
        (map_to_list (activities db))).

(** ** Reconciliation *)

(** The evidence rows of one activity: [activity_events ae JOIN events e]. *)
Definition evidence (db : DB) (id : string) : list (string * EventRow) :=
  filter (fun kv => links db !! kv.1 = Some id) (map_to_list (events db)).

Definition e_end (e : EventRow) : Z := default (e_timestamp e) (e_end_time e).

Definition is_alert (e : EventRow) : bool := bool_decide (e_category e = CategoryAlert).

Definition string_min (s t : string) : string := if decide (String.le s t) then s else t.

(** The aggregates of the summary query: minimal camera, minimal timestamp,
    maximal [COALESCE(end_time, timestamp)] and the category. *)
Definition summarize (rows : list (string * EventRow)) : option (string * Z * Z * string) :=
  match snd <$> rows with
  | [] => None
  | e :: es =>
      Some (fold_left (fun m x => string_min m (e_camera x)) es (e_camera e),
            fold_left (fun m x => Z.min m (e_timestamp x)) es (e_timestamp e),
            fold_left (fun m x => Z.max m (e_end x)) es (e_end e),
            if existsb is_alert (e :: es)
            then CategoryAlert else CategoryDetection)
  end.

Definition set_summary (now : Z) (s : string * Z * Z * string) (a : ActivityRow) : ActivityRow :=
  let '(camera, start, end_, category) := s in
  mkActivityRow camera start end_ category (a_state a) (a_finalized_at a)
    (a_notification_queued_at a) now.

(** The earliest of the activity and its neighbors; an equal start is decided by id. *)
Definition canonical_of (self : Z * string) (neighbors : list (Z * string)) : Z * string :=
  fold_left (fun c n =>
    if Before n.1 c.1 || ((n.1 =? c.1) && String.ltb n.2 c.2) then n else c) neighbors self.

(** [reconcileActivityTx]: one loop iteration per unit of fuel; the answer is the
    store and the surviving id, empty when no evidence is left. *)
Fixpoint reconcile_fuel (fuel : nat) (now : Z) (id : string) (db : DB)
    : result StoreError (DB * string) :=
  match fuel with
  | O => Err ErrFuel
  | S fuel =>
      if bool_decide (id = ""%string) then Ok (db, ""%string)
      else
        match summarize (evidence db id) with
        | None => Ok (delete_activity id db, ""%string)
        | Some s =>
            let '(camera, start, end_, category) := s in
            let db := set_activities (alter (set_summary now s) id) db in
            let neighbors := neighboring (Some id) camera
              (Add start (- activityMergeGap)) (Add end_ activityMergeGap) db in
            match neighbors with
            | [] => Ok (db, id)
            | _ =>
                let canonical := (canonical_of (start, id) neighbors).2 in
                let mergeIDs := filter (fun m => m <> canonical) (id :: (snd <$> neighbors)) in
                reconcile_fuel fuel now canonical
                  (fold_left (merge_activity canonical) mergeIDs db)
            end
        end
  end.

(** Every iteration that does not return removes at least one activity. *)
Definition reconcileActivityTx (now : Z) (id : string) (db : DB) : result StoreError (DB * string) :=
  reconcile_fuel (S (size (activities db))) now id db.

(** ** Event assignment *)

Definition eventActivityBounds (ev : Event) : Z * Z :=
  let start := Timestamp ev in
  let end_ := if negb (IsZero (EndTime ev)) && After (EndTime ev) (Timestamp ev)
              then EndTime ev else start in
  (start, end_).

Definition assignEventToActivityTx (now : Z) (ev : Event) (db : DB) : result StoreError DB :=
  if bool_decide (Kind ev = EventKindCry) then Ok db
  else
    let '(start, end_) := eventActivityBounds ev in
    let candidates := neighboring None (CameraName ev)
      (Add start (- activityMergeGap)) (Add end_ activityMergeGap) db in
    let? (activityID, db) :=
      match candidates with
      | [] =>
          let activityID := ("act_" +:+ ID ev)%string in
          let category := if bool_decide (Category ev = ""%string) then CategoryAlert else Category ev in
          match activities db !! activityID with
          | Some _ => Err (ErrUnique "activities.id")
          | None =>
              Ok (activityID,
                  set_activities (<[activityID := mkActivityRow (CameraName ev) start end_ category
                    ActivityStateOpen None None now]>) db)
          end
      | (_, canonical) :: rest =>
          Ok (canonical, fold_left (merge_activity canonical) (snd <$> rest) db)
      end in
    let db := set_links (<[ID ev := activityID]>) db in
    let? (db, activityID) := reconcileActivityTx now activityID db in
    if bool_decide (activityID = ""%string) then Ok db
    else Ok (reopenActivityTx now activityID db).

Definition nullString (s : string) : option string :=
  if bool_decide (s = ""%string) then None else Some s.
Definition nullTime (t : Z) : option Z := if IsZero t then None else Some t.

(** The row [SaveEvent] inserts. *)
Definition event_row (ev : Event) : EventRow :=
  mkEventRow (CameraName ev) (Label ev) (Score ev) (Box ev) (Timestamp ev)
    (nullTime (EndTime ev)) (SnapshotPath ev) (SnapshotAvailable ev) (ClipPath ev)
    (ClipAvailable ev) (nullString (ZoneName ev)) (nullString (ObjectName ev))
    (nullString (SubLabel ev))
    (if bool_decide (Category ev = ""%string) then CategoryAlert else Category ev)
    (if bool_decide (Kind ev = ""%string) then EventKindObject else Kind ev)
    (nullTime (AnsweredAt ev)) (nullString (AnsweredBy ev)).

(** [scanEvents], for one row: NULLs become Go zero values, and the fields that
    have no column keep theirs. *)
Definition scan_event (id : string) (e : EventRow) : Event :=
  mkEvent id (e_camera e) (e_label e) (e_score e) 0 (e_box e) (e_timestamp e)
    (default zero_time (e_end_time e)) (e_snapshot_path e) (e_snapshot_available e)
    (e_clip_path e) (e_clip_available e) (default ""%string (e_zone_name e))
    (default ""%string (e_object_name e)) (default ""%string (e_sub_label e)) (e_kind e)
    (default zero_time (e_answered_at e)) (default ""%string (e_answered_by e)) (e_category e).

Definition SaveEvent (now : Z) (ev : Event) (db : DB) : result StoreError DB :=
  match events db !! ID ev with
  | Some _ => Err (ErrUnique "events.id")
  | None => assignEventToActivityTx now ev (set_events (<[ID ev := event_row ev]>) db)
  end.

(** [UpdateEventEndTime].  An activity whose evidence changed is reconciled and reopened. *)
Definition set_end_time (t : Z) (e : EventRow) : EventRow :=
  mkEventRow (e_camera e) (e_label e) (e_score e) (e_box e) (e_timestamp e) (Some t)
    (e_snapshot_path e) (e_snapshot_available e) (e_clip_path e) (e_clip_available e)
    (e_zone_name e) (e_object_name e) (e_sub_label e) (e_category e) (e_kind e)
    (e_answered_at e) (e_answered_by e).

Definition UpdateEventEndTime (now : Z) (eventID : string) (endTime : Z) (db : DB)
    : result StoreError DB :=
  let db := set_events (alter (set_end_time endTime) eventID) db in
  let activityID := default ""%string (links db !! eventID) in
  if bool_decide (activityID = ""%string) then Ok db
  else
    let? (db, survivingID) := reconcileActivityTx now activityID db in
    if bool_decide (survivingID = ""%string) then Ok db
    else Ok (reopenActivityTx now survivingID db).

(** [UpdateEventAnswered]: the first answerer wins. *)
Definition set_answered (t : Z) (by_ : string) (e : EventRow) : EventRow :=
  mkEventRow (e_camera e) (e_label e) (e_score e) (e_box e) (e_timestamp e) (e_end_time e)
    (e_snapshot_path e) (e_snapshot_available e) (e_clip_path e) (e_clip_available e)
    (e_zone_name e) (e_object_name e) (e_sub_label e) (e_category e) (e_kind e)
    (Some t) (Some by_).

Definition UpdateEventAnswered (eventID : string) (answeredAt : Z) (answeredBy : string) (db : DB) : DB :=
  set_events (alter (fun e => match e_answered_at e with
                              | Some _ => e
                              | None => set_answered answeredAt answeredBy e
                              end) eventID) db.

(** ** Deletion *)

Definition DeleteEvent (now : Z) (id : string) (db : DB) : result StoreError DB :=
  let activityID := default ""%string (links db !! id) in
  let db := delete_event id db in
  if bool_decide (activityID = ""%string) then Ok db
  else let? (db, _) := reconcileActivityTx now activityID db in Ok db.

Definition eventDeleteBatchSize : Z := 500.

(** [SELECT id FROM events WHERE timestamp < ? ORDER BY timestamp LIMIT ?].  The
    query leaves ties open; they are broken by id here. *)
Definition expiredEventIDs (cutoff : Z) (limit : Z) (db : DB) : list string :=
  take (Z.to_nat limit)
    (snd <$> merge_sort time_id_le
      ((fun kv => (e_timestamp kv.2, kv.1)) <$>
        filter (fun kv => e_timestamp kv.2 < cutoff) (map_to_list (events db)))).

(** [SELECT DISTINCT activity_id FROM activity_events WHERE event_id IN (...)]. *)
Definition activityIDsForEvents (ids : list string) (db : DB) : list string :=
  remove_dups (omap (fun id => links db !! id) ids).

Fixpoint reconcile_all (now : Z) (ids : list string) (db : DB) : result StoreError DB :=
  match ids with
  | [] => Ok db
  | id :: ids => let? (db, _) := reconcileActivityTx now id db in reconcile_all now ids db
  end.

(** One retention transaction: the number of events it removed and the store. *)
Definition deleteEventBatch (now cutoff batchSize : Z) (db : DB) : result StoreError (Z * DB) :=
  match expiredEventIDs cutoff batchSize db with
  | [] => Ok (0, db)
  | ids =>
      let activityIDs := activityIDsForEvents ids db in
      let db := fold_left (fun db id => delete_event id db) ids db in
      let? db := reconcile_all now activityIDs db in
      Ok (Z.of_nat (length ids), db)
  end.

(** [deleteEventsOlderThan]'s loop, one batch per unit of fuel. *)
Fixpoint delete_loop (fuel : nat) (now cutoff batchSize total : Z) (db : DB)
    : result StoreError (Z * DB) :=
  match fuel with
  | O => Err ErrFuel
  | S fuel =>
      let? (deleted, db) := deleteEventBatch now cutoff batchSize db in
      let total := total + deleted in
      if deleted <? batchSize then Ok (total, db)
      else delete_loop fuel now cutoff batchSize total db
  end.

Definition deleteEventsOlderThan (now cutoff batchSize : Z) (db : DB) : result StoreError (Z * DB) :=
  let batchSize := if batchSize <=? 0 then eventDeleteBatchSize else batchSize in
  delete_loop (S (size (events db))) now cutoff batchSize 0 db.

Definition DeleteEventsOlderThan (now cutoff : Z) (db : DB) : result StoreError (Z * DB) :=
  deleteEventsOlderThan now cutoff eventDeleteBatchSize db.

(** [backfillActivities]: every stored event, in [(timestamp, id)] order. *)
Definition events_in_order (rows : list (string * EventRow)) : list Event :=
  (fun kv => scan_event kv.1 kv.2) <$>
    merge_sort (fun p q => time_id_le (e_timestamp p.2, p.1) (e_timestamp q.2, q.1)) rows.

Fixpoint assign_all (now : Z) (evs : list Event) (db : DB) : result StoreError DB :=
  match evs with
  | [] => Ok db
  | ev :: evs => let? db := assignEventToActivityTx now ev db in assign_all now evs db
  end.

Definition backfillActivities (now : Z) (db : DB) : result StoreError DB :=
  assign_all now (events_in_order (map_to_list (events db))) db.

(** Schema version 8 closes the activities an upgrade finds, and marks them as already
    considered for a notification. *)
Definition finalize_historical (a : ActivityRow) : ActivityRow :=
  mkActivityRow (a_camera a) (a_start_time a) (a_end_time a) (a_category a) ActivityStateFinalized
    (Some (default (a_updated_at a) (a_finalized_at a)))
    (Some (default (default (a_updated_at a) (a_finalized_at a)) (a_notification_queued_at a)))
    (a_updated_at a).

Definition finalizeHistoricalActivities (db : DB) : DB := set_activities (fmap finalize_historical) db.

(** ** Reading activities *)

Record ActivityGrouping := mkActivityGrouping {
  Strategy : string;
  QuietPeriodSeconds : Z;
  Explanation : string
}.

Record ActivityEvidenceCorrection := mkActivityEvidenceCorrection {
  x_event : Event;
  x_action : string;
  x_reason : string;
  x_actor : string;
  x_created_at : Z
}.

Record Activity := mkActivity {
  act_ID : string;
  act_CameraName : string;
  act_StartTime : Z;
  act_EndTime : Z;
  act_Category : string;
  act_State : ActivityState;
  act_ClosesAt : Z;
  act_FinalizedAt : option Z;
  act_UpdatedAt : Z;
  act_EventCount : Z;
  act_DurationSeconds : Z;
  act_Labels : list string;
  act_Zones : list string;
  act_RecognizedNames : list string;
  act_HasDoorbell : bool;
  act_MissedDoorbell : bool;
  act_Grouping : ActivityGrouping;
  act_PrimaryEvent : Event;
  act_Events : list Event;
  act_ExcludedEvidence : list ActivityEvidenceCorrection
}.

Definition activity_grouping : ActivityGrouping :=
  mkActivityGrouping "camera_local_quiet_period" (activityMergeGap ÷ Second)
    "Evidence from the same camera is grouped while detections remain no more than 90 seconds apart.".

Definition sortedKeys (values : list string) : list string :=
  merge_sort String.le (elements (list_to_set values : gset string)).

(** The rank by which the primary event is chosen. *)
Definition event_rank (ev : Event) : float64 :=
  let rank := Score ev in
  let rank := if SnapshotAvailable ev then fadd rank (f64_of_Z 1000) else rank in
  let rank := if bool_decide (Category ev <> CategoryDetection) then fadd rank (f64_of_Z 100) else rank in
  if bool_decide (SubLabel ev <> ""%string) || bool_decide (ObjectName ev <> ""%string)
  then fadd rank (f64_of_Z 50) else rank.

(** The scan for the best rank, from [best = -1] (here [None]) and [bestScore = -1.0]. *)
Definition best_event (evs : list Event) : option Event :=
  (fold_left (fun '(best, bestScore) ev =>
     let rank := event_rank ev in
     if fgt rank bestScore then (Some ev, rank) else (best, bestScore))
   evs (None, f64_of_Z (-1))).1.

Definition event_names (ev : Event) : list string :=
  filter (fun n => n <> ""%string /\ n <> "_ignored"%string) [SubLabel ev; ObjectName ev].

Definition is_doorbell (ev : Event) : bool := bool_decide (Kind ev = EventKindDoorbell).

Definition activity_events_of (db : DB) (id : string) : list Event := events_in_order (evidence db id).

(** The active corrections of an activity whose event still exists. *)
Definition correction_le (c d : CorrectionRow) : Prop :=
  c_created_at c < c_created_at d \/ (c_created_at c = c_created_at d /\ c_id c <= c_id d).

#[global] Instance correction_le_dec : RelDecision correction_le.
Proof. intros c d. unfold correction_le. apply _. Defined.

Definition excluded_evidence (db : DB) (id : string) : list ActivityEvidenceCorrection :=
  omap (fun c =>
      (fun e => mkActivityEvidenceCorrection (scan_event (c_event c) e) "excluded"
                  (c_reason c) (c_actor c) (c_created_at c)) <$> events db !! c_event c)
    (merge_sort correction_le
      (filter (fun c => c_activity c = id /\ c_restored_at c = None) (corrections db))).

(** [scanActivityBase] followed by [hydrateActivity]. *)
Definition hydrateActivity (includeEvents : bool) (id : string) (a : ActivityRow) (db : DB)
    : result StoreError Activity :=
  let evs := activity_events_of db id in
  match evs with
  | [] => Err (ErrNoEvidence id)
  | _ =>
      match best_event evs with
      | None => Err PanicIndex
      | Some primary =>
          Ok (mkActivity id (a_camera a) (a_start_time a) (a_end_time a) (a_category a) (a_state a)
                (Add (a_end_time a) activityMergeGap) (a_finalized_at a) (a_updated_at a)
                (Z.of_nat (length evs))
                (Z.max (default 0 (f64_trunc (Seconds (Sub (a_end_time a) (a_start_time a))))) 0)
                (sortedKeys (filter (fun l => l <> ""%string) (Label <$> evs)))
                (sortedKeys (filter (fun l => l <> ""%string) (ZoneName <$> evs)))
                (sortedKeys (evs ≫= event_names))
                (existsb is_doorbell evs)
                (existsb (fun ev => is_doorbell ev && IsZero (AnsweredAt ev)) evs)
                activity_grouping primary
                (if includeEvents then evs else [])
                (if includeEvents then excluded_evidence db id else []))
      end
  end.

Definition GetActivityByID (id : string) (db : DB) : result StoreError (option Activity) :=
  match activities db !! id with
  | None => Ok None
  | Some a => let? act := hydrateActivity true id a db in Ok (Some act)
  end.

Definition GetActivityByEventID (eventID : string) (db : DB) : result StoreError (option Activity) :=
  match links db !! eventID with
  | None => Ok None
  | Some id =>
      match activities db !! id with
      | None => Ok None
      | Some a => let? act := hydrateActivity false id a db in Ok (Some act)
      end
  end.

(** ** Operator corrections

    The answer is the store after the transaction and what the method returns;
    an error before the commit leaves the store it found. *)

Definition active_correction (activityID eventID : string) (c : CorrectionRow) : Prop :=
  c_activity c = activityID /\ c_event c = eventID /\ c_restored_at c = None.

#[global] Instance active_correction_dec a e c : Decision (active_correction a e c).
Proof. unfold active_correction. apply _. Defined.

Definition evidence_count (db : DB) (activityID : string) : Z :=
  Z.of_nat (size (filter (fun kv => kv.2 = activityID) (links db))).

Definition record_exclusion (now : Z) (activityID eventID reason actor : string) (db : DB) : DB :=
  mkDB (events db) (activities db) (links db)
    (corrections db ++
       [mkCorrectionRow (next_correction db) activityID eventID reason actor now None None])
    (next_correction db + 1).

Definition ExcludeActivityEvidence (now : Z) (activityID eventID reason actor : string) (db : DB)
    : DB * result StoreError (option Activity) :=
  match activities db !! activityID with
  | None => (db, Err ErrActivityNotFound)
  | Some _ =>
      if existsb (fun c => bool_decide (active_correction activityID eventID c)) (corrections db)
      then (db, GetActivityByID activityID db)
      else if negb (bool_decide (links db !! eventID = Some activityID))
      then (db, Err ErrActivityEvidenceMissing)
      else if evidence_count db activityID <=? 1 then (db, Err ErrActivityNeedsEvidence)
      else if existsb (fun c => bool_decide (c_event c = eventID /\ c_restored_at c = None)) (corrections db)
      then (db, Err (ErrUnique "activity_event_corrections.event_id"))
      else
        let reason := TrimSpace reason in
        let reason := if bool_decide (reason = ""%string)
                      then "Does not belong to this activity"%string else reason in
        let actor := TrimSpace actor in
        let actor := if bool_decide (actor = ""%string) then "local"%string else actor in
        let db1 := record_exclusion now activityID eventID reason actor db in
        let db1 := set_links (delete eventID) db1 in
        match reconcileActivityTx now activityID db1 with
        | Err e => (db, Err e)
        | Ok (db2, survivingID) =>
            if bool_decide (survivingID = ""%string) then (db, Err ErrActivityNeedsEvidence)
            else (db2, GetActivityByID survivingID db2)
        end
  end.

Definition restore_correction (now : Z) (actor : string) (c : CorrectionRow) : CorrectionRow :=
  mkCorrectionRow (c_id c) (c_activity c) (c_event c) (c_reason c) (c_actor c) (c_created_at c)
    (Some now) (Some actor).

Definition RestoreActivityEvidence (now : Z) (activityID eventID actor : string) (db : DB)
    : DB * result StoreError (option Activity) :=
  match activities db !! activityID with
  | None => (db, Err ErrActivityNotFound)
  | Some _ =>
      match filter (active_correction activityID eventID) (corrections db) with
      | [] => (db, Err ErrActivityEvidenceMissing)
      | c :: _ =>
          let actor := TrimSpace actor in
          let actor := if bool_decide (actor = ""%string) then "local"%string else actor in
          match links db !! eventID with
          | Some _ => (db, Err (ErrUnique "activity_events.event_id"))
          | None =>
              let db1 := set_corrections
                (fmap (fun d => if bool_decide (c_id d = c_id c) then restore_correction now actor d else d)) db in
              let db1 := set_links (<[eventID := activityID]>) db1 in
              match reconcileActivityTx now activityID db1 with
              | Err e => (db, Err e)
              | Ok (db2, survivingID) => (db2, GetActivityByID survivingID db2)
              end
          end
      end
  end.

(** ** Lifecycle *)

Definition finalize_row (now : Z) (a : ActivityRow) : ActivityRow :=
  match a_state a with
  | ActivityStateOpen =>
      mkActivityRow (a_camera a) (a_start_time a) (a_end_time a) (a_category a)
        ActivityStateFinalized (Some now) (a_notification_queued_at a) now
  | ActivityStateFinalized => a
  end.

Definition due (now : Z) (a : ActivityRow) : Prop :=
  a_state a = ActivityStateOpen /\ a_end_time a <= Add now (- activityMergeGap).

#[global] Instance due_dec now a : Decision (due now a).
Proof. unfold due. apply _. Defined.

Definition clamp_limit (limit : Z) : nat := Z.to_nat (if limit <=? 0 then 100 else limit).

Definition due_ids (now limit : Z) (db : DB) : list string :=
  take (clamp_limit limit)
    (snd <$> merge_sort time_id_le
      ((fun kv => (a_end_time kv.2, kv.1)) <$>
        filter (fun kv => due now kv.2) (map_to_list (activities db)))).

Fixpoint get_all (get : string -> result StoreError (option Activity)) (ids : list string)
    : result StoreError (list Activity) :=
  match ids with
  | [] => Ok []
  | id :: ids =>
      let? act := get id in
      let? acts := get_all get ids in
      Ok (match act with Some a => a :: acts | None => acts end)
  end.

Definition FinalizeDueActivities (now limit : Z) (db : DB) : DB * result StoreError (list Activity) :=
  let ids := due_ids now limit db in
  let db := fold_left (fun db id => set_activities (alter (finalize_row now) id) db) ids db in
  (db, get_all (fun id => GetActivityByID id db) ids).

(** A NULL sorts before every value in an ascending [ORDER BY]. *)
Definition null_time_id_le (p q : option Z * string) : Prop :=
  match p.1, q.1 with
  | None, Some _ => True
  | None, None => String.le p.2 q.2
  | Some _, None => False
  | Some t, Some u => time_id_le (t, p.2) (u, q.2)
  end.

#[global] Instance null_time_id_le_dec : RelDecision null_time_id_le.
Proof. intros [[t|] x] [[u|] y]; unfold null_time_id_le; simpl; apply _. Defined.

Definition notification_pending (a : ActivityRow) : Prop :=
  a_state a = ActivityStateFinalized /\ a_category a <> CategoryDetection /\
  a_notification_queued_at a = None.

#[global] Instance notification_pending_dec a : Decision (notification_pending a).
Proof. unfold notification_pending. apply _. Defined.

Definition pending_ids (limit : Z) (db : DB) : list string :=
  take (clamp_limit limit)
    (snd <$> merge_sort null_time_id_le
      ((fun kv => (a_finalized_at kv.2, kv.1)) <$>
        filter (fun kv => notification_pending kv.2) (map_to_list (activities db)))).

Definition PendingActivityNotifications (limit : Z) (db : DB) : result StoreError (list Activity) :=
  get_all (fun id =>
    match activities db !! id with
    | None => Ok None
    | Some a => let? act := hydrateActivity false id a db in Ok (Some act)
    end) (pending_ids limit db).

(** The answer says whether exactly one row was updated. *)
Definition MarkActivityNotificationQueued (id : string) (at_ : Z) (db : DB) : DB * bool :=
  match activities db !! id with
  | Some a =>
      if bool_decide (a_state a = ActivityStateFinalized /\ a_notification_queued_at a = None)
      then (set_activities (<[id :=
              mkActivityRow (a_camera a) (a_start_time a) (a_end_time a) (a_category a) (a_state a)
                (a_finalized_at a) (Some at_) at_]>) db, true)
      else (db, false)
  | None => (db, false)
  end.
