(* ===== verification/ActivityInvariant.v ===== *)
(** The well-formedness of the activity store, and the preservation lemmas of
    its statements and of [reconcileActivityTx]. *)

From S2P Require Import Prelude CameraEvent ActivityStore.

(** ** The invariant *)

(** [row] is evidence of activity [id]. *)
Definition member (db : DB) (id : string) (row : EventRow) : Prop :=
  exists e, events db !! e = Some row /\ links db !! e = Some id.

(** The row [a] of activity [id] is the exact summary of its evidence. *)
Record summarizes (db : DB) (id : string) (a : ActivityRow) : Prop := {
  sum_start_le row : member db id row -> a_start_time a <= e_timestamp row;
  sum_start_at : exists row, member db id row /\ e_timestamp row = a_start_time a;
  sum_end_ge row : member db id row -> e_end row <= a_end_time a;
  sum_end_at : exists row, member db id row /\ e_end row = a_end_time a;
  sum_category :
    (a_category a = CategoryAlert /\ exists row, member db id row /\ e_category row = CategoryAlert) \/
    (a_category a = CategoryDetection /\ forall row, member db id row -> e_category row <> CategoryAlert)
}.

(** Two activities of one camera are more than the quiet period apart. *)
Definition apart (a b : ActivityRow) : Prop :=
  a_camera a = a_camera b ->
  a_end_time a + activityMergeGap < a_start_time b \/
  a_end_time b + activityMergeGap < a_start_time a.

Definition active (c : CorrectionRow) : Prop := c_restored_at c = None.

(** Inside a transaction the activities of [stale] may have outdated summaries,
    and those of [loose] may overlap a neighbor; [wf] below is the committed
    state's invariant, with neither. *)
Record wf_upto (stale loose : string -> Prop) (db : DB) : Prop := {
  wf_link_event e id : links db !! e = Some id ->
    exists row, events db !! e = Some row /\ e_kind row <> EventKindCry;
  wf_link_activity e id : links db !! e = Some id -> is_Some (activities db !! id);
  wf_camera id a row : activities db !! id = Some a -> member db id row -> e_camera row = a_camera a;
  wf_correction c : c ∈ corrections db ->
    exists row a, events db !! c_event c = Some row /\ activities db !! c_activity c = Some a /\
      e_camera row = a_camera a /\ e_kind row <> EventKindCry;
  wf_excluded c : c ∈ corrections db -> active c -> links db !! c_event c = None;
  wf_active_unique c d : c ∈ corrections db -> d ∈ corrections db ->
    active c -> active d -> c_event c = c_event d -> c = d;
  wf_correction_id c d : c ∈ corrections db -> d ∈ corrections db -> c_id c = c_id d -> c = d;
  wf_correction_next c : c ∈ corrections db -> c_id c < next_correction db;
  wf_finalized id a : activities db !! id = Some a ->
    (a_state a = ActivityStateFinalized <-> is_Some (a_finalized_at a));
  wf_named a : activities db !! ""%string = Some a -> False;
  wf_summary id a : activities db !! id = Some a -> ~ stale id -> summarizes db id a;
  wf_apart i j a b : i <> j -> activities db !! i = Some a -> activities db !! j = Some b ->
    ~ loose i -> ~ loose j -> apart a b
}.

Definition nobody (_ : string) : Prop := False.
Definition wf : DB -> Prop := wf_upto nobody nobody.

Lemma not_nobody x : ~ nobody x.
Proof. intros []. Qed.
#[export] Hint Resolve not_nobody : core.

Lemma empty_db_wf : wf empty_db.
Proof.
  split; simpl; intros *; rewrite ?lookup_empty, ?elem_of_nil; done.
Qed.

Lemma wf_upto_weaken (S S' L L' : string -> Prop) db :
  (forall x, S x -> S' x) -> (forall x, L x -> L' x) -> wf_upto S L db -> wf_upto S' L' db.
Proof.
  intros HS HL []. split; eauto.
  intros i j a b ? ? ? Hi Hj.
  apply (wf_apart0 i j); [done..|intros X; by apply Hi, HL|intros X; by apply Hj, HL].
Qed.

Lemma wf_weaken S L db : wf db -> wf_upto S L db.
Proof. apply wf_upto_weaken; intros x Hx; by apply not_nobody in Hx. Qed.

(** ** Evidence and summaries *)

Lemma elem_of_evidence db id e row :
  (e, row) ∈ evidence db id <-> events db !! e = Some row /\ links db !! e = Some id.
Proof.
  unfold evidence. rewrite list_elem_of_filter, elem_of_map_to_list. simpl. tauto.
Qed.

Lemma member_evidence db id row : member db id row <-> row ∈ (evidence db id).*2.
Proof.
  rewrite list_elem_of_fmap. split.
  - intros (e & ? & ?). exists (e, row). by rewrite elem_of_evidence.
  - intros ([e r] & -> & ?%elem_of_evidence). by exists e.
Qed.

(** A summary depends on the store only through the activity's evidence. *)
Lemma summarizes_ext db db' id a :
  (forall row, member db' id row <-> member db id row) -> summarizes db id a -> summarizes db' id a.
Proof. intros E []. split; setoid_rewrite E; done. Qed.

(** The evidence determines the summary columns. *)
Lemma summary_unique db db' i j a b :
  (forall row, member db' j row <-> member db i row) ->
  summarizes db i a -> summarizes db' j b ->
  a_start_time a = a_start_time b /\ a_end_time a = a_end_time b /\ a_category a = a_category b.
Proof.
  intros Hm [Ha1 (r & Hr & Er) Ha2 (s & Hs & Es) Hac] [Hb1 (r' & Hr' & Er') Hb2 (s' & Hs' & Es') Hbc].
  setoid_rewrite Hm in Hb1. setoid_rewrite Hm in Hb2. setoid_rewrite Hm in Hbc. apply Hm in Hr', Hs'.
  pose proof (Ha1 _ Hr'). pose proof (Hb1 _ Hr). pose proof (Ha2 _ Hs'). pose proof (Hb2 _ Hs).
  split_and!; [lia|lia|].
  destruct Hac as [(-> & row & Hrow & Hcat)|[-> Hno]], Hbc as [(-> & row' & Hrow' & Hcat')|[-> Hno']]; try done.
  - by destruct (Hno' _ Hrow).
  - by destruct (Hno _ Hrow').
Qed.

(** A left fold of [min]-like choices returns a lower bound of the list that is attained. *)
Lemma fold_min_spec {A} (f : A -> Z) l m0 :
  let m := fold_left (fun m x => Z.min m (f x)) l m0 in
  m <= m0 /\ (forall x, x ∈ l -> m <= f x) /\ (m = m0 \/ exists x, x ∈ l /\ m = f x).
Proof.
  revert m0. induction l as [|x l IH]; intros m0; simpl; [split_and!; [lia|set_solver|by left]|].
  destruct (IH (Z.min m0 (f x))) as (? & H2 & H3). split; [lia|]. split.
  - intros y [->|?]%elem_of_cons; [lia|by apply H2].
  - destruct H3 as [H3|(y & ? & ?)]; [|right; exists y; split; [by right|done]].
    destruct (Z.min_spec m0 (f x)) as [[? E]|[? E]]; rewrite E in H3 |- *; [by left|right; exists x; split; [by left|done]].
Qed.

Lemma fold_max_spec {A} (f : A -> Z) l m0 :
  let m := fold_left (fun m x => Z.max m (f x)) l m0 in
  m0 <= m /\ (forall x, x ∈ l -> f x <= m) /\ (m = m0 \/ exists x, x ∈ l /\ m = f x).
Proof.
  revert m0. induction l as [|x l IH]; intros m0; simpl; [split_and!; [lia|set_solver|by left]|].
  destruct (IH (Z.max m0 (f x))) as (? & H2 & H3). split; [lia|]. split.
  - intros y [->|?]%elem_of_cons; [lia|by apply H2].
  - destruct H3 as [H3|(y & ? & ?)]; [|right; exists y; split; [by right|done]].
    destruct (Z.max_spec m0 (f x)) as [[? E]|[? E]]; rewrite E in H3 |- *; [right; exists x; split; [by left|done]|by left].
Qed.

Lemma string_min_same s : string_min s s = s.
Proof. unfold string_min. by destruct (decide _). Qed.

Lemma fold_string_min_const c (l : list EventRow) :
  (forall x, x ∈ l -> e_camera x = c) ->
  fold_left (fun m x => string_min m (e_camera x)) l c = c.
Proof.
  induction l as [|x l IH]; intros H; simpl; [done|].
  rewrite (H x), string_min_same by set_solver. apply IH. set_solver.
Qed.

(** The summary query fails exactly on an activity without evidence. *)
Lemma summarize_None db id :
  summarize (evidence db id) = None <-> forall row, ~ member db id row.
Proof.
  unfold summarize. setoid_rewrite member_evidence.
  destruct ((evidence db id).*2) as [|e es]; [set_solver|].
  split; [done|]. intros H. exfalso. apply (H e). set_solver.
Qed.

(** The summary query computes an exact summary when the evidence has one camera. *)
Lemma summarize_Some db id camera now s a :
  (forall row, member db id row -> e_camera row = camera) ->
  summarize (evidence db id) = Some s ->
  summarizes db id (set_summary now s a) /\ a_camera (set_summary now s a) = camera.
Proof.
  unfold summarize. intros Hcam Hs.
  setoid_rewrite member_evidence in Hcam.
  destruct ((evidence db id).*2) as [|e es] eqn:E; [done|]. simplify_eq.
  assert (forall row, member db id row <-> row ∈ e :: es) as Hm
    by (intros; by rewrite member_evidence, E).
  pose proof (fold_min_spec e_timestamp es (e_timestamp e)) as (Hs1 & Hs2 & Hs3).
  pose proof (fold_max_spec e_end es (e_end e)) as (He1 & He2 & He3).
  split; [split; cbn [set_summary a_start_time a_end_time a_category]; try setoid_rewrite Hm|simpl].
  - intros row [->|?]%elem_of_cons; [lia|by apply Hs2].
  - destruct Hs3 as [->|(x & ? & ->)]; [exists e; split; [by left|done]|].
    exists x. split; [by right|done].
  - intros row [->|?]%elem_of_cons; [lia|by apply He2].
  - destruct He3 as [->|(x & ? & ->)]; [exists e; split; [by left|done]|].
    exists x. split; [by right|done].
  - destruct (existsb is_alert (e :: es)) eqn:X; [left|right]; (split; [done|]).
    + apply existsb_exists in X as (x & ?%list_elem_of_In & ?). unfold is_alert in *.
      bool_to_prop. by exists x.
    + intros row Hr Hc. apply not_true_iff_false in X. apply X, existsb_exists.
      exists row. split; [by apply list_elem_of_In|by apply bool_decide_eq_true].
  - rewrite (Hcam e) by (by left). apply fold_string_min_const. intros x ?. apply Hcam. by right.
Qed.

(** ** Updating one activity row *)

Lemma apart_sym a b : apart a b -> apart b a.
Proof. unfold apart. intros H E. destruct (H (eq_sym E)); auto. Qed.

(** A row is rewritten in place: what must be shown of the new row. *)
Lemma wf_update_row (S L S' L' : string -> Prop) db f id :
  wf_upto S L db ->
  (forall a, activities db !! id = Some a ->
     a_camera (f a) = a_camera a /\
     (a_state (f a) = ActivityStateFinalized <-> is_Some (a_finalized_at (f a)))) ->
  (forall a, activities db !! id = Some a -> ~ S' id -> summarizes db id (f a)) ->
  (forall a j b, id <> j -> activities db !! id = Some a -> activities db !! j = Some b ->
     ~ L' id -> ~ L' j -> apart (f a) b) ->
  (forall x, x <> id -> S x -> S' x) -> (forall x, x <> id -> L x -> L' x) ->
  wf_upto S' L' (set_activities (alter f id) db).
Proof.
  intros [] Hf Hsum Hap HS HL. split; cbn [events activities links corrections set_activities].
  - done.
  - intros e j Hj. destruct (wf_link_activity0 _ _ Hj) as [a Ha].
    rewrite lookup_alter. case_decide; [subst; by rewrite Ha; eexists|by eexists].
  - intros j a row. rewrite lookup_alter_Some. intros [(-> & b & Hb & ->)|(? & Ha)] Hm.
    + rewrite (proj1 (Hf _ Hb)). by apply (wf_camera0 j).
    + by apply (wf_camera0 j).
  - intros c Hc. destruct (wf_correction0 c Hc) as (row & a & ? & Ha & ? & ?).
    destruct (decide (id = c_activity c)) as [->|Hne].
    + exists row, (f a). rewrite lookup_alter_eq, Ha. destruct (Hf a Ha) as [-> _]. done.
    + exists row, a. by rewrite lookup_alter_ne.
  - done.
  - done.
  - done.
  - done.
  - intros j a. rewrite lookup_alter_Some. intros [(-> & b & Hb & ->)|(? & Ha)]; eauto.
    by apply Hf.
  - intros a. rewrite lookup_alter_Some. intros [(-> & b & Hb & ->)|(? & Ha)]; eauto.
  - intros j a. rewrite lookup_alter_Some. intros [(-> & b & Hb & ->)|(? & Ha)] Hj;
      (apply (summarizes_ext db); [done|]); [by apply Hsum|].
    apply (wf_summary0 j); [done|]. intros ?. by apply Hj, HS.
  - intros i j a b Hij. rewrite !lookup_alter_Some.
    intros [(-> & a' & Ha & ->)|(? & Ha)] [(-> & b' & Hb & ->)|(? & Hb)] Hi Hj.
    + done.
    + by apply (Hap _ j).
    + apply apart_sym. by apply (Hap _ i).
    + apply (wf_apart0 i j); [done..| |]; intros ?; [by apply Hi, HL|by apply Hj, HL].
Qed.

(** A rewrite that leaves the summary columns alone. *)
Lemma wf_update_lifecycle (S L : string -> Prop) db f id :
  wf_upto S L db ->
  (forall a, activities db !! id = Some a ->
     a_camera (f a) = a_camera a /\ a_start_time (f a) = a_start_time a /\
     a_end_time (f a) = a_end_time a /\ a_category (f a) = a_category a /\
     (a_state (f a) = ActivityStateFinalized <-> is_Some (a_finalized_at (f a)))) ->
  wf_upto S L (set_activities (alter f id) db).
Proof.
  intros W Hf. eapply wf_update_row; [done|..]; try done.
  - intros a Ha. by apply Hf in Ha as (? & ? & ? & ? & ?).
  - intros a Ha Hs. pose proof (wf_summary _ _ _ W _ _ Ha Hs) as [].
    apply Hf in Ha as (Hc & Hst & Hen & Hcat & _). split; by rewrite ?Hst, ?Hen, ?Hcat.
  - intros a j b ? Ha Hb ? ?. pose proof (wf_apart _ _ _ W id j a b) as Hap.
    apply Hf in Ha as Hfa. destruct Hfa as (Hc & Hst & Hen & _).
    unfold apart in *. rewrite Hc, Hst, Hen. by apply Hap.
Qed.

Lemma reopen_wf S L now id db : wf_upto S L db -> wf_upto S L (reopenActivityTx now id db).
Proof.
  intros W. apply wf_update_lifecycle; [done|]. intros a _. simpl.
  by split_and!.
Qed.

Lemma preserve_wf S L c m db : wf_upto S L db -> wf_upto S L (preserveActivityNotificationTx c m db).
Proof.
  intros W. apply wf_update_lifecycle; [done|]. intros a Ha.
  pose proof (wf_finalized _ _ _ W _ _ Ha).
  destruct (a_notification_queued_at a); simpl; tauto.
Qed.

Lemma set_summary_wf S L now id camera db s :
  wf_upto (fun x => S x \/ x = id) L db ->
  (forall row, member db id row -> e_camera row = camera) ->
  (forall a, activities db !! id = Some a -> a_camera a = camera) ->
  summarize (evidence db id) = Some s ->
  wf_upto S (fun x => L x \/ x = id) (set_activities (alter (set_summary now s) id) db).
Proof.
  intros W Hcam Ha Hs. eapply wf_update_row; [exact W|..].
  - intros a Hac. destruct (summarize_Some db id camera now s a Hcam Hs) as [_ ->].
    split; [by rewrite (Ha a Hac)|].
    pose proof (wf_finalized _ _ _ W _ _ Hac). destruct s as [[[]]]. done.
  - intros a _ _. exact (proj1 (summarize_Some db id camera now s a Hcam Hs)).
  - intros a j b _ _ _ Hid _. exfalso. apply Hid. by right.
  - intros x Hx [|]; done.
  - intros x _ ?. by left.
Qed.

(** ** Deleting and merging activities *)

Lemma delete_activity_links id db e a :
  links (delete_activity id db) !! e = Some a <-> links db !! e = Some a /\ a <> id.
Proof. unfold delete_activity. cbn [links]. rewrite map_lookup_filter_Some. done. Qed.

Lemma delete_activity_corrections id db c :
  c ∈ corrections (delete_activity id db) <-> c ∈ corrections db /\ c_activity c <> id.
Proof. unfold delete_activity. cbn [corrections]. rewrite list_elem_of_filter. tauto. Qed.

Lemma delete_activity_member id db j row :
  member (delete_activity id db) j row <-> member db j row /\ j <> id.
Proof. unfold member. setoid_rewrite delete_activity_links. naive_solver. Qed.

Lemma delete_activity_wf S L id db :
  wf_upto (fun x => S x \/ x = id) (fun x => L x \/ x = id) db -> wf_upto S L (delete_activity id db).
Proof.
  intros []. split; try setoid_rewrite delete_activity_links;
    try setoid_rewrite delete_activity_corrections; cbn [events activities next_correction delete_activity].
  - naive_solver.
  - intros e j [? ?]. rewrite lookup_delete_ne by done. eauto.
  - intros j a row Ha%lookup_delete_Some [Hm _]%delete_activity_member. naive_solver.
  - intros c [Hc ?]. destruct (wf_correction0 c Hc) as (row & a & ?). exists row, a.
    by rewrite lookup_delete_ne.
  - intros c [Hc ?] Hact. apply eq_None_not_Some. intros [a [Ha _]%delete_activity_links].
    by rewrite (wf_excluded0 c) in Ha.
  - naive_solver.
  - naive_solver.
  - naive_solver.
  - intros j a [? ?]%lookup_delete_Some. eauto.
  - intros a [? ?]%lookup_delete_Some. eauto.
  - intros j a [? ?]%lookup_delete_Some Hj.
    apply (summarizes_ext db); [|apply wf_summary0; naive_solver].
    intros row. rewrite delete_activity_member. naive_solver.
  - intros i j a b ? [? ?]%lookup_delete_Some [? ?]%lookup_delete_Some ? ?.
    apply (wf_apart0 i j); naive_solver.
Qed.

Lemma merge_links c m db e :
  c <> m ->
  links (merge_activity c db m) !! e = (fun a => if bool_decide (a = m) then c else a) <$> links db !! e.
Proof.
  intros Hcm. apply option_eq. intros a. unfold merge_activity.
  rewrite delete_activity_links. cbn [links moveActivityCorrectionsTx set_corrections move_links
    set_links preserveActivityNotificationTx set_activities].
  rewrite lookup_fmap. split; [tauto|]. intros H. split; [done|].
  destruct (links db !! e) as [b|]; simplify_eq/=. case_bool_decide; congruence.
Qed.

Lemma merge_activities c m db x :
  activities (merge_activity c db m) !! x =
    if decide (x = m) then None
    else activities (preserveActivityNotificationTx c m db) !! x.
Proof.
  cbn [merge_activity delete_activity activities moveActivityCorrectionsTx set_corrections move_links
    set_links]. case_decide; [subst; apply lookup_delete_eq|by apply lookup_delete_ne].
Qed.

Lemma merge_corrections c m db d :
  c <> m ->
  d ∈ corrections (merge_activity c db m) <->
  exists d0, d0 ∈ corrections db /\ d = if bool_decide (c_activity d0 = m) then set_c_activity c d0 else d0.
Proof.
  intros Hcm. unfold merge_activity. rewrite delete_activity_corrections.
  cbn [corrections moveActivityCorrectionsTx set_corrections move_links
    set_links preserveActivityNotificationTx set_activities].
  rewrite list_elem_of_fmap. split.
  - intros [(d0 & -> & ?) _]. by exists d0.
  - intros (d0 & ? & ->). split; [by exists d0|]. by case_bool_decide.
Qed.

Lemma merge_events c m db : events (merge_activity c db m) = events db.
Proof. done. Qed.

Lemma merge_member c m db x row :
  c <> m ->
  member (merge_activity c db m) x row <-> x <> m /\ (member db x row \/ (x = c /\ member db m row)).
Proof.
  intros Hcm. unfold member. setoid_rewrite merge_links; [|done]. rewrite merge_events. split.
  - intros (e & He & Hl). destruct (links db !! e) as [b|] eqn:E; simplify_eq/=.
    case_bool_decide; subst; naive_solver.
  - intros [Hx [(e & He & Hl)|(-> & e & He & Hl)]]; exists e; rewrite Hl; simpl;
      (split; [done|]); case_bool_decide; congruence.
Qed.

(** A row keeps everything but its notification mark through [preserve...Tx]. *)
Definition same_summary (a b : ActivityRow) : Prop :=
  a_camera a = a_camera b /\ a_start_time a = a_start_time b /\ a_end_time a = a_end_time b /\
  a_category a = a_category b.

Lemma preserve_lookup c m db x a :
  activities (preserveActivityNotificationTx c m db) !! x = Some a ->
  exists b, activities db !! x = Some b /\ same_summary a b.
Proof.
  cbn [preserveActivityNotificationTx set_activities activities]. rewrite lookup_alter_Some.
  intros [(-> & b & Hb & ->)|(? & ?)]; eexists; (split; [done|]); [|done].
  by destruct (a_notification_queued_at b).
Qed.

Lemma preserve_is_Some c m db x :
  is_Some (activities (preserveActivityNotificationTx c m db) !! x) <-> is_Some (activities db !! x).
Proof. cbn [preserveActivityNotificationTx set_activities activities]. apply lookup_alter_is_Some. Qed.

(** Folding one activity into another of the same camera keeps the invariant; the
    canonical activity is left to be summarized and separated again. *)
Lemma merge_wf S L c m db :
  c <> m -> is_Some (activities db !! c) ->
  (forall a b, activities db !! c = Some a -> activities db !! m = Some b -> a_camera b = a_camera a) ->
  wf_upto (fun x => S x \/ x = c \/ x = m) (fun x => L x \/ x = c \/ x = m) db ->
  wf_upto (fun x => S x \/ x = c) (fun x => L x \/ x = c) (merge_activity c db m).
Proof.
  intros Hcm [ac Hac] Hcam W0. pose proof (preserve_wf _ _ c m _ W0) as W.
  assert (is_Some (activities (preserveActivityNotificationTx c m db) !! c)) as [ac' Hac']
    by (by apply preserve_is_Some; eexists).
  destruct (preserve_lookup _ _ _ _ _ Hac') as (? & ? & Hcc & _); simplify_eq.
  assert (forall am, activities (preserveActivityNotificationTx c m db) !! m = Some am ->
    a_camera am = a_camera ac') as Hcam'.
  { intros am (b & Hb & -> & _)%preserve_lookup. rewrite Hcc. by apply Hcam. }
  destruct W. split.
  - intros e a. rewrite merge_links, merge_events by done. intros (b & Hl & ->)%fmap_Some. eauto.
  - intros e a. rewrite merge_links by done. intros (b & Hl & ->)%fmap_Some.
    rewrite merge_activities. case_bool_decide; [rewrite decide_False by done; by eexists|].
    rewrite decide_False by done. eauto.
  - intros x a row. rewrite merge_activities. case_decide; [done|]. intros Ha.
    rewrite merge_member by done. intros (_ & [?|(-> & Hm)]); [by eapply wf_camera0|].
    destruct Hm as (e & He & Hl). destruct (wf_link_activity0 _ _ Hl) as [am Ham].
    simplify_eq. rewrite <- (Hcam' am) by done. apply (wf_camera0 m); [done|by exists e].
  - intros d. rewrite merge_corrections by done. intros (d0 & Hd0 & ->).
    destruct (wf_correction0 d0 Hd0) as (row & a & ? & Ha & ? & ?).
    rewrite merge_events. case_bool_decide as Hd; cbn [c_activity c_event set_c_activity].
    + exists row, ac'. rewrite merge_activities, decide_False by done. split_and!; try done.
      rewrite <- (Hcam' a) by congruence. done.
    + exists row, a. by rewrite merge_activities, decide_False.
  - intros d. rewrite merge_corrections, merge_links by done. intros (d0 & Hd0 & ->) Hact.
    rewrite fmap_None. case_bool_decide; by apply (wf_excluded0 d0).
  - intros d e. rewrite !merge_corrections by done. intros (d0 & Hd0 & ->) (e0 & He0 & ->) Hd He Hev.
    f_equal. rewrite (wf_active_unique0 d0 e0); try done;
      repeat case_bool_decide; done.
  - intros d e. rewrite !merge_corrections by done. intros (d0 & Hd0 & ->) (e0 & He0 & ->) Hid.
    rewrite (wf_correction_id0 d0 e0); try done; repeat case_bool_decide; done.
  - intros d. rewrite merge_corrections by done. intros (d0 & Hd0 & ->).
    apply wf_correction_next0 in Hd0. by case_bool_decide.
  - intros x a. rewrite merge_activities. case_decide; [done|]. eauto.
  - intros a. rewrite merge_activities. case_decide; [done|]. eauto.
  - intros x a. rewrite merge_activities. case_decide; [done|]. intros Ha Hx.
    apply (summarizes_ext (preserveActivityNotificationTx c m db)); [|apply wf_summary0; naive_solver].
    intros row. rewrite merge_member by done. naive_solver.
  - intros i j a b Hij. rewrite !merge_activities. do 2 (case_decide; [done|]). intros Ha Hb Hi Hj.
    apply (wf_apart0 i j); naive_solver.
Qed.

(** ** Neighbors *)

Lemma elem_of_neighboring except camera lo hi db t x :
  (t, x) ∈ neighboring except camera lo hi db <->
  exists a, activities db !! x = Some a /\ t = a_start_time a /\ Some x <> except /\ overlaps camera lo hi a.
Proof.
  unfold neighboring. autorewrite with vedetta. rewrite list_elem_of_fmap. split.
  - intros ([y a] & ? & H). simplify_eq/=. apply list_elem_of_filter in H as [[? ?] Hy%elem_of_map_to_list].
    by exists a.
  - intros (a & ? & -> & ? & ?). exists (x, a). split; [done|].
    rewrite list_elem_of_filter, elem_of_map_to_list. done.
Qed.

Lemma elem_of_neighboring_snd except camera lo hi db x :
  x ∈ (neighboring except camera lo hi db).*2 <->
  exists a, activities db !! x = Some a /\ Some x <> except /\ overlaps camera lo hi a.
Proof.
  rewrite list_elem_of_fmap. split.
  - intros ([t y] & -> & (a & ? & ? & ?)%elem_of_neighboring). by exists a.
  - intros (a & ? & ? & ?). exists (a_start_time a, x). split; [done|].
    apply elem_of_neighboring. by exists a.
Qed.

Lemma neighboring_NoDup except camera lo hi db : NoDup (neighboring except camera lo hi db).*2.
Proof.
  unfold neighboring. rewrite merge_sort_Permutation, <- list_fmap_compose.
  change (NoDup ((filter (fun kv : string * ActivityRow =>
    Some kv.1 <> except /\ overlaps camera lo hi kv.2) (map_to_list (activities db))).*1)).
  eapply sublist_NoDup; [apply (NoDup_fst_map_to_list (activities db))|].
  apply fmap_sublist, sublist_filter.
Qed.

(** ** Folding a list of activities into the canonical one *)

Definition merge_all (c : string) (ms : list string) (db : DB) : DB :=
  fold_left (merge_activity c) ms db.

Lemma merge_activities_c c m db :
  c <> m -> is_Some (activities db !! c) -> is_Some (activities (merge_activity c db m) !! c).
Proof. intros ? ?. rewrite merge_activities, decide_False by done. by apply preserve_is_Some. Qed.

Lemma merge_lookup c m db x a :
  activities (merge_activity c db m) !! x = Some a ->
  x <> m /\ exists b, activities db !! x = Some b /\ same_summary a b.
Proof. rewrite merge_activities. case_decide; [done|]. eauto using preserve_lookup. Qed.

Lemma merge_all_wf S L c ms db camera :
  c ∉ ms -> is_Some (activities db !! c) ->
  (forall x a, x = c \/ x ∈ ms -> activities db !! x = Some a -> a_camera a = camera) ->
  wf_upto (fun x => S x \/ x = c \/ x ∈ ms) (fun x => L x \/ x = c \/ x ∈ ms) db ->
  wf_upto (fun x => S x \/ x = c) (fun x => L x \/ x = c) (merge_all c ms db).
Proof.
  revert db. induction ms as [|m ms IH]; intros db Hc Hac Hcam W; simpl.
  { eapply wf_upto_weaken, W; intros ? [|[|?%not_elem_of_nil]]; auto; done. }
  apply not_elem_of_cons in Hc as [Hcm Hc]. apply IH; [done|by apply merge_activities_c|..].
  - intros x a Hx (_ & b & Hb & -> & _)%merge_lookup. apply (Hcam x); [set_solver|done].
  - assert (W' : wf_upto (fun x => (S x \/ x ∈ ms) \/ x = c) (fun x => (L x \/ x ∈ ms) \/ x = c)
                  (merge_activity c db m)).
    { apply merge_wf; [done..| |].
      - intros a b Ha Hb. rewrite (Hcam c a), (Hcam m b); set_solver.
      - eapply wf_upto_weaken, W; intros x; cbn beta; rewrite elem_of_cons; tauto. }
    eapply wf_upto_weaken, W'; intros x; cbn beta; tauto.
Qed.

Lemma merge_all_events c ms db : events (merge_all c ms db) = events db.
Proof. revert db. induction ms as [|m ms IH]; intros db; simpl; [done|]. by rewrite IH. Qed.

Lemma merge_all_links c ms db e :
  c ∉ ms ->
  links (merge_all c ms db) !! e = (fun a => if bool_decide (a ∈ ms) then c else a) <$> links db !! e.
Proof.
  revert db. induction ms as [|m ms IH]; intros db Hc; simpl.
  { destruct (links db !! e); done. }
  apply not_elem_of_cons in Hc as [Hcm Hc]. rewrite IH, merge_links by done.
  destruct (links db !! e) as [a|]; simpl; [|done]. f_equal.
  destruct (decide (a = m)) as [->|Ham].
  - rewrite (bool_decide_eq_true_2 (m = m)), (bool_decide_eq_false_2 (c ∈ ms)) by done.
    by rewrite bool_decide_eq_true_2 by (by left).
  - rewrite (bool_decide_eq_false_2 (a = m)) by done.
    apply (f_equal (fun b : bool => if b then c else a)). apply bool_decide_ext. set_solver.
Qed.

Lemma merge_all_lookup c ms db x a :
  activities (merge_all c ms db) !! x = Some a ->
  x ∉ ms /\ exists b, activities db !! x = Some b /\ same_summary a b.
Proof.
  revert db a. induction ms as [|m ms IH]; intros db a; simpl.
  { intros. split; [set_solver|by exists a]. }
  intros (? & b & (? & b' & ? & ?)%merge_lookup & ?)%IH. split; [set_solver|].
  exists b'. split; [done|]. unfold same_summary in *. naive_solver congruence.
Qed.

Lemma merge_all_c c ms db :
  c ∉ ms -> is_Some (activities db !! c) -> is_Some (activities (merge_all c ms db) !! c).
Proof.
  revert db. induction ms as [|m ms IH]; intros db Hc Hac; simpl; [done|].
  apply not_elem_of_cons in Hc as [Hcm Hc]. apply IH; [done|]. by apply merge_activities_c.
Qed.

Lemma merge_all_size c ms db x :
  x ∈ ms -> is_Some (activities db !! x) ->
  (size (activities (merge_all c ms db)) < size (activities db))%nat.
Proof.
  intros Hx Hax. rewrite <- !(size_dom (D := gset string)). apply subset_size.
  apply strict_spec_alt. split.
  - intros y. rewrite !elem_of_dom. intros [a (_ & b & ? & _)%merge_all_lookup]. by eexists.
  - intros E. apply elem_of_dom in Hax. rewrite <- E in Hax.
    by apply elem_of_dom in Hax as [a (? & _)%merge_all_lookup].
Qed.

(** ** Reconciliation *)

Lemma canonical_of_elem self ns : canonical_of self ns ∈ self :: ns.
Proof.
  unfold canonical_of. revert self. induction ns as [|n ns IH]; intros self; simpl; [by left|].
  specialize (IH (if Before n.1 self.1 || (n.1 =? self.1) && String.ltb n.2 self.2 then n else self)).
  apply elem_of_cons in IH as [->|IH]; [|by right; right].
  destruct (_ || _); [right; left|left].
Qed.

(** The state an iteration of the loop hands to the next. *)
Definition resummarized (now : Z) (id : string) (s : string * Z * Z * string) (db : DB) : DB :=
  set_activities (alter (set_summary now s) id) db.

Definition found_neighbors (now : Z) (id : string) (s : string * Z * Z * string) (db : DB)
    : list (Z * string) :=
  let '(camera, start, end_, _) := s in
  neighboring (Some id) camera (Add start (- activityMergeGap)) (Add end_ activityMergeGap)
    (resummarized now id s db).

(** One iteration that goes on: [c] absorbs [ms], which together are the activity
    and its neighbors. *)
Definition continues (now : Z) (id : string) (s : string * Z * Z * string) (db : DB)
    (c : string) (ms : list string) : Prop :=
  c ∉ ms /\ (exists m, m ∈ ms) /\
  (forall x, (x = c \/ x ∈ ms) <-> (x = id \/ x ∈ (found_neighbors now id s db).*2)).

(** Every run of the loop body: no id, no evidence, no neighbors, or one more iteration. *)
Lemma reconcile_cases (P : result StoreError (DB * string) -> Prop) fuel now id db :
  (id = ""%string -> P (Ok (db, ""%string))) ->
  (id <> ""%string -> (forall row, ~ member db id row) -> P (Ok (delete_activity id db, ""%string))) ->
  (forall s, id <> ""%string -> summarize (evidence db id) = Some s ->
     found_neighbors now id s db = [] -> P (Ok (resummarized now id s db, id))) ->
  (forall s c ms, id <> ""%string -> summarize (evidence db id) = Some s ->
     continues now id s db c ms ->
     P (reconcile_fuel fuel now c (merge_all c ms (resummarized now id s db)))) ->
  P (reconcile_fuel (S fuel) now id db).
Proof.
  intros H1 H2 H3 H4. cbn [reconcile_fuel]. case_bool_decide as Hid; [by apply H1|].
  destruct (summarize (evidence db id)) as [s|] eqn:Es.
  2:{ apply H2; [done|]. by apply summarize_None. }
  specialize (H3 s Hid eq_refl). specialize (H4 s).
  destruct s as [[[camera start] end_] category]. unfold continues, found_neighbors in *.
  change (set_activities (alter (set_summary now (camera, start, end_, category)) id) db)
    with (resummarized now id (camera, start, end_, category) db) in *.
  destruct (neighboring _ _ _ _ _) as [|n ns] eqn:En; [by apply H3|].
  apply (H4 _ _ Hid eq_refl).
  set (c := (canonical_of (start, id) (n :: ns)).2).
  assert (c = id \/ c ∈ (n :: ns).*2) as Hc.
  { subst c. destruct (elem_of_cons ((n :: ns)) (canonical_of (start, id) (n :: ns)) (start, id))
      as [Hor _]. specialize (Hor (canonical_of_elem _ _)) as [->|Hin]; [by left|right].
    rewrite list_elem_of_fmap. eauto. }
  assert (n.2 <> id) as Hn.
  { assert (n.2 ∈ (neighboring (Some id) camera (Add start (- activityMergeGap))
      (Add end_ activityMergeGap) (resummarized now id (camera, start, end_, category) db)).*2) as Hin
      by (rewrite En; by left).
    apply elem_of_neighboring_snd in Hin as (a & _ & Hne & _). congruence. }
  split_and!.
  - rewrite list_elem_of_filter. tauto.
  - destruct (decide (c = id)) as [->|Hci].
    + exists n.2. rewrite list_elem_of_filter. split; [done|]. right. by left.
    + exists id. rewrite list_elem_of_filter. split; [done|]. by left.
  - intros x. rewrite list_elem_of_filter, elem_of_cons. destruct (decide (x = c)); naive_solver.
Qed.

(** A property carried through the iterations holds of the answer. *)
Lemma reconcile_ind (I : string -> DB -> Prop) (Q : DB -> string -> Prop) now :
  (forall db, I ""%string db -> Q db ""%string) ->
  (forall id db, I id db -> id <> ""%string -> (forall row, ~ member db id row) ->
     Q (delete_activity id db) ""%string) ->
  (forall id db s, I id db -> id <> ""%string -> summarize (evidence db id) = Some s ->
     found_neighbors now id s db = [] -> Q (resummarized now id s db) id) ->
  (forall id db s c ms, I id db -> id <> ""%string -> summarize (evidence db id) = Some s ->
     continues now id s db c ms -> I c (merge_all c ms (resummarized now id s db))) ->
  forall fuel id db db' id', I id db -> reconcile_fuel fuel now id db = Ok (db', id') -> Q db' id'.
Proof.
  intros H1 H2 H3 H4 fuel. induction fuel as [|fuel IH]; intros id db db' id' HI; [done|].
  apply (reconcile_cases (fun r => r = Ok (db', id') -> Q db' id')); intros *; intros; simplify_eq; eauto.
Qed.

(** The summary update: the activity's row is exact, and only it may overlap others. *)
Lemma resummarized_wf S L now id db s :
  wf_upto (fun x => S x \/ x = id) L db -> summarize (evidence db id) = Some s ->
  wf_upto S (fun x => L x \/ x = id) (resummarized now id s db) /\
  exists a, activities (resummarized now id s db) !! id = Some a /\
    s = (a_camera a, a_start_time a, a_end_time a, a_category a).
Proof.
  intros W Hs.
  destruct (summarize (evidence db id)) eqn:E; simplify_eq.
  assert (exists row, member db id row) as [row Hrow].
  { destruct (evidence db id) as [|[e r] l] eqn:El; [done|]. exists r.
    apply member_evidence. rewrite El. by left. }
  destruct Hrow as (e & He & Hl). destruct (wf_link_activity _ _ _ W _ _ Hl) as [a Ha].
  assert (forall row, member db id row -> e_camera row = a_camera a) as Hcam
    by (intros; by eapply wf_camera).
  split.
  - apply (set_summary_wf _ _ _ _ (a_camera a)); try done. intros; by simplify_eq.
  - destruct (summarize_Some db id _ now s a Hcam E) as [_ Hc].
    exists (set_summary now s a). unfold resummarized, set_activities. cbn [activities].
    rewrite lookup_alter_eq, Ha. split; [done|]. by destruct s as [[[]]].
Qed.

(** An activity without neighbors is apart from every other one. *)
Lemma no_neighbors_wf S id db a :
  wf_upto S (fun x => x = id) db -> activities db !! id = Some a ->
  neighboring (Some id) (a_camera a) (Add (a_start_time a) (- activityMergeGap))
    (Add (a_end_time a) activityMergeGap) db = [] ->
  wf_upto S nobody db.
Proof.
  intros W Ha Hn.
  assert (forall j b, j <> id -> activities db !! j = Some b -> apart a b) as Hap.
  { intros j b Hj Hb Hc. unfold Add in Hn.
    destruct (decide (overlaps (a_camera a) (a_start_time a + - activityMergeGap)
      (a_end_time a + activityMergeGap) b)) as [Ho|Ho].
    - assert (j ∈ (@nil (Z * string)).*2) as Hin%not_elem_of_nil; [|done].
      rewrite <- Hn. apply elem_of_neighboring_snd. exists b. split_and!; congruence || done.
    - assert (~ (a_start_time b <= a_end_time a + activityMergeGap /\
                 a_start_time a + - activityMergeGap <= a_end_time b)) by (intros [? ?]; by apply Ho).
      lia. }
  destruct W. split; try done.
  intros i j b c Hij Hb Hc _ _.
  destruct (decide (i = id)) as [->|Hi], (decide (j = id)) as [->|Hj]; simplify_eq; try done.
  - by apply (Hap j).
  - by apply apart_sym, (Hap i).
  - by apply (wf_apart0 i j).
Qed.

(** One more iteration keeps the invariant, with the canonical activity pending. *)
Lemma continues_wf S now id db s c ms :
  wf_upto (fun x => S x \/ x = id) (fun x => x = id) db ->
  summarize (evidence db id) = Some s -> continues now id s db c ms ->
  wf_upto (fun x => S x \/ x = c) (fun x => x = c) (merge_all c ms (resummarized now id s db)) /\
  (size (activities (merge_all c ms (resummarized now id s db))) < size (activities db))%nat /\
  is_Some (activities (merge_all c ms (resummarized now id s db)) !! c).
Proof.
  intros W Hs (Hc & [m Hm] & Hx). destruct (resummarized_wf _ _ now id db s W Hs) as [W1 (a & Ha & ->)].
  unfold found_neighbors in Hx. set (db1 := resummarized _ _ _ _) in *.
  assert (forall x b, x = c \/ x ∈ ms -> activities db1 !! x = Some b -> a_camera b = a_camera a) as Hcam.
  { intros x b [->|(b' & Hb' & _ & Ho & _)%elem_of_neighboring_snd]%Hx Hb; by simplify_eq. }
  assert (forall x, x = c \/ x ∈ ms -> is_Some (activities db1 !! x)) as Hex.
  { intros x [->|(b' & Hb' & _)%elem_of_neighboring_snd]%Hx; by eexists. }
  split_and!.
  - eapply wf_upto_weaken; [..|apply (merge_all_wf S nobody c ms db1 (a_camera a)); eauto]; auto.
    { by intros x [[]|]. }
    eapply wf_upto_weaken, W1; intros x; cbn beta; [tauto|]. intros H. right. apply Hx. tauto.
  - replace (size (activities db)) with (size (activities db1)); [by eapply merge_all_size; eauto|].
    unfold db1, resummarized, set_activities. cbn [activities].
    rewrite <- !(size_dom (D := gset string)). by rewrite dom_alter_L.
  - apply merge_all_c; auto.
Qed.

(** With enough fuel the loop returns, and the store it returns is well formed
    again: nothing is loose, and of the stale activities only this one was repaired. *)
Lemma reconcile_wf S now fuel id db :
  (size (activities db) < fuel)%nat -> id <> ""%string ->
  wf_upto (fun x => S x \/ x = id) (fun x => x = id) db ->
  exists db' id', reconcile_fuel fuel now id db = Ok (db', id') /\ wf_upto S nobody db' /\
    (id' = ""%string \/ is_Some (activities db' !! id')).
Proof.
  revert id db. induction fuel as [|fuel IH]; intros id db Hf Hid W; [lia|].
  apply (reconcile_cases (fun r => exists db' id', r = Ok (db', id') /\ _)); [done|..].
  - intros _ Hno. exists (delete_activity id db), ""%string. split_and!; [done| |by left].
    apply delete_activity_wf. eapply wf_upto_weaken, W; intros x; cbn beta; tauto.
  - intros s _ Hs Hn. exists (resummarized now id s db), id.
    destruct (resummarized_wf _ _ now id db s W Hs) as [W1 (a & Ha & ->)].
    split_and!; [done| |right; by eexists].
    eapply no_neighbors_wf; [|exact Ha|exact Hn].
    eapply wf_upto_weaken, W1; intros x; cbn beta; tauto.
  - intros s c ms _ Hs Hc. destruct (continues_wf _ _ _ _ _ _ _ W Hs Hc) as (W1 & ? & [ac Hac]).
    apply IH; [lia| |done]. intros ->. by eapply wf_named.
Qed.

Lemma reconcileActivityTx_wf S now id db :
  id <> ""%string -> wf_upto (fun x => S x \/ x = id) (fun x => x = id) db ->
  exists db' id', reconcileActivityTx now id db = Ok (db', id') /\ wf_upto S nobody db' /\
    (id' = ""%string \/ is_Some (activities db' !! id')).
Proof. intros. apply reconcile_wf; [lia|done..]. Qed.

Lemma merge_all_corrections c ms db d :
  c ∉ ms -> d ∈ corrections (merge_all c ms db) ->
  exists d0, d0 ∈ corrections db /\ c_event d = c_event d0 /\ c_restored_at d = c_restored_at d0.
Proof.
  revert db. induction ms as [|m ms IH]; intros db Hc; simpl; [by exists d|].
  apply not_elem_of_cons in Hc as [Hcm Hc]. intros (d1 & Hd1 & -> & ->)%IH; [|done].
  apply merge_corrections in Hd1 as (d0 & ? & ->); [|done]. exists d0. by case_bool_decide.
Qed.
