(* ===== verification/ActivityOperations.v ===== *)
(** Every transaction of the activity store preserves its invariant, and returns
    for one of the reasons the code names. *)

From S2P Require Import Prelude GoStrings CameraEvent ActivityStore ActivityInvariant.

(** Computes the tables of a store built from another by the statements. *)
Ltac tables := cbn [events activities links corrections next_correction set_links set_events
  set_activities set_corrections delete_event delete_activity] in *.

(** ** Linking an event *)

(** What an event must satisfy to become evidence of activity [id]. *)
Definition linkable (db : DB) (e id : string) : Prop :=
  links db !! e = None /\
  (exists row a, events db !! e = Some row /\ activities db !! id = Some a /\
     e_camera row = a_camera a /\ e_kind row <> EventKindCry) /\
  forall c, c ∈ corrections db -> active c -> c_event c <> e.

Lemma link_wf S L db e id :
  linkable db e id -> wf_upto S L db ->
  wf_upto (fun x => S x \/ x = id) L (set_links (<[e := id]>) db).
Proof.
  intros (Hl & (row & a & He & Ha & Hcam & Hk) & Hc) [].
  split; cbn [events activities links corrections set_links next_correction]; try done.
  - intros e' j. rewrite lookup_insert_Some. intros [[<- <-]|[_ ?]]; eauto.
  - intros e' j. rewrite lookup_insert_Some. intros [[<- <-]|[_ ?]]; eauto.
  - intros j b r Hb (e' & He' & Hl'). cbn [events links set_links] in *.
    apply lookup_insert_Some in Hl' as [[<- <-]|[_ Hl']]; simplify_eq; [done|].
    apply (wf_camera j); [done|by exists e'].
  - intros c Hin Hact. rewrite lookup_insert_ne; [by apply wf_excluded|].
    intros ->. by apply (Hc c).
  - intros j b Hb Hj. apply (summarizes_ext db); [|apply wf_summary; tauto].
    intros r. unfold member. cbn [events links set_links].
    split; intros (e' & ? & Hl'); exists e'; (split; [done|]).
    + apply lookup_insert_Some in Hl' as [[<- <-]|[_ ?]]; [tauto|done].
    + rewrite lookup_insert_ne; [done|]. intros ->. congruence.
Qed.

(** Removing a link. *)
Lemma unlink_wf S L db e :
  wf_upto S L db ->
  wf_upto (fun x => S x \/ links db !! e = Some x) L (set_links (delete e) db).
Proof.
  intros []. split; cbn [events activities links corrections set_links next_correction]; try done.
  - intros e' j [? ?]%lookup_delete_Some; eauto.
  - intros e' j [? ?]%lookup_delete_Some; eauto.
  - intros j b r Hb (e' & He' & Hl'). tables. apply lookup_delete_Some in Hl' as [? Hl'].
    apply (wf_camera j); [done|by exists e'].
  - intros c Hin Hact. apply lookup_delete_None. eauto.
  - intros j b Hb Hj. apply (summarizes_ext db); [|apply wf_summary; tauto].
    intros r. unfold member. cbn [events links set_links].
    split; intros (e' & ? & Hl'); exists e'; (split; [done|]).
    + by apply lookup_delete_Some in Hl' as [? ?].
    + apply lookup_delete_Some. split; [|done]. intros ->. tauto.
Qed.

(** Changing the stored event rows. *)
Lemma alter_event_wf S L db e f :
  (forall r, e_camera (f r) = e_camera r /\ e_kind (f r) = e_kind r) ->
  wf_upto S L db ->
  wf_upto (fun x => S x \/ links db !! e = Some x) L (set_events (alter f e) db).
Proof.
  intros Hf []. split; cbn [events activities links corrections set_events next_correction]; try done.
  - intros e' j Hl. destruct (wf_link_event _ _ Hl) as (r & Hr & ?).
    destruct (decide (e = e')) as [->|].
    + exists (f r). rewrite lookup_alter_eq, Hr. by rewrite (proj2 (Hf r)).
    + exists r. by rewrite lookup_alter_ne.
  - intros j b r Hb (e' & He' & Hl'). tables.
    apply lookup_alter_Some in He' as [(-> & r' & Hr & ->)|[? He']].
    + rewrite (proj1 (Hf r')). apply (wf_camera j); [done|by exists e'].
    + apply (wf_camera j); [done|by exists e'].
  - intros c Hin. destruct (wf_correction c Hin) as (r & a & Hr & ? & ? & ?).
    destruct (decide (e = c_event c)) as [->|].
    + exists (f r), a. rewrite lookup_alter_eq, Hr. by destruct (Hf r) as [-> ->].
    + exists r, a. by rewrite lookup_alter_ne.
  - intros j b Hb Hj. apply (summarizes_ext db); [|apply wf_summary; tauto].
    intros r. unfold member. cbn [events links set_events].
    split; intros (e' & He' & Hl'); exists e'; (split; [|done]).
    + apply lookup_alter_Some in He' as [(-> & r' & Hr & ->)|[? ?]]; [|done]. tauto.
    + rewrite lookup_alter_ne; [done|]. intros ->. tauto.
Qed.

(** Inserting an event nothing refers to. *)
Lemma insert_event_wf S L db e row :
  events db !! e = None -> wf_upto S L db -> wf_upto S L (set_events (<[e := row]>) db).
Proof.
  intros He []. split; cbn [events activities links corrections set_events next_correction]; try done.
  - intros e' j Hl. destruct (wf_link_event _ _ Hl) as (r & Hr & ?).
    exists r. rewrite lookup_insert_ne by congruence. done.
  - intros j b r Hb (e' & He' & Hl'). tables.
    apply lookup_insert_Some in He' as [[<- <-]|[? He']].
    + destruct (wf_link_event _ _ Hl') as (? & ? & ?). congruence.
    + apply (wf_camera j); [done|by exists e'].
  - intros c Hin. destruct (wf_correction c Hin) as (r & a & Hr & ?).
    exists r, a. rewrite lookup_insert_ne by congruence. done.
  - intros j b Hb Hj. apply (summarizes_ext db); [|by apply wf_summary].
    intros r. unfold member. cbn [events links set_events].
    split; intros (e' & He' & Hl'); exists e'; (split; [|done]);
      destruct (wf_link_event _ _ Hl') as (? & ? & ?).
    + apply lookup_insert_Some in He' as [[<- <-]|[? ?]]; [congruence|done].
    + rewrite lookup_insert_ne by congruence. done.
Qed.

(** Deleting an event, with its cascades. *)
Lemma delete_event_wf S L db e :
  wf_upto S L db ->
  wf_upto (fun x => S x \/ links db !! e = Some x) L (delete_event e db).
Proof.
  intros [].
  assert (forall c, c ∈ corrections (delete_event e db) <-> c ∈ corrections db /\ c_event c <> e) as Hcs
    by (intros; cbn [corrections delete_event]; rewrite list_elem_of_filter; tauto).
  split; cbn [events activities links delete_event next_correction]; try setoid_rewrite Hcs; try done.
  - intros e' j [? Hl]%lookup_delete_Some. destruct (wf_link_event _ _ Hl) as (r & Hr & ?).
    exists r. by rewrite lookup_delete_ne.
  - intros e' j [? ?]%lookup_delete_Some; eauto.
  - intros j b r Hb (e' & He' & Hl'). tables. apply lookup_delete_Some in He' as [? He'], Hl' as [? Hl'].
    apply (wf_camera j); [done|by exists e'].
  - intros c [Hin ?]. destruct (wf_correction c Hin) as (r & a & Hr & ?).
    exists r, a. by rewrite lookup_delete_ne.
  - intros c [Hin ?] Hact. apply lookup_delete_None. eauto.
  - intros c d [] []. eauto.
  - intros c d [] []. eauto.
  - intros c []. eauto.
  - intros j b Hb Hj. apply (summarizes_ext db); [|apply wf_summary; tauto].
    intros r. unfold member. cbn [events links delete_event].
    split; intros (e' & He' & Hl'); exists e'.
    + apply lookup_delete_Some in He' as [? ?], Hl' as [? ?]. done.
    + rewrite !lookup_delete_ne; [done|..]; intros ->; tauto.
Qed.

(** Inserting an activity that has no evidence yet. *)
Lemma insert_activity_wf db id a :
  activities db !! id = None -> id <> ""%string ->
  (a_state a = ActivityStateFinalized <-> is_Some (a_finalized_at a)) ->
  wf db ->
  wf_upto (fun x => x = id) (fun x => x = id) (set_activities (<[id := a]>) db).
Proof.
  intros Hid Hne Hfin []. split; cbn [events activities links corrections set_activities next_correction]; try done.
  - intros e j Hl. destruct (decide (id = j)) as [->|]; [rewrite lookup_insert_eq; by eexists|].
    rewrite lookup_insert_ne by done. eauto.
  - intros j b r [[<- <-]|[? Hb]]%lookup_insert_Some Hm; [|by apply (wf_camera j)].
    destruct Hm as (e & He & Hl). apply wf_link_activity in Hl as [? ?]. congruence.
  - intros c Hin. destruct (wf_correction c Hin) as (r & b & ? & Hb & ?).
    exists r, b. rewrite lookup_insert_ne by congruence. done.
  - intros j b [[<- <-]|[? Hb]]%lookup_insert_Some; eauto.
  - intros b [[? ?]|[? Hb]]%lookup_insert_Some; eauto.
  - intros j b [[<- <-]|[? Hb]]%lookup_insert_Some Hj; [done|].
    apply (summarizes_ext db); [done|]. by apply wf_summary.
  - intros i j b c ? [[<- <-]|[? Hb]]%lookup_insert_Some [[<- <-]|[? Hc]]%lookup_insert_Some ? ?; try done.
    by apply (wf_apart i j).
Qed.

(** ** Saving events *)

Lemma reconcile_reopen_wf now id db :
  id <> ""%string -> wf_upto (fun x => x = id) (fun x => x = id) db ->
  exists db', (let? (db, survivingID) := reconcileActivityTx now id db in
               if bool_decide (survivingID = ""%string) then Ok db
               else Ok (reopenActivityTx now survivingID db)) = Ok db' /\ wf db'.
Proof.
  intros Hid W. destruct (reconcileActivityTx_wf nobody now id db Hid) as (db' & id' & -> & W' & _).
  { eapply wf_upto_weaken, W; auto. }
  simpl. case_bool_decide; eexists; (split; [done|]); [done|by apply reopen_wf].
Qed.

(** The activity an event is filed under, with the event linked to it: the part of
    [assignEventToActivityTx] before it reconciles. *)
Definition place_event (now : Z) (ev : Event) (db : DB) : result StoreError (string * DB) :=
  let '(start, end_) := eventActivityBounds ev in
  match neighboring None (CameraName ev) (Add start (- activityMergeGap)) (Add end_ activityMergeGap) db with
  | [] =>
      let id := ("act_" +:+ ID ev)%string in
      match activities db !! id with
      | Some _ => Err (ErrUnique "activities.id")
      | None =>
          Ok (id, set_links (<[ID ev := id]>) (set_activities
            (<[id := mkActivityRow (CameraName ev) start end_
                (if bool_decide (Category ev = ""%string) then CategoryAlert else Category ev)
                ActivityStateOpen None None now]>) db))
      end
  | (_, c) :: rest => Ok (c, set_links (<[ID ev := c]>) (merge_all c rest.*2 db))
  end.

Lemma assign_place now ev db :
  assignEventToActivityTx now ev db =
  if bool_decide (Kind ev = EventKindCry) then Ok db
  else
    let? (id, db1) := place_event now ev db in
    let? (db2, survivingID) := reconcileActivityTx now id db1 in
    if bool_decide (survivingID = ""%string) then Ok db2 else Ok (reopenActivityTx now survivingID db2).
Proof.
  unfold assignEventToActivityTx, place_event. case_bool_decide; [done|].
  destruct (eventActivityBounds ev) as [start end_].
  destruct (neighboring _ _ _ _ _) as [|[t c] rest]; [|done].
  by destruct (activities db !! _).
Qed.

Lemma place_wf now ev db row :
  wf db -> events db !! ID ev = Some row -> e_camera row = CameraName ev -> e_kind row <> EventKindCry ->
  links db !! ID ev = None -> (forall c, c ∈ corrections db -> active c -> c_event c <> ID ev) ->
  match place_event now ev db with
  | Ok (id, db1) => id <> ""%string /\ wf_upto (fun x => x = id) (fun x => x = id) db1
  | Err e => e = ErrUnique "activities.id" /\ activities db !! ("act_" +:+ ID ev)%string <> None
  end.
Proof.
  intros W Hrow Hcam Hk Hl Hcs. unfold place_event.
  destruct (eventActivityBounds ev) as [start end_].
  set (lo := Add start _). set (hi := Add end_ _).
  pose proof (neighboring_NoDup None (CameraName ev) lo hi db) as Hnd.
  pose proof (elem_of_neighboring_snd None (CameraName ev) lo hi db) as Hel.
  destruct (neighboring None (CameraName ev) lo hi db) as [|[t c] rest].
  - destruct (activities db !! _) eqn:Ha; [done|].
    set (a := mkActivityRow _ _ _ _ _ _ _ _). split; [done|].
    assert (wf_upto (fun x => x = "act_" +:+ ID ev)%string (fun x => x = "act_" +:+ ID ev)%string
              (set_activities (<[("act_" +:+ ID ev)%string := a]>) db)) as W1
      by (apply insert_activity_wf; [done|done| |done]; split; [done|by intros []]).
    eapply wf_upto_weaken, link_wf, W1; [naive_solver|done|].
    split_and!; [done| |done]. exists row, a. tables. rewrite lookup_insert_eq. auto.
  - apply NoDup_cons in Hnd as [Hc _].
    assert (forall x, x = c \/ x ∈ rest.*2 -> exists a, activities db !! x = Some a /\ a_camera a = CameraName ev) as Hx.
    { intros x Hx%elem_of_cons. apply Hel in Hx as (a & ? & _ & ? & _). by exists a. }
    destruct (Hx c (or_introl eq_refl)) as (a & Ha & Hac).
    split; [by intros ->; eapply wf_named|].
    assert (wf_upto (fun x => nobody x \/ x = c) (fun x => nobody x \/ x = c) (merge_all c rest.*2 db)) as W1.
    { apply (merge_all_wf _ _ _ _ _ (CameraName ev)); [done|by eexists|..].
      - intros x b Hxc Hb. destruct (Hx x Hxc) as (? & ? & ?). congruence.
      - by apply wf_weaken. }
    destruct (merge_all_c c rest.*2 db Hc) as [a' Ha']; [by eexists|].
    pose proof (merge_all_lookup _ _ _ _ _ Ha') as (_ & b & Hb & Hsame & _).
    eapply wf_upto_weaken, link_wf, W1; [naive_solver eauto using not_nobody..|].
    split_and!.
    + by rewrite merge_all_links, Hl.
    + exists row, a'. rewrite merge_all_events. split_and!; try done; congruence.
    + intros d Hd Hact. apply merge_all_corrections in Hd as (d0 & ? & -> & E); [|done].
      apply Hcs; [done|]. unfold active in *. congruence.
Qed.

Lemma assign_wf now ev db row :
  wf db -> events db !! ID ev = Some row -> e_camera row = CameraName ev ->
  (Kind ev <> EventKindCry -> e_kind row <> EventKindCry) ->
  links db !! ID ev = None -> (forall c, c ∈ corrections db -> active c -> c_event c <> ID ev) ->
  match assignEventToActivityTx now ev db with
  | Ok db' => wf db'
  | Err e => e = ErrUnique "activities.id" /\ activities db !! ("act_" +:+ ID ev)%string <> None
  end.
Proof.
  intros W Hrow Hcam Hk Hl Hcs. rewrite assign_place. case_bool_decide; [done|].
  pose proof (place_wf now ev db row W Hrow Hcam (Hk H) Hl Hcs) as Hp.
  destruct (place_event now ev db) as [[id db1]|]; [|done]. destruct Hp as [Hid W1]. cbn [rbind].
  by destruct (reconcile_reopen_wf now id db1 Hid W1) as (db' & -> & ?).
Qed.

Lemma save_wf now ev db :
  wf db ->
  match SaveEvent now ev db with
  | Ok db' => wf db'
  | Err e => e = ErrUnique "events.id" \/ e = ErrUnique "activities.id"
  end.
Proof.
  intros W. unfold SaveEvent. destruct (events db !! ID ev) eqn:He; [by left|].
  assert (links db !! ID ev = None) as Hl.
  { apply eq_None_not_Some. intros [a Ha]. destruct (wf_link_event _ _ _ W _ _ Ha) as (? & ? & ?).
    congruence. }
  pose proof (assign_wf now ev (set_events (<[ID ev := event_row ev]>) db) (event_row ev)) as H.
  destruct (assignEventToActivityTx _ _ _); [apply H|right; apply H].
  all: try done; tables.
  all: try (by apply insert_event_wf).
  all: try (by rewrite lookup_insert_eq).
  1, 3: simpl; intros ?; case_bool_decide; done.
  all: intros c Hc _ Hev; destruct (wf_correction _ _ _ W c Hc) as (? & ? & ? & _); congruence.
Qed.

Lemma update_end_wf now e t db :
  wf db -> exists db', UpdateEventEndTime now e t db = Ok db' /\ wf db'.
Proof.
  intros W. unfold UpdateEventEndTime.
  pose proof (alter_event_wf nobody nobody db e (set_end_time t) (fun r => conj eq_refl eq_refl) W) as W1.
  cbv zeta; tables; destruct (links db !! e) as [id|] eqn:Hl; simpl.
  - case_bool_decide as Hid.
    { exfalso. subst. destruct (wf_link_activity _ _ _ W _ _ Hl) as [a Ha]. exact (wf_named _ _ _ W _ Ha). }
    apply reconcile_reopen_wf; [done|].
    eapply wf_upto_weaken, W1; [intros x [[]|?]; congruence|intros x []].
  - eexists. split; [done|]. eapply wf_upto_weaken, W1; [intros x [[]|?]; congruence|done].
Qed.

Lemma answered_wf e t who db : wf db -> wf (UpdateEventAnswered e t who db).
Proof.
  intros W. unfold UpdateEventAnswered.
  set (f := fun r => match e_answered_at r with Some _ => r | None => set_answered t who r end).
  assert (forall r, e_camera (f r) = e_camera r /\ e_kind (f r) = e_kind r /\
    e_timestamp (f r) = e_timestamp r /\ e_end (f r) = e_end r /\ e_category (f r) = e_category r) as Hf
    by (intros r; subst f; simpl; by destruct (e_answered_at r)).
  pose proof (alter_event_wf nobody nobody db e f) as W1.
  specialize (W1 (fun r => conj (proj1 (Hf r)) (proj1 (proj2 (Hf r)))) W).
  change (wf (set_events (alter f e) db)).
  pose proof (fun id a Ha => wf_summary _ _ _ W id a Ha (not_nobody _)) as Hsum.
  destruct W1. split; try done. intros id a Ha _. destruct (Hsum id a Ha) as [].
  assert (forall row, member (set_events (alter f e) db) id row ->
    exists row0, member db id row0 /\ (row = f row0 \/ row = row0)) as H1.
  { intros row (e' & He' & Hl). tables.
    apply lookup_alter_Some in He' as [(-> & r' & Hr & ->)|[? He']].
    - exists r'. split; [by exists e'|by left].
    - exists row. split; [by exists e'|by right]. }
  assert (forall row0, member db id row0 ->
    exists row, member (set_events (alter f e) db) id row /\ (row = f row0 \/ row = row0)) as H2.
  { intros row0 (e' & He' & Hl). destruct (decide (e = e')) as [->|].
    - exists (f row0). split; [|by left]. exists e'. tables. by rewrite lookup_alter_eq, He'.
    - exists row0. split; [|by right]. exists e'. tables. by rewrite lookup_alter_ne. }
  assert (forall row row0, row = f row0 \/ row = row0 ->
    e_timestamp row = e_timestamp row0 /\ e_end row = e_end row0 /\ e_category row = e_category row0) as H3.
  { intros row row0 [->| ->]; [|done]. by destruct (Hf row0) as (_ & _ & ?). }
  split.
  - intros row (row0 & ? & (-> & _)%H3)%H1. auto.
  - destruct sum_start_at as (row0 & (row & ? & (E & _)%H3)%H2 & <-). exists row. split; [done|congruence].
  - intros row (row0 & ? & (_ & -> & _)%H3)%H1. auto.
  - destruct sum_end_at as (row0 & (row & ? & (_ & E & _)%H3)%H2 & <-). exists row. split; [done|]. congruence.
  - destruct sum_category as [(? & row0 & (row & ? & (_ & _ & E)%H3)%H2 & ?)|[? Hno]]; [left|right].
    + split; [done|]. exists row. split; [done|congruence].
    + split; [done|]. intros row (row0 & ? & (_ & _ & ->)%H3)%H1. auto.
Qed.

(** ** Deleting events *)

Lemma delete_wf now e db : wf db -> exists db', DeleteEvent now e db = Ok db' /\ wf db'.
Proof.
  intros W. unfold DeleteEvent. pose proof (delete_event_wf nobody nobody db e W) as W1.
  cbv zeta; tables; destruct (links db !! e) as [id|] eqn:Hl; simpl.
  - case_bool_decide as Hid.
    { exfalso. subst. destruct (wf_link_activity _ _ _ W _ _ Hl) as [a Ha]. exact (wf_named _ _ _ W _ Ha). }
    destruct (reconcileActivityTx_wf nobody now id (delete_event e db) Hid) as (db' & id' & -> & W' & _).
    { eapply wf_upto_weaken, W1; [intros x [[]|?]; right; congruence|intros x []]. }
    by exists db'.
  - eexists. split; [done|]. eapply wf_upto_weaken, W1; [intros x [[]|?]; congruence|done].
Qed.

Lemma delete_events_wf S L ids db :
  wf_upto S L db ->
  wf_upto (fun x => S x \/ exists e, e ∈ ids /\ links db !! e = Some x) L
    (fold_left (fun db id => delete_event id db) ids db).
Proof.
  revert S db. induction ids as [|e ids IH]; intros S db W; simpl.
  { eapply wf_upto_weaken, W; auto. }
  eapply wf_upto_weaken, (IH _ _ (delete_event_wf S L db e W)); [|done].
  intros x [[?|?]|(e' & ? & Hl)]; [by left|right..]; [exists e|exists e'];
    rewrite elem_of_cons; [by auto|]. tables. apply lookup_delete_Some in Hl as [? ?]. auto.
Qed.

Lemma reconcile_all_wf now ids db :
  ""%string ∉ ids -> wf_upto (fun x => x ∈ ids) nobody db ->
  exists db', reconcile_all now ids db = Ok db' /\ wf db'.
Proof.
  revert db. induction ids as [|id ids IH]; intros db Hne W; simpl.
  { exists db. split; [done|]. eapply wf_upto_weaken, W; [intros ? []%not_elem_of_nil|done]. }
  apply not_elem_of_cons in Hne as [Hid Hne].
  destruct (reconcileActivityTx_wf (fun x => x ∈ ids) now id db) as (db' & id' & -> & W' & _); [done| |].
  { eapply wf_upto_weaken, W; [|intros ? []]. intros x. rewrite elem_of_cons. tauto. }
  simpl. by apply IH.
Qed.

Lemma delete_batch_wf now cutoff n db :
  wf db -> exists k db', deleteEventBatch now cutoff n db = Ok (k, db') /\ wf db'.
Proof.
  intros W. unfold deleteEventBatch. destruct (expiredEventIDs cutoff n db) as [|i ids] eqn:E.
  { by exists 0, db. }
  rewrite <- E. clear E. set (l := expiredEventIDs cutoff n db).
  pose proof (delete_events_wf nobody nobody l db W) as W1.
  destruct (reconcile_all_wf now (activityIDsForEvents l db) (fold_left (fun db id => delete_event id db) l db))
    as (db' & Hr & W').
  - unfold activityIDsForEvents. rewrite elem_of_remove_dups, list_elem_of_omap.
    intros (e & _ & Hl). destruct (wf_link_activity _ _ _ W _ _ Hl) as [a Ha]. exact (wf_named _ _ _ W _ Ha).
  - eapply wf_upto_weaken, W1; [|done]. intros x [[]|(e & ? & ?)].
    unfold activityIDsForEvents. rewrite elem_of_remove_dups, list_elem_of_omap. eauto.
  - rewrite Hr. simpl. eauto.
Qed.

(** What a retention batch removes is gone, and the rest of the events are as they were. *)
Lemma delete_events_lookup ids db x :
  events (fold_left (fun db id => delete_event id db) ids db) !! x =
  if bool_decide (x ∈ ids) then None else events db !! x.
Proof.
  revert db. induction ids as [|e ids IH]; intros db; simpl; [done|].
  rewrite IH. cbn [events delete_event].
  destruct (decide (x = e)) as [->|].
  - rewrite lookup_delete_eq, (bool_decide_eq_true_2 (e ∈ e :: ids)) by (by left). by case_bool_decide.
  - rewrite lookup_delete_ne by done. apply (f_equal (fun b : bool => if b then None else _)).
    apply bool_decide_ext. set_solver.
Qed.

(** ** Operator corrections *)

Lemma record_exclusion_wf S L now id e reason actor db :
  links db !! e = None ->
  (exists row a, events db !! e = Some row /\ activities db !! id = Some a /\
     e_camera row = a_camera a /\ e_kind row <> EventKindCry) ->
  (forall c, c ∈ corrections db -> active c -> c_event c <> e) ->
  wf_upto S L db -> wf_upto S L (record_exclusion now id e reason actor db).
Proof.
  intros Hl Hrow Hc []. unfold record_exclusion.
  set (c0 := mkCorrectionRow _ _ _ _ _ _ _ _).
  assert (forall c, c ∈ corrections db -> c_id c <> next_correction db) as Hid
    by (intros c Hin; specialize (wf_correction_next c Hin); lia).
  split; cbn [events activities links corrections next_correction]; try done;
    try setoid_rewrite elem_of_app; try setoid_rewrite list_elem_of_singleton.
  - intros c [?| ->]; auto.
  - intros c [?| ->]; auto.
  - intros c d [?| ->] [?| ->] ? ? ?; try done; eauto; exfalso.
    + by apply (Hc c).
    + by apply (Hc d).
  - intros c d [?| ->] [?| ->] E; try done; eauto; exfalso; by eapply Hid.
  - intros c [Hin| ->]; [specialize (wf_correction_next c Hin); lia|simpl; lia].
  - intros j b Hb Hj. apply (summarizes_ext db); [done|by apply wf_summary].
Qed.

(** The store an exclusion reconciles. *)
Lemma exclude_stage_wf now id e reason actor db a :
  wf db -> activities db !! id = Some a -> links db !! e = Some id ->
  existsb (fun c => bool_decide (c_event c = e /\ c_restored_at c = None)) (corrections db) = false ->
  wf_upto (fun x => x = id) (fun x => x = id)
    (set_links (delete e) (record_exclusion now id e reason actor db)).
Proof.
  intros W Ha Hl Hx.
  eapply (wf_upto_weaken (fun x => nobody x \/ links db !! e = Some x) _ nobody);
    [intros x [[]|]; congruence|intros ? []|].
  destruct (wf_link_event _ _ _ W _ _ Hl) as (row & He & Hk).
  change (set_links (delete e) (record_exclusion now id e reason actor db))
    with (record_exclusion now id e reason actor (set_links (delete e) db)).
  apply record_exclusion_wf; [| | |by apply unlink_wf].
  - apply lookup_delete_eq.
  - exists row, a. split_and!; try done. apply (wf_camera _ _ _ W id); [done|by exists e].
  - intros c Hin Hact E. enough (existsb (fun c => bool_decide (c_event c = e /\ c_restored_at c = None))
      (corrections db) = true) by congruence.
    apply existsb_exists. exists c. split; [by apply list_elem_of_In|]. by apply bool_decide_eq_true_2.
Qed.

Lemma exclude_wf now id e reason actor db :
  wf db -> wf (ExcludeActivityEvidence now id e reason actor db).1.
Proof.
  intros W. unfold ExcludeActivityEvidence.
  destruct (activities db !! id) as [a|] eqn:Ha; [|done].
  destruct (existsb _ _); [done|].
  destruct (bool_decide (links db !! e = Some id)) eqn:Hl; [|done]; bool_to_prop. simpl.
  destruct (evidence_count db id <=? 1); [done|].
  destruct (existsb _ _) eqn:Hx; [done|].
  set (db1 := set_links _ _).
  destruct (reconcileActivityTx_wf nobody now id db1) as (db' & id' & -> & W' & _).
  - intros ->. by apply (wf_named _ _ _ W a).
  - eapply wf_upto_weaken, exclude_stage_wf; [by right|done|done..].
  - by case_bool_decide.
Qed.

(** Under the invariant an excluded event is free to be linked again. *)
Lemma restore_linkable id e actor now db a c :
  wf db -> activities db !! id = Some a -> c ∈ corrections db -> active_correction id e c ->
  let db1 := set_corrections
    (fmap (fun d => if bool_decide (c_id d = c_id c) then restore_correction now actor d else d)) db in
  wf db1 /\ linkable db1 e id.
Proof.
  intros W Ha Hc (Hcid & Hce & Hact). cbv zeta. set (f := fun d => _).
  assert (forall d, c_event (f d) = c_event d /\ c_activity (f d) = c_activity d /\ c_id (f d) = c_id d) as Hf
    by (intros d; subst f; simpl; by case_bool_decide).
  assert (forall d, active (f d) -> active d /\ c_id d <> c_id c) as Hf2
    by (intros d; subst f; simpl; case_bool_decide; done).
  assert (forall d, d ∈ corrections (set_corrections (fmap f) db) <-> exists d0, d = f d0 /\ d0 ∈ corrections db) as Hin
    by (intros d; apply list_elem_of_fmap).
  pose proof (wf_correction _ _ _ W c Hc) as (row & b & He & Hb & Hcam & Hk).
  pose proof (wf_excluded _ _ _ W c Hc Hact) as Hl. rewrite Hce, Hcid in *. simplify_eq.
  split.
  - destruct W. split; try setoid_rewrite Hin; cbn [events activities links next_correction set_corrections]; try done.
    + intros d (d0 & -> & Hd). destruct (Hf d0) as (-> & -> & _). eauto.
    + intros d (d0 & -> & Hd) Hd2. destruct (Hf d0) as (-> & _). apply Hf2 in Hd2 as []. eauto.
    + intros d d' (d0 & -> & Hd) (d0' & -> & Hd') [Hd2 _]%Hf2 [Hd2' _]%Hf2.
      destruct (Hf d0) as (-> & _), (Hf d0') as (-> & _). intros. f_equal. eauto.
    + intros d d' (d0 & -> & Hd) (d0' & -> & Hd').
      destruct (Hf d0) as (_ & _ & ->), (Hf d0') as (_ & _ & ->). intros. f_equal. eauto.
    + intros d (d0 & -> & Hd). destruct (Hf d0) as (_ & _ & ->). eauto.
    + intros j b' Hb' Hj. apply (summarizes_ext db); [done|by apply wf_summary].
  - split_and!; [done|by exists row, a|].
    intros d (d0 & -> & Hd)%Hin [Hd2 Hne]%Hf2. destruct (Hf d0) as (-> & _).
    intros E. apply Hne. f_equal. by apply (wf_active_unique _ _ _ W).
Qed.

Lemma restore_wf now id e actor db : wf db -> wf (RestoreActivityEvidence now id e actor db).1.
Proof.
  intros W. unfold RestoreActivityEvidence.
  destruct (activities db !! id) as [a|] eqn:Ha; [|done].
  destruct (filter _ _) as [|c l] eqn:Hf; [done|].
  assert (c ∈ filter (active_correction id e) (corrections db)) as [Hact Hc]%list_elem_of_filter
    by (rewrite Hf; by left).
  cbv zeta. set (who := if bool_decide _ then _ else _).
  destruct (restore_linkable id e who now db a c W Ha Hc Hact) as [W1 Hl].
  destruct Hl as (Hnone & Hl). pose proof Hnone as Hnone'. tables. rewrite Hnone.
  set (db1 := set_corrections _ db) in *.
  destruct (reconcileActivityTx_wf nobody now id (set_links (<[e := id]>) db1)) as (db' & id' & -> & W' & _).
  - intros ->. by apply (wf_named _ _ _ W a).
  - eapply wf_upto_weaken, link_wf, W1; [naive_solver|intros ? []|by split].
  - done.
Qed.

(** ** Lifecycle *)

Lemma finalize_row_wf now id db : wf db -> wf (set_activities (alter (finalize_row now) id) db).
Proof.
  intros W. apply wf_update_lifecycle; [done|]. intros a Ha.
  pose proof (wf_finalized _ _ _ W _ _ Ha). unfold finalize_row. destruct (a_state a) eqn:E; simpl.
  - split_and!; done.
  - rewrite E. by split_and!.
Qed.

Lemma finalize_due_wf now limit db : wf db -> wf (FinalizeDueActivities now limit db).1.
Proof.
  unfold FinalizeDueActivities. simpl. generalize (due_ids now limit db). intros ids. revert db.
  induction ids as [|id ids IH]; intros db W; [done|]. by apply IH, finalize_row_wf.
Qed.

Lemma mark_wf id t db : wf db -> wf (MarkActivityNotificationQueued id t db).1.
Proof.
  intros W. unfold MarkActivityNotificationQueued.
  destruct (activities db !! id) as [a|] eqn:Ha; [|done]. case_bool_decide as Hc; [|done]. simpl.
  replace (set_activities (insert id _) db) with (set_activities (alter (fun a =>
    mkActivityRow (a_camera a) (a_start_time a) (a_end_time a) (a_category a) (a_state a)
      (a_finalized_at a) (Some t) t) id) db).
  - apply wf_update_lifecycle; [done|]. intros b Hb. pose proof (wf_finalized _ _ _ W _ _ Hb). by split_and!.
  - unfold set_activities. f_equal. apply map_eq. intros x. rewrite lookup_alter, lookup_insert.
    case_decide; [|done]. subst. by rewrite Ha.
Qed.
