(* ===== verification/ActivityFrame.v ===== *)
(** What the activity transactions leave alone: how reconciliation moves links
    between activities, keeps notifications, and never touches an event row. *)

From S2P Require Import Prelude GoStrings CameraEvent ActivityStore ActivityInvariant.
From S2P Require Import ActivityOperations.

(** Every linked event still has its row. *)
Definition links_live (db : DB) : Prop :=
  forall e id, links db !! e = Some id -> is_Some (events db !! e).

Lemma wf_links_live S L db : wf_upto S L db -> links_live db.
Proof. intros W e id Hl. destruct (wf_link_event _ _ _ W _ _ Hl) as (? & ? & ?). by eexists. Qed.

Definition queued (db : DB) (id : string) : Prop :=
  exists a, activities db !! id = Some a /\ is_Some (a_notification_queued_at a).

(** [db'] is [db] with activities folded together by [f]: events are untouched,
    no activity appears, each link follows [f], and a queued notification of an
    activity with evidence follows it too. *)
Record folded (f : string -> string) (db db' : DB) : Prop := {
  folded_events : events db' = events db;
  folded_dom x : is_Some (activities db' !! x) -> is_Some (activities db !! x);
  folded_links e : links db' !! e = f <$> links db !! e;
  folded_queued e id : links db !! e = Some id -> queued db id -> queued db' (f id)
}.

Lemma folded_refl db : folded id db db.
Proof. split; try done. intros e. by rewrite option_fmap_id. Qed.

Lemma folded_trans f g db1 db2 db3 : folded f db1 db2 -> folded g db2 db3 -> folded (g ∘ f) db1 db3.
Proof.
  intros [] []. split; [congruence|auto| |].
  - intros e. by rewrite folded_links1, folded_links0, option_fmap_compose.
  - intros e id Hl Hq. eapply folded_queued1; [|eauto].
    by rewrite folded_links0, Hl.
Qed.

Lemma folded_links_live f db db' : folded f db db' -> links_live db -> links_live db'.
Proof.
  intros [] Hl e id. rewrite folded_events0, folded_links0.
  intros (x & Hx & _)%fmap_Some. by eapply Hl.
Qed.

Lemma merge_folded c m db :
  m <> c -> is_Some (activities db !! c) ->
  folded (fun x => if bool_decide (x = m) then c else x) db (merge_activity c db m).
Proof.
  intros Hm [a Ha]. split.
  - done.
  - intros x [b (_ & b' & ? & _)%merge_lookup]. by eexists.
  - intros e. by rewrite merge_links.
  - intros e x Hl (b & Hb & Hq). unfold queued. case_bool_decide as Hx.
    + subst. rewrite merge_activities by done. rewrite decide_False by done.
      unfold preserveActivityNotificationTx, set_activities. cbn [activities].
      rewrite lookup_alter_eq, Ha, Hb. eexists. split; [done|].
      cbn. destruct (a_notification_queued_at a) eqn:E; [by rewrite E|done].
    + rewrite merge_activities by done. rewrite decide_False by done.
      unfold preserveActivityNotificationTx, set_activities. cbn [activities].
      rewrite lookup_alter. case_decide; subst; rewrite Hb; [|by eexists]. eexists. split; [done|].
      destruct (a_notification_queued_at b) eqn:E; simpl; [by rewrite E|by destruct Hq].
Qed.

Lemma merge_all_folded c ms db :
  c ∉ ms -> is_Some (activities db !! c) -> exists f, folded f db (merge_all c ms db).
Proof.
  revert db. induction ms as [|m ms IH]; intros db Hc Ha; simpl; [exists id; apply folded_refl|].
  apply not_elem_of_cons in Hc as [Hcm Hc].
  destruct (IH (merge_activity c db m) Hc) as [g Hg]; [by apply merge_activities_c|].
  eexists. eapply folded_trans, Hg. by apply merge_folded.
Qed.

(** Rewriting summary and lifecycle columns folds nothing. *)
Lemma update_folded g id db :
  (forall a, a_notification_queued_at (g a) = a_notification_queued_at a) ->
  folded (fun x => x) db (set_activities (alter g id) db).
Proof.
  intros Hg. split; cbn [activities events links set_activities]; try done.
  - intros x. by rewrite lookup_alter_is_Some.
  - intros e. by destruct (links db !! e).
  - intros e x _ (a & Ha & Hq). unfold queued. cbn [activities set_activities].
    rewrite lookup_alter. case_decide; subst; rewrite Ha; [|by exists a]. exists (g a). by rewrite Hg.
Qed.

Lemma delete_activity_folded id db :
  links_live db -> (forall row, ~ member db id row) -> folded (fun x => x) db (delete_activity id db).
Proof.
  intros Hlive Hno.
  assert (forall e x, links db !! e = Some x -> x <> id) as Hne.
  { intros e x Hl ->. destruct (Hlive _ _ Hl) as [row ?]. apply (Hno row). by exists e. }
  split; cbn [activities events links delete_activity]; try done.
  - intros x [b [? ?]%lookup_delete_Some]. by eexists.
  - intros e. apply option_eq. intros x. rewrite map_lookup_filter_Some. simpl.
    destruct (links db !! e) eqn:E; simpl; naive_solver.
  - intros e x Hl (a & Ha & Hq). exists a. split; [|done]. cbn [activities delete_activity].
    rewrite lookup_delete_ne; [done|]. intros ->. by apply (Hne e x).
Qed.

(** Reconciliation folds activities; the answer is where the activity ended up. *)
Lemma reconcile_folded now fuel id db db' id' :
  links_live db -> is_Some (activities db !! id) ->
  reconcile_fuel fuel now id db = Ok (db', id') -> exists f, folded f db db'.
Proof.
  intros Hlive Hid.
  apply (reconcile_ind
    (fun id db1 => is_Some (activities db1 !! id) /\ exists f, folded f db db1)
    (fun db' _ => exists f, folded f db db')).
  - by intros db1 [].
  - intros i db1 (_ & f & Hf) _ Hno. eexists. eapply folded_trans; [done|].
    apply delete_activity_folded; [by eapply folded_links_live|done].
  - intros i db1 s (_ & f & Hf) _ _ _. eexists. eapply folded_trans; [done|]. apply update_folded.
    by destruct s as [[[]]].
  - intros i db1 s c ms (Hi & f & Hf) _ _ (Hc & _ & Hx).
    assert (is_Some (activities (resummarized now i s db1) !! c)) as Hac.
    { specialize (Hx c). destruct s as [[[camera start] end_] category].
      destruct (proj1 Hx (or_introl eq_refl)) as [->|Hin].
      - by apply lookup_alter_is_Some.
      - apply elem_of_neighboring_snd in Hin as (b & Hb & _). by eexists. }
    split; [by apply merge_all_c|].
    destruct (merge_all_folded c ms (resummarized now i s db1) Hc Hac) as [g Hg].
    eexists. eapply folded_trans, Hg. eapply folded_trans; [done|]. apply update_folded.
    by destruct s as [[[]]].
  - split; [done|]. exists (fun x => x). split; try done. intros e. by destruct (links db !! e).
Qed.

Lemma reconcileActivityTx_folded now id db db' id' :
  links_live db -> is_Some (activities db !! id) ->
  reconcileActivityTx now id db = Ok (db', id') -> exists f, folded f db db'.
Proof. apply reconcile_folded. Qed.

Lemma reopen_folded now id db : folded (fun x => x) db (reopenActivityTx now id db).
Proof. by apply update_folded. Qed.

(** ** Whole operations

    [evolved X f db db']: away from the events of [X] links follow [f] and queued
    notifications with them. *)
Record evolved (X : string -> Prop) (f : string -> string) (db db' : DB) : Prop := {
  evolved_links e : ~ X e -> links db' !! e = f <$> links db !! e;
  evolved_queued e id : ~ X e -> links db !! e = Some id -> queued db id -> queued db' (f id)
}.

Lemma folded_evolved X f db db' : folded f db db' -> evolved X f db db'.
Proof. intros []. split; eauto. Qed.

Lemma evolved_trans X f g db1 db2 db3 :
  evolved X f db1 db2 -> evolved X g db2 db3 -> evolved X (g ∘ f) db1 db3.
Proof.
  intros [] []. split.
  - intros e ?. by rewrite evolved_links1, evolved_links0, option_fmap_compose.
  - intros e id ? Hl Hq. eapply evolved_queued1; [done| |eauto].
    by rewrite evolved_links0, Hl.
Qed.

Lemma evolved_weaken (X Y : string -> Prop) f db db' :
  (forall e, X e -> Y e) -> evolved X f db db' -> evolved Y f db db'.
Proof. intros H []. split; eauto. Qed.

(** A store with the same activities, and the same links away from [X]. *)
Lemma evolved_same X db db' :
  (forall e, ~ X e -> links db' !! e = links db !! e) ->
  (forall e id, ~ X e -> links db !! e = Some id -> activities db' !! id = activities db !! id) ->
  evolved X (fun x => x) db db'.
Proof.
  intros Hl Ha. split.
  - intros e He. rewrite Hl by done. by destruct (links db !! e).
  - intros e id He Hle (a & ? & ?). exists a. split; [|done]. by erewrite Ha.
Qed.

Definition notified (db : DB) (e : string) : Prop := exists id, links db !! e = Some id /\ queued db id.

Lemma evolved_notified X f db db' e : evolved X f db db' -> ~ X e -> notified db e -> notified db' e.
Proof.
  intros [] He (id & Hl & Hq). exists (f id). split; [by rewrite evolved_links0, Hl|eauto].
Qed.

(** Two events of one activity stay together. *)
Lemma evolved_together X f db db' e1 e2 id :
  evolved X f db db' -> ~ X e1 -> ~ X e2 -> links db !! e1 = Some id -> links db !! e2 = Some id ->
  exists id', links db' !! e1 = Some id' /\ links db' !! e2 = Some id'.
Proof. intros [] ? ? H1 H2. exists (f id). by rewrite !evolved_links0, H1, H2. Qed.

Lemma reconcile_reopen_evolved X now id db db' :
  links_live db -> is_Some (activities db !! id) ->
  (let? (db, survivingID) := reconcileActivityTx now id db in
   if bool_decide (survivingID = ""%string) then Ok db
   else Ok (reopenActivityTx now survivingID db)) = Ok db' ->
  exists f, folded f db db' /\ evolved X f db db'.
Proof.
  intros Hl Ha H. destruct (reconcileActivityTx now id db) as [[db1 id1]|] eqn:E; simplify_eq/=.
  destruct (reconcileActivityTx_folded _ _ _ _ _ Hl Ha E) as [f Hf].
  case_bool_decide; simplify_eq.
  - exists f. split; [done|]. by apply folded_evolved.
  - exists ((fun x => x) ∘ f). split; [|apply folded_evolved];
      (eapply folded_trans; [done|apply reopen_folded]).
Qed.

Lemma assign_evolved now ev db db' :
  wf db -> is_Some (events db !! ID ev) -> links db !! ID ev = None ->
  assignEventToActivityTx now ev db = Ok db' ->
  exists f, evolved (fun e => e = ID ev) f db db' /\ events db' = events db /\
    (Kind ev <> EventKindCry -> is_Some (links db' !! ID ev)) /\
    (forall x, is_Some (activities db' !! x) ->
       is_Some (activities db !! x) \/ x = ("act_" +:+ ID ev)%string).
Proof.
  intros W Hev Hnone. unfold assignEventToActivityTx.
  case_bool_decide as Hcry.
  { intros [= <-]. exists (fun x => x). split_and!; [by apply evolved_same|done|done|auto]. }
  destruct (eventActivityBounds ev) as [start end_].
  set (lo := Add start _). set (hi := Add end_ _).
  pose proof (neighboring_NoDup None (CameraName ev) lo hi db) as Hnd.
  pose proof (elem_of_neighboring_snd None (CameraName ev) lo hi db) as Hel.
  pose proof (wf_links_live _ _ _ W) as Hlive.
  assert (forall c db1, events db1 = events db -> links_live db1 ->
    links_live (set_links (<[ID ev:=c]>) db1)) as Hlink.
  { intros c db1 He1 Hl1 e id'. tables. rewrite He1. intros [[<- <-]|[? ?]]%lookup_insert_Some; [done|].
    rewrite <- He1. by eapply Hl1. }
  destruct (neighboring None (CameraName ev) lo hi db) as [|[t c] rest]; simpl.
  - destruct (activities db !! _) eqn:Ha; simpl; [done|]. intros H.
    eapply (reconcile_reopen_evolved (fun e => e = ID ev)) in H as (f & Hf & Hev').
    2:{ by apply Hlink. }
    2:{ tables. by rewrite lookup_insert_eq. }
    exists (f ∘ (fun x => x)). split_and!.
    + eapply evolved_trans, Hev'. apply evolved_same; intros e; tables.
      * intros. by rewrite lookup_insert_ne.
      * intros id' ? Hl. rewrite lookup_insert_ne; [done|]. intros <-.
        destruct (wf_link_activity _ _ _ W _ _ Hl). congruence.
    + by rewrite (folded_events _ _ _ Hf).
    + intros _. rewrite (folded_links _ _ _ Hf). tables. rewrite lookup_insert_eq. by eexists.
    + intros x Hx%(folded_dom _ _ _ Hf). tables. rewrite lookup_insert in Hx.
      case_decide; [by right|by left].
  - apply NoDup_cons in Hnd as [Hc _]. intros H.
    change (fold_left (merge_activity c) (snd <$> rest) db) with (merge_all c (rest.*2) db) in H.
    destruct (proj1 (Hel c)) as (a & Ha & _); [by left|].
    destruct (merge_all_folded c rest.*2 db Hc) as [g Hg]; [by eexists|].
    eapply (reconcile_reopen_evolved (fun e => e = ID ev)) in H as (f & Hf & Hev').
    2:{ apply Hlink; [apply merge_all_events|by eapply folded_links_live]. }
    2:{ tables. apply merge_all_c; [done|by eexists]. }
    exists (f ∘ ((fun x => x) ∘ g)). split_and!.
    + eapply evolved_trans, Hev'. eapply evolved_trans; [by eapply folded_evolved|].
      apply evolved_same; intros e; tables; [|done]. intros. by rewrite lookup_insert_ne.
    + rewrite (folded_events _ _ _ Hf). apply merge_all_events.
    + intros _. rewrite (folded_links _ _ _ Hf). tables. rewrite lookup_insert_eq. by eexists.
    + intros x Hx%(folded_dom _ _ _ Hf). left. by apply (folded_dom _ _ _ Hg).
Qed.

(** Reconciling any activity of a transaction's store, even one already folded away. *)
Lemma reconcile_wf_folded S L now id db db' id' :
  wf_upto S L db -> reconcileActivityTx now id db = Ok (db', id') -> exists f, folded f db db'.
Proof.
  intros W H. pose proof (wf_links_live _ _ _ W) as Hlive.
  destruct (activities db !! id) as [a|] eqn:Ha.
  - eapply reconcileActivityTx_folded, H; [done|by eexists].
  - assert (forall row, ~ member db id row) as Hno.
    { intros row (e & _ & Hl). destruct (wf_link_activity _ _ _ W _ _ Hl). congruence. }
    unfold reconcileActivityTx in H. cbn [reconcile_fuel] in H.
    case_bool_decide; simplify_eq; [eexists; apply folded_refl|].
    destruct (summarize (evidence db id)) as [s|] eqn:Es.
    { destruct (evidence db id) as [|[e r] l] eqn:El; [done|]. destruct (Hno r).
      apply member_evidence. rewrite El. by left. }
    simplify_eq. eexists. by apply delete_activity_folded.
Qed.

Lemma reconcile_all_folded now ids db db' :
  ""%string ∉ ids -> wf_upto (fun x => x ∈ ids) nobody db ->
  reconcile_all now ids db = Ok db' -> exists f, folded f db db'.
Proof.
  revert db. induction ids as [|id ids IH]; intros db Hne W; simpl.
  { intros [= <-]. eexists. apply folded_refl. }
  apply not_elem_of_cons in Hne as [Hid Hne].
  destruct (reconcileActivityTx_wf (fun x => x ∈ ids) now id db) as (db1 & id1 & E & W1 & _); [done| |].
  { eapply wf_upto_weaken, W; [|intros ? []]. intros x. rewrite elem_of_cons. tauto. }
  destruct (reconcile_wf_folded _ _ _ _ _ _ _ W E) as [f Hf].
  rewrite E. simpl. intros H. destruct (IH db1 Hne W1 H) as [g Hg].
  eexists. by eapply folded_trans.
Qed.

(** ** Retention *)

Definition expired (cutoff : Z) (e : EventRow) : Prop := e_timestamp e < cutoff.

#[global] Instance expired_dec cutoff e : Decision (expired cutoff e).
Proof. unfold expired. apply _. Defined.

Definition expired_events (cutoff : Z) (db : DB) : gmap string EventRow :=
  filter (fun kv => expired cutoff kv.2) (events db).
Definition kept_events (cutoff : Z) (db : DB) : gmap string EventRow :=
  filter (fun kv => ~ expired cutoff kv.2) (events db).

(** The ids of a batch: as many distinct expired events as there are, up to the limit. *)
Lemma expiredEventIDs_spec cutoff n db :
  let ids := expiredEventIDs cutoff n db in
  NoDup ids /\ (forall e, e ∈ ids -> is_Some (expired_events cutoff db !! e)) /\
  length ids = Nat.min (Z.to_nat n) (size (expired_events cutoff db)).
Proof.
  cbv zeta. unfold expiredEventIDs.
  set (l := (snd <$> merge_sort _ _)).
  assert (l ≡ₚ (map_to_list (expired_events cutoff db)).*1) as Hl.
  { subst l. rewrite merge_sort_Permutation, <- list_fmap_compose.
    unfold expired_events. rewrite map_filter_alt, map_to_list_to_map; [done|].
    eapply sublist_NoDup; [apply (NoDup_fst_map_to_list (events db))|].
    apply fmap_sublist, sublist_filter. }
  assert (NoDup l) as Hnd by (rewrite Hl; apply NoDup_fst_map_to_list).
  split_and!.
  - eapply sublist_NoDup; [exact Hnd|apply sublist_take].
  - intros e He. apply (elem_of_sublist _ l) in He; [|apply sublist_take].
    rewrite Hl, list_elem_of_fmap in He. destruct He as ([x r] & -> & H%elem_of_map_to_list). by eexists.
  - rewrite length_take, Hl, length_fmap. by rewrite length_map_to_list.
Qed.

Lemma delete_events_links ids db x :
  links (fold_left (fun db id => delete_event id db) ids db) !! x =
  if bool_decide (x ∈ ids) then None else links db !! x.
Proof.
  revert db. induction ids as [|e ids IH]; intros db; simpl; [done|].
  rewrite IH. cbn [links delete_event].
  destruct (decide (x = e)) as [->|].
  - rewrite lookup_delete_eq, (bool_decide_eq_true_2 (e ∈ e :: ids)) by (by left). by case_bool_decide.
  - rewrite lookup_delete_ne by done. apply (f_equal (fun b : bool => if b then None else _)).
    apply bool_decide_ext. set_solver.
Qed.

Lemma delete_events_activities ids db :
  activities (fold_left (fun db id => delete_event id db) ids db) = activities db.
Proof. revert db. induction ids as [|e ids IH]; intros db; simpl; [done|]. by rewrite IH. Qed.

Lemma activityIDsForEvents_named ids db : wf db -> ""%string ∉ activityIDsForEvents ids db.
Proof.
  intros W. unfold activityIDsForEvents. rewrite elem_of_remove_dups, list_elem_of_omap.
  intros (e & _ & Hl). destruct (wf_link_activity _ _ _ W _ _ Hl) as [a Ha].
  exact (wf_named _ _ _ W _ Ha).
Qed.

Lemma delete_events_stale ids db :
  wf db ->
  wf_upto (fun x => x ∈ activityIDsForEvents ids db) nobody
    (fold_left (fun db id => delete_event id db) ids db).
Proof.
  intros W. eapply wf_upto_weaken, delete_events_wf, W; [|done].
  intros x [[]|(e & ? & ?)]. unfold activityIDsForEvents.
  rewrite elem_of_remove_dups, list_elem_of_omap. eauto.
Qed.

(** One retention transaction. *)
Lemma deleteEventBatch_spec now cutoff n db :
  wf db ->
  let ids := expiredEventIDs cutoff n db in
  exists db' f, deleteEventBatch now cutoff n db = Ok (Z.of_nat (length ids), db') /\ wf db' /\
    evolved (fun e => e ∈ ids) f db db' /\
    (forall e, e ∈ ids -> links db' !! e = None) /\
    (forall x, events db' !! x = if bool_decide (x ∈ ids) then None else events db !! x).
Proof.
  intros W. cbv zeta. unfold deleteEventBatch.
  destruct (expiredEventIDs cutoff n db) as [|i ids] eqn:E.
  { exists db, (fun x => x). split_and!; [done..|by apply evolved_same| |done].
    by intros e ?%not_elem_of_nil. }
  rewrite <- E. clear E. set (l := expiredEventIDs cutoff n db).
  pose proof (activityIDsForEvents_named l db W) as Hne.
  pose proof (delete_events_stale l db W) as W1.
  destruct (reconcile_all_wf now _ _ Hne W1) as (db' & Hr & W').
  destruct (reconcile_all_folded now _ _ _ Hne W1 Hr) as [f Hf].
  rewrite Hr. exists db', (f ∘ (fun x => x)). split_and!; [done..| | |].
  - eapply evolved_trans; [|by eapply folded_evolved].
    apply evolved_same; intros e; [intros He|intros id He ?].
    + rewrite delete_events_links. by rewrite bool_decide_eq_false_2.
    + by rewrite delete_events_activities.
  - intros e He. rewrite (folded_links _ _ _ Hf), delete_events_links. by rewrite bool_decide_eq_true_2.
  - intros x. rewrite (folded_events _ _ _ Hf). apply delete_events_lookup.
Qed.

(** What a batch leaves of the expired events, and of the others. *)
Lemma batch_remaining cutoff n db db' :
  (forall x, events db' !! x =
     if bool_decide (x ∈ expiredEventIDs cutoff n db) then None else events db !! x) ->
  kept_events cutoff db' = kept_events cutoff db /\
  size (expired_events cutoff db') =
    (size (expired_events cutoff db) - length (expiredEventIDs cutoff n db))%nat.
Proof.
  intros Hev. destruct (expiredEventIDs_spec cutoff n db) as (Hnd & Hin & Hlen).
  set (ids := expiredEventIDs cutoff n db) in *. split.
  - apply map_eq. intros x. apply option_eq. intros r. unfold kept_events.
    rewrite !map_lookup_filter_Some, Hev. case_bool_decide as Hx; [|done].
    split; [by intros []|]. intros [Hr Hk]. exfalso. apply Hin in Hx as [r' Hr'].
    apply map_lookup_filter_Some in Hr' as [? ?]. simplify_eq. by apply Hk.
  - assert (dom (expired_events cutoff db') = dom (expired_events cutoff db) ∖ list_to_set ids) as Hd.
    { apply set_eq. intros x. rewrite elem_of_difference, elem_of_list_to_set, !elem_of_dom.
      unfold expired_events, is_Some. setoid_rewrite map_lookup_filter_Some. setoid_rewrite Hev.
      case_bool_decide; naive_solver. }
    rewrite <- !(size_dom (D := gset string)), Hd, size_difference.
    + f_equal. by apply size_list_to_set.
    + intros x Hx%elem_of_list_to_set. by apply elem_of_dom, Hin.
Qed.

Lemma no_expired cutoff db :
  size (expired_events cutoff db) = 0%nat -> events db = kept_events cutoff db.
Proof.
  intros Hs%map_size_empty_iff. unfold kept_events. symmetry. apply map_filter_id. intros x r Hr He.
  enough (expired_events cutoff db !! x = Some r) by (rewrite Hs in *; done).
  by apply map_lookup_filter_Some.
Qed.

(** The loop removes every expired event and counts them. *)
Lemma delete_loop_spec now cutoff n fuel total db :
  0 < n -> (size (expired_events cutoff db) < fuel)%nat -> wf db ->
  exists db', delete_loop fuel now cutoff n total db =
      Ok (total + Z.of_nat (size (expired_events cutoff db)), db') /\
    wf db' /\ events db' = kept_events cutoff db.
Proof.
  intros Hn. revert total db. induction fuel as [|fuel IH]; intros total db Hf W; [lia|].
  destruct (deleteEventBatch_spec now cutoff n db W) as (db1 & f & E & W1 & _ & _ & Hev).
  destruct (expiredEventIDs_spec cutoff n db) as (_ & _ & Hlen).
  destruct (batch_remaining cutoff n db db1 Hev) as [Hk Hs].
  simpl. rewrite E. simpl. case_match eqn:Hlt; bool_to_prop.
  - exists db1. split_and!; [do 2 f_equal; lia|done|]. rewrite <- Hk. apply no_expired. lia.
  - destruct (IH (total + Z.of_nat (length (expiredEventIDs cutoff n db))) db1) as (db' & -> & W' & He);
      [lia|done|].
    exists db'. split_and!; [do 2 f_equal; lia|done|congruence].
Qed.

Lemma expired_size cutoff db : (size (expired_events cutoff db) <= size (events db))%nat.
Proof.
  rewrite <- !(size_dom (D := gset string)). apply subseteq_size.
  intros x. rewrite !elem_of_dom. intros [r [? _]%map_lookup_filter_Some]. by eexists.
Qed.
