(* ===== verification/ActivityReachability.v ===== *)
(** The activity store as a transition system whose steps are its committed
    transactions, and what holds of every store they reach. *)

From S2P Require Import Prelude GoStrings CameraEvent ActivityStore ActivityInvariant.
From S2P Require Import ActivityOperations ActivityFrame.

(** One committed transaction.  A transaction that fails rolls back and is no
    step; the retention loop commits one step per batch, so other writers may run
    between its batches. *)
Inductive store_step : DB -> DB -> Prop :=
| step_save now ev db db' :
    SaveEvent now ev db = Ok db' -> store_step db db'
| step_end_time now e t db db' :
    UpdateEventEndTime now e t db = Ok db' -> store_step db db'
| step_answered e t who db :
    store_step db (UpdateEventAnswered e t who db)
| step_delete now e db db' :
    DeleteEvent now e db = Ok db' -> store_step db db'
| step_retention now cutoff n k db db' :
    deleteEventBatch now cutoff n db = Ok (k, db') -> store_step db db'
| step_exclude now id e reason actor db :
    store_step db (ExcludeActivityEvidence now id e reason actor db).1
| step_restore now id e actor db :
    store_step db (RestoreActivityEvidence now id e actor db).1
| step_finalize now limit db :
    store_step db (FinalizeDueActivities now limit db).1
| step_mark id t db :
    store_step db (MarkActivityNotificationQueued id t db).1.

Lemma step_wf db db' : store_step db db' -> wf db -> wf db'.
Proof.
  intros H W. destruct H as [now ev db db' H|now e t db db' H|e t who db|now e db db' H
    |now cutoff n k db db' H|now id e reason actor db|now id e actor db|now limit db|id t db].
  - pose proof (save_wf now ev db W) as Hs. by rewrite H in Hs.
  - destruct (update_end_wf now e t db W) as (? & ? & ?). congruence.
  - by apply answered_wf.
  - destruct (delete_wf now e db W) as (? & ? & ?). congruence.
  - destruct (delete_batch_wf now cutoff n db W) as (? & ? & ? & ?). congruence.
  - by apply exclude_wf.
  - by apply restore_wf.
  - by apply finalize_due_wf.
  - by apply mark_wf.
Qed.

(** ** Stores that predate activities *)

(** A store with events only, as the migration finds it. *)
Definition legacy (db : DB) : Prop :=
  activities db = ∅ /\ links db = ∅ /\ corrections db = [].

Lemma legacy_wf db : legacy db -> wf db.
Proof.
  intros (Ha & Hl & Hc). split; rewrite ?Ha, ?Hl, ?Hc; intros *; rewrite ?lookup_empty, ?elem_of_nil; done.
Qed.

(** The events a backfill has still to assign: unlinked, and their activity ids unused. *)
Definition unassigned (evs : list Event) (db : DB) : Prop :=
  NoDup (ID <$> evs) /\
  forall ev, ev ∈ evs -> links db !! ID ev = None /\
    activities db !! ("act_" +:+ ID ev)%string = None /\
    exists row, events db !! ID ev = Some row /\ ev = scan_event (ID ev) row.

Lemma act_id_inj x y : ("act_" +:+ x)%string = ("act_" +:+ y)%string -> x = y.
Proof. intros H. by apply (inj (String.append "act_")) in H. Qed.

Lemma merge_all_no_corrections c ms db :
  corrections db = [] -> corrections (merge_all c ms db) = [].
Proof.
  revert db. induction ms as [|m ms IH]; intros db Hc; simpl; [done|]. apply IH.
  simpl. by rewrite Hc.
Qed.

Lemma reconcile_no_corrections now id db db' id' :
  corrections db = [] -> reconcileActivityTx now id db = Ok (db', id') -> corrections db' = [].
Proof.
  intros Hc. apply (reconcile_ind (fun _ db => corrections db = []) (fun db' _ => corrections db' = []));
    try done; clear.
  - intros id db Hc _ _. simpl. by rewrite Hc.
  - intros id db s c ms Hc _ _ _. by apply merge_all_no_corrections.
Qed.

Lemma assign_no_corrections now ev db db' :
  corrections db = [] -> assignEventToActivityTx now ev db = Ok db' -> corrections db' = [].
Proof.
  intros Hc. unfold assignEventToActivityTx. case_bool_decide; [by intros [= <-]|].
  destruct (eventActivityBounds ev) as [start end_].
  set (r := match neighboring _ _ _ _ _ with [] => _ | _ => _ end).
  assert (forall a db1, r = Ok (a, db1) -> corrections db1 = []) as Hr.
  { subst r. intros a db1. destruct (neighboring _ _ _ _ _) as [|[t c] rest].
    - by destruct (activities db !! _); intros [= <- <-].
    - intros [= <- <-]. by apply merge_all_no_corrections. }
  destruct r as [[a db1]|]; simpl; [|done]. specialize (Hr a db1 eq_refl).
  destruct (reconcileActivityTx _ _ _) as [[db2 id2]|] eqn:E; simpl; [|done].
  apply reconcile_no_corrections in E; [|done]. by case_bool_decide; intros [= <-].
Qed.

Lemma assign_all_wf now evs db :
  wf db -> corrections db = [] -> unassigned evs db ->
  exists db', assign_all now evs db = Ok db' /\ wf db' /\ events db' = events db /\
    (forall e, is_Some (links db !! e) -> is_Some (links db' !! e)) /\
    (forall ev, ev ∈ evs -> Kind ev <> EventKindCry -> is_Some (links db' !! ID ev)).
Proof.
  revert db. induction evs as [|ev evs IH]; intros db W Hc [Hnd Hun]; simpl.
  { exists db. split_and!; try done. by intros ? ?%not_elem_of_nil. }
  apply NoDup_cons in Hnd as [Hev Hnd].
  destruct (Hun ev) as (Hl & Ha & row & Hrow & Hscan); [by left|].
  pose proof (assign_wf now ev db row W Hrow) as Hw.
  destruct (assignEventToActivityTx now ev db) as [db1|err] eqn:E; simpl.
  2:{ destruct Hw; try done; [by rewrite Hscan..|by rewrite Hc; intros ? ?%not_elem_of_nil]. }
  destruct (assign_evolved now ev db db1 W) as (f & Hf & Hevs & Hlinked & Hdom); [by eexists|done..|].
  destruct (IH db1) as (db' & -> & W' & He & Hmono & Hall).
  - apply Hw; [by rewrite Hscan..|done|by rewrite Hc; intros ? ?%not_elem_of_nil].
  - by eapply assign_no_corrections.
  - split; [done|]. intros ev' Hin. destruct (Hun ev') as (Hl' & Ha' & row' & Hrow' & Hscan'); [by right|].
    assert (ID ev' <> ID ev) as Hne.
    { intros Eq. apply Hev. rewrite <- Eq. by apply list_elem_of_fmap_2. }
    split_and!.
    + by rewrite (evolved_links _ _ _ _ Hf), Hl'.
    + apply eq_None_not_Some. intros [[? H]|H%act_id_inj]%Hdom; congruence.
    + exists row'. by rewrite Hevs.
  - exists db'. split_and!; [done|done|congruence| |].
    + intros e Hs. apply Hmono. destruct (decide (e = ID ev)) as [->|]; [by rewrite Hl in Hs; destruct Hs|].
      by rewrite (evolved_links _ _ _ _ Hf), fmap_is_Some.
    + intros ev' [->|?]%elem_of_cons ?; auto.
Qed.

Lemma events_in_order_ID rows : ID <$> events_in_order rows ≡ₚ rows.*1.
Proof.
  unfold events_in_order. rewrite <- list_fmap_compose. by rewrite merge_sort_Permutation.
Qed.

Lemma elem_of_events_in_order rows ev :
  ev ∈ events_in_order rows <-> exists e row, (e, row) ∈ rows /\ ev = scan_event e row.
Proof.
  unfold events_in_order. rewrite list_elem_of_fmap. setoid_rewrite merge_sort_elem_of. split.
  - intros ([e row] & -> & ?). by exists e, row.
  - intros (e & row & ? & ->). by exists (e, row).
Qed.

(** The backfill succeeds on every store the migration can find. *)
Lemma backfill_wf now db :
  legacy db ->
  exists db', backfillActivities now db = Ok db' /\ wf db' /\ events db' = events db /\
    forall e row, events db !! e = Some row -> e_kind row <> EventKindCry -> is_Some (links db' !! e).
Proof.
  intros Hleg. destruct (assign_all_wf now (events_in_order (map_to_list (events db))) db)
    as (db' & Hr & W & He & _ & Hall).
  - by apply legacy_wf.
  - apply Hleg.
  - split; [rewrite events_in_order_ID; apply NoDup_fst_map_to_list|].
    intros ev (e & row & Hin%elem_of_map_to_list & ->)%elem_of_events_in_order.
    destruct Hleg as (Ha & Hl & _). rewrite Ha, Hl, !lookup_empty. split_and!; [done..|]. by exists row.
  - exists db'. split_and!; [done..|]. intros e row Hrow Hk. apply (Hall (scan_event e row)); [|done].
    apply elem_of_events_in_order. exists e, row. by rewrite elem_of_map_to_list.
Qed.

Lemma finalize_historical_wf db : wf db -> wf (finalizeHistoricalActivities db).
Proof.
  intros W. assert (forall id a, activities (finalizeHistoricalActivities db) !! id = Some a ->
    exists b, activities db !! id = Some b /\ a = finalize_historical b) as Hrow.
  { intros id a H. unfold finalizeHistoricalActivities in H. tables. rewrite lookup_fmap in H.
    destruct (activities db !! id) as [b|]; [|done]. injection H as <-. by exists b. }
  destruct W as [H1 H2 H3 H4 H5 H6 H7 H8 H9 H10 H11 H12]. split; try done.
  - intros e id H. unfold finalizeHistoricalActivities. tables. rewrite lookup_fmap, fmap_is_Some. by eapply H2.
  - intros id a row (b & Hb & ->)%Hrow. by apply (H3 id b).
  - intros c Hc. destruct (H4 c Hc) as (row & a & ? & Ha & ?). exists row, (finalize_historical a).
    unfold finalizeHistoricalActivities. tables. rewrite lookup_fmap, Ha. done.
  - intros id a (b & Hb & ->)%Hrow. split; [intros _; by eexists|done].
  - intros a (b & Hb & _)%Hrow. by eapply H10.
  - intros id a (b & Hb & ->)%Hrow Hs. destruct (H11 id b Hb Hs). by split.
  - intros i j a b Hij (a' & Ha & ->)%Hrow (b' & Hb & ->)%Hrow Hi Hj. exact (H12 i j a' b' Hij Ha Hb Hi Hj).
Qed.

(** The stores the program works on: a migrated one (its activities backfilled, then
    closed), then committed transactions. *)
Definition initial (db : DB) : Prop :=
  exists now db0 db1, legacy db0 /\ backfillActivities now db0 = Ok db1 /\ db = finalizeHistoricalActivities db1.

Definition reachable (db : DB) : Prop := exists db0, initial db0 /\ rtc store_step db0 db.

Lemma reachable_is_wf db : reachable db -> wf db.
Proof.
  intros (db0 & (now & db00 & db01 & Hl & Hb & ->) & Hs).
  destruct (backfill_wf now db00 Hl) as (db1 & E & W & _).
  assert (db1 = db01) as -> by congruence. apply finalize_historical_wf in W.
  clear - W Hs. induction Hs; eauto using step_wf.
Qed.

Lemma empty_initial : initial empty_db.
Proof. by exists 0, empty_db, empty_db. Qed.

(** ** How a transaction moves links and notifications *)

(** Each step is an [evolved] step away from the events it links or unlinks. *)
Definition moves (db db' : DB) : Prop :=
  exists X f, evolved X f db db' /\ forall e, X e -> links db !! e = None \/ links db' !! e = None.

Lemma moves_evolved f db db' : evolved nobody f db db' -> moves db db'.
Proof. intros H. exists nobody, f. split; [done|]. by intros e []. Qed.

Lemma moves_refl db : moves db db.
Proof. eapply moves_evolved. by apply evolved_same. Qed.

Lemma save_moves now ev db db' : wf db -> SaveEvent now ev db = Ok db' -> moves db db'.
Proof.
  intros W. unfold SaveEvent. destruct (events db !! ID ev) eqn:He; [done|]. intros H.
  assert (links db !! ID ev = None) as Hl.
  { apply eq_None_not_Some. intros [a Ha]. destruct (wf_link_event _ _ _ W _ _ Ha) as (? & ? & ?). congruence. }
  destruct (assign_evolved now ev (set_events (<[ID ev := event_row ev]>) db) db') as (f & Hf & _);
    [by apply insert_event_wf|by tables; rewrite lookup_insert_eq|done|done|].
  exists (fun e => e = ID ev), (f ∘ (fun x => x)). split; [|intros e ->; by left].
  eapply evolved_trans, Hf. by apply evolved_same.
Qed.

Lemma update_end_moves now e t db db' : wf db -> UpdateEventEndTime now e t db = Ok db' -> moves db db'.
Proof.
  intros W. unfold UpdateEventEndTime. cbv zeta. tables. set (db1 := set_events _ db).
  assert (evolved nobody (fun x => x) db db1) as H1 by (by apply evolved_same).
  pose proof (alter_event_wf nobody nobody db e (set_end_time t) (fun r => conj eq_refl eq_refl) W) as W1.
  destruct (links db !! e) as [id|] eqn:Hl; simpl; [|intros [= <-]; by eapply moves_evolved].
  case_bool_decide; [intros [= <-]; by eapply moves_evolved|]. intros H2.
  apply (reconcile_reopen_evolved nobody) in H2 as (f & _ & Hf);
    [|by eapply wf_links_live|by eapply (wf_link_activity _ _ _ W1)].
  eapply moves_evolved, evolved_trans; done.
Qed.

Lemma delete_moves now e db db' : wf db -> DeleteEvent now e db = Ok db' -> moves db db'.
Proof.
  intros W. unfold DeleteEvent. cbv zeta.
  assert (evolved (fun x => x = e) (fun x => x) db (delete_event e db)) as H1.
  { apply evolved_same; [|done]. intros x Hx. tables. by rewrite lookup_delete_ne. }
  assert (links (delete_event e db) !! e = None) as H2 by apply lookup_delete_eq.
  case_bool_decide; [intros [= <-]; exists (fun x => x = e); eexists; split; [done|]; intros ? ->; by right|].
  set (id := default _ _) in *.
  destruct (reconcileActivityTx now id (delete_event e db)) as [[db2 id2]|] eqn:E; simpl; [|done].
  intros [= <-]. destruct (reconcile_wf_folded _ _ _ _ _ _ _ (delete_event_wf nobody nobody db e W) E) as [f Hf].
  exists (fun x => x = e), (f ∘ (fun x => x)).
  split; [eapply evolved_trans; [done|by apply folded_evolved]|].
  intros ? ->. right. by rewrite (folded_links _ _ _ Hf), H2.
Qed.

Lemma batch_moves now cutoff n k db db' :
  wf db -> deleteEventBatch now cutoff n db = Ok (k, db') -> moves db db'.
Proof.
  intros W H. destruct (deleteEventBatch_spec now cutoff n db W) as (db1 & f & E & _ & Hf & Hn & _).
  assert (db1 = db') as -> by congruence. exists (fun e => e ∈ expiredEventIDs cutoff n db), f.
  split; [done|]. intros e He. right. by apply Hn.
Qed.

(** Both corrections touch the links of one event, then reconcile. *)
Lemma correction_moves now e id db db1 db' id' :
  wf_upto (fun x => x = id) (fun x => x = id) db1 ->
  evolved (fun x => x = e) (fun x => x) db db1 ->
  links db !! e = None \/ links db1 !! e = None ->
  reconcileActivityTx now id db1 = Ok (db', id') -> moves db db'.
Proof.
  intros W H1 Hn E. destruct (reconcile_wf_folded _ _ _ _ _ _ _ W E) as [f Hf].
  exists (fun x => x = e), (f ∘ (fun x => x)).
  split; [eapply evolved_trans; [done|by apply folded_evolved]|].
  intros ? ->. destruct Hn as [|Hn]; [by left|right]. by rewrite (folded_links _ _ _ Hf), Hn.
Qed.

Lemma finalize_due_moves now limit db : moves db (FinalizeDueActivities now limit db).1.
Proof.
  unfold FinalizeDueActivities. simpl. generalize (due_ids now limit db). intros ids.
  enough (exists f, folded f db (fold_left (fun db id => set_activities (alter (finalize_row now) id) db) ids db))
    as [f Hf] by (by eapply moves_evolved, folded_evolved).
  revert db. induction ids as [|id ids IH]; intros db; simpl; [eexists; apply folded_refl|].
  destruct (IH (set_activities (alter (finalize_row now) id) db)) as [f Hf].
  eexists. eapply folded_trans, Hf. apply update_folded.
  intros a. unfold finalize_row. by destruct (a_state a).
Qed.

Lemma mark_moves id t db : moves db (MarkActivityNotificationQueued id t db).1.
Proof.
  unfold MarkActivityNotificationQueued. destruct (activities db !! id) as [a|] eqn:Ha; [|apply moves_refl].
  case_bool_decide; [|apply moves_refl]. apply (moves_evolved (fun x => x)). split.
  - intros e _. simpl. by destruct (links db !! e).
  - intros e x _ _ (b & Hb & Hq). unfold queued. simpl.
    destruct (decide (id = x)) as [->|]; [rewrite lookup_insert_eq|rewrite lookup_insert_ne by done];
      eexists; (split; [done|]); [by eexists|done].
Qed.

Lemma exclude_moves now id e reason actor db :
  wf db -> moves db (ExcludeActivityEvidence now id e reason actor db).1.
Proof.
  intros W. unfold ExcludeActivityEvidence.
  destruct (activities db !! id) as [a|] eqn:Ha; [|apply moves_refl].
  destruct (existsb _ _); [apply moves_refl|].
  destruct (bool_decide (links db !! e = Some id)) eqn:Hl; [|apply moves_refl]; bool_to_prop. simpl.
  destruct (evidence_count db id <=? 1); [apply moves_refl|].
  destruct (existsb _ _) eqn:Hx; [apply moves_refl|].
  set (db1 := set_links _ _).
  destruct (reconcileActivityTx now id db1) as [[db2 id2]|] eqn:E; [|apply moves_refl].
  case_bool_decide; [apply moves_refl|]. simpl.
  eapply (correction_moves now e id db db1); [|..|right|exact E].
  - by eapply exclude_stage_wf.
  - apply evolved_same; [|done]. intros x Hxe. subst db1. simpl. by rewrite lookup_delete_ne.
  - apply lookup_delete_eq.
Qed.

Lemma restore_moves now id e actor db :
  wf db -> moves db (RestoreActivityEvidence now id e actor db).1.
Proof.
  intros W. unfold RestoreActivityEvidence.
  destruct (activities db !! id) as [a|] eqn:Ha; [|apply moves_refl].
  destruct (filter _ _) as [|c l] eqn:Hf; [apply moves_refl|].
  assert (c ∈ filter (active_correction id e) (corrections db)) as [Hact Hc]%list_elem_of_filter
    by (rewrite Hf; by left).
  cbv zeta. set (who := if bool_decide _ then _ else _).
  destruct (restore_linkable id e who now db a c W Ha Hc Hact) as [W1 Hl].
  assert (links db !! e = None) as Hnone by apply Hl. rewrite Hnone.
  set (db1 := set_corrections _ db) in *.
  destruct (reconcileActivityTx now id _) as [[db2 id2]|] eqn:E; [|apply moves_refl]. simpl.
  eapply (correction_moves now e id db (set_links (<[e := id]>) db1)); [|..|by left|exact E].
  - eapply wf_upto_weaken, link_wf, W1; [by intros x [[]|]|intros ? []|done].
  - apply evolved_same; [|done]. intros x Hxe. simpl. by rewrite lookup_insert_ne.
Qed.

Lemma step_moves db db' : store_step db db' -> wf db -> moves db db'.
Proof.
  intros H W. destruct H; eauto using save_moves, update_end_moves, delete_moves, batch_moves,
    exclude_moves, restore_moves, finalize_due_moves, mark_moves.
  eapply moves_evolved. by apply evolved_same.
Qed.

(** ** Where an event ends up *)

Definition in_activity_of (db : DB) (e id : string) : Prop := links db !! e = Some id.

Lemma reconcile_follows now id db db' id' e :
  links_live db -> in_activity_of db e id -> reconcileActivityTx now id db = Ok (db', id') -> in_activity_of db' e id'.
Proof.
  intros Hlive Hl.
  apply (reconcile_ind (fun id db => links_live db /\ in_activity_of db e id)
    (fun db' id' => in_activity_of db' e id')); unfold in_activity_of in *; [| | | |done].
  - by intros db1 [].
  - intros i db1 [Hlive1 Hl1] _ Hno. destruct (Hlive1 _ _ Hl1) as [r Hr]. destruct (Hno r). by exists e.
  - by intros i db1 s [].
  - intros i db1 s c ms [Hlive1 Hl1] _ _ (Hc & _ & Hx). split.
    + intros x j. rewrite merge_all_events, merge_all_links by done.
      intros (b & Hb & _)%fmap_Some. by eapply Hlive1.
    + rewrite merge_all_links by done. change (links (resummarized now i s db1)) with (links db1).
      rewrite Hl1. simpl. f_equal. specialize (Hx i). case_bool_decide; naive_solver.
Qed.

(** ** The lifecycle queries *)

Lemma pending_ids_spec limit db id :
  id ∈ pending_ids limit db -> exists a, activities db !! id = Some a /\ notification_pending a.
Proof.
  unfold pending_ids. intros Hin. eapply elem_of_sublist in Hin; [|apply sublist_take].
  apply list_elem_of_fmap in Hin as ([t x] & -> & Hin). autorewrite with vedetta in Hin.
  apply list_elem_of_fmap in Hin as ([y a] & [= -> ->] & [Hp Hy%elem_of_map_to_list]%list_elem_of_filter).
  by exists a.
Qed.

Lemma due_ids_spec now limit db :
  let due_rows := filter (fun kv => due now kv.2) (activities db) in
  NoDup (due_ids now limit db) /\
  (forall id, id ∈ due_ids now limit db -> is_Some (due_rows !! id)) /\
  length (due_ids now limit db) = Nat.min (clamp_limit limit) (size due_rows).
Proof.
  cbv zeta. unfold due_ids. set (l := snd <$> merge_sort _ _).
  assert (l ≡ₚ (map_to_list (filter (fun kv => due now kv.2) (activities db))).*1) as Hl.
  { subst l. rewrite merge_sort_Permutation, <- list_fmap_compose.
    rewrite map_filter_alt, map_to_list_to_map; [done|].
    eapply sublist_NoDup; [apply (NoDup_fst_map_to_list (activities db))|].
    apply fmap_sublist, sublist_filter. }
  assert (NoDup l) as Hnd by (rewrite Hl; apply NoDup_fst_map_to_list).
  split_and!.
  - eapply sublist_NoDup; [exact Hnd|apply sublist_take].
  - intros id Hid. apply (elem_of_sublist _ l) in Hid; [|apply sublist_take].
    rewrite Hl, list_elem_of_fmap in Hid. destruct Hid as ([x r] & -> & H%elem_of_map_to_list). by eexists.
  - by rewrite length_take, Hl, length_fmap, length_map_to_list.
Qed.

(** The rows taken end no later than the due rows left. *)
Lemma due_ids_earliest now limit db x y a b :
  x ∈ due_ids now limit db -> y ∉ due_ids now limit db ->
  activities db !! x = Some a -> activities db !! y = Some b -> due now b ->
  a_end_time a <= a_end_time b.
Proof.
  unfold due_ids. set (rows := (fun kv : string * ActivityRow => (a_end_time kv.2, kv.1)) <$> _).
  set (l := merge_sort time_id_le rows). intros Hx Hy Ha Hb Hd.
  assert (Sorted.StronglySorted time_id_le l) as Hs by (apply StronglySorted_merge_sort; apply _).
  assert (forall t z, (t, z) ∈ l -> exists r, activities db !! z = Some r /\ t = a_end_time r) as Hrow.
  { intros t z. subst l rows. autorewrite with vedetta. rewrite list_elem_of_fmap.
    intros ([z' r] & [= -> ->] & [_ Hr%elem_of_map_to_list]%list_elem_of_filter). by exists r. }
  assert ((a_end_time b, y) ∈ l) as Hyl.
  { subst l rows. autorewrite with vedetta. rewrite list_elem_of_fmap. exists (y, b). split; [done|].
    rewrite list_elem_of_filter, elem_of_map_to_list. done. }
  rewrite <- fmap_take in Hx, Hy. apply list_elem_of_fmap in Hx as ([t x'] & -> & Hx). simpl in *.
  rewrite <- (take_drop (clamp_limit limit) l) in Hyl, Hs.
  apply elem_of_app in Hyl as [Hyl|Hyl]; [destruct Hy; apply list_elem_of_fmap; by exists (a_end_time b, y)|].
  destruct (Hrow t x') as (r & Hr & ->); [eapply elem_of_sublist; [exact Hx|apply sublist_take]|].
  assert (r = a) as -> by congruence.
  assert (time_id_le (a_end_time a, x') (a_end_time b, y)) as [Hlt|[Heq _]]; simpl in *; [|lia|lia].
  by eapply StronglySorted_app_1_elem_of.
Qed.

Lemma finalize_fold_lookup now ids db id :
  NoDup ids ->
  activities (fold_left (fun db id => set_activities (alter (finalize_row now) id) db) ids db) !! id =
  (if bool_decide (id ∈ ids) then finalize_row now <$> activities db !! id else activities db !! id).
Proof.
  revert db. induction ids as [|x ids IH]; intros db Hnd; simpl; [done|].
  apply NoDup_cons in Hnd as [Hx Hnd]. rewrite IH by done. simpl.
  destruct (decide (id = x)) as [->|Hne].
  - rewrite (bool_decide_eq_false_2 (x ∈ ids)), (bool_decide_eq_true_2 (x ∈ x :: ids)) by (done || by left).
    by rewrite lookup_alter_eq.
  - rewrite lookup_alter_ne by done. apply (f_equal (fun b : bool => if b then _ else _)).
    apply bool_decide_ext. set_solver.
Qed.

(** ** Saving an event *)

Lemma default_nullString s : default ""%string (nullString s) = s.
Proof. unfold nullString. by case_bool_decide. Qed.

Lemma default_nullTime t : default zero_time (nullTime t) = t.
Proof. unfold nullTime, IsZero. destruct (t =? zero_time) eqn:E; bool_to_prop; done. Qed.

Lemma save_unlinked ev db : wf db -> events db !! ID ev = None -> links db !! ID ev = None.
Proof.
  intros W He. apply eq_None_not_Some. intros [a Ha].
  destruct (wf_link_event _ _ _ W _ _ Ha) as (? & ? & ?). congruence.
Qed.

Lemma save_events now ev db db' :
  wf db -> SaveEvent now ev db = Ok db' -> events db' = <[ID ev := event_row ev]> (events db).
Proof.
  intros W. unfold SaveEvent. destruct (events db !! ID ev) eqn:He; [done|]. intros H.
  destruct (assign_evolved now ev (set_events (<[ID ev := event_row ev]>) db) db') as (f & _ & Hev & _);
    [by apply insert_event_wf|by tables; rewrite lookup_insert_eq|by apply (save_unlinked ev db)|done|done].
Qed.

(** The activity of the saved event is open. *)
Lemma save_open now ev db db' :
  wf db -> Kind ev <> EventKindCry -> SaveEvent now ev db = Ok db' ->
  wf db' /\ events db' !! ID ev = Some (event_row ev) /\
  exists id a, links db' !! ID ev = Some id /\ activities db' !! id = Some a /\
    a_state a = ActivityStateOpen /\ a_finalized_at a = None.
Proof.
  intros W Hk H. pose proof (save_wf now ev db W) as W'. rewrite H in W'.
  pose proof (save_events now ev db db' W H) as He'.
  split; [done|]. split; [by rewrite He', lookup_insert_eq|].
  unfold SaveEvent in H. destruct (events db !! ID ev) eqn:He; [done|].
  rewrite assign_place, bool_decide_eq_false_2 in H by done.
  set (db1 := set_events _ db) in *.
  assert (wf db1) as W1 by (by apply insert_event_wf).
  pose proof (place_wf now ev db1 (event_row ev) W1) as Hp.
  destruct (place_event now ev db1) as [[id db2]|] eqn:E; [|done]. cbn [rbind] in H.
  destruct Hp as [Hid W2]; [apply lookup_insert_eq|done| |by apply (save_unlinked ev db)| |].
  { simpl. by case_bool_decide. }
  { intros c Hin _ Hev. destruct (wf_correction _ _ _ W c Hin) as (? & ? & ? & _). congruence. }
  assert (in_activity_of db2 (ID ev) id) as Hin.
  { clear -E. unfold place_event in E. destruct (eventActivityBounds ev) as [start end_].
    destruct (neighboring _ _ _ _ _) as [|[t c] rest].
    - destruct (activities db1 !! _); [done|]. injection E as <- <-. apply lookup_insert_eq.
    - injection E as <- <-. apply lookup_insert_eq. }
  destruct (reconcileActivityTx now id db2) as [[db3 id3]|] eqn:ER; [|done]. cbn [rbind] in H.
  pose proof (reconcile_follows _ _ _ _ _ _ (wf_links_live _ _ _ W2) Hin ER) as Hl3.
  destruct (reconcileActivityTx_wf nobody now id db2) as (db3' & id3' & ER' & W3 & Hlive); [done| |].
  { eapply wf_upto_weaken, W2; [by right|done]. }
  assert (db3' = db3 /\ id3' = id3) as [-> ->] by (split; congruence).
  destruct (wf_link_activity _ _ _ W3 _ _ Hl3) as [a Ha].
  case_bool_decide as Hne; [subst; by destruct (wf_named _ _ _ W3 a)|].
  injection H as <-. eexists id3, _. split; [exact Hl3|]. unfold reopenActivityTx, set_activities.
  cbn [activities]. rewrite lookup_alter_eq, Ha. done.
Qed.
