(* ===== verification/ActivityGrouping.v ===== *)
(** The grouping contract: while evidence only arrives and grows, an activity is
    exactly a connected component of the events of one camera under "at most the
    quiet period apart", whatever the order in which events were saved and
    however activities were opened, merged and reopened on the way. *)

From S2P Require Import Prelude GoStrings CameraEvent ActivityStore ActivityInvariant.
From S2P Require Import ActivityOperations ActivityFrame ActivityReachability.

(** ** The specification *)

(** Two event rows of one camera whose intervals are at most the quiet period apart. *)
Definition near (r s : EventRow) : Prop :=
  e_camera r = e_camera s /\ e_timestamp r <= e_end s + activityMergeGap /\
  e_timestamp s <= e_end r + activityMergeGap.

Definition close (evs : gmap string EventRow) (e f : string) : Prop :=
  exists r s, evs !! e = Some r /\ evs !! f = Some s /\ near r s.

(** One link of a chain inside the events that satisfy [P]. *)
Definition hop (evs : gmap string EventRow) (P : string -> Prop) (e f : string) : Prop :=
  P e /\ P f /\ close evs e f.

(** An event that takes part in grouping. *)
Definition groupable (evs : gmap string EventRow) (e : string) : Prop :=
  exists r, evs !! e = Some r /\ e_kind r <> EventKindCry.

(** An end time, where there is one, is a real instant no earlier than the start. *)
Definition sane_row (r : EventRow) : Prop :=
  forall t, e_end_time r = Some t -> t <> zero_time /\ e_timestamp r <= t.

Definition sane (evs : gmap string EventRow) : Prop :=
  forall e r, evs !! e = Some r -> sane_row r.

Lemma sane_row_end r : sane_row r -> e_timestamp r <= e_end r.
Proof. unfold sane_row, e_end. destruct (e_end_time r) as [t|]; simpl; [|lia]. intros H. by apply H. Qed.

Lemma near_sym r s : near r s -> near s r.
Proof. intros (? & ? & ?). by split_and!. Qed.

Lemma close_sym evs e f : close evs e f -> close evs f e.
Proof. intros (r & s & ? & ? & ?%near_sym). by exists s, r. Qed.

Lemma hop_sym evs P e f : hop evs P e f -> hop evs P f e.
Proof. intros (? & ? & ?%close_sym). by split_and!. Qed.

Lemma chain_sym evs P e f : rtc (hop evs P) e f -> rtc (hop evs P) f e.
Proof. induction 1 as [|x y z H]; [done|]. eapply rtc_r; [done|]. by apply hop_sym. Qed.

Lemma chain_mono evs (P Q : string -> Prop) e f :
  (forall x, P x -> Q x) -> rtc (hop evs P) e f -> rtc (hop evs Q) e f.
Proof.
  intros HPQ. induction 1 as [|x y z (? & ? & ?)]; [done|]. eapply rtc_l; [|done].
  split_and!; auto.
Qed.

(** ** Connected stores *)

Definition in_activity (db : DB) (id : string) (e : string) : Prop := links db !! e = Some id.

(** Every activity's evidence is one chain. *)
Definition connected (db : DB) : Prop :=
  forall id e f, in_activity db id e -> in_activity db id f ->
    rtc (hop (events db) (in_activity db id)) e f.

(** An interval within the quiet period of a chain's hull is within the quiet
    period of one of its events. *)
Lemma chain_touch evs P lo hi e f r s :
  rtc (hop evs P) e f -> P e -> lo <= hi ->
  evs !! e = Some r -> evs !! f = Some s ->
  e_timestamp r <= hi + activityMergeGap -> lo <= e_end s + activityMergeGap ->
  exists x t, P x /\ evs !! x = Some t /\
    e_timestamp t <= hi + activityMergeGap /\ lo <= e_end t + activityMergeGap.
Proof.
  intros H. revert r. induction H as [x|x y z (Hx & Hy & rx & ry & Hrx & Hry & Hn) _ IH];
    intros r HP Hlo Hr Hs Hts Hen.
  - assert (r = s) as -> by congruence. exists x, s. by split_and!.
  - assert (rx = r) as -> by congruence.
    destruct (decide (lo <= e_end r + activityMergeGap)) as [|Hno]; [by exists x, r|].
    destruct Hn as (_ & _ & Hn). eapply IH; try done. unfold activityMergeGap, Second in *. lia.
Qed.

Lemma hull_order db id a :
  sane (events db) -> summarizes db id a -> a_start_time a <= a_end_time a.
Proof.
  intros Hs [Hle (row & Hm & <-) Hge _ _]. specialize (Hge _ Hm).
  destruct Hm as (e & He & _). apply Hs, sane_row_end in He. lia.
Qed.

Lemma hull_touch db id a lo hi :
  connected db -> summarizes db id a -> lo <= hi ->
  a_start_time a <= hi + activityMergeGap -> lo <= a_end_time a + activityMergeGap ->
  exists e r, in_activity db id e /\ events db !! e = Some r /\
    e_timestamp r <= hi + activityMergeGap /\ lo <= e_end r + activityMergeGap.
Proof.
  intros Hc [_ (r & (e & He & Hle) & Hr) _ (s & (f & Hf & Hlf) & Hs) _] ? ? ?.
  eapply (chain_touch _ _ lo hi e f r s); [by apply Hc|done..|lia|lia].
Qed.

(** Overlapping activities have a close pair of events. *)
Lemma hulls_close db i j a b :
  connected db -> sane (events db) -> summarizes db i a -> summarizes db j b ->
  (forall row, member db i row -> e_camera row = a_camera a) ->
  (forall row, member db j row -> e_camera row = a_camera b) ->
  a_camera a = a_camera b ->
  a_start_time b <= a_end_time a + activityMergeGap -> a_start_time a <= a_end_time b + activityMergeGap ->
  exists e f, in_activity db i e /\ in_activity db j f /\ close (events db) e f.
Proof.
  intros Hc Hsane Ha Hb Hca Hcb Hcam H1 H2.
  destruct (hull_touch db i a (a_start_time b) (a_end_time b)) as (e & r & He & Hr & ? & ?);
    try done; [by eapply hull_order|].
  destruct (hull_touch db j b (e_timestamp r) (e_end r)) as (f & s & Hf & Hs & ? & ?);
    try done; [by eapply sane_row_end, Hsane|].
  exists e, f. split_and!; [done..|]. exists r, s. split_and!; [done..|]. split_and!; [|done..].
  rewrite (Hca r), (Hcb s); [done|by exists f|by exists e].
Qed.

(** ** The transactions keep activities connected *)

(** All links of the merged activity chain to one hub. *)
Lemma connected_via db (h : string) (l' : gmap string string) c :
  (forall x e f, x <> c -> l' !! e = Some x -> l' !! f = Some x ->
     rtc (hop (events db) (fun y => l' !! y = Some x)) e f) ->
  (forall e, l' !! e = Some c -> rtc (hop (events db) (fun y => l' !! y = Some c)) e h) ->
  connected (set_links (fun _ => l') db).
Proof.
  intros Hother Hhub x e f He Hf. unfold in_activity in *. cbn [links events set_links] in *.
  destruct (decide (x = c)) as [->|]; [|by apply Hother].
  etrans; [by apply Hhub|]. by apply chain_sym, Hhub.
Qed.

Lemma continues_connected now S id db s c ms :
  wf_upto (fun x => S x \/ x = id) (fun x => x = id) db -> (forall x, S x -> x = id) ->
  summarize (evidence db id) = Some s -> continues now id s db c ms ->
  sane (events db) -> connected db ->
  connected (merge_all c ms (resummarized now id s db)).
Proof.
  intros W HS Hs Hcont Hsane Hconn. destruct Hcont as (Hc & _ & Hx).
  destruct (resummarized_wf _ _ now id db s W Hs) as [W1 (a & Ha & ->)].
  unfold found_neighbors in Hx. set (db1 := resummarized _ _ _ _) in *.
  assert (wf_upto nobody (fun x => x = id) db1) as W2.
  { destruct (resummarized_wf nobody (fun x => x = id) now id db
      (a_camera a, a_start_time a, a_end_time a, a_category a)) as [W2 _]; [|done|].
    - eapply wf_upto_weaken, W; [|done]. intros x [?|?]; right; auto.
    - eapply wf_upto_weaken, W2; [done|]. intros x [?|?]; done. }
  assert (connected db1) as Hconn1 by exact Hconn.
  assert (exists h, in_activity db1 id h) as [h Hh].
  { destruct (wf_summary _ _ _ W2 id a Ha (not_nobody _)) as [_ (r & (h & _ & Hh) & _) _ _ _]. by exists h. }
  assert (forall e, links (merge_all c ms db1) !! e =
    (fun a => if bool_decide (a ∈ ms) then c else a) <$> links db1 !! e) as Hlinks
    by (intros; by apply merge_all_links).
  assert (forall x y, x = c \/ x ∈ ms -> links db1 !! y = Some x -> links (merge_all c ms db1) !! y = Some c) as Hmove.
  { intros x y Hxc Hy. rewrite Hlinks, Hy. simpl. f_equal. case_bool_decide; naive_solver. }
  replace (merge_all c ms db1) with
    (set_links (fun _ => links (merge_all c ms db1)) (merge_all c ms db1)) by (by destruct (merge_all c ms db1)).
  apply (connected_via _ h _ c); rewrite merge_all_events.
  - intros x e f Hxc He Hf.
    assert (forall y, links (merge_all c ms db1) !! y = Some x <-> links db1 !! y = Some x /\ x ∉ ms) as Hiff.
    { intros y. rewrite Hlinks. destruct (links db1 !! y) as [b|]; simpl; [|naive_solver].
      case_bool_decide; naive_solver. }
    apply Hiff in He as [He Hnm], Hf as [Hf _].
    eapply chain_mono, (Hconn1 x e f He Hf). intros y Hy. by apply Hiff.
  - intros e He.
    assert (exists x, (x = c \/ x ∈ ms) /\ links db1 !! e = Some x) as (x & Hxc & Hex).
    { rewrite Hlinks in He. destruct (links db1 !! e) as [b|]; simplify_eq/=.
      case_bool_decide; eexists; (split; [|done]); auto. }
    destruct (proj1 (Hx x) Hxc) as [->|Hin].
    { eapply chain_mono, (Hconn1 id e h Hex Hh). intros y Hy. by eapply Hmove. }
    apply elem_of_neighboring_snd in Hin as (b & Hb & _ & (Hcam & Hlo & Hhi)). unfold Add in *.
    destruct (hulls_close db1 id x a b) as (g & f & Hg & Hf & Hgf); try done.
    { by apply (wf_summary _ _ _ W2). }
    { by apply (wf_summary _ _ _ W2). }
    { intros row. by apply (wf_camera _ _ _ W2). }
    { intros row. by apply (wf_camera _ _ _ W2). }
    { lia. }
    etrans; [eapply chain_mono, (Hconn1 x e f Hex Hf); intros y Hy; by eapply Hmove|].
    eapply rtc_l.
    { split_and!; [by eapply Hmove|eapply Hmove, Hg; apply Hx; by left|by apply close_sym]. }
    eapply chain_mono, (Hconn1 id g h Hg Hh). intros y Hy. eapply Hmove, Hy. apply Hx. by left.
Qed.

(** The event is close to the activity it is filed under, so the result is connected. *)
Lemma place_connected now ev db row id db1 :
  wf db -> sane (events db) -> connected db ->
  events db !! ID ev = Some row -> e_camera row = CameraName ev ->
  eventActivityBounds ev = (e_timestamp row, e_end row) -> links db !! ID ev = None ->
  place_event now ev db = Ok (id, db1) ->
  connected db1 /\ events db1 = events db /\ links db1 !! ID ev = Some id.
Proof.
  intros W Hsane Hconn Hrow Hcam Hb Hl. unfold place_event. rewrite Hb.
  set (lo := Add (e_timestamp row) _). set (hi := Add (e_end row) _).
  pose proof (neighboring_NoDup None (CameraName ev) lo hi db) as Hnd.
  pose proof (elem_of_neighboring_snd None (CameraName ev) lo hi db) as Hel.
  destruct (neighboring None (CameraName ev) lo hi db) as [|[t c] rest].
  - destruct (activities db !! _) eqn:Ha; [done|].
    set (act := ("act_" +:+ ID ev)%string) in *. intros [= <- <-].
    split_and!; [|done|by apply lookup_insert_eq].
    assert (forall e, links db !! e <> Some act) as Hno.
    { intros e He. destruct (wf_link_activity _ _ _ W _ _ He). congruence. }
    set (dba := set_activities _ db).
    change (connected (set_links (fun _ => <[ID ev := act]> (links db)) dba)).
    apply (connected_via dba (ID ev) _ act).
    + intros x e f Hx He Hf. apply lookup_insert_Some in He as [[? ?]|[? He]], Hf as [[? ?]|[? Hf]]; try done.
      eapply chain_mono, (Hconn x e f He Hf). intros y Hy. unfold in_activity in Hy.
      rewrite lookup_insert_ne; [done|]. intros <-. congruence.
    + intros e [[-> _]|[_ He]]%lookup_insert_Some; [done|]. by destruct (Hno e).
  - apply NoDup_cons in Hnd as [Hc _]. intros [= <- <-].
    split_and!; [|apply merge_all_events|by apply lookup_insert_eq].
    set (l' := <[ID ev := c]> (links (merge_all c rest.*2 db))).
    assert (forall x y, x = c \/ x ∈ rest.*2 -> links db !! y = Some x -> l' !! y = Some c) as Hmove.
    { intros x y Hxc Hy. subst l'. destruct (decide (y = ID ev)) as [->|]; [by rewrite lookup_insert_eq|].
      rewrite lookup_insert_ne, merge_all_links, Hy by done. simpl. f_equal. case_bool_decide; naive_solver. }
    change (connected (set_links (fun _ => l') (merge_all c rest.*2 db))).
    apply (connected_via _ (ID ev) _ c); rewrite merge_all_events.
    + intros x e f Hxc He Hf.
      assert (forall y, l' !! y = Some x <-> links db !! y = Some x /\ x ∉ rest.*2) as Hiff.
      { intros y. subst l'. rewrite lookup_insert_Some, merge_all_links by done.
        destruct (decide (y = ID ev)) as [->|].
        - rewrite Hl. simpl. naive_solver.
        - destruct (links db !! y) as [b|]; simpl; [|naive_solver].
          case_bool_decide; naive_solver. }
      apply Hiff in He as [He Hnm], Hf as [Hf _].
      eapply chain_mono, (Hconn x e f He Hf). intros y Hy. by apply Hiff.
    + intros e He. destruct (decide (e = ID ev)) as [->|Hne]; [done|].
      assert (exists x, (x = c \/ x ∈ rest.*2) /\ links db !! e = Some x) as (x & Hxc & Hex).
      { subst l'. rewrite lookup_insert_ne, merge_all_links in He by done.
        destruct (links db !! e) as [b|]; simplify_eq/=.
        case_bool_decide; eexists; (split; [|done]); auto. }
      destruct (proj1 (Hel x)) as (b & Hxb & _ & (Hcb & Hlo & Hhi)); [by apply elem_of_cons|].
      pose proof (wf_summary _ _ _ W x b Hxb (not_nobody _)) as Hsum. unfold lo, hi, Add in *.
      destruct (hull_touch db x b (e_timestamp row) (e_end row)) as (f & s & Hf & Hs & ? & ?);
        try done; [by eapply sane_row_end, Hsane|lia|].
      etrans; [eapply chain_mono, (Hconn x e f Hex Hf); intros y Hy; by eapply Hmove|].
      apply rtc_once. split_and!; [by eapply Hmove|by apply lookup_insert_eq|].
      exists s, row. split_and!; [done..|]. split_and!; [|done..].
      rewrite (wf_camera _ _ _ W x b s Hxb); [congruence|by exists f].
Qed.

Lemma connected_same db db' :
  events db' = events db -> (forall e, links db' !! e = links db !! e) -> connected db -> connected db'.
Proof.
  intros He Hl Hc id e f. unfold in_activity. rewrite !Hl, He. intros H1 H2.
  eapply chain_mono, (Hc id e f H1 H2). intros y. unfold in_activity. by rewrite Hl.
Qed.

Lemma reconcile_connected now id db db' id' :
  wf_upto (fun x => x = id) (fun x => x = id) db -> sane (events db) -> connected db ->
  reconcileActivityTx now id db = Ok (db', id') -> connected db' /\ events db' = events db.
Proof.
  intros W Hsane Hconn.
  apply (reconcile_ind
    (fun id db1 => wf_upto (fun x => nobody x \/ x = id) (fun x => x = id) db1 /\ connected db1 /\
       events db1 = events db)
    (fun db' _ => connected db' /\ events db' = events db)).
  - by intros db1 (_ & ? & ?).
  - intros i db1 (W1 & Hc & He) _ Hno. split; [|done].
    apply (connected_same db1); [done| |done]. intros e.
    rewrite (folded_links (fun x => x) db1); [by destruct (links db1 !! e)|].
    apply delete_activity_folded; [by eapply wf_links_live|done].
  - intros i db1 s (W1 & Hc & He) _ _ _. done.
  - intros i db1 s c ms (W1 & Hc & He) _ Hs Hcont. split_and!.
    + by eapply continues_wf.
    + eapply continues_connected; [exact W1|by intros x []|done|done|by rewrite He|done].
    + by rewrite merge_all_events.
  - split_and!; [|done..]. eapply wf_upto_weaken, W; [by right|done].
Qed.

(** An event whose bounds are its row's. *)
Lemma bounds_of_row ev row :
  Timestamp ev = e_timestamp row -> e_end_time row = nullTime (EndTime ev) ->
  (IsZero (EndTime ev) = true \/ Timestamp ev <= EndTime ev) ->
  eventActivityBounds ev = (e_timestamp row, e_end row).
Proof.
  unfold eventActivityBounds, e_end, nullTime, After, IsZero. intros <- -> Hs. f_equal.
  destruct (EndTime ev =? zero_time) eqn:E; simpl; [done|].
  destruct (_ <? _) eqn:F; [done|]. bool_to_prop. destruct Hs; [done|lia].
Qed.

Lemma reconcile_reopen_connected now id db db' :
  wf_upto (fun x => x = id) (fun x => x = id) db -> sane (events db) -> connected db ->
  (let? (db, survivingID) := reconcileActivityTx now id db in
   if bool_decide (survivingID = ""%string) then Ok db
   else Ok (reopenActivityTx now survivingID db)) = Ok db' -> connected db' /\ events db' = events db.
Proof.
  intros W Hsane Hc. destruct (reconcileActivityTx now id db) as [[db2 id2]|] eqn:E; [|done]. simpl.
  destruct (reconcile_connected _ _ _ _ _ W Hsane Hc E). by case_bool_decide; intros [= <-].
Qed.

Lemma assign_connected now ev db row db' :
  wf db -> sane (events db) -> connected db ->
  events db !! ID ev = Some row -> e_camera row = CameraName ev ->
  (Kind ev <> EventKindCry -> e_kind row <> EventKindCry) ->
  eventActivityBounds ev = (e_timestamp row, e_end row) -> links db !! ID ev = None ->
  (forall c, c ∈ corrections db -> active c -> c_event c <> ID ev) ->
  assignEventToActivityTx now ev db = Ok db' -> connected db'.
Proof.
  intros W Hsane Hconn Hrow Hcam Hk Hb Hl Hcs. rewrite assign_place.
  case_bool_decide as Hcry; [by intros [= <-]|].
  pose proof (place_wf now ev db row W Hrow Hcam (Hk Hcry) Hl Hcs) as Hp.
  destruct (place_event now ev db) as [[id db1]|] eqn:E; [|done]. destruct Hp as [Hid W1]. cbn [rbind].
  destruct (place_connected _ _ _ _ _ _ W Hsane Hconn Hrow Hcam Hb Hl E) as (Hc1 & He1 & _).
  intros H. eapply reconcile_reopen_connected, H; [done|by rewrite He1|done].
Qed.

(** ** Histories in which evidence only arrives and grows *)

Definition sane_event (ev : Event) : Prop :=
  IsZero (EndTime ev) = true \/ Timestamp ev <= EndTime ev.

Inductive capture_step : DB -> DB -> Prop :=
| capture_save now ev db db' :
    sane_event ev -> SaveEvent now ev db = Ok db' -> capture_step db db'
| capture_end_time now e t db db' :
    t <> zero_time -> (forall r, events db !! e = Some r -> e_end r <= t) ->
    UpdateEventEndTime now e t db = Ok db' -> capture_step db db'
| capture_answered e t who db : capture_step db (UpdateEventAnswered e t who db)
| capture_finalize now limit db : capture_step db (FinalizeDueActivities now limit db).1
| capture_mark id t db : capture_step db (MarkActivityNotificationQueued id t db).1.

(** A store that captured its events without deletions or operator corrections. *)
Definition captured (db : DB) : Prop :=
  exists now db0 db1, legacy db0 /\ sane (events db0) /\ backfillActivities now db0 = Ok db1 /\
    rtc capture_step (finalizeHistoricalActivities db1) db.

Record grouped (db : DB) : Prop := {
  grouped_wf : wf db;
  grouped_sane : sane (events db);
  grouped_connected : connected db;
  grouped_linked e : groupable (events db) e -> is_Some (links db !! e)
}.

Lemma same_grouped db db' :
  wf db' -> events db' = events db -> (forall e, links db' !! e = links db !! e) -> grouped db -> grouped db'.
Proof.
  intros W He Hl []. split; [done|by rewrite He|by eapply connected_same|].
  intros e. rewrite He, Hl. auto.
Qed.

Lemma save_grouped now ev db db' :
  sane_event ev -> SaveEvent now ev db = Ok db' -> grouped db -> grouped db'.
Proof.
  intros Hs H [W Hsane Hc Hl]. pose proof (save_wf now ev db W) as W'. rewrite H in W'.
  unfold SaveEvent in H. destruct (events db !! ID ev) eqn:He; [done|].
  assert (links db !! ID ev = None) as Hn.
  { apply eq_None_not_Some. intros [a Ha]. destruct (wf_link_event _ _ _ W _ _ Ha) as (? & ? & ?). congruence. }
  assert (forall c, c ∈ corrections db -> active c -> c_event c <> ID ev) as Hcor.
  { intros c Hin _ Hev. destruct (wf_correction _ _ _ W c Hin) as (? & ? & ? & _). congruence. }
  set (db1 := set_events _ db) in *.
  assert (wf db1) as W1 by (by apply insert_event_wf).
  assert (events db1 !! ID ev = Some (event_row ev)) as Hrow by apply lookup_insert_eq.
  assert (sane (events db1)) as Hsane1.
  { intros e r Hr. subst db1. tables. apply lookup_insert_Some in Hr as [[<- <-]|[_ Hr]]; [|by eapply Hsane].
    intros t. cbn [event_row e_end_time]. unfold nullTime. destruct (IsZero (EndTime ev)) eqn:Hz; [done|].
    intros [= <-]. unfold IsZero in Hz. bool_to_prop. split; [done|]. destruct Hs as [Hs|]; [|done].
    unfold IsZero in Hs. bool_to_prop. done. }
  assert (connected db1) as Hc1.
  { intros id e f He1 Hf1. unfold in_activity in *. tables.
    enough (forall x y, rtc (hop (events db) (in_activity db id)) x y ->
      rtc (hop (events db1) (in_activity db1 id)) x y) as Hm by (by apply Hm, Hc).
    clear e f He1 Hf1.
    intros x y. induction 1 as [|x y z (Hx & Hy & r & s & Hr & Hs' & Hn') _ IH]; [done|].
    eapply rtc_l; [|done]. split_and!; [done..|]. exists r, s. subst db1. tables.
    rewrite !lookup_insert_ne by congruence. done. }
  assert (Kind ev <> EventKindCry -> e_kind (event_row ev) <> EventKindCry) as Hk
    by (simpl; case_bool_decide; done).
  destruct (assign_evolved now ev db1 db' W1) as (f & Hf & Hevs & Hlinked & _); [by eexists|done..|].
  split; [done|by rewrite Hevs| |].
  - eapply assign_connected; try done. apply bounds_of_row; done.
  - intros e (r & Hr & Hkr). rewrite Hevs in Hr. subst db1. tables.
    apply lookup_insert_Some in Hr as [[<- <-]|[Hne Hr]].
    + apply Hlinked. intros E. apply Hkr. simpl. rewrite E. done.
    + rewrite (evolved_links _ _ _ _ Hf) by done. apply fmap_is_Some, Hl. by exists r.
Qed.

(** Growing an event brings it closer to others, never away. *)
Lemma grow_connected e t db :
  (forall r, events db !! e = Some r -> e_end r <= t) -> connected db ->
  connected (set_events (alter (set_end_time t) e) db).
Proof.
  intros Ht Hc id x y Hx Hy.
  enough (forall x y, rtc (hop (events db) (in_activity db id)) x y ->
    rtc (hop (events (set_events (alter (set_end_time t) e) db)) (in_activity db id)) x y) as Hm by (by apply Hm, Hc).
  clear x y Hx Hy. intros x y. induction 1 as [|x y z (Hx & Hy & r & s & Hr & Hs & Hn) _ IH]; [done|].
  eapply rtc_l; [|done]. split_and!; [done..|].
  assert (forall x r, events db !! x = Some r -> exists r',
    events (set_events (alter (set_end_time t) e) db) !! x = Some r' /\ e_camera r' = e_camera r /\
    e_timestamp r' = e_timestamp r /\ e_end r <= e_end r') as Hg.
  { intros x' r' Hr'. tables. destruct (decide (e = x')) as [->|].
    - exists (set_end_time t r'). rewrite lookup_alter_eq, Hr'. split_and!; [done..|]. by apply Ht.
    - exists r'. by rewrite lookup_alter_ne. }
  destruct (Hg _ _ Hr) as (r' & Hr' & Hcr & Htr & Her), (Hg _ _ Hs) as (s' & Hs' & Hcs & Hts & Hes).
  exists r', s'. split_and!; [done..|]. destruct Hn as (? & ? & ?). split_and!; [congruence|lia|lia].
Qed.

Lemma update_end_grouped now e t db db' :
  t <> zero_time -> (forall r, events db !! e = Some r -> e_end r <= t) ->
  UpdateEventEndTime now e t db = Ok db' -> grouped db -> grouped db'.
Proof.
  intros Ht0 Ht H [W Hsane Hc Hl]. destruct (update_end_wf now e t db W) as (? & E & W').
  assert (x = db') as -> by congruence. clear E.
  unfold UpdateEventEndTime in H. cbv zeta in H. set (db1 := set_events _ db) in *.
  assert (sane (events db1)) as Hsane1.
  { intros x r Hr. subst db1. tables. apply lookup_alter_Some in Hr as [(-> & r0 & Hr0 & ->)|[_ Hr]];
      [|by eapply Hsane].
    intros t' [= <-]. split; [done|]. specialize (Ht _ Hr0). apply Hsane, sane_row_end in Hr0. simpl. lia. }
  pose proof (grow_connected e t db Ht Hc : connected db1) as Hc1.
  assert (forall x, groupable (events db1) x -> is_Some (links db !! x)) as Hl1.
  { intros x (r & Hr & Hk). subst db1. tables.
    apply lookup_alter_Some in Hr as [(-> & r0 & Hr0 & ->)|[_ Hr]]; apply Hl; eexists; eauto. }
  pose proof (alter_event_wf nobody nobody db e (set_end_time t) (fun r => conj eq_refl eq_refl) W) as W1.
  change (links db1) with (links db) in H.
  destruct (links db !! e) as [id|] eqn:Hle; cbn [default] in H; simpl in H.
  - case_bool_decide; [simplify_eq; by split|].
    assert (wf_upto (fun x => x = id) (fun x => x = id) db1) as W2
      by (eapply wf_upto_weaken, W1; [intros x [[]|?]; congruence|intros x []]).
    destruct (reconcile_reopen_connected _ _ _ _ W2 Hsane1 Hc1 H) as [Hc' He'].
    apply (reconcile_reopen_evolved nobody) in H as (f & Hf & _);
      [|by eapply wf_links_live|by eapply (wf_link_activity _ _ _ W2)].
    split; [done|by rewrite He'|done|]. intros x. rewrite He', (folded_links _ _ _ Hf), fmap_is_Some. apply Hl1.
  - simplify_eq. by split.
Qed.

Lemma answered_connected e t who db : connected db -> connected (UpdateEventAnswered e t who db).
Proof.
  intros Hc id x y Hx Hy. unfold UpdateEventAnswered in *. tables.
  enough (forall x y, rtc (hop (events db) (in_activity db id)) x y ->
    rtc (hop (events (UpdateEventAnswered e t who db)) (in_activity db id)) x y) as Hm by (by apply Hm, Hc).
  clear x y Hx Hy. intros x y. induction 1 as [|x y z (Hx & Hy & r & s & Hr & Hs & Hn) _ IH]; [done|].
  eapply rtc_l; [|done]. split_and!; [done..|]. unfold UpdateEventAnswered. tables.
  set (g := fun r => match e_answered_at r with Some _ => r | None => set_answered t who r end).
  assert (forall x r, events db !! x = Some r -> exists r', alter g e (events db) !! x = Some r' /\
    e_camera r' = e_camera r /\ e_timestamp r' = e_timestamp r /\ e_end r' = e_end r) as Hg.
  { intros x' r' Hr'. destruct (decide (e = x')) as [->|].
    - exists (g r'). rewrite lookup_alter_eq, Hr'. subst g. simpl. by destruct (e_answered_at r').
    - exists r'. by rewrite lookup_alter_ne. }
  destruct (Hg _ _ Hr) as (r' & Hr' & Hcr & Htr & Her), (Hg _ _ Hs) as (s' & Hs' & Hcs & Hts & Hes).
  exists r', s'. split_and!; [done..|]. destruct Hn as (? & ? & ?). split_and!; [congruence|lia|lia].
Qed.

Lemma answered_grouped e t who db : grouped db -> grouped (UpdateEventAnswered e t who db).
Proof.
  intros [W Hsane Hc Hl]. split; [by apply answered_wf| |by apply answered_connected|].
  - intros x r Hr. unfold UpdateEventAnswered in Hr. tables.
    apply lookup_alter_Some in Hr as [(-> & r0 & Hr0 & ->)|[_ Hr]]; [|by eapply Hsane].
    specialize (Hsane _ _ Hr0). by destruct (e_answered_at r0).
  - intros x (r & Hr & Hk). unfold UpdateEventAnswered in *. tables.
    apply lookup_alter_Some in Hr as [(-> & r0 & Hr0 & ->)|[_ Hr]]; apply Hl; [exists r0|by exists r].
    split; [done|]. by destruct (e_answered_at r0).
Qed.

Lemma finalize_due_tables now limit db :
  events (FinalizeDueActivities now limit db).1 = events db /\
  links (FinalizeDueActivities now limit db).1 = links db.
Proof.
  unfold FinalizeDueActivities. simpl. generalize (due_ids now limit db). intros ids. revert db.
  induction ids as [|id ids IH]; intros db; [done|]. simpl. by destruct (IH (set_activities (alter (finalize_row now) id) db)) as [-> ->].
Qed.

Lemma mark_tables id t db :
  events (MarkActivityNotificationQueued id t db).1 = events db /\
  links (MarkActivityNotificationQueued id t db).1 = links db.
Proof.
  unfold MarkActivityNotificationQueued. destruct (activities db !! id); [|done]. by case_bool_decide.
Qed.

Lemma capture_step_grouped db db' : capture_step db db' -> grouped db -> grouped db'.
Proof.
  intros H G. destruct H as [now ev db db' Hs H|now e t db db' Ht0 Ht H|e t who db|now limit db|id t db].
  - by eapply save_grouped.
  - by eapply update_end_grouped.
  - by apply answered_grouped.
  - destruct (finalize_due_tables now limit db) as [He Hl].
    eapply same_grouped, G; [apply finalize_due_wf, G|done|by rewrite Hl].
  - destruct (mark_tables id t db) as [He Hl].
    eapply same_grouped, G; [apply mark_wf, G|done|by rewrite Hl].
Qed.

(** The backfill groups a legacy store's events. *)
Lemma assign_all_connected now evs db db' :
  wf db -> corrections db = [] -> unassigned evs db -> sane (events db) -> connected db ->
  assign_all now evs db = Ok db' -> connected db'.
Proof.
  revert db. induction evs as [|ev evs IH]; intros db W Hc [Hnd Hun] Hsane Hconn; simpl; [by intros [= <-]|].
  pose proof Hnd as [Hev Hnd']%NoDup_cons.
  destruct (Hun ev) as (Hl & Ha & row & Hrow & Hscan); [by left|].
  assert (forall c, c ∈ corrections db -> active c -> c_event c <> ID ev) as Hcor
    by (rewrite Hc; by intros ? ?%not_elem_of_nil).
  pose proof (assign_wf now ev db row W Hrow) as Hw.
  destruct (assignEventToActivityTx now ev db) as [db1|err] eqn:E; simpl; [|done].
  destruct (assign_evolved now ev db db1 W) as (f & Hf & Hevs & _ & Hdom); [by eexists|done..|].
  intros H. eapply (IH db1); [apply Hw; [by rewrite Hscan..|done|done]|
    by eapply assign_no_corrections| |by rewrite Hevs| |done].
  - split; [done|]. intros ev' Hin. destruct (Hun ev') as (Hl' & Ha' & row' & Hrow' & Hscan'); [by right|].
    assert (ID ev' <> ID ev) as Hne by (intros Eq; apply Hev; rewrite <- Eq; by apply list_elem_of_fmap_2).
    split_and!.
    + by rewrite (evolved_links _ _ _ _ Hf), Hl'.
    + apply eq_None_not_Some. intros [[? ?]|?%act_id_inj]%Hdom; congruence.
    + exists row'. by rewrite Hevs.
  - eapply (assign_connected now ev db row); try done; [by rewrite Hscan..|].
    specialize (Hsane _ _ Hrow). unfold sane_row in Hsane.
    rewrite Hscan. unfold eventActivityBounds, e_end, After, IsZero. cbn [scan_event EndTime Timestamp]. f_equal.
    destruct (e_end_time row) as [t|]; simpl; [|done].
    destruct (Hsane t eq_refl). case_match eqn:Hb; [done|].
    apply andb_false_iff in Hb as [Hb|Hb]; bool_to_prop; [done|lia].
Qed.

Lemma captured_grouped db : captured db -> grouped db.
Proof.
  intros (now & db0 & db1 & Hleg & Hsane & Hb & Hs).
  destruct (backfill_wf now db0 Hleg) as (db1' & E & W & He & Hlinked).
  assert (db1' = db1) as -> by congruence.
  assert (grouped db1) as G.
  { split; [done|by rewrite He| |].
    - eapply (assign_all_connected now _ db0); [by apply legacy_wf|apply Hleg| |done| |exact Hb].
      + split; [rewrite events_in_order_ID; apply NoDup_fst_map_to_list|].
        intros ev (e & row & Hin%elem_of_map_to_list & ->)%elem_of_events_in_order.
        destruct Hleg as (Ha & Hl & _). rewrite Ha, Hl, !lookup_empty. split_and!; [done..|]. by exists row.
      + destruct Hleg as (_ & Hl & _). intros id e f Hin. unfold in_activity in Hin. by rewrite Hl in Hin.
    - intros e (r & Hr & Hk). rewrite He in Hr. by eapply Hlinked. }
  assert (grouped (finalizeHistoricalActivities db1)) as G' by (by eapply same_grouped, G; [apply finalize_historical_wf|..]).
  clear - G' Hs. induction Hs; eauto using capture_step_grouped.
Qed.

(** ** Activities are components *)

Lemma close_same_activity db e f i j :
  wf db -> links db !! e = Some i -> links db !! f = Some j -> close (events db) e f -> i = j.
Proof.
  intros W Hi Hj (r & s & Hr & Hs & Hcam & H1 & H2).
  destruct (decide (i = j)) as [|Hij]; [done|exfalso].
  destruct (wf_link_activity _ _ _ W _ _ Hi) as [a Ha], (wf_link_activity _ _ _ W _ _ Hj) as [b Hb].
  assert (member db i r) as Hr' by (by exists e). assert (member db j s) as Hs' by (by exists f).
  pose proof (wf_camera _ _ _ W _ _ _ Ha Hr'). pose proof (wf_camera _ _ _ W _ _ _ Hb Hs').
  destruct (wf_summary _ _ _ W i a Ha (not_nobody _)) as [Ha1 _ Ha2 _ _].
  destruct (wf_summary _ _ _ W j b Hb (not_nobody _)) as [Hb1 _ Hb2 _ _].
  specialize (Ha1 _ Hr'). specialize (Ha2 _ Hr'). specialize (Hb1 _ Hs'). specialize (Hb2 _ Hs').
  destruct (wf_apart _ _ _ W i j a b Hij Ha Hb (not_nobody _) (not_nobody _)); [congruence|lia|lia].
Qed.

Lemma grouped_components db e f :
  grouped db -> groupable (events db) e -> groupable (events db) f ->
  links db !! e = links db !! f <-> rtc (hop (events db) (groupable (events db))) e f.
Proof.
  intros [W Hsane Hc Hl] He Hf. split.
  - intros E. destruct (Hl _ He) as [i Hi]. eapply chain_mono, (Hc i); [|done|by unfold in_activity; congruence].
    intros x Hx. destruct (wf_link_event _ _ _ W _ _ Hx) as (r & ? & ?). by exists r.
  - intros H. clear Hf. induction H as [|x y z (Hx & Hy & Hxy) _ IH]; [done|].
    rewrite <- IH by done. destruct (Hl _ Hx) as [i Hi], (Hl _ Hy) as [j Hj].
    rewrite Hi, Hj. f_equal. by eapply close_same_activity.
Qed.

(** Stores with one partition of one set of events have the same activity rows. *)
Lemma same_partition_summary db db' e :
  grouped db -> grouped db' -> events db = events db' -> groupable (events db) e ->
  (forall x y, groupable (events db) x -> groupable (events db) y ->
     links db !! x = links db !! y <-> links db' !! x = links db' !! y) ->
  exists i j a b, links db !! e = Some i /\ links db' !! e = Some j /\
    activities db !! i = Some a /\ activities db' !! j = Some b /\ same_summary a b.
Proof.
  intros [W _ _ Hl] [W' _ _ Hl'] E He Hpart.
  destruct (Hl e He) as [i Hi]. destruct (Hl' e) as [j Hj]; [by rewrite <- E|].
  destruct (wf_link_activity _ _ _ W _ _ Hi) as [a Ha], (wf_link_activity _ _ _ W' _ _ Hj) as [b Hb].
  exists i, j, a, b. split_and!; [done..|].
  assert (forall x k, links db !! x = Some k -> groupable (events db) x) as Hg.
  { intros x k Hx. destruct (wf_link_event _ _ _ W _ _ Hx) as (r & ? & ?). by exists r. }
  assert (forall x k, links db' !! x = Some k -> groupable (events db) x) as Hg'.
  { intros x k Hx. destruct (wf_link_event _ _ _ W' _ _ Hx) as (r & ? & ?). exists r. by rewrite E. }
  assert (forall row, member db' j row <-> member db i row) as Hm.
  { intros row. split; intros (x & Hx & Hxl); exists x.
    - split; [by rewrite E|]. rewrite <- Hi. apply Hpart; [by eapply Hg'|done|congruence].
    - split; [by rewrite <- E|]. rewrite <- Hj. apply Hpart; [by eapply Hg|done|congruence]. }
  pose proof (wf_summary _ _ _ W _ _ Ha (not_nobody _)) as Hs.
  pose proof (wf_summary _ _ _ W' _ _ Hb (not_nobody _)) as Hs'.
  destruct (summary_unique _ _ _ _ _ _ Hm Hs Hs') as (? & ? & ?).
  destruct He as (r & Hr & _). split_and!; [|done..].
  rewrite <- (wf_camera _ _ _ W i a r Ha), <- (wf_camera _ _ _ W' j b r Hb); [done|..].
  - exists e. by rewrite <- E.
  - by exists e.
Qed.
