(* ===== verification/ActivityTheorems.v ===== *)
(** Operator corrections: excluding an event's evidence and restoring it.

    What the activity store guarantees, over every history of its transactions. *)

From S2P Require Import Prelude Float64 GoStrings CameraEvent ActivityStore ActivityInvariant ActivityOperations ActivityFrame ActivityReachability ActivityGrouping.

(** An activity whose new hull lies in an old one, that was apart from all others,
    has no neighbors. *)
Lemma found_neighbors_inside now db id a start end_ category :
  (forall j b, j <> id -> activities db !! j = Some b -> apart a b) ->
  a_start_time a <= start -> end_ <= a_end_time a ->
  found_neighbors now id (a_camera a, start, end_, category) db = [].
Proof.
  intros Hap Hs He. unfold found_neighbors.
  apply (fmap_nil_inv snd), elem_of_nil_inv. intros x.
  intros (b & Hb & Hne & Hcam & Hlo & Hhi)%elem_of_neighboring_snd.
  assert (x <> id) as Hx by congruence. unfold resummarized in Hb. simpl in Hb.
  rewrite lookup_alter_ne in Hb by done. unfold Add in *.
  destruct (Hap x b Hx Hb); [congruence|lia|lia].
Qed.

(** Reconciling an activity without neighbors only refreshes its summary. *)
Lemma reconcile_alone now id db s :
  id <> ""%string -> summarize (evidence db id) = Some s -> found_neighbors now id s db = [] ->
  reconcileActivityTx now id db = Ok (resummarized now id s db, id).
Proof.
  intros Hid Hs Hn. unfold reconcileActivityTx.
  apply (reconcile_cases (fun r => r = Ok (resummarized now id s db, id))); try done.
  - intros _ Hno. destruct (evidence db id) as [|[e r] l] eqn:E; [done|].
    destruct (Hno r). apply member_evidence. rewrite E. by left.
  - congruence.
  - intros s' c ms _ Hs' (Hc & [m Hm] & Hx). assert (s' = s) as -> by congruence. rewrite Hn in Hx.
    assert (c = id) as -> by (destruct (proj1 (Hx c)) as [|[]%not_elem_of_nil]; auto).
    destruct (proj1 (Hx m)) as [->|[]%not_elem_of_nil]; [by right|done].
Qed.

(** Reconciling without evidence drops the activity. *)
Lemma reconcile_no_evidence now id db :
  summarize (evidence db id) = None -> exists db', reconcileActivityTx now id db = Ok (db', ""%string).
Proof.
  intros Hs. unfold reconcileActivityTx. cbn [reconcile_fuel].
  case_bool_decide; [by eexists|]. rewrite Hs. by eexists.
Qed.

(** The summary an exclusion computes lies inside the old one. *)
Lemma excluded_summary now id e why who db a s :
  wf db -> activities db !! id = Some a -> links db !! e = Some id ->
  existsb (fun c => bool_decide (c_event c = e /\ c_restored_at c = None)) (corrections db) = false ->
  let dbx := set_links (delete e) (record_exclusion now id e why who db) in
  summarize (evidence dbx id) = Some s ->
  exists start end_ category, s = (a_camera a, start, end_, category) /\
    a_start_time a <= start /\ end_ <= a_end_time a.
Proof.
  intros W Ha Hl Hx dbx Hs.
  pose proof (exclude_stage_wf now id e why who db a W Ha Hl Hx) as W1. fold dbx in W1.
  destruct (resummarized_wf nobody (fun x => x = id) now id dbx s) as [W2 (a1 & Ha1 & ->)];
    [eapply wf_upto_weaken, W1; [by right|done]|done|].
  exists (a_start_time a1), (a_end_time a1), (a_category a1).
  assert (forall row, member (resummarized now id (a_camera a1, a_start_time a1, a_end_time a1, a_category a1) dbx)
    id row -> member db id row) as Hm.
  { intros row (x & Hx1 & Hx2). exists x. split; [done|]. simpl in Hx2.
    by apply lookup_delete_Some in Hx2 as [_ ?]. }
  destruct (wf_summary _ _ _ W2 id a1 Ha1 (not_nobody _)) as [_ (r & Hr & Er) _ (t & Ht & Et) _].
  destruct (wf_summary _ _ _ W id a Ha (not_nobody _)) as [H1 _ H2 _ _].
  specialize (H1 r (Hm r Hr)). specialize (H2 t (Hm t Ht)).
  split_and!; [|lia|lia]. do 3 f_equal.
  rewrite <- (wf_camera _ _ _ W2 id a1 r Ha1 Hr). by apply (wf_camera _ _ _ W id a r Ha), Hm.
Qed.

(** A first exclusion that succeeds refreshes the activity and nothing else. *)
Lemma exclude_result now id e reason actor db db1 act :
  wf db -> links db !! e = Some id ->
  ExcludeActivityEvidence now id e reason actor db = (db1, Ok act) ->
  exists a s why who,
    activities db !! id = Some a /\ id <> ""%string /\
    existsb (fun c => bool_decide (c_event c = e /\ c_restored_at c = None)) (corrections db) = false /\
    db1 = resummarized now id s (set_links (delete e) (record_exclusion now id e why who db)).
Proof.
  intros W Hlink. unfold ExcludeActivityEvidence. destruct (activities db !! id) as [a|] eqn:Ha; [|done].
  destruct (existsb (fun c => bool_decide (active_correction id e c)) (corrections db)) eqn:Hx1.
  { apply existsb_exists in Hx1 as (c & Hc%list_elem_of_In & Hact). bool_to_prop.
    destruct Hact as (_ & Hce & Hact). pose proof (wf_excluded _ _ _ W c Hc Hact). congruence. }
  rewrite (bool_decide_eq_true_2 (links db !! e = Some id)) by done. simpl.
  destruct (evidence_count db id <=? 1); [done|].
  destruct (existsb (fun c => bool_decide (c_event c = e /\ _)) (corrections db)) eqn:Hx; [done|].
  set (why := if bool_decide (TrimSpace reason = ""%string) then _ else _).
  set (who := if bool_decide (TrimSpace actor = ""%string) then _ else _).
  set (dbx := set_links _ _).
  assert (id <> ""%string) as Hid by (intros ->; by apply (wf_named _ _ _ W a)).
  destruct (summarize (evidence dbx id)) as [s|] eqn:Hs.
  - destruct (excluded_summary now id e why who db a s W Ha Hlink Hx Hs) as (start & end_ & cat & -> & H1 & H2).
    rewrite (reconcile_alone now id dbx (a_camera a, start, end_, cat)); [|done|done|].
    2:{ eapply found_neighbors_inside; [|done|done]. intros j b Hj Hb.
        by apply (wf_apart _ _ _ W id j). }
    case_bool_decide; [done|]. intros [= <- _]. eauto 10.
  - destruct (reconcile_no_evidence now id dbx Hs) as [db2 ->]. by case_bool_decide.
Qed.

(** Restoring it relinks the event and brings the activity's summary back. *)
Lemma restore_result now1 now2 id e actor db a s why who :
  wf db -> links db !! e = Some id -> activities db !! id = Some a -> id <> ""%string ->
  existsb (fun c => bool_decide (c_event c = e /\ c_restored_at c = None)) (corrections db) = false ->
  let db1 := resummarized now1 id s (set_links (delete e) (record_exclusion now1 id e why who db)) in
  exists db2,
    RestoreActivityEvidence now2 id e actor db1 = (db2, GetActivityByID id db2) /\
    events db2 = events db /\ links db2 = links db /\
    (forall j, j <> id -> activities db2 !! j = activities db !! j) /\
    activities db2 !! id = Some (set_summary now2 (a_camera a, a_start_time a, a_end_time a, a_category a) a).
Proof.
  intros W Hlink Ha Hid Hx db1. unfold RestoreActivityEvidence.
  assert (activities db1 !! id = Some (set_summary now1 s a)) as Ha1.
  { unfold db1. simpl. by rewrite lookup_alter_eq, Ha. }
  rewrite Ha1.
  assert (forall c, c ∈ corrections db -> ~ active_correction id e c) as Hno.
  { intros c Hc (_ & Hce & Hact). rewrite <- not_true_iff_false in Hx. apply Hx.
    apply existsb_exists. exists c. split; [by apply list_elem_of_In|by apply bool_decide_eq_true_2]. }
  set (c0 := mkCorrectionRow (next_correction db) id e why who now1 None None).
  assert (filter (active_correction id e) (corrections db1) = [c0]) as Hf.
  { change (corrections db1) with (corrections db ++ [c0]). rewrite filter_app.
    assert (filter (active_correction id e) (corrections db) = []) as ->.
    { apply elem_of_nil_inv. intros c [Hact Hc]%list_elem_of_filter. by apply (Hno c). }
    rewrite filter_cons_True; [done|]. by split_and!. }
  rewrite Hf. cbv zeta. set (who2 := if bool_decide _ then _ else _).
  assert (links db1 !! e = None) as -> by apply lookup_delete_eq.
  set (dbx := set_corrections _ db1).
  assert (links (set_links (<[e:=id]>) dbx) = links db) as Hl.
  { simpl. by apply insert_delete_id. }
  assert (evidence (set_links (<[e:=id]>) dbx) id = evidence db id) as Hev.
  { unfold evidence. rewrite Hl. done. }
  destruct (summarize (evidence db id)) as [s0|] eqn:Hs0.
  2:{ exfalso. destruct (evidence db id) as [|[x r] l] eqn:E; [|done].
      destruct (wf_link_event _ _ _ W _ _ Hlink) as (r & Hr & _).
      assert ((e, r) ∈ evidence db id) as Hin by (by apply elem_of_evidence). rewrite E in Hin.
      by apply not_elem_of_nil in Hin. }
  destruct (resummarized_wf nobody nobody now2 id db s0) as [W2 (a0 & Ha0 & Es0)];
    [by apply wf_weaken|done|].
  assert (s0 = (a_camera a, a_start_time a, a_end_time a, a_category a)) as ->.
  { assert (summarizes db id a0) as Hsum0.
    { apply (summarizes_ext (resummarized now2 id s0 db)); [done|]. by apply (wf_summary _ _ _ W2). }
    pose proof (wf_summary _ _ _ W id a Ha (not_nobody _)) as Hsum.
    destruct (summary_unique _ _ _ _ _ _ (fun _ => iff_refl _) Hsum0 Hsum) as (E1 & E2 & E3).
    rewrite Es0, E1, E2, E3. do 3 f_equal.
    destruct Hsum as [_ (r & (x & Hxr & Hxl) & _) _ _ _].
    rewrite <- (wf_camera _ _ _ W2 id a0 r Ha0), <- (wf_camera _ _ _ W id a r Ha); [done|by exists x..]. }
  erewrite reconcile_alone; [|done|by rewrite Hev|].
  2:{ eapply found_neighbors_inside; [|lia|lia]. intros j b Hj Hb.
      apply (wf_apart _ _ _ W id j); auto. simpl in Hb. by rewrite lookup_alter_ne in Hb. }
  eexists. split; [done|]. split_and!; [done|exact Hl| |].
  - intros j Hj. simpl. by rewrite !lookup_alter_ne.
  - simpl. rewrite !lookup_alter_eq, Ha. simpl. by destruct s as [[[]]].
Qed.

(** * The properties *)

(** ** Example stores *)

(** An object event of camera [camera], at [t] seconds. *)
Definition sample_event (id camera : string) (t : Z) : Event :=
  mkEvent id camera "person" (f64_of_Z 1) 0 (0, 0, 0, 0) (t * Second) 0 ""%string false ""%string
    false ""%string ""%string ""%string EventKindObject 0 ""%string CategoryAlert.

Definition save_all (now : Z) (evs : list Event) (db : DB) : result StoreError DB :=
  fold_left (fun r ev => let? db := r in SaveEvent now ev db) evs (Ok db).

Definition saved (evs : list Event) : DB :=
  match save_all (10000 * Second) evs empty_db with Ok db => db | Err _ => empty_db end.

(** Two events that only a third connects, and one of another camera. *)
Definition sample_db : DB :=
  saved [sample_event "a" "porch" 1000; sample_event "b" "porch" 1160; sample_event "c" "porch" 1080;
         sample_event "d" "yard" 1080].

Lemma empty_captured : captured empty_db.
Proof. exists 0, empty_db, empty_db. by split_and!. Qed.

Lemma saved_captured evs : Forall sane_event evs -> captured (saved evs).
Proof.
  intros Hs. unfold saved. destruct (save_all _ _ _) as [db|err] eqn:E; [|apply empty_captured].
  revert E. unfold save_all. generalize empty_captured. generalize empty_db.
  induction Hs as [|ev evs He _ IH]; intros db0 H0; simpl; [by intros [= <-]|].
  destruct (SaveEvent _ ev db0) as [db1|err] eqn:E1.
  - apply IH. destruct H0 as (now & l & i & ? & ? & ? & ?). exists now, l, i. split_and!; try done.
    eapply rtc_r; [done|]. by eapply capture_save.
  - clear. intros E. exfalso. revert E. induction evs as [|ev' evs IH]; simpl; [done|]. apply IH.
Qed.

Lemma captured_reachable db : captured db -> reachable db.
Proof.
  intros (now & db0 & db1 & Hl & _ & Hb & Hr). exists (finalizeHistoricalActivities db1). split; [by exists now, db0, db1|].
  clear -Hr. induction Hr as [|x y z H _ IH]; [done|]. eapply rtc_l; [|done].
  destruct H; eauto using store_step.
Qed.

Lemma sample_captured : captured sample_db.
Proof. apply saved_captured. repeat constructor. Qed.

(** ** The invariant *)

(** C1: Every store reached from a migrated database (its events backfilled into
    activities, and these closed, as schema versions 7 and 8 do) by committed transactions
    is well formed: activities of one camera are more than the quiet period apart,
    each activity row is the exact summary (start, end, category) of its evidence,
    every link points to a live event and a live activity of the event's camera,
    no event is both linked and excluded, and a row is finalized exactly when it
    has a finalization time. *)
Theorem reachable_wf db : reachable db -> wf db.
Proof. apply reachable_is_wf. Qed.

Lemma reachable_wf_witness : wf sample_db /\ size (activities sample_db) = 2%nat.
Proof. split; [apply reachable_wf, captured_reachable, sample_captured|vm_compute; reflexivity]. Defined.

(** ** Grouping *)

(** C3: While evidence only arrives and grows (events saved in any order, end times
    extended, activities finalized, notified and reopened in between), two events
    are in one activity exactly when a chain of events of the same camera, each at
    most ninety seconds from the next, joins them. *)
Theorem grouping_is_components db e f :
  captured db -> groupable (events db) e -> groupable (events db) f ->
  links db !! e = links db !! f <-> rtc (hop (events db) (groupable (events db))) e f.
Proof. intros ?%captured_grouped. by apply grouped_components. Qed.

Lemma sample_groupable e r :
  events sample_db !! e = Some r -> e_kind r = EventKindObject -> groupable (events sample_db) e.
Proof. intros H Hk. exists r. split; [done|]. by rewrite Hk. Qed.

Lemma grouping_is_components_witness :
  rtc (hop (events sample_db) (groupable (events sample_db))) "a"%string "b"%string.
Proof.
  apply (grouping_is_components sample_db "a" "b" sample_captured);
    [eapply sample_groupable; vm_compute; reflexivity..|vm_compute; reflexivity].
Defined.

(** The grouping of a set of captured events does not depend on the history
    that captured it: two stores with the same event rows put the same events
    together, and in activities with the same camera, start, end and category. *)
Theorem grouping_order_independent db db' e f :
  captured db -> captured db' -> events db = events db' ->
  groupable (events db) e -> groupable (events db) f ->
  (links db !! e = links db !! f <-> links db' !! e = links db' !! f) /\
  exists i j a b, links db !! e = Some i /\ links db' !! e = Some j /\
    activities db !! i = Some a /\ activities db' !! j = Some b /\ same_summary a b.
Proof.
  intros G%captured_grouped G'%captured_grouped E He Hf.
  assert (forall x y, groupable (events db) x -> groupable (events db) y ->
    links db !! x = links db !! y <-> links db' !! x = links db' !! y) as Hiff.
  { intros x y Hx Hy. rewrite (grouped_components db x y), (grouped_components db' x y); try done;
      by rewrite <- E. }
  split; [by apply Hiff|]. by apply same_partition_summary.
Qed.

Definition sample_db' : DB :=
  saved [sample_event "c" "porch" 1080; sample_event "d" "yard" 1080; sample_event "b" "porch" 1160;
         sample_event "a" "porch" 1000].

Lemma grouping_order_independent_witness :
  links sample_db !! "a"%string = links sample_db !! "b"%string <->
  links sample_db' !! "a"%string = links sample_db' !! "b"%string.
Proof.
  apply (grouping_order_independent sample_db sample_db' "a" "b" sample_captured).
  - apply saved_captured. repeat constructor.
  - vm_compute. reflexivity.
  - eapply sample_groupable; vm_compute; reflexivity.
  - eapply sample_groupable; vm_compute; reflexivity.
Defined.

(** ** Retention *)

(** Retention terminates and is exact: on every reachable store, whatever the
    batch size, it returns the number of events older than the cutoff, and its
    store holds the remaining events unchanged and is well formed. *)
Theorem deleteEventsOlderThan_exact now cutoff batchSize db :
  reachable db ->
  exists db', deleteEventsOlderThan now cutoff batchSize db =
      Ok (Z.of_nat (size (expired_events cutoff db)), db') /\
    wf db' /\ events db' = kept_events cutoff db.
Proof.
  intros W%reachable_is_wf. unfold deleteEventsOlderThan.
  set (n := if batchSize <=? 0 then _ else _).
  assert (0 < n) by (subst n; case_match; bool_to_prop; unfold eventDeleteBatchSize; lia).
  pose proof (expired_size cutoff db).
  destruct (delete_loop_spec now cutoff n (S (size (events db))) 0 db) as (db' & -> & ? & ?); [done|lia|done|].
  by exists db'.
Qed.

Lemma deleteEventsOlderThan_exact_witness :
  exists db', deleteEventsOlderThan (20000 * Second) (1100 * Second) 1 sample_db = Ok (3, db') /\ wf db' /\
    size (events db') = 1%nat.
Proof.
  destruct (deleteEventsOlderThan_exact (20000 * Second) (1100 * Second) 1 sample_db
    (captured_reachable _ sample_captured)) as (db' & E & W & H).
  exists db'. split; [rewrite E; vm_compute; reflexivity|]. split; [exact W|]. rewrite H. vm_compute. reflexivity.
Defined.

(** ** Notifications *)

(** An incident is notified at most once.  Once the activity of an event has a
    queued notification, no transaction that keeps the event linked loses the mark,
    however it merges, splits off, reopens or finalizes activities, so the pending
    query never returns the event's activity again. *)
Theorem notified_once db db' e :
  reachable db -> store_step db db' -> notified db e -> is_Some (links db' !! e) ->
  notified db' e /\ forall limit id, id ∈ pending_ids limit db' -> links db' !! e <> Some id.
Proof.
  intros W%reachable_is_wf Hs Hn Hl.
  destruct (step_moves _ _ Hs W) as (X & f & Hf & HX).
  assert (~ X e) as He.
  { intros [Hno|Hno]%HX; [destruct Hn as (? & ? & _)|destruct Hl]; congruence. }
  pose proof (evolved_notified _ _ _ _ _ Hf He Hn) as Hn'. split; [done|].
  intros limit id Hin Hid. destruct Hn' as (id' & Hid' & a & Ha & Hq).
  assert (id' = id) as -> by congruence. apply pending_ids_spec in Hin as (b & Hb & _ & _ & Hq').
  assert (a = b) as -> by congruence. rewrite Hq' in Hq. by destruct Hq.
Qed.

Definition notified_db : DB :=
  (MarkActivityNotificationQueued "act_a" (9000 * Second)
    (FinalizeDueActivities (8000 * Second) 10 sample_db).1).1.

Lemma notified_once_witness : exists db',
  SaveEvent (9500 * Second) (sample_event "z" "porch" 1020) notified_db = Ok db' /\ notified db' "a".
Proof.
  destruct (SaveEvent (9500 * Second) (sample_event "z" "porch" 1020) notified_db) as [db'|] eqn:E;
    [|vm_compute in E; discriminate].
  exists db'. split; [reflexivity|].
  apply (notified_once notified_db db' "a").
  - destruct (captured_reachable _ sample_captured) as (db0 & Hi & Hr). exists db0. split; [exact Hi|].
    eapply rtc_r; [eapply rtc_r; [exact Hr|]|].
    + apply (step_finalize (8000 * Second) 10).
    + apply (step_mark "act_a" (9000 * Second)).
  - eapply step_save, E.
  - exists "act_a"%string. split; [vm_compute; reflexivity|]. eexists. split; [vm_compute; reflexivity|].
    eexists. vm_compute. reflexivity.
  - revert E. vm_compute. intros [= <-]. vm_compute. eexists. reflexivity.
Defined.

(** ** Corrections *)

(** Excluding an event and restoring it is a round trip: the links, the events
    and every other activity are as before, and the activity's row has its old
    camera, span, category, state and notification mark; only its update time moves. *)
Theorem exclude_restore_roundtrip now1 now2 id e reason actor actor2 db db1 act :
  reachable db -> links db !! e = Some id ->
  ExcludeActivityEvidence now1 id e reason actor db = (db1, Ok act) ->
  exists db2 a,
    RestoreActivityEvidence now2 id e actor2 db1 = (db2, GetActivityByID id db2) /\
    links db1 !! e = None /\
    events db2 = events db /\ links db2 = links db /\
    (forall j, j <> id -> activities db2 !! j = activities db !! j) /\
    activities db !! id = Some a /\
    activities db2 !! id = Some (mkActivityRow (a_camera a) (a_start_time a) (a_end_time a)
      (a_category a) (a_state a) (a_finalized_at a) (a_notification_queued_at a) now2).
Proof.
  intros W%reachable_is_wf Hl Hx.
  destruct (exclude_result _ _ _ _ _ _ _ _ W Hl Hx) as (a & s & why & who & Ha & Hid & Hno & ->).
  destruct (restore_result now1 now2 id e actor2 db a s why who W Hl Ha Hid Hno)
    as (db2 & HR & He & Hl2 & Hother & Ha2).
  exists db2, a. split_and!; try done. apply lookup_delete_eq.
Qed.

Lemma exclude_restore_roundtrip_witness :
  exists db1 db2, (ExcludeActivityEvidence (11000 * Second) "act_a" "c" " " "" sample_db).1 = db1 /\
    (RestoreActivityEvidence (12000 * Second) "act_a" "c" "" db1).1 = db2 /\ links db2 = links sample_db.
Proof.
  destruct (ExcludeActivityEvidence (11000 * Second) "act_a" "c" " " "" sample_db) as [db1 [act|]] eqn:E;
    [|vm_compute in E; discriminate].
  destruct (exclude_restore_roundtrip (11000 * Second) (12000 * Second) "act_a" "c" " " "" "" sample_db db1 act)
    as (db2 & a & H1 & _ & _ & H2 & _);
    [apply captured_reachable, sample_captured|vm_compute; reflexivity|exact E|].
  exists db1, db2. rewrite H1. split; [reflexivity|]. split; [reflexivity|exact H2].
Defined.

(** ** Lifecycle *)

(** Finalization takes exactly the due activities (open, and quiet for the
    whole gap), at most the limit of them and the earliest-ending first; it
    finalizes those rows at the clock reading and leaves every other row, link and
    event alone, and when the limit covers them no due activity remains. *)
Theorem FinalizeDueActivities_exact now limit db :
  let ids := due_ids now limit db in
  let db' := (FinalizeDueActivities now limit db).1 in
  let due_rows := filter (fun kv => due now kv.2) (activities db) in
  length ids = Nat.min (clamp_limit limit) (size due_rows) /\
  (forall id, activities db' !! id =
     if bool_decide (id ∈ ids) then finalize_row now <$> activities db !! id else activities db !! id) /\
  (forall id, id ∈ ids -> exists a, activities db !! id = Some a /\ due now a) /\
  (forall x y a b, x ∈ ids -> y ∉ ids -> activities db !! x = Some a -> activities db !! y = Some b ->
     due now b -> a_end_time a <= a_end_time b) /\
  ((size due_rows <= clamp_limit limit)%nat -> forall id a, activities db' !! id = Some a -> ~ due now a) /\
  events db' = events db /\ links db' = links db.
Proof.
  cbv zeta. destruct (due_ids_spec now limit db) as (Hnd & Hin & Hlen).
  assert (forall id, activities (FinalizeDueActivities now limit db).1 !! id =
    if bool_decide (id ∈ due_ids now limit db) then finalize_row now <$> activities db !! id
    else activities db !! id) as Hlook by (intros; by apply finalize_fold_lookup).
  split_and!; [done|done| | | |apply finalize_due_tables..].
  - intros id [a [Ha Hd]%map_lookup_filter_Some]%Hin. by exists a.
  - intros x y a b. apply due_ids_earliest.
  - intros Hsz id a. rewrite Hlook. case_bool_decide as Hid.
    + intros (b & Hb & ->)%fmap_Some [Hopen _]. unfold finalize_row in Hopen.
      destruct (a_state b) eqn:E; [done|congruence].
    + intros Ha Hd. apply Hid.
      assert (list_to_set (due_ids now limit db) = dom (filter (fun kv => due now kv.2) (activities db))) as Heq.
      { apply set_subseteq_size_eq.
        - intros x Hx%elem_of_list_to_set. apply elem_of_dom. by apply Hin.
        - rewrite size_dom, size_list_to_set by done. rewrite Hlen. lia. }
      rewrite <- (elem_of_list_to_set (C := gset string)), Heq, elem_of_dom. exists a.
      by apply map_lookup_filter_Some.
Qed.

(** Evidence that arrives late reopens its activity: after [SaveEvent] of an
    object or doorbell event, the event is linked to an open activity of its camera,
    without a finalization time, that covers the event. *)
Theorem saved_evidence_is_open now ev db db' :
  reachable db -> Kind ev <> EventKindCry -> SaveEvent now ev db = Ok db' ->
  exists id a, links db' !! ID ev = Some id /\ activities db' !! id = Some a /\
    a_state a = ActivityStateOpen /\ a_finalized_at a = None /\ a_camera a = CameraName ev /\
    a_start_time a <= Timestamp ev /\ e_end (event_row ev) <= a_end_time a.
Proof.
  intros W%reachable_is_wf Hk Hs.
  destruct (save_open _ _ _ _ W Hk Hs) as (W' & He & id & a & Hl & Ha & Ho & Hf).
  assert (member db' id (event_row ev)) as Hm by (by exists (ID ev)).
  destruct (wf_summary _ _ _ W' id a Ha (not_nobody _)) as [H1 _ H2 _ _].
  exists id, a. split_and!; try done; [|by apply (H1 (event_row ev))|by apply H2].
  by rewrite <- (wf_camera _ _ _ W' id a _ Ha Hm).
Qed.

Lemma saved_evidence_is_open_witness : exists db' id a,
  SaveEvent (9500 * Second) (sample_event "z" "porch" 1020)
    (FinalizeDueActivities (8000 * Second) 10 sample_db).1 = Ok db' /\
  links db' !! "z"%string = Some id /\ activities db' !! id = Some a /\ a_state a = ActivityStateOpen.
Proof.
  set (db := (FinalizeDueActivities (8000 * Second) 10 sample_db).1).
  destruct (SaveEvent (9500 * Second) (sample_event "z" "porch" 1020) db) as [db'|] eqn:E;
    [|vm_compute in E; discriminate].
  destruct (saved_evidence_is_open (9500 * Second) (sample_event "z" "porch" 1020) db db')
    as (id & a & H1 & H2 & H3 & _); [|vm_compute; discriminate|exact E|].
  - destruct (captured_reachable _ sample_captured) as (db0 & Hi & Hr). exists db0. split; [exact Hi|].
    eapply rtc_r; [exact Hr|apply (step_finalize (8000 * Second) 10)].
  - exists db', id, a. split; [reflexivity|]. split; [exact H1|]. split; [exact H2|exact H3].
Defined.

(** ** Storage *)

(** A saved event reads back as it was saved: its row scans to the event, with
    only the documented defaults filled in (an empty category is an alert, an empty
    kind an object) and the track id, which has no column, zero. *)
Theorem SaveEvent_reads_back now ev db db' :
  reachable db -> SaveEvent now ev db = Ok db' ->
  events db' !! ID ev = Some (event_row ev) /\
  scan_event (ID ev) (event_row ev) =
    mkEvent (ID ev) (CameraName ev) (Label ev) (Score ev) 0 (Box ev) (Timestamp ev) (EndTime ev)
      (SnapshotPath ev) (SnapshotAvailable ev) (ClipPath ev) (ClipAvailable ev) (ZoneName ev)
      (ObjectName ev) (SubLabel ev)
      (if bool_decide (Kind ev = ""%string) then EventKindObject else Kind ev)
      (AnsweredAt ev) (AnsweredBy ev)
      (if bool_decide (Category ev = ""%string) then CategoryAlert else Category ev) /\
  (forall x, x <> ID ev -> events db' !! x = events db !! x).
Proof.
  intros W%reachable_is_wf H. pose proof (save_events _ _ _ _ W H) as He. rewrite He.
  split_and!; [by rewrite lookup_insert_eq| |intros; by rewrite lookup_insert_ne].
  unfold scan_event, event_row. cbn. by rewrite !default_nullString, !default_nullTime.
Qed.

Lemma SaveEvent_reads_back_witness : exists db',
  SaveEvent 0 (sample_event "z" "porch" 1020) sample_db = Ok db' /\
  events db' !! "z"%string = Some (event_row (sample_event "z" "porch" 1020)).
Proof.
  destruct (SaveEvent 0 (sample_event "z" "porch" 1020) sample_db) as [db'|] eqn:E;
    [|vm_compute in E; discriminate].
  exists db'. split; [reflexivity|].
  apply (SaveEvent_reads_back 0 (sample_event "z" "porch" 1020) sample_db db');
    [apply captured_reachable, sample_captured|exact E].
Defined.
