(* ===== verification/NotifyStore.v ===== *)
(** The notification tables of [internal/storage]: push subscriptions
    ([db_push.go]), preferences ([db_notifications.go]), the key-value rows and the
    user list ([db.go]); the interface [notify.Store] through which the dispatcher
    sees them ([notify/store.go]), and the in-memory cooldown cache. *)

From S2P Require Import Prelude.

(** ** The tables *)

Record PushSubscription := mkPushSubscription {
  ps_id : Z;
  ps_username : string;
  ps_endpoint : string;
  ps_p256dh : string;
  ps_auth : string;
  ps_user_agent : string
}.

(** [push_subscriptions] in id order, [notification_prefs] by its primary key
    (user, camera, class) and [kv_store]. *)
Record NotifyDB := mkNotifyDB {
  subs : list PushSubscription;
  next_sub : Z;
  prefs : gmap (string * string * string) bool;
  kv : gmap string string
}.

Inductive PushError := ErrPushSubscriptionNotFound | ErrSubscriptionOwnedByOther.

Definition set_subs (l : list PushSubscription) (db : NotifyDB) : NotifyDB :=
  mkNotifyDB l (next_sub db) (prefs db) (kv db).

(** The upsert: a new endpoint is inserted, one's own is refreshed, another user's
    is refused. *)
Definition SavePushSubscription (username endpoint p256dh auth user_agent : string) (db : NotifyDB)
    : result PushError (Z * NotifyDB) :=
  match List.find (fun s => String.eqb (ps_endpoint s) endpoint) (subs db) with
  | None =>
      let id := next_sub db in
      Ok (id, mkNotifyDB (subs db ++ [mkPushSubscription id username endpoint p256dh auth user_agent])
                (id + 1) (prefs db) (kv db))
  | Some s =>
      if String.eqb (ps_username s) username
      then Ok (ps_id s, set_subs (fmap (fun t =>
             if String.eqb (ps_endpoint t) endpoint
             then mkPushSubscription (ps_id t) (ps_username t) (ps_endpoint t) p256dh auth user_agent
             else t) (subs db)) db)
      else Err ErrSubscriptionOwnedByOther
  end.

Definition FindPushSubscriptionByEndpoint (endpoint : string) (db : NotifyDB) : option PushSubscription :=
  List.find (fun s => String.eqb (ps_endpoint s) endpoint) (subs db).

Definition ListPushSubscriptionsByUser (username : string) (db : NotifyDB) : list PushSubscription :=
  filter (fun s => ps_username s = username) (subs db).

Definition DeletePushSubscription (id : Z) (username : string) (db : NotifyDB) : result PushError NotifyDB :=
  if existsb (fun s => (ps_id s =? id) && String.eqb (ps_username s) username) (subs db)
  then Ok (set_subs (filter (fun s => ~ (ps_id s = id /\ ps_username s = username)) (subs db)) db)
  else Err ErrPushSubscriptionNotFound.

Definition DeletePushSubscriptionByEndpoint (endpoint : string) (db : NotifyDB) : NotifyDB :=
  set_subs (filter (fun s => ps_endpoint s <> endpoint) (subs db)) db.

Definition CountPushSubscriptions (db : NotifyDB) : Z := Z.of_nat (length (subs db)).

(** [SELECT DISTINCT username ... ORDER BY username]. *)
Definition ListAllUsernames (db : NotifyDB) : list string :=
  merge_sort String.le (remove_dups (ps_username <$> subs db)).

(** Enabled unless a disabled row names the class or the wildcard. *)
Definition IsNotificationEnabled (username camera class : string) (db : NotifyDB) : bool :=
  negb (bool_decide (prefs db !! (username, camera, class) = Some false)) &&
  negb (bool_decide (prefs db !! (username, camera, "*"%string) = Some false)).

Definition SetNotificationPref (username camera class : string) (enabled : bool) (db : NotifyDB) : NotifyDB :=
  let key := (username, camera, class) in
  mkNotifyDB (subs db) (next_sub db)
    (if enabled then delete key (prefs db) else <[key := false]> (prefs db)) (kv db).

Definition GetKV (key : string) (db : NotifyDB) : option string := kv db !! key.
Definition SetKV (key value : string) (db : NotifyDB) : NotifyDB :=
  mkNotifyDB (subs db) (next_sub db) (prefs db) (<[key := value]> (kv db)).

(** ** The interface of the dispatcher

    Every method may fail; a failing deletion leaves the store it found. *)
Class Store (W : Type) := {
  store_get_kv : string -> W -> result string (option string);
  store_usernames : W -> result string (list string);
  store_enabled : string -> string -> string -> W -> result string bool;
  store_subs : string -> W -> result string (list PushSubscription);
  store_delete : string -> W -> result string W;
  store_count : W -> result string Z
}.

(** What the dispatcher relies on: a deleted endpoint is no longer listed, and a
    deletion adds nobody's subscription. *)
Class StoreLaws (W : Type) `{Store W} : Prop := {
  store_delete_gone e w w' u l :
    store_delete e w = Ok w' -> store_subs u w' = Ok l -> e ∉ (ps_endpoint <$> l);
  store_delete_mono e w w' u l' :
    store_delete e w = Ok w' -> store_subs u w' = Ok l' -> exists l, store_subs u w = Ok l /\ l' ⊆ l
}.

(** [*storage.DB] as a [notify.Store]; [fails] says which calls the database
    refuses. *)
#[export] Instance db_store (fails : string -> bool) : Store NotifyDB := {
  store_get_kv k db := if fails "get_kv" then Err "get_kv"%string else Ok (GetKV k db);
  store_usernames db := if fails "users" then Err "users"%string else Ok (ListAllUsernames db);
  store_enabled u c l db := if fails "prefs" then Err "prefs"%string else Ok (IsNotificationEnabled u c l db);
  store_subs u db := if fails "subs" then Err "subs"%string else Ok (ListPushSubscriptionsByUser u db);
  store_delete e db := if fails "delete" then Err "delete"%string else Ok (DeletePushSubscriptionByEndpoint e db);
  store_count db := if fails "count" then Err "count"%string else Ok (CountPushSubscriptions db)
}.

#[export] Instance db_store_laws fails : StoreLaws NotifyDB (H := db_store fails).
Proof.
  split; simpl; intros *; destruct (fails "delete"), (fails "subs"); try done; simpl.
  - intros [= <-] [= <-]. unfold ListPushSubscriptionsByUser, DeletePushSubscriptionByEndpoint. simpl.
    intros (s & -> & [_ [? _]%list_elem_of_filter]%list_elem_of_filter)%list_elem_of_fmap. done.
  - intros [= <-] [= <-]. eexists. split; [done|]. intros s.
    unfold ListPushSubscriptionsByUser, DeletePushSubscriptionByEndpoint. simpl.
    rewrite !list_elem_of_filter. naive_solver.
Qed.

(** ** Invariants of the tables *)

(** Endpoints and ids are unique, ids ascend and lie below the next one; only
    disabled rows are stored. *)
Record notify_wf (db : NotifyDB) : Prop := {
  nwf_endpoints : NoDup (ps_endpoint <$> subs db);
  nwf_ids : Sorted.StronglySorted Z.lt (ps_id <$> subs db);
  nwf_next : Forall (fun s => ps_id s < next_sub db) (subs db);
  nwf_prefs k b : prefs db !! k = Some b -> b = false
}.

Lemma find_endpoint_None endpoint l :
  List.find (fun s => String.eqb (ps_endpoint s) endpoint) l = None -> endpoint ∉ (ps_endpoint <$> l).
Proof.
  intros Hf (s & -> & Hs)%list_elem_of_fmap. apply list_elem_of_In in Hs.
  pose proof (List.find_none _ _ Hf _ Hs) as Hn. simpl in Hn. by rewrite String.eqb_refl in Hn.
Qed.

Lemma StronglySorted_snoc l x :
  Sorted.StronglySorted Z.lt l -> Forall (fun y => y < x) l -> Sorted.StronglySorted Z.lt (l ++ [x]).
Proof.
  induction 1 as [|y l Hl IH Hy]; simpl; intros Hf; [repeat constructor|].
  apply Forall_cons in Hf as [? ?]. constructor; [auto|]. apply Forall_app. auto.
Qed.

Lemma StronglySorted_filter P `{forall x : PushSubscription, Decision (P x)} l :
  Sorted.StronglySorted Z.lt (ps_id <$> l) -> Sorted.StronglySorted Z.lt (ps_id <$> filter P l).
Proof.
  induction l as [|s l IH]; simpl; intros Hs; [done|].
  apply Sorted.StronglySorted_inv in Hs as [Hs Hf]. rewrite filter_cons. case_decide; [|auto].
  simpl. constructor; [auto|]. apply Forall_fmap, Forall_forall. rewrite Forall_fmap, Forall_forall in Hf.
  intros t [_ Ht]%list_elem_of_filter. by apply Hf.
Qed.

Lemma set_subs_wf l db :
  NoDup (ps_endpoint <$> l) -> Sorted.StronglySorted Z.lt (ps_id <$> l) ->
  Forall (fun s => ps_id s < next_sub db) l -> notify_wf db -> notify_wf (set_subs l db).
Proof. intros ? ? ? []. by split. Qed.

Lemma filter_subs_wf P `{forall x : PushSubscription, Decision (P x)} db :
  notify_wf db -> notify_wf (set_subs (filter P (subs db)) db).
Proof.
  intros W. apply set_subs_wf; [| | |done]; destruct W as [He Hi Hn Hp].
  - eapply sublist_NoDup; [exact He|]. apply fmap_sublist, sublist_filter.
  - by apply StronglySorted_filter.
  - rewrite Forall_forall in Hn |- *. intros s [_ Hs]%list_elem_of_filter. by apply Hn.
Qed.

Lemma SavePushSubscription_wf u e p a ua db id db' :
  notify_wf db -> SavePushSubscription u e p a ua db = Ok (id, db') -> notify_wf db'.
Proof.
  intros W. unfold SavePushSubscription. destruct (List.find _ _) as [s|] eqn:Hf.
  - destruct (String.eqb _ _); [|done]. intros [= <- <-].
    set (g := fun t => if String.eqb (ps_endpoint t) e then _ else t).
    assert (forall t, ps_endpoint (g t) = ps_endpoint t /\ ps_id (g t) = ps_id t) as Hg
      by (intros t; subst g; simpl; by destruct (String.eqb _ _)).
    apply set_subs_wf; [| | |done]; destruct W as [He Hi Hn Hp].
    + rewrite <- list_fmap_compose. erewrite list_fmap_ext; [exact He|]. intros; apply Hg.
    + rewrite <- list_fmap_compose. erewrite list_fmap_ext; [exact Hi|]. intros; apply Hg.
    + rewrite Forall_fmap. eapply Forall_impl; [exact Hn|]. intros t. simpl. by rewrite (proj2 (Hg t)).
  - intros [= <- <-]. destruct W as [He Hi Hn Hp]. split; simpl.
    + rewrite fmap_app, NoDup_app. split_and!; [done| |apply NoDup_singleton].
      intros x Hx ->%list_elem_of_singleton. by apply (find_endpoint_None _ _ Hf).
    + rewrite fmap_app. apply StronglySorted_snoc; [done|]. by rewrite Forall_fmap.
    + apply Forall_app. split; [eapply Forall_impl; [exact Hn|simpl; lia]|]. repeat constructor. simpl. lia.
    + done.
Qed.

Lemma SetNotificationPref_wf u c k b db : notify_wf db -> notify_wf (SetNotificationPref u c k b db).
Proof.
  intros []. split; simpl; [done..|]. intros k' b'. destruct b.
  - intros [? ?]%lookup_delete_Some. eauto.
  - intros [[_ <-]|[? ?]]%lookup_insert_Some; eauto.
Qed.

Lemma find_endpoint_Some endpoint l s :
  List.find (fun s => String.eqb (ps_endpoint s) endpoint) l = Some s ->
  s ∈ l /\ ps_endpoint s = endpoint.
Proof. intros [Hs He]%List.find_some. bool_to_prop. split; [by apply list_elem_of_In|done]. Qed.

(** Rows with one endpoint are one row. *)
Lemma endpoint_inj db s t :
  notify_wf db -> s ∈ subs db -> t ∈ subs db -> ps_endpoint s = ps_endpoint t -> s = t.
Proof.
  intros [He _ _ _] (i & Hi)%list_elem_of_lookup (j & Hj)%list_elem_of_lookup E.
  assert (i = j) as -> by (eapply (NoDup_lookup _ i j (ps_endpoint s) He);
    rewrite list_lookup_fmap; [by rewrite Hi|by rewrite Hj, E]). congruence.
Qed.

(** Refreshing one's own endpoint leaves other users' rows alone. *)
Lemma refresh_other u e p a ua v (l : list PushSubscription) :
  v <> u -> (forall t, t ∈ l -> ps_endpoint t = e -> ps_username t = u) ->
  filter (fun s => ps_username s = v) ((fun t =>
    if String.eqb (ps_endpoint t) e
    then mkPushSubscription (ps_id t) (ps_username t) (ps_endpoint t) p a ua else t) <$> l) =
  filter (fun s => ps_username s = v) l.
Proof.
  intros Hv. induction l as [|t l IH]; intros Ht; [done|]. rewrite fmap_cons.
  rewrite !filter_cons, IH by (intros; apply Ht; [by right|done]).
  destruct (String.eqb (ps_endpoint t) e) eqn:He; [|done]. bool_to_prop. simpl.
  assert (ps_username t = u) by (apply Ht; [by left|done]). by rewrite !decide_False by congruence.
Qed.

(** ** The cooldown cache *)

Record CooldownCache := mkCooldownCache {
  window : Z;
  last : gmap string Z
}.

Definition NewCooldownCache (window : Z) : CooldownCache := mkCooldownCache window ∅.

(** [now] is the clock reading the method takes. *)
Definition Suppressed (now : Z) (key : string) (c : CooldownCache) : bool :=
  match last c !! key with
  | None => false
  | Some ts => Sub now ts <? window c
  end.

Definition Mark (now : Z) (key : string) (c : CooldownCache) : CooldownCache :=
  mkCooldownCache (window c) (<[key := now]> (last c)).

Definition Sweep (now : Z) (c : CooldownCache) : CooldownCache :=
  let cutoff := Add now (i64 (-2 * window c)) in
  mkCooldownCache (window c) (filter (fun kv => Before kv.2 cutoff = false) (last c)).

Definition Size (c : CooldownCache) : Z := Z.of_nat (size (last c)).

(** A window small enough that twice it is a duration. *)
Definition window_ok (c : CooldownCache) : Prop := 0 < window c < 2 ^ 62.

Lemma Suppressed_spec now key c :
  window_ok c ->
  Suppressed now key c = true <-> exists ts, last c !! key = Some ts /\ now < ts + window c.
Proof.
  unfold Suppressed, window_ok. intros Hw. destruct (last c !! key) as [ts|].
  - rewrite Z.ltb_lt, Sub_lt by (unfold min_int64, max_int64; lia). split; [intros; exists ts; split; [done|lia]|].
    intros (ts' & [= <-] & ?). lia.
  - split; [done|]. by intros (? & ? & _).
Qed.

(** Sweeping never changes the answer of a later check. *)
Lemma Suppressed_Sweep now now' key c :
  window_ok c -> now <= now' -> Suppressed now' key (Sweep now c) = Suppressed now' key c.
Proof.
  intros Hw Hn. apply eq_bool_prop_intro. rewrite !Is_true_true.
  rewrite (Suppressed_spec _ _ c), (Suppressed_spec _ _ (Sweep now c)) by done. simpl. split.
  - intros (ts & [? _]%map_lookup_filter_Some & ?). eauto.
  - intros (ts & ? & ?). exists ts. split; [|done]. apply map_lookup_filter_Some. split; [done|].
    unfold window_ok in Hw. unfold Before, Add. rewrite i64_small by (unfold min_int64, max_int64; lia).
    simpl. apply Z.ltb_ge. lia.
Qed.
