(* ===== verification/NotifyDispatch.v ===== *)
(** The notification dispatcher ([notify/dispatcher.go]): its bounded queue, the
    gates of one recipient, the fan-out over subscriptions and the outcome line.

    The state is threaded through a monad whose computations may panic (a worker
    recovers from it).  Each clock reading takes the next instant of [clock], and
    each push the next answer of [send], the web push service; [None] is a panic
    inside the sender. *)

From Stdlib Require Import Ascii.
From S2P Require Import Prelude Float64 CameraEvent NotifyStore.

(** ** Data *)

Record Subscription := mkSubscription { Endpoint : string; P256dh : string; Auth : string }.

Record SendResult := mkSendResult { Status : Z; SendErr : option string; Timeout : bool; Body : string }.

Inductive Counter :=
| EventsReceived | EventsSent | EventsCooldown | EventsMuted | EventsDisabled | EventsDropped
| PushSendOK | PushSend410 | PushSend401 | PushSend429 | PushSendTimeout | PushSendError
| SubscriptionCount | QueueDepth.

#[global] Instance Counter_eq_dec : EqDecision Counter.
Proof. solve_decision. Defined.

(** [Metrics]: [atomic.Int64] counters. *)
Definition Metrics := Counter -> Z.
Definition NewMetrics : Metrics := fun _ => 0.
Definition store_counter (c : Counter) (v : Z) (m : Metrics) : Metrics :=
  fun c' => if decide (c' = c) then v else m c'.
Definition bump (c : Counter) (m : Metrics) : Metrics := store_counter c (i64 (m c + 1)) m.

Inductive dropReason :=
| dropDelivered | dropMuted | dropDisabled | dropCooldown | dropNoSubs
| dropEndpointBackoff | dropStoreError | dropSendFailed.

#[global] Instance dropReason_eq_dec : EqDecision dropReason.
Proof. solve_decision. Defined.

Definition dropReason_string (r : dropReason) : string :=
  match r with
  | dropDelivered => "" | dropMuted => "muted" | dropDisabled => "disabled"
  | dropCooldown => "cooldown" | dropNoSubs => "no_subscriptions"
  | dropEndpointBackoff => "endpoint_backoff" | dropStoreError => "store_error"
  | dropSendFailed => "send_failed"
  end%string.

Definition dropReasonOrder : list dropReason :=
  [dropMuted; dropDisabled; dropCooldown; dropNoSubs; dropEndpointBackoff; dropStoreError; dropSendFailed].

Record dispatchOutcome := mkOutcome { delivered : Z; drops : dropReason -> Z }.
Definition no_outcome : dispatchOutcome := mkOutcome 0 (fun _ => 0).

Definition record (reason : dropReason) (o : dispatchOutcome) : dispatchOutcome :=
  if decide (reason = dropDelivered) then mkOutcome (delivered o + 1) (drops o)
  else mkOutcome (delivered o)
         (fun r => if decide (r = reason) then drops o r + 1 else drops o r).

(** The outcome attributes of the log line: reasons that did not occur are omitted. *)
Definition attrs (o : dispatchOutcome) : list (string * Z) :=
  ("delivered"%string, delivered o) ::
  omap (fun r => if 0 <? drops o r then Some (dropReason_string r, drops o r) else None) dropReasonOrder.

Inductive Level := LevelInfo | LevelWarn.

(** A job; an activity job carries its activity's id. *)
Record notificationJob := mkJob {
  event : Event;
  activity : option string;
  immediate : bool;
  test : bool;
  targetUser : string
}.

(** [indexOfImageKey]: where the JSON key ["image"] starts, or -1. *)
Definition quote : ascii := ascii_of_nat 34.
Definition image_key : list ascii := quote :: String.list_ascii_of_string "image" ++ [quote; ":"%char].

Fixpoint index_of (fuel : nat) (i : Z) (s : list ascii) : Z :=
  match fuel with
  | O => -1
  | S fuel =>
      match s with
      | [] => -1
      | _ :: s' => if decide (take 8 s = image_key) then i else index_of fuel (i + 1) s'
      end
  end.

Definition indexOfImageKey (s : string) : Z :=
  let l := String.list_ascii_of_string s in index_of (length l) 0 l.

Definition bytesContainsImageField (p : string) : bool := 0 <=? indexOfImageKey p.

(** [hostOnly]: what follows the first [//], up to the next slash. *)
Fixpoint take_until_slash (s : list ascii) : list ascii :=
  match s with
  | [] => []
  | c :: s => if decide (c = "/"%char) then [] else c :: take_until_slash s
  end.

Fixpoint after_slashes (s : list ascii) : option (list ascii) :=
  match s with
  | "/"%char :: (("/"%char :: rest) as s') => Some rest
  | _ :: s' => after_slashes s'
  | [] => None
  end.

Definition hostOnly (endpoint : string) : string :=
  match after_slashes (String.list_ascii_of_string endpoint) with
  | Some rest => String.string_of_list_ascii (take_until_slash rest)
  | None => endpoint
  end.

(** The counter of one push's answer ([recordResult]'s switch). *)
Definition classify (r : SendResult) : Counter :=
  if Timeout r then PushSendTimeout
  else if bool_decide (SendErr r <> None) then PushSendError
  else if (Status r =? 401) || (Status r =? 403) then PushSend401
  else if (Status r =? 410) || (Status r =? 404) then PushSend410
  else if Status r =? 429 then PushSend429
  else if (200 <=? Status r) && (Status r <? 300) then PushSendOK
  else PushSendError.

Definition is_success (r : SendResult) : bool := (200 <=? Status r) && (Status r <? 300).
Definition is_gone (r : SendResult) : bool := (Status r =? 404) || (Status r =? 410).

Section dispatcher.
Context {W : Type} `{!Store W}.
Context (clock : nat -> Z).
Context (send : nat -> Subscription -> string -> option SendResult).
(** Payloads are JSON documents built from the event or the activity. *)
Context (payload_of : notificationJob -> string).

Record NotificationDispatcher := mkDispatcher {
  store : W;
  cooldown : CooldownCache;
  backoff : CooldownCache;
  metrics : Metrics;
  jobs : list notificationJob;
  capacity : nat;
  ticks : nat;
  (** Every push attempted so far, with its answer. *)
  attempts : list (Subscription * SendResult);
  (** The "push dispatch" log lines: level and outcome attributes. *)
  log : list (Level * list (string * Z))
}.

Definition set_store w d := mkDispatcher w (cooldown d) (backoff d) (metrics d) (jobs d) (capacity d) (ticks d) (attempts d) (log d).
Definition set_cooldown c d := mkDispatcher (store d) c (backoff d) (metrics d) (jobs d) (capacity d) (ticks d) (attempts d) (log d).
Definition set_backoff b d := mkDispatcher (store d) (cooldown d) b (metrics d) (jobs d) (capacity d) (ticks d) (attempts d) (log d).
Definition set_metrics m d := mkDispatcher (store d) (cooldown d) (backoff d) m (jobs d) (capacity d) (ticks d) (attempts d) (log d).
Definition set_jobs j d := mkDispatcher (store d) (cooldown d) (backoff d) (metrics d) j (capacity d) (ticks d) (attempts d) (log d).
Definition set_ticks t d := mkDispatcher (store d) (cooldown d) (backoff d) (metrics d) (jobs d) (capacity d) t (attempts d) (log d).
Definition set_attempts a d := mkDispatcher (store d) (cooldown d) (backoff d) (metrics d) (jobs d) (capacity d) (ticks d) a (log d).
Definition set_log l d := mkDispatcher (store d) (cooldown d) (backoff d) (metrics d) (jobs d) (capacity d) (ticks d) (attempts d) l.

(** [New], with its defaults; zero options mean "default". *)
Definition New (w : W) (CooldownWindow : Z) (QueueCapacity : nat) : NotificationDispatcher :=
  let CooldownWindow := if CooldownWindow =? 0 then 3 * Minute else CooldownWindow in
  let QueueCapacity := if decide (QueueCapacity = 0%nat) then 256%nat else QueueCapacity in
  mkDispatcher w (NewCooldownCache CooldownWindow) (NewCooldownCache (60 * Second)) NewMetrics
    [] QueueCapacity 0 [] [].

(** The monad: a new state and an answer, or a panic. *)
Definition M (A : Type) : Type := NotificationDispatcher -> NotificationDispatcher * option A.
Definition ret {A} (a : A) : M A := fun d => (d, Some a).
Definition bind {A B} (m : M A) (k : A -> M B) : M B :=
  fun d => match m d with (d, Some a) => k a d | (d, None) => (d, None) end.
Definition modify (f : NotificationDispatcher -> NotificationDispatcher) : M unit := fun d => (f d, Some tt).
Definition gets {A} (f : NotificationDispatcher -> A) : M A := fun d => (d, Some (f d)).

Notation "'let!' x := m 'in' k" := (bind m (fun x => k)) (at level 10, x name, m at level 100, k at level 200).
Notation "m ;; k" := (bind m (fun _ => k)) (at level 100, right associativity).

Definition Add_ (c : Counter) : M unit := modify (fun d => set_metrics (bump c (metrics d)) d).
Definition now : M Z := fun d => (set_ticks (S (ticks d)) d, Some (clock (ticks d))).

(** The body both loops share: send, count, prune or back off; the answer says
    whether the push was accepted. *)
Definition push (payload : string) (sub : PushSubscription) : M bool :=
  let s := mkSubscription (ps_endpoint sub) (ps_p256dh sub) (ps_auth sub) in
  let! n := gets (fun d => length (attempts d)) in
  match send n s payload with
  | None => fun d => (d, None)
  | Some r =>
      modify (fun d => set_attempts (attempts d ++ [(s, r)]) d) ;;
      Add_ (classify r) ;;
      if is_success r then ret true
      else if is_gone r then
        modify (fun d => match store_delete (ps_endpoint sub) (store d) with
                         | Ok w => set_store w d
                         | Err _ => d
                         end) ;; ret false
      else if Status r =? 429 then
        let! t := now in
        modify (fun d => set_backoff (Mark t (ps_endpoint sub) (backoff d)) d) ;; ret false
      else ret false
  end.

(** The loop of [dispatchTestToUser]: no gate. *)
Fixpoint push_all (payload : string) (subs : list PushSubscription) (anySuccess : bool) : M bool :=
  match subs with
  | [] => ret anySuccess
  | sub :: subs =>
      let! ok := push payload sub in
      push_all payload subs (anySuccess || ok)
  end.

(** The loop of [dispatchToUser]: endpoints in backoff are skipped. *)
Fixpoint push_ready (payload : string) (subs : list PushSubscription) (anySuccess attempted : bool)
    : M (bool * bool) :=
  match subs with
  | [] => ret (anySuccess, attempted)
  | sub :: subs =>
      let! t := now in
      let! b := gets backoff in
      if Suppressed t (ps_endpoint sub) b then push_ready payload subs anySuccess attempted
      else
        let! ok := push payload sub in
        push_ready payload subs (anySuccess || ok) true
  end.

Definition dispatchTestToUser (user payload : string) : M dropReason :=
  let! r := gets (fun d => store_subs user (store d)) in
  match r with
  | Err _ => ret dropStoreError
  | Ok [] => Add_ EventsDisabled ;; ret dropNoSubs
  | Ok subs =>
      let! anySuccess := push_all payload subs false in
      if anySuccess : bool then Add_ EventsSent ;; ret dropDelivered else ret dropSendFailed
  end.

Definition muted_key (user : string) : string := ("notify:" +:+ user +:+ ":muted")%string.

Definition dispatchToUser (user : string) (ev : Event) (identity payload : string) (bypassCooldown : bool)
    : M dropReason :=
  let! kv := gets (fun d => store_get_kv (muted_key user) (store d)) in
  let muted := match kv with Ok (Some v) => String.eqb v "1" | _ => false end in
  if muted then Add_ EventsMuted ;; ret dropMuted
  else
    let! enabled := gets (fun d => store_enabled user (CameraName ev) (Label ev) (store d)) in
    match enabled with
    | Err _ => ret dropStoreError
    | Ok false => Add_ EventsDisabled ;; ret dropDisabled
    | Ok true =>
        let key := (user +:+ ":" +:+ identity)%string in
        let! t := now in
        let! c := gets cooldown in
        if negb bypassCooldown && Suppressed t key c then Add_ EventsCooldown ;; ret dropCooldown
        else
          let! r := gets (fun d => store_subs user (store d)) in
          match r with
          | Err _ => ret dropStoreError
          | Ok [] => Add_ EventsDisabled ;; ret dropNoSubs
          | Ok subs =>
              let! p := push_ready payload subs false false in
              let '(anySuccess, attempted) := p in
              if anySuccess : bool then
                (if bypassCooldown then ret tt
                 else let! t := now in
                      modify (fun d => set_cooldown (Mark t key (cooldown d)) d)) ;;
                Add_ EventsSent ;; ret dropDelivered
              else if attempted : bool then ret dropSendFailed
              else ret dropEndpointBackoff
          end
    end.

Definition dispatchLevel (o : dispatchOutcome) (d : NotificationDispatcher) : Level :=
  if (delivered o =? 0) && (metrics d EventsSent =? 0) then LevelWarn else LevelInfo.

Definition job_identity (job : notificationJob) : string :=
  match activity job with
  | Some id => ("activity:" +:+ id)%string
  | None => if test job then "test"%string
            else (CameraName (event job) +:+ ":" +:+ Label (event job))%string
  end.

Fixpoint dispatch_users (users : list string) (job : notificationJob) (payload : string) (o : dispatchOutcome)
    : M dispatchOutcome :=
  match users with
  | [] => ret o
  | user :: users =>
      let! r := dispatchToUser user (event job) (job_identity job) payload (immediate job) in
      dispatch_users users job payload (record r o)
  end.

(** The body of [handleJob], before its deferred recovery. *)
Definition handleJob_body (job : notificationJob) : M unit :=
  let! users := (if String.eqb (targetUser job) "" then
                   gets (fun d => match store_usernames (store d) with Ok us => Some us | Err _ => None end)
                 else ret (Some [targetUser job])) in
  match users with
  | None => ret tt
  | Some users =>
      let payload := payload_of job in
      let! o := (if test job then
                   let! r := dispatchTestToUser (targetUser job) payload in ret (record r no_outcome)
                 else dispatch_users users job payload no_outcome) in
      modify (fun d => set_log (log d ++ [(dispatchLevel o d, attrs o)]) d)
  end.

(** A panic is logged and counted; the worker goes on. *)
Definition handleJob (job : notificationJob) (d : NotificationDispatcher) : NotificationDispatcher :=
  match handleJob_body job d with
  | (d, Some _) => d
  | (d, None) => set_metrics (bump PushSendError (metrics d)) d
  end.

(** ** The queue *)

Definition enqueue (job : notificationJob) (d : NotificationDispatcher) : NotificationDispatcher * bool :=
  let d := set_metrics (bump EventsReceived (metrics d)) d in
  if decide (length (jobs d) < capacity d)%nat then
    let d := set_jobs (jobs d ++ [job]) d in
    (set_metrics (store_counter QueueDepth (Z.of_nat (length (jobs d))) (metrics d)) d, true)
  else (set_metrics (bump EventsDropped (metrics d)) d, false).

Definition Enqueue (ev : Event) (d : NotificationDispatcher) : NotificationDispatcher :=
  (enqueue (mkJob ev None false false "") d).1.
Definition EnqueueDoorbell (ev : Event) (d : NotificationDispatcher) : NotificationDispatcher * bool :=
  enqueue (mkJob ev None true false "") d.
Definition EnqueueCry (ev : Event) (d : NotificationDispatcher) : NotificationDispatcher * bool :=
  if String.eqb (Category ev) CategoryDetection then (d, true)
  else enqueue (mkJob ev None true false "") d.
Definition EnqueueActivity (id : string) (primary : Event) (d : NotificationDispatcher)
    : NotificationDispatcher * bool :=
  enqueue (mkJob primary (Some id) false false "") d.

(** One turn of [workerLoop]. *)
Definition worker_step (d : NotificationDispatcher) : NotificationDispatcher :=
  match jobs d with
  | [] => d
  | job :: rest =>
      let d := set_jobs rest d in
      let d := set_metrics (store_counter QueueDepth (Z.of_nat (length rest)) (metrics d)) d in
      handleJob job d
  end.

(** One tick of [sweepLoop]. *)
Definition sweep_step (d : NotificationDispatcher) : NotificationDispatcher :=
  let d := set_cooldown (Sweep (clock (ticks d)) (cooldown d)) d in
  let d := set_ticks (S (ticks d)) d in
  let d := set_backoff (Sweep (clock (ticks d)) (backoff d)) d in
  let d := set_ticks (S (ticks d)) d in
  match store_count (store d) with
  | Ok n => set_metrics (store_counter SubscriptionCount n (metrics d)) d
  | Err _ => d
  end.
End dispatcher.
