(* ===== verification/NotifyDelivery.v ===== *)
(** Facts about the dispatcher's computations: what one recipient's dispatch
    pushes, counts, prunes and marks. *)

From S2P Require Import Prelude Float64 CameraEvent NotifyStore NotifyDispatch.

Lemma i64_idemp a : i64 (i64 a) = i64 a.
Proof. pose proof (wrapS_add_l 64 a 0) as H. by rewrite !Z.add_0_r in H. Qed.

Section delivery.
Context {W : Type} `{!Store W} `{!StoreLaws W}.
Context (clock : nat -> Z) (send : nat -> Subscription -> string -> option SendResult).
Context (payload_of : notificationJob -> string).
Context (Hclock : forall i j, (i <= j)%nat -> clock i <= clock j).

Abbreviation D := (NotificationDispatcher (W := W)).

(** [m] counts [n c] more of each counter [c], modulo the counters' width. *)
Definition counted (n : Counter -> Z) (m m' : Metrics) : Prop :=
  forall c, i64 (m' c) = i64 (m c + n c).

Lemma counted_refl m : counted (fun _ => 0) m m.
Proof. intros c. by rewrite Z.add_0_r. Qed.

Lemma counted_bump c m : counted (fun c' => if decide (c' = c) then 1 else 0) m (bump c m).
Proof.
  intros c'. unfold bump, store_counter. case_decide; subst.
  - by rewrite i64_idemp.
  - by rewrite Z.add_0_r.
Qed.

Lemma counted_trans n1 n2 m1 m2 m3 :
  counted n1 m1 m2 -> counted n2 m2 m3 -> counted (fun c => n1 c + n2 c) m1 m3.
Proof.
  intros H1 H2 c. rewrite H2, <- wrapS_add_l, H1, wrapS_add_l. f_equal. lia.
Qed.

Lemma counted_ext n n' m m' : (forall c, n c = n' c) -> counted n m m' -> counted n' m m'.
Proof. intros E H c. by rewrite H, E. Qed.

(** How often the answers of [new] are counted under [c]. *)
Definition tally (new : list (Subscription * SendResult)) (c : Counter) : Z :=
  Z.of_nat (length (filter (fun a => classify a.2 = c) new)).

Lemma tally_app l1 l2 c : tally (l1 ++ l2) c = tally l1 c + tally l2 c.
Proof. unfold tally. rewrite filter_app, length_app. lia. Qed.

Lemma tally_one a c : tally [a] c = if decide (c = classify a.2) then 1 else 0.
Proof. unfold tally. rewrite filter_cons, filter_nil. repeat case_decide; congruence || done. Qed.

(** Later marks only move forward. *)
Definition later (m m' : gmap string Z) : Prop :=
  forall k t, m !! k = Some t -> exists t', m' !! k = Some t' /\ t <= t'.

Lemma later_refl m : later m m.
Proof. intros k t ?. exists t. by split. Qed.

Lemma later_trans m1 m2 m3 : later m1 m2 -> later m2 m3 -> later m1 m3.
Proof.
  intros H1 H2 k t (t' & (t'' & ? & ?)%H2 & ?)%H1. exists t''. split; [done|lia].
Qed.

(** No mark is in the future. *)
Definition clocked (d : D) : Prop :=
  (forall k t, last (cooldown d) !! k = Some t -> t <= clock (ticks d)) /\
  (forall k t, last (backoff d) !! k = Some t -> t <= clock (ticks d)).

(** [d'] is [d] after pushes [new] and the counts [n] besides theirs. *)
Record pushed (new : list (Subscription * SendResult)) (n : Counter -> Z) (d d' : D) : Prop := {
  pushed_attempts : attempts d' = attempts d ++ new;
  pushed_metrics : counted (fun c => tally new c + n c) (metrics d) (metrics d');
  pushed_ticks : (ticks d <= ticks d')%nat;
  pushed_cooldown : clocked d -> later (last (cooldown d)) (last (cooldown d'));
  pushed_backoff : clocked d -> later (last (backoff d)) (last (backoff d'));
  pushed_windows : window (cooldown d') = window (cooldown d) /\ window (backoff d') = window (backoff d);
  pushed_queue : jobs d' = jobs d /\ capacity d' = capacity d;
  pushed_clocked : clocked d -> clocked d'
}.

Lemma pushed_refl d : pushed [] (fun _ => 0) d d.
Proof.
  split; try done; auto using later_refl; [by rewrite app_nil_r|apply counted_refl].
Qed.

Lemma pushed_trans new1 new2 n1 n2 d1 d2 d3 :
  pushed new1 n1 d1 d2 -> pushed new2 n2 d2 d3 -> pushed (new1 ++ new2) (fun c => n1 c + n2 c) d1 d3.
Proof.
  intros [A1 M1 T1 C1 B1 [Wc1 Wb1] [Q1 P1] K1] [A2 M2 T2 C2 B2 [Wc2 Wb2] [Q2 P2] K2].
  split; eauto 6 using later_trans; [by rewrite A2, A1, app_assoc| |lia|split; congruence..].
  eapply counted_ext, counted_trans, M2; [|exact M1]. intros c. rewrite tally_app. simpl. lia.
Qed.

Lemma pushed_ext new n n' d d' : (forall c, n c = n' c) -> pushed new n d d' -> pushed new n' d d'.
Proof. intros E []. split; try done. eapply counted_ext; [|done]. intros c. simpl. by rewrite E. Qed.

Lemma pushed_tick d : pushed [] (fun _ => 0) d (set_ticks (S (ticks d)) d).
Proof.
  destruct (pushed_refl d). split; try done; simpl; [lia|].
  intros [H1 H2]. split; intros k t Hk; simpl in *; [specialize (H1 _ _ Hk)|specialize (H2 _ _ Hk)];
    pose proof (Hclock (ticks d) (S (ticks d)) ltac:(lia)); lia.
Qed.

Lemma pushed_bump c d :
  pushed [] (fun c' => if decide (c' = c) then 1 else 0) d (set_metrics (bump c (metrics d)) d).
Proof. destruct (pushed_refl d). split; try done. apply counted_bump. Qed.

Lemma pushed_store w d : pushed [] (fun _ => 0) d (set_store w d).
Proof. by destruct (pushed_refl d). Qed.

Lemma later_mark (c : CooldownCache) k t :
  (forall k t', last c !! k = Some t' -> t' <= t) -> later (last c) (last (Mark t k c)).
Proof.
  intros H k' t' Hk. simpl. destruct (decide (k = k')) as [->|].
  - exists t. rewrite lookup_insert_eq. eauto.
  - exists t'. rewrite lookup_insert_ne by done. split; [done|lia].
Qed.

Lemma pushed_attempt s r d :
  pushed [(s, r)] (fun _ => 0) d
    (set_metrics (bump (classify r) (metrics d)) (set_attempts (attempts d ++ [(s, r)]) d)).
Proof.
  destruct (pushed_refl d). split; try done. eapply counted_ext, counted_bump.
  intros c. rewrite tally_one. simpl. lia.
Qed.

(** Reading the clock and marking an endpoint, or a key. *)
Lemma pushed_mark_backoff e d :
  pushed [] (fun _ => 0) d
    (set_backoff (Mark (clock (ticks d)) e (backoff d)) (set_ticks (S (ticks d)) d)).
Proof.
  destruct (pushed_tick d) as [A M T C B Wd Q K]. split; try done.
  - intros [_ H]. by apply later_mark, H.
  - intros Hd. pose proof (K Hd) as [K1 K2]. split; [done|]. simpl. intros k t.
    intros [[_ <-]|[_ Hk]]%lookup_insert_Some; [apply Hclock; lia|]. by apply (K2 k).
Qed.

Lemma pushed_mark_cooldown e d :
  pushed [] (fun _ => 0) d
    (set_cooldown (Mark (clock (ticks d)) e (cooldown d)) (set_ticks (S (ticks d)) d)).
Proof.
  destruct (pushed_tick d) as [A M T C B Wd Q K]. split; try done.
  - intros [H _]. by apply later_mark, H.
  - intros Hd. pose proof (K Hd) as [K1 K2]. split; [|done]. simpl. intros k t.
    intros [[_ <-]|[_ Hk]]%lookup_insert_Some; [apply Hclock; lia|]. by apply (K1 k).
Qed.

(** ** One push *)

(** The subscriptions an answer takes away stay away. *)
Definition pruned (e : string) (d : D) : Prop :=
  forall u l, store_subs u (store d) = Ok l -> e ∉ (ps_endpoint <$> l).

Lemma push_spec payload sub d d' r :
  push clock send payload sub d = (d', r) ->
  match r with
  | None => d' = d
  | Some ok => exists s, let a := (mkSubscription (ps_endpoint sub) (ps_p256dh sub) (ps_auth sub), s) in
      pushed [a] (fun _ => 0) d d' /\ ok = is_success s /\
      (is_gone s = true -> is_success s = false /\
         (store d' = store d \/ store_delete (ps_endpoint sub) (store d) = Ok (store d'))) /\
      (is_gone s = false -> store d' = store d) /\
      (forall w, is_gone s = true -> store_delete (ps_endpoint sub) (store d) = Ok w -> store d' = w)
  end.
Proof.
  unfold push, bind, gets, modify, Add_, ret, now.
  destruct (send _ _ _) as [s|]; [|by intros [= <- <-]].
  set (a := (mkSubscription _ _ _, s)).
  pose proof (pushed_attempt (mkSubscription (ps_endpoint sub) (ps_p256dh sub) (ps_auth sub)) s d) as Ha.
  set (d1 := set_metrics _ (set_attempts _ d)) in Ha.
  change (attempts (set_attempts (attempts d ++ [a]) d)) with (attempts d ++ [a]) in *.
  assert (forall n d2, pushed [] n d1 d2 -> pushed [a] (fun c => 0 + n c) d d2) as Hthen.
  { intros n d2 H2. rewrite <- (app_nil_r [a]). by eapply pushed_trans. }
  assert (is_gone s = true -> is_success s = false) as Hexcl.
  { unfold is_success, is_gone. destruct (Z.eqb_spec (Status s) 404) as [->|]; [done|].
    destruct (Z.eqb_spec (Status s) 410) as [->|]; done. }
  destruct (is_success s) eqn:Hok.
  { intros [= <- <-]. exists s. split_and!; try done; intros; exfalso; naive_solver. }
  destruct (is_gone s) eqn:Hgone.
  { intros H. assert (pushed [a] (fun _ => 0) d d' /\ r = Some false /\
      (store d' = store d \/ store_delete (ps_endpoint sub) (store d) = Ok (store d')) /\
      forall w, store_delete (ps_endpoint sub) (store d) = Ok w -> store d' = w) as (H1 & -> & H2 & H3).
    { destruct (store_delete (ps_endpoint sub) (store d)) as [w|e] eqn:Hdel; injection H as <- <-;
        cbn [store set_metrics set_attempts]; rewrite Hdel; cbn [store set_store];
        (split_and!; [|done|(by left) || (by right)|(by intros ? [= ->]) || (by intros ? [=])]); [|exact Ha].
      eapply pushed_ext; [|apply Hthen, pushed_store]. done. }
    exists s. split_and!; [exact H1|congruence|intros _; split; [exact Hok|exact H2]|congruence|intros w _; apply H3]. }
  destruct (Status s =? 429); intros [= <- <-]; exists s; (split_and!; [|congruence..|done|congruence]).
  - eapply pushed_ext; [|apply Hthen, (pushed_mark_backoff (ps_endpoint sub) d1)]. done.
  - exact Ha.
Qed.

(** ** The loops *)

(** The store only loses subscriptions. *)
Definition shrinks (w w' : W) : Prop :=
  forall u l', store_subs u w' = Ok l' -> exists l, store_subs u w = Ok l /\ l' ⊆ l.

Lemma shrinks_refl w : shrinks w w.
Proof. intros u l ?. by exists l. Qed.

Lemma shrinks_trans w1 w2 w3 : shrinks w1 w2 -> shrinks w2 w3 -> shrinks w1 w3.
Proof.
  intros H1 H2 u l (l2 & (l1 & ? & ?)%H1 & ?)%H2. exists l1. split; [done|]. by etrans.
Qed.

Lemma shrinks_pruned e d d' : shrinks (store d) (store d') -> pruned e d -> pruned e d'.
Proof.
  intros Hs Hp u l (l0 & H0 & Hl)%Hs (s & -> & Hin)%list_elem_of_fmap.
  apply (Hp u l0 H0). apply list_elem_of_fmap. exists s. auto.
Qed.

Lemma push_shrinks payload sub d d' ok :
  push clock send payload sub d = (d', ok) -> shrinks (store d) (store d').
Proof.
  intros H%push_spec. destruct ok as [ok|]; [|subst; apply shrinks_refl].
  destruct H as (s & _ & _ & Hg & Hng & _). destruct (is_gone s) eqn:E.
  - destruct (Hg eq_refl) as [_ [->|Hd]]; [apply shrinks_refl|].
    intros u l'. by apply (store_delete_mono _ _ _ _ _ Hd).
  - rewrite Hng by done. apply shrinks_refl.
Qed.

(** The pushes of a loop over [subs]. *)
Record sent (subs : list PushSubscription) (new : list (Subscription * SendResult)) (d d' : D) : Prop := {
  sent_pushed : pushed new (fun _ => 0) d d';
  sent_to a : a ∈ new -> Endpoint a.1 ∈ (ps_endpoint <$> subs);
  sent_shrinks : shrinks (store d) (store d');
  sent_prunes a : (forall e w, exists w', store_delete e w = Ok w') -> a ∈ new -> is_gone a.2 = true ->
    pruned (Endpoint a.1) d'
}.

Lemma sent_none subs d d' : pushed [] (fun _ => 0) d d' -> store d' = store d -> sent subs [] d d'.
Proof.
  intros H E. split; [done|by intros a ?%not_elem_of_nil|rewrite E; apply shrinks_refl|
    by intros a _ ?%not_elem_of_nil].
Qed.

Lemma sent_app subs1 subs2 new1 new2 d1 d2 d3 :
  sent subs1 new1 d1 d2 -> sent subs2 new2 d2 d3 -> sent (subs1 ++ subs2) (new1 ++ new2) d1 d3.
Proof.
  intros [P1 T1 S1 R1] [P2 T2 S2 R2]. split.
  - by apply (pushed_ext _ (fun c => 0 + 0)), (pushed_trans _ _ (fun _ => 0) (fun _ => 0) d1 d2 d3).
  - intros a. rewrite elem_of_app, fmap_app, elem_of_app. intros [?|?]; auto.
  - by eapply shrinks_trans.
  - intros a Ht [Ha|Ha]%elem_of_app Hg; [|by apply R2]. eapply shrinks_pruned; [done|]. by apply R1.
Qed.

Lemma push_sent payload sub d d' ok :
  push clock send payload sub d = (d', Some ok) ->
  exists a, sent [sub] [a] d d' /\ ok = is_success a.2 /\ Endpoint a.1 = ps_endpoint sub.
Proof.
  intros H. pose proof (push_shrinks _ _ _ _ _ H) as Hs. apply push_spec in H as (s & Hp & Hok & _ & _ & Hw).
  exists (mkSubscription (ps_endpoint sub) (ps_p256dh sub) (ps_auth sub), s). split; [|by split]. split; [done| |done|].
  - intros a ->%list_elem_of_singleton. by left.
  - intros a Htotal ->%list_elem_of_singleton Hg. simpl in *.
    destruct (Htotal (ps_endpoint sub) (store d)) as [w Hdel].
    intros u l Hu. eapply store_delete_gone; [exact Hdel|]. by rewrite <- (Hw w Hg Hdel).
Qed.

Definition succeeded (new : list (Subscription * SendResult)) : bool := existsb (fun a => is_success a.2) new.

Lemma push_all_spec payload subs acc d d' r :
  push_all clock send payload subs acc d = (d', r) ->
  exists new, sent subs new d d' /\
    match r with
    | Some ok => ok = acc || succeeded new /\ length new = length subs
    | None => True
    end.
Proof.
  revert acc d. induction subs as [|sub subs IH]; intros acc d; simpl.
  { intros [= <- <-]. exists []. split; [apply sent_none; [apply pushed_refl|done]|]. simpl. by rewrite orb_false_r. }
  unfold bind. destruct (push clock send payload sub d) as [d1 [ok|]] eqn:E.
  - intros (new & Hn & Hr)%IH. apply push_sent in E as (a & Ha & -> & _).
    exists ([a] ++ new). split; [by apply (sent_app [sub] subs [a] new d d1 d')|].
    destruct r; [|done]. destruct Hr as [-> Hl]. simpl. rewrite Hl. by rewrite orb_assoc.
  - intros [= <- <-]. exists []. split; [|done].
    apply push_spec in E as ->. apply sent_none; [apply pushed_refl|done].
Qed.

(** An endpoint whose backoff lasts through the loop is not tried. *)
Definition resting (d d' : D) (e : string) : Prop :=
  exists t, last (backoff d) !! e = Some t /\ clock (ticks d') < t + window (backoff d).

Lemma resting_later new n d d1 d' e :
  pushed new n d d1 -> clocked d -> resting d d' e -> resting d1 d' e.
Proof.
  intros P Hd (t & Ht & Hlt). destruct (pushed_backoff _ _ _ _ P Hd _ _ Ht) as (t' & Ht' & ?).
  exists t'. split; [done|]. rewrite (proj2 (pushed_windows _ _ _ _ P)). lia.
Qed.

Lemma push_ready_spec payload subs ok att d d' r :
  window_ok (backoff d) -> clocked d ->
  push_ready clock send payload subs ok att d = (d', r) ->
  exists new, sent subs new d d' /\ (forall a, a ∈ new -> ~ resting d d' (Endpoint a.1)) /\
    match r with
    | Some (ok', att') => ok' = ok || succeeded new /\ att' = att || negb (bool_decide (new = []))
    | None => True
    end.
Proof.
  revert ok att d. induction subs as [|sub subs IH]; intros ok att d Hw Hd; simpl.
  { intros [= <- <-]. exists []. split; [apply sent_none; [apply pushed_refl|done]|].
    split; [by intros a ?%not_elem_of_nil|]. simpl. by rewrite !orb_false_r. }
  unfold bind, now, gets. set (d0 := set_ticks (S (ticks d)) d).
  assert (clocked d0) as Hd0 by (by apply (pushed_clocked _ _ _ _ (pushed_tick d))).
  pose proof (sent_none [sub] d d0 (pushed_tick d) eq_refl) as H0.
  assert (forall d2 e, resting d d2 e -> resting d0 d2 e) as Hrest0
    by (intros d2 e Hre; exact (resting_later [] (fun _ => 0) d d0 d2 e (pushed_tick d) Hd Hre)).
  destruct (Suppressed (clock (ticks d)) (ps_endpoint sub) (backoff d0)) eqn:Hsup.
  - intros (new & Hn & Hrest & Hr)%IH; [|done..]. exists new. split.
    { by apply (sent_app [sub] subs [] new d d0 d'). }
    split; [|done]. intros a Ha Hre. by apply (Hrest a Ha), Hrest0.
  - destruct (push clock send payload sub d0) as [d1 [b|]] eqn:E; cbn [fst snd].
    + intros H. apply push_sent in E as (a & Ha & -> & Hae). pose proof (sent_pushed _ _ _ _ Ha) as Pa.
      apply IH in H as (new & Hn & Hrest & Hr);
        [|unfold window_ok; by rewrite (proj2 (pushed_windows _ _ _ _ Pa))|by apply (pushed_clocked _ _ _ _ Pa)].
      exists (a :: new). split; [|split].
      * apply (sent_app [sub] subs [a] new d d1 d'); [|done].
        apply (sent_app [] [sub] [] [a] d d0 d1); [|done]. apply sent_none; [apply pushed_tick|done].
      * intros x [->|Hx]%elem_of_cons (t & Ht & Hlt).
        { rewrite Hae in Ht. enough (Suppressed (clock (ticks d)) (ps_endpoint sub) (backoff d0) = true) by congruence.
          apply Suppressed_spec; [done|]. exists t. split; [done|].
          pose proof (pushed_ticks _ _ _ _ Pa). pose proof (pushed_ticks _ _ _ _ (sent_pushed _ _ _ _ Hn)).
          pose proof (Hclock (ticks d) (ticks d')). simpl in *. change (backoff d0) with (backoff d). lia. }
        apply (Hrest x Hx). apply (resting_later _ _ _ _ _ _ Pa Hd0). apply Hrest0. by exists t.
      * destruct r as [[ok' att']|]; [|done]. destruct Hr as [-> ->]. simpl. rewrite orb_assoc, orb_true_r. done.
    + intros [= <- <-]. exists []. apply push_spec in E as ->. split; [|split; [by intros a ?%not_elem_of_nil|done]].
      apply sent_none; [apply pushed_tick|done].
Qed.

(** ** One recipient *)

(** The counter a reason adds besides those of the pushes. *)
Definition gate_counter (r : dropReason) : option Counter :=
  match r with
  | dropDelivered => Some EventsSent
  | dropMuted => Some EventsMuted
  | dropDisabled | dropNoSubs => Some EventsDisabled
  | dropCooldown => Some EventsCooldown
  | dropEndpointBackoff | dropStoreError | dropSendFailed => None
  end.

Definition gate_count (r : option dropReason) (c : Counter) : Z :=
  if decide (r ≫= gate_counter = Some c) then 1 else 0.

(** What a reason says about the pushes made. *)
Definition reason_agrees (r : dropReason) (new : list (Subscription * SendResult)) : Prop :=
  match r with
  | dropDelivered => succeeded new = true
  | dropSendFailed => new <> [] /\ succeeded new = false
  | _ => new = []
  end.

Definition cooling (d d' : D) (key : string) : Prop :=
  exists t, last (cooldown d) !! key = Some t /\ clock (ticks d') < t + window (cooldown d).

Definition user_key (user identity : string) : string := (user +:+ ":" +:+ identity)%string.

(** The effect of one recipient's dispatch. *)
Record dispatched (user identity : string) (bypass : bool) (r : option dropReason)
    (new : list (Subscription * SendResult)) (d d' : D) : Prop := {
  dispatched_pushed : pushed new (gate_count r) d d';
  dispatched_to a : a ∈ new -> exists l, store_subs user (store d) = Ok l /\
    Endpoint a.1 ∈ (ps_endpoint <$> l);
  dispatched_shrinks : shrinks (store d) (store d');
  dispatched_prunes a : (forall e w, exists w', store_delete e w = Ok w') -> a ∈ new -> is_gone a.2 = true ->
    pruned (Endpoint a.1) d';
  dispatched_resting a : a ∈ new -> ~ resting d d' (Endpoint a.1);
  dispatched_reason r' : r = Some r' -> reason_agrees r' new;
  dispatched_cooling : bypass = false -> cooling d d' (user_key user identity) -> new = [];
  dispatched_marks : bypass = false -> r = Some dropDelivered ->
    exists t, last (cooldown d') !! user_key user identity = Some t /\ clock (ticks d) <= t
}.

(** A gate that stops the dispatch before any push. *)
Lemma gate_dispatched user identity bypass r d d' :
  r <> dropDelivered -> r <> dropSendFailed ->
  pushed [] (gate_count (Some r)) d d' -> store d' = store d ->
  dispatched user identity bypass (Some r) [] d d'.
Proof.
  intros H1 H2 P E. split; try done; [by intros a ?%not_elem_of_nil|rewrite E; apply shrinks_refl|
    by intros a _ ?%not_elem_of_nil|by intros a ?%not_elem_of_nil|by intros r' [= <-]; destruct r|].
  intros _ [= ->]. done.
Qed.

Lemma gate_count_None r c : gate_counter r = None -> gate_count (Some r) c = 0.
Proof. intros H. unfold gate_count. simpl. by rewrite H. Qed.

Lemma pushed_gate r c d :
  gate_counter r = Some c -> pushed [] (gate_count (Some r)) d (set_metrics (bump c (metrics d)) d).
Proof.
  intros H. eapply pushed_ext, pushed_bump. intros c'. unfold gate_count. simpl. rewrite H.
  repeat case_decide; congruence.
Qed.

(** The loop, the marks and the final counter of a dispatch that passed its gates. *)
Lemma dispatch_tail user identity (bypass : bool) r payload subs d d' :
  window_ok (backoff d) -> clocked d ->
  store_subs user (store d) = Ok subs ->
  (bypass = false -> forall d', (ticks d <= ticks d')%nat -> ~ cooling d d' (user_key user identity)) ->
  (let (d1, o) := push_ready clock send payload subs false false d in
   match o with
   | Some (anySuccess, attempted) =>
       if anySuccess : bool then
         let d2 := if bypass then d1
                   else set_cooldown (Mark (clock (ticks d1)) (user_key user identity) (cooldown d1))
                          (set_ticks (S (ticks d1)) d1) in
         (set_metrics (bump EventsSent (metrics d2)) d2, Some dropDelivered)
       else (d1, Some (if attempted : bool then dropSendFailed else dropEndpointBackoff))
   | None => (d1, None)
   end) = (d', r) ->
  exists new, dispatched user identity bypass r new d d'.
Proof.
  intros Hw Hd Hsubs Hcool.
  destruct (push_ready clock send payload subs false false d) as [d1 o] eqn:E.
  apply push_ready_spec in E as (new & Hn & Hrest & Hr); [|done..].
  pose proof (sent_pushed _ _ _ _ Hn) as Pn.
  (* every continuation keeps the store and only adds marks and counts *)
  assert (forall r d2 , pushed [] (gate_count r) d1 d2 -> store d2 = store d1 ->
    (forall r', r = Some r' -> reason_agrees r' new) ->
    (bypass = false -> r = Some dropDelivered ->
     exists t, last (cooldown d2) !! user_key user identity = Some t /\ clock (ticks d) <= t) ->
    dispatched user identity bypass r new d d2) as Hfin.
  { intros r0 d2 P2 E2 Hra Hm. pose proof (pushed_ticks _ _ _ _ Pn). pose proof (pushed_ticks _ _ _ _ P2). split.
    - rewrite <- (app_nil_r new). eapply pushed_ext, pushed_trans; [|exact Pn|exact P2]. done.
    - intros a Ha. exists subs. split; [done|]. by apply (sent_to _ _ _ _ Hn).
    - rewrite E2. apply (sent_shrinks _ _ _ _ Hn).
    - intros a Ht Ha Hg. pose proof (sent_prunes _ _ _ _ Hn a Ht Ha Hg) as Hp.
      intros u l. rewrite E2. apply Hp.
    - intros a Ha (t & Ht & Hlt). apply (Hrest a Ha). exists t. split; [done|].
      pose proof (Hclock (ticks d1) (ticks d2)). lia.
    - done.
    - intros Hb Hc. exfalso. apply (Hcool Hb d2); [lia|done].
    - done. }
  destruct o as [[anySuccess attempted]|].
  - simpl in Hr. destruct Hr as [-> ->]. destruct (succeeded new) eqn:Hs.
    + intros [= <- <-]. exists new. apply Hfin.
      * set (d2 := if bypass then _ else _).
        assert (pushed [] (fun _ => 0) d1 d2) as P2
          by (subst d2; destruct bypass; [apply pushed_refl|apply pushed_mark_cooldown]).
        eapply pushed_ext, (pushed_trans [] []); [|exact P2|apply (pushed_gate dropDelivered EventsSent); done].
        done.
      * by destruct bypass.
      * by intros r' [= <-].
      * intros -> _. simpl. rewrite lookup_insert_eq. eexists. split; [done|].
        pose proof (pushed_ticks _ _ _ _ Pn). pose proof (Hclock (ticks d) (ticks d1)). lia.
    + intros [= <- <-]. exists new. apply Hfin; [|done| |by destruct (bool_decide _)].
      * eapply pushed_ext, pushed_refl. intros c. by destruct (bool_decide _).
      * intros r' [= <-]. case_bool_decide; simpl; [done|by split].
  - intros [= <- <-]. exists new. apply Hfin; [|done..]. eapply pushed_ext, pushed_refl. done.
Qed.

Lemma dispatchToUser_spec user ev identity payload bypass d d' r :
  window_ok (cooldown d) -> window_ok (backoff d) -> clocked d ->
  dispatchToUser clock send user ev identity payload bypass d = (d', r) ->
  exists new, dispatched user identity bypass r new d d'.
Proof.
  intros Hwc Hwb Hd. unfold dispatchToUser, bind, gets, ret, Add_, modify, now.
  assert (pushed [] (gate_count (Some dropStoreError)) d d) as P0
    by (eapply pushed_ext, pushed_refl; done).
  destruct (match store_get_kv _ _ with Ok (Some v) => _ | _ => _ end).
  { intros [= <- <-]. exists []. apply gate_dispatched; [done..|by apply pushed_gate|done]. }
  destruct (store_enabled _ _ _ _) as [[|]|e].
  2:{ intros [= <- <-]. exists []. apply gate_dispatched; [done..|by apply pushed_gate|done]. }
  2:{ intros [= <- <-]. exists []. by apply gate_dispatched. }
  cbv zeta. fold (user_key user identity). set (d0 := set_ticks (S (ticks d)) d).
  assert (forall r d2, r <> dropDelivered -> r <> dropSendFailed -> pushed [] (gate_count (Some r)) d0 d2 ->
    store d2 = store d0 -> dispatched user identity bypass (Some r) [] d d2) as Hgate.
  { intros r0 d2 ? ? P2 E2. apply gate_dispatched; try done.
    eapply pushed_ext, (pushed_trans [] []); [|apply pushed_tick|exact P2]. done. }
  destruct (negb bypass && Suppressed (clock (ticks d)) (user_key user identity) (cooldown d0)) eqn:Hsup.
  { intros [= <- <-]. exists []. apply Hgate; [done..|exact (pushed_gate dropCooldown EventsCooldown d0 eq_refl)|done]. }
  destruct (store_subs user (store d0)) as [subs|e] eqn:Hsubs.
  2:{ intros [= <- <-]. exists []. apply Hgate; try done. eapply pushed_ext, pushed_refl. done. }
  destruct subs as [|s subs].
  { intros [= <- <-]. exists []. apply Hgate; [done..|exact (pushed_gate dropNoSubs EventsDisabled d0 eq_refl)|done]. }
  intros H. destruct (dispatch_tail user identity bypass r payload (s :: subs) d0 d') as (new & Hn); try done.
  - by apply (pushed_clocked _ _ _ _ (pushed_tick d)).
  - intros -> d2 Ht2 (t & Ht & Hlt). cbn [negb andb] in Hsup.
    enough (Suppressed (clock (ticks d)) (user_key user identity) (cooldown d0) = true) as Hs
      by (rewrite Hs in Hsup; discriminate).
    apply Suppressed_spec; [done|]. exists t. split; [done|].
    pose proof (Hclock (ticks d) (ticks d2)). simpl in *. change (cooldown d0) with (cooldown d) in *. lia.
  - rewrite <- H. destruct (push_ready _ _ _ _ _ _ _) as [d1 [[[|] att]|]];
      [destruct bypass; reflexivity|destruct att; reflexivity|reflexivity].
  - exists new. destruct Hn as [P T S R Re Ra Co Ma].
    split; [|exact T|exact S|exact R| |exact Ra| |].
    + eapply pushed_ext, (pushed_trans [] new); [|apply pushed_tick|exact P]. done.
    + intros a Ha (t & Ht & Hlt). apply (Re a Ha). by exists t.
    + intros Hb (t & Ht & Hlt). apply (Co Hb). by exists t.
    + intros Hb Hr. destruct (Ma Hb Hr) as (t & ? & ?). exists t. split; [done|].
      pose proof (Hclock (ticks d) (ticks d0)). simpl in *. lia.
Qed.

(** No dispatch writes the log line of its job. *)
Lemma push_log payload sub d d' r : push clock send payload sub d = (d', r) -> log d' = log d.
Proof.
  unfold push, bind, gets, modify, Add_, ret, now. destruct (send _ _ _) as [s|]; [|by intros [= <- _]].
  destruct (is_success s); [by intros [= <- _]|].
  destruct (is_gone s); [intros [= <- _]; by destruct (store_delete _ _)|].
  destruct (Status s =? 429); by intros [= <- _].
Qed.

Lemma push_all_log payload subs acc d d' r :
  push_all clock send payload subs acc d = (d', r) -> log d' = log d.
Proof.
  revert acc d. induction subs as [|sub subs IH]; intros acc d; simpl; [by intros [= <- _]|].
  unfold bind. destruct (push clock send payload sub d) as [d1 [ok|]] eqn:E; apply push_log in E.
  - intros ->%IH. done.
  - by intros [= <- _].
Qed.

Lemma push_ready_log payload subs ok att d d' r :
  push_ready clock send payload subs ok att d = (d', r) -> log d' = log d.
Proof.
  revert ok att d. induction subs as [|sub subs IH]; intros ok att d; simpl; [by intros [= <- _]|].
  unfold bind, now, gets. destruct (Suppressed _ _ _); [by intros ->%IH|].
  destruct (push _ _ _ _ _) as [d1 [b|]] eqn:E; apply push_log in E.
  - intros ->%IH. done.
  - by intros [= <- _].
Qed.

Lemma dispatchToUser_log user ev identity payload bypass d d' r :
  dispatchToUser clock send user ev identity payload bypass d = (d', r) -> log d' = log d.
Proof.
  unfold dispatchToUser, bind, gets, ret, Add_, modify, now.
  destruct (match store_get_kv _ _ with Ok (Some v) => _ | _ => _ end); [by intros [= <- _]|].
  destruct (store_enabled _ _ _ _) as [[|]|e]; [|by intros [= <- _]..].
  destruct (_ && _); [by intros [= <- _]|].
  destruct (store_subs _ _) as [[|s subs]|e]; [by intros [= <- _]| |by intros [= <- _]].
  destruct (push_ready _ _ _ _ _ _ _) as [d1 [[ok att]|]] eqn:E; apply push_ready_log in E.
  - destruct ok; [destruct bypass|destruct att]; by intros [= <- _].
  - by intros [= <- _].
Qed.

(** ** One job *)

Definition sum (l : list Z) : Z := foldr Z.add 0 l.

(** How many recipients an outcome accounts for. *)
Definition outcome_total (o : dispatchOutcome) : Z := delivered o + sum (drops o <$> dropReasonOrder).

Lemma record_total r o : outcome_total (record r o) = outcome_total o + 1.
Proof.
  unfold outcome_total, record, sum, dropReasonOrder. case_decide; simpl; [lia|].
  destruct r; simpl; (done || lia).
Qed.

Definition outcome_ok (o : dispatchOutcome) : Prop := forall r, 0 <= drops o r.

Lemma record_ok r o : outcome_ok o -> outcome_ok (record r o).
Proof. intros H r'. specialize (H r'). unfold record. repeat case_decide; simpl; try case_decide; lia. Qed.

(** The attributes of the line add up to the recipients. *)
Lemma attrs_total o : outcome_ok o -> sum (attrs o).*2 = outcome_total o.
Proof.
  intros Ho. unfold attrs, outcome_total. rewrite fmap_cons. cbn [sum foldr snd]. f_equal.
  induction dropReasonOrder as [|r l IH]; [done|]. specialize (Ho r).
  rewrite !fmap_cons. cbn [omap list_omap]. unfold sum in *. cbn [foldr]. rewrite <- IH.
  destruct (0 <? drops o r) eqn:E; bool_to_prop; simpl; [done|lia].
Qed.

Definition same_caches (d d' : D) : Prop :=
  cooldown d' = cooldown d /\ backoff d' = backoff d /\ store d' = store d /\ ticks d' = ticks d /\
  attempts d' = attempts d /\ jobs d' = jobs d /\ capacity d' = capacity d.

Lemma pushed_same_caches n d d' : same_caches d d' -> counted n (metrics d) (metrics d') -> pushed [] n d d'.
Proof.
  intros (Ec & Eb & Es & Et & Ea & Ej & Ep) H. split; unfold clocked; rewrite ?Ec, ?Eb, ?Et, ?Ea, ?Ej, ?Ep; try done;
    auto using later_refl. by rewrite app_nil_r.
Qed.

Lemma dispatch_users_spec users job payload o d d' r :
  window_ok (cooldown d) -> window_ok (backoff d) -> clocked d ->
  dispatch_users clock send users job payload o d = (d', r) ->
  exists new n, pushed new n d d' /\ log d' = log d /\
    match r with
    | Some o' => (outcome_ok o -> outcome_ok o') /\
        outcome_total o' = outcome_total o + Z.of_nat (length users)
    | None => True
    end.
Proof.
  revert o d. induction users as [|u users IH]; intros o d Hwc Hwb Hd; simpl.
  { intros [= <- <-]. exists [], (fun _ => 0). split_and!; [apply pushed_refl|done|done|lia]. }
  unfold bind. destruct (dispatchToUser _ _ _ _ _ _ _ d) as [d1 [reason|]] eqn:E.
  - pose proof (dispatchToUser_log _ _ _ _ _ _ _ _ E) as Hlog.
    apply dispatchToUser_spec in E as (new1 & Hdis); [|done..]. pose proof (dispatched_pushed _ _ _ _ _ _ _ Hdis) as P1.
    destruct (pushed_windows _ _ _ _ P1) as [Ewc Ewb].
    intros (new & n & P & Hl & Hr)%IH;
      [|by unfold window_ok; rewrite Ewc|by unfold window_ok; rewrite Ewb|by apply (pushed_clocked _ _ _ _ P1)].
    exists (new1 ++ new), (fun c => gate_count (Some reason) c + n c).
    split_and!; [by eapply pushed_trans|congruence|].
    destruct r as [o'|]; [|done]. destruct Hr as [Hok ->].
    split; [intros; by apply Hok, record_ok|]. rewrite record_total. lia.
  - intros [= <- <-]. pose proof (dispatchToUser_log _ _ _ _ _ _ _ _ E) as Hlog.
    apply dispatchToUser_spec in E as (new1 & Hdis); [|done..].
    exists new1, (gate_count None). split_and!; [apply (dispatched_pushed _ _ _ _ _ _ _ Hdis)|done|done].
Qed.
End delivery.
