(* ===== verification/NotifyTheorems.v ===== *)
(** What the notification dispatcher guarantees: the outcome of one recipient,
    the cooldown across jobs, the bounded queue and the outcome line. *)

From S2P Require Import Prelude Float64 CameraEvent NotifyStore NotifyDispatch NotifyDelivery.

Section jobs.
Context {W : Type} `{!Store W} `{!StoreLaws W}.
Context (clock : nat -> Z) (send : nat -> Subscription -> string -> option SendResult).
Context (payload_of : notificationJob -> string).
Context (Hclock : forall i j, (i <= j)%nat -> clock i <= clock j).

Abbreviation D := (NotificationDispatcher (W := W)).

(** A dispatcher as [New] builds it and its operations keep it. *)
Definition sound (d : D) : Prop :=
  window_ok (cooldown d) /\ window_ok (backoff d) /\ clocked clock d.

Lemma pushed_sound new n d d' : pushed clock new n d d' -> sound d -> sound d'.
Proof.
  intros P (Hwc & Hwb & Hd). destruct (pushed_windows _ _ _ _ _ P) as [Ec Eb].
  unfold sound, window_ok. rewrite Ec, Eb. split_and!; try apply Hwc; try apply Hwb.
  by apply (pushed_clocked _ _ _ _ _ P).
Qed.

Lemma dispatchTestToUser_spec user payload d d' r :
  sound d -> dispatchTestToUser clock send user payload d = (d', r) ->
  exists new n, pushed clock new n d d' /\ log d' = log d /\
    (forall r', r = Some r' -> reason_agrees r' new).
Proof.
  intros Hs. unfold dispatchTestToUser, bind, gets, ret, Add_, modify.
  destruct (store_subs _ _) as [[|s subs]|e].
  - intros [= <- <-]. exists []. eexists. split; [by apply pushed_bump|]. split; [done|]. by intros r' [= <-].
  - destruct (push_all _ _ _ _ _ d) as [d1 [ok|]] eqn:E.
    + pose proof (push_all_log _ _ _ _ _ _ _ _ E) as Hl.
      apply push_all_spec in E as (new & Hn & -> & Hlen); [|done].
      pose proof (sent_pushed _ _ _ _ _ Hn) as P. simpl. destruct (succeeded new) eqn:Hsuc; intros [= <- <-].
      * exists new. eexists. split; [|split; [done|by intros r' [= <-]]].
        rewrite <- (app_nil_r new). eapply pushed_trans; [exact P|by apply pushed_bump].
      * exists new. eexists. split; [exact P|]. split; [done|]. intros r' [= <-]. simpl.
        split; [by intros ->|done].
    + intros [= <- <-]. pose proof (push_all_log _ _ _ _ _ _ _ _ E) as Hl.
      apply push_all_spec in E as (new & Hn & _); [|done].
      exists new. eexists. split; [apply (sent_pushed _ _ _ _ _ Hn)|]. by split.
  - intros [= <- <-]. exists []. eexists. split; [by apply pushed_refl|]. split; [done|]. by intros r' [= <-].
Qed.

Definition job_users (job : notificationJob) (d : D) : option (list string) :=
  if String.eqb (targetUser job) "" then
    match store_usernames (store d) with Ok us => Some us | Err _ => None end
  else Some [targetUser job].

(** The fan-out and the line of a job whose recipients are known. *)
Definition fan_out (job : notificationJob) (users : list string) : M (W := W) dispatchOutcome :=
  if test job then
    bind (dispatchTestToUser clock send (targetUser job) (payload_of job)) (fun r => ret (record r no_outcome))
  else dispatch_users clock send users job (payload_of job) no_outcome.

Definition recovered (r : D * option unit) : D :=
  match r with
  | (d, Some _) => d
  | (d, None) => set_metrics (bump PushSendError (metrics d)) d
  end.

Lemma handleJob_unfold job d :
  handleJob clock send payload_of job d =
  match job_users job d with
  | None => d
  | Some users => recovered (bind (fan_out job users)
      (fun o => modify (fun d => set_log (log d ++ [(dispatchLevel o d, attrs o)]) d)) d)
  end.
Proof.
  unfold handleJob, handleJob_body, job_users, fan_out, bind, gets, ret.
  destruct (String.eqb (targetUser job) ""); [|done].
  destruct (store_usernames (store d)) as [users|e]; [|done]. done.
Qed.

Lemma fan_out_spec job users d d' r :
  sound d -> fan_out job users d = (d', r) ->
  exists new n, pushed clock new n d d' /\ log d' = log d /\
    (forall o, r = Some o -> outcome_ok o /\
       outcome_total o = if test job then 1 else Z.of_nat (length users)).
Proof.
  intros Hs. pose proof Hs as (Hwc & Hwb & Hd). unfold fan_out. destruct (test job).
  - unfold bind. destruct (dispatchTestToUser _ _ _ _ d) as [d1 [reason|]] eqn:E;
      apply dispatchTestToUser_spec in E as (new & n & P & Hl & _); try done; intros [= <- <-];
      exists new, n; (split; [done|]; split; [done|]); [|done].
    intros o [= <-]. split; [by apply record_ok|]. by rewrite record_total.
  - intros (new & n & P & Hl & Hr)%dispatch_users_spec; [|done..].
    exists new, n. split; [done|]. split; [done|]. intros o ->. destruct Hr as [Hok ->].
    split; [by apply Hok|]. done.
Qed.

(** A job adds at most one line to the log, and a line accounts for every recipient. *)
Lemma handleJob_spec job d :
  sound d ->
  exists new n, pushed clock new n d (handleJob clock send payload_of job d) /\
    (log (handleJob clock send payload_of job d) = log d \/
     exists line, log (handleJob clock send payload_of job d) = log d ++ [line] /\
       sum line.2.*2 = (if test job then 1 else Z.of_nat (length (default [] (job_users job d))))).
Proof.
  intros Hs. rewrite handleJob_unfold. destruct (job_users job d) as [users|]; simpl.
  2:{ exists [], (fun _ => 0). split; [apply pushed_refl|by left]. }
  unfold bind. destruct (fan_out job users d) as [d1 r] eqn:E.
  apply fan_out_spec in E as (new & n & P & Hl & Hr); [|done].
  destruct r as [o|]; simpl.
  - destruct (Hr o eq_refl) as [Hok Htot]. exists new. eexists. split.
    { rewrite <- (app_nil_r new). eapply pushed_trans; [exact P|].
      apply (pushed_same_caches _ (fun _ => 0)); [by split_and!|apply counted_refl]. }
    right. eexists (_, attrs o). split; [simpl; by rewrite Hl|]. cbn [snd default]. rewrite attrs_total by done. exact Htot.
  - exists new. eexists. split; [|by left].
    rewrite <- (app_nil_r new). eapply pushed_trans; [exact P|]. apply pushed_bump.
Qed.

(** ** Operations in sequence *)

Inductive op := op_enqueue (job : notificationJob) | op_worker | op_sweep.

(** What the operations accepted and handled, in order, besides the state. *)
Record trace := mkTrace { accepted : list notificationJob; handled : list notificationJob }.

Definition step (o : op) (p : D * trace) : D * trace :=
  let '(d, tr) := p in
  match o with
  | op_enqueue job =>
      let '(d', ok) := enqueue job d in
      (d', if ok : bool then mkTrace (accepted tr ++ [job]) (handled tr) else tr)
  | op_worker =>
      (worker_step clock send payload_of d,
       match jobs d with [] => tr | job :: _ => mkTrace (accepted tr) (handled tr ++ [job]) end)
  | op_sweep => (sweep_step clock d, tr)
  end.

Definition run (ops : list op) (p : D * trace) : D * trace := fold_left (fun p o => step o p) ops p.

(** The part of a dispatcher's state a later dispatch depends on only moves forward. *)
Record advances (d d' : D) : Prop := {
  advances_sound : sound d -> sound d';
  advances_ticks : (ticks d <= ticks d')%nat;
  advances_cooling d2 key : sound d -> (ticks d' <= ticks d2)%nat ->
    cooling clock d d2 key -> cooling clock d' d2 key;
  advances_capacity : capacity d' = capacity d
}.

Lemma advances_refl d : advances d d.
Proof. by split. Qed.

Lemma advances_trans d1 d2 d3 : advances d1 d2 -> advances d2 d3 -> advances d1 d3.
Proof.
  intros [S1 T1 C1 P1] [S2 T2 C2 P2]. split; [auto|lia| |congruence].
  intros d key Hs Ht Hc. apply C2; [auto|done|]. apply C1; [done|lia|done].
Qed.

Lemma pushed_advances new n d d' : pushed clock new n d d' -> advances d d'.
Proof.
  intros P. split.
  - by eapply pushed_sound.
  - apply (pushed_ticks _ _ _ _ _ P).
  - intros d2 key (_ & _ & Hd) _ (t & Ht & Hlt).
    destruct (pushed_cooldown _ _ _ _ _ P Hd _ _ Ht) as (t' & Ht' & ?).
    exists t'. split; [done|]. rewrite (proj1 (pushed_windows _ _ _ _ _ P)). lia.
  - apply (pushed_queue _ _ _ _ _ P).
Qed.

Lemma same_caches_advances d d' :
  cooldown d' = cooldown d -> backoff d' = backoff d -> ticks d' = ticks d -> capacity d' = capacity d ->
  advances d d'.
Proof.
  intros Ec Eb Et Ep. split; unfold sound, clocked, cooling; rewrite ?Ec, ?Eb, ?Et; done.
Qed.

Lemma handleJob_advances job d : sound d -> advances d (handleJob clock send payload_of job d).
Proof. intros (new & n & P & _)%(handleJob_spec job). by eapply pushed_advances. Qed.

Lemma worker_advances d : sound d -> advances d (worker_step clock send payload_of d).
Proof.
  intros Hs. unfold worker_step. destruct (jobs d) as [|job rest]; [apply advances_refl|].
  set (d1 := set_metrics _ (set_jobs rest d)).
  assert (advances d d1) as A1 by (by apply same_caches_advances).
  eapply advances_trans; [exact A1|]. apply handleJob_advances. by apply A1.
Qed.

Lemma sweep_advances d : sound d -> advances d (sweep_step clock d).
Proof.
  intros Hs. unfold sweep_step. cbv zeta.
  set (d1 := set_ticks _ (set_backoff _ _)).
  enough (advances d d1) as A.
  { destruct (store_count (store d1)); [|done].
    eapply advances_trans; [exact A|by apply same_caches_advances]. }
  assert ((ticks d <= ticks d1)%nat) as Ht by (simpl; lia).
  destruct Hs as (Hwc & Hwb & Hd1 & Hd2). split; [| done| |done].
  - intros _. split_and!; [exact Hwc|exact Hwb|]. pose proof (Hclock _ _ Ht).
    split; simpl; intros k t [Hk _]%map_lookup_filter_Some; [specialize (Hd1 _ _ Hk)|specialize (Hd2 _ _ Hk)];
      simpl in *; lia.
  - intros d2 key _ Ht2 (t & Hk & Hlt). exists t. split; [|exact Hlt].
    apply map_lookup_filter_Some. split; [exact Hk|]. simpl.
    unfold window_ok in Hwc. unfold Before, Add.
    rewrite i64_small by (unfold min_int64, max_int64; lia). apply Z.ltb_ge.
    pose proof (Hclock (ticks d) (ticks d2) ltac:(lia)). lia.
Qed.

Lemma enqueue_advances job d : advances d (enqueue job d).1.
Proof. unfold enqueue. case_decide; by apply same_caches_advances. Qed.

Lemma step_advances o p : sound p.1 -> advances p.1 (step o p).1.
Proof.
  destruct p as [d tr]. destruct o; simpl; intros Hs.
  - pose proof (enqueue_advances job d). by destruct (enqueue job d).
  - by apply worker_advances.
  - by apply sweep_advances.
Qed.

Lemma run_advances ops p : sound p.1 -> advances p.1 (run ops p).1.
Proof.
  revert p. induction ops as [|o ops IH]; intros p Hs; [apply advances_refl|].
  pose proof (step_advances o p Hs) as A. eapply advances_trans; [exact A|]. apply IH. by apply A.
Qed.

Lemma handleJob_queue job d :
  sound d -> jobs (handleJob clock send payload_of job d) = jobs d /\
  capacity (handleJob clock send payload_of job d) = capacity d.
Proof. intros (new & n & P & _)%(handleJob_spec job). apply (pushed_queue _ _ _ _ _ P). Qed.

(** The queue is a bounded FIFO. *)
Definition queue_ok (p : D * trace) : Prop :=
  accepted p.2 = handled p.2 ++ jobs p.1 /\ (length (jobs p.1) <= capacity p.1)%nat.

Lemma step_queue o p : sound p.1 -> queue_ok p -> queue_ok (step o p).
Proof.
  destruct p as [d tr]. intros Hs [Hq Hl]. unfold queue_ok in *. simpl in *. destruct o; simpl.
  - unfold enqueue. case_decide; simpl; [|done]. simpl in *. rewrite Hq, app_assoc, length_app. simpl. split; [done|lia].
  - unfold worker_step. destruct (jobs d) as [|job rest] eqn:Ej; [by rewrite Ej|].
    set (d1 := set_metrics _ (set_jobs rest d)).
    destruct (handleJob_queue job d1) as [-> ->].
    { by apply (same_caches_advances d d1). }
    simpl in *. rewrite Hq, <- app_assoc. split; [done|lia].
  - unfold sweep_step. cbv zeta. by destruct (store_count _).
Qed.

Lemma run_queue ops p : sound p.1 -> queue_ok p -> queue_ok (run ops p).
Proof.
  revert p. induction ops as [|o ops IH]; intros p Hs Hq; [done|].
  apply IH; [by apply (step_advances o p Hs)|by apply step_queue].
Qed.

Lemma New_sound w win cap : 0 <= win < 2 ^ 62 -> sound (New w win cap).
Proof.
  intros Hw. unfold New. split_and!; simpl.
  - unfold window_ok. simpl. destruct (win =? 0) eqn:E; bool_to_prop; unfold Minute, Second; lia.
  - unfold window_ok. simpl. unfold Second. lia.
  - split; simpl; intros k t; by rewrite lookup_empty.
Qed.

(** C19: One recipient's dispatch does what its reason says.  Its pushes go only to
    subscriptions listed for the user and never to an endpoint still backing off;
    it reports delivered exactly when a push got a 2xx, failed when pushes were
    made and none did, and any other reason only when no push was made; each
    answer and each reason is counted once; an endpoint answered 404 or 410 is
    unlisted afterwards (its removal from the table is taken to succeed); a key still cooling down stops every push, and a delivery
    that honours the cooldown marks its key. *)
Theorem dispatchToUser_contract user ev identity payload bypass d d' r :
  sound d ->
  dispatchToUser clock send user ev identity payload bypass d = (d', r) ->
  exists new, dispatched clock user identity bypass r new d d'.
Proof. intros (? & ? & ?). by apply dispatchToUser_spec. Qed.

(** The cooldown holds across everything that happens in between: once a key is
    marked, whatever jobs are queued, handled and swept, a later dispatch of that
    user and identity that ends within the window pushes nothing and does not
    report a delivery. *)
Theorem cooldown_across_jobs user ev identity payload d tr ops d1 tr1 d2 r t :
  sound d -> last (cooldown d) !! user_key user identity = Some t ->
  run ops (d, tr) = (d1, tr1) ->
  dispatchToUser clock send user ev identity payload false d1 = (d2, r) ->
  clock (ticks d2) < t + window (cooldown d) ->
  attempts d2 = attempts d1 /\ r <> Some dropDelivered.
Proof.
  intros Hs Ht Hrun Hdis Hlt. pose proof (run_advances ops (d, tr) Hs) as A. rewrite Hrun in A. simpl in A.
  destruct (advances_sound _ _ A Hs) as (Hwc & Hwb & Hd).
  apply dispatchToUser_spec in Hdis as (new & Hdis); [|done..].
  pose proof (dispatched_pushed _ _ _ _ _ _ _ _ Hdis) as P.
  assert (new = []) as ->.
  { apply (dispatched_cooling _ _ _ _ _ _ _ _ Hdis); [done|].
    apply (advances_cooling _ _ A); [done|apply (pushed_ticks _ _ _ _ _ P)|]. by exists t. }
  split; [by rewrite (pushed_attempts _ _ _ _ _ P), app_nil_r|].
  intros ->. by pose proof (dispatched_reason _ _ _ _ _ _ _ _ Hdis _ eq_refl).
Qed.

(** The queue is a bounded first-in first-out buffer that loses and repeats
    nothing it accepted: over any sequence of enqueues, worker turns and sweeps on
    a new dispatcher, the accepted jobs are the handled ones followed by those
    still queued, never more than the capacity, and a job is refused exactly when
    the queue is full. *)
Theorem queue_is_bounded_fifo w win cap ops d tr :
  0 <= win < 2 ^ 62 ->
  run ops (New w win cap, mkTrace [] []) = (d, tr) ->
  accepted tr = handled tr ++ jobs d /\
  (length (jobs d) <= capacity d)%nat /\ capacity d = capacity (New w win cap) /\
  forall job, (enqueue job d).2 = false <-> length (jobs d) = capacity d.
Proof.
  intros Hw Hrun. pose proof (New_sound w win cap Hw) as Hs.
  destruct (run_queue ops (New w win cap, mkTrace [] []) Hs) as [Hq Hl]; [split; [done|simpl; lia]|].
  pose proof (run_advances ops (New w win cap, mkTrace [] []) Hs) as A. rewrite Hrun in *. simpl in *.
  split_and!; [done|done|apply (advances_capacity _ _ A)|].
  intros job. unfold enqueue. case_decide; simpl in *; split; try done; lia.
Qed.

(** A job's log line accounts for every recipient: handling a job adds at most
    one line, and the numbers of its outcome attributes (reasons that did not occur
    are omitted) add up to the recipients of the job. *)
Theorem outcome_line_accounts job d :
  sound d ->
  log (handleJob clock send payload_of job d) = log d \/
  exists line, log (handleJob clock send payload_of job d) = log d ++ [line] /\
    sum line.2.*2 = (if test job then 1 else Z.of_nat (length (default [] (job_users job d)))).
Proof. by intros (_ & _ & _ & ?)%(handleJob_spec job). Qed.
End jobs.

(** ** A concrete dispatcher *)

Definition sample_subs : NotifyDB :=
  mkNotifyDB [mkPushSubscription 1 "ann" "https://push.example/a" "k" "a" "";
              mkPushSubscription 2 "ann" "https://push.example/b" "k" "a" "";
              mkPushSubscription 3 "bob" "https://push.example/c" "k" "a" ""] 4 ∅ ∅.

Definition sample_clock (n : nat) : Z := Z.of_nat n * Second.

(** The first endpoint accepts, every other one is gone. *)
Definition sample_send (n : nat) (s : Subscription) (payload : string) : option SendResult :=
  Some (mkSendResult (if String.eqb (Endpoint s) "https://push.example/a" then 201 else 410) None false "").

Definition sample_event : Event :=
  mkEvent "e1" "porch" "person" (f64_of_Z 1) 0 (0, 0, 0, 0) 0 0 "" false "" false "" "" ""
    EventKindObject 0 "" CategoryAlert.

Definition sample_job : notificationJob := mkJob sample_event None false false "".
Definition sample_payload (_ : notificationJob) : string := "{}".

#[local] Existing Instance db_store.
Definition no_failure (_ : string) : bool := false.
#[local] Instance sample_store : Store NotifyDB := db_store no_failure.
#[local] Instance sample_laws : StoreLaws NotifyDB := db_store_laws no_failure.

Definition sample_dispatcher : NotificationDispatcher := New sample_subs 0 2.

Lemma sample_clock_mono i j : (i <= j)%nat -> sample_clock i <= sample_clock j.
Proof. unfold sample_clock, Second. lia. Qed.

Lemma sample_sound : sound sample_clock sample_dispatcher.
Proof. apply New_sound. lia. Qed.

Lemma dispatchToUser_contract_witness : exists d' new,
  dispatchToUser sample_clock sample_send "ann" sample_event "porch:person" "{}" false sample_dispatcher =
    (d', Some dropDelivered) /\ attempts d' = new /\ length new = 2%nat /\
  dispatched sample_clock "ann" "porch:person" false (Some dropDelivered) new sample_dispatcher d'.
Proof.
  destruct (dispatchToUser sample_clock sample_send "ann" sample_event "porch:person" "{}" false sample_dispatcher)
    as [d' r] eqn:E.
  assert (r = Some dropDelivered) as -> by (revert E; vm_compute; intros [= _ <-]; reflexivity).
  destruct (dispatchToUser_contract sample_clock sample_send sample_clock_mono "ann" sample_event "porch:person"
    "{}" false sample_dispatcher d' (Some dropDelivered) sample_sound E) as [new Hn].
  exists d', new. pose proof (pushed_attempts _ _ _ _ _ (dispatched_pushed _ _ _ _ _ _ _ _ Hn)) as Ha.
  split; [reflexivity|]. split; [exact Ha|]. split; [|exact Hn].
  simpl in Ha. rewrite <- Ha. revert E. vm_compute. intros [= <-]. reflexivity.
Defined.

Definition marked_dispatcher : NotificationDispatcher :=
  (dispatchToUser sample_clock sample_send "ann" sample_event "porch:person" "{}" false sample_dispatcher).1.

Lemma marked_sound : sound sample_clock marked_dispatcher.
Proof.
  unfold marked_dispatcher.
  destruct (dispatchToUser_spec sample_clock sample_send sample_clock_mono "ann" sample_event "porch:person"
    "{}" false sample_dispatcher _ _ (proj1 sample_sound) (proj1 (proj2 sample_sound)) (proj2 (proj2 sample_sound))
    (surjective_pairing _)) as [new Hn].
  eapply pushed_sound; [apply (dispatched_pushed _ _ _ _ _ _ _ _ Hn)|apply sample_sound].
Qed.

Definition sample_ops : list op := [op_enqueue sample_job; op_sweep; op_worker].

Definition later_dispatcher : NotificationDispatcher :=
  (run sample_clock sample_send sample_payload sample_ops (marked_dispatcher, mkTrace [] [])).1.

Definition second_dispatch : NotificationDispatcher * option dropReason :=
  dispatchToUser sample_clock sample_send "ann" sample_event "porch:person" "{}" false later_dispatcher.

Lemma cooldown_across_jobs_witness : second_dispatch.2 <> Some dropDelivered.
Proof.
  apply (cooldown_across_jobs sample_clock sample_send sample_payload sample_clock_mono "ann" sample_event
    "porch:person" "{}" marked_dispatcher (mkTrace [] []) sample_ops
    later_dispatcher
    (run sample_clock sample_send sample_payload sample_ops (marked_dispatcher, mkTrace [] [])).2
    second_dispatch.1 second_dispatch.2 (3 * Second) marked_sound); [vm_compute; reflexivity|exact (surjective_pairing _)|
      exact (surjective_pairing _)|vm_compute; reflexivity].
Defined.

Definition burst : list op := [op_enqueue sample_job; op_enqueue sample_job; op_enqueue sample_job; op_worker].

Lemma queue_is_bounded_fifo_witness :
  let p := run sample_clock sample_send sample_payload burst (sample_dispatcher, mkTrace [] []) in
  accepted p.2 = handled p.2 ++ jobs p.1 /\ length (accepted p.2) = 2%nat.
Proof.
  split; [|vm_compute; reflexivity].
  apply (queue_is_bounded_fifo sample_clock sample_send sample_payload sample_clock_mono sample_subs 0 2 burst _ _
    ltac:(lia) (surjective_pairing _)).
Defined.

Lemma outcome_line_accounts_witness :
  log (handleJob sample_clock sample_send sample_payload sample_job sample_dispatcher) = [] \/
  exists line, log (handleJob sample_clock sample_send sample_payload sample_job sample_dispatcher) = [line] /\
    sum line.2.*2 = 2.
Proof.
  exact (outcome_line_accounts sample_clock sample_send sample_payload sample_clock_mono sample_job
    sample_dispatcher sample_sound).
Defined.

(** ** The subscription table *)

(** Registering a push subscription is a safe upsert: an endpoint another user
    registered is refused and nothing changes; otherwise the call succeeds, the
    endpoint is listed for the user with the new keys under a stable id, the table
    stays well formed, every other user's subscriptions are untouched, and a row is
    added exactly when the endpoint was new. *)
Theorem SavePushSubscription_upsert u e p a ua db :
  notify_wf db ->
  match SavePushSubscription u e p a ua db with
  | Err err => err = ErrSubscriptionOwnedByOther /\
      exists s, s ∈ subs db /\ ps_endpoint s = e /\ ps_username s <> u
  | Ok (id, db') =>
      notify_wf db' /\
      mkPushSubscription id u e p a ua ∈ ListPushSubscriptionsByUser u db' /\
      (forall v, v <> u -> ListPushSubscriptionsByUser v db' = ListPushSubscriptionsByUser v db) /\
      CountPushSubscriptions db' = CountPushSubscriptions db +
        match FindPushSubscriptionByEndpoint e db with Some _ => 0 | None => 1 end /\
      (forall s, FindPushSubscriptionByEndpoint e db = Some s -> ps_id s = id)
  end.
Proof.
  intros W. destruct (SavePushSubscription u e p a ua db) as [[id db']|err] eqn:E.
  - split; [by eapply SavePushSubscription_wf|]. revert E.
    unfold SavePushSubscription, ListPushSubscriptionsByUser, CountPushSubscriptions, FindPushSubscriptionByEndpoint.
    destruct (List.find _ _) as [s|] eqn:Hf.
    + destruct (String.eqb (ps_username s) u) eqn:Hu; [|done]. intros [= <- <-]. bool_to_prop.
      apply find_endpoint_Some in Hf as [Hs He]. simpl. rewrite length_fmap. split_and!; [| |lia|by intros ? [= ->]].
      * apply list_elem_of_filter. split; [done|]. apply list_elem_of_fmap. exists s. split; [|done].
        rewrite He, String.eqb_refl. by subst u.
      * intros v Hv. apply (refresh_other u e); [done|].
        intros t Ht Hte. rewrite <- Hu. f_equal. apply (endpoint_inj db); congruence.
    + intros [= <- <-]. simpl. split_and!; [| | |done].
      * apply list_elem_of_filter. split; [done|]. apply elem_of_app. right. by left.
      * intros v Hv. rewrite filter_app, filter_cons_False, filter_nil, app_nil_r; [done|simpl; congruence].
      * rewrite length_app. simpl. lia.
  - revert E. unfold SavePushSubscription. destruct (List.find _ _) as [s|] eqn:Hf; [|done].
    destruct (String.eqb (ps_username s) u) eqn:Hu; [done|]. intros [= <-]. bool_to_prop.
    apply find_endpoint_Some in Hf as [Hs He]. split; [done|]. by exists s.
Qed.

Lemma sample_subs_wf : notify_wf sample_subs.
Proof.
  split; simpl; [apply (bool_decide_eq_true_1 _); vm_compute; reflexivity| |repeat constructor; simpl; lia|intros *; by rewrite lookup_empty].
  repeat constructor.
Qed.

Lemma SavePushSubscription_upsert_witness : exists id db',
  SavePushSubscription "bob" "https://push.example/c" "new" "a" "" sample_subs = Ok (id, db') /\
  id = 3 /\ notify_wf db'.
Proof.
  pose proof (SavePushSubscription_upsert "bob" "https://push.example/c" "new" "a" "" sample_subs sample_subs_wf) as H.
  destruct (SavePushSubscription "bob" "https://push.example/c" "new" "a" "" sample_subs) as [[id db']|err] eqn:E;
    [|vm_compute in E; discriminate].
  exists id, db'. split; [reflexivity|]. split; [|apply H].
  revert E. vm_compute. intros [= <- _]. reflexivity.
Defined.
