(* ===== verification/NotifyFanout.v ===== *)
(** The fan-out over independent notification providers ([notify/fanout.go] and the
    delivery status of [notify/delivery.go]).

    A provider is a record of the methods of Go's [Provider] interface over the
    providers' joint state [S]; the optional interfaces a provider may also
    implement are options. *)

From S2P Require Import Prelude Float64 CameraEvent.

(** ** Providers *)

Record Provider (S : Type) := mkProvider {
  p_enqueue : Event -> S -> S;
  p_doorbell : Event -> S -> S * bool;
  p_activity : string -> Event -> S -> S * bool;
  p_cry : option (Event -> S -> S * bool);
  p_cry_early : option (Event -> S -> S * option (Event -> S -> S * bool));
  p_doorbell_early : option (Event -> S -> S * option (Event -> S -> S * bool));
  p_cry_status : option (string -> S -> string)
}.
Arguments mkProvider {S}.
Arguments p_enqueue {S}.
Arguments p_doorbell {S}.
Arguments p_activity {S}.
Arguments p_cry {S}.
Arguments p_cry_early {S}.
Arguments p_doorbell_early {S}.
Arguments p_cry_status {S}.

(** [pending]: which providers have accepted a key that not all have accepted. *)
Abbreviation Pending := (gmap string (list bool)).

Section fanout.
Context {S : Type} (providers : list (Provider S)).

Definition fanout_Enqueue (ev : Event) (s : S) : S := fold_left (fun s p => p_enqueue p ev s) providers s.

(** The loop shared by [EnqueueActivity] and [EnqueueCry]: providers that have not
    accepted are asked again; the answer is the new flags and their conjunction. *)
Fixpoint offer (ask : Provider S -> S -> S * bool) (ps : list (Provider S)) (accepted : list bool) (s : S)
    : S * list bool * bool :=
  match ps, accepted with
  | p :: ps, a :: accepted =>
      let '(s, a) := if a : bool then (s, true) else ask p s in
      let '(s, accepted, complete) := offer ask ps accepted s in
      (s, a :: accepted, a && complete)
  | _, _ => (s, [], true)
  end.

Definition settle (key : string) (ask : Provider S -> S -> S * bool) (pending : Pending) (s : S)
    : S * Pending * bool :=
  let accepted := default (replicate (length providers) false) (pending !! key) in
  let '(s, accepted, complete) := offer ask providers accepted s in
  (s, if complete : bool then delete key pending else <[key := accepted]> pending, complete).

Definition fanout_EnqueueActivity (id : string) (primary : Event) : Pending -> S -> S * Pending * bool :=
  settle id (fun p => p_activity p id primary).

Definition fanout_EnqueueCry (ev : Event) : Pending -> S -> S * Pending * bool :=
  settle ("cry:" +:+ ID ev)%string
    (fun p s => match p_cry p with Some enqueue => enqueue ev s | None => (s, true) end).

Definition fanout_ReleaseCry (id : string) (pending : Pending) : Pending := delete ("cry:" +:+ id)%string pending.

Definition fanout_EnqueueDoorbell (ev : Event) (s : S) : S * bool :=
  fold_left (fun '(s, accepted) p =>
    let '(s, ok) := p_doorbell p ev s in (s, ok || accepted)) providers (s, false).

(** The head start of inline-photo providers.  The answer is the closure the caller
    invokes once the event is saved, here the enqueuers it captured. *)
Definition Enqueuer := Event -> S -> S * bool.

Definition fanout_EnqueueCryEarly (ev : Event) (s : S) : S * option (list (option Enqueuer)) :=
  let '(s, remaining) := fold_left (fun '(s, remaining) p =>
    match p_cry_early p, p_cry p with
    | Some early, _ =>
        let '(s, after) := early ev s in
        (s, match after with Some after => remaining ++ [Some after] | None => remaining end)
    | None, Some immediate => (s, remaining ++ [Some immediate])
    | None, None => (s, remaining)
    end) providers (s, []) in
  (s, match remaining with [] => None | _ => Some remaining end).

(** One call of the cry closure: an enqueuer that accepted is forgotten. *)
Fixpoint resume_cry (saved : Event) (remaining : list (option Enqueuer)) (s : S)
    : S * list (option Enqueuer) * bool :=
  match remaining with
  | [] => (s, [], true)
  | None :: remaining =>
      let '(s, remaining, complete) := resume_cry saved remaining s in (s, None :: remaining, complete)
  | Some enqueue :: remaining =>
      let '(s, ok) := enqueue saved s in
      let '(s, remaining, complete) := resume_cry saved remaining s in
      (s, (if ok : bool then None else Some enqueue) :: remaining, ok && complete)
  end.

Definition fanout_EnqueueDoorbellEarly (ev : Event) (s : S) : S * option (list Enqueuer) :=
  let '(s, remaining) := fold_left (fun '(s, remaining) p =>
    match p_doorbell_early p with
    | Some early =>
        let '(s, after) := early ev s in
        (s, match after with Some after => remaining ++ [after] | None => remaining end)
    | None => (s, remaining ++ [p_doorbell p])
    end) providers (s, []) in
  (s, match remaining with [] => None | _ => Some remaining end).

Definition resume_doorbell (saved : Event) (remaining : list Enqueuer) (s : S) : S * bool :=
  fold_left (fun '(s, accepted) enqueue =>
    let '(s, ok) := enqueue saved s in (s, ok || accepted)) remaining (s, false).

(** The first provider that reports delivery speaks for the fan-out. *)
Definition fanout_CryDeliveryStatus (camera : string) (s : S) : string :=
  match omap p_cry_status providers with
  | status :: _ => status camera s
  | [] => "disabled"
  end.
End fanout.

(** ** The delivery status of a provider *)

Record DeliveryStatus := mkDeliveryStatus { State : string; LastAccepted : Z; LastFailure : Z; Queued : Z }.

Definition CryDeliveryStatus (accepts : bool) (delivery : DeliveryStatus) (queued : Z) : DeliveryStatus :=
  if negb accepts then mkDeliveryStatus "excluded" 0 0 0
  else
    let state := if negb (IsZero (LastAccepted delivery)) then "accepted"%string else "unverified"%string in
    let state := if After (LastFailure delivery) (LastAccepted delivery) then "failed"%string else state in
    mkDeliveryStatus state (LastAccepted delivery) (LastFailure delivery) queued.

Definition recordDelivery (now : Z) (accepted : bool) (delivery : DeliveryStatus) : DeliveryStatus :=
  if accepted then mkDeliveryStatus (State delivery) now (LastFailure delivery) (Queued delivery)
  else mkDeliveryStatus (State delivery) (LastAccepted delivery) now (Queued delivery).

(** ** Every provider accepts a completed activity exactly once *)

Section once.
(** Providers that answer as they please, and a log of every offer: provider,
    activity and answer. *)
Context (answer : nat -> nat -> string -> bool).

Abbreviation Log := (list (nat * string * bool)).

Definition logging_provider (i : nat) : Provider Log :=
  mkProvider (fun _ s => s) (fun _ s => (s, true))
    (fun id _ s => let a := answer i (length s) id in (s ++ [(i, id, a)], a))
    None None None None.

Definition logging_providers (n : nat) : list (Provider Log) := logging_provider <$> seq 0 n.

(** A sequence of calls; the second component counts, per activity, the calls that
    answered true. *)
Record Calls := mkCalls { calls_log : Log; calls_pending : Pending; calls_done : list string }.

Definition call (n : nat) (ev : Event) (c : Calls) (id : string) : Calls :=
  let '(s, pending, complete) :=
    fanout_EnqueueActivity (logging_providers n) id ev (calls_pending c) (calls_log c) in
  mkCalls s pending (if complete : bool then id :: calls_done c else calls_done c).

Definition call_all (n : nat) (ev : Event) (ids : list string) : Calls :=
  fold_left (call n ev) ids (mkCalls [] ∅ []).

Definition accepts (i : nat) (id : string) (l : Log) : nat :=
  length (filter (fun e => e = (i, id, true)) l).

Definition completions (id : string) (c : Calls) : nat := length (filter (fun x => x = id) (calls_done c)).

(** Whether provider [i] has accepted a still incomplete activity. *)
Definition accepted_bit (c : Calls) (id : string) (i : nat) : nat :=
  match calls_pending c !! id with
  | Some l => match l !! i with Some true => 1 | _ => 0 end
  | None => 0
  end.

Definition flag (l : list bool) (i : nat) : nat := match l !! i with Some true => 1 | _ => 0 end.

Lemma accepts_app i id l1 l2 : accepts i id (l1 ++ l2) = (accepts i id l1 + accepts i id l2)%nat.
Proof. unfold accepts. by rewrite filter_app, length_app. Qed.

(** One pass over providers [k], [k+1], ...: each flag that rises is one accepted
    offer, and nothing else is accepted. *)
Lemma offer_spec ev id k n acc s s' acc' complete :
  length acc = n ->
  offer (fun p => p_activity p id ev) (logging_provider <$> seq k n) acc s = (s', acc', complete) ->
  length acc' = n /\
  (complete = true <-> forall i, (i < n)%nat -> flag acc' i = 1%nat) /\
  exists new, s' = s ++ new /\
    (forall i, (i < n)%nat -> (accepts (k + i) id new + flag acc i = flag acc' i)%nat) /\
    (forall j id', (id' <> id \/ (j < k)%nat \/ (k + n <= j)%nat) -> accepts j id' new = 0%nat).
Proof.
  revert k acc s s' acc' complete. induction n as [|n IH]; intros k acc s s' acc' complete Hl; simpl.
  { intros [= <- <- <-]. split; [done|]. split; [split; [intros; lia|done]|].
    exists []. rewrite app_nil_r. split_and!; [done|intros; lia|done]. }
  destruct acc as [|a acc]; [done|]. injection Hl as Hl.
  set (first := if a : bool then (s, true) else _).
  destruct first as [s1 a'] eqn:E1.
  destruct (offer _ _ acc s1) as [[s2 acc2] c2] eqn:E2. intros [= <- <- <-].
  apply IH in E2 as (Hl2 & Hc2 & new2 & -> & Hin & Hout); [|done].
  assert (exists new1, s1 = s ++ new1 /\ (accepts k id new1 + (if a then 1 else 0) = (if a' then 1 else 0))%nat /\
    (forall j id', (id' <> id \/ j <> k) -> accepts j id' new1 = 0%nat)) as (new1 & -> & Hk & Hout1).
  { subst first. destruct a; injection E1 as <- <-; [exists []; by rewrite app_nil_r|].
    eexists. split; [done|]. unfold accepts. simpl.
    destruct (answer k (length s) id); rewrite filter_cons, filter_nil; (split; [by case_decide|]).
    - intros j id' ?. rewrite filter_cons, filter_nil. case_decide; [|done]. simplify_eq. naive_solver.
    - intros j id' ?. rewrite filter_cons, filter_nil. by case_decide. }
  split; [simpl; lia|]. split.
  { rewrite andb_true_iff, Hc2. split.
    - intros [-> H] [|i] Hi; [done|]. apply H. lia.
    - intros H. split; [specialize (H 0%nat ltac:(lia)); unfold flag in H; simpl in H; by destruct a'|].
      intros i Hi. apply (H (S i)). lia. }
  exists (new1 ++ new2). split; [by rewrite app_assoc|]. split.
  - intros [|i] Hi; rewrite accepts_app.
    + rewrite Nat.add_0_r, (Hout k id) by (right; left; lia). unfold flag. simpl.
      destruct a, a'; simpl in *; lia.
    + replace (k + S i)%nat with (S k + i)%nat by lia. rewrite (Hout1 (S k + i)%nat id) by (right; lia).
      specialize (Hin i ltac:(lia)). unfold flag in *. simpl. simpl in Hin. lia.
  - intros j id' Hj. rewrite accepts_app, Hout1, Hout; [done|..]; destruct Hj as [?|[?|?]]; auto; right; lia.
Qed.

Definition tracked (n : nat) (c : Calls) : Prop :=
  (forall id l, calls_pending c !! id = Some l -> length l = n /\ exists i, (i < n)%nat /\ flag l i = 0%nat) /\
  forall i id, (i < n)%nat ->
    accepts i id (calls_log c) = (completions id c + accepted_bit c id i)%nat.

Lemma flag_replicate n i : flag (replicate n false) i = 0%nat.
Proof.
  unfold flag. destruct (replicate n false !! i) as [b|] eqn:E; [|done].
  apply lookup_replicate in E as [-> _]. done.
Qed.

Lemma call_tracked n ev c id : tracked n c -> tracked n (call n ev c id).
Proof.
  intros [Hp Hc]. unfold call, fanout_EnqueueActivity, settle.
  assert (length (logging_providers n) = n) as -> by (unfold logging_providers; by rewrite length_fmap, length_seq).
  set (acc := default (replicate n false) (calls_pending c !! id)).
  assert (length acc = n) as Hl.
  { subst acc. destruct (calls_pending c !! id) as [l|] eqn:E; [by apply Hp in E as []|apply length_replicate]. }
  assert (forall i, flag acc i = accepted_bit c id i) as Hacc.
  { intros i. subst acc. unfold accepted_bit. by destruct (calls_pending c !! id); [|apply flag_replicate]. }
  destruct (offer _ (logging_providers n) acc (calls_log c)) as [[s acc'] complete] eqn:E.
  apply offer_spec in E as (Hl' & Hcomp & new & -> & Hin & Hout); [|done].
  assert (forall i, (i < n)%nat ->
    accepts i id (calls_log c ++ new) = (completions id c + flag acc' i)%nat) as Hid.
  { intros i Hi. rewrite accepts_app, Hc by done. rewrite <- (Hin i Hi), Hacc. simpl. lia. }
  assert (forall i id', (i < n)%nat -> id' <> id ->
    accepts i id' (calls_log c ++ new) = (completions id' c + accepted_bit c id' i)%nat) as Hother.
  { intros i id' Hi Hne. rewrite accepts_app, Hc, Hout by auto. lia. }
  destruct complete; split; cbn [calls_pending calls_done calls_log].
  - intros id' l [? ?]%lookup_delete_Some. eauto.
  - intros i id' Hi. unfold completions, accepted_bit. cbn [calls_pending calls_done]. destruct (decide (id' = id)) as [->|Hne].
    + rewrite filter_cons_True, lookup_delete_eq by done. simpl. rewrite Hid by done.
      rewrite (proj1 Hcomp eq_refl i Hi). unfold completions. lia.
    + rewrite filter_cons_False, lookup_delete_ne by done. by apply Hother.
  - intros id' l [[<- <-]|[_ ?]]%lookup_insert_Some; [|eauto]. split; [done|].
    destruct (decide (Forall (fun i => flag acc' i = 1%nat) (seq 0 n))) as [Hall|Hno].
    + exfalso. assert (false = true) as [=]. apply Hcomp. intros i Hi.
      rewrite Forall_forall in Hall. apply Hall, elem_of_seq. lia.
    + apply not_Forall_Exists, Exists_exists in Hno as (i & Hi%elem_of_seq & Hf); [|apply _].
      exists i. split; [lia|]. unfold flag in *. simpl in Hf. destruct (acc' !! i) as [[|]|]; done.
  - intros i id' Hi. unfold accepted_bit, completions. cbn [calls_pending calls_done]. destruct (decide (id' = id)) as [->|Hne].
    + rewrite lookup_insert_eq. by apply Hid.
    + rewrite lookup_insert_ne by done. by apply Hother.
Qed.

(** C7: Over any sequence of calls, whatever the providers answer, every provider has
    accepted an activity exactly once per completed call, and once more if it has
    accepted the activity's current, still incomplete round: a provider with a
    full queue is asked again, and one that accepted never is. *)
Theorem EnqueueActivity_exactly_once n ev ids i id :
  (i < n)%nat ->
  let c := call_all n ev ids in
  accepts i id (calls_log c) = (completions id c + accepted_bit c id i)%nat.
Proof.
  intros Hi. cbv zeta. enough (tracked n (call_all n ev ids)) as [_ H] by (by apply H).
  unfold call_all. assert (tracked n (mkCalls [] ∅ [])) as H0.
  { split; simpl; [intros *; by rewrite lookup_empty|]. intros. unfold accepted_bit. simpl. by rewrite lookup_empty. }
  revert H0. generalize (mkCalls [] ∅ []). induction ids as [|x ids IH]; intros c Hc; [done|].
  apply IH. by apply call_tracked.
Qed.
End once.

(** The second provider refuses its first offer. *)
Definition sample_answer (i k : nat) (id : string) : bool := negb (Nat.eqb i 1 && Nat.eqb k 1).

Definition sample_primary : Event :=
  mkEvent "e1" "porch" "person" (f64_of_Z 1) 0 (0, 0, 0, 0) 0 0 "" false "" false "" "" ""
    EventKindObject 0 "" CategoryAlert.

Lemma EnqueueActivity_exactly_once_witness :
  let c := call_all sample_answer 2 sample_primary ["act_1"; "act_1"]%string in
  accepts 0 "act_1" (calls_log c) = 1%nat /\ accepts 1 "act_1" (calls_log c) = 1%nat /\
  length (calls_log c) = 3%nat.
Proof.
  split; [|split].
  - rewrite (EnqueueActivity_exactly_once sample_answer 2 sample_primary ["act_1"; "act_1"]%string 0 "act_1" ltac:(lia)).
    vm_compute. reflexivity.
  - rewrite (EnqueueActivity_exactly_once sample_answer 2 sample_primary ["act_1"; "act_1"]%string 1 "act_1" ltac:(lia)).
    vm_compute. reflexivity.
  - vm_compute. reflexivity.
Defined.
