(* ===== verification/Tracker.v ===== *)
(** The object tracker ([detect/tracker.go]): detections of consecutive frames are
    matched to tracks by overlap, tracks are confirmed, coast through missed frames
    and are deleted; with the box geometry it uses ([iou] of [detect/yolo.go],
    [detect/box.go]).

    A Go [int] counter wraps at 64 bits.  [sort.Slice] is not stable, so the order
    in which equally overlapping pairs are tried is a parameter of the model. *)

From S2P Require Import Prelude Float64.

(** ** Geometry *)

(** x1, y1, x2, y2. *)
Record Box := mkBox { bx1 : Z; by1 : Z; bx2 : Z; by2 : Z }.

#[global] Instance Box_eq_dec : EqDecision Box.
Proof. solve_decision. Defined.

Definition iou (a b : Box) : float64 :=
  let x1 := fmax (f64_of_Z (bx1 a)) (f64_of_Z (bx1 b)) in
  let y1 := fmax (f64_of_Z (by1 a)) (f64_of_Z (by1 b)) in
  let x2 := fmin (f64_of_Z (bx2 a)) (f64_of_Z (bx2 b)) in
  let y2 := fmin (f64_of_Z (by2 a)) (f64_of_Z (by2 b)) in
  let intersection := fmul (fmax fzero (fsub x2 x1)) (fmax fzero (fsub y2 y1)) in
  let areaA := fmul (f64_of_Z (i64 (bx2 a - bx1 a))) (f64_of_Z (i64 (by2 a - by1 a))) in
  let areaB := fmul (f64_of_Z (i64 (bx2 b - bx1 b))) (f64_of_Z (i64 (by2 b - by1 b))) in
  let union := fsub (fadd areaA areaB) intersection in
  if feq union fzero then fzero else fdiv intersection union.

Definition centroidDistance (a b : Box) : float64 :=
  let cx1 := fdiv (f64_of_Z (i64 (bx1 a + bx2 a))) (f64_of_Z 2) in
  let cy1 := fdiv (f64_of_Z (i64 (by1 a + by2 a))) (f64_of_Z 2) in
  let cx2 := fdiv (f64_of_Z (i64 (bx1 b + bx2 b))) (f64_of_Z 2) in
  let cy2 := fdiv (f64_of_Z (i64 (by1 b + by2 b))) (f64_of_Z 2) in
  let dx := fsub cx1 cx2 in
  let dy := fsub cy1 cy2 in
  fsqrt (fadd (fmul dx dx) (fmul dy dy)).

(** [clampBoxToRect]: the clamped box, and whether it still covers a pixel.  [r] is
    an [image.Rectangle] as its two corners. *)
Definition clampBoxToRect (b r : Box) : Box * bool :=
  let clamped := mkBox (Z.min (Z.max (bx1 b) (bx1 r)) (bx2 r)) (Z.min (Z.max (by1 b) (by1 r)) (by2 r))
                       (Z.min (Z.max (bx2 b) (bx1 r)) (bx2 r)) (Z.min (Z.max (by2 b) (by1 r)) (by2 r)) in
  (clamped, (bx1 clamped <? bx2 clamped) && (by1 clamped <? by2 clamped)).

(** [image.Rect] swaps corners that are out of order. *)
Definition clampBox (b : Box) (w h : Z) : Box * bool :=
  clampBoxToRect b (mkBox (Z.min 0 w) (Z.min 0 h) (Z.max 0 w) (Z.max 0 h)).

(** ** Tracks *)

Inductive TrackState := TrackTentative | TrackConfirmed | TrackDeleted.

#[global] Instance TrackState_eq_dec : EqDecision TrackState.
Proof. solve_decision. Defined.

Definition TrackState_string (s : TrackState) : string :=
  match s with
  | TrackTentative => "tentative" | TrackConfirmed => "confirmed" | TrackDeleted => "deleted"
  end%string.

Record Detection := mkDetection { d_Label : string; d_Score : float64; d_Box : Box }.

Record TrackedObject := mkTrackedObject {
  to_TrackID : Z;
  to_Label : string;
  to_Score : float64;
  to_Box : Box;
  to_State : string;
  to_FramesSeen : Z;
  to_Moved : bool;
  to_Detected : bool
}.

Record track := mkTrack {
  id : Z;
  label : string;
  box : Box;
  prevBox : Box;
  score : float64;
  age : Z;
  hits : Z;
  disappeared : Z;
  state : TrackState;
  birthBox : Box;
  moved : bool;
  stationaryHits : Z;
  stationaryAnchor : Box;
  hasStationaryAnchor : bool;
  lastWasStationary : bool
}.

Record Tracker := mkTracker {
  maxDisappeared : Z;
  stationaryMaxDisappeared : Z;
  minHits : Z;
  stationaryThreshold : Z;
  stationaryIoU : float64;
  stationaryDriftRatio : float64;
  nextID : Z;
  tracks : list track
}.

Definition defaultStationaryThresholdHits : Z := 10.
Definition defaultStationaryIoU : float64 := f64_lit 5 10.
Definition defaultStationaryDriftRatio : float64 := f64_lit 3 10.
Definition defaultStationaryMaxMultiplier : Z := 50.
Definition defaultMovedRatio : float64 := f64_lit 15 100.

Definition NewTrackerWithStationary (maxDisappeared minHits stationaryMaxDisappeared stationaryThreshold : Z)
    (stationaryIoU stationaryDriftRatio : float64) : Tracker :=
  mkTracker maxDisappeared stationaryMaxDisappeared minHits stationaryThreshold stationaryIoU
    stationaryDriftRatio 1 [].

Definition NewTracker (maxDisappeared minHits : Z) : Tracker :=
  NewTrackerWithStationary maxDisappeared minHits (i64 (maxDisappeared * defaultStationaryMaxMultiplier))
    defaultStationaryThresholdHits defaultStationaryIoU defaultStationaryDriftRatio.

Definition set_tracks (l : list track) (t : Tracker) : Tracker :=
  mkTracker (maxDisappeared t) (stationaryMaxDisappeared t) (minHits t) (stationaryThreshold t)
    (stationaryIoU t) (stationaryDriftRatio t) (nextID t) l.

(** ** One track *)

Definition boxDim (b : Box) : float64 :=
  fmax (f64_of_Z (i64 (bx2 b - bx1 b))) (f64_of_Z (i64 (by2 b - by1 b))).

(** The stationarity bookkeeping of a match: streak length, anchor, and whether
    there is one. *)
Definition stationary_update (t : Tracker) (tr : track) (d : Detection) : Z * Box * bool :=
  if fgt (iou (prevBox tr) (d_Box d)) (stationaryIoU t) then
    let anchor := if hasStationaryAnchor tr then stationaryAnchor tr else prevBox tr in
    let streak := if hasStationaryAnchor tr then stationaryHits tr else 0 in
    let drift := centroidDistance anchor (d_Box d) in
    let dim := boxDim (d_Box d) in
    if fle dim fzero || fgt drift (fmul (stationaryDriftRatio t) dim) then (0, anchor, false)
    else (i64 (streak + 1), anchor, true)
  else (0, stationaryAnchor tr, false).

Definition applyMatch (t : Tracker) (tr : track) (d : Detection) : track :=
  let '(sh, anchor, has) := stationary_update t tr d in
  let dim := boxDim (d_Box d) in
  let moved' := moved tr ||
    (fgt dim fzero && fgt (centroidDistance (birthBox tr) (d_Box d)) (fmul defaultMovedRatio dim)) in
  let hits' := i64 (hits tr + 1) in
  let state' := if bool_decide (state tr = TrackTentative) && (minHits t <=? hits')
                then TrackConfirmed else state tr in
  mkTrack (id tr) (d_Label d) (d_Box d) (d_Box d) (d_Score d) (age tr) hits' 0 state' (birthBox tr) moved'
    sh anchor has (stationaryThreshold t <=? sh).

Definition effectiveMaxDisappeared (t : Tracker) (tr : track) : Z :=
  if lastWasStationary tr then stationaryMaxDisappeared t else maxDisappeared t.

Definition age_track (tr : track) : track :=
  mkTrack (id tr) (label tr) (box tr) (prevBox tr) (score tr) (i64 (age tr + 1)) (hits tr) (disappeared tr)
    (state tr) (birthBox tr) (moved tr) (stationaryHits tr) (stationaryAnchor tr) (hasStationaryAnchor tr)
    (lastWasStationary tr).

(** A frame without a detection for the track. *)
Definition miss (t : Tracker) (tr : track) : track :=
  let disappeared' := i64 (disappeared tr + 1) in
  mkTrack (id tr) (label tr) (box tr) (prevBox tr) (score tr) (age tr) (hits tr) disappeared'
    (if effectiveMaxDisappeared t tr <? disappeared' then TrackDeleted else state tr)
    (birthBox tr) (moved tr) (stationaryHits tr) (stationaryAnchor tr) (hasStationaryAnchor tr)
    (lastWasStationary tr).

(** [newTrack]; the fields Go leaves zero are zero. *)
Definition new_track (t : Tracker) (nid : Z) (d : Detection) : track :=
  mkTrack nid (d_Label d) (d_Box d) (d_Box d) (d_Score d) 1 1 0
    (if minHits t <=? 1 then TrackConfirmed else TrackTentative) (d_Box d) false 0 (mkBox 0 0 0 0) false false.

Definition newTrack (d : Detection) (t : Tracker) : Tracker :=
  mkTracker (maxDisappeared t) (stationaryMaxDisappeared t) (minHits t) (stationaryThreshold t)
    (stationaryIoU t) (stationaryDriftRatio t) (i64 (nextID t + 1)) (tracks t ++ [new_track t (nextID t) d]).

Definition confirmedObjects (t : Tracker) : list TrackedObject :=
  omap (fun tr =>
    if decide (state tr = TrackConfirmed)
    then Some (mkTrackedObject (id tr) (label tr) (score tr) (box tr) (TrackState_string (state tr)) (hits tr)
                 (moved tr) (disappeared tr =? 0))
    else None) (tracks t).

Definition DeletedTracks (t : Tracker) : list TrackedObject :=
  omap (fun tr =>
    if decide (state tr = TrackDeleted)
    then Some (mkTrackedObject (id tr) (label tr) (score tr) (box tr) (TrackState_string TrackDeleted) (hits tr)
                 false false)
    else None) (tracks t).

Definition HasStationaryConfirmed (t : Tracker) : bool :=
  existsb (fun tr => bool_decide (state tr = TrackConfirmed) && lastWasStationary tr) (tracks t).

(** ** A frame *)

Record assignment := mkAssignment { trackIdx : nat; detectionIdx : nat; a_iou : float64 }.

(** The overlapping pairs, tracks outermost. *)
Definition pairs_of (ts : list track) (dets : list Detection) : list assignment :=
  mjoin (imap (fun ti tr => omap (fun x => x)
    (imap (fun di d => let v := iou (box tr) (d_Box d) in
       if fgt v fzero then Some (mkAssignment ti di v) else None) dets)) ts).

Section frame.
(** [sort.Slice] by decreasing overlap. *)
Variable sort_pairs : list assignment -> list assignment.

(** One iteration of the greedy loop. *)
Definition match_step (t : Tracker) (dets : list Detection) (st : gset nat * gset nat * list track)
    (p : assignment) : gset nat * gset nat * list track :=
  let '(matchedTracks, matchedDets, ts) := st in
  if bool_decide (trackIdx p ∈ matchedTracks) || bool_decide (detectionIdx p ∈ matchedDets) then st
  else
    ({[trackIdx p]} ∪ matchedTracks, {[detectionIdx p]} ∪ matchedDets,
     alter (fun tr => match dets !! detectionIdx p with
                      | Some d => applyMatch t tr d
                      | None => tr
                      end) (trackIdx p) ts).

Definition add_unmatched (dets : list Detection) (matchedDets : gset nat) (t : Tracker) : Tracker :=
  fold_left (fun t p => if bool_decide (p.1 ∈ matchedDets) then t else newTrack p.2 t)
    (imap (fun di d => (di, d)) dets) t.

Definition Update (detections : list Detection) (t : Tracker) : Tracker * list TrackedObject :=
  let alive := age_track <$> filter (fun tr => state tr <> TrackDeleted) (tracks t) in
  let t := set_tracks alive t in
  let t :=
    match alive, detections with
    | [], _ => fold_left (fun t d => newTrack d t) detections t
    | _, [] => set_tracks (miss t <$> alive) t
    | _, _ =>
        let pairs := sort_pairs (pairs_of alive detections) in
        let '(matchedTracks, matchedDets, ts) := fold_left (match_step t detections) pairs (∅, ∅, alive) in
        let ts := imap (fun ti tr => if bool_decide (ti ∈ matchedTracks) then tr else miss t tr) ts in
        add_unmatched detections matchedDets (set_tracks ts t)
    end in
  (t, confirmedObjects t).
End frame.
