(* ===== verification/TrackerMatching.v ===== *)
(** The greedy matching of [Tracker.Update] and what a frame does to the tracks. *)

From S2P Require Import Prelude Float64 Tracker.

(** ** The greedy selection *)

(** The pairs the loop accepts, given what is already matched. *)
Fixpoint select (pairs : list assignment) (mt md : gset nat) : list assignment :=
  match pairs with
  | [] => []
  | p :: pairs =>
      if bool_decide (trackIdx p ∈ mt) || bool_decide (detectionIdx p ∈ md) then select pairs mt md
      else p :: select pairs ({[trackIdx p]} ∪ mt) ({[detectionIdx p]} ∪ md)
  end.

Lemma select_sublist pairs mt md : select pairs mt md `sublist_of` pairs.
Proof.
  revert mt md. induction pairs as [|p pairs IH]; intros mt md; simpl; [done|].
  destruct (_ || _); [by apply sublist_cons|by apply sublist_skip].
Qed.

Lemma select_fresh pairs mt md p :
  p ∈ select pairs mt md -> trackIdx p ∉ mt /\ detectionIdx p ∉ md.
Proof.
  revert mt md. induction pairs as [|q pairs IH]; intros mt md; simpl; [by intros ?%not_elem_of_nil|].
  destruct (_ || _) eqn:E; [apply IH|]. bool_to_prop.
  intros [->|[? ?]%IH]%elem_of_cons; [done|set_solver].
Qed.

(** No track and no detection is accepted twice. *)
Lemma select_NoDup pairs mt md :
  NoDup (trackIdx <$> select pairs mt md) /\ NoDup (detectionIdx <$> select pairs mt md).
Proof.
  revert mt md. induction pairs as [|q pairs IH]; intros mt md; simpl; [split; constructor|].
  destruct (_ || _) eqn:E; [apply IH|]. destruct (IH ({[trackIdx q]} ∪ mt) ({[detectionIdx q]} ∪ md)) as [H1 H2].
  rewrite !fmap_cons, !NoDup_cons. split_and!; try done;
    intros (p & Hp & [? ?]%select_fresh)%list_elem_of_fmap; set_solver.
Qed.

(** A pair that was not accepted lost to an earlier one, or was matched before. *)
Lemma select_complete (R : relation assignment) pairs mt md p :
  Sorted.StronglySorted R pairs -> p ∈ pairs ->
  trackIdx p ∈ mt \/ detectionIdx p ∈ md \/ p ∈ select pairs mt md \/
  exists q, q ∈ select pairs mt md /\ R q p /\ (trackIdx q = trackIdx p \/ detectionIdx q = detectionIdx p).
Proof.
  intros Hs. revert mt md. induction Hs as [|q pairs Hs IH Hq]; intros mt md; [by intros ?%not_elem_of_nil|].
  simpl. destruct (_ || _) eqn:E.
  - apply orb_true_iff in E. intros [->|Hp]%elem_of_cons; [|by apply IH].
    destruct E as [E|E]; bool_to_prop; auto.
  - bool_to_prop. intros [->|Hp]%elem_of_cons; [right; right; left; by left|].
    destruct (IH ({[trackIdx q]} ∪ mt) ({[detectionIdx q]} ∪ md) Hp) as [Ht|[Hd|[Hin|(r & Hr & HR & Hor)]]].
    + apply elem_of_union in Ht as [Ht%elem_of_singleton|?]; [|auto].
      right. right. right. exists q. split; [by left|]. rewrite Forall_forall in Hq. auto.
    + apply elem_of_union in Hd as [Hd%elem_of_singleton|?]; [|auto].
      right. right. right. exists q. split; [by left|]. rewrite Forall_forall in Hq. auto.
    + right. right. left. by right.
    + right. right. right. exists r. split; [by right|done].
Qed.

(** ** The loop over the pairs *)

Definition apply_one (t : Tracker) (dets : list Detection) (ts : list track) (p : assignment) : list track :=
  alter (fun tr => match dets !! detectionIdx p with Some d => applyMatch t tr d | None => tr end) (trackIdx p) ts.

Lemma match_fold t dets pairs mt md ts :
  fold_left (match_step t dets) pairs (mt, md, ts) =
  let sel := select pairs mt md in
  (list_to_set (trackIdx <$> sel) ∪ mt, list_to_set (detectionIdx <$> sel) ∪ md,
   fold_left (apply_one t dets) sel ts).
Proof.
  revert mt md ts. induction pairs as [|p pairs IH]; intros mt md ts; simpl; [by rewrite !(left_id_L ∅ (∪))|].
  destruct (_ || _); rewrite IH; [done|]. simpl. f_equal. f_equal; set_solver.
Qed.

Lemma apply_one_length t dets ts p : length (apply_one t dets ts p) = length ts.
Proof. apply length_alter. Qed.

Lemma apply_all_length t dets sel ts : length (fold_left (apply_one t dets) sel ts) = length ts.
Proof.
  revert ts. induction sel as [|p sel IH]; intros ts; simpl; [done|]. by rewrite IH, apply_one_length.
Qed.

(** Each accepted pair applies its detection to its track, once. *)
Lemma apply_all_lookup t dets sel ts i tr :
  NoDup (trackIdx <$> sel) -> ts !! i = Some tr ->
  (forall p, p ∈ sel -> is_Some (dets !! detectionIdx p)) ->
  (exists p d, p ∈ sel /\ trackIdx p = i /\ dets !! detectionIdx p = Some d /\
     fold_left (apply_one t dets) sel ts !! i = Some (applyMatch t tr d)) \/
  (i ∉ (trackIdx <$> sel) /\ fold_left (apply_one t dets) sel ts !! i = Some tr).
Proof.
  revert ts tr. induction sel as [|p sel IH]; intros ts tr Hnd Hi Hd; simpl.
  { right. split; [apply not_elem_of_nil|done]. }
  apply NoDup_cons in Hnd as [Hp Hnd]. destruct (decide (trackIdx p = i)) as [<-|Hne].
  - left. destruct (Hd p) as [d Hpd]; [by left|].
    assert (apply_one t dets ts p !! trackIdx p = Some (applyMatch t tr d)) as H1
      by (unfold apply_one; by rewrite list_lookup_alter_eq, Hi, Hpd).
    exists p, d. split_and!; [by left|done|done|].
    destruct (IH _ _ Hnd H1) as [(q & _ & Hq & Hqi & _)|[_ H2]]; [intros; apply Hd; by right| |done].
    destruct Hp. rewrite <- Hqi. by apply list_elem_of_fmap_2.
  - assert (apply_one t dets ts p !! i = Some tr) as H1 by (unfold apply_one; by rewrite list_lookup_alter_ne).
    destruct (IH _ _ Hnd H1) as [(q & d & Hq & Hqi & Hqd & H2)|[Hi2 H2]]; [intros; apply Hd; by right| |].
    + left. exists q, d. split_and!; [by right|done..].
    + right. split; [|done]. apply not_elem_of_cons. auto.
Qed.

(** ** New tracks *)

Lemma fold_newTrack ds t :
  0 <= nextID t -> nextID t + Z.of_nat (length ds) <= max_int64 ->
  fold_left (fun t d => newTrack d t) ds t =
  mkTracker (maxDisappeared t) (stationaryMaxDisappeared t) (minHits t) (stationaryThreshold t)
    (stationaryIoU t) (stationaryDriftRatio t) (nextID t + Z.of_nat (length ds))
    (tracks t ++ imap (fun k d => new_track t (nextID t + Z.of_nat k) d) ds).
Proof.
  revert t. induction ds as [|d ds IH]; intros t H0 Hn; simpl in *.
  { rewrite Z.add_0_r, app_nil_r. by destruct t. }
  assert (i64 (nextID t + 1) = nextID t + 1) as E by (apply i64_small; unfold min_int64, max_int64 in *; lia).
  rewrite IH; simpl; rewrite E; [|lia..]. f_equal; [lia|]. rewrite <- app_assoc. simpl. do 2 f_equal.
  - f_equal. lia.
  - apply imap_ext. intros k d' _. simpl. unfold new_track. simpl. f_equal. lia.
Qed.

(** The detections whose index is not matched. *)
Definition unmatched (dets : list Detection) (md : gset nat) : list Detection :=
  (filter (fun p : nat * Detection => p.1 ∉ md) (imap (fun di d => (di, d)) dets)).*2.

Lemma add_unmatched_fold dets md t :
  add_unmatched dets md t = fold_left (fun t d => newTrack d t) (unmatched dets md) t.
Proof.
  unfold add_unmatched, unmatched. generalize (imap (fun di d => (di, d)) dets). intros l. revert t.
  induction l as [|p l IH]; intros t; simpl; [done|]. rewrite filter_cons.
  case_bool_decide; [rewrite decide_False by tauto|rewrite decide_True by done]; apply IH.
Qed.

Lemma imap_pair_elem (dets : list Detection) i d :
  (i, d) ∈ imap (fun di d => (di, d)) dets <-> dets !! i = Some d.
Proof.
  rewrite elem_of_lookup_imap. split.
  - intros (j & x & [= -> ->] & ?). done.
  - intros. by exists i, d.
Qed.

Lemma elem_of_unmatched dets md d :
  d ∈ unmatched dets md <-> exists i, dets !! i = Some d /\ i ∉ md.
Proof.
  unfold unmatched. rewrite list_elem_of_fmap. setoid_rewrite list_elem_of_filter. split.
  - intros ([i x] & -> & ? & ?%imap_pair_elem). by exists i.
  - intros (i & ? & ?). exists (i, d). by rewrite imap_pair_elem.
Qed.

Lemma imap_pair_fst {A} (l : list A) : (imap (fun di d => (di, d)) l).*1 = seq 0 (length l).
Proof.
  rewrite fmap_imap. apply list_eq. intros i. rewrite list_lookup_imap.
  destruct (l !! i) eqn:E; simpl.
  - symmetry. apply lookup_seq. split; [done|]. by eapply lookup_lt_Some.
  - symmetry. apply lookup_seq_ge, lookup_ge_None. done.
Qed.

(** Matched and unmatched detections make up all of them. *)
Lemma unmatched_length dets (l : list nat) :
  NoDup l -> (forall i, i ∈ l -> (i < length dets)%nat) ->
  (length (unmatched dets (list_to_set l)) + length l = length dets)%nat.
Proof.
  intros Hnd Hl. unfold unmatched. rewrite length_fmap.
  set (L := imap (fun di d => (di, d)) dets).
  assert (length L = length dets) as HL by (subst L; apply length_imap).
  assert ((filter (fun p : nat * Detection => p.1 ∉ (list_to_set l : gset nat)) L).*1 ++ l ≡ₚ seq 0 (length dets)) as HP.
  { apply NoDup_Permutation.
    - apply NoDup_app. split_and!; [|intros i (p & -> & [Hp _]%list_elem_of_filter)%list_elem_of_fmap; set_solver|done].
      eapply sublist_NoDup; [|apply fmap_sublist, sublist_filter]. subst L. rewrite imap_pair_fst. apply NoDup_seq.
    - apply NoDup_seq.
    - intros i. rewrite elem_of_app, list_elem_of_fmap, elem_of_seq. setoid_rewrite list_elem_of_filter. split.
      + intros [([j d] & -> & _ & Hj%imap_pair_elem)|Hi]; [|split; [lia|by apply Hl]].
        split; [lia|]. by eapply lookup_lt_Some.
      + intros [_ Hi]. destruct (decide (i ∈ l)) as [|Hni]; [by right|left].
        apply lookup_lt_is_Some in Hi as [d Hd]. exists (i, d). split_and!; [done|set_solver|by apply imap_pair_elem]. }
  apply Permutation_length in HP. rewrite length_app, length_fmap, length_seq in HP. lia.
Qed.

Lemma NoDup_fmap_inj {A B} (f : A -> B) (l : list A) x y :
  NoDup (f <$> l) -> x ∈ l -> y ∈ l -> f x = f y -> x = y.
Proof.
  intros Hnd (i & Hi)%list_elem_of_lookup (j & Hj)%list_elem_of_lookup E.
  assert (i = j) as -> by (eapply (NoDup_lookup _ i j (f x) Hnd); rewrite list_lookup_fmap;
    [by rewrite Hi|by rewrite Hj, E]).
  congruence.
Qed.

(** ** A frame *)

(** Earlier pairs overlap at least as much. *)
Definition at_least (p q : assignment) : Prop := fgt (a_iou q) (a_iou p) = false.

(** What [sort.Slice] promises: the same pairs, none before one that exceeds it
    (for values that compare, which every overlap is). *)
Class SortsPairs (sort_pairs : list assignment -> list assignment) : Prop := {
  sort_pairs_perm l : sort_pairs l ≡ₚ l;
  sort_pairs_sorted l : Forall (fun p => is_nan (a_iou p) = false) l ->
    Sorted.StronglySorted at_least (sort_pairs l)
}.

(** One such function. *)
Definition by_overlap (p q : assignment) : Prop := rank_le (f64_rank (a_iou q)) (f64_rank (a_iou p)).

#[export] Instance by_overlap_dec : RelDecision by_overlap.
Proof. intros p q. unfold by_overlap. apply _. Defined.

#[export] Instance by_overlap_total : Total by_overlap.
Proof. intros p q. apply rank_le_total. Qed.

#[export] Instance by_overlap_trans : Transitive by_overlap.
Proof. intros p q r. unfold by_overlap. intros. by eapply rank_le_trans. Qed.

#[export] Instance merge_sort_sorts : SortsPairs (merge_sort by_overlap).
Proof.
  split.
  - intros l. apply merge_sort_Permutation.
  - intros l Hl. eapply StronglySorted_weaken, StronglySorted_merge_sort; [|apply _..].
    intros p q. autorewrite with vedetta. rewrite Forall_forall in Hl. intros Hp%Hl Hq%Hl H.
    unfold at_least, fgt. by apply flt_rank.
Qed.

Lemma elem_of_pairs_of ts dets p :
  p ∈ pairs_of ts dets <->
  exists tr d, ts !! trackIdx p = Some tr /\ dets !! detectionIdx p = Some d /\
    a_iou p = iou (box tr) (d_Box d) /\ fgt (a_iou p) fzero = true.
Proof.
  unfold pairs_of. rewrite list_elem_of_join. split.
  - intros (l & Hp & (i & tr & -> & Htr)%elem_of_lookup_imap).
    apply list_elem_of_omap in Hp as (x & Hx & ->). apply elem_of_lookup_imap in Hx as (j & d & E & Hd).
    cbv zeta in E. destruct (fgt _ _) eqn:Hgt; [|done]. injection E as ->. by exists tr, d.
  - intros (tr & d & Htr & Hd & Hi & Hgt). eexists. split; [|apply elem_of_lookup_imap; by exists (trackIdx p), tr].
    apply list_elem_of_omap. exists (Some p). split; [|done].
    apply elem_of_lookup_imap. exists (detectionIdx p), d. split; [|done]. cbv zeta.
    rewrite <- Hi, Hgt. by destruct p.
Qed.

Lemma fgt_zero_not_nan v : fgt v fzero = true -> is_nan v = false.
Proof. by destruct v. Qed.

(** The specification of a frame: a matching [m] between the live tracks and the
    detections, its tracks updated by their detections, the other tracks missed, and
    a new track for every other detection, in order. *)
Record frame_spec (t t' : Tracker) (alive : list track) (dets : list Detection) (m : list assignment) : Prop := {
  fs_tracks : NoDup (trackIdx <$> m);
  fs_dets : NoDup (detectionIdx <$> m);
  fs_pairs p : p ∈ m -> exists tr d, alive !! trackIdx p = Some tr /\ dets !! detectionIdx p = Some d /\
    a_iou p = iou (box tr) (d_Box d) /\ fgt (a_iou p) fzero = true;
  fs_matched p tr d : p ∈ m -> alive !! trackIdx p = Some tr -> dets !! detectionIdx p = Some d ->
    tracks t' !! trackIdx p = Some (applyMatch t tr d);
  fs_missed i tr : alive !! i = Some tr -> i ∉ (trackIdx <$> m) -> tracks t' !! i = Some (miss t tr);
  fs_new : drop (length alive) (tracks t') =
    imap (fun k d => new_track t (nextID t + Z.of_nat k) d) (unmatched dets (list_to_set (detectionIdx <$> m)));
  fs_length : length (tracks t') = (length alive + (length dets - length m))%nat;
  fs_nextID : nextID t' = nextID t + Z.of_nat (length dets - length m);
  fs_params : maxDisappeared t' = maxDisappeared t /\ stationaryMaxDisappeared t' = stationaryMaxDisappeared t /\
    minHits t' = minHits t /\ stationaryThreshold t' = stationaryThreshold t
}.

(** No overlapping pair would both rather be together. *)
Definition no_blocking_pair (alive : list track) (dets : list Detection) (m : list assignment) : Prop :=
  forall i j tr d, alive !! i = Some tr -> dets !! j = Some d -> fgt (iou (box tr) (d_Box d)) fzero = true ->
    exists p, p ∈ m /\ (trackIdx p = i \/ detectionIdx p = j) /\
      fgt (iou (box tr) (d_Box d)) (a_iou p) = false.

Definition live (t : Tracker) : list track := age_track <$> filter (fun tr => state tr <> TrackDeleted) (tracks t).

Definition id_room (t : Tracker) (dets : list Detection) : Prop :=
  0 <= nextID t /\ nextID t + Z.of_nat (length dets) <= max_int64.

Lemma filter_everything {A} (P : A -> Prop) `{forall x, Decision (P x)} (l : list A) :
  (forall x, x ∈ l -> P x) -> filter P l = l.
Proof.
  induction l as [|x l IH]; intros HP; [done|].
  rewrite filter_cons_True by (apply HP; by left). f_equal. apply IH. intros. apply HP. by right.
Qed.

Lemma unmatched_none dets : unmatched dets ∅ = dets.
Proof.
  unfold unmatched. rewrite filter_everything by set_solver. rewrite fmap_imap.
  apply list_eq. intros i. rewrite list_lookup_imap. by destruct (dets !! i).
Qed.

(** [Update] is an instance of the specification with a matching no pair blocks. *)
Lemma Update_frame_spec sort_pairs `{!SortsPairs sort_pairs} dets t :
  id_room t dets ->
  exists m, frame_spec t (Update sort_pairs dets t).1 (live t) dets m /\ no_blocking_pair (live t) dets m.
Proof.
  intros [H0 Hroom]. unfold Update. fold (live t). cbv zeta.
  set (t0 := set_tracks (live t) t).
  set (t1 := match live t with [] => _ | _ :: _ => _ end). cbn [fst].
  destruct (decide (live t = [])) as [El|Hl].
  - (* no live track: every detection starts one *)
    exists []. assert (t1 = fold_left (fun t d => newTrack d t) dets t0) as -> by (subst t1; by rewrite El).
    rewrite fold_newTrack by done. subst t0. rewrite El. simpl. split.
    + split; simpl; try (by intros * ?%not_elem_of_nil); try constructor; try done.
      * rewrite unmatched_none. by apply imap_ext.
      * rewrite length_imap. lia.
      * f_equal. lia.
    + intros i j tr d Hi. by rewrite lookup_nil in Hi.
  - destruct (decide (dets = [])) as [Ed|Hd].
    + (* no detection: every live track misses the frame *)
      exists []. assert (t1 = set_tracks (miss t0 <$> live t) t0) as -> by (subst t1; rewrite Ed; by destruct (live t)).
      subst t0. rewrite Ed. split.
      * split; simpl; try (by intros * ?%not_elem_of_nil); try constructor; try done.
        -- intros i tr Hi _. rewrite list_lookup_fmap, Hi. done.
        -- by rewrite drop_ge by (by rewrite length_fmap).
        -- rewrite length_fmap. lia.
        -- lia.
      * intros i j tr d _ Hj. by rewrite lookup_nil in Hj.
    + (* the greedy loop *)
      set (ps := sort_pairs (pairs_of (live t) dets)).
      set (m := select ps ∅ ∅). exists m.
      destruct (select_NoDup ps ∅ ∅) as [Hnt Hndet]. fold m in Hnt, Hndet.
      assert (forall p, p ∈ m -> exists tr d, live t !! trackIdx p = Some tr /\ dets !! detectionIdx p = Some d /\
        a_iou p = iou (box tr) (d_Box d) /\ fgt (a_iou p) fzero = true) as Hpairs.
      { intros p Hp. apply elem_of_pairs_of. rewrite <- (sort_pairs_perm (pairs_of (live t) dets)).
        eapply elem_of_sublist; [exact Hp|]. apply select_sublist. }
      assert (forall p, p ∈ m -> is_Some (dets !! detectionIdx p)) as Hdm.
      { intros p (tr & d & _ & ? & _)%Hpairs. by eexists. }
      set (ts := fold_left (apply_one t0 dets) m (live t)).
      set (ts' := imap (fun ti tr => if bool_decide (ti ∈ (list_to_set (trackIdx <$> m) : gset nat)) then tr
                                     else miss t0 tr) ts).
      assert (t1 = fold_left (fun t d => newTrack d t) (unmatched dets (list_to_set (detectionIdx <$> m)))
                (set_tracks ts' t0)) as ->.
      { subst t1. destruct (live t) as [|tr0 l] eqn:E0; [done|]. destruct dets as [|d0 dl] eqn:E1; [done|].
        rewrite match_fold. cbv zeta. rewrite !(right_id_L ∅ (∪)). rewrite add_unmatched_fold. done. }
      assert (length m <= length dets)%nat as Hlm.
      { rewrite <- (length_fmap detectionIdx m), <- (length_seq (length dets) 0).
        apply submseteq_length, NoDup_submseteq; [done|].
        intros i (p & -> & (tr & d & _ & Hd' & _)%Hpairs)%list_elem_of_fmap.
        apply elem_of_seq. split; [lia|]. by eapply lookup_lt_Some. }
      assert (length (unmatched dets (list_to_set (detectionIdx <$> m))) = (length dets - length m)%nat) as Hum.
      { pose proof (unmatched_length dets (detectionIdx <$> m) Hndet) as H. rewrite length_fmap in H.
        rewrite <- H; [lia|]. intros i (p & -> & (tr & d & _ & Hd' & _)%Hpairs)%list_elem_of_fmap.
        by eapply lookup_lt_Some. }
      assert (length ts' = length (live t)) as Hts' by (subst ts' ts; rewrite length_imap; apply apply_all_length).
      rewrite fold_newTrack by (simpl; rewrite ?Hum; lia). simpl. split.
      * split; simpl; try done.
        -- intros p tr d Hp Htr Hdp. rewrite lookup_app_l by (rewrite Hts'; by eapply lookup_lt_Some).
           subst ts'. rewrite list_lookup_imap.
           destruct (apply_all_lookup t0 dets m (live t) _ _ Hnt Htr Hdm)
             as [(q & d' & Hq & Hqi & Hqd & Hlook)|[Hno _]].
           2:{ destruct Hno. by apply list_elem_of_fmap_2. }
           fold ts in Hlook. rewrite Hlook.
           simpl. rewrite bool_decide_eq_true_2 by (apply elem_of_list_to_set; by apply list_elem_of_fmap_2).
           assert (q = p) as -> by (by eapply (NoDup_fmap_inj trackIdx)).
           do 2 f_equal. congruence.
        -- intros i tr Hi Hno. rewrite lookup_app_l by (rewrite Hts'; by eapply lookup_lt_Some).
           subst ts'. rewrite list_lookup_imap.
           destruct (apply_all_lookup t0 dets m (live t) _ _ Hnt Hi Hdm)
             as [(q & d' & Hq & Hqi & _)|[_ Hlook]].
           { destruct Hno. rewrite <- Hqi. by apply list_elem_of_fmap_2. }
           fold ts in Hlook. rewrite Hlook.
           simpl. rewrite bool_decide_eq_false_2 by (by rewrite elem_of_list_to_set). done.
        -- rewrite drop_app_length' by done. done.
        -- rewrite length_app, length_imap, Hts', Hum. done.
        -- rewrite Hum. done.
      * intros i j tr d Hi Hj Hgt.
        set (p := mkAssignment i j (iou (box tr) (d_Box d))).
        assert (p ∈ ps) as Hp.
        { subst ps. rewrite (sort_pairs_perm (pairs_of (live t) dets)). apply elem_of_pairs_of. by exists tr, d. }
        assert (Sorted.StronglySorted at_least ps) as Hsorted.
        { apply sort_pairs_sorted, Forall_forall. intros q (? & ? & _ & _ & _ & ?)%elem_of_pairs_of.
          by apply fgt_zero_not_nan. }
        destruct (select_complete at_least ps ∅ ∅ p Hsorted Hp) as [?|[?|[Hin|(q & Hq & HR & Hor)]]]; [set_solver..| |].
        -- exists p. split_and!; [done|by left|]. apply flt_irrefl.
        -- exists q. split_and!; [done|exact Hor|exact HR].
Qed.
