(* ===== verification/TrackerTheorems.v ===== *)
(** What the tracker guarantees: the matching, the identity and life of a track,
    and the geometry it hands to its consumers. *)

From S2P Require Import Prelude Float64 Tracker TrackerMatching.

(** Ascending ids name tracks. *)
Lemma sorted_ids_inj (l : list track) a b :
  Sorted.StronglySorted Z.lt (id <$> l) -> a ∈ l -> b ∈ l -> id a = id b -> a = b.
Proof.
  intros Hs. apply (NoDup_fmap_inj id l). induction l as [|x l IH]; simpl in *; [constructor|].
  apply Sorted.StronglySorted_inv in Hs as [Hs Hx]. apply NoDup_cons. split; [|auto].
  intros Hin. rewrite Forall_forall in Hx. specialize (Hx _ Hin). lia.
Qed.

(** Counting the elements with a property by their indices. *)
Lemma count_by_index {A} (P : A -> Prop) `{forall x, Decision (P x)} (l : list A) (I : list nat) :
  NoDup I -> (forall i, i ∈ I -> exists x, l !! i = Some x /\ P x) ->
  (forall i x, i ∉ I -> l !! i = Some x -> ~ P x) ->
  length (filter P l) = length I.
Proof.
  intros Hnd Hin Hout.
  assert (filter P l = (filter (fun p : nat * A => P p.2) (imap (fun i x => (i, x)) l)).*2) as ->.
  { clear. assert (forall L : list (nat * A), filter P L.*2 = (filter (fun p : nat * A => P p.2) L).*2) as HL.
    { induction L as [|p L IH]; [done|]. rewrite fmap_cons, !filter_cons. case_decide; [|done].
      rewrite fmap_cons. by f_equal. }
    rewrite <- HL. f_equal. rewrite fmap_imap. apply list_eq. intros i. rewrite list_lookup_imap.
    by destruct (l !! i). }
  rewrite length_fmap, <- (length_fmap fst). apply Permutation_length, NoDup_Permutation; [|done|].
  - eapply sublist_NoDup; [|apply fmap_sublist, sublist_filter]. rewrite imap_pair_fst. apply NoDup_seq.
  - intros i. rewrite list_elem_of_fmap. setoid_rewrite list_elem_of_filter. split.
    + intros ([j x] & -> & HP & (k & y & [= -> ->] & Hk)%elem_of_lookup_imap). simpl in *.
      destruct (decide (k ∈ I)) as [|Hno]; [done|]. by destruct (Hout _ _ Hno Hk).
    + intros Hi. destruct (Hin i Hi) as (x & Hx & HP). exists (i, x). split_and!; [done|done|].
      apply elem_of_lookup_imap. by exists i, x.
Qed.

(** A matching is no larger than the detections. *)
Lemma frame_matching_small t t' alive dets m :
  frame_spec t t' alive dets m -> (length m <= length dets)%nat.
Proof.
  intros F. rewrite <- (length_fmap detectionIdx m), <- (length_seq (length dets) 0).
  apply submseteq_length, NoDup_submseteq; [apply (fs_dets _ _ _ _ _ F)|].
  intros i (p & -> & (tr & d & _ & Hd & _)%(fs_pairs _ _ _ _ _ F))%list_elem_of_fmap.
  apply elem_of_seq. split; [lia|]. by eapply lookup_lt_Some.
Qed.

Section tracker.
Context (sort_pairs : list assignment -> list assignment) `{!SortsPairs sort_pairs}.

(** Budgets that fit, ascending ids below the next one, and miss counts within the
    budget of every track that is not deleted. *)
Record tracker_ok (t : Tracker) : Prop := {
  ok_budget : 0 <= maxDisappeared t < max_int64 /\ 0 <= stationaryMaxDisappeared t < max_int64;
  ok_ids : Sorted.StronglySorted Z.lt (id <$> tracks t);
  ok_range : Forall (fun tr => 1 <= id tr < nextID t) (tracks t);
  ok_misses : Forall (fun tr => 0 <= disappeared tr /\
    (state tr <> TrackDeleted -> disappeared tr <= effectiveMaxDisappeared t tr)) (tracks t);
  ok_next : 1 <= nextID t
}.

Lemma NewTracker_ok md mh :
  0 <= md -> md * 50 < max_int64 -> tracker_ok (NewTracker md mh).
Proof.
  intros H1 H2. unfold NewTracker, NewTrackerWithStationary, defaultStationaryMaxMultiplier.
  split; simpl; [|constructor|constructor|constructor|lia].
  rewrite i64_small; unfold min_int64, max_int64 in *; lia.
Qed.

Lemma StronglySorted_fmap_filter (P : track -> Prop) `{forall x, Decision (P x)} (l : list track) :
  Sorted.StronglySorted Z.lt (id <$> l) -> Sorted.StronglySorted Z.lt (id <$> filter P l).
Proof.
  induction l as [|s l IH]; simpl; intros Hs; [done|].
  apply Sorted.StronglySorted_inv in Hs as [Hs Hf]. rewrite filter_cons. case_decide; [|auto].
  simpl. constructor; [auto|]. apply Forall_fmap, Forall_forall. rewrite Forall_fmap, Forall_forall in Hf.
  intros t [_ Ht]%list_elem_of_filter. by apply Hf.
Qed.

Lemma elem_of_live t tr : tr ∈ live t <-> exists tr0, tr0 ∈ tracks t /\ state tr0 <> TrackDeleted /\ tr = age_track tr0.
Proof.
  unfold live. rewrite list_elem_of_fmap. setoid_rewrite list_elem_of_filter. naive_solver.
Qed.

Lemma live_ids t : id <$> live t = id <$> filter (fun tr => state tr <> TrackDeleted) (tracks t).
Proof. unfold live. rewrite <- list_fmap_compose. done. Qed.

(** Every track after a frame is a matched, a missed or a new one. *)
Lemma frame_elem t t' alive dets m tr' :
  frame_spec t t' alive dets m -> tr' ∈ tracks t' ->
  (exists tr d, tr ∈ alive /\ tr' = applyMatch t tr d) \/
  (exists tr, tr ∈ alive /\ tr' = miss t tr) \/
  (exists k d, (k < length dets - length m)%nat /\ tr' = new_track t (nextID t + Z.of_nat k) d).
Proof.
  intros F (i & Hi)%list_elem_of_lookup. destruct (decide (i < length alive)%nat) as [Hlt|Hge].
  - apply lookup_lt_is_Some in Hlt as [tr Htr]. destruct (decide (i ∈ (trackIdx <$> m))) as [Hin|Hno].
    + apply list_elem_of_fmap in Hin as (p & -> & Hp).
      destruct (fs_pairs _ _ _ _ _ F p Hp) as (tr1 & d & Htr1 & Hd & _).
      pose proof (fs_matched _ _ _ _ _ F p tr1 d Hp Htr1 Hd) as Hm.
      left. exists tr1, d. split; [by eapply list_elem_of_lookup_2|congruence].
    + pose proof (fs_missed _ _ _ _ _ F i tr Htr Hno) as Hm.
      right. left. exists tr. split; [by eapply list_elem_of_lookup_2|congruence].
  - assert (drop (length alive) (tracks t') !! (i - length alive)%nat = Some tr') as Hd
      by (rewrite lookup_drop; rewrite <- Hi; f_equal; lia).
    rewrite (fs_new _ _ _ _ _ F), list_lookup_imap in Hd.
    destruct (unmatched _ _ !! _) as [d|] eqn:E; [|done]. injection Hd as <-.
    right. right. exists (i - length alive)%nat, d. split; [|done].
    pose proof (lookup_lt_Some _ _ _ Hi). rewrite (fs_length _ _ _ _ _ F) in *. lia.
Qed.

(** Old tracks keep their ids and places, new ones get the next ids. *)
Lemma frame_ids t t' alive dets m :
  frame_spec t t' alive dets m ->
  id <$> tracks t' = (id <$> alive) ++ ((fun k => nextID t + Z.of_nat k) <$> seq 0 (length dets - length m)).
Proof.
  intros F. rewrite <- (take_drop (length alive) (tracks t')), fmap_app. f_equal.
  - apply list_eq. intros i. rewrite !list_lookup_fmap.
    destruct (alive !! i) as [tr|] eqn:E.
    + rewrite lookup_take_lt by (by eapply lookup_lt_Some).
      destruct (decide (i ∈ (trackIdx <$> m))) as [Hin|Hno].
      * apply list_elem_of_fmap in Hin as (p & -> & Hp).
        destruct (fs_pairs _ _ _ _ _ F p Hp) as (tr1 & d & Htr1 & Hd & _).
        rewrite (fs_matched _ _ _ _ _ F p tr1 d Hp Htr1 Hd). simpl. f_equal.
        assert (tr1 = tr) as -> by congruence. unfold applyMatch. by destruct (stationary_update t tr d) as [[]].
      * by rewrite (fs_missed _ _ _ _ _ F i tr E Hno).
    + rewrite lookup_take_ge by (by apply lookup_ge_None). done.
  - rewrite (fs_new _ _ _ _ _ F), fmap_imap.
    assert (length (unmatched dets (list_to_set (detectionIdx <$> m))) = (length dets - length m)%nat) as <-.
    { pose proof (f_equal length (fs_new _ _ _ _ _ F)) as Hl.
      rewrite length_drop, length_imap, (fs_length _ _ _ _ _ F) in Hl. lia. }
    apply list_eq. intros i. rewrite list_lookup_imap, list_lookup_fmap.
    destruct (unmatched _ _ !! i) as [d|] eqn:E; simpl.
    + rewrite lookup_seq_lt by (by eapply lookup_lt_Some). done.
    + rewrite lookup_seq_ge by (by apply lookup_ge_None). done.
Qed.

Lemma StronglySorted_app_lt l1 l2 n :
  Sorted.StronglySorted Z.lt l1 -> Sorted.StronglySorted Z.lt l2 ->
  (forall x, x ∈ l1 -> x < n) -> (forall x, x ∈ l2 -> n <= x) -> Sorted.StronglySorted Z.lt (l1 ++ l2).
Proof.
  induction 1 as [|x l1 Hs IH Hx]; simpl; intros H2 Hl1 Hl2; [done|]. constructor.
  - apply IH; [done|intros; apply Hl1; by right|done].
  - apply Forall_app. split; [done|]. apply Forall_forall. intros y Hy.
    specialize (Hl1 x ltac:(by left)). specialize (Hl2 y Hy). lia.
Qed.

Lemma StronglySorted_seq n a k : Sorted.StronglySorted Z.lt ((fun k => n + Z.of_nat k) <$> seq a k).
Proof.
  revert a. induction k as [|k IH]; intros a; simpl; constructor; [apply IH|].
  apply Forall_fmap, Forall_forall. intros x Hx%elem_of_seq. simpl. lia.
Qed.

Lemma miss_within t tr :
  0 <= maxDisappeared t < max_int64 /\ 0 <= stationaryMaxDisappeared t < max_int64 ->
  0 <= disappeared tr <= effectiveMaxDisappeared t tr ->
  disappeared (miss t tr) = disappeared tr + 1.
Proof.
  intros Hb Hd. simpl. apply i64_small. unfold effectiveMaxDisappeared, min_int64, max_int64 in *.
  destruct (lastWasStationary tr); lia.
Qed.

Lemma Update_ok dets t : tracker_ok t -> id_room t dets -> tracker_ok (Update sort_pairs dets t).1.
Proof.
  intros [Hb Hi Hr Hm Hn] Hroom.
  destruct (Update_frame_spec sort_pairs dets t Hroom) as (m & F & _).
  set (t' := (Update sort_pairs dets t).1) in *.
  destruct (fs_params _ _ _ _ _ F) as (E1 & E2 & E3 & E4). pose proof (fs_nextID _ _ _ _ _ F) as En.
  rewrite Forall_forall in Hr, Hm.
  assert (forall tr, tr ∈ live t -> 1 <= id tr < nextID t /\ 0 <= disappeared tr <= effectiveMaxDisappeared t tr) as Hlive.
  { intros tr (tr0 & Hin & Hst & ->)%elem_of_live. destruct (Hm _ Hin) as [? Hle].
    split; [exact (Hr _ Hin)|]. split; [done|]. by apply Hle. }
  assert (forall tr, effectiveMaxDisappeared t' tr = effectiveMaxDisappeared t tr) as Eff
    by (intros; unfold effectiveMaxDisappeared; by rewrite E1, E2).
  split.
  - by rewrite E1, E2.
  - rewrite (frame_ids _ _ _ _ _ F). apply (StronglySorted_app_lt _ _ (nextID t)).
    + rewrite live_ids. by apply StronglySorted_fmap_filter.
    + apply StronglySorted_seq.
    + intros x (tr & -> & Htr)%list_elem_of_fmap. destruct (Hlive _ Htr). lia.
    + intros x (k & -> & _)%list_elem_of_fmap. lia.
  - apply Forall_forall. intros tr' Htr'. rewrite En.
    assert (id tr' ∈ (id <$> tracks t')) as Hid by (by apply list_elem_of_fmap_2).
    rewrite (frame_ids _ _ _ _ _ F) in Hid. apply elem_of_app in Hid as [Hid|Hid].
    + apply list_elem_of_fmap in Hid as (tr & -> & Htr). specialize (Hlive _ Htr). lia.
    + apply list_elem_of_fmap in Hid as (k & -> & Hk%elem_of_seq). lia.
  - apply Forall_forall. intros tr' Htr'. rewrite Eff.
    destruct (frame_elem _ _ _ _ _ _ F Htr') as [(tr & d & Htr & ->)|[(tr & Htr & ->)|(k & d & _ & ->)]].
    + unfold applyMatch. destruct (stationary_update t tr d) as [[sh an] has]. simpl.
      unfold effectiveMaxDisappeared. simpl. split; [done|]. intros _. destruct (stationaryThreshold t <=? sh); lia.
    + destruct (Hlive _ Htr) as [_ Hd]. rewrite (miss_within _ _ Hb Hd). split; [lia|].
      simpl. change (effectiveMaxDisappeared t (miss t tr)) with (effectiveMaxDisappeared t tr).
      replace (i64 (disappeared tr + 1)) with (disappeared tr + 1) by (symmetry; apply (miss_within _ _ Hb Hd)).
      destruct (_ <? _) eqn:E; bool_to_prop; [done|lia].
    + simpl. unfold effectiveMaxDisappeared. simpl. lia.
  - rewrite En. lia.
Qed.

(** ** The matching *)

(** C8: A frame implements its specification: there is a matching of live tracks and
    detections, one to one and only between overlapping boxes, under which every
    matched track takes its detection, every other live track misses the frame,
    every other detection starts a new track with the next id, in order; and no
    overlapping pair is left that overlaps more than what either side was given. *)
Theorem Update_is_stable_matching dets t :
  id_room t dets ->
  exists m, frame_spec t (Update sort_pairs dets t).1 (live t) dets m /\ no_blocking_pair (live t) dets m.
Proof. intros. by apply Update_frame_spec. Qed.

(** ** Runs *)

Definition run (frames : list (list Detection)) (t : Tracker) : Tracker :=
  fold_left (fun t dets => (Update sort_pairs dets t).1) frames t.

Definition total (frames : list (list Detection)) : Z := Z.of_nat (length (mjoin frames)).

Lemma total_cons dets frames : total (dets :: frames) = Z.of_nat (length dets) + total frames.
Proof. unfold total. simpl. rewrite length_app. lia. Qed.

Lemma total_app f1 f2 : total (f1 ++ f2) = total f1 + total f2.
Proof. unfold total. rewrite join_app, length_app. lia. Qed.

Definition run_room (frames : list (list Detection)) (t : Tracker) : Prop :=
  0 <= nextID t /\ nextID t + total frames <= max_int64.

Lemma run_room_cons dets frames t :
  tracker_ok t -> run_room (dets :: frames) t ->
  id_room t dets /\ run_room frames (Update sort_pairs dets t).1.
Proof.
  unfold run_room. rewrite total_cons. intros Hok [H0 H].
  assert (0 <= total frames) by (unfold total; lia).
  assert (id_room t dets) as Hr by (split; lia). split; [done|].
  destruct (Update_frame_spec sort_pairs dets t Hr) as (m & F & _).
  rewrite (fs_nextID _ _ _ _ _ F). split; lia.
Qed.

Lemma run_ok frames t : tracker_ok t -> run_room frames t -> tracker_ok (run frames t).
Proof.
  revert t. induction frames as [|dets frames IH]; intros t Hok Hr; [done|].
  destruct (run_room_cons _ _ _ Hok Hr) as [Hd Hr']. apply IH; [by apply Update_ok|done].
Qed.

(** An id no live track has, below the next one, never comes back. *)
Lemma run_gone x frames t :
  tracker_ok t -> run_room frames t -> x < nextID t ->
  x ∉ (id <$> live t) -> frames <> [] -> x ∉ (id <$> tracks (run frames t)).
Proof.
  revert t. induction frames as [|dets frames IH]; intros t Hok Hr Hx Hno Hne; [done|].
  destruct (run_room_cons _ _ _ Hok Hr) as [Hd Hr'].
  change (run (dets :: frames) t) with (run frames (Update sort_pairs dets t).1).
  pose proof (Update_ok dets t Hok Hd) as Hok'.
  destruct (Update_frame_spec sort_pairs dets t Hd) as (m & F & _).
  assert (x ∉ (id <$> tracks (Update sort_pairs dets t).1)) as Hno1.
  { rewrite (frame_ids _ _ _ _ _ F), elem_of_app. intros [?|(k & -> & _)%list_elem_of_fmap]; [done|lia]. }
  destruct frames as [|dets' frames]; [done|]. apply IH; [done|done| | |done].
  - rewrite (fs_nextID _ _ _ _ _ F). lia.
  - rewrite live_ids. intros (tr & -> & [_ Htr]%list_elem_of_filter)%list_elem_of_fmap.
    apply Hno1. by apply list_elem_of_fmap_2.
Qed.

(** A track has one life: ids are never reused, and once a track is reported
    deleted it is gone from every later frame, whatever is detected. *)
Theorem deleted_tracks_stay_deleted frames frames' t o :
  tracker_ok t -> run_room (frames ++ frames') t -> frames' <> [] ->
  o ∈ DeletedTracks (run frames t) ->
  to_TrackID o ∉ (id <$> tracks (run (frames ++ frames') t)).
Proof.
  intros Hok Hroom Hne Ho.
  assert (run_room frames t /\ run_room frames' (run frames t)) as [Hr Hr'].
  { clear Ho Hne. revert t Hok Hroom. induction frames as [|dets frames IH]; intros t Hok Hroom.
    - split; [|done]. destruct Hroom as [H0 H]. rewrite total_app in H. split; [done|].
      assert (0 <= total frames') by (unfold total; lia). lia.
    - destruct (run_room_cons dets (frames ++ frames') t Hok Hroom) as [Hd H'].
      destruct (IH _ (Update_ok dets t Hok Hd) H') as [H1 H2].
      split; [|done]. destruct Hroom as [H0 H]. split; [done|].
      change ((dets :: frames) ++ frames') with (dets :: (frames ++ frames')) in H.
      rewrite total_cons, total_app in H. rewrite total_cons.
      assert (0 <= total frames') by (unfold total; lia). lia. }
  pose proof (run_ok _ _ Hok Hr) as Hok'.
  unfold run at 1. rewrite fold_left_app. fold (run frames t). fold (run frames' (run frames t)).
  unfold DeletedTracks in Ho. apply list_elem_of_omap in Ho as (tr & Htr & Hst).
  case_decide as Hdel; [|done]. injection Hst as <-. simpl.
  destruct Hok' as [_ Hids Hrange _ _]. rewrite Forall_forall in Hrange.
  apply run_gone; [by apply run_ok|done|by apply Hrange| |done].
  rewrite live_ids. intros (tr2 & Eid & [Hst2 Htr2]%list_elem_of_filter)%list_elem_of_fmap.
  apply Hst2. rewrite <- Hdel. f_equal. by eapply (sorted_ids_inj (tracks (run frames t))).
Qed.

(** Every detection of a frame is one track's observation: exactly as many tracks
    are up to date after the frame (no missed frame since their last detection) as
    there were detections, every live track is either up to date or has missed one
    frame more than before, and a reported object is flagged as detected exactly
    when its track is up to date. *)
Theorem Update_conserves_detections dets t :
  tracker_ok t -> id_room t dets ->
  let t' := (Update sort_pairs dets t).1 in
  length (filter (fun tr => disappeared tr = 0) (tracks t')) = length dets /\
  (forall i tr tr', live t !! i = Some tr -> tracks t' !! i = Some tr' ->
     id tr' = id tr /\ (disappeared tr' = 0 \/ disappeared tr' = disappeared tr + 1)) /\
  (forall o, o ∈ (Update sort_pairs dets t).2 ->
     exists tr, tr ∈ tracks t' /\ to_TrackID o = id tr /\ (to_Detected o = true <-> disappeared tr = 0)).
Proof.
  intros Hok Hroom t'. destruct (Update_frame_spec sort_pairs dets t Hroom) as (m & F & _). fold t' in F.
  assert (forall tr, tr ∈ live t -> disappeared (miss t tr) = disappeared tr + 1 /\ 0 <= disappeared tr) as Hmiss.
  { intros tr (tr0 & Hin & Hst & ->)%elem_of_live. destruct Hok as [Hb _ _ Hm _].
    rewrite Forall_forall in Hm. destruct (Hm _ Hin) as [? Hle]. split; [|done].
    apply miss_within; [done|]. split; [done|by apply Hle]. }
  assert (forall tr d, disappeared (applyMatch t tr d) = 0 /\ id (applyMatch t tr d) = id tr) as Hmatch
    by (intros; unfold applyMatch; by destruct (stationary_update t tr d) as [[]]).
  split_and!.
  - rewrite <- (take_drop (length (live t)) (tracks t')), filter_app, length_app.
    assert (length (filter (fun tr => disappeared tr = 0) (take (length (live t)) (tracks t'))) = length m) as ->.
    { rewrite <- (length_fmap trackIdx m). apply count_by_index.
      - apply (fs_tracks _ _ _ _ _ F).
      - intros i Hi. apply list_elem_of_fmap in Hi as (p & -> & Hp).
        destruct (fs_pairs _ _ _ _ _ F p Hp) as (tr & d & Htr & Hd & _).
        exists (applyMatch t tr d). rewrite lookup_take_lt by (by eapply lookup_lt_Some).
        split; [by eapply fs_matched|apply Hmatch].
      - intros i tr' Hi Htr'. apply lookup_take_Some in Htr' as [Htr' Hlt].
        apply lookup_lt_is_Some in Hlt as [tr Htr].
        rewrite (fs_missed _ _ _ _ _ F i tr Htr Hi) in Htr'. injection Htr' as <-.
        destruct (Hmiss tr) as [-> ?]; [by eapply list_elem_of_lookup_2|lia]. }
    rewrite filter_everything.
    + rewrite length_drop, (fs_length _ _ _ _ _ F). pose proof (frame_matching_small _ _ _ _ _ F). lia.
    + rewrite (fs_new _ _ _ _ _ F). intros tr (k & d & -> & _)%elem_of_lookup_imap. done.
  - intros i tr tr' Htr Htr'. destruct (decide (i ∈ (trackIdx <$> m))) as [Hin|Hno].
    + apply list_elem_of_fmap in Hin as (p & -> & Hp).
      destruct (fs_pairs _ _ _ _ _ F p Hp) as (tr1 & d & Htr1 & Hd & _).
      rewrite (fs_matched _ _ _ _ _ F p tr1 d Hp Htr1 Hd) in Htr'. injection Htr' as <-.
      assert (tr1 = tr) as -> by congruence. destruct (Hmatch tr d). auto.
    + rewrite (fs_missed _ _ _ _ _ F i tr Htr Hno) in Htr'. injection Htr' as <-.
      split; [done|right]. apply Hmiss. by eapply list_elem_of_lookup_2.
  - intros o Ho. assert (o ∈ confirmedObjects t') as Ho' by exact Ho.
    apply list_elem_of_omap in Ho' as (tr & Htr & Hst). case_decide; [|done]. injection Hst as <-.
    exists tr. split_and!; [done|done|]. simpl. apply Z.eqb_eq.
Qed.

(** ** Coasting *)

Lemma Update_nothing t : tracks (Update sort_pairs [] t).1 = miss t <$> live t /\
  maxDisappeared (Update sort_pairs [] t).1 = maxDisappeared t /\
  stationaryMaxDisappeared (Update sort_pairs [] t).1 = stationaryMaxDisappeared t.
Proof. unfold Update. fold (live t). cbv zeta. by destruct (live t) as [|tr l] eqn:E. Qed.

(** A live track through [n] frames without a detection. *)
Lemma coast n t tr :
  0 <= maxDisappeared t < max_int64 /\ 0 <= stationaryMaxDisappeared t < max_int64 ->
  tr ∈ tracks t -> state tr <> TrackDeleted -> 0 <= disappeared tr ->
  disappeared tr + Z.of_nat n <= effectiveMaxDisappeared t tr + 1 ->
  exists tr', tr' ∈ tracks (run (replicate n []) t) /\ id tr' = id tr /\ box tr' = box tr /\
    hits tr' = hits tr /\ disappeared tr' = disappeared tr + Z.of_nat n /\
    (disappeared tr + Z.of_nat n <= effectiveMaxDisappeared t tr -> state tr' = state tr) /\
    (n <> 0%nat -> disappeared tr + Z.of_nat n = effectiveMaxDisappeared t tr + 1 -> state tr' = TrackDeleted).
Proof.
  revert t tr. induction n as [|n IH]; intros t tr Hb Hin Hst H0 Hle.
  { exists tr. split_and!; try done. lia. }
  destruct (Update_nothing t) as (Et & Em & Es).
  set (tr1 := miss t (age_track tr)).
  assert (effectiveMaxDisappeared t (age_track tr) = effectiveMaxDisappeared t tr) as Eage by done.
  assert (disappeared tr1 = disappeared tr + 1) as Ed by (apply (miss_within t (age_track tr)); [done|rewrite Eage; simpl; lia]).
  assert (tr1 ∈ tracks (Update sort_pairs [] t).1) as Hin1.
  { rewrite Et. apply list_elem_of_fmap_2, elem_of_live. by exists tr. }
  assert (effectiveMaxDisappeared (Update sort_pairs [] t).1 tr1 = effectiveMaxDisappeared t tr) as Eeff.
  { unfold effectiveMaxDisappeared. rewrite Em, Es. done. }
  assert (state tr1 = if effectiveMaxDisappeared t tr <? disappeared tr + 1 then TrackDeleted else state tr) as Estate.
  { rewrite <- Ed. done. }
  destruct (decide (effectiveMaxDisappeared t tr < disappeared tr + 1)) as [Hlast|Hmore].
  - assert (n = 0%nat) as -> by lia. exists tr1. split_and!; try done; try lia.
    intros _ _. rewrite Estate. by rewrite (proj2 (Z.ltb_lt _ _) Hlast).
  - rewrite (proj2 (Z.ltb_ge _ _)) in Estate by lia.
    destruct (IH (Update sort_pairs [] t).1 tr1) as (tr' & Hin' & Hid & Hbox & Hhits & Hd & Hkeep & Hdel).
    + by rewrite Em, Es.
    + done.
    + by rewrite Estate.
    + rewrite Ed. lia.
    + rewrite Ed, Eeff. lia.
    + rewrite Ed, Eeff in *. exists tr'. split_and!; [done..|lia| |].
      * intros. rewrite Hkeep by lia. done.
      * intros _ Heq. apply Hdel; [|lia]. intros ->. lia.
Qed.

(** A track coasts for exactly its budget: through frames without detections it
    keeps its id, box and state as long as its misses stay within the budget (the
    long one if it was last stationary), and the frame after that deletes it. *)
Theorem coasting_is_exact t tr :
  tracker_ok t -> tr ∈ tracks t -> state tr <> TrackDeleted ->
  let left := Z.to_nat (effectiveMaxDisappeared t tr - disappeared tr) in
  (forall n, (n <= left)%nat -> exists tr', tr' ∈ tracks (run (replicate n []) t) /\ id tr' = id tr /\
     box tr' = box tr /\ state tr' = state tr) /\
  exists tr', tr' ∈ tracks (run (replicate (S left) []) t) /\ id tr' = id tr /\ state tr' = TrackDeleted.
Proof.
  intros [Hb _ _ Hm _] Hin Hst left. rewrite Forall_forall in Hm. destruct (Hm _ Hin) as [H0 Hle].
  specialize (Hle Hst). split.
  - intros n Hn. destruct (coast n t tr) as (tr' & ? & ? & ? & _ & _ & Hkeep & _); try done; [lia|].
    exists tr'. split_and!; try done. apply Hkeep. lia.
  - destruct (coast (S left) t tr) as (tr' & ? & ? & _ & _ & _ & _ & Hdel); try done; [lia|].
    exists tr'. split_and!; try done. apply Hdel; [done|lia].
Qed.
End tracker.

(** ** Geometry *)

Definition inside (b : Box) (x y : Z) : Prop := bx1 b <= x < bx2 b /\ by1 b <= y < by2 b.

(** Clamping a box to a frame keeps exactly its pixels: the clamped box lies in the
    frame, a pixel is in it exactly when it is in the box and in the frame, it is
    accepted exactly when some pixel is in both, and clamping it again changes
    nothing. *)
Theorem clampBox_keeps_pixels b w h :
  0 <= w -> 0 <= h ->
  let '(c, ok) := clampBox b w h in
  0 <= bx1 c <= w /\ 0 <= bx2 c <= w /\ 0 <= by1 c <= h /\ 0 <= by2 c <= h /\
  (forall x y, inside c x y <-> inside b x y /\ 0 <= x < w /\ 0 <= y < h) /\
  (ok = true <-> exists x y, inside b x y /\ 0 <= x < w /\ 0 <= y < h) /\
  clampBox c w h = (c, ok).
Proof.
  intros Hw Hh. unfold clampBox, clampBoxToRect. cbn [bx1 by1 bx2 by2].
  rewrite !(Z.min_l 0), !(Z.max_r 0) by lia.
  set (c := mkBox _ _ _ _).
  assert (forall x y, inside c x y <-> inside b x y /\ 0 <= x < w /\ 0 <= y < h) as Hin
    by (intros x y; unfold inside, c; cbn [bx1 by1 bx2 by2]; lia).
  split_and!; try (unfold c; cbn [bx1 by1 bx2 by2]; lia); [exact Hin| |].
  - setoid_rewrite <- Hin. rewrite andb_true_iff, !Z.ltb_lt. unfold inside, c. cbn [bx1 by1 bx2 by2]. split.
    + intros [? ?]. eexists (Z.min (Z.max (bx1 b) 0) w), (Z.min (Z.max (by1 b) 0) h). lia.
    + intros (x & y & ? & ?). lia.
  - unfold c. cbn [bx1 by1 bx2 by2]. f_equal; [f_equal; lia|].
    f_equal; apply eq_bool_prop_intro; rewrite !Is_true_true, !Z.ltb_lt; lia.
Qed.

Lemma clampBox_keeps_pixels_witness : (clampBox (mkBox (-5) 10 50 500) 100 200).2 = true.
Proof.
  pose proof (clampBox_keeps_pixels (mkBox (-5) 10 50 500) 100 200 ltac:(lia) ltac:(lia)) as H.
  destruct (clampBox (mkBox (-5) 10 50 500) 100 200) as [c ok]. destruct H as (_ & _ & _ & _ & _ & H & _).
  simpl. apply H. exists 0, 20. unfold inside. simpl. lia.
Defined.

(** ** A concrete run *)

Definition sorted_by_overlap : list assignment -> list assignment := merge_sort by_overlap.

#[local] Instance sorted_by_overlap_sorts : SortsPairs sorted_by_overlap := merge_sort_sorts.

Definition car (x : Z) : Detection := mkDetection "car" (f64_of_Z 1) (mkBox x 10 (x + 40) 50).
Definition sample_tracker : Tracker := (Update sorted_by_overlap [car 0; car 100] (NewTracker 2 1)).1.

Lemma sample_tracker_ok : tracker_ok sample_tracker.
Proof.
  apply (Update_ok sorted_by_overlap); [apply NewTracker_ok; unfold max_int64; lia|]. unfold id_room, max_int64. simpl. lia.
Qed.

Lemma Update_is_stable_matching_witness : exists m,
  frame_spec sample_tracker (Update sorted_by_overlap [car 103; car 200] sample_tracker).1 (live sample_tracker)
    [car 103; car 200] m /\ no_blocking_pair (live sample_tracker) [car 103; car 200] m.
Proof.
  apply (Update_is_stable_matching sorted_by_overlap [car 103; car 200] sample_tracker).
  split; vm_compute; discriminate.
Defined.

Lemma Update_conserves_detections_witness :
  length (filter (fun tr => disappeared tr = 0)
    (tracks (Update sorted_by_overlap [car 103; car 200] sample_tracker).1)) = 2%nat.
Proof.
  apply (Update_conserves_detections sorted_by_overlap [car 103; car 200] sample_tracker sample_tracker_ok).
  split; vm_compute; discriminate.
Defined.

Lemma coasting_is_exact_witness : exists tr',
  tr' ∈ tracks (run sorted_by_overlap (replicate 3 []) sample_tracker) /\ id tr' = 1 /\ state tr' = TrackDeleted.
Proof.
  destruct (tracks sample_tracker) as [|tr l] eqn:E; [vm_compute in E; discriminate|].
  assert (tr = new_track (NewTracker 2 1) 1 (car 0)) as Htr by (revert E; vm_compute; intros [= <- _]; reflexivity).
  destruct (coasting_is_exact sorted_by_overlap sample_tracker tr sample_tracker_ok) as [_ H].
  - rewrite E. left.
  - rewrite Htr. vm_compute. discriminate.
  - rewrite Htr in H. exact H.
Defined.

Lemma deleted_tracks_stay_deleted_witness :
  1 ∉ (id <$> tracks (run sorted_by_overlap ([[]; []; []] ++ [[car 0]]) sample_tracker)).
Proof.
  apply (deleted_tracks_stay_deleted sorted_by_overlap [[]; []; []] [[car 0]] sample_tracker
    (mkTrackedObject 1 "car" (f64_of_Z 1) (mkBox 0 10 40 50) "deleted" 1 false false) sample_tracker_ok).
  - split; vm_compute; discriminate.
  - discriminate.
  - vm_compute. left.
Defined.
