(* ===== verification/Presence.v ===== *)
(** Zone matching ([camera/zone.go]) and the presence state machine
    ([camera/presence.go]): which zones an object is in, and what a zone knows
    about a label from what was observed in it and what was detected at all.

    Go iterates its maps in an unspecified order; each key's step depends on that
    key alone, so the order only permutes the returned events, which are listed in
    the map's canonical order here. *)

From S2P Require Import Prelude Float64 Tracker.

(** ** Zones *)

Record Zone := mkZone {
  z_ID : Z;
  z_Camera : string;
  z_Name : string;
  z_Points : list (list float64);
  z_Labels : list string;
  z_TrackPresence : bool;
  z_FaceRecognition : bool;
  z_Enabled : bool
}.

Definition zoneMatchesLabel (z : Zone) (label : string) : bool :=
  match z_Labels z with
  | [] => true
  | ls => existsb (String.eqb label) ls
  end.

Definition tiny : float64 := f64_lit 1 1000000000000.

(** One edge of the ray casting: [None] when a point is malformed. *)
Definition edge_crosses (x y : float64) (pi pj : list float64) : option bool :=
  match pi, pj with
  | [xi; yi], [xj; yj] =>
      Some (negb (Bool.eqb (fgt yi y) (fgt yj y)) &&
            flt x (fadd (fdiv (fmul (fsub xj xi) (fsub y yi)) (fadd (fsub yj yi) tiny)) xi))
  | _, _ => None
  end.

Fixpoint cast_ray (x y : float64) (j : list float64) (points : list (list float64)) (inside : bool) : bool :=
  match points with
  | [] => inside
  | i :: points =>
      cast_ray x y i points
        (match edge_crosses x y i j with Some true => negb inside | _ => inside end)
  end.

(** The edge loop starts from the last point. *)
Definition pointInPolygon (x y : float64) (polygon : list (list float64)) : bool :=
  cast_ray x y (List.last polygon []) polygon false.

Definition MatchZones (zones : list Zone) (b : Box) (label : string) (frameW frameH : Z) : list Zone :=
  if (frameW <=? 0) || (frameH <=? 0) then []
  else if (bx2 b <=? bx1 b) || (by2 b <=? by1 b) then []
  else
    let ax := fdiv (fdiv (f64_of_Z (i64 (bx1 b + bx2 b))) (f64_of_Z 2)) (f64_of_Z frameW) in
    let ay := fdiv (f64_of_Z (by2 b)) (f64_of_Z frameH) in
    filter (fun z => z_Enabled z && zoneMatchesLabel z label && (3 <=? Z.of_nat (length (z_Points z))) &&
                     pointInPolygon ax ay (z_Points z)) zones.

Definition PresenceKey : Type := Z * string.

(** The observations of a frame: tracks per zone and label, detected tracks, and the
    zones of every track. *)
Record Observations := mkObservations {
  inZone : gmap PresenceKey (gset Z);
  detected : gset Z;
  trackZones : gmap Z (list Zone)
}.

Definition observe_zone (obj : TrackedObject) (m : gmap PresenceKey (gset Z)) (z : Zone)
    : gmap PresenceKey (gset Z) :=
  if z_TrackPresence z then
    let key := (z_ID z, to_Label obj) in
    <[key := {[to_TrackID obj]} ∪ default ∅ (m !! key)]> m
  else m.

Definition observe_object (zones : list Zone) (frameW frameH : Z) (o : Observations) (obj : TrackedObject)
    : Observations :=
  let matched := MatchZones zones (to_Box obj) (to_Label obj) frameW frameH in
  let tz := <[to_TrackID obj := matched]> (trackZones o) in
  if to_Detected obj then
    mkObservations (fold_left (observe_zone obj) matched (inZone o)) ({[to_TrackID obj]} ∪ detected o) tz
  else mkObservations (inZone o) (detected o) tz.

Definition matchZones (zones : list Zone) (tracked : list TrackedObject) (frameW frameH : Z) : Observations :=
  fold_left (observe_object zones frameW frameH) tracked (mkObservations ∅ ∅ ∅).

(** ** Presence *)

Inductive PresenceStatus := PresenceAbsent | PresencePresent | PresenceUnknown.

#[global] Instance PresenceStatus_eq_dec : EqDecision PresenceStatus.
Proof. solve_decision. Defined.

Definition PresenceStatus_String (s : PresenceStatus) : string :=
  match s with
  | PresencePresent => "present" | PresenceUnknown => "unknown" | PresenceAbsent => "absent"
  end%string.

Inductive PresenceEventType := EventZoneEnter | EventZoneLeave | EventZoneUnknown.

#[global] Instance PresenceEventType_eq_dec : EqDecision PresenceEventType.
Proof. solve_decision. Defined.

Record presenceState := mkPresenceState {
  status : PresenceStatus;
  lastSeen : Z;
  lastChanged : Z;
  members : gset Z;
  enteringSince : Z;
  exitingSince : Z;
  lostSince : Z
}.

Definition zero_state : presenceState := mkPresenceState PresenceAbsent 0 0 ∅ 0 0 0.

Record PresenceEvent := mkPresenceEvent {
  pe_ZoneID : Z;
  pe_ZoneName : string;
  pe_Label : string;
  pe_Type : PresenceEventType;
  pe_Time : Z
}.

Record PresenceTracker := mkPresenceTracker {
  states : gmap PresenceKey presenceState;
  debounceEnter : Z;
  debounceExit : Z;
  debounceLeave : Z;
  shimIDs : gmap PresenceKey Z;
  nextShim : Z
}.

Definition stationaryReconfirmInterval : Z := 30 * Second.
Definition lostReconfirms : Z := 3.

Definition NewPresenceTracker : PresenceTracker :=
  mkPresenceTracker ∅ (3 * Second) (3 * Second) (lostReconfirms * stationaryReconfirmInterval) ∅ 0.

(** The first loop, for a key with tracks in its zone. *)
Definition seen_in_zone (debounceEnter now : Z) (tracks : gset Z) (state : presenceState)
    : presenceState * option PresenceEventType :=
  match status state with
  | PresencePresent =>
      (mkPresenceState PresencePresent now (lastChanged state) tracks (enteringSince state) 0 0, None)
  | s =>
      if IsZero (enteringSince state) then
        (mkPresenceState s now (lastChanged state) tracks now 0 0, None)
      else if debounceEnter <=? Sub now (enteringSince state) then
        (mkPresenceState PresencePresent now now tracks 0 0 0, Some EventZoneEnter)
      else (mkPresenceState s now (lastChanged state) tracks (enteringSince state) 0 0, None)
  end.

(** The second loop: an absent state nothing referenced for five minutes. *)
Definition forgotten (now : Z) (state : presenceState) : bool :=
  bool_decide (status state = PresenceAbsent) && negb (IsZero (lastSeen state)) &&
  (5 * Minute <? Sub now (lastSeen state)).

Definition membersStillDetected (members detected : gset Z) : bool := negb (bool_decide (members ∩ detected = ∅)).

(** The third loop, for a key without tracks in its zone. *)
Definition not_in_zone (debounceExit debounceLeave now : Z) (detected : gset Z) (state : presenceState)
    : presenceState * option PresenceEventType :=
  match status state with
  | PresencePresent =>
      if membersStillDetected (members state) detected then
        if IsZero (exitingSince state) then
          (mkPresenceState PresencePresent (lastSeen state) (lastChanged state) (members state) 0 now 0, None)
        else if debounceExit <=? Sub now (exitingSince state) then
          (mkPresenceState PresenceAbsent (lastSeen state) now ∅ 0 0 0, Some EventZoneLeave)
        else (mkPresenceState PresencePresent (lastSeen state) (lastChanged state) (members state) 0
                (exitingSince state) 0, None)
      else
        if IsZero (lostSince state) then
          (mkPresenceState PresencePresent (lastSeen state) (lastChanged state) (members state) 0 0 now, None)
        else if debounceLeave <=? Sub now (lostSince state) then
          (mkPresenceState PresenceUnknown (lastSeen state) now ∅ 0 0 0, Some EventZoneUnknown)
        else (mkPresenceState PresencePresent (lastSeen state) (lastChanged state) (members state) 0 0
                (lostSince state), None)
  | s => (mkPresenceState s (lastSeen state) (lastChanged state) (members state) 0 (exitingSince state)
            (lostSince state), None)
  end.

(** The three loops, for one key. *)
Definition key_step (pt : PresenceTracker) (now : Z) (tracks detected : gset Z) (state : option presenceState)
    : option presenceState * list PresenceEventType :=
  let '(state, e1) :=
    if bool_decide (tracks = ∅) then (state, None)
    else let '(s, e) := seen_in_zone (debounceEnter pt) now tracks (default zero_state state) in (Some s, e) in
  let state := state ≫= fun s => if forgotten now s then None else Some s in
  match state with
  | None => (None, option_list e1)
  | Some s =>
      if bool_decide (tracks = ∅) then
        let '(s, e3) := not_in_zone (debounceExit pt) (debounceLeave pt) now detected s in
        (Some s, option_list e1 ++ option_list e3)
      else (Some s, option_list e1)
  end.

Definition tracks_in (inZone : gmap PresenceKey (gset Z)) (key : PresenceKey) : gset Z := default ∅ (inZone !! key).

(** Every key a loop may visit. *)
Definition visited (pt : PresenceTracker) (inZone : gmap PresenceKey (gset Z)) : gset PresenceKey :=
  dom (states pt) ∪ dom inZone.

Definition step_at (pt : PresenceTracker) (now : Z) (inZone : gmap PresenceKey (gset Z)) (detected : gset Z)
    (key : PresenceKey) : option presenceState * list PresenceEventType :=
  key_step pt now (tracks_in inZone key) detected (states pt !! key).

Definition set_states (m : gmap PresenceKey presenceState) (pt : PresenceTracker) : PresenceTracker :=
  mkPresenceTracker m (debounceEnter pt) (debounceExit pt) (debounceLeave pt) (shimIDs pt) (nextShim pt).

Definition UpdateObserved (now : Z) (inZone : gmap PresenceKey (gset Z)) (detected : gset Z)
    (zones : gmap Z string) (pt : PresenceTracker) : PresenceTracker * list PresenceEvent :=
  let keys := elements (visited pt inZone) in
  let states' := foldr (fun key m =>
    match (step_at pt now inZone detected key).1 with Some s => <[key := s]> m | None => m end) ∅ keys in
  let events := keys ≫= fun key =>
    (fun ty => mkPresenceEvent key.1 (default ""%string (zones !! key.1)) key.2 ty now) <$>
      (step_at pt now inZone detected key).2 in
  (set_states states' pt, events).

(** The legacy entry point: a synthetic track per matched key. *)
Definition shim (st : gmap PresenceKey (gset Z) * gset Z * gmap PresenceKey Z * Z) (key : PresenceKey)
    : gmap PresenceKey (gset Z) * gset Z * gmap PresenceKey Z * Z :=
  let '(inZone, detected, shims, next) := st in
  let '(id, shims, next) :=
    match shims !! key with
    | Some id => (id, shims, next)
    | None => (- i64 (next + 1), <[key := - i64 (next + 1)]> shims, i64 (next + 1))
    end in
  (<[key := {[id]}]> inZone, {[id]} ∪ detected, shims, next).

(** [matched]: the keys mapped to true, in the order the map is ranged over. *)
Definition presence_Update (now : Z) (matched : list PresenceKey) (zones : gmap Z string) (pt : PresenceTracker)
    : PresenceTracker * list PresenceEvent :=
  let '(inZone, detected, shims, next) := fold_left shim matched (∅, ∅, shimIDs pt, nextShim pt) in
  UpdateObserved now inZone detected zones
    (mkPresenceTracker (states pt) (debounceEnter pt) (debounceExit pt) (debounceLeave pt) shims next).

Definition GetState (key : PresenceKey) (pt : PresenceTracker) : PresenceStatus * Z :=
  match states pt !! key with Some s => (status s, lastChanged s) | None => (PresenceAbsent, 0) end.

Definition GetPresence (key : PresenceKey) (pt : PresenceTracker) : bool * Z * Z :=
  match states pt !! key with
  | Some s => (bool_decide (status s = PresencePresent), lastSeen s, lastChanged s)
  | None => (false, 0, 0)
  end.

Record ZonePresence := mkZonePresence {
  zp_ZoneID : Z; zp_Label : string; zp_Present : bool; zp_LastSeen : Z; zp_LastChanged : Z
}.

Definition AllPresence (pt : PresenceTracker) : gmap PresenceKey ZonePresence :=
  map_imap (fun key s => Some (mkZonePresence key.1 key.2 (bool_decide (status s = PresencePresent))
    (lastSeen s) (lastChanged s))) (states pt).
