(* ===== verification/PresenceTheorems.v ===== *)
(** What zone presence guarantees: every event is backed by the observations of a
    whole debounce, events are exactly the changes of status, and what is observed
    is what was detected. *)

From S2P Require Import Prelude Float64 Tracker Presence.

(** ** One update, key by key *)

Lemma visited_None pt inZone key :
  key ∉ visited pt inZone -> states pt !! key = None /\ tracks_in inZone key = ∅.
Proof.
  unfold visited, tracks_in. rewrite not_elem_of_union, !not_elem_of_dom. intros [-> ->]. done.
Qed.

Lemma key_step_None pt now detected : key_step pt now ∅ detected None = (None, []).
Proof. unfold key_step. by rewrite bool_decide_eq_true_2. Qed.

Lemma UpdateObserved_lookup now inZone detected zones pt key :
  states (UpdateObserved now inZone detected zones pt).1 !! key = (step_at pt now inZone detected key).1.
Proof.
  unfold UpdateObserved. cbn [fst states set_states].
  assert (forall keys, NoDup keys -> foldr (fun key m =>
    match (step_at pt now inZone detected key).1 with Some s => <[key := s]> m | None => m end) (∅ : gmap PresenceKey presenceState) keys !! key =
    if bool_decide (key ∈ keys) then (step_at pt now inZone detected key).1 else None) as Hfold.
  { induction keys as [|k keys IH]; intros Hnd; simpl; [apply lookup_empty|].
    apply NoDup_cons in Hnd as [Hk Hnd]. specialize (IH Hnd). destruct (decide (key = k)) as [->|Hne].
    - rewrite (bool_decide_eq_true_2 (k ∈ k :: keys)) by (by left).
      rewrite (bool_decide_eq_false_2 (k ∈ keys)) in IH by done.
      destruct (step_at pt now inZone detected k).1; [apply lookup_insert_eq|done].
    - replace (bool_decide (key ∈ k :: keys)) with (bool_decide (key ∈ keys))
        by (apply bool_decide_ext; rewrite elem_of_cons; naive_solver).
      destruct (step_at pt now inZone detected k).1; [by rewrite lookup_insert_ne|done]. }
  rewrite Hfold by apply NoDup_elements. case_bool_decide as Hin; [done|].
  rewrite elem_of_elements in Hin. apply visited_None in Hin as [Hs Ht].
  unfold step_at. by rewrite Hs, Ht, key_step_None.
Qed.

(** The types of the events of one key. *)
Definition events_of (key : PresenceKey) (evs : list PresenceEvent) : list PresenceEventType :=
  pe_Type <$> filter (fun e => (pe_ZoneID e, pe_Label e) = key) evs.

Lemma events_of_app key l1 l2 : events_of key (l1 ++ l2) = events_of key l1 ++ events_of key l2.
Proof. unfold events_of. by rewrite filter_app, fmap_app. Qed.

Lemma UpdateObserved_events now inZone detected zones pt key :
  events_of key (UpdateObserved now inZone detected zones pt).2 = (step_at pt now inZone detected key).2.
Proof.
  unfold UpdateObserved. cbn [snd].
  assert (forall k l, events_of key ((fun ty => mkPresenceEvent k.1 (default ""%string (zones !! k.1)) k.2 ty now) <$> l)
    = if decide (k = key) then l else []) as Hone.
  { intros [z la] l. unfold events_of. induction l as [|ty l IH]; [by case_decide|].
    rewrite fmap_cons, filter_cons. cbn [pe_ZoneID pe_Label fst snd] in IH |- *. case_decide as Hd.
    - rewrite fmap_cons, IH. cbn [pe_Type]. done.
    - exact IH. }
  assert (forall keys, NoDup keys -> events_of key (keys ≫= fun k =>
    (fun ty => mkPresenceEvent k.1 (default ""%string (zones !! k.1)) k.2 ty now) <$>
      (step_at pt now inZone detected k).2) =
    if bool_decide (key ∈ keys) then (step_at pt now inZone detected key).2 else []) as Hall.
  { induction keys as [|k keys IH]; intros Hnd; [done|].
    apply NoDup_cons in Hnd as [Hk Hnd]. rewrite bind_cons, events_of_app, Hone, IH by done.
    destruct (decide (k = key)) as [->|Hne].
    - rewrite (bool_decide_eq_true_2 (key ∈ key :: keys)) by (by left).
      rewrite (bool_decide_eq_false_2 (key ∈ keys)) by done. by rewrite app_nil_r.
    - replace (bool_decide (key ∈ k :: keys)) with (bool_decide (key ∈ keys)); [done|].
      apply bool_decide_ext; rewrite elem_of_cons; naive_solver. }
  rewrite Hall by apply NoDup_elements. case_bool_decide as Hin; [done|].
  rewrite elem_of_elements in Hin. apply visited_None in Hin as [Hs Ht].
  unfold step_at. by rewrite Hs, Ht, key_step_None.
Qed.

(** ** One key's step, by what was observed *)

Lemma seen_in_zone_lastSeen enter now tracks s : lastSeen (seen_in_zone enter now tracks s).1 = now.
Proof. unfold seen_in_zone. destruct (status s), (IsZero (enteringSince s)); try done; by destruct (_ <=? _). Qed.

(** A key with tracks in its zone is never forgotten by the second loop. *)
Lemma key_step_in pt now tracks detected s : tracks <> ∅ ->
  key_step pt now tracks detected s =
  (Some (seen_in_zone (debounceEnter pt) now tracks (default zero_state s)).1,
   option_list (seen_in_zone (debounceEnter pt) now tracks (default zero_state s)).2).
Proof.
  intros Ht. unfold key_step. rewrite bool_decide_eq_false_2 by done.
  pose proof (seen_in_zone_lastSeen (debounceEnter pt) now tracks (default zero_state s)) as Hls.
  destruct (seen_in_zone _ _ _ _) as [st e]. cbn [fst snd mbind option_bind] in *.
  unfold forgotten. rewrite Hls. autorewrite with vedetta. by rewrite andb_false_r.
Qed.

(** A key without tracks in its zone: the state it had, unless it was forgotten, is
    handed to the third loop. *)
Lemma key_step_out pt now detected s :
  key_step pt now ∅ detected s =
  match s with
  | Some st => if forgotten now st then (None, [])
               else (Some (not_in_zone (debounceExit pt) (debounceLeave pt) now detected st).1,
                     option_list (not_in_zone (debounceExit pt) (debounceLeave pt) now detected st).2)
  | None => (None, [])
  end.
Proof.
  unfold key_step. rewrite bool_decide_eq_true_2 by done. destruct s as [st|]; [|done].
  cbn [mbind option_bind]. destruct (forgotten now st); [done|]. by destruct (not_in_zone _ _ _ _ _).
Qed.

(** ** Events are changes of status *)

Definition status_of (s : option presenceState) : PresenceStatus :=
  match s with Some s => status s | None => PresenceAbsent end.

(** The events that report a change of status. *)
Definition report (before after : PresenceStatus) : list PresenceEventType :=
  match before, after with
  | PresencePresent, PresencePresent => []
  | _, PresencePresent => [EventZoneEnter]
  | PresencePresent, PresenceAbsent => [EventZoneLeave]
  | PresencePresent, PresenceUnknown => [EventZoneUnknown]
  | _, _ => []
  end.

Lemma key_step_report pt now tracks detected s :
  (key_step pt now tracks detected s).2 = report (status_of s) (status_of (key_step pt now tracks detected s).1).
Proof.
  destruct (decide (tracks = ∅)) as [->|Ht].
  - rewrite key_step_out. destruct s as [s|]; [|done]. destruct (forgotten now s) eqn:Hf.
    + unfold forgotten in Hf. bool_to_prop. simpl. by rewrite H.
    + unfold not_in_zone. cbn [status_of]. destruct (status s) eqn:Hs; try done.
      destruct (membersStillDetected _ _);
        [destruct (IsZero (exitingSince s))|destruct (IsZero (lostSince s))]; try done; by destruct (_ <=? _).
  - rewrite key_step_in by done. cbn [fst snd]. unfold seen_in_zone.
    assert (status_of s = status (default zero_state s)) as -> by by destruct s.
    destruct (status (default zero_state s)); try done;
      destruct (IsZero (enteringSince (default zero_state s))); try done; by destruct (_ <=? _).
Qed.

Lemma GetState_status pt key : (GetState key pt).1 = status_of (states pt !! key).
Proof. unfold GetState, status_of. by destruct (states pt !! key). Qed.

(** ** Histories *)

(** A frame as the presence tracker receives it. *)
Record Frame := mkFrame { f_at : Z; f_inZone : gmap PresenceKey (gset Z); f_detected : gset Z }.

Section history.
Context (zones : gmap Z string) (key : PresenceKey).

(** The tracker after a history of frames, the latest first. *)
Fixpoint after (history : list Frame) : PresenceTracker :=
  match history with
  | [] => NewPresenceTracker
  | f :: older => (UpdateObserved (f_at f) (f_inZone f) (f_detected f) zones (after older)).1
  end.

(** The tracks that last held the zone. *)
Fixpoint holders (history : list Frame) : gset Z :=
  match history with
  | [] => ∅
  | f :: older => if bool_decide (tracks_in (f_inZone f) key = ∅) then holders older
                  else tracks_in (f_inZone f) key
  end.

(** What a frame shows of the key: objects in the zone, one of the last holders
    detected outside it, or none of them detected at all. *)
Inductive Sight := Inside | Elsewhere | Gone.

Definition sight (f : Frame) (older : list Frame) : Sight :=
  if bool_decide (tracks_in (f_inZone f) key = ∅) then
    if membersStillDetected (holders older) (f_detected f) then Elsewhere else Gone
  else Inside.

(** The latest frames all show [k], back to a frame at [since]. *)
Inductive streak (k : Sight) (since : Z) : list Frame -> Prop :=
| streak_start (f : Frame) (older : list Frame) : (sight f older = k) -> (f_at f = since) -> streak k since (f :: older)
| streak_more (f : Frame) (older : list Frame) : (sight f older = k) -> streak k since older -> streak k since (f :: older).

Definition evidence (ty : PresenceEventType) : Sight * Z :=
  match ty with
  | EventZoneEnter => (Inside, 3 * Second)
  | EventZoneLeave => (Elsewhere, 3 * Second)
  | EventZoneUnknown => (Gone, 90 * Second)
  end.

Lemma after_debounces h :
  debounceEnter (after h) = 3 * Second /\ debounceExit (after h) = 3 * Second /\ debounceLeave (after h) = 90 * Second.
Proof. induction h as [|f h IH]; [done|]. exact IH. Qed.

Lemma after_lookup f h :
  states (after (f :: h)) !! key =
  (key_step (after h) (f_at f) (tracks_in (f_inZone f) key) (f_detected f) (states (after h) !! key)).1.
Proof. cbn [after]. by rewrite UpdateObserved_lookup. Qed.

(** What the timers of a state remember of the history. *)
Record remembers (h : list Frame) (s : presenceState) : Prop := {
  rem_members : status s = PresencePresent -> members s = holders h;
  rem_enter : enteringSince s <> 0 -> streak Inside (enteringSince s) h;
  rem_exit : exitingSince s <> 0 -> status s = PresencePresent /\ streak Elsewhere (exitingSince s) h;
  rem_lost : lostSince s <> 0 -> status s = PresencePresent /\ streak Gone (lostSince s) h;
}.

Lemma holders_in f h : tracks_in (f_inZone f) key <> ∅ -> holders (f :: h) = tracks_in (f_inZone f) key.
Proof. intros Ht. cbn [holders]. by rewrite bool_decide_eq_false_2. Qed.

Lemma holders_out f h : tracks_in (f_inZone f) key = ∅ -> holders (f :: h) = holders h.
Proof. intros Ht. cbn [holders]. by rewrite bool_decide_eq_true_2. Qed.

Lemma sight_in f h : tracks_in (f_inZone f) key <> ∅ -> sight f h = Inside.
Proof. intros Ht. unfold sight. by rewrite bool_decide_eq_false_2. Qed.

Lemma sight_out f h : tracks_in (f_inZone f) key = ∅ ->
  sight f h = if membersStillDetected (holders h) (f_detected f) then Elsewhere else Gone.
Proof. intros Ht. unfold sight. by rewrite bool_decide_eq_true_2. Qed.

Lemma remembers_zero h : remembers h zero_state.
Proof. by split. Qed.

Lemma remembers_in enter f h s : tracks_in (f_inZone f) key <> ∅ -> remembers h s ->
  remembers (f :: h) (seen_in_zone enter (f_at f) (tracks_in (f_inZone f) key) s).1.
Proof.
  intros Ht [Hm He _ _]. pose proof (sight_in f h Ht) as Hs.
  unfold seen_in_zone, IsZero, zero_time.
  destruct (status s) eqn:Es, (Z.eqb_spec (enteringSince s) 0); try destruct (enter <=? _);
    split; cbn [members enteringSince exitingSince lostSince status fst]; try done;
    try (intros _; by rewrite holders_in); intros Hne; try done;
    first [by apply streak_start | by apply streak_more, He].
Qed.

Lemma remembers_out exit leave f h s : tracks_in (f_inZone f) key = ∅ -> remembers h s ->
  remembers (f :: h) (not_in_zone exit leave (f_at f) (f_detected f) s).1.
Proof.
  intros Ht [Hm _ Hx Hl]. pose proof (sight_out f h Ht) as Hs. unfold not_in_zone, IsZero, zero_time.
  destruct (status s) eqn:Es.
  - split; cbn [members enteringSince exitingSince lostSince status fst]; try done.
    + intros Hne. by destruct (Hx Hne).
    + intros Hne. by destruct (Hl Hne).
  - specialize (Hm eq_refl). rewrite Hm.
    destruct (membersStillDetected (holders h) (f_detected f));
      [destruct (Z.eqb_spec (exitingSince s) 0)|destruct (Z.eqb_spec (lostSince s) 0)];
      try destruct (_ <=? _);
      split; cbn [members enteringSince exitingSince lostSince status fst]; try done;
      try (intros _; by rewrite holders_out); intros Hne; split; try done;
      first [by apply streak_start | by apply streak_more, Hx | by apply streak_more, Hl].
  - split; cbn [members enteringSince exitingSince lostSince status fst]; try done.
    + intros Hne. by destruct (Hx Hne).
    + intros Hne. by destruct (Hl Hne).
Qed.

Lemma remembers_default h s : (forall st, s = Some st -> remembers h st) -> remembers h (default zero_state s).
Proof. intros H. destruct s; [by apply H|apply remembers_zero]. Qed.

Lemma after_remembers h s : states (after h) !! key = Some s -> remembers h s.
Proof.
  revert s. induction h as [|f h IH]; intros s; [done|]. rewrite after_lookup.
  destruct (decide (tracks_in (f_inZone f) key = ∅)) as [Ht|Ht].
  - rewrite Ht, key_step_out. destruct (states (after h) !! key) as [st|] eqn:E; [|done].
    destruct (forgotten _ _); [done|]. cbn [fst]. intros [= <-]. by apply remembers_out, IH.
  - rewrite key_step_in by done. cbn [fst]. intros [= <-].
    apply remembers_in; [done|]. by apply remembers_default.
Qed.

(** An event is emitted only at the end of a whole debounce of what it claims. *)
Lemma event_evidence f h ty :
  ty ∈ (key_step (after h) (f_at f) (tracks_in (f_inZone f) key) (f_detected f) (states (after h) !! key)).2 ->
  exists since, streak (evidence ty).1 since (f :: h) /\ (evidence ty).2 <= f_at f - since.
Proof.
  destruct (after_debounces h) as (Den & Dex & Dle).
  destruct (decide (tracks_in (f_inZone f) key = ∅)) as [Ht|Ht].
  - rewrite Ht, key_step_out. destruct (states (after h) !! key) as [s|] eqn:E; [|intros []%elem_of_nil].
    destruct (forgotten _ _); [intros []%elem_of_nil|]. cbn [snd].
    pose proof (after_remembers h s E) as [Hm _ Hx Hl]. pose proof (sight_out f h Ht) as Hs.
    unfold not_in_zone, IsZero, zero_time. destruct (status s) eqn:Es; [intros []%elem_of_nil| |intros []%elem_of_nil].
    rewrite Hm, Dex, Dle by done.
    destruct (membersStillDetected (holders h) (f_detected f)).
    + destruct (Z.eqb_spec (exitingSince s) 0) as [|Hne]; [intros []%elem_of_nil|].
      destruct (Z.leb_spec (3 * Second) (Sub (f_at f) (exitingSince s))) as [Hd|]; [|intros []%elem_of_nil].
      intros ->%list_elem_of_singleton. exists (exitingSince s).
      split; [by apply streak_more, Hx|by apply Sub_ge in Hd].
    + destruct (Z.eqb_spec (lostSince s) 0) as [|Hne]; [intros []%elem_of_nil|].
      destruct (Z.leb_spec (90 * Second) (Sub (f_at f) (lostSince s))) as [Hd|]; [|intros []%elem_of_nil].
      intros ->%list_elem_of_singleton. exists (lostSince s).
      split; [by apply streak_more, Hl|by apply Sub_ge in Hd].
  - rewrite key_step_in by done. cbn [snd].
    pose proof (remembers_default h _ (after_remembers h)) as [_ He _ _].
    unfold seen_in_zone, IsZero, zero_time. rewrite Den.
    set (s := default zero_state (states (after h) !! key)) in *.
    destruct (status s); try (by intros []%elem_of_nil);
      (destruct (Z.eqb_spec (enteringSince s) 0) as [|Hne]; [intros []%elem_of_nil|]);
      (destruct (Z.leb_spec (3 * Second) (Sub (f_at f) (enteringSince s))) as [Hd|]; [|intros []%elem_of_nil]);
      intros ->%list_elem_of_singleton; exists (enteringSince s);
      (split; [apply streak_more; [by apply sight_in|by apply He]|by apply Sub_ge in Hd]).
Qed.

(** ** A whole debounce settles the status *)

(** The clock never runs backwards and never reads the zero time. *)
Fixpoint timed (history : list Frame) : Prop :=
  match history with
  | [] => True
  | f :: older => 0 < f_at f /\ Forall (fun g => f_at g <= f_at f) older /\ timed older
  end.

Definition settled (k : Sight) (st : PresenceStatus) : Prop :=
  match k with Inside => st = PresencePresent | _ => st <> PresencePresent end.

Definition timer (k : Sight) (s : presenceState) : Z :=
  match k with Inside => enteringSince s | Elsewhere => exitingSince s | Gone => lostSince s end.

Definition wait (k : Sight) : Z :=
  match k with Inside => 3 * Second | Elsewhere => 3 * Second | Gone => 90 * Second end.

Lemma streak_time k since h : streak k since h -> timed h -> 0 < since /\ Exists (fun g => f_at g = since) h.
Proof.
  induction 1 as [f h Hs <-|f h Hs Hk IH]; cbn [timed]; intros (Hf & Hall & Ht).
  - split; [done|]. by left.
  - destruct (IH Ht). split; [done|]. by right.
Qed.

Lemma streak_before k since f h : streak k since h -> timed (f :: h) -> 0 < since <= f_at f.
Proof.
  cbn [timed]. intros Hk (Hf & Hall & Ht). destruct (streak_time k since h Hk Ht) as [Hp Hex].
  split; [done|]. apply Exists_exists in Hex as (g & Hg & <-). rewrite Forall_forall in Hall. by apply Hall.
Qed.

(** One more frame of the same sight: settled, or timed since the streak began. *)
Lemma advance k f h :
  sight f h = k -> timed (f :: h) ->
  settled k (status_of (states (after (f :: h)) !! key)) \/
  exists s, states (after (f :: h)) !! key = Some s /\
    ((timer k (default zero_state (states (after h) !! key)) = 0 /\ timer k s = f_at f) \/
     (timer k (default zero_state (states (after h) !! key)) <> 0 /\
      timer k s = timer k (default zero_state (states (after h) !! key)) /\
      f_at f - timer k (default zero_state (states (after h) !! key)) < wait k)).
Proof.
  intros Hs Ht. rewrite after_lookup. destruct (after_debounces h) as (Den & Dex & Dle).
  destruct (decide (tracks_in (f_inZone f) key = ∅)) as [Htr|Htr].
  - rewrite sight_out in Hs by done. rewrite Htr, key_step_out.
    destruct (states (after h) !! key) as [s|] eqn:E; [|left; by destruct (membersStillDetected _ _); subst k].
    destruct (forgotten _ _); [left; by destruct (membersStillDetected _ _); subst k|].
    pose proof (after_remembers h s E) as [Hm _ _ _]. cbn [fst status_of default from_option Datatypes.id].
    unfold not_in_zone, IsZero, zero_time.
    destruct (status s) eqn:Es; [left; by destruct (membersStillDetected _ _); subst k| |
      left; by destruct (membersStillDetected _ _); subst k].
    rewrite Hm, Dex, Dle by done.
    destruct (membersStillDetected (holders h) (f_detected f)); subst k; cbn [timer wait].
    + destruct (Z.eqb_spec (exitingSince s) 0) as [|Hne]; [right; eexists; split; [done|]; by left|].
      destruct (Z.leb_spec (3 * Second) (Sub (f_at f) (exitingSince s))) as [Hd|Hd]; [by left|].
      right. eexists; split; [done|]. right. by apply Sub_lt in Hd.
    + destruct (Z.eqb_spec (lostSince s) 0) as [|Hne]; [right; eexists; split; [done|]; by left|].
      destruct (Z.leb_spec (90 * Second) (Sub (f_at f) (lostSince s))) as [Hd|Hd]; [by left|].
      right. eexists; split; [done|]. right. by apply Sub_lt in Hd.
  - rewrite sight_in in Hs by done. subst k. rewrite key_step_in by done. cbn [fst status_of timer wait settled].
    unfold seen_in_zone, IsZero, zero_time. rewrite Den.
    set (s := default zero_state (states (after h) !! key)).
    destruct (status s) eqn:Es; [|by left|];
      (destruct (Z.eqb_spec (enteringSince s) 0) as [|Hne]; [right; eexists; split; [done|]; by left|]);
      (destruct (Z.leb_spec (3 * Second) (Sub (f_at f) (enteringSince s))) as [Hd|Hd]; [by left|]);
      right; eexists; (split; [done|]); right; by apply Sub_lt in Hd.
Qed.

(** What was settled stays settled as long as the sight does not change. *)
Lemma stays_settled k f h :
  sight f h = k -> settled k (status_of (states (after h) !! key)) ->
  settled k (status_of (states (after (f :: h)) !! key)).
Proof.
  intros Hs Hset. rewrite after_lookup.
  destruct (decide (tracks_in (f_inZone f) key = ∅)) as [Htr|Htr].
  - rewrite sight_out in Hs by done. rewrite Htr, key_step_out.
    assert (status_of (states (after h) !! key) <> PresencePresent) as Hnp
      by by destruct (membersStillDetected _ _); subst k.
    assert (forall st, st <> PresencePresent -> settled k st) as Hout
      by (intros st; by destruct (membersStillDetected _ _); subst k).
    destruct (states (after h) !! key) as [s|]; [|by apply Hout]. destruct (forgotten _ _); [by apply Hout|].
    apply Hout. cbn [fst status_of] in *. unfold not_in_zone. by destruct (status s).
  - rewrite sight_in in Hs by done. subst k. rewrite key_step_in by done. cbn [fst status_of settled] in *.
    destruct (states (after h) !! key) as [s|]; [|done]. cbn [status_of default from_option Datatypes.id] in *.
    unfold seen_in_zone. unfold Datatypes.id. by rewrite Hset.
Qed.

Lemma timer_of_default k h s : s = states (after h) !! key ->
  timer k (default zero_state s) <> 0 -> streak k (timer k (default zero_state s)) h.
Proof.
  intros -> Hne. pose proof (remembers_default h _ (after_remembers h)) as [_ He Hx Hl].
  destruct k; [by apply He|by apply Hx|by apply Hl].
Qed.

Lemma streak_settles k since h :
  streak k since h -> timed h ->
  settled k (status_of (states (after h) !! key)) \/
  exists s, states (after h) !! key = Some s /\ 0 < timer k s <= since.
Proof.
  induction 1 as [f h Hs <-|f h Hs Hk IH]; intros Ht.
  - destruct (advance k f h Hs Ht) as [|(s & E & [[H0 Hs0]|(H0 & Hs0 & _)])]; [by left| |];
      right; exists s; (split; [done|]); rewrite Hs0.
    + cbn [timed] in Ht. lia.
    + pose proof (timer_of_default k h _ eq_refl H0) as Hst. by apply (streak_before k _ f h).
  - destruct (IH ltac:(apply Ht)) as [Hset|(s0 & E0 & Hs0)]; [left; by apply stays_settled|].
    destruct (advance k f h Hs Ht) as [|(s & E & Hor)]; [by left|]. right. exists s. split; [done|].
    rewrite E0 in Hor. cbn [default from_option Datatypes.id] in Hor. unfold Datatypes.id in Hor. lia.
Qed.

Lemma debounce_settles k since f h :
  streak k since (f :: h) -> timed (f :: h) -> wait k <= f_at f - since ->
  settled k (status_of (states (after (f :: h)) !! key)).
Proof.
  intros Hk Ht Hw. assert (0 < wait k) by by destruct k. inversion Hk as [? ? Hs Heq|? ? Hs Hk']; subst; [lia|].
  destruct (streak_settles _ since h Hk' ltac:(apply Ht)) as [Hset|(s0 & E0 & Hs0)]; [by apply stays_settled|].
  destruct (advance _ f h eq_refl Ht) as [|(s & E & Hor)]; [done|]. exfalso.
  rewrite E0 in Hor. cbn [default from_option] in Hor. unfold Datatypes.id in Hor. lia.
Qed.
End history.

(** ** Zone matching *)

Lemma observe_zone_lookup obj zs key : forall m id,
  id ∈ tracks_in (fold_left (observe_zone obj) zs m) key <->
  id ∈ tracks_in m key \/
  (id = to_TrackID obj /\ exists z, z ∈ zs /\ z_TrackPresence z = true /\ key = (z_ID z, to_Label obj)).
Proof.
  induction zs as [|z zs IH]; intros m id; cbn [fold_left].
  - split; [by left|]. intros [?|(_ & z & Hz%elem_of_nil & _)]; done.
  - rewrite IH. unfold observe_zone at 1. destruct (z_TrackPresence z) eqn:Ez.
    + assert (id ∈ tracks_in (<[(z_ID z, to_Label obj):={[to_TrackID obj]} ∪ default ∅ (m !! (z_ID z, to_Label obj))]> m) key
        <-> id ∈ tracks_in m key \/ (id = to_TrackID obj /\ key = (z_ID z, to_Label obj))) as ->.
      { unfold tracks_in. destruct (decide (key = (z_ID z, to_Label obj))) as [->|Hne].
        - rewrite lookup_insert_eq. cbn [from_option Datatypes.id]. rewrite elem_of_union, elem_of_singleton. tauto.
        - rewrite lookup_insert_ne by done. tauto. }
      split.
      * intros [[?|[-> ->]]|(-> & z' & Hz' & HT & ->)]; [by left| |]; right; split; try done.
        -- exists z. split; [by left|done].
        -- exists z'. split; [by right|done].
      * intros [?|(-> & z' & Hz' & HT & ->)]; [by left; left|].
        apply elem_of_cons in Hz' as [->|Hz']; [left; by right|]. right. split; [done|]. by exists z'.
    + split; (intros [?|(-> & z' & Hz' & HT & ->)]; [by left|]); right; (split; [done|]); exists z'; split; try done.
      * by right.
      * apply elem_of_cons in Hz' as [->|]; [congruence|done].
Qed.

Section matching.
Context (zones : list Zone) (w h : Z).

Lemma matchZones_fold tracked : forall o key id,
  let o' := fold_left (observe_object zones w h) tracked o in
  (id ∈ tracks_in (inZone o') key <->
   id ∈ tracks_in (inZone o) key \/
   exists obj z, obj ∈ tracked /\ to_Detected obj = true /\ to_TrackID obj = id /\
     z ∈ MatchZones zones (to_Box obj) (to_Label obj) w h /\ z_TrackPresence z = true /\
     key = (z_ID z, to_Label obj)) /\
  (id ∈ detected o' <-> id ∈ detected o \/ exists obj, obj ∈ tracked /\ to_Detected obj = true /\ to_TrackID obj = id).
Proof.
  induction tracked as [|obj tracked IH]; intros o key id; cbn [fold_left].
  - split; (split; [by left|]); intros [?|Hex]; try done;
      [destruct Hex as (? & ? & []%elem_of_nil & _)|destruct Hex as (? & []%elem_of_nil & _)].
  - destruct (IH (observe_object zones w h o obj) key id) as [-> ->]. unfold observe_object.
    destruct (to_Detected obj) eqn:Ed; cbn [inZone detected]; split.
    + rewrite observe_zone_lookup. split.
      * intros [[?|(-> & z & Hz & HT & ->)]|(ob & z & Hob & ?)]; [by left| |]; right.
        -- exists obj, z. split_and!; try done. by left.
        -- exists ob, z. split; [by right|done].
      * intros [?|(ob & z & [->|Hob]%elem_of_cons & Hd & <- & Hz & HT & ->)]; [by left; left| |].
        -- left. right. split; [done|]. by exists z.
        -- right. by exists ob, z.
    + rewrite elem_of_union, elem_of_singleton. split.
      * intros [[->|?]|(ob & Hob & ?)]; [|by left|]; right; [exists obj|exists ob]; split; try done; [by left|by right].
      * intros [?|(ob & [->|Hob]%elem_of_cons & Hd & <-)]; [by left; right|by left; left|].
        right. by exists ob.
    + split; (intros [?|(ob & z & Hob & Hrest)]; [by left|]); right; exists ob, z; (split; [|done]); [by right|].
      apply elem_of_cons in Hob as [->|]; [|done]. destruct Hrest. congruence.
    + split; (intros [?|(ob & Hob & Hrest)]; [by left|]); right; exists ob; (split; [|done]); [by right|].
      apply elem_of_cons in Hob as [->|]; [|done]. destruct Hrest. congruence.
Qed.
End matching.

Lemma elem_of_MatchZones zones b label w h z :
  z ∈ MatchZones zones b label w h <->
  0 < w /\ 0 < h /\ bx1 b < bx2 b /\ by1 b < by2 b /\
  z ∈ zones /\ z_Enabled z = true /\ zoneMatchesLabel z label = true /\ 3 <= Z.of_nat (length (z_Points z)) /\
  pointInPolygon (fdiv (fdiv (f64_of_Z (i64 (bx1 b + bx2 b))) (f64_of_Z 2)) (f64_of_Z w))
    (fdiv (f64_of_Z (by2 b)) (f64_of_Z h)) (z_Points z) = true.
Proof.
  unfold MatchZones. destruct (Z.leb_spec w 0), (Z.leb_spec h 0); simpl;
    try (split; [intros []%elem_of_nil|lia]).
  destruct (Z.leb_spec (bx2 b) (bx1 b)), (Z.leb_spec (by2 b) (by1 b)); simpl;
    try (split; [intros []%elem_of_nil|lia]).
  rewrite list_elem_of_filter, Is_true_true, !andb_true_iff, Z.leb_le. tauto.
Qed.

Lemma zoneMatchesLabel_spec z label :
  zoneMatchesLabel z label = true <-> z_Labels z = [] \/ label ∈ z_Labels z.
Proof.
  unfold zoneMatchesLabel. destruct (z_Labels z) as [|l ls]; [tauto|].
  rewrite existsb_exists. split.
  - intros (x & Hx%list_elem_of_In & ->%String.eqb_eq). by right.
  - intros [|Hin]; [done|]. exists label. split; [by apply list_elem_of_In|apply String.eqb_refl].
Qed.

(** ** Properties *)

(** C14: every presence event a tracker emits is about a zone and label whose latest
    frames, without interruption and for at least the matching debounce, all showed
    what the event claims: tracks detected inside the zone for an enter (3 s), a
    track that last held the zone detected outside it for a leave (3 s), and none of
    those tracks detected anywhere for an unknown (90 s).  An object that merely
    stops being detected is never reported to have left. *)
Theorem zone_event_has_evidence zones h f e :
  e ∈ (UpdateObserved (f_at f) (f_inZone f) (f_detected f) zones (after zones h)).2 ->
  pe_Time e = f_at f /\
  exists since, streak (pe_ZoneID e, pe_Label e) (evidence (pe_Type e)).1 since (f :: h) /\
    (evidence (pe_Type e)).2 <= f_at f - since.
Proof.
  intros He. split.
  - unfold UpdateObserved in He. cbn [snd] in He. apply list_elem_of_bind in He as (k & (ty & -> & _)%list_elem_of_fmap & _). done.
  - apply (event_evidence zones). change (pe_Type e ∈ (step_at (after zones h) (f_at f) (f_inZone f) (f_detected f) (pe_ZoneID e, pe_Label e)).2).
    rewrite <- (UpdateObserved_events _ _ _ zones). unfold events_of. apply list_elem_of_fmap. exists e.
    split; [done|]. by apply list_elem_of_filter.
Qed.

(** One update reports, for every zone and label, exactly the change of its
    status: at most one event, enter when it becomes present, leave when a present
    one becomes absent, unknown when a present one becomes unknown, and nothing when
    the status stays or an unknown or absent state is forgotten. *)
Theorem zone_events_are_status_changes now inZone detected zones pt key :
  events_of key (UpdateObserved now inZone detected zones pt).2 =
  report (GetState key pt).1 (GetState key (UpdateObserved now inZone detected zones pt).1).1.
Proof.
  rewrite UpdateObserved_events, !GetState_status, UpdateObserved_lookup. apply key_step_report.
Qed.

(** The status answers after a whole debounce: when the latest frames show
    objects inside the zone for 3 s the zone is present, when they show its holders
    elsewhere for 3 s or nowhere for 90 s it no longer is, whatever happened
    before. *)
Theorem zone_debounce_settles zones key k since f h :
  streak key k since (f :: h) -> timed (f :: h) -> wait k <= f_at f - since ->
  settled k (GetState key (after zones (f :: h))).1.
Proof. intros. rewrite GetState_status. by apply (debounce_settles zones key k since). Qed.

(** The observations handed to presence are exactly what was detected: a track is
    in a zone for a label when the frame detected an object with that track and label
    whose bottom centre lies in the polygon of an enabled, presence-tracking zone
    that accepts the label; and it is detected when some object of the frame with it
    was.  Coasting objects count nowhere. *)
Theorem matchZones_exact zones tracked w h key id :
  (id ∈ tracks_in (inZone (matchZones zones tracked w h)) key <->
   exists obj z, obj ∈ tracked /\ to_Detected obj = true /\ to_TrackID obj = id /\
     z ∈ zones /\ z_Enabled z = true /\ z_TrackPresence z = true /\ key = (z_ID z, to_Label obj) /\
     (z_Labels z = [] \/ to_Label obj ∈ z_Labels z) /\ 3 <= Z.of_nat (length (z_Points z)) /\
     0 < w /\ 0 < h /\ bx1 (to_Box obj) < bx2 (to_Box obj) /\ by1 (to_Box obj) < by2 (to_Box obj) /\
     pointInPolygon (fdiv (fdiv (f64_of_Z (i64 (bx1 (to_Box obj) + bx2 (to_Box obj)))) (f64_of_Z 2)) (f64_of_Z w))
       (fdiv (f64_of_Z (by2 (to_Box obj))) (f64_of_Z h)) (z_Points z) = true) /\
  (id ∈ detected (matchZones zones tracked w h) <->
   exists obj, obj ∈ tracked /\ to_Detected obj = true /\ to_TrackID obj = id).
Proof.
  destruct (matchZones_fold zones w h tracked (mkObservations ∅ ∅ ∅) key id) as [H1 H2].
  unfold matchZones. rewrite H1, H2. cbn [inZone detected]. unfold tracks_in at 1. rewrite lookup_empty.
  split; (split; [intros [[]%elem_of_empty|H]|intros H; right]); try done.
  - destruct H as (obj & z & ? & ? & ? & Hz & ? & ?). exists obj, z.
    rewrite elem_of_MatchZones, zoneMatchesLabel_spec in Hz. tauto.
  - destruct H as (obj & z & H). exists obj, z. rewrite elem_of_MatchZones, zoneMatchesLabel_spec. tauto.
Qed.

(** ** Witnesses *)

Definition w_key : PresenceKey := (1, "car"%string).
Definition w_in (t : Z) : Frame := mkFrame (t * Second) {[w_key := {[7]}]} {[7]}.
Definition w_out (t : Z) : Frame := mkFrame (t * Second) ∅ {[7]}.

(** A car is in the zone for three seconds, then drives off. *)
Lemma zone_event_has_evidence_witness :
  let h := [w_out 11; w_in 10; w_in 7] in
  let f := w_out 14 in
  let e := mkPresenceEvent 1 "drive" "car" EventZoneLeave (14 * Second) in
  e ∈ (UpdateObserved (f_at f) (f_inZone f) (f_detected f) {[1 := "drive"%string]} (after {[1 := "drive"%string]} h)).2 /\
  exists since, streak (pe_ZoneID e, pe_Label e) (evidence (pe_Type e)).1 since (f :: h) /\
    (evidence (pe_Type e)).2 <= f_at f - since.
Proof.
  intros h f e.
  assert (e ∈ (UpdateObserved (f_at f) (f_inZone f) (f_detected f) {[1 := "drive"%string]} (after {[1 := "drive"%string]} h)).2) as He.
  { vm_compute. left. }
  split; [exact He|]. exact (proj2 (zone_event_has_evidence _ h f e He)).
Defined.

Lemma zone_debounce_settles_witness :
  settled Inside (GetState w_key (after {[1 := "drive"%string]} [w_in 10; w_in 7])).1.
Proof.
  apply (zone_debounce_settles _ _ _ (7 * Second)).
  - apply streak_more; [reflexivity|]. apply streak_start; reflexivity.
  - cbn [timed f_at w_in]. rewrite !Forall_cons, !Forall_nil. cbn [f_at w_in]. unfold Second. lia.
  - cbn [wait f_at w_in]. unfold Second. lia.
Defined.
