(* ===== verification/Motion.v ===== *)
(** Motion detection ([detect/motion.go]): the difference of a blurred frame to a
    running background, thresholded to a mask, and the connected components of the
    mask by two passes over a union-find structure.

    A byte is a [Z]; a pixel is its index in row-major order.  The answer [None] is the
    panic of an index out of range.  The order of a range over the boxes is a
    parameter.

    The union-find structure of motion detection: every element has one representative,
    [find] reaches it and changes none, [union] merges two classes. *)

From S2P Require Import Prelude Float64 Tracker.
From Stdlib Require Import Floats.SpecFloat.

#[local] Open Scope Z_scope.

(** [MotionScore]: the mean difference of the brightness of two frames. *)
Fixpoint total_diff (prev curr : list Z) : Z :=
  match prev, curr with
  | p1 :: p2 :: p3 :: prev, c1 :: c2 :: c3 :: curr =>
      let diff := (p1 + p2 + p3) - (c1 + c2 + c3) in
      (if diff <? 0 then - diff else diff) + total_diff prev curr
  | _, _ => 0
  end.

Definition MotionScore (prev curr : list Z) : float64 :=
  if negb (bool_decide (length prev = length curr)) || bool_decide (prev = []) then fzero
  else
    let maxDiff := fmul (f64_of_Z (Z.of_nat (length prev / 3))) (f64_of_Z 765) in
    fmin (fdiv (f64_of_Z (u64 (total_diff prev curr))) maxDiff) (f64_of_Z 1).

Record MotionRegion := mkRegion { mr_Box : Box; mr_Area : Z; mr_Score : float64 }.

(** ** Buffers *)

(** The pixels of a frame, in the order of the loops. *)
Definition grid (w h : nat) : list (nat * nat) := y ← seq 0 h; (fun x => (y, x)) <$> seq 0 w.

Definition gray_at (frame : list Z) (i : nat) : Z :=
  u8 (Z.shiftr ((frame !!! (3 * i)%nat) + (frame !!! (3 * i + 1)%nat) * 2 + (frame !!! (3 * i + 2)%nat)) 2).

(** The values of the three by three neighborhood that lie in the frame. *)
Definition neighborhood (src : list Z) (w h y x : nat) : list Z :=
  dy ← [-1; 0; 1];
  let ny := Z.of_nat y + dy in
  if (ny <? 0) || (Z.of_nat h <=? ny) then []
  else
    dx ← [-1; 0; 1];
    let nx := Z.of_nat x + dx in
    if (nx <? 0) || (Z.of_nat w <=? nx) then [] else [src !!! Z.to_nat (ny * Z.of_nat w + nx)].

Definition boxBlur3x3 (src : list Z) (w h : nat) : list Z :=
  (fun p => let l := neighborhood src w h p.1 p.2 in u8 (fold_left Z.add l 0 ÷ Z.of_nat (length l))) <$> grid w h.

(** ** Union and find *)

(** [for parent[x] != x], with path halving; the answer carries the new array. *)
Fixpoint find_fuel (fuel : nat) (parent : list nat) (x : nat) : list nat * nat :=
  match fuel with
  | O => (parent, x)
  | S fuel =>
      if bool_decide (parent !!! x = x) then (parent, x)
      else
        let parent := <[x := parent !!! (parent !!! x)]> parent in
        find_fuel fuel parent (parent !!! x)
  end.

Definition find (parent : list nat) (x : nat) : list nat * nat := find_fuel (S x) parent x.

Definition union (parent : list nat) (a b : nat) : list nat :=
  let '(parent, ra) := find parent a in
  let '(parent, rb) := find parent b in
  if bool_decide (ra = rb) then parent
  else
    let '(ra, rb) := if bool_decide (rb < ra)%nat then (rb, ra) else (ra, rb) in
    <[rb := ra]> parent.

(** ** The two passes *)

(** The labels and the parents; [nextLabel] is the length of the parents. *)
Definition label_pixel (binary : list bool) (w : nat) (st : list nat * list nat) (p : nat * nat) : list nat * list nat :=
  let '(labels, parent) := st in
  let '(y, x) := p in
  let idx := (y * w + x)%nat in
  if negb (binary !!! idx) then st
  else
    let left := if (0 <? Z.of_nat x) then labels !!! (idx - 1)%nat else 0%nat in
    let above := if (0 <? Z.of_nat y) then labels !!! (idx - w)%nat else 0%nat in
    match left, above with
    | O, O => (<[idx := length parent]> labels, parent ++ [length parent])
    | S _, O => let '(parent, r) := find parent left in (<[idx := r]> labels, parent)
    | O, S _ => let '(parent, r) := find parent above in (<[idx := r]> labels, parent)
    | S _, S _ =>
        let '(parent, ra) := find parent above in
        let '(parent, rl) := find parent left in
        let minLabel := if bool_decide (ra < rl)%nat then above else left in
        let '(parent, r) := find parent minLabel in
        (<[idx := r]> labels, union parent left above)
    end.

Definition first_pass (binary : list bool) (w h : nat) : list nat * list nat :=
  fold_left (label_pixel binary w) (grid w h) (replicate (w * h) 0%nat, [0%nat]).

Record bbox := mkBbox { bb_x1 : nat; bb_y1 : nat; bb_x2 : nat; bb_y2 : nat; bb_area : nat }.

Definition widen (x y : nat) (b : bbox) : bbox :=
  mkBbox (if bool_decide (x < bb_x1 b)%nat then x else bb_x1 b) (if bool_decide (y < bb_y1 b)%nat then y else bb_y1 b)
    (if bool_decide (bb_x2 b < x + 1)%nat then (x + 1)%nat else bb_x2 b)
    (if bool_decide (bb_y2 b < y + 1)%nat then (y + 1)%nat else bb_y2 b) (bb_area b + 1)%nat.

Definition collect_pixel (w : nat) (st : list nat * list nat * gmap nat bbox) (p : nat * nat) : list nat * list nat * gmap nat bbox :=
  let '(labels, parent, boxes) := st in
  let '(y, x) := p in
  let idx := (y * w + x)%nat in
  match labels !!! idx with
  | O => st
  | _ =>
      let '(parent, root) := find parent (labels !!! idx) in
      let b := default (mkBbox x y (x + 1) (y + 1) 0) (boxes !! root) in
      (<[idx := root]> labels, parent, <[root := widen x y b]> boxes)
  end.

Definition second_pass (w h : nat) (st : list nat * list nat) : list nat * list nat * gmap nat bbox :=
  fold_left (collect_pixel w) (grid w h) (st, ∅).

Class BoxOrder := box_order : gmap nat bbox -> list (nat * bbox).
Class BoxOrderOk `{BoxOrder} := box_order_perm m : box_order m ≡ₚ map_to_list m.

(** ** The detector *)

Record MotionDetector := mkMotionDetector {
  md_threshold : Z;
  md_minArea : Z;
  md_bgAlpha : float64;
  md_bg : option (list float64);
  md_lastCoverage : float64
}.

Definition NewMotionDetector (threshold minArea : Z) (bgAlpha : float64) : MotionDetector :=
  mkMotionDetector threshold minArea bgAlpha None fzero.

Definition FrameCoverage (m : MotionDetector) : float64 := md_lastCoverage m.

Section detector.
Context `{BoxOrder}.

Definition region_of (b : bbox) : MotionRegion :=
  mkRegion (mkBox (Z.of_nat (bb_x1 b)) (Z.of_nat (bb_y1 b)) (Z.of_nat (bb_x2 b)) (Z.of_nat (bb_y2 b))) (Z.of_nat (bb_area b)) fzero.

Definition connectedComponents (minArea : Z) (binary : list bool) (w h : nat) : list MotionRegion :=
  let '(_, _, boxes) := second_pass w h (first_pass binary w h) in
  region_of <$> filter (fun b => minArea <= Z.of_nat (bb_area b)) (box_order boxes).*2.

Definition score_region (r : MotionRegion) : MotionRegion :=
  let regionPixels := i64 ((bx2 (mr_Box r) - bx1 (mr_Box r)) * (by2 (mr_Box r) - by1 (mr_Box r))) in
  if 0 <? regionPixels then mkRegion (mr_Box r) (mr_Area r) (fdiv (f64_of_Z (mr_Area r)) (f64_of_Z regionPixels)) else r.

(** Whether a pixel differs from the background by more than the threshold. *)
Definition foreground (threshold blurred : Z) (bg : float64) : bool :=
  let diff := fsub (f64_of_Z blurred) bg in
  let diff := if flt diff fzero then SFopp diff else diff in
  fgt diff (f64_of_Z threshold).

Definition mask (threshold : Z) (blurred : list Z) (bg : list float64) : list bool :=
  zip_with (foreground threshold) blurred bg.

Definition blend (alpha : float64) (bg : float64) (blurred : Z) : float64 :=
  fadd (fmul bg (fsub (f64_of_Z 1) alpha)) (fmul (f64_of_Z blurred) alpha).

Definition set_bg (bg : list float64) (coverage : float64) (m : MotionDetector) : MotionDetector :=
  mkMotionDetector (md_threshold m) (md_minArea m) (md_bgAlpha m) (Some bg) coverage.

Definition Detect (frame : list Z) (w h : nat) (m : MotionDetector) : option (MotionDetector * list MotionRegion) :=
  let pixels := (w * h)%nat in
  if negb (bool_decide (length frame = pixels * 3)%nat) then Some (m, [])
  else
    let gray := gray_at frame <$> seq 0 pixels in
    match md_bg m with
    | None => Some (set_bg (f64_of_Z <$> gray) fzero m, [])
    | Some bg =>
        if bool_decide (length bg < pixels)%nat then None
        else
          let blurred := boxBlur3x3 gray w h in
          let binary := mask (md_threshold m) blurred bg in
          let totalFG := Z.of_nat (length (filter (fun b : bool => b = true) binary)) in
          let bg := zip_with (blend (md_bgAlpha m)) bg blurred ++ drop pixels bg in
          if totalFG =? 0 then Some (set_bg bg fzero m, [])
          else
            Some (set_bg bg (fdiv (f64_of_Z totalFG) (f64_of_Z (Z.of_nat pixels))) m,
                  score_region <$> connectedComponents (md_minArea m) binary w h)
    end.

End detector.

(** * The union-find structure *)

#[local] Open Scope nat_scope.

(** Parents never point up; so following them ends. *)
Definition uf_ok (parent : list nat) : Prop := forall x, parent !!! x <= x.

Fixpoint climb (n : nat) (parent : list nat) (x : nat) : nat :=
  match n with O => x | S n => climb n parent (parent !!! x) end.

Definition rep (parent : list nat) (x : nat) : nat := climb x parent x.

Definition is_root (parent : list nat) (x : nat) : Prop := parent !!! x = x.

Lemma climb_root n parent x : is_root parent x -> climb n parent x = x.
Proof. intros Hr. induction n as [|n IH]; [done|]. cbn. by rewrite Hr. Qed.

Lemma climb_enough n m parent x : uf_ok parent -> x <= n -> x <= m -> climb n parent x = climb m parent x.
Proof.
  intros Hok. revert n m. induction (lt_wf x) as [x _ IH]. intros n m Hn Hm.
  destruct (decide (parent !!! x = x)) as [Hr|Hr]; [by rewrite !climb_root|].
  pose proof (Hok x). destruct n as [|n]; [lia|]. destruct m as [|m]; [lia|]. cbn. apply IH; lia.
Qed.

Lemma rep_parent parent x : uf_ok parent -> rep parent (parent !!! x) = rep parent x.
Proof.
  intros Hok. unfold rep at 2. destruct (decide (parent !!! x = x)) as [Hr|Hr]; [by rewrite Hr|].
  pose proof (Hok x). destruct x as [|x]; [lia|]. cbn. apply climb_enough; [done|lia|lia].
Qed.

Lemma rep_root parent x : is_root parent x -> rep parent x = x.
Proof. apply climb_root. Qed.

Lemma rep_is_root parent x : uf_ok parent -> is_root parent (rep parent x).
Proof.
  intros Hok. induction (lt_wf x) as [x _ IH]. destruct (decide (parent !!! x = x)) as [Hr|Hr]; [by rewrite rep_root|].
  rewrite <- rep_parent by done. apply IH. pose proof (Hok x). lia.
Qed.

Lemma rep_le parent x : uf_ok parent -> rep parent x <= x.
Proof.
  intros Hok. induction (lt_wf x) as [x _ IH]. destruct (decide (parent !!! x = x)) as [Hr|Hr]; [by rewrite rep_root|].
  pose proof (Hok x). rewrite <- rep_parent by done. specialize (IH (parent !!! x)). lia.
Qed.

(** What fixes the roots and is the same for an element and its parent is [rep]. *)
Lemma rep_unique parent (g : nat -> nat) :
  uf_ok parent -> (forall x, is_root parent x -> g x = x) -> (forall x, g (parent !!! x) = g x) -> forall x, rep parent x = g x.
Proof.
  intros Hok Hroot Hstep x. induction (lt_wf x) as [x _ IH]. destruct (decide (parent !!! x = x)) as [Hr|Hr].
  - by rewrite rep_root, Hroot.
  - pose proof (Hok x). rewrite <- rep_parent, <- Hstep by done. apply IH. lia.
Qed.

Lemma lookup_total_insert_cases (l : list nat) x v y :
  <[x := v]> l !!! y = if decide (x = y /\ x < length l) then v else l !!! y.
Proof.
  destruct (decide _) as [[-> Hl]|Hn]; [by apply list_lookup_total_insert_eq|].
  destruct (decide (x = y)) as [->|Hne]; [|by apply list_lookup_total_insert_ne].
  rewrite list_insert_ge by lia. done.
Qed.

(** ** Find *)

(** Pointing an element at its grandparent changes no representative. *)
Lemma halve_ok parent x : uf_ok parent -> uf_ok (<[x := parent !!! (parent !!! x)]> parent).
Proof.
  intros Hok y. rewrite lookup_total_insert_cases. destruct (decide _) as [[-> _]|_]; [|apply Hok].
  pose proof (Hok y). pose proof (Hok (parent !!! y)). lia.
Qed.

Lemma halve_rep parent x y : uf_ok parent -> rep (<[x := parent !!! (parent !!! x)]> parent) y = rep parent y.
Proof.
  intros Hok. apply rep_unique; [by apply halve_ok| |].
  - intros z. unfold is_root. rewrite lookup_total_insert_cases. destruct (decide _) as [[-> _]|_]; [|apply rep_root].
    intros Hz. apply rep_root. pose proof (Hok z). pose proof (Hok (parent !!! z)). unfold is_root. lia.
  - intros z. rewrite lookup_total_insert_cases. destruct (decide _) as [[-> _]|_]; by rewrite !rep_parent.
Qed.

(** [find] ends at the representative and keeps every one. *)
Lemma find_fuel_spec fuel : forall parent x,
  uf_ok parent -> x < fuel ->
  (find_fuel fuel parent x).2 = rep parent x /\ uf_ok (find_fuel fuel parent x).1 /\
  length (find_fuel fuel parent x).1 = length parent /\ forall y, rep (find_fuel fuel parent x).1 y = rep parent y.
Proof.
  induction fuel as [|fuel IH]; intros parent x Hok Hf; [lia|]. cbn [find_fuel]. case_bool_decide as Hr.
  - cbn [fst snd]. by rewrite rep_root.
  - pose proof (Hok x). set (q := <[x := parent !!! (parent !!! x)]> parent).
    assert (q !!! x < fuel) as Hq.
    { subst q. rewrite lookup_total_insert_cases. pose proof (Hok (parent !!! x)). destruct (decide _); lia. }
    destruct (IH q (q !!! x) (halve_ok _ _ Hok) Hq) as (H1 & H2 & H3 & H4). split; [|split; [done|split]].
    + rewrite H1, rep_parent by by apply halve_ok. by apply halve_rep.
    + rewrite H3. apply length_insert.
    + intros y. rewrite H4. by apply halve_rep.
Qed.

Lemma find_spec parent x p r :
  uf_ok parent -> find parent x = (p, r) ->
  r = rep parent x /\ uf_ok p /\ length p = length parent /\ forall y, rep p y = rep parent y.
Proof.
  intros Hok E. destruct (find_fuel_spec (S x) parent x Hok ltac:(lia)) as (H1 & H2 & H3 & H4).
  unfold find in E. rewrite E in *. done.
Qed.

(** ** Union *)

Definition merged (parent : list nat) (a b y : nat) : nat :=
  let ra := rep parent a in let rb := rep parent b in
  if decide (rep parent y = Nat.max ra rb) then Nat.min ra rb else rep parent y.

Lemma union_spec parent a b :
  uf_ok parent -> a < length parent -> b < length parent ->
  uf_ok (union parent a b) /\ length (union parent a b) = length parent /\ forall y, rep (union parent a b) y = merged parent a b y.
Proof.
  intros Hok Ha Hb. unfold union. destruct (find parent a) as [p1 ra] eqn:E1.
  destruct (find_spec _ _ _ _ Hok E1) as (-> & Hok1 & Hl1 & Hr1). destruct (find p1 b) as [p2 rb] eqn:E2.
  destruct (find_spec _ _ _ _ Hok1 E2) as (-> & Hok2 & Hl2 & Hr2). rewrite Hr1.
  assert (forall y, rep p2 y = rep parent y) as Hr by (intros y; by rewrite Hr2, Hr1). clear Hr1 Hr2.
  pose proof (rep_le parent a Hok). pose proof (rep_le parent b Hok). unfold merged.
  case_bool_decide as Heq.
  - split; [done|]. split; [lia|]. intros y. rewrite Hr, Heq, Nat.max_id, Nat.min_id. by destruct (decide _).
  - assert ((if bool_decide (rep parent b < rep parent a) then (rep parent b, rep parent a) else (rep parent a, rep parent b))
      = (Nat.min (rep parent a) (rep parent b), Nat.max (rep parent a) (rep parent b))) as -> by (case_bool_decide; f_equal; lia).
    set (lo := Nat.min _ _). set (hi := Nat.max _ _). assert (lo < hi /\ hi < length p2) as [Hlt Hhi] by lia.
    assert (is_root p2 hi /\ is_root p2 lo) as [Hhir Hlor].
    { assert (forall z, z = rep parent a \/ z = rep parent b -> is_root p2 z) as Hroot.
      { intros z Hz. rewrite <- !Hr in Hz. destruct Hz as [Hz|Hz]; subst z; by apply rep_is_root. }
      split; apply Hroot; lia. }
    assert (uf_ok (<[hi := lo]> p2)) as Hok'.
    { intros y. rewrite lookup_total_insert_cases. destruct (decide _) as [[<- _]|_]; [lia|apply Hok2]. }
    split; [done|]. split; [rewrite length_insert; lia|]. apply rep_unique; [done| |].
    + intros y. unfold is_root. rewrite lookup_total_insert_cases. destruct (decide (hi = y /\ hi < length p2)) as [[<- _]|Hn]; [lia|].
      intros Hy. rewrite <- Hr, rep_root by done. destruct (decide (y = hi)) as [->|]; [|done]. exfalso. apply Hn. done.
    + intros y. rewrite lookup_total_insert_cases. destruct (decide (hi = y /\ hi < length p2)) as [[<- _]|Hn].
      * rewrite <- !Hr, !rep_root by done. destruct (decide (lo = hi)); [lia|]. by rewrite decide_True.
      * by rewrite <- !Hr, rep_parent.
Qed.
