(* ===== verification/MotionTheorems.v ===== *)
(** Properties of motion detection: the regions reported are the connected components
    of the mask. *)

From stdpp Require Import relations.
From S2P Require Import Prelude Float64 Tracker Motion.

#[local] Open Scope nat_scope.

(** ** Closures *)

Definition add_edge {A} (R : relation A) (u v : A) : relation A := fun a b => R a b \/ (a = u /\ b = v).

Lemma rtsc_mono {A} (R R' : relation A) a b : (forall x y, R x y -> R' x y) -> rtsc R a b -> rtsc R' a b.
Proof.
  intros Hi. induction 1 as [|x y z Hxy _ IH]; [done|]. etrans; [|exact IH].
  destruct Hxy as [Hxy|Hxy]; [apply rtsc_lr|apply rtsc_rl]; auto.
Qed.

Lemma rtsc_iff {A} (R R' : relation A) a b : (forall x y, R x y <-> R' x y) -> rtsc R a b <-> rtsc R' a b.
Proof. intros Hi. split; apply rtsc_mono; intros; by apply Hi. Qed.

Lemma rtsc_add {A} (R : relation A) u v a b :
  rtsc (add_edge R u v) a b <-> rtsc R a b \/ (rtsc R a u /\ rtsc R v b) \/ (rtsc R a v /\ rtsc R u b).
Proof.
  assert (forall x y, rtsc R x y -> rtsc (add_edge R u v) x y) as Hm by (intros x y; apply rtsc_mono; by left).
  assert (rtsc (add_edge R u v) u v) as Huv by (apply rtsc_lr; by right).
  split.
  - induction 1 as [|x y z Hxy _ IH]; [by left|].
    assert (rtsc R x y \/ (x = u /\ y = v) \/ (x = v /\ y = u)) as [Hr|[[-> ->]|[-> ->]]].
    { destruct Hxy as [[Hxy|[-> ->]]|[Hxy|[-> ->]]]; auto; left; [by apply rtsc_lr|by apply rtsc_rl]. }
    + destruct IH as [IH|[[IH1 IH2]|[IH1 IH2]]]; [left|right; left|right; right]; (try split); try done; by etrans.
    + destruct IH as [IH|[[IH1 IH2]|[IH1 IH2]]]; [by right; left|by right; left|by left].
    + destruct IH as [IH|[[IH1 IH2]|[IH1 IH2]]]; [by right; right|by left|by right; right].
  - intros [Hr|[[H1 H2]|[H1 H2]]]; [by apply Hm| |].
    + etrans; [by apply Hm|]. etrans; [exact Huv|]. by apply Hm.
    + etrans; [by apply Hm|]. etrans; [symmetry; exact Huv|]. by apply Hm.
Qed.

(** [c] gives the elements of [D] the same class exactly when [R] connects them. *)
Definition classes (D : nat -> Prop) (R : relation nat) (c : nat -> nat) : Prop :=
  forall i j, D i -> D j -> c i = c j <-> rtsc R i j.

Definition isolated (R : relation nat) (k : nat) : Prop := forall j, rtsc R k j -> j = k.

(** A new element of a class of its own. *)
Lemma classes_fresh (D : nat -> Prop) R c k n :
  classes D R c -> isolated R k -> (forall i, D i -> c i <> n) -> ~ D k ->
  classes (fun i => D i \/ i = k) R (fun i => if decide (i = k) then n else c i).
Proof.
  intros Hc Hk Hn HD i j Hi Hj. destruct (decide (i = k)) as [->|Hik], (decide (j = k)) as [->|Hjk]; [done| | |].
  - split; [intros E; exfalso; apply (Hn j); [naive_solver|done]|]. intros Hr%Hk. done.
  - split; [intros E; exfalso; apply (Hn i); [naive_solver|done]|]. intros Hr. symmetry in Hr. by apply Hk in Hr.
  - apply Hc; naive_solver.
Qed.

(** A new element attached to [u]. *)
Lemma classes_attach (D : nat -> Prop) R c k u :
  classes D R c -> isolated R k -> D u -> ~ D k ->
  classes (fun i => D i \/ i = k) (add_edge R k u) (fun i => if decide (i = k) then c u else c i).
Proof.
  intros Hc Hk Hu HD.
  assert (forall j, D j -> rtsc R k j -> False) as Hiso by (intros j Hj Hr%Hk; congruence).
  assert (forall j, D j -> rtsc R j k -> False) as Hiso' by (intros j Hj Hr; symmetry in Hr; eauto).
  intros i j Hi Hj. rewrite rtsc_add. destruct (decide (i = k)) as [->|Hik], (decide (j = k)) as [->|Hjk].
  - split; [by left|done].
  - assert (D j) as HDj by naive_solver. rewrite (Hc u j Hu HDj). split; [by right; left|].
    intros [H|[[_ H]|[H _]]]; [by exfalso; eauto|done|by exfalso; eauto].
  - assert (D i) as HDi by naive_solver. rewrite (Hc i u HDi Hu). split; [by right; right|].
    intros [H|[[H _]|[H _]]]; [by exfalso; eauto|by exfalso; eauto|done].
  - assert (D i /\ D j) as [HDi HDj] by naive_solver. rewrite (Hc i j HDi HDj). split; [by left|].
    intros [H|[[H _]|[_ H]]]; [done|by exfalso; eauto|by exfalso; eauto].
Qed.

(** Two classes become one. *)
Lemma classes_merge (D : nat -> Prop) R c u v :
  classes D R c -> D u -> D v ->
  classes D (add_edge R u v) (fun i => if decide (c i = Nat.max (c u) (c v)) then Nat.min (c u) (c v) else c i).
Proof.
  intros Hc Hu Hv i j Hi Hj. rewrite rtsc_add.
  rewrite <- (Hc i j Hi Hj), <- (Hc i u Hi Hu), <- (Hc v j Hv Hj), <- (Hc i v Hi Hv), <- (Hc u j Hu Hj).
  destruct (decide (c i = _)), (decide (c j = _)); lia.
Qed.

Lemma classes_proper (D D' : nat -> Prop) R R' c c' :
  classes D R c -> (forall i, D' i -> D i) -> (forall i j, R i j <-> R' i j) -> (forall i, D' i -> c' i = c i) -> classes D' R' c'.
Proof.
  intros Hc HD HR Hcc i j Hi Hj. rewrite !Hcc by done. rewrite <- (rtsc_iff R R') by done. apply Hc; auto.
Qed.

(** ** Pixels by their index *)

Definition pixel (w i : nat) : nat * nat := (i / w, i mod w).

Lemma grid_seq w h : grid w h = pixel w <$> seq 0 (w * h).
Proof.
  induction h as [|h IH]; [by rewrite Nat.mul_0_r|].
  rewrite Nat.mul_succ_r, seq_app, fmap_app, <- IH. unfold grid. rewrite seq_S, bind_app. f_equal.
  rewrite bind_singleton. replace (seq (0 + w * h) w) with (Nat.add (w * h) <$> seq 0 w) by (rewrite fmap_add_seq; f_equal; lia).
  rewrite <- list_fmap_compose.
  apply list_fmap_ext. intros i x Hx. apply lookup_seq in Hx as [-> Hlt]. cbn. unfold pixel.
    assert ((w * h + i) / w = h) as -> by (symmetry; apply (Nat.div_unique _ _ _ i); lia).
    assert ((w * h + i) mod w = i) as -> by (symmetry; apply (Nat.mod_unique _ _ h); lia). done.
Qed.

Lemma pixel_index w i : 0 < w -> (pixel w i).1 * w + (pixel w i).2 = i.
Proof. intros Hw. cbn. pose proof (Nat.div_mod_eq i w). lia. Qed.

Lemma fold_seq_ind {A} (P : nat -> A -> Prop) (f : A -> nat -> A) n a :
  P 0 a -> (forall k a, k < n -> P k a -> P (S k) (f a k)) -> P n (fold_left f (seq 0 n) a).
Proof.
  intros H0 Hs. induction n as [|n IH]; [done|]. rewrite seq_S, fold_left_app. cbn. apply Hs; [lia|].
  apply IH. intros k b Hk. apply Hs. lia.
Qed.

Lemma fold_left_fmap {A B C} (f : A -> B -> A) (g : C -> B) l a : fold_left f (g <$> l) a = fold_left (fun a c => f a (g c)) l a.
Proof. revert a. induction l as [|c l IH]; intros a; [done|]. apply IH. Qed.

(** ** Boxes *)

Section boxes.
Context (w : nat).

Definition bbox_add (b : option bbox) (i : nat) : option bbox :=
  Some (widen (i mod w) (i / w) (default (mkBbox (i mod w) (i / w) (i mod w + 1) (i / w + 1) 0) b)).

Definition bbox_of (l : list nat) : option bbox := fold_left bbox_add l None.

(** [b] is the smallest box around the pixels of [C]. *)
Record bounds (C : list nat) (b : bbox) : Prop := {
  bo_area : bb_area b = length C;
  bo_in i : i ∈ C -> bb_x1 b <= i mod w < bb_x2 b /\ bb_y1 b <= i / w < bb_y2 b;
  bo_left : exists i, i ∈ C /\ i mod w = bb_x1 b;
  bo_top : exists i, i ∈ C /\ i / w = bb_y1 b;
  bo_right : exists i, i ∈ C /\ i mod w + 1 = bb_x2 b;
  bo_bottom : exists i, i ∈ C /\ i / w + 1 = bb_y2 b
}.

Lemma bounds_one i : bounds [i] (widen (i mod w) (i / w) (mkBbox (i mod w) (i / w) (i mod w + 1) (i / w + 1) 0)).
Proof.
  unfold widen. cbn [bb_x1 bb_y1 bb_x2 bb_y2 bb_area]. rewrite !bool_decide_false by lia.
  split; cbn; try done; [intros j ->%list_elem_of_singleton; lia|..]; exists i; (split; [by left|done]).
Qed.

Lemma bounds_snoc C b i : bounds C b -> bounds (C ++ [i]) (widen (i mod w) (i / w) b).
Proof.
  intros [Ha Hin (l & Hl & El) (t & Ht & Et) (r & Hr & Er) (d & Hd & Ed)].
  assert (forall j, j ∈ C -> j ∈ C ++ [i]) as Hm by (intros j Hj; apply elem_of_app; by left).
  assert (i ∈ C ++ [i]) as Hi by (apply elem_of_app; right; by left).
  split; unfold widen; cbn [bb_x1 bb_y1 bb_x2 bb_y2 bb_area].
  - rewrite length_app, Ha. cbn. lia.
  - intros j [Hj|Hj%list_elem_of_singleton]%elem_of_app; [destruct (Hin j Hj)|subst j]; repeat case_bool_decide; lia.
  - case_bool_decide; [by exists i|exists l; auto].
  - case_bool_decide; [by exists i|exists t; auto].
  - case_bool_decide; [by exists i|exists r; auto].
  - case_bool_decide; [by exists i|exists d; auto].
Qed.

Lemma bbox_of_bounds C b : bbox_of C = Some b -> bounds C b /\ C <> [].
Proof.
  revert b. induction C as [|i C IH] using rev_ind; intros b; [done|]. unfold bbox_of. rewrite fold_left_app. cbn [fold_left]. fold (bbox_of C).
  unfold bbox_add. intros [= <-]. split; [|by destruct C]. destruct (bbox_of C) as [b|] eqn:E; cbn [default from_option Datatypes.id].
  - by apply bounds_snoc, IH.
  - destruct C as [|j C]; [apply bounds_one|]. exfalso. assert (is_Some (bbox_of (j :: C))) as [b' Hb]; [|congruence].
    clear. destruct (exists_last (l := j :: C)) as (l' & z & ->); [done|]. unfold bbox_of. rewrite fold_left_app. by eexists.
Qed.

Lemma bbox_of_some C i : i ∈ C -> is_Some (bbox_of C).
Proof.
  intros Hi. destruct (exists_last (l := C)) as (l' & z & ->); [by intros ->; apply not_elem_of_nil in Hi|].
  unfold bbox_of. rewrite fold_left_app. by eexists.
Qed.

End boxes.

Section components.
Context (w h : nat) (binary : list bool) (Hlen : length binary = w * h).

Definition fg (i : nat) : Prop := binary !! i = Some true.

(** The neighbors the first pass looks at: to the left and above. *)
Definition edge (i j : nat) : Prop := fg i /\ fg j /\ ((i mod w <> 0 /\ j + 1 = i) \/ (w <= i /\ j + w = i)).

Definition edges (k : nat) : relation nat := fun i j => i < k /\ edge i j.

Lemma edge_lt i j : 0 < w -> edge i j -> j < i.
Proof. intros Hw (_ & _ & [[_ ?]|[_ ?]]); lia. Qed.

Lemma edges_isolated k : 0 < w -> isolated (edges k) k.
Proof.
  intros Hw j Hr. destruct (rtc_inv _ _ Hr) as [->|(x & Hx & _)]; [done|].
  destruct Hx as [[Hk _]|[Hk He]]; [lia|]. apply edge_lt in He; lia.
Qed.

(** What the first pass has established before pixel [k]. *)
Record labelled (k : nat) (labels parent : list nat) : Prop := {
  lb_labels : length labels = w * h;
  lb_uf : uf_ok parent;
  lb_parent : 0 < length parent;
  lb_positive x : 0 < x < length parent -> 0 < rep parent x;
  lb_range i : i < k -> fg i -> 0 < labels !!! i < length parent;
  lb_zero i : ~ (i < k /\ fg i) -> labels !!! i = 0;
  lb_classes : classes (fun i => i < k /\ fg i) (edges k) (fun i => rep parent (labels !!! i))
}.

Lemma labelled_start : labelled 0 (replicate (w * h) 0) [0].
Proof.
  split; cbn [length]; try lia.
  - by rewrite length_replicate.
  - intros [|x]; [done|]. change (0 <= S x). lia.
  - intros i _. rewrite list_lookup_total_alt. destruct (decide (i < w * h)); [by rewrite lookup_replicate_2|].
    rewrite lookup_ge_None_2; [done|]. rewrite length_replicate. lia.
  - intros i j [Hi _]. lia.
Qed.

Lemma rep_app_fresh parent x : uf_ok parent -> 0 < length parent ->
  rep (parent ++ [length parent]) x = (if decide (x = length parent) then length parent else rep parent x) /\ uf_ok (parent ++ [length parent]).
Proof.
  intros Hok Hl. assert (forall y, (parent ++ [length parent]) !!! y = if decide (y = length parent) then length parent else parent !!! y) as Hlk.
  { intros y. destruct (decide (y = length parent)) as [->|Hn].
    - rewrite list_lookup_total_alt, lookup_app_r, Nat.sub_diag by lia. done.
    - destruct (decide (y < length parent)); [by rewrite lookup_total_app_l|].
      rewrite !list_lookup_total_alt, lookup_app_r by lia. rewrite (lookup_ge_None_2 parent) by lia.
      destruct (y - length parent) eqn:E; [lia|]. done. }
  assert (uf_ok (parent ++ [length parent])) as Hok'.
  { intros y. rewrite Hlk. destruct (decide _); [lia|apply Hok]. }
  split; [|done]. set (g := fun y => if decide (y = length parent) then length parent else rep parent y).
  apply (rep_unique _ g); [done| |]; unfold g.
  - intros y. unfold is_root. rewrite Hlk. destruct (decide (y = length parent)) as [->|]; [done|]. apply rep_root.
  - intros y. rewrite Hlk. destruct (decide (y = length parent)) as [->|Hn]; [by rewrite decide_True|].
    destruct (decide (parent !!! y = length parent)) as [E|]; [|by apply rep_parent]. exfalso.
    destruct (decide (y < length parent)) as [Hy|Hy]; [pose proof (Hok y); lia|].
    rewrite list_lookup_total_alt, lookup_ge_None_2 in E by lia. cbn in E. lia.
Qed.

Lemma edges_succ k i j : edges (S k) i j <-> edges k i j \/ (i = k /\ edge k j).
Proof.
  unfold edges. split.
  - intros [Hi He]. destruct (decide (i = k)) as [->|]; [by right|]. left. split; [lia|done].
  - intros [[Hi He]|[-> He]]; (split; [lia|done]).
Qed.

Lemma edge_cases k j : 0 < w -> fg k ->
  edge k j <-> (k mod w <> 0 /\ fg (k - 1) /\ j = k - 1) \/ (w <= k /\ fg (k - w) /\ j = k - w).
Proof.
  intros Hw Hk. unfold edge. split.
  - intros (_ & Hj & [[Hm <-]|[Hle <-]]).
    + left. split; [done|]. replace (j + 1 - 1) with j by lia. done.
    + right. split; [done|]. replace (j + w - w) with j by lia. done.
  - intros [(Hm & Hf & ->)|(Hle & Hf & ->)]; (split; [done|]); (split; [done|]).
    + left. split; [done|]. assert (k <> 0); [|lia]. intros ->. rewrite Nat.Div0.mod_0_l in Hm. done.
    + right. lia.
Qed.

Lemma labelled_extend k labels parent parent' v :
  labelled k labels parent -> k < w * h -> fg k -> uf_ok parent' -> length parent <= length parent' ->
  (forall x, 0 < x < length parent' -> 0 < rep parent' x) -> 0 < v < length parent' ->
  classes (fun i => (i < k /\ fg i) \/ i = k) (edges (S k)) (fun i => rep parent' (if decide (i = k) then v else labels !!! i)) ->
  labelled (S k) (<[k := v]> labels) parent'.
Proof.
  intros [Hl Huf Hp Hpos Hr Hz Hc] Hk Hfg Huf' Hlen' Hpos' Hv Hcl.
  assert (forall i, <[k := v]> labels !!! i = if decide (i = k) then v else labels !!! i) as Hlk.
  { intros i. destruct (decide (i = k)) as [->|]; [apply list_lookup_total_insert_eq; lia|by apply list_lookup_total_insert_ne]. }
  split; [by rewrite length_insert|done|lia|done| | |].
  - intros i Hi Hf. rewrite Hlk. destruct (decide (i = k)); [done|]. specialize (Hr i ltac:(lia) Hf). lia.
  - intros i Hn. rewrite Hlk. destruct (decide (i = k)) as [->|]; [exfalso; apply Hn; split; [lia|done]|].
    apply Hz. intros [??]. apply Hn. split; [lia|done].
  - eapply classes_proper; [exact Hcl| |done|].
    + intros i [Hi Hf]. destruct (decide (i = k)); [by right|]. left. split; [lia|done].
    + intros i _. cbn. by rewrite Hlk.
Qed.

(** The label of the neighbor at [j], or [0] where there is none. *)
Lemma neighbor_label k labels parent (b : bool) j :
  labelled k labels parent -> (b = true -> j < k) ->
  let v := if b then labels !!! j else 0 in
  (v = 0 /\ ~ (b = true /\ fg j)) \/ (0 < v < length parent /\ b = true /\ fg j /\ v = labels !!! j).
Proof.
  intros HL Hb. destruct b; cbn; [|left; split; [done|by intros [? _]]].
  specialize (Hb eq_refl). destruct (decide (binary !! j = Some true)) as [Hf|Hf].
  - right. pose proof (lb_range _ _ _ HL j Hb Hf). done.
  - left. split; [|by intros [_ ?]]. apply (lb_zero _ _ _ HL). by intros [_ ?].
Qed.

Lemma attach_step k labels parent parent' u :
  labelled k labels parent -> k < w * h -> fg k -> u < k -> fg u ->
  uf_ok parent' -> length parent' = length parent -> (forall y, rep parent' y = rep parent y) ->
  (forall j, edge k j <-> j = u) -> labelled (S k) (<[k := rep parent (labels !!! u)]> labels) parent'.
Proof.
  intros HL Hk Hf Hu Hfu Huf Hlen' Hrep He. assert (0 < w) as Hw by (destruct w; [cbn in Hk; lia|lia]).
  pose proof (lb_range _ _ _ HL u Hu Hfu) as Hr. apply (labelled_extend k labels parent); try done; [lia| | |].
  - intros x. rewrite Hlen', Hrep. apply (lb_positive _ _ _ HL).
  - rewrite Hlen'. pose proof (rep_le parent (labels !!! u) (lb_uf _ _ _ HL)). pose proof (lb_positive _ _ _ HL _ Hr). lia.
  - eapply classes_proper; [apply (classes_attach _ _ _ k u (lb_classes _ _ _ HL)); [by apply edges_isolated|done|lia]|done| |].
    + intros i j. rewrite edges_succ. unfold add_edge. rewrite He. naive_solver.
    + intros i _. cbn. rewrite Hrep. destruct (decide (i = k)); [|done].
      apply rep_root, rep_is_root, (lb_uf _ _ _ HL).
Qed.

Lemma join_step k labels parent parent' u1 u2 l1 l2 :
  labelled k labels parent -> k < w * h -> fg k -> u1 < k -> fg u1 -> u2 < k -> fg u2 ->
  uf_ok parent' -> length parent' = length parent -> (forall y, rep parent' y = rep parent y) ->
  (forall j, edge k j <-> j = u1 \/ j = u2) ->
  (l1 = labels !!! u1 /\ l2 = labels !!! u2) \/ (l1 = labels !!! u2 /\ l2 = labels !!! u1) ->
  labelled (S k) (<[k := rep parent (labels !!! u1)]> labels) (union parent' l1 l2).
Proof.
  intros HL Hk Hf Hu1 Hf1 Hu2 Hf2 Huf Hlen' Hrep He Hl. assert (0 < w) as Hw by (destruct w; [cbn in Hk; lia|lia]).
  pose proof (lb_range _ _ _ HL u1 Hu1 Hf1) as R1. pose proof (lb_range _ _ _ HL u2 Hu2 Hf2) as R2.
  destruct (union_spec parent' l1 l2 Huf) as (Huf' & Hl' & Hm); [lia|lia|].
  assert (forall y, rep (union parent' l1 l2) y = if decide (rep parent y = Nat.max (rep parent (labels !!! u1)) (rep parent (labels !!! u2)))
    then Nat.min (rep parent (labels !!! u1)) (rep parent (labels !!! u2)) else rep parent y) as Hm'.
  { intros y. rewrite Hm. unfold merged. rewrite !Hrep. destruct Hl as [[-> ->]|[-> ->]]; [done|].
    rewrite (Nat.max_comm (rep parent (labels !!! u2))), (Nat.min_comm (rep parent (labels !!! u2))). done. }
  pose proof (lb_positive _ _ _ HL) as Hpos. apply (labelled_extend k labels parent); try done; [lia| | |].
  - intros x Hx. rewrite Hm'. pose proof (Hpos _ R1). pose proof (Hpos _ R2). destruct (decide _); [lia|]. apply Hpos. lia.
  - pose proof (rep_le parent (labels !!! u1) (lb_uf _ _ _ HL)). pose proof (Hpos _ R1). lia.
  - pose proof (classes_attach _ _ _ k u1 (lb_classes _ _ _ HL) (edges_isolated k Hw) (conj Hu1 Hf1) (fun H => Nat.lt_irrefl _ (proj1 H))) as Ha.
    pose proof (classes_merge _ _ _ k u2 Ha (or_intror eq_refl) (or_introl (conj Hu2 Hf2))) as Hc.
    eapply classes_proper; [exact Hc|done| |].
    + intros i j. rewrite edges_succ. unfold add_edge. rewrite He. naive_solver.
    + intros i _. cbn. rewrite Hm'. rewrite !(decide_True (P := k = k)) by done. rewrite !(decide_False (P := u2 = k)) by lia.
      destruct (decide (i = k)) as [->|]; [|done]. rewrite (rep_root parent (rep parent _)) by by apply rep_is_root, (lb_uf _ _ _ HL). done.
Qed.

Lemma fresh_step k labels parent :
  labelled k labels parent -> k < w * h -> fg k -> (forall j, ~ edge k j) ->
  labelled (S k) (<[k := length parent]> labels) (parent ++ [length parent]).
Proof.
  intros HL Hk Hf He. assert (0 < w) as Hw by (destruct w; [cbn in Hk; lia|lia]). pose proof HL as [Hl Huf Hp Hpos Hr Hz Hc].
  assert (forall x, rep (parent ++ [length parent]) x = if decide (x = length parent) then length parent else rep parent x) as Hrep
    by (intros x; by apply rep_app_fresh).
  apply (labelled_extend k labels parent); try done.
  - by apply (rep_app_fresh parent 0).
  - rewrite length_app. cbn. lia.
  - intros x Hx. rewrite length_app in Hx. cbn in Hx. rewrite Hrep. destruct (decide _); [lia|]. apply Hpos. lia.
  - rewrite length_app. cbn. lia.
  - assert (forall i, i < k /\ fg i -> labels !!! i <> length parent) as Hne by (intros i [Hi Hfi]; specialize (Hr i Hi Hfi); lia).
    eapply classes_proper; [apply (classes_fresh _ _ _ k (length parent) Hc (edges_isolated k Hw))|done| |].
    + intros i [Hi Hfi]. pose proof (rep_le parent (labels !!! i) Huf). specialize (Hr i Hi Hfi). lia.
    + intros [? _]. lia.
    + intros i j. rewrite edges_succ. naive_solver.
    + intros i Hi. cbn. rewrite Hrep. destruct (decide (i = k)) as [->|]; [by rewrite decide_True|].
      rewrite decide_False; [done|]. apply Hne. naive_solver.
Qed.

Lemma label_pixel_step k st :
  k < w * h -> labelled k st.1 st.2 ->
  labelled (S k) (label_pixel binary w st (pixel w k)).1 (label_pixel binary w st (pixel w k)).2.
Proof.
  intros Hk HL. assert (0 < w) as Hw by (destruct w; [cbn in Hk; lia|lia]). destruct st as [labels parent]. cbn [fst snd] in HL.
  unfold label_pixel. destruct (pixel w k) as [y x] eqn:Ep. pose proof (pixel_index w k Hw) as Hidx. rewrite Ep in Hidx. cbn in Hidx. rewrite Hidx.
  assert (x = k mod w /\ y = k / w) as [-> ->] by (unfold pixel in Ep; naive_solver).
  destruct (binary !! k) as [b|] eqn:Eb; [|apply lookup_ge_None in Eb; lia].
  rewrite list_lookup_total_alt, Eb. cbn [default from_option Datatypes.id]. destruct b; cbn [negb].
  2: { destruct HL as [Hl Huf Hp Hpos Hr Hz Hc]. assert (~ fg k) as Hnf by (unfold fg; congruence).
    split; try done; cbn [fst snd].
    - intros i Hi Hf. destruct (decide (i = k)) as [->|]; [done|]. apply Hr; [lia|done].
    - intros i Hn. apply Hz. intros [? ?]. apply Hn. split; [lia|done].
    - eapply classes_proper; [exact Hc| | |done].
      + intros i [Hi Hf]. destruct (decide (i = k)) as [->|]; [done|]. split; [lia|done].
      + intros i j. rewrite edges_succ. split; [by left|]. intros [?|[-> (? & _)]]; [done|done]. }
  assert (fg k) as Hf by done.
  assert (forall j, edge k j <-> ((0 <? Z.of_nat (k mod w))%Z = true /\ fg (k - 1) /\ j = k - 1) \/ ((0 <? Z.of_nat (k / w))%Z = true /\ fg (k - w) /\ j = k - w)) as He.
  { intros j. rewrite (edge_cases k j Hw Hf), !Z.ltb_lt. assert (0 < k / w <-> w <= k) as Hdiv; [|rewrite <- Hdiv; naive_solver lia].
    split; [intros Hd; destruct (decide (w <= k)); [done|rewrite Nat.div_small in Hd; lia]|].
    intros Hle. apply Nat.div_str_pos. lia. }
  destruct (neighbor_label k labels parent (0 <? Z.of_nat (k mod w))%Z (k - 1) HL) as [[El Nl]|(Rl & Bl & Fl & El)].
  { intros Hm%Z.ltb_lt. destruct k; [rewrite Nat.Div0.mod_0_l in Hm; lia|lia]. }
  all: destruct (neighbor_label k labels parent (0 <? Z.of_nat (k / w))%Z (k - w) HL) as [[Ea Na]|(Ra & Ba & Fa & Ea)];
    [intros Hm%Z.ltb_lt; destruct (decide (w <= k)); [lia|rewrite Nat.div_small in Hm; lia]| |].
  all: set (left := if (0 <? Z.of_nat (k mod w))%Z then labels !!! (k - 1) else 0) in *;
    set (above := if (0 <? Z.of_nat (k / w))%Z then labels !!! (k - w) else 0) in *.
  - rewrite El, Ea. cbn [fst snd]. apply fresh_step; [done..|]. intros j Hj. apply He in Hj. naive_solver.
  - destruct above as [|n] eqn:Eab; [lia|]. rewrite El. destruct (find parent (S n)) as [p r] eqn:Ef. cbn [fst snd].
    destruct (find_spec _ _ _ _ (lb_uf _ _ _ HL) Ef) as (-> & Hok & Hlp & Hrp). rewrite Ea.
    apply Z.ltb_lt in Ba as Hd. apply attach_step; try done; [destruct (decide (w <= k)); [lia|rewrite Nat.div_small in Hd; lia]|].
    intros j. rewrite He. naive_solver.
  - destruct left as [|n] eqn:Elf; [lia|]. rewrite Ea. destruct (find parent (S n)) as [p r] eqn:Ef. cbn [fst snd].
    destruct (find_spec _ _ _ _ (lb_uf _ _ _ HL) Ef) as (-> & Hok & Hlp & Hrp). rewrite El.
    apply Z.ltb_lt in Bl as Hm. apply attach_step; try done; [destruct k; [rewrite Nat.Div0.mod_0_l in Hm; lia|lia]|].
    intros j. rewrite He. naive_solver.
  - destruct left as [|n] eqn:Elf; [lia|]. destruct above as [|m] eqn:Eab; [lia|].
    destruct (find parent (S m)) as [p1 ra] eqn:E1. destruct (find_spec _ _ _ _ (lb_uf _ _ _ HL) E1) as (-> & Hok1 & Hl1 & Hr1).
    destruct (find p1 (S n)) as [p2 rl] eqn:E2. destruct (find_spec _ _ _ _ Hok1 E2) as (-> & Hok2 & Hl2 & Hr2).
    match goal with |- context [find p2 ?v] => destruct (find p2 v) as [p3 r] eqn:E3 end.
    destruct (find_spec _ _ _ _ Hok2 E3) as (-> & Hok3 & Hl3 & Hr3). cbn [fst snd].
    assert (k - 1 < k /\ k - w < k) as [H1 H2].
    { apply Z.ltb_lt in Bl as Hm. split; [|lia]. destruct k; [rewrite Nat.Div0.mod_0_l in Hm; lia|lia]. }
    rewrite Hr2, Hr1. case_bool_decide; [rewrite Ea|rewrite El].
    + apply (join_step k labels parent p3 (k - w) (k - 1)); try done; [lia|intros y; by rewrite Hr3, Hr2, Hr1|intros j; rewrite He; naive_solver|].
      right. split; congruence.
    + apply (join_step k labels parent p3 (k - 1) (k - w)); try done; [lia|intros y; by rewrite Hr3, Hr2, Hr1|intros j; rewrite He; naive_solver|].
      left. split; congruence.
Qed.

Lemma first_pass_labelled : labelled (w * h) (first_pass binary w h).1 (first_pass binary w h).2.
Proof.
  unfold first_pass. rewrite grid_seq, fold_left_fmap.
  apply (fold_seq_ind (fun k st => labelled k st.1 st.2)); [apply labelled_start|]. intros k st Hk. by apply label_pixel_step.
Qed.

(** ** The second pass *)

#[local] Instance fg_dec i : Decision (fg i).
Proof. unfold fg. apply _. Defined.

(** The root of a pixel's label after the first pass. *)
Definition class_of (i : nat) : nat := rep (first_pass binary w h).2 ((first_pass binary w h).1 !!! i).

Definition members (k r : nat) : list nat := filter (fun i => fg i /\ class_of i = r) (seq 0 k).

Record collected (k : nat) (labels parent : list nat) (boxes : gmap nat bbox) : Prop := {
  cl_uf : uf_ok parent;
  cl_rep y : rep parent y = rep (first_pass binary w h).2 y;
  cl_labels i : k <= i -> labels !!! i = (first_pass binary w h).1 !!! i;
  cl_boxes r : boxes !! r = bbox_of w (members k r)
}.

Lemma members_succ k r : members (S k) r = members k r ++ (if decide (fg k /\ class_of k = r) then [k] else []).
Proof. unfold members. by rewrite seq_S, filter_app. Qed.

Lemma collect_pixel_step k st :
  k < w * h -> collected k st.1.1 st.1.2 st.2 ->
  let st' := collect_pixel w st (pixel w k) in collected (S k) st'.1.1 st'.1.2 st'.2.
Proof.
  intros Hk HC. assert (0 < w) as Hw by (destruct w; [cbn in Hk; lia|lia]). destruct st as [[labels parent] boxes]. cbn [fst snd] in HC.
  cbn zeta. unfold collect_pixel. destruct (pixel w k) as [y x] eqn:Ep. pose proof (pixel_index w k Hw) as Hidx. rewrite Ep in Hidx. cbn in Hidx. rewrite Hidx.
  assert (x = k mod w /\ y = k / w) as [-> ->] by (unfold pixel in Ep; naive_solver).
  destruct HC as [Huf Hrep Hlab Hbox]. pose proof first_pass_labelled as HL. pose proof (Hlab k ltac:(lia)) as Hlk.
  destruct (decide (fg k)) as [Hf|Hf].
  - pose proof (lb_range _ _ _ HL k Hk Hf) as Hr. rewrite Hlk. destruct ((first_pass binary w h).1 !!! k) as [|n] eqn:En; [lia|].
    destruct (find parent (S n)) as [p root] eqn:Ef. destruct (find_spec _ _ _ _ Huf Ef) as (-> & Hok & Hlp & Hrp). cbn [fst snd].
    split; [done|intros z; by rewrite Hrp| |].
    + intros i Hi. rewrite list_lookup_total_insert_ne by lia. apply Hlab. lia.
    + intros r. assert (rep parent (S n) = class_of k) as -> by (unfold class_of; by rewrite En, Hrep).
      rewrite members_succ. destruct (decide (class_of k = r)) as [->|Hne].
      * rewrite lookup_insert_eq, decide_True by done. unfold bbox_of. rewrite fold_left_app. cbn. unfold bbox_add at 1. by rewrite Hbox.
      * rewrite lookup_insert_ne by done. rewrite decide_False by naive_solver. by rewrite app_nil_r.
  - rewrite Hlk, (lb_zero _ _ _ HL k) by naive_solver. cbn [fst snd]. split; [done|done|intros i Hi; apply Hlab; lia|].
    intros r. rewrite members_succ, decide_False by naive_solver. by rewrite app_nil_r.
Qed.

Lemma second_pass_boxes r : (second_pass w h (first_pass binary w h)).2 !! r = bbox_of w (members (w * h) r).
Proof.
  unfold second_pass. rewrite grid_seq, fold_left_fmap. destruct (first_pass binary w h) as [labels parent] eqn:Efp.
  pose proof (fold_seq_ind (fun k st => collected k st.1.1 st.1.2 st.2) (fun st i => collect_pixel w st (pixel w i)) (w * h)
    (first_pass binary w h, ∅)) as Hind.
  rewrite <- Efp. refine (cl_boxes _ _ _ _ (Hind _ _) r).
  - split; [apply (lb_uf _ _ _ first_pass_labelled)|done|done|done].
  - intros k st Hk HC. by apply collect_pixel_step.
Qed.

(** ** Components *)

(** Side by side in a row or a column. *)
Definition beside (i j : nat) : Prop :=
  (i / w = j / w /\ (i mod w = j mod w + 1 \/ j mod w = i mod w + 1)) \/
  (i mod w = j mod w /\ (i / w = j / w + 1 \/ j / w = i / w + 1)).

(** Joined by a path of foreground pixels, each beside the next. *)
Definition connected : relation nat := rtc (fun i j => fg i /\ fg j /\ beside i j).

Lemma fg_lt i : fg i -> i < w * h.
Proof. intros Hf. rewrite <- Hlen. by eapply lookup_lt_Some. Qed.

Lemma edge_beside i j : 0 < w -> sc edge i j <-> fg i /\ fg j /\ beside i j.
Proof.
  intros Hw. unfold sc, edge, beside.
  assert (forall a b, (a mod w <> 0 /\ b + 1 = a) <-> (a / w = b / w /\ a mod w = b mod w + 1)) as Hrow.
  { intros a b. pose proof (Nat.div_mod_eq a w). pose proof (Nat.div_mod_eq b w). pose proof (Nat.mod_upper_bound a w).
    pose proof (Nat.mod_upper_bound b w). split.
    - intros [Hm <-]. pose proof (Nat.mod_upper_bound (b + 1) w).
      assert (b / w = (b + 1) / w) as <- by (symmetry; apply (Nat.div_unique b w _ ((b + 1) mod w - 1)); lia).
      assert (b mod w = (b + 1) mod w - 1) as -> by (symmetry; apply (Nat.mod_unique b w ((b + 1) / w)); lia). split; [done|lia].
    - intros [Hd Hm]. nia. }
  assert (forall a b, (w <= a /\ b + w = a) <-> (a mod w = b mod w /\ a / w = b / w + 1)) as Hcol.
  { intros a b. pose proof (Nat.div_mod_eq a w). pose proof (Nat.div_mod_eq b w). split.
    - intros [_ <-]. rewrite Nat.add_comm. replace (w + b) with (b + 1 * w) by lia. rewrite Nat.Div0.mod_add, Nat.div_add by lia. lia.
    - intros [Hm Hd]. nia. }
  rewrite !Hrow, !Hcol. naive_solver.
Qed.

Lemma connected_class i j : fg i -> fg j -> class_of i = class_of j <-> connected i j.
Proof.
  intros Hi Hj. pose proof (fg_lt i Hi). pose proof (fg_lt j Hj). assert (0 < w) as Hw by nia.
  pose proof (lb_classes _ _ _ first_pass_labelled i j (conj (fg_lt i Hi) Hi) (conj (fg_lt j Hj) Hj)) as Hc.
  unfold class_of. rewrite Hc. unfold rtsc, connected.
  assert (forall a b, sc (edges (w * h)) a b <-> fg a /\ fg b /\ beside a b) as He.
  { intros a b. rewrite <- edge_beside by done. unfold sc, edges. split; [naive_solver|].
    intros [He|He]; [left|right]; (split; [|done]); destruct He as (Hf & _); by apply fg_lt. }
  split; (intros Hr; eapply rtc_subrel; [|exact Hr]; intros a b Hab; by apply He).
Qed.

Lemma elem_of_members r i : i ∈ members (w * h) r <-> fg i /\ class_of i = r.
Proof.
  unfold members. rewrite list_elem_of_filter, elem_of_seq. split; [naive_solver|]. intros [Hf Hr]. split; [done|]. pose proof (fg_lt i Hf). lia.
Qed.

(** A region and the component it reports. *)
Record reports (C : list nat) (r : MotionRegion) : Prop := {
  rp_area : mr_Area r = Z.of_nat (length C);
  rp_box : exists b, bounds w C b /\ mr_Box r = mkBox (Z.of_nat (bb_x1 b)) (Z.of_nat (bb_y1 b)) (Z.of_nat (bb_x2 b)) (Z.of_nat (bb_y2 b))
}.
End components.

(** ** What is reported *)

Section reported.
Context `{BoxOrderOk}.

(** The regions of motion are the connected components of the mask.  There is a
    division of the foreground pixels into components, two pixels being in the same one
    exactly when a path of foreground pixels, each beside the next, joins them; and the
    regions are those components that have at least the least area, each once, with its
    area and the smallest box around it. *)
Lemma regions_are_components minArea binary w h :
  length binary = w * h ->
  exists comps : list (list nat),
    (forall i, fg binary i <-> exists C, C ∈ comps /\ i ∈ C) /\
    NoDup (mjoin comps) /\
    (forall C i, C ∈ comps -> i ∈ C -> forall j, j ∈ C <-> fg binary j /\ connected w binary i j) /\
    Forall2 (reports w) (filter (fun C => (minArea <= Z.of_nat (length C))%Z) comps) (connectedComponents minArea binary w h).
Proof.
  intros Hlen. unfold connectedComponents. pose proof (second_pass_boxes w h binary Hlen) as Hb.
  destruct (second_pass w h (first_pass binary w h)) as [[labels parent] boxes]. cbn [snd] in Hb.
  assert (forall r b, (r, b) ∈ box_order boxes <-> bbox_of w (members w h binary (w * h) r) = Some b) as Hin.
  { intros r b. rewrite box_order_perm, elem_of_map_to_list, Hb. done. }
  assert (NoDup (box_order boxes).*1) as Hnd by (rewrite box_order_perm; apply NoDup_fst_map_to_list).
  exists ((fun rb => members w h binary (w * h) rb.1) <$> box_order boxes).
  assert (forall i r, i ∈ members w h binary (w * h) r <-> fg binary i /\ class_of w h binary i = r) as Hmem
    by (intros i r; by apply elem_of_members).
  split; [|split; [|split]].
  - intros i. split.
    + intros Hf. destruct (bbox_of_some w (members w h binary (w * h) (class_of w h binary i)) i) as [b Hbb]; [by apply Hmem|].
      exists (members w h binary (w * h) (class_of w h binary i)). split; [|by apply Hmem].
      apply list_elem_of_fmap. exists (class_of w h binary i, b). split; [done|]. by apply Hin.
    + intros (C & (rb & -> & _)%list_elem_of_fmap & Hi). by apply Hmem in Hi as [? _].
  - clear Hin Hb. induction (box_order boxes) as [|[r b] l IH]; [constructor|]. cbn in *. apply NoDup_cons in Hnd as [Hr Hnd].
    apply NoDup_app. split; [|split; [|by apply IH]].
    + apply NoDup_filter, NoDup_seq.
    + intros i [_ Hi]%Hmem (C & Hic & (rb & -> & Hrb)%list_elem_of_fmap)%list_elem_of_join. apply Hmem in Hic as [_ Hic].
      apply Hr, list_elem_of_fmap. exists rb. split; [congruence|done].
  - intros C i (rb & -> & _)%list_elem_of_fmap Hi j. apply Hmem in Hi as [Hf Hr]. rewrite Hmem. split.
    + intros [Hfj Hrj]. split; [done|]. apply (connected_class w h binary Hlen i j Hf Hfj). congruence.
    + intros [Hfj Hc]. split; [done|]. apply (connected_class w h binary Hlen i j Hf Hfj) in Hc. congruence.
  - clear Hnd Hb. assert (forall r b, (r, b) ∈ box_order boxes -> bounds w (members w h binary (w * h) r) b) as Hbo
      by (intros r b [? _]%Hin%bbox_of_bounds; done). clear Hin.
    induction (box_order boxes) as [|[r b] l IH]; [constructor|]. cbn [fmap list_fmap].
    assert (bounds w (members w h binary (w * h) r) b) as Hr by (apply Hbo; by left).
    specialize (IH ltac:(intros r' b' Hin; apply Hbo; by right)). rewrite !filter_cons. cbn [fst snd].
    rewrite <- (bo_area _ _ _ Hr). destruct (decide _); [|exact IH]. cbn [fmap list_fmap]. constructor; [|exact IH].
    split; [cbn; by rewrite (bo_area _ _ _ Hr)|]. by exists b.
Qed.

(** ** A frame *)

(** The detector has seen nothing yet, or frames of this size. *)
Definition sized (pixels : nat) (m : MotionDetector) : Prop := forall bg, md_bg m = Some bg -> length bg = pixels.

Lemma grid_length w h : length (grid w h) = w * h.
Proof. by rewrite grid_seq, length_fmap, length_seq. Qed.

Lemma mask_fg threshold blurred bg i :
  fg (mask threshold blurred bg) i <-> exists v b, blurred !! i = Some v /\ bg !! i = Some b /\ foreground threshold v b = true.
Proof.
  unfold fg, mask. rewrite lookup_zip_with_Some. naive_solver.
Qed.

(** As many pixels are set in a mask as any duplicate-free listing of them names. *)
Lemma count_true (binary : list bool) (l : list nat) :
  NoDup l -> (forall i, i ∈ l <-> binary !! i = Some true) -> length (filter (fun b : bool => b = true) binary) = length l.
Proof.
  intros Hnd Hl. transitivity (length (filter (fun i => binary !! i = Some true) (seq 0 (length binary)))).
  - clear. induction binary as [|b binary IH] using rev_ind; [done|].
    rewrite filter_app, !length_app, Nat.add_1_r, seq_S, filter_app, length_app, IH. f_equal.
    + f_equal. apply filter_ext_in. intros i [_ Hi]%elem_of_seq. by rewrite lookup_app_l by lia.
    + rewrite Nat.add_0_l, !filter_cons, !filter_nil, lookup_app_r, Nat.sub_diag by lia. cbn.
      destruct b; [by rewrite !decide_True|by rewrite !decide_False].
  - apply Permutation_length, NoDup_Permutation; [apply NoDup_filter, NoDup_seq|done|]. intros i.
    rewrite list_elem_of_filter, elem_of_seq, Hl. split; [tauto|]. intros Hi. split; [done|]. apply lookup_lt_Some in Hi. lia.
Qed.

Lemma gray_at_mean frame i r g b :
  frame !! (3 * i) = Some r -> frame !! (3 * i + 1) = Some g -> frame !! (3 * i + 2) = Some b ->
  (0 <= r <= 255)%Z -> (0 <= g <= 255)%Z -> (0 <= b <= 255)%Z -> gray_at frame i = ((r + 2 * g + b) / 4)%Z.
Proof.
  intros Er Eg Eb Hr Hg Hb. unfold gray_at. rewrite !list_lookup_total_alt, Er, Eg, Eb. cbn.
  unfold Datatypes.id. rewrite Z.shiftr_div_pow2 by lia. replace (r + g * 2 + b)%Z with (r + 2 * g + b)%Z by lia. change (2 ^ 2)%Z with 4%Z.
  unfold u8. pose proof (Z.div_le_upper_bound (r + 2 * g + b) 4 255). pose proof (Z.div_pos (r + 2 * g + b) 4).
  apply Z.mod_small. lia.
Qed.

Lemma zip_with_drop_lookup {A B} (f : A -> B -> A) l k i x y :
  length l = length k -> l !! i = Some x -> k !! i = Some y -> (zip_with f l k ++ drop (length l) l) !! i = Some (f x y).
Proof.
  intros Hl Hx Hy. rewrite drop_all, app_nil_r. apply lookup_zip_with_Some. by exists x, y.
Qed.

(** C12: a frame of the usual size is never a panic, and what it leaves and reports is
    its motion.  The first frame becomes the background as it is: each pixel of it is
    the weighted mean (r + 2g + b) / 4 of that pixel's bytes, nothing is reported and
    the coverage is zero.  From then on the regions reported are exactly the connected
    components, of at least the least area, of the pixels whose blurred brightness
    differs from the background by more than the threshold, with their areas and
    smallest boxes; the coverage is the share of all those pixels in the frame; and
    each pixel of the background moves to its own blend of the old background with the
    blurred brightness.  The background keeps its size and the settings stay. *)
Theorem Detect_reports_motion frame w h m :
  length frame = w * h * 3 -> sized (w * h) m ->
  let blurred := boxBlur3x3 (gray_at frame <$> seq 0 (w * h)) w h in
  exists m' rs bg', Detect frame w h m = Some (m', score_region <$> rs) /\
    md_bg m' = Some bg' /\ length bg' = w * h /\
    (md_threshold m', md_minArea m', md_bgAlpha m') = (md_threshold m, md_minArea m, md_bgAlpha m) /\
    match md_bg m with
    | None =>
        rs = [] /\ md_lastCoverage m' = fzero /\
        forall i r g b, frame !! (3 * i) = Some r -> frame !! (3 * i + 1) = Some g -> frame !! (3 * i + 2) = Some b ->
          (0 <= r <= 255)%Z -> (0 <= g <= 255)%Z -> (0 <= b <= 255)%Z -> bg' !! i = Some (f64_of_Z ((r + 2 * g + b) / 4))
    | Some bg =>
        (forall i b v, bg !! i = Some b -> blurred !! i = Some v ->
          bg' !! i = Some (fadd (fmul b (fsub (f64_of_Z 1) (md_bgAlpha m))) (fmul (f64_of_Z v) (md_bgAlpha m)))) /\
        exists comps : list (list nat),
          (forall i, (exists C, C ∈ comps /\ i ∈ C) <->
            exists v b, blurred !! i = Some v /\ bg !! i = Some b /\ foreground (md_threshold m) v b = true) /\
          NoDup (mjoin comps) /\
          (forall C i, C ∈ comps -> i ∈ C -> forall j, j ∈ C <->
            fg (mask (md_threshold m) blurred bg) j /\ connected w (mask (md_threshold m) blurred bg) i j) /\
          Forall2 (reports w) (filter (fun C => (md_minArea m <= Z.of_nat (length C))%Z) comps) rs /\
          md_lastCoverage m' =
            if decide (mjoin comps = []) then fzero
            else fdiv (f64_of_Z (Z.of_nat (length (mjoin comps)))) (f64_of_Z (Z.of_nat (w * h)))
    end.
Proof.
  intros Hl Hs. cbn zeta. unfold Detect. rewrite bool_decide_true by done. cbn [negb].
  set (gray := gray_at frame <$> seq 0 (w * h)). set (blurred := boxBlur3x3 gray w h).
  assert (length gray = w * h) as Hg by (subst gray; by rewrite length_fmap, length_seq).
  assert (length blurred = w * h) as Hbl by (subst blurred; unfold boxBlur3x3; by rewrite length_fmap, grid_length).
  destruct (md_bg m) as [bg|] eqn:Ebg.
  2: { exists (set_bg (f64_of_Z <$> gray) fzero m), [], (f64_of_Z <$> gray). repeat (split; [first [done|by rewrite length_fmap]|]).
    intros i r g b Er Eg Eb Hr Hgg Hb. pose proof (lookup_lt_Some _ _ _ Er). subst gray.
    rewrite !list_lookup_fmap, lookup_seq_lt by lia. cbn. f_equal. f_equal. by apply gray_at_mean. }
  pose proof (Hs bg Ebg) as Hbg. rewrite bool_decide_false by lia.
  set (bg' := zip_with (blend (md_bgAlpha m)) bg blurred ++ drop (w * h) bg).
  assert (length bg' = w * h) as Hbg' by (subst bg'; rewrite length_app, length_zip_with, length_drop; lia).
  assert (forall i b v, bg !! i = Some b -> blurred !! i = Some v -> bg' !! i = Some (blend (md_bgAlpha m) b v)) as Hblend
    by (intros; subst bg'; rewrite <- Hbg; apply zip_with_drop_lookup; [congruence|done..]).
  set (binary := mask (md_threshold m) blurred bg).
  assert (length binary = w * h) as Hbin by (subst binary; unfold mask; rewrite length_zip_with; lia).
  destruct (regions_are_components (md_minArea m) binary w h Hbin) as (comps & C1 & C2 & C3 & C4).
  pose proof (count_true binary (mjoin comps) C2) as Hcount. rewrite Hcount.
  2: { intros i. rewrite (C1 i : fg binary i <-> _), list_elem_of_join. split; intros (C & ? & ?); by exists C. }
  assert (forall i, (exists C, C ∈ comps /\ i ∈ C) <-> exists v b, blurred !! i = Some v /\ bg !! i = Some b /\ foreground (md_threshold m) v b = true) as C1'
    by (intros i; rewrite <- mask_fg; symmetry; apply C1).
  destruct (Z.eqb_spec (Z.of_nat (length (mjoin comps))) 0) as [Hz|Hz].
  - assert (mjoin comps = []) as Hnil by (apply nil_length_inv; lia).
    exists (set_bg bg' fzero m), [], bg'. repeat (split; [done|]). exists []. split; [|split; [constructor|split; [|split; [constructor|done]]]].
    + intros i. rewrite <- C1'. split; [intros (C & HC%not_elem_of_nil & _); done|]. intros [C [HC Hi]]. exfalso.
      apply (not_elem_of_nil i). rewrite <- Hnil. apply list_elem_of_join. by exists C.
    + intros C i HC. by apply not_elem_of_nil in HC.
  - eexists _, _, bg'. split; [reflexivity|]. repeat (split; [done|]). exists comps. repeat (split; [done|]).
    rewrite decide_False; [done|]. intros Hnil. by rewrite Hnil in Hz.
Qed.

End reported.

(** ** An instance: one bright pixel in a dark frame of four by two *)

#[local] Instance key_order : BoxOrder := map_to_list.
#[local] Instance key_order_ok : BoxOrderOk.
Proof. by intros m. Qed.

Definition dark : list Z := replicate 24 0%Z.
Definition spot : list Z := [200; 200; 200]%Z ++ replicate 21 0%Z.

Definition watching : MotionDetector :=
  match Detect dark 4 2 (NewMotionDetector 25 2 (f64_lit 5 100)) with Some (m, _) => m | None => NewMotionDetector 25 2 fzero end.

Lemma Detect_reports_motion_witness : exists m' rs,
  Detect spot 4 2 watching = Some (m', score_region <$> rs) /\ mr_Box <$> rs = [mkBox 0 0 2 2].
Proof.
  destruct (Detect_reports_motion spot 4 2 watching) as (m' & rs & bg' & E & _); [reflexivity|intros bg; vm_compute; by intros [= <-]|].
  exists m', rs. split; [exact E|]. assert (mr_Box <$> (score_region <$> rs) = [mkBox 0 0 2 2]) as Hb.
  { apply (f_equal (fun r => match r with Some (_, l) => mr_Box <$> l | None => [] end)) in E. rewrite <- E. vm_compute. reflexivity. }
  rewrite <- Hb, <- list_fmap_compose. apply list_fmap_ext. intros i r _. unfold score_region. cbn. by destruct (0 <? _)%Z.
Defined.
