(* ===== verification/DoorbellFrames.v ===== *)
(** The photo of a doorbell press ([snapshot/doorbell.go],
    [camera/doorbell_snapshot.go]): a small buffer of scored frames from the last two
    seconds, the producer that fills it from the frames a camera offers, and the choice
    made when the button is pressed.

    Inference is an answer: the detections of a main-stream image, and the faces in a
    box.  What a mutex guards is one step; the goroutine's [select] is a step relation
    written as a function of the case it takes.

    Properties of the photo of a doorbell press: the buffer stays small and recent
    whatever is offered and whenever, and the photo chosen is the best of the window. *)

From S2P Require Import Prelude Float64 CameraEvent Tracker.
From Stdlib Require Import Floats.SpecFloat Ascii.

#[local] Open Scope Z_scope.

Definition DoorbellWindow : Z := 2 * Second.
Definition doorbellMaxFrames : nat := 8.
Definition doorbellMaxBytes : Z := Z.shiftl 64 20.
Definition doorbellSampleInterval : Z := 500 * Millisecond.

(** [image.Rect] puts its corners in order. *)
Definition Rect (x0 y0 x1 y1 : Z) : Box := mkBox (Z.min x0 x1) (Z.min y0 y1) (Z.max x0 x1) (Z.max y0 y1).
Definition Dx (b : Box) : Z := bx2 b - bx1 b.
Definition Dy (b : Box) : Z := by2 b - by1 b.
Definition Bounds (img : RGBA) : Box := mkBox 0 0 (im_Dx img) (im_Dy img).

(** [Rectangle.Intersect], the empty rectangle when nothing is shared. *)
Definition Intersect (r s : Box) : Box :=
  let b := mkBox (Z.max (bx1 r) (bx1 s)) (Z.max (by1 r) (by1 s)) (Z.min (bx2 r) (bx2 s)) (Z.min (by2 r) (by2 s)) in
  if (bx2 b <=? bx1 b) || (by2 b <=? by1 b) then mkBox 0 0 0 0 else b.

Record Subject := mkSubject { su_Box : Box; su_Confidence : float64; su_Face : bool; su_Frontalness : float64 }.

(** ** The score of a subject *)

(** The four neighbors of pixel [i] of the crop. *)
Definition laplacian (pix : list Z) (i : nat) : float64 :=
  f64_of_Z (4 * (pix !!! i) - (pix !!! (i - 1)%nat) - (pix !!! (i + 1)%nat) - (pix !!! (i - 64)%nat) - (pix !!! (i + 64)%nat)).

Definition crop_step (pix : list Z) (acc : float64 * float64 * Z) (i : nat) : float64 * float64 * Z :=
  let '(sum, sumSq, exposed) := acc in
  let lap := laplacian pix i in
  let center := pix !!! i in
  (fadd sum lap, fadd sumSq (fmul lap lap), if (12 <? center) && (center <? 244) then exposed + 1 else exposed).

Definition crop_pixels : list nat := y ← seq 1 62; (fun x => (y * 64 + x)%nat) <$> seq 1 62.

Definition area_of (b : Box) : float64 := f64_of_Z (i64 (Dx b * Dy b)).

Section score.
Context `{Imaging}.

Definition doorbellSubjectScore (img : RGBA) (subject : Subject) : float64 :=
  let box := Intersect (su_Box subject) (Bounds img) in
  if (Dx box <? 8) || (Dy box <? 8) || flt (su_Confidence subject) (f64_lit 5 10) || is_nan (su_Confidence subject) then fzero
  else
    let crop := gray_crop img (bx1 box, by1 box, bx2 box, by2 box) in
    let '(sum, sumSq, exposed) := fold_left (crop_step crop) crop_pixels (fzero, fzero, 0) in
    let n := f64_of_Z (62 * 62) in
    let variance := fmax fzero (fsub (fdiv sumSq n) (fmul (fdiv sum n) (fdiv sum n))) in
    let sharpness := fdiv variance (fadd variance (f64_of_Z 100)) in
    let exposure := fdiv (f64_of_Z exposed) n in
    let size := fmin (f64_of_Z 1) (fdiv (fsqrt (area_of box)) (f64_of_Z 160)) in
    let visible := fdiv (area_of box) (area_of (su_Box subject)) in
    let confidence := fmin (f64_of_Z 1) (su_Confidence subject) in
    let '(tier, pose) :=
      if su_Face subject then (f64_of_Z 2, fmul visible (fmax fzero (fmin (f64_of_Z 1) (su_Frontalness subject))))
      else (f64_of_Z 1, visible) in
    fadd (fadd (fadd (fadd (fadd tier (fmul (f64_lit 45 100) sharpness)) (fmul (f64_lit 15 100) size))
      (fmul (f64_lit 15 100) confidence)) (fmul (f64_lit 15 100) pose)) (fmul (f64_lit 10 100) exposure).
End score.

(** ** The buffer *)

Record doorbellCandidate := mkCandidate {
  dc_image : option RGBA; dc_preview : string; dc_at : Z; dc_score : float64; dc_face : bool
}.

Definition no_candidate : doorbellCandidate := mkCandidate None "" zero_time fzero false.

Record DoorbellBuffer := mkBuffer { db_frames : list doorbellCandidate; db_bytes : Z }.

Definition empty_buffer : DoorbellBuffer := mkBuffer [] 0.

Definition held (c : doorbellCandidate) : Z :=
  match dc_image c with Some img => pix_len img | None => 0 end + Z.of_nat (String.length (dc_preview c)).

Definition remove (i : nat) (b : DoorbellBuffer) : DoorbellBuffer :=
  match db_frames b !! i with
  | Some f => mkBuffer (delete i (db_frames b)) (db_bytes b - held f)
  | None => b
  end.

(** From the last frame to the first. *)
Definition prune_step (cutoff : Z) (b : DoorbellBuffer) (i : nat) : DoorbellBuffer :=
  match db_frames b !! i with
  | Some f => if Before (dc_at f) cutoff then remove i b else b
  | None => b
  end.

Definition prune (cutoff : Z) (b : DoorbellBuffer) : DoorbellBuffer :=
  fold_left (prune_step cutoff) (rev (seq 0 (length (db_frames b)))) b.

Definition oldest_step (frames : list doorbellCandidate) (oldest i : nat) : nat :=
  match frames !! i, frames !! oldest with
  | Some f, Some o => if Before (dc_at f) (dc_at o) then i else oldest
  | _, _ => oldest
  end.

Definition oldest_frame (frames : list doorbellCandidate) : nat := fold_left (oldest_step frames) (seq 0 (length frames)) 0%nat.

Fixpoint evict (fuel : nat) (b : DoorbellBuffer) : DoorbellBuffer :=
  match fuel with
  | O => b
  | S fuel =>
      if bool_decide (doorbellMaxFrames < length (db_frames b))%nat || (doorbellMaxBytes <? db_bytes b)
      then evict fuel (remove (oldest_frame (db_frames b)) b)
      else b
  end.

Section buffer.
Context `{Imaging}.

(** The best of the subjects: the first with the highest positive score. *)
Definition best_subject (img : RGBA) (at_ : Z) (subjects : list Subject) : doorbellCandidate :=
  fold_left (fun best subject =>
    let score := doorbellSubjectScore img subject in
    if fgt score (dc_score best) then mkCandidate (Some img) "" at_ score (su_Face subject) else best)
    subjects (mkCandidate (Some img) "" at_ fzero false).

Definition newest_of (at_ : Z) (frames : list doorbellCandidate) : Z :=
  fold_left (fun newest f => if After (dc_at f) newest then dc_at f else newest) frames at_.

Definition Buffer_Add (img : option RGBA) (at_ : Z) (subjects : list Subject) (b : DoorbellBuffer) : DoorbellBuffer :=
  match img with
  | None => b
  | Some img =>
      if IsZero at_ || (doorbellMaxBytes <? pix_len img) then b
      else
        let best := best_subject img at_ subjects in
        if feq (dc_score best) fzero then b
        else
          let preview := match EncodeNotificationJPEG (Some img) with Ok out => out | Err _ => EmptyString end in
          let best := mkCandidate (dc_image best) preview (dc_at best) (dc_score best) (dc_face best) in
          if doorbellMaxBytes <? pix_len img + Z.of_nat (String.length preview) then b
          else
            let newest := newest_of at_ (db_frames b) in
            let b := prune (Add newest (- DoorbellWindow)) b in
            if Before at_ (Add newest (- DoorbellWindow)) then b
            else
              let b := mkBuffer (db_frames b ++ [best]) (db_bytes b + (pix_len img + Z.of_nat (String.length preview))) in
              evict (length (db_frames b)) b
  end.

(** The score of a frame at the press, less a little for its age. *)
Definition aged (at_ : Z) (f : doorbellCandidate) : float64 :=
  fsub (dc_score f) (fdiv (fmul (f64_lit 5 100) (Seconds (Sub at_ (dc_at f)))) (Seconds DoorbellWindow)).

Definition best_step (at_ : Z) (best : doorbellCandidate * float64) (f : doorbellCandidate) : doorbellCandidate * float64 :=
  if After (dc_at f) at_ then best
  else
    let score := aged at_ f in
    if fgt score best.2 || (feq score best.2 && After (dc_at f) (dc_at best.1)) then (f, score) else best.

Definition best_candidate (at_ : Z) (frames : list doorbellCandidate) : doorbellCandidate :=
  (fold_left (best_step at_) frames (no_candidate, fzero)).1.

Definition kind_of (best : doorbellCandidate) : string :=
  match dc_image best with
  | None => ""
  | Some _ => if dc_face best then "face" else "person"
  end.

Definition BestWithPreview (at_ : Z) (b : DoorbellBuffer) : DoorbellBuffer * (option RGBA * string * Z * string) :=
  let b := prune (Add at_ (- DoorbellWindow)) b in
  let best := best_candidate at_ (db_frames b) in
  (b, (dc_image best, dc_preview best, dc_at best, kind_of best)).

Definition Expire (at_ : Z) (b : DoorbellBuffer) : DoorbellBuffer := prune (Add at_ (- DoorbellWindow)) b.
End buffer.

Definition Clear (b : DoorbellBuffer) : DoorbellBuffer := empty_buffer.

(** ** The producer *)

Record doorbellFrameJob := mkJob {
  jb_frame : option RGBA; jb_at : Z; jb_detections : list Detection; jb_main : option RGBA; jb_mainAt : Z
}.

(** [ds_lastMain] is the local of the goroutine that runs. *)
Record doorbellSnapshots := mkSnapshots {
  ds_buffer : DoorbellBuffer; ds_pending : option doorbellFrameJob; ds_active : bool; ds_lastOffer : Z; ds_lastMain : Z
}.

Definition newDoorbellSnapshots : doorbellSnapshots := mkSnapshots empty_buffer None false zero_time zero_time.

(** A face with its two eyes and nose. *)
Record DetectedFace := mkFace { fc_Box : Box; fc_Confidence : float64; fc_left : float64 * float64; fc_right : float64 * float64; fc_nose : float64 * float64 }.

(** [math.Hypot]. *)
Definition Hypot (p q : float64) : float64 :=
  let p := SFabs p in
  let q := SFabs q in
  match p, q with
  | S754_infinity _, _ | _, S754_infinity _ => S754_infinity false
  | S754_nan, _ | _, S754_nan => S754_nan
  | _, _ =>
      let '(p, q) := if flt p q then (q, p) else (p, q) in
      if feq p fzero then fzero
      else let q := fdiv q p in fmul p (fsqrt (fadd (f64_of_Z 1) (fmul q q)))
  end.

Definition faceFrontalness (f : DetectedFace) : float64 :=
  let '(lx, ly) := fc_left f in
  let '(rx, ry) := fc_right f in
  let '(nx, ny) := fc_nose f in
  let dx := widen (sub32 rx lx) in
  let dy := widen (sub32 ry ly) in
  let eyeSpan := Hypot dx dy in
  if flt eyeSpan (f64_of_Z 1) then fzero
  else
    let midX := fdiv (widen (add32 lx rx)) (f64_of_Z 2) in
    let midY := fdiv (widen (add32 ly ry)) (f64_of_Z 2) in
    let offset := fdiv (SFabs (fadd (fmul (fsub (widen nx) midX) dx) (fmul (fsub (widen ny) midY) dy))) (fmul eyeSpan eyeSpan) in
    fmax fzero (fsub (f64_of_Z 1) (fmul (f64_of_Z 2) offset)).

Definition boxArea (b : Box) : Z := i64 (Z.max 0 (i64 (bx2 b - bx1 b)) * Z.max 0 (i64 (by2 b - by1 b))).

(** A person worth a photo. *)
Definition visitor (d : Detection) : bool :=
  String.eqb (d_Label d) "person" && fge (d_Score d) (f32_lit 5 10) && (0 <? boxArea (d_Box d)).

Section producer.
(** The faces found in a box of an image, when there is a recognizer. *)
Context `{Imaging} (faces : option (RGBA -> Box -> list DetectedFace)).

Definition faceSubjects (img : RGBA) (box : Box) : list Subject :=
  match faces with
  | None => []
  | Some tryDetect =>
      (fun f => mkSubject (Rect (bx1 (fc_Box f)) (by1 (fc_Box f)) (bx2 (fc_Box f)) (by2 (fc_Box f))) (widen (fc_Confidence f)) true (faceFrontalness f))
        <$> tryDetect img box
  end.

(** [sort.SliceStable] by decreasing area. *)
Definition larger (d e : Detection) : Prop := boxArea (d_Box e) <= boxArea (d_Box d).
#[local] Instance larger_dec : RelDecision larger.
Proof. intros d e. unfold larger. apply _. Defined.

Definition subjects_of (img : RGBA) (detections : list Detection) : list Subject :=
  let people := take 3 (merge_sort larger (filter (fun d => visitor d = true) detections)) in
  match people with
  | [] => faceSubjects img (Bounds img)
  | _ =>
      person ← people;
      mkSubject (Rect (bx1 (d_Box person)) (by1 (d_Box person)) (bx2 (d_Box person)) (by2 (d_Box person))) (widen (d_Score person)) false fzero
        :: faceSubjects img (d_Box person)
  end.

(** One job of the queue: the main-stream image if it is new and recent, then the frame
    the detections came from. *)
Definition analyse (detected : option (list Detection)) (job : doorbellFrameJob) (d : doorbellSnapshots) : doorbellSnapshots :=
  let d :=
    match jb_main job with
    | Some img =>
        if After (jb_mainAt job) (ds_lastMain d) && (Sub (jb_at job) (jb_mainAt job) <=? DoorbellWindow) then
          let detections := default [] detected in
          mkSnapshots (Buffer_Add (Some img) (jb_mainAt job) (subjects_of img detections) (ds_buffer d)) (ds_pending d) (ds_active d)
            (ds_lastOffer d) (jb_mainAt job)
        else d
    | None => d
    end in
  match jb_frame job, jb_detections job with
  | Some frame, _ :: _ =>
      mkSnapshots (Buffer_Add (Some frame) (jb_at job) (subjects_of frame (jb_detections job)) (ds_buffer d)) (ds_pending d) (ds_active d)
        (ds_lastOffer d) (ds_lastMain d)
  | _, _ => d
  end.

(** [offerDoorbellFrame]; [main] is what the snapshot consumer answers.  [None] is the
    panic of a frame shorter than its size. *)
Definition offerDoorbellFrame (main : option (option RGBA * Z)) (buf : list Z) (w h : nat) (at_ : Z) (detections : list Detection)
    (d : doorbellSnapshots) : option doorbellSnapshots :=
  if negb (ds_active d) then Some d
  else if (Sub at_ (ds_lastOffer d) <? doorbellSampleInterval) || bool_decide (is_Some (ds_pending d)) then Some d
  else
    let '(m, mainAt) := default (None, zero_time) main in
    job ← (if existsb visitor detections then frame ← rawToRGBA buf w h; Some (mkJob (Some frame) at_ detections m mainAt)
           else Some (mkJob None at_ [] m mainAt));
    Some (mkSnapshots (ds_buffer d) (Some job) (ds_active d) at_ (ds_lastMain d)).

(** The cases of the goroutine's [select], its start and its end. *)
Inductive DoorbellOp :=
| DoorbellStart
| DoorbellTick (now : Z)
| DoorbellJob (detected : option (list Detection))
| DoorbellStop
| DoorbellOffer (main : option (option RGBA * Z)) (buf : list Z) (w h : nat) (at_ : Z) (detections : list Detection)
| DoorbellPress (at_ : Z).

Definition set_buffer (b : DoorbellBuffer) (d : doorbellSnapshots) : doorbellSnapshots :=
  mkSnapshots b (ds_pending d) (ds_active d) (ds_lastOffer d) (ds_lastMain d).

Definition doorbell_step (op : DoorbellOp) (d : doorbellSnapshots) : option doorbellSnapshots :=
  match op with
  | DoorbellStart => Some (mkSnapshots (ds_buffer d) (ds_pending d) true (ds_lastOffer d) zero_time)
  | DoorbellTick now => Some (if ds_active d then set_buffer (Expire now (ds_buffer d)) d else d)
  | DoorbellJob detected =>
      match ds_pending d with
      | Some job =>
          if ds_active d then
            Some (analyse detected job (mkSnapshots (ds_buffer d) None (ds_active d) (ds_lastOffer d) (ds_lastMain d)))
          else Some d
      | None => Some d
      end
  | DoorbellStop => Some (mkSnapshots (Clear (ds_buffer d)) None false (ds_lastOffer d) (ds_lastMain d))
  | DoorbellOffer main buf w h at_ detections => offerDoorbellFrame main buf w h at_ detections d
  | DoorbellPress at_ => Some (set_buffer (BestWithPreview at_ (ds_buffer d)).1 d)
  end.

Fixpoint doorbell_run (ops : list DoorbellOp) (d : doorbellSnapshots) : option doorbellSnapshots :=
  match ops with
  | [] => Some d
  | op :: ops => d ← doorbell_step op d; doorbell_run ops d
  end.

(** [doorbellFrame]: the chosen photo and its preview, or the live frame. *)
Definition doorbellFrame (live : option RGBA) (at_ : Z) (d : option doorbellSnapshots) : option doorbellSnapshots * (option RGBA * string) :=
  match d with
  | None => (None, (live, EmptyString))
  | Some d =>
      let '(b, (img, preview, _, _)) := BestWithPreview at_ (ds_buffer d) in
      (Some (set_buffer b d), match img with Some _ => (img, preview) | None => (live, EmptyString) end)
  end.
End producer.

(** * What the buffer guarantees *)

(** ** Bytes held *)

Definition total_held (l : list doorbellCandidate) : Z := foldr (fun f n => held f + n) 0 l.

Lemma total_held_app l k : total_held (l ++ k) = total_held l + total_held k.
Proof. unfold total_held. induction l as [|f l IH]; cbn in *; lia. Qed.

#[local] Instance total_held_perm : Proper ((≡ₚ) ==> eq) total_held.
Proof. unfold total_held. induction 1; cbn in *; lia. Qed.

Lemma held_nonneg f : 0 <= held f.
Proof. unfold held, pix_len. destruct (dc_image f); lia. Qed.

Lemma total_held_nonneg l : 0 <= total_held l.
Proof. unfold total_held. induction l as [|f l IH]; cbn; [lia|]. pose proof (held_nonneg f). lia. Qed.

Lemma delete_split {A} (l : list A) i x : l !! i = Some x -> l = take i l ++ x :: drop (S i) l /\ delete i l = take i l ++ drop (S i) l.
Proof. intros H. split; [by rewrite take_drop_middle|apply delete_take_drop]. Qed.

Definition accounts (b : DoorbellBuffer) : Prop := db_bytes b = total_held (db_frames b).

Lemma remove_accounts i b : accounts b -> accounts (remove i b).
Proof.
  unfold remove, accounts. destruct (db_frames b !! i) as [f|] eqn:E; [|done]. apply delete_split in E as [E ->].
  rewrite E at 1. cbn [db_bytes db_frames]. rewrite !total_held_app. intros ->.
  change (total_held (f :: drop (S i) (db_frames b))) with (held f + total_held (drop (S i) (db_frames b))). lia.
Qed.

Lemma remove_submseteq i b : db_frames (remove i b) ⊆+ db_frames b.
Proof. unfold remove. destruct (db_frames b !! i); [apply submseteq_delete|done]. Qed.

(** Pruning keeps exactly the frames that are recent enough, in order. *)
Lemma prune_fold cutoff n b : (n <= length (db_frames b))%nat ->
  let b' := fold_left (prune_step cutoff) (rev (seq 0 n)) b in
  db_frames b' = filter (fun f => cutoff <= dc_at f) (take n (db_frames b)) ++ drop n (db_frames b) /\ (accounts b -> accounts b').
Proof.
  revert b. induction n as [|n IH]; intros b Hn; [done|]. cbn zeta. rewrite seq_S, rev_app_distr. cbn [rev app fold_left Nat.add].
  destruct (lookup_lt_is_Some_2 (db_frames b) n Hn) as [f Hf]. unfold prune_step at 2 4. rewrite Hf.
  rewrite (take_S_r _ _ _ Hf), filter_app, <- app_assoc. unfold Before. destruct (Z.ltb_spec (dc_at f) cutoff) as [Hlt|Hge].
  - assert (db_frames (remove n b) = take n (db_frames b) ++ drop (S n) (db_frames b)) as E by (unfold remove; rewrite Hf; apply delete_take_drop).
    destruct (IH (remove n b)) as [-> Ha]; [rewrite E, length_app, length_take; lia|]. split; [|intros Hb; by apply Ha, remove_accounts].
    rewrite E, take_app_le, drop_app_ge by (rewrite length_take; lia). rewrite take_take, length_take.
    replace (n `min` n)%nat with n by lia. replace (n - n `min` length (db_frames b))%nat with 0%nat by lia.
    rewrite (filter_cons_False _ f []) by lia. done.
  - destruct (IH b) as [-> Ha]; [lia|]. split; [|done]. rewrite (filter_cons_True _ f []) by lia. by rewrite (drop_S _ _ _ Hf).
Qed.

Lemma prune_frames cutoff b : db_frames (prune cutoff b) = filter (fun f => cutoff <= dc_at f) (db_frames b).
Proof. unfold prune. destruct (prune_fold cutoff (length (db_frames b)) b) as [-> _]; [lia|]. by rewrite firstn_all, drop_all, app_nil_r. Qed.

Lemma prune_accounts cutoff b : accounts b -> accounts (prune cutoff b).
Proof. unfold prune. apply (prune_fold cutoff (length (db_frames b)) b). lia. Qed.

(** ** Well-formedness *)

Record buffer_ok (b : DoorbellBuffer) : Prop := {
  bk_accounts : accounts b;
  bk_frames : (length (db_frames b) <= doorbellMaxFrames)%nat;
  bk_bytes : db_bytes b <= doorbellMaxBytes;
  bk_scored : Forall (fun f => is_Some (dc_image f) /\ flt fzero (dc_score f) = true) (db_frames b);
  bk_recent : forall f g, f ∈ db_frames b -> g ∈ db_frames b -> dc_at f - dc_at g <= DoorbellWindow
}.

Lemma buffer_ok_submseteq b b' : buffer_ok b -> db_frames b' ⊆+ db_frames b -> accounts b' -> buffer_ok b'.
Proof.
  intros [Ha Hf Hb Hs Hr] Hsub Ha'. split; [done| | | |].
  - apply submseteq_length in Hsub. lia.
  - assert (total_held (db_frames b') <= total_held (db_frames b)) as Hle; [|unfold accounts in *; lia].
    apply submseteq_Permutation in Hsub as [k ->]. rewrite total_held_app. pose proof (total_held_nonneg k). lia.
  - rewrite Forall_forall in Hs |- *. intros f Hin. apply Hs. by eapply elem_of_submseteq.
  - intros f g Hin Hin'. apply Hr; by eapply elem_of_submseteq.
Qed.

Lemma empty_buffer_ok : buffer_ok empty_buffer.
Proof. split; [done|cbn; lia|by vm_compute|constructor|]. by intros f g Hf%not_elem_of_nil. Qed.

Lemma prune_ok cutoff b : buffer_ok b -> buffer_ok (prune cutoff b).
Proof.
  intros Hok. apply (buffer_ok_submseteq b); [done| |apply prune_accounts, Hok]. rewrite prune_frames. apply sublist_submseteq, sublist_filter.
Qed.

(** ** Eviction *)

Lemma oldest_frame_lt frames : frames <> [] -> (oldest_frame frames < length frames)%nat.
Proof.
  intros Hne. unfold oldest_frame. assert (0 < length frames)%nat as H0 by (destruct frames; [done|cbn; lia]).
  assert (forall l o, (o < length frames)%nat -> Forall (fun i => (i < length frames)%nat) l ->
    (fold_left (oldest_step frames) l o < length frames)%nat) as H.
  { induction l as [|i l IH]; intros o Ho Hl; [done|]. apply Forall_cons in Hl as [Hi Hl]. cbn. apply IH; [|done].
    unfold oldest_step. repeat case_match; lia. }
  apply H; [done|]. apply Forall_forall. intros i [_ Hi]%elem_of_seq. lia.
Qed.

(** As many turns as frames are enough for both limits; what stays was there before. *)
Lemma evict_spec fuel b : (length (db_frames b) <= fuel)%nat -> accounts b ->
  let b' := evict fuel b in
  db_frames b' ⊆+ db_frames b /\ accounts b' /\ (length (db_frames b') <= doorbellMaxFrames)%nat /\ db_bytes b' <= doorbellMaxBytes.
Proof.
  revert b. induction fuel as [|fuel IH]; intros b Hf Ha; cbn zeta; cbn [evict].
  - destruct b as [frames bytes]. destruct frames; [|cbn in Hf; lia]. unfold accounts in Ha. cbn in Ha. subst bytes.
    split_and!; [done|done|cbn; lia|by vm_compute].
  - destruct (bool_decide_reflect (doorbellMaxFrames < length (db_frames b))%nat) as [Hn|Hn]; cbn [orb];
      [|destruct (doorbellMaxBytes <? db_bytes b) eqn:Eb; bool_to_prop; [|repeat split; (done || lia)]].
    all: assert (db_frames b <> []) as Hne by (intros E; unfold accounts in Ha; rewrite E in Ha, Hn;
      first [cbn in Hn; lia|rewrite Ha in Eb; vm_compute in Eb; discriminate]).
    all: pose proof (oldest_frame_lt _ Hne) as Ho; apply lookup_lt_is_Some_2 in Ho as [f Hof].
    all: assert (length (db_frames (remove (oldest_frame (db_frames b)) b)) <= fuel)%nat as Hf'
      by (unfold remove; rewrite Hof; cbn; rewrite length_delete by (by eexists); lia).
    all: destruct (IH _ Hf' (remove_accounts _ _ Ha)) as (Hs & H); (split; [|exact H]); etrans; [exact Hs|apply remove_submseteq].
Qed.

(** ** Adding *)

Section buffer.
Context `{Imaging}.

Lemma best_subject_spec img at_ subjects : let best := best_subject img at_ subjects in
  dc_at best = at_ /\ dc_image best = Some img /\ (feq (dc_score best) fzero = true \/ flt fzero (dc_score best) = true).
Proof.
  unfold best_subject.
  assert (forall l b, dc_at b = at_ /\ dc_image b = Some img /\ (feq (dc_score b) fzero = true \/ flt fzero (dc_score b) = true) ->
    let best := fold_left (fun best subject => let score := doorbellSubjectScore img subject in
      if fgt score (dc_score best) then mkCandidate (Some img) "" at_ score (su_Face subject) else best) l b in
    dc_at best = at_ /\ dc_image best = Some img /\ (feq (dc_score best) fzero = true \/ flt fzero (dc_score best) = true)) as Hl; [|by apply Hl; auto].
  induction l as [|s l IH]; intros b Hb; [done|]. cbn [fold_left]. apply IH.
  destruct (fgt (doorbellSubjectScore img s) (dc_score b)) eqn:E; [|done]. cbn. split; [done|]. split; [done|]. right.
  destruct Hb as (_ & _ & Hb). unfold fgt in E. rewrite flt_rank_true in *. rewrite feq_rank_true in Hb. unfold rank_le in *.
  split_and!; [done|tauto|]. destruct Hb as [(_ & _ & Hb)|(_ & _ & Hb)]; lia.
Qed.

Lemma newest_of_spec at_ frames : at_ <= newest_of at_ frames /\ (forall f, f ∈ frames -> dc_at f <= newest_of at_ frames) /\
  (newest_of at_ frames = at_ \/ exists f, f ∈ frames /\ newest_of at_ frames = dc_at f).
Proof.
  unfold newest_of, After. revert at_. induction frames as [|g frames IH]; intros a; cbn [fold_left].
  - split; [lia|]. split; [by intros f Hf%not_elem_of_nil|by left].
  - destruct (IH (if a <? dc_at g then dc_at g else a)) as (H1 & H2 & H3). destruct (Z.ltb_spec a (dc_at g)).
    + split; [lia|]. split; [intros f [->|Hf]%elem_of_cons; [lia|auto]|]. right. destruct H3 as [->|(f & Hf & ->)]; [exists g|exists f]; set_solver.
    + split; [lia|]. split; [intros f [->|Hf]%elem_of_cons; [lia|auto]|]. destruct H3 as [->|(f & Hf & ->)]; [by left|right; exists f]; set_solver.
Qed.

Lemma Buffer_Add_ok img at_ subjects b : buffer_ok b -> buffer_ok (Buffer_Add img at_ subjects b).
Proof.
  intros Hok. unfold Buffer_Add. destruct img as [img|]; [|done]. destruct (_ || _); [done|].
  destruct (best_subject_spec img at_ subjects) as (Eat & Eim & Esc). set (best := best_subject img at_ subjects) in *.
  destruct (feq (dc_score best) fzero); [done|]. destruct Esc as [?|Esc]; [done|].
  set (preview := match EncodeNotificationJPEG _ with Ok out => out | Err _ => _ end). set (added := mkCandidate _ preview _ _ _).
  destruct (_ <? _); [done|]. destruct (newest_of_spec at_ (db_frames b)) as (Hn1 & Hn2 & Hn3). set (newest := newest_of at_ (db_frames b)) in *.
  pose proof (prune_ok (Add newest (- DoorbellWindow)) b Hok) as Hp. pose proof (prune_frames (Add newest (- DoorbellWindow)) b) as Ep.
  set (b1 := prune _ b) in *. unfold Before. destruct (Z.ltb_spec at_ (Add newest (- DoorbellWindow))) as [|Hin]; [done|].
  set (b2 := mkBuffer (db_frames b1 ++ [added]) _).
  assert (accounts b2) as Ha.
  { unfold accounts, b2. cbn [db_frames db_bytes]. rewrite (bk_accounts _ Hp), total_held_app. cbn. unfold held. cbn. rewrite Eim. lia. }
  destruct (evict_spec (length (db_frames b2)) b2) as (Hs & Ha' & Hl & Hb); [lia|done|]. set (b3 := evict _ b2) in *.
  assert (forall f, f ∈ db_frames b3 -> newest - DoorbellWindow <= dc_at f <= newest /\ is_Some (dc_image f) /\ flt fzero (dc_score f) = true) as Hf.
  { intros f Hf. apply (elem_of_submseteq _ _ _ Hf) in Hs. unfold b2 in Hs. cbn [db_frames] in Hs. apply elem_of_app in Hs as [Hs|Hs%list_elem_of_singleton].
    - pose proof (bk_scored _ Hp) as Hsc. rewrite Forall_forall in Hsc. split; [|by apply Hsc]. rewrite Ep in Hs.
      apply list_elem_of_filter in Hs as [Hge Hs]. unfold Add in Hge. specialize (Hn2 f Hs). lia.
    - subst f. unfold Add in Hin. cbn. rewrite Eat, Eim. split; [lia|]. by split; [eexists|]. }
  split; [done|done|done| |].
  - apply Forall_forall. intros f Hin'. by apply Hf.
  - intros f g H1 H2. apply Hf in H1, H2. lia.
Qed.
End buffer.

(** ** The producer *)

Section producer.
Context `{Imaging} (faces : option (RGBA -> Box -> list DetectedFace)).

Record producer_ok (d : doorbellSnapshots) : Prop := {
  pk_buffer : buffer_ok (ds_buffer d);
  pk_stopped : ds_active d = false -> db_frames (ds_buffer d) = [] /\ ds_pending d = None
}.

Lemma prune_nil cutoff b : db_frames b = [] -> db_frames (prune cutoff b) = [].
Proof. intros E. by rewrite prune_frames, E. Qed.

Lemma analyse_frame detected job d : ds_active (analyse faces detected job d) = ds_active d /\
  (buffer_ok (ds_buffer d) -> buffer_ok (ds_buffer (analyse faces detected job d))).
Proof.
  unfold analyse. set (d1 := match jb_main job with Some _ => _ | None => d end).
  assert (ds_active d1 = ds_active d /\ (buffer_ok (ds_buffer d) -> buffer_ok (ds_buffer d1))) as [H1 H2].
  { subst d1. destruct (jb_main job); [|done]. destruct (_ && _); [|done]. split; [done|]. apply Buffer_Add_ok. }
  destruct (jb_frame job); [|done]. destruct (jb_detections job); [done|]. split; [done|]. cbn [ds_buffer]. intros Hb. apply Buffer_Add_ok. auto.
Qed.

Lemma doorbell_step_ok op d d' : producer_ok d -> doorbell_step faces op d = Some d' -> producer_ok d'.
Proof.
  intros [Hb Hs]. destruct op as [|now|detected| |main buf w h at_ detections|at_]; cbn [doorbell_step].
  - intros [= <-]. by split.
  - intros [= <-]. destruct (ds_active d) eqn:Ea; split; cbn; rewrite ?Ea; try done. by apply prune_ok.
  - destruct (ds_pending d) as [job|] eqn:Ep; [|intros [= <-]; split; [done|rewrite Ep; auto]].
    destruct (ds_active d) eqn:Ea; intros [= <-]; [|split; [done|rewrite Ea, Ep; auto]].
    destruct (analyse_frame detected job (mkSnapshots (ds_buffer d) None true (ds_lastOffer d) (ds_lastMain d))) as [E1 E2].
    split; [by apply E2|]. rewrite E1. done.
  - intros [= <-]. split; [apply empty_buffer_ok|done].
  - unfold offerDoorbellFrame. destruct (ds_active d) eqn:Ea; [cbn [negb]|intros [= <-]; split; [done|rewrite Ea; auto]].
    destruct (_ || _); [intros [= <-]; split; [done|rewrite Ea; auto]|]. destruct (default _ main) as [m mainAt].
    destruct (existsb visitor detections); [destruct (rawToRGBA buf w h); [|done]|]; intros [= <-]; split; cbn; done.
  - intros [= <-]. split; cbn; [by apply prune_ok|]. intros Ea. destruct (Hs Ea) as [? ?]. split; [by apply prune_nil|done].
Qed.

Lemma doorbell_run_ok ops d d' : producer_ok d -> doorbell_run faces ops d = Some d' -> producer_ok d'.
Proof.
  revert d. induction ops as [|op ops IH]; intros d Hd; [by intros [= <-]|]. cbn [doorbell_run].
  destruct (doorbell_step faces op d) as [d1|] eqn:E; [|done]. apply IH. by eapply doorbell_step_ok.
Qed.

(** C10: whatever frames are offered, analysed and asked for, in any order, the buffer of
    a doorbell holds at most eight photos and sixty-four megabytes, and its account of
    the bytes is exact; every photo shows a subject with a positive score, and no two are
    more than two seconds apart.  Once the producer has stopped nothing is held and
    nothing waits. *)
Theorem doorbell_buffer_is_bounded ops d :
  doorbell_run faces ops newDoorbellSnapshots = Some d -> producer_ok d.
Proof. apply doorbell_run_ok. by split; [apply empty_buffer_ok|]. Qed.
End producer.


(** ** The choice *)

(** What a press at [at_] can choose from. *)
Definition in_window (at_ : Z) (f : doorbellCandidate) : Prop := at_ - DoorbellWindow <= dc_at f <= at_.

(** No frame of [l] that could be chosen beats the score [s] of a frame at [t]. *)
Definition unbeaten (at_ : Z) (l : list doorbellCandidate) (s : float64) (t : Z) : Prop :=
  Forall (fun g => dc_at g <= at_ -> fgt (aged at_ g) s = false /\ (feq (aged at_ g) s = true -> dc_at g <= t)) l.

Lemma fgt_false_le x y : fgt x y = false -> is_nan x = false -> is_nan y = false -> rank_le (f64_rank x) (f64_rank y).
Proof. intros Hf Hx Hy. by apply flt_rank in Hf. Qed.

Lemma unbeaten_better at_ l s t s' t' : unbeaten at_ l s t -> flt s s' = true -> unbeaten at_ l s' t'.
Proof.
  intros Hu (Hs & Hs' & Hlt)%flt_rank_true. eapply Forall_impl; [exact Hu|]. cbn. intros g Hg Hat.
  destruct (Hg Hat) as [Hgt _]. pose proof (fgt_false_le _ _ Hgt) as Hle. unfold fgt. rewrite feq_rank_true. split.
  - apply not_true_iff_false. rewrite flt_rank_true. intros (_ & Hng & Hn). specialize (Hle Hng Hs). unfold rank_le in *. lia.
  - intros (Hng & _ & _ & Hn). specialize (Hle Hng Hs). unfold rank_le in *. lia.
Qed.

Lemma unbeaten_as_good at_ l s t s' t' : unbeaten at_ l s t -> feq s' s = true -> t <= t' -> unbeaten at_ l s' t'.
Proof.
  intros Hu (Hs' & Hs & H1 & H2)%feq_rank_true Ht. eapply Forall_impl; [exact Hu|]. cbn. intros g Hg Hat.
  destruct (Hg Hat) as [Hgt He]. pose proof (fgt_false_le _ _ Hgt) as Hle. rewrite feq_rank_true in He |- *. unfold fgt. split.
  - apply not_true_iff_false. rewrite flt_rank_true. intros (_ & Hng & Hn). specialize (Hle Hng Hs). unfold rank_le in *. lia.
  - intros (Hng & _ & H3 & H4). etrans; [apply He|exact Ht]. split_and!; try done; unfold rank_le in *; lia.
Qed.

(** The candidate the scan holds: none yet, or a frame it has seen. *)
Lemma scan_spec at_ l : let st := fold_left (best_step at_) l (no_candidate, fzero) in
  unbeaten at_ l st.2 (dc_at st.1) /\ is_nan st.2 = false /\
  (st = (no_candidate, fzero) \/ (st.1 ∈ l /\ dc_at st.1 <= at_ /\ st.2 = aged at_ st.1)).
Proof.
  cbn zeta. induction l as [|f l IH] using rev_ind; [split; [constructor|by split; [|left]]|].
  rewrite fold_left_app. cbn [fold_left]. destruct (fold_left _ l _) as [best s]. cbn [fst snd] in *. destruct IH as (Hu & Hn & Hb).
  unfold best_step, After. cbn [fst snd]. unfold unbeaten. rewrite Forall_app, Forall_singleton. destruct (Z.ltb_spec at_ (dc_at f)) as [Hlt|Hge].
  { split; [split; [exact Hu|intros ?; exfalso; lia]|]. split; [done|]. destruct Hb as [Hb|(? & ? & ?)]; [by left|right]. split; [set_solver|done]. }
  destruct (fgt (aged at_ f) s) eqn:Eg; cbn [orb].
  { cbn [fst snd]. split; [split; [by eapply unbeaten_better|by intros _; split; [apply flt_irrefl|]]|].
    split; [by apply flt_rank_true in Eg as (_ & ? & _)|]. right. split; [set_solver|done]. }
  destruct (feq (aged at_ f) s) eqn:Ee; cbn [andb]; [destruct (Z.ltb_spec (dc_at best) (dc_at f)) as [Hnew|Hold]|]; cbn [fst snd].
  - split; [split; [eapply unbeaten_as_good; [exact Hu|exact Ee|lia]|intros _; split; [apply flt_irrefl|done]]|].
    split; [by apply feq_rank_true in Ee as (? & _)|]. right. split; [set_solver|done].
  - split; [by split; [|intros _; split]|]. split; [done|]. destruct Hb as [Hb|(? & ? & ?)]; [by left|right]. split; [set_solver|done].
  - split; [split; [done|intros _; split; [done|by rewrite Ee]]|]. split; [done|]. destruct Hb as [Hb|(? & ? & ?)]; [by left|right]. split; [set_solver|done].
Qed.

(** The photo of a press.  The choice is one of the photos held from the two seconds
    before the press, with the preview that was made of it, and no other photo of
    those two seconds has a higher score less the penalty of its age, nor the same score
    and a later time.  No photo is chosen only when none of the window has a positive
    score.  The frames that are too old are dropped, and no others. *)
Theorem press_takes_the_best_photo at_ b b' img preview t kind :
  buffer_ok b -> BestWithPreview at_ b = (b', (img, preview, t, kind)) ->
  db_frames b' = filter (fun f => at_ - DoorbellWindow <= dc_at f) (db_frames b) /\ buffer_ok b' /\
  match img with
  | Some _ =>
      exists f, f ∈ db_frames b /\ in_window at_ f /\ dc_image f = img /\ dc_preview f = preview /\ dc_at f = t /\
        kind = (if dc_face f then "face" else "person")%string /\
        forall g, g ∈ db_frames b -> in_window at_ g ->
          fgt (aged at_ g) (aged at_ f) = false /\ (feq (aged at_ g) (aged at_ f) = true -> dc_at g <= dc_at f)
  | None => kind = ""%string /\ forall g, g ∈ db_frames b -> in_window at_ g -> fgt (aged at_ g) fzero = false
  end.
Proof.
  intros Hok. unfold BestWithPreview. intros [= <- <- <- <- <-]. pose proof (prune_frames (Add at_ (- DoorbellWindow)) b) as Ep.
  pose proof (prune_ok (Add at_ (- DoorbellWindow)) b Hok) as Hp. change (Add at_ (- DoorbellWindow)) with (at_ - DoorbellWindow) in *. set (b1 := prune _ b) in *.
  split; [done|]. split; [done|]. unfold kind_of, best_candidate. pose proof (scan_spec at_ (db_frames b1)) as Hscan. cbn zeta in Hscan.
  destruct (fold_left (best_step at_) (db_frames b1) (no_candidate, fzero)) as [best s]. cbn [fst snd] in *. destruct Hscan as (Hu & _ & Hb).
  unfold unbeaten in Hu. rewrite Forall_forall in Hu.
  assert (forall g, g ∈ db_frames b -> in_window at_ g -> g ∈ db_frames b1 /\ dc_at g <= at_) as Hw.
  { intros g Hg [H1 H2]. rewrite Ep. split; [|done]. by apply list_elem_of_filter. }
  destruct Hb as [[= -> ->]|(Hin & Hat & ->)].
  - cbn. split; [done|]. intros g Hg [Hg' Hat]%Hw; [|done]. by apply (Hu g Hg' Hat).
  - pose proof (bk_scored _ Hp) as Hsc. rewrite Forall_forall in Hsc. destruct (Hsc best Hin) as [[img Him] _]. rewrite Him.
    exists best. rewrite Ep in Hin. apply list_elem_of_filter in Hin as [Hge Hin]. split_and!; try done.
    intros g Hg Hgw. destruct (Hw g Hg Hgw) as [Hg' Hat']. by apply (Hu g Hg' Hat').
Qed.

(** ** Instances *)

#[local] Instance plain_imaging : Imaging := {
  CatmullRom _ _ img := im_pixels img; encodeJPEG _ _ := None; DecodeConfig _ := None; ApproxBiLinear _ _ img := im_pixels img; gray_crop _ _ := []
}.

(** A visitor fills a small frame, which is offered, analysed and asked for. *)
Definition visit : list DoorbellOp :=
  [DoorbellStart; DoorbellOffer None (replicate 192 0) 8 8 (10 * Second) [mkDetection "person" (f32_lit 3 4) (mkBox 0 0 8 8)];
   DoorbellJob None; DoorbellPress (11 * Second); DoorbellTick (11 * Second)].

Lemma doorbell_buffer_is_bounded_witness : exists d,
  doorbell_run None visit newDoorbellSnapshots = Some d /\ producer_ok d /\ dc_at <$> db_frames (ds_buffer d) = [10 * Second].
Proof.
  destruct (doorbell_run None visit newDoorbellSnapshots) as [d|] eqn:E; [|by vm_compute in E].
  exists d. split; [done|]. split; [by apply (doorbell_buffer_is_bounded None visit)|].
  apply (f_equal (fun r => match r with Some d => dc_at <$> db_frames (ds_buffer d) | None => [] end)) in E. rewrite <- E. vm_compute. reflexivity.
Defined.

Definition photo (t score : Z) (face : bool) : doorbellCandidate :=
  mkCandidate (Some (mkRGBA 8 8 "")) "" (t * Second) (f64_of_Z score) face.

Definition three_photos : DoorbellBuffer := mkBuffer [photo 9 5 true; photo 10 3 true; photo 11 2 false] 0.

Lemma press_takes_the_best_photo_witness : exists b' img preview f,
  BestWithPreview (11 * Second + 500 * Millisecond) three_photos = (b', (Some img, preview, 10 * Second, "face"%string)) /\
  f ∈ db_frames three_photos /\ dc_at f = 10 * Second /\ dc_preview f = preview.
Proof.
  assert (buffer_ok three_photos) as Hok.
  { split; [done|by vm_compute; lia|by vm_compute|by repeat constructor|]. intros f g Hf Hg. unfold three_photos in Hf, Hg. cbn [db_frames] in Hf, Hg.
    rewrite !elem_of_cons in Hf, Hg.
    destruct Hf as [->|[->|[->|Hf%not_elem_of_nil]]], Hg as [->|[->|[->|Hg%not_elem_of_nil]]]; unfold photo, DoorbellWindow, Second; cbn [dc_at]; lia. }
  destruct (BestWithPreview (11 * Second + 500 * Millisecond) three_photos) as [b' [[[img preview] t] kind]] eqn:E.
  pose proof (press_takes_the_best_photo (11 * Second + 500 * Millisecond) three_photos b' img preview t kind Hok E) as (_ & _ & H).
  destruct img as [img|]; [|by vm_compute in E]. destruct H as (f & Hin & _ & _ & Hpre & Hat & _).
  assert (t = 10 * Second /\ kind = "face"%string) as [-> ->] by (vm_compute in E; by injection E as <- <- <- <- <-).
  exists b', img, preview, f. by split_and!.
Defined.
