(* ===== verification/CameraLoop.v ===== *)
(** The loop of a camera ([camera/camera.go]): what happens to each decoded frame.  The
    frame is kept for snapshots; motion is detected and recorded by the minute; objects
    are detected on qualifying motion, or every half minute to re-confirm a parked one;
    the tracker, the zones and presence follow; a confirmed track becomes an event, once
    a channel accepts it, and its disappearance the end of that event.

    A frame carries everything the loop reads while it handles it: the readings of the
    clock, what the detector and the recognizer answer, the image of the main stream, and
    whether each channel has room.  What the channels accepted is kept in [cm_sent], oldest
    first.  [None] is a panic.  Metrics and log lines are left out. *)

From stdpp Require Import pretty.
From S2P Require Import Prelude Float64 GoStrings SafePath CameraEvent Tracker Motion Presence DoorbellFrames.
From Stdlib Require Import Floats.SpecFloat.

#[local] Open Scope Z_scope.

(** ** Data *)

Record MotionActivity := mkMotionActivity { ma_CameraName : string; ma_Bucket : Z; ma_Score : float64 }.

(** [FaceResult] stands for what the recognizer found. *)
Record FaceEvent (F : Type) := mkFaceEvent { fe_Camera : string; fe_EventID : string; fe_Results : list F; fe_Kind : string }.
Arguments mkFaceEvent {F}.
Arguments fe_Camera {F}.
Arguments fe_EventID {F}.
Arguments fe_Results {F}.
Arguments fe_Kind {F}.

(** The coordinates are [float32]. *)
Record DetectionBox := mkDetectionBox {
  dx_Label : string; dx_Score : float64; dx_TrackID : Z; dx_Name : string;
  dx_X1 : float64; dx_Y1 : float64; dx_X2 : float64; dx_Y2 : float64
}.

Record DetectionFrame := mkDetectionFrame { df_Camera : string; df_Timestamp : Z; df_Boxes : list DetectionBox }.

(** What a camera is configured with, and which of its optional channels exist. *)
Record CameraConfig := mkCameraConfig {
  cc_Name : string;
  cc_URL : string;
  cc_RecordURL : string;
  cc_DetectEnabled : bool;
  cc_DetectWidth : Z;
  cc_DetectHeight : Z;
  cc_OnDemand : bool;
  cc_DoorbellEnabled : bool;
  cc_MinRegionScore : float64;
  cc_EventSnapDir : string;
  cc_RecordingPath : string;
  cc_WorkDir : result string string;
  cc_MotionActivity : bool;
  cc_Detections : bool;
  cc_FaceRecognizer : bool
}.

(** What each channel accepted, and the snapshots written to disk. *)
Record Sent (F : Type) := mkSent {
  st_events : list Submission;
  st_eventEnds : list EventEnd;
  st_presence : list PresenceEvent;
  st_activity : list MotionActivity;
  st_detections : list DetectionFrame;
  st_faces : list (FaceEvent F);
  st_saved : list (string * RGBA)
}.
Arguments mkSent {F}.
Arguments st_events {F}.
Arguments st_eventEnds {F}.
Arguments st_presence {F}.
Arguments st_activity {F}.
Arguments st_detections {F}.
Arguments st_faces {F}.
Arguments st_saved {F}.

(** The frame kept for snapshots. *)
Record FrameStore := mkFrameStore {
  rawFrame : option (list Z); frameW : nat; frameH : nat; lastFrameTime : Z; lastSnapshotSave : Z; cachedSnapshotTime : Z
}.

Record MotionState := mkMotionState {
  motionDetector : MotionDetector; motionBucketTime : Z; motionBucketMax : float64; lastMotion : Z; lastDetectAt : Z
}.

(** The tracker and what the camera knows of its tracks: the events they confirmed, the
    names they were given, when their faces were looked at. *)
Record Tracking := mkTracking {
  tracker : Tracker; confirmedTracks : gmap Z string; trackNames : gmap Z string; faceProcessed : gmap Z Z
}.

(** The fields of the Go struct, in groups. *)
Record Camera (F : Type) := mkCamera {
  cm_frame : FrameStore;
  cm_motion : MotionState;
  cm_tracking : Tracking;
  cm_zones : list Zone;
  cm_presence : PresenceTracker;
  cm_doorbell : option doorbellSnapshots;
  cm_degraded : string;
  cm_sent : Sent F
}.
Arguments mkCamera {F}.
Arguments cm_frame {F}.
Arguments cm_motion {F}.
Arguments cm_tracking {F}.
Arguments cm_zones {F}.
Arguments cm_presence {F}.
Arguments cm_doorbell {F}.
Arguments cm_degraded {F}.
Arguments cm_sent {F}.

(** A frame and the answers the loop gets while it handles it.  Clock readings and rooms
    that belong to an object are functions of its track. *)
Record FrameInput (F : Type) := mkFrameInput {
  fr_buf : list Z;
  fr_w : nat;
  fr_h : nat;
  fr_at : Z;
  fr_saveNow : Z;
  fr_saveOk : bool;
  fr_savedAt : Z;
  fr_minuteNow : Z;
  fr_now : Z;
  fr_detect : list Detection;
  fr_main : option (option RGBA * Z);
  fr_sentAt : Z;
  fr_presenceNow : Z;
  fr_fullRes : option RGBA;
  fr_idAt : Z -> Z;
  fr_eventAt : Z -> Z;
  fr_faceNow : Z;
  fr_faces : Z -> list F;
  fr_endAt : Z -> Z;
  fr_activityRoom : bool;
  fr_detectionsRoom : bool;
  fr_presenceRoom : nat -> bool;
  fr_eventRoom : Z -> bool;
  fr_endRoom : Z -> bool;
  fr_faceRoom : Z -> bool
}.
Arguments mkFrameInput {F}.
Arguments fr_buf {F}.
Arguments fr_w {F}.
Arguments fr_h {F}.
Arguments fr_at {F}.
Arguments fr_saveNow {F}.
Arguments fr_saveOk {F}.
Arguments fr_savedAt {F}.
Arguments fr_minuteNow {F}.
Arguments fr_now {F}.
Arguments fr_detect {F}.
Arguments fr_main {F}.
Arguments fr_sentAt {F}.
Arguments fr_presenceNow {F}.
Arguments fr_fullRes {F}.
Arguments fr_idAt {F}.
Arguments fr_eventAt {F}.
Arguments fr_faceNow {F}.
Arguments fr_faces {F}.
Arguments fr_endAt {F}.
Arguments fr_activityRoom {F}.
Arguments fr_detectionsRoom {F}.
Arguments fr_presenceRoom {F}.
Arguments fr_eventRoom {F}.
Arguments fr_endRoom {F}.
Arguments fr_faceRoom {F}.

(** The boxes and labels [snapshot.DrawDetectionsInPlace] draws with the font of
    [golang.org/x/image]. *)
Class Drawing := DrawDetections : RGBA -> list Detection -> RGBA.

Definition unix_epoch : Z := 62135596800 * Second.
Definition UnixMilli (t : Z) : Z := (t - unix_epoch) / Millisecond.

(** [Time.Truncate(time.Minute)]. *)
Definition truncate_minute (t : Z) : Z := t - t mod Minute.

Definition onlineFreshness : Z := 15 * Second.

(** [copy(dst, src)]. *)
Definition copy_into (dst src : list Z) : list Z := take (length dst) src ++ drop (length src) dst.

(** Division of [int], which panics on zero. *)
Definition quot_int (a b : Z) : option Z := if b =? 0 then None else Some (i64 (a ÷ b)).

Definition scale_box (b : Box) (frameW frameH w h : Z) : option Box :=
  x1 ← quot_int (i64 (bx1 b * frameW)) w;
  y1 ← quot_int (i64 (by1 b * frameH)) h;
  x2 ← quot_int (i64 (bx2 b * frameW)) w;
  y2 ← quot_int (i64 (by2 b * frameH)) h;
  Some (mkBox x1 y1 x2 y2).

Definition coords (b : Box) : Z * Z * Z * Z := (bx1 b, by1 b, bx2 b, by2 b).

Definition push {A} (room : bool) (x : A) (l : list A) : list A := if room then l ++ [x] else l.

(** ** Events and ends *)

Section camera.
Context {F : Type} `{Drawing} `{BoxOrder} `{Imaging} (sort_pairs : list assignment -> list assignment) (cfg : CameraConfig).

Definition set_events (l : list Submission) (s : Sent F) : Sent F :=
  mkSent l (st_eventEnds s) (st_presence s) (st_activity s) (st_detections s) (st_faces s) (st_saved s).
Definition set_ends (l : list EventEnd) (s : Sent F) : Sent F :=
  mkSent (st_events s) l (st_presence s) (st_activity s) (st_detections s) (st_faces s) (st_saved s).
Definition set_presences (l : list PresenceEvent) (s : Sent F) : Sent F :=
  mkSent (st_events s) (st_eventEnds s) l (st_activity s) (st_detections s) (st_faces s) (st_saved s).
Definition set_activity (l : list MotionActivity) (s : Sent F) : Sent F :=
  mkSent (st_events s) (st_eventEnds s) (st_presence s) l (st_detections s) (st_faces s) (st_saved s).
Definition set_detections (l : list DetectionFrame) (s : Sent F) : Sent F :=
  mkSent (st_events s) (st_eventEnds s) (st_presence s) (st_activity s) l (st_faces s) (st_saved s).
Definition set_faces (l : list (FaceEvent F)) (s : Sent F) : Sent F :=
  mkSent (st_events s) (st_eventEnds s) (st_presence s) (st_activity s) (st_detections s) l (st_saved s).
Definition set_saved (l : list (string * RGBA)) (s : Sent F) : Sent F :=
  mkSent (st_events s) (st_eventEnds s) (st_presence s) (st_activity s) (st_detections s) (st_faces s) l.

Definition set_confirmed (m : gmap Z string) (k : Tracking) : Tracking := mkTracking (tracker k) m (trackNames k) (faceProcessed k).
Definition set_names (m : gmap Z string) (k : Tracking) : Tracking := mkTracking (tracker k) (confirmedTracks k) m (faceProcessed k).
Definition set_processed (m : gmap Z Z) (k : Tracking) : Tracking := mkTracking (tracker k) (confirmedTracks k) (trackNames k) m.

(** [emitEvent] and [confirmTrack]: a track is confirmed only when its event is accepted. *)
Definition confirmTrack (room : bool) (trackID : Z) (ev : Submission) (k : Tracking) (s : Sent F) : Tracking * Sent F :=
  if room then (set_confirmed (<[trackID := ID (sb_event ev)]> (confirmedTracks k)) k, set_events (st_events s ++ [ev]) s)
  else (k, s).

Definition emitEventEnd (room : bool) (ee : EventEnd) (s : Sent F) : Sent F := set_ends (push room ee (st_eventEnds s)) s.

(** [captureEventSnapshot]: the clean image and the annotated one. *)
Definition captureEventSnapshot (fr : FrameInput F) (tracked : list TrackedObject) : option (RGBA * RGBA) :=
  let allDetections := (fun obj => mkDetection (to_Label obj) (to_Score obj) (to_Box obj)) <$> tracked in
  match fr_fullRes fr with
  | Some fullRes =>
      scaled ← mapM (fun d =>
        b ← scale_box (d_Box d) (im_Dx fullRes) (im_Dy fullRes) (Z.of_nat (fr_w fr)) (Z.of_nat (fr_h fr));
        Some (mkDetection (d_Label d) (d_Score d) b)) allDetections;
      Some (fullRes, DrawDetections fullRes scaled)
  | None =>
      clean ← rawToRGBA (fr_buf fr) (fr_w fr) (fr_h fr);
      Some (clean, DrawDetections clean allDetections)
  end.

Definition event_id (trackID now : Z) : string :=
  (cc_Name cfg +:+ "-t" +:+ pretty trackID +:+ "-" +:+ pretty (UnixMilli now))%string.

(** The event of a newly confirmed track, with the images of the frame. *)
Definition track_event (fr : FrameInput F) (matched : list Zone) (obj : TrackedObject) (shot : option (RGBA * RGBA)) : option Submission :=
  let eventID := event_id (to_TrackID obj) (fr_idAt fr (to_TrackID obj)) in
  let zoneName := match matched with z :: _ => z_Name z | [] => EmptyString end in
  let ev path box :=
    mkEvent eventID (cc_Name cfg) (to_Label obj) (to_Score obj) (to_TrackID obj) box (fr_eventAt fr (to_TrackID obj)) zero_time
      path false "" false zoneName "" "" "" zero_time "" (eventCategory (to_Label obj) (to_Moved obj)) in
  let plain := mkSubmission (ev EmptyString (coords (to_Box obj))) None None in
  match shot with
  | None => Some plain
  | Some (clean, annotated) =>
      match SafePath.Join (cc_WorkDir cfg) (cc_EventSnapDir cfg) [cc_Name cfg; (FileComponent eventID +:+ ".jpg")%string] with
      | Err _ => Some plain
      | Ok snapFile =>
          b ← (if (im_Dx clean =? Z.of_nat (fr_w fr)) && (im_Dy clean =? Z.of_nat (fr_h fr)) then Some (to_Box obj)
               else scale_box (to_Box obj) (im_Dx clean) (im_Dy clean) (Z.of_nat (fr_w fr)) (Z.of_nat (fr_h fr)));
          Some (mkSubmission (ev snapFile (coords b)) (Some clean) (Some annotated))
      end
  end.

(** One object of the loop that emits events.  The images of the frame are taken once, when
    the first object needs them. *)
Definition emit_step (fr : FrameInput F) (zones : list Zone) (trackZones : gmap Z (list Zone)) (tracked : list TrackedObject)
    (st : option (Tracking * Sent F * option (RGBA * RGBA))) (obj : TrackedObject) : option (Tracking * Sent F * option (RGBA * RGBA)) :=
  st' ← st;
  let '(k, s, shot) := st' in
  match confirmedTracks k !! to_TrackID obj with
  | Some _ => Some (k, s, shot)
  | None =>
      let matched := default [] (trackZones !! to_TrackID obj) in
      if negb (bool_decide (zones = [])) && bool_decide (matched = []) then Some (k, s, shot)
      else
        shot ← match shot with
               | None => if negb (String.eqb (cc_EventSnapDir cfg) "") then Some <$> captureEventSnapshot fr tracked else Some None
               | Some _ => Some shot
               end;
        ev ← track_event fr matched obj shot;
        let '(k, s) := confirmTrack (fr_eventRoom fr (to_TrackID obj)) (to_TrackID obj) ev k s in
        Some (k, s, shot)
  end.

Definition emit_events (fr : FrameInput F) (zones : list Zone) (trackZones : gmap Z (list Zone)) (tracked : list TrackedObject)
    (k : Tracking) (s : Sent F) : option (Tracking * Sent F) :=
  st ← fold_left (emit_step fr zones trackZones tracked) tracked (Some (k, s, None));
  Some st.1.

(** ** Faces *)

Definition faceInterval : Z := 5 * Second.

(** Whether the faces of an object are due: a person, in a zone that asks for faces, whose
    event was accepted, not looked at for five seconds. *)
Definition face_due (fr : FrameInput F) (trackZones : gmap Z (list Zone)) (k : Tracking) (obj : TrackedObject) : option string :=
  if negb (String.eqb (to_Label obj) "person") then None
  else if match faceProcessed k !! to_TrackID obj with Some lastRun => Sub (fr_faceNow fr) lastRun <? faceInterval | None => false end then None
  else if negb (existsb z_FaceRecognition (default [] (trackZones !! to_TrackID obj))) then None
  else confirmedTracks k !! to_TrackID obj.

Definition face_step (fr : FrameInput F) (trackZones : gmap Z (list Zone)) (st : option (Tracking * Sent F)) (obj : TrackedObject)
    : option (Tracking * Sent F) :=
  st' ← st;
  let '(k, s) := st' in
  match face_due fr trackZones k obj with
  | None => Some (k, s)
  | Some eventID =>
      _ ← rawToRGBA (fr_buf fr) (fr_w fr) (fr_h fr);
      let results := fr_faces fr (to_TrackID obj) in
      let k := set_processed (<[to_TrackID obj := fr_faceNow fr]> (faceProcessed k)) k in
      match results with
      | [] => Some (k, s)
      | _ => Some (k, set_faces (push (fr_faceRoom fr (to_TrackID obj)) (mkFaceEvent (cc_Name cfg) eventID results "") (st_faces s)) s)
      end
  end.

Definition recognize_faces (fr : FrameInput F) (trackZones : gmap Z (list Zone)) (tracked : list TrackedObject) (k : Tracking) (s : Sent F)
    : option (Tracking * Sent F) :=
  if negb (cc_FaceRecognizer cfg) then Some (k, s)
  else
    st ← fold_left (face_step fr trackZones) tracked (Some (k, s));
    let '(k, s) := st in
    Some (set_processed (filter (fun p => Sub (fr_faceNow fr) p.2 <= 2 * Minute) (faceProcessed k)) k, s).

(** ** Ends *)

Definition end_step (fr : FrameInput F) (st : Tracking * Sent F) (obj : TrackedObject) : Tracking * Sent F :=
  let '(k, s) := st in
  let '(k, s) :=
    match confirmedTracks k !! to_TrackID obj with
    | Some eventID =>
        (set_confirmed (delete (to_TrackID obj) (confirmedTracks k)) k,
         emitEventEnd (fr_endRoom fr (to_TrackID obj)) (mkEventEnd eventID (cc_Name cfg) (fr_endAt fr (to_TrackID obj))) s)
    | None => (k, s)
    end in
  (set_names (delete (to_TrackID obj) (trackNames k)) k, s).

Definition end_events (fr : FrameInput F) (k : Tracking) (s : Sent F) : Tracking * Sent F :=
  fold_left (end_step fr) (DeletedTracks (tracker k)) (k, s).

(** ** The pipeline of a frame *)

Definition detection_box (names : gmap Z string) (fw fh : float64) (obj : TrackedObject) : DetectionBox :=
  mkDetectionBox (to_Label obj) (to_Score obj) (to_TrackID obj) (default EmptyString (names !! to_TrackID obj))
    (div32 (f32_of_Z (bx1 (to_Box obj))) fw) (div32 (f32_of_Z (by1 (to_Box obj))) fh)
    (div32 (f32_of_Z (bx2 (to_Box obj))) fw) (div32 (f32_of_Z (by2 (to_Box obj))) fh).

Definition broadcastDetections (fr : FrameInput F) (tracked : list TrackedObject) (names : gmap Z string) (s : Sent F) : Sent F :=
  if negb (cc_Detections cfg) || bool_decide (fr_w fr = 0%nat) || bool_decide (fr_h fr = 0%nat) then s
  else
    let boxes := detection_box names (f32_of_Z (Z.of_nat (fr_w fr))) (f32_of_Z (Z.of_nat (fr_h fr))) <$> tracked in
    set_detections (push (fr_detectionsRoom fr) (mkDetectionFrame (cc_Name cfg) (fr_sentAt fr) boxes) (st_detections s)) s.

Definition zone_names (zones : list Zone) : gmap Z string := fold_left (fun m z => <[z_ID z := z_Name z]> m) zones ∅.

(** The presence events, each into the channel if it has room. *)
Definition send_presence (room : nat -> bool) (evs : list PresenceEvent) (l : list PresenceEvent) : list PresenceEvent :=
  fold_left (fun l p => push (room p.1) p.2 l) (imap (fun i e => (i, e)) evs) l.

(** The zones of every track, once the zones exist, and presence brought up to date. *)
Definition update_presence (fr : FrameInput F) (zones : list Zone) (tracked : list TrackedObject) (pt : PresenceTracker) (s : Sent F)
    : PresenceTracker * Sent F * gmap Z (list Zone) :=
  match zones with
  | [] => (pt, s, ∅)
  | _ =>
      let o := matchZones zones tracked (Z.of_nat (fr_w fr)) (Z.of_nat (fr_h fr)) in
      let '(pt, evs) := UpdateObserved (fr_presenceNow fr) (inZone o) (detected o) (zone_names zones) pt in
      (pt, set_presences (send_presence (fr_presenceRoom fr) evs (st_presence s)) s, trackZones o)
  end.

Definition set_tracking (k : Tracking) (pt : PresenceTracker) (s : Sent F) (c : Camera F) : Camera F :=
  mkCamera (cm_frame c) (cm_motion c) k (cm_zones c) pt (cm_doorbell c) (cm_degraded c) s.

Definition runTrackingPipeline (detections : list Detection) (fr : FrameInput F) (c : Camera F) : option (Camera F) :=
  let '(t, tracked) := Update sort_pairs detections (tracker (cm_tracking c)) in
  let k := mkTracking t (confirmedTracks (cm_tracking c)) (trackNames (cm_tracking c)) (faceProcessed (cm_tracking c)) in
  let s := broadcastDetections fr tracked (trackNames k) (cm_sent c) in
  let zones := cm_zones c in
  let '(pt, s, trackZones) := update_presence fr zones tracked (cm_presence c) s in
  ks ← emit_events fr zones trackZones tracked k s;
  ks ← recognize_faces fr trackZones tracked ks.1 ks.2;
  let '(k, s) := end_events fr ks.1 ks.2 in
  Some (set_tracking k pt s c).

(** ** A frame *)

(** [latestSnapshotPath] as [NewCamera] computes it: empty when the path is refused. *)
Definition latestSnapshotPath : string :=
  match SafePath.Join (cc_WorkDir cfg) (cc_RecordingPath cfg) [cc_Name cfg; "latest.jpg"%string] with Ok p => p | Err _ => EmptyString end.

Definition set_frame (f : FrameStore) (s : Sent F) (c : Camera F) : Camera F :=
  mkCamera f (cm_motion c) (cm_tracking c) (cm_zones c) (cm_presence c) (cm_doorbell c) (cm_degraded c) s.

Definition set_motion (m : MotionState) (s : Sent F) (c : Camera F) : Camera F :=
  mkCamera (cm_frame c) m (cm_tracking c) (cm_zones c) (cm_presence c) (cm_doorbell c) (cm_degraded c) s.

Definition set_doorbell (d : option doorbellSnapshots) (c : Camera F) : Camera F :=
  mkCamera (cm_frame c) (cm_motion c) (cm_tracking c) (cm_zones c) (cm_presence c) d (cm_degraded c) (cm_sent c).

(** The first lines of [processFrame]. *)
Definition store_frame (fr : FrameInput F) (f : FrameStore) : FrameStore :=
  let frameSize := (fr_w fr * fr_h fr * 3)%nat in
  let raw :=
    match rawFrame f with
    | Some raw => if bool_decide (length raw = frameSize) then raw else replicate frameSize 0
    | None => replicate frameSize 0
    end in
  mkFrameStore (Some (copy_into raw (fr_buf fr))) (fr_w fr) (fr_h fr) (fr_at fr) (lastSnapshotSave f) (cachedSnapshotTime f).

Definition saveCachedSnapshot (fr : FrameInput F) (c : Camera F) : option (Camera F) :=
  let f := cm_frame c in
  match rawFrame f with
  | None => Some c
  | Some raw =>
      if Sub (fr_saveNow fr) (lastSnapshotSave f) <? 30 * Second then Some c
      else
        img ← rawToRGBA raw (frameW f) (frameH f);
        if String.eqb latestSnapshotPath "" then Some c
        else if negb (fr_saveOk fr) then Some c
        else
          Some (set_frame (mkFrameStore (rawFrame f) (frameW f) (frameH f) (lastFrameTime f) (fr_savedAt fr) (cachedSnapshotTime f))
            (set_saved (st_saved (cm_sent c) ++ [(latestSnapshotPath, img)]) (cm_sent c)) c)
  end.

(** The motion of the minute, reported when the minute is over. *)
Definition note_activity (fr : FrameInput F) (m : MotionState) (s : Sent F) : MotionState * Sent F :=
  if negb (cc_MotionActivity cfg) then (m, s)
  else
    let coverage := FrameCoverage (motionDetector m) in
    let now := truncate_minute (fr_minuteNow fr) in
    let '(best, s) :=
      if negb (IsZero (motionBucketTime m)) && negb (now =? motionBucketTime m)
      then (fzero, set_activity (push (fr_activityRoom fr) (mkMotionActivity (cc_Name cfg) (motionBucketTime m) (motionBucketMax m)) (st_activity s)) s)
      else (motionBucketMax m, s) in
    let best := if fgt coverage best then coverage else best in
    (mkMotionState (motionDetector m) now best (lastMotion m) (lastDetectAt m), s).

Definition qualified (regions : list MotionRegion) : bool := existsb (fun r => fge (mr_Score r) (cc_MinRegionScore cfg)) regions.

(** Whether the detector runs on this frame. *)
Definition runs_detection (now : Z) (qualifiedMotion : bool) (m : MotionState) (t : Tracker) : bool :=
  qualifiedMotion || ((stationaryReconfirmInterval <=? Sub now (lastDetectAt m)) && HasStationaryConfirmed t).

Definition offer_doorbell (fr : FrameInput F) (detections : list Detection) (c : Camera F) : option (Camera F) :=
  match cm_doorbell c with
  | None => Some c
  | Some d => d ← offerDoorbellFrame (fr_main fr) (fr_buf fr) (fr_w fr) (fr_h fr) (fr_at fr) detections d; Some (set_doorbell (Some d) c)
  end.

Definition processFrame (fr : FrameInput F) (c : Camera F) : option (Camera F) :=
  c ← saveCachedSnapshot fr (set_frame (store_frame fr (cm_frame c)) (cm_sent c) c);
  if negb (cc_DetectEnabled cfg) then offer_doorbell fr [] c
  else
    mr ← Motion.Detect (fr_buf fr) (fr_w fr) (fr_h fr) (motionDetector (cm_motion c));
    let '(md, motionRegions) := mr in
    let m := cm_motion c in
    let '(m, s) := note_activity fr (mkMotionState md (motionBucketTime m) (motionBucketMax m) (lastMotion m) (lastDetectAt m)) (cm_sent c) in
    let qualifiedMotion := qualified motionRegions in
    let runDetection := runs_detection (fr_now fr) qualifiedMotion m (tracker (cm_tracking c)) in
    let m :=
      if runDetection then
        mkMotionState (motionDetector m) (motionBucketTime m) (motionBucketMax m)
          (if qualifiedMotion then fr_now fr else lastMotion m) (fr_now fr)
      else m in
    let detections := if runDetection then fr_detect fr else [] in
    c ← offer_doorbell fr detections (set_motion m s c);
    runTrackingPipeline detections fr c.

(** ** The other operations *)

Definition flushMotionBucket (room : bool) (c : Camera F) : Camera F :=
  let m := cm_motion c in
  if negb (cc_MotionActivity cfg) || IsZero (motionBucketTime m) || fle (motionBucketMax m) fzero then c
  else set_motion m (set_activity (push room (mkMotionActivity (cc_Name cfg) (motionBucketTime m) (motionBucketMax m)) (st_activity (cm_sent c))) (cm_sent c)) c.

Definition SetTrackName (trackID : Z) (name : string) (c : Camera F) : Camera F :=
  if String.eqb name "" then c
  else set_tracking (set_names (<[trackID := name]> (trackNames (cm_tracking c))) (cm_tracking c)) (cm_presence c) (cm_sent c) c.

Definition SetZones (zones : list Zone) (c : Camera F) : Camera F :=
  mkCamera (cm_frame c) (cm_motion c) (cm_tracking c) zones (cm_presence c) (cm_doorbell c) (cm_degraded c) (cm_sent c).

Definition setDegraded (reason : string) (c : Camera F) : Camera F :=
  mkCamera (cm_frame c) (cm_motion c) (cm_tracking c) (cm_zones c) (cm_presence c) (cm_doorbell c) reason (cm_sent c).

(** [loadCachedSnapshot], when the file was read in time. *)
Definition loadCachedSnapshot (loaded : option (list Z * nat * nat * Z)) (c : Camera F) : Camera F :=
  match loaded with
  | Some (rgb, w, h, mtime) =>
      if String.eqb latestSnapshotPath "" then c
      else set_frame (mkFrameStore (Some rgb) w h (lastFrameTime (cm_frame c)) (lastSnapshotSave (cm_frame c)) mtime) (cm_sent c) c
  | None => c
  end.

Definition NewCamera (pixelThreshold minArea : Z) (bgAlpha : float64) (detectorAvailable : bool) (zones : list Zone) : Camera F :=
  mkCamera (mkFrameStore None 0 0 zero_time zero_time zero_time)
    (mkMotionState (NewMotionDetector pixelThreshold minArea bgAlpha) zero_time fzero zero_time zero_time)
    (mkTracking (NewTracker 30 3) ∅ ∅ ∅) zones NewPresenceTracker
    (if cc_DoorbellEnabled cfg then Some newDoorbellSnapshots else None)
    (if cc_DetectEnabled cfg && negb detectorAvailable then "object detector unavailable" else "") (mkSent [] [] [] [] [] [] []).

Definition DetectURL : string := cc_URL cfg.
Definition RecordURL : string := if negb (String.eqb (cc_RecordURL cfg) "") then cc_RecordURL cfg else cc_URL cfg.
Definition FrameSize : Z := i64 (i64 (cc_DetectWidth cfg * cc_DetectHeight cfg) * 3).

Definition LastSnapshot (c : Camera F) : option (option RGBA) :=
  match rawFrame (cm_frame c) with
  | None => Some None
  | Some raw => Some <$> rawToRGBA raw (frameW (cm_frame c)) (frameH (cm_frame c))
  end.

Definition LastSnapshotTime (c : Camera F) : Z :=
  if negb (IsZero (lastFrameTime (cm_frame c))) then lastFrameTime (cm_frame c) else cachedSnapshotTime (cm_frame c).

Definition SnapshotRGB24 (dst : list Z) (c : Camera F) : list Z * option (nat * nat) :=
  match rawFrame (cm_frame c) with
  | None => (dst, None)
  | Some raw =>
      if bool_decide (length dst < length raw)%nat then (dst, None)
      else (copy_into dst raw, Some (frameW (cm_frame c), frameH (cm_frame c)))
  end.

Definition IsOnline (override : option bool) (now : Z) (c : Camera F) : bool :=
  match override with
  | Some b => b
  | None => negb (IsZero (lastFrameTime (cm_frame c))) && (Sub now (lastFrameTime (cm_frame c)) <? onlineFreshness)
  end.

Definition HasMotion (now : Z) (c : Camera F) : bool :=
  negb (IsZero (lastMotion (cm_motion c))) && (Sub now (lastMotion (cm_motion c)) <? 5 * Second).

(** [CameraStatus] without the cry monitor and PTZ; the health of the source is what the
    hub answers: when it last connected, and its error when that is a fault. *)
Record CameraStatus := mkCameraStatus {
  cs_Name : string; cs_Online : bool; cs_HasMotion : bool; cs_LastFrame : Z; cs_LastSeen : Z; cs_Degraded : bool;
  cs_DegradedReason : string; cs_Sleeping : bool; cs_LastConnected : Z; cs_StreamError : string
}.

Definition Status (override : option bool) (health : option (Z * option string)) (now : Z) (c : Camera F) : CameraStatus :=
  let online := IsOnline override now c in
  let sleeping := cc_OnDemand cfg && negb online in
  let '(lastConnected, streamErr, sleeping) :=
    match health with
    | Some (lastConnected, Some err) => (lastConnected, err, false)
    | Some (lastConnected, None) => (lastConnected, EmptyString, sleeping)
    | None => (zero_time, EmptyString, sleeping)
    end in
  mkCameraStatus (cc_Name cfg) online (HasMotion now c) (lastFrameTime (cm_frame c)) (LastSnapshotTime c)
    (negb (String.eqb (cm_degraded c) "")) (cm_degraded c) sleeping lastConnected streamErr.

(** ** Runs *)

(** What changes a camera: a frame, and calls from other goroutines between frames. *)
Inductive CameraOp :=
| OpFrame (fr : FrameInput F)
| OpSetTrackName (trackID : Z) (name : string)
| OpSetZones (zones : list Zone)
| OpDegraded (reason : string)
| OpLoaded (loaded : option (list Z * nat * nat * Z))
| OpFlush (room : bool)
| OpDoorbell (faces : option (RGBA -> Box -> list DetectedFace)) (op : DoorbellOp).

Definition camera_step (op : CameraOp) (c : Camera F) : option (Camera F) :=
  match op with
  | OpFrame fr => processFrame fr c
  | OpSetTrackName trackID name => Some (SetTrackName trackID name c)
  | OpSetZones zones => Some (SetZones zones c)
  | OpDegraded reason => Some (setDegraded reason c)
  | OpLoaded loaded => Some (loadCachedSnapshot loaded c)
  | OpFlush room => Some (flushMotionBucket room c)
  | OpDoorbell faces op =>
      match cm_doorbell c with
      | None => Some c
      | Some d => d ← doorbell_step faces op d; Some (set_doorbell (Some d) c)
      end
  end.

Fixpoint camera_run (ops : list CameraOp) (c : Camera F) : option (Camera F) :=
  match ops with
  | [] => Some c
  | op :: ops => c ← camera_step op c; camera_run ops c
  end.
End camera.
