(* ===== verification/CameraLoopTheorems.v ===== *)
(** Properties of the camera loop: which events and ends a frame emits, and that over any
    run a track is one event. *)

From Stdlib Require Import Ascii.
From stdpp Require Import pretty.
From S2P Require Import Prelude Float64 GoStrings SafePath CameraEvent Tracker TrackerMatching TrackerTheorems.
From S2P Require Import Motion MotionTheorems Presence DoorbellFrames CameraLoop.

#[local] Open Scope Z_scope.

Section frame.
Context {F : Type} `{Drawing} `{BoxOrder} `{Imaging} (sort_pairs : list assignment -> list assignment) (cfg : CameraConfig).

(** ** Emitting *)

(** What an accepted event says of the object it stands for. *)
Record tells (fr : FrameInput F) (matched : list Zone) (obj : TrackedObject) (sub : Submission) : Prop := {
  tl_ID : ID (sb_event sub) = event_id cfg (to_TrackID obj) (fr_idAt fr (to_TrackID obj));
  tl_camera : CameraName (sb_event sub) = cc_Name cfg;
  tl_track : TrackID (sb_event sub) = to_TrackID obj;
  tl_label : Label (sb_event sub) = to_Label obj;
  tl_score : Score (sb_event sub) = to_Score obj;
  tl_at : Timestamp (sb_event sub) = fr_eventAt fr (to_TrackID obj);
  tl_zone : ZoneName (sb_event sub) = match matched with z :: _ => z_Name z | [] => EmptyString end;
  tl_category : Category (sb_event sub) = eventCategory (to_Label obj) (to_Moved obj);
  tl_image : match sb_SnapshotImage sub with
             | Some _ => SafePath.Join (cc_WorkDir cfg) (cc_EventSnapDir cfg) [cc_Name cfg; (FileComponent (ID (sb_event sub)) +:+ ".jpg")%string]
                         = Ok (SnapshotPath (sb_event sub))
             | None => SnapshotPath (sb_event sub) = EmptyString
             end
}.

Lemma track_event_tells fr matched obj shot sub : track_event cfg fr matched obj shot = Some sub -> tells fr matched obj sub.
Proof.
  unfold track_event. destruct shot as [[clean annotated]|]; [|by intros [= <-]].
  destruct (SafePath.Join _ _ _) as [snapFile|e] eqn:Ej; [|by intros [= <-]].
  match goal with |- context [mbind _ ?b = _] => destruct b; [|done] end. by intros [= <-].
Qed.

(** Whether an object becomes an event now: it has none, it is in a zone when there are
    zones, and the channel has room. *)
Definition emits (fr : FrameInput F) (zones : list Zone) (tz : Z -> list Zone) (confirmed : gmap Z string) (obj : TrackedObject) : Prop :=
  confirmed !! to_TrackID obj = None /\ (zones = [] \/ tz (to_TrackID obj) <> []) /\ fr_eventRoom fr (to_TrackID obj) = true.

#[global] Instance emits_dec fr zones tz confirmed obj : Decision (emits fr zones tz confirmed obj).
Proof. unfold emits. apply _. Defined.

(** The events accepted, by track. *)
Definition by_track (subs : list Submission) : gmap Z string :=
  list_to_map ((fun sub => (TrackID (sb_event sub), ID (sb_event sub))) <$> subs).

Record emitted (k : Tracking) (s : Sent F) (subs : list Submission) (k' : Tracking) (s' : Sent F) : Prop := {
  em_tracker : tracker k' = tracker k;
  em_names : trackNames k' = trackNames k;
  em_faces : faceProcessed k' = faceProcessed k;
  em_confirmed : confirmedTracks k' = by_track subs ∪ confirmedTracks k;
  em_sent : s' = set_events (st_events s ++ subs) s
}.

Lemma fold_emit_None (fr : FrameInput F) zones tz all l : fold_left (emit_step cfg fr zones tz all) l None = None.
Proof. by induction l. Qed.

Lemma emit_step_spec fr zones tz all k s shot obj k' s' shot' :
  emit_step cfg fr zones tz all (Some (k, s, shot)) obj = Some (k', s', shot') ->
  let e := emits fr zones (fun id => default [] (tz !! id)) (confirmedTracks k) obj in
  (e -> exists sub, tells fr (default [] (tz !! to_TrackID obj)) obj sub /\
         k' = set_confirmed (<[to_TrackID obj := ID (sb_event sub)]> (confirmedTracks k)) k /\ s' = set_events (st_events s ++ [sub]) s) /\
  (~ e -> k' = k /\ s' = s).
Proof.
  cbn zeta. unfold emit_step, emits. cbn [mbind option_bind]. destruct (confirmedTracks k !! to_TrackID obj) as [e|]; [intros [= <- <- <-]; by split; [intros []|]|].
  set (matched := default [] (tz !! to_TrackID obj)). destruct (negb (bool_decide (zones = [])) && bool_decide (matched = [])) eqn:Eg.
  { intros [= <- <- <-]. bool_to_prop. by split; [intros (_ & [?|?] & _)|]. }
  destruct (match shot with None => _ | Some _ => _ end) as [sh|]; [|done]. cbn [mbind option_bind].
  destruct (track_event cfg fr matched obj sh) as [ev|] eqn:Ev; [|done]. cbn [mbind option_bind]. apply track_event_tells in Ev.
  unfold confirmTrack. destruct (fr_eventRoom fr (to_TrackID obj)) eqn:Er; intros [= <- <- <-].
  - split; [by exists ev|]. intros Hn. exfalso. apply Hn. split; [done|]. split; [|done].
    apply andb_false_iff in Eg as [Eg|Eg]; bool_to_prop; auto.
  - by split; [intros (_ & _ & ?)|].
Qed.

Lemma emits_insert fr zones tz confirmed x e obj : to_TrackID obj <> x ->
  emits fr zones tz (<[x := e]> confirmed) obj <-> emits fr zones tz confirmed obj.
Proof. intros Hx. unfold emits. by rewrite lookup_insert_ne by done. Qed.

Lemma tells_tracks fr (zs : TrackedObject -> list Zone) l subs : Forall2 (fun obj sub => tells fr (zs obj) obj sub) l subs ->
  (fun sub => TrackID (sb_event sub)) <$> subs = to_TrackID <$> l.
Proof. induction 1 as [|obj sub l subs Ht _ IH]; [done|]. rewrite !fmap_cons, IH. f_equal. by apply (tl_track _ _ _ _ Ht). Qed.

Lemma by_track_dom subs : dom (by_track subs) = list_to_set ((fun sub => TrackID (sb_event sub)) <$> subs).
Proof. unfold by_track. rewrite dom_list_to_map_L, <- list_fmap_compose. done. Qed.

Lemma emit_fold_spec fr zones tz all l k s shot k' s' shot' : NoDup (to_TrackID <$> l) ->
  fold_left (emit_step cfg fr zones tz all) l (Some (k, s, shot)) = Some (k', s', shot') ->
  exists subs, emitted k s subs k' s' /\
    Forall2 (fun obj sub => tells fr (default [] (tz !! to_TrackID obj)) obj sub)
      (filter (emits fr zones (fun id => default [] (tz !! id)) (confirmedTracks k)) l) subs.
Proof.
  revert k s shot. induction l as [|obj l IH]; intros k s shot Hnd.
  { intros [= <- <- <-]. exists []. split; [|constructor]. split; try done; [symmetry; apply (left_id_L ∅ (∪))|]. rewrite app_nil_r. by destruct s. }
  cbn [fmap list_fmap] in Hnd. apply NoDup_cons in Hnd as [Hno Hnd]. cbn [fold_left].
  destruct (emit_step cfg fr zones tz all (Some (k, s, shot)) obj) as [[[k1 s1] shot1]|] eqn:E; [|rewrite fold_emit_None; done].
  intros Hf. destruct (IH _ _ _ Hnd Hf) as (subs & [G1 G2 G3 G4 G5] & Htells). apply emit_step_spec in E as [E1 E2]. rewrite filter_cons.
  destruct (decide (emits fr zones _ (confirmedTracks k) obj)) as [He|He].
  - destruct (E1 He) as (sub & Hsub & -> & ->). exists (sub :: subs). split.
    + split; try done.
      * rewrite G4. cbn. unfold by_track. cbn. rewrite (tl_track _ _ _ _ Hsub). assert (by_track subs !! to_TrackID obj = None) as Hn.
        { apply not_elem_of_dom. rewrite by_track_dom, elem_of_list_to_set, (tells_tracks fr (fun o => default [] (tz !! to_TrackID o)) _ _ Htells).
          intros (o & Eo & [_ Ho]%list_elem_of_filter)%list_elem_of_fmap. apply Hno. rewrite Eo. by apply list_elem_of_fmap_2. }
        rewrite <- insert_union_r by done. by rewrite insert_union_l.
      * rewrite G5. destruct s. cbn. by rewrite <- app_assoc.
    + constructor; [done|]. rewrite (filter_ext_in _ (emits fr zones (fun id => default [] (tz !! id)) (confirmedTracks (set_confirmed (<[to_TrackID obj := ID (sb_event sub)]> (confirmedTracks k)) k)))); [done|].
      intros o Ho. cbn. symmetry. apply emits_insert. intros E. apply Hno. rewrite <- E. by apply list_elem_of_fmap_2.
  - destruct (E2 He) as [-> ->]. by exists subs.
Qed.

(** ** Faces and ends *)

(** Looking at faces leaves the confirmed tracks, the events and the ends alone. *)
Definition same_events (s s' : Sent F) : Prop := st_events s' = st_events s /\ st_eventEnds s' = st_eventEnds s.

Lemma recognize_faces_frame fr tz tracked k s k' s' : recognize_faces cfg fr tz tracked k s = Some (k', s') ->
  tracker k' = tracker k /\ confirmedTracks k' = confirmedTracks k /\ same_events s s'.
Proof.
  unfold recognize_faces. destruct (cc_FaceRecognizer cfg); cbn [negb]; [|by intros [= <- <-]].
  assert (forall l st k1 s1, fold_left (face_step cfg fr tz) l st = Some (k1, s1) ->
    exists k0 s0, st = Some (k0, s0) /\ tracker k1 = tracker k0 /\ confirmedTracks k1 = confirmedTracks k0 /\ same_events s0 s1) as Hl.
  { induction l as [|obj l IH]; intros st k1 s1; [cbn; intros ->; by exists k1, s1|]. cbn [fold_left]. intros (k2 & s2 & E & G1 & G2 & G3 & G4)%IH.
    destruct st as [[k0 s0]|]; [|done]. exists k0, s0. split; [done|]. rewrite G1, G2. unfold same_events. rewrite G3, G4. unfold face_step in E. cbn [mbind option_bind] in E.
    destruct (face_due fr tz k0 obj); [|by injection E as <- <-]. destruct (rawToRGBA _ _ _); [|done]. cbn [mbind option_bind] in E.
    destruct (fr_faces fr (to_TrackID obj)); by injection E as <- <-. }
  destruct (fold_left _ tracked _) as [[k1 s1]|] eqn:E; [|done]. cbn [mbind option_bind]. intros [= <- <-].
  apply Hl in E as (k0 & s0 & [= <- <-] & ? & ? & ?). done.
Qed.

(** The end of a track that was an event. *)
Definition end_of (fr : FrameInput F) (confirmed : gmap Z string) (obj : TrackedObject) : option EventEnd :=
  eventID ← confirmed !! to_TrackID obj;
  if fr_endRoom fr (to_TrackID obj) then Some (mkEventEnd eventID (cc_Name cfg) (fr_endAt fr (to_TrackID obj))) else None.

Lemma end_fold_spec fr l k s k' s' : NoDup (to_TrackID <$> l) -> fold_left (end_step cfg fr) l (k, s) = (k', s') ->
  tracker k' = tracker k /\ st_events s' = st_events s /\
  confirmedTracks k' = filter (fun p => p.1 ∉ (to_TrackID <$> l)) (confirmedTracks k) /\
  trackNames k' = filter (fun p => p.1 ∉ (to_TrackID <$> l)) (trackNames k) /\
  st_eventEnds s' = st_eventEnds s ++ omap (end_of fr (confirmedTracks k)) l.
Proof.
  revert k s. induction l as [|obj l IH]; intros k s Hnd.
  { intros [= <- <-]. split_and!; try done; [| |by rewrite app_nil_r]; symmetry; apply map_filter_id; set_solver. }
  cbn [fmap list_fmap] in Hnd. apply NoDup_cons in Hnd as [Hno Hnd]. cbn [fold_left].
  destruct (end_step cfg fr (k, s) obj) as [k1 s1] eqn:E. intros (G1 & G2 & G3 & G4 & G5)%IH; [|done].
  assert (tracker k1 = tracker k /\ st_events s1 = st_events s /\ confirmedTracks k1 = delete (to_TrackID obj) (confirmedTracks k) /\
    trackNames k1 = delete (to_TrackID obj) (trackNames k) /\ st_eventEnds s1 = st_eventEnds s ++ option_list (end_of fr (confirmedTracks k) obj))
    as (E1 & E2 & E3 & E4 & E5).
  { unfold end_step, end_of in *. destruct (confirmedTracks k !! to_TrackID obj) as [e|] eqn:Ek; injection E as <- <-; cbn.
    - unfold push. destruct (fr_endRoom fr (to_TrackID obj)); cbn; [done|]. by rewrite app_nil_r.
    - rewrite app_nil_r. split_and!; try done. symmetry. by apply delete_id. }
  assert (forall m : gmap Z string, filter (fun p : Z * string => p.1 ∉ (to_TrackID <$> l)) (delete (to_TrackID obj) m) =
    filter (fun p : Z * string => p.1 ∉ (to_TrackID <$> obj :: l)) m) as Hfd.
  { intros m. apply map_eq. intros i. rewrite !map_lookup_filter, lookup_delete. destruct (decide (to_TrackID obj = i)) as [<-|Hne]; cbn.
    - destruct (m !! to_TrackID obj); [|done]. cbn. case_guard as Hg; [|done]. destruct Hg. by left.
    - destruct (m !! i); [|done]. cbn. assert (i ∉ (to_TrackID <$> l) <-> i ∉ (to_TrackID obj :: (to_TrackID <$> l))) as Hi by (rewrite not_elem_of_cons; naive_solver).
      case_guard; case_guard; tauto. }
  split_and!; [congruence|congruence|by rewrite G3, E3, Hfd|by rewrite G4, E4, Hfd|]. rewrite G5, E5, <- app_assoc. f_equal. cbn [omap list_omap].
  assert (omap (end_of fr (confirmedTracks k1)) l = omap (end_of fr (confirmedTracks k)) l) as ->.
  { rewrite E3. clear -Hno. induction l as [|o l IH]; [done|]. cbn [omap list_omap]. cbn [fmap list_fmap] in Hno. rewrite not_elem_of_cons in Hno. destruct Hno as [Hne Hno].
    assert (end_of fr (delete (to_TrackID obj) (confirmedTracks k)) o = end_of fr (confirmedTracks k) o) as -> by (unfold end_of; by rewrite lookup_delete_ne by done).
    by rewrite IH. }
  by destruct (end_of fr (confirmedTracks k) obj).
Qed.

(** ** Zones *)

Lemma matchZones_tracks zones tracked w h obj : NoDup (to_TrackID <$> tracked) -> obj ∈ tracked ->
  trackZones (matchZones zones tracked w h) !! to_TrackID obj = Some (MatchZones zones (to_Box obj) (to_Label obj) w h).
Proof.
  unfold matchZones. generalize (mkObservations ∅ ∅ ∅) as o.
  assert (forall o x, trackZones (observe_object zones w h o x) = <[to_TrackID x := MatchZones zones (to_Box x) (to_Label x) w h]> (trackZones o)) as Hs
    by (intros o x; unfold observe_object; by destruct (to_Detected x)).
  induction tracked as [|x tracked IH]; intros o Hnd Hin; [by apply not_elem_of_nil in Hin|].
  cbn [fmap list_fmap] in Hnd. apply NoDup_cons in Hnd as [Hno Hnd]. apply elem_of_cons in Hin as [->|Hin]; cbn [fold_left]; [|by apply IH].
  assert (forall l o, to_TrackID x ∉ (to_TrackID <$> l) -> trackZones (fold_left (observe_object zones w h) l o) !! to_TrackID x = trackZones o !! to_TrackID x) as Hl.
  { clear IH Hno Hnd. induction l as [|y l IH]; intros o' Hy; [done|]. cbn [fold_left]. cbn [fmap list_fmap] in Hy. rewrite not_elem_of_cons in Hy. destruct Hy as [Hne Hy].
    rewrite IH by done. rewrite Hs. by rewrite lookup_insert_ne by done. }
  rewrite Hl by done. rewrite Hs. apply lookup_insert_eq.
Qed.
End frame.

(** ** A frame *)

Lemma confirmed_ids t : to_TrackID <$> confirmedObjects t = id <$> filter (fun tr => state tr = TrackConfirmed) (tracks t).
Proof.
  unfold confirmedObjects. induction (tracks t) as [|tr l IH]; [done|]. rewrite filter_cons. cbn [omap list_omap].
  destruct (decide (state tr = TrackConfirmed)); [|done]. by rewrite !fmap_cons, IH.
Qed.

Lemma deleted_ids t : to_TrackID <$> DeletedTracks t = id <$> filter (fun tr => state tr = TrackDeleted) (tracks t).
Proof.
  unfold DeletedTracks. induction (tracks t) as [|tr l IH]; [done|]. rewrite filter_cons. cbn [omap list_omap].
  destruct (decide (state tr = TrackDeleted)); [|done]. by rewrite !fmap_cons, IH.
Qed.

Lemma sorted_NoDup l : Sorted.StronglySorted Z.lt l -> NoDup l.
Proof.
  induction l as [|x l IH]; intros Hs; [constructor|]. apply Sorted.StronglySorted_inv in Hs as [Hs Hx]. constructor; [|auto].
  intros Hin. rewrite Forall_forall in Hx. specialize (Hx x Hin). lia.
Qed.

(** A track is in one state. *)
Lemma id_state t tr tr' : tracker_ok t -> tr ∈ tracks t -> tr' ∈ tracks t -> id tr = id tr' -> state tr = state tr'.
Proof. intros Hok H1 H2 E. by rewrite (sorted_ids_inj (tracks t) tr tr' (ok_ids _ Hok) H1 H2 E). Qed.

Lemma state_ids_NoDup t (st : TrackState) : tracker_ok t -> NoDup (id <$> filter (fun tr => state tr = st) (tracks t)).
Proof. intros Hok. apply sorted_NoDup, StronglySorted_fmap_filter, Hok. Qed.

Lemma MatchZones_nil b label w h : MatchZones [] b label w h = [].
Proof. unfold MatchZones. by repeat case_match. Qed.

Section pipeline.
Context {F : Type} `{Drawing} `{BoxOrder} `{Imaging} (sort_pairs : list assignment -> list assignment) `{!SortsPairs sort_pairs} (cfg : CameraConfig).

Definition zones_at (zones : list Zone) (fr : FrameInput F) (obj : TrackedObject) : list Zone :=
  MatchZones zones (to_Box obj) (to_Label obj) (Z.of_nat (fr_w fr)) (Z.of_nat (fr_h fr)).

(** An object becomes an event: it is not one yet, it stands in a zone when there are
    any, and the channel of events has room. *)
Definition becomes_event (fr : FrameInput F) (zones : list Zone) (confirmed : gmap Z string) (obj : TrackedObject) : Prop :=
  confirmed !! to_TrackID obj = None /\ (zones = [] \/ zones_at zones fr obj <> []) /\ fr_eventRoom fr (to_TrackID obj) = true.

#[global] Instance becomes_event_dec fr zones confirmed obj : Decision (becomes_event fr zones confirmed obj).
Proof. unfold becomes_event. apply _. Defined.

Lemma update_presence_zones fr zones tracked pt s pt' s' tz : NoDup (to_TrackID <$> tracked) ->
  update_presence fr zones tracked pt s = (pt', s', tz) ->
  same_events s s' /\ forall obj, obj ∈ tracked -> default [] (tz !! to_TrackID obj) = zones_at zones fr obj.
Proof.
  intros Hnd. unfold update_presence, zones_at. destruct zones as [|z zones].
  - intros [= <- <- <-]. split; [done|]. intros obj _. by rewrite MatchZones_nil.
  - destruct (UpdateObserved _ _ _ _ pt) as [pt1 evs]. intros [= <- <- <-]. split; [done|].
    intros obj Hin. by rewrite matchZones_tracks.
Qed.

Lemma broadcast_events (fr : FrameInput F) tracked names s : same_events s (broadcastDetections cfg fr tracked names s).
Proof. unfold broadcastDetections. by destruct (_ || _). Qed.

(** What a frame does to the events, the ends and the tracks that have one. *)
Lemma pipeline_events detections fr (c c' : Camera F) :
  let k := cm_tracking c in
  let t' := (Update sort_pairs detections (tracker k)).1 in
  tracker_ok t' -> runTrackingPipeline sort_pairs cfg detections fr c = Some c' ->
  tracker (cm_tracking c') = t' /\
  exists subs,
    Forall2 (fun obj sub => tells cfg fr (zones_at (cm_zones c) fr obj) obj sub)
      (filter (becomes_event fr (cm_zones c) (confirmedTracks k)) (confirmedObjects t')) subs /\
    st_events (cm_sent c') = st_events (cm_sent c) ++ subs /\
    st_eventEnds (cm_sent c') = st_eventEnds (cm_sent c) ++ omap (end_of cfg fr (confirmedTracks k)) (DeletedTracks t') /\
    confirmedTracks (cm_tracking c') = filter (fun p => p.1 ∉ (to_TrackID <$> DeletedTracks t')) (by_track subs ∪ confirmedTracks k).
Proof.
  cbn zeta. intros Hok. unfold runTrackingPipeline. set (k := cm_tracking c). assert (Update sort_pairs detections (tracker k) =
    ((Update sort_pairs detections (tracker k)).1, confirmedObjects (Update sort_pairs detections (tracker k)).1)) as Eu by reflexivity.
  rewrite Eu. cbv iota. set (t' := (Update sort_pairs detections (tracker k)).1) in *. clear Eu. set (tracked := confirmedObjects t').
  assert (NoDup (to_TrackID <$> tracked)) as Hnd by (subst tracked; rewrite confirmed_ids; by apply state_ids_NoDup).
  assert (NoDup (to_TrackID <$> DeletedTracks t')) as Hdd by (rewrite deleted_ids; by apply state_ids_NoDup).
  cbn [trackNames]. pose proof (broadcast_events fr tracked (trackNames k) (cm_sent c)) as [B1 B2]. set (s0 := broadcastDetections _ _ _ _ _) in *.
  destruct (update_presence fr (cm_zones c) tracked (cm_presence c) s0) as [[pt s1] tz] eqn:Ep.
  apply update_presence_zones in Ep as [[P1 P2] Hz]; [|done]. unfold emit_events.
  destruct (fold_left _ tracked _) as [[[k1 s2] shot]|] eqn:Ee; [|done]. cbn [mbind option_bind fst snd].
  apply emit_fold_spec in Ee as (subs & [G1 _ _ G4 G5] & Ht); [|done]. cbn [confirmedTracks tracker] in *.
  destruct (recognize_faces cfg fr tz tracked k1 s2) as [[k2 s3]|] eqn:Er; [|done]. cbn [mbind option_bind fst snd].
  apply recognize_faces_frame in Er as (R1 & R2 & R3 & R4). unfold end_events.
  destruct (fold_left _ _ (k2, s3)) as [k3 s4] eqn:En. intros [= <-]. cbn [cm_tracking set_tracking cm_sent].
  assert (tracker k2 = t') as Et by congruence. rewrite Et in En.
  apply end_fold_spec in En as (N1 & N2 & N3 & _ & N5); [|done]. split; [congruence|]. exists subs.
  split; [|split; [|split]].
  - fold tracked. assert (filter (emits fr (cm_zones c) (fun id => default [] (tz !! id)) (confirmedTracks k)) tracked =
      filter (becomes_event fr (cm_zones c) (confirmedTracks k)) tracked) as <-
      by (apply filter_ext_in; intros obj Hobj; unfold emits, becomes_event; by rewrite Hz).
    assert (forall l subs, (forall obj, obj ∈ l -> obj ∈ tracked) -> Forall2 (fun obj sub => tells cfg fr (default [] (tz !! to_TrackID obj)) obj sub) l subs ->
      Forall2 (fun obj sub => tells cfg fr (zones_at (cm_zones c) fr obj) obj sub) l subs) as Hf2.
    { clear -Hz. intros l subs Hl. induction 1 as [|obj sub l subs Ht _ IH]; [constructor|]. constructor; [|apply IH; intros; apply Hl; by right].
      rewrite <- Hz by (apply Hl; by left). done. }
    apply Hf2; [|exact Ht]. by intros obj [_ ?]%list_elem_of_filter.
  - rewrite N2, R3, G5. cbn. by rewrite P1, B1.
  - rewrite N5, R4, G5. cbn. rewrite P2, B2. f_equal. rewrite R2, G4. clear -Hok Ht Hnd.
    assert (forall l : list TrackedObject, (forall obj, obj ∈ l -> obj ∈ DeletedTracks t') -> omap (end_of cfg fr (by_track subs ∪ confirmedTracks k)) l =
      omap (end_of cfg fr (confirmedTracks k)) l) as Hl; [|by apply Hl].
    induction l as [|obj l IH]; intros Hl; [done|]. cbn [omap list_omap]. rewrite IH by (intros; apply Hl; by right).
    assert (by_track subs !! to_TrackID obj = None) as Hn.
    { apply not_elem_of_dom. rewrite by_track_dom, elem_of_list_to_set, (tells_tracks cfg fr (fun o => default [] (tz !! to_TrackID o)) _ _ Ht).
      intros (o & Eo & [_ Ho]%list_elem_of_filter)%list_elem_of_fmap. assert (to_TrackID o ∈ (to_TrackID <$> confirmedObjects t')) as H1 by (by apply list_elem_of_fmap_2).
      assert (to_TrackID obj ∈ (to_TrackID <$> DeletedTracks t')) as H2 by (apply list_elem_of_fmap_2, Hl; by left).
      rewrite confirmed_ids in H1. rewrite deleted_ids in H2. apply list_elem_of_fmap in H1 as (tr & E1 & [S1 T1]%list_elem_of_filter), H2 as (tr' & E2 & [S2 T2]%list_elem_of_filter).
      pose proof (id_state t' tr tr' Hok T1 T2 ltac:(congruence)). congruence. }
    unfold end_of at 1 2. by rewrite lookup_union_r by done.
  - by rewrite N3, R2, G4.
Qed.
End pipeline.

(** ** Event identifiers *)

Lemma app_inj_l (s t u : string) : s +:+ t = s +:+ u -> t = u.
Proof. induction s as [|a s IH]; [done|]. intros E. apply IH. by injection E. Qed.

Lemma pretty_N_go_chars (P : Ascii.ascii -> Prop) n s : (forall x, P (pretty_N_char x)) -> Forall P (chars s) -> Forall P (chars (pretty_N_go n s)).
Proof.
  intros HP. revert s. induction (N.lt_wf_0 n) as [n _ IH]; intros s Hs.
  destruct (decide (n = 0)%N) as [->|Hn]; [by rewrite pretty_N_go_0|]. rewrite pretty_N_go_step by lia.
  apply IH; [apply N.div_lt; lia|]. by constructor.
Qed.

(** A positive number is written without a dash. *)
Lemma pretty_no_dash z : 0 < z -> Split (pretty z) "-"%char = [pretty z].
Proof.
  intros Hz. destruct z as [|p|p]; try lia. apply Split_none. change (pretty (Zpos p)) with (pretty_N_go (Npos p) "").
  apply pretty_N_go_chars; [|constructor]. intros x. unfold pretty_N_char. by repeat case_match.
Qed.

Lemma event_id_track cfg a x b y : 0 < a -> 0 < b -> event_id cfg a x = event_id cfg b y -> a = b.
Proof.
  intros Ha Hb. unfold event_id. intros E%app_inj_l%app_inj_l. apply (f_equal (fun s => head (Split s "-"%char))) in E.
  change ("-" +:+ pretty (UnixMilli x))%string with (String "-"%char (pretty (UnixMilli x))) in E.
  change ("-" +:+ pretty (UnixMilli y))%string with (String "-"%char (pretty (UnixMilli y))) in E.
  rewrite !Split_app, (pretty_no_dash a), (pretty_no_dash b) in E by done. cbn [app head] in E. apply (inj Some) in E. by apply (inj pretty) in E.
Qed.

Section run.
Context {F : Type} `{Drawing} `{BoxOrder} `{Imaging} (sort_pairs : list assignment -> list assignment) `{!SortsPairs sort_pairs} (cfg : CameraConfig).

(** ** A frame *)

Lemma id_room_nil t dets : id_room t dets -> id_room t [].
Proof. unfold id_room. cbn. lia. Qed.

Lemma saveCachedSnapshot_frame fr (c c' : Camera F) : saveCachedSnapshot cfg fr c = Some c' ->
  cm_motion c' = cm_motion c /\ cm_tracking c' = cm_tracking c /\ cm_zones c' = cm_zones c /\ cm_doorbell c' = cm_doorbell c /\
  same_events (cm_sent c) (cm_sent c').
Proof.
  unfold saveCachedSnapshot. destruct (rawFrame (cm_frame c)); [|by intros [= <-]]. destruct (_ <? _); [by intros [= <-]|].
  destruct (rawToRGBA _ _ _); [|done]. cbn [mbind option_bind]. destruct (String.eqb _ _); [by intros [= <-]|]. by destruct (negb _); intros [= <-].
Qed.

Lemma note_activity_frame fr m (s : Sent F) m' s' : note_activity cfg fr m s = (m', s') ->
  motionDetector m' = motionDetector m /\ lastDetectAt m' = lastDetectAt m /\ same_events s s'.
Proof. unfold note_activity. destruct (negb _); [by intros [= <- <-]|]. by destruct (_ && _); intros [= <- <-]. Qed.

Lemma offer_doorbell_frame fr dets (c c' : Camera F) : offer_doorbell fr dets c = Some c' ->
  cm_motion c' = cm_motion c /\ cm_tracking c' = cm_tracking c /\ cm_zones c' = cm_zones c /\ cm_sent c' = cm_sent c.
Proof.
  unfold offer_doorbell. destruct (cm_doorbell c); [|by intros [= <-]]. destruct (offerDoorbellFrame _ _ _ _ _ _ _); [|done]. by intros [= <-].
Qed.

(** C9: which events and ends a frame emits.  The detector is asked on qualifying motion, or
    when half a minute has passed and a parked object is being followed; otherwise the
    tracker ages with no detections.  The events accepted are then exactly those of the
    confirmed tracks that have none, stand in a zone when the camera has zones, and find
    room in the channel, in the order of the tracker; each tells the track, label, score,
    category and first zone of its object.  The ends accepted are exactly those of the
    tracks that were deleted, had an event and find room; and the camera remembers the
    accepted events of the tracks that are still there. *)
Theorem frame_emits_exactly fr (c c' : Camera F) :
  cc_DetectEnabled cfg = true -> tracker_ok (tracker (cm_tracking c)) -> id_room (tracker (cm_tracking c)) (fr_detect fr) ->
  processFrame sort_pairs cfg fr c = Some c' ->
  exists md regions,
    Motion.Detect (fr_buf fr) (fr_w fr) (fr_h fr) (motionDetector (cm_motion c)) = Some (md, regions) /\
    let k := cm_tracking c in
    let asked := qualified cfg regions ||
      ((30 * Second <=? Sub (fr_now fr) (lastDetectAt (cm_motion c))) && HasStationaryConfirmed (tracker k)) in
    let t' := (Update sort_pairs (if asked then fr_detect fr else []) (tracker k)).1 in
    tracker (cm_tracking c') = t' /\
    exists subs,
      Forall2 (fun obj sub => tells cfg fr (zones_at (cm_zones c) fr obj) obj sub)
        (filter (becomes_event fr (cm_zones c) (confirmedTracks k)) (confirmedObjects t')) subs /\
      st_events (cm_sent c') = st_events (cm_sent c) ++ subs /\
      st_eventEnds (cm_sent c') = st_eventEnds (cm_sent c) ++ omap (end_of cfg fr (confirmedTracks k)) (DeletedTracks t') /\
      confirmedTracks (cm_tracking c') = filter (fun p => p.1 ∉ (to_TrackID <$> DeletedTracks t')) (by_track subs ∪ confirmedTracks k).
Proof.
  intros Hen Hok Hroom. unfold processFrame. rewrite Hen. cbn [negb].
  destruct (saveCachedSnapshot _ _ _) as [c1|] eqn:Es; [|done]. cbn [mbind option_bind]. apply saveCachedSnapshot_frame in Es as (S1 & S2 & S3 & _ & S4 & S5).
  cbn in S1, S2, S3, S4, S5. rewrite S1. destruct (Motion.Detect _ _ _ _) as [[md regions]|] eqn:Em; [|done]. cbn [mbind option_bind].
  destruct (note_activity _ _ _ _) as [m s] eqn:En. apply note_activity_frame in En as (N1 & N2 & N3 & N4). cbn in N1, N2.
  set (run := runs_detection _ _ _ _). destruct (offer_doorbell _ _ _) as [c2|] eqn:Eo; [|done]. cbn [mbind option_bind].
  apply offer_doorbell_frame in Eo as (O1 & O2 & O3 & O4). cbn in O1, O2, O3, O4. intros Hp. exists md, regions. split; [done|]. cbn zeta.
  assert (run = qualified cfg regions || ((30 * Second <=? Sub (fr_now fr) (lastDetectAt (cm_motion c))) && HasStationaryConfirmed (tracker (cm_tracking c)))) as Er
    by (subst run; unfold runs_detection; by rewrite N2, S2).
  rewrite <- Er. assert (cm_tracking c2 = cm_tracking c) as Ek by congruence. assert (cm_zones c2 = cm_zones c) as Ez by congruence.
  assert (st_events (cm_sent c2) = st_events (cm_sent c) /\ st_eventEnds (cm_sent c2) = st_eventEnds (cm_sent c)) as [E1 E2] by (rewrite O4, N3, N4; done).
  pose proof (pipeline_events sort_pairs cfg (if run then fr_detect fr else []) fr c2 c') as Hpe. cbn zeta in Hpe. rewrite Ek, Ez, E1, E2 in Hpe.
  apply Hpe; [|done]. apply Update_ok; [done|done|]. destruct run; [done|]. by eapply id_room_nil.
Qed.

(** ** A run *)

(** The camera still follows the track. *)
Definition followed (t : Tracker) (x : Z) : Prop := exists tr, tr ∈ tracks t /\ id tr = x /\ state tr <> TrackDeleted.

(** One frame: the tracks followed stay, possibly deleted now; every other one is new. *)
Lemma Update_ids dets t : id_room t dets -> let t' := (Update sort_pairs dets t).1 in
  nextID t <= nextID t' /\
  (forall x, followed t x -> exists tr, tr ∈ tracks t' /\ id tr = x) /\
  (forall tr, tr ∈ tracks t' -> followed t (id tr) \/ nextID t <= id tr).
Proof.
  intros Hr t'. destruct (Update_frame_spec sort_pairs dets t Hr) as (m & Fs & _). fold t' in Fs.
  pose proof (frame_ids _ _ _ _ _ Fs) as Hids. rewrite live_ids in Hids. split; [rewrite (fs_nextID _ _ _ _ _ Fs); lia|].
  assert (forall x, x ∈ (id <$> filter (fun tr => state tr <> TrackDeleted) (tracks t)) <-> followed t x) as Hf.
  { intros x. rewrite list_elem_of_fmap. setoid_rewrite list_elem_of_filter. unfold followed. naive_solver. }
  split.
  - intros x Hx%Hf. assert (x ∈ (id <$> tracks t')) as (tr & -> & Htr)%list_elem_of_fmap by (rewrite Hids; apply elem_of_app; by left). by exists tr.
  - intros tr Htr. assert (id tr ∈ (id <$> tracks t')) as Hin by (by apply list_elem_of_fmap_2). rewrite Hids in Hin.
    apply elem_of_app in Hin as [Hin%Hf|Hin]; [by left|right]. apply list_elem_of_fmap in Hin as (n & -> & _). lia.
Qed.

Definition track_of (sub : Submission) : Z := TrackID (sb_event sub).
Definition id_of (sub : Submission) : string := ID (sb_event sub).

(** What is true between frames: each track has at most one accepted event; the camera
    remembers exactly the events of the tracks it follows; each accepted end names an
    event of a track that is gone, and no event is ended twice. *)
Record life (c : Camera F) : Prop := {
  lf_tracker : tracker_ok (tracker (cm_tracking c));
  lf_once : NoDup (track_of <$> st_events (cm_sent c));
  lf_known sub : sub ∈ st_events (cm_sent c) ->
    CameraName (sb_event sub) = cc_Name cfg /\ 1 <= track_of sub < nextID (tracker (cm_tracking c)) /\ exists now, id_of sub = event_id cfg (track_of sub) now;
  lf_confirmed x e : confirmedTracks (cm_tracking c) !! x = Some e <->
    followed (tracker (cm_tracking c)) x /\ exists sub, sub ∈ st_events (cm_sent c) /\ track_of sub = x /\ id_of sub = e;
  lf_ends ee : ee ∈ st_eventEnds (cm_sent c) -> ee_CameraName ee = cc_Name cfg /\
    exists sub, sub ∈ st_events (cm_sent c) /\ id_of sub = ee_EventID ee /\ ~ followed (tracker (cm_tracking c)) (track_of sub);
  lf_ended_once : NoDup (ee_EventID <$> st_eventEnds (cm_sent c))
}.

(** No end was refused: every event is of a track still followed, or ended. *)
Definition settled_ends (c : Camera F) : Prop := forall sub, sub ∈ st_events (cm_sent c) ->
  followed (tracker (cm_tracking c)) (track_of sub) \/ id_of sub ∈ (ee_EventID <$> st_eventEnds (cm_sent c)).

Lemma by_track_lookup subs x e : NoDup (track_of <$> subs) -> by_track subs !! x = Some e <-> exists sub, sub ∈ subs /\ track_of sub = x /\ id_of sub = e.
Proof.
  intros Hnd. unfold by_track. rewrite <- elem_of_list_to_map by (by rewrite <- list_fmap_compose). rewrite list_elem_of_fmap. unfold track_of, id_of. naive_solver.
Qed.

Lemma followed_deleted t x : tracker_ok t -> followed t x -> x ∉ (to_TrackID <$> DeletedTracks t).
Proof.
  intros Hok (tr & Htr & <- & Hst). rewrite deleted_ids. intros (tr' & E & [S' T']%list_elem_of_filter)%list_elem_of_fmap.
  apply Hst. by rewrite (id_state t tr tr' Hok Htr T' E).
Qed.

Lemma not_followed_deleted t x : (exists tr, tr ∈ tracks t /\ id tr = x) -> x ∉ (to_TrackID <$> DeletedTracks t) -> followed t x.
Proof.
  intros (tr & Htr & <-) Hx. exists tr. split; [done|]. split; [done|]. intros Hst. apply Hx. rewrite deleted_ids. apply list_elem_of_fmap_2, list_elem_of_filter. done.
Qed.

Lemma Forall2_elem_r {A B} (R : A -> B -> Prop) l k y : Forall2 R l k -> y ∈ k -> exists x, x ∈ l /\ R x y.
Proof. intros Hf (i & Hi)%list_elem_of_lookup. destruct (Forall2_lookup_r _ _ _ _ _ Hf Hi) as (x & Hx & HR). exists x. split; [by eapply list_elem_of_lookup_2|done]. Qed.

Section step.
Context (c : Camera F) (fr : FrameInput F) (dets : list Detection) (subs : list Submission).
Abbreviation t := (tracker (cm_tracking c)).
Abbreviation t' := (Update sort_pairs dets t).1.
Abbreviation known := (confirmedTracks (cm_tracking c)).
Context (Hlife : life c) (Hroom : id_room t dets).
Context (Htells : Forall2 (fun obj sub => tells cfg fr (zones_at (cm_zones c) fr obj) obj sub)
  (filter (becomes_event fr (cm_zones c) known) (confirmedObjects t')) subs).

Lemma frame_step_ok : tracker_ok t'.
Proof using Hlife Hroom SortsPairs0. by apply Update_ok; [|apply Hlife|]. Qed.

(** The events of the frame are of confirmed tracks that had none. *)
Lemma new_event sub : sub ∈ subs -> CameraName (sb_event sub) = cc_Name cfg /\ known !! track_of sub = None /\ followed t' (track_of sub) /\
  1 <= track_of sub < nextID t' /\ exists now, id_of sub = event_id cfg (track_of sub) now.
Proof using Hlife Hroom SortsPairs0 Htells.
  intros Hsub. destruct (Forall2_elem_r _ _ _ _ Htells Hsub) as (obj & [Hb Hobj]%list_elem_of_filter & Ht). unfold track_of, id_of.
  rewrite (tl_ID _ _ _ _ _ Ht), (tl_track _ _ _ _ _ Ht). split; [apply (tl_camera _ _ _ _ _ Ht)|]. split; [apply Hb|].
  assert (to_TrackID obj ∈ (to_TrackID <$> confirmedObjects t')) as Hin by (by apply list_elem_of_fmap_2).
  rewrite confirmed_ids in Hin. apply list_elem_of_fmap in Hin as (tr & -> & [Hst Htr]%list_elem_of_filter).
  split; [exists tr; split; [done|]; split; [done|]; by rewrite Hst|]. split; [|by eexists].
  pose proof (ok_range _ frame_step_ok) as Hr. rewrite Forall_forall in Hr. by apply Hr.
Qed.

Lemma new_once : NoDup (track_of <$> subs).
Proof using Hlife Hroom SortsPairs0 Htells.
  unfold track_of. rewrite (tells_tracks cfg fr (zones_at (cm_zones c) fr) _ _ Htells).
  eapply sublist_NoDup; [|apply fmap_sublist, sublist_filter]. rewrite confirmed_ids. apply state_ids_NoDup, frame_step_ok.
Qed.

(** No event of a track that already has one. *)
Lemma old_track_not_new sub sub' : sub ∈ st_events (cm_sent c) -> sub' ∈ subs -> track_of sub <> track_of sub'.
Proof using Hlife Hroom SortsPairs0 Htells.
  intros Hs Hs' E. destruct (new_event sub' Hs') as (_ & Hk & (tr & Htr & Eid & _) & _). destruct (lf_known _ Hlife sub Hs) as (_ & Hlt & _).
  destruct (Update_ids dets t Hroom) as (_ & _ & Hids). destruct (Hids tr Htr) as [Hf|Hge]; [|lia].
  assert (known !! track_of sub = Some (id_of sub)) as Hc by (apply (lf_confirmed _ Hlife); split; [by rewrite E, <- Eid|by exists sub]). congruence.
Qed.

(** A track that was known and is still followed was followed before. *)
Lemma still_followed sub : sub ∈ st_events (cm_sent c) -> followed t' (track_of sub) -> followed t (track_of sub).
Proof using Hlife Hroom SortsPairs0.
  intros Hs (tr & Htr & Eid & _). destruct (lf_known _ Hlife sub Hs) as (_ & Hlt & _).
  destruct (Update_ids dets t Hroom) as (_ & _ & Hids). destruct (Hids tr Htr) as [Hf|Hge]; [by rewrite <- Eid|lia].
Qed.

Abbreviation evs := (st_events (cm_sent c) ++ subs).
Abbreviation known' := (filter (fun p : Z * string => p.1 ∉ (to_TrackID <$> DeletedTracks t')) (by_track subs ∪ known)).

Lemma step_once : NoDup (track_of <$> evs).
Proof using Hlife Hroom SortsPairs0 Htells.
  rewrite fmap_app. apply NoDup_app. split; [apply Hlife|]. split; [|apply new_once].
  intros x (sub & -> & Hs)%list_elem_of_fmap (sub' & E & Hs')%list_elem_of_fmap. by eapply old_track_not_new.
Qed.

Lemma step_known sub : sub ∈ evs -> CameraName (sb_event sub) = cc_Name cfg /\ 1 <= track_of sub < nextID t' /\
  exists now, id_of sub = event_id cfg (track_of sub) now.
Proof using Hlife Hroom SortsPairs0 Htells.
  intros [Hs|Hs]%elem_of_app.
  - destruct (lf_known _ Hlife sub Hs) as (? & ? & ?). destruct (Update_ids dets t Hroom) as (? & _). split; [done|]. split; [lia|done].
  - by destruct (new_event sub Hs) as (? & _ & _ & ? & ?).
Qed.

Lemma step_confirmed x e : known' !! x = Some e <-> followed t' x /\ exists sub, sub ∈ evs /\ track_of sub = x /\ id_of sub = e.
Proof using Hlife Hroom SortsPairs0 Htells.
  rewrite map_lookup_filter_Some. cbn [fst]. split.
  - intros [Hl Hd]. apply lookup_union_Some_raw in Hl as [Hl|[_ Hl]].
    + apply by_track_lookup in Hl as (sub & Hs & <- & <-); [|apply new_once]. split; [by apply new_event|]. exists sub. split; [apply elem_of_app; by right|done].
    + apply (lf_confirmed _ Hlife) in Hl as (Hf & sub & Hs & <- & <-). split; [|exists sub; split; [apply elem_of_app; by left|done]].
      apply not_followed_deleted; [|done]. destruct (Update_ids dets t Hroom) as (_ & Hkeep & _). by apply Hkeep.
  - intros (Hf & sub & Hs & <- & <-). split; [|by apply followed_deleted; [apply frame_step_ok|]]. apply lookup_union_Some_raw. apply elem_of_app in Hs as [Hs|Hs].
    + right. assert (known !! track_of sub = Some (id_of sub)) as Hc by (apply (lf_confirmed _ Hlife); split; [by apply still_followed|by exists sub]).
      split; [|done]. apply eq_None_not_Some. intros [e (sub' & Hs' & E & _)%by_track_lookup]; [|apply new_once]. by eapply old_track_not_new.
    + left. apply by_track_lookup; [apply new_once|]. by exists sub.
Qed.

(** ** The ends of the frame *)

Abbreviation new_ends := (omap (end_of cfg fr known) (DeletedTracks t')).

Lemma new_end ee : ee ∈ new_ends -> ee_CameraName ee = cc_Name cfg /\
  exists sub, sub ∈ st_events (cm_sent c) /\ id_of sub = ee_EventID ee /\ track_of sub ∈ (to_TrackID <$> DeletedTracks t') /\ followed t (track_of sub).
Proof using Hlife.
  intros (obj & Hobj & He)%list_elem_of_omap. unfold end_of in He. destruct (known !! to_TrackID obj) as [e|] eqn:Ek; [|done]. cbn in He.
  destruct (fr_endRoom fr (to_TrackID obj)); [|done]. injection He as <-. split; [done|].
  apply (lf_confirmed _ Hlife) in Ek as (Hf & sub & Hs & E & Ei). exists sub. rewrite E. split_and!; try done. by apply list_elem_of_fmap_2.
Qed.

Lemma id_of_inj sub sub' : sub ∈ evs -> sub' ∈ evs -> id_of sub = id_of sub' -> track_of sub = track_of sub'.
Proof using Hlife Hroom SortsPairs0 Htells.
  intros H1' H2' E. destruct (step_known sub H1') as (_ & ? & now & E1), (step_known sub' H2') as (_ & ? & now' & E2).
  apply (event_id_track cfg _ now _ now'); [lia|lia|congruence].
Qed.

Lemma step_ends ee : ee ∈ st_eventEnds (cm_sent c) ++ new_ends -> ee_CameraName ee = cc_Name cfg /\
  exists sub, sub ∈ evs /\ id_of sub = ee_EventID ee /\ ~ followed t' (track_of sub).
Proof using Hlife Hroom SortsPairs0 Htells.
  intros [He|He]%elem_of_app.
  - destruct (lf_ends _ Hlife ee He) as (Hc & sub & Hs & E & Hn). split; [done|]. exists sub. split; [apply elem_of_app; by left|]. split; [done|].
    intros Hf. by apply Hn, still_followed.
  - destruct (new_end ee He) as (Hc & sub & Hs & E & Hd & _). split; [done|]. exists sub. split; [apply elem_of_app; by left|]. split; [done|].
    intros Hf. by apply (followed_deleted t' (track_of sub) frame_step_ok Hf).
Qed.

Lemma new_ends_once : NoDup (ee_EventID <$> new_ends).
Proof using Hlife Hroom SortsPairs0 Htells.
  assert (NoDup (to_TrackID <$> DeletedTracks t')) as Hnd by (rewrite deleted_ids; apply state_ids_NoDup, frame_step_ok).
  assert (forall obj e, known !! to_TrackID obj = Some e -> exists sub, sub ∈ evs /\ track_of sub = to_TrackID obj /\ id_of sub = e) as Hk.
  { intros obj e Hk%(lf_confirmed _ Hlife). destruct Hk as (_ & sub & Hs & E & Ei). exists sub. split; [apply elem_of_app; by left|done]. }
  induction (DeletedTracks t') as [|obj l IH]; [constructor|]. cbn [fmap list_fmap] in Hnd. apply NoDup_cons in Hnd as [Hno Hnd].
  cbn [omap list_omap]. unfold end_of at 1. destruct (known !! to_TrackID obj) as [e|] eqn:Ek; cbn; [|by apply IH].
  destruct (fr_endRoom fr (to_TrackID obj)); cbn; [|by apply IH]. apply NoDup_cons. split; [|by apply IH].
  intros (ee & E & (obj' & Hobj' & He)%list_elem_of_omap)%list_elem_of_fmap. unfold end_of in He. destruct (known !! to_TrackID obj') as [e'|] eqn:Ek'; [|done].
  cbn in He. destruct (fr_endRoom fr (to_TrackID obj')); [|done]. injection He as <-. cbn in E. subst e'.
  destruct (Hk obj e Ek) as (s1 & M1 & T1 & I1), (Hk obj' e Ek') as (s2 & M2 & T2 & I2). apply Hno. rewrite <- T1, (id_of_inj s1 s2 M1 M2 ltac:(congruence)), T2.
  by apply list_elem_of_fmap_2.
Qed.

Lemma step_ended_once : NoDup (ee_EventID <$> st_eventEnds (cm_sent c) ++ new_ends).
Proof using Hlife Hroom SortsPairs0 Htells.
  rewrite fmap_app. apply NoDup_app. split; [apply Hlife|]. split; [|apply new_ends_once].
  intros x (ee & -> & He)%list_elem_of_fmap (ee' & E & He')%list_elem_of_fmap.
  destruct (lf_ends _ Hlife ee He) as (_ & s1 & M1 & I1 & Hn), (new_end ee' He') as (_ & s2 & M2 & I2 & _ & Hf).
  apply Hn. rewrite (id_of_inj s1 s2); [done|apply elem_of_app; by left|apply elem_of_app; by left|congruence].
Qed.

Lemma step_settled : (forall x, fr_endRoom fr x = true) -> settled_ends c ->
  forall sub, sub ∈ evs -> followed t' (track_of sub) \/ id_of sub ∈ (ee_EventID <$> st_eventEnds (cm_sent c) ++ new_ends).
Proof using Hlife Hroom SortsPairs0 Htells.
  intros Hends Hset sub [Hs|Hs]%elem_of_app; [|left; by apply new_event]. rewrite fmap_app, elem_of_app.
  destruct (Hset sub Hs) as [Hf|He]; [|by auto]. destruct (decide (track_of sub ∈ (to_TrackID <$> DeletedTracks t'))) as [Hd|Hd].
  - right. right. apply list_elem_of_fmap in Hd as (obj & Eo & Ho). assert (known !! to_TrackID obj = Some (id_of sub)) as Hk
      by (apply (lf_confirmed _ Hlife); rewrite <- Eo; split; [done|by exists sub]).
    apply list_elem_of_fmap. exists (mkEventEnd (id_of sub) (cc_Name cfg) (fr_endAt fr (to_TrackID obj))). split; [done|].
    apply list_elem_of_omap. exists obj. split; [done|]. unfold end_of. rewrite Hk. cbn. by rewrite Hends.
  - left. apply not_followed_deleted; [|done]. destruct (Update_ids dets t Hroom) as (_ & Hkeep & _). by apply Hkeep.
Qed.
End step.

(** ** Runs *)

(** The detections a run can be given. *)
Definition asked (op : CameraOp (F := F)) : Z := match op with OpFrame fr => Z.of_nat (length (fr_detect fr)) | _ => 0 end.
Definition asked_all (ops : list (CameraOp (F := F))) : Z := foldr (fun op n => asked op + n) 0 ops.
Definition ends_accepted (op : CameraOp (F := F)) : Prop := match op with OpFrame fr => forall x, fr_endRoom fr x = true | _ => True end.

Lemma asked_all_nonneg ops : 0 <= asked_all ops.
Proof. unfold asked_all. induction ops as [|[] ops IH]; cbn; lia. Qed.

(** The part of a camera that a run's claims are about. *)
Definition same_life (c c' : Camera F) : Prop :=
  tracker (cm_tracking c') = tracker (cm_tracking c) /\ confirmedTracks (cm_tracking c') = confirmedTracks (cm_tracking c) /\ same_events (cm_sent c) (cm_sent c').

Lemma same_life_life c c' : same_life c c' -> life c -> life c'.
Proof. intros (E1 & E2 & E3 & E4) [L1 L2 L3 L4 L5 L6]. split; rewrite ?E1, ?E2, ?E3, ?E4; done. Qed.

Lemma same_life_settled c c' : same_life c c' -> settled_ends c -> settled_ends c'.
Proof. intros (E1 & E2 & E3 & E4). unfold settled_ends. by rewrite E1, E3, E4. Qed.

(** A camera that does not detect only keeps its frames. *)
Lemma disabled_frame fr (c c' : Camera F) : cc_DetectEnabled cfg = false -> processFrame sort_pairs cfg fr c = Some c' -> same_life c c'.
Proof.
  intros Hen. unfold processFrame. rewrite Hen. cbn [negb]. destruct (saveCachedSnapshot _ _ _) as [c1|] eqn:Es; [|done]. cbn [mbind option_bind].
  apply saveCachedSnapshot_frame in Es as (_ & S2 & _ & _ & S4 & S5). intros (_ & O2 & _ & O4)%offer_doorbell_frame. cbn in *.
  unfold same_life, same_events. rewrite O2, O4, S2. done.
Qed.

Lemma other_step op (c c' : Camera F) : (forall fr, op <> OpFrame fr) -> camera_step sort_pairs cfg op c = Some c' -> same_life c c'.
Proof.
  intros Hop. destruct op as [fr|x name|zones|reason|loaded|room|faces op]; cbn [camera_step].
  - by destruct (Hop fr).
  - intros [= <-]. unfold SetTrackName. by destruct (String.eqb name "").
  - by intros [= <-].
  - by intros [= <-].
  - intros [= <-]. unfold loadCachedSnapshot. destruct loaded as [[[[rgb w] h] mtime]|]; [|done]. by destruct (String.eqb _ _).
  - intros [= <-]. unfold flushMotionBucket. by destruct (_ || _).
  - destruct (cm_doorbell c); [|by intros [= <-]]. destruct (doorbell_step faces op d); [|done]. by intros [= <-].
Qed.

Lemma camera_step_life op (c c' : Camera F) : life c -> nextID (tracker (cm_tracking c)) + asked op <= max_int64 ->
  camera_step sort_pairs cfg op c = Some c' ->
  life c' /\ nextID (tracker (cm_tracking c')) <= nextID (tracker (cm_tracking c)) + asked op /\
  (ends_accepted op -> settled_ends c -> settled_ends c').
Proof.
  intros Hlife Hroom Hstep. assert (same_life c c' \/ exists fr, op = OpFrame fr /\ cc_DetectEnabled cfg = true) as [Hs|(fr & -> & Hen)].
  { destruct op as [fr|?|?|?|?|?|?]; [|left; (eapply other_step; [|exact Hstep]; done)..]. destruct (cc_DetectEnabled cfg) eqn:Hen; [right; by exists fr|left; exact (disabled_frame fr c c' Hen Hstep)]. }
  { split; [by eapply same_life_life|]. split; [|intros _; by apply same_life_settled]. destruct Hs as [-> _]. destruct op; cbn; lia. }
  cbn [asked] in Hroom. cbn [camera_step] in Hstep. pose proof (ok_next _ (lf_tracker _ Hlife)) as Hn.
  assert (id_room (tracker (cm_tracking c)) (fr_detect fr)) as Hir by (split; lia).
  destruct (frame_emits_exactly fr c c' Hen (lf_tracker _ Hlife) Hir Hstep) as (md & regions & _ & Hf). cbn zeta in Hf.
  set (dets := if _ || _ then fr_detect fr else []) in Hf.
  assert (id_room (tracker (cm_tracking c)) dets /\ (length dets <= length (fr_detect fr))%nat) as [Hid Hlen]
    by (subst dets; destruct (_ || _); [done|split; [by eapply id_room_nil|cbn; lia]]).
  destruct Hf as (Et & subs & Ht & Ee & En & Ek). split; [|split].
  - split; rewrite ?Et, ?Ee, ?En, ?Ek.
    + by apply frame_step_ok.
    + by eapply step_once.
    + by eapply step_known.
    + by eapply step_confirmed.
    + by eapply step_ends.
    + by eapply step_ended_once.
  - rewrite Et. destruct (Update_frame_spec sort_pairs dets _ Hid) as (m & Fs & _). rewrite (fs_nextID _ _ _ _ _ Fs). cbn [asked]. lia.
  - intros Hends Hset. unfold settled_ends. rewrite Et, Ee, En. by eapply step_settled.
Qed.

Lemma camera_run_life ops (c c' : Camera F) : life c -> nextID (tracker (cm_tracking c)) + asked_all ops <= max_int64 ->
  camera_run sort_pairs cfg ops c = Some c' ->
  life c' /\ (Forall ends_accepted ops -> settled_ends c -> settled_ends c').
Proof.
  revert c. induction ops as [|op ops IH]; intros c Hl Hroom; [by intros [= <-]|]. cbn [asked_all foldr] in Hroom. fold (asked_all ops) in Hroom.
  pose proof (asked_all_nonneg ops). cbn [camera_run]. destruct (camera_step sort_pairs cfg op c) as [c1|] eqn:E; [|done]. cbn [mbind option_bind]. intros Hr.
  destruct (camera_step_life op c c1 Hl ltac:(lia) E) as (Hl1 & Hn & Hs1). destruct (IH c1 Hl1 ltac:(lia) Hr) as [Hl' Hs].
  split; [done|]. intros [Ha Has]%Forall_cons Hset. auto.
Qed.

Lemma NewCamera_life pixelThreshold minArea bgAlpha available zones : life (NewCamera cfg pixelThreshold minArea bgAlpha available zones).
Proof.
  assert (tracker_ok (NewTracker 30 3)) as Hok by (apply NewTracker_ok; unfold max_int64; lia).
  split; [exact Hok|constructor|..]; cbn -[NewTracker].
  - by intros sub Hs%not_elem_of_nil.
  - intros x e. rewrite lookup_empty. split; [done|]. by intros [(tr & Htr%not_elem_of_nil & _) _].
  - by intros ee He%not_elem_of_nil.
  - constructor.
Qed.

(** C2: over any run of a camera, a track is one event.  Whatever the frames hold, the
    detector answers and the channels refuse, and whatever is renamed or reconfigured
    between frames: no track has two accepted events and no two accepted events share an
    identifier; the camera remembers exactly the events of the tracks it still follows;
    every accepted end names an accepted event whose track is gone, and no event is ended
    twice.  When no end is refused, every accepted event has ended or its track is still
    followed. *)
Theorem a_track_is_one_event ops pixelThreshold minArea bgAlpha available zones c :
  1 + asked_all ops <= max_int64 ->
  camera_run sort_pairs cfg ops (NewCamera cfg pixelThreshold minArea bgAlpha available zones) = Some c ->
  life c /\ NoDup (id_of <$> st_events (cm_sent c)) /\ (Forall ends_accepted ops -> settled_ends c).
Proof.
  intros Hroom Hrun. destruct (camera_run_life ops _ c (NewCamera_life pixelThreshold minArea bgAlpha available zones) Hroom Hrun) as [Hl Hs].
  split; [done|]. split; [|intros Ha; apply Hs; [done|]; by intros sub Hsub%not_elem_of_nil].
  pose proof (lf_once _ Hl) as Hnd. pose proof (lf_known _ Hl) as Hk. induction (st_events (cm_sent c)) as [|sub l IH]; [constructor|].
  cbn [fmap list_fmap] in *. apply NoDup_cons in Hnd as [Hno Hnd]. apply NoDup_cons. split; [|apply IH; [done|]; intros; apply Hk; by right].
  intros (sub' & E & Hs')%list_elem_of_fmap. apply Hno. destruct (Hk sub ltac:(by left)) as (_ & ? & now & E1), (Hk sub' ltac:(by right)) as (_ & ? & now' & E2).
  rewrite (event_id_track cfg (track_of sub) now (track_of sub') now'); [by apply list_elem_of_fmap_2|lia|lia|congruence].
Qed.
End run.

(** ** Names and parked objects *)

(** A name is stored whether the camera still follows the track or not. *)
Lemma SetTrackName_unconditional {F} x name (c : Camera F) : name <> EmptyString ->
  trackNames (cm_tracking (SetTrackName x name c)) !! x = Some name.
Proof. intros Hn. unfold SetTrackName. destruct (String.eqb_spec name ""); [done|]. apply lookup_insert_eq. Qed.

(** The tracker of a camera keeps a parked object for fifteen hundred frames without a
    detection: less than the half minute between two detections once more than fifty
    frames a second are handled. *)
Lemma parked_budget tr : lastWasStationary tr = true -> effectiveMaxDisappeared (NewTracker 30 3) tr = 1500.
Proof. intros Hs. unfold effectiveMaxDisappeared. by rewrite Hs. Qed.

(** ** No panics *)

Section total.
Context {F : Type} `{Drawing} `{BoxOrder} `{Imaging} (sort_pairs : list assignment -> list assignment) (cfg : CameraConfig) (w h : nat).

(** A frame of the size of the camera, with all its bytes. *)
Definition whole (fr : FrameInput F) : Prop := fr_w fr = w /\ fr_h fr = h /\ length (fr_buf fr) = (w * h * 3)%nat.

Context (Hw : (0 < w)%nat) (Hh : (0 < h)%nat).

Lemma rawToRGBA_some data : (w * h * 3 <= length data)%nat -> is_Some (rawToRGBA data w h).
Proof. intros Hl. unfold rawToRGBA. apply fmap_is_Some, rgba_pixels_some. lia. Qed.

Lemma Detect_total frame m : length frame = (w * h * 3)%nat -> sized (w * h) m ->
  exists m' rs, Motion.Detect frame w h m = Some (m', rs) /\ sized (w * h) m'.
Proof.
  intros Hl Hs. unfold Motion.Detect. rewrite bool_decide_true by done. cbn [negb]. destruct (md_bg m) as [bg|] eqn:Eb.
  - pose proof (Hs bg Eb) as Hbg. rewrite bool_decide_false by lia.
    assert (forall bg' cov, length bg' = (w * h)%nat -> sized (w * h) (set_bg bg' cov m)) as Hset by (intros bg' cov Hb b; cbn; by intros [= <-]).
    assert (length (zip_with (blend (md_bgAlpha m)) bg (boxBlur3x3 (gray_at frame <$> seq 0 (w * h)) w h) ++ drop (w * h) bg) = (w * h)%nat) as Hlen.
    { rewrite length_app, length_zip_with, length_drop. unfold boxBlur3x3. rewrite length_fmap, grid_length. lia. }
    destruct (_ =? 0); eexists _, _; (split; [reflexivity|]); by apply Hset.
  - eexists _, _. split; [reflexivity|]. intros b. cbn. intros [= <-]. by rewrite !length_fmap, length_seq.
Qed.

Lemma scale_box_some b fw fh : is_Some (scale_box b fw fh (Z.of_nat w) (Z.of_nat h)).
Proof.
  unfold scale_box, quot_int. destruct (Z.eqb_spec (Z.of_nat w) 0), (Z.eqb_spec (Z.of_nat h) 0); try lia. cbn. by eexists.
Qed.

Lemma capture_some fr tracked : whole fr -> is_Some (captureEventSnapshot fr tracked).
Proof.
  intros (Ew & Eh & El). unfold captureEventSnapshot. rewrite Ew, Eh. destruct (fr_fullRes fr) as [img|].
  - match goal with |- context [mapM ?f ?l] => assert (is_Some (mapM f l)) as [scaled ->]; [|by eexists] end.
    apply mapM_is_Some_2, Forall_forall. intros d _. unfold compose. destruct (scale_box_some (d_Box d) (im_Dx img) (im_Dy img)) as [b ->]. by eexists.
  - destruct (rawToRGBA_some (fr_buf fr)) as [img ->]; [lia|]. by eexists.
Qed.

Lemma track_event_some fr matched obj shot : whole fr -> is_Some (track_event cfg fr matched obj shot).
Proof.
  intros (Ew & Eh & El). unfold track_event. rewrite Ew, Eh. destruct shot as [[clean annotated]|]; [|by eexists].
  destruct (SafePath.Join _ _ _); [|by eexists]. destruct (_ && _); [by eexists|].
  destruct (scale_box_some (to_Box obj) (im_Dx clean) (im_Dy clean)) as [b ->]. by eexists.
Qed.

Lemma emit_step_some fr zones tz all st obj : whole fr -> is_Some st -> is_Some (emit_step cfg fr zones tz all st obj).
Proof.
  intros Hfr [[[k s] shot] ->]. unfold emit_step. cbn [mbind option_bind]. destruct (_ !! to_TrackID obj); [by eexists|].
  destruct (_ && _); [by eexists|].
  assert (is_Some (match shot with Some _ => Some shot | None => if negb (cc_EventSnapDir cfg =? "")%string then Some <$> captureEventSnapshot fr all else Some None end)) as [sh ->].
  { destruct shot; [by eexists|]. destruct (negb _); [|by eexists]. apply fmap_is_Some. by apply capture_some. }
  cbn [mbind option_bind]. destruct (track_event_some fr (default [] (tz !! to_TrackID obj)) obj sh Hfr) as [ev ->]. cbn [mbind option_bind].
  destruct (confirmTrack _ _ _ _ _). by eexists.
Qed.

Lemma face_step_some fr tz st obj : whole fr -> is_Some st -> is_Some (face_step cfg fr tz st obj).
Proof.
  intros (Ew & Eh & El) [[k s] ->]. unfold face_step. cbn [mbind option_bind]. destruct (face_due fr tz k obj); [|by eexists].
  rewrite Ew, Eh. destruct (rawToRGBA_some (fr_buf fr)) as [img ->]; [lia|]. cbn [mbind option_bind]. destruct (fr_faces fr (to_TrackID obj)); by eexists.
Qed.

Lemma fold_some {A B} (f : option A -> B -> option A) l st : (forall st x, is_Some st -> is_Some (f st x)) -> is_Some st -> is_Some (fold_left f l st).
Proof. intros Hf. revert st. induction l as [|x l IH]; intros st Hst; [done|]. cbn. apply IH. by apply Hf. Qed.

Lemma pipeline_some dets fr (c : Camera F) : whole fr -> exists c', runTrackingPipeline sort_pairs cfg dets fr c = Some c' /\ cm_motion c' = cm_motion c.
Proof.
  intros Hfr. unfold runTrackingPipeline. destruct (Update _ _ _) as [t tracked]. destruct (update_presence _ _ _ _ _) as [[pt s] tz].
  unfold emit_events. match goal with |- context [fold_left (emit_step ?a ?b ?d ?e ?g) ?l ?st] =>
    assert (is_Some (fold_left (emit_step a b d e g) l st)) as [[[k1 s1] shot] ->] by (apply fold_some; [intros; by apply emit_step_some|by eexists]) end.
  cbn [mbind option_bind fst snd]. unfold recognize_faces. destruct (negb (cc_FaceRecognizer cfg)); cbn [mbind option_bind fst snd].
  { destruct (end_events _ _ _ _) as [k2 s2]. by eexists. }
  match goal with |- context [fold_left (face_step ?a ?b ?d) ?l ?st] =>
    assert (is_Some (fold_left (face_step a b d) l st)) as [[k2 s2] ->] by (apply fold_some; [intros; by apply face_step_some|by eexists]) end.
  cbn [mbind option_bind fst snd]. destruct (end_events _ _ _ _) as [k3 s3]. by eexists.
Qed.

(** A camera whose frames have the size it was configured with handles every one. *)
Lemma whole_frames_are_handled fr (c : Camera F) : whole fr -> sized (w * h) (motionDetector (cm_motion c)) ->
  exists c', processFrame sort_pairs cfg fr c = Some c' /\ sized (w * h) (motionDetector (cm_motion c')).
Proof.
  intros Hfr Hs. pose proof Hfr as (Ew & Eh & El). unfold processFrame.
  assert (exists c1, saveCachedSnapshot cfg fr (set_frame (store_frame fr (cm_frame c)) (cm_sent c) c) = Some c1) as [c1 E1].
  { unfold saveCachedSnapshot, store_frame. cbn -[rawToRGBA copy_into]. destruct (_ <? _); [by eexists|]. rewrite Ew, Eh.
    match goal with |- context [rawToRGBA ?d w h] => destruct (rawToRGBA_some d) as [img ->] end.
    - unfold copy_into. rewrite length_app, length_take, length_drop. destruct (rawFrame (cm_frame c)) as [raw|]; [destruct (bool_decide_reflect (length raw = (w * h * 3)%nat))|]; rewrite ?length_replicate; lia.
    - cbn [mbind option_bind]. repeat case_match; by eexists. }
  rewrite E1. cbn [mbind option_bind]. apply saveCachedSnapshot_frame in E1 as (S1 & _). cbn in S1.
  assert (forall dets c0, exists c', offer_doorbell fr dets c0 = Some c' /\ cm_motion c' = cm_motion c0) as Hoffer.
  { intros dets c0. unfold offer_doorbell. destruct (cm_doorbell c0) as [d|]; [|by eexists]. unfold offerDoorbellFrame.
    destruct (negb _); [by eexists|]. destruct (_ || _); [by eexists|]. destruct (default _ _) as [m mainAt]. destruct (existsb visitor dets); [|by eexists].
    rewrite Ew, Eh. destruct (rawToRGBA_some (fr_buf fr)) as [img ->]; [lia|]. by eexists. }
  destruct (negb (cc_DetectEnabled cfg)).
  { destruct (Hoffer [] c1) as (c' & -> & Em). exists c'. by rewrite Em, S1. }
  rewrite S1, Ew, Eh. destruct (Detect_total (fr_buf fr) (motionDetector (cm_motion c)) El Hs) as (md & regions & -> & Hmd). cbn [mbind option_bind].
  destruct (note_activity _ _ _ _) as [m s] eqn:En. apply note_activity_frame in En as (N1 & _). cbn in N1.
  match goal with |- context [offer_doorbell fr ?d ?c0] => destruct (Hoffer d c0) as (c2 & -> & Em) end. cbn [mbind option_bind].
  match goal with |- context [runTrackingPipeline _ _ ?d _ _] => destruct (pipeline_some d fr c2 Hfr) as (c' & -> & Em') end.
  exists c'. split; [done|]. rewrite Em', Em. cbn. destruct (runs_detection _ _ _ _); cbn; by rewrite N1.
Qed.
End total.

(** ** An instance: a visitor in front of a camera of one pixel *)

#[local] Instance no_drawing : Drawing := fun img _ => img.
#[local] Instance key_order : BoxOrder := map_to_list.
#[local] Instance plain_imaging : Imaging := {
  CatmullRom _ _ img := im_pixels img; encodeJPEG _ _ := None; DecodeConfig _ := None; ApproxBiLinear _ _ img := im_pixels img; gray_crop _ _ := []
}.

Definition porch : CameraConfig :=
  mkCameraConfig "porch" "rtsp://porch" "" true 1 1 false false fzero "" "/media" (Ok "/") false false false.

Definition seen_frame (t level : Z) (dets : list Detection) : FrameInput unit :=
  mkFrameInput [level; level; level] 1 1 (t * Second) (t * Second) false 0 (t * Second) (t * Second) dets None (t * Second) (t * Second) None
    (fun _ => t * Second) (fun _ => t * Second) (t * Second) (fun _ => []) (fun _ => t * Second) true true (fun _ => true) (fun _ => true) (fun _ => true) (fun _ => true).

Definition visitor_at : Detection := mkDetection "person" (f32_lit 9 10) (mkBox 0 0 40 80).

Definition visit_run : list (CameraOp (F := unit)) :=
  OpFrame (seen_frame 10 0 []) :: ((fun t => OpFrame (seen_frame t 250 [visitor_at])) <$> [11; 12; 13]).

Lemma a_track_is_one_event_witness : exists c,
  camera_run sorted_by_overlap porch visit_run (NewCamera porch 25 1 (f64_lit 5 100) true []) = Some c /\
  life porch c /\ track_of <$> st_events (cm_sent c) = [1].
Proof.
  destruct (camera_run sorted_by_overlap porch visit_run (NewCamera porch 25 1 (f64_lit 5 100) true [])) as [c|] eqn:E; [|by vm_compute in E].
  exists c. split; [done|]. split.
  - apply (a_track_is_one_event sorted_by_overlap porch visit_run 25 1 (f64_lit 5 100) true [] c); [vm_compute; discriminate|exact E].
  - apply (f_equal (fun r => match r with Some c => track_of <$> st_events (cm_sent c) | None => [] end)) in E. rewrite <- E. vm_compute. reflexivity.
Defined.

Lemma frame_emits_exactly_witness : exists c c' md regions,
  camera_run sorted_by_overlap porch (take 3 visit_run) (NewCamera porch 25 1 (f64_lit 5 100) true []) = Some c /\
  processFrame sorted_by_overlap porch (seen_frame 13 250 [visitor_at]) c = Some c' /\
  Motion.Detect [250; 250; 250] 1 1 (motionDetector (cm_motion c)) = Some (md, regions) /\ track_of <$> st_events (cm_sent c') = [1].
Proof.
  destruct (camera_run sorted_by_overlap porch (take 3 visit_run) (NewCamera porch 25 1 (f64_lit 5 100) true [])) as [c|] eqn:E; [|by vm_compute in E].
  assert (processFrame sorted_by_overlap porch (seen_frame 13 250 [visitor_at]) c =
    (c ← camera_run sorted_by_overlap porch (take 3 visit_run) (NewCamera porch 25 1 (f64_lit 5 100) true []);
     processFrame sorted_by_overlap porch (seen_frame 13 250 [visitor_at]) c)) as E2 by (by rewrite E).
  destruct (processFrame _ _ _ c) as [c'|] eqn:E'; [|by vm_compute in E2]. exists c, c'.
  destruct (camera_run_life sorted_by_overlap porch (take 3 visit_run) _ c (NewCamera_life porch 25 1 (f64_lit 5 100) true []) ltac:(vm_compute; discriminate) E) as [Hl _].
  assert (nextID (tracker (cm_tracking c)) = 2) as Hn.
  { apply (f_equal (fun r => match r with Some c => nextID (tracker (cm_tracking c)) | None => 0 end)) in E. rewrite <- E. vm_compute. reflexivity. }
  assert (id_room (tracker (cm_tracking c)) [visitor_at]) as Hid by (unfold id_room, max_int64; rewrite Hn; cbn [length]; lia).
  pose proof (frame_emits_exactly sorted_by_overlap porch (seen_frame 13 250 [visitor_at]) c c' eq_refl (lf_tracker _ _ Hl) Hid E') as (md & regions & Hd & _).
  exists md, regions. split; [done|]. split; [done|]. split; [exact Hd|].
  apply (f_equal (fun r => match r with Some c => track_of <$> st_events (cm_sent c) | None => [] end)) in E2. rewrite E2. vm_compute. reflexivity.
Defined.
