(* ===== verification/SegmentStore.v ===== *)
(** The [segments] table ([storage/db.go], [storage/migrate.go]) and the part of the
    file system the recorder removes files from.

    The table is its list of rows in rowid order.  An [ORDER BY] is a sort of the
    rows it selects; SQLite leaves the order of equal keys open, here they keep the
    rowid order and no theorem depends on it.  Statement failures other than the
    overflow of [SUM] are not modelled. *)

From S2P Require Import Prelude.

(** ** Files *)

Record FileInfo := mkFileInfo { fi_Size : Z; fi_ModTime : Z }.

(** The files, and the paths the file system refuses to unlink (a read-only mount, an
    I/O error, permissions). *)
Record Disk := mkDisk { files : gmap string FileInfo; sealed : gset string }.

Inductive RemoveOutcome := Removed | NotExist | RemoveError.

(** [os.Remove]. *)
Definition os_Remove (path : string) (d : Disk) : Disk * RemoveOutcome :=
  if bool_decide (path ∈ sealed d) then (d, RemoveError)
  else match files d !! path with
       | Some _ => (mkDisk (delete path (files d)) (sealed d), Removed)
       | None => (d, NotExist)
       end.

(** ** Rows *)

Record SegmentRecord := mkSegment {
  sg_ID : Z;
  sg_Camera : string;
  sg_Path : string;
  sg_StartTime : Z;
  sg_EndTime : Z;
  sg_SizeBytes : Z;
  sg_Recompressed : bool;
  sg_RecompressedAt : Z;
  sg_RecompressFailures : Z;
  sg_failure_kind : string
}.

Record SegTable := mkSegTable { sg_rows : list SegmentRecord; sg_seq : Z }.

Definition start_le (a b : SegmentRecord) : Prop := sg_StartTime a <= sg_StartTime b.
Definition end_le (a b : SegmentRecord) : Prop := sg_EndTime a <= sg_EndTime b.

#[global] Instance start_le_dec : RelDecision start_le.
Proof. intros a b. unfold start_le. apply _. Defined.
#[global] Instance end_le_dec : RelDecision end_le.
Proof. intros a b. unfold end_le. apply _. Defined.
#[global] Instance start_le_total : Total start_le.
Proof. intros a b. unfold start_le. lia. Qed.
#[global] Instance start_le_trans : Transitive start_le.
Proof. intros a b c. unfold start_le. lia. Qed.

(** [LIMIT n]: a negative bound is no bound. *)
Definition limit {A} (n : Z) (l : list A) : list A := if n <? 0 then l else take (Z.to_nat n) l.

(** ** Statements *)

Definition same_path (path : string) (r : SegmentRecord) : bool := String.eqb (sg_Path r) path.

(** The [DO UPDATE] of a conflicting row: recompression state is preserved. *)
Definition update_row (seg r : SegmentRecord) : SegmentRecord :=
  if same_path (sg_Path seg) r then
    mkSegment (sg_ID r) (sg_Camera r) (sg_Path r) (sg_StartTime seg) (sg_EndTime seg) (sg_SizeBytes seg)
      (sg_Recompressed r) (sg_RecompressedAt r) (sg_RecompressFailures r) (sg_failure_kind r)
  else r.

Definition SaveSegment (seg : SegmentRecord) (t : SegTable) : SegTable :=
  if existsb (same_path (sg_Path seg)) (sg_rows t) then
    mkSegTable (update_row seg <$> sg_rows t) (sg_seq t)
  else
    mkSegTable (sg_rows t ++ [mkSegment (sg_seq t + 1) (sg_Camera seg) (sg_Path seg) (sg_StartTime seg)
      (sg_EndTime seg) (sg_SizeBytes seg) false 0 0 ""]) (sg_seq t + 1).

Definition DeleteSegment (path : string) (t : SegTable) : SegTable :=
  mkSegTable (filter (fun r => sg_Path r <> path) (sg_rows t)) (sg_seq t).

Definition DeleteSegmentByID (id : Z) (t : SegTable) : SegTable :=
  mkSegTable (filter (fun r => sg_ID r <> id) (sg_rows t)) (sg_seq t).

Definition GetAllSegments (camera : string) (t : SegTable) : list SegmentRecord :=
  merge_sort start_le (filter (fun r => sg_Camera r = camera) (sg_rows t)).

Definition GetSegmentByPath (path : string) (t : SegTable) : option SegmentRecord :=
  find (same_path path) (sg_rows t).

Definition GetSegmentByID (id : Z) (t : SegTable) : option SegmentRecord :=
  find (fun r => sg_ID r =? id) (sg_rows t).

(** [SUM] over the sizes: an integer overflow fails the statement, no rows give 0. *)
Definition sum_step (acc : result string Z) (size : Z) : result string Z :=
  let? total := acc in
  if (min_int64 <=? total + size) && (total + size <=? max_int64) then Ok (total + size)
  else Err "integer overflow"%string.

Definition TotalStorageBytes (t : SegTable) : result string Z :=
  fold_left sum_step (sg_SizeBytes <$> sg_rows t) (Ok 0).

Definition GetSegmentsOverlapping (camera : string) (start end_ : Z) (t : SegTable) : list SegmentRecord :=
  merge_sort start_le (filter (fun r => (camera = ""%string \/ sg_Camera r = camera) /\
    sg_StartTime r < end_ /\ start < sg_EndTime r) (sg_rows t)).

Definition QuerySegments (camera : string) (from to : Z) (t : SegTable) : list SegmentRecord :=
  GetSegmentsOverlapping camera from to t.

Definition CountSegments (t : SegTable) : Z := Z.of_nat (length (sg_rows t)).

Definition GetSegmentsEndingBefore (cutoff : Z) (t : SegTable) : list SegmentRecord :=
  merge_sort end_le (filter (fun r => sg_EndTime r < cutoff) (sg_rows t)).

Definition GetSegmentsEndingBeforeForCamera (camera : string) (cutoff : Z) (t : SegTable) : list SegmentRecord :=
  merge_sort end_le (filter (fun r => sg_Camera r = camera /\ sg_EndTime r < cutoff) (sg_rows t)).

Definition GetOldestSegments (n : Z) (t : SegTable) : list SegmentRecord :=
  limit n (merge_sort start_le (sg_rows t)).

Definition GetOldestSegmentsOlderThan (n cutoff : Z) (t : SegTable) : list SegmentRecord :=
  limit n (merge_sort start_le (filter (fun r => sg_EndTime r < cutoff) (sg_rows t))).

(** [MAX] over the sizes; no matching row gives NULL, read as 0. *)
Definition GetLargestSegmentSizeSince (since : Z) (t : SegTable) : Z :=
  match sg_SizeBytes <$> filter (fun r => since < sg_StartTime r) (sg_rows t) with
  | [] => 0
  | s :: ss => fold_left Z.max ss s
  end.

Definition SegmentsByCameraOlderThan (camera : string) (cutoff : Z) (t : SegTable) : list SegmentRecord :=
  merge_sort start_le (filter (fun r => sg_Camera r = camera /\ sg_StartTime r < cutoff) (sg_rows t)).

Definition SegmentsByCameraInRange (camera : string) (from to : Z) (t : SegTable) : list SegmentRecord :=
  merge_sort start_le (filter (fun r => sg_Camera r = camera /\ from <= sg_StartTime r /\ sg_StartTime r < to)
    (sg_rows t)).

(** The rows read off the cursor until their sizes reach the target. *)
Fixpoint until_bytes (target sum : Z) (rows : list SegmentRecord) : list SegmentRecord :=
  match rows with
  | [] => []
  | seg :: rows =>
      let sum := i64 (sum + sg_SizeBytes seg) in
      seg :: (if target <=? sum then [] else until_bytes target sum rows)
  end.

Definition OldestSegmentsUntilBytes (target : Z) (t : SegTable) : list SegmentRecord :=
  if target <=? 0 then [] else until_bytes target 0 (merge_sort start_le (sg_rows t)).

(** ** Well-formed tables: [id] is the primary key, [path] is UNIQUE, and the
    AUTOINCREMENT sequence is ahead of every id. *)

Record table_ok (t : SegTable) : Prop := {
  ids_unique : NoDup (sg_ID <$> sg_rows t);
  paths_unique : NoDup (sg_Path <$> sg_rows t);
  ids_below : Forall (fun r => 0 < sg_ID r <= sg_seq t) (sg_rows t);
  seq_nonneg : 0 <= sg_seq t;
}.

Lemma same_path_true path r : same_path path r = true <-> sg_Path r = path.
Proof. apply String.eqb_eq. Qed.

Lemma NoDup_fmap_filter {A B} (f : A -> B) (P : A -> Prop) `{!forall x, Decision (P x)} (l : list A) :
  NoDup (f <$> l) -> NoDup (f <$> filter P l).
Proof.
  intros Hl. eapply sublist_NoDup; [exact Hl|]. apply fmap_sublist, sublist_filter.
Qed.

Lemma table_ok_filter (P : SegmentRecord -> Prop) `{!forall r, Decision (P r)} rows seq :
  table_ok (mkSegTable rows seq) -> table_ok (mkSegTable (filter P rows) seq).
Proof.
  intros [H1 H2 H3 H4]. split; cbn [sg_rows sg_seq] in *; try done; try by apply NoDup_fmap_filter.
  apply Forall_forall. intros r [_ Hr]%list_elem_of_filter. rewrite Forall_forall in H3. by apply H3.
Qed.

Lemma DeleteSegment_ok path t : table_ok t -> table_ok (DeleteSegment path t).
Proof. destruct t. intros. by apply table_ok_filter. Qed.

Lemma DeleteSegmentByID_ok id t : table_ok t -> table_ok (DeleteSegmentByID id t).
Proof. destruct t. intros. by apply table_ok_filter. Qed.

Lemma existsb_same_path path rows :
  existsb (same_path path) rows = false -> path ∉ sg_Path <$> rows.
Proof.
  intros E (r & -> & Hr)%list_elem_of_fmap. apply not_true_iff_false in E. apply E. apply existsb_exists.
  exists r. split; [by apply list_elem_of_In|]. by apply same_path_true.
Qed.

Lemma update_row_keeps {B} (f : SegmentRecord -> B) seg (rows : list SegmentRecord) :
  (forall r, f (update_row seg r) = f r) -> f <$> (update_row seg <$> rows) = f <$> rows.
Proof. intros Hf. rewrite <- list_fmap_compose. apply list_fmap_ext. intros i x _. apply Hf. Qed.

Lemma SaveSegment_ok seg t : table_ok t -> table_ok (SaveSegment seg t).
Proof.
  intros [Hid Hp Hb Hs]. unfold SaveSegment. destruct (existsb _ _) eqn:E.
  - split; cbn [sg_rows sg_seq]; try done.
    + rewrite update_row_keeps; [done|]. intros r. unfold update_row. by case_match.
    + rewrite update_row_keeps; [done|]. intros r. unfold update_row. by case_match.
    + apply Forall_fmap. eapply Forall_impl; [exact Hb|]. intros r Hr. simpl. unfold update_row. by case_match.
  - apply existsb_same_path in E. rewrite Forall_forall in Hb.
    split; cbn [sg_rows sg_seq]; [| | |lia].
    + rewrite fmap_app. apply NoDup_app. split; [done|]. split; [|apply NoDup_singleton].
      intros x (r & -> & Hr)%list_elem_of_fmap Hx%list_elem_of_singleton. cbn in Hx. specialize (Hb r Hr). lia.
    + rewrite fmap_app. apply NoDup_app. split; [done|]. split; [|apply NoDup_singleton].
      intros x Hx ->%list_elem_of_singleton. done.
    + apply Forall_forall. intros r [Hr| ->%list_elem_of_singleton]%elem_of_app; cbn; [specialize (Hb r Hr)|]; lia.
Qed.
