(* ===== verification/Retention.v ===== *)
(** How the recorder frees space: age-based retention ([recording/retention.go]), the
    storage cap, emergency deletion ([recording/emergency_cleanup.go]), the deletions a
    user asks for ([recording/storage.go]), and the disk thresholds that trigger them
    ([media/diskspace.go], [recording/diskpressure.go]). *)

From S2P Require Import Prelude SegmentStore.
From Stdlib Require Import Ascii.

(** What a segment operation changes: the files and the segments table. *)
Record World := mkWorld { disk : Disk; segs : SegTable }.

(** Whether the operation returned an error. *)
Inductive RemoveResult := RemoveOk | RemoveFailed.

Definition RemoveSegment (segPath : string) (w : World) : World * RemoveResult :=
  match os_Remove segPath (disk w) with
  | (_, RemoveError) => (w, RemoveFailed)
  | (d, _) => (mkWorld d (DeleteSegment segPath (segs w)), RemoveOk)
  end.

(** ** Configuration *)

Record UrgentCleanupConfig := mkUrgent { uc_Enabled : bool; uc_MinRetention : Z; uc_BatchSize : Z }.

Record Recorder := mkRecorder {
  rc_RetainDays : Z;
  rc_MaxStorageBytes : Z;
  rc_UrgentCleanup : UrgentCleanupConfig;
  rc_cameraRetention : gmap string Z
}.

(** [cams]: the cameras' names and [retain_days], in configuration order. *)
Definition buildCameraRetention (cams : list (string * option Z)) : gmap string Z :=
  fold_left (fun m (c : string * option Z) =>
    match c.2 with
    | Some days => if 0 <? days then <[c.1 := days]> m else m
    | None => m
    end) cams ∅.

(** ** Age-based retention *)

(** [now.Add(-time.Duration(days) * 24 * time.Hour)], each product an [int64]. *)
Definition cutoff_of (now days : Z) : Z := Add now (i64 (i64 (i64 (- days) * 24) * Hour)).

(** The rows the queries select, for the global window and then for each override. *)
Definition expired_rows (r : Recorder) (now : Z) (t : SegTable) : list SegmentRecord :=
  let globalEnabled := 0 <? rc_RetainDays r in
  let globalCutoff := cutoff_of now (rc_RetainDays r) in
  (if globalEnabled then GetSegmentsEndingBefore globalCutoff t else []) ++
  (map_to_list (rc_cameraRetention r) ≫= fun cd =>
    let camCutoff := cutoff_of now cd.2 in
    if globalEnabled && negb (After camCutoff globalCutoff) then []
    else GetSegmentsEndingBeforeForCamera cd.1 camCutoff t).

Fixpoint clean_loop (r : Recorder) (now : Z) (seen : gset string) (expired : list SegmentRecord) (w : World) : World :=
  match expired with
  | [] => w
  | seg :: expired =>
      if bool_decide (sg_Path seg ∈ seen) then clean_loop r now seen expired w
      else
        let seen := {[sg_Path seg]} ∪ seen in
        match rc_cameraRetention r !! sg_Camera seg with
        | Some days =>
            if After (sg_EndTime seg) (cutoff_of now days) then clean_loop r now seen expired w
            else clean_loop r now seen expired (RemoveSegment (sg_Path seg) w).1
        | None => clean_loop r now seen expired (RemoveSegment (sg_Path seg) w).1
        end
  end.

Definition cleanSegments (r : Recorder) (now : Z) (w : World) : World :=
  clean_loop r now ∅ (expired_rows r now (segs w)) w.

(** ** The storage cap *)

Fixpoint cap_batch (cap : Z) (oldest : list SegmentRecord) (totalBytes : Z) (w : World) : Z * World :=
  match oldest with
  | [] => (totalBytes, w)
  | seg :: oldest =>
      if totalBytes <=? cap then (totalBytes, w)
      else match RemoveSegment (sg_Path seg) w with
           | (w, RemoveOk) => cap_batch cap oldest (i64 (totalBytes - sg_SizeBytes seg)) w
           | (w, RemoveFailed) => cap_batch cap oldest totalBytes w
           end
  end.

(** [for totalBytes > cap]: [None] when the fuel runs out. *)
Fixpoint cap_loop (fuel : nat) (cap totalBytes : Z) (w : World) : option World :=
  match fuel with
  | O => None
  | S fuel =>
      if cap <? totalBytes then
        match GetOldestSegments 20 (segs w) with
        | [] => Some w
        | oldest => let '(totalBytes, w) := cap_batch cap oldest totalBytes w in cap_loop fuel cap totalBytes w
        end
      else Some w
  end.

Definition enforceStorageCap (fuel : nat) (r : Recorder) (w : World) : option World :=
  let cap := rc_MaxStorageBytes r in
  if cap <=? 0 then Some w
  else match TotalStorageBytes (segs w) with
       | Err _ => Some w
       | Ok totalBytes => if totalBytes <=? cap then Some w else cap_loop fuel cap totalBytes w
       end.

(** ** Emergency deletion *)

(** [cancelled i]: whether the context is done before the [i]th candidate;
    [available n]: the free space once [n] segments were deleted. *)
Fixpoint emergency_loop (cancelled : nat -> bool) (available : nat -> Z) (diskWasLow : bool) (target : Z)
    (i deleted : nat) (candidates : list SegmentRecord) (w : World) : World * nat :=
  match candidates with
  | [] => (w, deleted)
  | seg :: candidates =>
      if cancelled i then (w, deleted)
      else match RemoveSegment (sg_Path seg) w with
           | (w, RemoveFailed) =>
               emergency_loop cancelled available diskWasLow target (S i) deleted candidates w
           | (w, RemoveOk) =>
               if diskWasLow && (target <? available (S deleted)) then (w, S deleted)
               else emergency_loop cancelled available diskWasLow target (S i) (S deleted) candidates w
           end
  end.

Definition emergencyDeleteLocked (now : Z) (cancelled : nat -> bool) (available : nat -> Z) (minRequired : Z)
    (cfg : UrgentCleanupConfig) (w : World) : World * nat :=
  if negb (uc_Enabled cfg) then (w, 0%nat)
  else
    let floor := Add now (i64 (- uc_MinRetention cfg)) in
    match GetOldestSegmentsOlderThan (uc_BatchSize cfg) floor (segs w) with
    | [] => (w, 0%nat)
    | candidates =>
        let target := u64 (minRequired * 3) / 2 in
        let diskWasLow := available 0%nat <? minRequired in
        emergency_loop cancelled available diskWasLow target 0 0 candidates w
    end.

(** [EmergencyDelete] is the same body under [segmentOpMu], which every segment
    operation holds: the operations of this file are atomic. *)
Definition EmergencyDelete := emergencyDeleteLocked.

(** ** Deletions a user asks for *)

Record CurrentSegment := mkCurrentSegment { cs_Camera : string; cs_Path : string }.

Record DeleteRequest := mkDeleteRequest {
  dr_Target : string;
  dr_Camera : string;
  dr_OlderThanDays : Z;
  dr_From : string;
  dr_To : string;
  dr_FreeBytesTarget : Z;
  dr_DryRun : bool
}.

Record DeleteResult := mkDeleteResult {
  res_Segments : Z; res_Clips : Z; res_Snapshots : Z; res_Bytes : Z; res_Cameras : list string
}.

Inductive DeleteError :=
| CameraRequired (target : string)
| WindowRequired (target : string)
| FreeBytesNotPositive
| FreeBytesTakesNoScope
| InvalidTarget (target : string)
| BothWindows
| HalfRange
| InvalidFrom
| InvalidTo
| ToBeforeFrom
| ErrOpenSegmentProtected (Paths : list string).

Definition is_empty (s : string) : bool := String.eqb s "".

Definition hasWindow (req : DeleteRequest) : bool :=
  (0 <? dr_OlderThanDays req) || (negb (is_empty (dr_From req)) && negb (is_empty (dr_To req))).

(** The target's own requirements. *)
Definition validate_target (req : DeleteRequest) : result DeleteError unit :=
  let t := dr_Target req in
  if String.eqb t "segments" || String.eqb t "all" then
    if is_empty (dr_Camera req) then Err (CameraRequired t)
    else if negb (hasWindow req) then Err (WindowRequired t) else Ok tt
  else if String.eqb t "clips" then
    if is_empty (dr_Camera req) then Err (CameraRequired t) else Ok tt
  else if String.eqb t "free_bytes" then
    if dr_FreeBytesTarget req <=? 0 then Err FreeBytesNotPositive
    else if negb (is_empty (dr_Camera req)) || hasWindow req then Err FreeBytesTakesNoScope else Ok tt
  else Err (InvalidTarget t).

Definition validateDeleteRequest (req : DeleteRequest) : result DeleteError unit :=
  let? _ := validate_target req in
  let hasOTD := 0 <? dr_OlderThanDays req in
  let hasRange := negb (is_empty (dr_From req)) && negb (is_empty (dr_To req)) in
  if hasOTD && hasRange then Err BothWindows
  else if negb (Bool.eqb (negb (is_empty (dr_From req))) (negb (is_empty (dr_To req)))) then Err HalfRange
  else Ok tt.

(** [time.Parse] with the layout [2006-01-02]: midnight UTC of a valid date. *)
Definition digit (c : ascii) : option Z :=
  let n := Z.of_nat (nat_of_ascii c) in if (48 <=? n) && (n <=? 57) then Some (n - 48) else None.

Definition two_digits (a b : ascii) : option Z :=
  match digit a, digit b with Some x, Some y => Some (10 * x + y) | _, _ => None end.

Definition is_leap (y : Z) : bool := (y mod 4 =? 0) && (negb (y mod 100 =? 0) || (y mod 400 =? 0)).

Definition days_in (m y : Z) : Z :=
  if m =? 2 then if is_leap y then 29 else 28
  else if (m =? 4) || (m =? 6) || (m =? 9) || (m =? 11) then 30 else 31.

(** Days from 1 January of year 1. *)
Definition days_before (y m : Z) : Z :=
  365 * (y - 1) + (y - 1) / 4 - (y - 1) / 100 + (y - 1) / 400 +
  fold_left Z.add ((fun k => days_in (Z.of_nat k) y) <$> seq 1 (Z.to_nat (m - 1))) 0.

Definition Day : Z := 24 * Hour.

Definition parse_day (s : string) : option Z :=
  match Stdlib.Strings.String.list_ascii_of_string s with
  | [y1; y2; y3; y4; s1; m1; m2; s2; d1; d2] =>
      if Ascii.eqb s1 "-" && Ascii.eqb s2 "-" then
        match two_digits y1 y2, two_digits y3 y4, two_digits m1 m2, two_digits d1 d2 with
        | Some ya, Some yb, Some m, Some d =>
            let y := 100 * ya + yb in
            if (1 <=? m) && (m <=? 12) && (1 <=? d) && (d <=? days_in m y)
            then Some ((days_before y m + (d - 1)) * Day) else None
        | _, _, _, _ => None
        end
      else None
  | _ => None
  end.

(** [time.Unix(0, 0)]. *)
Definition unix_epoch : Z := 62135596800 * Second.

Definition resolveWindow (now : Z) (req : DeleteRequest) : result DeleteError (Z * Z) :=
  if 0 <? dr_OlderThanDays req then Ok (unix_epoch, now - dr_OlderThanDays req * Day)
  else match parse_day (dr_From req) with
       | None => Err InvalidFrom
       | Some fromDay =>
           match parse_day (dr_To req) with
           | None => Err InvalidTo
           | Some toDay => if Before toDay fromDay then Err ToBeforeFrom else Ok (fromDay, toDay + Day)
           end
       end.

Definition pathSet (open : list CurrentSegment) : gset string := list_to_set (cs_Path <$> open).

(** [None]: the error [os.Remove] returned. *)
Definition removeSegmentFile (path : string) (d : Disk) : option Disk :=
  match os_Remove path d with (_, RemoveError) => None | (d, _) => Some d end.

Record Progress := mkProgress { p_world : World; p_segments : Z; p_bytes : Z; p_cameras : gset string }.

(** One selected segment that is not open: counted on a dry run, else removed and
    counted when it was. *)
Definition delete_one (dryRun : bool) (s : SegmentRecord) (p : Progress) : Progress :=
  let counted w := mkProgress w (i64 (p_segments p + 1)) (i64 (p_bytes p + sg_SizeBytes s))
    ({[sg_Camera s]} ∪ p_cameras p) in
  if dryRun then counted (p_world p)
  else match removeSegmentFile (sg_Path s) (disk (p_world p)) with
       | Some d => counted (mkWorld d (DeleteSegmentByID (sg_ID s) (segs (p_world p))))
       | None => p
       end.

Fixpoint delete_selected (dryRun : bool) (openPaths : gset string) (selected : list SegmentRecord)
    (p : Progress) : Progress :=
  match selected with
  | [] => p
  | s :: selected =>
      if bool_decide (sg_Path s ∈ openPaths) then delete_selected dryRun openPaths selected p
      else delete_selected dryRun openPaths selected (delete_one dryRun s p)
  end.

Definition protected_paths (openPaths : gset string) (selected : list SegmentRecord) : list string :=
  filter (fun p => p ∈ openPaths) (sg_Path <$> selected).

Definition deleteSegmentsScoped (now : Z) (req : DeleteRequest) (openPaths : gset string) (w : World)
    : World * result DeleteError DeleteResult :=
  match resolveWindow now req with
  | Err e => (w, Err e)
  | Ok (from, to) =>
      let selected := SegmentsByCameraInRange (dr_Camera req) from to (segs w) in
      let p := delete_selected (dr_DryRun req) openPaths selected (mkProgress w 0 0 ∅) in
      let protected := protected_paths openPaths selected in
      match protected with
      | _ :: _ => if dr_DryRun req
                  then (p_world p, Ok (mkDeleteResult (p_segments p) 0 0 (p_bytes p) [dr_Camera req]))
                  else (p_world p, Err (ErrOpenSegmentProtected protected))
      | [] => (p_world p, Ok (mkDeleteResult (p_segments p) 0 0 (p_bytes p) [dr_Camera req]))
      end
  end.

Definition deleteFreeBytes (req : DeleteRequest) (openPaths : gset string) (w : World)
    : World * result DeleteError DeleteResult :=
  let selected := OldestSegmentsUntilBytes (dr_FreeBytesTarget req) (segs w) in
  let p := delete_selected (dr_DryRun req) openPaths selected (mkProgress w 0 0 ∅) in
  (p_world p, Ok (mkDeleteResult (p_segments p) 0 0 (p_bytes p)
     (merge_sort String.le (elements (p_cameras p))))).

(** ** Disk thresholds *)

Definition thresholdCacheInterval : Z := 5 * Minute.
Definition defaultStaticFloor : Z := 256 * 1024 * 1024.

(** The threshold half of [media.DiskSpace]. *)
Record DiskSpace := mkDiskSpace {
  staticFloor : Z; ds_has_provider : bool; cachedMin : Z; thresholdTime : Z
}.

Definition NewDiskSpace : DiskSpace := mkDiskSpace defaultStaticFloor false 0 0.

Definition SetThreshold (floor : Z) (has_provider : bool) (ds : DiskSpace) : DiskSpace :=
  mkDiskSpace (if floor =? 0 then defaultStaticFloor else floor) has_provider 0 0.

(** [largest]: what the provider answers about the last hour. *)
Definition MinRequired (now : Z) (largest : result string Z) (ds : DiskSpace) : DiskSpace * Z :=
  if (0 <? cachedMin ds) && (Sub now (thresholdTime ds) <? thresholdCacheInterval) then (ds, cachedMin ds)
  else
    let min := staticFloor ds in
    let min := if ds_has_provider ds then
        match largest with
        | Ok largest => if (0 <? largest) && (min <? u64 (u64 largest * 2)) then u64 (u64 largest * 2) else min
        | Err _ => min
        end
      else min in
    (mkDiskSpace (staticFloor ds) (ds_has_provider ds) min now, min).

Inductive DiskLevel := DiskLevelOK | DiskLevelWarning | DiskLevelCritical | DiskLevelPaused.

#[global] Instance DiskLevel_eq_dec : EqDecision DiskLevel.
Proof. solve_decision. Defined.

Definition DiskLevel_String (l : DiskLevel) : string :=
  match l with
  | DiskLevelOK => "ok" | DiskLevelWarning => "warning" | DiskLevelCritical => "critical" | DiskLevelPaused => "paused"
  end%string.

(** One reading of the sampler. *)
Record Sample := mkSample { s_Available : Z; s_MinRequired : Z; s_Total : Z }.

Record DiskEvent := mkDiskEvent { de_Level : DiskLevel; de_Available : Z; de_Total : Z }.

(** A subscriber's buffered channel. *)
Record Subscriber := mkSubscriber { buffered : list DiskEvent; capacity : nat }.

Record DiskMonitor := mkDiskMonitor { paused : bool; lastLevel : DiskLevel; subscribers : list Subscriber }.

Definition NewDiskMonitor : DiskMonitor := mkDiskMonitor false DiskLevelOK [].

Definition Classify (s : Sample) (m : DiskMonitor) : DiskLevel :=
  if paused m then DiskLevelPaused
  else if s_Available s <? s_MinRequired s then DiskLevelCritical
  else if s_Available s <? u64 (2 * s_MinRequired s) then DiskLevelWarning
  else DiskLevelOK.

Definition SetPaused (b : bool) (m : DiskMonitor) : DiskMonitor := mkDiskMonitor b (lastLevel m) (subscribers m).

Definition Subscribe (cap : nat) (m : DiskMonitor) : DiskMonitor :=
  mkDiskMonitor (paused m) (lastLevel m) (subscribers m ++ [mkSubscriber [] cap]).

(** A non-blocking send: dropped when the buffer is full. *)
Definition try_send (ev : DiskEvent) (c : Subscriber) : Subscriber :=
  if (length (buffered c) <? capacity c)%nat then mkSubscriber (buffered c ++ [ev]) (capacity c) else c.

(** The sampler is read once to classify and again ([s']) to fill the event. *)
Definition sampleOnce (s s' : Sample) (m : DiskMonitor) : DiskMonitor :=
  let level := Classify s m in
  if bool_decide (level = lastLevel m) then m
  else mkDiskMonitor (paused m) level
    (try_send (mkDiskEvent level (s_Available s') (s_Total s')) <$> subscribers m).

Example parse_day_leap : parse_day "2024-02-29" = Some (738944 * Day).
Proof. vm_compute. reflexivity. Qed.

Example parse_day_epoch : parse_day "1970-01-01" = Some unix_epoch.
Proof. vm_compute. reflexivity. Qed.

Example parse_day_bad : parse_day "2023-02-29" = None.
Proof. vm_compute. reflexivity. Qed.
