(* ===== verification/RetentionLemmas.v ===== *)
(** What removing segments does to the files and the table, and the loops that remove
    them: each is specified by the list of the segments it removed. *)

From S2P Require Import Prelude SegmentStore Retention.

Definition total_bytes (rows : list SegmentRecord) : Z := foldr (fun r n => sg_SizeBytes r + n) 0 rows.

Lemma total_bytes_app l1 l2 : total_bytes (l1 ++ l2) = total_bytes l1 + total_bytes l2.
Proof. induction l1; simpl; lia. Qed.

#[global] Instance total_bytes_perm : Proper ((≡ₚ) ==> (=)) total_bytes.
Proof. induction 1; simpl; lia. Qed.

Lemma total_bytes_nonneg rows : Forall (fun r => 0 <= sg_SizeBytes r) rows -> 0 <= total_bytes rows.
Proof. induction 1; simpl; lia. Qed.

(** The world [w'] is [w] less the segments [gone]: their rows and their files. *)
Record less (w w' : World) (gone : list SegmentRecord) : Prop := {
  less_rows : sg_rows (segs w) ≡ₚ gone ++ sg_rows (segs w');
  less_seq : sg_seq (segs w') = sg_seq (segs w);
  less_sealed : sealed (disk w') = sealed (disk w);
  less_removable : Forall (fun r => sg_Path r ∉ sealed (disk w)) gone;
  less_files : files (disk w') = foldr (fun r => delete (sg_Path r)) (files (disk w)) gone;
}.

Lemma less_refl w : less w w [].
Proof. by split. Qed.

Lemma files_delete_comm p (l : list SegmentRecord) (m : gmap string FileInfo) :
  foldr (fun r => delete (sg_Path r)) (delete p m) l = delete p (foldr (fun r => delete (sg_Path r)) m l).
Proof. induction l as [|r l IH]; simpl; [done|]. rewrite IH. apply delete_delete. Qed.

Lemma files_delete_app (l1 l2 : list SegmentRecord) (m : gmap string FileInfo) :
  foldr (fun r => delete (sg_Path r)) (foldr (fun r => delete (sg_Path r)) m l1) l2 =
  foldr (fun r => delete (sg_Path r)) m (l1 ++ l2).
Proof. induction l1 as [|r l IH]; simpl; [done|]. by rewrite files_delete_comm, IH. Qed.

Lemma less_trans w1 w2 w3 g1 g2 : less w1 w2 g1 -> less w2 w3 g2 -> less w1 w3 (g1 ++ g2).
Proof.
  intros [R1 S1 D1 F1 M1] [R2 S2 D2 F2 M2]. split.
  - rewrite R1, R2. by rewrite app_assoc.
  - congruence.
  - congruence.
  - apply Forall_app. split; [done|]. by rewrite <- D1.
  - by rewrite M2, M1, files_delete_app.
Qed.

Lemma less_ok w w' gone : less w w' gone -> table_ok (segs w) -> table_ok (segs w').
Proof.
  intros [R S D F M] [H1 H2 H3 H4]. rewrite R in H1, H2, H3. rewrite fmap_app in H1. rewrite fmap_app in H2.
  apply NoDup_app in H1 as (_ & _ & H1). apply NoDup_app in H2 as (_ & _ & H2).
  apply Forall_app in H3 as [_ H3]. split; try done; by rewrite S.
Qed.

Lemma less_in w w' gone s : less w w' gone -> s ∈ sg_rows (segs w) -> s ∉ gone -> s ∈ sg_rows (segs w').
Proof. intros [R _ _ _ _]. rewrite R. intros [?|?]%elem_of_app; done. Qed.

(** Rows of a well-formed table with the same path are the same row. *)
Lemma same_path_eq t r s : table_ok t -> r ∈ sg_rows t -> s ∈ sg_rows t -> sg_Path r = sg_Path s -> r = s.
Proof.
  intros [_ Hp _ _] Hr Hs E. apply list_elem_of_lookup in Hr as [i Hi], Hs as [j Hj].
  assert (i = j) as <-.
  { eapply (NoDup_lookup _ _ _ _ Hp); rewrite list_lookup_fmap; [by rewrite Hi|by rewrite Hj, E]. }
  congruence.
Qed.

Lemma same_id_eq t r s : table_ok t -> r ∈ sg_rows t -> s ∈ sg_rows t -> sg_ID r = sg_ID s -> r = s.
Proof.
  intros [Hp _ _ _] Hr Hs E. apply list_elem_of_lookup in Hr as [i Hi], Hs as [j Hj].
  assert (i = j) as <-.
  { eapply (NoDup_lookup _ _ _ _ Hp); rewrite list_lookup_fmap; [by rewrite Hi|by rewrite Hj, E]. }
  congruence.
Qed.

Lemma rows_NoDup t : table_ok t -> NoDup (sg_rows t).
Proof. intros H. by apply (NoDup_fmap_1 sg_ID), H. Qed.

Lemma filter_all {A} (P : A -> Prop) `{!forall x, Decision (P x)} (l : list A) : Forall P l -> filter P l = l.
Proof. induction 1; [done|]. rewrite filter_cons_True by done. by f_equal. Qed.

(** Filtering one row out of a list without duplicates. *)
Lemma filter_out_one (P : SegmentRecord -> Prop) `{!forall r, Decision (P r)} (s : SegmentRecord) l :
  NoDup l -> s ∈ l -> ~ P s -> (forall r, r ∈ l -> r <> s -> P r) -> l ≡ₚ s :: filter P l.
Proof.
  induction l as [|r l IH]; intros Hnd Hs HPs Hothers; [by apply elem_of_nil in Hs|].
  apply NoDup_cons in Hnd as [Hr Hnd]. rewrite filter_cons. case_decide as HP.
  - apply elem_of_cons in Hs as [->|Hs]; [done|]. rewrite Permutation_swap. constructor.
    apply IH; try done. intros x Hx. apply Hothers. by right.
  - assert (r = s) as ->.
    { destruct (decide (sg_ID r = sg_ID s)) as [E|E].
      - apply elem_of_cons in Hs as [->|Hs]; [done|]. exfalso. apply HP. apply Hothers; [left|]. by intros ->.
      - exfalso. apply HP, Hothers; [left|]. by intros ->. }
    constructor. rewrite filter_all; [done|]. apply Forall_forall.
    intros x Hx. apply Hothers; [by right|]. by intros ->.
Qed.

Lemma os_Remove_sealed path d : sealed (os_Remove path d).1 = sealed d.
Proof. unfold os_Remove. case_bool_decide; [done|]. by case_match. Qed.

Lemma os_Remove_error path d : path ∈ sealed d -> os_Remove path d = (d, RemoveError).
Proof. intros H. unfold os_Remove. by rewrite bool_decide_eq_true_2. Qed.

Lemma os_Remove_done path d : path ∉ sealed d ->
  exists o, os_Remove path d = (mkDisk (delete path (files d)) (sealed d), o) /\ o <> RemoveError.
Proof.
  intros H. unfold os_Remove. rewrite bool_decide_eq_false_2 by done. destruct (files d !! path) eqn:E.
  - by eexists.
  - exists NotExist. split; [|done]. rewrite delete_id by done. by destruct d.
Qed.

Lemma RemoveSegment_less s w :
  table_ok (segs w) -> s ∈ sg_rows (segs w) -> sg_Path s ∉ sealed (disk w) ->
  exists w', RemoveSegment (sg_Path s) w = (w', RemoveOk) /\ less w w' [s].
Proof.
  intros Hok Hs Hp. unfold RemoveSegment. destruct (os_Remove_done _ _ Hp) as (o & -> & Ho).
  exists (mkWorld (mkDisk (delete (sg_Path s) (files (disk w))) (sealed (disk w))) (DeleteSegment (sg_Path s) (segs w))).
  split; [by destruct o|]. split; cbn; try done; [|by constructor].
  apply filter_out_one; try done; [by apply rows_NoDup|tauto|].
  intros r Hr Hne E. apply Hne. by apply (same_path_eq (segs w)).
Qed.

Lemma RemoveSegment_sealed s w : sg_Path s ∈ sealed (disk w) -> RemoveSegment (sg_Path s) w = (w, RemoveFailed).
Proof. intros Hp. unfold RemoveSegment. by rewrite os_Remove_error. Qed.

(** ** Age-based retention *)

(** A selected row passes the check against its camera's own window. *)
Definition past_override (r : Recorder) (now : Z) (s : SegmentRecord) : Prop :=
  match rc_cameraRetention r !! sg_Camera s with
  | Some days => sg_EndTime s <= cutoff_of now days
  | None => True
  end.

#[global] Instance past_override_dec r now s : Decision (past_override r now s).
Proof. unfold past_override. destruct (_ !! _); apply _. Defined.

(** A step of the loop: the row goes unless its camera keeps it or its file stays. *)
Lemma clean_step r now s w seen expired :
  table_ok (segs w) -> s ∈ sg_rows (segs w) -> sg_Path s ∉ seen ->
  exists w' g, clean_loop r now seen (s :: expired) w = clean_loop r now ({[sg_Path s]} ∪ seen) expired w' /\
    less w w' g /\ (forall x, x ∈ g <-> x = s /\ past_override r now s /\ sg_Path s ∉ sealed (disk w)).
Proof.
  intros Hok Hs Hseen. cbn [clean_loop]. rewrite bool_decide_eq_false_2 by done.
  assert (forall P : Prop, P <-> past_override r now s ->
    exists w' g, RemoveSegment (sg_Path s) w = (w', (RemoveSegment (sg_Path s) w).2) /\ less w w' g /\
      (P -> forall x, x ∈ g <-> x = s /\ P /\ sg_Path s ∉ sealed (disk w))) as Hrm.
  { intros P HP. destruct (decide (sg_Path s ∈ sealed (disk w))) as [Hin|Hout].
    - exists w, []. rewrite RemoveSegment_sealed by done. split; [done|]. split; [apply less_refl|].
      intros _ x. rewrite elem_of_nil. tauto.
    - destruct (RemoveSegment_less s w Hok Hs Hout) as (w' & E & L). exists w', [s]. rewrite E.
      split; [done|]. split; [done|]. intros HPs x. rewrite list_elem_of_singleton. tauto. }
  unfold past_override in *. destruct (rc_cameraRetention r !! sg_Camera s) as [days|].
  - unfold After. destruct (Z.ltb_spec (cutoff_of now days) (sg_EndTime s)).
    + exists w, []. split; [done|]. split; [apply less_refl|]. intros x. rewrite elem_of_nil. lia.
    + destruct (Hrm _ (iff_refl _)) as (w' & g & E & L & HG). exists w', g. rewrite E. split; [done|]. split; [done|]. by apply HG.
  - destruct (Hrm _ (iff_refl _)) as (w' & g & E & L & HG). exists w', g. rewrite E. split; [done|]. split; [done|]. by apply HG.
Qed.

Lemma clean_loop_less r now expired : forall seen w,
  table_ok (segs w) ->
  (forall s, s ∈ expired -> sg_Path s ∉ seen -> s ∈ sg_rows (segs w)) ->
  (forall s s', s ∈ expired -> s' ∈ expired -> sg_Path s = sg_Path s' -> s = s') ->
  exists gone, less w (clean_loop r now seen expired w) gone /\
    forall s, s ∈ gone <->
      s ∈ expired /\ sg_Path s ∉ seen /\ past_override r now s /\ sg_Path s ∉ sealed (disk w).
Proof.
  induction expired as [|e expired IH]; intros seen w Hok Hin Huniq.
  - exists []. split; [apply less_refl|]. intros s. rewrite elem_of_nil. tauto.
  - destruct (decide (sg_Path e ∈ seen)) as [Hs|Hs].
    + cbn [clean_loop]. rewrite bool_decide_eq_true_2 by done.
      destruct (IH seen w Hok) as (gone & L & HG).
      { intros s Hse. apply Hin. by right. }
      { intros s s' H1 H2. apply Huniq; by right. }
      exists gone. split; [done|]. intros s. rewrite HG, elem_of_cons. naive_solver.
    + assert (e ∈ sg_rows (segs w)) as He by (apply Hin; [left|done]).
      destruct (clean_step r now e w seen expired Hok He Hs) as (w' & g & -> & L1 & HG1).
      pose proof (less_ok _ _ _ L1 Hok) as Hok'.
      destruct (IH ({[sg_Path e]} ∪ seen) w' Hok') as (gone & L & HG).
      { intros s Hse Hns. rewrite not_elem_of_union, not_elem_of_singleton in Hns.
        apply (less_in _ _ _ _ L1); [apply Hin; [by right|tauto]|]. rewrite HG1. intros [-> _]. tauto. }
      { intros s s' H1 H2. apply Huniq; by right. }
      exists (g ++ gone). split; [by eapply less_trans|]. intros s. rewrite elem_of_app, HG1, HG, elem_of_cons.
      rewrite (less_sealed _ _ _ L1), not_elem_of_union, not_elem_of_singleton.
      split.
      * intros [(-> & ? & ?)|(? & [? ?] & ? & ?)]; split_and!; try done; [by left|by right].
      * intros ([->|Hse] & ? & ? & ?); [by left|].
        destruct (decide (sg_Path s = sg_Path e)) as [E|E]; [|right; tauto].
        left. assert (s = e) as -> by (apply Huniq; [by right|by left|done]). done.
Qed.

Lemma elem_of_expired_rows r now t s :
  s ∈ expired_rows r now t <->
  s ∈ sg_rows t /\
  ((0 < rc_RetainDays r /\ sg_EndTime s < cutoff_of now (rc_RetainDays r)) \/
   exists days, rc_cameraRetention r !! sg_Camera s = Some days /\
     (0 < rc_RetainDays r -> cutoff_of now (rc_RetainDays r) < cutoff_of now days) /\
     sg_EndTime s < cutoff_of now days).
Proof.
  unfold expired_rows, GetSegmentsEndingBefore, GetSegmentsEndingBeforeForCamera, After.
  rewrite elem_of_app, list_elem_of_bind. split.
  - intros [H|([cam days] & H & Hcd)].
    + destruct (Z.ltb_spec 0 (rc_RetainDays r)); [|by apply elem_of_nil in H].
      apply merge_sort_elem_of, list_elem_of_filter in H as [H1 H2]. tauto.
    + apply elem_of_map_to_list in Hcd. cbn [fst snd] in H.
      destruct (Z.ltb_spec 0 (rc_RetainDays r)), (Z.ltb_spec (cutoff_of now (rc_RetainDays r)) (cutoff_of now days));
        cbn in H; try (by apply elem_of_nil in H);
        apply merge_sort_elem_of, list_elem_of_filter in H as [[<- Hend] Hrow];
        (split; [done|]; right; exists days; split_and!; [done|lia|done]).
  - intros [Hs [[Hg He]|(days & Hcd & Hor & He)]].
    + left. destruct (Z.ltb_spec 0 (rc_RetainDays r)); [|lia]. by apply merge_sort_elem_of, list_elem_of_filter.
    + right. exists (sg_Camera s, days). rewrite elem_of_map_to_list. split; [|done]. cbn [fst snd].
      destruct (Z.ltb_spec 0 (rc_RetainDays r)), (Z.ltb_spec (cutoff_of now (rc_RetainDays r)) (cutoff_of now days));
        cbn; try (by apply merge_sort_elem_of, list_elem_of_filter); lia.
Qed.

(** The whole pass. *)
Lemma cleanSegments_less r now w :
  table_ok (segs w) ->
  exists gone, less w (cleanSegments r now w) gone /\
    forall s, s ∈ gone <-> s ∈ expired_rows r now (segs w) /\ past_override r now s /\ sg_Path s ∉ sealed (disk w).
Proof.
  intros Hok. destruct (clean_loop_less r now (expired_rows r now (segs w)) ∅ w Hok) as (gone & L & HG).
  - intros s [Hs _]%elem_of_expired_rows _. done.
  - intros s s' [H1 _]%elem_of_expired_rows [H2 _]%elem_of_expired_rows. by apply (same_path_eq (segs w)).
  - exists gone. split; [done|]. intros s. rewrite HG. set_solver.
Qed.

(** ** The storage cap *)

(** The recorded total follows the rows as long as the sizes are sane. *)
Definition sizes_ok (rows : list SegmentRecord) : Prop :=
  Forall (fun r => 0 <= sg_SizeBytes r) rows /\ total_bytes rows <= max_int64.

Lemma sizes_ok_less w w' gone : less w w' gone -> sizes_ok (sg_rows (segs w)) -> sizes_ok (sg_rows (segs w')).
Proof.
  intros [R _ _ _ _] [Hs Ht]. rewrite R in Hs. rewrite R, total_bytes_app in Ht.
  apply Forall_app in Hs as [H1 H2]. pose proof (total_bytes_nonneg _ H1). split; [done|lia].
Qed.

Lemma sum_steps rows : forall acc, 0 <= acc -> Forall (fun r => 0 <= sg_SizeBytes r) rows ->
  acc + total_bytes rows <= max_int64 -> fold_left sum_step (sg_SizeBytes <$> rows) (Ok acc) = Ok (acc + total_bytes rows).
Proof.
  induction rows as [|r rows IH]; intros acc Ha Hs Ht; cbn [fmap list_fmap fold_left total_bytes foldr] in *.
  - f_equal. lia.
  - apply Forall_cons in Hs as [Hr Hs]. pose proof (total_bytes_nonneg _ Hs). fold (total_bytes rows) in *.
    unfold sum_step at 2. cbn [rbind]. rewrite (proj2 (Z.leb_le min_int64 _)) by (unfold min_int64; lia).
    rewrite (proj2 (Z.leb_le _ max_int64)) by lia. cbn [andb]. rewrite IH by (try done; lia). f_equal. lia.
Qed.

Lemma TotalStorageBytes_sum t : sizes_ok (sg_rows t) -> TotalStorageBytes t = Ok (total_bytes (sg_rows t)).
Proof. intros [Hs Ht]. unfold TotalStorageBytes. rewrite sum_steps by (try done; lia). f_equal. Qed.

(** The last of the removed segments was needed to get under the cap. *)
Definition all_needed (cap : Z) (gone : list SegmentRecord) (left_ : Z) : Prop :=
  match last gone with Some s => cap < left_ + sg_SizeBytes s | None => True end.

Lemma cap_batch_less cap oldest : forall w,
  table_ok (segs w) -> sizes_ok (sg_rows (segs w)) -> Forall (fun r => sg_Path r ∉ sealed (disk w)) oldest ->
  NoDup oldest -> (forall s, s ∈ oldest -> s ∈ sg_rows (segs w)) ->
  exists gone rest w', oldest = gone ++ rest /\ less w w' gone /\
    cap_batch cap oldest (total_bytes (sg_rows (segs w))) w = (total_bytes (sg_rows (segs w')), w') /\
    (rest = [] \/ total_bytes (sg_rows (segs w')) <= cap) /\
    all_needed cap gone (total_bytes (sg_rows (segs w'))).
Proof.
  induction oldest as [|s oldest IH]; intros w Hok Hsz Hun Hnd Hin; cbn [cap_batch].
  - exists [], [], w. split_and!; first [done | apply less_refl | by left].
  - destruct (Z.leb_spec (total_bytes (sg_rows (segs w))) cap).
    + exists [], (s :: oldest), w. split_and!; first [done | apply less_refl | by right].
    + apply Forall_cons in Hun as [Hp Hun]. apply NoDup_cons in Hnd as [Hs Hnd].
      assert (s ∈ sg_rows (segs w)) as Hsr by (apply Hin; left).
      destruct (RemoveSegment_less s w Hok Hsr Hp) as (w1 & -> & L1).
      pose proof (less_ok _ _ _ L1 Hok) as Hok1. pose proof (sizes_ok_less _ _ _ L1 Hsz) as Hsz1.
      assert (i64 (total_bytes (sg_rows (segs w)) - sg_SizeBytes s) = total_bytes (sg_rows (segs w1))) as ->.
      { rewrite (less_rows _ _ _ L1). cbn. destruct Hsz1 as [Hs1 Ht1]. pose proof (total_bytes_nonneg _ Hs1).
        rewrite i64_small by (unfold min_int64; fold (total_bytes (sg_rows (segs w1))); lia).
        fold (total_bytes (sg_rows (segs w1))). lia. }
      destruct (IH w1 Hok1 Hsz1) as (gone & rest & w' & -> & L & -> & Hor & Hn).
      { by rewrite (less_sealed _ _ _ L1). }
      { done. }
      { intros x Hx. apply (less_in _ _ _ _ L1); [apply Hin; by right|]. intros ->%list_elem_of_singleton. done. }
      exists (s :: gone), rest, w'. split_and!; try done; [by apply (less_trans _ _ _ [s] gone L1 L)|].
      unfold all_needed in *. destruct gone as [|g gone]; [|by rewrite last_cons_cons].
      cbn. pose proof (less_rows _ _ _ L) as R. cbn in R. rewrite <- R.
      rewrite (less_rows _ _ _ L1) in H. cbn in H. fold (total_bytes (sg_rows (segs w1))) in H. lia.
Qed.

Lemma StronglySorted_app_inv {A} (R : A -> A -> Prop) l1 l2 :
  StronglySorted R (l1 ++ l2) ->
  StronglySorted R l1 /\ StronglySorted R l2 /\ (forall x y, x ∈ l1 -> y ∈ l2 -> R x y).
Proof.
  induction l1 as [|a l1 IH]; cbn [app]; intros H.
  - split_and!; [constructor|done|]. intros x y Hx. by apply elem_of_nil in Hx.
  - inversion H as [|? ? Hss Hall]; subst. destruct (IH Hss) as (H1 & H2 & H3).
    apply Forall_app in Hall as [Ha1 Ha2]. split_and!; [by constructor|done|].
    intros x y [->|Hx]%elem_of_cons Hy; [|by apply H3]. rewrite Forall_forall in Ha2. by apply Ha2.
Qed.

Lemma StronglySorted_app_intro {A} (R : A -> A -> Prop) l1 l2 :
  StronglySorted R l1 -> StronglySorted R l2 -> (forall x y, x ∈ l1 -> y ∈ l2 -> R x y) ->
  StronglySorted R (l1 ++ l2).
Proof.
  induction 1 as [|a l1 Hss IH Hall]; intros H2 H3; cbn [app]; [done|]. constructor.
  - apply IH; [done|]. intros x y Hx. apply H3. by right.
  - apply Forall_app. split; [done|]. apply Forall_forall. intros y Hy. apply H3; [left|done].
Qed.

(** [gone] are the oldest of the rows, oldest first. *)
Definition oldest_first (gone left_ : list SegmentRecord) : Prop :=
  StronglySorted start_le gone /\ forall g k, g ∈ gone -> k ∈ left_ -> start_le g k.

Lemma limit_split {A} (l : list A) n : exists rest, l = limit n l ++ rest.
Proof.
  unfold limit. destruct (n <? 0).
  - exists []. by rewrite app_nil_r.
  - exists (drop (Z.to_nat n) l). by rewrite take_drop.
Qed.

Lemma limit_length {A} (l : list A) n : 0 <= n -> Z.of_nat (length (limit n l)) <= n.
Proof. intros Hn. unfold limit. destruct (Z.ltb_spec n 0); [lia|]. rewrite length_take. lia. Qed.

Lemma limit_nil {A} (l : list A) n : limit n l = [] -> 0 < n -> l = [].
Proof.
  unfold limit. destruct (Z.ltb_spec n 0); [lia|]. intros Hl Hn. destruct l; [done|].
  destruct (Z.to_nat n) eqn:E; [lia|done].
Qed.

Lemma merge_sort_start_sorted rows : StronglySorted start_le (merge_sort start_le rows).
Proof. apply StronglySorted_merge_sort; apply _. Qed.

Lemma cap_loop_less cap fuel : forall w,
  table_ok (segs w) -> sizes_ok (sg_rows (segs w)) ->
  Forall (fun r => sg_Path r ∉ sealed (disk w)) (sg_rows (segs w)) -> 0 <= cap ->
  (length (sg_rows (segs w)) < fuel)%nat ->
  exists gone w', cap_loop fuel cap (total_bytes (sg_rows (segs w))) w = Some w' /\ less w w' gone /\
    total_bytes (sg_rows (segs w')) <= cap /\ oldest_first gone (sg_rows (segs w')) /\
    all_needed cap gone (total_bytes (sg_rows (segs w'))).
Proof.
  induction fuel as [|fuel IH]; intros w Hok Hsz Hun Hcap Hfuel; [lia|]. cbn [cap_loop].
  assert (total_bytes (sg_rows (segs w)) <= cap -> exists gone w', Some w = Some w' /\ less w w' gone /\
    total_bytes (sg_rows (segs w')) <= cap /\ oldest_first gone (sg_rows (segs w')) /\
    all_needed cap gone (total_bytes (sg_rows (segs w')))) as Hdone.
  { intros Hle. exists [], w. split_and!; [done|apply less_refl|done| |done].
    split; [constructor|]. intros g k []%elem_of_nil. }
  destruct (Z.ltb_spec cap (total_bytes (sg_rows (segs w)))) as [Hover|]; [|by apply Hdone].
  destruct (GetOldestSegments 20 (segs w)) as [|o oldest] eqn:Eo.
  - apply limit_nil in Eo; [|done]. apply Hdone. rewrite <- (merge_sort_Permutation start_le), Eo. done.
  - unfold GetOldestSegments in Eo. set (sorted := merge_sort start_le (sg_rows (segs w))) in *.
    destruct (limit_split sorted 20) as [more Hmore]. rewrite Eo in Hmore.
    assert (sorted ≡ₚ sg_rows (segs w)) as Hperm by apply merge_sort_Permutation.
    pose proof (merge_sort_start_sorted (sg_rows (segs w))) as Hss. fold sorted in Hss.
    assert (NoDup sorted) as Hnd by (rewrite Hperm; by apply rows_NoDup).
    rewrite Hmore in Hperm, Hss, Hnd. apply NoDup_app in Hnd as (Hnd & _ & _).
    destruct (cap_batch_less cap (o :: oldest) w Hok Hsz) as (gone & rest & w1 & Eg & L1 & -> & Hor & Hn); try done.
    { apply Forall_forall. intros s Hs. rewrite Forall_forall in Hun. apply Hun. rewrite <- Hperm. apply elem_of_app. by left. }
    { intros s Hs. rewrite <- Hperm. apply elem_of_app. by left. }
    rewrite Eg, <- app_assoc in Hss, Hperm. apply StronglySorted_app_inv in Hss as (Hsg & _ & Hgr).
    assert (sg_rows (segs w1) ≡ₚ rest ++ more) as Hrows.
    { apply (Permutation_app_inv_l gone). rewrite <- (less_rows _ _ _ L1). by rewrite Hperm. }
    destruct (IH w1) as (gone2 & w' & E2 & L2 & Ht & [Hsg2 Hold2] & Hn2).
    { by eapply less_ok. } { by eapply sizes_ok_less. }
    { rewrite (less_sealed _ _ _ L1). rewrite (less_rows _ _ _ L1) in Hun. by apply Forall_app in Hun as [_ ?]. }
    { done. }
    { pose proof (Permutation_length (less_rows _ _ _ L1)) as Hl. rewrite length_app in Hl.
      destruct gone; cbn in Hl; [|lia]. cbn in Eg. subst rest. destruct Hor as [|Hle]; [done|].
      assert (total_bytes (sg_rows (segs w)) = total_bytes (sg_rows (segs w1))) as Heq
        by (apply total_bytes_perm; exact (less_rows _ _ _ L1)).
      lia. }
    exists (gone ++ gone2), w'. split_and!; try done; [by eapply less_trans| |].
    + assert (forall x, x ∈ gone2 \/ x ∈ sg_rows (segs w') -> x ∈ rest ++ more) as Hin.
      { intros x Hx. rewrite <- Hrows, (less_rows _ _ _ L2). by apply elem_of_app. }
      split.
      * apply StronglySorted_app_intro; try done. intros x y Hx Hy. apply Hgr; [done|]. apply Hin. by left.
      * intros g k [Hg|Hg]%elem_of_app Hk; [|by apply Hold2]. apply Hgr; [done|]. apply Hin. by right.
    + unfold all_needed in *. rewrite last_app. destruct (last gone2) eqn:El; [done|].
      apply last_None in El. subst gone2. pose proof (less_rows _ _ _ L2) as R. cbn in R.
      destruct (last gone); [|done]. rewrite <- R. done.
Qed.

(** Nothing can be removed: the loop never ends. *)
Lemma cap_batch_sealed cap oldest total w :
  Forall (fun r => sg_Path r ∈ sealed (disk w)) oldest -> cap_batch cap oldest total w = (total, w).
Proof.
  induction 1 as [|s oldest Hs Hall IH]; cbn [cap_batch]; [done|].
  destruct (_ <=? _); [done|]. rewrite RemoveSegment_sealed by done. done.
Qed.

Lemma cap_loop_diverges cap total fuel w :
  cap < total -> sg_rows (segs w) <> [] ->
  Forall (fun r => sg_Path r ∈ sealed (disk w)) (GetOldestSegments 20 (segs w)) ->
  cap_loop fuel cap total w = None.
Proof.
  intros Hc Hne Hall. induction fuel as [|fuel IH]; [done|]. cbn [cap_loop].
  rewrite (proj2 (Z.ltb_lt cap total)) by done.
  destruct (GetOldestSegments 20 (segs w)) as [|o oldest] eqn:Eo.
  - apply limit_nil in Eo; [|done]. exfalso. apply Hne. apply Permutation_nil_r.
    by rewrite <- (merge_sort_Permutation start_le), Eo.
  - by rewrite cap_batch_sealed.
Qed.

(** ** Emergency deletion *)

Definition removable (w : World) (s : SegmentRecord) : Prop := sg_Path s ∉ sealed (disk w).

#[global] Instance removable_dec w s : Decision (removable w s).
Proof. unfold removable. apply _. Defined.

Lemma filter_removable_less w w' g (l : list SegmentRecord) :
  less w w' g -> filter (removable w') l = filter (removable w) l.
Proof. intros L. apply list_filter_iff. intros s. unfold removable. by rewrite (less_sealed _ _ _ L). Qed.

Section emergency.
Context (cancelled : nat -> bool) (available : nat -> Z) (diskWasLow : bool) (target : Z).

(** Why the loop stopped after [k] candidates with [n] segments deleted. *)
Definition stopped (candidates : list SegmentRecord) (i k n : nat) : Prop :=
  k = length candidates \/ cancelled (i + k)%nat = true \/ (diskWasLow = true /\ target < available n).

Lemma emergency_loop_less candidates : forall i deleted w,
  table_ok (segs w) -> NoDup candidates -> (forall s, s ∈ candidates -> s ∈ sg_rows (segs w)) ->
  exists k w', (k <= length candidates)%nat /\
    less w w' (filter (removable w) (take k candidates)) /\
    emergency_loop cancelled available diskWasLow target i deleted candidates w =
      (w', (deleted + length (filter (removable w) (take k candidates)))%nat) /\
    stopped candidates i k (deleted + length (filter (removable w) (take k candidates)))%nat.
Proof.
  induction candidates as [|s candidates IH]; intros i deleted w Hok Hnd Hin; cbn [emergency_loop].
  - exists 0%nat, w. split_and!; [done|apply less_refl|by rewrite Nat.add_0_r|by left].
  - apply NoDup_cons in Hnd as [Hs Hnd]. destruct (cancelled i) eqn:Ec.
    { exists 0%nat, w. split_and!; [lia|apply less_refl|by rewrite Nat.add_0_r|]. right; left. by rewrite Nat.add_0_r. }
    destruct (decide (removable w s)) as [Hr|Hr].
    + destruct (RemoveSegment_less s w Hok ltac:(apply Hin; left) Hr) as (w1 & -> & L1).
      destruct (diskWasLow && (target <? available (S deleted))) eqn:Elow.
      * exists 1%nat, w1. replace (take 1 (s :: candidates)) with [s] by by destruct candidates.
        rewrite filter_cons_True by done. cbn [length].
        change (filter (removable w) []) with (@nil SegmentRecord). cbn [length]. rewrite Nat.add_1_r.
        split_and!; [lia|done|done|]. apply andb_true_iff in Elow as [? ?%Z.ltb_lt]. right; right.
        done.
      * destruct (IH (S i) (S deleted) w1 (less_ok _ _ _ L1 Hok) Hnd) as (k & w' & Hk & L & -> & Hst).
        { intros x Hx. apply (less_in _ _ _ _ L1); [apply Hin; by right|]. intros ->%list_elem_of_singleton. done. }
        rewrite (filter_removable_less _ _ _ _ L1) in *.
        exists (S k), w'. cbn [take length]. rewrite filter_cons_True by done. cbn [length].
        rewrite <- plus_n_Sm. split_and!; [lia|by apply (less_trans _ _ _ [s] _ L1 L)|done|].
        destruct Hst as [->|[?|?]]; [by left|right; left|right; right; done]. by rewrite <- plus_n_Sm.
    + unfold removable in Hr. rewrite RemoveSegment_sealed by (destruct (decide (sg_Path s ∈ sealed (disk w))); done).
      destruct (IH (S i) deleted w Hok Hnd) as (k & w' & Hk & L & -> & Hst).
      { intros x Hx. apply Hin. by right. }
      exists (S k), w'. cbn [take length]. rewrite filter_cons_False by done.
      split_and!; [lia|done|done|].
      destruct Hst as [->|[?|?]]; [by left|right; left|right; right; done]. by rewrite <- plus_n_Sm.
Qed.
End emergency.

(** ** Deletions a user asks for *)

(** What a deletion takes of the selected segments. *)
Definition taken (openPaths : gset string) (w : World) (selected : list SegmentRecord) : list SegmentRecord :=
  filter (fun s => sg_Path s ∉ openPaths /\ removable w s) selected.

Definition countable (openPaths : gset string) (selected : list SegmentRecord) : list SegmentRecord :=
  filter (fun s => sg_Path s ∉ openPaths) selected.

(** The counters report the segments of [gone]. *)
Definition counts (gone : list SegmentRecord) (n b : Z) (cams : gset string) (p : Progress) : Prop :=
  p_segments p = i64 (n + Z.of_nat (length gone)) /\ p_bytes p = i64 (b + total_bytes gone) /\
  p_cameras p = list_to_set (sg_Camera <$> gone) ∪ cams.

Lemma counts_cons s gone n b p p1 p' :
  p_segments p = i64 n -> p_bytes p = i64 b ->
  p_segments p1 = i64 (p_segments p + 1) -> p_bytes p1 = i64 (p_bytes p + sg_SizeBytes s) ->
  p_cameras p1 = {[sg_Camera s]} ∪ p_cameras p ->
  counts gone (n + 1) (b + sg_SizeBytes s) (p_cameras p1) p' -> counts (s :: gone) n b (p_cameras p) p'.
Proof.
  intros Hn Hb H1 H2 H3 (E1 & E2 & E3). unfold counts. rewrite E1, E2, E3, H3. cbn [length total_bytes foldr fmap list_fmap list_to_set].
  fold (total_bytes gone). split_and!; [f_equal; lia|f_equal; lia|]. set_solver.
Qed.

Lemma removeSegmentFile_sealed path d : path ∈ sealed d -> removeSegmentFile path d = None.
Proof. intros H. unfold removeSegmentFile. by rewrite os_Remove_error. Qed.

Lemma removeSegmentFile_done path d : path ∉ sealed d ->
  removeSegmentFile path d = Some (mkDisk (delete path (files d)) (sealed d)).
Proof. intros H. unfold removeSegmentFile. destruct (os_Remove_done path d H) as (o & -> & Ho). by destruct o. Qed.

Lemma remove_by_id_less s w :
  table_ok (segs w) -> s ∈ sg_rows (segs w) -> removable w s ->
  less w (mkWorld (mkDisk (delete (sg_Path s) (files (disk w))) (sealed (disk w))) (DeleteSegmentByID (sg_ID s) (segs w))) [s].
Proof.
  intros Hok Hs Hp. split; cbn; try done; [|by constructor].
  apply filter_out_one; try done; [by apply rows_NoDup|tauto|].
  intros r Hr Hne E. apply Hne. by apply (same_id_eq (segs w)).
Qed.

Lemma delete_selected_real openPaths selected : forall p n b,
  table_ok (segs (p_world p)) -> NoDup selected -> (forall s, s ∈ selected -> s ∈ sg_rows (segs (p_world p))) ->
  p_segments p = i64 n -> p_bytes p = i64 b ->
  let p' := delete_selected false openPaths selected p in
  let gone := taken openPaths (p_world p) selected in
  less (p_world p) (p_world p') gone /\ counts gone n b (p_cameras p) p'.
Proof.
  induction selected as [|s selected IH]; intros p n b Hok Hnd Hin Hn Hb; cbn [delete_selected].
  - split; [apply less_refl|]. unfold counts. rewrite Hn, Hb. cbn. rewrite !Z.add_0_r, (left_id_L ∅ (∪)). done.
  - apply NoDup_cons in Hnd as [Hs Hnd]. unfold taken in *. case_bool_decide as Hopen.
    { rewrite filter_cons_False by tauto. apply IH; try done. intros x Hx. apply Hin. by right. }
    unfold delete_one. destruct (decide (removable (p_world p) s)) as [Hr|Hr].
    + rewrite filter_cons_True by done. rewrite removeSegmentFile_done by done.
      pose proof (remove_by_id_less s (p_world p) Hok ltac:(apply Hin; left) Hr) as L1.
      set (p1 := mkProgress _ _ _ _).
      destruct (IH p1 (n + 1) (b + sg_SizeBytes s)) as [L C]; try done.
      { by eapply less_ok. }
      { intros x Hx. apply (less_in _ _ _ _ L1); [apply Hin; by right|]. intros ->%list_elem_of_singleton. done. }
      { cbn. rewrite Hn. by autorewrite with vedetta. } { cbn. rewrite Hb. by autorewrite with vedetta. }
      change (filter (fun s => sg_Path s ∉ openPaths /\ removable (p_world p1) s) selected)
        with (filter (fun s => sg_Path s ∉ openPaths /\ removable (p_world p) s) selected) in *.
      split; [by apply (less_trans _ _ _ [s] _ L1 L)|]. by apply (counts_cons _ _ _ _ p p1).
    + rewrite filter_cons_False by tauto. unfold removable in Hr.
      rewrite removeSegmentFile_sealed by (destruct (decide (sg_Path s ∈ sealed (disk (p_world p)))); done).
      apply IH; try done. intros x Hx. apply Hin. by right.
Qed.

Lemma delete_selected_dry openPaths selected : forall p n b,
  p_segments p = i64 n -> p_bytes p = i64 b ->
  let p' := delete_selected true openPaths selected p in
  p_world p' = p_world p /\ counts (countable openPaths selected) n b (p_cameras p) p'.
Proof.
  induction selected as [|s selected IH]; intros p n b Hn Hb; cbn [delete_selected].
  - split; [done|]. unfold counts. rewrite Hn, Hb. cbn. rewrite !Z.add_0_r, (left_id_L ∅ (∪)). done.
  - unfold countable in *. case_bool_decide as Hopen.
    { rewrite filter_cons_False by tauto. by apply IH. }
    rewrite filter_cons_True by done. unfold delete_one. set (p1 := mkProgress _ _ _ _).
    destruct (IH p1 (n + 1) (b + sg_SizeBytes s)) as [W C].
    { cbn. rewrite Hn. by autorewrite with vedetta. } { cbn. rewrite Hb. by autorewrite with vedetta. }
    split; [exact W|]. by apply (counts_cons _ _ _ _ p p1).
Qed.

Lemma taken_unsealed openPaths w selected :
  Forall (removable w) selected -> taken openPaths w selected = countable openPaths selected.
Proof.
  unfold taken, countable. induction 1 as [|s selected Hs _ IH]; [done|].
  destruct (decide (sg_Path s ∈ openPaths)).
  - rewrite !filter_cons_False by tauto. exact IH.
  - rewrite !filter_cons_True by tauto. by f_equal.
Qed.
