(* ===== verification/RetentionTheorems.v ===== *)
(** What freeing space guarantees: which segments go, in which order, when deletion
    stops, and the cases where the code does not do what it says. *)

From S2P Require Import Prelude SegmentStore Retention RetentionLemmas.

(** ** Retention windows *)

(** The window a segment falls under: its camera's override, else the global one when
    it is positive. *)
Definition window_days (r : Recorder) (s : SegmentRecord) : option Z :=
  match rc_cameraRetention r !! sg_Camera s with
  | Some days => Some days
  | None => if 0 <? rc_RetainDays r then Some (rc_RetainDays r) else None
  end.

(** The longest window whose nanoseconds fit an [int64]. *)
Definition max_days : Z := 106751.

Definition windows_ok (r : Recorder) : Prop :=
  rc_RetainDays r <= max_days /\ map_Forall (fun _ days => 0 < days <= max_days) (rc_cameraRetention r).

Lemma cutoff_of_exact now days : 0 < days <= max_days -> cutoff_of now days = now - days * Day.
Proof.
  unfold cutoff_of, Add, max_days, Day, Hour, Minute, Second. intros H.
  rewrite (i64_small (- days)) by (unfold min_int64, max_int64; lia).
  rewrite (i64_small (- days * 24)) by (unfold min_int64, max_int64; lia).
  rewrite i64_small by (unfold min_int64, max_int64; lia). lia.
Qed.

(** C17: with windows that fit an [int64] of nanoseconds, a retention pass removes row
    and file of exactly the segments past their window (the camera's own when it has
    one, longer or shorter than the global one, else the global one): everything that
    ended before the window goes unless the file system refuses, nothing that ended
    within it goes, and without a window nothing goes; every other row and file is
    left as it was. *)
Theorem cleanSegments_exact r now w :
  table_ok (segs w) -> windows_ok r ->
  exists gone, less w (cleanSegments r now w) gone /\
    (forall s, s ∈ gone -> exists days, window_days r s = Some days /\ sg_EndTime s <= now - days * Day) /\
    (forall s days, s ∈ sg_rows (segs w) -> window_days r s = Some days -> sg_EndTime s < now - days * Day ->
       removable w s -> s ∈ gone).
Proof.
  intros Hok [Hg Hcams]. destruct (cleanSegments_less r now w Hok) as (gone & L & HG).
  assert (forall cam days, rc_cameraRetention r !! cam = Some days -> cutoff_of now days = now - days * Day) as Hc.
  { intros cam days E. apply cutoff_of_exact. by apply (Hcams cam). }
  exists gone. split; [done|]. split.
  - intros s Hs. apply HG in Hs as (Hexp & Hov & _). apply elem_of_expired_rows in Hexp as [Hr Hexp].
    unfold window_days, past_override in *. destruct (rc_cameraRetention r !! sg_Camera s) as [days|] eqn:E.
    + exists days. split; [done|]. by rewrite <- (Hc _ _ E).
    + destruct Hexp as [[H0 He]|(? & ? & _)]; [|done]. exists (rc_RetainDays r).
      rewrite (proj2 (Z.ltb_lt 0 (rc_RetainDays r))) by done. split; [done|].
      rewrite <- cutoff_of_exact by (split; done). lia.
  - intros s days Hs Hw He Hrm. apply HG. unfold window_days, past_override in *.
    rewrite elem_of_expired_rows. destruct (rc_cameraRetention r !! sg_Camera s) as [d|] eqn:E.
    + injection Hw as ->. rewrite (Hc _ _ E). split_and!; [done| |lia|done].
      destruct (decide (0 < rc_RetainDays r /\ sg_EndTime s < cutoff_of now (rc_RetainDays r))) as [|Hn]; [by left|].
      right. exists days. rewrite (Hc _ _ E). split_and!; [done|intros; lia|lia].
    + destruct (Z.ltb_spec 0 (rc_RetainDays r)); [|done]. injection Hw as <-. split_and!; [done| |done|done].
      left. rewrite cutoff_of_exact by done. done.
Qed.

(** A window of 106752 days, which the configuration accepts, overflows the
    [int64] of nanoseconds: the cutoff lands in the future and the pass deletes a
    segment that ended this very instant, where the setting asks to keep it for 292
    years. *)
Theorem retain_days_overflow_deletes_everything now s seq fs :
  fs = mkDisk {[sg_Path s := mkFileInfo (sg_SizeBytes s) now]} ∅ -> sg_EndTime s = now ->
  cleanSegments (mkRecorder (max_days + 1) 0 (mkUrgent false 0 0) ∅) now (mkWorld fs (mkSegTable [s] seq)) =
  mkWorld (mkDisk ∅ ∅) (mkSegTable [] seq).
Proof.
  intros -> He. unfold cleanSegments, expired_rows. cbn [rc_RetainDays segs rc_cameraRetention].
  assert (now < cutoff_of now (max_days + 1)) as Hc.
  { unfold cutoff_of, Add. replace (i64 (i64 (i64 (- (max_days + 1)) * 24) * Hour)) with 9223371273709551616
      by (vm_compute; reflexivity). lia. }
  rewrite map_to_list_empty, app_nil_r. cbn [Z.ltb]. change (0 <? max_days + 1) with true.
  unfold GetSegmentsEndingBefore. cbn [sg_rows]. rewrite filter_cons_True by (rewrite He; exact Hc).
  change (filter (fun r => sg_EndTime r < cutoff_of now (max_days + 1)) []) with (@nil SegmentRecord).
  change (merge_sort end_le [s]) with [s]. cbn [clean_loop]. rewrite bool_decide_eq_false_2 by set_solver.
  cbn [rc_cameraRetention]. rewrite lookup_empty. unfold RemoveSegment, os_Remove, DeleteSegment.
  cbn [disk segs sealed files sg_rows sg_seq]. rewrite bool_decide_eq_false_2 by set_solver.
  rewrite lookup_singleton_eq. cbn [fst]. rewrite filter_cons_False by tauto. f_equal. f_equal.
  apply delete_singleton_eq.
Qed.

(** ** The storage cap *)

(** C18: when the file system lets the files go, enforcing the cap terminates within
    one turn per segment, leaves at most the cap, and deletes no more than it must: it
    takes the oldest segments, oldest first, and the last one it took was needed. *)
Theorem enforceStorageCap_minimal r w :
  table_ok (segs w) -> sizes_ok (sg_rows (segs w)) -> Forall (removable w) (sg_rows (segs w)) ->
  0 < rc_MaxStorageBytes r ->
  exists gone w', enforceStorageCap (S (length (sg_rows (segs w)))) r w = Some w' /\ less w w' gone /\
    total_bytes (sg_rows (segs w')) <= rc_MaxStorageBytes r /\ oldest_first gone (sg_rows (segs w')) /\
    all_needed (rc_MaxStorageBytes r) gone (total_bytes (sg_rows (segs w'))).
Proof.
  intros Hok Hsz Hun Hcap. unfold enforceStorageCap.
  destruct (Z.leb_spec (rc_MaxStorageBytes r) 0); [lia|]. rewrite TotalStorageBytes_sum by done.
  destruct (Z.leb_spec (total_bytes (sg_rows (segs w))) (rc_MaxStorageBytes r)).
  - exists [], w. split_and!; [done|apply less_refl|done| |done]. split; [constructor|]. intros g k []%elem_of_nil.
  - apply cap_loop_less; try done; lia.
Qed.

(** When the cap is exceeded and none of the oldest twenty segments can be
    removed, enforcing the cap never returns, whatever the fuel: the loop asks for the
    same segments for ever, holding the lock every other segment operation needs. *)
Theorem enforceStorageCap_diverges r w :
  sizes_ok (sg_rows (segs w)) -> 0 < rc_MaxStorageBytes r < total_bytes (sg_rows (segs w)) ->
  Forall (fun s => ~ removable w s) (GetOldestSegments 20 (segs w)) ->
  forall fuel, enforceStorageCap fuel r w = None.
Proof.
  intros Hsz Hc Hall fuel. unfold enforceStorageCap.
  destruct (Z.leb_spec (rc_MaxStorageBytes r) 0); [lia|]. rewrite TotalStorageBytes_sum by done.
  destruct (Z.leb_spec (total_bytes (sg_rows (segs w))) (rc_MaxStorageBytes r)); [lia|].
  apply cap_loop_diverges; [lia|intros E; rewrite E in Hc; cbn in Hc; lia|].
  eapply Forall_impl; [exact Hall|]. intros s Hs. unfold removable in Hs. cbn.
  destruct (decide (sg_Path s ∈ sealed (disk w))); [done|tauto].
Qed.

(** ** Emergency deletion *)

(** An emergency deletion takes an initial run of the oldest segments that ended
    before the retention floor, skipping those the file system keeps, at most
    [BatchSize] of them, and reports how many it deleted; it stops before the end of
    the run only when it is cancelled or when the disk, low at the start, has
    recovered to one and a half times the minimum.  Disabled, it touches nothing. *)
Theorem emergencyDelete_respects_floor now cancelled available minRequired cfg w :
  table_ok (segs w) -> 0 <= uc_BatchSize cfg -> 0 <= uc_MinRetention cfg <= max_int64 ->
  let floor := now - uc_MinRetention cfg in
  let candidates := limit (uc_BatchSize cfg) (merge_sort start_le (filter (fun s => sg_EndTime s < floor) (sg_rows (segs w)))) in
  exists k w', let gone := filter (removable w) (take k candidates) in
    emergencyDeleteLocked now cancelled available minRequired cfg w = (w', length gone) /\ less w w' gone /\
    Z.of_nat (length gone) <= uc_BatchSize cfg /\
    Forall (fun s => sg_EndTime s < floor) gone /\
    (uc_Enabled cfg = false -> k = 0%nat) /\
    (uc_Enabled cfg = true -> stopped cancelled available (available 0%nat <? minRequired) (u64 (minRequired * 3) / 2)
       candidates 0 k (length gone)).
Proof.
  intros Hok Hb Hm floor candidates. unfold emergencyDeleteLocked.
  assert (forall k, Z.of_nat (length (filter (removable w) (take k candidates))) <= uc_BatchSize cfg) as Hlen.
  { intros k. pose proof (limit_length (merge_sort start_le (filter (fun s => sg_EndTime s < floor) (sg_rows (segs w)))) _ Hb).
    fold candidates in H. pose proof (length_filter (removable w) (take k candidates)) as Hf. rewrite length_take in Hf. lia. }
  assert (forall s, s ∈ candidates -> sg_EndTime s < floor /\ s ∈ sg_rows (segs w)) as Hcand.
  { intros s Hs. destruct (limit_split (merge_sort start_le (filter (fun s => sg_EndTime s < floor) (sg_rows (segs w))))
      (uc_BatchSize cfg)) as [rest Hr]. fold candidates in Hr.
    apply (list_elem_of_filter (fun s => sg_EndTime s < floor)). rewrite <- (merge_sort_elem_of start_le), Hr.
    apply elem_of_app. by left. }
  destruct (uc_Enabled cfg); cbn [negb].
  - unfold GetOldestSegmentsOlderThan, Add. rewrite i64_small by (unfold min_int64, max_int64 in *; lia).
    replace (now + - uc_MinRetention cfg) with floor by (unfold floor; lia). fold candidates.
    destruct (emergency_loop_less cancelled available (available 0%nat <? minRequired) (u64 (minRequired * 3) / 2)
      candidates 0 0 w Hok) as (k & w' & Hk & L & E & Hst).
    { assert (NoDup (merge_sort start_le (filter (fun s => sg_EndTime s < floor) (sg_rows (segs w))))) as Hnd
        by (rewrite merge_sort_Permutation; by apply NoDup_filter, rows_NoDup).
      destruct (limit_split (merge_sort start_le (filter (fun s => sg_EndTime s < floor) (sg_rows (segs w))))
        (uc_BatchSize cfg)) as [rest Hr]. rewrite Hr in Hnd. by apply NoDup_app in Hnd as [? _]. }
    { intros s Hs. by apply Hcand. }
    exists k, w'. cbn zeta. split_and!; try done.
    + change (length (filter (removable w) (take k candidates))) with (0 + length (filter (removable w) (take k candidates)))%nat.
      rewrite <- E. by destruct candidates.
    + apply Forall_forall. intros s [_ Hs]%list_elem_of_filter. apply Hcand.
      apply elem_of_take in Hs as (i & Hi & _). by eapply list_elem_of_lookup_2.
  - exists 0%nat, w. cbn zeta. cbn [take]. change (filter (removable w) (take 0 candidates)) with (@nil SegmentRecord).
    by split_and!.
Qed.

(** ** Deletions a user asks for *)

Lemma protected_nil openPaths selected :
  protected_paths openPaths selected = [] <-> Forall (fun s => sg_Path s ∉ openPaths) selected.
Proof.
  unfold protected_paths. induction selected as [|s selected IH]; [by split|].
  rewrite fmap_cons, filter_cons, Forall_cons. case_decide as Hs.
  - split; [done|]. intros [? _]. done.
  - rewrite IH. tauto.
Qed.

Lemma until_bytes_prefix target rows : forall sum, exists rest, rows = until_bytes target sum rows ++ rest.
Proof.
  induction rows as [|s rows IH]; intros sum; [by exists []|]. cbn [until_bytes].
  destruct (_ <=? _); [by exists rows|]. destruct (IH (i64 (sum + sg_SizeBytes s))) as [rest E]. exists rest. cbn. by rewrite <- E.
Qed.

Lemma OldestSegmentsUntilBytes_in target t :
  table_ok t -> NoDup (OldestSegmentsUntilBytes target t) /\
  forall s, s ∈ OldestSegmentsUntilBytes target t -> s ∈ sg_rows t.
Proof.
  intros Hok. unfold OldestSegmentsUntilBytes. destruct (_ <=? _).
  { split; [constructor|]. intros s []%elem_of_nil. }
  destruct (until_bytes_prefix target (merge_sort start_le (sg_rows t)) 0) as [rest E].
  assert (NoDup (merge_sort start_le (sg_rows t))) as Hnd by (rewrite merge_sort_Permutation; by apply rows_NoDup).
  rewrite E in Hnd. apply NoDup_app in Hnd as [? _]. split; [done|].
  intros s Hs. apply (merge_sort_elem_of start_le). rewrite E. apply elem_of_app. by left.
Qed.

Lemma SegmentsByCameraInRange_in camera from to t :
  table_ok t -> NoDup (SegmentsByCameraInRange camera from to t) /\
  forall s, s ∈ SegmentsByCameraInRange camera from to t -> s ∈ sg_rows t.
Proof.
  intros Hok. unfold SegmentsByCameraInRange. split.
  - rewrite merge_sort_Permutation. by apply NoDup_filter, rows_NoDup.
  - intros s [_ Hs]%merge_sort_elem_of%list_elem_of_filter. done.
Qed.

(** Freeing bytes deletes, of the oldest segments that together hold the bytes
    asked for, exactly those that are not being recorded and that the file system lets
    go, row and file, and its answer counts those; a dry run changes nothing and
    gives the answer the deletion gives when every file can go. *)
Theorem deleteFreeBytes_exact req openPaths w :
  table_ok (segs w) ->
  let selected := OldestSegmentsUntilBytes (dr_FreeBytesTarget req) (segs w) in
  let answer gone := Ok (mkDeleteResult (i64 (Z.of_nat (length gone))) 0 0 (i64 (total_bytes gone))
    (merge_sort String.le (elements (list_to_set (sg_Camera <$> gone) : gset string)))) in
  (dr_DryRun req = false ->
    exists w', less w w' (taken openPaths w selected) /\
      deleteFreeBytes req openPaths w = (w', answer (taken openPaths w selected))) /\
  (dr_DryRun req = true -> deleteFreeBytes req openPaths w = (w, answer (countable openPaths selected))) /\
  (Forall (removable w) selected -> taken openPaths w selected = countable openPaths selected).
Proof.
  intros Hok selected answer. destruct (OldestSegmentsUntilBytes_in (dr_FreeBytesTarget req) (segs w) Hok) as [Hnd Hin].
  fold selected in Hnd, Hin. unfold deleteFreeBytes. fold selected. split_and!.
  - intros ->. destruct (delete_selected_real openPaths selected (mkProgress w 0 0 ∅) 0 0) as (L & C1 & C2 & C3); try done.
    eexists. split; [exact L|]. rewrite C1, C2, C3. cbn [p_world p_cameras]. by rewrite (right_id_L ∅ (∪)).
  - intros ->. destruct (delete_selected_dry openPaths selected (mkProgress w 0 0 ∅) 0 0) as (W & C1 & C2 & C3); try done.
    rewrite W, C1, C2, C3. cbn [p_world p_cameras]. by rewrite (right_id_L ∅ (∪)).
  - apply taken_unsealed.
Qed.

(** Deleting a camera's segments of a window removes, row and file, exactly the
    segments that start in the window, are not being recorded and can be unlinked.
    When the window holds a segment being recorded the request fails with its path,
    although the others are already gone by then. *)
Theorem deleteSegmentsScoped_exact now req openPaths w from to :
  table_ok (segs w) -> dr_DryRun req = false -> resolveWindow now req = Ok (from, to) ->
  let selected := SegmentsByCameraInRange (dr_Camera req) from to (segs w) in
  let gone := taken openPaths w selected in
  exists w', less w w' gone /\
    (Forall (fun s => sg_Path s ∉ openPaths) selected ->
      deleteSegmentsScoped now req openPaths w =
      (w', Ok (mkDeleteResult (i64 (Z.of_nat (length gone))) 0 0 (i64 (total_bytes gone)) [dr_Camera req]))) /\
    (~ Forall (fun s => sg_Path s ∉ openPaths) selected ->
      deleteSegmentsScoped now req openPaths w =
      (w', Err (ErrOpenSegmentProtected (protected_paths openPaths selected)))).
Proof.
  intros Hok Hdry Hwin selected gone. destruct (SegmentsByCameraInRange_in (dr_Camera req) from to (segs w) Hok) as [Hnd Hin].
  fold selected in Hnd, Hin. unfold deleteSegmentsScoped. rewrite Hwin, Hdry. fold selected.
  destruct (delete_selected_real openPaths selected (mkProgress w 0 0 ∅) 0 0) as (L & C1 & C2 & _); try done.
  exists (p_world (delete_selected false openPaths selected (mkProgress w 0 0 ∅))). split; [exact L|].
  rewrite C1, C2. destruct (protected_paths openPaths selected) as [|p ps] eqn:E.
  - apply protected_nil in E. split; [done|]. intros Hn. done.
  - split; [|done]. intros H. apply protected_nil in H. congruence.
Qed.

(** ** Disk pressure *)

Inductive MonitorOp := Tick (s s' : Sample) | Pause (b : bool).

Definition monitor_step (m : DiskMonitor) (op : MonitorOp) : DiskMonitor :=
  match op with Tick s s' => sampleOnce s s' m | Pause b => SetPaused b m end.

(** The level of every sample, the monitor paused or not at the time. *)
Fixpoint levels (paused : bool) (ops : list MonitorOp) : list DiskLevel :=
  match ops with
  | [] => []
  | Pause b :: ops => levels b ops
  | Tick s _ :: ops => Classify s (mkDiskMonitor paused DiskLevelOK []) :: levels paused ops
  end.

(** The levels that differ from the one before. *)
Fixpoint transitions (prev : DiskLevel) (ls : list DiskLevel) : list DiskLevel :=
  match ls with
  | [] => []
  | l :: ls => if decide (l = prev) then transitions prev ls else l :: transitions l ls
  end.

Lemma last_cons_default {A} (ls : list A) : forall x d, List.last (x :: ls) d = List.last ls x.
Proof. induction ls as [|y ls IH]; intros x d; [done|]. change (List.last (y :: ls) d = List.last (y :: ls) x). by rewrite !IH. Qed.

Lemma monitor_run ops : forall p prev c,
  let m := fold_left monitor_step ops (mkDiskMonitor p prev [c]) in
  exists c', subscribers m = [c'] /\ capacity c' = capacity c /\
    lastLevel m = List.last (transitions prev (levels p ops)) prev /\
    ((length (buffered c) <= capacity c)%nat ->
     de_Level <$> buffered c' = take (capacity c) ((de_Level <$> buffered c) ++ transitions prev (levels p ops))).
Proof.
  induction ops as [|[s s'|b] ops IH]; intros p prev c; cbn [fold_left levels monitor_step].
  - exists c. split_and!; try done. intros Hle. rewrite app_nil_r, take_ge by by rewrite length_fmap. done.
  - change (Classify s (mkDiskMonitor p DiskLevelOK [])) with (Classify s (mkDiskMonitor p prev [c])).
    unfold sampleOnce. cbn [lastLevel transitions]. destruct (decide _) as [E|E].
    + rewrite bool_decide_eq_true_2 by done. apply IH.
    + rewrite bool_decide_eq_false_2 by done. cbn [paused subscribers fmap list_fmap].
      set (l := Classify s (mkDiskMonitor p prev [c])) in *.
      destruct (IH p l (try_send (mkDiskEvent l (s_Available s') (s_Total s')) c)) as (c' & -> & Ec & El & Hb).
      assert (capacity (try_send (mkDiskEvent l (s_Available s') (s_Total s')) c) = capacity c) as Hcap
        by (unfold try_send; by case_match).
      exists c'. split_and!; [done|congruence| |].
      * rewrite El. symmetry. apply last_cons_default.
      * intros Hle. rewrite Hcap in Hb. unfold try_send in Hb.
        destruct (Nat.ltb_spec (length (buffered c)) (capacity c)) as [Hlt|Hge].
        -- rewrite Hb by (cbn; rewrite length_app; cbn; lia). cbn [buffered]. rewrite fmap_app, <- app_assoc. done.
        -- rewrite Hb by done. rewrite !take_app, !length_fmap. replace (capacity c - length (buffered c))%nat with 0%nat by lia. done.
  - exact (IH b prev c).
Qed.

(** A subscriber of the disk monitor receives exactly the transitions of the
    sampled level, starting from ok and in order, as far as its channel has room (a
    full channel drops the event, it never blocks), and the monitor remembers the last
    level sampled. *)
Theorem disk_events_are_transitions cap ops :
  let m := fold_left monitor_step ops (Subscribe cap NewDiskMonitor) in
  exists c, subscribers m = [c] /\
    de_Level <$> buffered c = take cap (transitions DiskLevelOK (levels false ops)) /\
    lastLevel m = List.last (transitions DiskLevelOK (levels false ops)) DiskLevelOK.
Proof.
  destruct (monitor_run ops false DiskLevelOK (mkSubscriber [] cap)) as (c & E & _ & El & Hb).
  exists c. split; [exact E|]. split; [|exact El]. rewrite Hb by (cbn; lia). done.
Qed.

(** ** Witnesses *)

Definition w_seg (id : Z) (path : string) (start : Z) : SegmentRecord :=
  mkSegment id "front" path (start * Day) (start * Day + Minute) 100 false 0 0 "".

Definition w_world (stuck : gset string) : World :=
  mkWorld (mkDisk (list_to_map ((fun p => (p, mkFileInfo 100 0)) <$> ["a"; "b"; "c"]%string)) stuck)
    (mkSegTable [w_seg 1 "a" 1; w_seg 2 "b" 2; w_seg 3 "c" 30] 3).

Definition w_rec (days cap : Z) : Recorder := mkRecorder days cap (mkUrgent true Hour 2) ∅.

Lemma w_ok stuck : table_ok (segs (w_world stuck)).
Proof.
  split; cbn.
  - apply (bool_decide_unpack (NoDup [1; 2; 3])). vm_compute. done.
  - apply (bool_decide_unpack (NoDup ["a"; "b"; "c"]%string)). vm_compute. done.
  - repeat constructor; cbn; lia.
  - lia.
Qed.

Lemma w_sizes stuck : sizes_ok (sg_rows (segs (w_world stuck))).
Proof. split; [repeat constructor; cbn; lia|cbn; unfold max_int64; lia]. Qed.

Lemma cleanSegments_exact_witness :
  exists gone, less (w_world ∅) (cleanSegments (w_rec 7 0) (31 * Day) (w_world ∅)) gone /\ w_seg 1 "a" 1 ∈ gone.
Proof.
  assert (windows_ok (w_rec 7 0)) as Hw.
  { split; [cbn; unfold max_days; lia|]. apply map_Forall_empty. }
  pose proof (cleanSegments_exact (w_rec 7 0) (31 * Day) (w_world ∅) (w_ok ∅) Hw) as Hthm.
  destruct Hthm as (gone & L & _ & Hall). exists gone. split; [exact L|].
  apply (Hall (w_seg 1 "a" 1) 7).
  - left.
  - reflexivity.
  - cbn. unfold Day, Hour, Minute, Second. lia.
  - unfold removable. cbn. set_solver.
Defined.

Lemma retain_days_overflow_deletes_everything_witness :
  cleanSegments (mkRecorder (max_days + 1) 0 (mkUrgent false 0 0) ∅) (30 * Day + Minute)
    (mkWorld (mkDisk {["c"%string := mkFileInfo 100 (30 * Day + Minute)]} ∅) (mkSegTable [w_seg 3 "c" 30] 3)) =
  mkWorld (mkDisk ∅ ∅) (mkSegTable [] 3).
Proof. apply (retain_days_overflow_deletes_everything (30 * Day + Minute) (w_seg 3 "c" 30)); reflexivity. Defined.

Lemma enforceStorageCap_minimal_witness :
  exists gone w', enforceStorageCap 4 (w_rec 7 150) (w_world ∅) = Some w' /\ less (w_world ∅) w' gone.
Proof.
  assert (Forall (removable (w_world ∅)) (sg_rows (segs (w_world ∅)))) as Hrm.
  { apply Forall_forall. intros s _. unfold removable. cbn. set_solver. }
  assert (0 < rc_MaxStorageBytes (w_rec 7 150)) as Hcap by (cbn; lia).
  destruct (enforceStorageCap_minimal (w_rec 7 150) (w_world ∅) (w_ok ∅) (w_sizes ∅) Hrm Hcap) as (gone & w' & E & L & _).
  exists gone, w'. split; [exact E|exact L].
Defined.

Lemma enforceStorageCap_diverges_witness :
  enforceStorageCap 1000 (w_rec 7 150) (w_world {["a"; "b"; "c"]}) = None.
Proof.
  apply (enforceStorageCap_diverges (w_rec 7 150) (w_world {["a"; "b"; "c"]})).
  - apply w_sizes.
  - cbn. lia.
  - apply Forall_forall. intros s Hs.
    assert (s ∈ sg_rows (segs (w_world ∅))) as Hrow.
    { apply (merge_sort_elem_of start_le). exact Hs. }
    unfold removable. cbn in Hrow |- *. apply elem_of_cons in Hrow as [->|[->|[->|[]%elem_of_nil]%elem_of_cons]%elem_of_cons];
      cbn; set_solver.
Defined.

Lemma emergencyDelete_respects_floor_witness :
  exists k w', let gone := filter (removable (w_world ∅)) (take k
      (limit 2 (merge_sort start_le (filter (fun s => sg_EndTime s < 31 * Day - Hour) (sg_rows (segs (w_world ∅))))))) in
    emergencyDeleteLocked (31 * Day) (fun _ => false) (fun _ => 0) 1 (mkUrgent true Hour 2) (w_world ∅) = (w', length gone) /\
    less (w_world ∅) w' gone.
Proof.
  assert (0 <= uc_BatchSize (mkUrgent true Hour 2)) as Hb by (cbn; lia).
  assert (0 <= uc_MinRetention (mkUrgent true Hour 2) <= max_int64) as Hm by (cbn; unfold Hour, Minute, Second, max_int64; lia).
  destruct (emergencyDelete_respects_floor (31 * Day) (fun _ => false) (fun _ => 0) 1 (mkUrgent true Hour 2) (w_world ∅)
    (w_ok ∅) Hb Hm) as (k & w' & E & L & _).
  exists k, w'. cbn zeta. split; [exact E|exact L].
Defined.

Definition w_free (dry : bool) : DeleteRequest := mkDeleteRequest "free_bytes" "" 0 "" "" 150 dry.

Lemma deleteFreeBytes_exact_witness :
  exists w', less (w_world ∅) w' (taken {["b"%string]} (w_world ∅) (OldestSegmentsUntilBytes 150 (segs (w_world ∅)))) /\
    (deleteFreeBytes (w_free false) {["b"%string]} (w_world ∅)).1 = w'.
Proof.
  destruct (proj1 (deleteFreeBytes_exact (w_free false) {["b"%string]} (w_world ∅) (w_ok ∅)) eq_refl) as (w' & L & E).
  exists w'. split; [exact L|]. rewrite E. reflexivity.
Defined.

Definition w_scope : DeleteRequest := mkDeleteRequest "segments" "front" 0 "0001-01-02" "0001-01-03" 0 false.

Lemma deleteSegmentsScoped_exact_witness :
  resolveWindow 0 w_scope = Ok (1 * Day, 3 * Day) /\
  exists w', less (w_world ∅) w' (taken {["b"%string]} (w_world ∅) (SegmentsByCameraInRange "front" (1 * Day) (3 * Day) (segs (w_world ∅)))).
Proof.
  assert (resolveWindow 0 w_scope = Ok (1 * Day, 3 * Day)) as Hw by (vm_compute; reflexivity).
  split; [exact Hw|].
  destruct (deleteSegmentsScoped_exact 0 w_scope {["b"%string]} (w_world ∅) (1 * Day) (3 * Day) (w_ok ∅) eq_refl Hw) as (w' & L & _).
  exists w'. exact L.
Defined.
