(* ===== verification/RecordingSessions.v ===== *)
(** Recording sessions and their leases ([recording/segment.go]): overlapping callers
    share one session per camera, which runs until its last lease is released.

    A session is identified by its index in [pool], the order of creation (the
    pointers of the code).  [refs] counts goroutines, so its [int] cannot overflow.
    Everything [SegmentRecorder.mu] guards is one step; the goroutines' moves between
    two critical sections are steps of their own. *)

From S2P Require Import Prelude.

(** Where a session's goroutine is: waiting for the session it replaces, in
    [recordLoop], past the deferred removal from the map, or done. *)
Inductive Phase := Waiting | Recording | Leaving | Done.

#[global] Instance Phase_eq_dec : EqDecision Phase.
Proof. solve_decision. Defined.

Record recordingSession := mkSession {
  ss_camera : string;
  ss_prev : option nat;
  ss_refs : nat;
  ss_stopped : bool;
  ss_phase : Phase
}.

(** [leases]: the session of every [holdLease] goroutine still waiting. *)
Record SegmentRecorder := mkSR {
  sessions : gmap string nat;
  pool : list recordingSession;
  leases : list nat
}.

Definition NewSegmentRecorder : SegmentRecorder := mkSR ∅ [] [].

Definition set_refs (n : nat) (s : recordingSession) : recordingSession :=
  mkSession (ss_camera s) (ss_prev s) n (ss_stopped s) (ss_phase s).
Definition set_stopped (n : nat) (s : recordingSession) : recordingSession :=
  mkSession (ss_camera s) (ss_prev s) n true (ss_phase s).
Definition set_phase (p : Phase) (s : recordingSession) : recordingSession :=
  mkSession (ss_camera s) (ss_prev s) (ss_refs s) (ss_stopped s) p.

(** The registered session that can still take a lease. *)
Definition joinable (camera : string) (sr : SegmentRecorder) : option (nat * recordingSession) :=
  match sessions sr !! camera with
  | Some id => match pool sr !! id with
               | Some sess => if ss_stopped sess then None else Some (id, sess)
               | None => None
               end
  | None => None
  end.

Definition StartRecording (camera : string) (sr : SegmentRecorder) : SegmentRecorder :=
  match joinable camera sr with
  | Some (id, sess) =>
      mkSR (sessions sr) (<[id := set_refs (S (ss_refs sess)) sess]> (pool sr)) (id :: leases sr)
  | None =>
      let prev := sessions sr !! camera in
      let id := length (pool sr) in
      mkSR (<[camera := id]> (sessions sr)) (pool sr ++ [mkSession camera prev 1 false Waiting]) (id :: leases sr)
  end.

(** Drops one lease and stops the session when the last one goes. *)
Definition releaseLease (id : nat) (sr : SegmentRecorder) : SegmentRecorder :=
  match pool sr !! id with
  | Some sess =>
      let refs := Nat.pred (ss_refs sess) in
      let stop := (refs =? 0)%nat && negb (ss_stopped sess) in
      mkSR (sessions sr) (<[id := if stop then set_stopped refs sess else set_refs refs sess]> (pool sr)) (leases sr)
  | None => sr
  end.

Definition StopRecording (camera : string) (sr : SegmentRecorder) : SegmentRecorder :=
  match joinable camera sr with
  | Some (id, sess) => mkSR (sessions sr) (<[id := set_stopped 0 sess]> (pool sr)) (leases sr)
  | None => sr
  end.

(** The deferred removal: the session takes itself out of the map if it is still the
    camera's session. *)
Definition unregister (id : nat) (sess : recordingSession) (sr : SegmentRecorder) : SegmentRecorder :=
  mkSR (if bool_decide (sessions sr !! ss_camera sess = Some id) then delete (ss_camera sess) (sessions sr) else sessions sr)
    (<[id := set_phase Leaving sess]> (pool sr)) (leases sr).

Definition move (id : nat) (p : Phase) (sess : recordingSession) (sr : SegmentRecorder) : SegmentRecorder :=
  mkSR (sessions sr) (<[id := set_phase p sess]> (pool sr)) (leases sr).

Definition is_done (sr : SegmentRecorder) (id : nat) : Prop := ss_phase <$> pool sr !! id = Some Done.

Inductive step : SegmentRecorder -> SegmentRecorder -> Prop :=
| step_start camera sr : step sr (StartRecording camera sr)
| step_stop camera sr : step sr (StopRecording camera sr)
(** a caller's context ends, or its session was stopped: [holdLease] returns *)
| step_release id l1 l2 sr :
    leases sr = l1 ++ id :: l2 -> step sr (releaseLease id (mkSR (sessions sr) (pool sr) (l1 ++ l2)))
(** the session replaced has finished, or there was none *)
| step_proceed id sess sr :
    pool sr !! id = Some sess -> ss_phase sess = Waiting ->
    match ss_prev sess with Some p => is_done sr p | None => True end -> step sr (move id Recording sess sr)
(** stopped while still waiting *)
| step_give_up id sess sr :
    pool sr !! id = Some sess -> ss_phase sess = Waiting -> ss_prev sess <> None -> ss_stopped sess = true ->
    step sr (unregister id sess sr)
(** [recordLoop] returns, cancelled or for want of a consumer *)
| step_finish id sess sr :
    pool sr !! id = Some sess -> ss_phase sess = Recording -> step sr (unregister id sess sr)
| step_done id sess sr :
    pool sr !! id = Some sess -> ss_phase sess = Leaving -> step sr (move id Done sess sr).

Inductive reachable : SegmentRecorder -> Prop :=
| reachable_new : reachable NewSegmentRecorder
| reachable_step sr sr' : reachable sr -> step sr sr' -> reachable sr'.

Definition active (s : recordingSession) : Prop := ss_phase s = Waiting \/ ss_phase s = Recording.

Definition leases_of (id : nat) (sr : SegmentRecorder) : nat := length (filter (fun i => i = id) (leases sr)).

(** ** The invariant *)

Record session_ok (sr : SegmentRecorder) : Prop := {
  so_map : forall camera id, sessions sr !! camera = Some id ->
    exists s, pool sr !! id = Some s /\ ss_camera s = camera /\ active s;
  so_refs : forall id s, pool sr !! id = Some s -> ss_stopped s = false -> ss_refs s = leases_of id sr /\ ss_refs s <> 0%nat;
  so_live : forall id s, pool sr !! id = Some s -> ss_stopped s = false -> active s -> sessions sr !! ss_camera s = Some id;
  so_fresh : forall id, id ∈ leases sr -> (id < length (pool sr))%nat;
}.

Lemma joinable_Some camera sr id s :
  joinable camera sr = Some (id, s) -> sessions sr !! camera = Some id /\ pool sr !! id = Some s /\ ss_stopped s = false.
Proof.
  unfold joinable. destruct (sessions sr !! camera) as [i|]; [|done].
  destruct (pool sr !! i) as [t|] eqn:E; [|done]. destruct (ss_stopped t) eqn:Es; [done|]. by intros [= -> ->].
Qed.

Lemma leases_of_cons id i se po l :
  leases_of id (mkSR se po (i :: l)) = ((if decide (i = id) then 1 else 0) + leases_of id (mkSR se po l))%nat.
Proof. unfold leases_of. cbn [leases]. rewrite filter_cons. by case_decide. Qed.

Lemma leases_of_pool id se po se' po' l : leases_of id (mkSR se po l) = leases_of id (mkSR se' po' l).
Proof. done. Qed.

Lemma leases_of_fresh sr id : session_ok sr -> (length (pool sr) <= id)%nat -> leases_of id sr = 0%nat.
Proof.
  intros [_ _ _ Hf] Hid. unfold leases_of. induction (leases sr) as [|i l IH]; [done|].
  rewrite filter_cons_False; [apply IH; intros j Hj; apply Hf; by right|].
  intros ->. specialize (Hf id (list_elem_of_here _ _)). lia.
Qed.

(** Updating one session of the pool. *)
Lemma pool_update (po : list recordingSession) id s t i x :
  po !! id = Some s -> <[id := t]> po !! i = Some x -> (i = id /\ x = t) \/ (i <> id /\ po !! i = Some x).
Proof.
  intros Hs. destruct (decide (i = id)) as [->|Hne].
  - rewrite list_lookup_insert_eq by by eapply lookup_lt_Some. intros [= <-]. by left.
  - rewrite list_lookup_insert_ne by done. by right.
Qed.

(** Changing a session's counters and stop flag, not its camera or phase. *)
Lemma session_ok_update sr id s t l :
  session_ok sr -> pool sr !! id = Some s -> ss_camera t = ss_camera s -> ss_phase t = ss_phase s ->
  (ss_stopped t = false -> ss_stopped s = false) ->
  (forall i, i <> id -> leases_of i (mkSR (sessions sr) (pool sr) l) = leases_of i sr) ->
  (ss_stopped t = false -> ss_refs t = leases_of id (mkSR (sessions sr) (pool sr) l) /\ ss_refs t <> 0%nat) ->
  (forall i, i ∈ l -> (i < length (pool sr))%nat) ->
  session_ok (mkSR (sessions sr) (<[id := t]> (pool sr)) l).
Proof.
  intros [Hm Hr Hl Hf] Hs Hc Hp Hst Hothers Hrefs Hfresh. split; cbn [sessions pool leases].
  - intros camera i Hi. destruct (Hm camera i Hi) as (x & Hx & <- & Ha). destruct (decide (i = id)) as [->|Hne].
    + rewrite Hs in Hx. injection Hx as <-. exists t. rewrite list_lookup_insert_eq by by eapply lookup_lt_Some.
      split_and!; [done|done|]. unfold active. by rewrite Hp.
    + exists x. by rewrite list_lookup_insert_ne.
  - intros i x Hx Hstop. destruct (pool_update _ _ _ _ _ _ Hs Hx) as [[-> ->]|[Hne Hi]].
    + by apply Hrefs.
    + destruct (Hr i x Hi Hstop) as [E1 E2]. split; [|done]. rewrite E1. symmetry. by apply Hothers.
  - intros i x Hx Hstop Ha. destruct (pool_update _ _ _ _ _ _ Hs Hx) as [[-> ->]|[Hne Hi]].
    + rewrite Hc. apply Hl; [done|by apply Hst|]. unfold active in *. by rewrite <- Hp.
    + by apply Hl.
  - intros i Hi. rewrite length_insert. by apply Hfresh.
Qed.

Lemma start_ok camera sr : session_ok sr -> session_ok (StartRecording camera sr).
Proof.
  intros Hok. unfold StartRecording. destruct (joinable camera sr) as [[id s]|] eqn:E.
  - apply joinable_Some in E as (Hm & Hs & Hst). destruct (so_refs _ Hok id s Hs Hst) as [Hr Hr0].
    apply (session_ok_update sr id s); try done.
    + intros i Hi. destruct sr. rewrite leases_of_cons. by rewrite decide_False.
    + intros _. destruct sr. rewrite leases_of_cons, decide_True by done. cbn. rewrite Hr. split; [done|lia].
    + intros i [->|Hi]%elem_of_cons; [by eapply lookup_lt_Some|]. by apply (so_fresh _ Hok).
  - assert (forall id s, sessions sr !! camera = Some id -> pool sr !! id = Some s -> ss_stopped s = true) as Hnone.
    { intros id s Hm Hs. unfold joinable in E. rewrite Hm, Hs in E. by destruct (ss_stopped s). }
    pose proof (leases_of_fresh sr (length (pool sr)) Hok (le_n _)) as Hfresh. destruct Hok as [Hm Hr Hl Hf].
    split; cbn [sessions pool leases].
    + intros c i. destruct (decide (c = camera)) as [->|Hne].
      * rewrite lookup_insert_eq. intros [= <-]. eexists. rewrite list_lookup_middle by done.
        split_and!; [done|done|by left].
      * rewrite lookup_insert_ne by done. intros Hi. destruct (Hm c i Hi) as (x & Hx & ? & ?).
        exists x. split; [by apply lookup_app_l_Some|done].
    + intros i x Hx Hst. destruct sr. rewrite leases_of_cons. cbn [pool] in *.
      apply lookup_app_Some in Hx as [Hx|[Hge Hx]].
      * pose proof (lookup_lt_Some _ _ _ Hx). rewrite decide_False by lia. destruct (Hr i x Hx Hst). done.
      * apply list_lookup_singleton_Some in Hx as [Hz <-]. assert (i = length pool0) as -> by lia.
        rewrite decide_True by done. cbn. unfold leases_of in *. cbn [leases] in *. rewrite Hfresh. done.
    + intros i x Hx Hst Ha. apply lookup_app_Some in Hx as [Hx|[Hge Hx]].
      * pose proof (Hl i x Hx Hst Ha) as Hc. destruct (decide (ss_camera x = camera)) as [Ec|Ec]; [|by rewrite lookup_insert_ne].
        rewrite Ec in Hc. rewrite (Hnone _ _ Hc Hx) in Hst. done.
      * apply list_lookup_singleton_Some in Hx as [Hz <-]. cbn. rewrite lookup_insert_eq. f_equal. lia.
    + intros i. rewrite length_app, elem_of_cons. cbn. intros [->|Hi]; [lia|]. specialize (Hf i Hi). lia.
Qed.

Lemma stop_ok camera sr : session_ok sr -> session_ok (StopRecording camera sr).
Proof.
  intros Hok. unfold StopRecording. destruct (joinable camera sr) as [[id s]|] eqn:E; [|done].
  apply joinable_Some in E as (Hm & Hs & Hst). destruct sr. apply (session_ok_update (mkSR _ _ _) id s); try done.
  apply (so_fresh _ Hok).
Qed.

Lemma release_ok id l1 l2 sr :
  session_ok sr -> leases sr = l1 ++ id :: l2 ->
  session_ok (releaseLease id (mkSR (sessions sr) (pool sr) (l1 ++ l2))).
Proof.
  intros Hok El. unfold releaseLease. cbn [pool sessions leases].
  assert (forall i, leases_of i (mkSR (sessions sr) (pool sr) (l1 ++ l2)) + (if decide (id = i) then 1 else 0) = leases_of i sr)%nat as Hcount.
  { intros i. unfold leases_of. cbn [leases]. rewrite El, !filter_app, !length_app, filter_cons.
    case_decide; cbn [length]; lia. }
  assert (id < length (pool sr))%nat as Hid.
  { apply (so_fresh _ Hok). rewrite El. apply elem_of_app. right. left. }
  assert (forall i, i ∈ l1 ++ l2 -> (i < length (pool sr))%nat) as Hfresh.
  { intros i Hi. apply (so_fresh _ Hok). rewrite El. apply elem_of_app in Hi as [?|?]; apply elem_of_app; [by left|].
    right. by right. }
  destruct (lookup_lt_is_Some_2 _ _ Hid) as [s Hs]. rewrite Hs.
  assert (forall i, i <> id -> leases_of i (mkSR (sessions sr) (pool sr) (l1 ++ l2)) = leases_of i sr) as Hothers.
  { intros i Hi. specialize (Hcount i). rewrite decide_False in Hcount by done. lia. }
  specialize (Hcount id). rewrite decide_True in Hcount by done.
  destruct (Nat.eqb_spec (Nat.pred (ss_refs s)) 0); cbn [andb].
  - destruct (ss_stopped s) eqn:Est; cbn [negb]; apply (session_ok_update sr id s); try done; cbn; congruence.
  - apply (session_ok_update sr id s); try done. cbn [set_refs ss_refs ss_stopped]. intros Hst.
    destruct (so_refs _ Hok id s Hs Hst) as [Hr _]. split; [|done]. lia.
Qed.

Lemma unregister_ok id s sr : session_ok sr -> pool sr !! id = Some s -> session_ok (unregister id s sr).
Proof.
  intros [Hm Hr Hl Hf] Hs. unfold unregister. split; cbn [sessions pool leases].
  - intros c i Hi. assert (sessions sr !! c = Some i /\ i <> id) as [Hi' Hne].
    { case_bool_decide as Hc.
      - apply lookup_delete_Some in Hi as [Hne Hi]. split; [done|]. intros ->.
        destruct (Hm c id Hi) as (x & Hx & Ex & _). congruence.
      - split; [done|]. intros ->. destruct (Hm c id Hi) as (x & Hx & Ex & _). congruence. }
    destruct (Hm c i Hi') as (x & Hx & ?). exists x. by rewrite list_lookup_insert_ne.
  - intros i x Hx Hst. destruct (pool_update _ _ _ _ _ _ Hs Hx) as [[-> ->]|[Hne Hi]].
    + by apply (Hr id s).
    + by apply Hr.
  - intros i x Hx Hst Ha. destruct (pool_update _ _ _ _ _ _ Hs Hx) as [[-> ->]|[Hne Hi]].
    + destruct Ha as [Ha|Ha]; done.
    + pose proof (Hl i x Hi Hst Ha) as Hc. case_bool_decide as Hid; [|done].
      rewrite lookup_delete_ne; [done|]. intros E. rewrite E in Hid. congruence.
  - intros i Hi. rewrite length_insert. by apply Hf.
Qed.

Lemma move_ok id p s sr :
  session_ok sr -> pool sr !! id = Some s -> (p = Recording /\ active s) \/ (p = Done /\ ~ active s) ->
  session_ok (move id p s sr).
Proof.
  intros [Hm Hr Hl Hf] Hs Hp. unfold move. split; cbn [sessions pool leases].
  - intros c i Hi. destruct (Hm c i Hi) as (x & Hx & Ec & Ha). destruct (decide (i = id)) as [->|Hne].
    + rewrite Hs in Hx. injection Hx as <-. destruct Hp as [[-> _]|[_ ?]]; [|done].
      eexists. rewrite list_lookup_insert_eq by by eapply lookup_lt_Some. split_and!; [done|done|by right].
    + exists x. by rewrite list_lookup_insert_ne.
  - intros i x Hx Hst. destruct (pool_update _ _ _ _ _ _ Hs Hx) as [[-> ->]|[Hne Hi]].
    + by apply (Hr id s).
    + by apply Hr.
  - intros i x Hx Hst Ha. destruct (pool_update _ _ _ _ _ _ Hs Hx) as [[-> ->]|[Hne Hi]].
    + destruct Hp as [[-> Hact]|[-> _]]; [by apply (Hl id s)|]. by destruct Ha as [Ha|Ha].
    + by apply Hl.
  - intros i Hi. rewrite length_insert. by apply Hf.
Qed.

Lemma step_ok sr sr' : session_ok sr -> step sr sr' -> session_ok sr'.
Proof.
  intros Hok Hst. revert Hok. destruct Hst as [camera sr|camera sr|id l1 l2 sr|id s sr|id s sr|id s sr|id s sr]; intros Hok.
  - by apply start_ok.
  - by apply stop_ok.
  - by apply release_ok.
  - apply move_ok; try done. left. split; [done|by left].
  - by apply unregister_ok.
  - by apply unregister_ok.
  - apply move_ok; try done. right. split; [done|]. intros [Ha|Ha]; congruence.
Qed.

Lemma reachable_ok sr : reachable sr -> session_ok sr.
Proof.
  induction 1 as [|sr sr' _ IH Hst]; [|by eapply step_ok]. split; cbn; try done.
  intros id Hid. by apply elem_of_nil in Hid.
Qed.

(** ** Properties *)

(** The session goes on: it is there, neither stopped nor exited, and still held. *)
Definition goes_on (i : nat) (s : recordingSession) (sr' : SegmentRecorder) : Prop :=
  exists t, pool sr' !! i = Some t /\ ss_camera t = ss_camera s /\ ss_stopped t = false /\ active t /\ (0 < leases_of i sr')%nat.

(** A change to another session, or to what is not the stop flag of this one. *)
Lemma goes_on_insert sr i s id t se l :
  pool sr !! i = Some s -> ss_stopped s = false -> active s -> (id = i -> ss_camera t = ss_camera s /\ ss_stopped t = false /\ active t) ->
  (0 < leases_of i (mkSR se (pool sr) l))%nat -> goes_on i s (mkSR se (<[id := t]> (pool sr)) l).
Proof.
  intros Hs Hst Ha Ht Hl. destruct (decide (id = i)) as [->|Hne].
  - exists t. cbn [pool]. rewrite list_lookup_insert_eq by by eapply lookup_lt_Some. destruct (Ht eq_refl) as (? & ? & ?). done.
  - exists s. cbn [pool]. by rewrite list_lookup_insert_ne.
Qed.

Lemma leases_of_drop i id se po l1 l2 :
  leases_of i (mkSR se po (l1 ++ id :: l2)) = ((if decide (id = i) then 1 else 0) + leases_of i (mkSR se po (l1 ++ l2)))%nat.
Proof. unfold leases_of. cbn [leases]. rewrite !filter_app, !length_app, filter_cons. case_decide; cbn [length]; lia. Qed.

Lemma pool_release id sr s l :
  pool sr !! id = Some s ->
  exists t, pool (releaseLease id (mkSR (sessions sr) (pool sr) l)) !! id = Some t /\ ss_camera t = ss_camera s /\ ss_phase t = ss_phase s /\
    (ss_stopped s = false -> ss_stopped t = (Nat.pred (ss_refs s) =? 0)%nat).
Proof.
  intros Hs. unfold releaseLease. cbn [pool]. rewrite Hs. cbn [pool]. rewrite list_lookup_insert_eq by by eapply lookup_lt_Some.
  eexists. split; [done|]. destruct (Nat.pred (ss_refs s) =? 0)%nat eqn:E; cbn [andb].
  - destruct (ss_stopped s) eqn:Es; cbn [negb]; cbn; by split_and!.
  - cbn. by split_and!.
Qed.

Lemma pool_release_ne id i sr l : id <> i -> pool (releaseLease id (mkSR (sessions sr) (pool sr) l)) !! i = pool sr !! i.
Proof.
  intros Hne. unfold releaseLease. cbn [pool]. destruct (pool sr !! id); [|done]. cbn [pool]. by rewrite list_lookup_insert_ne.
Qed.

Lemma live_session_ends sr sr' i s :
  session_ok sr -> pool sr !! i = Some s -> ss_stopped s = false -> active s -> step sr sr' ->
  goes_on i s sr' \/ sr' = StopRecording (ss_camera s) sr \/
  (leases_of i sr = 1%nat /\ leases_of i sr' = 0%nat) \/ (ss_phase s = Recording /\ sr' = unregister i s sr).
Proof.
  intros Hok Hs Hst Ha Hstep. destruct (so_refs _ Hok i s Hs Hst) as [Hr Hr0]. pose proof (so_live _ Hok i s Hs Hst Ha) as Hm.
  destruct Hstep as [camera sr|camera sr|id l1 l2 sr El|id x sr Hx Hp Hprev|id x sr Hx Hp Hprev Hxs|id x sr Hx Hp|id x sr Hx Hp].
  - left. unfold StartRecording. destruct (joinable camera sr) as [[id x]|] eqn:E.
    + apply joinable_Some in E as (Hmx & Hx & Hxs). apply goes_on_insert; [done..| |].
      * intros ->. assert (x = s) as -> by congruence. done.
      * rewrite leases_of_cons. destruct sr. cbn in *. lia.
    + exists s. cbn [pool]. rewrite lookup_app_l by by eapply lookup_lt_Some. split_and!; [done..|]. rewrite leases_of_cons. destruct sr. cbn in *.
      unfold leases_of in *. cbn in *. lia.
  - unfold StopRecording at 1. destruct (decide (camera = ss_camera s)) as [->|Hne]; [right; by left|]. left.
    unfold StopRecording. destruct (joinable camera sr) as [[id x]|] eqn:E.
    + apply joinable_Some in E as (Hmx & Hx & Hxs). apply goes_on_insert; [done..| |destruct sr; cbn in *; lia].
      intros ->. destruct (so_map _ Hok camera i Hmx) as (y & Hy & Ey & _). congruence.
    + exists s. split_and!; [done..|lia].
  - assert (leases_of i sr = (if decide (id = i) then 1 else 0) + leases_of i (mkSR (sessions sr) (pool sr) (l1 ++ l2)))%nat as Hcount.
    { rewrite <- leases_of_drop, <- El. by destruct sr. }
    assert (leases_of i (releaseLease id (mkSR (sessions sr) (pool sr) (l1 ++ l2))) = leases_of i (mkSR (sessions sr) (pool sr) (l1 ++ l2))) as Hl.
    { unfold releaseLease. cbn [pool]. by destruct (pool sr !! id). }
    destruct (decide (id = i)) as [->|Hne].
    + destruct (pool_release i sr s (l1 ++ l2) Hs) as (t & Ht & Ec & Ep & Es). specialize (Es Hst).
      destruct (Nat.eqb_spec (Nat.pred (ss_refs s)) 0) as [Hz|Hz]; [right; right; left; lia|left].
      exists t. split_and!; [done..| |lia]. unfold active in *. by rewrite Ep.
    + left. exists s. rewrite pool_release_ne by done. split_and!; [done..|lia].
  - left. unfold move. apply goes_on_insert; [done..| |destruct sr; cbn in *; lia]. intros ->. assert (x = s) as -> by congruence.
    split_and!; [done..|by right].
  - left. unfold unregister. apply goes_on_insert; [done..| |destruct sr; cbn in *; lia]. intros ->. congruence.
  - destruct (decide (id = i)) as [->|Hne].
    + assert (x = s) as -> by congruence. right. right. right. done.
    + left. unfold unregister. apply goes_on_insert; [done..| |destruct sr; cbn in *; lia]. done.
  - left. unfold move. apply goes_on_insert; [done..| |destruct sr; cbn in *; lia]. intros ->. assert (x = s) as -> by congruence.
    destruct Ha; congruence.
Qed.

(** C20: however starts, stops, ending contexts and exiting goroutines interleave, a
    camera has at most one session that is neither stopped nor exited, it is the
    registered one that the next start joins, and its reference count is the number of
    callers still holding it, which is not zero.  Such a recording goes on at every next
    step, unless that step is the stop of its camera, or its goroutine finishing by
    itself, or the release of its last lease: a release stops it exactly when nobody else
    holds it. *)
Theorem one_live_session_per_camera sr i s :
  reachable sr -> pool sr !! i = Some s -> ss_stopped s = false -> active s ->
  sessions sr !! ss_camera s = Some i /\ ss_refs s = leases_of i sr /\ (0 < ss_refs s)%nat /\
  (forall j t, pool sr !! j = Some t -> ss_camera t = ss_camera s -> ss_stopped t = false -> active t -> j = i) /\
  (forall sr', step sr sr' ->
    goes_on i s sr' \/ sr' = StopRecording (ss_camera s) sr \/
    (leases_of i sr = 1%nat /\ leases_of i sr' = 0%nat) \/ (ss_phase s = Recording /\ sr' = unregister i s sr)) /\
  (forall l1 l2, leases sr = l1 ++ i :: l2 ->
    exists t, pool (releaseLease i (mkSR (sessions sr) (pool sr) (l1 ++ l2))) !! i = Some t /\ ss_phase t = ss_phase s /\
      (ss_stopped t = true <-> leases_of i sr = 1%nat)) /\
  ss_stopped <$> pool (StopRecording (ss_camera s) sr) !! i = Some true.
Proof.
  intros Hre Hs Hst Ha. apply reachable_ok in Hre. destruct (so_refs _ Hre i s Hs Hst) as [Hr Hr0].
  pose proof (so_live _ Hre i s Hs Hst Ha) as Hm. split_and!; [done|done|lia| | | |].
  - intros j t Ht Ec Hst' Ha'. pose proof (so_live _ Hre j t Ht Hst' Ha') as Hm'. rewrite Ec in Hm'. congruence.
  - intros sr' Hstep. by apply live_session_ends.
  - intros l1 l2 El. destruct (pool_release i sr s (l1 ++ l2) Hs) as (t & Ht & _ & Ep & Es). exists t. split_and!; [done..|].
    rewrite (Es Hst), Nat.eqb_eq. lia.
  - unfold StopRecording, joinable. rewrite Hm, Hs, Hst. cbn [pool]. by rewrite list_lookup_insert_eq by by eapply lookup_lt_Some.
Qed.

(** Two sessions of one camera can still record at once.  A session that waits for
    the one it replaces gives up when it is stopped, and takes itself out of the map;
    the next start then finds no session to wait for, and records while the first one
    is still writing its file. *)
Theorem two_writers_reachable camera :
  exists sr i j s t, reachable sr /\ i <> j /\
    pool sr !! i = Some s /\ ss_camera s = camera /\ ss_phase s = Recording /\
    pool sr !! j = Some t /\ ss_camera t = camera /\ ss_phase t = Recording.
Proof.
  set (sA := mkSession camera None 0 true Recording).
  set (sB p := mkSession camera (Some 0%nat) 0 true p).
  set (A st r := mkSession camera None r st).
  assert (reachable (mkSR {[camera := 0%nat]} [A false 1%nat Waiting] [0%nat])) as H1.
  { eapply reachable_step; [apply reachable_new|]. exact (step_start camera NewSegmentRecorder). }
  assert (reachable (mkSR {[camera := 0%nat]} [A false 1%nat Recording] [0%nat])) as H2.
  { eapply reachable_step; [exact H1|]. by apply (step_proceed 0 (A false 1%nat Waiting)). }
  assert (reachable (mkSR {[camera := 0%nat]} [sA] [0%nat])) as H3.
  { eapply reachable_step; [exact H2|]. pose proof (step_stop camera (mkSR {[camera := 0%nat]} [A false 1%nat Recording] [0%nat])) as Hst.
    unfold StopRecording, joinable in Hst. cbn [sessions] in Hst. rewrite lookup_singleton_eq in Hst. exact Hst. }
  assert (reachable (mkSR {[camera := 1%nat]} [sA; mkSession camera (Some 0%nat) 1 false Waiting] [1; 0]%nat)) as H4.
  { eapply reachable_step; [exact H3|]. pose proof (step_start camera (mkSR {[camera := 0%nat]} [sA] [0%nat])) as Hst.
    unfold StartRecording, joinable in Hst. cbn [sessions] in Hst. rewrite lookup_singleton_eq in Hst.
    rewrite insert_singleton_eq in Hst. exact Hst. }
  assert (reachable (mkSR {[camera := 1%nat]} [sA; sB Waiting] [1; 0]%nat)) as H5.
  { eapply reachable_step; [exact H4|].
    pose proof (step_stop camera (mkSR {[camera := 1%nat]} [sA; mkSession camera (Some 0%nat) 1 false Waiting] [1; 0]%nat)) as Hst.
    unfold StopRecording, joinable in Hst. cbn [sessions] in Hst. rewrite lookup_singleton_eq in Hst. exact Hst. }
  assert (reachable (mkSR ∅ [sA; sB Leaving] [1; 0]%nat)) as H6.
  { eapply reachable_step; [exact H5|].
    assert (mkSR ∅ [sA; sB Leaving] [1; 0]%nat = unregister 1 (sB Waiting) (mkSR {[camera := 1%nat]} [sA; sB Waiting] [1; 0]%nat)) as ->.
    { unfold unregister. cbn [sessions ss_camera sB]. rewrite bool_decide_eq_true_2 by apply lookup_singleton_eq.
      by rewrite delete_singleton_eq. }
    by apply step_give_up. }
  assert (reachable (mkSR {[camera := 2%nat]} [sA; sB Leaving; A false 1%nat Waiting] [2; 1; 0]%nat)) as H7.
  { eapply reachable_step; [exact H6|]. pose proof (step_start camera (mkSR ∅ [sA; sB Leaving] [1; 0]%nat)) as Hst.
    unfold StartRecording, joinable in Hst. cbn [sessions] in Hst. rewrite lookup_empty in Hst. exact Hst. }
  exists (mkSR {[camera := 2%nat]} [sA; sB Leaving; A false 1%nat Recording] [2; 1; 0]%nat), 0%nat, 2%nat, sA, (A false 1%nat Recording).
  split_and!; try done. eapply reachable_step; [exact H7|]. by apply (step_proceed 2 (A false 1%nat Waiting)).
Qed.

(** ** Witness *)

Lemma one_live_session_per_camera_witness :
  let sr := StartRecording "door" (StartRecording "door" NewSegmentRecorder) in
  exists s, pool sr !! 0%nat = Some s /\ ss_refs s = 2%nat /\ sessions sr !! ss_camera s = Some 0%nat.
Proof.
  intros sr.
  assert (reachable sr) as Hre.
  { eapply reachable_step; [|apply step_start]. eapply reachable_step; [apply reachable_new|apply step_start]. }
  exists (mkSession "door" None 2 false Waiting). split; [vm_compute; reflexivity|]. split; [reflexivity|].
  refine (proj1 (one_live_session_per_camera sr 0 (mkSession "door" None 2 false Waiting) Hre _ eq_refl _)).
  - vm_compute. reflexivity.
  - left. reflexivity.
Defined.
