(* ===== verification/Recompress.v ===== *)
(** Tiered-storage recompression ([recording/recompress.go], the failure taxonomy of
    [recording/transcode_subprocess.go], and its statements of [storage/db.go]): which
    segment or clip is transcoded next, what is checked again under the lock, what a
    success or a failure records, and the manual pass.

    The transcoder is the injected [transcodeFn]: a parameter, as is the set of paths
    being served over HLS.  Go iterates the map of eligible cameras in any order, which
    decides between equal candidates: the order is a parameter ([CameraOrder]). *)

From S2P Require Import Prelude SegmentStore Retention.
From Stdlib Require Import Ascii.

#[local] Open Scope string_scope.
#[local] Open Scope Z_scope.

(** ** Failure kinds *)

Abbreviation transcodeFailureKind := string.

Definition transcodeFailureUnclassified : transcodeFailureKind := "transcode_error".
Definition transcodeFailureCrash : transcodeFailureKind := "worker_crash".
Definition transcodeFailureTimeout : transcodeFailureKind := "worker_timeout".
Definition transcodeFailureSourceNotFragmented : transcodeFailureKind := "source_not_fragmented".
Definition transcodeFailureSourceUndecodable : transcodeFailureKind := "source_undecodable".

Definition permanentTranscodeFailureKinds : list transcodeFailureKind :=
  [transcodeFailureSourceNotFragmented; transcodeFailureSourceUndecodable].

Definition retryable (k : transcodeFailureKind) : bool := negb (bool_decide (k ∈ permanentTranscodeFailureKinds)).

Definition permanentFailureKinds : list string := permanentTranscodeFailureKinds.

(** An error of the transcoder: a classified worker error, or anything else. *)
Inductive TranscodeError := WorkerError (kind : transcodeFailureKind) | OtherError.

Definition failureKindOf (err : TranscodeError) : transcodeFailureKind :=
  match err with WorkerError kind => kind | OtherError => transcodeFailureUnclassified end.

Record TranscodeResult := mkTranscodeResult { tr_OriginalSize : Z; tr_NewSize : Z; tr_Skipped : bool }.

(** ** The clip columns of the [events] table *)

Record ClipRow := mkClip {
  cl_EventID : string;
  cl_Camera : string;
  cl_Path : string;
  cl_Available : bool;
  cl_SizeBytes : Z;
  cl_EndTime : option Z;
  cl_Recompressed : bool;
  cl_RecompressedAt : option Z;
  cl_Failures : Z;
  cl_FailureKind : string
}.

(** What the operations read and change: files, the paths whose [Stat] fails for a
    reason other than absence, and the two tables. *)
Record Media := mkMedia {
  md_disk : Disk;
  md_unreadable : gset string;
  md_segs : SegTable;
  md_clips : list ClipRow
}.

Definition set_segs (t : SegTable) (m : Media) : Media := mkMedia (md_disk m) (md_unreadable m) t (md_clips m).
Definition set_clips (c : list ClipRow) (m : Media) : Media := mkMedia (md_disk m) (md_unreadable m) (md_segs m) c.
Definition set_disk (d : Disk) (m : Media) : Media := mkMedia d (md_unreadable m) (md_segs m) (md_clips m).

Inductive StatOutcome := StatOk (fi : FileInfo) | StatNotExist | StatError.

(** [os.Stat]. *)
Definition os_Stat (path : string) (m : Media) : StatOutcome :=
  if bool_decide (path ∈ md_unreadable m) then StatError
  else match files (md_disk m) !! path with Some fi => StatOk fi | None => StatNotExist end.

(** [os.Chtimes]; it fails where the file system keeps the file as it is. *)
Definition os_Chtimes (path : string) (t : Z) (m : Media) : Media :=
  if bool_decide (path ∈ sealed (md_disk m)) then m
  else set_disk (mkDisk (alter (fun fi => mkFileInfo (fi_Size fi) t) path (files (md_disk m))) (sealed (md_disk m))) m.

(** ** Statements *)

Definition largest_seg (a b : SegmentRecord) : Prop :=
  sg_SizeBytes b < sg_SizeBytes a \/ (sg_SizeBytes a = sg_SizeBytes b /\ sg_StartTime a <= sg_StartTime b).
#[global] Instance largest_seg_dec : RelDecision largest_seg.
Proof. intros a b. unfold largest_seg. apply _. Defined.

Definition seg_candidate (camera : string) (cutoff : Z) (r : SegmentRecord) : Prop :=
  sg_Camera r = camera /\ sg_EndTime r < cutoff /\ sg_Recompressed r = false /\ sg_RecompressFailures r < 3.
#[global] Instance seg_candidate_dec camera cutoff r : Decision (seg_candidate camera cutoff r).
Proof. unfold seg_candidate. apply _. Defined.

Definition GetRecompressionCandidatesBySize (camera : string) (cutoff lim : Z) (t : SegTable) : list SegmentRecord :=
  limit lim (merge_sort largest_seg (filter (seg_candidate camera cutoff) (sg_rows t))).

Definition GetSegmentsForRecompression (camera : string) (cutoff : Z) (t : SegTable) : list SegmentRecord :=
  merge_sort end_le (filter (seg_candidate camera cutoff) (sg_rows t)).

(** [clipRecompressEligible], of one camera. *)
Definition clip_candidate (camera : string) (cutoff : Z) (r : ClipRow) : Prop :=
  cl_Camera r = camera /\ cl_Available r = true /\ match cl_EndTime r with Some t => t < cutoff | None => False end /\
  cl_Recompressed r = false /\ cl_Failures r < 3.
#[global] Instance clip_candidate_dec camera cutoff r : Decision (clip_candidate camera cutoff r).
Proof. unfold clip_candidate. destruct (cl_EndTime r); apply _. Defined.

Definition clip_end (r : ClipRow) : Z := default 0 (cl_EndTime r).

Definition largest_clip (a b : ClipRow) : Prop :=
  cl_SizeBytes b < cl_SizeBytes a \/ (cl_SizeBytes a = cl_SizeBytes b /\ clip_end a <= clip_end b).
#[global] Instance largest_clip_dec : RelDecision largest_clip.
Proof. intros a b. unfold largest_clip. apply _. Defined.
Definition oldest_clip (a b : ClipRow) : Prop := clip_end a <= clip_end b.
#[global] Instance oldest_clip_dec : RelDecision oldest_clip.
Proof. intros a b. unfold oldest_clip. apply _. Defined.

Definition GetClipsForRecompression (camera : string) (cutoff : Z) (c : list ClipRow) : list ClipRow :=
  merge_sort oldest_clip (filter (clip_candidate camera cutoff) c).

Definition GetClipRecompressionCandidatesBySize (camera : string) (cutoff lim : Z) (c : list ClipRow) : list ClipRow :=
  limit lim (merge_sort largest_clip (filter (clip_candidate camera cutoff) c)).

Definition update_seg (id : Z) (f : SegmentRecord -> SegmentRecord) (t : SegTable) : SegTable :=
  mkSegTable ((fun r => if sg_ID r =? id then f r else r) <$> sg_rows t) (sg_seq t).

Definition update_clip (id : string) (f : ClipRow -> ClipRow) (c : list ClipRow) : list ClipRow :=
  (fun r => if String.eqb (cl_EventID r) id then f r else r) <$> c.

Definition MarkSegmentRecompressed (now id newSize : Z) : SegTable -> SegTable :=
  update_seg id (fun r => mkSegment (sg_ID r) (sg_Camera r) (sg_Path r) (sg_StartTime r) (sg_EndTime r) newSize
    true now (sg_RecompressFailures r) (sg_failure_kind r)).

Definition IncrementSegmentRecompressFailures (id : Z) (kind : string) : SegTable -> SegTable :=
  update_seg id (fun r => mkSegment (sg_ID r) (sg_Camera r) (sg_Path r) (sg_StartTime r) (sg_EndTime r) (sg_SizeBytes r)
    (sg_Recompressed r) (sg_RecompressedAt r) (sg_RecompressFailures r + 1) kind).

Definition MarkClipRecompressed (now : Z) (id : string) (newSize : Z) : list ClipRow -> list ClipRow :=
  update_clip id (fun r => mkClip (cl_EventID r) (cl_Camera r) (cl_Path r) (cl_Available r) newSize (cl_EndTime r)
    true (Some now) (cl_Failures r) (cl_FailureKind r)).

Definition IncrementClipRecompressFailures (id kind : string) : list ClipRow -> list ClipRow :=
  update_clip id (fun r => mkClip (cl_EventID r) (cl_Camera r) (cl_Path r) (cl_Available r) (cl_SizeBytes r) (cl_EndTime r)
    (cl_Recompressed r) (cl_RecompressedAt r) (cl_Failures r + 1) kind).

Definition UpdateEventClipAvailability (id : string) (available : bool) : list ClipRow -> list ClipRow :=
  update_clip id (fun r => mkClip (cl_EventID r) (cl_Camera r) (cl_Path r) available (cl_SizeBytes r) (cl_EndTime r)
    (cl_Recompressed r) (cl_RecompressedAt r) (cl_Failures r) (cl_FailureKind r)).

Definition set_clip_size (id : string) (size : Z) : list ClipRow -> list ClipRow :=
  update_clip id (fun r => mkClip (cl_EventID r) (cl_Camera r) (cl_Path r) (cl_Available r) size (cl_EndTime r)
    (cl_Recompressed r) (cl_RecompressedAt r) (cl_Failures r) (cl_FailureKind r)).

(** A fresh clip starts un-recompressed; the cause of an old failure stays. *)
Definition SetEventClip (id path : string) (size : Z) : list ClipRow -> list ClipRow :=
  update_clip id (fun r => mkClip (cl_EventID r) (cl_Camera r) path true size (cl_EndTime r) false None 0 (cl_FailureKind r)).

Record ClipRecompressState := mkClipState { st_ClipPath : string; st_ClipAvailable : bool; st_Recompressed : bool }.

Definition GetClipRecompressState (id : string) (c : list ClipRow) : option ClipRecompressState :=
  (fun r => mkClipState (cl_Path r) (cl_Available r) (cl_Recompressed r)) <$>
    find (fun r => String.eqb (cl_EventID r) id) c.

(** The rows a startup reset frees: at the cap, not recompressed, and last failed for a
    cause that is not permanent ([excludeKinds]). *)
Definition seg_stuck (permanentKinds : list string) (r : SegmentRecord) : bool :=
  (3 <=? sg_RecompressFailures r) && negb (sg_Recompressed r) && negb (bool_decide (sg_failure_kind r ∈ permanentKinds)).

Definition ResetStuckRecompressFailures (permanentKinds : list string) (t : SegTable) : SegTable * Z :=
  (mkSegTable ((fun r => if seg_stuck permanentKinds r then
       mkSegment (sg_ID r) (sg_Camera r) (sg_Path r) (sg_StartTime r) (sg_EndTime r) (sg_SizeBytes r)
         (sg_Recompressed r) (sg_RecompressedAt r) 0 (sg_failure_kind r) else r) <$> sg_rows t) (sg_seq t),
   Z.of_nat (length (filter (fun r => seg_stuck permanentKinds r = true) (sg_rows t)))).

Definition clip_stuck (permanentKinds : list string) (r : ClipRow) : bool :=
  (3 <=? cl_Failures r) && negb (cl_Recompressed r) && cl_Available r && negb (bool_decide (cl_FailureKind r ∈ permanentKinds)).

Definition ResetStuckClipRecompressFailures (permanentKinds : list string) (c : list ClipRow) : list ClipRow * Z :=
  ((fun r => if clip_stuck permanentKinds r then
      mkClip (cl_EventID r) (cl_Camera r) (cl_Path r) (cl_Available r) (cl_SizeBytes r) (cl_EndTime r)
        (cl_Recompressed r) (cl_RecompressedAt r) 0 (cl_FailureKind r) else r) <$> c,
   Z.of_nat (length (filter (fun r => clip_stuck permanentKinds r = true) c))).

(** ** The backfill of clip sizes *)

Definition unsized (r : ClipRow) : bool :=
  cl_Available r && (cl_SizeBytes r =? 0) && negb (String.eqb (cl_Path r) "").

Definition backfill_one (m : Media) (r : ClipRow) : Media :=
  match os_Stat (cl_Path r) m with
  | StatOk fi => set_clips (set_clip_size (cl_EventID r) (fi_Size fi) (md_clips m)) m
  | _ => set_clips (UpdateEventClipAvailability (cl_EventID r) false (md_clips m)) m
  end.

Definition BackfillClipSizes (batch : Z) (m : Media) : Media * Z :=
  let todo := limit batch (filter (fun r => unsized r = true) (md_clips m)) in
  (fold_left backfill_one todo m, Z.of_nat (length todo)).

(** The loop of [backfillClipSizes]: [None] when the fuel runs out. *)
Fixpoint backfill_loop (fuel : nat) (total : Z) (m : Media) : option (Media * Z) :=
  match fuel with
  | O => None
  | S fuel =>
      let '(m, examined) := BackfillClipSizes 200 m in
      let total := total + examined in
      if examined <? 200 then Some (m, total) else backfill_loop fuel total m
  end.

Definition backfillClipSizes (fuel : nat) (m : Media) : option Media := fst <$> backfill_loop fuel 0 m.

(** ** Configuration *)

Record TieredStorageConfig := mkTiered {
  ts_Enabled : bool;
  ts_AfterDays : Z;
  ts_TargetWidth : Z;
  ts_TargetHeight : Z;
  ts_Priority : string;
  ts_RepairClipsBefore : Z
}.

(** Nil overrides inherit. *)
Record CameraConfig := mkCamera { cam_Name : string; cam_Enabled : option bool; cam_AfterDays : option Z }.

Definition EffectiveTieredStorage (global : TieredStorageConfig) (c : CameraConfig) : TieredStorageConfig :=
  mkTiered (default (ts_Enabled global) (cam_Enabled c)) (default (ts_AfterDays global) (cam_AfterDays c))
    (ts_TargetWidth global) (ts_TargetHeight global) (ts_Priority global) (ts_RepairClipsBefore global).

(** The counters of a [Recompressor], with its configuration. *)
Record Recompressor := mkRecompressor {
  rp_cfg : TieredStorageConfig;
  rp_cameras : list CameraConfig;
  rp_lastRun : Z;
  rp_segmentsRecompressed : Z;
  rp_clipsRecompressed : Z;
  rp_bytesReclaimed : Z;
  rp_transcodeFailures : Z;
  rp_workerCrashes : Z;
  rp_workerTimeouts : Z
}.

Definition NewRecompressor (cfg : TieredStorageConfig) (cameras : list CameraConfig) : Recompressor :=
  mkRecompressor cfg cameras 0 0 0 0 0 0 0.

(** A later camera of the same name replaces an earlier one. *)
Definition eligibleCameras (r : Recompressor) : gmap string TieredStorageConfig :=
  fold_left (fun m c =>
    let eff := EffectiveTieredStorage (rp_cfg r) c in
    if ts_Enabled eff then <[cam_Name c := eff]> m else m) (rp_cameras r) ∅.

Inductive recompressKind := kindSegment | kindClip.

Record recompressTarget := mkTarget {
  tg_kind : recompressKind;
  tg_segID : Z;
  tg_eventID : string;
  tg_camera : string;
  tg_path : string;
  tg_sizeBytes : Z;
  tg_endTime : Z;
  tg_failures : Z
}.

Definition seg_target (s : SegmentRecord) : recompressTarget :=
  mkTarget kindSegment (sg_ID s) "" (sg_Camera s) (sg_Path s) (sg_SizeBytes s) (sg_EndTime s) (sg_RecompressFailures s).

Definition clip_target (c : ClipRow) : recompressTarget :=
  mkTarget kindClip 0 (cl_EventID c) (cl_Camera c) (cl_Path c) (cl_SizeBytes c) (clip_end c) (cl_Failures c).

(** ** Selection *)

Definition segmentCandidateBatch : Z := 16.

Definition priority_of (r : Recompressor) : string :=
  if String.eqb (ts_Priority (rp_cfg r)) "" then "largest" else ts_Priority (rp_cfg r).

(** [consider]: a strictly better candidate replaces the best one. *)
Definition consider (priority : string) (best : option recompressTarget) (c : recompressTarget) : option recompressTarget :=
  match best with
  | None => Some c
  | Some b =>
      if String.eqb priority "largest"
      then if tg_sizeBytes b <? tg_sizeBytes c then Some c else best
      else if tg_endTime c <? tg_endTime b then Some c else best
  end.

(** The order in which Go ranges over the eligible cameras. *)
Class CameraOrder := camera_order : gmap string TieredStorageConfig -> list (string * TieredStorageConfig).
Class CameraOrderOk `{CameraOrder} := camera_order_perm m : camera_order m ≡ₚ map_to_list m.

(** The transcoder: its effect on the files, and its answer; [None] is a panic, which
    [safeTranscode] turns into an error. *)
Definition Transcoder : Type := string -> Z -> Z -> Disk -> Disk * option (result TranscodeError TranscodeResult).

Section recompressor.
Context `{CameraOrder} (transcodeFn : Transcoder) (inUseFn : string -> bool).

Definition first_clip (priority camera : string) (cutoff : Z) (m : Media) : option ClipRow :=
  head (if String.eqb priority "largest" then GetClipRecompressionCandidatesBySize camera cutoff 1 (md_clips m)
        else GetClipsForRecompression camera cutoff (md_clips m)).

(** The first candidate segment that is not being served. *)
Definition first_segment (priority camera : string) (cutoff : Z) (m : Media) : option SegmentRecord :=
  find (fun s => negb (inUseFn (sg_Path s)))
    (if String.eqb priority "largest" then GetRecompressionCandidatesBySize camera cutoff segmentCandidateBatch (md_segs m)
     else GetSegmentsForRecompression camera cutoff (md_segs m)).

Definition consider_opt (priority : string) (best : option recompressTarget) (c : option recompressTarget) :=
  match c with Some c => consider priority best c | None => best end.

(** The historical repair set, which has strict priority. *)
Definition select_repair (r : Recompressor) (m : Media) : option recompressTarget :=
  if IsZero (ts_RepairClipsBefore (rp_cfg r)) then None
  else fold_left (fun best (c : string * TieredStorageConfig) =>
         consider_opt (priority_of r) best
           (clip_target <$> first_clip (priority_of r) c.1 (ts_RepairClipsBefore (rp_cfg r)) m))
         (camera_order (eligibleCameras r)) None.

Definition select_tiered (r : Recompressor) (now : Z) (m : Media) : option recompressTarget :=
  fold_left (fun best (c : string * TieredStorageConfig) =>
    let cutoff := cutoff_of now (ts_AfterDays c.2) in
    let best := consider_opt (priority_of r) best (seg_target <$> first_segment (priority_of r) c.1 cutoff m) in
    consider_opt (priority_of r) best (clip_target <$> first_clip (priority_of r) c.1 cutoff m))
  (camera_order (eligibleCameras r)) None.

Definition select (r : Recompressor) (now : Z) (m : Media) : option recompressTarget :=
  match select_repair r m with
  | Some best => Some best
  | None => select_tiered r now m
  end.

(** ** Processing *)

Definition revalidate (t : recompressTarget) (m : Media) : Media * bool :=
  match tg_kind t with
  | kindSegment =>
      match GetSegmentByID (tg_segID t) (md_segs m) with
      | None => (m, false)
      | Some seg =>
          if sg_Recompressed seg then (m, false)
          else match os_Stat (sg_Path seg) m with
               | StatOk _ => (m, true)
               | StatNotExist => (set_segs (DeleteSegmentByID (sg_ID seg) (md_segs m)) m, false)
               | StatError => (m, false)
               end
      end
  | kindClip =>
      match GetClipRecompressState (tg_eventID t) (md_clips m) with
      | None => (m, false)
      | Some st =>
          if negb (st_ClipAvailable st) || st_Recompressed st || negb (String.eqb (st_ClipPath st) (tg_path t)) then (m, false)
          else match os_Stat (tg_path t) m with
               | StatOk _ => (m, true)
               | _ => (set_clips (UpdateEventClipAvailability (tg_eventID t) false (md_clips m)) m, false)
               end
      end
  end.

Definition safeTranscode (r : Recompressor) (path : string) (d : Disk) : Disk * result TranscodeError TranscodeResult :=
  let '(d, answer) := transcodeFn path (ts_TargetWidth (rp_cfg r)) (ts_TargetHeight (rp_cfg r)) d in
  (d, default (Err OtherError) answer).

Definition markRecompressed (now : Z) (t : recompressTarget) (newSize : Z) (m : Media) : Media :=
  match tg_kind t with
  | kindSegment => set_segs (MarkSegmentRecompressed now (tg_segID t) newSize (md_segs m)) m
  | kindClip => set_clips (MarkClipRecompressed now (tg_eventID t) newSize (md_clips m)) m
  end.

Definition incrementFailure (t : recompressTarget) (cause : transcodeFailureKind) (m : Media) : Media :=
  match tg_kind t with
  | kindSegment => set_segs (IncrementSegmentRecompressFailures (tg_segID t) cause (md_segs m)) m
  | kindClip => set_clips (IncrementClipRecompressFailures (tg_eventID t) cause (md_clips m)) m
  end.

Definition recordTranscodeFailure (err : TranscodeError) (r : Recompressor) : Recompressor :=
  let crash := match err with WorkerError k => String.eqb k transcodeFailureCrash | OtherError => false end in
  let timeout := match err with WorkerError k => String.eqb k transcodeFailureTimeout | OtherError => false end in
  mkRecompressor (rp_cfg r) (rp_cameras r) (rp_lastRun r) (rp_segmentsRecompressed r) (rp_clipsRecompressed r)
    (rp_bytesReclaimed r) (i64 (rp_transcodeFailures r + 1))
    (if crash then i64 (rp_workerCrashes r + 1) else rp_workerCrashes r)
    (if timeout then i64 (rp_workerTimeouts r + 1) else rp_workerTimeouts r).

Definition record_success (now : Z) (t : recompressTarget) (saved : Z) (r : Recompressor) : Recompressor :=
  mkRecompressor (rp_cfg r) (rp_cameras r) now
    (match tg_kind t with kindSegment => i64 (rp_segmentsRecompressed r + 1) | kindClip => rp_segmentsRecompressed r end)
    (match tg_kind t with kindSegment => rp_clipsRecompressed r | kindClip => i64 (rp_clipsRecompressed r + 1) end)
    (i64 (rp_bytesReclaimed r + saved)) (rp_transcodeFailures r) (rp_workerCrashes r) (rp_workerTimeouts r).

(** [locked]: another operation holds the segment lock. *)
Definition processTarget (locked : bool) (now : Z) (best : recompressTarget) (r : Recompressor) (m : Media)
    : Recompressor * Media * bool :=
  if locked then (r, m, false)
  else match revalidate best m with
       | (m, false) => (r, m, true)
       | (m, true) =>
           let clipModTime :=
             match tg_kind best, os_Stat (tg_path best) m with
             | kindClip, StatOk fi => fi_ModTime fi
             | _, _ => 0
             end in
           let '(d, answer) := safeTranscode r (tg_path best) (md_disk m) in
           let m := set_disk d m in
           match answer with
           | Err err => (recordTranscodeFailure err r, incrementFailure best (failureKindOf err) m, true)
           | Ok res =>
               let newSize := if tr_Skipped res then tg_sizeBytes best else tr_NewSize res in
               let m := markRecompressed now best newSize m in
               let m := match tg_kind best with
                        | kindClip => if negb (tr_Skipped res) && negb (IsZero clipModTime)
                                      then os_Chtimes (tg_path best) clipModTime m else m
                        | kindSegment => m
                        end in
               if tr_Skipped res then (r, m, true)
               else (record_success now best (i64 (tr_OriginalSize res - tr_NewSize res)) r, m, true)
           end
       end.

Definition processOne (locked : bool) (now : Z) (r : Recompressor) (m : Media) : Recompressor * Media * bool :=
  match select r now m with
  | None => (r, m, false)
  | Some best => processTarget locked now best r m
  end.

(** ** The passes *)

(** A manual pass while nobody else holds the lock: [clk i] is the instant of its [i]th
    turn.  [None] when the fuel runs out; the answer counts the turns. *)
Fixpoint run_loop (fuel : nat) (clk : nat -> Z) (processed : nat) (r : Recompressor) (m : Media)
    : option (Recompressor * Media * nat) :=
  match fuel with
  | O => None
  | S fuel =>
      match processOne false (clk processed) r m with
      | (r, m, true) => run_loop fuel clk (S processed) r m
      | (r, m, false) => Some (r, m, processed)
      end
  end.

Definition RunNow (fuel : nat) (clk : nat -> Z) (r : Recompressor) (m : Media) := run_loop fuel clk 0 r m.

(** What [Start] does before its worker runs. *)
Definition Start_resets (fuel : nat) (r : Recompressor) (m : Media) : option Media :=
  if negb (ts_Enabled (rp_cfg r)) then Some m
  else
    let m := set_segs (ResetStuckRecompressFailures permanentFailureKinds (md_segs m)).1 m in
    let m := set_clips (ResetStuckClipRecompressFailures permanentFailureKinds (md_clips m)).1 m in
    backfillClipSizes fuel m.

(** A tick of the worker; [inWindow] is what the schedule says, [None] when it is
    malformed. *)
Definition worker_tick (inWindow : option bool) (locked : bool) (now : Z) (r : Recompressor) (m : Media) : Recompressor * Media :=
  match inWindow with
  | Some true => (processOne locked now r m).1
  | _ => (r, m)
  end.

End recompressor.
