(* ===== verification/RecompressTheorems.v ===== *)
(** What recompression guarantees: it takes the best eligible artifact, records
    exactly its outcome, and a manual pass ends with nothing left to do; and the two
    loops that need not end. *)

From S2P Require Import Prelude SegmentStore Retention Recompress.
From Stdlib Require Import Ascii.

#[local] Open Scope string_scope.
#[local] Open Scope Z_scope.

(** ** Sorted candidates *)

#[global] Instance largest_seg_total : Total largest_seg.
Proof. intros a b. unfold largest_seg. lia. Qed.
#[global] Instance largest_seg_trans : Transitive largest_seg.
Proof. intros a b c. unfold largest_seg. lia. Qed.
#[global] Instance end_le_total : Total end_le.
Proof. intros a b. unfold end_le. lia. Qed.
#[global] Instance end_le_trans : Transitive end_le.
Proof. intros a b c. unfold end_le. lia. Qed.
#[global] Instance largest_clip_total : Total largest_clip.
Proof. intros a b. unfold largest_clip. lia. Qed.
#[global] Instance largest_clip_trans : Transitive largest_clip.
Proof. intros a b c. unfold largest_clip. lia. Qed.
#[global] Instance oldest_clip_total : Total oldest_clip.
Proof. intros a b. unfold oldest_clip. lia. Qed.
#[global] Instance oldest_clip_trans : Transitive oldest_clip.
Proof. intros a b c. unfold oldest_clip. lia. Qed.

Lemma head_limit_1 {A} (l : list A) : head (limit 1 l) = head l.
Proof. unfold limit. by destruct l. Qed.

(** The head of a sorted list comes before all of it. *)
Lemma head_sorted {A} (R : relation A) `{!RelDecision R, !Total R, !Transitive R} l x :
  head (merge_sort R l) = Some x -> x ∈ l /\ forall y, y ∈ l -> R x y.
Proof.
  intros Hx. pose proof (StronglySorted_merge_sort R l) as Hs. destruct (merge_sort R l) as [|a l'] eqn:E; [done|].
  injection Hx as ->. assert (forall y, y ∈ l <-> y ∈ x :: l') as Hin by (intros y; by rewrite <- E, merge_sort_elem_of).
  split; [apply Hin; by left|]. intros y [->|Hy]%Hin%elem_of_cons; [by destruct (total R x x)|].
  apply StronglySorted_inv in Hs as [_ Hs]. rewrite Forall_forall in Hs. by apply Hs.
Qed.

(** The first element of a sorted list that passes a test comes before all that do. *)
Lemma find_sorted {A} (R : relation A) (f : A -> bool) l x :
  (forall y, R y y) -> StronglySorted R l -> find f l = Some x -> x ∈ l /\ f x = true /\ forall y, y ∈ l -> f y = true -> R x y.
Proof.
  intros Hrefl. induction l as [|a l IH]; [done|]. intros [Hs Ha]%StronglySorted_inv. cbn. destruct (f a) eqn:Ef.
  - intros [= ->]. split_and!; [by left|done|]. intros y [->|Hy]%elem_of_cons _; [done|].
    rewrite Forall_forall in Ha. by apply Ha.
  - intros Hf. destruct (IH Hs Hf) as (Hin & Hfx & Hle). split_and!; [by right|done|].
    intros y [->|Hy]%elem_of_cons Hfy; [congruence|by apply Hle].
Qed.

Lemma StronglySorted_limit {A} (R : relation A) n l : StronglySorted R l -> StronglySorted R (limit n l).
Proof.
  unfold limit. destruct (n <? 0); [done|]. apply StronglySorted_take.
Qed.

Lemma elem_of_limit {A} n (l : list A) x : x ∈ limit n l -> x ∈ l.
Proof. unfold limit. destruct (n <? 0); [done|]. intros (i & Hi & _)%elem_of_take. by eapply list_elem_of_lookup_2. Qed.

Lemma fold_left_map {A B C} (f : A -> B) (g : C -> B -> C) l c :
  fold_left (fun c a => g c (f a)) l c = fold_left g (f <$> l) c.
Proof. revert c. induction l as [|a l IH]; intros c; cbn; [done|apply IH]. Qed.

(** ** The best of the candidates *)

(** [a] is at least as good as [b]. *)
Definition at_least (priority : string) (a b : recompressTarget) : Prop :=
  if String.eqb priority "largest" then tg_sizeBytes b <= tg_sizeBytes a else tg_endTime a <= tg_endTime b.

Lemma at_least_refl p a : at_least p a a.
Proof. unfold at_least. destruct (String.eqb p _); lia. Qed.

Lemma at_least_trans p a b c : at_least p a b -> at_least p b c -> at_least p a c.
Proof. unfold at_least. destruct (String.eqb p _); lia. Qed.

Lemma consider_best p best c :
  exists t, consider p best c = Some t /\ (best = Some t \/ t = c) /\
    at_least p t c /\ forall b, best = Some b -> at_least p t b.
Proof.
  unfold consider, at_least. destruct best as [b|].
  - destruct (String.eqb p "largest").
    + destruct (Z.ltb_spec (tg_sizeBytes b) (tg_sizeBytes c)); eexists; (split; [done|]); (split; [tauto|]);
        (split; [lia|]); intros b' [= <-]; lia.
    + destruct (Z.ltb_spec (tg_endTime c) (tg_endTime b)); eexists; (split; [done|]); (split; [tauto|]);
        (split; [lia|]); intros b' [= <-]; lia.
  - exists c. split_and!; [done|by right| |done]. destruct (String.eqb p _); lia.
Qed.

Lemma fold_consider p cs best :
  match fold_left (consider_opt p) cs best with
  | None => best = None /\ forall c, c ∈ cs -> c = None
  | Some t => (best = Some t \/ Some t ∈ cs) /\
      (forall b, best = Some b -> at_least p t b) /\ (forall c, Some c ∈ cs -> at_least p t c)
  end.
Proof.
  revert best. induction cs as [|c cs IH]; intros best; cbn.
  { destruct best as [t|]; [|split; [done|by intros c ?%elem_of_nil]].
    split_and!; [by left|intros b [= <-]; apply at_least_refl|by intros c ?%elem_of_nil]. }
  specialize (IH (consider_opt p best c)). destruct c as [c|]; cbn in *.
  - destruct (consider_best p best c) as (t0 & E & Hor & Hc & Hb). rewrite E in *.
    destruct (fold_left _ cs (Some t0)) as [t|]; [|by destruct IH].
    destruct IH as (Ht & Ht0 & Hcs). split_and!.
    + destruct Ht as [ [= ->]|Ht]; [|right; by right]. destruct Hor as [| ->]; [by left|right; by left].
    + intros b Hbb. eapply at_least_trans; [by apply Ht0|by apply Hb].
    + intros c' [ [= ->]|Hc']%elem_of_cons; [eapply at_least_trans; [by apply Ht0|done]|by apply Hcs].
  - destruct (fold_left _ cs best) as [t|].
    + destruct IH as (Ht & Hb & Hcs). split_and!; [destruct Ht; [by left|right; by right]|done|].
      intros c' [?|Hc']%elem_of_cons; [done|by apply Hcs].
    + destruct IH as [-> Hn]. split; [done|]. intros c [->|Hc]%elem_of_cons; [done|by apply Hn].
Qed.

Section theorems.
Context `{!CameraOrder, !CameraOrderOk} (transcodeFn : Transcoder) (inUseFn : string -> bool).

(** ** Selection *)

(** What may be recompressed at [now]: an artifact of a camera with tiered storage,
    past its cutoff, not recompressed, failed less than three times; for a segment,
    not being served. *)
Definition eligible_segment (r : Recompressor) (now : Z) (m : Media) (s : SegmentRecord) : Prop :=
  exists eff, eligibleCameras r !! sg_Camera s = Some eff /\ s ∈ sg_rows (md_segs m) /\
    seg_candidate (sg_Camera s) (cutoff_of now (ts_AfterDays eff)) s /\ inUseFn (sg_Path s) = false.

Definition eligible_clip (r : Recompressor) (now : Z) (m : Media) (c : ClipRow) : Prop :=
  exists eff, eligibleCameras r !! cl_Camera c = Some eff /\ c ∈ md_clips m /\
    clip_candidate (cl_Camera c) (cutoff_of now (ts_AfterDays eff)) c.

(** A clip of the historical repair set. *)
Definition repair_clip (r : Recompressor) (m : Media) (c : ClipRow) : Prop :=
  ts_RepairClipsBefore (rp_cfg r) <> 0 /\ is_Some (eligibleCameras r !! cl_Camera c) /\ c ∈ md_clips m /\
  clip_candidate (cl_Camera c) (ts_RepairClipsBefore (rp_cfg r)) c.

Lemma first_clip_spec p camera cutoff m :
  match first_clip p camera cutoff m with
  | Some c => c ∈ md_clips m /\ clip_candidate camera cutoff c /\
      forall c', c' ∈ md_clips m -> clip_candidate camera cutoff c' -> at_least p (clip_target c) (clip_target c')
  | None => forall c, c ∈ md_clips m -> ~ clip_candidate camera cutoff c
  end.
Proof.
  unfold first_clip, GetClipRecompressionCandidatesBySize, GetClipsForRecompression, at_least.
  assert (forall R `{!RelDecision R}, merge_sort R (filter (clip_candidate camera cutoff) (md_clips m)) = [] ->
    forall c, c ∈ md_clips m -> ~ clip_candidate camera cutoff c) as Hnil.
  { intros R ? E c Hc Hcc. assert (c ∈ merge_sort R (filter (clip_candidate camera cutoff) (md_clips m))) as Hin.
    { apply merge_sort_elem_of, list_elem_of_filter. done. } rewrite E in Hin. by apply elem_of_nil in Hin. }
  destruct (String.eqb p "largest"); [rewrite head_limit_1|];
    destruct (head (merge_sort _ _)) as [c|] eqn:E; try (eapply Hnil; by apply head_None in E).
  - apply (head_sorted largest_clip) in E as [[Hcc Hc]%list_elem_of_filter Hle]. split_and!; [done|done|].
    intros c' Hc' Hcc'. assert (largest_clip c c') as Hl by (apply Hle, list_elem_of_filter; done).
    cbn. unfold largest_clip in Hl. lia.
  - apply (head_sorted oldest_clip) in E as [[Hcc Hc]%list_elem_of_filter Hle]. split_and!; [done|done|].
    intros c' Hc' Hcc'. assert (oldest_clip c c') as Hl by (apply Hle, list_elem_of_filter; done). exact Hl.
Qed.

(** The segments a selection looks at: with priority to the largest, a batch. *)
Definition in_batch (p camera : string) (cutoff : Z) (m : Media) (s : SegmentRecord) : Prop :=
  String.eqb p "largest" = true -> s ∈ GetRecompressionCandidatesBySize camera cutoff segmentCandidateBatch (md_segs m).

Lemma first_segment_spec p camera cutoff m :
  match first_segment inUseFn p camera cutoff m with
  | Some s => s ∈ sg_rows (md_segs m) /\ seg_candidate camera cutoff s /\ inUseFn (sg_Path s) = false /\
      forall s', s' ∈ sg_rows (md_segs m) -> seg_candidate camera cutoff s' -> inUseFn (sg_Path s') = false ->
        in_batch p camera cutoff m s' -> at_least p (seg_target s) (seg_target s')
  | None => forall s, s ∈ sg_rows (md_segs m) -> seg_candidate camera cutoff s -> in_batch p camera cutoff m s ->
      inUseFn (sg_Path s) = true
  end.
Proof.
  unfold first_segment, in_batch, at_least.
  set (l := if String.eqb p "largest" then _ else _).
  assert (forall s, s ∈ l -> s ∈ sg_rows (md_segs m) /\ seg_candidate camera cutoff s) as Hl.
  { intros s Hs. subst l. destruct (String.eqb p "largest"); [apply elem_of_limit in Hs|];
      apply merge_sort_elem_of, list_elem_of_filter in Hs; tauto. }
  assert (forall s, s ∈ sg_rows (md_segs m) -> seg_candidate camera cutoff s ->
    (String.eqb p "largest" = true -> s ∈ GetRecompressionCandidatesBySize camera cutoff segmentCandidateBatch (md_segs m)) ->
    s ∈ l) as Hin.
  { intros s Hs Hsc Hb. subst l. destruct (String.eqb p "largest"); [by apply Hb|].
    by apply merge_sort_elem_of, list_elem_of_filter. }
  destruct (find _ l) as [s|] eqn:E.
  - assert (s ∈ l /\ negb (inUseFn (sg_Path s)) = true /\ forall s', s' ∈ l -> negb (inUseFn (sg_Path s')) = true ->
      if String.eqb p "largest" then tg_sizeBytes (seg_target s') <= tg_sizeBytes (seg_target s)
      else tg_endTime (seg_target s) <= tg_endTime (seg_target s')) as (Hs & Hu%negb_true_iff & Hle).
    { subst l. destruct (String.eqb p "largest").
      - apply (find_sorted (fun a b => sg_SizeBytes b <= sg_SizeBytes a)) in E;
          [exact E|intros ?; lia|].
        apply StronglySorted_limit. eapply StronglySorted_weaken; [|apply (StronglySorted_merge_sort largest_seg)].
        unfold largest_seg. intros ?? _ _. lia.
      - apply (find_sorted end_le) in E; [exact E|intros ?; unfold end_le; lia|].
        apply (StronglySorted_merge_sort end_le). }
    destruct (Hl s Hs). split_and!; [done|done|done|]. intros s' Hs' Hsc' Hu' Hb. apply Hle; [by apply Hin|].
    by apply negb_true_iff.
  - intros s Hs Hsc Hb. pose proof (find_none _ _ E s (proj1 (list_elem_of_In _ _) (Hin s Hs Hsc Hb))) as Hn.
    by apply negb_false_iff in Hn.
Qed.

(** The candidates a turn weighs, as targets. *)
Definition tiered_candidates (r : Recompressor) (now : Z) (m : Media) (c : string * TieredStorageConfig)
    : list (option recompressTarget) :=
  [seg_target <$> first_segment inUseFn (priority_of r) c.1 (cutoff_of now (ts_AfterDays c.2)) m;
   clip_target <$> first_clip (priority_of r) c.1 (cutoff_of now (ts_AfterDays c.2)) m].

Lemma select_tiered_fold r now m :
  select_tiered inUseFn r now m =
  fold_left (consider_opt (priority_of r)) (camera_order (eligibleCameras r) ≫= tiered_candidates r now m) None.
Proof.
  unfold select_tiered. generalize (@None recompressTarget). induction (camera_order (eligibleCameras r)) as [|c l IH];
    intros best; [done|]. cbn. by rewrite IH.
Qed.

Lemma camera_listed r camera eff : (camera, eff) ∈ camera_order (eligibleCameras r) <-> eligibleCameras r !! camera = Some eff.
Proof. rewrite camera_order_perm. apply elem_of_map_to_list. Qed.

Lemma select_tiered_spec r now m :
  let p := priority_of r in
  match select_tiered inUseFn r now m with
  | Some t =>
      ((exists s, t = seg_target s /\ eligible_segment r now m s) \/ (exists c, t = clip_target c /\ eligible_clip r now m c)) /\
      (forall c, eligible_clip r now m c -> at_least p t (clip_target c)) /\
      (forall s eff, eligible_segment r now m s -> eligibleCameras r !! sg_Camera s = Some eff ->
         in_batch p (sg_Camera s) (cutoff_of now (ts_AfterDays eff)) m s -> at_least p t (seg_target s))
  | None => (forall c, ~ eligible_clip r now m c) /\
      (forall s eff, eligibleCameras r !! sg_Camera s = Some eff ->
         in_batch p (sg_Camera s) (cutoff_of now (ts_AfterDays eff)) m s -> ~ eligible_segment r now m s)
  end.
Proof.
  intros p. rewrite select_tiered_fold. fold p.
  pose proof (fold_consider p (camera_order (eligibleCameras r) ≫= tiered_candidates r now m) None) as Hf.
  assert (forall c x, c ∈ camera_order (eligibleCameras r) -> x ∈ tiered_candidates r now m c ->
    x ∈ camera_order (eligibleCameras r) ≫= tiered_candidates r now m) as Hin.
  { intros c x Hc Hx. apply list_elem_of_bind. by exists c. }
  (* the first candidate of a camera is at least as good as any of its artifacts *)
  assert (forall c, eligible_clip r now m c -> exists c', at_least p (clip_target c') (clip_target c) /\
    Some (clip_target c') ∈ camera_order (eligibleCameras r) ≫= tiered_candidates r now m) as Hclip.
  { intros c (eff & He & Hc & Hcc). pose proof (first_clip_spec p (cl_Camera c) (cutoff_of now (ts_AfterDays eff)) m) as Hs.
    destruct (first_clip p _ _ m) as [c'|] eqn:E; [|by destruct (Hs c Hc)]. exists c'. split; [by apply Hs|].
    eapply Hin; [by apply camera_listed|]. unfold tiered_candidates. cbn. fold p. rewrite E. right. by left. }
  assert (forall s eff, eligible_segment r now m s -> eligibleCameras r !! sg_Camera s = Some eff ->
    in_batch p (sg_Camera s) (cutoff_of now (ts_AfterDays eff)) m s ->
    exists s', at_least p (seg_target s') (seg_target s) /\
      Some (seg_target s') ∈ camera_order (eligibleCameras r) ≫= tiered_candidates r now m) as Hseg.
  { intros s eff (eff' & He' & Hs & Hsc & Hu) He Hb. rewrite He in He'. injection He' as <-.
    pose proof (first_segment_spec p (sg_Camera s) (cutoff_of now (ts_AfterDays eff)) m) as Hfs.
    destruct (first_segment inUseFn p _ _ m) as [s'|] eqn:E; [|by rewrite (Hfs s) in Hu]. exists s'.
    split; [by apply Hfs|].
    eapply Hin; [by apply camera_listed|]. unfold tiered_candidates. cbn. fold p. rewrite E. by left. }
  destruct (fold_left _ _ None) as [t|].
  - destruct Hf as ([?|Ht] & _ & Hbest); [done|]. split_and!.
    + apply list_elem_of_bind in Ht as ([camera eff] & Ht & He%camera_listed). unfold tiered_candidates in Ht. cbn in Ht. fold p in Ht.
      apply elem_of_cons in Ht as [Ht|Ht%list_elem_of_singleton].
      * pose proof (first_segment_spec p camera (cutoff_of now (ts_AfterDays eff)) m) as Hfs.
        destruct (first_segment inUseFn p _ _ m) as [s|]; [|done]. injection Ht as ->. left. exists s. split; [done|].
        destruct Hfs as (? & Hsc & ? & _). assert (sg_Camera s = camera) as <- by apply Hsc. by exists eff.
      * pose proof (first_clip_spec p camera (cutoff_of now (ts_AfterDays eff)) m) as Hfs.
        destruct (first_clip p _ _ m) as [c|]; [|done]. injection Ht as ->. right. exists c. split; [done|].
        destruct Hfs as (? & Hsc & _). assert (cl_Camera c = camera) as <- by apply Hsc. by exists eff.
    + intros c Hc. destruct (Hclip c Hc) as (c' & Hle & Hx). eapply at_least_trans; [by apply Hbest|done].
    + intros s eff Hs He Hb. destruct (Hseg s eff Hs He Hb) as (s' & Hle & Hx).
      eapply at_least_trans; [by apply Hbest|done].
  - destruct Hf as [_ Hnone]. split.
    + intros c Hc. destruct (Hclip c Hc) as (c' & _ & Hx). by apply Hnone in Hx.
    + intros s eff He Hb Hs. destruct (Hseg s eff Hs He Hb) as (s' & _ & Hx). by apply Hnone in Hx.
Qed.

Lemma select_repair_spec r m :
  match select_repair r m with
  | Some t => (exists c, t = clip_target c /\ repair_clip r m c) /\
      forall c, repair_clip r m c -> at_least (priority_of r) t (clip_target c)
  | None => forall c, ~ repair_clip r m c
  end.
Proof.
  unfold select_repair. set (p := priority_of r). set (cutoff := ts_RepairClipsBefore (rp_cfg r)).
  destruct (IsZero cutoff) eqn:Ez.
  { apply Z.eqb_eq in Ez. intros c [Hz _]. by destruct Hz. }
  apply Z.eqb_neq in Ez.
  rewrite (fold_left_map (fun c : string * TieredStorageConfig => clip_target <$> first_clip p c.1 cutoff m)).
  pose proof (fold_consider p ((fun c : string * TieredStorageConfig => clip_target <$> first_clip p c.1 cutoff m) <$>
    camera_order (eligibleCameras r)) None) as Hf.
  assert (forall c, repair_clip r m c -> exists c', at_least p (clip_target c') (clip_target c) /\
    Some (clip_target c') ∈ (fun c : string * TieredStorageConfig => clip_target <$> first_clip p c.1 cutoff m) <$>
      camera_order (eligibleCameras r)) as Hclip.
  { intros c (_ & [eff He] & Hc & Hcc). pose proof (first_clip_spec p (cl_Camera c) cutoff m) as Hs.
    destruct (first_clip p (cl_Camera c) cutoff m) as [c'|] eqn:E; [|by destruct (Hs c Hc)].
    exists c'. split; [by apply Hs|]. apply list_elem_of_fmap. exists (cl_Camera c, eff). cbn. rewrite E.
    split; [done|]. by apply camera_listed. }
  destruct (fold_left _ _ None) as [t|].
  - destruct Hf as ([?|Ht] & _ & Hbest); [done|]. split.
    + apply list_elem_of_fmap in Ht as ([camera eff] & Ht & He%camera_listed). cbn in Ht.
      pose proof (first_clip_spec p camera cutoff m) as Hs. destruct (first_clip p camera cutoff m) as [c|]; [|done].
      injection Ht as ->. exists c. split; [done|]. destruct Hs as (? & Hcc & _).
      assert (cl_Camera c = camera) as <- by apply Hcc. split_and!; [done|by exists eff|done|done].
    + intros c Hc. destruct (Hclip c Hc) as (c' & Hle & Hx). eapply at_least_trans; [by apply Hbest|done].
  - destruct Hf as [_ Hnone]. intros c Hc. destruct (Hclip c Hc) as (c' & _ & Hx). by apply Hnone in Hx.
Qed.

(** Recompression takes the best there is.  While a clip of the historical repair
    set remains it takes one, and no other artifact; else it takes an artifact of a
    camera with tiered storage that is past that camera's cutoff, not recompressed and
    failed less than three times, never a segment being served.  With priority to the
    largest no other such clip, and no other such segment of the sixteen largest of
    its camera, is larger; otherwise none is older.  It takes nothing only when
    nothing of that kind is left. *)
Theorem select_takes_the_best r now m :
  let p := priority_of r in
  match select inUseFn r now m with
  | Some t =>
      (exists c, t = clip_target c /\ repair_clip r m c /\
         forall c', repair_clip r m c' -> at_least p t (clip_target c')) \/
      ((forall c, ~ repair_clip r m c) /\
       ((exists s, t = seg_target s /\ eligible_segment r now m s) \/ (exists c, t = clip_target c /\ eligible_clip r now m c)) /\
       (forall c, eligible_clip r now m c -> at_least p t (clip_target c)) /\
       (forall s eff, eligible_segment r now m s -> eligibleCameras r !! sg_Camera s = Some eff ->
          in_batch p (sg_Camera s) (cutoff_of now (ts_AfterDays eff)) m s -> at_least p t (seg_target s)))
  | None =>
      (forall c, ~ repair_clip r m c) /\ (forall c, ~ eligible_clip r now m c) /\
      (forall s eff, eligibleCameras r !! sg_Camera s = Some eff ->
         in_batch p (sg_Camera s) (cutoff_of now (ts_AfterDays eff)) m s -> ~ eligible_segment r now m s)
  end.
Proof.
  intros p. unfold select. pose proof (select_repair_spec r m) as Hr.
  destruct (select_repair r m) as [t|].
  - left. destruct Hr as [(c & -> & Hc) Hbest]. exists c. by split_and!.
  - pose proof (select_tiered_spec r now m) as Ht. destruct (select_tiered inUseFn r now m) as [t|]; [right|]; by split.
Qed.

(** ** Progress *)

(** Unique ids, and failure counts that are counts. *)
Record media_ok (m : Media) : Prop := {
  mo_seg_ids : NoDup (sg_ID <$> sg_rows (md_segs m));
  mo_clip_ids : NoDup (cl_EventID <$> md_clips m);
  mo_seg_failures : Forall (fun s => 0 <= sg_RecompressFailures s) (sg_rows (md_segs m));
  mo_clip_failures : Forall (fun c => 0 <= cl_Failures c) (md_clips m)
}.

(** The attempts an artifact has left. *)
Definition seg_weight (s : SegmentRecord) : nat :=
  if sg_Recompressed s then 0 else Z.to_nat (3 - sg_RecompressFailures s).
Definition clip_weight (c : ClipRow) : nat :=
  if cl_Recompressed c || negb (cl_Available c) then 0 else Z.to_nat (3 - cl_Failures c).
Definition weight (m : Media) : nat :=
  (sum_list_with seg_weight (sg_rows (md_segs m)) + sum_list_with clip_weight (md_clips m))%nat.

Lemma weight_bound m :
  media_ok m -> (weight m <= 3 * (length (sg_rows (md_segs m)) + length (md_clips m)))%nat.
Proof.
  intros [_ _ H1 H2]. unfold weight. assert (forall {A} (f : A -> nat) l, Forall (fun x => f x <= 3)%nat l ->
    (sum_list_with f l <= 3 * length l)%nat) as Hs.
  { intros A f l Hl. induction Hl; cbn; lia. }
  pose proof (Hs _ seg_weight (sg_rows (md_segs m))) as Hs1. pose proof (Hs _ clip_weight (md_clips m)) as Hs2.
  assert (Forall (fun x => seg_weight x <= 3)%nat (sg_rows (md_segs m))) as Hf1
    by (eapply Forall_impl; [exact H1|]; intros s Hs0; cbn in *; unfold seg_weight; destruct (sg_Recompressed s); lia).
  assert (Forall (fun x => clip_weight x <= 3)%nat (md_clips m)) as Hf2
    by (eapply Forall_impl; [exact H2|]; intros s Hs0; cbn in *; unfold clip_weight; destruct (_ || _); lia).
  specialize (Hs1 Hf1). specialize (Hs2 Hf2). lia.
Qed.

(** Updating one row of a table with unique keys. *)
Lemma update_one {A K} `{EqDecision K} (key : A -> K) (w : A -> nat) (f : A -> A) (test : A -> bool) l x :
  NoDup (key <$> l) -> x ∈ l -> (forall y, test y = true <-> key y = key x) ->
  (w (f x) < w x)%nat -> (sum_list_with w ((fun y => if test y then f y else y) <$> l) < sum_list_with w l)%nat.
Proof.
  intros Hnd Hx Ht Hw. induction l as [|a l IH]; [by apply elem_of_nil in Hx|]. cbn in *.
  apply NoDup_cons in Hnd as [Ha Hnd].
  assert (forall l', key x ∉ key <$> l' -> sum_list_with w ((fun y => if test y then f y else y) <$> l') = sum_list_with w l') as Hrest.
  { clear -Ht. induction l' as [|b l' IH]; [done|]. cbn. intros Hno. destruct (test b) eqn:Eb.
    - apply Ht in Eb. destruct Hno. rewrite <- Eb. by left.
    - rewrite IH; [done|]. intros Hin. apply Hno. by right. }
  apply elem_of_cons in Hx as [<-|Hx].
  - rewrite (proj2 (Ht x) eq_refl), Hrest by done. lia.
  - destruct (test a) eqn:Ea; [|specialize (IH Hnd Hx); lia].
    apply Ht in Ea. destruct Ha. rewrite Ea. apply list_elem_of_fmap. by exists x.
Qed.

Lemma filter_one {A K} `{EqDecision K} (key : A -> K) (w : A -> nat) l x k :
  x ∈ l -> key x = k -> (0 < w x)%nat ->
  (sum_list_with w (filter (fun y => key y <> k) l) < sum_list_with w l)%nat.
Proof.
  intros Hx Hk Hw. assert (forall l', sum_list_with w (filter (fun y => key y <> k) l') <= sum_list_with w l')%nat as Hle.
  { induction l' as [|b l' IH]; [done|]. rewrite filter_cons. case_decide; cbn; lia. }
  induction l as [|a l IH]; [by apply elem_of_nil in Hx|]. rewrite filter_cons. cbn [sum_list_with].
  apply elem_of_cons in Hx as [<-|Hx].
  - rewrite decide_False by tauto. specialize (Hle l). lia.
  - specialize (IH Hx). case_decide; cbn; lia.
Qed.

Lemma find_unique {A K} (key : A -> K) (test : A -> bool) l x :
  NoDup (key <$> l) -> x ∈ l -> (forall y, test y = true <-> key y = key x) -> find test l = Some x.
Proof.
  intros Hnd Hx Ht. induction l as [|a l IH]; [by apply elem_of_nil in Hx|]. cbn in *.
  apply NoDup_cons in Hnd as [Ha Hnd]. apply elem_of_cons in Hx as [<-|Hx]; [by rewrite (proj2 (Ht x) eq_refl)|].
  destruct (test a) eqn:Ea; [|by apply IH]. apply Ht in Ea. destruct Ha. rewrite Ea. apply list_elem_of_fmap. by exists x.
Qed.

(** ** One turn *)

(** The row a target was made from, as it stands in the tables. *)
Inductive target_row (m : Media) : recompressTarget -> Prop :=
| target_seg s : s ∈ sg_rows (md_segs m) -> sg_Recompressed s = false -> sg_RecompressFailures s < 3 ->
    target_row m (seg_target s)
| target_clip c : c ∈ md_clips m -> cl_Available c = true -> cl_Recompressed c = false -> cl_Failures c < 3 ->
    target_row m (clip_target c).

(** What a turn may do with its target. *)
Inductive turn (cfg : TieredStorageConfig) (now : Z) (m : Media) : recompressTarget -> Media -> Prop :=
(** the file of a segment is gone: its row goes too *)
| turn_orphan s :
    os_Stat (sg_Path s) m = StatNotExist ->
    turn cfg now m (seg_target s) (set_segs (DeleteSegmentByID (sg_ID s) (md_segs m)) m)
(** it cannot be told whether the file is there: nothing changes *)
| turn_unreadable s : os_Stat (sg_Path s) m = StatError -> turn cfg now m (seg_target s) m
| turn_no_clip c :
    (forall fi, os_Stat (cl_Path c) m <> StatOk fi) ->
    turn cfg now m (clip_target c) (set_clips (UpdateEventClipAvailability (cl_EventID c) false (md_clips m)) m)
| turn_failed t fi d answer :
    os_Stat (tg_path t) m = StatOk fi ->
    transcodeFn (tg_path t) (ts_TargetWidth cfg) (ts_TargetHeight cfg) (md_disk m) = (d, answer) ->
    (answer = None \/ exists err, answer = Some (Err err)) ->
    turn cfg now m t (incrementFailure t
      (match answer with Some (Err err) => failureKindOf err | _ => transcodeFailureUnclassified end) (set_disk d m))
| turn_done t fi d res :
    os_Stat (tg_path t) m = StatOk fi ->
    transcodeFn (tg_path t) (ts_TargetWidth cfg) (ts_TargetHeight cfg) (md_disk m) = (d, Some (Ok res)) ->
    let m' := markRecompressed now t (if tr_Skipped res then tg_sizeBytes t else tr_NewSize res) (set_disk d m) in
    turn cfg now m t
      (match tg_kind t with
       | kindClip => if tr_Skipped res || (fi_ModTime fi =? 0) then m' else os_Chtimes (tg_path t) (fi_ModTime fi) m'
       | kindSegment => m'
       end).

Lemma revalidate_spec m t :
  media_ok m -> target_row m t ->
  match revalidate t m with
  | (m', true) => m' = m /\ exists fi, os_Stat (tg_path t) m = StatOk fi
  | (m', false) => forall cfg now, turn cfg now m t m'
  end.
Proof.
  intros Hok Ht. destruct Ht as [s Hs Hr Hf|c Hc Ha Hr Hf]; unfold revalidate; cbn [tg_kind seg_target clip_target tg_segID tg_eventID tg_path].
  - assert (GetSegmentByID (sg_ID s) (md_segs m) = Some s) as ->.
    { apply (find_unique sg_ID); [apply (mo_seg_ids _ Hok)|done|]. intros y. apply Z.eqb_eq. }
    rewrite Hr. destruct (os_Stat (sg_Path s) m) eqn:Es.
    + split; [done|by eexists].
    + intros cfg now. by apply turn_orphan.
    + intros cfg now. by apply turn_unreadable.
  - assert (GetClipRecompressState (cl_EventID c) (md_clips m) = Some (mkClipState (cl_Path c) (cl_Available c) (cl_Recompressed c))) as ->.
    { unfold GetClipRecompressState. rewrite (find_unique cl_EventID _ _ c); [done|apply (mo_clip_ids _ Hok)|done|].
      intros y. apply String.eqb_eq. }
    cbn. rewrite Ha, Hr, String.eqb_refl. cbn.
    destruct (os_Stat (cl_Path c) m) eqn:Es; [split; [done|by eexists]|..];
      intros cfg now; apply (turn_no_clip _ _ _ c); intros fi; by rewrite Es.
Qed.

Lemma processTarget_spec now r m t :
  media_ok m -> target_row m t ->
  exists r' m', processTarget transcodeFn false now t r m = (r', m', true) /\
    rp_cfg r' = rp_cfg r /\ rp_cameras r' = rp_cameras r /\ turn (rp_cfg r) now m t m'.
Proof.
  intros Hok Ht. unfold processTarget. pose proof (revalidate_spec m t Hok Ht) as Hv.
  destruct (revalidate t m) as [m1 []]; [|exists r, m1; split_and!; [done..|apply Hv]].
  destruct Hv as [-> [fi Hfi]]. unfold safeTranscode.
  destruct (transcodeFn _ _ _ _) as [d answer] eqn:Et. destruct answer as [[res|err]|]; cbn [default from_option Datatypes.id].
  - assert (turn (rp_cfg r) now m t _) as Hturn by (eapply (turn_done _ _ _ t fi d res); [exact Hfi|exact Et]).
    rewrite Hfi. cbn zeta in Hturn. unfold IsZero, zero_time.
    destruct (tr_Skipped res), (tg_kind t); cbn [negb andb orb] in *; eexists _, _;
      (split; [reflexivity|]); (split; [done|]); (split; [done|]); try exact Hturn.
    destruct (fi_ModTime fi =? 0); exact Hturn.
  - eexists _, _. split; [reflexivity|]. split; [done|]. split; [done|].
    apply (turn_failed _ _ _ t fi d (Some (Err err))); [done|exact Et|right; by exists err].
  - eexists _, _. split; [reflexivity|]. split; [done|]. split; [done|].
    apply (turn_failed _ _ _ t fi d None); [done|exact Et|by left].
Qed.

Lemma select_row r now m t : select inUseFn r now m = Some t -> target_row m t.
Proof.
  intros E. pose proof (select_takes_the_best r now m) as Hs. rewrite E in Hs.
  destruct Hs as [(c & -> & (_ & _ & Hc & _ & Ha & _ & Hr & Hf) & _)|(_ & [(s & -> & eff & _ & Hs & (_ & _ & Hr & Hf) & _)
    |(c & -> & eff & _ & Hc & (_ & Ha & _ & Hr & Hf))] & _)]; by constructor.
Qed.

(** C24: a turn does to its target exactly what its outcome calls for, and nothing to
    anything else.  A segment whose file is definitely gone loses its row; one that
    cannot be examined is left as it is; a clip whose file cannot be examined is
    marked unavailable; a failed transcode, a panic included, counts one failure with
    its cause; a success, or a skip, marks the artifact recompressed with its size, and
    a rewritten clip gets its modification time back, by which its retention is
    reckoned.  When another operation holds the lock nothing happens. *)
Theorem processOne_records_its_outcome locked now r m :
  media_ok m ->
  match processOne transcodeFn inUseFn locked now r m with
  | (r', m', true) => locked = false /\ exists t, select inUseFn r now m = Some t /\ turn (rp_cfg r) now m t m' /\
      rp_cfg r' = rp_cfg r /\ rp_cameras r' = rp_cameras r
  | (r', m', false) => r' = r /\ m' = m /\ (locked = true \/ select inUseFn r now m = None)
  end.
Proof.
  intros Hok. unfold processOne. destruct (select inUseFn r now m) as [t|] eqn:E; [|by split_and!; [..|right]].
  destruct locked; [by split_and!; [..|left]|].
  destruct (processTarget_spec now r m t Hok (select_row _ _ _ _ E)) as (r' & m' & -> & ? & ? & ?).
  split; [done|]. by exists t.
Qed.

(** ** The manual pass *)

Definition readable (m : Media) : Prop := Forall (fun s => sg_Path s ∉ md_unreadable m) (sg_rows (md_segs m)).

Lemma update_keeps {A B} (k : A -> B) (test : A -> bool) (f : A -> A) (l : list A) :
  (forall x, k (f x) = k x) -> k <$> ((fun y => if test y then f y else y) <$> l) = k <$> l.
Proof. intros Hf. rewrite <- list_fmap_compose. apply list_fmap_ext. intros i x _. cbn. by destruct (test x). Qed.

Lemma update_Forall {A} (P : A -> Prop) (test : A -> bool) (f : A -> A) l :
  (forall x, P x -> P (f x)) -> Forall P l -> Forall P ((fun y => if test y then f y else y) <$> l).
Proof. intros Hf Hl. apply Forall_fmap. eapply Forall_impl; [exact Hl|]. intros x Hx. cbn. destruct (test x); auto. Qed.

Lemma os_Chtimes_tables path t m :
  md_segs (os_Chtimes path t m) = md_segs m /\ md_clips (os_Chtimes path t m) = md_clips m /\
  md_unreadable (os_Chtimes path t m) = md_unreadable m.
Proof. unfold os_Chtimes. by destruct (bool_decide _). Qed.

(** Replacing one row of the segments, or of the clips. *)
Lemma seg_update_progress m d s f :
  media_ok m -> s ∈ sg_rows (md_segs m) -> readable m ->
  (forall x, sg_ID (f x) = sg_ID x /\ sg_Path (f x) = sg_Path x /\ (0 <= sg_RecompressFailures x -> 0 <= sg_RecompressFailures (f x))) ->
  (seg_weight (f s) < seg_weight s)%nat ->
  let m' := set_segs (update_seg (sg_ID s) f (md_segs m)) (set_disk d m) in
  media_ok m' /\ readable m' /\ (weight m' < weight m)%nat.
Proof.
  intros [H1 H2 H3 H4] Hs Hread Hf Hw m'. split; [|split].
  - split; cbn; [|done| |done].
    + rewrite update_keeps; [done|]. intros x. apply Hf.
    + apply update_Forall; [|done]. intros x. apply Hf.
  - unfold readable in *. cbn. apply update_Forall; [|done]. intros x. by rewrite (proj1 (proj2 (Hf x))).
  - unfold weight. cbn. pose proof (update_one sg_ID seg_weight f (fun r => sg_ID r =? sg_ID s) (sg_rows (md_segs m)) s H1 Hs) as Hu.
    specialize (Hu (fun y => Z.eqb_eq _ _) Hw). lia.
Qed.

Lemma clip_update_progress m d c f :
  media_ok m -> c ∈ md_clips m -> readable m ->
  (forall x, cl_EventID (f x) = cl_EventID x /\ (0 <= cl_Failures x -> 0 <= cl_Failures (f x))) ->
  (clip_weight (f c) < clip_weight c)%nat ->
  let m' := set_clips (update_clip (cl_EventID c) f (md_clips m)) (set_disk d m) in
  media_ok m' /\ readable m' /\ (weight m' < weight m)%nat.
Proof.
  intros [H1 H2 H3 H4] Hc Hread Hf Hw m'. split; [|split; [done|]].
  - split; cbn; unfold update_clip; [done| |done|].
    + rewrite update_keeps; [done|]. intros x. apply Hf.
    + apply update_Forall; [|done]. intros x. apply Hf.
  - unfold weight. cbn. unfold update_clip. pose proof (update_one cl_EventID clip_weight f (fun r => String.eqb (cl_EventID r) (cl_EventID c)) (md_clips m) c H2 Hc) as Hu.
    specialize (Hu (fun y => String.eqb_eq _ _) Hw). lia.
Qed.

Definition progress (m m' : Media) : Prop := media_ok m' /\ readable m' /\ (weight m' < weight m)%nat.

Lemma progress_Chtimes path t m m' : progress m m' -> progress m (os_Chtimes path t m').
Proof.
  unfold progress, readable, weight. destruct (os_Chtimes_tables path t m') as (E1 & E2 & E3).
  intros ([H1 H2 H3 H4] & Hr & Hw). rewrite E1, E2, E3. split_and!; [|done|done].
  split; rewrite ?E1, ?E2; done.
Qed.

Lemma target_row_seg m s :
  target_row m (seg_target s) ->
  exists s', s' ∈ sg_rows (md_segs m) /\ sg_Recompressed s' = false /\ sg_RecompressFailures s' < 3 /\ sg_ID s' = sg_ID s /\ sg_Path s' = sg_Path s.
Proof.
  intros Hrow. remember (seg_target s) as t eqn:Et. destruct Hrow as [s' Hs Hr Hf|]; [|done].
  injection Et as Eid _ Ep _ _ _. by exists s'.
Qed.

Lemma target_row_clip m c :
  target_row m (clip_target c) ->
  exists c', c' ∈ md_clips m /\ cl_Available c' = true /\ cl_Recompressed c' = false /\ cl_Failures c' < 3 /\ cl_EventID c' = cl_EventID c.
Proof.
  intros Hrow. remember (clip_target c) as t eqn:Et. destruct Hrow as [|c' Hc Ha Hr Hf]; [done|].
  injection Et as Eid _ _ _ _ _. by exists c'.
Qed.

Lemma turn_progress cfg now m t m' :
  media_ok m -> readable m -> target_row m t -> turn cfg now m t m' -> progress m m'.
Proof.
  intros Hok Hread Hrow Ht.
  assert (forall d cause, progress m (incrementFailure t cause (set_disk d m))) as Hinc.
  { intros d cause. destruct Hrow as [s Hs Hr Hf|c Hc Ha Hr Hf]; unfold incrementFailure; cbn [tg_kind seg_target clip_target].
    - apply (seg_update_progress m d s); [done..| |]; [intros x; cbn; split_and!; [done|done|lia]|].
      unfold seg_weight. cbn. rewrite Hr. lia.
    - apply (clip_update_progress m d c); [done..| |]; [intros x; cbn; split_and!; [done|lia]|].
      unfold clip_weight. cbn. rewrite Ha, Hr. cbn. lia. }
  assert (forall d size, progress m (markRecompressed now t size (set_disk d m))) as Hmark.
  { intros d size. destruct Hrow as [s Hs Hr Hf|c Hc Ha Hr Hf]; unfold markRecompressed; cbn [tg_kind seg_target clip_target].
    - apply (seg_update_progress m d s); [done..| |]; [intros x; by cbn|]. unfold seg_weight. cbn. rewrite Hr. lia.
    - apply (clip_update_progress m d c); [done..| |]; [intros x; by cbn|]. unfold clip_weight. cbn. rewrite Ha, Hr. cbn. lia. }
  destruct Ht as [s Hstat|s Hstat|c Hstat|t fi d answer Hstat Et Ha|t fi d res Hstat Et].
  - destruct (target_row_seg _ _ Hrow) as (s' & Hs & Hr & Hf & Hid & Hp). destruct Hok as [Ho1 Ho2 Ho3 Ho4].
    split; [|split].
    + split; cbn; [|done| |done].
      * eapply sublist_NoDup; [exact Ho1|]. apply fmap_sublist, sublist_filter.
      * apply Forall_forall. intros x [_ Hx]%list_elem_of_filter. rewrite Forall_forall in Ho3. by apply Ho3.
    + unfold readable in *. cbn. apply Forall_forall. intros x [_ Hx]%list_elem_of_filter.
      rewrite Forall_forall in Hread. by apply Hread.
    + unfold weight. cbn. pose proof (filter_one sg_ID seg_weight (sg_rows (md_segs m)) s' (sg_ID s) Hs Hid) as Hw.
      assert (0 < seg_weight s')%nat as Hpos by (unfold seg_weight; rewrite Hr; lia). specialize (Hw Hpos). lia.
  - destruct (target_row_seg _ _ Hrow) as (s' & Hs & Hr & Hf & Hid & Hp). unfold os_Stat in Hstat.
    unfold readable in Hread. rewrite Forall_forall in Hread. specialize (Hread s' Hs). rewrite Hp in Hread.
    rewrite bool_decide_eq_false_2 in Hstat by done. by destruct (files _ !! _).
  - destruct (target_row_clip _ _ Hrow) as (c' & Hc & Ha & Hr & Hf & <-).
    destruct m as [disk unr segs clips]. apply (clip_update_progress (mkMedia disk unr segs clips) disk c'); [done..| |]; [intros x; by cbn|].
    unfold clip_weight. cbn. rewrite Ha, Hr, orb_true_r. cbn. lia.
  - apply Hinc.
  - cbn zeta. destruct (tg_kind t); [|destruct (_ || _)]; try apply progress_Chtimes; apply Hmark.
Qed.

Lemma run_loop_terminates clk fuel : forall n r m,
  media_ok m -> readable m -> (weight m < fuel)%nat ->
  exists r' m' k, run_loop transcodeFn inUseFn fuel clk n r m = Some (r', m', k) /\ (k <= n + weight m)%nat /\
    media_ok m' /\ select inUseFn r' (clk k) m' = None.
Proof.
  induction fuel as [|fuel IH]; intros n r m Hok Hread Hw; [lia|]. cbn.
  pose proof (processOne_records_its_outcome false (clk n) r m Hok) as Hp.
  destruct (processOne transcodeFn inUseFn false (clk n) r m) as [[r' m'] []].
  - destruct Hp as (_ & t & Hsel & Hturn & _). destruct (turn_progress _ _ _ _ _ Hok Hread (select_row _ _ _ _ Hsel) Hturn) as (? & ? & ?).
    destruct (IH (S n) r' m') as (r2 & m2 & k & -> & Hk & Hok2 & Hnone); [done|done|lia|].
    exists r2, m2, k. split_and!; [done|lia|done|done].
  - destruct Hp as (-> & -> & [|Hnone]); [done|]. exists r, m, n. split_and!; [done|lia|done|done].
Qed.

(** A manual pass ends.  While no segment file is unreadable and nobody else takes
    the lock, whatever the transcoder answers and does to the files, the pass stops
    after at most three turns per segment and clip, and nothing eligible is left. *)
Theorem RunNow_terminates clk r m :
  media_ok m -> readable m ->
  let fuel := S (3 * (length (sg_rows (md_segs m)) + length (md_clips m))) in
  exists r' m' n, RunNow transcodeFn inUseFn fuel clk r m = Some (r', m', n) /\
    (n <= 3 * (length (sg_rows (md_segs m)) + length (md_clips m)))%nat /\ select inUseFn r' (clk n) m' = None.
Proof.
  intros Hok Hread fuel. pose proof (weight_bound m Hok) as Hw.
  destruct (run_loop_terminates clk fuel 0 r m Hok Hread) as (r' & m' & n & E & Hn & _ & Hnone); [unfold fuel; lia|].
  exists r', m', n. split_and!; [exact E|lia|exact Hnone].
Qed.

(** A manual pass need not end.  While the segment it selects cannot be examined,
    an I/O error and not an absence, every turn finds the same segment, changes
    nothing and reports progress: no amount of turns ends the pass. *)
Theorem RunNow_diverges clk r m :
  media_ok m ->
  (forall i, exists s, select inUseFn r (clk i) m = Some (seg_target s) /\ os_Stat (sg_Path s) m = StatError) ->
  forall fuel, RunNow transcodeFn inUseFn fuel clk r m = None.
Proof.
  intros Hok Hsel fuel. unfold RunNow. generalize 0%nat. induction fuel as [|fuel IH]; intros n; [done|]. cbn.
  destruct (Hsel n) as (s & E & Hstat). pose proof (select_row _ _ _ _ E) as Hrow.
  assert (processOne transcodeFn inUseFn false (clk n) r m = (r, m, true)) as ->; [|apply IH].
  unfold processOne. rewrite E. unfold processTarget, revalidate. cbn [tg_kind seg_target tg_segID].
  destruct (target_row_seg _ _ Hrow) as (s' & Hs & Hr & Hf & Eid & Ep).
  assert (GetSegmentByID (sg_ID s) (md_segs m) = Some s') as ->.
  { apply (find_unique sg_ID); [apply (mo_seg_ids _ Hok)|done|]. intros y. rewrite <- Eid. apply Z.eqb_eq. }
  by rewrite Hr, Ep, Hstat.
Qed.
End theorems.

(** ** Instances: one camera, a large segment, a small one, and a clip to repair *)

#[local] Instance sorted_cameras : CameraOrder := map_to_list.
#[local] Instance sorted_cameras_ok : CameraOrderOk.
Proof. intros m. reflexivity. Qed.

Definition sample_cfg : TieredStorageConfig := mkTiered true 7 640 360 "" 100.
Definition sample_recompressor : Recompressor := NewRecompressor sample_cfg [mkCamera "yard" None None].
Definition sample_media : Media :=
  mkMedia (mkDisk (list_to_map [("/s1", mkFileInfo 90 10); ("/s2", mkFileInfo 500 20); ("/c1", mkFileInfo 70 30)]) ∅) ∅
    (mkSegTable [mkSegment 1 "yard" "/s1" 0 10 90 false 0 0 ""; mkSegment 2 "yard" "/s2" 10 20 500 false 0 2 "worker_crash"] 2)
    [mkClip "e1" "yard" "/c1" true 70 (Some 30) false None 0 ""].

(** Halves a file; panics on a clip. *)
Definition sample_transcoder : Transcoder := fun path _ _ d =>
  if String.eqb path "/c1" then (d, None)
  else match files d !! path with
       | Some fi => (mkDisk (<[path := mkFileInfo (fi_Size fi / 2) 99]> (files d)) (sealed d),
                     Some (Ok (mkTranscodeResult (fi_Size fi) (fi_Size fi / 2) false)))
       | None => (d, Some (Err OtherError))
       end.
Definition sample_now : Z := 10 ^ 18.
Definition nothing_served (path : string) : bool := false.

Lemma sample_media_ok : media_ok sample_media.
Proof.
  split; [apply (bool_decide_unpack _); by vm_compute..| |]; repeat (constructor; [cbn; lia|]); constructor.
Qed.

Lemma sample_media_readable : readable sample_media.
Proof. unfold readable. repeat (constructor; [apply (bool_decide_unpack _); by vm_compute|]). constructor. Qed.

Lemma select_takes_the_best_witness :
  select nothing_served sample_recompressor sample_now sample_media = Some (mkTarget kindClip 0 "e1" "yard" "/c1" 70 30 0) /\
  forall c, repair_clip sample_recompressor sample_media c -> cl_SizeBytes c <= 70.
Proof.
  pose proof (select_takes_the_best nothing_served sample_recompressor sample_now sample_media) as Hs.
  assert (select nothing_served sample_recompressor sample_now sample_media = Some (mkTarget kindClip 0 "e1" "yard" "/c1" 70 30 0))
    as E by by vm_compute.
  split; [exact E|]. rewrite E in Hs. cbn iota in Hs. intros c Hc. destruct Hs as [(? & _ & _ & Hb)|[Hno _]]; [|by destruct (Hno c)].
  exact (Hb c Hc).
Defined.

Lemma processOne_records_its_outcome_witness :
  (processOne sample_transcoder nothing_served false sample_now sample_recompressor sample_media).2 = true /\
  exists t, select nothing_served sample_recompressor sample_now sample_media = Some t /\
    turn sample_transcoder sample_cfg sample_now sample_media t
      (processOne sample_transcoder nothing_served false sample_now sample_recompressor sample_media).1.2.
Proof.
  pose proof (processOne_records_its_outcome sample_transcoder nothing_served false sample_now sample_recompressor sample_media
    sample_media_ok) as Hp.
  assert ((processOne sample_transcoder nothing_served false sample_now sample_recompressor sample_media).2 = true) as E by by vm_compute.
  split; [exact E|]. destruct (processOne _ _ _ _ _ _) as [[r' m'] b]. cbn in E. subst b.
  destruct Hp as (_ & t & Ht & Hturn & _). exists t. split; [exact Ht|exact Hturn].
Defined.

Lemma RunNow_terminates_witness :
  exists r' m', RunNow sample_transcoder nothing_served 10 (fun _ => sample_now) sample_recompressor sample_media = Some (r', m', 5%nat) /\
    select nothing_served r' sample_now m' = None.
Proof.
  destruct (RunNow_terminates sample_transcoder nothing_served (fun _ => sample_now) sample_recompressor sample_media
    sample_media_ok sample_media_readable) as (r' & m' & n & E & _ & Hnone).
  assert (((fun x => x.2) <$> RunNow sample_transcoder nothing_served 10 (fun _ => sample_now) sample_recompressor sample_media)
    = Some 5%nat) as Hn by by vm_compute.
  change (RunNow sample_transcoder nothing_served 10 (fun _ => sample_now) sample_recompressor sample_media = Some (r', m', n)) in E.
  rewrite E in Hn. cbn in Hn. injection Hn as ->. exists r', m'. split; [exact E|exact Hnone].
Defined.

(** The same tables with the large segment unreadable and the clip gone. *)
Definition stuck_media : Media := mkMedia (md_disk sample_media) {["/s2"]} (md_segs sample_media) [].

Lemma RunNow_diverges_witness :
  RunNow sample_transcoder nothing_served 1000 (fun _ => sample_now) sample_recompressor stuck_media = None.
Proof.
  apply RunNow_diverges.
  - split; [apply (bool_decide_unpack _); by vm_compute..| |]; repeat (constructor; [cbn; lia|]); constructor.
  - intros i. exists (mkSegment 2 "yard" "/s2" 10 20 500 false 0 2 "worker_crash"). split; by vm_compute.
Defined.
