(* ===== verification/RecompressBackfill.v ===== *)
(** The startup of recompression: the backfill of clip sizes, which ends with every
    size known while no clip file is empty and never ends with two hundred empty ones,
    and the reset of the failure counts. *)

From S2P Require Import Prelude SegmentStore Retention Recompress.
From Stdlib Require Import Ascii.

#[local] Open Scope string_scope.
#[local] Open Scope Z_scope.

#[global] Instance ClipRow_eq_dec : EqDecision ClipRow.
Proof. solve_decision. Defined.

(** ** One batch *)

(** What the backfill makes of a row whose path is [path]. *)
Definition sized (m : Media) (path : string) (r : ClipRow) : ClipRow :=
  match os_Stat path m with
  | StatOk fi => mkClip (cl_EventID r) (cl_Camera r) (cl_Path r) (cl_Available r) (fi_Size fi) (cl_EndTime r)
      (cl_Recompressed r) (cl_RecompressedAt r) (cl_Failures r) (cl_FailureKind r)
  | _ => mkClip (cl_EventID r) (cl_Camera r) (cl_Path r) false (cl_SizeBytes r) (cl_EndTime r)
      (cl_Recompressed r) (cl_RecompressedAt r) (cl_Failures r) (cl_FailureKind r)
  end.

Definition backfilled (m : Media) (r : ClipRow) : ClipRow := if unsized r then sized m (cl_Path r) r else r.

Lemma os_Stat_set_clips path c m : os_Stat path (set_clips c m) = os_Stat path m.
Proof. reflexivity. Qed.
Lemma sized_set_clips c m : sized (set_clips c m) = sized m.
Proof. reflexivity. Qed.
Lemma backfilled_set_clips c m : backfilled (set_clips c m) = backfilled m.
Proof. reflexivity. Qed.

Lemma set_clips_twice c c' m : set_clips c (set_clips c' m) = set_clips c m.
Proof. reflexivity. Qed.
Lemma set_clips_id m : set_clips (md_clips m) m = m.
Proof. by destruct m. Qed.

Lemma sized_id m path r : cl_EventID (sized m path r) = cl_EventID r.
Proof. unfold sized. by destruct (os_Stat path m). Qed.

Lemma backfill_one_sized m r :
  backfill_one m r = set_clips (update_clip (cl_EventID r) (sized m (cl_Path r)) (md_clips m)) m.
Proof. unfold backfill_one, sized. by destruct (os_Stat (cl_Path r) m). Qed.

(** What a batch makes of a row. *)
Definition in_turn (m : Media) (todo : list ClipRow) (x : ClipRow) : ClipRow :=
  match find (fun r => String.eqb (cl_EventID x) (cl_EventID r)) todo with
  | Some r => sized m (cl_Path r) x
  | None => x
  end.

Lemma find_not_in {A} (key : A -> string) k l :
  k ∉ key <$> l -> find (fun r => String.eqb k (key r)) l = None.
Proof.
  induction l as [|a l IH]; [done|]. cbn. intros [Ha Hl]%not_elem_of_cons.
  destruct (String.eqb_spec k (key a)); [done|by apply IH].
Qed.

Lemma backfill_fold todo : forall m,
  NoDup (cl_EventID <$> todo) -> fold_left backfill_one todo m = set_clips (in_turn m todo <$> md_clips m) m.
Proof.
  induction todo as [|r todo IH]; intros m; cbn [fold_left fmap list_fmap].
  { intros _. replace (in_turn m [] <$> md_clips m) with (md_clips m) by (symmetry; apply list_fmap_id). by rewrite set_clips_id. }
  intros [Hr Hnd]%NoDup_cons. rewrite (IH _ Hnd), backfill_one_sized, set_clips_twice. f_equal.
  cbn [md_clips set_clips]. unfold update_clip. rewrite <- list_fmap_compose. apply list_fmap_ext.
  intros i x _. unfold compose, in_turn at 2. cbn [find]. rewrite (String.eqb_sym (cl_EventID x)).
  destruct (String.eqb_spec (cl_EventID r) (cl_EventID x)) as [E|E].
  - unfold in_turn. by rewrite sized_id, <- E, find_not_in by done.
  - destruct (String.eqb_spec (cl_EventID x) (cl_EventID r)); [congruence|]. reflexivity.
Qed.

Lemma NoDup_key {A K} (key : A -> K) l x y : NoDup (key <$> l) -> x ∈ l -> y ∈ l -> key x = key y -> x = y.
Proof.
  intros Hnd Hx Hy E. induction l as [|a l IH]; [by apply elem_of_nil in Hx|]. cbn in Hnd.
  apply NoDup_cons in Hnd as [Ha Hnd]. apply elem_of_cons in Hx, Hy.
  destruct Hx as [->|Hx], Hy as [->|Hy]; [done|destruct Ha..|by apply IH].
  - rewrite E. apply list_elem_of_fmap. by exists y.
  - rewrite <- E. apply list_elem_of_fmap. by exists x.
Qed.

(** A row of the batch is sized, every other row stays. *)
Lemma in_turn_row m clips todo x :
  NoDup (cl_EventID <$> clips) -> (forall r, r ∈ todo -> r ∈ clips) -> x ∈ clips ->
  in_turn m todo x = if bool_decide (x ∈ todo) then sized m (cl_Path x) x else x.
Proof.
  intros Hnd Hsub Hx. unfold in_turn. destruct (find _ todo) as [r|] eqn:E.
  - apply find_some in E as [Hr%list_elem_of_In E%String.eqb_eq].
    assert (x = r) as <- by (eapply (NoDup_key cl_EventID); eauto). by rewrite bool_decide_eq_true_2.
  - rewrite bool_decide_eq_false_2; [done|]. intros Hin%list_elem_of_In.
    pose proof (find_none _ _ E x Hin) as Hn. cbn in Hn. by rewrite String.eqb_refl in Hn.
Qed.

Definition unsized_clips (m : Media) : list ClipRow := filter (fun r => unsized r = true) (md_clips m).

Definition batch_of (n : Z) (m : Media) : list ClipRow := limit n (unsized_clips m).

Lemma limit_sublist {A} n (l : list A) : sublist (limit n l) l.
Proof. unfold limit. destruct (n <? 0); [done|apply sublist_take]. Qed.

Lemma batch_in_clips n m r : r ∈ batch_of n m -> r ∈ md_clips m /\ unsized r = true.
Proof.
  intros Hr. assert (r ∈ unsized_clips m) as [? ?]%list_elem_of_filter; [|done].
  eapply elem_of_submseteq; [exact Hr|apply sublist_submseteq, limit_sublist].
Qed.

Lemma batch_ids n m : NoDup (cl_EventID <$> md_clips m) -> NoDup (cl_EventID <$> batch_of n m).
Proof.
  intros Hnd. eapply sublist_NoDup; [exact Hnd|]. apply fmap_sublist.
  transitivity (unsized_clips m); [apply limit_sublist|apply sublist_filter].
Qed.

Lemma BackfillClipSizes_spec n m :
  NoDup (cl_EventID <$> md_clips m) ->
  BackfillClipSizes n m =
    (set_clips ((fun x => if bool_decide (x ∈ batch_of n m) then sized m (cl_Path x) x else x) <$> md_clips m) m,
     Z.of_nat (length (batch_of n m))).
Proof.
  intros Hnd. unfold BackfillClipSizes. fold (unsized_clips m). fold (batch_of n m). f_equal.
  rewrite backfill_fold by by apply batch_ids. f_equal. apply list_fmap_ext. intros i x Hx%list_elem_of_lookup_2.
  apply (in_turn_row m (md_clips m)); [done|intros r Hr; by eapply batch_in_clips|done].
Qed.

Lemma sized_ids n m : cl_EventID <$> ((fun x => if bool_decide (x ∈ batch_of n m) then sized m (cl_Path x) x else x) <$> md_clips m) =
  cl_EventID <$> md_clips m.
Proof. rewrite <- list_fmap_compose. apply list_fmap_ext. intros i x _. cbn. case_bool_decide; [apply sized_id|done]. Qed.

(** ** Every batch makes progress while no clip file is empty *)

Definition no_empty_clip (m : Media) : Prop :=
  Forall (fun r => forall fi, os_Stat (cl_Path r) m = StatOk fi -> fi_Size fi <> 0) (md_clips m).

Lemma sized_done m r : (forall fi, os_Stat (cl_Path r) m = StatOk fi -> fi_Size fi <> 0) -> unsized (sized m (cl_Path r) r) = false.
Proof.
  intros Hne. unfold sized. destruct (os_Stat (cl_Path r) m) as [fi| |] eqn:E; unfold unsized; cbn; [|done..].
  specialize (Hne fi eq_refl). apply Z.eqb_neq in Hne. rewrite Hne. by rewrite andb_false_r.
Qed.

Lemma sized_path m path r : cl_Path (sized m path r) = cl_Path r.
Proof. unfold sized. by destruct (os_Stat path m). Qed.

Lemma filter_keep {A} (P : A -> Prop) `{!forall x, Decision (P x)} (l : list A) : (forall x, x ∈ l -> P x) -> filter P l = l.
Proof.
  induction l as [|a l IH]; intros Hl; [done|].
  rewrite filter_cons_True by (apply Hl; by left). by rewrite IH by (intros x Hx; apply Hl; by right).
Qed.

Lemma filter_lose {A} (P : A -> Prop) `{!forall x, Decision (P x)} (l : list A) : (forall x, x ∈ l -> ~ P x) -> filter P l = [].
Proof.
  induction l as [|a l IH]; intros Hl; [done|].
  rewrite filter_cons_False by (apply Hl; by left). apply IH. intros x Hx. apply Hl. by right.
Qed.

Lemma filter_drop_rest {A} `{EqDecision A} n (l : list A) : NoDup l -> filter (fun x => x ∉ take n l) l = drop n l.
Proof.
  intros Hnd. rewrite <- (take_drop n l) in Hnd. apply NoDup_app in Hnd as (_ & Hdisj & _).
  transitivity (filter (fun x => x ∉ take n l) (take n l ++ drop n l)%list); [by rewrite take_drop|].
  rewrite filter_app, filter_lose, filter_keep; [done| |]; intros x Hx Ht; [by apply (Hdisj x)|by apply Ht].
Qed.

(** What a batch leaves to do: the rest of the unsized clips. *)
Lemma batch_rest n m :
  0 <= n -> NoDup (cl_EventID <$> md_clips m) -> no_empty_clip m ->
  unsized_clips (BackfillClipSizes n m).1 = drop (Z.to_nat n) (unsized_clips m).
Proof.
  intros Hn Hnd Hne. rewrite BackfillClipSizes_spec by done. cbn [fst]. unfold unsized_clips at 1. cbn [md_clips set_clips].
  assert (batch_of n m = take (Z.to_nat n) (unsized_clips m)) as Hb.
  { unfold batch_of, limit. destruct (Z.ltb_spec n 0); [lia|done]. }
  rewrite <- filter_drop_rest, <- Hb; [|eapply sublist_NoDup; [eapply NoDup_fmap_1, Hnd|apply sublist_filter]].
  unfold unsized_clips. rewrite list_filter_filter.
  unfold no_empty_clip in Hne. rewrite Forall_forall in Hne. revert Hne.
  clear Hnd Hn. generalize (batch_of n m) as todo. intros todo. induction (md_clips m) as [|x l IH]; intros Hne; [done|].
  cbn [fmap list_fmap]. rewrite !filter_cons, IH by (intros r Hr; apply Hne; by right).
  pose proof (sized_done m x (Hne x ltac:(by left))) as Hs.
  destruct (bool_decide_reflect (x ∈ todo)) as [Hx|Hx].
  - rewrite Hs, decide_False by done. rewrite decide_False; [done|]. tauto.
  - destruct (unsized x) eqn:E; repeat case_decide; try done; exfalso; tauto.
Qed.

Lemma BackfillClipSizes_keeps n m :
  NoDup (cl_EventID <$> md_clips m) ->
  let m' := (BackfillClipSizes n m).1 in
  cl_EventID <$> md_clips m' = cl_EventID <$> md_clips m /\ (no_empty_clip m -> no_empty_clip m') /\
  (no_empty_clip m -> backfilled m' <$> md_clips m' = backfilled m <$> md_clips m) /\
  m' = set_clips (md_clips m') m.
Proof.
  intros Hnd m'. subst m'. rewrite BackfillClipSizes_spec by done. cbn [fst md_clips set_clips]. split_and!; [apply sized_ids| | |done].
  - unfold no_empty_clip. intros Hall. cbn. rewrite Forall_fmap. eapply Forall_impl; [exact Hall|]. intros x Hx. cbn. case_bool_decide; rewrite ?sized_path; exact Hx.
  - intros Hne. rewrite backfilled_set_clips, <- list_fmap_compose. apply list_fmap_ext. intros i x Hx%list_elem_of_lookup_2.
    unfold compose. case_bool_decide as Hb; [|done]. apply batch_in_clips in Hb as [_ Hu]. unfold backfilled. rewrite Hu.
    unfold no_empty_clip in Hne. rewrite Forall_forall in Hne. by rewrite sized_done by by apply Hne.
Qed.

Lemma length_batch n m : 0 <= n -> length (batch_of n m) = Nat.min (Z.to_nat n) (length (unsized_clips m)).
Proof. intros Hn. unfold batch_of, limit. destruct (Z.ltb_spec n 0); [lia|]. apply length_take. Qed.

(** A batch that is not full takes every unsized clip. *)
Lemma last_batch n m :
  0 <= n -> (length (unsized_clips m) < Z.to_nat n)%nat -> NoDup (cl_EventID <$> md_clips m) ->
  (BackfillClipSizes n m).1 = set_clips (backfilled m <$> md_clips m) m.
Proof.
  intros Hn Hlt Hnd. rewrite BackfillClipSizes_spec by done. cbn. f_equal. apply list_fmap_ext. intros i x Hx%list_elem_of_lookup_2.
  unfold backfilled, batch_of, limit. destruct (Z.ltb_spec n 0); [lia|]. rewrite take_ge by lia.
  destruct (unsized x) eqn:Eu; case_bool_decide as Hb; try done.
  - destruct Hb. by apply list_elem_of_filter.
  - apply list_elem_of_filter in Hb as [Hu _]. congruence.
Qed.

(** The startup backfill ends with every clip sized.  While no clip file is empty it
    takes one batch of two hundred rows after another, and ends once a batch is not
    full: every available clip of unknown size has the size of its file, or is
    unavailable if the file cannot be examined, each examined once, and no other row
    changed. *)
Theorem backfill_ends fuel total m :
  NoDup (cl_EventID <$> md_clips m) -> no_empty_clip m -> (length (unsized_clips m) < 200 * fuel)%nat ->
  backfill_loop fuel total m =
    Some (set_clips (backfilled m <$> md_clips m) m, total + Z.of_nat (length (unsized_clips m))).
Proof.
  revert total m. induction fuel as [|fuel IH]; intros total m Hnd Hne Hlen; [lia|]. cbn [backfill_loop].
  destruct (BackfillClipSizes 200 m) as [m' examined] eqn:E.
  assert (m' = (BackfillClipSizes 200 m).1 /\ examined = (BackfillClipSizes 200 m).2) as [Em Ee] by by rewrite E.
  rewrite (BackfillClipSizes_spec 200 m Hnd) in Ee. cbn [snd] in Ee. rewrite length_batch in Ee by lia.
  destruct (Z.ltb_spec examined 200) as [Hlt|Hge].
  - rewrite Em, last_batch by (try done; lia). do 2 f_equal. lia.
  - pose proof (BackfillClipSizes_keeps 200 m Hnd) as (Hids & Hne' & Hb & Hm). rewrite <- Em in Hids, Hne', Hb, Hm.
    pose proof (batch_rest 200 m ltac:(lia) Hnd Hne) as Hrest. rewrite <- Em in Hrest.
    rewrite IH; [|by rewrite Hids|by apply Hne'|rewrite Hrest, length_drop; lia].
    rewrite Hrest, length_drop, Hb by done. rewrite Hm, set_clips_twice. do 2 f_equal. lia.
Qed.

(** ** With two hundred empty files it does not end *)

(** An available clip of unknown size whose file is empty. *)
Definition zero_clip (m : Media) (r : ClipRow) : bool :=
  unsized r && match os_Stat (cl_Path r) m with StatOk fi => fi_Size fi =? 0 | _ => false end.

Lemma zero_clip_stays m r : zero_clip m r = true -> sized m (cl_Path r) r = r.
Proof.
  unfold zero_clip, unsized, sized. intros [[[_ Hz]%andb_true_iff _]%andb_true_iff Hs]%andb_true_iff.
  destruct (os_Stat (cl_Path r) m) as [fi| |]; [|done..]. apply Z.eqb_eq in Hz, Hs. destruct r. cbn in *. congruence.
Qed.

Lemma filter_length_fmap {A} (p q : A -> bool) (g : A -> A) (l : list A) :
  (forall x, p x = true -> q (g x) = true) ->
  (length (filter (fun x => p x = true) l) <= length (filter (fun x => q x = true) (g <$> l)))%nat.
Proof.
  intros Hpq. induction l as [|a l IH]; [done|]. cbn [fmap list_fmap]. rewrite !filter_cons.
  case_decide as Ep; [rewrite decide_True by auto; cbn; lia|]. case_decide; cbn; lia.
Qed.

(** The startup backfill need not end.  A clip whose file is empty keeps the size
    zero by which the backfill selects it, so with two hundred of them every batch is
    full, whatever the number of batches. *)
Theorem backfill_diverges m :
  NoDup (cl_EventID <$> md_clips m) -> (200 <= length (filter (fun r => zero_clip m r = true) (md_clips m)))%nat ->
  forall fuel total, backfill_loop fuel total m = None.
Proof.
  intros Hnd Hz fuel. revert m Hnd Hz. induction fuel as [|fuel IH]; intros m Hnd Hz total; [done|]. cbn [backfill_loop].
  destruct (BackfillClipSizes 200 m) as [m' examined] eqn:E. pose proof (BackfillClipSizes_keeps 200 m Hnd) as (Hids & _ & _ & _).
  rewrite E in Hids. cbn [fst] in Hids. rewrite BackfillClipSizes_spec in E by done. injection E as <- <-.
  assert (200 <= length (unsized_clips m))%nat as Hu.
  { etransitivity; [exact Hz|]. unfold unsized_clips. rewrite <- (list_fmap_id (md_clips m)) at 2. apply filter_length_fmap.
    intros x Hx. by apply andb_true_iff in Hx as [? _]. }
  rewrite length_batch by lia. destruct (Z.ltb_spec (Z.of_nat (Nat.min (Z.to_nat 200) (length (unsized_clips m)))) 200); [lia|].
  apply IH; [by rewrite Hids|]. etransitivity; [exact Hz|]. cbn [md_clips set_clips].
  apply (filter_length_fmap (zero_clip m) (zero_clip m)). intros x Hx. case_bool_decide; [by rewrite zero_clip_stays|done].
Qed.

(** ** The reset *)

Definition reset_seg_failures (s : SegmentRecord) : Z :=
  if seg_stuck permanentFailureKinds s then 0 else sg_RecompressFailures s.
Definition reset_clip_failures (c : ClipRow) : Z :=
  if clip_stuck permanentFailureKinds c then 0 else cl_Failures c.

Definition clip_failures (c : ClipRow) : string * Z := (cl_EventID c, cl_Failures c).

Lemma backfill_keeps_failures fuel : forall total m m' k,
  backfill_loop fuel total m = Some (m', k) ->
  md_segs m' = md_segs m /\ clip_failures <$> md_clips m' = clip_failures <$> md_clips m.
Proof.
  assert (forall r m, md_segs (backfill_one m r) = md_segs m /\
    clip_failures <$> md_clips (backfill_one m r) = clip_failures <$> md_clips m) as Hone.
  { intros r m. rewrite backfill_one_sized. split; [done|]. cbn. unfold update_clip. rewrite <- list_fmap_compose.
    apply list_fmap_ext. intros i x _. cbn. destruct (String.eqb _ _); [|done]. unfold sized, clip_failures. by destruct (os_Stat _ m). }
  assert (forall todo m, md_segs (fold_left backfill_one todo m) = md_segs m /\
    clip_failures <$> md_clips (fold_left backfill_one todo m) = clip_failures <$> md_clips m) as Hfold.
  { induction todo as [|r todo IH]; intros m; [done|]. cbn [fold_left]. destruct (IH (backfill_one m r)) as [-> ->]. apply Hone. }
  induction fuel as [|fuel IH]; intros total m m' k; [done|]. cbn [backfill_loop]. unfold BackfillClipSizes.
  specialize (Hfold (limit 200 (filter (fun r => unsized r = true) (md_clips m))) m) as [H1 H2].
  destruct (_ <? 200); [by intros [= <- _]|]. intros [-> ->]%IH. done.
Qed.

(** A restart gives another chance to the failures that may pass, and to no others.
    When tiered storage is on, an artifact not recompressed that has failed three
    times starts again at zero, except when its last failure was of a permanent kind,
    or when it is a clip with no file; every other count stays.  When tiered storage
    is off nothing changes. *)
Theorem restart_frees_the_retryable fuel r m m' :
  Start_resets fuel r m = Some m' ->
  if ts_Enabled (rp_cfg r) then
    (fun s => (sg_ID s, sg_RecompressFailures s)) <$> sg_rows (md_segs m') =
      (fun s => (sg_ID s, reset_seg_failures s)) <$> sg_rows (md_segs m) /\
    clip_failures <$> md_clips m' = (fun c => (cl_EventID c, reset_clip_failures c)) <$> md_clips m
  else m' = m.
Proof.
  unfold Start_resets. destruct (ts_Enabled (rp_cfg r)); cbn [negb]; [|by intros [= <-]].
  unfold backfillClipSizes. intros ([m'' k] & E & ->)%fmap_Some. cbn [fst].
  apply backfill_keeps_failures in E as [-> ->]. split; cbn; rewrite <- list_fmap_compose; apply list_fmap_ext; intros i x _; cbn.
  - unfold reset_seg_failures. by destruct (seg_stuck _ x).
  - unfold reset_clip_failures, clip_failures. by destruct (clip_stuck _ x).
Qed.

(** ** Instances *)

Definition old_clip (id path : string) : ClipRow := mkClip id "yard" path true 0 (Some 5) false None 3 "worker_crash".

Definition backfill_sample : Media :=
  mkMedia (mkDisk (list_to_map [("/c1", mkFileInfo 70 30)]) ∅) ∅ (mkSegTable [] 0)
    [old_clip "e1" "/c1"; old_clip "e2" "/gone"; mkClip "e3" "yard" "/c3" true 8 None false None 0 ""].

Lemma backfill_ends_witness :
  backfill_loop 1 0 backfill_sample =
    Some (set_clips [mkClip "e1" "yard" "/c1" true 70 (Some 5) false None 3 "worker_crash";
                     mkClip "e2" "yard" "/gone" false 0 (Some 5) false None 3 "worker_crash";
                     mkClip "e3" "yard" "/c3" true 8 None false None 0 ""] backfill_sample, 2).
Proof.
  rewrite backfill_ends; [by vm_compute| | |].
  - apply (bool_decide_unpack _). by vm_compute.
  - unfold no_empty_clip. repeat constructor; vm_compute; intros fi [= <-]; discriminate.
  - vm_compute. lia.
Defined.

(** Two hundred clips whose files are empty. *)
Definition empty_clips : Media :=
  let names := (fun i => String (ascii_of_nat i) "") <$> seq 0 200 in
  mkMedia (mkDisk (list_to_map ((fun p => (p, mkFileInfo 0 1)) <$> names)) ∅) ∅ (mkSegTable [] 0) ((fun p => old_clip p p) <$> names).

Lemma backfill_diverges_witness : backfill_loop 1000 0 empty_clips = None.
Proof.
  apply backfill_diverges; [apply (bool_decide_unpack _); by vm_compute|].
  assert (length (filter (fun r => zero_clip empty_clips r = true) (md_clips empty_clips)) = 200%nat) as -> by by vm_compute.
  lia.
Defined.

Lemma restart_frees_the_retryable_witness :
  exists m', Start_resets 1 (NewRecompressor (mkTiered true 7 640 360 "" 0) []) backfill_sample = Some m' /\
    clip_failures <$> md_clips m' = [("e1", 0); ("e2", 0); ("e3", 0)].
Proof.
  destruct (Start_resets 1 (NewRecompressor (mkTiered true 7 640 360 "" 0) []) backfill_sample) as [m'|] eqn:E; [|by vm_compute in E].
  exists m'. split; [done|]. apply restart_frees_the_retryable in E. cbn [ts_Enabled rp_cfg NewRecompressor] in E.
  destruct E as [_ ->]. by vm_compute.
Defined.
