(* ===== verification/H264.v ===== *)
(** Normalizing H.264 access units ([h264au/h264au.go], [h264au/spslevel.go]): which
    NAL units a strict decoder must not see, the parameter sets in force, and the
    level an SPS may declare.

    A NAL unit is its bytes, an access unit its NAL units.  The SPS parser is
    mediacommon's: it is a parameter, as is nothing else. *)

From S2P Require Import Prelude.

Abbreviation nalu := (list Z).

(** The [nal_unit_type]s of ITU-T H.264 that mediacommon's constants name. *)
Definition NALUTypeSEI : Z := 6.
Definition NALUTypeSPS : Z := 7.
Definition NALUTypePPS : Z := 8.

Definition isType (n : nalu) (want : Z) : bool :=
  match n with b :: _ => Z.land b 31 =? want | [] => false end.

Definition DropSEI (au : list nalu) : list nalu :=
  if existsb (fun n => isType n NALUTypeSEI) au
  then filter (fun n => isType n NALUTypeSEI = false) au
  else au.

(** One turn of [TrackParameterSets]'s loop: SPS, PPS, and whether the SPS changed. *)
Definition track_step (st : nalu * nalu * bool) (n : nalu) : nalu * nalu * bool :=
  let '(sps, pps, changed) := st in
  if isType n NALUTypeSPS then
    if bool_decide (sps = n) then (sps, pps, changed) else (n, pps, true)
  else if isType n NALUTypePPS then (sps, n, changed)
  else (sps, pps, changed).

Definition TrackParameterSets (au : list nalu) (sps pps : nalu) : nalu * nalu * bool :=
  fold_left track_step au (sps, pps, false).

Definition ReplaceSPS (au : list nalu) (muxSPS : nalu) : list nalu :=
  match muxSPS with
  | [] => au
  | _ => (fun n => if isType n NALUTypeSPS && negb (bool_decide (n = muxSPS)) then muxSPS else n) <$> au
  end.

(** ** Levels *)

Record h264LevelLimit := mkLimit { idc : Z; maxMBPS : Z; maxFS : Z; maxDpbMbs : Z }.

Definition h264LevelLimits : list h264LevelLimit :=
  [mkLimit 10 1485 99 396; mkLimit 11 3000 396 900; mkLimit 12 6000 396 2376; mkLimit 13 11880 396 2376;
   mkLimit 20 11880 396 2376; mkLimit 21 19800 792 4752; mkLimit 22 20250 1620 8100; mkLimit 30 40500 1620 8100;
   mkLimit 31 108000 3600 18000; mkLimit 32 216000 5120 20480; mkLimit 40 245760 8192 32768; mkLimit 41 245760 8192 32768;
   mkLimit 42 522240 8704 34816; mkLimit 50 589824 22080 110400; mkLimit 51 983040 36864 184320; mkLimit 52 2073600 36864 184320;
   mkLimit 60 4177920 139264 696320; mkLimit 61 8355840 139264 696320; mkLimit 62 16711680 139264 696320].

Definition fits (l : h264LevelLimit) (frameMbs fps refFrames : Z) : bool :=
  (frameMbs <=? maxFS l) && (i64 (frameMbs * fps) <=? maxMBPS l) && (i64 (refFrames * frameMbs) <=? maxDpbMbs l).

Definition minH264Level (frameMbs fps refFrames : Z) : Z :=
  let refFrames := if refFrames <? 1 then 1 else refFrames in
  match find (fun l => fits l frameMbs fps refFrames) h264LevelLimits with
  | Some l => idc l
  | None => 62
  end.

(** What the parser reports of an SPS; [None] timing when the VUI has none. *)
Record TimingInfo := mkTiming { NumUnitsInTick : Z; TimeScale : Z }.

Record SPS := mkSPS {
  PicWidthInMbsMinus1 : Z;
  PicHeightInMapUnitsMinus1 : Z;
  FrameMbsOnlyFlag : bool;
  MaxNumRefFrames : Z;
  Timing : option TimingInfo
}.

(** [None] is the panic of an integer division by zero: [2 * NumUnitsInTick] is a
    [uint32] product. *)
Definition spsFrameRate (s : SPS) : option Z :=
  match Timing s with
  | None => Some 0
  | Some t =>
      if NumUnitsInTick t =? 0 then Some 0
      else
        let d := u32 (2 * NumUnitsInTick t) in
        if d =? 0 then None
        else
          let fps := TimeScale t / d in
          if (fps <=? 0) || (240 <? fps) then Some 0 else Some fps
  end.

Definition frame_mbs (p : SPS) : Z :=
  let n := i64 (i64 (PicWidthInMbsMinus1 p + 1) * i64 (PicHeightInMapUnitsMinus1 p + 1)) in
  if FrameMbsOnlyFlag p then n else i64 (n * 2).

Section clamp.
Context (Unmarshal : nalu -> option SPS).

(** [None] is the panic of [spsFrameRate]. *)
Definition ClampSPSLevel (sps : nalu) : option nalu :=
  match sps with
  | _ :: _ :: _ :: level :: _ =>
      match Unmarshal sps with
      | None => Some sps
      | Some p =>
          match spsFrameRate p with
          | None => None
          | Some fps =>
              if fps <=? 0 then Some sps
              else
                let frameMbs := frame_mbs p in
                if frameMbs <=? 0 then Some sps
                else
                  let minLevel := minH264Level frameMbs fps (MaxNumRefFrames p) in
                  if level <=? minLevel then Some sps else Some (<[3%nat := minLevel]> sps)
          end
      end
  | _ => Some sps
  end.
End clamp.

(** ** Lemmas *)

(** What a level promises, of a stream with the given frame size, rate and references. *)
Definition supports (l : h264LevelLimit) (frameMbs fps refFrames : Z) : Prop :=
  frameMbs <= maxFS l /\ frameMbs * fps <= maxMBPS l /\ Z.max 1 refFrames * frameMbs <= maxDpbMbs l.

Lemma limits_small l : l ∈ h264LevelLimits -> maxFS l <= 139264 /\ 10 <= idc l <= 62.
Proof.
  intros Hl. assert (Forall (fun l => maxFS l <= 139264 /\ 10 <= idc l <= 62) h264LevelLimits) as Hall
    by (repeat constructor; cbn; lia).
  rewrite Forall_forall in Hall. by apply Hall.
Qed.

Lemma fits_supports l frameMbs fps refFrames :
  l ∈ h264LevelLimits -> 0 < frameMbs -> 0 < fps <= 240 -> refFrames < 2 ^ 32 ->
  fits l frameMbs fps (if refFrames <? 1 then 1 else refFrames) = true <-> supports l frameMbs fps refFrames.
Proof.
  intros Hl Hf Hfps Hr. destruct (limits_small l Hl) as [Hfs _]. unfold fits, supports.
  replace (if refFrames <? 1 then 1 else refFrames) with (Z.max 1 refFrames)
    by (destruct (Z.ltb_spec refFrames 1); lia).
  rewrite !andb_true_iff, !Z.leb_le. split.
  - intros [[H1 H2] H3]. rewrite i64_small in H2 by (unfold min_int64, max_int64; nia).
    rewrite i64_small in H3 by (unfold min_int64, max_int64; nia). lia.
  - intros (H1 & H2 & H3). rewrite !i64_small by (unfold min_int64, max_int64; nia). lia.
Qed.

Lemma limits_ascending : Sorted (fun a b => idc a < idc b) h264LevelLimits.
Proof. repeat constructor. Qed.

Lemma find_first {A} (f : A -> bool) (l : list A) x :
  find f l = Some x -> exists l1 l2, l = l1 ++ x :: l2 /\ f x = true /\ Forall (fun y => f y = false) l1.
Proof.
  induction l as [|a l IH]; cbn; [done|]. destruct (f a) eqn:E.
  - intros [= <-]. exists [], l. by split_and!.
  - intros H. destruct (IH H) as (l1 & l2 & -> & Hx & Hall). exists (a :: l1), l2. split_and!; try done. by constructor.
Qed.

(** The chosen level is the lowest of the table that supports the stream. *)
Lemma minH264Level_spec frameMbs fps refFrames :
  0 < frameMbs -> 0 < fps <= 240 -> refFrames < 2 ^ 32 ->
  (exists l, l ∈ h264LevelLimits /\ minH264Level frameMbs fps refFrames = idc l /\ supports l frameMbs fps refFrames /\
     forall l', l' ∈ h264LevelLimits -> supports l' frameMbs fps refFrames -> idc l <= idc l') \/
  (minH264Level frameMbs fps refFrames = 62 /\ forall l, l ∈ h264LevelLimits -> ~ supports l frameMbs fps refFrames).
Proof.
  intros Hf Hfps Hr. unfold minH264Level. destruct (find _ _) as [l|] eqn:E.
  - left. apply find_first in E as (l1 & l2 & El & Hfit & Hall). exists l.
    assert (l ∈ h264LevelLimits) as Hl by (rewrite El; apply elem_of_app; right; left).
    split_and!; [done|done|by apply fits_supports|]. intros l' Hl' Hs.
    apply fits_supports in Hs; try done. rewrite El in Hl'.
    apply elem_of_app in Hl' as [Hl'|[->|Hl']%elem_of_cons]; [|lia|].
    + rewrite Forall_forall in Hall. rewrite (Hall l' Hl') in Hs. done.
    + assert (StronglySorted (fun a b => idc a < idc b) h264LevelLimits) as Hss
        by (apply Sorted_StronglySorted; [intros a b c; lia|apply limits_ascending]).
      rewrite El in Hss. clear -Hss Hl'. induction l1 as [|a l1 IH]; inversion Hss; subst; [|by apply IH].
      rewrite Forall_forall in H2. specialize (H2 l' Hl'). lia.
  - right. split; [done|]. intros l Hl Hs. apply fits_supports in Hs; try done.
    pose proof (find_none _ _ E l ltac:(by apply list_elem_of_In)). cbn in H. congruence.
Qed.

(** The parsed fields are [uint32]s and the picture is not absurdly large. *)
Record sps_sane (p : SPS) : Prop := {
  sane_size : 0 <= PicWidthInMbsMinus1 p < 2 ^ 30 /\ 0 <= PicHeightInMapUnitsMinus1 p < 2 ^ 30;
  sane_refs : 0 <= MaxNumRefFrames p < 2 ^ 32;
  sane_timing : match Timing p with
                | Some t => 0 <= NumUnitsInTick t < 2 ^ 31 /\ 0 <= TimeScale t < 2 ^ 32
                | None => True
                end;
}.

Definition true_frame_mbs (p : SPS) : Z :=
  (PicWidthInMbsMinus1 p + 1) * (PicHeightInMapUnitsMinus1 p + 1) * (if FrameMbsOnlyFlag p then 1 else 2).

Lemma frame_mbs_exact p : sps_sane p -> frame_mbs p = true_frame_mbs p /\ 0 < frame_mbs p.
Proof.
  intros [[Hw Hh] _ _]. unfold frame_mbs, true_frame_mbs.
  rewrite (i64_small (PicWidthInMbsMinus1 p + 1)), (i64_small (PicHeightInMapUnitsMinus1 p + 1))
    by (unfold min_int64, max_int64; lia).
  set (a := PicWidthInMbsMinus1 p + 1). set (b := PicHeightInMapUnitsMinus1 p + 1).
  assert (0 < a * b <= 2 ^ 60) as Hab by (unfold a, b; nia).
  rewrite (i64_small (a * b)) by (unfold min_int64, max_int64; lia).
  destruct (FrameMbsOnlyFlag p); [lia|]. rewrite i64_small by (unfold min_int64, max_int64; lia). lia.
Qed.

Lemma spsFrameRate_sane p : sps_sane p -> exists fps, spsFrameRate p = Some fps /\ 0 <= fps <= 240.
Proof.
  intros [_ _ Ht]. unfold spsFrameRate. destruct (Timing p) as [t|]; [|exists 0; split; [done|lia]].
  destruct (Z.eqb_spec (NumUnitsInTick t) 0); [exists 0; split; [done|lia]|].
  rewrite u32_small by lia. destruct (Z.eqb_spec (2 * NumUnitsInTick t) 0); [lia|].
  destruct ((_ <=? 0) || _) eqn:E; [exists 0; split; [done|lia]|].
  apply orb_false_iff in E as [E1%Z.leb_gt E2%Z.ltb_ge]. eexists. split; [done|lia].
Qed.

(** ** Properties *)

(** For an SPS with sane fields, clamping never fails, changes nothing but the
    level byte, only ever lowers it, and when it does, the level it declares is the
    lowest of Table A-1 whose frame size, macroblock rate (at the whole frame rate the
    VUI declares) and picture buffer the stream respects, unless no level does. *)
Theorem ClampSPSLevel_safe Unmarshal sps p level :
  Unmarshal sps = Some p -> sps_sane p -> sps !! 3%nat = Some level ->
  exists out, ClampSPSLevel Unmarshal sps = Some out /\
    (out = sps \/
     exists fps l, spsFrameRate p = Some fps /\ 0 < fps /\ out = <[3%nat := idc l]> sps /\ idc l < level /\
       l ∈ h264LevelLimits /\
       ((supports l (true_frame_mbs p) fps (MaxNumRefFrames p) /\
         forall l', l' ∈ h264LevelLimits -> supports l' (true_frame_mbs p) fps (MaxNumRefFrames p) -> idc l <= idc l') \/
        forall l', l' ∈ h264LevelLimits -> ~ supports l' (true_frame_mbs p) fps (MaxNumRefFrames p))).
Proof.
  intros Hu Hp Hlev. destruct sps as [|b0 [|b1 [|b2 [|b3 rest]]]]; try done. injection Hlev as ->.
  unfold ClampSPSLevel. rewrite Hu. destruct (spsFrameRate_sane p Hp) as (fps & Efps & Hfps). rewrite Efps.
  destruct (Z.leb_spec fps 0); [eexists; split; [done|by left]|].
  destruct (frame_mbs_exact p Hp) as [Emb Hmb]. destruct (Z.leb_spec (frame_mbs p) 0); [lia|].
  destruct (Z.leb_spec level (minH264Level (frame_mbs p) fps (MaxNumRefFrames p))); [eexists; split; [done|by left]|].
  eexists. split; [done|]. right.
  destruct (minH264Level_spec (frame_mbs p) fps (MaxNumRefFrames p)) as [(l & Hl & E & Hs & Hmin)|[E Hnone]];
    try lia; try (apply (sane_refs _ Hp)); rewrite E in *; rewrite Emb in *.
  - exists fps, l. split_and!; try done. by left.
  - exists fps, (mkLimit 62 16711680 139264 696320). split_and!; try done; [|by right].
    unfold h264LevelLimits. do 18 right. left.
Qed.

(** Normalizing never invents or reorders NAL units: dropping SEI keeps exactly the
    other units; the tracked SPS and PPS are the last of the access unit, or those held
    before, and a change is reported exactly when the SPS now held differs from the one
    held before or the unit carried a different one on the way; and after replacing,
    every SPS of the unit is the muxer's and every other unit is untouched. *)
Theorem access_unit_normalization au sps pps muxSPS :
  DropSEI au = filter (fun n => isType n NALUTypeSEI = false) au /\
  (let '(s, p, changed) := TrackParameterSets au sps pps in
   s = default sps (last (filter (fun n => isType n NALUTypeSPS = true) au)) /\
   p = default pps (last (filter (fun n => isType n NALUTypePPS = true) au)) /\
   (changed = false <-> Forall (fun n => n = sps) (filter (fun n => isType n NALUTypeSPS = true) au))) /\
  (muxSPS <> [] ->
   length (ReplaceSPS au muxSPS) = length au /\
   forall i n, au !! i = Some n ->
     ReplaceSPS au muxSPS !! i = Some (if isType n NALUTypeSPS then muxSPS else n)).
Proof.
  split; [|split].
  - unfold DropSEI. destruct (existsb _ _) eqn:E; [done|]. symmetry. induction au as [|n au IH]; [done|].
    cbn in E. apply orb_false_iff in E as [E1 E2]. rewrite filter_cons_True by done. f_equal. by apply IH.
  - induction au as [|n au IH] using rev_ind; [split_and!; try done; by split|].
    unfold TrackParameterSets in *. rewrite fold_left_app, !filter_app. cbn [fold_left].
    destruct (fold_left track_step au (sps, pps, false)) as [[s p] changed]. destruct IH as (Hs & Hp & Hch).
    assert (Forall (fun n => n = sps) (filter (fun n => isType n NALUTypeSPS = true) au) -> s = sps) as Hheld.
    { intros Hall. rewrite Hs. destruct (last _) as [x|] eqn:El; [|done]. cbn.
      rewrite Forall_forall in Hall. apply Hall. by apply last_Some_elem_of. }
    unfold track_step. destruct (isType n NALUTypeSPS) eqn:Es.
    + assert (isType n NALUTypePPS = false) as Ep.
      { destruct n as [|b n]; [done|]. unfold isType in *. apply Z.eqb_eq in Es. apply Z.eqb_neq. rewrite Es. done. }
      rewrite (filter_cons_True _ n) by done. rewrite (filter_cons_False _ n) by congruence.
      change (filter (fun n => isType n NALUTypePPS = true) []) with (@nil nalu). rewrite app_nil_r.
      change (filter (fun n => isType n NALUTypeSPS = true) []) with (@nil nalu). rewrite last_snoc.
      case_bool_decide as Hb; (split_and!; [done|done|]); rewrite Forall_app, Forall_singleton.
      * rewrite Hch. split; [|tauto]. intros Hall. split; [done|]. rewrite <- Hb. by apply Hheld.
      * split; [done|]. intros [Hall ->]. exfalso. apply Hb. by apply Hheld.
    + rewrite (filter_cons_False _ n) by congruence.
      change (filter (fun n => isType n NALUTypeSPS = true) []) with (@nil nalu). rewrite app_nil_r.
      destruct (isType n NALUTypePPS) eqn:Ep.
      * rewrite filter_cons_True by done. change (filter (fun n => isType n NALUTypePPS = true) []) with (@nil nalu).
        rewrite last_snoc. by split_and!.
      * rewrite filter_cons_False by congruence. change (filter (fun n => isType n NALUTypePPS = true) []) with (@nil nalu).
        rewrite app_nil_r. by split_and!.
  - intros Hne. unfold ReplaceSPS. destruct muxSPS as [|m ms]; [done|]. split; [by rewrite length_fmap|].
    intros i n Hn. rewrite list_lookup_fmap, Hn. cbn. destruct (isType n NALUTypeSPS); [|done]. cbn.
    by case_bool_decide as Hb; [rewrite Hb|].
Qed.

(** A tick of 2^31 units makes the [uint32] product zero and the division panic. *)
Lemma spsFrameRate_panics w h f r scale :
  spsFrameRate (mkSPS w h f r (Some (mkTiming (2 ^ 31) scale))) = None.
Proof. reflexivity. Qed.

(** At 29.97 frames a second the rate counts as 29: 1368 macroblocks are declared
    level 3.0 although the stream exceeds its 40500 macroblocks a second. *)
Lemma clamp_under_declares :
  let p := mkSPS 37 35 true 1 (Some (mkTiming 1001 60000)) in
  ClampSPSLevel (fun _ => Some p) [103; 77; 0; 51] = Some [103; 77; 0; 30] /\
  40500 * 2 * 1001 < true_frame_mbs p * 60000.
Proof. split; [vm_compute; reflexivity|]. unfold true_frame_mbs. cbn. lia. Qed.

(** ** Witnesses *)

Definition w_sps : SPS := mkSPS 39 29 true 1 (Some (mkTiming 1 30)).

Lemma ClampSPSLevel_safe_witness :
  exists out, ClampSPSLevel (fun _ => Some w_sps) [103; 77; 0; 51; 1] = Some out /\ out !! 3%nat = Some 22.
Proof.
  assert (sps_sane w_sps) as Hp by (split; cbn; lia).
  destruct (ClampSPSLevel_safe (fun _ => Some w_sps) [103; 77; 0; 51; 1] w_sps 51 eq_refl Hp eq_refl) as (out & E & _).
  exists out. split; [exact E|]. revert E. vm_compute. intros [= <-]. reflexivity.
Defined.

Lemma access_unit_normalization_witness :
  ReplaceSPS [[103; 1]; [101; 9]] [103; 2] !! 0%nat = Some [103; 2].
Proof.
  assert ([103; 2] <> []) as Hne by discriminate.
  exact (proj2 (proj2 (proj2 (access_unit_normalization [[103; 1]; [101; 9]] [] [] [103; 2])) Hne) 0%nat [103; 1] eq_refl).
Defined.
