(* ===== verification/Cry.v ===== *)
(** The cry episode state machine ([cry/episode.go]): onset is confirmed by two
    windows, release by three, and only consecutive windows of one stream count. *)

From S2P Require Import Prelude Float64.

Record episodeState := mkEpisode {
  threshold : float64;
  high : Z;
  low : Z;
  active : bool;
  last : Z;
  epoch : Z
}.

Definition new_episode (thr : float64) : episodeState := mkEpisode thr 0 0 false 0 0.

(** The answer says whether an episode was cut short. *)
Definition reset (s : episodeState) : episodeState * bool :=
  (mkEpisode (threshold s) 0 0 false 0 0, active s).

Definition is_high (thr score : float64) : bool := fge score thr.

(** [score < s.threshold*.7] in [float32]. *)
Definition is_low (thr score : float64) : bool := flt score (mul32 thr (f32_lit 7 10)).

(** Whether the window continues the stream the state is in. *)
Definition broken (s : episodeState) (now ep : Z) : bool :=
  negb (IsZero (last s)) &&
  (negb (ep =? epoch s) || negb (After now (last s)) || (720 * Millisecond <? Sub now (last s))).

(** The answer is the new state, [start] and [end]. *)
Definition update (now ep : Z) (score : float64) (s : episodeState) : episodeState * bool * bool :=
  let '(s, end_) := if broken s now ep then reset s else (s, false) in
  if is_high (threshold s) score then
    let high' := i64 (high s + 1) in
    let start := negb (active s) && (2 <=? high') in
    (mkEpisode (threshold s) high' 0 (active s || start) now ep, start, end_)
  else if is_low (threshold s) score then
    let low' := i64 (low s + 1) in
    if active s && (3 <=? low') then (mkEpisode (threshold s) 0 0 false now ep, false, true)
    else (mkEpisode (threshold s) 0 low' (active s) now ep, false, end_)
  else (mkEpisode (threshold s) 0 0 (active s) now ep, false, end_).

(** ** Histories *)

Record Window := mkWindow { w_at : Z; w_epoch : Z; w_score : float64 }.

Section episode.
Context (thr : float64).

(** The state after a history of windows, the latest first. *)
Fixpoint after (h : list Window) : episodeState :=
  match h with
  | [] => new_episode thr
  | w :: older => (update (w_at w) (w_epoch w) (w_score w) (after older)).1.1
  end.

Definition follows (w : Window) (older : list Window) : bool :=
  match older with
  | [] => false
  | v :: _ => (w_epoch w =? w_epoch v) && After (w_at w) (w_at v) && (Sub (w_at w) (w_at v) <=? 720 * Millisecond)
  end.

(** How many of the latest windows, each following the one before, satisfy [p]. *)
Fixpoint streak (p : float64 -> bool) (h : list Window) : Z :=
  match h with
  | [] => 0
  | w :: older => if p (w_score w) then 1 + (if follows w older then streak p older else 0) else 0
  end.

Definition lowOnly (score : float64) : bool := negb (is_high thr score) && is_low thr score.

Definition stamped (h : list Window) : Prop := Forall (fun w => w_at w <> 0) h /\ Z.of_nat (length h) < 2 ^ 62.

Lemma streak_range p h : 0 <= streak p h <= Z.of_nat (length h).
Proof. induction h as [|w h IH]; cbn; [lia|]. destruct (p _); [destruct (follows w h)|]; lia. Qed.

Record tracks (h : list Window) (s : episodeState) : Prop := {
  tr_thr : threshold s = thr;
  tr_high : high s = streak (is_high thr) h;
  tr_low : 0 <= low s <= Z.of_nat (length h);
  tr_active : active s = true -> low s = streak lowOnly h /\ low s < 3;
  tr_inactive : active s = false -> streak (is_high thr) h < 2;
  tr_last : match h with [] => last s = 0 /\ active s = false | w :: _ => last s = w_at w /\ epoch s = w_epoch w end;
}.

Lemma broken_follows h s w : tracks h s -> stamped h ->
  broken s (w_at w) (w_epoch w) = match h with [] => false | _ => negb (follows w h) end.
Proof.
  intros [_ _ _ _ _ Hl] [Hst _]. unfold broken, follows, IsZero, zero_time. destruct h as [|v h].
  - destruct Hl as [-> _]. done.
  - destruct Hl as [-> ->]. apply Forall_cons in Hst as [Hv _].
    rewrite (proj2 (Z.eqb_neq (w_at v) 0)) by done. cbn [negb andb].
    rewrite !negb_andb, Z.ltb_antisym. done.
Qed.

(** The state the window is counted in: the state itself when the window follows,
    else a fresh one. *)
Lemma counted_state h s w : tracks h s -> stamped h ->
  let s0 := if broken s (w_at w) (w_epoch w) then (reset s).1 else s in
  threshold s0 = thr /\ high s0 = (if follows w h then streak (is_high thr) h else 0) /\
  0 <= low s0 <= Z.of_nat (length h) /\ active s0 = active s && follows w h /\
  (active s0 = true -> low s0 = streak lowOnly h /\ low s0 < 3) /\
  (active s0 = false -> (if follows w h then streak (is_high thr) h else 0) < 2).
Proof.
  intros Ht Hst s0. pose proof (broken_follows h s w Ht Hst) as Hb. destruct Ht as [Hthr Hh Hlo Ha Hi Hl].
  unfold s0. rewrite Hb. destruct h as [|v h].
  - destruct Hl as [_ Hl]. cbn in *. rewrite Hl in *. split_and!; try done; lia.
  - destruct (follows w (v :: h)) eqn:F; cbn [negb fst reset].
    + rewrite andb_true_r. split_and!; try done; try lia.
    + rewrite andb_false_r. cbn [threshold high low active]. split_and!; try done; lia.
Qed.

(** What one window does, in terms of the history alone. *)
Lemma update_spec h s w : tracks h s -> stamped (w :: h) ->
  let '(s', start, end_) := update (w_at w) (w_epoch w) (w_score w) s in
  tracks (w :: h) s' /\
  (start = true <-> 2 <= streak (is_high thr) (w :: h) /\ ~ (active s = true /\ follows w h = true)) /\
  (end_ = true <-> active s = true /\ (follows w h = false \/ 3 <= streak lowOnly (w :: h))) /\
  active s' = (active s && negb end_) || start.
Proof.
  intros Ht [Hst Hlen]. apply Forall_cons in Hst as [Hw Hst]. cbn [length] in Hlen.
  assert (stamped h) as Hsth by (split; [done|lia]).
  pose proof (broken_follows h s w Ht Hsth) as Hb.
  destruct (counted_state h s w Ht Hsth) as (Et & Eh & El & Ea & Hact & Hina).
  assert (active s = true -> h <> []) as Hne.
  { intros E ->. destruct Ht as [_ _ _ _ _ [_ Hl]]. congruence. }
  assert (broken s (w_at w) (w_epoch w) && active s = active s && negb (follows w h)) as Hcut.
  { rewrite Hb. destruct h as [|v h]; [|apply andb_comm]. destruct (active s); [by destruct Hne|done]. }
  pose proof (streak_range (is_high thr) h) as Hrh. pose proof (streak_range lowOnly h) as Hrl.
  clear Ht Hb. unfold update. cbn [streak length].
  replace (if broken s (w_at w) (w_epoch w) then reset s else (s, false))
    with ((if broken s (w_at w) (w_epoch w) then (reset s).1 else s), broken s (w_at w) (w_epoch w) && active s)
    by (unfold reset; by destruct (broken _ _ _)).
  rewrite Hcut. set (s0 := if broken s (w_at w) (w_epoch w) then (reset s).1 else s) in *.
  rewrite Et. unfold lowOnly at 1. destruct (is_high thr (w_score w)) eqn:Ehigh; cbn [negb andb].
  - rewrite i64_small by (unfold min_int64, max_int64; destruct (follows w h); lia). rewrite Eh, Ea.
    destruct (Z.leb_spec 2 ((if follows w h then streak (is_high thr) h else 0) + 1)) as [H2|H2].
    + rewrite andb_true_r. split; [|destruct (active s), (follows w h); cbn; intuition (try lia; try congruence)].
      split; cbn [threshold high low active last epoch streak length]; try done; rewrite ?Ehigh; try lia.
      * unfold lowOnly. rewrite Ehigh. cbn. intros _. lia.
      * by destruct (active s && follows w h).
    + rewrite andb_false_r. split; [|destruct (active s), (follows w h); cbn in *; intuition (try lia; try congruence)].
      split; cbn [threshold high low active last epoch streak length]; try done; rewrite ?Ehigh; try lia.
      unfold lowOnly. rewrite Ehigh. cbn. intros _. lia.
  - destruct (is_low thr (w_score w)) eqn:Elow.
    + rewrite i64_small by (unfold min_int64, max_int64; lia). rewrite Ea in *.
      destruct (active s && follows w h) eqn:Eaf; cbn [andb].
      * apply andb_true_iff in Eaf as [Eas Ef]. rewrite Eas, Ef in *. destruct (Hact eq_refl) as [Hl Hl3].
        destruct (Z.leb_spec 3 (low s0 + 1)) as [H3|H3].
        -- split; [|cbn; intuition (try lia; try congruence)].
           split; cbn [threshold high low active last epoch streak length]; try done; rewrite ?Ehigh; try lia.
        -- split; [|cbn; intuition (try lia; try congruence)].
           split; cbn [threshold high low active last epoch streak length]; try done; rewrite ?Ehigh; try lia.
           unfold lowOnly at 1. rewrite Ehigh, Elow, Ef. cbn. intros _. lia.
      * split; [|destruct (active s), (follows w h); cbn in *; intuition (try lia; try congruence)].
        split; cbn [threshold high low active last epoch streak length]; try done; rewrite ?Ehigh; try lia.
    + split; [|destruct (active s), (follows w h); cbn in *; rewrite ?Ea; intuition (try lia; try congruence)].
      split; cbn [threshold high low active last epoch streak length]; try done; rewrite ?Ehigh; try lia.
      unfold lowOnly. rewrite Ehigh, Elow. cbn. intros _. lia.
Qed.

Lemma after_tracks h : stamped h -> tracks h (after h).
Proof.
  induction h as [|w h IH]; intros Hst.
  - split; cbn; try done; lia.
  - assert (stamped h) as Hsth by (destruct Hst as [Hf Hl]; apply Forall_cons in Hf as [_ Hf]; split; [done|cbn in Hl; lia]).
    pose proof (update_spec h (after h) w (IH Hsth) Hst) as H. cbn [after].
    destruct (update _ _ _ _) as [[s' st] en]. apply H.
Qed.

(** Whatever was heard before, an episode starts exactly at a window that makes
    two windows in a row at or above the threshold while none is running; it ends
    exactly when, while one is running, the stream breaks off (another epoch, a clock
    that does not advance, a gap over 720 ms) or three windows in a row fall below
    seven tenths of the threshold; and one is running exactly when it started and
    has not ended.  So starts and ends alternate, and a cut episode cannot restart
    on the window that cut it. *)
Theorem episodes_have_evidence h w :
  stamped (w :: h) ->
  let '(s', start, end_) := update (w_at w) (w_epoch w) (w_score w) (after h) in
  (start = true <-> 2 <= streak (is_high thr) (w :: h) /\ ~ (active (after h) = true /\ follows w h = true)) /\
  (end_ = true <-> active (after h) = true /\ (follows w h = false \/ 3 <= streak lowOnly (w :: h))) /\
  active s' = (active (after h) && negb end_) || start /\
  (start = true -> end_ = false).
Proof.
  intros Hst. assert (stamped h) as Hsth.
  { destruct Hst as [Hf Hl]. apply Forall_cons in Hf as [_ Hf]. split; [done|cbn in Hl; lia]. }
  pose proof (update_spec h (after h) w (after_tracks h Hsth) Hst) as H.
  destruct (update _ _ _ _) as [[s' st] en]. destruct H as (_ & Hs & He & Ha). split_and!; try done.
  intros ->. destruct en; [|done]. exfalso. destruct (proj1 Hs eq_refl) as [H2 Hn]. destruct (proj1 He eq_refl) as [Hact Hor].
  destruct Hor as [Hf|H3].
  - cbn in H2. rewrite Hf in H2. destruct (is_high _ _); lia.
  - cbn in H2, H3. unfold lowOnly in H3 at 1. destruct (is_high thr (w_score w)); cbn in *; lia.
Qed.
End episode.

Lemma episodes_have_evidence_witness :
  let w t score := mkWindow (t * Millisecond) 1 (f32_lit score 10) in
  let '(s', start, end_) := update (1480 * Millisecond) 1 (f32_lit 9 10) (after (f32_lit 8 10) [w 1000 9]) in
  start = true.
Proof.
  intros w.
  assert (stamped [w 1480 9; w 1000 9]) as Hst.
  { split; [repeat constructor; cbn; discriminate|cbn; lia]. }
  pose proof (episodes_have_evidence (f32_lit 8 10) [w 1000 9] (w 1480 9) Hst) as Hthm.
  change (update (1480 * Millisecond) 1 (f32_lit 9 10) (after (f32_lit 8 10) [w 1000 9]))
    with (update (w_at (w 1480 9)) (w_epoch (w 1480 9)) (w_score (w 1480 9)) (after (f32_lit 8 10) [w 1000 9])).
  destruct (update (w_at (w 1480 9)) (w_epoch (w 1480 9)) (w_score (w 1480 9)) (after (f32_lit 8 10) [w 1000 9])) as [[s' st] en].
  destruct Hthm as [Hs _]. apply Hs. split; [vm_compute; discriminate|vm_compute; intros [? _]; discriminate].
Defined.
