(* ===== verification/ObjectCount.v ===== *)
(** The gate in front of the retained object-count sensor ([event/object_count.go]):
    counts are numbered where they change and published from background goroutines in
    any order; a count a newer one has overtaken is dropped. *)

From S2P Require Import Prelude.
From Stdlib Require Import Ascii.

(** [sent]: the counts handed to the broker, in order, with their key and number. *)
Record objectCountGate := mkGate {
  next : Z;
  published : gmap string Z;
  sent : list (string * Z)
}.

Definition newObjectCountGate : objectCountGate := mkGate 0 ∅ [].

Definition reserve (g : objectCountGate) : objectCountGate * Z :=
  (mkGate (u64 (next g + 1)) (published g) (sent g), u64 (next g + 1)).

Definition gate_key (cameraName label : string) : string :=
  (cameraName +:+ String (ascii_of_nat 0) label)%string.

Definition publish (cameraName label : string) (seq : Z) (g : objectCountGate) : objectCountGate :=
  let key := gate_key cameraName label in
  if seq <=? default 0 (published g !! key) then g
  else mkGate (next g) (<[key := seq]> (published g)) (sent g ++ [(key, seq)]).

(** ** Interleavings *)

(** What the Run loop and the goroutines do, in the order the lock lets them. *)
Inductive GateOp := Reserve | Publish (cameraName label : string) (seq : Z).

Definition gate_step (g : objectCountGate) (op : GateOp) : objectCountGate :=
  match op with
  | Reserve => (reserve g).1
  | Publish c l seq => publish c l seq g
  end.

Definition gate_run (ops : list GateOp) : objectCountGate := fold_left gate_step ops newObjectCountGate.

(** The numbers published for a key, and those that reached the broker. *)
Definition offered (key : string) (ops : list GateOp) : list Z :=
  omap (fun op => match op with
                  | Publish c l seq => if decide (gate_key c l = key) then Some seq else None
                  | Reserve => None
                  end) ops.

Definition delivered (key : string) (g : objectCountGate) : list Z :=
  snd <$> filter (fun p => p.1 = key) (sent g).

(** The running maxima above [m]. *)
Fixpoint records (m : Z) (l : list Z) : list Z :=
  match l with
  | [] => []
  | x :: l => if m <? x then x :: records x l else records m l
  end.

Definition no_nul (s : string) : Prop := ascii_of_nat 0 ∉ Stdlib.Strings.String.list_ascii_of_string s.

(** Names without NUL are told apart by their key. *)
Lemma gate_key_inj c1 l1 c2 l2 : no_nul c1 -> no_nul c2 -> gate_key c1 l1 = gate_key c2 l2 -> c1 = c2 /\ l1 = l2.
Proof.
  unfold gate_key, no_nul. revert c2. induction c1 as [|a c1 IH]; intros [|b c2] H1 H2 E; cbn in *.
  - injection E as ->. done.
  - injection E as E1 E2. exfalso. apply H2. rewrite <- E1. left.
  - injection E as E1 E2. exfalso. apply H1. rewrite E1. left.
  - injection E as -> E. rewrite not_elem_of_cons in H1, H2. destruct (IH c2) as [-> ->]; tauto.
Qed.

Lemma records_snoc l x : forall m, records m (l ++ [x]) = records m l ++ (if fold_left Z.max l m <? x then [x] else []).
Proof.
  induction l as [|y l IH]; intros m; cbn [app records fold_left]; [done|].
  destruct (Z.ltb_spec m y); rewrite IH.
  - cbn [app]. do 2 f_equal. replace (Z.max m y) with y by lia. done.
  - replace (Z.max m y) with m by lia. done.
Qed.

Lemma run_key key ops :
  default 0 (published (gate_run ops) !! key) = fold_left Z.max (offered key ops) 0 /\
  delivered key (gate_run ops) = records 0 (offered key ops).
Proof.
  unfold gate_run, offered. induction ops as [|op ops [IHp IHd]] using rev_ind; [done|].
  rewrite fold_left_app, omap_app. cbn [fold_left]. set (g := fold_left gate_step ops newObjectCountGate) in *.
  destruct op as [|c l seq]; cbn [gate_step omap list_omap].
  - rewrite app_nil_r. done.
  - unfold publish. destruct (decide (gate_key c l = key)) as [Ek|Ek].
    + rewrite fold_left_app, records_snoc. cbn [fold_left]. rewrite Ek, IHp.
      destruct (Z.leb_spec seq (fold_left Z.max (omap (fun op => match op with
        | Publish c l seq => if decide (gate_key c l = key) then Some seq else None | Reserve => None end) ops) 0)) as [Hle|Hgt].
      * rewrite IHp, IHd, (proj2 (Z.ltb_ge _ _)) by done. rewrite app_nil_r. split; [lia|done].
      * rewrite (proj2 (Z.ltb_lt _ _)) by done. cbn [published]. rewrite lookup_insert_eq. cbn. split; [lia|].
        unfold delivered in *. cbn [sent]. rewrite filter_app, fmap_app, IHd, filter_cons_True by done. done.
    + rewrite app_nil_r. destruct (seq <=? _); [done|]. cbn [published]. rewrite lookup_insert_ne by done.
      split; [done|]. unfold delivered in *. cbn [sent]. rewrite filter_app, fmap_app, IHd, filter_cons_False by done.
      cbn. by rewrite app_nil_r.
Qed.

Lemma records_sorted l : forall m, StronglySorted Z.lt (records m l) /\ Forall (fun x => m < x) (records m l).
Proof.
  induction l as [|x l IH]; intros m; cbn [records]; [split; constructor|].
  destruct (Z.ltb_spec m x); [|apply IH]. destruct (IH x) as [H1 H2]. split.
  - by constructor.
  - constructor; [done|]. eapply Forall_impl; [exact H2|]. cbn. lia.
Qed.

Lemma records_last l : forall m, List.last (records m l) m = fold_left Z.max l m.
Proof.
  assert (forall (ls : list Z) x d, List.last (x :: ls) d = List.last ls x) as Hlast.
  { induction ls as [|y ls IH]; intros x d; [done|]. change (List.last (y :: ls) d = List.last (y :: ls) x). by rewrite !IH. }
  induction l as [|x l IH]; intros m; cbn [records fold_left]; [done|].
  destruct (Z.ltb_spec m x).
  - rewrite Hlast, IH. f_equal. lia.
  - rewrite IH. f_equal. lia.
Qed.

Lemma fold_max l : forall m, m <= fold_left Z.max l m /\ Forall (fun x => x <= fold_left Z.max l m) l.
Proof.
  induction l as [|x l IH]; intros m; cbn [fold_left]; [split; [lia|constructor]|].
  destruct (IH (Z.max m x)) as [H1 H2]. split; [lia|]. constructor; [lia|done].
Qed.

(** However the background publishes of a camera and label are reordered, the counts
    that reach the broker have strictly increasing numbers, and the last one, which the
    broker retains, is the newest of all those published; a number is dropped only
    because a newer one had already gone out. *)
Theorem retained_count_is_newest cameraName label ops :
  let key := gate_key cameraName label in
  let l := delivered key (gate_run ops) in
  StronglySorted Z.lt l /\
  l = records 0 (offered key ops) /\
  Forall (fun seq => seq <= List.last l 0) (offered key ops).
Proof.
  cbn zeta. destruct (run_key (gate_key cameraName label) ops) as [_ ->]. split_and!.
  - apply records_sorted.
  - done.
  - rewrite records_last. apply fold_max.
Qed.
