(* ===== verification/MemoryGuard.v ===== *)
(** The memory guard ([watchdog/memguard.go]) and the liveness watchdog
    ([watchdog/watchdog.go]). *)

From Stdlib Require Import SpecFloat.
From S2P Require Import Prelude Float64.

Definition memGuardInterval : Z := 10 * Second.
Definition memGuardSustain : Z := 30 * Second.
Definition softMemoryFloor : Z := 2 ^ 30.

(** [uint64(x)] of a float in range; Go leaves the rest to the implementation. *)
Definition f64_to_u64 (x : float64) : option Z :=
  match x with
  | S754_zero _ => Some 0
  | S754_finite false m e =>
      let v := if 0 <=? e then Zpos m * 2 ^ e else Zpos m / 2 ^ (- e) in
      if v <? 2 ^ 64 then Some v else None
  | _ => None
  end.

Definition ResolveMemoryLimit (enabled : bool) (limitMB systemRAM : Z) : option Z :=
  if negb enabled then Some 0
  else if 0 <? limitMB then Some (u64 (u64 (u64 limitMB * 1024) * 1024))
  else if systemRAM =? 0 then Some 0
  else f64_to_u64 (fmul (f64_of_Z systemRAM) (f64_lit 60 100)).

Definition ResolveSoftMemoryLimit (guardLimit : Z) : Z :=
  if guardLimit =? 0 then max_int64
  else
    let soft := guardLimit / 2 in
    if (soft <? softMemoryFloor) || (max_int64 <? soft) then max_int64 else soft.

Record MemoryGuard := mkGuard { limit : Z; sustain : Z; interval : Z; overSince : Z }.

Definition NewMemoryGuard (limitBytes : Z) : MemoryGuard :=
  mkGuard limitBytes memGuardSustain memGuardInterval 0.

Definition breached (footprint now : Z) (g : MemoryGuard) : MemoryGuard * bool :=
  if footprint <=? limit g then (mkGuard (limit g) (sustain g) (interval g) 0, false)
  else
    let since := if IsZero (overSince g) then now else overSince g in
    (mkGuard (limit g) (sustain g) (interval g) since, sustain g <=? Sub now since).

(** [Run] over the samples of its ticks: the footprint it fired on, and then it
    returned; [None] when the context ended first. *)
Fixpoint Run (samples : list (Z * Z)) (g : MemoryGuard) : option (Z * Z) :=
  match samples with
  | [] => None
  | (footprint, now) :: samples =>
      let '(g, fire) := breached footprint now g in
      if fire : bool then Some (footprint, limit g) else Run samples g
  end.

(** [goFootprintBytes] over the two readings. *)
Definition goFootprintBytes (total released : Z) : Z := if total <? released then 0 else total - released.

(** ** The watchdog *)

Record Watchdog := mkWatchdog { timeout : Z; lastKick : Z }.

Definition Kick (now : Z) (w : Watchdog) : Watchdog := mkWatchdog (timeout w) now.

(** One tick of [Run]: how long the process has stalled, when it fires. *)
Definition watchdog_tick (now : Z) (w : Watchdog) : option Z :=
  let stalled := i64 (now - lastKick w) in
  if timeout w <? stalled then Some stalled else None.

(** ** When the guard fires *)

(** The current breach: the latest samples above the limit, the latest first. *)
Fixpoint breach (lim : Z) (history : list (Z * Z)) : list (Z * Z) :=
  match history with
  | [] => []
  | s :: older => if lim <? s.1 then s :: breach lim older else []
  end.

(** The breach has lasted for the whole window. *)
Definition sustained (lim : Z) (history : list (Z * Z)) : bool :=
  match history, last (breach lim history) with
  | (_, now) :: _, Some (_, since) => memGuardSustain <=? Sub now since
  | _, _ => false
  end.

Definition guard_after (lim : Z) (history : list (Z * Z)) : MemoryGuard :=
  foldr (fun s g => (breached s.1 s.2 g).1) (NewMemoryGuard lim) history.

Lemma guard_after_spec lim h :
  Forall (fun s => s.2 <> 0) h ->
  guard_after lim h = mkGuard lim memGuardSustain memGuardInterval
    (match last (breach lim h) with Some s => s.2 | None => 0 end).
Proof.
  induction 1 as [|[f t] h Ht Hall IH]; [done|]. cbn [guard_after foldr fst snd] in *. fold (guard_after lim h).
  rewrite IH. unfold breached. cbn [limit sustain interval overSince breach fst].
  rewrite Z.leb_antisym. destruct (Z.ltb_spec lim f); cbn [negb fst]; [|done].
  f_equal. destruct (breach lim h) as [|s l] eqn:E; [done|].
  destruct (last (s :: l)) as [[f' t']|] eqn:El; [|by apply last_None in El].
  rewrite last_cons, El. cbn [snd]. unfold IsZero, zero_time. rewrite (proj2 (Z.eqb_neq t' 0)); [done|].
  assert (forall l, Forall (fun s => s.2 <> 0) l -> Forall (fun s => s.2 <> 0) (breach lim l)) as Hsub.
  { induction 1; cbn; [constructor|]. case_match; constructor; done. }
  specialize (Hsub h Hall). rewrite E in Hsub. apply last_Some_elem_of in El.
  rewrite Forall_forall in Hsub. exact (Hsub (f', t') El).
Qed.

Lemma breached_sustained lim h f t :
  Forall (fun s => s.2 <> 0) ((f, t) :: h) ->
  (breached f t (guard_after lim h)).2 = sustained lim ((f, t) :: h).
Proof.
  intros [Ht Hall]%Forall_cons. rewrite guard_after_spec by done.
  pose proof (guard_after_spec lim ((f, t) :: h) ltac:(by constructor)) as Hs. cbn [guard_after foldr fst snd] in Hs.
  fold (guard_after lim h) in Hs. rewrite guard_after_spec in Hs by done.
  unfold breached, sustained in *. cbn [limit sustain interval overSince breach fst] in *.
  rewrite Z.leb_antisym in *. destruct (Z.ltb_spec lim f); cbn [negb fst snd] in *; [|done].
  injection Hs as Hs. rewrite Hs. destruct (last ((f, t) :: breach lim h)) as [[f' t']|] eqn:El; [done|by apply last_None in El].
Qed.

(** The guard fires at the first sample that ends thirty seconds of samples all
    above the limit, with that sample's footprint, and at no other: one sample at or
    below the limit starts the count again; and it fires at most once, for [Run]
    returns. *)
Theorem guard_fires_on_sustained_breach lim samples :
  Forall (fun s => s.2 <> 0) samples ->
  (forall f l, Run samples (NewMemoryGuard lim) = Some (f, l) <->
     l = lim /\ exists before t rest, samples = before ++ (f, t) :: rest /\
       sustained lim ((f, t) :: reverse before) = true /\
       forall b1 s b2, before = b1 ++ s :: b2 -> sustained lim (s :: reverse b1) = false) /\
  (Run samples (NewMemoryGuard lim) = None <->
     forall b1 s b2, samples = b1 ++ s :: b2 -> sustained lim (s :: reverse b1) = false).
Proof.
  intros Hall.
  assert (forall past samples, Forall (fun s => s.2 <> 0) (reverse past ++ samples) ->
    (forall f l, Run samples (guard_after lim past) = Some (f, l) <->
       l = lim /\ exists before t rest, samples = before ++ (f, t) :: rest /\
         sustained lim ((f, t) :: reverse before ++ past) = true /\
         forall b1 s b2, before = b1 ++ s :: b2 -> sustained lim (s :: reverse b1 ++ past) = false) /\
    (Run samples (guard_after lim past) = None <->
       forall b1 s b2, samples = b1 ++ s :: b2 -> sustained lim (s :: reverse b1 ++ past) = false)) as Hgen.
  { intros past ss. revert past. induction ss as [|[f t] ss IH]; intros past Hp; cbn [Run].
    - split; [|split; [|done]].
      + intros f l. split; [done|]. intros (_ & before & t & rest & E & _). by destruct before.
      + intros _ b1 s b2 E. by destruct b1.
    - apply Forall_app in Hp as [Hp Hs]. apply Forall_cons in Hs as [Ht Hs]. rewrite Forall_reverse in Hp.
      pose proof (breached_sustained lim past f t ltac:(by constructor)) as Hb.
      pose proof (guard_after_spec lim ((f, t) :: past) ltac:(by constructor)) as Hg.
      specialize (IH ((f, t) :: past)). cbn [guard_after foldr fst snd] in IH, Hg. fold (guard_after lim past) in IH, Hg.
      destruct (breached f t (guard_after lim past)) as [g' fire] eqn:Eb. cbn [fst snd] in *. subst fire.
      destruct (sustained lim ((f, t) :: past)) eqn:Esus.
      + split.
        * intros f0 l0. rewrite Hg. cbn [limit]. split.
          -- intros [= -> ->]. split; [done|]. exists [], t, ss. split_and!; [done|done|]. intros b1 s b2 E. by destruct b1.
          -- intros (-> & before & t0 & rest & E & Hsus & Hno). destruct before as [|s before]; [by injection E as -> ->|].
             injection E as <- ->. specialize (Hno [] (f, t) before eq_refl).
             change (sustained lim ((f, t) :: past) = false) in Hno. congruence.
        * split; [done|]. intros Hno. specialize (Hno [] (f, t) ss eq_refl).
          change (sustained lim ((f, t) :: past) = false) in Hno. congruence.
      + destruct IH as [IH1 IH2].
        { rewrite reverse_cons, <- app_assoc. apply Forall_app. split; [by apply Forall_reverse|by constructor]. }
        split.
        * intros f0 l0. rewrite IH1. split; intros (-> & before & t0 & rest & E & Hsus & Hno); (split; [done|]).
          -- exists ((f, t) :: before), t0, rest. rewrite E. split_and!; [done|by rewrite reverse_cons, <- app_assoc|].
             intros [|s' b1] s b2 E'; [by injection E' as <- _|]. injection E' as <- ->.
             rewrite reverse_cons, <- app_assoc. by apply (Hno b1 s b2).
          -- destruct before as [|s before]; [injection E as -> -> _; change (sustained lim ((f0, t0) :: past) = true) in Hsus; congruence|]. injection E as <- ->.
             exists before, t0, rest. rewrite reverse_cons, <- app_assoc in Hsus. split_and!; [done|done|].
             intros b1 s b2 ->. specialize (Hno ((f, t) :: b1) s b2 eq_refl). by rewrite reverse_cons, <- app_assoc in Hno.
        * rewrite IH2. split; intros Hno b1 s b2 E.
          -- destruct b1 as [|s' b1]; [by injection E as <- _|]. injection E as <- ->.
             rewrite reverse_cons, <- app_assoc. by apply (Hno b1 s b2).
          -- specialize (Hno ((f, t) :: b1) s b2). rewrite E in Hno. specialize (Hno eq_refl).
             by rewrite reverse_cons, <- app_assoc in Hno. }
  destruct (Hgen [] samples Hall) as [H1 H2]. cbn [guard_after foldr] in H1, H2. split.
  - intros f l. rewrite H1. setoid_rewrite app_nil_r. done.
  - rewrite H2. setoid_rewrite app_nil_r. done.
Qed.

Lemma guard_fires_on_sustained_breach_witness :
  Run [(5, 1 * Second); (11, 11 * Second); (12, 41 * Second); (3, 51 * Second)] (NewMemoryGuard 10) = Some (12, 10).
Proof.
  set (samples := [(5, 1 * Second); (11, 11 * Second); (12, 41 * Second); (3, 51 * Second)]).
  assert (Forall (fun s => s.2 <> 0) samples) as Hall by (repeat constructor; cbn; discriminate).
  apply (proj1 (guard_fires_on_sustained_breach 10 samples Hall) 12 10).
  split; [reflexivity|]. exists [(5, 1 * Second); (11, 11 * Second)], (41 * Second), [(3, 51 * Second)].
  split; [reflexivity|]. split; [vm_compute; reflexivity|].
  intros b1 s b2 E. destruct b1 as [|x [|y [|z b1]]]; injection E; intros; subst; try discriminate; vm_compute; reflexivity.
Defined.

(** The soft limit is no limit, or at least 1 GiB and at most half the guard's. *)
Lemma ResolveSoftMemoryLimit_range guardLimit :
  0 <= guardLimit < 2 ^ 64 ->
  ResolveSoftMemoryLimit guardLimit = max_int64 \/
  softMemoryFloor <= ResolveSoftMemoryLimit guardLimit <= guardLimit / 2.
Proof.
  intros H. unfold ResolveSoftMemoryLimit. destruct (_ =? 0); [by left|].
  destruct ((_ <? _) || _) eqn:E; [by left|]. apply orb_false_iff in E as [?%Z.ltb_ge ?%Z.ltb_ge]. right. lia.
Qed.
