(* ===== verification/AuthScopes.v ===== *)
(** What a caller may do ([auth/auth.go]): principals, token scopes, and the routes
    each scope opens. *)

From S2P Require Import Prelude GoStrings.
From Stdlib Require Import Ascii.

#[local] Open Scope string_scope.

(** ** Principals *)

Definition AuthKindSession : string := "session".
Definition AuthKindToken : string := "token".
Definition AuthKindProxy : string := "proxy".

(** A [*Principal] that is nil is [None]. *)
Record Principal := mkPrincipal {
  p_Username : string;
  p_Kind : string;
  p_Scopes : list string;
  p_ExpiresAt : Z;
  p_SessionID : string;
  p_CSRFToken : string;
  p_TokenID : Z
}.

(** ** Scopes *)

Definition scopeMatches (have want : string) : bool :=
  if String.eqb have "*" || String.eqb have want then true
  else if HasSuffix have "*" then HasPrefix want (TrimSuffix have "*")
  else false.

Definition HasAnyScope (p : option Principal) (scopes : list string) : bool :=
  match p with
  | None => false
  | Some p =>
      if String.eqb (p_Kind p) AuthKindSession || String.eqb (p_Kind p) AuthKindProxy then true
      else existsb (fun want => existsb (fun have => scopeMatches have want) (p_Scopes p)) scopes
  end.

(** ** Routes *)

Definition isSafeMethod (method : string) : bool :=
  String.eqb method "GET" || String.eqb method "HEAD" || String.eqb method "OPTIONS".

Definition nonAdminWrites : list (string * string) :=
  [("POST", "/api/auth/logout");
   ("POST", "/api/cameras/*/webrtc/offer");
   ("POST", "/api/cameras/*/talkback/offer");
   ("POST", "/api/cameras/*/ptz");
   ("POST", "/api/cameras/*/doorbell");
   ("POST", "/api/cameras/*/doorbell/*/answer");
   ("POST", "/api/activities/*/evidence/*/exclude");
   ("POST", "/api/activities/*/evidence/*/restore");
   ("POST", "/api/events/*/assign-person");
   ("POST", "/api/events/*/identify");
   ("POST", "/api/events/*/track-person");
   ("POST", "/api/events/*/clip");
   ("PUT", "/api/faces/*/assign");
   ("POST", "/api/faces/*/ignore");
   ("POST", "/api/objects");
   ("PUT", "/api/objects/*");
   ("POST", "/api/objects/*/references");
   ("POST", "/api/objects/*/thumbnail");
   ("POST", "/api/cameras/*/objects");
   ("PUT", "/api/people/*");
   ("POST", "/api/push/subscriptions");
   ("DELETE", "/api/push/subscriptions/*");
   ("PUT", "/api/push/prefs");
   ("POST", "/api/push/test");
   ("POST", "/api/settings/mqtt/test");
   ("POST", "/api/cameras/test-rtsp");
   ("POST", "/api/updates/dismiss")].

(** The loop of [segmentsMatch], over both lists of segments; the length test comes
    first in the code, and no test has an effect. *)
Fixpoint segments_match (pat got : list string) : bool :=
  match pat, got with
  | [], [] => true
  | p :: pat, g :: got =>
      if String.eqb g "" then false
      else if String.eqb p "*" then segments_match pat got
      else if String.eqb p g then segments_match pat got else false
  | _, _ => false
  end.

Definition segments (path : string) : list string := Split (Trim path "/") "/".

Definition segmentsMatch (pattern path : string) : bool :=
  segments_match (segments pattern) (segments path).

Definition isNonAdminWrite (method path : string) : bool :=
  existsb (fun allowed => String.eqb allowed.1 method && segmentsMatch allowed.2 path) nonAdminWrites.

Definition isAdminPath (method path : string) : bool :=
  if isSafeMethod method then false else negb (isNonAdminWrite method path).

Definition Allows (p : option Principal) (method path : string) : bool :=
  match p with
  | None => false
  | Some q =>
      if String.eqb (p_Kind q) AuthKindSession || String.eqb (p_Kind q) AuthKindProxy then true
      else if negb (HasPrefix path "/api/") && negb (String.eqb path "/metrics") then false
      else if String.eqb path "/metrics" then
        isSafeMethod method && HasAnyScope p ["metrics:read"; "api:read"; "api:*"; "*"]
      else if String.eqb path "/api/tokens" || HasPrefix path "/api/tokens/" then
        if isSafeMethod method then HasAnyScope p ["tokens:read"; "tokens:write"; "api:*"; "*"]
        else HasAnyScope p ["tokens:write"; "api:*"; "*"]
      else if isAdminPath method path then HasAnyScope p ["admin"; "*"]
      else if isSafeMethod method then HasAnyScope p ["api:read"; "api:*"; "*"]
      else HasAnyScope p ["api:write"; "api:*"; "*"]
  end.

(** ** The scopes of a new token *)

Inductive AuthError :=
| ErrInvalidCredentials
| ErrInsufficientScope
| ErrRateLimited
| ErrStorageUnavailable
| ErrInvalid (what : string).

(** The loop of [normalizeTokenScopes]; [normalized] is built in order and [seen] is
    its set of elements. *)
Fixpoint normalize_loop (scopes normalized : list string) : result AuthError (list string) :=
  match scopes with
  | [] => Ok normalized
  | scope :: scopes =>
      let scope := TrimSpace scope in
      if String.eqb scope "" then Err (ErrInvalid "token scope cannot be empty")
      else if bool_decide (scope ∈ normalized) then normalize_loop scopes normalized
      else normalize_loop scopes (normalized ++ [scope])
  end.

Definition normalizeTokenScopes (scopes : list string) : result AuthError (list string) :=
  match scopes with
  | [] => Ok ["api:read"]
  | _ =>
      let? normalized := normalize_loop scopes [] in
      match normalized with
      | [] => Err (ErrInvalid "token scope cannot be empty")
      | _ => Ok normalized
      end
  end.

(** What [CreateTokenForPrincipal] decides before it creates the token: the scopes
    the token gets. *)
Definition grantable (p : option Principal) (scopes : list string) : result AuthError (list string) :=
  match p with
  | None => Err ErrInvalidCredentials
  | Some q =>
      let? normalized := normalizeTokenScopes scopes in
      if String.eqb (p_Kind q) AuthKindToken && negb (forallb (fun scope => HasAnyScope p [scope]) normalized)
      then Err ErrInsufficientScope
      else Ok normalized
  end.

(** ** Matching of scopes *)

(** A scope whose pattern has a star of its own before the final one. *)
Definition double_star (scope : string) : bool := HasSuffix scope "**".

Lemma app_star_eq p q : (p +:+ "*")%string = (q +:+ "*")%string -> p = q.
Proof. intros E. by rewrite <- (TrimSuffix_app p "*"), E, TrimSuffix_app. Qed.

(** Two ways of splitting one string. *)
Lemma app_split (p r q u : string) :
  (p +:+ r)%string = (q +:+ u)%string ->
  (exists x, q = (p +:+ x)%string) \/ (exists x, x <> "" /\ p = (q +:+ x)%string /\ u = (x +:+ r)%string).
Proof.
  revert q. induction p as [|a p IH]; intros q E; simpl in *; [left; by exists q|].
  destruct q as [|b q]; simpl in *.
  - right. exists (String a p). by split_and!.
  - injection E as -> E. destruct (IH _ E) as [[x ->]|(x & ? & -> & ->)]; [left; by exists x|].
    right. by exists x.
Qed.

Lemma app_string_assoc (p q r : string) : ((p +:+ q) +:+ r)%string = (p +:+ (q +:+ r))%string.
Proof. induction p as [|a p IH]; [done|]. exact (f_equal (String a) IH). Qed.

Lemma app_string_empty (p : string) : (p +:+ "")%string = p.
Proof. induction p as [|a p IH]; [done|]. exact (f_equal (String a) IH). Qed.

Lemma scopeMatches_spec have want :
  scopeMatches have want = true <->
  have = "*" \/ have = want \/ exists p r, have = (p +:+ "*") /\ want = (p +:+ r).
Proof.
  unfold scopeMatches. destruct (String.eqb_spec have "*") as [->|H1]; simpl; [tauto|].
  destruct (String.eqb_spec have want) as [->|H2]; simpl; [tauto|].
  destruct (HasSuffix have "*") eqn:Es.
  - apply HasSuffix_spec in Es as [p ->]. rewrite TrimSuffix_app, HasPrefix_spec.
    split; [intros [r ->]; right; right; by exists p, r|].
    intros [|[|(p' & r & ->%app_star_eq & ->)]]; try done. by exists r.
  - split; [done|]. intros [|[|(p & r & -> & ->)]]; try done.
    rewrite (proj2 (HasSuffix_spec (p +:+ "*") "*")) in Es; [done|by exists p].
Qed.

(** What a scope matches, every scope that matches it matches too, unless its
    pattern ends in two stars. *)
Lemma scopeMatches_trans s t w :
  double_star s = false -> scopeMatches s t = true -> scopeMatches t w = true -> scopeMatches s w = true.
Proof.
  intros Hd. assert (forall x, s <> x +:+ "**") as Hs.
  { intros x ->. assert (HasSuffix (x +:+ "**") "**" = true) as E by (apply HasSuffix_spec; by exists x).
    unfold double_star in Hd. congruence. }
  rewrite !scopeMatches_spec. intros [->|[->|(p & r & -> & ->)]]; [tauto|tauto|].
  intros [E|[<-|(q & u & E & ->)]].
  - destruct p as [|a p]; simpl in *; [tauto|]. injection E as -> E.
    destruct p as [|b p]; simpl in *; [|done]. by destruct (Hs "").
  - right. right. by exists p, r.
  - destruct (app_split _ _ _ _ E) as [[x ->]|(x & Hx & -> & Ex)].
    + right. right. exists p, (x +:+ u). by rewrite app_string_assoc.
    + destruct x as [|b x]; [done|]. simpl in Ex. injection Ex as <- Ex.
      destruct x as [|b x]; [|done]. change ("" = r) in Ex. subst r.
      destruct (Hs q). by rewrite app_string_assoc.
Qed.

Lemma HasAnyScope_token q scopes :
  p_Kind q = AuthKindToken ->
  HasAnyScope (Some q) scopes = true <->
  exists want have, want ∈ scopes /\ have ∈ p_Scopes q /\ scopeMatches have want = true.
Proof.
  intros Hk. unfold HasAnyScope. rewrite Hk. cbn [String.eqb].
  change (String.eqb AuthKindToken AuthKindSession || String.eqb AuthKindToken AuthKindProxy) with false.
  cbn iota. rewrite existsb_exists. split.
  - intros (want & Hw%list_elem_of_In & (have & Hh%list_elem_of_In & Hm)%existsb_exists). by exists want, have.
  - intros (want & have & Hw & Hh & Hm). exists want. split; [by apply list_elem_of_In|].
    apply existsb_exists. exists have. split; [by apply list_elem_of_In|done].
Qed.

(** More scopes allow more. *)
Lemma Allows_mono q q' method path :
  p_Kind q = AuthKindToken -> p_Kind q' = AuthKindToken ->
  (forall scopes, HasAnyScope (Some q) scopes = true -> HasAnyScope (Some q') scopes = true) ->
  Allows (Some q) method path = true -> Allows (Some q') method path = true.
Proof.
  intros Hk Hk' Hm. unfold Allows. rewrite Hk, Hk'.
  change (String.eqb AuthKindToken AuthKindSession || String.eqb AuthKindToken AuthKindProxy) with false.
  cbn iota. repeat case_match; try done; try apply Hm.
  intros [Hs Ha]%andb_true_iff. apply andb_true_iff. split; [done|by apply Hm].
Qed.
