(* ===== verification/Auth.v ===== *)
(** Authentication ([auth/auth.go], [storage/db_auth.go], the middleware of
    [api/auth.go]): the brute-force limits, sessions, API tokens, trusted proxies, and
    what a request must show before a handler sees it.

    Go's address packages ([net], [net/netip]), the password hash (bcrypt) and SHA-256
    are parameters; random tokens are arguments, [None] when the source of randomness
    fails.  [clk i] is the [i]th clock reading of an operation. *)

From S2P Require Import Prelude Float64 GoStrings AuthScopes.
From Stdlib Require Import Ascii QArith.

#[local] Open Scope string_scope.
#[local] Open Scope Z_scope.

(** ** Parameters *)

Class NetIP := {
  Addr : Type;
  NetPrefix : Type;
  SplitHostPort : string -> option string;
  ParseAddr : string -> option Addr;
  ParsePrefix : string -> option NetPrefix;
  PrefixFrom : Addr -> NetPrefix;
  Contains : NetPrefix -> Addr -> bool;
  Unmap : Addr -> Addr;
  AddrString : Addr -> string
}.

Class Crypto := {
  CompareHashAndPassword : string -> string -> bool;
  GenerateFromPassword : string -> option string;
  Sum256 : string -> string
}.

(** ** Requests *)

Record Request := mkRequest {
  r_Method : string;
  r_Path : string;
  r_RequestURI : string;
  r_RemoteAddr : string;
  r_TLS : bool;
  r_Header : string -> string;
  r_Cookies : list (string * string)
}.

(** [r.Cookie(name)]: the first cookie of that name. *)
Definition Cookie (r : Request) (name : string) : option string :=
  snd <$> find (fun c => String.eqb c.1 name) (r_Cookies r).

Definition SessionCookieName : string := "vedetta_session".
Definition CSRFCookieName : string := "vedetta_csrf".

(** ** Limits *)

Definition maxFailures : Z := 10.
Definition maxIPFailures : Z := 50.
Definition maxTokenCreations : Z := 20.
Definition failureWindow : Z := 5 * Minute.
Definition SessionAbsoluteTTL : Z := 12 * Hour.
Definition SessionIdleTTL : Z := 30 * Minute.
Definition RememberAbsoluteTTL : Z := 30 * 24 * Hour.
Definition RememberIdleTTL : Z := 7 * 24 * Hour.

(** ** The tables *)

Record AuthSession := mkAuthSession {
  as_ID : string;
  as_Username : string;
  as_CSRFToken : string;
  as_RemoteIP : string;
  as_UserAgent : string;
  as_CreatedAt : Z;
  as_LastSeenAt : Z;
  as_ExpiresAt : Z;
  as_IdleTTL : Z
}.

Record APIToken := mkAPIToken {
  at_ID : Z;
  at_Username : string;
  at_Name : string;
  at_TokenPrefix : string;
  at_Scopes : list string;
  at_CreatedAt : Z;
  at_LastUsedAt : Z;
  at_RevokedAt : option Z;
  at_TokenHash : string
}.

(** [idle_ttl_seconds] is kept as the [IdleTTL] it reads back as. *)
Record AuthDB := mkAuthDB {
  auth_sessions : gmap string AuthSession;
  api_tokens : list APIToken;
  next_token_id : Z;
  auth_users : gmap string string
}.

Definition set_sessions (s : gmap string AuthSession) (d : AuthDB) : AuthDB :=
  mkAuthDB s (api_tokens d) (next_token_id d) (auth_users d).
Definition set_tokens (t : list APIToken) (d : AuthDB) : AuthDB :=
  mkAuthDB (auth_sessions d) t (next_token_id d) (auth_users d).

(** What [idle_ttl_seconds] holds for an [IdleTTL], read back as a duration. *)
Definition stored_idle (ttl : Z) : Z :=
  let idleSecs := default 0 (f64_trunc (Seconds ttl)) in
  i64 ((if idleSecs <=? 0 then 1800 else idleSecs) * Second).

Definition CreateSession (s : AuthSession) (d : AuthDB) : result AuthError AuthDB :=
  match auth_sessions d !! as_ID s with
  | Some _ => Err (ErrInvalid "UNIQUE constraint failed: auth_sessions.id")
  | None =>
      Ok (set_sessions (<[as_ID s := mkAuthSession (as_ID s) (as_Username s) (as_CSRFToken s) (as_RemoteIP s)
        (as_UserAgent s) (as_CreatedAt s) (as_LastSeenAt s) (as_ExpiresAt s) (stored_idle (as_IdleTTL s))]>
        (auth_sessions d)) d)
  end.

Definition GetSession (id : string) (d : AuthDB) : option AuthSession := auth_sessions d !! id.

Definition touch (t : Z) (s : AuthSession) : AuthSession :=
  mkAuthSession (as_ID s) (as_Username s) (as_CSRFToken s) (as_RemoteIP s) (as_UserAgent s)
    (as_CreatedAt s) t (as_ExpiresAt s) (as_IdleTTL s).

Definition TouchSession (id : string) (lastSeen : Z) (d : AuthDB) : AuthDB :=
  set_sessions (alter (touch lastSeen) id (auth_sessions d)) d.

Definition DeleteSession (id : string) (d : AuthDB) : AuthDB :=
  set_sessions (delete id (auth_sessions d)) d.

(** [(julianday(?) - julianday(last_seen_at)) * 86400 > idle_ttl_seconds]: [julianday] is
    SQLite's, the days of an instant as a real number.  The arithmetic is exact; the doubles
    SQLite computes with differ from it by less than a nanosecond of idle time (the
    difference of two neighbouring days is exact, the product is rounded, and rounding does
    not carry it over a whole number of seconds). *)
Definition idle_over (julianday : Z -> Q) (now last secs : Z) : bool :=
  negb (Qle_bool ((julianday now - julianday last) * 86400) (inject_Z secs)).

Definition DeleteExpiredSessions (julianday : Z -> Q) (now : Z) (d : AuthDB) : AuthDB :=
  set_sessions
    (filter (fun kv => negb ((as_ExpiresAt kv.2 <=? now) ||
                             idle_over julianday now (as_LastSeenAt kv.2) (as_IdleTTL kv.2 ÷ Second)) = true)
      (auth_sessions d)) d.

(** [token_hash] is unique; ids are never reused. *)
Definition CreateAPIToken (t : APIToken) (d : AuthDB) : result AuthError (AuthDB * Z) :=
  if existsb (fun x => String.eqb (at_TokenHash x) (at_TokenHash t)) (api_tokens d)
  then Err (ErrInvalid "UNIQUE constraint failed: api_tokens.token_hash")
  else
    let id := next_token_id d in
    Ok (mkAuthDB (auth_sessions d)
          (api_tokens d ++ [mkAPIToken id (at_Username t) (at_Name t) (at_TokenPrefix t) (at_Scopes t)
                              (at_CreatedAt t) 0 None (at_TokenHash t)])
          (id + 1) (auth_users d), id).

Definition GetAPITokenByHash (hash : string) (d : AuthDB) : option APIToken :=
  find (fun t => String.eqb (at_TokenHash t) hash) (api_tokens d).

Definition TouchAPIToken (id lastUsed : Z) (d : AuthDB) : AuthDB :=
  set_tokens ((fun t => if at_ID t =? id then mkAPIToken (at_ID t) (at_Username t) (at_Name t) (at_TokenPrefix t)
    (at_Scopes t) (at_CreatedAt t) lastUsed (at_RevokedAt t) (at_TokenHash t) else t) <$> api_tokens d) d.

Definition RevokeAPIToken (now id : Z) (username : string) (d : AuthDB) : AuthDB :=
  set_tokens ((fun t => if (at_ID t =? id) && String.eqb (at_Username t) username
    then mkAPIToken (at_ID t) (at_Username t) (at_Name t) (at_TokenPrefix t)
      (at_Scopes t) (at_CreatedAt t) (at_LastUsedAt t) (Some now) (at_TokenHash t) else t) <$> api_tokens d) d.

Definition newest_token (t u : APIToken) : Prop := at_CreatedAt u <= at_CreatedAt t.
#[global] Instance newest_token_dec t u : Decision (newest_token t u).
Proof. unfold newest_token. apply _. Defined.

(** The hash is not selected. *)
Definition ListAPITokensByUser (username : string) (d : AuthDB) : list APIToken :=
  merge_sort newest_token
    ((fun t => mkAPIToken (at_ID t) (at_Username t) (at_Name t) (at_TokenPrefix t) (at_Scopes t)
       (at_CreatedAt t) (at_LastUsedAt t) None "") <$>
     filter (fun t => at_Username t = username /\ at_RevokedAt t = None) (api_tokens d)).

Definition SaveAuthUser (username hash : string) (d : AuthDB) : AuthDB :=
  mkAuthDB (auth_sessions d) (api_tokens d) (next_token_id d) (<[username := hash]> (auth_users d)).

Definition SeedAuthUser (username hash : string) (d : AuthDB) : AuthDB :=
  match auth_users d !! username with
  | Some _ => d
  | None => SaveAuthUser username hash d
  end.

(** ** The checker *)

Record failureRecord := mkFailure { count : Z; firstAt : Z }.

Record Checker `{NetIP} := mkChecker {
  c_users : gmap string string;
  c_db : option AuthDB;
  c_exposure : string;
  c_trustedProxies : list NetPrefix;
  c_proxyHeader : string;
  c_loginFailures : gmap string failureRecord;
  c_ipFailures : gmap string failureRecord;
  c_tokenCreates : gmap string failureRecord
}.

Section checker.
Context `{NetIP} `{Crypto}.

Definition set_users (u : gmap string string) (c : Checker) : Checker :=
  mkChecker _ u (c_db c) (c_exposure c) (c_trustedProxies c) (c_proxyHeader c) (c_loginFailures c) (c_ipFailures c) (c_tokenCreates c).
Definition set_db (d : AuthDB) (c : Checker) : Checker :=
  mkChecker _ (c_users c) (Some d) (c_exposure c) (c_trustedProxies c) (c_proxyHeader c) (c_loginFailures c) (c_ipFailures c) (c_tokenCreates c).
Definition set_failures (l i : gmap string failureRecord) (c : Checker) : Checker :=
  mkChecker _ (c_users c) (c_db c) (c_exposure c) (c_trustedProxies c) (c_proxyHeader c) l i (c_tokenCreates c).
Definition set_creates (t : gmap string failureRecord) (c : Checker) : Checker :=
  mkChecker _ (c_users c) (c_db c) (c_exposure c) (c_trustedProxies c) (c_proxyHeader c) (c_loginFailures c) (c_ipFailures c) t.

Definition parseTrustedProxies (values : list string) : list NetPrefix :=
  omap (fun value =>
    match ParsePrefix value with
    | Some prefix => Some prefix
    | None => PrefixFrom <$> ParseAddr value
    end) values.

(** [None] is the nil checker: authentication is off. *)
Definition New (users : list (string * string)) (proxyHeader exposure : string) (proxies : list string)
    (db : option AuthDB) : option Checker :=
  match users with
  | [] => None
  | _ => Some (mkChecker _ (list_to_map (rev users)) db exposure (parseTrustedProxies proxies) proxyHeader ∅ ∅ ∅)
  end.

Definition reloadUsers (c : Checker) : Checker :=
  match c_db c with
  | None => c
  | Some d => set_users (auth_users d) c
  end.

Definition NewFromDB (proxyHeader exposure : string) (proxies : list string) (db : option AuthDB) : Checker :=
  reloadUsers (mkChecker _ ∅ db exposure (parseTrustedProxies proxies) proxyHeader ∅ ∅ ∅).

(** ** Brute-force limits *)

Definition countLocked (now : Z) (m : gmap string failureRecord) (key : string) : gmap string failureRecord * Z :=
  match m !! key with
  | None => (m, 0)
  | Some rec => if failureWindow <? Sub now (firstAt rec) then (delete key m, 0) else (m, count rec)
  end.

(** Two readings: the age of the record, and the start of a fresh window. *)
Definition bumpLocked (since now : Z) (m : gmap string failureRecord) (key : string) : gmap string failureRecord :=
  match m !! key with
  | None => <[key := mkFailure 1 now]> m
  | Some rec =>
      if failureWindow <? Sub since (firstAt rec) then <[key := mkFailure 1 now]> m
      else <[key := mkFailure (i64 (count rec + 1)) (firstAt rec)]> m
  end.

Definition releaseLocked (m : gmap string failureRecord) (key : string) (reservedAt : Z) : gmap string failureRecord :=
  match m !! key with
  | None => m
  | Some rec =>
      if negb (firstAt rec =? reservedAt) then m
      else
        let n := i64 (count rec - 1) in
        if n <=? 0 then delete key m else <[key := mkFailure n (firstAt rec)]> m
  end.

Definition loginFailureKey (remoteIP username : string) : string :=
  remoteIP +:+ String "000" "" +:+ username.

(** Whether the attempt may go on, and the window its per-IP slot was reserved in. *)
Definition reserveLoginAttempt (clk : nat -> Z) (remoteIP username : string) (c : Checker) : Checker * (bool * Z) :=
  let '(l, n) := countLocked (clk 0%nat) (c_loginFailures c) (loginFailureKey remoteIP username) in
  if maxFailures <=? n then (set_failures l (c_ipFailures c) c, (false, zero_time))
  else
    let '(i, n) := countLocked (clk 1%nat) (c_ipFailures c) remoteIP in
    if maxIPFailures <=? n then (set_failures l i c, (false, zero_time))
    else
      let i := bumpLocked (clk 2%nat) (clk 3%nat) i remoteIP in
      (set_failures l i c, (true, default 0 (firstAt <$> i !! remoteIP))).

Definition recordLoginFailure (clk : nat -> Z) (remoteIP username : string) (c : Checker) : Checker :=
  set_failures (bumpLocked (clk 0%nat) (clk 1%nat) (c_loginFailures c) (loginFailureKey remoteIP username))
    (c_ipFailures c) c.

Definition completeLoginSuccess (remoteIP username : string) (reservedAt : Z) (c : Checker) : Checker :=
  set_failures (delete (loginFailureKey remoteIP username) (c_loginFailures c))
    (releaseLocked (c_ipFailures c) remoteIP reservedAt) c.

Definition expireFailureMap (now : Z) (m : gmap string failureRecord) : gmap string failureRecord :=
  filter (fun kv => ~ failureWindow < Sub now (firstAt kv.2)) m.

(** ** Passwords *)

(** The comparison with a dummy hash for an unknown user only equalizes timing. *)
Definition verify (user pass : string) (c : Checker) : bool :=
  match c_users c !! user with
  | None => false
  | Some hash => CompareHashAndPassword hash pass
  end.

(** An attempt from its reservation to its outcome; [clk] serves the reservation,
    [clk'] the recording of a failure. *)
Definition attempt (clk clk' : nat -> Z) (user pass remoteIP : string) (c : Checker) : Checker * result AuthError unit :=
  let '(c, (ok, reservedAt)) := reserveLoginAttempt clk remoteIP user c in
  if negb ok then (c, Err ErrRateLimited)
  else if negb (verify user pass c) then (recordLoginFailure clk' remoteIP user c, Err ErrInvalidCredentials)
  else (completeLoginSuccess remoteIP user reservedAt c, Ok tt).

Definition Check (clk clk' : nat -> Z) (user pass remoteIP : string) (c : option Checker) : option Checker * bool :=
  match c with
  | None => (None, true)
  | Some c =>
      let '(c, r) := attempt clk clk' user pass remoteIP c in
      (Some c, match r with Ok _ => true | Err _ => false end)
  end.

Definition UpdatePassword (username hash : string) (c : Checker) : Checker :=
  set_users (<[username := hash]> (c_users c)) c.

(** The outer [None] is the nil dereference of a checker without a database. *)
Definition ChangePassword (username current new : string) (c : Checker) : option (Checker * result AuthError unit) :=
  if negb (verify username current c) then Some (c, Err ErrInvalidCredentials)
  else match GenerateFromPassword new with
       | None => Some (c, Err (ErrInvalid "hash password"))
       | Some hash =>
           d ← c_db c;
           Some (reloadUsers (set_db (SaveAuthUser username hash d) c), Ok tt)
       end.

(** ** Sessions *)

Definition abs_ttl (remember : bool) : Z := if remember then RememberAbsoluteTTL else SessionAbsoluteTTL.
Definition idle_ttl (remember : bool) : Z := if remember then RememberIdleTTL else SessionIdleTTL.

(** The session [Login] creates at [now]. *)
Definition new_session (sessionID csrfToken user remoteIP userAgent : string) (remember : bool) (now : Z) : AuthSession :=
  mkAuthSession sessionID user csrfToken remoteIP userAgent now now (Add now (abs_ttl remember)) (idle_ttl remember).

Definition Login (clk clk' : nat -> Z) (now : Z) (sessionID csrfToken : option string)
    (user pass remoteIP userAgent : string) (remember : bool) (c : option Checker)
    : option Checker * result AuthError AuthSession :=
  match c with
  | None => (None, Err ErrInvalidCredentials)
  | Some c =>
      match c_db c with
      | None => (Some c, Err ErrStorageUnavailable)
      | Some d =>
          let '(c, r) := attempt clk clk' user pass remoteIP c in
          match r, sessionID, csrfToken with
          | Err e, _, _ => (Some c, Err e)
          | Ok _, Some sid, Some csrf =>
              let session := new_session sid csrf user remoteIP userAgent remember now in
              match CreateSession session d with
              | Err e => (Some c, Err e)
              | Ok d => (Some (set_db d c), Ok session)
              end
          | Ok _, _, _ => (Some c, Err (ErrInvalid "rand"))
          end
      end
  end.

Definition Logout (sessionID : string) (c : option Checker) : option Checker :=
  match c with
  | None => None
  | Some c =>
      match c_db c with
      | None => Some c
      | Some d => if String.eqb sessionID "" then Some c else Some (set_db (DeleteSession sessionID d) c)
      end
  end.

Definition session_principal (s : AuthSession) : Principal :=
  mkPrincipal (as_Username s) AuthKindSession ["*"] (as_ExpiresAt s) (as_ID s) (as_CSRFToken s) 0.

Definition authenticateSession (now : Z) (r : Request) (c : Checker) : Checker * result AuthError (option Principal) :=
  match c_db c with
  | None => (c, Err ErrStorageUnavailable)
  | Some d =>
      match Cookie r SessionCookieName with
      | None | Some "" => (c, Ok None)
      | Some value =>
          match GetSession value d with
          | None => (c, Ok None)
          | Some session =>
              let idleTTL := if as_IdleTTL session <=? 0 then SessionIdleTTL else as_IdleTTL session in
              if After now (as_ExpiresAt session) || (idleTTL <? Sub now (as_LastSeenAt session))
              then (set_db (DeleteSession (as_ID session) d) c, Ok None)
              else (set_db (TouchSession (as_ID session) now d) c, Ok (Some (session_principal session)))
          end
      end
  end.

(** ** Tokens and proxies *)

Definition remoteAddrIP (remoteAddr : string) : string :=
  let host := default remoteAddr (SplitHostPort remoteAddr) in
  let trimmed := String.rev (trim_left ["["; "]"] (String.rev (trim_left ["["; "]"] host))) in
  match ParseAddr trimmed with
  | None => ""
  | Some addr => AddrString (Unmap addr)
  end.

Definition isTrustedProxy (raw : string) (c : Checker) : bool :=
  if String.eqb raw "" then false
  else match ParseAddr raw with
       | None => false
       | Some addr => existsb (fun prefix => Contains prefix addr) (c_trustedProxies c)
       end.

Definition authenticateProxyHeader (r : Request) (c : Checker) : option Principal :=
  if String.eqb (c_proxyHeader c) "" then None
  else if negb (isTrustedProxy (remoteAddrIP (r_RemoteAddr r)) c) then None
  else
    let username := TrimSpace (r_Header r (c_proxyHeader c)) in
    if String.eqb username "" then None
    else Some (mkPrincipal username AuthKindProxy ["*"] 0 "" "" 0).

Definition token_principal (t : APIToken) : Principal :=
  mkPrincipal (at_Username t) AuthKindToken (at_Scopes t) 0 "" "" (at_ID t).

Definition authenticateBearerToken (now : Z) (r : Request) (c : Checker) : Checker * result AuthError (option Principal) :=
  match c_db c with
  | None => (c, Err ErrStorageUnavailable)
  | Some d =>
      let authz := r_Header r "Authorization" in
      if String.eqb authz "" || negb (HasPrefix authz "Bearer ") then (c, Ok None)
      else
        let raw := TrimSpace (TrimPrefix authz "Bearer ") in
        if String.eqb raw "" then (c, Ok None)
        else match GetAPITokenByHash (Sum256 raw) d with
             | None => (c, Ok None)
             | Some token =>
                 match at_RevokedAt token with
                 | Some _ => (c, Ok None)
                 | None => (set_db (TouchAPIToken (at_ID token) now d) c, Ok (Some (token_principal token)))
                 end
             end
  end.

Definition Authenticate (now : Z) (r : Request) (c : option Checker) : option Checker * result AuthError (option Principal) :=
  match c with
  | None => (None, Ok None)
  | Some c =>
      match authenticateProxyHeader r c with
      | Some p => (Some c, Ok (Some p))
      | None =>
          match authenticateBearerToken now r c with
          | (c, Ok None) => let '(c, p) := authenticateSession now r c in (Some c, p)
          | (c, other) => (Some c, other)
          end
      end
  end.

Definition RequireCSRF (r : Request) (p : option Principal) : bool :=
  match p with
  | None => true
  | Some q =>
      if negb (String.eqb (p_Kind q) AuthKindSession) || isSafeMethod (r_Method r) then true
      else match Cookie r CSRFCookieName with
           | None | Some "" => false
           | Some csrf =>
               let header := r_Header r "X-CSRF-Token" in
               if String.eqb header "" then false
               else if negb (String.eqb header csrf) then false
               else String.eqb header (p_CSRFToken q)
           end
  end.

(** [now] is the token's creation, [rawToken] the encoded random bytes. *)
Definition createToken (clk : nat -> Z) (now : Z) (rawToken : option string) (username name : string)
    (scopes : list string) (remoteIP : string) (c : option Checker)
    : option Checker * result AuthError (APIToken * string) :=
  match c with
  | None => (None, Err ErrInvalidCredentials)
  | Some c =>
      match c_db c with
      | None => (Some c, Err ErrStorageUnavailable)
      | Some d =>
          if String.eqb name "" then (Some c, Err (ErrInvalid "token name is required"))
          else
            let rateKey := username +:+ "|" +:+ remoteIP in
            let '(m, n) := countLocked (clk 0%nat) (c_tokenCreates c) rateKey in
            if maxTokenCreations <=? n then (Some (set_creates m c), Err ErrRateLimited)
            else
              let c := set_creates (bumpLocked (clk 1%nat) (clk 2%nat) m rateKey) c in
              match rawToken with
              | None => (Some c, Err (ErrInvalid "rand"))
              | Some raw =>
                  let token := mkAPIToken 0 username name (String.substring 0 12 raw) scopes now 0 None (Sum256 raw) in
                  match CreateAPIToken token d with
                  | Err e => (Some c, Err e)
                  | Ok (d, id) =>
                      (Some (set_db d c),
                       Ok (mkAPIToken id username name (String.substring 0 12 raw) scopes now 0 None (Sum256 raw), raw))
                  end
              end
      end
  end.

Definition CreateToken (clk : nat -> Z) (now : Z) (rawToken : option string) (username name : string)
    (scopes : list string) (remoteIP : string) (c : option Checker)
    : option Checker * result AuthError (APIToken * string) :=
  match normalizeTokenScopes scopes with
  | Err e => (c, Err e)
  | Ok normalized => createToken clk now rawToken username name normalized remoteIP c
  end.

Definition CreateTokenForPrincipal (clk : nat -> Z) (now : Z) (rawToken : option string) (principal : option Principal)
    (name : string) (scopes : list string) (remoteIP : string) (c : option Checker)
    : option Checker * result AuthError (APIToken * string) :=
  match principal, grantable principal scopes with
  | Some p, Ok normalized => createToken clk now rawToken (p_Username p) name normalized remoteIP c
  | _, Err e => (c, Err e)
  | None, Ok _ => (c, Err ErrInvalidCredentials)
  end.

Definition RevokeToken (now id : Z) (username : string) (c : option Checker) : option Checker * result AuthError unit :=
  match c with
  | None => (None, Err ErrStorageUnavailable)
  | Some c =>
      match c_db c with
      | None => (Some c, Err ErrStorageUnavailable)
      | Some d => (Some (set_db (RevokeAPIToken now id username d) c), Ok tt)
      end
  end.

(** ** Transport *)

Definition cookieSecure (r : Request) (c : Checker) : bool :=
  if r_TLS r then true
  else if negb (isTrustedProxy (remoteAddrIP (r_RemoteAddr r)) c) then false
  else EqualFold (TrimSpace (r_Header r "X-Forwarded-Proto")) "https".

Definition RequestIsSecure (r : Request) (c : option Checker) : bool :=
  match c with
  | None => true
  | Some c => if negb (String.eqb (c_exposure c) "internet") then true else cookieSecure r c
  end.

Definition TransportIsSecure (r : Request) (c : option Checker) : bool :=
  match c with
  | None => r_TLS r
  | Some c => cookieSecure r c
  end.

Definition ClientIP (r : Request) (c : Checker) : string :=
  let direct := remoteAddrIP (r_RemoteAddr r) in
  if String.eqb direct "" then ""
  else if negb (isTrustedProxy direct c) then direct
  else
    let xff := r_Header r "X-Forwarded-For" in
    let first := TrimSpace (default "" (head (Split xff ","))) in
    match (if String.eqb xff "" then None else ParseAddr first) with
    | Some addr => AddrString addr
    | None =>
        let realIP := TrimSpace (r_Header r "X-Real-IP") in
        match (if String.eqb realIP "" then None else ParseAddr realIP) with
        | Some addr => AddrString addr
        | None => direct
        end
    end.

Record SetCookie := mkSetCookie {
  ck_Name : string; ck_Value : string; ck_HttpOnly : bool; ck_Secure : bool; ck_Expires : Z; ck_MaxAge : Z
}.

(** Nanoseconds of the Unix epoch since the year 1. *)
Definition unix_epoch : Z := 62135596800 * Second.

(** Every cookie has path [/] and is same-site strict. *)
Definition SetSessionCookies (r : Request) (session : option AuthSession) (c : Checker) : list SetCookie :=
  match session with
  | None => []
  | Some s =>
      let secure := cookieSecure r c in
      [mkSetCookie SessionCookieName (as_ID s) true secure (as_ExpiresAt s) 0;
       mkSetCookie CSRFCookieName (as_CSRFToken s) false secure (as_ExpiresAt s) 0]
  end.

Definition ClearSessionCookies (r : Request) (c : Checker) : list SetCookie :=
  let secure := cookieSecure r c in
  [mkSetCookie SessionCookieName "" true secure unix_epoch (-1);
   mkSetCookie CSRFCookieName "" false secure unix_epoch (-1)].

(** One tick of [cleanupLoop]: a reading per map and one for the sessions. *)
Definition cleanup_tick (julianday : Z -> Q) (clk : nat -> Z) (c : Checker) : Checker :=
  let c := set_failures (expireFailureMap (clk 0%nat) (c_loginFailures c)) (c_ipFailures c) c in
  let c := set_failures (c_loginFailures c) (expireFailureMap (clk 1%nat) (c_ipFailures c)) c in
  let c := set_creates (expireFailureMap (clk 2%nat) (c_tokenCreates c)) c in
  match c_db c with
  | None => c
  | Some d => set_db (DeleteExpiredSessions julianday (clk 3%nat) d) c
  end.

(** ** The middleware *)

Definition isHealthProbePath (r : Request) : bool :=
  String.eqb (r_Method r) "GET" &&
  (String.eqb (r_Path r) "/api/health/live" || String.eqb (r_Path r) "/api/health/ready").

Definition isPWAImagePath (path : string) : bool :=
  existsb (String.eqb path)
    ["/icon-180.png"; "/icon-192.png"; "/icon-512.png"; "/icon-512-maskable.png"; "/badge-72.png";
     "/screenshots/dashboard-mobile.png"].

Definition isPublicPath (r : Request) : bool :=
  let get := String.eqb (r_Method r) "GET" in
  let path := r_Path r in
  if String.eqb path "/favicon.svg" then true
  else if String.eqb (r_Method r) "POST" && String.eqb path "/api/auth/login" then true
  else if isHealthProbePath r then true
  else if get && String.eqb path "/api/openapi.json" then true
  else if get && String.eqb path "/manifest.webmanifest" then true
  else if get && String.eqb path "/sw.js" then true
  else if get && String.eqb path "/safehref.js" then true
  else if get && isPWAImagePath path then true
  else get && HasPrefix path "/api/push/snapshot/".

Inductive Response :=
| UpgradeRequired
| ServerError
| RedirectHome
| RedirectLogin (next : string)
| Unauthorized
| Forbidden (error : string)
| Served (principal : option Principal).

Definition handleUnauthorized (r : Request) : Response :=
  if HasPrefix (r_Path r) "/api/" || String.eqb (r_Path r) "/metrics" then Unauthorized
  else RedirectLogin (r_RequestURI r).

(** [Served p]: the next handler runs, with [p] in its context. *)
Definition authMiddleware (now : Z) (r : Request) (auth : option Checker) : option Checker * Response :=
  if negb (RequestIsSecure r auth) then (auth, UpgradeRequired)
  else if isPublicPath r then (auth, Served None)
  else match auth with
       | None => (auth, Served None)
       | Some _ =>
           match Authenticate now r auth with
           | (auth, Err _) => (auth, ServerError)
           | (auth, Ok principal) =>
               if String.eqb (r_Path r) "/login.html" then
                 (auth, match principal with Some _ => RedirectHome | None => Served None end)
               else match principal with
                    | None => (auth, handleUnauthorized r)
                    | Some _ =>
                        if negb (Allows principal (r_Method r) (r_Path r)) then (auth, Forbidden "insufficient scope")
                        else if negb (RequireCSRF r principal) then (auth, Forbidden "csrf validation failed")
                        else (auth, Served principal)
                    end
           end
       end.

Definition requestTransportIsSecure (r : Request) (auth : option Checker) : bool :=
  match auth with Some _ => TransportIsSecure r auth | None => r_TLS r end.

End checker.

(** ** Concrete parameters, for examples *)

(** Addresses are compared as they are written. *)
Definition plain_netip : NetIP := {|
  Addr := string; NetPrefix := string;
  SplitHostPort := fun s => head (Split s ":");
  ParseAddr := fun s => if String.eqb s "" then None else Some s;
  ParsePrefix := fun _ => None;
  PrefixFrom := fun a => a; Contains := String.eqb; Unmap := fun a => a; AddrString := fun a => a
|}.

(** A hash is the password it hides. *)
Definition plain_crypto : Crypto := {|
  CompareHashAndPassword := String.eqb; GenerateFromPassword := Some; Sum256 := fun s => "#" +:+ s
|}.
