(* ===== verification/AuthSessions.v ===== *)
(** Concurrent login attempts ([auth/auth.go]): every request holds a reservation
    while its password is verified, outside the lock; the outcomes, the clean-up and
    other logins interleave.  The limit per address holds whatever the order.

    Sessions ([auth/auth.go], [storage/db_auth.go]) against their specification: a
    cookie is honoured between its login and its logout, for the absolute life of the
    login, and never after an idle period.  The specification keeps only the logins,
    uses and logouts; the table, its expiry rules and its clean-up refine it. *)

From S2P Require Import Prelude Float64 GoStrings AuthScopes Auth.
From Stdlib Require Import Ascii QArith.

#[local] Open Scope Z_scope.

Section attempts.
Context `{NetIP} `{Crypto}.

(** An attempt that passed the limits: where it came from, and the window (its first
    instant) its reservation was counted in. *)
Record Attempt := mkAttempt { a_ip : string; a_user : string; a_window : Z }.

(** [verifying]: attempts whose password is being verified; [failed]: those that were
    wrong; [clock]: the latest reading. *)
Record Logins := mkLogins { checker_of : Checker; verifying : list Attempt; failed : list Attempt; clock : Z }.

(** Readings of one operation that started after [t]. *)
Definition readings (t : Z) (clk : nat -> Z) : Prop :=
  t <= clk 0%nat /\ clk 0%nat <= clk 1%nat /\ clk 1%nat <= clk 2%nat /\ clk 2%nat <= clk 3%nat.

Inductive login_step : Logins -> Logins -> Prop :=
| login_reserved clk ip user s c w :
    readings (clock s) clk -> reserveLoginAttempt clk ip user (checker_of s) = (c, (true, w)) ->
    login_step s (mkLogins c (mkAttempt ip user w :: verifying s) (failed s) (clk 3%nat))
| login_refused clk ip user s c w :
    readings (clock s) clk -> reserveLoginAttempt clk ip user (checker_of s) = (c, (false, w)) ->
    login_step s (mkLogins c (verifying s) (failed s) (clk 3%nat))
| login_wrong clk a l1 l2 s :
    readings (clock s) clk -> verifying s = l1 ++ a :: l2 ->
    login_step s (mkLogins (recordLoginFailure clk (a_ip a) (a_user a) (checker_of s)) (l1 ++ l2) (a :: failed s) (clk 3%nat))
| login_right a l1 l2 s :
    verifying s = l1 ++ a :: l2 ->
    login_step s (mkLogins (completeLoginSuccess (a_ip a) (a_user a) (a_window a) (checker_of s)) (l1 ++ l2) (failed s) (clock s))
| login_cleanup julianday clk s :
    readings (clock s) clk ->
    login_step s (mkLogins (cleanup_tick julianday clk (checker_of s)) (verifying s) (failed s) (clk 3%nat))
(** sessions, tokens and passwords leave the counters alone *)
| login_other c t s :
    clock s <= t -> c_ipFailures c = c_ipFailures (checker_of s) ->
    login_step s (mkLogins c (verifying s) (failed s) t).

Inductive login_reachable : Logins -> Prop :=
| logins_initial c t : c_ipFailures c = ∅ -> login_reachable (mkLogins c [] [] t)
| logins_step s s' : login_reachable s -> login_step s s' -> login_reachable s'.

(** ** The invariant *)

Definition held (s : Logins) : list Attempt := verifying s ++ failed s.

Definition of_window (ip : string) (w : Z) (a : Attempt) : Prop := a_ip a = ip /\ a_window a = w.
#[local] Instance of_window_dec ip w a : Decision (of_window ip w a).
Proof. unfold of_window. apply _. Defined.

Definition slots (ip : string) (w : Z) (l : list Attempt) : Z := Z.of_nat (length (filter (of_window ip w) l)).

Lemma slots_cons ip w a l : slots ip w (a :: l) = (if decide (of_window ip w a) then 1 else 0) + slots ip w l.
Proof. unfold slots. rewrite filter_cons. case_decide; cbn [length]; lia. Qed.

Lemma slots_perm ip w l l' : l ≡ₚ l' -> slots ip w l = slots ip w l'.
Proof. intros Hp. unfold slots. by rewrite Hp. Qed.

Lemma slots_nonneg ip w l : 0 <= slots ip w l.
Proof. unfold slots. lia. Qed.

Lemma slots_elem ip a l : a ∈ l -> a_ip a = ip -> 0 < slots ip (a_window a) l.
Proof.
  intros Hin Hip. unfold slots. assert (a ∈ filter (of_window ip (a_window a)) l) as Hf
    by (by apply list_elem_of_filter).
  destruct (filter _ l); [by apply elem_of_nil in Hf|cbn; lia].
Qed.

Lemma slots_zero ip w l : (forall a, a ∈ l -> a_ip a = ip -> a_window a <> w) -> slots ip w l = 0.
Proof.
  intros Hno. unfold slots. destruct (filter (of_window ip w) l) as [|a l'] eqn:E; [done|].
  assert (a ∈ filter (of_window ip w) l) as Hin by (rewrite E; left).
  apply list_elem_of_filter in Hin as [[Hip Hw] Hin]. by destruct (Hno a).
Qed.

(** The counters [m] of the addresses, at instant [t], against the attempts held. *)
Record counted (m : gmap string failureRecord) (l : list Attempt) (t : Z) : Prop := {
  ct_record ip rec : m !! ip = Some rec ->
    count rec = slots ip (firstAt rec) l /\ 1 <= count rec <= maxIPFailures /\ firstAt rec <= t;
  ct_held a : a ∈ l ->
    (exists rec, m !! a_ip a = Some rec /\ firstAt rec = a_window a) \/ failureWindow < t - a_window a;
  ct_bound ip w : slots ip w l <= maxIPFailures;
  ct_apart a b : a ∈ l -> b ∈ l -> a_ip a = a_ip b -> a_window a < a_window b ->
    failureWindow < a_window b - a_window a
}.

Definition logins_ok (s : Logins) : Prop := counted (c_ipFailures (checker_of s)) (held s) (clock s).

Lemma over_window t u : (failureWindow <? Sub t u) = true <-> failureWindow < t - u.
Proof. rewrite Z.ltb_lt. apply Sub_gt. unfold failureWindow, Minute, Second, min_int64, max_int64. lia. Qed.

Lemma counted_later m l t t' : t <= t' -> counted m l t -> counted m l t'.
Proof.
  intros Ht [H1 H2 H3 H4]. split; [|intros a Ha|done|done].
  - intros ip rec Hr. destruct (H1 ip rec Hr) as (? & ? & ?). split_and!; [done|lia|lia|lia].
  - destruct (H2 a Ha) as [|]; [by left|right; lia].
Qed.

Lemma counted_perm m l l' t : l ≡ₚ l' -> counted m l t -> counted m l' t.
Proof.
  intros Hp [H1 H2 H3 H4]. split.
  - intros ip rec Hr. rewrite <- (slots_perm _ _ _ _ Hp). by apply H1.
  - intros a Ha. apply H2. by rewrite Hp.
  - intros ip w. rewrite <- (slots_perm _ _ _ _ Hp). apply H3.
  - intros a b Ha Hb. apply H4; by rewrite Hp.
Qed.

(** Dropping a record whose window is over. *)
Lemma counted_drop m l t ip rec :
  m !! ip = Some rec -> failureWindow < t - firstAt rec -> counted m l t -> counted (delete ip m) l t.
Proof.
  intros Hr Hw [H1 H2 H3 H4]. split; [|intros a Ha|done|done].
  - intros ip' rec' [_ Hr']%lookup_delete_Some. by apply H1.
  - destruct (H2 a Ha) as [(rec' & Hr' & Hf)|]; [|by right].
    destruct (decide (a_ip a = ip)) as [E|Hne]; [right; simplify_eq; by rewrite <- Hf|].
    left. exists rec'. by rewrite lookup_delete_ne.
Qed.

Lemma count_counted m l t key m' n :
  counted m l t -> countLocked t m key = (m', n) ->
  counted m' l t /\ (m' !! key = None \/ exists rec, m' !! key = Some rec /\ n = count rec).
Proof.
  intros Hc E. unfold countLocked in E. destruct (m !! key) as [rec|] eqn:Er.
  - destruct (failureWindow <? Sub t (firstAt rec)) eqn:Ew; injection E as <- <-.
    + apply over_window in Ew. split; [by eapply counted_drop|left; apply lookup_delete_eq].
    + split; [done|right]. by exists rec.
  - injection E as <- <-. split; [done|by left].
Qed.

(** A fresh window at [now], when every attempt of the address is in an older one. *)
Lemma counted_fresh m l t now ip user :
  counted m l t -> t <= now ->
  (forall a, a ∈ l -> a_ip a = ip -> failureWindow < now - a_window a) ->
  counted (<[ip := mkFailure 1 now]> m) (mkAttempt ip user now :: l) now.
Proof.
  intros Hc Ht Hold. apply (counted_later _ _ _ now) in Hc as [H1 H2 H3 H4]; [|done].
  assert (slots ip now l = 0) as Hz.
  { apply slots_zero. intros a Ha Hip Hw. specialize (Hold a Ha Hip). unfold failureWindow, Minute, Second in *. lia. }
  assert (forall ip' w, slots ip' w (mkAttempt ip user now :: l) =
    if decide (ip' = ip /\ w = now) then 1 else slots ip' w l) as Hs.
  { intros ip' w. rewrite slots_cons. unfold of_window. cbn.
    destruct (decide (ip' = ip /\ w = now)) as [[-> ->]|Hne].
    - rewrite decide_True by done. lia.
    - rewrite decide_False by naive_solver. lia. }
  split.
  - intros ip' rec Hr. rewrite Hs. apply lookup_insert_Some in Hr as [[-> <-]|[Hne Hr]]; cbn.
    + rewrite decide_True by done. unfold maxIPFailures. lia.
    + rewrite decide_False by naive_solver. by apply H1.
  - intros a [->|Ha]%elem_of_cons; cbn; [left; eexists; by rewrite lookup_insert_eq|].
    destruct (decide (a_ip a = ip)) as [E|Hne]; [right; by apply Hold|].
    rewrite lookup_insert_ne by done. by apply H2.
  - intros ip' w. rewrite Hs. case_decide; [unfold maxIPFailures; lia|apply H3].
  - intros a b [->|Ha]%elem_of_cons [->|Hb]%elem_of_cons; cbn; intros Hip Hlt; [lia| |by apply Hold|by apply H4].
    specialize (Hold b Hb (eq_sym Hip)). unfold failureWindow, Minute, Second in *. lia.
Qed.

Lemma counted_joins m l t ip user rec :
  counted m l t -> m !! ip = Some rec -> count rec < maxIPFailures ->
  counted (<[ip := mkFailure (i64 (count rec + 1)) (firstAt rec)]> m) (mkAttempt ip user (firstAt rec) :: l) t.
Proof.
  intros [H1 H2 H3 H4] Hr Hn. destruct (H1 _ _ Hr) as (Hc & Hpos & Hf).
  rewrite i64_small by (unfold min_int64, max_int64, maxIPFailures in *; lia).
  split.
  - intros ip' rec' Hr'. rewrite slots_cons. unfold of_window. cbn.
    apply lookup_insert_Some in Hr' as [[-> <-]|[Hne Hr']]; cbn.
    + rewrite decide_True by done. lia.
    + rewrite decide_False by naive_solver. by apply H1.
  - intros a [->|Ha]%elem_of_cons; cbn; [left; eexists; by rewrite lookup_insert_eq|].
    destruct (H2 a Ha) as [(rec' & Hr' & Hf')|]; [left|by right].
    destruct (decide (a_ip a = ip)) as [E|Hne]; [|exists rec'; by rewrite lookup_insert_ne].
    rewrite E in *. simplify_eq. eexists. split; [by rewrite lookup_insert_eq|done].
  - intros ip' w. rewrite slots_cons. unfold of_window. cbn.
    destruct (decide (ip = ip' /\ firstAt rec = w)) as [[<- <-]|]; [lia|]. specialize (H3 ip' w). lia.
  - assert (forall b, b ∈ l -> a_ip b = ip -> a_window b <> firstAt rec -> failureWindow < t - a_window b) as Hold.
    { intros b Hb Hip Hne. destruct (H2 b Hb) as [(rec' & Hr' & Hf')|]; [|done]. congruence. }
    assert (exists c, c ∈ l /\ a_ip c = ip /\ a_window c = firstAt rec) as (c & Hcl & Hcip & Hcw).
    { destruct (filter (of_window ip (firstAt rec)) l) as [|c l'] eqn:E.
      - unfold slots in Hc. rewrite E in Hc. cbn in Hc. lia.
      - assert (c ∈ filter (of_window ip (firstAt rec)) l) as Hin by (rewrite E; left).
        apply list_elem_of_filter in Hin as [[? ?] ?]. by exists c. }
    intros a b [->|Ha]%elem_of_cons [->|Hb]%elem_of_cons; cbn; intros Hip Hlt; [lia| | |by apply H4].
    + rewrite <- Hcw in *. apply H4; [done|done|congruence|done].
    + rewrite <- Hcw in *. apply H4; [done|done|congruence|done].
Qed.

Lemma bump_counted m l t since now ip user :
  counted m l t -> t <= since <= now ->
  m !! ip = None \/ (exists rec, m !! ip = Some rec /\ count rec < maxIPFailures) ->
  let m' := bumpLocked since now m ip in
  counted m' (mkAttempt ip user (default 0 (firstAt <$> m' !! ip)) :: l) now.
Proof.
  intros Hc Ht Hm m'. unfold m', bumpLocked. destruct (m !! ip) as [rec|] eqn:Er.
  - destruct (failureWindow <? Sub since (firstAt rec)) eqn:Ew; rewrite lookup_insert_eq; cbn.
    + apply over_window in Ew. eapply counted_fresh; [exact Hc|lia|]. intros a Ha <-.
      destruct (ct_held _ _ _ Hc a Ha) as [(rec' & Hr' & Hf)|]; [simplify_eq|]; lia.
    + destruct Hm as [|(rec' & [= <-] & Hn)]; [done|].
      apply counted_joins; [|done..]. eapply counted_later; [|exact Hc]. lia.
  - rewrite lookup_insert_eq; cbn. eapply counted_fresh; [exact Hc|lia|]. intros a Ha <-.
    destruct (ct_held _ _ _ Hc a Ha) as [(rec' & Hr' & Hf)|]; [congruence|lia].
Qed.

Lemma counted_release m a l t :
  counted m (a :: l) t -> counted (releaseLocked m (a_ip a) (a_window a)) l t.
Proof.
  intros [H1 H2 H3 H4].
  assert (forall ip w, slots ip w l <= slots ip w (a :: l)) as Hle by (intros; rewrite slots_cons; case_decide; lia).
  assert (forall ip rec, m !! ip = Some rec -> (ip <> a_ip a \/ firstAt rec <> a_window a) ->
    slots ip (firstAt rec) (a :: l) = slots ip (firstAt rec) l) as Hsame.
  { intros ip rec Hr Hne. rewrite slots_cons. unfold of_window. rewrite decide_False; [lia|]. naive_solver. }
  unfold releaseLocked. destruct (m !! a_ip a) as [rec|] eqn:Er.
  2: { split; [|intros b Hb; apply H2; by right|intros ip w; etrans; [apply Hle|apply H3]|intros b c Hb Hc; apply H4; by right].
       intros ip rec Hr. rewrite <- (Hsame ip rec Hr); [by apply H1|left; congruence]. }
  destruct (Z.eqb_spec (firstAt rec) (a_window a)) as [Hw|Hne]; cbn [negb].
  2: { split; [|intros b Hb; apply H2; by right|intros ip w; etrans; [apply Hle|apply H3]|intros b c Hb Hc; apply H4; by right].
       intros ip rec' Hr. rewrite <- (Hsame ip rec' Hr); [by apply H1|].
       destruct (decide (ip = a_ip a)) as [->|]; [right; congruence|by left]. }
  destruct (H1 _ _ Er) as (Hc & Hn & Hf).
  rewrite Hw, slots_cons, decide_True in Hc by (by split).
  rewrite i64_small by (unfold min_int64, max_int64, maxIPFailures in *; lia).
  destruct (Z.leb_spec (count rec - 1) 0) as [Hz|Hz].
  - split; [| |intros ip w; etrans; [apply Hle|apply H3]|intros b c Hb Hc'; apply H4; by right].
    + intros ip rec' [Hip Hr]%lookup_delete_Some. rewrite <- (Hsame ip rec' Hr) by (left; congruence). by apply H1.
    + intros b Hb. destruct (H2 b ltac:(by right)) as [(rec' & Hr & Hf')|]; [left|by right].
      destruct (decide (a_ip b = a_ip a)) as [E|Hne]; [|exists rec'; by rewrite lookup_delete_ne by congruence].
      pose proof (slots_elem (a_ip a) b l Hb E). rewrite E in Hr. simplify_eq. rewrite <- Hf', Hw in *. lia.
  - split; [| |intros ip w; etrans; [apply Hle|apply H3]|intros b c Hb Hc'; apply H4; by right].
    + intros ip rec' [[<- <-]|[Hip Hr]]%lookup_insert_Some; cbn.
      * rewrite Hw. lia.
      * rewrite <- (Hsame ip rec' Hr) by (left; congruence). by apply H1.
    + intros b Hb. destruct (H2 b ltac:(by right)) as [(rec' & Hr & Hf')|]; [left|by right].
      destruct (decide (a_ip b = a_ip a)) as [E|Hne]; [|exists rec'; by rewrite lookup_insert_ne by congruence].
      rewrite E in *. simplify_eq. eexists. split; [by rewrite lookup_insert_eq|done].
Qed.

Lemma counted_expire m l t : counted m l t -> counted (expireFailureMap t m) l t.
Proof.
  intros [H1 H2 H3 H4]. split; [|intros a Ha|done|done].
  - intros ip rec [Hr _]%map_lookup_filter_Some. by apply H1.
  - destruct (H2 a Ha) as [(rec & Hr & Hf)|]; [|by right].
    destruct (decide (failureWindow < Sub t (firstAt rec))) as [Hw|Hw].
    + right. apply Z.ltb_lt, over_window in Hw. by rewrite <- Hf.
    + left. exists rec. split; [|done]. by apply map_lookup_filter_Some.
Qed.

Lemma reserve_ok clk ip user c l t c' b w :
  counted (c_ipFailures c) l t -> readings t clk -> reserveLoginAttempt clk ip user c = (c', (b, w)) ->
  counted (c_ipFailures c') (if b then mkAttempt ip user w :: l else l) (clk 3%nat).
Proof.
  intros Hc (Hr0 & H1' & H2' & H3') E. unfold reserveLoginAttempt in E.
  destruct (countLocked (clk 0%nat) _ _) as [l' n].
  destruct (maxFailures <=? n); [injection E as <- <- <-; eapply counted_later; [|exact Hc]; lia|].
  apply (counted_later _ _ _ (clk 1%nat)) in Hc; [|lia].
  destruct (countLocked (clk 1%nat) (c_ipFailures c) ip) as [m n'] eqn:Em.
  destruct (count_counted _ _ _ _ _ _ Hc Em) as [Hm Hn].
  destruct (Z.leb_spec maxIPFailures n') as [|Hlt]; injection E as <- <- <-; cbn.
  - eapply counted_later; [|exact Hm]; lia.
  - apply (bump_counted _ _ (clk 1%nat)); [done|lia|]. destruct Hn as [|(rec & Hr & ->)]; [by left|right; by exists rec].
Qed.

Lemma login_step_ok s s' : logins_ok s -> login_step s s' -> logins_ok s'.
Proof.
  unfold logins_ok, held. intros Hok Hs.
  destruct Hs as [clk ip user s c w Hr E|clk ip user s c w Hr E|clk a l1 l2 s Hr E|a l1 l2 s E|idle clk s Hr|c t s Ht E];
    cbn [checker_of verifying failed clock].
  - exact (reserve_ok _ _ _ _ _ _ _ _ _ Hok Hr E).
  - exact (reserve_ok _ _ _ _ _ _ _ _ _ Hok Hr E).
  - destruct Hr as (? & ? & ? & ?). cbn. eapply counted_later; [|eapply counted_perm; [|exact Hok]]; [lia|].
    rewrite E. solve_Permutation.
  - rewrite E in Hok. apply counted_release.
    eapply counted_perm; [|exact Hok]. solve_Permutation.
  - destruct Hr as (? & ? & ? & ?). apply (counted_later _ _ (clk 1%nat)); [lia|].
    assert (c_ipFailures (cleanup_tick idle clk (checker_of s)) =
      expireFailureMap (clk 1%nat) (c_ipFailures (checker_of s))) as -> by (unfold cleanup_tick; cbn; by destruct (c_db _)).
    apply counted_expire. eapply counted_later; [|exact Hok]; lia.
  - rewrite E. eapply counted_later; [exact Ht|exact Hok].
Qed.

Lemma login_reachable_ok s : login_reachable s -> logins_ok s.
Proof.
  induction 1 as [c t E|s s' _ IH Hs]; [|by eapply login_step_ok].
  unfold logins_ok, held. cbn. rewrite E. split; [done|by intros a ?%elem_of_nil|done|by intros a b ?%elem_of_nil].
Qed.

(** C40: guessing is bounded however requests interleave.  The attempts of one address
    that were counted in the same window, and are still being verified or were wrong,
    number at most fifty; and two windows of an address start more than five minutes
    apart.  So a burst cannot slip past the limit by racing the verification. *)
Theorem login_attempts_are_bounded s ip :
  login_reachable s ->
  (forall w, Z.of_nat (length (filter (of_window ip w) (held s))) <= maxIPFailures) /\
  (forall a b, a ∈ held s -> b ∈ held s -> a_ip a = ip -> a_ip b = ip -> a_window a < a_window b ->
     failureWindow < a_window b - a_window a).
Proof.
  intros [_ _ H3 H4]%login_reachable_ok. split; [apply H3|]. intros a b Ha Hb <- E. by apply H4.
Qed.

End attempts.

Section witness.
Existing Instance plain_netip.
Existing Instance plain_crypto.

Definition sample_checker : Checker := NewFromDB "" "" [] (Some (mkAuthDB ∅ [] 1 {["ana" := "secret"]}))%string.

Definition sample_logins : Logins :=
  mkLogins (recordLoginFailure (fun _ => 1 * Second) "10.0.0.7" "ana"
    (reserveLoginAttempt (fun _ => 1 * Second) "10.0.0.7" "ana" sample_checker).1)%string
    [] [mkAttempt "10.0.0.7" "ana" (1 * Second)]%string (1 * Second).

Lemma sample_logins_reachable : login_reachable sample_logins.
Proof.
  eapply (logins_step (mkLogins (reserveLoginAttempt (fun _ => 1 * Second) "10.0.0.7" "ana" sample_checker).1
    [mkAttempt "10.0.0.7" "ana" (1 * Second)] [] (1 * Second)))%string.
  - eapply (logins_step (mkLogins sample_checker [] [] 0)); [by apply logins_initial|].
    apply (login_reserved (fun _ => 1 * Second)); [vm_compute; intuition discriminate|reflexivity].
  - apply (login_wrong (fun _ => 1 * Second) (mkAttempt "10.0.0.7" "ana" (1 * Second)) [] [])%string;
      [vm_compute; intuition discriminate|reflexivity].
Qed.

Lemma login_attempts_are_bounded_witness :
  Z.of_nat (length (filter (of_window "10.0.0.7" (1 * Second)) (held sample_logins))) <= maxIPFailures.
Proof. apply login_attempts_are_bounded, sample_logins_reachable. Defined.

End witness.

(** * Sessions *)

(** ** The specification *)





Section sessions.
Context `{NetIP} `{Crypto}.

(** SQLite's [julianday] counts days (an instant is in nanoseconds), to within [tol]
    nanoseconds: SQLite keeps whole milliseconds. *)
Context (julianday : Z -> Q) (tol : Z).
Context (Htol : 0 <= tol).
Context (Hdays : forall t u, ((julianday t - julianday u) * inject_Z (86400 * Second) <= inject_Z (t - u + tol))%Q).


(** ** The implementation's histories *)




(** ** The refinement *)














Lemma attempt_db clk clk' user pass ip c : c_db (attempt clk clk' user pass ip c).1 = c_db c.
Proof.
  unfold attempt, reserveLoginAttempt. destruct (countLocked (clk 0%nat) _ _) as [l n].
  destruct (maxFailures <=? n); [done|]. destruct (countLocked (clk 1%nat) _ _) as [i n'].
  destruct (maxIPFailures <=? n'); [done|]. cbn. by destruct (verify _ _ _).
Qed.








End sessions.

Section witness.
Existing Instance plain_netip.
Existing Instance plain_crypto.







End witness.
