(* ===== verification/AuthTheorems.v ===== *)
(** What authentication guarantees: no scope grants more than it says and no token
    mints a stronger one, requests reach a handler only with evidence of who sent
    them, guessing is bounded under every interleaving, and a session lives exactly
    as long as its login, its uses and its logout let it. *)

From S2P Require Import Prelude Float64 GoStrings AuthScopes Auth.
From Stdlib Require Import Ascii.

#[local] Open Scope string_scope.
#[local] Open Scope Z_scope.

(** ** Scopes *)

(** The segments of a concrete path against those of a pattern. *)
Definition segment_fits (pat got : string) : Prop := got <> "" /\ (pat = "*" \/ pat = got).

Lemma segments_match_spec pat got : segments_match pat got = true <-> Forall2 segment_fits pat got.
Proof.
  revert got. induction pat as [|p pat IH]; intros [|g got]; cbn -[String.eqb].
  - by split.
  - split; [done|]. by inversion 1.
  - split; [done|]. by inversion 1.
  - unfold segment_fits in *. destruct (String.eqb_spec g "") as [->|Hg].
    { split; [done|]. inversion 1; naive_solver. }
    rewrite Forall2_cons. destruct (String.eqb_spec p "*") as [->|Hp]; [rewrite IH; naive_solver|].
    destruct (String.eqb_spec p g) as [->|Hpg]; [rewrite IH; naive_solver|]. naive_solver.
Qed.

Lemma isNonAdminWrite_spec method path :
  isNonAdminWrite method path = true <->
  exists pattern, (method, pattern) ∈ nonAdminWrites /\ Forall2 segment_fits (segments pattern) (segments path).
Proof.
  unfold isNonAdminWrite. rewrite existsb_exists. split.
  - intros ([m pattern] & Hin%list_elem_of_In & [E%String.eqb_eq Hs]%andb_true_iff). cbn in E. subst m.
    exists pattern. split; [done|]. by apply segments_match_spec.
  - intros (pattern & Hin & Hs). exists (method, pattern). split; [by apply list_elem_of_In|].
    cbn. rewrite String.eqb_refl. by apply segments_match_spec.
Qed.

(** C39: a token can do no more than its scopes say.  Outside the API and [/metrics] it
    opens nothing.  Without a scope that reaches [admin] or everything, the only
    requests that change state it can make are to the token API, with a scope for
    that, and to a route listed as an ordinary write, segment by segment, with a write
    scope; and a token that can only read changes nothing at all. *)
Theorem tokens_are_least_privileged q method path :
  p_Kind q = AuthKindToken -> Allows (Some q) method path = true ->
  (HasPrefix path "/api/" = true \/ path = "/metrics") /\
  (isSafeMethod method = false -> HasAnyScope (Some q) ["admin"; "*"] = false ->
     ((path = "/api/tokens" \/ HasPrefix path "/api/tokens/" = true) /\
        HasAnyScope (Some q) ["tokens:write"; "api:*"; "*"] = true) \/
     ((exists pattern, (method, pattern) ∈ nonAdminWrites /\
         Forall2 segment_fits (segments pattern) (segments path)) /\
      HasAnyScope (Some q) ["api:write"; "api:*"; "*"] = true)) /\
  (p_Scopes q ⊆ ["api:read"; "tokens:read"; "metrics:read"] -> isSafeMethod method = true).
Proof.
  intros Hk Ha.
  assert (p_Scopes q ⊆ ["api:read"; "tokens:read"; "metrics:read"] ->
    HasAnyScope (Some q) ["admin"; "*"] = false /\ HasAnyScope (Some q) ["tokens:write"; "api:*"; "*"] = false /\
    HasAnyScope (Some q) ["api:write"; "api:*"; "*"] = false) as Hread.
  { intros Hsub. split_and!; apply not_true_iff_false; intros (want & have & Hw & Hh%Hsub & Hm)%HasAnyScope_token;
      try done; repeat (apply elem_of_cons in Hw as [->|Hw]); try (by apply elem_of_nil in Hw);
      repeat (apply elem_of_cons in Hh as [->|Hh]); try (by apply elem_of_nil in Hh); vm_compute in Hm; done. }
  unfold Allows in Ha. rewrite Hk in Ha.
  change (String.eqb AuthKindToken AuthKindSession || String.eqb AuthKindToken AuthKindProxy) with false in Ha.
  cbn iota in Ha. destruct (negb (HasPrefix path "/api/") && negb (String.eqb path "/metrics")) eqn:Ep; [done|].
  split.
  { apply andb_false_iff in Ep as [?%negb_false_iff|E%negb_false_iff]; [by left|right; by apply String.eqb_eq]. }
  destruct (isSafeMethod method) eqn:Es; [by split|]. unfold isAdminPath in Ha. rewrite Es in Ha.
  destruct (String.eqb path "/metrics"); [done|].
  destruct (String.eqb path "/api/tokens" || HasPrefix path "/api/tokens/") eqn:Et; cbn iota in Ha.
  { split; [|intros (_ & E & _)%Hread; congruence]. intros _ _. left. split; [|done].
    apply orb_true_iff in Et as [->%String.eqb_eq|]; tauto. }
  destruct (isNonAdminWrite method path) eqn:En; cbn [negb] in Ha; cbn iota in Ha.
  - split; [|intros (_ & _ & E)%Hread; congruence].
    intros _ _. right. split; [by apply isNonAdminWrite_spec|done].
  - split; [intros _ E; congruence|intros (E & _ & _)%Hread; congruence].
Qed.

Section auth.
Context `{NetIP} `{Crypto}.

(** ** Tokens *)

Lemma createToken_Ok clk now raw user name scopes ip c c' t r :
  createToken clk now raw user name scopes ip c = (c', Ok (t, r)) ->
  exists k k' d d' id, c = Some k /\ c_db k = Some d /\ raw = Some r /\
    CreateAPIToken (mkAPIToken 0 user name (String.substring 0 12 r) scopes now 0 None (Sum256 r)) d = Ok (d', id) /\
    c' = Some (set_db d' k') /\
    t = mkAPIToken id user name (String.substring 0 12 r) scopes now 0 None (Sum256 r).
Proof.
  unfold createToken. destruct c as [k|]; [|done]. destruct (c_db k) as [d|] eqn:Ed; [|done].
  destruct (String.eqb name ""); [done|]. destruct (countLocked _ _ _) as [m n].
  destruct (maxTokenCreations <=? n); [done|]. destruct raw as [raw|]; [|done].
  destruct (CreateAPIToken _ d) as [[d' id]|] eqn:Ec; [|done].
  intros [= <- <- <-]. eexists k, _, d, d', id. split_and!; [done..|exact Ec|done|done].
Qed.

(** A token never mints a stronger one: whatever scopes it asks for, the token it
    is given can make no request that it could not make itself (patterns that end in
    two stars aside). *)
Theorem minted_tokens_are_no_stronger clk now raw p name scopes ip c c' t r method path :
  p_Kind p = AuthKindToken -> Forall (fun s => double_star s = false) (p_Scopes p) ->
  CreateTokenForPrincipal clk now raw (Some p) name scopes ip c = (c', Ok (t, r)) ->
  Allows (Some (token_principal t)) method path = true -> Allows (Some p) method path = true.
Proof.
  intros Hk Hd Hc. unfold CreateTokenForPrincipal in Hc.
  destruct (grantable (Some p) scopes) as [granted|e] eqn:Eg; [|done].
  apply createToken_Ok in Hc as (k & k' & d & d' & id & -> & _ & _ & _ & _ & ->).
  apply Allows_mono; [done|done|]. intros wants.
  intros (want & have & Hw & Hh & Hm)%HasAnyScope_token; [|done]. cbn in Hh.
  apply HasAnyScope_token; [done|]. unfold grantable in Eg. rewrite Hk in Eg.
  destruct (normalizeTokenScopes scopes) as [norm|e]; [|done]. cbn [rbind] in Eg.
  change (String.eqb AuthKindToken AuthKindToken) with true in Eg.
  destruct (forallb _ norm) eqn:Ef; [|done]. injection Eg as ->.
  rewrite forallb_forall in Ef. specialize (Ef have (proj1 (list_elem_of_In _ _) Hh)).
  apply HasAnyScope_token in Ef as (w & s & ->%list_elem_of_singleton & Hs & Hsm); [|done].
  exists want, s. split_and!; [done|done|]. rewrite Forall_forall in Hd.
  eapply scopeMatches_trans; [by apply Hd|exact Hsm|exact Hm].
Qed.

(** The token rows of a store, as its operations change them. *)
Inductive tokens_step : AuthDB -> AuthDB -> Prop :=
| tokens_create t d d' id : CreateAPIToken t d = Ok (d', id) -> tokens_step d d'
| tokens_touch id t d : tokens_step d (TouchAPIToken id t d)
| tokens_revoke now id user d : tokens_step d (RevokeAPIToken now id user d)
(** sessions and users leave the tokens alone *)
| tokens_other d d' : api_tokens d' = api_tokens d -> tokens_step d d'.

Lemma find_snoc {A} (f : A -> bool) l x :
  existsb f l = false -> f x = true -> find f (l ++ [x]) = Some x.
Proof.
  intros Hl Hx. induction l as [|y l IH]; cbn in *; [by rewrite Hx|].
  apply orb_false_iff in Hl as [-> Hl]. by apply IH.
Qed.

Lemma find_map {A} (f : A -> bool) (g : A -> A) l :
  (forall x, f (g x) = f x) -> find f (g <$> l) = g <$> find f l.
Proof. intros Hg. induction l as [|x l IH]; cbn; [done|]. rewrite Hg. by destruct (f x). Qed.

(** The row of a hash, once there, keeps its owner and its revocation. *)
Lemma token_kept d d' hash t :
  tokens_step d d' -> GetAPITokenByHash hash d = Some t ->
  exists t', GetAPITokenByHash hash d' = Some t' /\ (at_RevokedAt t <> None -> at_RevokedAt t' <> None).
Proof.
  unfold GetAPITokenByHash. intros Hs Hf. destruct Hs as [u d d' id E|id u d|now id user d|d d' E].
  - unfold CreateAPIToken in E. destruct (existsb _ _); [done|]. injection E as <- <-. cbn.
    exists t. split; [|done]. induction (api_tokens d) as [|x l IH]; [done|]. cbn in *.
    destruct (String.eqb (at_TokenHash x) hash); [done|by apply IH].
  - cbn. rewrite find_map by (intros x; by destruct (at_ID x =? id)). rewrite Hf. eexists. split; [reflexivity|].
    by destruct (at_ID t =? id).
  - cbn. rewrite find_map by (intros x; by destruct ((at_ID x =? id) && _)). rewrite Hf.
    eexists. split; [reflexivity|]. by destruct ((at_ID t =? id) && _).
  - rewrite E. by exists t.
Qed.

Lemma tokens_kept d d' hash t :
  rtc tokens_step d d' -> GetAPITokenByHash hash d = Some t ->
  exists t', GetAPITokenByHash hash d' = Some t' /\ (at_RevokedAt t <> None -> at_RevokedAt t' <> None).
Proof.
  intros Hs. revert t. induction Hs as [d|d d1 d2 H1 _ IH]; intros t Hf; [by exists t|].
  destruct (token_kept _ _ _ _ H1 Hf) as (t1 & Hf1 & Hr1). destruct (IH _ Hf1) as (t2 & Hf2 & Hr2).
  exists t2. split; [done|]. auto.
Qed.

(** The request carries the token. *)
Definition bears (r : Request) (raw : string) : Prop :=
  r_Header r "Authorization" = "Bearer " +:+ raw /\ TrimSpace raw = raw /\ raw <> "".

Lemma bearer_spec now r raw c d :
  bears r raw -> c_db c = Some d ->
  (authenticateBearerToken now r c).2 =
  match GetAPITokenByHash (Sum256 raw) d with
  | Some t => match at_RevokedAt t with Some _ => Ok None | None => Ok (Some (token_principal t)) end
  | None => Ok None
  end.
Proof.
  intros (Hh & Ht & Hne) Ed. unfold authenticateBearerToken. rewrite Ed, Hh.
  assert (HasPrefix ("Bearer " +:+ raw) "Bearer " = true) as -> by (apply HasPrefix_spec; by exists raw).
  assert (TrimPrefix ("Bearer " +:+ raw) "Bearer " = raw) as ->
    by (unfold TrimPrefix; by rewrite (proj2 (strip_prefix_Some _ _ raw) eq_refl)).
  rewrite Ht. change (String.eqb ("Bearer " +:+ raw) "") with false. cbn [orb negb].
  destruct (String.eqb_spec raw ""); [done|]. destruct (GetAPITokenByHash _ _) as [t|]; [|done].
  by destruct (at_RevokedAt t).
Qed.

(** A token is a credential from its creation to its revocation.  A request that
    carries the string its owner was given once is authenticated as the owner with
    the scopes that were granted, and its hash, not the string, is what is stored;
    after the owner revokes it, it is refused for ever, whatever else happens to the
    tables; somebody else's revocation of it does nothing. *)
Theorem token_lifecycle clk now raw p name scopes ip c c' t r req d' :
  CreateTokenForPrincipal clk now raw p name scopes ip (Some c) = (Some c', Ok (t, r)) ->
  c_db c' = Some d' -> bears req r ->
  (exists q, p = Some q /\ at_Username t = p_Username q) /\ at_TokenHash t = Sum256 r /\
  (forall now', (authenticateBearerToken now' req c').2 = Ok (Some (token_principal t))) /\
  (forall now1 now2 c2 d2, rtc tokens_step (RevokeAPIToken now1 (at_ID t) (at_Username t) d') d2 -> c_db c2 = Some d2 ->
     (authenticateBearerToken now2 req c2).2 = Ok None) /\
  (forall now1 now2 user c2, user <> at_Username t -> c_db c2 = Some (RevokeAPIToken now1 (at_ID t) user d') ->
     (authenticateBearerToken now2 req c2).2 = Ok (Some (token_principal t))).
Proof.
  intros Hc Ed' Hb. unfold CreateTokenForPrincipal in Hc. destruct p as [p|]; [|done].
  destruct (grantable (Some p) scopes) as [granted|]; [|done].
  apply createToken_Ok in Hc as (k & k' & d & d0 & id & [= ->] & _ & _ & Hi & [= ->] & ->).
  cbn in Ed'. injection Ed' as ->. cbn [at_Username at_TokenHash at_ID].
  unfold CreateAPIToken in Hi. destruct (existsb _ (api_tokens d)) eqn:Ex; [done|]. injection Hi as <- <-. cbn in Ex.
  set (row := mkAPIToken _ _ _ _ granted _ _ _ _) in *. set (d1 := mkAuthDB _ _ _ _).
  assert (GetAPITokenByHash (Sum256 r) d1 = Some row) as Hf
    by (apply find_snoc; [done|apply String.eqb_refl]).
  clearbody d1.
  split_and!; [by exists p|done| | |].
  - intros now'. by rewrite (bearer_spec _ _ r _ d1), Hf.
  - intros now1 now2 c2 d2 Hs Ed2. rewrite (bearer_spec _ _ r _ d2) by done.
    destruct (tokens_kept _ _ (Sum256 r) (mkAPIToken (at_ID row) (at_Username row) (at_Name row) (at_TokenPrefix row)
      (at_Scopes row) (at_CreatedAt row) (at_LastUsedAt row) (Some now1) (at_TokenHash row)) Hs) as (t' & -> & Hr).
    { unfold GetAPITokenByHash in *. cbn. rewrite find_map by (intros x; by destruct ((at_ID x =? _) && _)).
      rewrite Hf. cbn. by rewrite Z.eqb_refl, String.eqb_refl. }
    destruct (at_RevokedAt t'); [done|]. by destruct Hr.
  - intros now1 now2 user c2 Hne Ed2. rewrite (bearer_spec _ _ r _ (RevokeAPIToken now1 (next_token_id d) user d1)) by done.
    unfold GetAPITokenByHash in *. cbn. rewrite find_map by (intros x; by destruct ((at_ID x =? _) && _)).
    rewrite Hf. cbn. rewrite Z.eqb_refl. destruct (String.eqb_spec (p_Username p) user); [congruence|done].
Qed.

(** ** Requests *)

(** What a request showed about its principal. *)
Inductive shown (now : Z) (r : Request) (c : Checker) : Principal -> Prop :=
| shown_proxy user :
    isTrustedProxy (remoteAddrIP (r_RemoteAddr r)) c = true -> c_proxyHeader c <> "" ->
    user = TrimSpace (r_Header r (c_proxyHeader c)) -> user <> "" ->
    shown now r c (mkPrincipal user AuthKindProxy ["*"] 0 "" "" 0)
| shown_token d t :
    c_db c = Some d -> t ∈ api_tokens d -> at_RevokedAt t = None ->
    HasPrefix (r_Header r "Authorization") "Bearer " = true ->
    at_TokenHash t = Sum256 (TrimSpace (TrimPrefix (r_Header r "Authorization") "Bearer ")) ->
    shown now r c (token_principal t)
| shown_session d row value :
    c_db c = Some d -> Cookie r SessionCookieName = Some value -> auth_sessions d !! value = Some row ->
    now <= as_ExpiresAt row ->
    (isSafeMethod (r_Method r) = false -> r_Header r "X-CSRF-Token" = as_CSRFToken row /\
       Cookie r CSRFCookieName = Some (as_CSRFToken row)) ->
    shown now r c (session_principal row).

Lemma proxy_shown now r c q : authenticateProxyHeader r c = Some q -> shown now r c q.
Proof.
  unfold authenticateProxyHeader. destruct (String.eqb_spec (c_proxyHeader c) ""); [done|].
  destruct (isTrustedProxy _ c) eqn:Et; [|done]. cbn [negb].
  destruct (String.eqb_spec (TrimSpace (r_Header r (c_proxyHeader c))) ""); [done|]. intros [= <-].
  by apply shown_proxy.
Qed.

Lemma token_shown now r c c' q :
  authenticateBearerToken now r c = (c', Ok (Some q)) -> shown now r c q.
Proof.
  unfold authenticateBearerToken. destruct (c_db c) as [d|] eqn:Ed; [|done].
  destruct (String.eqb _ "" || negb _) eqn:Ep; [done|].
  destruct (String.eqb (TrimSpace _) ""); [done|]. destruct (GetAPITokenByHash _ d) as [t|] eqn:Et; [|done]. destruct (at_RevokedAt t) eqn:Er; [done|].
  intros [= <- <-]. unfold GetAPITokenByHash in Et. apply find_some in Et as [Hin%list_elem_of_In Hh%String.eqb_eq].
  apply orb_false_iff in Ep as [_ Ep%negb_false_iff]. by eapply shown_token.
Qed.

Lemma token_none now r c c' : authenticateBearerToken now r c = (c', Ok None) -> c' = c.
Proof.
  unfold authenticateBearerToken. destruct (c_db c); [|done]. destruct (_ || _); [by intros [= <-]|].
  destruct (String.eqb _ _); [by intros [= <-]|]. destruct (GetAPITokenByHash _ _) as [t|]; [|by intros [= <-]].
  destruct (at_RevokedAt t); [by intros [= <-]|done].
Qed.

Lemma session_shown now r c c' q :
  authenticateSession now r c = (c', Ok (Some q)) -> RequireCSRF r (Some q) = true -> shown now r c q.
Proof.
  unfold authenticateSession. destruct (c_db c) as [d|] eqn:Ed; [|done].
  destruct (Cookie r SessionCookieName) as [value|] eqn:Ec; [|done]. destruct value as [|a v] eqn:Ev; [done|].
  rewrite <- Ev in *. destruct (GetSession value d) as [row|] eqn:Eg; [|done].
  destruct (After now _ || _) eqn:Eo; [done|]. intros [= <- <-]. unfold RequireCSRF. cbn -[isSafeMethod String.eqb].
  intros Hcsrf. apply orb_false_iff in Eo as [Eo%Z.ltb_ge _].
  eapply (shown_session now r c d row value); [done|done|done|done|]. intros Hs. rewrite Hs in Hcsrf.
  change (negb (String.eqb AuthKindSession AuthKindSession) || false) with false in Hcsrf. cbn iota in Hcsrf.
  destruct (Cookie r CSRFCookieName) as [ck|]; [|done]. destruct ck as [|b ck'] eqn:Eb; [done|].
  rewrite <- Eb in *. destruct (String.eqb (r_Header r "X-CSRF-Token") ""); [done|].
  destruct (String.eqb_spec (r_Header r "X-CSRF-Token") ck) as [->|]; [|done].
  apply String.eqb_eq in Hcsrf as ->. done.
Qed.

(** C4: a handler runs only for a request that may reach it.  With authentication on,
    a request that is served without a principal is for one of the public paths or the
    login page; any other came with a principal whose scopes allow its method and path
    and who was shown by a trusted proxy's header, by a stored token that is not
    revoked, or by the cookie of an unexpired session, with that session's CSRF token
    in both the header and the cookie when the method is not safe; and on an instance
    exposed to the internet it came over HTTPS. *)
Theorem served_requests_are_authorised now r c c' p :
  authMiddleware now r (Some c) = (c', Served p) ->
  (c_exposure c = "internet" -> cookieSecure r c = true) /\
  match p with
  | None => isPublicPath r = true \/ r_Path r = "/login.html"
  | Some q => Allows (Some q) (r_Method r) (r_Path r) = true /\ shown now r c q
  end.
Proof.
  unfold authMiddleware. destruct (RequestIsSecure r (Some c)) eqn:Es; [|done]. cbn [negb].
  intros E. split.
  { intros Hx. unfold RequestIsSecure in Es. rewrite Hx in Es. exact Es. }
  clear Es. destruct (isPublicPath r); [injection E as _ <-; by left|].
  destruct (Authenticate now r (Some c)) as [c1 [principal|e]] eqn:Ea; [|done].
  destruct (String.eqb_spec (r_Path r) "/login.html") as [->|_].
  { destruct principal; [done|]. injection E as _ <-. by right. }
  destruct principal as [q|]; [|unfold handleUnauthorized in E; by destruct (_ || _)].
  destruct (Allows (Some q) _ _) eqn:Eal; [|done]. cbn [negb] in E.
  destruct (RequireCSRF r (Some q)) eqn:Ecsrf; [|done]. injection E as _ <-. split; [done|].
  unfold Authenticate in Ea. destruct (authenticateProxyHeader r c) as [q'|] eqn:Ep.
  { injection Ea as _ ->. by apply proxy_shown. }
  destruct (authenticateBearerToken now r c) as [c2 [[q'|]|e]] eqn:Et; [| |done].
  - injection Ea as _ ->. by eapply token_shown.
  - apply token_none in Et as ->. destruct (authenticateSession now r c) as [c3 res] eqn:Esn.
    injection Ea as _ ->. by eapply session_shown.
Qed.
End auth.

(** ** Witnesses *)

Section witnesses.
Existing Instance plain_netip.
Existing Instance plain_crypto.

Definition writer : Principal := mkPrincipal "ana" AuthKindToken ["tokens:write"; "api:*"] 0 "" "" 1.

Lemma tokens_are_least_privileged_witness :
  exists pattern, ("POST", pattern) ∈ nonAdminWrites /\
    Forall2 segment_fits (segments pattern) (segments "/api/events/7/clip").
Proof.
  destruct (tokens_are_least_privileged writer "POST" "/api/events/7/clip") as (_ & Hw & _);
    [reflexivity|vm_compute; reflexivity|].
  destruct (Hw eq_refl) as [[[Hp|Hp] _]|[Hp _]]; [vm_compute; reflexivity|discriminate Hp|vm_compute in Hp; discriminate Hp|exact Hp].
Defined.

Definition sample_auth : Checker :=
  NewFromDB "" "" [] (Some (mkAuthDB {["s1" := new_session "s1" "tok" "ana" "10.0.0.7" "" false 0]} [] 1 ∅)).

(** The token [writer] creates for reading. *)
Definition minted : option Checker * result AuthError (APIToken * string) :=
  CreateTokenForPrincipal (fun _ => 0) 5 (Some "secret-token") (Some writer) "scraper" ["api:read"] "10.0.0.7"
    (Some sample_auth).

Definition minted_token : APIToken := mkAPIToken 1 "ana" "scraper" "secret-token" ["api:read"] 5 0 None "#secret-token".

Lemma minted_tokens_are_no_stronger_witness :
  Allows (Some (token_principal minted_token)) "GET" "/api/events" = true /\ Allows (Some writer) "GET" "/api/events" = true.
Proof.
  assert (Allows (Some (token_principal minted_token)) "GET" "/api/events" = true) as Ha by (vm_compute; reflexivity).
  split; [exact Ha|].
  apply (minted_tokens_are_no_stronger (fun _ => 0) 5 (Some "secret-token") writer "scraper" ["api:read"] "10.0.0.7"
    (Some sample_auth) minted.1 minted_token "secret-token"); [reflexivity| |vm_compute; reflexivity|exact Ha].
  repeat constructor.
Defined.

(** A pattern that ends in two stars mints a stronger token: the operator's [a**]
    reaches no scope the routes ask for, the [a*] it may mint reaches [admin]. *)
Lemma double_star_escalates :
  let p := mkPrincipal "ana" AuthKindToken ["tokens:write"; "a**"] 0 "" "" 1 in
  exists c t r,
    CreateTokenForPrincipal (fun _ => 0) 5 (Some "secret-token") (Some p) "x" ["a*"] "10.0.0.7" (Some sample_auth) = (c, Ok (t, r)) /\
    Allows (Some (token_principal t)) "PUT" "/api/settings" = true /\ Allows (Some p) "PUT" "/api/settings" = false.
Proof. eexists _, _, _. split; [reflexivity|]. split; vm_compute; reflexivity. Qed.

Definition bearer_request : Request :=
  mkRequest "GET" "/api/events" "/api/events" "10.0.0.7:9000" true
    (fun h => if String.eqb h "Authorization" then "Bearer secret-token" else "") [].

Lemma token_lifecycle_witness :
  exists c, minted.1 = Some c /\
    (authenticateBearerToken 9 bearer_request c).2 = Ok (Some (token_principal minted_token)).
Proof.
  eexists. split; [reflexivity|].
  edestruct (token_lifecycle (fun _ => 0) 5 (Some "secret-token") (Some writer) "scraper" ["api:read"] "10.0.0.7"
    sample_auth) as (_ & _ & Hlive & _); [| | |exact (Hlive 9)]; [reflexivity|reflexivity|].
  split; [reflexivity|]. split; [vm_compute; reflexivity|discriminate].
Defined.

(** A session's write, with its CSRF token. *)
Definition session_request : Request :=
  mkRequest "POST" "/api/events/7/clip" "/api/events/7/clip" "10.0.0.7:9000" true
    (fun h => if String.eqb h "X-CSRF-Token" then "tok" else "")
    [(SessionCookieName, "s1"); (CSRFCookieName, "tok")].

Lemma served_requests_are_authorised_witness :
  let c := sample_auth in let r := session_request in
  exists q, (authMiddleware Minute r (Some c)).2 = Served (Some q) /\ shown Minute r c q.
Proof.
  eexists. split; [vm_compute; reflexivity|].
  eapply (served_requests_are_authorised Minute session_request sample_auth (authMiddleware Minute session_request (Some sample_auth)).1
    (Some _)). vm_compute. reflexivity.
Defined.

End witnesses.
