(* ===== verification/Mp4Bytes.v ===== *)
(** MP4 at the level of bytes ([media/mp4reader.go]): the search for the movie duration,
    the bounded scan of the initialization boxes, the rewriting of a fragment's header,
    the parameter sets taken out of a sample, and the in-memory seekable writer.

    A file is its bytes.  The parser of the initialization segment is mediacommon's: it
    is a parameter. *)

From S2P Require Import Prelude Float64 H264.

#[local] Open Scope list_scope.

Abbreviation bytes := (list Z).

Definition len (b : bytes) : Z := Z.of_nat (length b).

(** [b[i:j]]. *)
Definition slice (b : bytes) (i j : Z) : bytes := take (Z.to_nat (j - i)) (drop (Z.to_nat i) b).

(** [copy(b[i:], p)] for a [p] that fits. *)
Definition overlay (b : bytes) (i : Z) (p : bytes) : bytes :=
  take (Z.to_nat i) b ++ p ++ drop (Z.to_nat i + length p) b.

(** [binary.BigEndian]'s [Uint32] and [Uint64], by the number of bytes, and their
    [Put] counterparts. *)
Definition be (b : bytes) : Z := fold_left (fun a x => a * 256 + x) b 0.

Fixpoint put_be (n : nat) (v : Z) : bytes :=
  match n with
  | O => []
  | S n => (v / 2 ^ (8 * Z.of_nat n)) mod 256 :: put_be n v
  end.

(** The four-character codes. *)
Definition fourcc (s : string) : bytes := (fun a => Z.of_N (Ascii.N_of_ascii a)) <$> String.list_ascii_of_string s.

Definition BoxTypeMoov : bytes := fourcc "moov".
Definition BoxTypeMvhd : bytes := fourcc "mvhd".
Definition BoxTypeMoof : bytes := fourcc "moof".
Definition BoxTypeMfhd : bytes := fourcc "mfhd".
Definition BoxTypeTraf : bytes := fourcc "traf".
Definition BoxTypeTfhd : bytes := fourcc "tfhd".
Definition BoxTypeTfdt : bytes := fourcc "tfdt".

(** [io.ReadFull] of [n] bytes at [pos]; [None] when the file ends before. *)
Definition ReadFull (f : bytes) (pos n : Z) : option bytes :=
  if (0 <=? pos) && (pos + n <=? len f) then Some (slice f pos (pos + n)) else None.

(** [Seek] relative to [pos]; a position before the file, or past what an [int64]
    holds, is an error. *)
Definition seek (pos off : Z) : option Z :=
  if (0 <=? pos + off) && (pos + off <=? max_int64) then Some (pos + off) else None.

(** ** The movie duration *)

(** [time.Duration(float64(ticks) / float64(scale) * float64(time.Second))]; a value out
    of range, which Go leaves to the implementation, counts as zero. *)
Definition ticks_duration (ticks scale : Z) : Z :=
  default 0 (f64_trunc (fmul (fdiv (f64_of_Z ticks) (f64_of_Z scale)) (f64_of_Z Second))).

Definition parseMvhd (f : bytes) (pos : Z) : result string Z :=
  match ReadFull f pos 1, ReadFull f (pos + 1) 3 with
  | Some version, Some _ =>
      if be version =? 0 then
        match ReadFull f (pos + 4) 16 with
        | Some buf =>
            let timescale := be (slice buf 8 12) in
            if timescale =? 0 then Ok 0 else Ok (ticks_duration (be (slice buf 12 16)) timescale)
        | None => Err "EOF"%string
        end
      else
        match ReadFull f (pos + 4) 28 with
        | Some buf =>
            let timescale := be (slice buf 16 20) in
            if timescale =? 0 then Ok 0 else Ok (ticks_duration (be (slice buf 20 28)) timescale)
        | None => Err "EOF"%string
        end
  | _, _ => Err "EOF"%string
  end.

(** [None] when the fuel runs out. *)
Fixpoint find_mvhd (fuel : nat) (f : bytes) (pos end_ : Z) : option (result string Z) :=
  match fuel with
  | O => None
  | S fuel =>
      if end_ <=? pos then Some (Err "mvhd box not found"%string)
      else match ReadFull f pos 8 with
      | None => Some (Err "read box header in moov"%string)
      | Some h =>
          let size := be (slice h 0 4) in
          let next :=
            if size =? 1 then
              match ReadFull f (pos + 8) 8 with
              | None => None
              | Some ext => Some (pos + 16, i64 (i64 (be ext) - 16))
              end
            else Some (pos + 8, size - 8) in
          match next with
          | None => Some (Err "EOF"%string)
          | Some (pos, size) =>
              if bool_decide (slice h 4 8 = BoxTypeMvhd) then Some (parseMvhd f pos)
              else match seek pos size with
                   | None => Some (Err "seek"%string)
                   | Some pos => find_mvhd fuel f pos end_
                   end
          end
      end
  end.

Definition findMvhdDuration (fuel : nat) (f : bytes) (pos moovSize : Z) : option (result string Z) :=
  find_mvhd fuel f pos (i64 (pos + moovSize)).

Fixpoint probeMoovDuration (fuel : nat) (f : bytes) (pos : Z) : option (result string Z) :=
  match fuel with
  | O => None
  | S fuel =>
      match ReadFull f pos 8 with
      | None => Some (Err "read box header"%string)
      | Some h =>
          let size := be (slice h 0 4) in
          let next :=
            if size =? 1 then
              match ReadFull f (pos + 8) 8 with
              | None => Err "read extended size"%string
              | Some ext => Ok (pos + 16, i64 (i64 (be ext) - 16))
              end
            else if size =? 0 then Err "unsupported box size 0"%string
            else Ok (pos + 8, size - 8) in
          match next with
          | Err e => Some (Err e)
          | Ok (pos, size) =>
              if bool_decide (slice h 4 8 = BoxTypeMoov) then findMvhdDuration fuel f pos size
              else match seek pos size with
                   | None => Some (Err "skip box"%string)
                   | Some pos => probeMoovDuration fuel f pos
                   end
          end
      end
  end.

(** ** The initialization boxes *)

Definition init_limit : Z := 8 * 2 ^ 20.

Section init.
Context {Init : Type} (Unmarshal : bytes -> result string Init).

(** The loop of [readRecordingInit] from [offset]. *)
Fixpoint init_scan (fuel : nat) (f : bytes) (offset : Z) : option (result string (Init * Z)) :=
  match fuel with
  | O => None
  | S fuel =>
      if init_limit <=? offset then Some (Err "recording init exceeds 8 MiB"%string)
      else match ReadFull f offset 8 with
      | None => Some (Err "EOF"%string)
      | Some header =>
          let size := be (slice header 0 4) in
          let sized :=
            if size =? 1 then
              match ReadFull f (offset + 8) 8 with
              | None => None
              | Some ext => Some (be ext, 16)
              end
            else Some (size, 8) in
          match sized with
          | None => Some (Err "EOF"%string)
          | Some (size, minSize) =>
              if (size <? minSize) || (init_limit - offset <? size)
              then Some (Err "invalid recording init box size"%string)
              else
                let offset := offset + size in
                if bool_decide (slice header 4 8 = BoxTypeMoov)
                then Some (let? init := Unmarshal (slice f 0 offset) in Ok (init, offset))
                else init_scan fuel f offset
          end
      end
  end.

Definition readRecordingInit (fuel : nat) (f : bytes) : option (result string (Init * Z)) := init_scan fuel f 0.

End init.

(** ** Rewriting a fragment's header *)

(** A box header at [i]: its size and type, when the box fits the data. *)
Definition box_at (data : bytes) (i : Z) : option (Z * bytes) :=
  if len data <? i + 8 then None
  else
    let boxSize := be (slice data i (i + 4)) in
    if (boxSize <? 8) || (len data <? i + boxSize) then None
    else Some (boxSize, slice data (i + 4) (i + 8)).

(** The track id of the last [tfhd] of a traf's payload. *)
Fixpoint traf_track (fuel : nat) (data : bytes) (i : Z) (trackID : Z) : Z :=
  match fuel with
  | O => trackID
  | S fuel =>
      match box_at data i with
      | None => trackID
      | Some (boxSize, boxType) =>
          traf_track fuel data (i + boxSize)
            (if bool_decide (boxType = BoxTypeTfhd) && (16 <=? boxSize) then be (slice data (i + 12) (i + 16)) else trackID)
      end
  end.

(** The loop over the boxes of [data] from [i], changing each in place. *)
Fixpoint patch_boxes (patch : bytes -> Z -> Z -> bytes -> bytes) (fuel : nat) (data : bytes) (i : Z) : bytes :=
  match fuel with
  | O => data
  | S fuel =>
      match box_at data i with
      | None => data
      | Some (boxSize, boxType) => patch_boxes patch fuel (patch data i boxSize boxType) (i + boxSize)
      end
  end.

Definition patch_tfdt (baseTime : Z) (data : bytes) (i boxSize : Z) (boxType : bytes) : bytes :=
  if bool_decide (boxType = BoxTypeTfdt) && (16 <=? boxSize) then
    if be (slice data (i + 8) (i + 9)) =? 0 then overlay data (i + 12) (put_be 4 (u32 baseTime))
    else if 20 <=? boxSize then overlay data (i + 12) (put_be 8 baseTime) else data
  else data.

(** Every turn of these loops passes a box of at least eight bytes, so the length of
    the data is fuel enough. *)
Definition patchTraf (data : bytes) (baseTimes : gmap Z Z) : bytes :=
  match baseTimes !! traf_track (length data) data 0 0 with
  | None => data
  | Some baseTime => patch_boxes (patch_tfdt baseTime) (length data) data 0
  end.

Definition patch_box (seqNum : Z) (baseTimes : gmap Z Z) (data : bytes) (i boxSize : Z) (boxType : bytes) : bytes :=
  if bool_decide (boxType = BoxTypeMfhd) then
    if 16 <=? boxSize then overlay data (i + 12) (put_be 4 seqNum) else data
  else if bool_decide (boxType = BoxTypeTraf) then
    overlay data (i + 8) (patchTraf (slice data (i + 8) (i + boxSize)) baseTimes)
  else data.

Definition patchMoof (data : bytes) (seqNum : Z) (baseTimes : gmap Z Z) : bytes :=
  patch_boxes (patch_box seqNum baseTimes) (length data) data 8.

(** ** Parameter sets inside a sample *)

Definition is_param_set (nalType : Z) : bool := (nalType =? NALUTypeSPS) || (nalType =? NALUTypePPS).

(** The loop over the length-prefixed NAL units from [pos]. *)
Fixpoint strip_loop (fuel : nat) (payload : bytes) (pos : Z) (cleaned : bytes) : bytes :=
  match fuel with
  | O => cleaned
  | S fuel =>
      if len payload <=? pos + 4 then cleaned
      else
        let nalLen := be (slice payload pos (pos + 4)) in
        if len payload <? pos + 4 + nalLen then cleaned
        else
          let nalType := Z.land (be (slice payload (pos + 4) (pos + 5))) 31 in
          strip_loop fuel payload (pos + 4 + nalLen)
            (if is_param_set nalType then cleaned else cleaned ++ slice payload pos (pos + 4 + nalLen))
  end.

Definition strip_sample (payload : bytes) : bytes :=
  if len payload <? 5 then payload
  else if negb (is_param_set (Z.land (be (slice payload 4 5)) 31)) then payload
  else match strip_loop (length payload) payload 0 [] with
       | [] => payload
       | cleaned => cleaned
       end.

(** ** Parts of one track *)

Record Sample := mkSample { smp_Duration : Z; smp_IsNonSyncSample : bool; smp_Payload : bytes }.
Record PartTrack := mkPartTrack { pt_ID : Z; pt_BaseTime : Z; pt_Samples : list Sample }.
Record Part := mkPart { pa_SequenceNumber : Z; pa_Tracks : list PartTrack }.

Definition stripInBandParamSets (tr : PartTrack) : PartTrack :=
  mkPartTrack (pt_ID tr) (pt_BaseTime tr)
    ((fun s => mkSample (smp_Duration s) (smp_IsNonSyncSample s) (strip_sample (smp_Payload s))) <$> pt_Samples tr).

(** What [ServeHLSSegment] makes of one part it read, and of all of them. *)
Definition split_part (isVideo : Z -> bool) (p : Part) : list Part :=
  let tracks := (fun tr => if isVideo (pt_ID tr) then stripInBandParamSets tr else tr) <$> pa_Tracks p in
  match tracks with
  | _ :: _ :: _ => (fun tr => mkPart (pa_SequenceNumber p) [tr]) <$> tracks
  | _ => [mkPart (pa_SequenceNumber p) tracks]
  end.

Definition single_track_parts (isVideo : Z -> bool) (parts : list Part) : list Part := parts ≫= split_part isVideo.

(** ** The seekable buffer *)

Record writeSeeker := mkWriteSeeker { ws_buf : bytes; ws_pos : Z }.

(** [None] is the panic of [bytes.Buffer.Truncate] past the end. *)
Definition Write (p : bytes) (ws : writeSeeker) : option writeSeeker :=
  if ws_pos ws <? len (ws_buf ws) then
    let n := len (ws_buf ws) - ws_pos ws in
    let buf := overlay (ws_buf ws) (ws_pos ws) (take (Z.to_nat n) p) in
    let pos := ws_pos ws + len p in
    if len buf <? pos then None else Some (mkWriteSeeker buf pos)
  else Some (mkWriteSeeker (ws_buf ws ++ p) (ws_pos ws + len p)).

Inductive Whence := SeekStart | SeekCurrent | SeekEnd.

Definition Seek (offset : Z) (whence : Whence) (ws : writeSeeker) : result string writeSeeker :=
  let newPos := match whence with
                | SeekStart => offset
                | SeekCurrent => ws_pos ws + offset
                | SeekEnd => len (ws_buf ws) + offset
                end in
  if newPos <? 0 then Err "negative seek position"%string
  else Ok (mkWriteSeeker (ws_buf ws ++ replicate (Z.to_nat (newPos - len (ws_buf ws))) 0) newPos).
