(* ===== verification/Mp4BytesTheorems.v ===== *)
(** What the byte-level operations on MP4 files guarantee: a fragment's header is
    rewritten in the fields that change and nowhere else, the movie duration is found
    in a well-formed file and a box of size zero is never passed, the scan of the
    initialization boxes ends, and the seekable buffer is a file until a write crosses
    its end. *)

From S2P Require Import Prelude Float64 H264 Mp4Bytes.

#[local] Open Scope list_scope.

(** ** Slices *)

Lemma blen_app a b : len (a ++ b) = len a + len b.
Proof. unfold len. rewrite length_app. lia. Qed.

Lemma blen_nonneg b : 0 <= len b.
Proof. unfold len. lia. Qed.

Lemma blen_cons x b : len (x :: b) = 1 + len b.
Proof. unfold len. cbn. lia. Qed.

Lemma blen_nil : len [] = 0.
Proof. reflexivity. Qed.

#[export] Hint Rewrite blen_app blen_cons blen_nil : vedetta.

Lemma slice_app pre b post i j :
  i = len pre -> j = len pre + len b -> slice (pre ++ b ++ post) i j = b.
Proof.
  unfold slice, len. intros -> ->. rewrite Nat2Z.id, drop_app_length.
  replace (Z.to_nat _) with (length b) by lia. apply take_app_length.
Qed.

Lemma overlay_app pre b b' post i :
  i = len pre -> length b' = length b -> overlay (pre ++ b ++ post) i b' = pre ++ b' ++ post.
Proof.
  unfold overlay, len. intros -> Hb. rewrite Nat2Z.id, take_app_length, Hb. do 2 f_equal.
  by rewrite app_assoc, drop_app_length' by (rewrite length_app; done).
Qed.

Lemma length_put_be n v : length (put_be n v) = n.
Proof. induction n as [|n IH]; cbn; [done|by rewrite IH]. Qed.

Lemma len_put_be n v : len (put_be n v) = Z.of_nat n.
Proof. unfold len. by rewrite length_put_be. Qed.

#[export] Hint Rewrite len_put_be : vedetta.

Lemma be_app a b : be (a ++ b) = be a * 2 ^ (8 * len b) + be b.
Proof.
  unfold be. rewrite fold_left_app. generalize (fold_left (fun a x => a * 256 + x) a 0). intros s.
  induction b as [|x b IH] using rev_ind; [change (len []) with 0; cbn; lia|]. rewrite !fold_left_app. cbn [fold_left]. rewrite IH.
  autorewrite with vedetta. replace (8 * (len b + (1 + 0))) with (8 * len b + 8) by lia.
  rewrite Z.pow_add_r by (pose proof (blen_nonneg b); lia). change (2 ^ 8) with 256. lia.
Qed.

Lemma be_put_be n v : 0 <= v < 2 ^ (8 * Z.of_nat n) -> be (put_be n v) = v.
Proof.
  intros Hv. enough (be (put_be n v) = v mod 2 ^ (8 * Z.of_nat n)) as -> by by apply Z.mod_small.
  clear Hv. induction n as [|n IH]; [by rewrite Z.mod_1_r|].
  cbn [put_be]. change (?x :: ?l) with ([x] ++ l). rewrite be_app, IH. autorewrite with vedetta. cbn [be fold_left].
  change (be [?x]) with (0 * 256 + x). set (k := 8 * Z.of_nat n).
  replace (8 * Z.of_nat (S n)) with (k + 8) by lia.
  rewrite Z.pow_add_r, Z.rem_mul_r by lia. change (2 ^ 8) with 256. lia.
Qed.

Lemma len_BoxTypes : len BoxTypeTfhd = 4 /\ len BoxTypeTfdt = 4 /\ len BoxTypeMfhd = 4 /\ len BoxTypeTraf = 4 /\ len BoxTypeMoov = 4 /\ len BoxTypeMvhd = 4 /\
  len BoxTypeMoof = 4.
Proof. done. Qed.

(** Replaces or reads bytes after a prefix given piecewise. *)
Ltac at_prefix := autorewrite with vedetta; pose proof len_BoxTypes; cbn [Z.of_nat Pos.of_succ_nat Pos.succ]; lia.

(** ** Boxes *)

(** A box as its writer lays it out. *)
Definition enc_box (ty payload : bytes) : bytes := put_be 4 (8 + len payload) ++ ty ++ payload.

Lemma len_enc_box ty payload : length ty = 4%nat -> len (enc_box ty payload) = 8 + len payload.
Proof. intros Ht. unfold enc_box. autorewrite with vedetta. unfold len at 1. rewrite Ht. lia. Qed.

Lemma box_at_enc pre ty payload post i :
  i = len pre -> length ty = 4%nat -> 8 + len payload < 2 ^ 32 ->
  box_at (pre ++ enc_box ty payload ++ post) i = Some (8 + len payload, ty).
Proof.
  intros -> Ht Hlt. pose proof (blen_nonneg payload) as Hp. pose proof (blen_nonneg pre). pose proof (blen_nonneg post).
  assert (len ty = 4) as Hl by (unfold len; lia). unfold box_at.
  assert (len (pre ++ enc_box ty payload ++ post) = len pre + (8 + len payload) + len post) as ->.
  { autorewrite with vedetta. rewrite len_enc_box by done. lia. }
  destruct (Z.ltb_spec (len pre + (8 + len payload) + len post) (len pre + 8)); [lia|].
  unfold enc_box. rewrite <- !app_assoc.
  rewrite (slice_app pre (put_be 4 (8 + len payload))), be_put_be by (autorewrite with vedetta; cbn; lia).
  destruct (Z.ltb_spec (8 + len payload) 8); [lia|]. cbn [orb].
  destruct (Z.ltb_spec (len pre + (8 + len payload) + len post) (len pre + (8 + len payload))); [lia|].
  do 2 f_equal. rewrite (app_assoc pre). apply slice_app; autorewrite with vedetta; cbn; lia.
Qed.

Lemma box_at_end data : box_at data (len data) = None.
Proof. unfold box_at. destruct (Z.ltb_spec (len data) (len data + 8)); [done|lia]. Qed.

(** ** The loops over boxes *)

Section boxes.
Context {B : Type} (ty payload : B -> bytes) (upd : B -> B).

Definition enc (b : B) : bytes := enc_box (ty b) (payload b).
Definition enc_all (bs : list B) : bytes := bs ≫= enc.
Definition fits_box (b : B) : Prop := length (ty b) = 4%nat /\ 8 + len (payload b) < 2 ^ 32.

Lemma enc_all_length bs : Forall fits_box bs -> (8 * length bs <= length (enc_all bs))%nat.
Proof.
  induction 1 as [|b bs [Ht _] _ IH]; [done|]. change (enc_all (b :: bs)) with (enc b ++ enc_all bs). cbn [length]. rewrite length_app.
  pose proof (len_enc_box (ty b) (payload b) Ht) as Hl. pose proof (blen_nonneg (payload b)). unfold len, enc in *. lia.
Qed.

Lemma enc_all_len_upd bs :
  Forall fits_box bs -> Forall (fun b => fits_box (upd b) /\ len (payload (upd b)) = len (payload b)) bs ->
  len (enc_all (upd <$> bs)) = len (enc_all bs).
Proof.
  induction 1 as [|b bs [Ht _] _ IH]; [done|]. intros [[[Ht' _] Hl] Hupd]%Forall_cons.
  change (enc_all (upd <$> b :: bs)) with (enc (upd b) ++ enc_all (upd <$> bs)).
  change (enc_all (b :: bs)) with (enc b ++ enc_all bs). rewrite !blen_app, IH by done. unfold enc. by rewrite !len_enc_box, Hl.
Qed.

(** Patching each box in place changes each box as its patch does. *)
Lemma patch_boxes_enc patch fuel bs : forall pre,
  Forall fits_box bs -> Forall (fun b => fits_box (upd b) /\ len (payload (upd b)) = len (payload b)) bs ->
  (forall pre' b post, b ∈ bs -> patch (pre' ++ enc b ++ post) (len pre') (8 + len (payload b)) (ty b) = pre' ++ enc (upd b) ++ post) ->
  (length bs <= fuel)%nat ->
  patch_boxes patch fuel (pre ++ enc_all bs) (len pre) = pre ++ enc_all (upd <$> bs).
Proof.
  revert bs. induction fuel as [|fuel IH]; intros bs pre Hfit Hupd Hp Hlen; [by destruct bs; cbn in Hlen; [|lia]|].
  destruct bs as [|b bs]; cbn [patch_boxes].
  { unfold enc_all. cbn. rewrite app_nil_r. by rewrite box_at_end. }
  apply Forall_cons in Hfit as [[Ht Hb] Hfit]. apply Forall_cons in Hupd as [[[Ht' _] Hl] Hupd].
  change (enc_all (b :: bs)) with (enc b ++ enc_all bs). unfold enc at 1. rewrite box_at_enc by done.
  rewrite (Hp pre b (enc_all bs)) by by left. change (enc_all (upd <$> b :: bs)) with (enc (upd b) ++ enc_all (upd <$> bs)).
  rewrite app_assoc. replace (len pre + (8 + len (payload b))) with (len (pre ++ enc (upd b))).
  - rewrite IH; [by rewrite app_assoc|done|done| |cbn in Hlen; lia]. intros; apply Hp. by right.
  - rewrite blen_app. unfold enc. rewrite len_enc_box by done. lia.
Qed.
End boxes.

(** ** A fragment's header *)

(** The boxes of a traf: a track header, a decode time of either width, or any other. *)
Inductive TrafBox :=
| Tfhd (version_flags : bytes) (track : Z) (rest : bytes)
| TfdtV0 (flags : bytes) (time : Z) (rest : bytes)
| TfdtV1 (version : Z) (flags : bytes) (time : Z) (rest : bytes)
| TrafOther (ty payload : bytes).

Definition tb_type (b : TrafBox) : bytes :=
  match b with Tfhd _ _ _ => BoxTypeTfhd | TfdtV0 _ _ _ | TfdtV1 _ _ _ _ => BoxTypeTfdt | TrafOther ty _ => ty end.

Definition tb_payload (b : TrafBox) : bytes :=
  match b with
  | Tfhd vf track rest => vf ++ put_be 4 track ++ rest
  | TfdtV0 flags time rest => [0] ++ flags ++ put_be 4 time ++ rest
  | TfdtV1 version flags time rest => [version] ++ flags ++ put_be 8 time ++ rest
  | TrafOther _ payload => payload
  end.

Definition tb_wf (b : TrafBox) : Prop :=
  fits_box tb_type tb_payload b /\
  match b with
  | Tfhd vf track _ => length vf = 4%nat /\ 0 <= track < 2 ^ 32
  | TfdtV0 flags _ _ => length flags = 3%nat
  | TfdtV1 version flags _ _ => version <> 0 /\ length flags = 3%nat
  | TrafOther ty _ => ty <> BoxTypeTfhd /\ ty <> BoxTypeTfdt
  end.

(** The track a traf is of: what its last track header says. *)
Definition tb_track (t : Z) (b : TrafBox) : Z := match b with Tfhd _ track _ => track | _ => t end.
Definition traf_id (bs : list TrafBox) : Z := fold_left tb_track bs 0.

(** A traf with another decode time; one of version 0 holds 32 bits of it. *)
Definition tb_set_time (time : Z) (b : TrafBox) : TrafBox :=
  match b with
  | TfdtV0 flags _ rest => TfdtV0 flags (u32 time) rest
  | TfdtV1 version flags _ rest => TfdtV1 version flags time rest
  | b => b
  end.

Notation enc_traf := (enc_all tb_type tb_payload).

Lemma traf_track_enc fuel : forall bs pre t,
  Forall tb_wf bs -> (length bs <= fuel)%nat ->
  traf_track fuel (pre ++ enc_traf bs) (len pre) t = fold_left tb_track bs t.
Proof.
  induction fuel as [|fuel IH]; intros bs pre t Hwf Hlen; [destruct bs; [done|cbn [length] in Hlen; lia]|].
  destruct bs as [|b bs]; cbn [traf_track].
  { unfold enc_all. cbn. rewrite app_nil_r. by rewrite box_at_end. }
  apply Forall_cons in Hwf as [[[Ht Hb] Hwf] Hrest].
  change (enc_traf (b :: bs)) with (enc tb_type tb_payload b ++ enc_traf bs). unfold enc at 1. rewrite box_at_enc by done.
  rewrite app_assoc. replace (len pre + (8 + len (tb_payload b))) with (len (pre ++ enc tb_type tb_payload b))
    by (rewrite blen_app; unfold enc; by rewrite len_enc_box).
  rewrite IH by (done || cbn [length] in Hlen; lia). cbn [fold_left]. f_equal. rewrite <- app_assoc.
  destruct b as [vf track rest|flags time rest|version flags time rest|ty payload]; cbn [tb_type tb_track tb_payload] in *;
    try (rewrite bool_decide_eq_false_2; [done|tauto || done]).
  destruct Hwf as [Hvf Htr]. pose proof (blen_nonneg rest). assert (len vf = 4) by (unfold len; lia).
  autorewrite with vedetta. destruct (Z.leb_spec 16 (8 + (len vf + (Z.of_nat 4 + len rest)))); [|lia].
  rewrite bool_decide_eq_true_2 by done. cbn [andb]. unfold enc, enc_box. cbn [tb_type tb_payload].
  rewrite <- !app_assoc. rewrite (app_assoc pre), (app_assoc (pre ++ _)), (app_assoc ((pre ++ _) ++ _)).
  rewrite (slice_app _ (put_be 4 track)); [apply be_put_be; cbn; lia|at_prefix..].
Qed.

Lemma patch_tfdt_enc time pre b post :
  tb_wf b ->
  patch_tfdt time (pre ++ enc tb_type tb_payload b ++ post) (len pre) (8 + len (tb_payload b)) (tb_type b) =
  pre ++ enc tb_type tb_payload (tb_set_time time b) ++ post.
Proof.
  intros [_ Hwf]. unfold patch_tfdt, enc, enc_box.
  destruct b as [vf track rest|flags t rest|version flags t rest|ty payload]; cbn [tb_type tb_payload tb_set_time] in *;
    try (rewrite bool_decide_eq_false_2 by (done || tauto); done).
  - assert (len flags = 3) by (unfold len; lia). pose proof (blen_nonneg rest). rewrite bool_decide_eq_true_2 by done.
    rewrite (proj2 (Z.leb_le 16 _)) by at_prefix. cbn [andb].
    rewrite <- !app_assoc. rewrite (app_assoc pre), (app_assoc (pre ++ _)).
    rewrite (slice_app _ [0]) by at_prefix. change (be [0] =? 0) with true. cbn iota.
    rewrite (app_assoc ((pre ++ _) ++ _)), (app_assoc (((pre ++ _) ++ _) ++ _)).
    rewrite (overlay_app _ (put_be 4 t)) by (rewrite ?length_put_be; done || at_prefix).
    autorewrite with vedetta. by rewrite <- !app_assoc.
  - destruct Hwf as [Hv Hf]. assert (len flags = 3) by (unfold len; lia). pose proof (blen_nonneg rest).
    rewrite bool_decide_eq_true_2 by done. rewrite (proj2 (Z.leb_le 16 _)) by at_prefix. cbn [andb].
    rewrite <- !app_assoc. rewrite (app_assoc pre), (app_assoc (pre ++ _)).
    rewrite (slice_app _ [version]) by at_prefix. change (be [version]) with version.
    rewrite (proj2 (Z.eqb_neq version 0)) by done. rewrite (proj2 (Z.leb_le 20 _)) by at_prefix.
    rewrite (app_assoc ((pre ++ _) ++ _)), (app_assoc (((pre ++ _) ++ _) ++ _)).
    rewrite (overlay_app _ (put_be 8 t)) by (rewrite ?length_put_be; done || at_prefix).
    autorewrite with vedetta. by rewrite <- !app_assoc.
Qed.

Lemma tb_set_time_fits time b : tb_wf b ->
  fits_box tb_type tb_payload (tb_set_time time b) /\ len (tb_payload (tb_set_time time b)) = len (tb_payload b).
Proof.
  intros [[Ht Hl] _]. unfold fits_box. destruct b; cbn [tb_set_time tb_type tb_payload] in *; autorewrite with vedetta in *; done.
Qed.

Lemma tb_wf_fits bs : Forall tb_wf bs -> Forall (fits_box tb_type tb_payload) bs.
Proof. intros Hwf. eapply Forall_impl; [exact Hwf|]. by intros b []. Qed.

Lemma length_len (a b : bytes) : len a = len b -> length a = length b.
Proof. unfold len. lia. Qed.

Lemma enc_all_nat bs : Forall tb_wf bs -> (length bs <= length (enc_traf bs))%nat.
Proof. intros Hwf. pose proof (enc_all_length _ _ _ (tb_wf_fits _ Hwf)). lia. Qed.

Lemma patchTraf_enc bs times :
  Forall tb_wf bs ->
  patchTraf (enc_traf bs) times = enc_traf (match times !! traf_id bs with Some t => tb_set_time t <$> bs | None => bs end).
Proof.
  intros Hwf. pose proof (enc_all_nat bs Hwf) as Hlen. unfold patchTraf.
  pose proof (traf_track_enc (length (enc_traf bs)) bs [] 0 Hwf Hlen) as Ht. cbn [app] in Ht. change (len []) with 0 in Ht. rewrite Ht.
  fold (traf_id bs). destruct (times !! traf_id bs) as [t|]; [|done].
  pose proof (patch_boxes_enc tb_type tb_payload (tb_set_time t) (patch_tfdt t) (length (enc_traf bs)) bs []) as Hp.
  cbn [app] in Hp. change (len []) with 0 in Hp. apply Hp; [by apply tb_wf_fits| | |done].
  - eapply Forall_impl; [exact Hwf|]. intros b Hb. by apply tb_set_time_fits.
  - intros pre b post Hb. apply patch_tfdt_enc. rewrite Forall_forall in Hwf. by apply Hwf.
Qed.

(** The boxes of a moof. *)
Inductive MoofBox :=
| Mfhd (version_flags : bytes) (seqNum : Z) (rest : bytes)
| Traf (boxes : list TrafBox)
| MoofOther (ty payload : bytes).

Definition mb_type (b : MoofBox) : bytes :=
  match b with Mfhd _ _ _ => BoxTypeMfhd | Traf _ => BoxTypeTraf | MoofOther ty _ => ty end.

Definition mb_payload (b : MoofBox) : bytes :=
  match b with
  | Mfhd vf seqNum rest => vf ++ put_be 4 seqNum ++ rest
  | Traf bs => enc_traf bs
  | MoofOther _ payload => payload
  end.

Definition mb_wf (b : MoofBox) : Prop :=
  fits_box mb_type mb_payload b /\
  match b with
  | Mfhd vf _ _ => length vf = 4%nat
  | Traf bs => Forall tb_wf bs
  | MoofOther ty _ => ty <> BoxTypeMfhd /\ ty <> BoxTypeTraf
  end.

(** The header with another sequence number, each traf placed at the time given for
    its track; a traf of a track with no time given stays. *)
Definition mb_patch (seqNum : Z) (times : gmap Z Z) (b : MoofBox) : MoofBox :=
  match b with
  | Mfhd vf _ rest => Mfhd vf seqNum rest
  | Traf bs => Traf (match times !! traf_id bs with Some t => tb_set_time t <$> bs | None => bs end)
  | b => b
  end.

Notation enc_moof := (enc_all mb_type mb_payload).

Lemma enc_traf_set_time_len t bs : Forall tb_wf bs -> len (enc_traf (tb_set_time t <$> bs)) = len (enc_traf bs).
Proof.
  intros Hwf. apply enc_all_len_upd; [by apply tb_wf_fits|]. eapply Forall_impl; [exact Hwf|]. intros b. apply tb_set_time_fits.
Qed.

Lemma mb_patch_fits seqNum times b : mb_wf b ->
  fits_box mb_type mb_payload (mb_patch seqNum times b) /\ len (mb_payload (mb_patch seqNum times b)) = len (mb_payload b).
Proof.
  intros [[Ht Hl] Hwf]. unfold fits_box. destruct b as [vf s rest|bs|ty payload]; cbn [mb_patch mb_type mb_payload] in *.
  - autorewrite with vedetta in *. done.
  - destruct (times !! traf_id bs) as [t|]; [|done]. by rewrite enc_traf_set_time_len.
  - done.
Qed.

Lemma patch_box_enc seqNum times pre b post :
  mb_wf b ->
  patch_box seqNum times (pre ++ enc mb_type mb_payload b ++ post) (len pre) (8 + len (mb_payload b)) (mb_type b) =
  pre ++ enc mb_type mb_payload (mb_patch seqNum times b) ++ post.
Proof.
  intros Hb. pose proof (mb_patch_fits seqNum times b Hb) as [_ Hlen]. destruct Hb as [_ Hwf]. unfold patch_box, enc, enc_box.
  destruct b as [vf s rest|bs|ty payload]; cbn [mb_type mb_payload mb_patch] in *.
  - assert (len vf = 4) by (unfold len; lia). pose proof (blen_nonneg rest). rewrite bool_decide_eq_true_2 by done.
    rewrite (proj2 (Z.leb_le 16 _)) by at_prefix. rewrite <- !app_assoc.
    rewrite (app_assoc pre), (app_assoc (pre ++ _)), (app_assoc ((pre ++ _) ++ _)).
    rewrite (overlay_app _ (put_be 4 s)) by (rewrite ?length_put_be; done || at_prefix).
    autorewrite with vedetta. by rewrite <- !app_assoc.
  - rewrite bool_decide_eq_false_2, bool_decide_eq_true_2 by done. rewrite <- !app_assoc.
    rewrite (app_assoc pre), (app_assoc (pre ++ _)). rewrite (slice_app _ (enc_traf bs)) by at_prefix.
    rewrite patchTraf_enc by done. rewrite overlay_app by (by apply length_len || at_prefix).
    rewrite Hlen. by rewrite <- !app_assoc.
  - rewrite !bool_decide_eq_false_2 by tauto. done.
Qed.

(** Rewriting a fragment's header changes what it means to and nothing else.  For a
    moof laid out as its boxes, whatever else they hold, the patched bytes are those of
    the same boxes with the new sequence number, each traf's decode time replaced by
    the one of its own track (its low 32 bits where the box holds no more), and a traf
    whose track has none left as it is; no other byte moves. *)
Theorem patchMoof_exact boxes seqNum times :
  Forall mb_wf boxes ->
  patchMoof (enc_box BoxTypeMoof (enc_moof boxes)) seqNum times =
  enc_box BoxTypeMoof (enc_moof (mb_patch seqNum times <$> boxes)).
Proof.
  intros Hwf. assert (Forall (fits_box mb_type mb_payload) boxes) as Hfit by (eapply Forall_impl; [exact Hwf|]; by intros b []).
  assert (Forall (fun b => fits_box mb_type mb_payload (mb_patch seqNum times b) /\
    len (mb_payload (mb_patch seqNum times b)) = len (mb_payload b)) boxes) as Hupd
    by (eapply Forall_impl; [exact Hwf|]; intros b; apply mb_patch_fits).
  pose proof (enc_all_len_upd _ _ _ _ Hfit Hupd) as Hlen.
  unfold patchMoof, enc_box. rewrite Hlen, !app_assoc.
  set (pre := put_be 4 (8 + len (enc_moof boxes)) ++ BoxTypeMoof). replace 8 with (len pre) by (subst pre; at_prefix).
  apply patch_boxes_enc; [done|done| |].
  - intros pre' b post Hb. apply patch_box_enc. rewrite Forall_forall in Hwf. by apply Hwf.
  - pose proof (enc_all_length _ _ _ Hfit). rewrite length_app. lia.
Qed.

(** ** Parameter sets in a sample *)

(** NAL units as a sample holds them, each after its length. *)
Definition enc_nal (n : nalu) : bytes := put_be 4 (len n) ++ n.
Definition avcc (nals : list nalu) : bytes := nals ≫= enc_nal.

Definition param_set (n : nalu) : bool := isType n NALUTypeSPS || isType n NALUTypePPS.

Definition nal_ok (n : nalu) : Prop := n <> [] /\ len n < 2 ^ 32.

Lemma nal_type_at pre n post i j :
  n <> [] -> i = len pre -> j = len pre + 1 -> is_param_set (Z.land (be (slice (pre ++ n ++ post) i j)) 31) = param_set n.
Proof.
  destruct n as [|b n]; [done|]. intros _ -> ->. change (b :: n) with ([b] ++ n). rewrite <- app_assoc, slice_app by at_prefix. done.
Qed.

Lemma strip_loop_avcc fuel : forall nals pre cleaned,
  Forall nal_ok nals -> (length nals <= fuel)%nat ->
  strip_loop fuel (pre ++ avcc nals) (len pre) cleaned = cleaned ++ avcc (filter (fun n => param_set n = false) nals).
Proof.
  induction fuel as [|fuel IH]; intros nals pre cleaned Hok Hlen.
  { destruct nals; [cbn; by rewrite app_nil_r|cbn [length] in Hlen; lia]. }
  destruct nals as [|n nals]; cbn [strip_loop].
  { unfold avcc. cbn. rewrite !app_nil_r. destruct (Z.leb_spec (len pre) (len pre + 4)); [done|lia]. }
  apply Forall_cons in Hok as [[Hne Hn] Hok]. change (avcc (n :: nals)) with (enc_nal n ++ avcc nals). unfold enc_nal.
  assert (1 <= len n) as H1 by (destruct n; [done|]; rewrite blen_cons; pose proof (blen_nonneg n); lia).
  pose proof (blen_nonneg (avcc nals)). rewrite <- !app_assoc.
  destruct (Z.leb_spec (len (pre ++ put_be 4 (len n) ++ n ++ avcc nals)) (len pre + 4)) as [Hc|_].
  { exfalso. revert Hc. at_prefix. }
  rewrite (slice_app pre (put_be 4 (len n))), be_put_be by (at_prefix || (cbn; lia)).
  destruct (Z.ltb_spec (len (pre ++ put_be 4 (len n) ++ n ++ avcc nals)) (len pre + 4 + len n)) as [Hc|_].
  { exfalso. revert Hc. at_prefix. }
  assert (len pre + 4 = len (pre ++ put_be 4 (len n))) as Hp by at_prefix.
  rewrite (app_assoc pre), nal_type_at, Hp by (done || at_prefix). rewrite filter_cons.
  assert (slice ((pre ++ put_be 4 (len n)) ++ n ++ avcc nals) (len pre) (len (pre ++ put_be 4 (len n)) + len n) = enc_nal n) as ->.
  { rewrite <- app_assoc, (app_assoc (put_be _ _)). apply slice_app; unfold enc_nal; at_prefix. }
  replace (len (pre ++ put_be 4 (len n)) + len n) with (len (pre ++ enc_nal n)) by (unfold enc_nal; at_prefix).
  rewrite app_assoc. replace ((pre ++ put_be 4 (len n)) ++ n) with (pre ++ enc_nal n) by (unfold enc_nal; by rewrite app_assoc).
  rewrite IH by (done || cbn [length] in Hlen; lia).
  destruct (param_set n); [by rewrite decide_False|]. rewrite decide_True by done. by rewrite <- app_assoc.
Qed.

Lemma avcc_nil nals : Forall nal_ok nals -> avcc nals = [] <-> nals = [].
Proof.
  intros Hok. split; [|by intros ->]. destruct nals as [|n nals]; [done|]. apply Forall_cons in Hok as [[Hne _] _].
  by destruct n.
Qed.

(** The parameter sets a camera repeats inside a sample are taken out of it.  A
    sample whose first NAL unit is a parameter set keeps its other NAL units, in
    order and byte for byte, unless that would leave none; any other sample is served
    as it is. *)
Theorem strip_sample_exact nals :
  Forall nal_ok nals ->
  strip_sample (avcc nals) =
  match nals with
  | n :: _ => if param_set n && existsb (fun n => negb (param_set n)) nals
              then avcc (filter (fun n => param_set n = false) nals) else avcc nals
  | [] => []
  end.
Proof.
  intros Hok. destruct nals as [|n nals]; [done|]. unfold strip_sample.
  assert (5 <= len (avcc (n :: nals))) as Hlen.
  { apply Forall_cons in Hok as [[Hne _] _]. change (avcc (n :: nals)) with (enc_nal n ++ avcc nals). unfold enc_nal.
    destruct n; [done|]. pose proof (blen_nonneg n). pose proof (blen_nonneg (avcc nals)). at_prefix. }
  destruct (Z.ltb_spec (len (avcc (n :: nals))) 5); [lia|].
  assert (is_param_set (Z.land (be (slice (avcc (n :: nals)) 4 5)) 31) = param_set n) as ->.
  { apply Forall_cons in Hok as [[Hne _] _]. rewrite <- (nal_type_at (put_be 4 (len n)) n (avcc nals) 4 5 Hne) by at_prefix.
    change (avcc (n :: nals)) with (enc_nal n ++ avcc nals). unfold enc_nal. by rewrite <- app_assoc. }
  destruct (param_set n) eqn:En; cbn [negb andb]; [|done].
  pose proof (strip_loop_avcc (length (avcc (n :: nals))) (n :: nals) [] [] Hok) as Hs.
  cbn [app] in Hs. change (len []) with 0 in Hs. rewrite Hs.
  2: { clear -Hok. induction Hok as [|m l [Hm _] _ IH]; [done|]. change (avcc (m :: l)) with (enc_nal m ++ avcc l).
       rewrite length_app. cbn [length]. destruct m; [done|]. unfold enc_nal. rewrite length_app, length_put_be. cbn [length]. lia. }
  destruct (existsb (fun n => negb (param_set n)) (n :: nals)) eqn:Ex.
  - apply existsb_exists in Ex as (m & Hm%list_elem_of_In & Hmp%negb_true_iff).
    destruct (avcc (filter _ (n :: nals))) eqn:Ea; [|done]. apply avcc_nil in Ea.
    + assert (m ∈ filter (fun n => param_set n = false) (n :: nals)) as Hin by by apply list_elem_of_filter.
      rewrite Ea in Hin. by apply elem_of_nil in Hin.
    + apply Forall_forall. intros x [_ Hx]%list_elem_of_filter. rewrite Forall_forall in Hok. by apply Hok.
  - assert (filter (fun n => param_set n = false) (n :: nals) = []) as ->; [|done].
    apply elem_of_nil_inv. intros m [Hmp Hm%list_elem_of_In]%list_elem_of_filter.
    assert (existsb (fun n => negb (param_set n)) (n :: nals) = true) as E; [|congruence].
    apply existsb_exists. exists m. by rewrite Hmp.
Qed.

(** ** The movie duration *)

Lemma ReadFull_app pre b post pos n :
  pos = len pre -> n = len b -> ReadFull (pre ++ b ++ post) pos n = Some b.
Proof.
  intros -> ->. unfold ReadFull. pose proof (blen_nonneg pre). pose proof (blen_nonneg post).
  rewrite (proj2 (Z.leb_le 0 (len pre))), (proj2 (Z.leb_le (len pre + len b) _)) by at_prefix. cbn [andb]. f_equal.
  by apply slice_app.
Qed.

(** A box header, and the position after it, at the front of what follows [pre]. *)
Lemma header_at pre ty payload post :
  length ty = 4%nat -> 8 + len payload < 2 ^ 32 ->
  exists h, ReadFull (pre ++ enc_box ty payload ++ post) (len pre) 8 = Some h /\
    be (slice h 0 4) = 8 + len payload /\ slice h 4 8 = ty.
Proof.
  intros Ht Hl. assert (len ty = 4) by (unfold len; lia). pose proof (blen_nonneg payload). exists (put_be 4 (8 + len payload) ++ ty).
  unfold enc_box. rewrite <- !app_assoc, (app_assoc (put_be _ _)). split_and!.
  - apply ReadFull_app; at_prefix.
  - change (put_be 4 (8 + len payload) ++ ty) with ([] ++ put_be 4 (8 + len payload) ++ ty). rewrite slice_app, be_put_be by (at_prefix || (cbn; lia)). done.
  - rewrite <- (app_nil_r (_ ++ ty)), <- app_assoc. apply slice_app; at_prefix.
Qed.

(** A box, by its type and payload. *)
Definition RawBox : Type := bytes * bytes.
Notation enc_raw := (enc_all (@fst bytes bytes) (@snd bytes bytes)).
Definition raw_ok (not_type : bytes) (b : RawBox) : Prop := fits_box fst snd b /\ b.1 <> not_type.

Lemma enc_raw_cons b bs : enc_raw (b :: bs) = enc_box b.1 b.2 ++ enc_raw bs.
Proof. done. Qed.

Lemma find_mvhd_enc fuel : forall before pre payload post end_,
  Forall (raw_ok BoxTypeMvhd) before -> 8 + len payload < 2 ^ 32 -> (length before < fuel)%nat ->
  len pre + len (enc_raw before) < end_ -> len (pre ++ enc_raw before ++ enc_box BoxTypeMvhd payload ++ post) <= max_int64 ->
  find_mvhd fuel (pre ++ enc_raw before ++ enc_box BoxTypeMvhd payload ++ post) (len pre) end_ =
  Some (parseMvhd (pre ++ enc_raw before ++ enc_box BoxTypeMvhd payload ++ post) (len pre + len (enc_raw before) + 8)).
Proof.
  induction fuel as [|fuel IH]; intros before pre payload post end_ Hok Hp Hlen Hend Hmax; [lia|]. cbn [find_mvhd].
  pose proof (blen_nonneg (enc_raw before)). destruct (Z.leb_spec end_ (len pre)); [lia|].
  destruct before as [|b before].
  - change (enc_raw []) with (@nil Z). cbn [app].
    destruct (header_at pre BoxTypeMvhd payload post eq_refl Hp) as (h & -> & -> & ->). pose proof (blen_nonneg payload).
    rewrite (proj2 (Z.eqb_neq (8 + len payload) 1)), bool_decide_eq_true_2 by (done || lia). do 2 f_equal. at_prefix.
  - apply Forall_cons in Hok as [[[Ht Hb] Hne] Hok]. rewrite enc_raw_cons, <- !app_assoc in *.
    destruct (header_at pre b.1 b.2 (enc_raw before ++ enc_box BoxTypeMvhd payload ++ post) Ht Hb) as (h & -> & -> & ->).
    pose proof (blen_nonneg b.2). pose proof (blen_nonneg pre). pose proof (blen_nonneg (enc_raw before ++ enc_box BoxTypeMvhd payload ++ post)).
    rewrite (proj2 (Z.eqb_neq (8 + len b.2) 1)), bool_decide_eq_false_2 by (done || lia).
    assert (len (enc_box b.1 b.2) = 8 + len b.2) as Hbl by by apply len_enc_box.
    unfold seek. replace (len pre + 8 + (8 + len b.2 - 8)) with (len (pre ++ enc_box b.1 b.2)) by (rewrite blen_app, Hbl; lia).
    rewrite !blen_app, Hbl in *. rewrite (proj2 (Z.leb_le 0 _)), (proj2 (Z.leb_le _ max_int64)) by lia. cbn [andb].
    rewrite <- Hbl, <- blen_app, app_assoc. rewrite IH; [|done|done|cbn [length] in Hlen; lia| |].
    + do 2 f_equal. rewrite blen_app. lia.
    + rewrite blen_app. lia.
    + rewrite !blen_app in *. lia.
Qed.

(** What a movie header says, in either version. *)
Inductive Mvhd :=
| MvhdV0 (flags times : bytes) (timescale duration : Z) (rest : bytes)
| MvhdV1 (version : Z) (flags times : bytes) (timescale duration : Z) (rest : bytes).

Definition enc_mvhd (m : Mvhd) : bytes :=
  match m with
  | MvhdV0 flags times ts d rest => [0] ++ flags ++ (times ++ put_be 4 ts ++ put_be 4 d) ++ rest
  | MvhdV1 v flags times ts d rest => [v] ++ flags ++ (times ++ put_be 4 ts ++ put_be 8 d) ++ rest
  end.

Definition mvhd_ok (m : Mvhd) : Prop :=
  8 + len (enc_mvhd m) < 2 ^ 32 /\
  match m with
  | MvhdV0 flags times ts d _ => length flags = 3%nat /\ length times = 8%nat /\ 0 <= ts < 2 ^ 32 /\ 0 <= d < 2 ^ 32
  | MvhdV1 v flags times ts d _ => v <> 0 /\ length flags = 3%nat /\ length times = 16%nat /\ 0 <= ts < 2 ^ 32 /\ 0 <= d < 2 ^ 64
  end.

Definition mvhd_duration (m : Mvhd) : Z :=
  match m with
  | MvhdV0 _ _ ts d _ | MvhdV1 _ _ _ ts d _ => if ts =? 0 then 0 else ticks_duration d ts
  end.

Lemma parse_mvhd_enc pre m post pos :
  mvhd_ok m -> pos = len pre -> parseMvhd (pre ++ enc_mvhd m ++ post) pos = Ok (mvhd_duration m).
Proof.
  intros [_ Hm] ->. unfold parseMvhd. destruct m as [flags times ts d rest|v flags times ts d rest]; cbn [enc_mvhd mvhd_duration].
  - destruct Hm as (Hf & Ht & Hts & Hd). assert (len flags = 3 /\ len times = 8) as [Hf' Ht'] by (unfold len; lia).
    rewrite <- !app_assoc. rewrite (ReadFull_app pre [0]) by at_prefix. rewrite (app_assoc pre).
    rewrite (ReadFull_app _ flags) by at_prefix. change (be [0] =? 0) with true. cbn iota.
    rewrite (app_assoc (pre ++ [0])), (app_assoc times), (app_assoc (times ++ put_be 4 ts)).
    rewrite (ReadFull_app _ ((times ++ put_be 4 ts) ++ put_be 4 d)) by at_prefix.
    rewrite <- (app_assoc times), (slice_app times), be_put_be by (at_prefix || (cbn; lia)).
    destruct (ts =? 0); [done|]. rewrite app_assoc, <- (app_nil_r (put_be 4 d)), slice_app, be_put_be by (at_prefix || (cbn; lia)). done.
  - destruct Hm as (Hv & Hf & Ht & Hts & Hd). assert (len flags = 3 /\ len times = 16) as [Hf' Ht'] by (unfold len; lia).
    rewrite <- !app_assoc. rewrite (ReadFull_app pre [v]) by at_prefix. rewrite (app_assoc pre).
    rewrite (ReadFull_app _ flags) by at_prefix. change (be [v]) with v. rewrite (proj2 (Z.eqb_neq v 0)) by done.
    rewrite (app_assoc (pre ++ [v])), (app_assoc times), (app_assoc (times ++ put_be 4 ts)).
    rewrite (ReadFull_app _ ((times ++ put_be 4 ts) ++ put_be 8 d)) by at_prefix.
    rewrite <- (app_assoc times), (slice_app times), be_put_be by (at_prefix || (cbn; lia)).
    destruct (ts =? 0); [done|]. rewrite app_assoc, <- (app_nil_r (put_be 8 d)), slice_app, be_put_be by (at_prefix || (cbn; lia)). done.
Qed.

(** The duration of a movie is what its header says.  In a file of well-formed boxes
    with a [moov] among them and an [mvhd] among the boxes of the [moov], the search
    passes the boxes before each of the two and answers the header's duration over its
    timescale, zero when the timescale is zero; a turn per box passed is enough. *)
Theorem probe_finds_mvhd fuel before inside m after rest :
  Forall (raw_ok BoxTypeMoov) before -> Forall (raw_ok BoxTypeMvhd) inside -> mvhd_ok m ->
  let moov := enc_raw inside ++ enc_box BoxTypeMvhd (enc_mvhd m) ++ after in
  8 + len moov < 2 ^ 32 -> len (enc_raw before ++ enc_box BoxTypeMoov moov ++ rest) <= max_int64 ->
  (length before + length inside + 1 < fuel)%nat ->
  probeMoovDuration fuel (enc_raw before ++ enc_box BoxTypeMoov moov ++ rest) 0 = Some (Ok (mvhd_duration m)).
Proof.
  intros Hb Hi Hm moov Hmoov Hmax Hfuel.
  enough (forall pre, len (pre ++ enc_raw before ++ enc_box BoxTypeMoov moov ++ rest) <= max_int64 ->
    probeMoovDuration fuel (pre ++ enc_raw before ++ enc_box BoxTypeMoov moov ++ rest) (len pre) = Some (Ok (mvhd_duration m))) as H
    by exact (H [] Hmax).
  clear Hmax. revert before Hb Hfuel. induction fuel as [|fuel IH]; intros before Hb Hfuel pre Hmax; [lia|]. cbn [probeMoovDuration].
  destruct before as [|b before].
  - change (enc_raw []) with (@nil Z) in *. cbn [app] in *.
    destruct (header_at pre BoxTypeMoov moov rest eq_refl Hmoov) as (h & -> & -> & ->). pose proof (blen_nonneg moov).
    rewrite (proj2 (Z.eqb_neq (8 + len moov) 1)), (proj2 (Z.eqb_neq (8 + len moov) 0)), bool_decide_eq_true_2 by (done || lia).
    unfold findMvhdDuration. pose proof (blen_nonneg pre). pose proof (blen_nonneg rest).
    assert (len pre + (8 + len moov) + len rest <= max_int64) as Hle.
    { revert Hmax. autorewrite with vedetta. rewrite len_enc_box by done. lia. }
    replace (i64 (len pre + 8 + (8 + len moov - 8))) with (len pre + (8 + len moov)) by (rewrite i64_small; unfold min_int64, max_int64 in *; lia).
    unfold enc_box at 1. rewrite <- !app_assoc. rewrite (app_assoc pre), (app_assoc (pre ++ _)).
    set (pre' := (pre ++ put_be 4 (8 + len moov)) ++ BoxTypeMoov). assert (len pre + 8 = len pre') as Hp by (subst pre'; at_prefix).
    rewrite Hp. unfold moov at 1. rewrite <- !app_assoc. pose proof (blen_nonneg (enc_mvhd m)). pose proof (blen_nonneg after).
    assert (len moov = len (enc_raw inside) + (8 + len (enc_mvhd m)) + len after) as Hlm.
    { unfold moov. autorewrite with vedetta. rewrite len_enc_box by done. lia. }
    rewrite find_mvhd_enc; [|done|apply Hm|cbn [length] in Hfuel; lia|lia|].
    + unfold enc_box. rewrite <- !app_assoc, (app_assoc pre'), (app_assoc (pre' ++ _)), (app_assoc ((pre' ++ _) ++ _)).
      f_equal. apply parse_mvhd_enc; [done|at_prefix].
    + autorewrite with vedetta. rewrite len_enc_box by done. lia.
  - apply Forall_cons in Hb as [[[Ht Hbl] Hne] Hb]. rewrite enc_raw_cons, <- !app_assoc in *.
    destruct (header_at pre b.1 b.2 (enc_raw before ++ enc_box BoxTypeMoov moov ++ rest) Ht Hbl) as (h & -> & -> & ->).
    pose proof (blen_nonneg b.2). pose proof (blen_nonneg pre). pose proof (blen_nonneg (enc_raw before ++ enc_box BoxTypeMoov moov ++ rest)).
    rewrite (proj2 (Z.eqb_neq (8 + len b.2) 1)), (proj2 (Z.eqb_neq (8 + len b.2) 0)), bool_decide_eq_false_2 by (done || lia).
    assert (len (enc_box b.1 b.2) = 8 + len b.2) as Hl by by apply len_enc_box.
    unfold seek. replace (len pre + 8 + (8 + len b.2 - 8)) with (len (pre ++ enc_box b.1 b.2)) by (rewrite blen_app, Hl; lia).
    assert (len (pre ++ enc_box b.1 b.2) <= max_int64) by (rewrite !blen_app in *; lia).
    rewrite (proj2 (Z.leb_le 0 _)), (proj2 (Z.leb_le _ max_int64)) by (done || apply blen_nonneg). cbn [andb].
    rewrite app_assoc in Hmax |- *. apply IH; [done|cbn [length] in Hfuel; lia|done].
Qed.

(** A box of size zero is never passed.  Inside a [moov] such a box sends the search
    back to its own start, as a box of extended size zero does among the outer boxes:
    the search goes round for ever, for any fuel. *)
Theorem probe_stuck_on_empty_box f pos :
  0 <= pos <= max_int64 - 16 ->
  (forall end_ h, pos < end_ -> ReadFull f pos 8 = Some h -> be (slice h 0 4) = 0 -> slice h 4 8 <> BoxTypeMvhd ->
     forall fuel, find_mvhd fuel f pos end_ = None) /\
  (forall h ext, ReadFull f pos 8 = Some h -> be (slice h 0 4) = 1 -> slice h 4 8 <> BoxTypeMoov ->
     ReadFull f (pos + 8) 8 = Some ext -> be ext = 0 ->
     forall fuel, probeMoovDuration fuel f pos = None).
Proof.
  intros Hpos. split.
  - intros end_ h Hend Hh Hsize Hty fuel. induction fuel as [|fuel IH]; [done|]. cbn [find_mvhd].
    destruct (Z.leb_spec end_ pos); [lia|]. rewrite Hh, Hsize. change (0 =? 1) with false. cbn iota.
    rewrite bool_decide_eq_false_2 by done. unfold seek. replace (pos + 8 + (0 - 8)) with pos by lia.
    rewrite (proj2 (Z.leb_le 0 pos)), (proj2 (Z.leb_le pos max_int64)) by lia. exact IH.
  - intros h ext Hh Hsize Hty Hext Hz fuel. induction fuel as [|fuel IH]; [done|]. cbn [probeMoovDuration].
    rewrite Hh, Hsize, Hext, Hz. change (1 =? 1) with true. cbn iota. change (i64 (i64 0 - 16)) with (-16).
    rewrite bool_decide_eq_false_2 by done. unfold seek. replace (pos + 16 + -16) with pos by lia.
    rewrite (proj2 (Z.leb_le 0 pos)), (proj2 (Z.leb_le pos max_int64)) by lia. exact IH.
Qed.

(** ** The initialization boxes *)

(** The scan of the initialization boxes is bounded whatever the file holds.  Each
    turn passes at least eight bytes, so it ends within 2^20 boxes; it reads the
    initialization only from the beginning of the file up to the end of the [moov], at
    most 8 MiB. *)
Theorem readRecordingInit_bounded {Init} (Unmarshal : bytes -> result string Init) f :
  exists r, readRecordingInit Unmarshal (Z.to_nat (2 ^ 20 + 1)) f = Some r /\
    forall init offset, r = Ok (init, offset) ->
      8 <= offset <= init_limit /\ Unmarshal (slice f 0 offset) = Ok init.
Proof.
  unfold readRecordingInit.
  enough (forall fuel offset, 0 <= offset <= init_limit -> init_limit - offset < 8 * Z.of_nat fuel ->
    exists r, init_scan Unmarshal fuel f offset = Some r /\
      forall init offset', r = Ok (init, offset') ->
        offset + 8 <= offset' <= init_limit /\ Unmarshal (slice f 0 offset') = Ok init) as H.
  { destruct (H (Z.to_nat (2 ^ 20 + 1)) 0) as (r & E & Hr); [unfold init_limit; lia|unfold init_limit; lia|].
    exists r. split; [exact E|]. intros init offset Hok. destruct (Hr init offset Hok) as [? ?]. split; [lia|done]. }
  induction fuel as [|fuel IH]; intros offset Ho Hfuel; [lia|]. cbn [init_scan].
  destruct (Z.leb_spec init_limit offset); [by eexists|].
  destruct (ReadFull f offset 8) as [h|]; [|by eexists].
  destruct (if be (slice h 0 4) =? 1 then _ else _) as [[size minSize]|] eqn:Es; [|by eexists].
  destruct ((size <? minSize) || (init_limit - offset <? size)) eqn:Ebad; [by eexists|].
  apply orb_false_iff in Ebad as [H1%Z.ltb_ge H2%Z.ltb_ge].
  assert (8 <= minSize) by (destruct (be (slice h 0 4) =? 1); [destruct (ReadFull f (offset + 8) 8)|]; simplify_eq; lia).
  case_bool_decide.
  - eexists. split; [done|]. intros init offset' E. destruct (Unmarshal _) as [i|] eqn:Eu; [|done]. injection E as <- <-. split; [lia|done].
  - destruct (IH (offset + size)) as (r & -> & Hr); [lia|lia|]. exists r. split; [done|]. intros init offset' E.
    destruct (Hr init offset' E). split; [lia|done].
Qed.

(** ** The seekable buffer *)

(** The position is inside the buffer or at its end. *)
Definition ws_ok (ws : writeSeeker) : Prop := 0 <= ws_pos ws <= len (ws_buf ws).

Lemma overlay_past b p : overlay b (len b) p = b ++ p.
Proof.
  unfold overlay, len. rewrite Nat2Z.id, firstn_all. f_equal. rewrite drop_ge by lia. apply app_nil_r.
Qed.

Lemma len_overlay b i p : 0 <= i -> i + len p <= len b -> len (overlay b i p) = len b.
Proof.
  intros Hi Hle. unfold overlay, len in *. rewrite !length_app, length_take, length_drop. lia.
Qed.

(** The buffer that segments are rendered into is a file until a write crosses its
    end.  A write that stays inside the buffer, or starts at its end, puts its bytes
    where a file would and moves the position past them; a write that starts inside
    and reaches past the end panics.  A seek moves the position, to nothing before the
    start, and fills with zeros up to it. *)
Theorem writeSeeker_is_a_file ws p :
  ws_ok ws ->
  match Write p ws with
  | Some ws' => ws_buf ws' = overlay (ws_buf ws) (ws_pos ws) p /\ ws_pos ws' = ws_pos ws + len p /\ ws_ok ws'
  | None => ws_pos ws < len (ws_buf ws) < ws_pos ws + len p
  end /\
  forall offset whence,
    let target := offset + match whence with SeekStart => 0 | SeekCurrent => ws_pos ws | SeekEnd => len (ws_buf ws) end in
    match Seek offset whence ws with
    | Ok ws' => ws_pos ws' = target /\ ws_ok ws' /\ exists n, ws_buf ws' = ws_buf ws ++ replicate n 0 /\ len (ws_buf ws') = Z.max (len (ws_buf ws)) target
    | Err _ => target < 0
    end.
Proof.
  intros [H0 H1]. split.
  - unfold Write. destruct (Z.ltb_spec (ws_pos ws) (len (ws_buf ws))) as [Hlt|Hge].
    + set (p' := take (Z.to_nat (len (ws_buf ws) - ws_pos ws)) p).
      assert (len p' = Z.min (len (ws_buf ws) - ws_pos ws) (len p)) as Hp by (subst p'; unfold len; rewrite length_take; unfold len in *; lia).
      rewrite len_overlay by lia. destruct (Z.ltb_spec (len (ws_buf ws)) (ws_pos ws + len p)); [lia|].
      assert (p' = p) as -> by (subst p'; apply take_ge; unfold len in *; lia). cbn. split_and!; [done..|].
      unfold ws_ok. cbn. rewrite len_overlay by lia. pose proof (blen_nonneg p). lia.
    + assert (ws_pos ws = len (ws_buf ws)) as -> by lia. cbn. rewrite overlay_past. split_and!; [done..|].
      unfold ws_ok. cbn. rewrite blen_app. pose proof (blen_nonneg p). lia.
  - intros offset whence target. unfold Seek.
    replace (match whence with SeekStart => offset | SeekCurrent => ws_pos ws + offset | SeekEnd => len (ws_buf ws) + offset end)
      with target by (subst target; destruct whence; lia).
    destruct (Z.ltb_spec target 0); [done|]. cbn.
    assert (len (ws_buf ws ++ replicate (Z.to_nat (target - len (ws_buf ws))) 0) = Z.max (len (ws_buf ws)) target) as E.
    { rewrite blen_app. unfold len at 2. rewrite length_replicate. pose proof (blen_nonneg (ws_buf ws)). lia. }
    split_and!; [done| |by eexists]. unfold ws_ok. cbn. rewrite E. lia.
Qed.

(** ** Parts of one track *)

(** The parts served to a browser hold one track each, in the order of the parts
    read and of their tracks: every track is served once, under the sequence number of
    its part, at the time and with the sample durations it was recorded with, its
    video samples without repeated parameter sets. *)
Theorem single_track_parts_exact isVideo parts :
  Forall (fun p => length (pa_Tracks p) <> 0%nat -> length (pa_Tracks p) = 1%nat) (single_track_parts isVideo parts) /\
  (single_track_parts isVideo parts ≫= fun p => (fun tr => (pa_SequenceNumber p, tr)) <$> pa_Tracks p) =
  (parts ≫= fun p => (fun tr => (pa_SequenceNumber p, if isVideo (pt_ID tr) then stripInBandParamSets tr else tr)) <$> pa_Tracks p).
Proof.
  split.
  - apply Forall_forall. intros q Hq Hn. unfold single_track_parts in Hq. apply list_elem_of_bind in Hq as (p & Hq & Hp). unfold split_part in Hq.
    set (tracks := (fun tr => if isVideo (pt_ID tr) then stripInBandParamSets tr else tr) <$> pa_Tracks p) in Hq.
    destruct tracks as [|t1 [|t2 l]]; try (apply list_elem_of_singleton in Hq as ->; done).
    apply list_elem_of_fmap in Hq as (tr & -> & _). done.
  - induction parts as [|p parts IH]; [done|].
    change (single_track_parts isVideo (p :: parts)) with (split_part isVideo p ++ single_track_parts isVideo parts).
    rewrite bind_app, IH. cbn [mbind list_bind]. f_equal. unfold split_part.
    set (tracks := (fun tr => if isVideo (pt_ID tr) then stripInBandParamSets tr else tr) <$> pa_Tracks p).
    transitivity ((fun tr => (pa_SequenceNumber p, tr)) <$> tracks); [|subst tracks; by rewrite <- list_fmap_compose].
    destruct tracks as [|t1 [|t2 l]]; [done|done|]. generalize (t1 :: t2 :: l). clear. intros l.
    induction l as [|t l IH]; [done|]. cbn. by f_equal.
Qed.

(** ** Instances *)

(** A fragment with video in a 64-bit and audio in a 32-bit decode time, and a box of
    another kind in between. *)
Definition sample_moof : list MoofBox :=
  [Mfhd [0; 0; 0; 0] 7 []; Traf [Tfhd [0; 2; 0; 0] 1 []; TfdtV1 1 [0; 0; 0] 900000 []; TrafOther (fourcc "trun") [1; 2; 3]];
   MoofOther (fourcc "free") [9]; Traf [Tfhd [0; 2; 0; 0] 2 []; TfdtV0 [0; 0; 0] 480000 []]; Traf [Tfhd [0; 2; 0; 0] 3 []; TfdtV0 [0; 0; 0] 5 []]].

Lemma sample_moof_ok : Forall mb_wf sample_moof.
Proof. repeat constructor; try (vm_compute; done); intros ?; vm_compute in *; discriminate. Qed.

Lemma patchMoof_exact_witness :
  patchMoof (enc_box BoxTypeMoof (enc_moof sample_moof)) 1 (list_to_map [(1, 2 ^ 33); (2, 2 ^ 32 + 3)]) =
  enc_box BoxTypeMoof (enc_moof
    [Mfhd [0; 0; 0; 0] 1 []; Traf [Tfhd [0; 2; 0; 0] 1 []; TfdtV1 1 [0; 0; 0] (2 ^ 33) []; TrafOther (fourcc "trun") [1; 2; 3]];
     MoofOther (fourcc "free") [9]; Traf [Tfhd [0; 2; 0; 0] 2 []; TfdtV0 [0; 0; 0] 3 []]; Traf [Tfhd [0; 2; 0; 0] 3 []; TfdtV0 [0; 0; 0] 5 []]]).
Proof. rewrite (patchMoof_exact _ _ _ sample_moof_ok). by vm_compute. Defined.

Lemma strip_sample_exact_witness :
  strip_sample (avcc [[0x67; 1]; [0x68; 2]; [0x65; 3; 4]]) = avcc [[0x65; 3; 4]].
Proof. rewrite strip_sample_exact; [by vm_compute|]. repeat constructor; done. Defined.

Definition sample_mvhd : Mvhd := MvhdV0 [0; 0; 0] [0; 0; 0; 0; 0; 0; 0; 0] 1000 2500 [1].

Lemma probe_finds_mvhd_witness :
  probeMoovDuration 4 (enc_raw [(fourcc "ftyp", [1; 2])] ++
    enc_box BoxTypeMoov (enc_raw [(fourcc "free", [])] ++ enc_box BoxTypeMvhd (enc_mvhd sample_mvhd) ++ []) ++ []) 0 =
  Some (Ok (2 * Second + 500 * Millisecond)).
Proof.
  rewrite probe_finds_mvhd; [by vm_compute|..].
  - repeat constructor; vm_compute; discriminate.
  - repeat constructor; vm_compute; discriminate.
  - split; [by vm_compute|]. cbn. lia.
  - by vm_compute.
  - by vm_compute.
  - cbn. lia.
Defined.

(** A [moov] whose first box says it has no size. *)
Definition empty_box_file : bytes := enc_box BoxTypeMoov (put_be 4 0 ++ fourcc "free" ++ enc_box BoxTypeMvhd (enc_mvhd sample_mvhd)).

Lemma probe_stuck_on_empty_box_witness : probeMoovDuration 41 empty_box_file 0 = None.
Proof.
  assert (find_mvhd 40 empty_box_file 8 (len empty_box_file) = None) as E.
  { refine (proj1 (probe_stuck_on_empty_box empty_box_file 8 _) (len empty_box_file) (put_be 4 0 ++ fourcc "free") _ _ _ _ 40%nat).
    - done.
    - by vm_compute.
    - by vm_compute.
    - by vm_compute.
    - vm_compute. discriminate. }
  cbn [probeMoovDuration]. exact E.
Defined.

Lemma writeSeeker_is_a_file_witness :
  Write [7; 8] (mkWriteSeeker [1; 2; 3] 2) = None /\ Write [7] (mkWriteSeeker [1; 2; 3] 2) = Some (mkWriteSeeker [1; 2; 7] 3).
Proof.
  split; [|by vm_compute].
  destruct (writeSeeker_is_a_file (mkWriteSeeker [1; 2; 3] 2) [7; 8]) as [Hw _]; [by vm_compute|].
  destruct (Write [7; 8] (mkWriteSeeker [1; 2; 3] 2)) as [ws|] eqn:E; [by vm_compute in E|done].
Defined.
