(* ===== verification/Mp4Index.v ===== *)
(** Fragmented MP4 files as playback sees them ([media/mp4reader.go]): the index of
    fragments, the tracks' timelines, trimming, concatenation, and the segments of an
    HLS playlist.

    The reader of boxes is go-mp4's: a parameter ([BoxReader]) that gives the boxes of a
    file and the error its reading ends in.  The order in which Go ranges over a map of
    tracks is a parameter too ([TrackOrder]).  Of a playlist the lines are modelled, not
    their text. *)

From S2P Require Import Prelude Float64 Mp4Bytes.
From Stdlib Require Import SpecFloat.

#[local] Open Scope list_scope.

(** ** What go-mp4 reads *)

Inductive ReadError := EOF | UnexpectedEOF | OtherReadError.

Record TrunEntry := mkTrunEntry { SampleDuration : Z; SampleFlags : Z }.

Inductive BoxContent :=
| Ftyp | Styp | Moov | Trak | Mdia | Moof | Traf | Mdat
| Tkhd (TrackID : Z)
| Mdhd (Timescale : Z)
| Tfhd (TrackID flags DefaultSampleFlags : Z)
| Tfdt (BaseMediaDecodeTime : Z)
| Trun (flags FirstSampleFlags : Z) (Entries : list TrunEntry)
| OtherBox.

(** A box: where it is, what it holds, the error of reading its payload, its children
    and the error their reading ends in. *)
Inductive Box := mkBox (offset size : Z) (content : BoxContent) (payload_error : option ReadError)
  (children : list Box) (children_error : option ReadError).

Class BoxReader := read_boxes : bytes -> list Box * option ReadError.

(** ** The index *)

Record trafEntry := mkTraf { tf_trackID : Z; tf_decodeTime : Z; tf_duration : Z; tf_isSync : bool }.

Record fragment := mkFragment { fr_moofOffset : Z; fr_moofSize : Z; fr_mdatOffset : Z; fr_mdatSize : Z; fr_trafs : list trafEntry }.

Definition traf (f : fragment) (trackID : Z) : option trafEntry := find (fun t => tf_trackID t =? trackID) (fr_trafs f).

Record boxLoc := mkLoc { bl_offset : Z; bl_size : Z }.

(** [ix_currentTraf]: whether there is a current traf; it is the last one of the current
    fragment. *)
Record fmp4Index := mkIndex {
  ix_initBoxes : list boxLoc;
  ix_fragments : list fragment;
  ix_trackTimeScales : gmap Z Z;
  ix_currentTrackID : Z;
  ix_currentFrag : option fragment;
  ix_currentTraf : bool
}.

Definition empty_index : fmp4Index := mkIndex [] [] ∅ 0 None false.

Definition noteInitBox (offset size : Z) (ix : fmp4Index) : fmp4Index :=
  mkIndex (ix_initBoxes ix ++ [mkLoc offset size]) (ix_fragments ix) (ix_trackTimeScales ix) (ix_currentTrackID ix)
    (ix_currentFrag ix) (ix_currentTraf ix).

Definition set_track (id : Z) (ix : fmp4Index) : fmp4Index :=
  mkIndex (ix_initBoxes ix) (ix_fragments ix) (ix_trackTimeScales ix) id (ix_currentFrag ix) (ix_currentTraf ix).

Definition noteTimescale (ts : Z) (ix : fmp4Index) : fmp4Index :=
  if negb (ix_currentTrackID ix =? 0)
  then mkIndex (ix_initBoxes ix) (ix_fragments ix) (<[ix_currentTrackID ix := ts]> (ix_trackTimeScales ix)) (ix_currentTrackID ix)
         (ix_currentFrag ix) (ix_currentTraf ix)
  else ix.

Definition set_frag (f : option fragment) (t : bool) (ix : fmp4Index) : fmp4Index :=
  mkIndex (ix_initBoxes ix) (ix_fragments ix) (ix_trackTimeScales ix) (ix_currentTrackID ix) f t.

Definition beginFragment (offset size : Z) (ix : fmp4Index) : fmp4Index :=
  set_frag (Some (mkFragment offset size 0 0 [])) false ix.

Definition set_trafs (l : list trafEntry) (f : fragment) : fragment :=
  mkFragment (fr_moofOffset f) (fr_moofSize f) (fr_mdatOffset f) (fr_mdatSize f) l.

Definition beginTraf (ix : fmp4Index) : fmp4Index :=
  match ix_currentFrag ix with
  | None => ix
  | Some f => set_frag (Some (set_trafs (fr_trafs f ++ [mkTraf 0 0 0 false]) f)) true ix
  end.

(** A change of the current traf. *)
Definition alter_last {A} (g : A -> A) (l : list A) : list A := alter g (pred (length l)) l.
Definition on_traf (g : trafEntry -> trafEntry) (ix : fmp4Index) : fmp4Index :=
  match ix_currentFrag ix with
  | Some f => set_frag (Some (set_trafs (alter_last g (fr_trafs f)) f)) (ix_currentTraf ix) ix
  | None => ix
  end.

Definition noteTfhd (trackID flags defaults : Z) : trafEntry -> trafEntry := fun t =>
  mkTraf trackID (tf_decodeTime t) (tf_duration t)
    (if negb (Z.land flags 0x20 =? 0) then Z.land defaults 0x10000 =? 0 else true).

Definition noteTfdt (time : Z) : trafEntry -> trafEntry := fun t =>
  mkTraf (tf_trackID t) time (tf_duration t) (tf_isSync t).

Definition totalDur (entries : list TrunEntry) : Z := fold_left (fun d e => u32 (d + SampleDuration e)) entries 0.

Definition noteTrun (flags first : Z) (entries : list TrunEntry) : trafEntry -> trafEntry := fun t =>
  mkTraf (tf_trackID t) (tf_decodeTime t) (u32 (tf_duration t + totalDur entries))
    (if negb (Z.land flags 0x4 =? 0) then Z.land first 0x10000 =? 0
     else if negb (Z.land flags 0x400 =? 0) then
       match entries with e :: _ => Z.land (SampleFlags e) 0x10000 =? 0 | [] => tf_isSync t end
     else tf_isSync t).

Definition endFragment (offset size : Z) (ix : fmp4Index) : fmp4Index :=
  match ix_currentFrag ix with
  | None => ix
  | Some f =>
      mkIndex (ix_initBoxes ix) (ix_fragments ix ++ [mkFragment (fr_moofOffset f) (fr_moofSize f) offset size (fr_trafs f)])
        (ix_trackTimeScales ix) (ix_currentTrackID ix) None false
  end.

(** A payload handler that does nothing outside a traf. *)
Definition in_traf (perr : option ReadError) (g : trafEntry -> trafEntry) (ix : fmp4Index) : fmp4Index * option ReadError :=
  if ix_currentTraf ix then match perr with Some e => (ix, Some e) | None => (on_traf g ix, None) end else (ix, None).

(** The callback of [indexFile] on a box; an expanded box visits its children in order,
    up to the first error. *)
Fixpoint visit (b : Box) (ix : fmp4Index) : fmp4Index * option ReadError :=
  match b with
  | mkBox offset size content perr children cerr =>
      let expand := (fix go (l : list Box) (ix : fmp4Index) : fmp4Index * option ReadError :=
        match l with
        | [] => (ix, cerr)
        | c :: l => match visit c ix with (ix, None) => go l ix | r => r end
        end) children in
      match content with
      | Ftyp | Styp => (noteInitBox offset size ix, None)
      | Moov => expand (noteInitBox offset size ix)
      | Trak => expand (set_track 0 ix)
      | Tkhd id => match perr with Some e => (ix, Some e) | None => (set_track id ix, None) end
      | Mdia => expand ix
      | Mdhd ts => match perr with Some e => (ix, Some e) | None => (noteTimescale ts ix, None) end
      | Moof => expand (beginFragment offset size ix)
      | Traf => expand (beginTraf ix)
      | Tfhd id flags defaults => in_traf perr (noteTfhd id flags defaults) ix
      | Tfdt time => in_traf perr (noteTfdt time) ix
      | Trun flags first entries => in_traf perr (noteTrun flags first entries) ix
      | Mdat => (endFragment offset size ix, None)
      | OtherBox => (ix, None)
      end
  end.

(** Boxes in order, up to the first error or the error the reading ends in. *)
Fixpoint visit_all (l : list Box) (err : option ReadError) (ix : fmp4Index) : fmp4Index * option ReadError :=
  match l with
  | [] => (ix, err)
  | b :: l => match visit b ix with (ix, None) => visit_all l err ix | r => r end
  end.

Class TrackOrder := track_order : gmap Z Z -> list (Z * Z).
Class TrackOrderOk `{TrackOrder} := track_order_perm m : track_order m ≡ₚ map_to_list m.

Section reader.
Context `{BoxReader} `{TrackOrder}.

Definition indexFile (f : bytes) : fmp4Index * option ReadError :=
  let '(boxes, err) := read_boxes f in visit_all boxes err empty_index.

(** ** Timelines *)

Definition scale_or_default (ts : Z) : Z := if ts =? 0 then 90000 else ts.

(** [uint64(d.Seconds() * float64(ts))]; what an [int64] does not hold counts as zero. *)
Definition tick_of (d ts : Z) : Z := default 0 (f64_trunc (fmul (Seconds d) (f64_of_Z ts))).

Definition refTrafForWindow (f : fragment) (videoTrackID : Z) : option trafEntry :=
  match traf f videoTrackID with Some t => Some t | None => head (fr_trafs f) end.

Definition scale_of (scales : gmap Z Z) (id : Z) : Z := default 0 (scales !! id).

(** Whether a fragment ends after [start]. *)
Definition overlaps (videoTrackID : Z) (scales : gmap Z Z) (start : Z) (f : fragment) : bool :=
  match refTrafForWindow f videoTrackID with
  | None => false
  | Some t => tick_of start (scale_or_default (scale_of scales (tf_trackID t))) <? u64 (tf_decodeTime t + tf_duration t)
  end.

Fixpoint find_index {A} (p : A -> bool) (i : nat) (l : list A) : option nat :=
  match l with [] => None | a :: l => if p a then Some i else find_index p (S i) l end.

(** The newest fragment up to [i] whose video opens on a sync sample. *)
Fixpoint sync_before (fragments : list fragment) (videoTrackID : Z) (i : nat) : option nat :=
  let here := match fragments !! i ≫= (fun f => traf f videoTrackID) with Some t => tf_isSync t | None => false end in
  if here then Some i else match i with O => None | S i => sync_before fragments videoTrackID i end.

Definition firstFragmentForStart (fragments : list fragment) (videoTrackID : Z) (scales : gmap Z Z) (start : Z) : nat :=
  match find_index (overlaps videoTrackID scales start) 0 fragments with
  | None => length fragments
  | Some overlap => default overlap (sync_before fragments videoTrackID overlap)
  end.

(** The loop over the tracks, an entry with a larger value replacing the best one. *)
Definition best_track (l : list (Z * Z)) : Z * Z :=
  fold_left (fun best (e : Z * Z) => if best.2 <? e.2 then e else best) l (0, 0).

Definition track_counts (fragments : list fragment) : gmap Z Z :=
  fold_left (fun m t => <[tf_trackID t := default 0 (m !! tf_trackID t) + 1]> m) (fragments ≫= fr_trafs) ∅.

Definition findVideoTrack (fragments : list fragment) (scales : gmap Z Z) : Z :=
  let bestID := (best_track (track_order scales)).1 in
  if negb (bestID =? 0) then bestID else (best_track (track_order (track_counts fragments))).1.

Definition trimTimelineOrigin (fragments : list fragment) (first : nat) (videoID : Z) (scales : gmap Z Z) : Z * Z :=
  match head (omap (fun f => traf f videoID) (drop first fragments)) with
  | Some t => (tf_decodeTime t, scale_of scales videoID)
  | None => (0, 90000)
  end.

Definition adjusted_time (scales : gmap Z Z) (origin originTS offset : Z) (t : trafEntry) : Z :=
  let originTS := scale_or_default originTS in
  let scale := scale_of scales (tf_trackID t) in
  let shift := u64 (origin * scale) / originTS in
  let base := if shift <? tf_decodeTime t then tf_decodeTime t - shift else 0 in
  u64 (base + u64 (offset * scale) / originTS).

Definition adjustedFragmentTimes (f : fragment) (scales : gmap Z Z) (origin originTS offset : Z) : gmap Z Z :=
  fold_left (fun m t => <[tf_trackID t := adjusted_time scales origin originTS offset t]> m) (fr_trafs f) ∅.

(** ** Copying fragments *)

(** What is written, and whether the writing failed. *)
Definition Output : Type := bytes * bool.

Definition then_write (o : Output) (k : bytes -> Output) : Output := if o.2 then o else k o.1.

(** [io.CopyN]: what there is of the bytes, and whether they fell short. *)
Definition CopyN (src : bytes) (offset n : Z) (out : bytes) : Output :=
  let got := slice src offset (offset + n) in (out ++ got, len got <? n).

Definition copyFragmentAdjusted (src : bytes) (f : fragment) (seqNum : Z) (baseTimes : gmap Z Z) (out : bytes) : Output :=
  match ReadFull src (fr_moofOffset f) (fr_moofSize f) with
  | None => (out, true)
  | Some moofData => CopyN src (fr_mdatOffset f) (fr_mdatSize f) (out ++ patchMoof moofData seqNum baseTimes)
  end.

Definition copy_init (src : bytes) (init : list boxLoc) (out : bytes) : Output :=
  fold_left (fun o loc => then_write o (CopyN src (bl_offset loc) (bl_size loc))) init (out, false).

(** The fragments a trim copies: none before [firstIdx], none that has no place on the
    timeline, and with a window none that starts past its end. *)
Definition in_window (videoTrackID : Z) (scales : gmap Z Z) (window : option (Z * Z)) (f : fragment) : bool :=
  match refTrafForWindow f videoTrackID with
  | None => false
  | Some t =>
      match window with
      | None => true
      | Some (start, duration) =>
          let ts := scale_or_default (scale_of scales (tf_trackID t)) in
          tf_decodeTime t <? u64 (tick_of start ts + tick_of duration ts)
      end
  end.

Definition copy_fragments (src : bytes) (fragments : list fragment) (times : fragment -> gmap Z Z) (o : Output) : Output :=
  fst (fold_left (fun (st : Output * Z) f =>
    (then_write st.1 (copyFragmentAdjusted src f st.2 (times f)), u32 (st.2 + 1))) fragments (o, 1)).

Definition trim (window : option (Z * Z)) (start : Z) (src : bytes) : Output :=
  match indexFile src with
  | (_, Some _) => ([], true)
  | (ix, None) =>
      let fragments := ix_fragments ix in
      let scales := ix_trackTimeScales ix in
      let videoTrackID := findVideoTrack fragments scales in
      let firstIdx := firstFragmentForStart fragments videoTrackID scales start in
      let '(origin, originTS) := trimTimelineOrigin fragments firstIdx videoTrackID scales in
      then_write (copy_init src (ix_initBoxes ix) []) (fun out =>
        copy_fragments src (filter (fun f => in_window videoTrackID scales window f = true) (drop firstIdx fragments))
          (fun f => adjustedFragmentTimes f scales origin originTS 0) (out, false))
  end.

Definition TrimMP4 (src : bytes) (start duration : Z) : Output := trim (Some (start, duration)) start src.

Definition TrimMP4ToWriter (src : bytes) (start : Z) : Output := trim None start src.

(** ** Concatenation *)

Record ConcatState := mkConcat {
  cc_out : Output;
  cc_seqNum : Z;
  cc_baseTimes : gmap Z Z;
  cc_videoTimeScale : Z;
  cc_videoTrackID : Z;
  cc_initWritten : bool
}.

(** Extends the timeline of each track of a fragment to its end. *)
Definition extend_times (bases : gmap Z Z) (f : fragment) (global : gmap Z Z) : gmap Z Z :=
  fold_left (fun g t =>
    let end_ := u64 (default 0 (bases !! tf_trackID t) + tf_duration t) in
    if default 0 (g !! tf_trackID t) <? end_ then <[tf_trackID t := end_]> g else g) (fr_trafs f) global.

Definition concat_fragment (src : bytes) (scales : gmap Z Z) (origin originTS fileStart : Z) (st : ConcatState) (f : fragment) : ConcatState :=
  if (cc_out st).2 then st
  else
    let bases := adjustedFragmentTimes f scales origin originTS fileStart in
    let out := copyFragmentAdjusted src f (cc_seqNum st) bases (cc_out st).1 in
    if out.2 then mkConcat out (cc_seqNum st) (cc_baseTimes st) (cc_videoTimeScale st) (cc_videoTrackID st) (cc_initWritten st)
    else mkConcat out (u32 (cc_seqNum st + 1)) (extend_times bases f (cc_baseTimes st)) (cc_videoTimeScale st) (cc_videoTrackID st)
           (cc_initWritten st).

Definition fail (st : ConcatState) : ConcatState :=
  mkConcat ((cc_out st).1, true) (cc_seqNum st) (cc_baseTimes st) (cc_videoTimeScale st) (cc_videoTrackID st) (cc_initWritten st).

(** One input; [None] is a file that cannot be opened. *)
Definition concat_input (st : ConcatState) (input : option bytes) : ConcatState :=
  if (cc_out st).2 then st
  else match input with
  | None => fail st
  | Some src =>
      match indexFile src with
      | (_, Some _) => fail st
      | (ix, None) =>
          let fragments := ix_fragments ix in
          let scales := ix_trackTimeScales ix in
          let '(videoID, videoTS, global) :=
            if cc_videoTrackID st =? 0 then
              let id := findVideoTrack fragments scales in
              (id, scale_of scales id, cc_baseTimes st ∪ ((fun _ => 0) <$> scales))
            else (cc_videoTrackID st, cc_videoTimeScale st, cc_baseTimes st) in
          let out := if cc_initWritten st then cc_out st else copy_init src (ix_initBoxes ix) (cc_out st).1 in
          if out.2 then mkConcat out (cc_seqNum st) global videoTS videoID false
          else
            let fileStart := default 0 (global !! videoID) in
            let '(origin, originTS) := trimTimelineOrigin fragments 0 videoID scales in
            fold_left (concat_fragment src scales origin originTS fileStart) fragments
              (mkConcat out (cc_seqNum st) global videoTS videoID true)
      end
  end.

Definition concat_start : ConcatState := mkConcat ([], false) 1 ∅ 0 0 false.

Definition concat_inputs (inputs : list (option bytes)) : ConcatState := fold_left concat_input inputs concat_start.

(** The output file, and whether there was an error. *)
Definition ConcatMP4 (inputs : list (option bytes)) (start duration : Z) : Output :=
  match inputs with
  | [] => ([], true)
  | _ =>
      let st := concat_inputs inputs in
      if (cc_out st).2 then cc_out st
      else if (0 <? start) || (0 <? duration) then
        let totalDur := ticks_duration (default 0 (cc_baseTimes st !! cc_videoTrackID st)) (scale_or_default (cc_videoTimeScale st)) in
        if (0 <? start) || ((0 <? duration) && (duration <? totalDur))
        then TrimMP4 (cc_out st).1 start duration else cc_out st
      else cc_out st
  end.

(** ** The segments of a playlist *)

Record HLSSegmentRef := mkRef { hr_FilePath : string; hr_ByteStart : Z; hr_ByteEnd : Z }.

Record hlsPlaylistSegment := mkSegment {
  hs_fileIdx : nat;
  hs_duration : float64;
  hs_startTick : Z;
  hs_videoTS : Z;
  hs_ref : HLSSegmentRef
}.

(** The fragments of a file and the timing of its video; [None] when it contributes
    nothing. *)
Definition indexHLSFile (src : bytes) : option (list fragment * Z * Z) :=
  let '(ix, err) := indexFile src in
  let usable := match err with
                | None => true
                | Some EOF | Some UnexpectedEOF => negb (bool_decide (ix_fragments ix = []))
                | Some OtherReadError => false
                end in
  if usable then
    let id := findVideoTrack (ix_fragments ix) (ix_trackTimeScales ix) in
    Some (ix_fragments ix, id, scale_or_default (scale_of (ix_trackTimeScales ix) id))
  else None.

End reader.

(** The segment under construction of [segmentHLSFile], whose start is [-1] when there
    is none, and the segments that are closed. *)
Record HLSBuild := mkBuild { hb_done : list hlsPlaylistSegment; hb_start : Z; hb_end : Z; hb_ticks : Z; hb_startTick : Z }.

Definition targetSegDur : float64 := f64_of_Z 4.

Definition hls_flush (path : string) (fileIdx : nat) (videoTS : Z) (b : HLSBuild) : HLSBuild :=
  if hb_start b <? 0 then b
  else mkBuild (hb_done b ++ [mkSegment fileIdx (fdiv (f64_of_Z (hb_ticks b)) (f64_of_Z videoTS)) (hb_startTick b) videoTS
                               (mkRef path (hb_start b) (hb_end b))]) (-1) 0 0 (hb_startTick b).

Definition hls_fragment (path : string) (fileIdx : nat) (videoTrackID videoTS startTick : Z) (trimStart : bool)
    (b : HLSBuild) (f : fragment) : HLSBuild :=
  match traf f videoTrackID with
  | None => b
  | Some t =>
      if trimStart && (u64 (tf_decodeTime t + tf_duration t) <=? startTick) then b
      else
        let fragEnd := fr_mdatOffset f + fr_mdatSize f in
        let b := if tf_isSync t && (0 <=? hb_start b) && fge (fdiv (f64_of_Z (hb_ticks b)) (f64_of_Z videoTS)) targetSegDur
                 then hls_flush path fileIdx videoTS b else b in
        let b := if hb_start b <? 0 then mkBuild (hb_done b) (fr_moofOffset f) (hb_end b) (hb_ticks b) (tf_decodeTime t) else b in
        mkBuild (hb_done b) (hb_start b) (if hb_end b <? fragEnd then fragEnd else hb_end b)
          (u64 (hb_ticks b + tf_duration t)) (hb_startTick b)
  end.

Definition segmentHLSFile (path : string) (fileIdx : nat) (fragments : list fragment) (videoTrackID videoTS startTick : Z)
    (trimStart : bool) : list hlsPlaylistSegment :=
  hb_done (hls_flush path fileIdx videoTS
    (fold_left (hls_fragment path fileIdx videoTrackID videoTS startTick trimStart) fragments (mkBuild [] (-1) 0 0 0))).

(** [int(math.Ceil(x))] of a value that is not negative. *)
Definition ceil_int (x : float64) : Z :=
  match x with
  | S754_finite false m e => if 0 <=? e then Zpos m * 2 ^ e else (Zpos m + 2 ^ (- e) - 1) / 2 ^ (- e)
  | _ => 0
  end.

Definition hlsTargetDuration (segments : list hlsPlaylistSegment) : Z :=
  let maxDur := fold_left (fun m s => if fgt (hs_duration s) m then hs_duration s else m) segments fzero in
  Z.max 1 (ceil_int maxDur).

(** ** The playlist *)

Inductive PlaylistLine :=
| ExtM3U | ExtVersion7 | ExtTargetDuration (seconds : Z) | ExtPlaylistTypeVOD
| ExtStart (timeOffset : float64)
| ExtDiscontinuity
| ExtMap (base : string)
| ExtProgramDateTime (t : Z)
| ExtInf (duration : float64)
| SegmentURI (base : string) (index : nat)
| ExtEndList.

Definition start_tag (first : hlsPlaylistSegment) (start : Z) : list PlaylistLine :=
  if (start <=? 0) || negb (Nat.eqb (hs_fileIdx first) 0) || (hs_videoTS first =? 0) then []
  else
    let preferredStart := fsub (Seconds start) (fdiv (f64_of_Z (hs_startTick first)) (f64_of_Z (hs_videoTS first))) in
    if fgt preferredStart (f64_lit 1 1000) then [ExtStart preferredStart] else [].

Definition program_date (fileStart : Z) (seg : hlsPlaylistSegment) : Z :=
  Add fileStart (i64 (u64 (hs_startTick seg * Second) / hs_videoTS seg)).

(** What a segment of another file than the last one is announced with. *)
Definition file_header (baseURIs : list string) (fileStarts : option (list Z)) (last : option nat) (seg : hlsPlaylistSegment)
    : list PlaylistLine :=
  if bool_decide (last = Some (hs_fileIdx seg)) then []
  else match last with Some _ => [ExtDiscontinuity] | None => [] end
    ++ [ExtMap (nth (hs_fileIdx seg) baseURIs "")]
    ++ match fileStarts with
       | Some starts => [ExtProgramDateTime (program_date (nth (hs_fileIdx seg) starts 0) seg)]
       | None => []
       end.

Fixpoint segment_lines (baseURIs : list string) (fileStarts : option (list Z)) (last : option nat) (refs : nat)
    (segments : list hlsPlaylistSegment) : list PlaylistLine :=
  match segments with
  | [] => []
  | seg :: l =>
      file_header baseURIs fileStarts last seg ++ [ExtInf (hs_duration seg); SegmentURI (nth (hs_fileIdx seg) baseURIs "") refs]
      ++ segment_lines baseURIs fileStarts (Some (hs_fileIdx seg)) (S refs) l
  end.

Definition buildHLSPlaylist (segments : list hlsPlaylistSegment) (baseURIs : list string) (fileStarts : option (list Z)) (start : Z)
    : list PlaylistLine * list HLSSegmentRef :=
  ([ExtM3U; ExtVersion7; ExtTargetDuration (hlsTargetDuration segments); ExtPlaylistTypeVOD]
     ++ match segments with s :: _ => start_tag s start | [] => [] end
     ++ segment_lines baseURIs fileStarts None 0 segments ++ [ExtEndList],
   hs_ref <$> segments).

Definition validateHLSInputs (paths baseURIs : list string) (fileStarts : option (list Z)) : result string unit :=
  if Nat.eqb (length paths) 0 then Err "no paths provided"%string
  else if negb (Nat.eqb (length paths) (length baseURIs)) then Err "paths and baseURIs length mismatch"%string
  else match fileStarts with
       | Some starts => if negb (Nat.eqb (length starts) (length paths)) then Err "paths and fileStarts length mismatch"%string else Ok tt
       | None => Ok tt
       end.

Section playlist.
Context `{BoxReader} `{TrackOrder}.

(** The segments of the file at [path], the [fileIdx]th; [None] when it cannot be
    opened. *)
Definition file_segments (open_ : string -> option bytes) (start : Z) (fileIdx : nat) (path : string) : option (list hlsPlaylistSegment) :=
  src ← open_ path;
  match indexHLSFile src with
  | None => Some []
  | Some (fragments, videoTrackID, videoTS) =>
      let trimStart := Nat.eqb fileIdx 0 && (0 <? start) in
      Some (segmentHLSFile path fileIdx fragments videoTrackID videoTS (if trimStart then tick_of start videoTS else 0) trimStart)
  end.

Fixpoint all_segments (open_ : string -> option bytes) (start : Z) (fileIdx : nat) (paths : list string) : option (list hlsPlaylistSegment) :=
  match paths with
  | [] => Some []
  | path :: paths => a ← file_segments open_ start fileIdx path; b ← all_segments open_ start (S fileIdx) paths; Some (a ++ b)
  end.

Definition GenerateHLSPlaylist (open_ : string -> option bytes) (paths baseURIs : list string) (fileStarts : option (list Z)) (start : Z)
    : result string (list PlaylistLine * list HLSSegmentRef) :=
  let? _ := validateHLSInputs paths baseURIs fileStarts in
  match all_segments open_ start 0 paths with
  | None => Err "open"%string
  | Some [] => Err "no segments produced"%string
  | Some segments => Ok (buildHLSPlaylist segments baseURIs fileStarts start)
  end.

End playlist.
