(* ===== verification/Mp4IndexTheorems.v ===== *)
(** What the index of a fragmented file and the operations on it guarantee: the index
    holds exactly the fragments of a well-formed file, a trim starts where decoding
    can, every track is moved by one origin, and the segments of a playlist divide the
    fragments of a file among themselves.

    The segments of an HLS playlist divide a file's fragments among themselves, the
    playlist announces them in order, and concatenated files follow one another on the
    timeline. *)

From S2P Require Import Prelude Float64 Mp4Bytes Mp4Index.
From Stdlib Require Import SpecFloat.

#[local] Open Scope list_scope.

(** ** The index of a well-formed file *)

(** A run of samples, a traf with its runs, and a fragment with its trafs. *)
Record RunSpec := mkRun { rn_flags : Z; rn_first : Z; rn_entries : list TrunEntry }.
Record TrafSpec := mkTrafSpec { ts_id : Z; ts_flags : Z; ts_defaults : Z; ts_time : Z; ts_runs : list RunSpec }.
Record FragSpec := mkFragSpec { fs_moof : boxLoc; fs_mdat : boxLoc; fs_trafs : list TrafSpec }.

Definition box (l : boxLoc) (c : BoxContent) (children : list Box) : Box := mkBox (bl_offset l) (bl_size l) c None children None.
Definition inner (c : BoxContent) (children : list Box) : Box := mkBox 0 0 c None children None.

Definition run_box (r : RunSpec) : Box := inner (Trun (rn_flags r) (rn_first r) (rn_entries r)) [].
Definition traf_box (t : TrafSpec) : Box :=
  inner Traf (inner (Tfhd (ts_id t) (ts_flags t) (ts_defaults t)) [] :: inner (Tfdt (ts_time t)) [] :: (run_box <$> ts_runs t)).
Definition frag_boxes (f : FragSpec) : list Box :=
  [box (fs_moof f) Moof (inner OtherBox [] :: (traf_box <$> fs_trafs f)); box (fs_mdat f) Mdat []].

(** A track of the initialization: its id and its timescale. *)
Definition trak_box (t : Z * Z) : Box := inner Trak [inner (Tkhd t.1) []; inner Mdia [inner (Mdhd t.2) []]].

(** What the index is to hold of them. *)
(** What a run says of its first sample: whether it is a sync sample, by its own flags
    or by those of its first entry. *)
Definition run_sync (r : RunSpec) : option bool :=
  if negb (Z.land (rn_flags r) 0x4 =? 0) then Some (Z.land (rn_first r) 0x10000 =? 0)
  else if negb (Z.land (rn_flags r) 0x400 =? 0) then (fun e => Z.land (SampleFlags e) 0x10000 =? 0) <$> head (rn_entries r)
  else None.

Definition default_sync (t : TrafSpec) : bool :=
  if negb (Z.land (ts_flags t) 0x20 =? 0) then Z.land (ts_defaults t) 0x10000 =? 0 else true.

Definition sum_durations (l : list TrunEntry) : Z := foldr (fun e n => SampleDuration e + n) 0 l.

Definition traf_of (t : TrafSpec) : trafEntry :=
  mkTraf (ts_id t) (ts_time t) (u32 (sum_durations (ts_runs t ≫= rn_entries))) (default (default_sync t) (last (omap run_sync (ts_runs t)))).

Definition frag_of (f : FragSpec) : fragment :=
  mkFragment (bl_offset (fs_moof f)) (bl_size (fs_moof f)) (bl_offset (fs_mdat f)) (bl_size (fs_mdat f)) (traf_of <$> fs_trafs f).

Definition layout (ftyp moov : boxLoc) (tracks : list (Z * Z)) (frags : list FragSpec) : list Box :=
  box ftyp Ftyp [] :: box moov Moov (inner OtherBox [] :: (trak_box <$> tracks)) :: (frags ≫= frag_boxes).

(** The children an expanded box visits. *)
Lemma visit_expand offset size perr children cerr ix :
  visit (mkBox offset size Moof perr children cerr) ix = visit_all children cerr (beginFragment offset size ix) /\
  visit (mkBox offset size Traf perr children cerr) ix = visit_all children cerr (beginTraf ix) /\
  visit (mkBox offset size Moov perr children cerr) ix = visit_all children cerr (noteInitBox offset size ix) /\
  visit (mkBox offset size Trak perr children cerr) ix = visit_all children cerr (set_track 0 ix) /\
  visit (mkBox offset size Mdia perr children cerr) ix = visit_all children cerr ix.
Proof.
  cbn [visit].
  assert (forall l ix, (fix go (l : list Box) (ix : fmp4Index) : fmp4Index * option ReadError :=
    match l with [] => (ix, cerr) | c :: l => match visit c ix with (ix, None) => go l ix | (ix, Some r) => (ix, Some r) end end) l ix
    = visit_all l cerr ix) as Hgo.
  { induction l as [|b l IH]; intros ix'; [done|]. cbn [visit_all]. destruct (visit b ix') as [ix'' []]; [done|apply IH]. }
  by split_and!; apply Hgo.
Qed.

Lemma visit_all_cons b l err ix :
  visit_all (b :: l) err ix = match visit b ix with (ix, None) => visit_all l err ix | r => r end.
Proof. done. Qed.

Lemma visit_all_app l1 l2 err ix :
  visit_all (l1 ++ l2) err ix = match visit_all l1 None ix with (ix, None) => visit_all l2 err ix | r => r end.
Proof. revert ix. induction l1 as [|b l1 IH]; intros ix; [done|]. cbn. destruct (visit b ix) as [ix' []]; [done|apply IH]. Qed.

(** An index with a fragment under construction whose last traf is current. *)
Definition open_ix (ix : fmp4Index) (f : fragment) (done : list trafEntry) (t : trafEntry) : fmp4Index :=
  set_frag (Some (set_trafs (done ++ [t]) f)) true ix.

Lemma alter_last_snoc {A} (g : A -> A) l x : alter_last g (l ++ [x]) = l ++ [g x].
Proof.
  unfold alter_last. rewrite length_app. cbn [length]. replace (pred (length l + 1)) with (length l + 0)%nat by lia.
  by rewrite alter_app_r.
Qed.

Lemma on_traf_open g ix f l t : on_traf g (open_ix ix f l t) = open_ix ix f l (g t).
Proof. unfold on_traf, open_ix. cbn. by rewrite alter_last_snoc. Qed.

Lemma in_traf_open g ix f l t : in_traf None g (open_ix ix f l t) = (open_ix ix f l (g t), None).
Proof. unfold in_traf. cbn [ix_currentTraf open_ix set_frag]. by rewrite on_traf_open. Qed.

Lemma totalDur_sum l : totalDur l = u32 (sum_durations l).
Proof.
  unfold totalDur. enough (forall d, fold_left (fun d e => u32 (d + SampleDuration e)) l (u32 d) = u32 (d + sum_durations l)) as Hg.
  { specialize (Hg 0). by rewrite (u32_small 0) in Hg. }
  induction l as [|e l IH]; intros d; cbn [fold_left sum_durations foldr]; [by rewrite Z.add_0_r|].
  rewrite wrapU_add_l, IH. f_equal. fold (sum_durations l). lia.
Qed.

Lemma sum_durations_app a b : sum_durations (a ++ b) = sum_durations a + sum_durations b.
Proof. unfold sum_durations. induction a as [|e a IH]; cbn; [done|]. rewrite IH. lia. Qed.

Lemma noteTrun_run r t :
  noteTrun (rn_flags r) (rn_first r) (rn_entries r) t =
  mkTraf (tf_trackID t) (tf_decodeTime t) (u32 (tf_duration t + sum_durations (rn_entries r))) (default (tf_isSync t) (run_sync r)).
Proof.
  unfold noteTrun, run_sync. rewrite totalDur_sum, wrapU_add_r. f_equal.
  destruct (negb _); [done|]. destruct (negb _); [by destruct (rn_entries r)|done].
Qed.

(** Runs add up; the last one that says so decides about the sync sample. *)
Lemma noteTrun_runs runs : forall t,
  0 <= tf_duration t < 2 ^ 32 ->
  fold_left (fun e r => noteTrun (rn_flags r) (rn_first r) (rn_entries r) e) runs t =
  mkTraf (tf_trackID t) (tf_decodeTime t) (u32 (tf_duration t + sum_durations (runs ≫= rn_entries)))
    (default (tf_isSync t) (last (omap run_sync runs))).
Proof.
  induction runs as [|r runs IH]; intros t Ht.
  { cbn. rewrite Z.add_0_r, u32_small by done. by destruct t. }
  cbn [fold_left]. rewrite noteTrun_run, IH by (apply wrapU_range; lia). cbn [tf_trackID tf_decodeTime tf_duration tf_isSync].
  rewrite bind_cons, sum_durations_app, wrapU_add_l, Z.add_assoc. f_equal.
  change (omap run_sync (r :: runs)) with (match run_sync r with Some y => y :: omap run_sync runs | None => omap run_sync runs end).
  destruct (run_sync r) as [b|]; [|done]. rewrite last_cons. by destruct (last (omap run_sync runs)).
Qed.

Lemma visit_runs runs : forall ix f l t,
  visit_all (run_box <$> runs) None (open_ix ix f l t) =
  (open_ix ix f l (fold_left (fun e r => noteTrun (rn_flags r) (rn_first r) (rn_entries r) e) runs t), None).
Proof.
  induction runs as [|r runs IH]; intros ix f l t; [done|]. cbn [fmap list_fmap visit_all fold_left].
  unfold run_box at 1, inner. cbn [visit]. by rewrite in_traf_open, IH.
Qed.

Lemma visit_traf t ix f l b :
  visit (traf_box t) (set_frag (Some (set_trafs l f)) b ix) = (set_frag (Some (set_trafs (l ++ [traf_of t]) f)) true ix, None).
Proof.
  unfold traf_box, inner. rewrite (proj1 (proj2 (visit_expand _ _ _ _ _ _))).
  change (beginTraf (set_frag (Some (set_trafs l f)) b ix)) with (open_ix ix f l (mkTraf 0 0 0 false)).
  cbn [visit_all visit]. rewrite in_traf_open. cbn [visit]. rewrite in_traf_open, visit_runs, noteTrun_runs by done.
  unfold open_ix, traf_of, default_sync. reflexivity.
Qed.

Lemma visit_trafs ts : forall ix f l b,
  visit_all (traf_box <$> ts) None (set_frag (Some (set_trafs l f)) b ix) =
  (set_frag (Some (set_trafs (l ++ (traf_of <$> ts)) f)) (match ts with [] => b | _ => true end) ix, None).
Proof.
  induction ts as [|t ts IH]; intros ix f l b; [by rewrite app_nil_r|]. cbn [fmap list_fmap visit_all].
  rewrite visit_traf, IH, <- app_assoc. by destruct ts.
Qed.

Definition add_fragments (l : list fragment) (ix : fmp4Index) : fmp4Index :=
  mkIndex (ix_initBoxes ix) (ix_fragments ix ++ l) (ix_trackTimeScales ix) (ix_currentTrackID ix) None false.

Lemma visit_frags frags : forall err ix,
  ix_currentFrag ix = None -> ix_currentTraf ix = false ->
  visit_all (frags ≫= frag_boxes) err ix = (add_fragments (frag_of <$> frags) ix, err).
Proof.
  induction frags as [|f frags IH]; intros err ix Hf Ht.
  { cbn. unfold add_fragments. rewrite app_nil_r. destruct ix. cbn in *. by subst. }
  change ((f :: frags) ≫= frag_boxes) with (frag_boxes f ++ (frags ≫= frag_boxes)). unfold frag_boxes at 1.
  rewrite visit_all_app. unfold box at 1. cbn [visit_all]. rewrite (proj1 (visit_expand _ _ _ _ _ _)).
  cbn [visit_all visit inner]. unfold beginFragment.
  change (Some (mkFragment (bl_offset (fs_moof f)) (bl_size (fs_moof f)) 0 0 []))
    with (Some (set_trafs [] (mkFragment (bl_offset (fs_moof f)) (bl_size (fs_moof f)) 0 0 []))).
  rewrite visit_trafs. cbn [app]. unfold box. cbn [visit endFragment set_frag ix_currentFrag].
  rewrite IH by done. unfold add_fragments. cbn. by rewrite <- app_assoc.
Qed.

Lemma visit_tracks tracks : forall ix,
  Forall (fun t => t.1 <> 0) tracks ->
  exists cur, visit_all (trak_box <$> tracks) None ix =
    (mkIndex (ix_initBoxes ix) (ix_fragments ix) (fold_left (fun m t => <[t.1 := t.2]> m) tracks (ix_trackTimeScales ix)) cur
       (ix_currentFrag ix) (ix_currentTraf ix), None).
Proof.
  induction tracks as [|t tracks IH]; intros ix Hid; [exists (ix_currentTrackID ix); by destruct ix|].
  apply Forall_cons in Hid as [Ht Hid]. cbn [fmap list_fmap visit_all fold_left].
  assert (visit (trak_box t) ix = (mkIndex (ix_initBoxes ix) (ix_fragments ix) (<[t.1 := t.2]> (ix_trackTimeScales ix)) t.1
    (ix_currentFrag ix) (ix_currentTraf ix), None)) as ->.
  { unfold trak_box, inner. cbn. unfold noteTimescale. cbn. by rewrite (proj2 (Z.eqb_neq t.1 0)). }
  destruct (IH (mkIndex (ix_initBoxes ix) (ix_fragments ix) (<[t.1 := t.2]> (ix_trackTimeScales ix)) t.1
    (ix_currentFrag ix) (ix_currentTraf ix)) Hid) as [cur ->]. by exists cur.
Qed.

(** C33: the index of a fragmented file holds its fragments, and nothing else.  Reading a
    file laid out as [ftyp], [moov] and pairs of [moof] and [mdat] gives the place of
    the two initialization boxes, the timescale of every track, and in order every
    fragment with the place of its two boxes and for every traf its track, decode time,
    the sum of its runs' sample durations, and whether its last run that carries sample
    flags, or by default the traf itself, opens on a sync sample.  When the reading ends in an error, as at the end of a file still being written, what was
    read before is kept. *)
Theorem index_of_layout `{BoxReader} f ftyp moov tracks frags err :
  read_boxes f = (layout ftyp moov tracks frags, err) -> Forall (fun t => t.1 <> 0) tracks ->
  exists ix, indexFile f = (ix, err) /\ ix_initBoxes ix = [ftyp; moov] /\ ix_fragments ix = frag_of <$> frags /\
    ix_trackTimeScales ix = fold_left (fun m t => <[t.1 := t.2]> m) tracks ∅.
Proof.
  intros Hf Hid. unfold indexFile. rewrite Hf. unfold layout, box. rewrite visit_all_cons.
  change (visit (mkBox (bl_offset ftyp) (bl_size ftyp) Ftyp None [] None) empty_index)
    with (noteInitBox (bl_offset ftyp) (bl_size ftyp) empty_index, @None ReadError). cbn iota. rewrite visit_all_cons.
  rewrite (proj1 (proj2 (proj2 (visit_expand _ _ _ _ _ _)))), visit_all_cons.
  change (visit (inner OtherBox []) ?ix) with (ix, @None ReadError). cbn iota.
  destruct (visit_tracks tracks (noteInitBox (bl_offset moov) (bl_size moov) (noteInitBox (bl_offset ftyp) (bl_size ftyp) empty_index)) Hid)
    as [cur ->]. rewrite visit_frags by done. eexists. split; [done|]. cbn. by destruct ftyp, moov.
Qed.

(** ** Where a trim starts *)

Lemma find_index_spec {A} (p : A -> bool) l : forall k,
  match find_index p k l with
  | Some i => (k <= i)%nat /\ (exists a, l !! (i - k)%nat = Some a /\ p a = true) /\
      forall j a, l !! j = Some a -> (j < i - k)%nat -> p a = false
  | None => forall a, a ∈ l -> p a = false
  end.
Proof.
  induction l as [|a l IH]; intros k; cbn; [by intros a ?%elem_of_nil|]. destruct (p a) eqn:Ep.
  - split_and!; [lia| |intros; lia]. rewrite Nat.sub_diag. by exists a.
  - specialize (IH (S k)). destruct (find_index p (S k) l) as [i|].
    + destruct IH as (Hk & (b & Hb & Hpb) & Hlt). split_and!; [lia| |].
      * exists b. replace (i - k)%nat with (S (i - S k)) by lia. done.
      * intros [|j] c; cbn; [by intros [= <-]|]. intros Hj Hji. apply (Hlt j); [done|lia].
    + intros b [->|Hb]%elem_of_cons; [done|by apply IH].
Qed.

(** Whether the fragment at [i] has video that opens on a sync sample. *)
Definition opens_on_sync (fragments : list fragment) (videoTrackID : Z) (i : nat) : Prop :=
  exists f t, fragments !! i = Some f /\ traf f videoTrackID = Some t /\ tf_isSync t = true.

Lemma sync_before_spec fragments v o :
  match sync_before fragments v o with
  | Some i => (i <= o)%nat /\ opens_on_sync fragments v i /\ forall j, (i < j <= o)%nat -> ~ opens_on_sync fragments v j
  | None => forall j, (j <= o)%nat -> ~ opens_on_sync fragments v j
  end.
Proof.
  assert (forall i, (match fragments !! i ≫= (fun f => traf f v) with Some t => tf_isSync t | None => false end) = true
    <-> opens_on_sync fragments v i) as Hhere.
  { intros i. unfold opens_on_sync. destruct (fragments !! i) as [f|]; cbn; [|split; [done|by intros (? & ? & ? & _)]].
    destruct (traf f v) as [t|] eqn:E; split; try done; [intros; by exists f, t|intros (? & ? & [= <-] & Ht & Hs); by simplify_eq
      |intros (? & ? & [= <-] & Ht & _); congruence]. }
  induction o as [|o IH]; cbn [sync_before]; destruct (match fragments !! _ ≫= _ with Some t => tf_isSync t | None => false end) eqn:E.
  - apply Hhere in E. split_and!; [lia|done|intros; lia].
  - intros j Hj. assert (j = 0%nat) as -> by lia. rewrite <- Hhere, E. done.
  - apply Hhere in E. split_and!; [lia|done|intros; lia].
  - assert (~ opens_on_sync fragments v (S o)) as Hn by by rewrite <- Hhere, E.
    destruct (sync_before fragments v o) as [i|].
    + destruct IH as (Hi & Hs & Hj). split_and!; [lia|done|]. intros j Hjo. destruct (decide (j = S o)) as [->|]; [done|apply Hj; lia].
    + intros j Hj. destruct (decide (j = S o)) as [->|]; [done|apply IH; lia].
Qed.

(** A trim starts where decoding can.  It starts at the newest fragment, at or before
    the first one that ends after the requested start, whose video opens on a sync
    sample; when there is none, at that first one, and when every fragment has ended by
    then it copies none. *)
Theorem trim_starts_on_sync fragments v scales start :
  let r := firstFragmentForStart fragments v scales start in
  (r = length fragments /\ forall f, f ∈ fragments -> overlaps v scales start f = false) \/
  exists o, (r <= o < length fragments)%nat /\
    (exists f, fragments !! o = Some f /\ overlaps v scales start f = true) /\
    (forall j f, fragments !! j = Some f -> (j < o)%nat -> overlaps v scales start f = false) /\
    ((opens_on_sync fragments v r /\ forall j, (r < j <= o)%nat -> ~ opens_on_sync fragments v j) \/
     (r = o /\ forall j, (j <= o)%nat -> ~ opens_on_sync fragments v j)).
Proof.
  intros r. subst r. unfold firstFragmentForStart. pose proof (find_index_spec (overlaps v scales start) fragments 0) as Hf.
  destruct (find_index _ 0 fragments) as [o|]; [right|by left]. destruct Hf as (_ & (f & Hf & Hov) & Hlt).
  rewrite Nat.sub_0_r in *. pose proof (lookup_lt_Some _ _ _ Hf). pose proof (sync_before_spec fragments v o) as Hs. exists o.
  destruct (sync_before fragments v o) as [i|]; cbn [default from_option Datatypes.id].
  - destruct Hs as (Hi & Hsync & Hj). split_and!; [lia|lia|by exists f| |by left]. intros j g Hg Hjo. by apply (Hlt j).
  - split_and!; [lia|lia|by exists f| |by right]. intros j g Hg Hjo. by apply (Hlt j).
Qed.

(** ** One origin for every track *)

(** Moving a fragment keeps its tracks in step.  The video is moved exactly: the
    fragment the origin was read from lands on the offset, and distances stay.  Any
    other track lands within one tick of where the same shift in seconds puts it, and
    what starts before the origin lands on the offset; a later time never lands before
    an earlier one. *)
Theorem adjusted_times_in_step scales origin originTS offset t :
  let s := scale_of scales (tf_trackID t) in
  let adjusted := adjusted_time scales origin originTS offset in
  0 < originTS -> 0 <= s -> 0 <= origin -> 0 <= offset -> 0 <= tf_decodeTime t ->
  origin * s < 2 ^ 64 -> offset * s < 2 ^ 64 -> tf_decodeTime t + offset * s < 2 ^ 64 ->
  (s = originTS -> origin <= tf_decodeTime t -> adjusted t = tf_decodeTime t - origin + offset) /\
  (origin * s <= tf_decodeTime t * originTS ->
     Z.abs (adjusted t * originTS - (tf_decodeTime t * originTS - origin * s + offset * s)) < originTS) /\
  (tf_decodeTime t * originTS <= origin * s -> adjusted t = offset * s / originTS) /\
  (forall t', tf_trackID t' = tf_trackID t -> 0 <= tf_decodeTime t' <= tf_decodeTime t -> adjusted t' <= adjusted t).
Proof.
  intros s adjusted Hts Hs Ho Hoff Ht H1 H2 H3.
  assert (forall u, tf_trackID u = tf_trackID t -> 0 <= tf_decodeTime u <= tf_decodeTime t ->
    adjusted u = Z.max 0 (tf_decodeTime u - origin * s / originTS) + offset * s / originTS) as E.
  { intros u Hu Hut. subst adjusted. unfold adjusted_time. rewrite Hu. fold s. unfold scale_or_default.
    rewrite (proj2 (Z.eqb_neq originTS 0)) by lia. rewrite (u64_small (origin * s)), (u64_small (offset * s)) by lia.
    assert (0 <= origin * s / originTS) by (apply Z.div_pos; lia).
    assert (0 <= offset * s / originTS <= offset * s) by (split; [apply Z.div_pos; lia|apply Z.div_le_upper_bound; nia]).
    destruct (Z.ltb_spec (origin * s / originTS) (tf_decodeTime u)); rewrite u64_small by lia; lia. }
  pose proof (Z.div_mod (origin * s) originTS) as D1. pose proof (Z.mod_pos_bound (origin * s) originTS Hts) as M1.
  pose proof (Z.div_mod (offset * s) originTS) as D2. pose proof (Z.mod_pos_bound (offset * s) originTS Hts) as M2.
  split_and!.
  - intros -> Hle. rewrite E, !Z.div_mul by lia. lia.
  - intros Hle. rewrite E by lia. assert (origin * s / originTS <= tf_decodeTime t) by (apply Z.div_le_upper_bound; lia).
    rewrite Z.max_r by lia. apply Z.abs_lt. nia.
  - intros Hle. rewrite E by lia. assert (tf_decodeTime t <= origin * s / originTS) by (apply Z.div_le_lower_bound; lia). lia.
  - intros t' Hid Ht'. rewrite !E by (done || lia). lia.
Qed.

(** ** What a trim writes *)

(** A range of a file. *)
Definition inside (src : bytes) (offset size : Z) : Prop := 0 <= offset /\ 0 <= size /\ offset + size <= len src.

Definition fragment_inside (src : bytes) (f : fragment) : Prop :=
  inside src (fr_moofOffset f) (fr_moofSize f) /\ inside src (fr_mdatOffset f) (fr_mdatSize f).

(** A fragment as it is written: its header rewritten, its media as they are. *)
Definition fragment_bytes (src : bytes) (times : fragment -> gmap Z Z) (seqNum : Z) (f : fragment) : bytes :=
  patchMoof (slice src (fr_moofOffset f) (fr_moofOffset f + fr_moofSize f)) seqNum (times f)
  ++ slice src (fr_mdatOffset f) (fr_mdatOffset f + fr_mdatSize f).

Lemma len_slice src i n : inside src i n -> len (slice src i (i + n)) = n.
Proof.
  intros (H1 & H2 & H3). unfold slice, len in *. rewrite length_take, length_drop. lia.
Qed.

Lemma CopyN_inside src i n out : inside src i n -> CopyN src i n out = (out ++ slice src i (i + n), false).
Proof. intros Hi. unfold CopyN. rewrite len_slice by done. f_equal. apply Z.ltb_irrefl. Qed.

Lemma copyFragment_inside src f seqNum times out :
  fragment_inside src f ->
  copyFragmentAdjusted src f seqNum (times f) out = (out ++ fragment_bytes src times seqNum f, false).
Proof.
  intros [H1 H2]. unfold copyFragmentAdjusted, ReadFull. destruct H1 as (Ha & Hb & Hc).
  rewrite (proj2 (Z.leb_le 0 _)), (proj2 (Z.leb_le _ (len src))) by lia. cbn [andb]. rewrite CopyN_inside by done.
  unfold fragment_bytes. by rewrite app_assoc.
Qed.

Lemma then_write_ok out k : then_write (out, false) k = k out.
Proof. done. Qed.

Lemma copy_init_inside src init : forall out,
  Forall (fun l => inside src (bl_offset l) (bl_size l)) init ->
  fold_left (fun o loc => then_write o (CopyN src (bl_offset loc) (bl_size loc))) init (out, false) =
  (out ++ (init ≫= fun l => slice src (bl_offset l) (bl_offset l + bl_size l)), false).
Proof.
  induction init as [|l init IH]; intros out Hi; [by rewrite app_nil_r|]. apply Forall_cons in Hi as [Hl Hi].
  cbn [fold_left]. rewrite then_write_ok, CopyN_inside, IH by done. by rewrite <- app_assoc.
Qed.

Lemma copy_fragments_inside src times fs : forall out k,
  Forall (fragment_inside src) fs -> 0 <= k -> k + Z.of_nat (length fs) <= 2 ^ 32 ->
  fst (fold_left (fun (st : Output * Z) f =>
    (then_write st.1 (copyFragmentAdjusted src f st.2 (times f)), u32 (st.2 + 1))) fs ((out, false), k)) =
  (out ++ concat (imap (fun i f => fragment_bytes src times (k + Z.of_nat i) f) fs), false).
Proof.
  induction fs as [|f fs IH]; intros out k Hfs Hk Hmax; [by rewrite app_nil_r|]. apply Forall_cons in Hfs as [Hf Hfs].
  cbn [length] in Hmax. cbn [fold_left fst snd]. rewrite then_write_ok, copyFragment_inside by done.
  rewrite imap_cons. cbn [concat]. destruct fs as [|f' fs].
  { cbn. by rewrite Z.add_0_r, app_nil_r. }
  cbn [length] in *. rewrite u32_small by lia. rewrite IH by (done || cbn [length]; lia).
  rewrite <- app_assoc, Z.add_0_r. do 3 f_equal. f_equal. apply imap_ext. intros i g _. cbn. f_equal. lia.
Qed.

(** What a trim of an intact file comes to: the initialization, then the fragments it
    keeps, one after the other. *)
Lemma trim_writes_kept `{BoxReader} `{TrackOrder} window start src ix :
  indexFile src = (ix, None) ->
  Forall (fun l => inside src (bl_offset l) (bl_size l)) (ix_initBoxes ix) -> Forall (fragment_inside src) (ix_fragments ix) ->
  Z.of_nat (length (ix_fragments ix)) < 2 ^ 32 ->
  let v := findVideoTrack (ix_fragments ix) (ix_trackTimeScales ix) in
  let first := firstFragmentForStart (ix_fragments ix) v (ix_trackTimeScales ix) start in
  let origin := trimTimelineOrigin (ix_fragments ix) first v (ix_trackTimeScales ix) in
  let kept := filter (fun f => in_window v (ix_trackTimeScales ix) window f = true) (drop first (ix_fragments ix)) in
  let times f := adjustedFragmentTimes f (ix_trackTimeScales ix) origin.1 origin.2 0 in
  trim window start src =
    ((ix_initBoxes ix ≫= fun l => slice src (bl_offset l) (bl_offset l + bl_size l))
       ++ concat (imap (fun i f => fragment_bytes src times (1 + Z.of_nat i) f) kept), false).
Proof.
  intros Hix Hinit Hfs Hmax v first origin kept times. unfold trim. rewrite Hix. fold v. fold first. fold origin.
  destruct origin as [o oTS] eqn:Eo. unfold copy_init. rewrite copy_init_inside by done. rewrite then_write_ok.
  unfold copy_fragments. rewrite copy_fragments_inside; [done| |lia|].
  - apply Forall_forall. intros f [_ Hf]%list_elem_of_filter. rewrite Forall_forall in Hfs. apply Hfs.
    eapply elem_of_submseteq; [exact Hf|]. apply sublist_submseteq, sublist_drop.
  - pose proof (length_filter (fun f => in_window v (ix_trackTimeScales ix) window f = true) (drop first (ix_fragments ix))) as Hl.
    rewrite length_drop in Hl. lia.
Qed.

(** * Playlists *)

Section segments.
Context (path : string) (fileIdx : nat) (videoTrackID videoTS startTick : Z) (trimStart : bool).

(** The fragments a playlist serves, each with its video: those that have some, and when
    entered part way those that do not end before the start. *)
Definition served (f : fragment) : option (fragment * trafEntry) :=
  t ← traf f videoTrackID;
  if trimStart && (u64 (tf_decodeTime t + tf_duration t) <=? startTick) then None else Some (f, t).

Definition ticks (g : list (fragment * trafEntry)) : Z := fold_left (fun d x => u64 (d + tf_duration x.2)) g 0.
Definition byte_end (g : list (fragment * trafEntry)) : Z :=
  fold_left (fun e (x : fragment * trafEntry) => let fragEnd := fr_mdatOffset x.1 + fr_mdatSize x.1 in if e <? fragEnd then fragEnd else e) g 0.
Definition byte_start (g : list (fragment * trafEntry)) : Z := match g with x :: _ => fr_moofOffset x.1 | [] => -1 end.
Definition first_tick (g : list (fragment * trafEntry)) : Z := match g with x :: _ => tf_decodeTime x.2 | [] => 0 end.

(** Four seconds of media, as the code reckons them. *)
Definition long_enough (g : list (fragment * trafEntry)) : bool := fge (fdiv (f64_of_Z (ticks g)) (f64_of_Z videoTS)) targetSegDur.

Definition segment_of (g : list (fragment * trafEntry)) : hlsPlaylistSegment :=
  mkSegment fileIdx (fdiv (f64_of_Z (ticks g)) (f64_of_Z videoTS)) (first_tick g) videoTS (mkRef path (byte_start g) (byte_end g)).

(** The division of the served fragments into segments: the closed ones and the open one. *)
Definition divide (st : list (list (fragment * trafEntry)) * list (fragment * trafEntry)) (x : fragment * trafEntry) :=
  if tf_isSync x.2 && negb (bool_decide (st.2 = [])) && long_enough st.2 then (st.1 ++ [st.2], [x]) else (st.1, st.2 ++ [x]).

(** The building state that stands for a division. *)
Definition stands_for (b : HLSBuild) (st : list (list (fragment * trafEntry)) * list (fragment * trafEntry)) : Prop :=
  hb_done b = segment_of <$> st.1 /\ hb_start b = byte_start st.2 /\ hb_end b = byte_end st.2 /\ hb_ticks b = ticks st.2 /\
  (st.2 <> [] -> 0 <= byte_start st.2 /\ hb_startTick b = first_tick st.2).

Lemma ticks_snoc g x : ticks (g ++ [x]) = u64 (ticks g + tf_duration x.2).
Proof. unfold ticks. by rewrite fold_left_app. Qed.
Lemma byte_end_snoc g x : byte_end (g ++ [x]) =
  if byte_end g <? fr_mdatOffset x.1 + fr_mdatSize x.1 then fr_mdatOffset x.1 + fr_mdatSize x.1 else byte_end g.
Proof. unfold byte_end. by rewrite fold_left_app. Qed.
Lemma start_snoc g x : g <> [] -> byte_start (g ++ [x]) = byte_start g /\ first_tick (g ++ [x]) = first_tick g.
Proof. by destruct g. Qed.
Lemma byte_start_neg g : (g <> [] -> 0 <= byte_start g) -> (byte_start g <? 0) = bool_decide (g = []).
Proof.
  intros Hg. destruct g as [|x g]; [done|]. rewrite bool_decide_eq_false_2 by done. apply Z.ltb_ge. by apply Hg.
Qed.

Lemma hls_fragment_divides b st f :
  0 <= fr_moofOffset f -> stands_for b st ->
  stands_for (hls_fragment path fileIdx videoTrackID videoTS startTick trimStart b f)
    (match served f with Some x => divide st x | None => st end).
Proof.
  intros Hoff Hst. unfold hls_fragment, served. destruct (traf f videoTrackID) as [t|]; [|done]. cbn [mbind option_bind].
  destruct (trimStart && _); [done|]. destruct Hst as (H1 & H2 & H3 & H4 & H5). destruct st as [gs g]. cbn [fst snd] in *.
  unfold divide. cbn [fst snd]. rewrite H2, H4.
  assert (0 <=? byte_start g = negb (bool_decide (g = []))) as ->.
  { rewrite <- byte_start_neg by tauto. rewrite <- Z.leb_antisym. done. }
  fold (long_enough g). destruct (tf_isSync t && negb (bool_decide (g = [])) && long_enough g) eqn:E.
  - apply andb_true_iff in E as [[_ Hg%negb_true_iff%bool_decide_eq_false]%andb_true_iff _].
    unfold hls_flush. rewrite H2, byte_start_neg, bool_decide_eq_false_2 by tauto. cbn.
    unfold stands_for. cbn. split_and!; [|done|done|done|done].
    rewrite fmap_app, H1. cbn. do 2 f_equal. unfold segment_of. rewrite H3, H4. by rewrite (proj2 (H5 Hg)).
  - rewrite H2, byte_start_neg by tauto. unfold stands_for. cbn [fst snd]. rewrite ticks_snoc, byte_end_snoc. case_bool_decide as Hg.
    + subst g. cbn [hb_done hb_start hb_end hb_ticks hb_startTick app]. rewrite H3, H4. done.
    + cbn [hb_done hb_start hb_end hb_ticks hb_startTick]. rewrite H2, H3, H4. destruct (start_snoc g (f, t) Hg) as [-> ->].
      split_and!; [done..|]. intros _. by apply H5.
Qed.

Lemma fold_divides fragments : forall b st,
  Forall (fun f => 0 <= fr_moofOffset f) fragments -> stands_for b st ->
  stands_for (fold_left (hls_fragment path fileIdx videoTrackID videoTS startTick trimStart) fragments b)
    (fold_left divide (omap served fragments) st).
Proof.
  induction fragments as [|f fragments IH]; intros b st Hf Hst; [done|]. apply Forall_cons in Hf as [Hoff Hf]. cbn [fold_left omap list_omap].
  pose proof (hls_fragment_divides b st f Hoff Hst) as Hs. destruct (served f) as [x|]; cbn [fold_left]; by apply IH.
Qed.

(** What a division keeps: nothing is lost or reordered, every closed segment is long
    enough, every segment but the first opens on a sync sample, and none runs past a
    sync sample once it is long enough. *)
Record division (all : list (fragment * trafEntry)) (st : list (list (fragment * trafEntry)) * list (fragment * trafEntry)) : Prop := {
  dv_all : concat st.1 ++ st.2 = all;
  dv_long : Forall (fun g => g <> [] /\ long_enough g = true) st.1;
  dv_sync : forall i g x, (st.1 ++ [st.2]) !! S i = Some (x :: g) -> tf_isSync x.2 = true;
  dv_tight : forall g p x q, g ∈ st.1 ++ [st.2] -> g = p ++ x :: q -> p <> [] -> tf_isSync x.2 = true -> long_enough p = false;
  dv_open : st.2 = [] -> st.1 = []
}.

Lemma divide_keeps all st x : division all st -> division (all ++ [x]) (divide st x).
Proof.
  intros [D1 D2 D3 D4 D5]. destruct st as [gs g]. cbn [fst snd] in *. unfold divide. cbn [fst snd].
  destruct (tf_isSync x.2 && negb (bool_decide (g = [])) && long_enough g) eqn:E.
  - apply andb_true_iff in E as [[Hs Hg%negb_true_iff%bool_decide_eq_false]%andb_true_iff Hl].
    split; cbn [fst snd].
    + rewrite concat_app. cbn. by rewrite app_nil_r, D1.
    + apply Forall_app. split; [done|]. by constructor.
    + intros i h y Hi. destruct (decide (S i < length (gs ++ [g]))%nat).
      * rewrite lookup_app_l in Hi by done. by eapply D3.
      * rewrite lookup_app_r in Hi by lia. apply list_lookup_singleton_Some in Hi as [_ [= <- <-]]. done.
    + intros h p y q [Hh| ->%list_elem_of_singleton]%elem_of_app Ehq Hp Hy; [by eapply D4|]. destruct p as [|z p]; [done|].
      injection Ehq as _ Ehq. by destruct p.
    + done.
  - split; cbn [fst snd].
    + by rewrite app_assoc, D1.
    + done.
    + intros i h y Hi. destruct (decide (S i < length gs)%nat).
      * rewrite lookup_app_l in Hi by done. apply (D3 i h). by rewrite lookup_app_l.
      * rewrite lookup_app_r in Hi by lia. apply list_lookup_singleton_Some in Hi as [Hi E2].
        destruct g as [|z g]; [pose proof (D5 eq_refl); subst gs; done|]. injection E2 as -> _. apply (D3 i g).
        rewrite lookup_app_r by lia. by rewrite Hi.
    + intros h p y q [Hh| ->%list_elem_of_singleton]%elem_of_app Ehq Hp Hy; [eapply D4; [apply elem_of_app; by left|done..]|].
      destruct q as [|z q _] using rev_ind.
      * apply app_inj_tail in Ehq as [-> ->]. rewrite Hy, bool_decide_eq_false_2 in E by done. exact E.
      * rewrite app_comm_cons, app_assoc in Ehq. apply app_inj_tail in Ehq as [-> ->].
        eapply D4; [apply elem_of_app; right; by apply list_elem_of_singleton|done..].
    + by destruct g.
Qed.

Lemma division_fold xs : forall all st, division all st -> division (all ++ xs) (fold_left divide xs st).
Proof.
  induction xs as [|x xs IH]; intros all st Hd; [by rewrite app_nil_r|]. cbn [fold_left].
  change (x :: xs) with ([x] ++ xs). rewrite app_assoc. by apply IH, divide_keeps.
Qed.

(** The segments of a playlist divide the fragments of a file.  Every fragment with
    video that is not trimmed away is in exactly one segment, in order; a segment
    reaches from the [moof] of its first fragment to the furthest end of its media and
    lasts the sum of its fragments; every segment but the last reaches the target
    duration, every one but the first opens on a sync sample, and none runs past a
    sync sample once it is long enough. *)
Theorem segmentHLSFile_partition fragments :
  Forall (fun f => 0 <= fr_moofOffset f) fragments ->
  exists groups,
    segmentHLSFile path fileIdx fragments videoTrackID videoTS startTick trimStart = segment_of <$> groups /\
    concat groups = omap served fragments /\ Forall (fun g => g <> []) groups /\
    (forall i g, groups !! i = Some g -> is_Some (groups !! S i) -> long_enough g = true) /\
    (forall i g x, groups !! S i = Some (x :: g) -> tf_isSync x.2 = true) /\
    (forall g p x q, g ∈ groups -> g = p ++ x :: q -> p <> [] -> tf_isSync x.2 = true -> long_enough p = false).
Proof.
  intros Hf. unfold segmentHLSFile.
  assert (stands_for (mkBuild [] (-1) 0 0 0) ([], [])) as H0 by by unfold stands_for.
  pose proof (fold_divides fragments _ _ Hf H0) as (H1 & H2 & H3 & H4 & H5).
  assert (division [] ([], [])) as Hd0.
  { split; cbn; [done..| | |done]; [|intros g p x q ->%list_elem_of_singleton]; by destruct i || by destruct p. }
  pose proof (division_fold (omap served fragments) _ _ Hd0) as Hd. cbn [app] in Hd.
  destruct (fold_left divide (omap served fragments) ([], [])) as [gs g]. destruct Hd as [D1 D2 D3 D4 D5]. cbn [fst snd] in *.
  unfold hls_flush. rewrite H2, byte_start_neg by tauto. case_bool_decide as Hg.
  - subst g. pose proof (D5 eq_refl). subst gs. exists []. cbn in *. split_and!; [done|done|done|by intros|by intros|].
    intros h ? ? ? Hh. by apply elem_of_nil in Hh.
  - exists (gs ++ [g]). cbn [hb_done]. split_and!.
    + rewrite fmap_app, H1. cbn. do 2 f_equal. unfold segment_of. rewrite H3, H4. by rewrite (proj2 (H5 Hg)).
    + rewrite concat_app. cbn. by rewrite app_nil_r.
    + apply Forall_app. split; [|by constructor]. eapply Forall_impl; [exact D2|]. by intros ? [].
    + intros i h Hi [h' Hi']. apply lookup_lt_Some in Hi'. rewrite length_app in Hi'. cbn in Hi'.
      rewrite lookup_app_l in Hi by lia. rewrite Forall_forall in D2. apply list_elem_of_lookup_2 in Hi. by apply D2.
    + exact D3.
    + exact D4.
Qed.
End segments.

(** A playlist can be entered on a frame that cannot be decoded.  The segmenter keeps
    the fragment that reaches past the requested start even when it opens on no sync
    sample, as the fragments written without a keyframe in time do, where a trim of
    the same file backs up to the keyframe before it. *)
Definition partial_gop_file : list fragment :=
  [mkFragment 100 50 150 1000 [mkTraf 1 0 360000 true]; mkFragment 1150 50 1200 1000 [mkTraf 1 360000 360000 false]].

Theorem hls_entry_without_keyframe :
  let startTick := tick_of (5 * Second) 90000 in
  (hs_startTick <$> segmentHLSFile "f" 0 partial_gop_file 1 90000 startTick true) = [360000] /\
  ~ opens_on_sync partial_gop_file 1 1 /\
  firstFragmentForStart partial_gop_file 1 {[1 := 90000]} (5 * Second) = 0%nat.
Proof.
  split_and!; [by vm_compute| |by vm_compute]. intros (f & t & Hf & Ht & Hs). injection Hf as <-. injection Ht as <-. done.
Qed.

(** ** The playlist *)

Definition uri_of (l : PlaylistLine) : option (string * nat) :=
  match l with SegmentURI base n => Some (base, n) | _ => None end.

Lemma uris_of_segments baseURIs fileStarts segments : forall last k,
  omap uri_of (segment_lines baseURIs fileStarts last k segments) =
  imap (fun i s => (nth (hs_fileIdx s) baseURIs ""%string, (k + i)%nat)) segments.
Proof.
  induction segments as [|s segments IH]; intros last k; [done|]. cbn [segment_lines]. rewrite !omap_app, IH.
  assert (omap uri_of (file_header baseURIs fileStarts last s) = []) as ->.
  { unfold file_header. case_bool_decide; [done|]. by destruct last, fileStarts. }
  rewrite imap_cons. cbn. rewrite Nat.add_0_r. f_equal. apply imap_ext. intros i x _. cbn. f_equal. lia.
Qed.

Section playlist.
Context `{BoxReader} `{TrackOrder}.

Lemma segmentHLSFile_file path fileIdx fragments v ts startTick trim :
  Forall (fun s => hs_fileIdx s = fileIdx /\ hr_FilePath (hs_ref s) = path) (segmentHLSFile path fileIdx fragments v ts startTick trim).
Proof.
  unfold segmentHLSFile. set (P := fun s => hs_fileIdx s = fileIdx /\ hr_FilePath (hs_ref s) = path).
  assert (forall b, Forall P (hb_done b) -> Forall P (hb_done (hls_flush path fileIdx ts b))) as Hflush.
  { intros b Hb. unfold hls_flush. destruct (hb_start b <? 0); [done|]. cbn. apply Forall_app. split; [done|]. by repeat constructor. }
  apply Hflush. assert (Forall P (hb_done (mkBuild [] (-1) 0 0 0))) as Hb by constructor. revert Hb.
  generalize (mkBuild [] (-1) 0 0 0). induction fragments as [|f fragments IH]; intros b Hb; [done|]. cbn [fold_left]. apply IH.
  unfold hls_fragment. destruct (traf f v) as [t|]; [|done]. destruct (trim && _); [done|]. cbn [hb_done].
  destruct (tf_isSync t && _ && _); [|by destruct (hb_start b <? 0)].
  pose proof (Hflush b Hb). by destruct (hb_start (hls_flush path fileIdx ts b) <? 0).
Qed.

Lemma all_segments_files open_ start paths : forall k segments,
  all_segments open_ start k paths = Some segments ->
  Forall (fun s => exists i, hs_fileIdx s = (k + i)%nat /\ paths !! i = Some (hr_FilePath (hs_ref s))) segments /\
  StronglySorted (fun a b => (hs_fileIdx a <= hs_fileIdx b)%nat) segments.
Proof.
  induction paths as [|path paths IH]; intros k segments; cbn [all_segments].
  { intros [= <-]. split; constructor. }
  destruct (file_segments open_ start k path) as [a|] eqn:Ea; [|done]. cbn [mbind option_bind].
  destruct (all_segments open_ start (S k) paths) as [b|] eqn:Eb; [|done]. intros [= <-].
  destruct (IH _ _ Eb) as [Hb Hsb].
  assert (Forall (fun s => hs_fileIdx s = k /\ hr_FilePath (hs_ref s) = path) a) as Ha.
  { unfold file_segments in Ea. destruct (open_ path) as [src|]; [|done]. cbn [mbind option_bind] in Ea.
    destruct (indexHLSFile src) as [[[fs v] ts]|]; injection Ea as <-; [apply segmentHLSFile_file|constructor]. }
  split.
  - apply Forall_app. split.
    + eapply Forall_impl; [exact Ha|]. intros s [-> <-]. exists 0%nat. split; [lia|done].
    + eapply Forall_impl; [exact Hb|]. intros s (i & -> & Hi). exists (S i). split; [lia|done].
  - clear Eb Ea. induction a as [|s a IHa]; [done|]. apply Forall_cons in Ha as [[Hs _] Ha]. cbn. constructor; [by apply IHa|].
    apply Forall_app. split; eapply Forall_impl; try done; cbn; intros x; [intros [-> _]; lia|intros (i & -> & _); lia].
Qed.

(** A playlist's segments are numbered in order and resolve to their files.  The
    [n]th address of the playlist names the [n]th range it was returned with, under the
    address of the file that range is in, and the files come in the order they were
    given. *)
Theorem playlist_resolves open_ paths baseURIs fileStarts start lines refs :
  GenerateHLSPlaylist open_ paths baseURIs fileStarts start = Ok (lines, refs) ->
  refs <> [] /\ exists files : list nat,
    length files = length refs /\ StronglySorted Nat.le files /\
    (forall n i r, files !! n = Some i -> refs !! n = Some r -> paths !! i = Some (hr_FilePath r) /\ (i < length baseURIs)%nat) /\
    omap uri_of lines = imap (fun n i => (nth i baseURIs ""%string, n)) files.
Proof.
  unfold GenerateHLSPlaylist. destruct (validateHLSInputs paths baseURIs fileStarts) as [[]|] eqn:Ev; [|done]. cbn [rbind].
  destruct (all_segments open_ start 0 paths) as [[|s segments]|] eqn:Es; [done| |done]. unfold buildHLSPlaylist. intros [= <- <-].
  split; [done|]. set (segs := s :: segments) in *. exists (hs_fileIdx <$> segs).
  destruct (all_segments_files _ _ _ _ _ Es) as [Hf Hs]. split_and!.
  - rewrite length_fmap. subst segs. cbn. by rewrite length_fmap.
  - clear -Hs. induction Hs as [|x l Hs IH Hx]; [constructor|]. cbn. constructor; [done|]. by apply Forall_fmap.
  - intros n i r Hi Hr'. assert ((hs_ref <$> segs) !! n = Some r) as Hr by exact Hr'. clear Hr'.
    rewrite list_lookup_fmap in Hi. rewrite list_lookup_fmap in Hr. destruct (segs !! n) as [x|] eqn:Ex; [|done]. injection Hi as <-. injection Hr as <-.
    rewrite Forall_forall in Hf. destruct (Hf x (list_elem_of_lookup_2 _ _ _ Ex)) as (j & -> & Hj). split; [done|].
    apply lookup_lt_Some in Hj. unfold validateHLSInputs in Ev. destruct (Nat.eqb (length paths) 0); [done|].
    destruct (Nat.eqb_spec (length paths) (length baseURIs)); [lia|done].
  - transitivity (omap uri_of (start_tag s start ++ segment_lines baseURIs fileStarts None 0 segs ++ [ExtEndList])); [done|].
    rewrite !omap_app, uris_of_segments. assert (omap uri_of (start_tag s start) = []) as -> by (unfold start_tag; destruct (_ || _); [done|]; by destruct (fgt _ _)).
    cbn [omap list_omap uri_of app]. rewrite app_nil_r. generalize segs. clear. intros segs.
    rewrite imap_fmap. apply imap_ext. intros i x _. cbn. done.
Qed.
End playlist.

(** ** Concatenation *)

Lemma fold_insert_keeps {A} (val : trafEntry -> A) ts : forall (m : gmap Z A) id,
  id ∉ tf_trackID <$> ts -> fold_left (fun m t => <[tf_trackID t := val t]> m) ts m !! id = m !! id.
Proof.
  induction ts as [|t ts IH]; intros m id Hid; [done|]. cbn in *. apply not_elem_of_cons in Hid as [Hne Hid].
  rewrite IH by done. by rewrite lookup_insert_ne.
Qed.

Lemma adjusted_lookup f scales o oTS offset t :
  NoDup (tf_trackID <$> fr_trafs f) -> t ∈ fr_trafs f ->
  adjustedFragmentTimes f scales o oTS offset !! tf_trackID t = Some (adjusted_time scales o oTS offset t).
Proof.
  unfold adjustedFragmentTimes. generalize (∅ : gmap Z Z). induction (fr_trafs f) as [|u l IH]; intros m Hnd Ht; [by apply elem_of_nil in Ht|].
  cbn in *. apply NoDup_cons in Hnd as [Hu Hnd]. apply elem_of_cons in Ht as [<-|Ht]; [|by apply IH].
  rewrite fold_insert_keeps by done. by rewrite lookup_insert_eq.
Qed.

Lemma traf_elem f v t : traf f v = Some t -> t ∈ fr_trafs f /\ tf_trackID t = v.
Proof. intros [Ht%list_elem_of_In Hv%Z.eqb_eq]%find_some. done. Qed.

Lemma traf_none f v : traf f v = None -> v ∉ tf_trackID <$> fr_trafs f.
Proof.
  intros Hn (t & -> & Ht)%list_elem_of_fmap. apply list_elem_of_In in Ht. pose proof (find_none _ _ Hn t Ht) as H0. cbn in H0. by rewrite Z.eqb_refl in H0.
Qed.

(** How far a fragment extends the timeline of a track. *)
Lemma extend_times_lookup bases f global v g :
  NoDup (tf_trackID <$> fr_trafs f) -> global !! v = Some g -> 0 <= g ->
  extend_times bases f global !! v = Some (match traf f v with
    | Some t => Z.max g (u64 (default 0 (bases !! v) + tf_duration t)) | None => g end).
Proof.
  intros Hnd Hg Hg0. unfold extend_times.
  set (step := fun g t => let end_ := u64 (default 0 (bases !! tf_trackID t) + tf_duration t) in
    if default 0 (g !! tf_trackID t) <? end_ then <[tf_trackID t := end_]> g else g).
  assert (forall l m, v ∉ tf_trackID <$> l -> fold_left step l m !! v = m !! v) as Hskip.
  { induction l as [|u l IH]; intros m Hv; [done|]. cbn in Hv |- *. apply not_elem_of_cons in Hv as [Hne Hv]. rewrite IH by done.
    unfold step. cbn zeta. destruct (_ <? _); [by rewrite lookup_insert_ne|done]. }
  destruct (traf f v) as [t|] eqn:Et.
  - apply traf_elem in Et as [Ht <-]. revert global Hg. induction (fr_trafs f) as [|u l IH]; intros m Hm; [by apply elem_of_nil in Ht|].
    cbn in Hnd |- *. apply NoDup_cons in Hnd as [Hu Hnd]. apply elem_of_cons in Ht as [<-|Ht].
    + rewrite Hskip by done. unfold step. cbn zeta. rewrite Hm. cbn [default from_option Datatypes.id].
      destruct (Z.ltb_spec g (u64 (default 0 (bases !! tf_trackID t) + tf_duration t))); [rewrite lookup_insert_eq|rewrite Hm]; f_equal; lia.
    + apply IH; [done|done|]. unfold step. cbn zeta. destruct (_ <? _); [|done].
      rewrite lookup_insert_ne; [done|]. intros E. apply Hu. rewrite E. apply list_elem_of_fmap. by exists t.
  - rewrite Hskip by by apply traf_none. done.
Qed.

Section concat.
Context `{BoxReader} `{TrackOrder}.
Context (src : bytes) (scales : gmap Z Z) (v origin originTS start : Z).
#[local] Abbreviation times := (fun f => adjustedFragmentTimes f scales origin originTS start).

(** A fragment whose video, if any, is placed without overflow. *)
Definition placed (f : fragment) : Prop :=
  NoDup (tf_trackID <$> fr_trafs f) /\ fragment_inside src f /\
  forall t, traf f v = Some t -> origin <= tf_decodeTime t /\ 0 <= tf_duration t /\
    tf_decodeTime t + tf_duration t + start * originTS < 2 ^ 64.

(** Where the video of a fragment lands, and where it ends. *)
Definition landed (t : trafEntry) : Z := start + (tf_decodeTime t - origin).
Definition video_end (g : Z) (fs : list fragment) : Z :=
  fold_left (fun g f => match traf f v with Some t => Z.max g (landed t + tf_duration t) | None => g end) fs g.

Context (Hscale : scale_of scales v = originTS) (Hts : 0 < originTS) (Ho : 0 <= origin) (Hs : 0 <= start)
  (Hov : origin * originTS < 2 ^ 64).

Lemma placed_lands f t : placed f -> traf f v = Some t -> times f !! v = Some (landed t) /\ landed t + tf_duration t < 2 ^ 64.
Proof.
  intros (Hnd & _ & Hp) Ht. destruct (Hp t Ht) as (H1 & H2 & H3). destruct (traf_elem _ _ _ Ht) as [Hin Hid].
  rewrite <- Hid, adjusted_lookup by done.
  destruct (adjusted_times_in_step scales origin originTS start t) as (E & _); rewrite ?Hid, ?Hscale in *; try nia.
  rewrite E by done. unfold landed. split; [f_equal; lia|nia].
Qed.

Lemma concat_fold fs : forall st g out k,
  Forall placed fs -> cc_out st = (out, false) -> cc_seqNum st = k -> 0 <= k -> k + Z.of_nat (length fs) < 2 ^ 32 ->
  cc_baseTimes st !! v = Some g -> 0 <= g ->
  let st' := fold_left (concat_fragment src scales origin originTS start) fs st in
  cc_out st' = (out ++ concat (imap (fun i f => fragment_bytes src times (k + Z.of_nat i) f) fs), false) /\
  cc_baseTimes st' !! v = Some (video_end g fs) /\ cc_videoTrackID st' = cc_videoTrackID st /\
  cc_initWritten st' = cc_initWritten st /\ cc_seqNum st' = k + Z.of_nat (length fs).
Proof.
  induction fs as [|f fs IH]; intros st g out k Hfs Hout Hk Hk0 Hmax Hg Hg0 st'.
  { subst st'. cbn. rewrite app_nil_r. split_and!; try done. lia. }
  apply Forall_cons in Hfs as [Hf Hfs]. cbn [length] in Hmax. pose proof Hf as (Hnd & Hin & Hp).
  assert (concat_fragment src scales origin originTS start st f =
    mkConcat (out ++ fragment_bytes src times k f, false) (k + 1) (extend_times (times f) f (cc_baseTimes st)) (cc_videoTimeScale st)
      (cc_videoTrackID st) (cc_initWritten st)) as E.
  { unfold concat_fragment. rewrite Hout, Hk. cbn [fst snd]. rewrite (copyFragment_inside src f k times out Hin). cbn [snd].
    by rewrite u32_small by lia. }
  subst st'. cbn [fold_left]. rewrite E. set (g' := match traf f v with Some t => Z.max g (landed t + tf_duration t) | None => g end).
  assert (extend_times (times f) f (cc_baseTimes st) !! v = Some g') as Hg'.
  { rewrite (extend_times_lookup _ _ _ _ g) by done. f_equal. subst g'. destruct (traf f v) as [t|] eqn:Et; [|done].
    destruct (placed_lands f t Hf Et) as [-> Hlt]. cbn. destruct (Hp t eq_refl) as (? & ? & ?). rewrite u64_small; [done|]. unfold landed in *. lia. }
  edestruct (IH (mkConcat (out ++ fragment_bytes src times k f, false) (k + 1) (extend_times (times f) f (cc_baseTimes st)) (cc_videoTimeScale st)
      (cc_videoTrackID st) (cc_initWritten st)) g' (out ++ fragment_bytes src times k f) (k + 1)) as (H1 & H2 & H3 & H4 & H5); [done|reflexivity|reflexivity|lia|lia|exact Hg'|subst g'; destruct (traf f v); lia|].
  split_and!; [|exact H2|exact H3|exact H4|rewrite H5; cbn [length]; lia].
  rewrite H1, imap_cons. cbn [concat]. rewrite Z.add_0_r, <- app_assoc. do 3 f_equal. f_equal. apply imap_ext. intros i x _. cbn. f_equal. lia.
Qed.

(** Concatenated files follow one another without a gap or an overlap of video.  A
    file read after the first adds its fragments, numbered on; its first video lands
    where the video so far ended and the rest keeps its distance from it, and the next
    file will start where this one's video ends. *)
Theorem concat_continuous st ix out t :
  cc_out st = (out, false) -> cc_videoTrackID st = v -> v <> 0 -> cc_initWritten st = true -> cc_baseTimes st !! v = Some start ->
  indexFile src = (ix, None) -> ix_trackTimeScales ix = scales ->
  head (omap (fun f => traf f v) (ix_fragments ix)) = Some t -> tf_decodeTime t = origin ->
  Forall placed (ix_fragments ix) -> 0 <= cc_seqNum st -> cc_seqNum st + Z.of_nat (length (ix_fragments ix)) < 2 ^ 32 ->
  let st' := concat_input st (Some src) in
  cc_out st' = (out ++ concat (imap (fun i f => fragment_bytes src times (cc_seqNum st + Z.of_nat i) f) (ix_fragments ix)), false) /\
  (forall f u, f ∈ ix_fragments ix -> traf f v = Some u -> times f !! v = Some (start + (tf_decodeTime u - tf_decodeTime t))) /\
  cc_baseTimes st' !! v = Some (video_end start (ix_fragments ix)) /\
  (forall f u, f ∈ ix_fragments ix -> traf f v = Some u -> landed u + tf_duration u <= video_end start (ix_fragments ix)).
Proof.
  intros Hout Hv Hv0 Hinit Hbase Hix Hsc Ht Hto Hfs Hk Hmax st'. subst st'. unfold concat_input. rewrite Hout. cbn [snd].
  rewrite Hix, Hv, (proj2 (Z.eqb_neq v 0)), Hinit by done. cbn [snd]. rewrite Hbase, Hsc. cbn [default from_option Datatypes.id].
  unfold trimTimelineOrigin. rewrite drop_0, Ht, Hto, Hscale.
  edestruct (concat_fold (ix_fragments ix) (mkConcat (out, false) (cc_seqNum st) (cc_baseTimes st) (cc_videoTimeScale st) v true) start out (cc_seqNum st))
    as (H1 & H2 & _); [done|reflexivity|reflexivity|done|done|exact Hbase|done|].
  split_and!; [exact H1| |exact H2|].
  - intros f u Hf Hu. rewrite Forall_forall in Hfs. by destruct (placed_lands f u (Hfs f Hf) Hu) as [-> _].
  - unfold video_end. clear. generalize start. induction (ix_fragments ix) as [|f fs IH]; intros g f' u Hf Hu; [by apply elem_of_nil in Hf|].
    cbn [fold_left]. apply elem_of_cons in Hf as [<-|Hf]; [|by eapply IH].
    rewrite Hu. assert (forall fs g, g <= fold_left (fun g f => match traf f v with Some t => Z.max g (landed t + tf_duration t) | None => g end) fs g) as Hle.
    { clear. induction fs as [|f fs IH]; intros g; [cbn; lia|]. cbn [fold_left]. etransitivity; [|apply IH]. destruct (traf f v); lia. }
    etransitivity; [|apply Hle]. lia.
Qed.
End concat.

(** ** Instances: a file of two video fragments, the second with audio *)

Definition sample_frags : list FragSpec :=
  [mkFragSpec (mkLoc 100 40) (mkLoc 140 60) [mkTrafSpec 1 0 0 900000 [mkRun 0x4 0 [mkTrunEntry 180000 0; mkTrunEntry 90000 0]]];
   mkFragSpec (mkLoc 200 40) (mkLoc 240 60)
     [mkTrafSpec 1 0x20 0x10000 1170000 [mkRun 0 0 [mkTrunEntry 180000 0]]; mkTrafSpec 2 0 0 480512 [mkRun 0 0 [mkTrunEntry 1024 0]]]].

Definition sample_src : bytes := replicate 300 1.

#[local] Instance sample_reader : BoxReader := fun _ => (layout (mkLoc 0 20) (mkLoc 20 80) [(1, 90000); (2, 48000)] sample_frags, None).
#[local] Instance sample_track_order : TrackOrder := map_to_list.

Lemma index_of_layout_witness :
  exists ix, indexFile sample_src = (ix, None) /\
    ix_fragments ix = [mkFragment 100 40 140 60 [mkTraf 1 900000 270000 true];
                       mkFragment 200 40 240 60 [mkTraf 1 1170000 180000 false; mkTraf 2 480512 1024 true]].
Proof.
  destruct (index_of_layout sample_src (mkLoc 0 20) (mkLoc 20 80) [(1, 90000); (2, 48000)] sample_frags None) as (ix & E & _ & Hf & _);
    [reflexivity|repeat constructor; done|].
  exists ix. split; [exact E|]. rewrite Hf. by vm_compute.
Defined.

Definition sample_index : fmp4Index := (indexFile sample_src).1.

Lemma adjusted_times_in_step_witness :
  let scales := ix_trackTimeScales sample_index in
  adjusted_time scales 900000 90000 90000 (mkTraf 1 1170000 180000 false) = 360000 /\
  Z.abs (adjusted_time scales 900000 90000 90000 (mkTraf 2 480512 1024 true) * 90000 - (480512 * 90000 - 900000 * 48000 + 90000 * 48000)) < 90000.
Proof.
  intros scales. split.
  - destruct (adjusted_times_in_step scales 900000 90000 90000 (mkTraf 1 1170000 180000 false)) as [E _]; [by vm_compute..|].
    rewrite E; by vm_compute.
  - destruct (adjusted_times_in_step scales 900000 90000 90000 (mkTraf 2 480512 1024 true)) as (_ & E & _); [by vm_compute..|].
    apply E. by vm_compute.
Defined.

Lemma segmentHLSFile_partition_witness :
  exists groups, segmentHLSFile "f" 0 (ix_fragments sample_index) 1 90000 0 false = segment_of "f" 0 90000 <$> groups /\
    concat groups = omap (served 1 0 false) (ix_fragments sample_index).
Proof.
  destruct (segmentHLSFile_partition "f" 0 1 90000 0 false (ix_fragments sample_index)) as (groups & E & Hc & _).
  - repeat constructor; vm_compute; discriminate.
  - by exists groups.
Defined.

Lemma concat_continuous_witness :
  let st := concat_input concat_start (Some sample_src) in
  cc_baseTimes st !! 1 = Some 450000 /\
  adjustedFragmentTimes (mkFragment 200 40 240 60 [mkTraf 1 1170000 180000 false; mkTraf 2 480512 1024 true])
    (ix_trackTimeScales sample_index) 900000 90000 450000 !! 1 = Some 720000.
Proof.
  intros st. split; [by vm_compute|].
  destruct (concat_continuous sample_src (ix_trackTimeScales sample_index) 1 900000 90000 450000 ltac:(by vm_compute) ltac:(lia) ltac:(lia) ltac:(lia)
    ltac:(lia) st sample_index (cc_out st).1 (mkTraf 1 900000 270000 true)) as (_ & Hland & _);
    [by vm_compute|by vm_compute|done|by vm_compute|by vm_compute|by vm_compute|by vm_compute|by vm_compute|by vm_compute| |by vm_compute|by vm_compute|].
  - apply Forall_forall. intros f Hf. change (f ∈ [mkFragment 100 40 140 60 [mkTraf 1 900000 270000 true];
      mkFragment 200 40 240 60 [mkTraf 1 1170000 180000 false; mkTraf 2 480512 1024 true]]) in Hf.
    assert (forall f, NoDup (tf_trackID <$> fr_trafs f) -> fragment_inside sample_src f -> (forall t, traf f 1 = Some t -> 900000 <= tf_decodeTime t /\ 0 <= tf_duration t /\
      tf_decodeTime t + tf_duration t + 450000 * 90000 < 2 ^ 64) -> placed sample_src 1 900000 90000 450000 f) as Hp by done.
    apply elem_of_cons in Hf as [->|Hf%list_elem_of_singleton]; [|subst f]; (apply Hp; [apply (bool_decide_unpack _); by vm_compute|by vm_compute|]);
      intros t Ht; cbn in Ht; injection Ht as <-; cbn; lia.
  - pose proof (Hland (mkFragment 200 40 240 60 [mkTraf 1 1170000 180000 false; mkTraf 2 480512 1024 true]) (mkTraf 1 1170000 180000 false)) as E.
    etransitivity; [apply E; [right; by left|done]|]. by vm_compute.
Defined.

Lemma playlist_resolves_witness :
  exists lines refs, GenerateHLSPlaylist (fun _ => Some sample_src) ["a"; "b"] ["/a"; "/b"] None 0 = Ok (lines, refs) /\
    length refs = 2%nat /\ omap uri_of lines = [("/a", 0%nat); ("/b", 1%nat)].
Proof.
  destruct (GenerateHLSPlaylist (fun _ => Some sample_src) ["a"; "b"] ["/a"; "/b"] None 0) as [[lines refs]|] eqn:E; [|by vm_compute in E].
  exists lines, refs. split; [done|]. destruct (playlist_resolves _ _ _ _ _ _ _ E) as (_ & files & Hl & _ & _ & Hu).
  vm_compute in E. injection E as <- <-. split; [done|]. by vm_compute.
Defined.
