(* ===== verification/Mp4Trim.v ===== *)
(** What a trim of a recording is ([TrimMP4] of [media/mp4reader.go]), told by its
    fragments: which of them it keeps, where they are moved on the timeline, and what
    becomes of their bytes.

    The headers of the fragments are laid out as their boxes ([Mp4BytesTheorems]); which
    tracks a fragment has, and when it plays, is the index's ([Mp4IndexTheorems]). *)

From S2P Require Import Prelude Float64 Mp4Bytes Mp4Index Mp4IndexTheorems Mp4BytesTheorems.
From Stdlib Require Import SpecFloat.

#[local] Open Scope list_scope.
#[local] Open Scope Z_scope.

(** ** Which fragments *)

Section kept.
Context (scales : gmap Z Z) (v : Z).

(** The track that places a fragment on the timeline: its video, or, without one, the first. *)
Definition places (f : fragment) (t : trafEntry) : Prop :=
  (t ∈ fr_trafs f /\ tf_trackID t = v) \/ (v ∉ tf_trackID <$> fr_trafs f /\ head (fr_trafs f) = Some t).

(** A moment in the ticks of a track, which has 90000 of them a second unless it says otherwise. *)
Definition ticks (t : trafEntry) (moment : Z) : Z :=
  let s := scale_of scales (tf_trackID t) in tick_of moment (if decide (s = 0) then 90000 else s).

Definition ends_after (start : Z) (f : fragment) : Prop :=
  exists t, places f t /\ ticks t start < u64 (tf_decodeTime t + tf_duration t).

(** It has a place on the timeline, and starts before the window has passed. *)
Definition starts_in (window : option (Z * Z)) (f : fragment) : Prop :=
  exists t, places f t /\
    match window with None => True | Some (start, duration) => tf_decodeTime t < u64 (ticks t start + ticks t duration) end.

(** Where a trim starts: at the newest fragment whose video opens on a sync sample, of those
    up to the first that ends after the start; at that one when there is none; and nowhere
    when all have ended by then. *)
Definition starts_at (start : Z) (fs : list fragment) (r : nat) : Prop :=
  (r = length fs /\ forall f, f ∈ fs -> ~ ends_after start f) \/
  exists o f, (r <= o)%nat /\ fs !! o = Some f /\ ends_after start f /\
    (forall j g, (j < o)%nat -> fs !! j = Some g -> ~ ends_after start g) /\
    ((opens_on_sync fs v r /\ forall j, (r < j <= o)%nat -> ~ opens_on_sync fs v j) \/
     (r = o /\ forall j, (j <= o)%nat -> ~ opens_on_sync fs v j)).

(** The origin of the new timeline: the decode time of the first video from the start on. *)
Definition begins_at (fs : list fragment) (r : nat) (origin originTS : Z) : Prop :=
  (exists j f t, (r <= j)%nat /\ fs !! j = Some f /\ t ∈ fr_trafs f /\ tf_trackID t = v /\
     (forall k g, (r <= k < j)%nat -> fs !! k = Some g -> v ∉ tf_trackID <$> fr_trafs g) /\
     origin = tf_decodeTime t /\ originTS = scale_of scales v) \/
  ((forall k g, (r <= k)%nat -> fs !! k = Some g -> v ∉ tf_trackID <$> fr_trafs g) /\ origin = 0 /\ originTS = 90000).

(** ** Where they are moved *)

(** The new decode time of a track: the video keeps its distance from the origin; another
    track lands within one tick of where the same shift in seconds puts it, and what
    starts before the origin lands on zero. *)
Definition moved_to (origin originTS : Z) (t : trafEntry) (time : Z) : Prop :=
  let s := scale_of scales (tf_trackID t) in
  (s = originTS -> origin <= tf_decodeTime t -> time = tf_decodeTime t - origin) /\
  (origin * s <= tf_decodeTime t * originTS -> Z.abs (time * originTS - (tf_decodeTime t * originTS - origin * s)) < originTS) /\
  (tf_decodeTime t * originTS <= origin * s -> time = 0).

(** A box of a header as it was, but for the sequence number of the fragment and the decode
    times of its tracks. *)
Inductive rewritten (seqNum origin originTS : Z) (f : fragment) : MoofBox -> MoofBox -> Prop :=
| rw_mfhd flags n rest : rewritten seqNum origin originTS f (Mfhd flags n rest) (Mfhd flags seqNum rest)
| rw_traf bs t time : t ∈ fr_trafs f -> tf_trackID t = traf_id bs -> moved_to origin originTS t time ->
    rewritten seqNum origin originTS f (Traf bs) (Traf (tb_set_time time <$> bs))
| rw_untracked bs : traf_id bs ∉ tf_trackID <$> fr_trafs f -> rewritten seqNum origin originTS f (Traf bs) (Traf bs)
| rw_other ty payload : rewritten seqNum origin originTS f (MoofOther ty payload) (MoofOther ty payload).

(** Tracks that are told apart, and times that fit. *)
Record timeline_fits (fs : list fragment) : Prop := {
  tl_tracks f : f ∈ fs -> NoDup (tf_trackID <$> fr_trafs f);
  tl_times f t : f ∈ fs -> t ∈ fr_trafs f -> 0 <= tf_decodeTime t < 2 ^ 64;
  tl_scales id : 0 <= scale_of scales id;
  tl_video f : f ∈ fs -> v ∈ tf_trackID <$> fr_trafs f -> 0 < scale_of scales v;
  tl_products f t id : f ∈ fs -> t ∈ fr_trafs f -> tf_trackID t = v -> tf_decodeTime t * scale_of scales id < 2 ^ 64
}.

(** ** What the code computes of it *)

Lemma refTraf_places f t : NoDup (tf_trackID <$> fr_trafs f) -> refTrafForWindow f v = Some t <-> places f t.
Proof using.
  intros Hnd. unfold refTrafForWindow, places. destruct (traf f v) as [u|] eqn:E.
  - destruct (traf_elem _ _ _ E) as [Hu Hv]. split.
    + intros [= <-]. by left.
    + intros [[Ht Htv]|[Hno _]]; [|exfalso; apply Hno; rewrite <- Hv; by apply list_elem_of_fmap_2].
      f_equal. clear E. induction (fr_trafs f) as [|x l IH]; [by apply elem_of_nil in Hu|]. cbn in Hnd. apply NoDup_cons in Hnd as [Hx Hnd].
      apply elem_of_cons in Hu as [->|Hu]; apply elem_of_cons in Ht as [->|Ht]; [done| | |by apply IH];
        exfalso; apply Hx; [rewrite Hv, <- Htv|rewrite Htv, <- Hv]; by apply list_elem_of_fmap_2.
  - pose proof (traf_none _ _ E) as Hno. split; [by right|]. intros [[Ht <-]|[_ Hh]]; [|done].
    exfalso. apply Hno. by apply list_elem_of_fmap_2.
Qed.

Lemma scale_or_default_eq s : scale_or_default s = if decide (s = 0) then 90000 else s.
Proof using. unfold scale_or_default. destruct (Z.eqb_spec s 0); [by rewrite decide_True|by rewrite decide_False]. Qed.

Lemma overlaps_spec start f : NoDup (tf_trackID <$> fr_trafs f) -> overlaps v scales start f = true <-> ends_after start f.
Proof using.
  intros Hnd. unfold overlaps, ends_after, ticks. split.
  - destruct (refTrafForWindow f v) as [t|] eqn:E; [|done]. rewrite scale_or_default_eq. intros H%Z.ltb_lt. exists t.
    split; [by apply refTraf_places|done].
  - intros (t & Ht & H). apply (refTraf_places f t Hnd) in Ht as ->. rewrite scale_or_default_eq. by apply Z.ltb_lt.
Qed.

Lemma in_window_spec window f : NoDup (tf_trackID <$> fr_trafs f) -> in_window v scales window f = true <-> starts_in window f.
Proof using.
  intros Hnd. unfold in_window, starts_in, ticks. split.
  - destruct (refTrafForWindow f v) as [t|] eqn:E; [|done]. intros H. exists t. split; [by apply refTraf_places|].
    destruct window as [[start duration]|]; [|done]. rewrite scale_or_default_eq in H. by apply Z.ltb_lt.
  - intros (t & Ht & H). apply (refTraf_places f t Hnd) in Ht as ->. destruct window as [[start duration]|]; [|done].
    rewrite scale_or_default_eq. by apply Z.ltb_lt.
Qed.

Lemma firstFragment_starts_at start fs :
  (forall f, f ∈ fs -> NoDup (tf_trackID <$> fr_trafs f)) -> starts_at start fs (firstFragmentForStart fs v scales start).
Proof using.
  intros Hnd. assert (forall f, f ∈ fs -> overlaps v scales start f = false <-> ~ ends_after start f) as Hno.
  { intros f Hf. rewrite <- (overlaps_spec start f) by by apply Hnd. by rewrite not_true_iff_false. }
  destruct (trim_starts_on_sync fs v scales start) as [[Hr Hall]|(o & Ho & (f & Hf & Hov) & Hbefore & Hsync)]; [left|right].
  - split; [exact Hr|]. intros f Hf. apply Hno; [done|]. by apply Hall.
  - exists o, f. split; [lia|]. split; [done|]. split; [apply overlaps_spec; [apply Hnd; by eapply list_elem_of_lookup_2|done]|].
    split; [|exact Hsync]. intros j g Hj Hg. apply Hno; [by eapply list_elem_of_lookup_2|]. by apply (Hbefore j).
Qed.
Lemma head_omap {A B} (g : A -> option B) l :
  match head (omap g l) with
  | Some b => exists j a, l !! j = Some a /\ g a = Some b /\ forall k c, (k < j)%nat -> l !! k = Some c -> g c = None
  | None => forall k c, l !! k = Some c -> g c = None
  end.
Proof using.
  induction l as [|a l IH]; [by intros k c|]. cbn. destruct (g a) as [b|] eqn:E; cbn.
  - exists 0%nat, a. split; [done|]. split; [done|]. intros. lia.
  - destruct (head (omap g l)) as [b|].
    + destruct IH as (j & a' & Hj & Hg & Hb). exists (S j), a'. split; [done|]. split; [done|].
      intros [|k] c Hk Hc; [by injection Hc as <-|]. apply (Hb k); [lia|done].
    + intros [|k] c Hc; [by injection Hc as <-|by apply (IH k)].
Qed.

Lemma origin_begins_at fs r :
  let o := trimTimelineOrigin fs r v scales in begins_at fs r o.1 o.2.
Proof using.
  unfold trimTimelineOrigin. pose proof (head_omap (fun f => traf f v) (drop r fs)) as Hh. cbn zeta.
  assert (forall k g, (r <= k)%nat -> fs !! k = Some g -> drop r fs !! (k - r)%nat = Some g) as Hdrop
    by (intros k g Hk Hg; rewrite lookup_drop; by replace (r + (k - r))%nat with k by lia).
  destruct (head _) as [t|]; cbn [fst snd].
  - destruct Hh as (j & f & Hj & Ht & Hno). rewrite lookup_drop in Hj. destruct (traf_elem _ _ _ Ht) as [Hin Hv]. left.
    exists (r + j)%nat, f, t. split_and!; [lia|done|done|done| |done|done].
    intros k g Hk Hg. apply traf_none. apply (Hno (k - r)%nat); [lia|]. apply Hdrop; [lia|done].
  - right. split; [|done]. intros k g Hk Hg. apply traf_none. by apply (Hh (k - r)%nat), Hdrop.
Qed.

Lemma moved_adjusted fs r o oTS f t :
  timeline_fits fs -> begins_at fs r o oTS -> f ∈ fs -> t ∈ fr_trafs f -> moved_to o oTS t (adjusted_time scales o oTS 0 t).
Proof using.
  intros Hfits Hb Hf Ht. pose proof (tl_scales _ Hfits (tf_trackID t)) as Hs. pose proof (tl_times _ Hfits f t Hf Ht) as Htime.
  assert (0 < oTS /\ 0 <= o /\ o * scale_of scales (tf_trackID t) < 2 ^ 64) as (Hts & Ho & Hprod).
  { destruct Hb as [(j & g & u & _ & Hg & Hu & Hv & _ & -> & ->)|(_ & -> & ->)]; [|lia].
    pose proof (list_elem_of_lookup_2 _ _ _ Hg) as Hin. split_and!.
    - apply (tl_video _ Hfits g Hin). rewrite <- Hv. by apply list_elem_of_fmap_2.
    - apply (tl_times _ Hfits g u Hin Hu).
    - by apply (tl_products _ Hfits g u). }
  destruct (adjusted_times_in_step scales o oTS 0 t) as (H1 & H2 & H3 & _); [lia..|].
  unfold moved_to. cbn zeta in *. rewrite !Z.mul_0_l in *. split_and!.
  - intros Hsc Hle. rewrite H1 by done. lia.
  - intros Hle. specialize (H2 Hle). by rewrite Z.add_0_r in H2.
  - intros Hle. rewrite H3 by done. by apply Z.div_0_l; lia.
Qed.

(** What the patch makes of a header. *)
Lemma patched_rewritten fs r o oTS f seqNum boxes :
  timeline_fits fs -> begins_at fs r o oTS -> f ∈ fs ->
  Forall2 (rewritten seqNum o oTS f) boxes (mb_patch seqNum (adjustedFragmentTimes f scales o oTS 0) <$> boxes).
Proof using.
  intros Hfits Hb Hf. pose proof (tl_tracks _ Hfits f Hf) as Hnd. induction boxes as [|b boxes IH]; [constructor|].
  cbn. constructor; [|done]. destruct b as [flags n rest|bs|ty payload]; cbn [mb_patch]; [constructor| |constructor].
  destruct (decide (traf_id bs ∈ tf_trackID <$> fr_trafs f)) as [(t & Hid & Ht)%list_elem_of_fmap|Hno].
  - rewrite Hid, adjusted_lookup by done. eapply rw_traf; [done|done|]. by eapply moved_adjusted.
  - assert (adjustedFragmentTimes f scales o oTS 0 !! traf_id bs = None) as ->.
    { unfold adjustedFragmentTimes. rewrite (fold_insert_keeps (adjusted_time scales o oTS 0)); [done|exact Hno]. }
    by constructor.
Qed.
End kept.

(** ** The trim *)

(** The positions of what a filter keeps of a list from one on. *)
Lemma filter_positions {A} (p : A -> bool) n (l : list A) :
  exists idxs, StronglySorted lt idxs /\ (forall i, i ∈ idxs <-> (n <= i)%nat /\ exists a, l !! i = Some a /\ p a = true) /\
    Forall2 (fun i a => l !! i = Some a) idxs (filter (fun a => p a = true) (drop n l)).
Proof.
  induction l as [|x l (idxs & Hs & Hin & Hall)] using rev_ind.
  { exists []. rewrite drop_nil. split; [constructor|]. split; [|constructor]. intros i. split; [by intros ?%elem_of_nil|by intros (_ & a & ? & _)]. }
  assert (forall i a, l !! i = Some a -> (l ++ [x]) !! i = Some a) as Hl by (intros; by apply lookup_app_l_Some).
  assert (forall i, i ∈ idxs -> (i < length l)%nat) as Hlt by (intros i (_ & a & Ha%lookup_lt_Some & _)%Hin; done).
  assert (Forall2 (fun i a => (l ++ [x]) !! i = Some a) idxs (filter (fun a => p a = true) (drop n l))) as Hall'
    by (eapply Forall2_impl; [exact Hall|]; auto).
  assert (forall i a, (l ++ [x]) !! i = Some a <-> l !! i = Some a \/ (i = length l /\ a = x)) as Hsnoc.
  { intros i a. rewrite lookup_app_Some, list_lookup_singleton_Some. split.
    - intros [?|[? [? ->]]]; [by left|right]. split; [lia|done].
    - intros [?|[-> ->]]; [by left|right]. split; [lia|]. split; [lia|done]. }
  destruct (decide (n <= length l /\ p x = true)%nat) as [[Hn Hp]|Hno].
  - exists (idxs ++ [length l]). split_and!.
    + clear -Hs Hlt. induction Hs as [|i idxs Hs IH Hi]; [repeat constructor|]. cbn. constructor.
      * apply IH. intros j Hj. apply Hlt. by right.
      * rewrite Forall_app. split; [done|]. repeat constructor. apply Hlt. by left.
    + intros i. rewrite elem_of_app, list_elem_of_singleton, Hin. split.
      * intros [(Hi & a & Ha & Hpa)| ->]; (split; [lia|]); [exists a; split; [by apply Hl|done]|exists x; split; [apply Hsnoc; by right|done]].
      * intros (Hi & a & [Ha|[-> ->]]%Hsnoc & Hpa); [left; split; [done|by exists a]|by right].
    + rewrite drop_app_le, filter_app by done. apply Forall2_app; [done|]. rewrite filter_cons, decide_True by done. cbn.
      constructor; [|constructor]. apply Hsnoc. by right.
  - exists idxs. split; [done|]. split.
    + intros i. rewrite Hin. split.
      * intros (Hi & a & Ha & Hpa). split; [done|]. exists a. split; [by apply Hl|done].
      * intros (Hi & a & [Ha|[-> ->]]%Hsnoc & Hpa); (split; [done|]); [by exists a|]. by destruct Hno.
    + destruct (decide (n <= length l)%nat) as [Hn|Hn].
      * rewrite drop_app_le, filter_app by done. rewrite filter_cons, decide_False by tauto. by rewrite filter_nil, app_nil_r.
      * rewrite (drop_ge l) in Hall' by lia. rewrite drop_ge by (rewrite length_app; cbn; lia). done.
Qed.

(** A fragment's header, as its boxes. *)
Definition laid_out (src : bytes) (f : fragment) (boxes : list MoofBox) : Prop :=
  slice src (fr_moofOffset f) (fr_moofOffset f + fr_moofSize f) = enc_box BoxTypeMoof (enc_moof boxes) /\ Forall mb_wf boxes.

(** C31: a trim of an intact recording writes its initialization as it is, and then exactly
    the fragments that belong to it.  It starts at the newest fragment that opens on a
    sync sample, of those up to the first that ends after the start, and keeps, in order,
    every fragment from there on that has a place on the timeline and, with a window,
    starts before the window has passed; none else.  The fragments are numbered from one;
    the video keeps its distances, counted from the first video kept, and every other track
    is moved by the same time to within a tick.  Every other byte of the headers, and all
    of the media, are as they were recorded. *)
Theorem trim_exact `{BoxReader} `{TrackOrder} window start src ix headers :
  indexFile src = (ix, None) ->
  Forall (fun l => inside src (bl_offset l) (bl_size l)) (ix_initBoxes ix) -> Forall (fragment_inside src) (ix_fragments ix) ->
  Forall2 (laid_out src) (ix_fragments ix) headers ->
  Z.of_nat (length (ix_fragments ix)) < 2 ^ 32 ->
  let fs := ix_fragments ix in
  let scales := ix_trackTimeScales ix in
  let v := findVideoTrack fs scales in
  timeline_fits scales v fs ->
  exists first origin originTS kept written,
    starts_at scales v start fs first /\ begins_at scales v fs first origin originTS /\
    StronglySorted lt kept /\
    (forall i, i ∈ kept <-> (first <= i)%nat /\ exists f, fs !! i = Some f /\ starts_in scales v window f) /\
    length written = length kept /\
    (forall n i, kept !! n = Some i -> exists f boxes boxes', fs !! i = Some f /\ headers !! i = Some boxes /\
      Forall2 (rewritten scales (1 + Z.of_nat n) origin originTS f) boxes boxes' /\
      written !! n = Some (enc_box BoxTypeMoof (enc_moof boxes') ++ slice src (fr_mdatOffset f) (fr_mdatOffset f + fr_mdatSize f))) /\
    trim window start src = ((ix_initBoxes ix ≫= fun l => slice src (bl_offset l) (bl_offset l + bl_size l)) ++ concat written, false).
Proof.
  intros Hix Hinit Hfs Hheaders Hmax fs scales v Hfits. pose proof (trim_writes_kept window start src ix Hix Hinit Hfs Hmax) as Htrim.
  cbn zeta in Htrim. fold fs scales v in Htrim. set (first := firstFragmentForStart fs v scales start) in *.
  pose proof (origin_begins_at scales v fs first) as Horigin. cbn zeta in Horigin. set (o := trimTimelineOrigin fs first v scales) in *.
  set (p := in_window v scales window) in *. destruct (filter_positions p first fs) as (kept & Hs & Hin & Hall).
  set (times := fun f => adjustedFragmentTimes f scales o.1 o.2 0) in *.
  set (fsk := filter (fun f => p f = true) (drop first fs)) in *.
  exists first, o.1, o.2, kept, (imap (fun n f => fragment_bytes src times (1 + Z.of_nat n) f) fsk).
  split_and!; [apply firstFragment_starts_at; apply (tl_tracks _ _ _ Hfits)|exact Horigin|exact Hs| | | |exact Htrim].
  - intros i. rewrite Hin. split; intros [Hi (f & Hf & Hp)]; (split; [done|]); exists f; (split; [done|]);
      apply in_window_spec; [by apply (tl_tracks _ _ _ Hfits), (list_elem_of_lookup_2 _ i)|done|by apply (tl_tracks _ _ _ Hfits), (list_elem_of_lookup_2 _ i)|done].
  - rewrite length_imap. symmetry. by eapply Forall2_length.
  - intros n i Hn. destruct (Forall2_lookup_l _ _ _ _ _ Hall Hn) as (f & Hf & Hi).
    destruct (Forall2_lookup_l _ _ _ _ _ Hheaders Hi) as (boxes & Hboxes & Henc & Hwf).
    exists f, boxes, (mb_patch (1 + Z.of_nat n) (times f) <$> boxes). split; [done|]. split; [done|].
    split; [eapply patched_rewritten; [done|done|by eapply list_elem_of_lookup_2]|].
    rewrite list_lookup_imap, Hf. cbn [fmap option_fmap option_map]. f_equal. unfold fragment_bytes. rewrite Henc.
    by rewrite patchMoof_exact.
Qed.

(** ** An instance: four fragments of two seconds, from ten seconds on *)

(** Their headers: video of the track 1, and from the third on audio of the track 2. *)
Definition video_header (n time : Z) : list MoofBox :=
  [Mfhd [0; 0; 0; 0] n []; Traf [Tfhd [0; 2; 0; 0] 1 []; TfdtV1 1 [0; 0; 0] time []; TrafOther (fourcc "trun") [1; 2; 3]]; MoofOther (fourcc "free") [9]].
Definition av_header (n time audio : Z) : list MoofBox :=
  video_header n time ++ [Traf [Tfhd [0; 2; 0; 0] 2 []; TfdtV0 [0; 0; 0] audio []]].

Definition enc_header (boxes : list MoofBox) : bytes := enc_box BoxTypeMoof (enc_moof boxes).

Definition four_headers : list (list MoofBox) :=
  [video_header 41 900000; video_header 42 1080000; av_header 43 1260000 672000; av_header 44 1440000 768000].
Definition four_media : list bytes := [[1; 1; 1]; [2; 2]; [3; 3; 3; 3]; [4]].
Definition four_init : bytes := [7; 7; 7; 7; 8; 8].

Definition four_src : bytes := four_init ++ concat (zip_with (fun h m => enc_header h ++ m) four_headers four_media).

(** Where they are in it. *)
Definition four_fragments : list fragment :=
  [mkFragment 6 88 94 3 [mkTraf 1 900000 180000 true]; mkFragment 97 88 185 2 [mkTraf 1 1080000 180000 false];
   mkFragment 187 128 315 4 [mkTraf 1 1260000 180000 true; mkTraf 2 672000 96000 true];
   mkFragment 319 128 447 1 [mkTraf 1 1440000 180000 true; mkTraf 2 768000 96000 true]].

Definition four_frags : list FragSpec :=
  (fun f => mkFragSpec (mkLoc (fr_moofOffset f) (fr_moofSize f)) (mkLoc (fr_mdatOffset f) (fr_mdatSize f))
    ((fun t => mkTrafSpec (tf_trackID t) 0x20 (if tf_isSync t then 0 else 0x10000) (tf_decodeTime t)
       [mkRun 0 0 [mkTrunEntry (tf_duration t) 0]]) <$> fr_trafs f)) <$> four_fragments.

Example four_src_laid_out :
  (fun f => (slice four_src (fr_moofOffset f) (fr_moofOffset f + fr_moofSize f), slice four_src (fr_mdatOffset f) (fr_mdatOffset f + fr_mdatSize f))) <$> four_fragments
  = zip_with (fun h m => (enc_header h, m)) four_headers four_media.
Proof. vm_compute. reflexivity. Qed.

#[local] Instance four_reader : BoxReader := fun _ => (layout (mkLoc 0 4) (mkLoc 4 2) [(1, 90000); (2, 48000)] four_frags, None).
#[local] Instance four_track_order : TrackOrder := map_to_list.

Definition four_index : fmp4Index := (indexFile four_src).1.

Lemma four_indexed : indexFile four_src = (four_index, None) /\ ix_fragments four_index = four_fragments /\
  ix_initBoxes four_index = [mkLoc 0 4; mkLoc 4 2] /\ ix_trackTimeScales four_index = {[1 := 90000; 2 := 48000]}.
Proof. split_and!; vm_compute; reflexivity. Qed.

Lemma four_timeline : timeline_fits (ix_trackTimeScales four_index) 1 four_fragments.
Proof.
  destruct four_indexed as (_ & _ & _ & ->).
  assert (forall id, 0 <= scale_of {[1 := 90000; 2 := 48000]} id <= 90000) as Hscale.
  { intros id. unfold scale_of. destruct (decide (id = 1)) as [->|]; [by vm_compute|]. destruct (decide (id = 2)) as [->|]; [by vm_compute|].
    rewrite lookup_insert_ne by done. rewrite lookup_singleton_ne by done. cbn. lia. }
  assert (Forall (fun f => NoDup (tf_trackID <$> fr_trafs f) /\ Forall (fun t => 0 <= tf_decodeTime t <= 1440000) (fr_trafs f)) four_fragments) as Hall.
  { repeat constructor; cbn; try lia; intros H; repeat (apply elem_of_cons in H as [H|H]; [lia|]); by apply elem_of_nil in H. }
  rewrite Forall_forall in Hall. split.
  - intros f Hf. apply (Hall f Hf).
  - intros f t Hf Ht. destruct (Hall f Hf) as [_ Htimes]. rewrite Forall_forall in Htimes. specialize (Htimes t Ht). lia.
  - intros id. apply Hscale.
  - intros f _ _. by vm_compute.
  - intros f t id Hf Ht _. destruct (Hall f Hf) as [_ Htimes]. rewrite Forall_forall in Htimes. specialize (Htimes t Ht). specialize (Hscale id). nia.
Qed.

Lemma four_headers_laid_out : Forall2 (laid_out four_src) four_fragments four_headers.
Proof.
  repeat (constructor; [split; [vm_compute; reflexivity|repeat constructor; try (vm_compute; done); intros ?; vm_compute in *; discriminate]|]).
  constructor.
Qed.

(** Asked for two seconds from the middle of the second fragment, which opens on no sync
    sample: the trim starts at the first, and leaves the last out. *)
Lemma trim_exact_witness :
  let start := 12 * Second + 500000000 in
  (exists first origin originTS (kept : list nat) written,
    starts_at (ix_trackTimeScales four_index) 1 start four_fragments first /\
    begins_at (ix_trackTimeScales four_index) 1 four_fragments first origin originTS /\
    (forall i, i ∈ kept <-> (first <= i)%nat /\ exists f, four_fragments !! i = Some f /\
      starts_in (ix_trackTimeScales four_index) 1 (Some (start, 2 * Second)) f) /\
    TrimMP4 four_src start (2 * Second) = (four_init ++ concat written, false)) /\
  TrimMP4 four_src start (2 * Second) =
    (four_init ++ concat (zip_with (fun h m => enc_header h ++ m)
       [video_header 1 0; video_header 2 180000; av_header 3 360000 192000] (take 3 four_media)), false).
Proof.
  intros start. split; [|vm_compute; reflexivity]. destruct four_indexed as (Hix & Hfs & Hinit & _).
  destruct (trim_exact (Some (start, 2 * Second)) start four_src four_index four_headers Hix) as (first & o & oTS & kept & written & H1 & H2 & _ & H3 & _ & _ & H4).
  - rewrite Hinit. repeat constructor; vm_compute; intros ?; discriminate.
  - rewrite Hfs. repeat constructor; vm_compute; intros ?; discriminate.
  - rewrite Hfs. exact four_headers_laid_out.
  - rewrite Hfs. vm_compute. reflexivity.
  - rewrite Hfs. exact four_timeline.
  - rewrite Hfs, Hinit in *. exists first, o, oTS, kept, written. split; [exact H1|]. split; [exact H2|]. split; [exact H3|exact H4].
Defined.
