(* ===== verification/SegmentWriter.v ===== *)
(** The writer of recorded segments ([media/mp4writer.go], [media/recording_audio.go],
    [rtsp/h264_access_unit.go]): access units assembled by RTP timestamp, samples
    buffered per group of pictures and written as one part, the caps that bound the
    buffer, and the audio that is transcoded along.

    The RTP and codec libraries are parameters (class [Codecs]): the depacketizers, the
    test for a random access point, the AVCC marshalling, and the pipeline from G.711
    to AAC.  Whether each write to the file succeeds is the file system's answer. *)

From S2P Require Import Prelude H264 Mp4Bytes.

#[local] Open Scope list_scope.

Record Packet := mkPacket {
  pk_Timestamp : Z;
  pk_SequenceNumber : Z;
  pk_SSRC : Z;
  pk_PayloadType : Z;
  pk_Marker : bool;
  pk_Payload : bytes
}.

Class Codecs := {
  Depacketizer : Type;
  Depacketize : Packet -> Depacketizer -> Depacketizer * result string (list nalu);
  AACDepacketizer : Type;
  AACDepacketize : Packet -> AACDepacketizer -> AACDepacketizer * result string (list bytes);
  IsRandomAccess : list nalu -> bool;
  AVCCMarshal : list nalu -> result string bytes;
  Encoder : Type;
  NewEncoder : Z -> result string (Encoder * Z);
  Encode : bool -> bytes -> Encoder -> Encoder * result string (list bytes);
  FlushResampler : Encoder -> Encoder * result string (list bytes);
  FlushEncoder : Encoder -> Encoder * result string (list bytes)
}.

Section writer.
Context `{Codecs}.

(** ** Access units by RTP timestamp *)

Record H264AccessUnitDecoder := mkAUDecoder { ad_decoder : Depacketizer; ad_haveTimestamp : bool; ad_currentTimestamp : Z }.

Definition NewH264AccessUnitDecoder (decoder : Depacketizer) : H264AccessUnitDecoder := mkAUDecoder decoder false 0.

Definition Decode (pkt : Packet) (d : H264AccessUnitDecoder) : H264AccessUnitDecoder * (result string (list nalu) * Z) :=
  let accessUnitTimestamp := if ad_haveTimestamp d then ad_currentTimestamp d else pk_Timestamp pkt in
  let normalized := mkPacket (pk_Timestamp pkt) (pk_SequenceNumber pkt) (pk_SSRC pkt) (pk_PayloadType pkt) false (pk_Payload pkt) in
  let '(decoder, au) := Depacketize normalized (ad_decoder d) in
  let current := match au with
                 | Ok (_ :: _) => if negb (pk_Timestamp pkt =? accessUnitTimestamp) then pk_Timestamp pkt else accessUnitTimestamp
                 | _ => accessUnitTimestamp
                 end in
  (mkAUDecoder decoder true current, (au, accessUnitTimestamp)).

Definition Flush (d : H264AccessUnitDecoder) : H264AccessUnitDecoder * result string (list nalu) :=
  if negb (ad_haveTimestamp d) then (d, Ok [])
  else let '(d, (au, _)) := Decode (mkPacket (u32 (ad_currentTimestamp d + 1)) 0 0 0 false [0x09; 0xf0]) d in (d, au).

(** ** The writer *)

Definition recordingAudioRate : Z := 48000.
Definition maxPendingPartSeconds : Z := 4.
Definition maxPendingPartBytes : Z := 8 * 2 ^ 20.
Definition videoTimeScale : Z := 90000.
Definition videoTrackID : Z := 1.
Definition audioTrackID : Z := 2.

(** A contiguous run of G.711: its encoder, what it has been given and has given, and
    where it stands on the timeline; [ra_previous] is the last packet. *)
Record recordingAudio := mkRecordingAudio {
  ra_PCMA : bool;
  ra_PayloadType : Z;
  ra_ClockRate : Z;
  ra_encoder : option Encoder;
  ra_factor : Z;
  ra_skip : Z;
  ra_input : Z;
  ra_written : Z;
  ra_base : Z;
  ra_previous : option Packet
}.

(** What the file holds: the initialization, with the parameter sets in force, parts,
    and whatever a write that failed left behind. *)
Inductive Written := WInit (sps pps : nalu) (audio : bool) | WPart (p : Part) | WTorn.

(** The file, and for each write, by its number, whether it succeeds. *)
Record Sink := mkSink { sk_disk : nat -> bool; sk_writes : nat; sk_file : list Written }.

Definition sink_write (w : Written) (s : Sink) : Sink * bool :=
  if sk_disk s (sk_writes s) then (mkSink (sk_disk s) (S (sk_writes s)) (sk_file s ++ [w]), true)
  else (mkSink (sk_disk s) (S (sk_writes s)) (sk_file s ++ [WTorn]), false).

(** The samples buffered since the last part. *)
Record Pending := mkPending { pd_video : list Sample; pd_audio : list Sample; pd_videoDTS : Z; pd_audioDTS : Z; pd_bytes : Z }.

Record Timeline := mkTimeline { tl_seqNum : Z; tl_videoDTS : Z; tl_lastVideoDuration : Z; tl_audioDTS : Z; tl_flushedVideoDTS : Z }.

(** The access unit under assembly: its timestamp and when its first packet came. *)
Record Arrival := mkArrival { av_timestamp : Z; av_time : Z; av_has : bool }.

Record SegmentWriter := mkWriter {
  sw_h264Decoder : option H264AccessUnitDecoder;
  sw_videoSPS : nalu;
  sw_videoPPS : nalu;
  sw_aacDecoder : option AACDepacketizer;
  sw_recordingAudio : option recordingAudio;
  sw_audioErr : option string;
  sw_preAudio : list (Packet * Z);
  sw_initWritten : bool;
  sw_hasAudio : bool;
  sw_startTime : Z;
  sw_firstSampleTime : Z;
  sw_arrival : Arrival;
  sw_skipDecoderFlush : bool;
  sw_timeline : Timeline;
  sw_pending : Pending;
  sw_sink : Sink
}.

Definition set_decoder d sw := mkWriter d (sw_videoSPS sw) (sw_videoPPS sw) (sw_aacDecoder sw) (sw_recordingAudio sw) (sw_audioErr sw)
  (sw_preAudio sw) (sw_initWritten sw) (sw_hasAudio sw) (sw_startTime sw) (sw_firstSampleTime sw) (sw_arrival sw) (sw_skipDecoderFlush sw)
  (sw_timeline sw) (sw_pending sw) (sw_sink sw).
Definition set_params sps pps sw := mkWriter (sw_h264Decoder sw) sps pps (sw_aacDecoder sw) (sw_recordingAudio sw) (sw_audioErr sw)
  (sw_preAudio sw) (sw_initWritten sw) (sw_hasAudio sw) (sw_startTime sw) (sw_firstSampleTime sw) (sw_arrival sw) (sw_skipDecoderFlush sw)
  (sw_timeline sw) (sw_pending sw) (sw_sink sw).
Definition set_aac d sw := mkWriter (sw_h264Decoder sw) (sw_videoSPS sw) (sw_videoPPS sw) d (sw_recordingAudio sw) (sw_audioErr sw)
  (sw_preAudio sw) (sw_initWritten sw) (sw_hasAudio sw) (sw_startTime sw) (sw_firstSampleTime sw) (sw_arrival sw) (sw_skipDecoderFlush sw)
  (sw_timeline sw) (sw_pending sw) (sw_sink sw).
Definition set_audio r err pre sw := mkWriter (sw_h264Decoder sw) (sw_videoSPS sw) (sw_videoPPS sw) (sw_aacDecoder sw) r err
  pre (sw_initWritten sw) (sw_hasAudio sw) (sw_startTime sw) (sw_firstSampleTime sw) (sw_arrival sw) (sw_skipDecoderFlush sw)
  (sw_timeline sw) (sw_pending sw) (sw_sink sw).
Definition set_init first sw := mkWriter (sw_h264Decoder sw) (sw_videoSPS sw) (sw_videoPPS sw) (sw_aacDecoder sw) (sw_recordingAudio sw)
  (sw_audioErr sw) [] true (sw_hasAudio sw) (sw_startTime sw) first (sw_arrival sw) (sw_skipDecoderFlush sw)
  (sw_timeline sw) (sw_pending sw) (sw_sink sw).
Definition set_arrival a sw := mkWriter (sw_h264Decoder sw) (sw_videoSPS sw) (sw_videoPPS sw) (sw_aacDecoder sw) (sw_recordingAudio sw)
  (sw_audioErr sw) (sw_preAudio sw) (sw_initWritten sw) (sw_hasAudio sw) (sw_startTime sw) (sw_firstSampleTime sw) a (sw_skipDecoderFlush sw)
  (sw_timeline sw) (sw_pending sw) (sw_sink sw).
Definition set_skip b sw := mkWriter (sw_h264Decoder sw) (sw_videoSPS sw) (sw_videoPPS sw) (sw_aacDecoder sw) (sw_recordingAudio sw)
  (sw_audioErr sw) (sw_preAudio sw) (sw_initWritten sw) (sw_hasAudio sw) (sw_startTime sw) (sw_firstSampleTime sw) (sw_arrival sw) b
  (sw_timeline sw) (sw_pending sw) (sw_sink sw).
Definition set_media tl pd sk sw := mkWriter (sw_h264Decoder sw) (sw_videoSPS sw) (sw_videoPPS sw) (sw_aacDecoder sw) (sw_recordingAudio sw)
  (sw_audioErr sw) (sw_preAudio sw) (sw_initWritten sw) (sw_hasAudio sw) (sw_startTime sw) (sw_firstSampleTime sw) (sw_arrival sw)
  (sw_skipDecoderFlush sw) tl pd sk.

Inductive WriteError := ErrTimestampGap | ErrMarshal | ErrAVCC | ErrDepacketize.

(** A write: the writer it leaves, and its error. *)
Definition Outcome : Type := SegmentWriter * option WriteError.

Definition and_then (o : Outcome) (k : SegmentWriter -> Outcome) : Outcome := match o with (sw, None) => k sw | r => r end.

(** ** Parts *)

Definition samples_duration (l : list Sample) : Z := fold_left (fun d s => u64 (d + smp_Duration s)) l 0.

Definition pending_part (sw : SegmentWriter) : Part :=
  let pd := sw_pending sw in
  mkPart (tl_seqNum (sw_timeline sw))
    (match pd_video pd with [] => [] | v => [mkPartTrack videoTrackID (pd_videoDTS pd) v] end
     ++ match pd_audio pd with [] => [] | a => [mkPartTrack audioTrackID (pd_audioDTS pd) a] end).

Definition flushGOP (sw : SegmentWriter) : Outcome :=
  let pd := sw_pending sw in
  let tl := sw_timeline sw in
  match pa_Tracks (pending_part sw) with
  | [] => (sw, None)
  | _ =>
      match sink_write (WPart (pending_part sw)) (sw_sink sw) with
      | (sk, false) => (set_media tl pd sk sw, Some ErrMarshal)
      | (sk, true) =>
          let flushed := match pd_video pd with [] => tl_flushedVideoDTS tl | v => u64 (pd_videoDTS pd + samples_duration v) end in
          (set_media (mkTimeline (u32 (tl_seqNum tl + 1)) (tl_videoDTS tl) (tl_lastVideoDuration tl) (tl_audioDTS tl) flushed)
             (mkPending [] [] (pd_videoDTS pd) (pd_audioDTS pd) 0) sk sw, None)
      end
  end.

Definition capPendingPart (sw : SegmentWriter) : Outcome :=
  let pd := sw_pending sw in
  match pd_video pd, pd_audio pd with
  | [], [] => (sw, None)
  | v, _ =>
      let overBytes := maxPendingPartBytes <=? pd_bytes pd in
      let overTime := match v with
                      | [] => false
                      | _ => videoTimeScale * maxPendingPartSeconds <=? u64 (tl_videoDTS (sw_timeline sw) - pd_videoDTS pd)
                      end in
      if overBytes || overTime then flushGOP sw else (sw, None)
  end.

(** One more audio sample at [dts], leaving the audio clock at [next]. *)
Definition add_audio (dts next : Z) (s : Sample) (sw : SegmentWriter) : SegmentWriter :=
  let pd := sw_pending sw in
  let tl := sw_timeline sw in
  set_media (mkTimeline (tl_seqNum tl) (tl_videoDTS tl) (tl_lastVideoDuration tl) next (tl_flushedVideoDTS tl))
    (mkPending (pd_video pd) (pd_audio pd ++ [s]) (pd_videoDTS pd) (match pd_audio pd with [] => dts | _ => pd_audioDTS pd end)
       (pd_bytes pd + len (smp_Payload s))) (sw_sink sw) sw.

(** ** G.711 *)

Definition restart (base : Z) (r : recordingAudio) : result string recordingAudio :=
  let? (enc, delay) := NewEncoder recordingAudioRate in
  Ok (mkRecordingAudio (ra_PCMA r) (ra_PayloadType r) (ra_ClockRate r) (Some enc) (ra_factor r) (Z.quot delay 1024) 0 0 base (ra_previous r)).

Definition newRecordingAudio (pcma : bool) (payloadType clockRate channels : Z) : result string recordingAudio :=
  if (1 <? channels) || (clockRate <=? 0) || negb (recordingAudioRate mod clockRate =? 0) || (6 <? recordingAudioRate / clockRate)
  then Err "unsupported recording audio"%string
  else restart 0 (mkRecordingAudio pcma payloadType clockRate None (recordingAudioRate / clockRate) 0 0 0 0 None).

Definition set_encoder (e : option Encoder) (r : recordingAudio) : recordingAudio :=
  mkRecordingAudio (ra_PCMA r) (ra_PayloadType r) (ra_ClockRate r) e (ra_factor r) (ra_skip r) (ra_input r) (ra_written r) (ra_base r) (ra_previous r).

Definition failAudio (err : string) (sw : SegmentWriter) : SegmentWriter :=
  match sw_audioErr sw with
  | Some _ => sw
  | None => set_audio (set_encoder None <$> sw_recordingAudio sw) (Some err) [] sw
  end.

(** One encoded frame. *)
Definition append_frame (sw : SegmentWriter) (payload : bytes) : SegmentWriter :=
  match sw_recordingAudio sw with
  | None => sw
  | Some r =>
      if 0 <? ra_skip r then
        set_audio (Some (mkRecordingAudio (ra_PCMA r) (ra_PayloadType r) (ra_ClockRate r) (ra_encoder r) (ra_factor r) (ra_skip r - 1)
          (ra_input r) (ra_written r) (ra_base r) (ra_previous r))) (sw_audioErr sw) (sw_preAudio sw) sw
      else
        let remaining := u64 (ra_input r - ra_written r) in
        if remaining =? 0 then sw
        else
          let duration := if remaining <? 1024 then remaining else 1024 in
          let written := u64 (ra_written r + duration) in
          set_audio (Some (mkRecordingAudio (ra_PCMA r) (ra_PayloadType r) (ra_ClockRate r) (ra_encoder r) (ra_factor r) (ra_skip r)
            (ra_input r) written (ra_base r) (ra_previous r))) (sw_audioErr sw) (sw_preAudio sw)
            (add_audio (u64 (ra_base r + ra_written r)) (u64 (ra_base r + written)) (mkSample duration false payload) sw)
  end.

Definition appendEncodedAudio (frames : list bytes) (sw : SegmentWriter) : SegmentWriter := fold_left append_frame frames sw.

Definition put_encoder (e : option Encoder) (sw : SegmentWriter) : SegmentWriter :=
  set_audio (set_encoder e <$> sw_recordingAudio sw) (sw_audioErr sw) (sw_preAudio sw) sw.

Definition finishRecordingAudio (sw : SegmentWriter) : SegmentWriter :=
  match sw_recordingAudio sw ≫= ra_encoder with
  | None => sw
  | Some e =>
      put_encoder None
        (match FlushResampler e with
         | (_, Err err) => failAudio err sw
         | (e, Ok frames) =>
             let sw := appendEncodedAudio frames sw in
             match FlushEncoder e with
             | (_, Err err) => failAudio err sw
             | (_, Ok frames) => appendEncodedAudio frames sw
             end
         end)
  end.

(** [sw.videoDTS * recordingAudioRate / videoTimeScale]. *)
Definition video_in_audio (sw : SegmentWriter) : Z := u64 (tl_videoDTS (sw_timeline sw) * recordingAudioRate) / videoTimeScale.

Definition payload_len (p : Packet) : Z := len (pk_Payload p).

(** A packet that neither follows the previous one nor repeats an old one starts a new
    run: the old one is drained and written, and the new one is placed after the loss,
    or where the video stands.  [Ok]: the run to feed. *)
Definition splice (pkt prev : Packet) (r : recordingAudio) (sw : SegmentWriter) : Outcome + (SegmentWriter * recordingAudio) :=
  let seq := i16 (pk_SequenceNumber pkt - pk_SequenceNumber prev) in
  let delta := i32 (pk_Timestamp pkt - pk_Timestamp prev) in
  let same := pk_SSRC pkt =? pk_SSRC prev in
  if negb same || negb (seq =? 1) || negb (delta =? i32 (payload_len prev)) then
    let next := u64 (ra_base r + ra_input r) in
    let next := if same && (i32 (payload_len prev) <=? delta) && (delta <=? i32 (ra_ClockRate r * 10))
                then u64 (ra_base r + ra_input r + u64 (i32 (delta - i32 (payload_len prev))) * ra_factor r)
                else if next <? video_in_audio sw then video_in_audio sw else next in
    match flushGOP (finishRecordingAudio sw) with
    | (sw, Some e) => inl (sw, Some e)
    | (sw, None) =>
        match sw_audioErr sw with
        | Some _ => inl (sw, None)
        | None =>
            match restart next (default r (sw_recordingAudio sw)) with
            | Err e => inl (failAudio e sw, None)
            | Ok r => inr (sw, r)
            end
        end
    end
  else inr (sw, r).

(** The run the packet belongs to. *)
Definition run_for (pkt : Packet) (r : recordingAudio) (sw : SegmentWriter) : Outcome + (SegmentWriter * recordingAudio) :=
  match ra_previous r with
  | None => inr (sw, mkRecordingAudio (ra_PCMA r) (ra_PayloadType r) (ra_ClockRate r) (ra_encoder r) (ra_factor r) (ra_skip r)
                       (ra_input r) (ra_written r) (video_in_audio sw) None)
  | Some prev =>
      let seq := i16 (pk_SequenceNumber pkt - pk_SequenceNumber prev) in
      if (pk_SSRC pkt =? pk_SSRC prev) && (seq <=? 0) && (-64 <=? seq) then inl (sw, None) else splice pkt prev r sw
  end.

(** Feeding a packet to its run. *)
Definition feed (pkt : Packet) (sw : SegmentWriter) (r : recordingAudio) : Outcome :=
  match ra_encoder r with
  | None => (sw, None)
  | Some e =>
      let '(e, frames) := Encode (ra_PCMA r) (pk_Payload pkt) e in
      let r := mkRecordingAudio (ra_PCMA r) (ra_PayloadType r) (ra_ClockRate r) (Some e) (ra_factor r) (ra_skip r)
                 (u64 (ra_input r + payload_len pkt * ra_factor r)) (ra_written r) (ra_base r) (Some pkt) in
      let sw := set_audio (Some r) (sw_audioErr sw) (sw_preAudio sw) sw in
      match frames with
      | Err err => (failAudio err sw, None)
      | Ok frames => capPendingPart (appendEncodedAudio frames sw)
      end
  end.

Definition writeG711Audio (now : Z) (pkt : Packet) (sw : SegmentWriter) : Outcome :=
  match sw_recordingAudio sw with
  | None => (sw, None)
  | Some r =>
      match ra_encoder r with
      | None => (sw, None)
      | Some _ =>
          if (payload_len pkt =? 0) || (8192 <? payload_len pkt) || negb (pk_PayloadType pkt =? ra_PayloadType r) then (sw, None)
          else if negb (sw_initWritten sw) then
            if av_has (sw_arrival sw) && (length (sw_preAudio sw) <? 16)%nat
            then (set_audio (sw_recordingAudio sw) (sw_audioErr sw) (sw_preAudio sw ++ [(pkt, now)]) sw, None)
            else (sw, None)
          else match run_for pkt r sw with
               | inl o => o
               | inr (sw, r) => feed pkt sw r
               end
      end
  end.

(** ** Writing *)

Definition writeInit (sw : SegmentWriter) : Outcome :=
  match sink_write (WInit (sw_videoSPS sw) (sw_videoPPS sw) (sw_hasAudio sw)) (sw_sink sw) with
  | (sk, ok) => (set_media (sw_timeline sw) (sw_pending sw) sk sw, if ok : bool then None else Some ErrMarshal)
  end.

(** The audio that came before the opening keyframe. *)
Fixpoint write_queued (now sampleTime : Z) (queued : list (Packet * Z)) (sw : SegmentWriter) : Outcome :=
  match queued with
  | [] => (sw, None)
  | (pkt, received) :: queued =>
      if Before received sampleTime then write_queued now sampleTime queued sw
      else and_then (writeG711Audio now pkt sw) (write_queued now sampleTime queued)
  end.

(** Appending a video sample to the buffer. *)
Definition add_video (s : Sample) (sw : SegmentWriter) : SegmentWriter :=
  let pd := sw_pending sw in
  let tl := sw_timeline sw in
  set_media (mkTimeline (tl_seqNum tl) (u64 (tl_videoDTS tl + smp_Duration s)) (smp_Duration s) (tl_audioDTS tl) (tl_flushedVideoDTS tl))
    (mkPending (pd_video pd ++ [s]) (pd_audio pd) (match pd_video pd with [] => tl_videoDTS tl | _ => pd_videoDTS pd end) (pd_audioDTS pd)
       (pd_bytes pd + len (smp_Payload s))) (sw_sink sw) sw.

Definition append_unit (au : list nalu) (sampleDuration : Z) (sw : SegmentWriter) : Outcome :=
  let sampleDuration := if sampleDuration =? 0 then videoTimeScale / 30 else sampleDuration in
  match AVCCMarshal au with
  | Err _ => (sw, Some ErrAVCC)
  | Ok avcc =>
      let sample := mkSample sampleDuration (negb (IsRandomAccess au)) avcc in
      and_then (match pd_video (sw_pending sw) with
                | _ :: _ => if IsRandomAccess au then flushGOP sw else (sw, None)
                | [] => (sw, None)
                end)
        (fun sw => capPendingPart (add_video sample sw))
  end.

(** The initialization, at the first keyframe with parameter sets; [inl]: nothing to
    write yet, or an error. *)
Definition open_file (now : Z) (au : list nalu) (sampleTime : Z) (sw : SegmentWriter) : Outcome + SegmentWriter :=
  if sw_initWritten sw then inr sw
  else if negb (IsRandomAccess au) then inl (set_audio (sw_recordingAudio sw) (sw_audioErr sw) [] sw, None)
  else if bool_decide (sw_videoSPS sw = []) || bool_decide (sw_videoPPS sw = []) then inl (sw, None)
  else match writeInit sw with
       | (sw, Some e) => inl (sw, Some e)
       | (sw, None) =>
           match write_queued now sampleTime (sw_preAudio sw) (set_init sampleTime sw) with
           | (sw, Some e) => inl (sw, Some e)
           | (sw, None) => inr sw
           end
       end.

Definition writeVideoAccessUnit (now : Z) (au : list nalu) (sampleDuration sampleTime : Z) (sw : SegmentWriter) : Outcome :=
  match DropSEI au with
  | [] => (sw, None)
  | au =>
      let '(sps, pps, _) := TrackParameterSets au (sw_videoSPS sw) (sw_videoPPS sw) in
      match open_file now au sampleTime (set_params sps pps sw) with
      | inl o => o
      | inr sw => append_unit au sampleDuration sw
      end
  end.

(** When the access unit under assembly began, and the arrival with this packet. *)
Definition note_arrival (now : Z) (pkt : Packet) (a : Arrival) : Z * Arrival :=
  if negb (av_has a) then (now, mkArrival (pk_Timestamp pkt) now true)
  else if negb (pk_Timestamp pkt =? av_timestamp a) then (av_time a, mkArrival (pk_Timestamp pkt) now true)
  else (av_time a, a).

Definition WriteVideo (now : Z) (pkt : Packet) (sw : SegmentWriter) : Outcome :=
  match sw_h264Decoder sw with
  | None => (sw, None)
  | Some d =>
      let '(accessUnitTime, arrival) := note_arrival now pkt (sw_arrival sw) in
      let '(d, (au, rtpTimestamp)) := Decode pkt d in
      let sw := set_decoder (Some d) (set_arrival arrival sw) in
      match au with
      | Err _ | Ok [] => (sw, None)
      | Ok au =>
          let sampleDuration := u32 (pk_Timestamp pkt - rtpTimestamp) in
          if sampleDuration =? 0 then writeVideoAccessUnit now au (videoTimeScale / 30) accessUnitTime sw
          else if videoTimeScale * 2 <=? sampleDuration then (set_skip true sw, Some ErrTimestampGap)
          else writeVideoAccessUnit now au sampleDuration accessUnitTime sw
      end
  end.

Definition add_aac (sw : SegmentWriter) (au : bytes) : SegmentWriter :=
  let dts := tl_audioDTS (sw_timeline sw) in
  add_audio dts (u64 (dts + 1024)) (mkSample 1024 false au) sw.

Definition WriteAudio (now : Z) (pkt : Packet) (sw : SegmentWriter) : Outcome :=
  match sw_recordingAudio sw with
  | Some _ => writeG711Audio now pkt sw
  | None =>
      match sw_aacDecoder sw with
      | None => (sw, None)
      | Some d =>
          match AACDepacketize pkt d with
          | (d, Err _) => (set_aac (Some d) sw, None)
          | (d, Ok aus) =>
              let sw := set_aac (Some d) sw in
              if negb (sw_initWritten sw) then (sw, None) else capPendingPart (fold_left add_aac aus sw)
          end
      end
  end.

(** [time.Duration(dts * uint64(time.Second) / uint64(videoTimeScale))]. *)
Definition media_time (dts : Z) : Z := i64 (u64 (dts * Second) / videoTimeScale).

Definition StartTime (sw : SegmentWriter) : Z :=
  if negb (IsZero (sw_firstSampleTime sw)) then sw_firstSampleTime sw
  else if av_has (sw_arrival sw) then av_time (sw_arrival sw) else sw_startTime sw.

Definition HasMedia (sw : SegmentWriter) : bool := negb (IsZero (sw_firstSampleTime sw)).

Definition FlushedDuration (sw : SegmentWriter) : Z :=
  let f := tl_flushedVideoDTS (sw_timeline sw) in if f =? 0 then 0 else media_time f.

(** The last access unit, which the decoder still holds. *)
Definition drain_decoder (now : Z) (sw : SegmentWriter) : Outcome :=
  let last := tl_lastVideoDuration (sw_timeline sw) in
  let last := if last =? 0 then videoTimeScale / 30 else last in
  match sw_h264Decoder sw with
  | Some d =>
      if sw_skipDecoderFlush sw then (sw, None)
      else match Flush d with
           | (d, Err _) => (set_decoder (Some d) sw, Some ErrDepacketize)
           | (d, Ok []) => (set_decoder (Some d) sw, None)
           | (d, Ok au) => writeVideoAccessUnit now au last (av_time (sw_arrival sw)) (set_decoder (Some d) sw)
           end
  | None => (sw, None)
  end.

(** The writer closed, the duration it reports and its errors: of the drain, and of the
    last part. *)
Definition Close (now : Z) (sw : SegmentWriter) : SegmentWriter * Z * (option WriteError * option WriteError) :=
  let '(sw, flushErr) := drain_decoder now sw in
  let sw := finishRecordingAudio sw in
  let sw := set_audio (sw_recordingAudio sw) (sw_audioErr sw) [] sw in
  let '(sw, gopErr) := flushGOP sw in
  let dts := tl_videoDTS (sw_timeline sw) in
  (sw, if 0 <? dts then media_time dts else Sub now (sw_startTime sw), (flushErr, gopErr)).

(** The tracks a source announces. *)
Inductive AudioCodec := AAC | PCMA | PCMU | OtherAudio.
Record AudioTrack := mkAudioTrack { at_Codec : AudioCodec; at_PayloadType : Z; at_ClockRate : Z; at_ChannelCount : Z }.

(** [video]: the parameter sets and a depacketizer, for H.264; [aac]: the depacketizer of
    an AAC track. *)
Definition NewSegmentWriter (disk : nat -> bool) (now : Z) (video : option (nalu * nalu * Depacketizer)) (aac : option AACDepacketizer)
    (audio : option AudioTrack) : SegmentWriter :=
  let empty := mkWriter (NewH264AccessUnitDecoder ∘ snd <$> video) (default [] (fst ∘ fst <$> video)) (default [] (snd ∘ fst <$> video))
    None None None [] false false now zero_time (mkArrival 0 0 false) false (mkTimeline 0 0 0 0 0) (mkPending [] [] 0 0 0) (mkSink disk 0 []) in
  match audio with
  | None => empty
  | Some t =>
      match at_Codec t with
      | AAC => mkWriter (sw_h264Decoder empty) (sw_videoSPS empty) (sw_videoPPS empty) aac None None [] false true now zero_time
                 (sw_arrival empty) false (sw_timeline empty) (sw_pending empty) (sw_sink empty)
      | PCMA | PCMU =>
          let pcma := match at_Codec t with PCMA => true | _ => false end in
          match newRecordingAudio pcma (at_PayloadType t) (at_ClockRate t) (at_ChannelCount t) with
          | Err e => failAudio e empty
          | Ok r => mkWriter (sw_h264Decoder empty) (sw_videoSPS empty) (sw_videoPPS empty) None (Some r) None [] false true now zero_time
                      (sw_arrival empty) false (sw_timeline empty) (sw_pending empty) (sw_sink empty)
          end
      | OtherAudio => failAudio "unsupported recording audio codec"%string empty
      end
  end.

End writer.
