(* ===== verification/SegmentWriterTheorems.v ===== *)
(** What the segment writer guarantees: whatever packets come, the parts it writes tile
    the video timeline from zero, each opens on a keyframe unless the one before was cut
    short by a cap, the buffer stays within the caps, no accepted sample is lost, and
    a recorded segment can be entered at any instant on a decodable frame. *)

From S2P Require Import Prelude H264 Mp4Bytes SegmentWriter.
From stdpp Require Import relations.

#[local] Open Scope list_scope.
#[local] Open Scope Z_scope.

Section theorems.
Context `{Codecs}.

(** ** The media of a writer *)

Record Media := mkMedia { md_init : bool; md_tl : Timeline; md_pd : Pending; md_sk : Sink }.

Definition media (sw : SegmentWriter) : Media := mkMedia (sw_initWritten sw) (sw_timeline sw) (sw_pending sw) (sw_sink sw).

Definition parts_of (file : list Written) : list Part := omap (fun w => match w with WPart p => Some p | _ => None end) file.

(** The file without what failed writes left. *)
Definition whole (file : list Written) : list Written := omap (fun w => match w with WTorn => None | w => Some w end) file.
Definition parts (m : Media) : list Part := parts_of (sk_file (md_sk m)).

Definition part_video (p : Part) : list Sample := pa_Tracks p ≫= fun t => if pt_ID t =? videoTrackID then pt_Samples t else [].

(** The video samples accepted so far: those written, then those buffered. *)
Definition written_video (m : Media) : list Sample := parts m ≫= part_video.
Definition video_samples (m : Media) : list Sample := written_video m ++ pd_video (md_pd m).

Definition part_of (tl : Timeline) (pd : Pending) : Part :=
  mkPart (tl_seqNum tl)
    (match pd_video pd with [] => [] | v => [mkPartTrack videoTrackID (pd_videoDTS pd) v] end
     ++ match pd_audio pd with [] => [] | a => [mkPartTrack audioTrackID (pd_audioDTS pd) a] end).

(** The media with its buffer written out, or not. *)
Definition flush_media (m : Media) : Media * bool :=
  match pa_Tracks (part_of (md_tl m) (md_pd m)) with
  | [] => (m, true)
  | _ =>
      match sink_write (WPart (part_of (md_tl m) (md_pd m))) (md_sk m) with
      | (sk, false) => (mkMedia (md_init m) (md_tl m) (md_pd m) sk, false)
      | (sk, true) =>
          let tl := md_tl m in
          (mkMedia (md_init m)
             (mkTimeline (u32 (tl_seqNum tl + 1)) (tl_videoDTS tl) (tl_lastVideoDuration tl) (tl_audioDTS tl)
                match pd_video (md_pd m) with [] => tl_flushedVideoDTS tl | v => u64 (pd_videoDTS (md_pd m) + samples_duration v) end)
             (mkPending [] [] (pd_videoDTS (md_pd m)) (pd_audioDTS (md_pd m)) 0) sk, true)
      end
  end.

Definition add_audio_media (dts next : Z) (s : Sample) (m : Media) : Media :=
  let pd := md_pd m in
  let tl := md_tl m in
  mkMedia (md_init m) (mkTimeline (tl_seqNum tl) (tl_videoDTS tl) (tl_lastVideoDuration tl) next (tl_flushedVideoDTS tl))
    (mkPending (pd_video pd) (pd_audio pd ++ [s]) (pd_videoDTS pd) (match pd_audio pd with [] => dts | _ => pd_audioDTS pd end)
       (pd_bytes pd + len (smp_Payload s))) (md_sk m).

Definition add_video_media (s : Sample) (m : Media) : Media :=
  let pd := md_pd m in
  let tl := md_tl m in
  mkMedia (md_init m) (mkTimeline (tl_seqNum tl) (u64 (tl_videoDTS tl + smp_Duration s)) (smp_Duration s) (tl_audioDTS tl) (tl_flushedVideoDTS tl))
    (mkPending (pd_video pd ++ [s]) (pd_audio pd) (match pd_video pd with [] => tl_videoDTS tl | _ => pd_videoDTS pd end) (pd_audioDTS pd)
       (pd_bytes pd + len (smp_Payload s))) (md_sk m).

(** What an operation may do to the media; [v] says whether it may add video. *)
Inductive mstep (v : bool) : Media -> Media -> Prop :=
| ms_flush m m' ok : flush_media m = (m', ok) -> mstep v m m'
| ms_audio m dts next s : md_init m = true -> mstep v m (add_audio_media dts next s m)
| ms_video m s :
    v = true -> md_init m = true -> pd_video (md_pd m) = [] \/ smp_IsNonSyncSample s = true -> mstep v m (add_video_media s m)
| ms_init_failed m sk w : md_init m = false -> sink_write w (md_sk m) = (sk, false) -> mstep v m (mkMedia false (md_tl m) (md_pd m) sk)
| ms_init m sk sps pps a : md_init m = false -> sink_write (WInit sps pps a) (md_sk m) = (sk, true) ->
    mstep v m (mkMedia true (md_tl m) (md_pd m) sk).

(** ** The invariant *)

(** Each part stands where the video before it ends. *)
Definition tiled (ps : list Part) : Prop :=
  forall i p t, ps !! i = Some p -> t ∈ pa_Tracks p -> pt_ID t = videoTrackID ->
    pt_BaseTime t = samples_duration (take i ps ≫= part_video) /\ pt_Samples t = part_video p.

(** A keyframe opens a part. *)
Definition tail_non_sync (l : list Sample) : Prop := Forall (fun s => smp_IsNonSyncSample s = true) (tail l).

(** The bytes of samples. *)
Definition payload_bytes (l : list Sample) : Z := foldr (fun s n => len (smp_Payload s) + n) 0 l.

Record media_ok (m : Media) : Prop := {
  mo_file : if md_init m then exists sps pps a, whole (sk_file (md_sk m)) = WInit sps pps a :: (WPart <$> parts m)
            else whole (sk_file (md_sk m)) = [] /\ pd_video (md_pd m) = [] /\ pd_audio (md_pd m) = [];
  mo_numbers : pa_SequenceNumber <$> parts m = (fun i => u32 (Z.of_nat i)) <$> seq 0 (length (parts m));
  mo_next : tl_seqNum (md_tl m) = u32 (Z.of_nat (length (parts m)));
  mo_tiled : tiled (parts m);
  mo_flushed : tl_flushedVideoDTS (md_tl m) = samples_duration (written_video m);
  mo_pending : pd_video (md_pd m) <> [] -> pd_videoDTS (md_pd m) = samples_duration (written_video m);
  mo_total : tl_videoDTS (md_tl m) = samples_duration (video_samples m);
  mo_parts_sync : Forall (fun p => tail_non_sync (part_video p)) (parts m);
  mo_pending_sync : tail_non_sync (pd_video (md_pd m));
  mo_bytes : pd_bytes (md_pd m) = payload_bytes (pd_video (md_pd m) ++ pd_audio (md_pd m))
}.

Lemma samples_duration_app a b : samples_duration (a ++ b) = u64 (samples_duration a + samples_duration b).
Proof.
  unfold samples_duration. rewrite fold_left_app. set (d := fold_left _ a 0). assert (0 <= d < 2 ^ 64) as Hd.
  { subst d. destruct a as [|x a] using rev_ind; [cbn; lia|]. rewrite fold_left_app. cbn. apply wrapU_range. lia. }
  revert Hd. generalize d. clear d a. intros d Hd.
  enough (forall c, fold_left (fun d s => u64 (d + smp_Duration s)) b (u64 (d + c)) =
    u64 (d + fold_left (fun d s => u64 (d + smp_Duration s)) b (u64 c))) as Hg.
  { specialize (Hg 0). rewrite Z.add_0_r, (u64_small d) in Hg by lia. rewrite Hg. by rewrite (u64_small 0). }
  induction b as [|s b IH]; intros c; cbn [fold_left]; [by autorewrite with vedetta|].
  autorewrite with vedetta. rewrite <- Z.add_assoc. rewrite IH. by autorewrite with vedetta.
Qed.

Lemma samples_duration_range l : 0 <= samples_duration l < 2 ^ 64.
Proof. unfold samples_duration. destruct l as [|x l] using rev_ind; [cbn; lia|]. rewrite fold_left_app. cbn. apply wrapU_range. lia. Qed.

Lemma samples_duration_1 s : samples_duration [s] = u64 (smp_Duration s).
Proof. reflexivity. Qed.

Lemma parts_of_snoc f w : parts_of (f ++ [w]) = parts_of f ++ match w with WPart p => [p] | _ => [] end.
Proof. unfold parts_of. rewrite omap_app. f_equal. by destruct w. Qed.

Lemma whole_snoc f w : whole (f ++ [w]) = whole f ++ match w with WTorn => [] | w => [w] end.
Proof. unfold whole. rewrite omap_app. f_equal. by destruct w. Qed.

Lemma part_video_of tl pd : part_video (part_of tl pd) = pd_video pd.
Proof.
  unfold part_video, part_of. cbn [pa_Tracks]. rewrite bind_app.
  destruct (pd_video pd), (pd_audio pd); cbn; by rewrite ?app_nil_r.
Qed.

Lemma parts_of_parts ps : parts_of (WPart <$> ps) = ps.
Proof. unfold parts_of. induction ps as [|p ps IH]; [done|]. cbn. by f_equal. Qed.
Lemma payload_bytes_app a b : payload_bytes (a ++ b) = payload_bytes a + payload_bytes b.
Proof. unfold payload_bytes. induction a as [|s a IH]; [done|]. cbn. rewrite IH. lia. Qed.

Lemma sink_write_ok w s s' ok :
  sink_write w s = (s', ok) -> sk_file s' = sk_file s ++ [if ok then w else WTorn].
Proof. unfold sink_write. destruct (sk_disk s (sk_writes s)); by intros [= <- <-]. Qed.

(** A failed write changes nothing but the file, where it leaves no part. *)
Lemma parts_torn m sk ok :
  sink_write WTorn (md_sk m) = (sk, ok) \/ (exists w, sink_write w (md_sk m) = (sk, false)) ->
  forall i tl pd, parts (mkMedia i tl pd sk) = parts m.
Proof.
  intros Hw i tl pd. unfold parts. cbn. destruct Hw as [Hw|[w Hw]]; rewrite (sink_write_ok _ _ _ _ Hw), parts_of_snoc;
    [destruct ok|]; by rewrite app_nil_r.
Qed.

Lemma flush_media_video m m' ok : flush_media m = (m', ok) -> video_samples m' = video_samples m /\ md_init m' = md_init m.
Proof.
  unfold flush_media. destruct (pa_Tracks (part_of (md_tl m) (md_pd m))) eqn:Et; [by intros [= <-]|].
  destruct (sink_write _ (md_sk m)) as [sk []] eqn:Es; intros [= <- <-]; (split; [|done]); unfold video_samples, written_video.
  - unfold parts. cbn. rewrite (sink_write_ok _ _ _ _ Es), parts_of_snoc, bind_app, app_nil_r. f_equal.
    cbn [mbind list_bind]. by rewrite app_nil_r, part_video_of.
  - rewrite (parts_torn m sk false) by by right; exists (WPart (part_of (md_tl m) (md_pd m))). done.
Qed.

Lemma tiled_snoc ps p :
  tiled ps -> (forall t, t ∈ pa_Tracks p -> pt_ID t = videoTrackID ->
    pt_BaseTime t = samples_duration (ps ≫= part_video) /\ pt_Samples t = part_video p) -> tiled (ps ++ [p]).
Proof.
  intros Hps Hp i q t Hi Ht Hid. destruct (decide (i < length ps)%nat) as [Hlt|Hge].
  - rewrite lookup_app_l in Hi by done. rewrite take_app_le by lia. by apply (Hps i q t).
  - rewrite lookup_app_r in Hi by lia. apply list_lookup_singleton_Some in Hi as [Hi <-].
    rewrite take_app_ge by lia. assert (i - length ps = 0)%nat as -> by lia. cbn [take]. rewrite app_nil_r. by apply Hp.
Qed.

(** What a failed write leaves does not matter. *)
Lemma media_ok_torn m sk w : sink_write w (md_sk m) = (sk, false) -> media_ok m -> media_ok (mkMedia (md_init m) (md_tl m) (md_pd m) sk).
Proof.
  intros Hw [F1 F2 F3 F4 F5 F6 F7 F8 F9 F11].
  assert (forall i tl pd, parts (mkMedia i tl pd sk) = parts m) as Hp by (apply (parts_torn m sk false); right; by exists w).
  assert (whole (sk_file sk) = whole (sk_file (md_sk m))) as Hf by (by rewrite (sink_write_ok _ _ _ _ Hw), whole_snoc, app_nil_r).
  split; unfold video_samples, written_video; rewrite ?Hp; [|exact F2|exact F3|exact F4|exact F5|exact F6|exact F7|exact F8|exact F9|exact F11].
  cbn. rewrite Hf. exact F1.
Qed.

Lemma flush_media_ok m m' ok : media_ok m -> flush_media m = (m', ok) -> media_ok m'.
Proof.
  intros Hok Hf. pose proof (flush_media_video m m' ok Hf) as [Hv Hi]. unfold flush_media in Hf.
  destruct (pa_Tracks (part_of (md_tl m) (md_pd m))) as [|tr trs] eqn:Et; [by injection Hf as <- <-|].
  destruct (sink_write _ (md_sk m)) as [sk b] eqn:Es. pose proof (sink_write_ok _ _ _ _ Es) as Hfile.
  destruct b; injection Hf as <- <-; [|by apply (media_ok_torn m sk (WPart (part_of (md_tl m) (md_pd m))))].
  destruct Hok as [F1 F2 F3 F4 F5 F6 F7 F8 F9 F11].
  set (p := part_of (md_tl m) (md_pd m)) in *. assert (part_video p = pd_video (md_pd m)) as Hp by apply part_video_of.
  assert (parts (mkMedia (md_init m) (mkTimeline (u32 (tl_seqNum (md_tl m) + 1)) (tl_videoDTS (md_tl m)) (tl_lastVideoDuration (md_tl m))
      (tl_audioDTS (md_tl m)) match pd_video (md_pd m) with [] => tl_flushedVideoDTS (md_tl m) | v => u64 (pd_videoDTS (md_pd m) + samples_duration v) end)
      (mkPending [] [] (pd_videoDTS (md_pd m)) (pd_audioDTS (md_pd m)) 0) sk) = parts m ++ [p]) as Hparts.
  { unfold parts. cbn [md_sk]. by rewrite Hfile, parts_of_snoc. }
  split; unfold written_video; rewrite ?Hparts; cbn [md_init md_tl md_pd md_sk tl_seqNum tl_videoDTS tl_flushedVideoDTS pd_video pd_audio pd_videoDTS pd_bytes].
  - destruct (md_init m); [|by destruct F1 as (_ & E1 & E2); unfold part_of in Et; cbn in Et; rewrite E1, E2 in Et].
    destruct F1 as (sps & pps & a & E). exists sps, pps, a. rewrite Hfile, whole_snoc, E, fmap_app. done.
  - rewrite fmap_app, length_app, seq_app, fmap_app, F2. cbn. by rewrite <- F3.
  - rewrite F3, length_app. cbn [length]. autorewrite with vedetta. f_equal. lia.
  - apply tiled_snoc; [done|]. intros t Ht Hid. fold (written_video m). rewrite Hp.
    subst p. unfold part_of in Ht. cbn [pa_Tracks] in Ht. destruct (pd_video (md_pd m)) as [|s v] eqn:Ev; destruct (pd_audio (md_pd m)) as [|s' v'];
      cbn [app] in Ht; rewrite ?elem_of_cons in Ht; destruct_or?; subst; cbn in *; try done; try (by apply elem_of_nil in Ht);
      (split; [by apply F6|done]).
  - rewrite bind_app. cbn [mbind list_bind]. rewrite app_nil_r, Hp, samples_duration_app. fold (written_video m).
    destruct (pd_video (md_pd m)) as [|s v] eqn:Ev; [|by rewrite F6].
    rewrite F5. cbn. rewrite Z.add_0_r. rewrite u64_small; [done|apply samples_duration_range].
  - done.
  - rewrite F7. by rewrite <- Hv.
  - apply Forall_app. split; [done|]. constructor; [by rewrite Hp|constructor].
  - constructor.
  - done.
Qed.

Lemma add_audio_media_ok m dts next s : md_init m = true -> media_ok m -> media_ok (add_audio_media dts next s m).
Proof.
  intros Hi [F1 F2 F3 F4 F5 F6 F7 F8 F9 F11]. rewrite Hi in F1.
  split; [|exact F2|exact F3|exact F4|exact F5|exact F6|exact F7|exact F8|exact F9|].
  - cbn. rewrite Hi. exact F1.
  - cbn. rewrite F11, app_assoc, (payload_bytes_app _ [s]). cbn. lia.
Qed.

Lemma add_video_media_ok m s :
  md_init m = true -> pd_video (md_pd m) = [] \/ smp_IsNonSyncSample s = true -> media_ok m -> media_ok (add_video_media s m).
Proof.
  intros Hi Hs [F1 F2 F3 F4 F5 F6 F7 F8 F9 F11]. rewrite Hi in F1.
  assert (video_samples (add_video_media s m) = video_samples m ++ [s]) as Hv by (unfold video_samples; cbn; by rewrite app_assoc).
  split; rewrite ?Hv; [|exact F2|exact F3|exact F4|exact F5| | |exact F8| |].
  - cbn. rewrite Hi. exact F1.
  - intros _. cbn. change (written_video _) with (written_video m).
    destruct (pd_video (md_pd m)) eqn:E; [|by apply F6]. rewrite F7. unfold video_samples. by rewrite E, app_nil_r.
  - cbn. rewrite samples_duration_app, F7, samples_duration_1. by autorewrite with vedetta.
  - cbn. destruct (pd_video (md_pd m)) as [|x l]; [constructor|]. destruct Hs as [Hs|Hs]; [done|].
    apply Forall_app. split; [exact F9|]. by constructor.
  - cbn. rewrite F11, !payload_bytes_app. cbn. lia.
Qed.

Lemma init_media_ok m sk sps pps a :
  md_init m = false -> sk_file sk = sk_file (md_sk m) ++ [WInit sps pps a] -> media_ok m -> media_ok (mkMedia true (md_tl m) (md_pd m) sk).
Proof.
  intros Hi Hf [F1 F2 F3 F4 F5 F6 F7 F8 F9 F11]. rewrite Hi in F1. destruct F1 as (E1 & E2 & E3).
  assert (parts (mkMedia true (md_tl m) (md_pd m) sk) = parts m) as Hp by (unfold parts; cbn; by rewrite Hf, parts_of_snoc, app_nil_r).
  assert (parts m = []) as Hn.
  { unfold parts. clear - E1. induction (sk_file (md_sk m)) as [|w f IH]; [done|]. destruct w; try done. by apply IH. }
  split; unfold video_samples, written_video; rewrite ?Hp;
    [|exact F2|exact F3|exact F4|exact F5|exact F6|exact F7|exact F8|exact F9|exact F11].
  cbn. exists sps, pps, a. by rewrite Hf, whole_snoc, E1, Hn.
Qed.

Lemma mstep_ok v m m' : mstep v m m' -> media_ok m -> media_ok m'.
Proof.
  intros [m0 m1 ok Hf|m0 dts next s Hi|m0 s _ Hi Hs|m0 sk w Hi Hw|m0 sk sps pps a Hi Hw] Hok.
  - by apply (flush_media_ok m0 m1 ok).
  - by apply add_audio_media_ok.
  - by apply add_video_media_ok.
  - rewrite <- Hi. by apply (media_ok_torn m0 sk w).
  - apply (init_media_ok _ _ sps pps a); [done| |done]. by rewrite (sink_write_ok _ _ _ _ Hw).
Qed.

Lemma msteps_ok v m m' : rtc (mstep v) m m' -> media_ok m -> media_ok m'.
Proof. induction 1 as [|m m1 m' H1 _ IH]; [done|]. intros Hok. apply IH, (mstep_ok v m m1 H1 Hok). Qed.

(** Accepted samples are never dropped or changed, and audio adds none. *)
Lemma mstep_prefix v m m' :
  mstep v m m' -> video_samples m `prefix_of` video_samples m' /\ (v = false -> video_samples m' = video_samples m).
Proof.
  intros [m0 m1 ok Hf|m0 dts next s Hi|m0 s Hv Hi Hs|m0 sk w Hi Hw|m0 sk sps pps a Hi Hw].
  - by rewrite (proj1 (flush_media_video _ _ _ Hf)).
  - done.
  - split; [|by rewrite Hv]. exists [s]. unfold video_samples. cbn. by rewrite app_assoc.
  - unfold video_samples, written_video. rewrite (parts_torn m0 sk false) by by right; exists w. done.
  - unfold video_samples, written_video, parts. cbn. by rewrite (sink_write_ok _ _ _ _ Hw), parts_of_snoc, app_nil_r.
Qed.

Lemma msteps_prefix v m m' :
  rtc (mstep v) m m' -> video_samples m `prefix_of` video_samples m' /\ (v = false -> video_samples m' = video_samples m).
Proof.
  induction 1 as [|m m1 m' H1 _ [IH1 IH2]]; [done|]. destruct (mstep_prefix v m m1 H1) as [P1 P2].
  split; [by etrans|]. intros Hv. by rewrite IH2, P2.
Qed.

Lemma msteps_video v m m' : rtc (mstep v) m m' -> rtc (mstep true) m m'.
Proof.
  induction 1 as [|m m1 m' H1 _ IH]; [done|]. eapply rtc_l; [|exact IH].
  destruct H1; [by eapply ms_flush|by apply ms_audio|by apply ms_video|by eapply ms_init_failed|by eapply ms_init].
Qed.

(** ** Every operation is a run of such steps *)

(** Before the initialization no audio has been fed to the encoder. *)
Definition audio_idle (sw : SegmentWriter) : Prop :=
  sw_initWritten sw = false -> forall r, sw_recordingAudio sw = Some r -> ra_input r = ra_written r.

Definition runs (v : bool) (sw sw' : SegmentWriter) : Prop := audio_idle sw -> rtc (mstep v) (media sw) (media sw') /\ audio_idle sw'.

#[local] Instance runs_preorder v : PreOrder (runs v).
Proof.
  split; [by intros sw Hi; split|]. intros a b c Hab Hbc Hi. destruct (Hab Hi) as [H1 Hb], (Hbc Hb) as [H2 Hc].
  split; [by etrans|done].
Qed.

Lemma runs_same {v} sw sw' : media sw' = media sw -> (audio_idle sw -> audio_idle sw') -> runs v sw sw'.
Proof. intros Hm Ha Hi. rewrite Hm. by split; [|apply Ha]. Qed.

Lemma runs_step {v : bool} sw sw' : mstep v (media sw) (media sw') -> sw_initWritten sw' = true \/ sw_recordingAudio sw' = sw_recordingAudio sw /\ sw_initWritten sw' = sw_initWritten sw -> runs v sw sw'.
Proof.
  intros Hm Ha Hi. split; [by apply rtc_once|]. intros Hf. destruct Ha as [Ha|[Ha Hb]]; [by rewrite Hf in Ha|].
  rewrite Ha. apply Hi. by rewrite <- Hb.
Qed.

Lemma flushGOP_media sw : media (fst (flushGOP sw)) = fst (flush_media (media sw)) /\
  (snd (flushGOP sw) = None <-> snd (flush_media (media sw)) = true).
Proof.
  unfold flushGOP, flush_media, pending_part, part_of, media. cbn [md_tl md_pd md_sk].
  destruct (pa_Tracks _); [done|]. by destruct (sink_write _ (sw_sink sw)) as [sk []].
Qed.

Lemma flushGOP_audio sw : sw_recordingAudio (fst (flushGOP sw)) = sw_recordingAudio sw /\ sw_initWritten (fst (flushGOP sw)) = sw_initWritten sw /\
  sw_audioErr (fst (flushGOP sw)) = sw_audioErr sw.
Proof. unfold flushGOP. destruct (pa_Tracks _); [done|]. by destruct (sink_write _ (sw_sink sw)) as [sk []]. Qed.

Lemma flushGOP_runs {v} sw : runs v sw (fst (flushGOP sw)).
Proof.
  destruct (flushGOP_media sw) as [Hm _], (flushGOP_audio sw) as (Ha & Hb & _). apply runs_step; [|by right].
  rewrite Hm. by apply (ms_flush _ _ _ (snd (flush_media (media sw)))), surjective_pairing.
Qed.

Lemma flushGOP_empties sw sw' : flushGOP sw = (sw', None) -> pd_video (sw_pending sw') = [] /\ pd_audio (sw_pending sw') = [].
Proof.
  unfold flushGOP. destruct (pa_Tracks (pending_part sw)) eqn:Et.
  - intros [= <-]. unfold pending_part in Et. cbn in Et. by destruct (pd_video (sw_pending sw)), (pd_audio (sw_pending sw)).
  - destruct (sink_write _ (sw_sink sw)) as [sk []]; [|done]. by intros [= <-].
Qed.

Lemma capPendingPart_cases sw : capPendingPart sw = (sw, None) \/ capPendingPart sw = flushGOP sw.
Proof. unfold capPendingPart. destruct (pd_video (sw_pending sw)), (pd_audio (sw_pending sw)); try (by left); case_match; auto. Qed.

Lemma capPendingPart_runs {v} sw : runs v sw (fst (capPendingPart sw)).
Proof. destruct (capPendingPart_cases sw) as [->| ->]; [reflexivity|apply flushGOP_runs]. Qed.

Lemma add_audio_media_eq dts next s sw : media (add_audio dts next s sw) = add_audio_media dts next s (media sw).
Proof. reflexivity. Qed.

Lemma append_frame_runs {v} sw payload : runs v sw (append_frame sw payload).
Proof.
  unfold append_frame. destruct (sw_recordingAudio sw) as [r|] eqn:Er; [|reflexivity].
  destruct (0 <? ra_skip r).
  { apply runs_same; [done|]. intros Hi Hf r' [= <-]. by apply (Hi Hf r). }
  destruct (u64 (ra_input r - ra_written r) =? 0) eqn:E0; [reflexivity|]. intros Hi.
  assert (sw_initWritten sw = true) as Ht.
  { apply not_false_is_true. intros Hf. specialize (Hi Hf r Er). by rewrite Hi, Z.sub_diag in E0. }
  split; [|intros Hf; cbn in Hf; congruence].
  apply rtc_once. exact (ms_audio v (media sw) _ _ _ Ht).
Qed.

Lemma fold_runs {v} {A} (f : SegmentWriter -> A -> SegmentWriter) l sw : (forall sw x, runs v sw (f sw x)) -> runs v sw (fold_left f l sw).
Proof. intros Hf. revert sw. induction l as [|x l IH]; intros sw; [reflexivity|]. cbn. etrans; [apply Hf|apply IH]. Qed.

Lemma appendEncodedAudio_runs {v} frames sw : runs v sw (appendEncodedAudio frames sw).
Proof. apply fold_runs. intros. apply append_frame_runs. Qed.

Lemma set_encoder_idle sw e err pre :
  audio_idle sw -> audio_idle (set_audio (set_encoder e <$> sw_recordingAudio sw) err pre sw).
Proof. intros Hi Hf r. cbn. destruct (sw_recordingAudio sw) as [r0|] eqn:E; [|done]. intros [= <-]. by apply (Hi Hf r0). Qed.

Lemma failAudio_runs {v} err sw : runs v sw (failAudio err sw).
Proof. unfold failAudio. destruct (sw_audioErr sw); [reflexivity|]. apply runs_same; [done|apply set_encoder_idle]. Qed.

Lemma put_encoder_runs {v} e sw : runs v sw (put_encoder e sw).
Proof. apply runs_same; [done|apply set_encoder_idle]. Qed.

Lemma finishRecordingAudio_runs {v} sw : runs v sw (finishRecordingAudio sw).
Proof.
  unfold finishRecordingAudio. destruct (sw_recordingAudio sw ≫= ra_encoder) as [e|]; [|reflexivity].
  etrans; [|apply put_encoder_runs]. destruct (FlushResampler e) as [e' [frames|err]]; [|apply failAudio_runs].
  etrans; [apply appendEncodedAudio_runs|]. destruct (FlushEncoder e') as [? [frames'|err]]; [apply appendEncodedAudio_runs|apply failAudio_runs].
Qed.

(** The writer an interrupted or a finished operation leaves. *)
Definition left_by {A} (o : Outcome + A) (f : A -> SegmentWriter) : SegmentWriter := match o with inl o => fst o | inr a => f a end.

Lemma splice_runs {v} pkt prev r sw : runs v sw (left_by (splice pkt prev r sw) fst).
Proof.
  unfold splice. destruct (_ || _); [|reflexivity].
  pose proof (flushGOP_runs (v:=v) (finishRecordingAudio sw)) as Hr. destruct (flushGOP (finishRecordingAudio sw)) as [sw1 [e|]]; cbn [fst] in Hr;
    (assert (runs v sw sw1) as H1 by (etrans; [apply finishRecordingAudio_runs|done])); [done|].
  destruct (sw_audioErr sw1); [done|]. destruct (restart _ _); [done|]. cbn. etrans; [done|apply failAudio_runs].
Qed.

Lemma run_for_runs {v} pkt r sw : runs v sw (left_by (run_for pkt r sw) fst).
Proof. unfold run_for. destruct (ra_previous r); [|reflexivity]. case_match; [reflexivity|]. apply splice_runs. Qed.

Lemma feed_runs {v} pkt sw r : sw_initWritten sw = true -> runs v sw (fst (feed pkt sw r)).
Proof.
  intros Ht. unfold feed. destruct (ra_encoder r); [|reflexivity]. destruct (Encode _ _ _) as [e2 frames].
  set (sw1 := set_audio _ _ _ _).
  assert (runs v sw sw1) as H1 by (apply runs_same; [done|]; intros _ Hf; cbn in Hf; congruence).
  destruct frames as [frames|err]; cbn [fst]; (etrans; [exact H1|]); [|apply failAudio_runs].
  etrans; [apply appendEncodedAudio_runs|apply capPendingPart_runs].
Qed.

Lemma msteps_init {v} m m' : rtc (mstep v) m m' -> md_init m = true -> md_init m' = true.
Proof.
  induction 1 as [|m m1 m' H1 _ IH]; [done|]. intros Hi. apply IH. clear IH.
  destruct H1 as [m0 m1 ok Hf|m0 dts next s _|m0 s _ _ _|m0 sk w Hn Hw|m0 sk sps pps a Hn Hw]; [|done..|congruence|done].
  by rewrite (proj2 (flush_media_video _ _ _ Hf)).
Qed.

Lemma runs_init {v} sw sw' : runs v sw sw' -> sw_initWritten sw = true -> sw_initWritten sw' = true.
Proof. intros Hr Hi. change (md_init (media sw') = true). apply (msteps_init (v:=v) (media sw)); [|done]. apply Hr. intros Hf. congruence. Qed.

Lemma writeG711Audio_runs {v} now pkt sw : runs v sw (fst (writeG711Audio now pkt sw)).
Proof.
  unfold writeG711Audio. destruct (sw_recordingAudio sw) as [r|] eqn:Er; [|reflexivity].
  destruct (ra_encoder r); [|reflexivity]. case_match; [reflexivity|].
  destruct (sw_initWritten sw) eqn:Ei; cbn [negb].
  - pose proof (run_for_runs (v:=v) pkt r sw) as Hr. destruct (run_for pkt r sw) as [o|[sw1 r1]]; [done|]. cbn [left_by fst] in Hr.
    etrans; [exact Hr|]. by apply feed_runs, (runs_init (v:=v) sw).
  - case_match; [|reflexivity]. apply runs_same; [done|]. intros Hi Hf r' Hr'. cbn in Hr'. apply (Hi Hf). congruence.
Qed.

Lemma write_queued_runs {v} now t q sw : runs v sw (fst (write_queued now t q sw)).
Proof.
  revert sw. induction q as [|[pkt received] q IH]; intros sw; [reflexivity|]. cbn [write_queued].
  case_match; [apply IH|]. pose proof (writeG711Audio_runs (v:=v) now pkt sw) as Hr.
  destruct (writeG711Audio now pkt sw) as [sw1 [e|]]; [done|]. cbn [and_then fst] in *. etrans; [exact Hr|apply IH].
Qed.

(** The caps on the buffer. *)
Definition bounded (sw : SegmentWriter) : Prop :=
  pd_bytes (sw_pending sw) < maxPendingPartBytes /\
  (pd_video (sw_pending sw) <> [] -> u64 (tl_videoDTS (sw_timeline sw) - pd_videoDTS (sw_pending sw)) < videoTimeScale * maxPendingPartSeconds).

Lemma flushGOP_some_bounded sw sw' : (pd_video (sw_pending sw) <> [] \/ pd_audio (sw_pending sw) <> []) -> flushGOP sw = (sw', None) -> bounded sw'.
Proof.
  intros Hn Hf. destruct (flushGOP_empties sw sw' Hf) as [Hv _]. split; [|by rewrite Hv].
  unfold flushGOP in Hf. destruct (pa_Tracks (pending_part sw)) eqn:Et.
  - unfold pending_part in Et. cbn in Et. by destruct Hn, (pd_video (sw_pending sw)), (pd_audio (sw_pending sw)).
  - by destruct (sink_write _ _) as [sk []]; [|done]; injection Hf as <-.
Qed.

(** The caps hold after the check, whatever came before it. *)
Lemma capPendingPart_bounded sw sw' :
  pd_bytes (sw_pending sw) = payload_bytes (pd_video (sw_pending sw) ++ pd_audio (sw_pending sw)) -> capPendingPart sw = (sw', None) -> bounded sw'.
Proof.
  intros Hb. unfold capPendingPart.
  destruct (pd_video (sw_pending sw)) as [|v vs] eqn:Ev, (pd_audio (sw_pending sw)) as [|a al] eqn:Ea.
  1: { intros [= <-]. split; [|by rewrite Ev]. by rewrite Hb. }
  all: destruct (_ || _) eqn:Eo; [apply flushGOP_some_bounded; rewrite ?Ev, ?Ea; auto|];
    apply orb_false_iff in Eo as [E1 E2]; intros [= <-]; (split; [by apply Z.leb_gt|]); rewrite Ev; try done;
    intros _; by apply Z.leb_gt.
Qed.

Lemma add_video_media_eq s sw : media (add_video s sw) = add_video_media s (media sw).
Proof. reflexivity. Qed.

(** The buffer an access unit is appended to: written out before a keyframe. *)
Definition make_room (au : list nalu) (sw : SegmentWriter) : Outcome :=
  match pd_video (sw_pending sw) with
  | _ :: _ => if IsRandomAccess au then flushGOP sw else (sw, None)
  | [] => (sw, None)
  end.

Lemma make_room_cases au sw : make_room au sw = (sw, None) \/ make_room au sw = flushGOP sw.
Proof. unfold make_room. destruct (pd_video (sw_pending sw)); [by left|]. destruct (IsRandomAccess au); [by right|by left]. Qed.

Lemma append_unit_runs au d sw : sw_initWritten sw = true -> runs true sw (fst (append_unit au d sw)).
Proof.
  intros Hi. unfold append_unit. destruct (AVCCMarshal au) as [avcc|]; [|reflexivity].
  set (s := mkSample _ _ _). fold (make_room au sw).
  assert (runs true sw (fst (make_room au sw))) as Ho by (destruct (make_room_cases au sw) as [->| ->]; [reflexivity|apply flushGOP_runs]).
  assert (snd (make_room au sw) = None -> pd_video (sw_pending (fst (make_room au sw))) = [] \/ smp_IsNonSyncSample s = true) as Hs.
  { unfold make_room, s. cbn. destruct (pd_video (sw_pending sw)) eqn:E; [by left|]. destruct (IsRandomAccess au); [|by right].
    destruct (flushGOP sw) as [sw1 e] eqn:Ef. cbn. intros ->. left. by apply (flushGOP_empties sw sw1). }
  destruct (make_room au sw) as [sw1 [e|]]; [done|]. cbn [and_then fst snd] in *.
  assert (sw_initWritten sw1 = true) as Hi1 by by apply (runs_init (v:=true) sw).
  etrans; [exact Ho|]. etrans; [|apply capPendingPart_runs]. apply runs_step; [|by left].
  rewrite add_video_media_eq. apply ms_video; [done|done|by apply Hs].
Qed.

(** [open_file] either stops, or leaves the initialization written and, when it wrote it
    now, a keyframe to append. *)
Lemma open_file_runs {v} now au t sw : runs v sw (left_by (open_file now au t sw) id) /\
  (forall sw', open_file now au t sw = inr sw' -> sw_initWritten sw' = true /\ (sw_initWritten sw = true -> sw' = sw) /\
     (sw_initWritten sw = false -> IsRandomAccess au = true)).
Proof.
  unfold open_file. destruct (sw_initWritten sw) eqn:Ei; [split; [reflexivity|by intros sw' [= <-]]|].
  destruct (IsRandomAccess au) eqn:Er; cbn [negb].
  2: { split; [|done]. apply runs_same; [done|]. intros Hi Hf r Hr. by apply (Hi Hf). }
  destruct (_ || _); [split; [reflexivity|done]|].
  destruct (writeInit sw) as [sw1 e] eqn:Ew. unfold writeInit in Ew. destruct (sink_write _ _) as [sk ok] eqn:Es. injection Ew as <- <-.
  destruct ok.
  - set (sw2 := set_init t _).
    assert (runs v sw sw2) as H2.
    { apply runs_step; [|by left]. exact (ms_init v (media sw) sk _ _ _ Ei Es). }
    pose proof (write_queued_runs (v:=v) now t (sw_preAudio (set_media (sw_timeline sw) (sw_pending sw) sk sw)) sw2) as Hq.
    destruct (write_queued _ _ _ sw2) as [sw3 [e|]]; cbn [left_by fst id] in *.
    + split; [by etrans|done].
    + split; [by etrans|]. intros sw' [= <-]. split; [|done]. by apply (runs_init (v:=v) sw2).
  - split; [|done]. cbn [left_by fst]. apply runs_step; [|by right].
    assert (media (set_media (sw_timeline sw) (sw_pending sw) sk sw) = mkMedia false (sw_timeline sw) (sw_pending sw) sk) as ->
      by (unfold media; cbn; by rewrite Ei).
    exact (ms_init_failed v (media sw) sk _ Ei Es).
Qed.

Lemma writeVideoAccessUnit_runs now au d t sw : runs true sw (fst (writeVideoAccessUnit now au d t sw)).
Proof.
  unfold writeVideoAccessUnit. destruct (DropSEI au) as [|n au']; [reflexivity|]. destruct (TrackParameterSets _ _ _) as [[sps pps] b].
  set (sw1 := set_params sps pps sw). assert (runs true sw sw1) as H1 by (by apply runs_same).
  destruct (open_file_runs (v:=true) now (n :: au') t sw1) as [Hr Hs]. destruct (open_file now (n :: au') t sw1) as [o|sw2]; cbn [left_by id] in Hr; [by etrans|].
  destruct (Hs sw2 eq_refl) as (Hi & _). etrans; [exact H1|]. etrans; [exact Hr|]. by apply append_unit_runs.
Qed.

Lemma WriteVideo_runs now pkt sw : runs true sw (fst (WriteVideo now pkt sw)).
Proof.
  unfold WriteVideo. destruct (sw_h264Decoder sw) as [dec|]; [|reflexivity].
  destruct (note_arrival _ _ _) as [t arr]. destruct (Decode pkt dec) as [dec' [au rtp]].
  set (sw1 := set_decoder _ _). assert (runs true sw sw1) as H1 by (by apply runs_same).
  destruct au as [[|n au]|]; [done| |done]. destruct (_ =? 0); [etrans; [exact H1|apply writeVideoAccessUnit_runs]|].
  destruct (_ <=? _); [by apply runs_same|]. etrans; [exact H1|apply writeVideoAccessUnit_runs].
Qed.

Lemma add_aac_runs {v} sw au : sw_initWritten sw = true -> runs v sw (add_aac sw au).
Proof. intros Hi. apply runs_step; [|by left]. exact (ms_audio v (media sw) _ _ _ Hi). Qed.

Lemma WriteAudio_runs {v} now pkt sw : runs v sw (fst (WriteAudio now pkt sw)).
Proof.
  unfold WriteAudio. destruct (sw_recordingAudio sw) eqn:Er; [apply writeG711Audio_runs|].
  destruct (sw_aacDecoder sw) as [dec|]; [|reflexivity]. destruct (AACDepacketize pkt dec) as [dec' [aus|]]; [|by apply runs_same].
  set (sw1 := set_aac _ _). assert (runs v sw sw1) as H1 by (by apply runs_same). destruct (sw_initWritten sw1) eqn:Ei; [|done]. cbn [negb].
  etrans; [exact H1|]. etrans; [|apply capPendingPart_runs]. clear H1 Er. revert Ei. generalize sw1. clear sw1.
  induction aus as [|a aus IH]; intros sw1 Ei; [reflexivity|]. cbn [fold_left]. etrans; [by apply add_aac_runs|].
  apply IH. by apply (runs_init (v:=v) sw1 _ (add_aac_runs sw1 a Ei)).
Qed.

Lemma drain_decoder_runs now sw : runs true sw (fst (drain_decoder now sw)).
Proof.
  unfold drain_decoder. destruct (sw_h264Decoder sw) as [dec|]; [|reflexivity].
  destruct (sw_skipDecoderFlush sw); [reflexivity|]. destruct (Flush dec) as [dec' [[|n au]|]]; [by apply runs_same| |by apply runs_same].
  set (sw1 := set_decoder _ sw). assert (runs true sw sw1) as H1 by (by apply runs_same).
  etrans; [exact H1|]. apply writeVideoAccessUnit_runs.
Qed.

(** ** Accepting an access unit *)

Definition counted (sw : SegmentWriter) : Prop :=
  pd_bytes (sw_pending sw) = payload_bytes (pd_video (sw_pending sw) ++ pd_audio (sw_pending sw)).

Lemma flushGOP_bounded sw sw' : counted sw -> flushGOP sw = (sw', None) -> bounded sw'.
Proof.
  intros Hb Hf. destruct (pd_video (sw_pending sw)) eqn:Ev; [destruct (pd_audio (sw_pending sw)) eqn:Ea|];
    [|apply (flushGOP_some_bounded sw); [rewrite ?Ev, ?Ea; auto|done]..].
  unfold flushGOP, pending_part in Hf. rewrite Ev, Ea in Hf. cbn in Hf. injection Hf as <-.
  split; [|by rewrite Ev]. by rewrite Hb, Ev, Ea.
Qed.

Lemma bounded_same sw sw' : media sw' = media sw -> bounded sw -> bounded sw'.
Proof. intros [= _ Ht Hp _]. unfold bounded. by rewrite Ht, Hp. Qed.

Lemma flushGOP_video sw : video_samples (media (fst (flushGOP sw))) = video_samples (media sw).
Proof. rewrite (proj1 (flushGOP_media sw)). by apply (flush_media_video _ _ (snd (flush_media (media sw)))), surjective_pairing. Qed.

Lemma capPendingPart_video sw : video_samples (media (fst (capPendingPart sw))) = video_samples (media sw).
Proof. destruct (capPendingPart_cases sw) as [->| ->]; [done|apply flushGOP_video]. Qed.

(** An accepted access unit is one sample more. *)
Lemma append_unit_accepts au d sw sw' : append_unit au d sw = (sw', None) ->
  exists s, video_samples (media sw') = video_samples (media sw) ++ [s] /\ smp_IsNonSyncSample s = negb (IsRandomAccess au) /\
    AVCCMarshal au = Ok (smp_Payload s) /\ smp_Duration s = (if d =? 0 then 3000 else d).
Proof.
  unfold append_unit. destruct (AVCCMarshal au) as [avcc|]; [|done]. set (s := mkSample _ _ _).
  set (o := match pd_video (sw_pending sw) with [] => _ | _ => _ end).
  assert (video_samples (media (fst o)) = video_samples (media sw)) as Hv.
  { subst o. destruct (pd_video (sw_pending sw)); [done|]. destruct (IsRandomAccess au); [|done]. apply flushGOP_video. }
  destruct o as [sw1 [e|]]; [done|]. cbn [and_then fst] in *. intros Hc. exists s. split; [|done].
  pose proof (capPendingPart_video (add_video s sw1)) as Hp. rewrite Hc in Hp. cbn [fst] in Hp. rewrite Hp, <- Hv.
  unfold video_samples. cbn. by rewrite app_assoc.
Qed.

Lemma append_unit_bounded au d sw sw' : counted sw -> append_unit au d sw = (sw', None) -> bounded sw'.
Proof.
  intros Hc. unfold append_unit. destruct (AVCCMarshal au) as [avcc|]; [|done]. set (s := mkSample _ _ _).
  set (o := match pd_video (sw_pending sw) with [] => _ | _ => _ end).
  assert (snd o = None -> counted (fst o)) as Ho.
  { subst o. destruct (pd_video (sw_pending sw)); [done|]. destruct (IsRandomAccess au); [|done].
    unfold flushGOP. destruct (pa_Tracks _); [done|]. by destruct (sink_write _ _) as [sk []]. }
  destruct o as [sw1 [e|]]; [done|]. cbn [and_then]. intros Hcap. apply (capPendingPart_bounded (add_video s sw1)); [|done].
  specialize (Ho eq_refl). unfold counted in Ho. cbn in *. rewrite Ho, !payload_bytes_app. cbn. lia.
Qed.

(** ** The writers there are *)

(** What holds whatever fails. *)
Definition sound (sw : SegmentWriter) : Prop := media_ok (media sw) /\ audio_idle sw.

Lemma counted_ok sw : media_ok (media sw) -> counted sw.
Proof. by intros []. Qed.

Lemma runs_sound {v} sw sw' : runs v sw sw' -> sound sw -> sound sw'.
Proof. intros Hr [Hm Ha]. destruct (Hr Ha) as [Hs Hi]. split; [by apply (msteps_ok v (media sw))|done]. Qed.

Lemma runs_audio sw sw' : runs false sw sw' -> sound sw -> video_samples (media sw') = video_samples (media sw).
Proof. intros Hr [Hm Ha]. destruct (Hr Ha) as [Hs _]. by apply (msteps_prefix false). Qed.

(** What holds as long as no write has failed: the buffer is within its caps, an
    initialized file has a first sample, and that is a keyframe. *)
Definition clean (sw : SegmentWriter) : Prop :=
  bounded sw /\ (sw_initWritten sw = true -> video_samples (media sw) <> []) /\
  forall s, head (video_samples (media sw)) = Some s -> smp_IsNonSyncSample s = false.

Lemma clean_same sw sw' : media sw' = media sw -> clean sw -> clean sw'.
Proof.
  intros He (Hb & Hi & Hf). split; [by apply (bounded_same sw)|]. rewrite He. split; [|done]. intros Ht.
  apply Hi. change (md_init (media sw') = true) in Ht. by rewrite He in Ht.
Qed.

Lemma clean_audio sw sw' : sw_initWritten sw = true -> sound sw -> runs false sw sw' -> bounded sw' -> clean sw -> clean sw'.
Proof.
  intros Ht Hs Hr Hb (_ & Hi & Hf). split; [done|]. rewrite (runs_audio sw sw' Hr Hs). split; [|done]. intros _. by apply Hi.
Qed.

Lemma open_file_stops now au t sw sw' :
  open_file now au t sw = inl (sw', None) -> media sw' = media sw /\ sw_initWritten sw = false.
Proof.
  unfold open_file. destruct (sw_initWritten sw) eqn:Ei; [done|]. destruct (IsRandomAccess au); cbn [negb]; [|by intros [= <-]].
  destruct (_ || _); [by intros [= <-]|]. destruct (writeInit sw) as [sw1 [e|]]; [done|]. by destruct (write_queued _ _ _ _) as [sw2 [e|]].
Qed.

Lemma writeVideoAccessUnit_clean now au d t sw sw' :
  sound sw -> clean sw -> writeVideoAccessUnit now au d t sw = (sw', None) -> clean sw'.
Proof.
  intros Hs Hc Hw. unfold writeVideoAccessUnit in Hw. destruct (DropSEI au) as [|n au']; [injection Hw as <-; done|].
  destruct (TrackParameterSets _ _ _) as [[sps pps] b]. set (sw1 := set_params sps pps sw) in *.
  assert (sound sw1) as Hs1 by done. assert (clean sw1) as (Hb1 & Hi1 & Hf1) by done.
  destruct (open_file_runs (v:=false) now (n :: au') t sw1) as [Hr1 Ho].
  destruct (open_file now (n :: au') t sw1) as [o|sw2] eqn:Eo.
  { subst o. destruct (open_file_stops _ _ _ _ _ Eo) as [He Hi]. by apply (clean_same sw1). }
  cbn [left_by id] in Hr1. pose proof (runs_audio _ _ Hr1 Hs1) as Hv. destruct (Ho sw2 eq_refl) as (_ & Hsame & Hra).
  destruct (append_unit_accepts _ _ _ _ Hw) as (s & E & Hsync & _). rewrite Hv in E. unfold clean. rewrite E.
  split; [by apply (append_unit_bounded (n :: au') d sw2); [apply counted_ok, (runs_sound _ _ Hr1 Hs1)|]|]. split; [by destruct (video_samples _)|].
  intros x Hx. destruct (video_samples (media sw1)) as [|y l]; [|by apply Hf1].
  injection Hx as <-. rewrite Hsync. destruct (sw_initWritten sw1); [by destruct (Hi1 eq_refl)|]. by rewrite Hra.
Qed.

(** Only the packet's timestamp can say that the stream jumped. *)
Lemma flushGOP_no_gap sw : snd (flushGOP sw) <> Some ErrTimestampGap.
Proof. unfold flushGOP. destruct (pa_Tracks _); [done|]. by destruct (sink_write _ _) as [sk []]. Qed.

Lemma capPendingPart_no_gap sw : snd (capPendingPart sw) <> Some ErrTimestampGap.
Proof. destruct (capPendingPart_cases sw) as [->| ->]; [done|apply flushGOP_no_gap]. Qed.

Lemma splice_no_gap pkt prev r sw o : splice pkt prev r sw = inl o -> snd o <> Some ErrTimestampGap.
Proof.
  unfold splice. destruct (_ || _); [|done]. pose proof (flushGOP_no_gap (finishRecordingAudio sw)) as Hg.
  destruct (flushGOP _) as [sw1 [e|]]; [by intros [= <-]|]. destruct (sw_audioErr sw1); [by intros [= <-]|].
  destruct (restart _ _); [done|]. by intros [= <-].
Qed.

Lemma run_for_no_gap pkt r sw o : run_for pkt r sw = inl o -> snd o <> Some ErrTimestampGap.
Proof. unfold run_for. destruct (ra_previous r); [|done]. case_match; [by intros [= <-]|]. apply splice_no_gap. Qed.

Lemma writeG711Audio_no_gap now pkt sw : snd (writeG711Audio now pkt sw) <> Some ErrTimestampGap.
Proof.
  unfold writeG711Audio. destruct (sw_recordingAudio sw) as [r|]; [|done]. destruct (ra_encoder r); [|done].
  case_match; [done|]. case_match; [by case_match|]. destruct (run_for pkt r sw) as [o|[sw1 r1]] eqn:Er; [by apply (run_for_no_gap _ _ _ _ Er)|].
  unfold feed. destruct (ra_encoder r1); [|done]. destruct (Encode _ _ _) as [e2 [frames|err]]; [apply capPendingPart_no_gap|done].
Qed.

Lemma write_queued_no_gap now t q sw : snd (write_queued now t q sw) <> Some ErrTimestampGap.
Proof.
  revert sw. induction q as [|[pkt received] q IH]; intros sw; [done|]. cbn [write_queued]. case_match; [apply IH|].
  pose proof (writeG711Audio_no_gap now pkt sw) as Hg. destruct (writeG711Audio now pkt sw) as [sw1 [e|]]; [done|]. apply IH.
Qed.

Lemma append_unit_no_gap au d sw : snd (append_unit au d sw) <> Some ErrTimestampGap.
Proof.
  unfold append_unit. destruct (AVCCMarshal au); [|done]. set (o := match pd_video (sw_pending sw) with [] => _ | _ => _ end).
  assert (snd o <> Some ErrTimestampGap) as Hg by (subst o; destruct (pd_video _), (IsRandomAccess au); try done; apply flushGOP_no_gap).
  destruct o as [sw1 [e|]]; [done|]. apply capPendingPart_no_gap.
Qed.

Lemma open_file_no_gap now au t sw o : open_file now au t sw = inl o -> snd o <> Some ErrTimestampGap.
Proof.
  unfold open_file. destruct (sw_initWritten sw); [done|]. destruct (negb _); [by intros [= <-]|]. destruct (_ || _); [by intros [= <-]|].
  unfold writeInit. destruct (sink_write _ _) as [sk []]; cbn; [|by intros [= <-]].
  pose proof (write_queued_no_gap now t (sw_preAudio (set_media (sw_timeline sw) (sw_pending sw) sk sw))) as Hg. cbn in Hg.
  specialize (Hg (set_init t (set_media (sw_timeline sw) (sw_pending sw) sk sw))).
  destruct (write_queued _ _ _ _) as [sw1 [e|]]; [by intros [= <-]|done].
Qed.

Lemma writeVideoAccessUnit_no_gap now au d t sw : snd (writeVideoAccessUnit now au d t sw) <> Some ErrTimestampGap.
Proof.
  unfold writeVideoAccessUnit. destruct (DropSEI au); [done|]. destruct (TrackParameterSets _ _ _) as [[sps pps] b].
  destruct (open_file _ _ _ _) eqn:E; [by apply (open_file_no_gap _ _ _ _ _ E)|apply append_unit_no_gap].
Qed.

(** The errors that leave a writer clean. *)
Definition accepted (e : option WriteError) : bool := match e with None | Some ErrTimestampGap => true | _ => false end.

Lemma WriteVideo_clean now pkt sw sw' e :
  sound sw -> clean sw -> WriteVideo now pkt sw = (sw', e) -> accepted e = true -> clean sw'.
Proof.
  intros Hs Hc Hw He. unfold WriteVideo in Hw. destruct (sw_h264Decoder sw) as [dec|]; [|by injection Hw as <- _].
  destruct (note_arrival _ _ _) as [t arr]. destruct (Decode pkt dec) as [dec' [au rtp]]. set (sw1 := set_decoder _ _) in Hw.
  assert (sound sw1) as Hs1 by done. assert (clean sw1) as H1 by (by apply (clean_same sw)).
  assert (forall au d, writeVideoAccessUnit now au d t sw1 = (sw', e) -> clean sw') as Hu.
  { intros au' d Hu. destruct e as [[]|]; try done; [|by apply (writeVideoAccessUnit_clean now au' d t sw1)].
    exfalso. apply (writeVideoAccessUnit_no_gap now au' d t sw1). by rewrite Hu. }
  destruct au as [[|n au]|]; [by injection Hw as <- _| |by injection Hw as <- _]. destruct (_ =? 0); [by apply Hu in Hw|].
  destruct (_ <=? _); [|by apply Hu in Hw]. injection Hw as <- _. by apply (clean_same sw1).
Qed.

Lemma feed_bounded pkt sw r sw' : sw_initWritten sw = true -> sound sw -> bounded sw -> feed pkt sw r = (sw', None) -> bounded sw'.
Proof.
  intros Hi Hok Hb. unfold feed. destruct (ra_encoder r); [|by intros [= <-]]. destruct (Encode _ _ _) as [e2 [frames|err]].
  - intros Hc. refine (capPendingPart_bounded _ _ _ Hc).
    set (sw1 := set_audio _ _ _ _). apply counted_ok, (runs_sound (v:=false) sw1); [apply appendEncodedAudio_runs|].
    split; [by apply Hok|]. intros Hf. cbn in Hf. congruence.
  - intros [= <-]. apply (bounded_same sw); [|done]. unfold failAudio. by destruct (sw_audioErr _).
Qed.

Lemma splice_bounded pkt prev r sw :
  sound sw -> bounded sw ->
  match splice pkt prev r sw with inl (sw', None) | inr (sw', _) => bounded sw' | _ => True end.
Proof.
  intros Hok Hb. unfold splice. destruct (_ || _); [|done].
  destruct (flushGOP (finishRecordingAudio sw)) as [sw1 [e|]] eqn:Ef; [done|].
  assert (bounded sw1) as H1.
  { apply (flushGOP_bounded (finishRecordingAudio sw)); [|done]. apply counted_ok, (runs_sound (v:=false) sw); [apply finishRecordingAudio_runs|done]. }
  destruct (sw_audioErr sw1); [done|]. destruct (restart _ _); [done|].
  apply (bounded_same sw1); [|done]. unfold failAudio. by destruct (sw_audioErr sw1).
Qed.

Lemma writeG711Audio_bounded now pkt sw sw' : sound sw -> bounded sw -> writeG711Audio now pkt sw = (sw', None) -> bounded sw'.
Proof.
  intros Hok Hb Hw. unfold writeG711Audio in Hw. destruct (sw_recordingAudio sw) as [r|] eqn:Er; [|by injection Hw as <-].
  destruct (ra_encoder r); [|by injection Hw as <-]. destruct (_ || _); [by injection Hw as <-|].
  destruct (sw_initWritten sw) eqn:Ei; cbn [negb] in Hw; [|by destruct (_ && _); injection Hw as <-].
  unfold run_for in Hw. destruct (ra_previous r) as [prev|]; [|by apply (feed_bounded pkt sw) in Hw].
  destruct (_ && _); [by injection Hw as <-|]. pose proof (splice_bounded pkt prev r sw Hok Hb) as Hsp.
  pose proof (splice_runs (v:=false) pkt prev r sw) as Hr. destruct (splice pkt prev r sw) as [o|[sw1 r1]]; [by subst o|].
  apply (feed_bounded pkt sw1 r1); [by apply (runs_init (v:=false) sw)|by apply (runs_sound (v:=false) sw)|done|done].
Qed.

Lemma add_aac_sound l : forall sw, sw_initWritten sw = true -> sound sw -> sound (fold_left add_aac l sw).
Proof.
  induction l as [|a l IH]; intros sw Ei Hs; [done|]. cbn [fold_left].
  pose proof (add_aac_runs (v:=false) sw a Ei) as Hr. apply IH; [by apply (runs_init (v:=false) sw)|by apply (runs_sound (v:=false) sw)].
Qed.

Lemma WriteAudio_bounded now pkt sw sw' : sound sw -> bounded sw -> WriteAudio now pkt sw = (sw', None) -> bounded sw'.
Proof.
  intros Hok Hb Hw. unfold WriteAudio in Hw. destruct (sw_recordingAudio sw) eqn:Er; [by apply (writeG711Audio_bounded now pkt sw)|].
  destruct (sw_aacDecoder sw) as [dec|]; [|by injection Hw as <-].
  destruct (AACDepacketize pkt dec) as [dec' [aus|]]; [|injection Hw as <-; by apply (bounded_same sw)].
  set (sw1 := set_aac _ _) in Hw. destruct (sw_initWritten sw1) eqn:Ei; cbn [negb] in Hw; [|injection Hw as <-; by apply (bounded_same sw)].
  refine (capPendingPart_bounded _ _ _ Hw). apply counted_ok. by apply (add_aac_sound aus sw1).
Qed.

(** Audio before the initialization changes no media. *)
Lemma WriteAudio_idle now pkt sw sw' : sw_initWritten sw = false -> WriteAudio now pkt sw = (sw', None) -> media sw' = media sw.
Proof.
  intros Hi. unfold WriteAudio, writeG711Audio. destruct (sw_recordingAudio sw) as [r|].
  - destruct (ra_encoder r); [|by intros [= <-]]. destruct (_ || _); [by intros [= <-]|]. rewrite Hi. cbn [negb].
    by destruct (_ && _); intros [= <-].
  - destruct (sw_aacDecoder sw) as [dec|]; [|by intros [= <-]]. destruct (AACDepacketize pkt dec) as [dec' [aus|]]; [|by intros [= <-]].
    cbn [sw_initWritten set_aac]. rewrite Hi. by intros [= <-].
Qed.

Lemma WriteAudio_clean now pkt sw sw' : sound sw -> clean sw -> WriteAudio now pkt sw = (sw', None) -> clean sw'.
Proof.
  intros Hs Hc Hw. destruct (sw_initWritten sw) eqn:Ei.
  - apply (clean_audio sw); [done|done| |by apply (WriteAudio_bounded now pkt sw), Hw; [|apply Hc]|done].
    pose proof (WriteAudio_runs (v:=false) now pkt sw) as Hr. by rewrite Hw in Hr.
  - apply (clean_same sw); [|done]. by apply (WriteAudio_idle now pkt).
Qed.

(** The writers a recording has: a new one, and what any write leaves.  The flag says
    that no write has failed so far; a gap in the timestamps is no failure. *)
Inductive reachable : bool -> SegmentWriter -> Prop :=
| reach_new disk now video aac audio : reachable true (NewSegmentWriter disk now video aac audio)
| reach_video c now pkt sw sw' e : reachable c sw -> WriteVideo now pkt sw = (sw', e) -> reachable (c && accepted e) sw'
| reach_audio c now pkt sw sw' e : reachable c sw -> WriteAudio now pkt sw = (sw', e) -> reachable (c && accepted e) sw'.

Lemma new_ok disk now video aac audio :
  let sw := NewSegmentWriter disk now video aac audio in sound sw /\ clean sw.
Proof.
  intros sw. assert (media sw = mkMedia false (mkTimeline 0 0 0 0 0) (mkPending [] [] 0 0 0) (mkSink disk 0 [])) as Hm.
  { subst sw. unfold NewSegmentWriter. destruct audio as [t|]; [|done].
    by destruct (at_Codec t); [|destruct (newRecordingAudio _ _ _ _)|destruct (newRecordingAudio _ _ _ _)|]. }
  split; [split|].
  - rewrite Hm. split; try done; by constructor.
  - subst sw. unfold NewSegmentWriter, newRecordingAudio, restart. destruct audio as [t|]; [|done].
    destruct (at_Codec t); [done| | |done]; (destruct (_ || _); [done|]; destruct (NewEncoder _) as [[enc delay]|err]; cbn; [|done];
      by intros _ r [= <-]).
  - unfold clean. rewrite Hm. split; [injection Hm as _ Ht Hp _; unfold bounded; by rewrite Ht, Hp|]. split; [|done].
    intros Hi. change (md_init (media sw) = true) in Hi. by rewrite Hm in Hi.
Qed.

Lemma WriteAudio_no_gap now pkt sw : snd (WriteAudio now pkt sw) <> Some ErrTimestampGap.
Proof.
  unfold WriteAudio. destruct (sw_recordingAudio sw); [apply writeG711Audio_no_gap|]. destruct (sw_aacDecoder sw); [|done].
  destruct (AACDepacketize _ _) as [dec' [aus|]]; [|done]. destruct (negb _); [done|apply capPendingPart_no_gap].
Qed.

Lemma writer_reachable_ok c sw : reachable c sw -> sound sw /\ (c = true -> clean sw).
Proof.
  induction 1 as [disk now video aac audio|c now pkt sw sw' e _ [IHs IHc] Hw|c now pkt sw sw' e _ [IHs IHc] Hw].
  - destruct (new_ok disk now video aac audio) as [Hs Hc]. by split.
  - split; [apply (runs_sound (v:=true) sw); [|done]; pose proof (WriteVideo_runs now pkt sw) as Hr; by rewrite Hw in Hr|].
    intros [-> Ha]%andb_true_iff. by apply (WriteVideo_clean now pkt sw sw' e); [|apply IHc| |].
  - split; [apply (runs_sound (v:=true) sw); [|done]; pose proof (WriteAudio_runs (v:=true) now pkt sw) as Hr; by rewrite Hw in Hr|].
    intros [-> Ha]%andb_true_iff. destruct e as [[]|]; try done; [pose proof (WriteAudio_no_gap now pkt sw) as Hg; by rewrite Hw in Hg|].
    by apply (WriteAudio_clean now pkt sw); [|apply IHc|].
Qed.

(** ** The properties *)

(** C25: whatever packets a segment writer is given and whichever writes fail, the file
    holds, beside the pieces failed writes left, the initialization and then parts; each
    part with video carries its place among them as its number, its video starts where the
    video before it ends, and the clock stands where the samples accepted so far end; a keyframe is only ever the first sample of a part.  As long
    as no write has failed the first sample of all is a keyframe. *)
Theorem parts_tile_the_timeline c sw :
  reachable c sw -> let m := media sw in
  (sw_initWritten sw = true -> exists sps pps a, whole (sk_file (sw_sink sw)) = WInit sps pps a :: (WPart <$> parts m)) /\
  (forall i p t, parts m !! i = Some p -> t ∈ pa_Tracks p -> pt_ID t = videoTrackID ->
     pa_SequenceNumber p = u32 (Z.of_nat i) /\ pt_BaseTime t = samples_duration (take i (parts m) ≫= part_video) /\
     pt_Samples t = part_video p /\ tail_non_sync (part_video p)) /\
  tl_videoDTS (md_tl m) = samples_duration (video_samples m) /\ tl_flushedVideoDTS (md_tl m) = samples_duration (written_video m) /\
  (c = true -> forall s, head (video_samples m) = Some s -> smp_IsNonSyncSample s = false).
Proof.
  intros [[Hm _] Hc]%writer_reachable_ok m. subst m. destruct Hm as [F1 F2 F3 F4 F5 F6 F7 F8 F9 F11].
  split; [intros Hi; cbn in F1; by rewrite Hi in F1|]. split; [|by split; [|split; [|intros Ht; apply Hc]]].
  intros i p t Hi Ht Hid. destruct (F4 i p t Hi Ht Hid) as [Hb Hs].
  assert ((pa_SequenceNumber <$> parts (media sw)) !! i = Some (pa_SequenceNumber p)) as Hn by (by rewrite list_lookup_fmap, Hi).
  rewrite F2, list_lookup_fmap, lookup_seq_lt in Hn by (by apply lookup_lt_Some in Hi).
  injection Hn as Hn. split; [by rewrite <- Hn|]. split; [done|]. split; [done|].
  exact (Forall_lookup_1 (fun q => tail_non_sync (part_video q)) _ i p F8 Hi).
Qed.

(** As long as no write has failed, the buffer of a segment writer is under eight
    megabytes and holds less than four seconds of video after every write. *)
Theorem pending_stays_capped sw :
  reachable true sw ->
  payload_bytes (pd_video (sw_pending sw) ++ pd_audio (sw_pending sw)) < 8388608 /\ samples_duration (pd_video (sw_pending sw)) < 360000.
Proof.
  intros [[Hm _] Hc]%writer_reachable_ok. destruct (Hc eq_refl) as ((Hb & Ht) & _). destruct Hm as [F1 F2 F3 F4 F5 F6 F7 F8 F9 F11]. cbn in F6, F7, F11.
  split; [by rewrite <- F11|]. destruct (pd_video (sw_pending sw)) as [|s v] eqn:Ev; [done|].
  specialize (Ht ltac:(done)). rewrite F7, F6 in Ht by done. unfold video_samples in Ht. cbn [media md_pd] in Ht. rewrite Ev in Ht.
  rewrite samples_duration_app in Ht. pose proof (samples_duration_range (s :: v)).
  unfold Z.sub in Ht. rewrite wrapU_add_l in Ht. match type of Ht with u64 ?x < _ => replace x with (samples_duration (s :: v)) in Ht by lia end.
  by rewrite u64_small in Ht.
Qed.

Lemma flushGOP_writes sw sw' : flushGOP sw = (sw', None) -> written_video (media sw') = video_samples (media sw).
Proof.
  intros Hf. pose proof (flushGOP_video sw) as Hv. rewrite Hf in Hv. cbn [fst] in Hv. rewrite <- Hv. unfold video_samples at 1. cbn.
  by rewrite (proj1 (flushGOP_empties sw sw' Hf)), app_nil_r.
Qed.

(** Closing is a run of steps too, and what its last part leaves. *)
Lemma Close_ok now sw sw' d flushErr gopErr :
  sound sw -> Close now sw = (sw', d, (flushErr, gopErr)) ->
  video_samples (media sw) `prefix_of` video_samples (media sw') /\ sound sw' /\
  (gopErr = None -> written_video (media sw') = video_samples (media sw')) /\
  (0 < tl_videoDTS (sw_timeline sw') -> d = media_time (tl_videoDTS (sw_timeline sw'))).
Proof.
  intros [Hm Ha] Hc. unfold Close in Hc.
  pose proof (drain_decoder_runs now sw) as R1. destruct (drain_decoder now sw) as [sw1 fe]. cbn [fst] in R1.
  set (sw2 := set_audio _ _ [] (finishRecordingAudio sw1)) in Hc.
  assert (runs true sw sw2) as R2.
  { etrans; [exact R1|]. etrans; [apply finishRecordingAudio_runs|]. apply runs_same; [done|]. intros Hi Hf r Hq. by apply (Hi Hf). }
  pose proof (flushGOP_runs (v:=true) sw2) as R3. pose proof (flushGOP_writes sw2) as Hw. pose proof (flushGOP_video sw2) as Hv.
  destruct (flushGOP sw2) as [sw3 ge] eqn:Ef. cbn [fst] in R3, Hv.
  injection Hc as <- <- <- <-. assert (runs true sw sw3) as R by (by etrans). destruct (R Ha) as [Hs Hi].
  split_and!; [by apply (msteps_prefix true)|by split; [apply (msteps_ok true (media sw))|]|intros ->; by rewrite (Hw sw3 eq_refl)|].
  intros Hd. by rewrite (proj2 (Z.ltb_lt _ _) Hd).
Qed.

(** Closing a segment writer, whatever failed before, keeps every sample it accepted,
    in order; when the last part is written they are all in the file, and the duration
    reported is that of the samples in the file. *)
Theorem Close_keeps_every_sample c now sw sw' d flushErr gopErr :
  reachable c sw -> Close now sw = (sw', d, (flushErr, gopErr)) ->
  video_samples (media sw) `prefix_of` video_samples (media sw') /\
  (gopErr = None -> parts_of (sk_file (sw_sink sw')) ≫= part_video = video_samples (media sw') /\
     (0 < samples_duration (video_samples (media sw')) ->
      d = media_time (samples_duration (parts_of (sk_file (sw_sink sw')) ≫= part_video)))).
Proof.
  intros Hr Hc. destruct (Close_ok _ _ _ _ _ _ (proj1 (writer_reachable_ok _ _ Hr)) Hc) as (Hp & [Hm _] & Hw & Hd). split; [done|]. intros Hg.
  change (parts_of (sk_file (sw_sink sw')) ≫= part_video) with (written_video (media sw')). rewrite (Hw Hg). split; [done|].
  destruct Hm as [F1 F2 F3 F4 F5 F6 F7 F8 F9 F11]. cbn in F7. rewrite <- F7. exact Hd.
Qed.

End theorems.
