(* ===== verification/RtspSource.v ===== *)
(** RTSP sources and the hub that shares them ([rtsp/source.go], [rtsp/health.go],
    [rtsp/reattach.go], [rtsp/hub.go], [backoff/backoff.go]): the consumers of a source,
    what it learns of its tracks, the group of pictures it keeps for the next viewer, what
    it reports of its connection attempts, and the registry of sources by URL.

    A consumer, a source and a counter are their addresses; what is shared between them
    (the counters of reconnects) is a store.  The network session is the input: a pass of
    the connect loop is when it began, whether it reached PLAY, and how it ended. *)

From Stdlib Require Import SpecFloat.
From S2P Require Import Prelude Float64 H264 Mp4Bytes SegmentWriter.

#[local] Open Scope list_scope.

(** ** The latest group of pictures *)

Definition maxCachedGOPBytes : Z := 8 * 2 ^ 20.
Definition maxCachedGOPPackets : Z := 8192.

(** The units of a STAP-A aggregate, and whether the walk ended within its bounds. *)
Fixpoint stap_units (fuel : nat) (data : bytes) : list nalu * bool :=
  match fuel, data with
  | S fuel, hi :: lo :: data =>
      let size := Z.lor (Z.shiftl hi 8) lo in
      if (size <? 1) || (len data <? size) then ([], false)
      else let '(units, whole) := stap_units fuel (drop (Z.to_nat size) data) in
           (take (Z.to_nat size) data :: units, whole)
  | _, _ => ([], true)
  end.

Definition nal_type (b : Z) : Z := Z.land b 0x1f.

Definition h264RandomAccessFlags (pkt : Packet) : bool * bool :=
  match pk_Payload pkt with
  | [] => (false, false)
  | b :: rest =>
      if nal_type b =? 5 then (false, true)
      else if nal_type b =? 7 then (true, false)
      else if nal_type b =? 24 then
        let units := (stap_units (length rest) rest).1 in
        (existsb (fun u => isType u 7) units, existsb (fun u => isType u 5) units)
      else if nal_type b =? 28 then
        match rest with
        | f :: _ =>
            if Z.land f 0x80 =? 0 then (false, false)
            else if nal_type f =? 5 then (false, true)
            else if nal_type f =? 7 then (true, false)
            else (false, false)
        | [] => (false, false)
        end
      else (false, false)
  end.

Record GOPCache := mkGOP { latestGOP : list Packet; gopBytes : Z; gopHasIDR : bool; gopStartTS : Z }.

Definition clearLatestVideoGOP : GOPCache := mkGOP [] 0 false 0.

Definition packet_bytes (pkt : Packet) : Z := len (pk_Payload pkt) + 64.

Definition cacheVideoPacket (pkt : Packet) (c : GOPCache) : GOPCache :=
  let '(hasSPS, hasIDR) := h264RandomAccessFlags pkt in
  let c := if hasSPS || (hasIDR && (bool_decide (latestGOP c = []) || negb (gopStartTS c =? pk_Timestamp pkt)))
           then mkGOP [] 0 false (pk_Timestamp pkt) else c in
  if bool_decide (latestGOP c = []) && negb hasSPS && negb hasIDR then c
  else if (maxCachedGOPPackets <? Z.of_nat (length (latestGOP c)) + 1) || (maxCachedGOPBytes <? gopBytes c + packet_bytes pkt)
  then clearLatestVideoGOP
  else mkGOP (latestGOP c ++ [pkt]) (gopBytes c + packet_bytes pkt) (gopHasIDR c || hasIDR) (gopStartTS c).

(** [None] is nil. *)
Definition LatestVideoGOP (c : GOPCache) : option (list Packet) :=
  if negb (gopHasIDR c) || bool_decide (latestGOP c = []) then None else Some (latestGOP c).

(** ** Sources *)

Record TrackInfo := mkTrack {
  ti_Codec : string;
  ti_ClockRate : Z;
  ti_IsVideo : bool;
  ti_PayloadType : Z;
  ti_SPS : nalu;
  ti_PPS : nalu;
  ti_ChannelCount : Z
}.

Record Attempts := mkAttempts {
  at_lastConnected : Z;
  at_lastAttempt : Z;
  at_lastErr : string;
  at_unpublished : bool;
  at_failures : Z;
  at_lastWarn : Z
}.

Record Source := mkSource {
  so_transport : string;
  so_onDemand : bool;
  so_consumers : list nat;
  so_videoTrack : option TrackInfo;
  so_audioTrack : option TrackInfo;
  so_paramsReady : bool;
  so_connected : bool;
  so_consumerPanics : Z;
  so_reconnects : Z;
  so_reconnectSinks : list nat;
  so_attempts : Attempts;
  so_gop : GOPCache
}.

Definition newSource (transport : string) (onDemand : bool) : Source :=
  mkSource transport onDemand [] None None false false 0 0 [] (mkAttempts 0 0 "" false 0 0) clearLatestVideoGOP.

Definition set_consumers l s := mkSource (so_transport s) (so_onDemand s) l (so_videoTrack s) (so_audioTrack s) (so_paramsReady s)
  (so_connected s) (so_consumerPanics s) (so_reconnects s) (so_reconnectSinks s) (so_attempts s) (so_gop s).
Definition set_tracks v a ready s := mkSource (so_transport s) (so_onDemand s) (so_consumers s) v a ready
  (so_connected s) (so_consumerPanics s) (so_reconnects s) (so_reconnectSinks s) (so_attempts s) (so_gop s).
Definition set_connected b s := mkSource (so_transport s) (so_onDemand s) (so_consumers s) (so_videoTrack s) (so_audioTrack s) (so_paramsReady s)
  b (so_consumerPanics s) (so_reconnects s) (so_reconnectSinks s) (so_attempts s) (so_gop s).
Definition set_panics n s := mkSource (so_transport s) (so_onDemand s) (so_consumers s) (so_videoTrack s) (so_audioTrack s) (so_paramsReady s)
  (so_connected s) n (so_reconnects s) (so_reconnectSinks s) (so_attempts s) (so_gop s).
Definition set_reconnects n s := mkSource (so_transport s) (so_onDemand s) (so_consumers s) (so_videoTrack s) (so_audioTrack s) (so_paramsReady s)
  (so_connected s) (so_consumerPanics s) n (so_reconnectSinks s) (so_attempts s) (so_gop s).
Definition set_sinks l s := mkSource (so_transport s) (so_onDemand s) (so_consumers s) (so_videoTrack s) (so_audioTrack s) (so_paramsReady s)
  (so_connected s) (so_consumerPanics s) (so_reconnects s) l (so_attempts s) (so_gop s).
Definition set_attempts a s := mkSource (so_transport s) (so_onDemand s) (so_consumers s) (so_videoTrack s) (so_audioTrack s) (so_paramsReady s)
  (so_connected s) (so_consumerPanics s) (so_reconnects s) (so_reconnectSinks s) a (so_gop s).
Definition set_gop g s := mkSource (so_transport s) (so_onDemand s) (so_consumers s) (so_videoTrack s) (so_audioTrack s) (so_paramsReady s)
  (so_connected s) (so_consumerPanics s) (so_reconnects s) (so_reconnectSinks s) (so_attempts s) g.

(** *** Consumers *)

Definition AddConsumer (c : nat) (s : Source) : Source := set_consumers (so_consumers s ++ [c]) s.

(** The first registration of [c] goes. *)
Fixpoint remove_first (c : nat) (l : list nat) : list nat :=
  match l with
  | [] => []
  | x :: l => if bool_decide (x = c) then l else x :: remove_first c l
  end.

Definition RemoveConsumer (c : nat) (s : Source) : Source := set_consumers (remove_first c (so_consumers s)) s.

Definition HasConsumer (c : nat) (s : Source) : bool := bool_decide (c ∈ so_consumers s).

(** One callback, which may have panicked. *)
Definition deliver (panicked : nat -> bool) (s : Source) (c : nat) : Source :=
  if panicked c then RemoveConsumer c (set_panics (i64 (so_consumerPanics s + 1)) s) else s.

(** A packet or a disconnection, to the consumers there were when it came. *)
Definition fan_out (panicked : nat -> bool) (s : Source) : Source := fold_left (deliver panicked) (so_consumers s) s.

(** [ReattachIfDetached]: [rebuild] is the consumer it builds, if it can. *)
Definition ReattachIfDetached (current : nat) (rebuild : option nat) (s : Source) : Source * (nat * bool) :=
  if HasConsumer current s then (s, (current, false))
  else match rebuild with
       | None => (s, (current, false))
       | Some next => (AddConsumer next s, (next, true))
       end.

(** *** Tracks *)

Definition has_params (v : option TrackInfo) : bool :=
  match v with
  | Some t => (4 <=? len (ti_SPS t)) && negb (bool_decide (ti_PPS t = []))
  | None => false
  end.

(** [signalParamsReadyLocked] over the tracks just set. *)
Definition signal_params (v a : option TrackInfo) (s : Source) : Source := set_tracks v a (so_paramsReady s || has_params v) s.

(** The formats a session describes. *)
Inductive Format :=
| FormatH264 (clockRate payloadType : Z) (sps pps : nalu)
| FormatMPEG4Audio (clockRate payloadType : Z) (channelConfig : option Z)
| FormatG711 (muLaw : bool) (clockRate payloadType channelCount : Z)
| FormatOther.

Definition aac_channels (channelConfig : option Z) : Z :=
  match channelConfig with
  | Some n => if 0 <? n then if n =? 7 then 8 else n else 1
  | None => 1
  end.

Definition extract_step (va : option TrackInfo * option TrackInfo) (f : Format) : option TrackInfo * option TrackInfo :=
  match f with
  | FormatH264 rate pt sps pps => (Some (mkTrack "H264" rate true pt sps pps 0), va.2)
  | FormatMPEG4Audio rate pt cfg => (va.1, Some (mkTrack "AAC" rate false pt [] [] (aac_channels cfg)))
  | FormatG711 mu rate pt n => (va.1, Some (mkTrack (if mu then "PCMU" else "PCMA") rate false pt [] [] n))
  | FormatOther => va
  end.

Definition extractTracks (formats : list Format) (s : Source) : Source :=
  let '(v, a) := fold_left extract_step formats (so_videoTrack s, so_audioTrack s) in signal_params v a s.

(** The first parameter sets of a packet: SPS and PPS, empty where there is none. *)
Definition packet_params (pkt : Packet) : nalu * nalu :=
  match pk_Payload pkt with
  | [] => ([], [])
  | b :: rest =>
      if nal_type b =? 7 then (pk_Payload pkt, [])
      else if nal_type b =? 8 then ([], pk_Payload pkt)
      else if nal_type b =? 24 then
        match stap_units (length rest) rest with
        | (units, true) => (default [] (find (fun u => isType u 7) units), default [] (find (fun u => isType u 8) units))
        | (_, false) => ([], [])
        end
      else ([], [])
  end.

Definition maybeLearnParameterSets (pkt : Packet) (s : Source) : Source :=
  match packet_params pkt with
  | ([], []) => s
  | (sps, pps) =>
      let t := default (mkTrack "H264" 90000 true (pk_PayloadType pkt) [] [] 0) (so_videoTrack s) in
      let t := mkTrack (ti_Codec t) (ti_ClockRate t) (ti_IsVideo t) (ti_PayloadType t)
                 (match ti_SPS t with [] => sps | old => old end) (match ti_PPS t with [] => pps | old => old end) (ti_ChannelCount t) in
      signal_params (Some t) (so_audioTrack s) s
  end.

(** [WaitForVideoParams] as a caller finds it now: [None] while it would wait for the
    signal, which ends the wait, or for its context. *)
Definition WaitForVideoParams (s : Source) : option bool :=
  if has_params (so_videoTrack s) || so_paramsReady s then Some true else None.

Definition fanOutVideo (panicked : nat -> bool) (pkt : Packet) (s : Source) : Source :=
  let s := maybeLearnParameterSets pkt s in
  fan_out panicked (set_gop (cacheVideoPacket pkt (so_gop s)) s).

Definition fanOutAudio (panicked : nat -> bool) (pkt : Packet) (s : Source) : Source := fan_out panicked s.

(** *** Connection attempts *)

Definition onDemandRetry : Z := 3 * Second.
Definition failureLogInterval : Z := 5 * Minute.
Definition maxBackoff : Z := 2 * Minute.
Definition onDemandFaultThreshold : Z := 3.

(** An error: its redacted text, and whether the server answered that there is no such
    stream ([streamUnpublished]). *)
Record Failure := mkFailure { fl_text : string; fl_unpublished : bool }.

Definition recordAttempt (start now : Z) (err : option Failure) (a : Attempts) : Attempts :=
  if After (at_lastConnected a) start then mkAttempts (at_lastConnected a) now "" false 0 zero_time
  else
    let failures := i64 (at_failures a + 1) in
    match err with
    | Some e => mkAttempts (at_lastConnected a) now (fl_text e) (fl_unpublished e) failures (at_lastWarn a)
    | None => mkAttempts (at_lastConnected a) now (at_lastErr a) (at_unpublished a) failures (at_lastWarn a)
    end.

Definition Faulted (s : Source) : bool :=
  let a := so_attempts s in
  negb (so_connected s) && negb (at_unpublished a) && negb (String.eqb (at_lastErr a) "") && (onDemandFaultThreshold <=? at_failures a).

Definition shouldLogFailure (now : Z) (a : Attempts) : Attempts * bool :=
  if negb (IsZero (at_lastWarn a)) && (Sub now (at_lastWarn a) <? failureLogInterval) then (a, false)
  else (mkAttempts (at_lastConnected a) (at_lastAttempt a) (at_lastErr a) (at_unpublished a) (at_failures a) now, true).

(** The counters of reconnects outside the sources. *)
Abbreviation Counters := (gmap nat Z).

Definition count (counters : Counters) (sink : nat) : Counters := <[sink := i64 (default 0 (counters !! sink) + 1)]> counters.

Definition notifyDisconnect (panicked : nat -> bool) (s : Source) (counters : Counters) : Source * Counters :=
  let wasConnected := so_connected s && negb (so_onDemand s) in
  let s := set_gop clearLatestVideoGOP (set_connected false s) in
  let '(s, counters) := if wasConnected : bool
                        then (set_reconnects (i64 (so_reconnects s + 1)) s, fold_left count (so_reconnectSinks s) counters)
                        else (s, counters) in
  (fan_out panicked s, counters).

(** *** The connect loop *)

Definition Jitter (d : Z) (frac : float64) : Z :=
  if d <=? 0 then d
  else let half := d ÷ 2 in half + default 0 (f64_trunc (fmul frac (f64_of_Z half))).

Inductive LogLine := LogDebug | LogWarn | LogError | LogInfo | LogNothing.

(** A pass of the loop whose context was not cancelled: when it began and ended, what the
    server described and when PLAY was reached, if they were, and the error. *)
Record Pass := mkPass {
  ps_start : Z;
  ps_described : option (list Format);
  ps_played : option Z;
  ps_end : Z;
  ps_err : option Failure
}.

(** [connectOnce] up to its end: the tracks it described, and PLAY. *)
Definition connectOnce (p : Pass) (s : Source) : Source :=
  let s := match ps_described p with Some formats => extractTracks formats s | None => s end in
  match ps_played p with
  | None => s
  | Some t =>
      let a := so_attempts s in
      set_attempts (mkAttempts t (at_lastAttempt a) (at_lastErr a) (at_unpublished a) (at_failures a) (at_lastWarn a)) (set_connected true s)
  end.

Definition next_backoff (b : Z) : Z :=
  let b := default b (f64_trunc (fmul (f64_of_Z b) (f64_lit 3 2))) in
  if maxBackoff <? b then maxBackoff else b.

(** One turn after its pass: what it logs, how long it waits before jitter, and the
    backoff it leaves. *)
Definition connect_turn (p : Pass) (b : Z) (s : Source) : Source * (LogLine * Z * Z) :=
  let s := set_attempts (recordAttempt (ps_start p) (ps_end p) (ps_err p) (so_attempts s)) s in
  let b := match ps_err p with None => Second | Some _ => b end in
  let wait := if so_onDemand s then onDemandRetry else b in
  let limited line := let '(a, due) := shouldLogFailure (ps_end p) (so_attempts s) in
                      (set_attempts a s, if due : bool then line else LogNothing) in
  let '(s, line) := if so_onDemand s && negb (Faulted s) then (s, LogDebug)
                    else if so_onDemand s then limited LogWarn
                    else match ps_err p with Some _ => limited LogError | None => (s, LogInfo) end in
  (s, (line, wait, if so_onDemand s then b else next_backoff b)).

(** [Connect] over the passes it makes, with the callbacks that panic when told of a
    disconnection: the waits, before jitter, that followed them. *)
Fixpoint connect_loop (passes : list (Pass * (nat -> bool))) (b : Z) (s : Source) (counters : Counters) : Source * Counters * list (LogLine * Z) :=
  match passes with
  | [] => (s, counters, [])
  | (p, panicked) :: passes =>
      let '(s, (line, wait, b)) := connect_turn p b (connectOnce p s) in
      let '(s, counters) := notifyDisconnect panicked s counters in
      let '(s, counters, waits) := connect_loop passes b s counters in
      (s, counters, (line, wait) :: waits)
  end.

Definition Connect (passes : list (Pass * (nat -> bool))) (s : Source) (counters : Counters) := connect_loop passes (5 * Second) s counters.

(** ** The hub *)

Record Hub := mkHub {
  hb_sources : gmap string nat;
  hb_sinks : gmap string (list nat);
  hb_transports : gmap string string;
  hb_onDemand : gset string;
  hb_closed : bool
}.

(** The hub with every source it ever made, the contexts that were cancelled, and the
    counters. *)
Record Net := mkNet {
  nt_hub : Hub;
  nt_sources : gmap nat Source;
  nt_next : nat;
  nt_cancelled : gset nat;
  nt_counters : Counters
}.

Definition NewHub : Net := mkNet (mkHub ∅ ∅ ∅ ∅ false) ∅ 0 ∅ ∅.

Definition set_hub h n := mkNet h (nt_sources n) (nt_next n) (nt_cancelled n) (nt_counters n).
Definition on_source (id : nat) (f : Source -> Source) (n : Net) : Net :=
  mkNet (nt_hub n) (alter f id (nt_sources n)) (nt_next n) (nt_cancelled n) (nt_counters n).

Definition RegisterOnDemand (url : string) (n : Net) : Net :=
  if String.eqb url "" then n
  else let h := nt_hub n in set_hub (mkHub (hb_sources h) (hb_sinks h) (hb_transports h) ({[url]} ∪ hb_onDemand h) (hb_closed h)) n.

Definition RegisterTransport (url transport : string) (n : Net) : Net :=
  if String.eqb transport "" || String.eqb transport "tcp" then n
  else let h := nt_hub n in set_hub (mkHub (hb_sources h) (hb_sinks h) (<[url := transport]> (hb_transports h)) (hb_onDemand h) (hb_closed h)) n.

(** [AddReconnectSink] for a sink that is not nil. *)
Definition AddReconnectSink (sink : nat) (s : Source) : Source :=
  if bool_decide (sink ∈ so_reconnectSinks s) then s else set_sinks (so_reconnectSinks s ++ [sink]) s.

Definition GetOrCreateWithTransport (url transport : string) (n : Net) : Net * nat :=
  let h := nt_hub n in
  match hb_sources h !! url with
  | Some id => (n, id)
  | None =>
      let transport := if String.eqb transport "" then default ""%string (hb_transports h !! url) else transport in
      let src := fold_left (fun s k => AddReconnectSink k s) (default [] (hb_sinks h !! url))
                   (newSource transport (bool_decide (url ∈ hb_onDemand h))) in
      let id := nt_next n in
      (mkNet (mkHub (<[url := id]> (hb_sources h)) (hb_sinks h) (hb_transports h) (hb_onDemand h) (hb_closed h))
         (<[id := src]> (nt_sources n)) (S id) (if hb_closed h then {[id]} ∪ nt_cancelled n else nt_cancelled n) (nt_counters n), id)
  end.

Definition GetOrCreate (url : string) (n : Net) : Net * nat := GetOrCreateWithTransport url "" n.

Definition RegisterReconnectSink (url : string) (sink : nat) (n : Net) : Net :=
  if String.eqb url "" then n
  else
    let h := nt_hub n in
    let sinks := default [] (hb_sinks h !! url) in
    if bool_decide (sink ∈ sinks) then n
    else
      let n := set_hub (mkHub (hb_sources h) (<[url := sinks ++ [sink]]> (hb_sinks h)) (hb_transports h) (hb_onDemand h) (hb_closed h)) n in
      match hb_sources h !! url with
      | Some id => on_source id (AddReconnectSink sink) n
      | None => n
      end.

Definition Get (url : string) (n : Net) : option nat := hb_sources (nt_hub n) !! url.

Definition Remove (url : string) (n : Net) : Net :=
  let h := nt_hub n in
  match hb_sources h !! url with
  | Some id => mkNet (mkHub (delete url (hb_sources h)) (hb_sinks h) (hb_transports h) (hb_onDemand h) (hb_closed h))
                 (nt_sources n) (nt_next n) ({[id]} ∪ nt_cancelled n) (nt_counters n)
  | None => n
  end.

Definition Close (n : Net) : Net :=
  let h := nt_hub n in
  mkNet (mkHub ∅ (hb_sinks h) (hb_transports h) (hb_onDemand h) true) (nt_sources n) (nt_next n)
    (list_to_set ((map_to_list (hb_sources h)).*2) ∪ nt_cancelled n) (nt_counters n).

(** A source's connection has ended: its loop tells the consumers and the counters,
    unless its context was cancelled. *)
Definition source_disconnects (id : nat) (panicked : nat -> bool) (n : Net) : Net :=
  match nt_sources n !! id with
  | Some s =>
      if bool_decide (id ∈ nt_cancelled n) then n
      else let '(s, counters) := notifyDisconnect panicked s (nt_counters n) in
           mkNet (nt_hub n) (<[id := s]> (nt_sources n)) (nt_next n) (nt_cancelled n) counters
  | None => n
  end.

(** ** The group of pictures a viewer starts from *)

Definition has_sps (p : Packet) : bool := (h264RandomAccessFlags p).1.
Definition has_idr (p : Packet) : bool := (h264RandomAccessFlags p).2.

Definition total_bytes (g : list Packet) : Z := foldr (fun p n => packet_bytes p + n) 0 g.

Definition fits (g : list Packet) : Prop := Z.of_nat (length g) <= maxCachedGOPPackets /\ total_bytes g <= maxCachedGOPBytes.

(** What may follow the first packet of a group: no parameter set, and no picture to start
    from but the one the group starts with. *)
Definition continues (first p : Packet) : Prop := has_sps p = false /\ (has_idr p = true -> pk_Timestamp p = pk_Timestamp first).

Definition is_group (g : list Packet) : Prop :=
  match g with
  | p :: rest => has_sps p || has_idr p = true /\ Forall (continues p) rest
  | [] => False
  end.

(** The cache after the packets since it was last cleared. *)
Definition gop_after (pkts : list Packet) : GOPCache := fold_left (fun c p => cacheVideoPacket p c) pkts clearLatestVideoGOP.

Lemma gop_after_snoc pkts p : gop_after (pkts ++ [p]) = cacheVideoPacket p (gop_after pkts).
Proof. unfold gop_after. by rewrite fold_left_app. Qed.

Lemma group_bytes_app g h : total_bytes (g ++ h) = total_bytes g + total_bytes h.
Proof. induction g as [|p g IH]; cbn [app total_bytes foldr] in *; [done|]. fold (total_bytes (g ++ h)) (total_bytes g) in *. lia. Qed.

Lemma group_bytes_one p : total_bytes [p] = packet_bytes p.
Proof. unfold total_bytes. cbn. lia. Qed.

Lemma packet_bytes_pos p : 0 < packet_bytes p.
Proof. unfold packet_bytes, len. lia. Qed.

(** The cache is empty, or holds a group that ends the packets seen. *)
Definition gop_ok (pkts : list Packet) (c : GOPCache) : Prop :=
  (latestGOP c = [] /\ gopHasIDR c = false) \/
  (is_group (latestGOP c) /\ fits (latestGOP c) /\ gopBytes c = total_bytes (latestGOP c) /\
   gopHasIDR c = existsb has_idr (latestGOP c) /\ (forall p, head (latestGOP c) = Some p -> gopStartTS c = pk_Timestamp p) /\
   exists before, pkts = before ++ latestGOP c).

Lemma cache_one pkts p : has_sps p || has_idr p = true ->
  gop_ok (pkts ++ [p])
    (if (maxCachedGOPPackets <? Z.of_nat (length (@nil Packet)) + 1) || (maxCachedGOPBytes <? 0 + packet_bytes p) then clearLatestVideoGOP
     else mkGOP ([] ++ [p]) (0 + packet_bytes p) (false || has_idr p) (pk_Timestamp p)).
Proof.
  intros Hb. destruct ((maxCachedGOPPackets <? _) || _) eqn:E; [by left|]. bool_to_prop. right. cbn [app latestGOP gopBytes gopHasIDR gopStartTS orb]. split_and!; try done.
  - unfold fits. cbn [length total_bytes foldr]. unfold maxCachedGOPPackets. lia.
  - cbn [total_bytes foldr]. lia.
  - cbn [existsb]. by rewrite orb_false_r.
  - by intros ? [= ->].
  - by exists pkts.
Qed.

Lemma cacheVideoPacket_ok pkts p c : gop_ok pkts c -> gop_ok (pkts ++ [p]) (cacheVideoPacket p c).
Proof.
  intros Hok. unfold cacheVideoPacket. pose proof (cache_one pkts p) as H1. unfold has_sps, has_idr in H1.
  destruct (h264RandomAccessFlags p) as [sps idr] eqn:Ef. cbn [fst snd] in H1.
  destruct (sps || (idr && _)) eqn:Er.
  { cbn [latestGOP gopBytes gopHasIDR gopStartTS]. rewrite bool_decide_eq_true_2 by done.
    assert (sps || idr = true) as Hb by (destruct sps, idr; done). specialize (H1 Hb).
    replace (true && negb sps && negb idr) with false by (by destruct sps, idr). exact H1. }
  apply orb_false_iff in Er as [-> Er]. destruct Hok as [[E0 E1]|(Hg & [Hl Hs] & Hb & Hi & Ht & before & Hp)].
  { rewrite E0 in *. rewrite bool_decide_eq_true_2 in Er by done. cbn in Er. destruct idr; [done|].
    rewrite bool_decide_eq_true_2 by done. left. done. }
  clear H1.
  destruct (latestGOP c) as [|q rest] eqn:El; [done|]. rewrite bool_decide_eq_false_2 in Er |- * by done. cbn [andb orb negb] in *.
  destruct ((maxCachedGOPPackets <? _) || _) eqn:Eo; [by left|]. apply orb_false_iff in Eo as [Eo1 Eo2]. bool_to_prop.
  right. cbn [latestGOP gopBytes gopHasIDR gopStartTS]. specialize (Ht q eq_refl). split_and!.
  - destruct Hg as [Hq Hrest]. split; [done|]. apply Forall_app. split; [done|]. constructor; [|done].
    unfold continues, has_sps, has_idr. rewrite Ef. cbn. split; [done|]. intros ->. cbn in Er. apply negb_false_iff, Z.eqb_eq in Er. congruence.
  - unfold fits. rewrite length_app, group_bytes_app, <- Hb. cbn [length total_bytes foldr]. cbn [length] in Eo1. lia.
  - rewrite group_bytes_app, Hb. cbn. lia.
  - assert (idr = has_idr p) as -> by (unfold has_idr; by rewrite Ef). rewrite existsb_app, Hi. cbn [existsb]. by rewrite orb_false_r.
  - by intros ? [= <-].
  - exists before. by rewrite Hp, app_assoc.
Qed.

Lemma gop_after_ok pkts : gop_ok pkts (gop_after pkts).
Proof. induction pkts as [|p pkts IH] using rev_ind; [by left|]. rewrite gop_after_snoc. by apply cacheVideoPacket_ok. Qed.

(** A packet that starts a group of its own, and then what continues it, while it fits. *)
Lemma gop_after_group before p rest :
  has_sps p = true \/ (has_idr p = true /\ Forall (fun q => pk_Timestamp q <> pk_Timestamp p) before) ->
  Forall (continues p) rest -> fits (p :: rest) ->
  latestGOP (gop_after (before ++ p :: rest)) = p :: rest /\ gopBytes (gop_after (before ++ p :: rest)) = total_bytes (p :: rest) /\
  gopStartTS (gop_after (before ++ p :: rest)) = pk_Timestamp p /\ gopHasIDR (gop_after (before ++ p :: rest)) = existsb has_idr (p :: rest).
Proof.
  intros Hp. induction rest as [|q rest IH] using rev_ind; intros Hr [Hl Hs].
  - rewrite gop_after_snoc. pose proof (gop_after_ok before) as Hok. unfold cacheVideoPacket. unfold has_sps, has_idr in Hp.
    cbn [existsb]. unfold has_idr. destruct (h264RandomAccessFlags p) as [sps idr] eqn:Ef. cbn [fst snd] in *.
    assert (sps || (idr && (bool_decide (latestGOP (gop_after before) = []) || negb (gopStartTS (gop_after before) =? pk_Timestamp p))) = true) as ->.
    { destruct Hp as [-> | [-> Hne]]; [done|]. destruct sps; [done|]. cbn. destruct Hok as [[-> _]|(Hg & _ & _ & _ & Ht & b & Hb)]; [done|].
      destruct (latestGOP (gop_after before)) as [|q g]; [done|]. rewrite (Ht q eq_refl). apply orb_true_iff. right.
      rewrite Hb in Hne. apply Forall_app in Hne as [_ Hne]. apply Forall_cons in Hne as [Hne _]. apply negb_true_iff. by apply Z.eqb_neq. }
    cbn [latestGOP gopBytes gopHasIDR]. rewrite bool_decide_eq_true_2 by done.
    replace (true && negb sps && negb idr) with false by (destruct Hp as [-> | [-> _]]; cbn; by rewrite ?andb_false_r).
    cbn [total_bytes foldr] in Hs. destruct ((maxCachedGOPPackets <? _) || _) eqn:Eo.
    { apply orb_true_iff in Eo as [Eo%Z.ltb_lt|Eo%Z.ltb_lt]; cbn in Hl, Hs, Eo; unfold maxCachedGOPPackets in *; lia. }
    cbn. split_and!; [done|unfold total_bytes; cbn; lia|done|by rewrite orb_false_r].
  - apply Forall_app in Hr as [Hr [Hq _]%Forall_cons]. rewrite app_comm_cons in Hl, Hs |- *. rewrite app_assoc, gop_after_snoc.
    rewrite length_app in Hl. rewrite group_bytes_app, group_bytes_one in Hs. cbn [length] in Hl. pose proof (packet_bytes_pos q) as Hn.
    destruct IH as (El & Eb & Et & Ei); [done|split; cbn [length]; lia|].
    unfold cacheVideoPacket. destruct Hq as [Hq1 Hq2]. rewrite existsb_app, <- Ei. cbn [existsb]. unfold has_sps, has_idr in Hq1, Hq2 |- *.
    destruct (h264RandomAccessFlags q) as [sps idr] eqn:Ef. cbn [fst snd] in *. subst sps.
    rewrite !El, Et. rewrite (bool_decide_eq_false_2 (p :: rest = [])) by done. cbn [orb negb andb].
    replace (idr && negb (pk_Timestamp p =? pk_Timestamp q)) with false
      by (destruct idr; [rewrite Hq2 by done; by rewrite Z.eqb_refl|done]).
    rewrite !El, Eb. rewrite (bool_decide_eq_false_2 (p :: rest = [])) by done. cbn [orb negb andb].
    destruct ((maxCachedGOPPackets <? _) || _) eqn:Eo.
    { apply orb_true_iff in Eo as [Eo%Z.ltb_lt|Eo%Z.ltb_lt]; cbn [length] in *; lia. }
    cbn [latestGOP gopBytes gopStartTS gopHasIDR]. split_and!; [done|by rewrite group_bytes_app, group_bytes_one|done|by rewrite orb_false_r].
Qed.

(** C29: what a new viewer is given to start from is the end of the packets received, whole:
    it begins with a parameter set or a random access picture, holds such a picture, has
    no other start inside, and respects the bounds on packets and bytes; and once a
    parameter set (or a picture with a timestamp of its own) has started a group that
    stays within the bounds, exactly that group is given as soon as its picture has come. *)
Theorem latest_gop_is_whole pkts :
  (forall g, LatestVideoGOP (gop_after pkts) = Some g ->
     is_group g /\ existsb has_idr g = true /\ fits g /\ exists before, pkts = before ++ g) /\
  (forall before p rest, pkts = before ++ p :: rest ->
     has_sps p = true \/ (has_idr p = true /\ Forall (fun q => pk_Timestamp q <> pk_Timestamp p) before) ->
     Forall (continues p) rest -> fits (p :: rest) ->
     LatestVideoGOP (gop_after pkts) = if existsb has_idr (p :: rest) then Some (p :: rest) else None).
Proof.
  split.
  - intros g. unfold LatestVideoGOP. destruct (gop_after_ok pkts) as [[-> ->]|(Hg & Hf & _ & Hi & _ & Hb)]; [done|].
    destruct (negb _ || _) eqn:E; [done|]. intros [= <-]. apply orb_false_iff in E as [E%negb_false_iff _]. rewrite <- Hi. done.
  - intros before p rest -> Hp Hr Hf. destruct (gop_after_group before p rest Hp Hr Hf) as (El & _ & _ & Ei).
    unfold LatestVideoGOP. rewrite El, Ei, (bool_decide_eq_false_2 (p :: rest = [])), orb_false_r by done. by destruct (existsb has_idr (p :: rest)).
Qed.

(** ** What the connect loop waits for *)

(** A pass that failed, at whatever time. *)
Definition failed (p : Pass) : Prop := exists e, ps_err p = Some e.

Definition wait_after (n : nat) : Z := Nat.iter n next_backoff (5 * Second).

Lemma wait_after_values :
  wait_after <$> seq 0 9 =
  [5 * Second; 7500 * Millisecond; 11250 * Millisecond; 16875 * Millisecond; 25312500000; 37968750000; 56953125000; 85429687500; 2 * Minute].
Proof. vm_compute. reflexivity. Qed.

Lemma wait_after_capped n : (8 <= n)%nat -> wait_after n = 2 * Minute.
Proof.
  induction 1 as [|n Hn IH]; [by vm_compute|]. change (wait_after (S n)) with (next_backoff (wait_after n)). rewrite IH. by vm_compute.
Qed.

Lemma fan_out_keeps panicked s : so_onDemand (fan_out panicked s) = so_onDemand s /\ so_attempts (fan_out panicked s) = so_attempts s /\
  so_connected (fan_out panicked s) = so_connected s /\ so_reconnectSinks (fan_out panicked s) = so_reconnectSinks s.
Proof.
  unfold fan_out. generalize (so_consumers s). intros l. revert s. induction l as [|c l IH]; intros s; [done|]. cbn [fold_left].
  specialize (IH (deliver panicked s c)). unfold deliver in *. by destruct (panicked c).
Qed.

Lemma notifyDisconnect_keeps panicked s k : so_onDemand (notifyDisconnect panicked s k).1 = so_onDemand s /\
  so_attempts (notifyDisconnect panicked s k).1 = so_attempts s /\ so_reconnectSinks (notifyDisconnect panicked s k).1 = so_reconnectSinks s.
Proof.
  unfold notifyDisconnect. destruct (so_connected s && negb (so_onDemand s)); cbn [fst];
    match goal with |- context [fan_out ?p ?x] => destruct (fan_out_keeps p x) as (-> & -> & _ & ->) end; done.
Qed.

Lemma connectOnce_onDemand p s : so_onDemand (connectOnce p s) = so_onDemand s.
Proof.
  unfold connectOnce, extractTracks, signal_params. destruct (ps_described p); [destruct (fold_left _ _ _)|]; by destruct (ps_played p).
Qed.

Lemma connect_turn_spec p b s : so_onDemand (connect_turn p b s).1 = so_onDemand s /\
  (connect_turn p b s).2.1.2 = (if so_onDemand s then onDemandRetry else match ps_err p with None => Second | Some _ => b end) /\
  (connect_turn p b s).2.2 = (let b := match ps_err p with None => Second | Some _ => b end in if so_onDemand s then b else next_backoff b).
Proof.
  unfold connect_turn. cbn [so_onDemand set_attempts so_attempts]. destruct (so_onDemand s) eqn:E; cbn [andb];
    [destruct (negb (Faulted _))|destruct (ps_err p)]; cbn; try (destruct (shouldLogFailure _ _)); cbn; rewrite ?E; done.
Qed.

(** The waits of a source that keeps failing: five seconds, half as much again after each
    failure, two minutes from the ninth on; an on-demand source always waits three seconds. *)
Theorem connect_waits passes s counters :
  Forall (fun p => failed p.1) passes ->
  (Connect passes s counters).2.*2 =
  if so_onDemand s then replicate (length passes) onDemandRetry else wait_after <$> seq 0 (length passes).
Proof.
  intros Hf. unfold Connect. change (5 * Second) with (wait_after 0). generalize 0%nat as n. revert s counters.
  induction Hf as [|[p panicked] passes [e He] Hf IH]; intros s counters n; cbn [connect_loop]; [by destruct (so_onDemand s)|].
  destruct (connect_turn_spec p (wait_after n) (connectOnce p s)) as (H1 & H2 & H3). rewrite connectOnce_onDemand in H1, H2, H3.
  destruct (connect_turn p (wait_after n) (connectOnce p s)) as [s1 [[line wait] b]]. cbn [fst snd] in H1, H2, H3. cbn in He. rewrite He in H2, H3.
  destruct (notifyDisconnect_keeps panicked s1 counters) as (Ho & _ & _). destruct (notifyDisconnect panicked s1 counters) as [s2 k2]. cbn [fst] in Ho.
  destruct (so_onDemand s) eqn:Ed.
  - specialize (IH s2 k2 n). rewrite Ho, H1 in IH. subst b. destruct (connect_loop passes (wait_after n) s2 k2) as [[s3 k3] w]. cbn [snd fmap list_fmap length replicate] in *.
    by rewrite IH, H2.
  - specialize (IH s2 k2 (S n)). rewrite Ho, H1 in IH. subst b. change (next_backoff (wait_after n)) with (wait_after (S n)).
    destruct (connect_loop passes (wait_after (S n)) s2 k2) as [[s3 k3] w]. cbn [snd fmap list_fmap length seq] in *. by rewrite IH, H2.
Qed.

(** A camera that failed eight times, then streamed for a day before its connection was cut:
    the health of the source is clean, yet it waits two minutes. *)
Definition cut_passes : list (Pass * (nat -> bool)) :=
  (fun k => (mkPass (Z.of_nat k * Minute) None (if decide (k = 9)%nat then Some (9 * Minute + Second) else None)
               (Z.of_nat k * Minute + (if decide (k = 9)%nat then 24 * Hour else Second)) (Some (mkFailure "connection reset" false)), fun _ => false)) <$> seq 1 9.

Lemma connect_waits_witness :
  let '(s, _, waits) := Connect cut_passes (newSource "" false) ∅ in
  at_failures (so_attempts s) = 0 /\ at_lastErr (so_attempts s) = ""%string /\ last (waits.*2) = Some (2 * Minute).
Proof.
  pose proof (connect_waits cut_passes (newSource "" false) ∅) as H.
  assert (at_failures (so_attempts (Connect cut_passes (newSource "" false) ∅).1.1) = 0 /\
          at_lastErr (so_attempts (Connect cut_passes (newSource "" false) ∅).1.1) = ""%string) as [H1 H2] by (split; vm_compute; reflexivity).
  destruct (Connect cut_passes (newSource "" false) ∅) as [[s k] waits]. cbn [fst snd] in *. split_and!; [done|done|].
  rewrite H; [vm_compute; reflexivity|]. unfold cut_passes. apply Forall_fmap, Forall_forall. intros k' _. eexists. reflexivity.
Defined.

(** ** When an on-demand source is reported as broken *)

(** The passes since PLAY was last reached, none of which reached it. *)
Definition attempts_after (errs : list (Z * Z * option Failure)) (a : Attempts) : Attempts :=
  fold_left (fun a e => recordAttempt e.1.1 e.1.2 e.2 a) errs a.

Definition last_error (errs : list (Z * Z * option Failure)) : option Failure := last (omap (fun e => e.2) errs).

Lemma attempts_after_spec errs a :
  Forall (fun e => at_lastConnected a <= e.1.1) errs -> 0 <= at_failures a -> at_failures a + Z.of_nat (length errs) <= max_int64 ->
  at_failures (attempts_after errs a) = at_failures a + Z.of_nat (length errs) /\
  at_lastConnected (attempts_after errs a) = at_lastConnected a /\
  at_lastErr (attempts_after errs a) = match last_error errs with Some e => fl_text e | None => at_lastErr a end /\
  at_unpublished (attempts_after errs a) = match last_error errs with Some e => fl_unpublished e | None => at_unpublished a end.
Proof.
  intros Hs Hn. induction errs as [|[[start now] err] errs IH] using rev_ind; intros Hm; [cbn; split_and!; [lia|done..]|].
  apply Forall_app in Hs as [Hs [Ht _]%Forall_cons]. cbn [fst snd] in Ht. rewrite length_app in *. cbn [length] in *.
  destruct IH as (H1 & H2 & H3 & H4); [done|lia|]. unfold attempts_after, last_error in *. rewrite fold_left_app, omap_app. cbn [fold_left omap list_omap fst snd].
  set (b := fold_left _ errs a) in *. unfold recordAttempt. rewrite H2. unfold After. rewrite (proj2 (Z.ltb_ge _ _)) by lia.
  destruct err as [e|]; cbn [at_failures at_lastConnected at_lastErr at_unpublished]; rewrite H1, i64_small by (unfold min_int64, max_int64 in *; lia);
    rewrite ?last_snoc, ?app_nil_r; split_and!; try done; lia.
Qed.

(** Since PLAY was last reached a source is reported as broken exactly when at least three
    passes failed, whatever their errors were, and the last error is not the answer that the
    stream is not published. *)
Theorem faulted_exactly s errs :
  so_connected s = false -> at_failures (so_attempts s) = 0 -> at_lastErr (so_attempts s) = ""%string ->
  Forall (fun e => at_lastConnected (so_attempts s) <= e.1.1 /\ match e.2 with Some f => fl_text f <> ""%string | None => True end) errs ->
  Z.of_nat (length errs) <= max_int64 ->
  Faulted (set_attempts (attempts_after errs (so_attempts s)) s) = true <->
  (3 <= length errs)%nat /\ exists e, last_error errs = Some e /\ fl_unpublished e = false.
Proof.
  intros Hc Hf He Herrs Hm. destruct (attempts_after_spec errs (so_attempts s)) as (H1 & _ & H3 & H4); [|lia|lia|].
  { eapply Forall_impl; [exact Herrs|]. by intros ? [? _]. }
  unfold Faulted. cbn [so_connected so_attempts set_attempts]. rewrite Hc, H1, H3, H4, He, Hf. unfold onDemandFaultThreshold.
  assert (forall e, last_error errs = Some e -> fl_text e <> ""%string) as Htext.
  { intros e Hl. unfold last_error in Hl. apply last_Some_elem_of in Hl. apply list_elem_of_omap in Hl as ([? [f|]] & Hin & [= <-]).
    rewrite Forall_forall in Herrs. by destruct (Herrs _ Hin). }
  destruct (last_error errs) as [e|]; cbn [negb andb]; [|rewrite String.eqb_refl; cbn; rewrite andb_false_r; naive_solver].
  specialize (Htext e eq_refl). apply String.eqb_neq in Htext. rewrite Htext. destruct (fl_unpublished e) eqn:Eu; cbn [negb andb]; [naive_solver congruence|].
  rewrite Z.leb_le. split; [intros; split; [lia|by exists e]|intros [? _]; lia].
Qed.

(** A camera that slept, and one time-out. *)
Lemma faulted_exactly_witness :
  let asleep := mkFailure "404" true in
  let errs := [(10, 11, Some asleep); (20, 21, Some asleep); (30, 31, Some (mkFailure "i/o timeout" false))] in
  Faulted (set_attempts (attempts_after errs (so_attempts (newSource "" true))) (newSource "" true)) = true.
Proof.
  intros asleep errs. apply (faulted_exactly (newSource "" true) errs); [reflexivity..| |cbn; unfold max_int64; lia|].
  - repeat constructor; cbn; try lia; discriminate.
  - split; [cbn; lia|]. exists (mkFailure "i/o timeout" false). split; reflexivity.
Defined.

(** ** Parameter sets *)

(** A parameter set once learned from packets is never replaced by one. *)
Lemma maybeLearnParameterSets_first pkt s t :
  so_videoTrack s = Some t -> exists t', so_videoTrack (maybeLearnParameterSets pkt s) = Some t' /\
    (ti_SPS t <> [] -> ti_SPS t' = ti_SPS t) /\ (ti_PPS t <> [] -> ti_PPS t' = ti_PPS t) /\ ti_Codec t' = ti_Codec t /\ ti_PayloadType t' = ti_PayloadType t.
Proof.
  intros E. unfold maybeLearnParameterSets. destruct (packet_params pkt) as [sps pps]. rewrite E. cbn [default from_option id].
  destruct sps as [|b sps], pps as [|b' pps]; [by exists t| | |]; unfold signal_params; cbn [so_videoTrack set_tracks];
    (eexists; split; [reflexivity|]); cbn [ti_SPS ti_PPS ti_Codec ti_PayloadType]; destruct (ti_SPS t), (ti_PPS t); split_and!; intros; congruence.
Qed.

(** The signal that parameter sets are there outlives them: after a reconnection whose
    description has none, a caller that waits for them is let through at once. *)
Theorem params_signal_outlives_params s formats :
  so_paramsReady s = true -> WaitForVideoParams (extractTracks formats s) = Some true.
Proof.
  intros E. unfold WaitForVideoParams, extractTracks, signal_params. destruct (fold_left _ _ _). cbn. by rewrite E, orb_true_r.
Qed.

Lemma params_signal_outlives_params_witness :
  let sdp := [FormatH264 90000 96 [] []] in
  let learned := maybeLearnParameterSets (mkPacket 0 0 0 96 true [0x68; 1; 2]) (maybeLearnParameterSets (mkPacket 0 0 0 96 true [0x67; 1; 2; 3]) (extractTracks sdp (newSource "" false))) in
  has_params (so_videoTrack learned) = true /\ has_params (so_videoTrack (extractTracks sdp learned)) = false /\
  WaitForVideoParams (extractTracks sdp learned) = Some true.
Proof. intros sdp learned. split_and!; [reflexivity..|]. apply (params_signal_outlives_params learned sdp). reflexivity. Defined.

(** ** The hub wires every source of a URL to its counters *)

(** What happens to a hub: a call of one of its methods, or an event of a source. *)
Inductive net_step : Net -> Net -> Prop :=
| step_onDemand url n : net_step n (RegisterOnDemand url n)
| step_transport url transport n : net_step n (RegisterTransport url transport n)
| step_get url transport n : net_step n (GetOrCreateWithTransport url transport n).1
| step_sink url sink n : net_step n (RegisterReconnectSink url sink n)
| step_remove url n : net_step n (Remove url n)
| step_close n : net_step n (Close n)
| step_disconnects id panicked n : net_step n (source_disconnects id panicked n)
| step_connects id p n : net_step n (on_source id (connectOnce p) n)
| step_turn id p b n : net_step n (on_source id (fun s => (connect_turn p b s).1) n)
| step_video id panicked pkt n : net_step n (on_source id (fanOutVideo panicked pkt) n)
| step_audio id panicked pkt n : net_step n (on_source id (fanOutAudio panicked pkt) n)
| step_add id c n : net_step n (on_source id (AddConsumer c) n)
| step_drop id c n : net_step n (on_source id (RemoveConsumer c) n).

Definition net_reachable (n : Net) : Prop := rtc net_step NewHub n.

Definition sinks_of (url : string) (n : Net) : list nat := default [] (hb_sinks (nt_hub n) !! url).

(** The source of a URL is live and wired to exactly the counters registered for it; no
    other URL has it; and no counter is registered twice. *)
Record wired (n : Net) : Prop := mkWired {
  wi_source : forall url id, Get url n = Some id ->
    (hb_closed (nt_hub n) = false -> id ∉ nt_cancelled n) /\ exists s, nt_sources n !! id = Some s /\ so_reconnectSinks s = sinks_of url n;
  wi_apart : forall url url' id, Get url n = Some id -> Get url' n = Some id -> url = url';
  wi_once : forall url, NoDup (sinks_of url n);
  wi_fresh : forall id, (nt_next n <= id)%nat -> nt_sources n !! id = None /\ id ∉ nt_cancelled n
}.

Lemma wire_all sinks s :
  NoDup (so_reconnectSinks s ++ sinks) ->
  so_reconnectSinks (fold_left (fun s k => AddReconnectSink k s) sinks s) = so_reconnectSinks s ++ sinks.
Proof.
  revert s. induction sinks as [|k sinks IH]; intros s Hd; cbn [fold_left]; [by rewrite app_nil_r|].
  assert (so_reconnectSinks (AddReconnectSink k s) = so_reconnectSinks s ++ [k]) as E.
  { unfold AddReconnectSink. rewrite bool_decide_eq_false_2; [done|]. apply NoDup_app in Hd as (_ & Hd & _). intros Hk. apply (Hd k Hk). by left. }
  rewrite IH; rewrite E, <- app_assoc; done.
Qed.

Lemma on_source_wired id f n : (forall s, so_reconnectSinks (f s) = so_reconnectSinks s) -> wired n -> wired (on_source id f n).
Proof.
  intros Hf [H1 H2 H3 H4]. unfold on_source. split; cbn [nt_hub nt_sources nt_next nt_cancelled].
  - intros url id' Hg. destruct (H1 url id' Hg) as [Hc (s & Hs & Hk)]. split; [done|]. destruct (decide (id = id')) as [->|Hne].
    + exists (f s). rewrite lookup_alter, decide_True, Hs by done. cbn. split; [done|]. by rewrite Hf.
    + exists s. by rewrite lookup_alter_ne.
  - exact H2.
  - exact H3.
  - intros id' Hid. destruct (H4 id' Hid) as [Hs Hc]. split; [|done]. destruct (decide (id = id')) as [->|Hne].
    + by rewrite lookup_alter, decide_True, Hs.
    + by rewrite lookup_alter_ne.
Qed.

(** A change of the hub's other registries. *)
Lemma set_hub_wired h n : hb_sources h = hb_sources (nt_hub n) -> hb_sinks h = hb_sinks (nt_hub n) -> hb_closed h = hb_closed (nt_hub n) ->
  wired n -> wired (set_hub h n).
Proof.
  intros E1 E2 E3 [H1 H2 H3 H4]. unfold set_hub. split; unfold Get, sinks_of in *; cbn [nt_hub nt_sources nt_next nt_cancelled]; rewrite ?E1, ?E2, ?E3; done.
Qed.

Lemma GetOrCreate_wired url transport n : wired n -> wired (GetOrCreateWithTransport url transport n).1.
Proof.
  intros [H1 H2 H3 H4]. unfold GetOrCreateWithTransport. destruct (hb_sources (nt_hub n) !! url) as [id|] eqn:E; [done|]. cbn [fst].
  set (src := fold_left _ _ _). assert (so_reconnectSinks src = sinks_of url n) as Hsrc.
  { unfold src. rewrite wire_all; cbn [so_reconnectSinks newSource app]; [done|apply (H3 url)]. }
  destruct (H4 (nt_next n) (le_n _)) as [Hs Hc]. split; unfold Get, sinks_of in *; cbn [nt_hub nt_sources nt_next nt_cancelled hb_sources hb_sinks hb_closed] in *.
  - intros url' id [[<- <-]|[Hne Hg]]%lookup_insert_Some.
    + split; [by intros ->|]. exists src. by rewrite lookup_insert, decide_True.
    + destruct (H1 url' id Hg) as [Hc' (s & Hs' & Hk)]. split; [intros Hcl; rewrite Hcl; auto|]. exists s. rewrite lookup_insert_ne; [done|]. intros <-. congruence.
  - intros u u' id [[<- <-]|[Hne Hg]]%lookup_insert_Some [[<- E']|[Hne' Hg']]%lookup_insert_Some; [done| | |by eapply H2].
    + destruct (H1 u' _ Hg') as [_ (s & Hs' & _)]. congruence.
    + destruct (H1 u _ Hg) as [_ (s & Hs' & _)]. congruence.
  - done.
  - intros id Hid. destruct (H4 id ltac:(lia)) as [Hs' Hc']. rewrite lookup_insert_ne by lia. split; [done|]. destruct (hb_closed _); [|done].
    intros [->%elem_of_singleton|]%elem_of_union; [lia|done].
Qed.

Lemma RegisterReconnectSink_wired url sink n : wired n -> wired (RegisterReconnectSink url sink n).
Proof.
  intros [H1 H2 H3 H4]. unfold RegisterReconnectSink. destruct (String.eqb url ""); [done|]. fold (sinks_of url n).
  destruct (bool_decide _) eqn:Ed; [done|]. bool_to_prop.
  assert (NoDup (sinks_of url n ++ [sink])) as Hnd.
  { apply NoDup_app. split_and!; [apply H3|intros x Hx ->%list_elem_of_singleton; done|apply NoDup_singleton]. }
  destruct (hb_sources (nt_hub n) !! url) as [id|] eqn:E.
  - destruct (H1 url id E) as [Hc (s & Hs & Hk)]. unfold on_source, set_hub.
    split; unfold Get, sinks_of in *; cbn [nt_hub nt_sources nt_next nt_cancelled hb_sources hb_sinks hb_closed] in *.
    + intros u id' Hg. destruct (H1 u id' Hg) as [Hc' (s' & Hs' & Hk')]. split; [done|]. destruct (decide (id = id')) as [<-|Hne].
      * assert (u = url) as -> by (by eapply H2). rewrite Hs in Hs'. injection Hs' as <-. exists (AddReconnectSink sink s).
        rewrite lookup_alter, decide_True, Hs by done. cbn. split; [done|]. rewrite lookup_insert, decide_True by done. cbn.
        unfold AddReconnectSink. rewrite Hk, bool_decide_eq_false_2 by done. done.
      * exists s'. rewrite lookup_alter_ne by done. split; [done|]. rewrite lookup_insert_ne; [done|]. intros <-. congruence.
    + exact H2.
    + intros u. destruct (decide (url = u)) as [<-|Hne]; [by rewrite lookup_insert, decide_True|by rewrite lookup_insert_ne].
    + intros id' Hid. destruct (H4 id' Hid) as [Hs' Hc']. split; [|done]. rewrite lookup_alter_ne; [done|]. intros <-. congruence.
  - unfold set_hub. split; unfold Get, sinks_of in *; cbn [nt_hub nt_sources nt_next nt_cancelled hb_sources hb_sinks hb_closed] in *; [|done| |done].
    + intros u id' Hg. destruct (H1 u id' Hg) as [Hc' (s' & Hs' & Hk')]. split; [done|]. exists s'. split; [done|]. rewrite lookup_insert_ne; [done|]. congruence.
    + intros u. destruct (decide (url = u)) as [<-|Hne]; [by rewrite lookup_insert, decide_True|by rewrite lookup_insert_ne].
Qed.

Lemma Remove_wired url n : wired n -> wired (Remove url n).
Proof.
  intros [H1 H2 H3 H4]. unfold Remove. destruct (hb_sources (nt_hub n) !! url) as [id|] eqn:E; [|done].
  split; unfold Get, sinks_of in *; cbn [nt_hub nt_sources nt_next nt_cancelled hb_sources hb_sinks hb_closed] in *; [| |done|].
  - intros u id' [Hne Hg]%lookup_delete_Some. destruct (H1 u id' Hg) as [Hc Hs]. split; [|done].
    intros Hcl [->%elem_of_singleton|]%elem_of_union; [|by apply Hc]. apply Hne. by eapply H2.
  - intros u u' id' [_ Hg]%lookup_delete_Some [_ Hg']%lookup_delete_Some. by eapply H2.
  - intros id' Hid. destruct (H4 id' Hid) as [Hs Hc]. split; [done|]. intros [->%elem_of_singleton|]%elem_of_union; [|done].
    destruct (H1 url id E) as [_ (s & Hs' & _)]. congruence.
Qed.

Lemma Close_wired n : wired n -> wired (Close n).
Proof.
  intros [H1 H2 H3 H4]. unfold Close. split; unfold Get, sinks_of in *; cbn [nt_hub nt_sources nt_next nt_cancelled hb_sources hb_sinks hb_closed] in *;
    [by intros ??; rewrite lookup_empty|by intros ???; rewrite lookup_empty|done|].
  intros id Hid. destruct (H4 id Hid) as [Hs Hc]. split; [done|]. intros [Hin|]%elem_of_union; [|done].
  apply elem_of_list_to_set, list_elem_of_fmap in Hin as ([u i] & -> & Hin%elem_of_map_to_list). destruct (H1 u i Hin) as [_ (s & Hs' & _)]. cbn in *. congruence.
Qed.

Lemma signal_params_sinks v a s : so_reconnectSinks (signal_params v a s) = so_reconnectSinks s.
Proof. done. Qed.

Lemma connectOnce_sinks p s : so_reconnectSinks (connectOnce p s) = so_reconnectSinks s.
Proof. unfold connectOnce, extractTracks. destruct (ps_described p); [destruct (fold_left _ _ _)|]; by destruct (ps_played p). Qed.

Lemma connect_turn_sinks p b s : so_reconnectSinks (connect_turn p b s).1 = so_reconnectSinks s.
Proof. unfold connect_turn. repeat case_match; simplify_eq/=; try destruct (shouldLogFailure _ _); naive_solver. Qed.

Lemma fanOutVideo_sinks panicked pkt s : so_reconnectSinks (fanOutVideo panicked pkt s) = so_reconnectSinks s.
Proof.
  unfold fanOutVideo. destruct (fan_out_keeps panicked (set_gop (cacheVideoPacket pkt (so_gop (maybeLearnParameterSets pkt s))) (maybeLearnParameterSets pkt s))) as (_ & _ & _ & ->).
  cbn. unfold maybeLearnParameterSets. by destruct (packet_params pkt) as [[] []].
Qed.

Lemma net_step_wired n n' : net_step n n' -> wired n -> wired n'.
Proof.
  destruct 1; intros Hw; try (apply on_source_wired; [|done]).
  - unfold RegisterOnDemand. destruct (String.eqb _ _); [done|]. by apply set_hub_wired.
  - unfold RegisterTransport. destruct (_ || _); [done|]. by apply set_hub_wired.
  - by apply GetOrCreate_wired.
  - by apply RegisterReconnectSink_wired.
  - by apply Remove_wired.
  - by apply Close_wired.
  - unfold source_disconnects. destruct (nt_sources n !! id) as [s|] eqn:E; [|done]. case_bool_decide; [done|].
    destruct (notifyDisconnect_keeps panicked s (nt_counters n)) as (_ & _ & Hk). destruct (notifyDisconnect _ _ _) as [s' k]. cbn [fst] in Hk.
    pose proof (on_source_wired id (fun _ => s') n) as Ho. destruct Hw as [H1 H2 H3 H4].
    split; unfold Get, sinks_of in *; cbn [nt_hub nt_sources nt_next nt_cancelled] in *; [|done|done|].
    + intros u id' Hg. destruct (H1 u id' Hg) as [Hc (s0 & Hs0 & Hk0)]. split; [done|]. destruct (decide (id = id')) as [<-|Hne].
      * exists s'. rewrite lookup_insert, decide_True by done. split; [done|]. congruence.
      * exists s0. by rewrite lookup_insert_ne.
    + intros id' Hid. destruct (H4 id' Hid) as [Hs Hc]. split; [|done]. rewrite lookup_insert_ne; [done|]. congruence.
  - apply connectOnce_sinks.
  - intros s. apply connect_turn_sinks.
  - apply fanOutVideo_sinks.
  - intros s. unfold fanOutAudio. by destruct (fan_out_keeps panicked s) as (_ & _ & _ & ->).
  - done.
  - done.
Qed.

Lemma reachable_wired n : net_reachable n -> wired n.
Proof.
  intros Hr. unfold net_reachable in Hr. assert (wired NewHub) as H0.
  { split; unfold Get, sinks_of; cbn; [by intros ??; rewrite lookup_empty|by intros ???; rewrite lookup_empty|intros; rewrite lookup_empty; constructor|].
    intros. rewrite lookup_empty. split; [done|]. apply not_elem_of_empty. }
  revert H0. induction Hr as [|x y z Hs Hr IH]; intros Hw; [done|]. apply IH. by eapply net_step_wired.
Qed.

Lemma count_all sinks counters k : NoDup sinks ->
  fold_left count sinks counters !! k = if decide (k ∈ sinks) then Some (i64 (default 0 (counters !! k) + 1)) else counters !! k.
Proof.
  intros Hn. revert counters. induction Hn as [|x sinks Hx Hn IH]; intros counters; cbn [fold_left]; [by rewrite decide_False by apply not_elem_of_nil|].
  rewrite IH. unfold count. destruct (decide (k ∈ sinks)) as [Hk|Hk].
  - rewrite decide_True by (by right). rewrite lookup_insert_ne by congruence. done.
  - destruct (decide (x = k)) as [->|Hne].
    + rewrite lookup_insert, decide_True, decide_True by (done || by left). done.
    + rewrite lookup_insert_ne, decide_False by (rewrite ?not_elem_of_cons; naive_solver). done.
Qed.

(** C28: while the hub is open, when the connection of a URL's source is lost, each counter registered for the URL,
    before or after the source was made, is raised by one, and no other counter is; a
    source that was not connected, or is published on demand, raises none. *)
Theorem reconnects_reach_every_counter n url id s panicked k :
  net_reachable n -> hb_closed (nt_hub n) = false -> Get url n = Some id -> nt_sources n !! id = Some s ->
  nt_counters (source_disconnects id panicked n) !! k =
  if decide (so_connected s = true /\ so_onDemand s = false /\ k ∈ sinks_of url n)
  then Some (i64 (default 0 (nt_counters n !! k) + 1)) else nt_counters n !! k.
Proof.
  intros Hr Ho Hg Hs. destruct (reachable_wired n Hr) as [H1 _ H3 _]. destruct (H1 url id Hg) as [Hc (s' & Hs' & Hk)]. rewrite Hs in Hs'. injection Hs' as <-.
  unfold source_disconnects. rewrite Hs, bool_decide_eq_false_2 by auto. unfold notifyDisconnect.
  destruct (so_connected s) eqn:Ec, (so_onDemand s) eqn:Ed; cbn [andb negb]; try (rewrite decide_False by naive_solver; done).
  cbn [nt_counters so_reconnectSinks set_reconnects set_gop set_connected]. rewrite Hk, count_all by apply H3.
  destruct (decide (k ∈ _)) as [Hin|Hin]; [rewrite decide_True by done|rewrite decide_False by naive_solver]; done.
Qed.

(** Two cameras share a stream; one registers its counter before anybody opens it, the
    other after; the source connects and loses its connection. *)
Definition shared_stream : Net :=
  on_source 0 (connectOnce (mkPass 10 None (Some 11) 20 None))
    (RegisterReconnectSink "rtsp://cam" 2 (GetOrCreate "rtsp://cam" (RegisterReconnectSink "rtsp://cam" 1 NewHub)).1).

Lemma reconnects_reach_every_counter_witness :
  let n := source_disconnects 0 (fun _ => false) shared_stream in
  nt_counters n !! 1%nat = Some 1 /\ nt_counters n !! 2%nat = Some 1 /\ nt_counters n !! 3%nat = None.
Proof.
  intros n. assert (net_reachable shared_stream) as Hr.
  { eapply rtc_l; [apply (step_sink "rtsp://cam" 1)|]. eapply rtc_l; [apply (step_get "rtsp://cam" "")|].
    eapply rtc_l; [apply (step_sink "rtsp://cam" 2)|]. eapply rtc_l; [apply (step_connects 0 (mkPass 10 None (Some 11) 20 None))|]. apply rtc_refl. }
  assert (exists s, nt_sources shared_stream !! 0%nat = Some s) as [s Hs] by (eexists; vm_compute; reflexivity).
  pose proof (fun k => reconnects_reach_every_counter shared_stream "rtsp://cam" 0 s (fun _ => false) k Hr eq_refl eq_refl Hs) as H.
  assert (so_connected s = true /\ so_onDemand s = false) as [E1 E2] by (vm_compute in Hs; injection Hs as <-; done).
  assert (sinks_of "rtsp://cam" shared_stream = [1; 2]%nat) as E3 by reflexivity.
  unfold n. rewrite !H, E3. split_and!.
  - rewrite decide_True by (split_and!; [done|done|by left]). reflexivity.
  - rewrite decide_True by (split_and!; [done|done|right; by left]). reflexivity.
  - rewrite decide_False by (intros (_ & _ & [|[|[]%not_elem_of_nil]%elem_of_cons]%elem_of_cons); done). reflexivity.
Defined.

(** A parameter set, the first slice of a picture and a second one, and the next frame. *)
Definition one_group : list Packet :=
  [mkPacket 90 0 0 96 false [0x67; 1; 2; 3]; mkPacket 90 1 0 96 false [0x65; 1]; mkPacket 90 2 0 96 true [0x65; 2]; mkPacket 180 3 0 96 true [0x41; 3]].

Lemma latest_gop_is_whole_witness :
  LatestVideoGOP (gop_after (mkPacket 45 0 0 96 true [0x41; 0] :: one_group)) = Some one_group.
Proof.
  destruct (latest_gop_is_whole (mkPacket 45 0 0 96 true [0x41; 0] :: one_group)) as [_ H].
  apply (H [mkPacket 45 0 0 96 true [0x41; 0]] (mkPacket 90 0 0 96 false [0x67; 1; 2; 3]) (drop 1 one_group)); [reflexivity|by left| |].
  - repeat constructor; intros E; vm_compute in E; try discriminate; reflexivity.
  - split; vm_compute; discriminate.
Defined.
