(* ===== verification/RecordedSegments.v ===== *)
(** From recording to playback: a segment the writer recorded, read back through the
    index, can be entered at any instant on a keyframe.  And instances of what the
    segment writer guarantees. *)

From S2P Require Import Prelude H264 Mp4Bytes Mp4Index Mp4IndexTheorems SegmentWriter SegmentWriterTheorems.

#[local] Open Scope list_scope.
#[local] Open Scope Z_scope.

(** ** What the index has of a part *)

Definition traf_of_track (t : PartTrack) : trafEntry :=
  mkTraf (pt_ID t) (pt_BaseTime t) (u32 (fold_left (fun d s => d + smp_Duration s) (pt_Samples t) 0))
    match pt_Samples t with s :: _ => negb (smp_IsNonSyncSample s) | [] => true end.

(** Each fragment of the file is a part of the writer: what go-mp4 reads of what
    mediacommon marshalled. *)
Definition fragments_of (ps : list Part) (fs : list fragment) : Prop :=
  fr_trafs <$> fs = (fun p => traf_of_track <$> pa_Tracks p) <$> ps.

(** The first fragment from [i] on that has video. *)
Definition first_video (fs : list fragment) (i j : nat) : Prop :=
  (i <= j)%nat /\ (exists f t, fs !! j = Some f /\ traf f videoTrackID = Some t) /\
  forall k f, (i <= k < j)%nat -> fs !! k = Some f -> traf f videoTrackID = None.

Section recorded.
Context `{Codecs}.

Lemma traf_of_part p f t :
  fr_trafs f = traf_of_track <$> pa_Tracks p -> traf f videoTrackID = Some t ->
  exists pt, pt ∈ pa_Tracks p /\ pt_ID pt = videoTrackID /\ t = traf_of_track pt.
Proof.
  intros Hf Ht. apply find_some in Ht as [Hin Hid]. rewrite Hf in Hin. apply list_elem_of_In, list_elem_of_fmap in Hin as (pt & -> & Hpt).
  exists pt. split; [done|]. by apply Z.eqb_eq in Hid.
Qed.

Lemma no_video_part p f :
  fr_trafs f = traf_of_track <$> pa_Tracks p -> traf f videoTrackID = None -> part_video p = [].
Proof.
  intros Hf Ht. unfold part_video. assert (forall t, t ∈ pa_Tracks p -> pt_ID t =? videoTrackID = false) as Hn.
  { intros t Hin. apply (find_none _ _ Ht (traf_of_track t)). rewrite Hf. by apply list_elem_of_In, list_elem_of_fmap_2. }
  clear Ht Hf. induction (pa_Tracks p) as [|t ts IH]; [done|]. cbn [mbind list_bind]. rewrite (Hn t) by by left.
  apply IH. intros u Hu. apply Hn. by right.
Qed.

Lemma fragments_lookup ps fs i f :
  fragments_of ps fs -> fs !! i = Some f -> exists p, ps !! i = Some p /\ fr_trafs f = traf_of_track <$> pa_Tracks p.
Proof.
  intros Hfs Hi. assert ((fr_trafs <$> fs) !! i = Some (fr_trafs f)) as Hl by by rewrite list_lookup_fmap, Hi.
  rewrite Hfs, list_lookup_fmap in Hl. apply fmap_Some in Hl as (p & Hp & E). by exists p.
Qed.

(** The recording starts with a keyframe, as it does when no write has failed. *)
Definition starts_on_keyframe (m : Media) : Prop := forall s, head (video_samples m) = Some s -> smp_IsNonSyncSample s = false.

(** The first part with video opens on a keyframe. *)
Lemma first_video_sync m fs j :
  media_ok m -> starts_on_keyframe m -> fragments_of (parts m) fs -> first_video fs 0 j -> opens_on_sync fs videoTrackID j.
Proof.
  intros Hm Hkey Hfs (_ & (f & t & Hj & Ht) & Hno). exists f, t. split; [done|]. split; [done|].
  destruct (fragments_lookup _ _ _ _ Hfs Hj) as (p & Hp & Hf). destruct (traf_of_part _ _ _ Hf Ht) as (pt & Hin & Hid & ->).
  destruct (mo_tiled _ Hm j p pt Hp Hin Hid) as [_ Hs]. cbn. rewrite Hs. destruct (part_video p) as [|s l] eqn:Ev; [done|].
  rewrite (Hkey s); [done|]. unfold video_samples, written_video. rewrite <- (take_drop_middle _ _ _ Hp), bind_app.
  assert (take j (parts m) ≫= part_video = []) as ->; [|by rewrite bind_cons, Ev].
  clear - Hno Hfs. assert (forall q, q ∈ take j (parts m) -> part_video q = []) as Hq.
  { intros q (k & Hk & Hlt)%elem_of_take. assert (exists g, fs !! k = Some g) as [g Hg].
    { apply lookup_lt_is_Some. apply lookup_lt_Some in Hk. apply (f_equal length) in Hfs. rewrite !length_fmap in Hfs. lia. }
    destruct (fragments_lookup _ _ _ _ Hfs Hg) as (q' & Hq' & Hg'). assert (q' = q) as -> by congruence.
    apply (no_video_part _ _ Hg'), (Hno k); [lia|done]. }
  induction (take j (parts m)) as [|q l IH]; [done|]. rewrite bind_cons, (Hq q) by by left. apply IH. intros r Hr. apply Hq. by right.
Qed.

(** Where no fragment up to [o] opens on a keyframe, none has video. *)
Lemma no_sync_no_video m fs o :
  media_ok m -> starts_on_keyframe m -> fragments_of (parts m) fs -> (forall j, (j <= o)%nat -> ~ opens_on_sync fs videoTrackID j) ->
  forall j f, (j <= o)%nat -> fs !! j = Some f -> traf f videoTrackID = None.
Proof.
  intros Hm Hkey Hfs Hns j. induction (lt_wf j) as [j _ IH]. intros f Hj Hf. destruct (traf f videoTrackID) as [t|] eqn:Et; [|done].
  exfalso. apply (Hns j Hj), (first_video_sync m); [done..|]. split; [lia|]. split; [by exists f, t|]. intros k g Hk Hg. apply (IH k); [lia|lia|done].
Qed.

(** C30: a recorded segment can be entered anywhere.  When it starts with a keyframe, as
    it does unless a write failed before its first sample, and its fragments are read
    back as the writer wrote them, then for every requested start the first video the
    trim copies is a fragment that opens on a keyframe. *)
Theorem recorded_segment_opens_on_keyframe c now sw sw' d errs fs scales start j :
  reachable c sw -> Close now sw = (sw', d, errs) -> starts_on_keyframe (media sw') -> fragments_of (parts (media sw')) fs ->
  first_video fs (firstFragmentForStart fs videoTrackID scales start) j -> opens_on_sync fs videoTrackID j.
Proof.
  intros Hr Hc Hkey Hfs Hj. destruct errs as [fe ge].
  destruct (Close_ok _ _ _ _ _ _ (proj1 (writer_reachable_ok _ _ Hr)) Hc) as (_ & [Hm _] & _).
  unfold firstFragmentForStart in Hj. destruct (find_index _ 0 fs) as [o|].
  2: { destruct Hj as (Hle & (f & t & Hf & _) & _). apply lookup_lt_Some in Hf. lia. }
  pose proof (sync_before_spec fs videoTrackID o) as Hs. destruct (sync_before fs videoTrackID o) as [i|]; cbn [default from_option Datatypes.id] in Hj.
  - destruct Hs as (_ & (f & t & Hf & Ht & Hsync) & _). destruct Hj as (Hle & _ & Hno). destruct (decide (i = j)) as [->|Hn]; [by exists f, t|].
    specialize (Hno i f ltac:(lia) Hf). congruence.
  - apply (first_video_sync (media sw')); [done..|]. destruct Hj as (Hle & Hex & Hno). split; [lia|]. split; [done|].
    intros k g Hk Hg. destruct (decide (k < o)%nat) as [Hlt|Hge]; [|apply (Hno k); [lia|done]].
    apply (no_sync_no_video (media sw') fs o Hm Hkey Hfs Hs k); [lia|done].
Qed.
End recorded.

(** ** Instances: codecs that hand out each packet as an access unit when the next one
    comes *)

#[local] Instance sample_codecs : Codecs := {
  Depacketizer := list nalu;
  Depacketize p held := ([pk_Payload p], Ok held);
  AACDepacketizer := unit;
  AACDepacketize p d := (d, Ok [pk_Payload p]);
  IsRandomAccess := existsb (fun n => match n with b :: _ => Z.land b 0x1f =? 5 | [] => false end);
  AVCCMarshal au := Ok (concat au);
  Encoder := unit;
  NewEncoder _ := Ok (tt, 1024);
  Encode _ payload e := (e, Ok [payload]);
  FlushResampler e := (e, Ok []);
  FlushEncoder e := (e, Ok [[0]])
}.

Definition write_video (sw : SegmentWriter) (p : Packet) : SegmentWriter := fst (WriteVideo 1 p sw).

Fixpoint accepts (l : list Packet) (sw : SegmentWriter) : bool :=
  match l with
  | [] => true
  | p :: l => match WriteVideo 1 p sw with (sw, None) => accepts l sw | _ => false end
  end.

Lemma accepted_reachable l sw : reachable true sw -> accepts l sw = true -> reachable true (fold_left write_video l sw).
Proof.
  revert sw. induction l as [|p l IH]; intros sw Hr Hl; [done|]. cbn [accepts fold_left] in *. unfold write_video at 2.
  destruct (WriteVideo 1 p sw) as [sw1 [e|]] eqn:E; [done|]. cbn [fst]. apply IH; [|done]. exact (reach_video true 1 p sw sw1 None Hr E).
Qed.

Definition unit_at (ts b : Z) : Packet := mkPacket ts 0 7 96 true [b; ts / 3000].

(** Two groups of pictures of two frames, the last frame still in the decoder. *)
Definition sample_writer : SegmentWriter :=
  fold_left write_video [unit_at 0 0x65; unit_at 3000 0x41; unit_at 6000 0x65; unit_at 9000 0x41]
    (NewSegmentWriter (fun _ => true) 1 (Some ([0x67], [0x68], [])) None None).

Lemma sample_reachable : reachable true sample_writer.
Proof. apply accepted_reachable; [apply reach_new|reflexivity]. Qed.

Lemma parts_tile_the_timeline_witness :
  reachable true sample_writer /\ length (parts (media sample_writer)) = 1%nat /\ tl_videoDTS (sw_timeline sample_writer) = 9000 /\
  samples_duration (video_samples (media sample_writer)) = 9000.
Proof.
  split; [exact sample_reachable|]. destruct (parts_tile_the_timeline true sample_writer sample_reachable) as (_ & _ & E & _).
  split; [reflexivity|]. split; [reflexivity|]. rewrite <- E. reflexivity.
Defined.

Lemma pending_stays_capped_witness :
  length (pd_video (sw_pending sample_writer)) = 1%nat /\ samples_duration (pd_video (sw_pending sample_writer)) < 360000.
Proof. split; [reflexivity|]. exact (proj2 (pending_stays_capped sample_writer sample_reachable)). Defined.

Definition sample_closed : SegmentWriter := fst (fst (Close 2 sample_writer)).

(** Only the parts of the answer are evaluated, never compared as a whole. *)
Lemma sample_Close : Close 2 sample_writer = (sample_closed, 133333333, (None, None)).
Proof.
  assert ((Close 2 sample_writer).1.2 = 133333333) as Hd by reflexivity.
  assert ((Close 2 sample_writer).2 = (None, None)) as He by reflexivity.
  unfold sample_closed. destruct (Close 2 sample_writer) as [[w d] e]. cbn in Hd, He. by rewrite Hd, He.
Qed.

Lemma Close_keeps_every_sample_witness :
  length (video_samples (media sample_closed)) = 4%nat /\
  parts_of (sk_file (sw_sink sample_closed)) ≫= part_video = video_samples (media sample_closed) /\ (Close 2 sample_writer).1.2 = 133333333.
Proof.
  destruct (Close_keeps_every_sample true 2 sample_writer sample_closed 133333333 None None sample_reachable sample_Close) as [_ Hk].
  split; [reflexivity|]. split; [by apply Hk|]. by rewrite sample_Close.
Defined.

(** A start in the second group of pictures enters at its keyframe. *)
Definition sample_fragments : list fragment :=
  (fun p => mkFragment 0 0 0 0 (traf_of_track <$> pa_Tracks p)) <$> parts (media sample_closed).

Lemma sample_fragments_of : fragments_of (parts (media sample_closed)) sample_fragments.
Proof. unfold fragments_of, sample_fragments. by rewrite <- list_fmap_compose. Qed.

Lemma sample_keyframe : starts_on_keyframe (media sample_closed).
Proof.
  assert (head (smp_IsNonSyncSample <$> video_samples (media sample_closed)) = Some false) as Hh by reflexivity.
  intros s Hs. destruct (video_samples _); simplify_eq/=. done.
Qed.

Lemma sample_entry : firstFragmentForStart sample_fragments videoTrackID {[videoTrackID := 90000]} (100 * Millisecond) = 1%nat.
Proof. reflexivity. Qed.

Lemma sample_has_video : exists f t, sample_fragments !! 1%nat = Some f /\ traf f videoTrackID = Some t.
Proof.
  assert ((sample_fragments !! 1%nat ≫= fun f => traf f videoTrackID) = Some (mkTraf 1 6000 6000 true)) as E by reflexivity.
  destruct (sample_fragments !! 1%nat) as [f|]; [|discriminate E]. by exists f, (mkTraf 1 6000 6000 true).
Qed.

Lemma recorded_segment_opens_on_keyframe_witness :
  firstFragmentForStart sample_fragments videoTrackID {[videoTrackID := 90000]} (100 * Millisecond) = 1%nat /\
  opens_on_sync sample_fragments videoTrackID 1.
Proof.
  split; [exact sample_entry|].
  apply (recorded_segment_opens_on_keyframe true 2 sample_writer sample_closed 133333333 (None, None) sample_fragments {[videoTrackID := 90000]}
    (100 * Millisecond) 1 sample_reachable sample_Close sample_keyframe sample_fragments_of).
  rewrite sample_entry. split; [lia|]. split; [exact sample_has_video|]. lia.
Defined.
