(* ===== verification/RecordingConsumer.v ===== *)
(** The recording consumer ([media/recording_consumer.go]): the queue between the RTSP
    reader and the writer, the segments it opens, rotates and closes, the rows it keeps
    for them in the segment table, and how it pauses when the volume fails.

    The answers of the outside world for one packet are a record [Env]: the clock at
    each place that reads it, the disk, the creation of a file, and the results of
    [os.Stat] and [os.Remove].  The size of a file is a parameter, as is the offset of
    local time. *)

From stdpp Require Import pretty.
From S2P Require Import Prelude H264 Mp4Bytes SegmentStore SegmentWriter.

#[local] Open Scope list_scope.
#[local] Open Scope Z_scope.

(** ** File names *)

Definition digit (n : Z) : string := String (Ascii.ascii_of_nat (48 + Z.to_nat (n mod 10))) "".
Definition pad2 (n : Z) : string := (digit (n / 10) ++ digit n)%string.
Definition pad4 (n : Z) : string := (pad2 (n / 100) ++ pad2 n)%string.

(** The year, month and day of a number of days since the first of January of year one. *)
Definition civil (days : Z) : Z * Z * Z :=
  let z := days + 306 in
  let era := z / 146097 in
  let doe := z mod 146097 in
  let yoe := (doe - doe / 1460 + doe / 36524 - doe / 146096) / 365 in
  let doy := doe - (365 * yoe + yoe / 4 - yoe / 100) in
  let mp := (5 * doy + 2) / 153 in
  let m := if mp <? 10 then mp + 3 else mp - 9 in
  (yoe + era * 400 + (if m <=? 2 then 1 else 0), m, doy - (153 * mp + 2) / 5 + 1).

(** [t.Format("2006-01-02_15-04-05")] of a local time. *)
Definition Format (local : Z) : string :=
  let s := local / Second in
  let '(y, m, d) := civil (s / 86400) in
  let s := s mod 86400 in
  (pad4 y ++ "-" ++ pad2 m ++ "-" ++ pad2 d ++ "_" ++ pad2 (s / 3600) ++ "-" ++ pad2 (s / 60 mod 60) ++ "-" ++ pad2 (s mod 60))%string.

Example Format_example : Format (63871385696 * Second) = "2025-01-02_03-34-56"%string. Proof. vm_compute. reflexivity. Qed.

(** ** The consumer *)

Record rtpMsg := mkMsg { mg_pkt : Packet; mg_video : bool }.

(** What becomes of the creation of a file: a writer, with the writes to its file that
    will succeed, an error, or no answer within the timeout. *)
Inductive Creation := Created (disk : nat -> bool) | CreateFailed | CreateStalled.

(** The places that read the clock. *)
Inductive Site := AtPause | AtDrop | AtDropClose | AtEnsure | AtCreate | AtWrite | AtGapClose | AtError | AtErrorClose | AtRotate | AtRotateClose.

Record Env := mkEnv {
  en_clock : Site -> Z;
  en_Available : Z;
  en_MinRequired : Z;
  en_create : Creation;
  en_stat : bool;
  en_remove : bool;
  en_panics : bool
}.

(** What the consumer writes to: the finished files of the volume and the segment
    table. *)
Record Volume := mkVolume { vo_files : gmap string (list Written); vo_rows : SegTable }.

Section consumer.
Context `{Codecs}.

(** What it was created with: the tracks and the offset of local time are those of the
    whole life of a consumer. *)
Record Setup := mkSetup {
  su_camera : string;
  su_segLen : Z;
  su_segDir : string;
  su_video : option (nalu * nalu * Depacketizer);
  su_aac : option AACDepacketizer;
  su_audio : option AudioTrack;
  su_offset : Z -> Z;
  su_size : list Written -> Z
}.

Variable su : Setup.

Definition diskPauseRetryInterval : Z := 30 * Second.
Definition dropRotateInterval : Z := 5 * Second.
Definition queue_capacity : nat := 512.

Record Naming := mkNaming { nm_segPath : string; nm_currentPath : string; nm_segStart : Z; nm_lastSegBase : string; nm_segDupCount : Z }.
Record Health := mkHealth { he_paused : bool; he_pausedSince : Z; he_writeErrors : Z; he_audioError : option string }.
Record Drops := mkDrops { dr_dropped : Z; dr_discontinuous : bool; dr_lastDropRotate : Z }.

Record RecordingConsumer := mkConsumer {
  rc_queue : list rtpMsg;
  rc_closed : bool;
  rc_createPending : option string;
  rc_writer : option SegmentWriter;
  rc_names : Naming;
  rc_health : Health;
  rc_drops : Drops;
  rc_volume : Volume
}.

Definition NewRecordingConsumer (v : Volume) : RecordingConsumer :=
  mkConsumer [] false None None (mkNaming "" "" zero_time "" 0) (mkHealth false zero_time 0 None) (mkDrops 0 false zero_time) v.

Definition set_queue q rc := mkConsumer q (rc_closed rc) (rc_createPending rc) (rc_writer rc) (rc_names rc) (rc_health rc) (rc_drops rc) (rc_volume rc).
Definition set_closed rc := mkConsumer (rc_queue rc) true (rc_createPending rc) (rc_writer rc) (rc_names rc) (rc_health rc) (rc_drops rc) (rc_volume rc).
Definition set_pending p rc := mkConsumer (rc_queue rc) (rc_closed rc) p (rc_writer rc) (rc_names rc) (rc_health rc) (rc_drops rc) (rc_volume rc).
Definition set_writer w rc := mkConsumer (rc_queue rc) (rc_closed rc) (rc_createPending rc) w (rc_names rc) (rc_health rc) (rc_drops rc) (rc_volume rc).
Definition set_names n rc := mkConsumer (rc_queue rc) (rc_closed rc) (rc_createPending rc) (rc_writer rc) n (rc_health rc) (rc_drops rc) (rc_volume rc).
Definition set_health h rc := mkConsumer (rc_queue rc) (rc_closed rc) (rc_createPending rc) (rc_writer rc) (rc_names rc) h (rc_drops rc) (rc_volume rc).
Definition set_drops d rc := mkConsumer (rc_queue rc) (rc_closed rc) (rc_createPending rc) (rc_writer rc) (rc_names rc) (rc_health rc) d (rc_volume rc).
Definition set_volume v rc := mkConsumer (rc_queue rc) (rc_closed rc) (rc_createPending rc) (rc_writer rc) (rc_names rc) (rc_health rc) (rc_drops rc) v.

(** No segment is open, and no path is current. *)
Definition no_segment (rc : RecordingConsumer) : RecordingConsumer :=
  let n := rc_names rc in
  set_names (mkNaming (nm_segPath n) "" (nm_segStart n) (nm_lastSegBase n) (nm_segDupCount n)) (set_writer None rc).

Definition set_writeErrors (n : Z) (rc : RecordingConsumer) : RecordingConsumer :=
  let h := rc_health rc in set_health (mkHealth (he_paused h) (he_pausedSince h) n (he_audioError h)) rc.

Definition pause (now : Z) (rc : RecordingConsumer) : RecordingConsumer :=
  let h := rc_health rc in set_health (mkHealth true now (he_writeErrors h) (he_audioError h)) rc.

Definition updateAudioError (rc : RecordingConsumer) : RecordingConsumer :=
  match rc_writer rc with
  | None => rc
  | Some sw => let h := rc_health rc in set_health (mkHealth (he_paused h) (he_pausedSince h) (he_writeErrors h) (sw_audioErr sw)) rc
  end.

(** ** The queue *)

Definition noteDrop (rc : RecordingConsumer) : RecordingConsumer :=
  let d := rc_drops rc in set_drops (mkDrops (i64 (dr_dropped d + 1)) true (dr_lastDropRotate d)) rc.

Definition offer_packet (m : rtpMsg) (rc : RecordingConsumer) : RecordingConsumer :=
  if rc_closed rc then rc
  else if (length (rc_queue rc) <? queue_capacity)%nat then set_queue (rc_queue rc ++ [m]) rc
  else noteDrop rc.

Definition OnVideoRTP (pkt : Packet) : RecordingConsumer -> RecordingConsumer := offer_packet (mkMsg pkt true).
Definition OnAudioRTP (pkt : Packet) : RecordingConsumer -> RecordingConsumer := offer_packet (mkMsg pkt false).

(** ** Segments *)

(** The row of a segment, as the recorder's callback saves it. *)
Definition register (path : string) (start end_ size : Z) (rc : RecordingConsumer) : RecordingConsumer :=
  let v := rc_volume rc in
  set_volume (mkVolume (vo_files v) (SaveSegment (mkSegment 0 (su_camera su) path start end_ size false 0 0 "") (vo_rows v))) rc.

Definition removeSegment (env : Env) (rc : RecordingConsumer) : RecordingConsumer :=
  let path := nm_segPath (rc_names rc) in
  if bool_decide (path = ""%string) then rc
  else
    let v := rc_volume rc in
    set_volume (mkVolume (if en_remove env then delete path (vo_files v) else vo_files v) (DeleteSegment path (vo_rows v))) rc.

Definition closeCurrentSegment (env : Env) (now : Z) (rc : RecordingConsumer) : RecordingConsumer :=
  match rc_writer rc with
  | None => rc
  | Some sw =>
      let path := nm_segPath (rc_names rc) in
      let '(sw, duration, (flushErr, gopErr)) := Close now sw in
      let closeErr := match flushErr, gopErr with None, None => false | _, _ => true end in
      let rc := updateAudioError (set_writer (Some sw) rc) in
      let start := StartTime sw in
      let duration := if closeErr then FlushedDuration sw else duration in
      let v := rc_volume rc in
      let rc := set_volume (mkVolume (<[path := sk_file (sw_sink sw)]> (vo_files v)) (vo_rows v)) rc in
      let size := su_size su (sk_file (sw_sink sw)) in
      no_segment
        (if negb (en_stat env) || (size =? 0) || (closeErr && (duration =? 0)) then removeSegment env rc
         else register path start (Add start duration) size rc)
  end.

Definition OnDisconnect (env : Env) (now : Z) (rc : RecordingConsumer) : RecordingConsumer := closeCurrentSegment env now rc.

Definition rotateAtDiscontinuity (env : Env) (rc : RecordingConsumer) : RecordingConsumer :=
  match rc_writer rc with
  | None => rc
  | Some sw =>
      let d := rc_drops rc in
      if negb (HasMedia sw) then rc
      else if negb (IsZero (dr_lastDropRotate d)) && (Sub (en_clock env AtDrop) (dr_lastDropRotate d) <? dropRotateInterval) then rc
      else closeCurrentSegment env (en_clock env AtDropClose)
             (set_drops (mkDrops (dr_dropped d) (dr_discontinuous d) (en_clock env AtDrop)) rc)
  end.

Definition discardWriterAfterPanic (env : Env) (rc : RecordingConsumer) : RecordingConsumer :=
  match rc_writer rc with None => rc | Some _ => no_segment (removeSegment env rc) end.

Definition handlePaused (env : Env) (rc : RecordingConsumer) : RecordingConsumer :=
  let now := en_clock env AtPause in
  let h := rc_health rc in
  if Sub now (he_pausedSince h) <? diskPauseRetryInterval then rc
  else if en_Available env <? en_MinRequired env then pause now rc
  else set_health (mkHealth false (he_pausedSince h) 0 (he_audioError h)) rc.

Definition handleWriteError (env : Env) (rc : RecordingConsumer) : RecordingConsumer :=
  let n := he_writeErrors (rc_health rc) + 1 in
  let rc := set_writeErrors n rc in
  if 3 <=? n then pause (en_clock env AtError) (closeCurrentSegment env (en_clock env AtErrorClose) rc) else rc.

(** The name of the next segment. *)
Definition next_name (now : Z) (n : Naming) : Naming :=
  let base := Format (now + su_offset su now) in
  let '(base, last, dup) :=
    if String.eqb base (nm_lastSegBase n) then ((base ++ "_" ++ pretty (nm_segDupCount n + 1))%string, nm_lastSegBase n, nm_segDupCount n + 1)
    else (base, base, 0) in
  mkNaming (su_segDir su ++ "/" ++ base ++ ".mp4")%string (nm_currentPath n) now last dup.

(** [true]: a segment is open. *)
Definition ensureSegment (env : Env) (rc : RecordingConsumer) : RecordingConsumer * bool :=
  match rc_writer rc with
  | Some _ => (rc, true)
  | None =>
      match rc_createPending rc with
      | Some _ => (rc, false)
      | None =>
          let now := en_clock env AtEnsure in
          if en_Available env <? en_MinRequired env then (pause now rc, false)
          else
            let n := next_name now (rc_names rc) in
            let rc := set_names n rc in
            match en_create env with
            | CreateFailed => (rc, false)
            | CreateStalled => (set_pending (Some (nm_segPath n)) rc, false)
            | Created disk =>
                let sw := NewSegmentWriter disk (en_clock env AtCreate) (su_video su) (su_aac su) (su_audio su) in
                let rc := updateAudioError (set_writer (Some sw) rc) in
                let rc := set_names (mkNaming (nm_segPath n) (nm_segPath n) now (nm_lastSegBase n) (nm_segDupCount n)) rc in
                let v := rc_volume rc in
                let rc := set_volume (mkVolume (<[nm_segPath n := []]> (vo_files v)) (vo_rows v)) rc in
                (register (nm_segPath n) now (Add now (su_segLen su)) 0 rc, true)
            end
      end
  end.

(** The creation that stalled ends at last; a file it made is closed and removed. *)
Definition reap (made removed : bool) (rc : RecordingConsumer) : RecordingConsumer :=
  match rc_createPending rc with
  | None => rc
  | Some path =>
      let v := rc_volume rc in
      set_volume (mkVolume (if made && removed then delete path (vo_files v) else vo_files v) (vo_rows v)) (set_pending None rc)
  end.

Definition maybeRotate (env : Env) (rc : RecordingConsumer) : RecordingConsumer :=
  if Sub (en_clock env AtRotate) (nm_segStart (rc_names rc)) <? su_segLen su then rc
  else closeCurrentSegment env (en_clock env AtRotateClose) rc.

(** A write to the open segment. *)
Definition write_open (env : Env) (pkt : Packet) (rc : RecordingConsumer) : RecordingConsumer * option WriteError :=
  match rc_writer rc with
  | None => (rc, None)
  | Some sw => let '(sw, e) := WriteVideo (en_clock env AtWrite) pkt sw in (set_writer (Some sw) rc, e)
  end.

(** What follows a write. *)
Definition after_write (env : Env) (r : RecordingConsumer * option WriteError) : RecordingConsumer :=
  match r with
  | (rc, Some _) => handleWriteError env rc
  | (rc, None) => maybeRotate env (set_writeErrors 0 rc)
  end.

Definition processVideo (env : Env) (pkt : Packet) (rc : RecordingConsumer) : RecordingConsumer :=
  updateAudioError
    match ensureSegment env rc with
    | (rc, false) => handleWriteError env rc
    | (rc, true) =>
        match write_open env pkt rc with
        | (rc, Some ErrTimestampGap) =>
            match ensureSegment env (closeCurrentSegment env (en_clock env AtGapClose) rc) with
            | (rc, false) => handleWriteError env rc
            | (rc, true) => after_write env (write_open env pkt rc)
            end
        | r => after_write env r
        end
    end.

Definition processAudio (env : Env) (pkt : Packet) (rc : RecordingConsumer) : RecordingConsumer :=
  match rc_writer rc with
  | None => rc
  | Some sw =>
      let '(sw, e) := WriteAudio (en_clock env AtWrite) pkt sw in
      let rc := set_writer (Some sw) rc in
      updateAudioError match e with None => rc | Some _ => handleWriteError env rc end
  end.

Definition swap_discontinuous (rc : RecordingConsumer) : RecordingConsumer :=
  let d := rc_drops rc in set_drops (mkDrops (dr_dropped d) false (dr_lastDropRotate d)) rc.

(** One packet.  A panic strikes while it is written: the segment is open by then, and
    is discarded. *)
Definition dispatch (env : Env) (m : rtpMsg) (rc : RecordingConsumer) : RecordingConsumer :=
  if he_paused (rc_health rc) then handlePaused env rc
  else
    let rc := if dr_discontinuous (rc_drops rc) then rotateAtDiscontinuity env (swap_discontinuous rc) else rc in
    if en_panics env then
      if mg_video m then
        match ensureSegment env rc with
        | (rc, false) => updateAudioError (handleWriteError env rc)
        | (rc, true) => discardWriterAfterPanic env (updateAudioError rc)
        end
      else discardWriterAfterPanic env rc
    else if mg_video m then processVideo env (mg_pkt m) rc else processAudio env (mg_pkt m) rc.

(** A turn of the processing loop. *)
Definition process_one (env : Env) (rc : RecordingConsumer) : RecordingConsumer :=
  match rc_queue rc with
  | [] => rc
  | m :: q => dispatch env m (set_queue q rc)
  end.

(** What is still queued, each packet with its circumstances. *)
Fixpoint drain (envs : nat -> Env) (i : nat) (q : list rtpMsg) (rc : RecordingConsumer) : RecordingConsumer :=
  match q with
  | [] => rc
  | m :: q => drain envs (S i) q (dispatch (envs i) m (set_queue q rc))
  end.

Definition CloseConsumer (envs : nat -> Env) (last : Env) (now : Z) (rc : RecordingConsumer) : RecordingConsumer :=
  if rc_closed rc then rc else closeCurrentSegment last now (drain envs 0 (rc_queue rc) (set_closed rc)).

End consumer.
