(* ===== verification/RecordingConsumerTheorems.v ===== *)
(** What the recording consumer guarantees: every row it leaves in the segment table
    describes the file it names, open segments are registered and bounded in length,
    and a paused recording resumes. *)

From S2P Require Import Prelude Mp4Bytes SegmentStore SegmentWriter SegmentWriterTheorems RecordingConsumer RecordedSegments.

#[local] Open Scope list_scope.
#[local] Open Scope Z_scope.

Section theorems.
Context `{Codecs}.
Variable su : Setup.

(** ** Rows *)

Definition file_video (content : list Written) : Z := samples_duration (parts_of content ≫= part_video).

(** The row of a writer that was closed without an error and left a file without video:
    it claims the time between the creation of the file and its closing. *)
Definition unmeasured (content : list Written) (r : SegmentRecord) : Prop :=
  exists c sw now sw', reachable c sw /\ Close now sw = (sw', Sub now (sw_startTime sw'), (None, None)) /\ content = sk_file (sw_sink sw') /\
    sg_StartTime r = StartTime sw' /\ sg_EndTime r = Add (StartTime sw') (Sub now (sw_startTime sw')).

(** What a finished row says of its file: how large it is, and how much video it holds, if
    it holds any. *)
Definition describes (content : list Written) (r : SegmentRecord) : Prop :=
  if decide (file_video content = 0) then unmeasured content r
  else sg_EndTime r = Add (sg_StartTime r) (media_time (file_video content)).

Definition final (v : Volume) (r : SegmentRecord) : Prop :=
  exists content, vo_files v !! sg_Path r = Some content /\ sg_SizeBytes r = su_size su content /\ describes content r.

(** What a segment claims when it is closed at [now]. *)
Definition closed_duration (now : Z) (sw' : SegmentWriter) : Z :=
  let t := file_video (sk_file (sw_sink sw')) in if decide (t = 0) then Sub now (sw_startTime sw') else media_time t.

Lemma SaveSegment_rows seg t r :
  r ∈ sg_rows (SaveSegment seg t) ->
  (r ∈ sg_rows t /\ sg_Path r <> sg_Path seg) \/
  (sg_Path r = sg_Path seg /\ sg_StartTime r = sg_StartTime seg /\ sg_EndTime r = sg_EndTime seg /\ sg_SizeBytes r = sg_SizeBytes seg).
Proof.
  unfold SaveSegment. destruct (existsb _ _) eqn:E; cbn [sg_rows].
  - intros (r0 & -> & Hr)%list_elem_of_fmap. unfold update_row. destruct (same_path _ r0) eqn:Ep; [right|left].
    + apply String.eqb_eq in Ep. by cbn.
    + split; [done|]. by apply String.eqb_neq in Ep.
  - intros [Hr|Hr%list_elem_of_singleton]%elem_of_app; [left|right; by subst].
    split; [done|]. intros Hp. apply not_true_iff_false in E. apply E, existsb_exists. exists r.
    split; [by apply list_elem_of_In|]. by apply String.eqb_eq.
Qed.

Lemma SaveSegment_saves seg t : sg_Path seg ∈ sg_Path <$> sg_rows (SaveSegment seg t).
Proof.
  unfold SaveSegment. destruct (existsb _ _) eqn:E; cbn [sg_rows].
  - apply existsb_exists in E as (r & Hr & Ep). apply list_elem_of_In in Hr. rewrite <- list_fmap_compose.
    apply list_elem_of_fmap. exists r. split; [|done]. cbn. unfold update_row. rewrite Ep. by apply String.eqb_eq in Ep.
  - rewrite fmap_app. apply elem_of_app. right. by left.
Qed.



Lemma SaveSegment_others seg t p : p <> sg_Path seg -> p ∈ sg_Path <$> sg_rows (SaveSegment seg t) -> p ∈ sg_Path <$> sg_rows t.
Proof.
  intros Hp (r & -> & Hr)%list_elem_of_fmap. destruct (SaveSegment_rows seg t r Hr) as [[Hin _]|[E _]]; [|done].
  by apply list_elem_of_fmap_2.
Qed.

Lemma DeleteSegment_rows path t r : r ∈ sg_rows (DeleteSegment path t) <-> r ∈ sg_rows t /\ sg_Path r <> path.
Proof. unfold DeleteSegment. cbn. rewrite list_elem_of_filter. tauto. Qed.

(** ** The invariant *)

Definition rows (rc : RecordingConsumer) : list SegmentRecord := sg_rows (vo_rows (rc_volume rc)).

Record consumer_ok (rc : RecordingConsumer) : Prop := {
  ok_closed : rc_writer rc = None -> nm_currentPath (rc_names rc) = ""%string;
  ok_open : forall sw, rc_writer rc = Some sw ->
    nm_currentPath (rc_names rc) = nm_segPath (rc_names rc) /\ nm_segPath (rc_names rc) <> ""%string /\
    rc_createPending rc = None /\ he_paused (rc_health rc) = false /\
    nm_segPath (rc_names rc) ∈ sg_Path <$> rows rc /\ exists c, reachable c sw;
  ok_rows : forall r, r ∈ rows rc -> (is_Some (rc_writer rc) /\ nm_currentPath (rc_names rc) = sg_Path r) \/ final (rc_volume rc) r;
  ok_pending : forall p, rc_createPending rc = Some p -> p ∉ sg_Path <$> rows rc
}.

Lemma final_other v r path content : sg_Path r <> path -> final v r -> final (mkVolume (<[path := content]> (vo_files v)) (vo_rows v)) r.
Proof. intros Hp (c & Hc & Hf). exists c. split; [|done]. cbn. by rewrite lookup_insert_ne. Qed.

Lemma final_delete v r path rows' : sg_Path r <> path -> final v r -> final (mkVolume (delete path (vo_files v)) rows') r.
Proof. intros Hp (c & Hc & Hf). exists c. split; [|done]. cbn. by rewrite lookup_delete_ne. Qed.

Lemma final_files v v' r : vo_files v' = vo_files v -> final v r -> final v' r.
Proof. intros Hv (c & Hc & Hf). exists c. by rewrite Hv. Qed.

(** What matters of a consumer. *)
Lemma consumer_ok_same rc rc' :
  rc_writer rc' = rc_writer rc -> nm_currentPath (rc_names rc') = nm_currentPath (rc_names rc) ->
  nm_segPath (rc_names rc') = nm_segPath (rc_names rc) -> rc_createPending rc' = rc_createPending rc ->
  he_paused (rc_health rc') = he_paused (rc_health rc) -> rc_volume rc' = rc_volume rc -> consumer_ok rc -> consumer_ok rc'.
Proof.
  intros Hw Hc Hs Hp Hh Hv [F1 F2 F3 F4]. split; unfold rows; rewrite ?Hw, ?Hc, ?Hs, ?Hp, ?Hh, ?Hv; done.
Qed.

Lemma updateAudioError_ok rc : consumer_ok rc -> consumer_ok (updateAudioError rc).
Proof. unfold updateAudioError. destruct (rc_writer rc) eqn:E; [|done]. by apply consumer_ok_same. Qed.

(** After a write the writer is another one that can be reached. *)
Lemma set_writer_ok rc sw sw' c :
  consumer_ok rc -> rc_writer rc = Some sw -> reachable c sw' -> consumer_ok (set_writer (Some sw') rc).
Proof.
  intros [F1 F2 F3 F4] Hw Hr. split; [done| |intros r [[_ Hc]|Hf]%F3; [left; by split; [eexists|]|by right]|exact F4].
  intros sw0 [= <-]. destruct (F2 sw Hw) as (E1 & E2 & E3 & E4 & E5 & _). split_and!; try done. by exists c.
Qed.

(** The segment gone: of the volume and of the table. *)
Lemma removed_ok (env : Env) rc sw : consumer_ok rc -> rc_writer rc = Some sw -> consumer_ok (no_segment (removeSegment env rc)).
Proof.
  intros [F1 F2 F3 F4] Hw. destruct (F2 sw Hw) as (E1 & E2 & E3 & E4 & E5 & _).
  unfold removeSegment. rewrite bool_decide_eq_false_2 by done. split; cbn; [done|done| |by rewrite E3].
  intros r [Hr Hp]%DeleteSegment_rows. right. destruct (F3 r Hr) as [[_ Hc]|Hf]; [congruence|].
  destruct (en_remove env); [by apply (final_delete (rc_volume rc))|]. by apply (final_files (rc_volume rc)).
Qed.

(** The segment finished, with a row that describes it. *)
Lemma finished_ok rc sw content start end_ :
  consumer_ok rc -> rc_writer rc = Some sw -> vo_files (rc_volume rc) !! nm_segPath (rc_names rc) = Some content ->
  (forall r, sg_StartTime r = start -> sg_EndTime r = end_ -> describes content r) ->
  consumer_ok (no_segment (register su (nm_segPath (rc_names rc)) start end_ (su_size su content) rc)).
Proof.
  intros [F1 F2 F3 F4] Hw Hc He. destruct (F2 sw Hw) as (E1 & E2 & E3 & E4 & E5 & _). split; cbn; [done|done| |by rewrite E3].
  intros r Hr. right. destruct (SaveSegment_rows _ _ _ Hr) as [[Hin Hp]|(Hp & Hs & Hend & Hsize)]; cbn in *.
  - destruct (F3 r Hin) as [[_ Hcur]|Hf]; [congruence|]. by apply (final_files (rc_volume rc)).
  - exists content. cbn. rewrite Hp. split; [done|]. split; [done|]. by apply He.
Qed.

(** What the file of the open segment holds is nobody else's concern. *)
Lemma write_file_ok rc sw content :
  consumer_ok rc -> rc_writer rc = Some sw ->
  consumer_ok (set_volume (mkVolume (<[nm_segPath (rc_names rc) := content]> (vo_files (rc_volume rc))) (vo_rows (rc_volume rc))) rc).
Proof.
  intros [F1 F2 F3 F4] Hw. destruct (F2 sw Hw) as (E1 & _). split; [exact F1|exact F2| |exact F4].
  intros r Hr. destruct (F3 r Hr) as [Hc|Hf]; [by left|].
  destruct (decide (sg_Path r = nm_segPath (rc_names rc))) as [E|E]; [left; cbn; rewrite Hw, E1; by split; [eexists|]|].
  right. by apply final_other.
Qed.

(** What closing says of the file it leaves. *)
Lemma Close_measures c now sw sw' d flushErr gopErr :
  reachable c sw -> Close now sw = (sw', d, (flushErr, gopErr)) ->
  sound sw' /\ let t := file_video (sk_file (sw_sink sw')) in
  FlushedDuration sw' = (if t =? 0 then 0 else media_time t) /\ (gopErr = None -> d = closed_duration now sw').
Proof.
  intros Hr Hc. destruct (Close_ok _ _ _ _ _ _ (proj1 (writer_reachable_ok _ _ Hr)) Hc) as (_ & Hs & Hw & Hd). split; [done|].
  destruct Hs as [Hm _]. pose proof (mo_flushed _ Hm) as F5. pose proof (mo_total _ Hm) as F7. cbn in F5, F7. cbn zeta.
  change (file_video (sk_file (sw_sink sw'))) with (samples_duration (written_video (media sw'))). unfold FlushedDuration. rewrite F5. split; [done|].
  intros Hg. unfold closed_duration. change (file_video (sk_file (sw_sink sw'))) with (samples_duration (written_video (media sw'))).
  rewrite (Hw Hg), <- F7. pose proof (samples_duration_range (video_samples (media sw'))) as Hrange. rewrite <- F7 in Hrange.
  cbn zeta. case_decide as E; [|apply Hd; lia]. unfold Close in Hc. destruct (drain_decoder now sw) as [sw1 fe].
  destruct (flushGOP _) as [sw3 ge]. injection Hc as <- <- _ _. by rewrite E.
Qed.

Definition close_failed (fe ge : option WriteError) : bool := match fe, ge with None, None => false | _, _ => true end.

(** What a closed segment is registered with describes its file. *)
Lemma closed_describes c now sw sw' d fe ge :
  reachable c sw -> Close now sw = (sw', d, (fe, ge)) ->
  let closeErr := close_failed fe ge in
  let dur := if closeErr then FlushedDuration sw' else d in
  closeErr && (dur =? 0) = false ->
  dur = closed_duration now sw' /\
  forall r, sg_StartTime r = StartTime sw' -> sg_EndTime r = Add (StartTime sw') dur -> describes (sk_file (sw_sink sw')) r.
Proof.
  intros Hr Hc closeErr dur Hkept. destruct (Close_measures c now sw sw' d fe ge Hr Hc) as (_ & Hf & Hd). set (t := file_video (sk_file (sw_sink sw'))) in *.
  assert (closeErr = true -> t <> 0 /\ dur = media_time t) as Herr.
  { intros E. subst dur. rewrite E in *. cbn [andb] in Hkept. rewrite Hf in *. by destruct (Z.eqb_spec t 0). }
  assert (dur = closed_duration now sw') as Hdur.
  { destruct closeErr eqn:E; [|subst dur; apply Hd; subst closeErr; by destruct fe, ge].
    destruct (Herr eq_refl) as [Ht ->]. unfold closed_duration. fold t. by rewrite decide_False. }
  split; [done|]. intros r Hs He. unfold describes. fold t. unfold closed_duration in Hdur. fold t in Hdur. cbn zeta in Hdur. case_decide as Ht.
  - assert (fe = None /\ ge = None) as [-> ->].
    { destruct closeErr eqn:E; [by destruct (Herr eq_refl)|]. subst closeErr. by destruct fe, ge. }
    exists c, sw, now, sw'. split; [done|]. split; [by rewrite Hc, <- Hdur|]. split; [done|]. split; [done|]. by rewrite He, Hdur.
  - by rewrite He, Hs, Hdur.
Qed.

(** What closing leaves of the rest. *)
Lemma closeCurrentSegment_rest (env : Env) now rc :
  let rc' := closeCurrentSegment su env now rc in
  rc_writer rc' = None /\ he_paused (rc_health rc') = he_paused (rc_health rc) /\ he_writeErrors (rc_health rc') = he_writeErrors (rc_health rc) /\
  rc_createPending rc' = rc_createPending rc /\ rc_queue rc' = rc_queue rc /\ rc_closed rc' = rc_closed rc /\ rc_drops rc' = rc_drops rc /\
  nm_lastSegBase (rc_names rc') = nm_lastSegBase (rc_names rc) /\ nm_segDupCount (rc_names rc') = nm_segDupCount (rc_names rc).
Proof.
  unfold closeCurrentSegment. destruct (rc_writer rc) as [sw|] eqn:Ew; [|by rewrite Ew].
  destruct (Close now sw) as [[sw' d] [fe ge]]. cbn zeta. destruct (_ || _); [|done]. unfold removeSegment. by destruct (bool_decide _).
Qed.

Lemma closeCurrentSegment_ok (env : Env) now rc : consumer_ok rc -> consumer_ok (closeCurrentSegment su env now rc).
Proof.
  intros Hok. unfold closeCurrentSegment. destruct (rc_writer rc) as [sw|] eqn:Ew; [|done].
  destruct (ok_open _ Hok sw Ew) as (_ & Hne & _ & _ & _ & c & Hreach).
  destruct (Close now sw) as [[sw' d] [fe ge]] eqn:Ec. pose proof (closed_describes c now sw sw' d fe ge Hreach Ec) as Hd.
  set (content := sk_file (sw_sink sw')). pose proof (write_file_ok rc sw content Hok Ew) as H1. set (rc1 := set_volume _ rc) in H1.
  unfold close_failed in Hd. cbn zeta in *. destruct (_ || _) eqn:Eremove.
  - refine (consumer_ok_same (no_segment (removeSegment env rc1)) _ _ _ _ _ _ _ (removed_ok env rc1 sw H1 Ew));
      unfold removeSegment; cbn;
      first [done|by destruct (bool_decide (nm_segPath (rc_names rc) = ""%string))].
  - apply orb_false_iff in Eremove as [_ Ekept]. set (dur := if _ : bool then FlushedDuration sw' else d) in *.
    refine (consumer_ok_same (no_segment (register su (nm_segPath (rc_names rc1)) (StartTime sw') (Add (StartTime sw') dur) (su_size su content) rc1))
      _ _ _ _ _ _ _ (finished_ok rc1 sw content _ _ H1 Ew _ _)); [done..| |].
    + cbn. by rewrite lookup_insert_eq.
    + by apply Hd.
Qed.


(** ** The other operations *)

Lemma handleWriteError_ok (env : Env) rc : consumer_ok rc -> consumer_ok (handleWriteError su env rc).
Proof.
  intros Hok. unfold handleWriteError. set (rc1 := set_writeErrors _ rc). assert (consumer_ok rc1) as H1 by (by apply (consumer_ok_same rc)).
  destruct (3 <=? _); [|done]. pose proof (closeCurrentSegment_ok env (en_clock env AtErrorClose) rc1 H1) as [F1 F2 F3 F4].
  destruct (closeCurrentSegment_rest env (en_clock env AtErrorClose) rc1) as (Hw & _).
  split; [exact F1| |exact F3|exact F4]. intros sw Hsw. cbn in Hsw. congruence.
Qed.

(** A paused consumer has no open segment. *)
Lemma pause_ok now rc : consumer_ok rc -> rc_writer rc = None -> consumer_ok (pause now rc).
Proof. intros [F1 F2 F3 F4] Hw. split; [exact F1| |exact F3|exact F4]. intros sw Hsw. cbn in Hsw. congruence. Qed.

Lemma segPath_not_empty now n : nm_segPath (next_name su now n) <> ""%string.
Proof. unfold next_name. destruct (if _ : bool then _ else _) as [[b l] d]. cbn. by destruct (su_segDir su). Qed.

(** The name a stalled creation is given is not that of a registered segment. *)
Definition fresh_if_stalled (env : Env) (rc : RecordingConsumer) : Prop :=
  en_create env = CreateStalled -> nm_segPath (next_name su (en_clock env AtEnsure) (rc_names rc)) ∉ sg_Path <$> rows rc.

Lemma ensureSegment_ok (env : Env) rc :
  consumer_ok rc -> he_paused (rc_health rc) = false -> fresh_if_stalled env rc ->
  consumer_ok (ensureSegment su env rc).1 /\
  ((ensureSegment su env rc).2 = true <-> is_Some (rc_writer (ensureSegment su env rc).1)).
Proof.
  intros Hok Hp Hfresh. unfold ensureSegment. destruct (rc_writer rc) as [sw|] eqn:Ew; [split; [done|]; cbn; rewrite Ew; by split; [eexists|]|].
  assert (forall rc', rc_writer rc' = None -> false = true <-> is_Some (rc_writer rc')) as Hnone by (intros rc' ->; split; [done|by intros []]).
  destruct (rc_createPending rc) as [p|] eqn:Ep; [split; [done|by apply Hnone]|].
  destruct (en_Available env <? en_MinRequired env); [split; [by apply pause_ok|by apply Hnone]|].
  set (n := next_name su (en_clock env AtEnsure) (rc_names rc)).
  assert (nm_currentPath n = nm_currentPath (rc_names rc)) as Hcur by (subst n; unfold next_name; by destruct (if _ : bool then _ else _) as [[b l] d]).
  pose proof (ok_closed _ Hok Ew) as Hclosed. pose proof (segPath_not_empty (en_clock env AtEnsure) (rc_names rc)) as Hne. fold n in Hne.
  assert (forall r, r ∈ rows rc -> final (rc_volume rc) r) as Hrows.
  { intros r Hr. destruct (ok_rows _ Hok r Hr) as [[[] _]|Hf]; [congruence|done]. }
  destruct (en_create env) as [disk| |] eqn:Ecr.
  - split; [|split; [by eexists|done]]. split; cbn; [done| | |by rewrite Ep].
    + intros sw [= <-]. split_and!; try done; [exact (SaveSegment_saves (mkSegment 0 (su_camera su) (nm_segPath n) _ _ 0 false 0 0 "") _)|]. exists true. apply reach_new.
    + intros r Hr. destruct (SaveSegment_rows _ _ _ Hr) as [[Hin Hpath]|(Hpath & _)]; [right|left; by split; [eexists|]].
      apply final_other; [done|]. by apply Hrows.
  - split; [|by apply Hnone]. split; cbn; [by rewrite Hcur|by rewrite Ew|intros r Hr; right; by apply Hrows|by rewrite Ep].
  - split; [|by apply Hnone]. split; cbn; [by rewrite Hcur|by rewrite Ew|intros r Hr; right; by apply Hrows|].
    intros p [= <-]. by apply Hfresh.
Qed.

Lemma closeCurrentSegment_paths (env : Env) now rc p :
  consumer_ok rc -> p ∈ sg_Path <$> rows (closeCurrentSegment su env now rc) -> p ∈ sg_Path <$> rows rc.
Proof.
  intros Hok. unfold closeCurrentSegment. destruct (rc_writer rc) as [sw|] eqn:Ew; [|done].
  destruct (ok_open _ Hok sw Ew) as (_ & _ & _ & _ & Hin & _).
  destruct (Close now sw) as [[sw' d] [fe ge]]. cbn zeta. destruct (_ || _).
  - unfold removeSegment. destruct (bool_decide _); [done|]. intros (r & -> & [Hr _]%DeleteSegment_rows)%list_elem_of_fmap.
    by apply list_elem_of_fmap_2.
  - intros Hp. destruct (decide (p = nm_segPath (rc_names rc))) as [->|Hne]; [done|].
    refine (SaveSegment_others (mkSegment 0 (su_camera su) (nm_segPath (rc_names rc)) _ _ _ false 0 0 "") _ p Hne Hp).
Qed.

Lemma next_name_path now n n' :
  nm_lastSegBase n' = nm_lastSegBase n -> nm_segDupCount n' = nm_segDupCount n -> nm_segPath (next_name su now n') = nm_segPath (next_name su now n).
Proof. intros Hb Hd. unfold next_name. rewrite Hb, Hd. by destruct (String.eqb _ _). Qed.

Lemma fresh_closed (env env' : Env) now rc :
  consumer_ok rc -> fresh_if_stalled env rc -> fresh_if_stalled env (closeCurrentSegment su env' now rc).
Proof.
  intros Hok Hf Hs. destruct (closeCurrentSegment_rest env' now rc) as (_ & _ & _ & _ & _ & _ & _ & Hbase & Hdup).
  intros Hin%closeCurrentSegment_paths; [|done]. apply (Hf Hs). by rewrite (next_name_path _ _ _ Hbase Hdup) in Hin.
Qed.

Lemma fresh_same (env : Env) rc rc' : rc_names rc' = rc_names rc -> rc_volume rc' = rc_volume rc -> fresh_if_stalled env rc -> fresh_if_stalled env rc'.
Proof. unfold fresh_if_stalled, rows. by intros -> ->. Qed.

Lemma maybeRotate_ok (env : Env) rc : consumer_ok rc -> consumer_ok (maybeRotate su env rc).
Proof. intros Hok. unfold maybeRotate. destruct (_ <? _); [done|]. by apply closeCurrentSegment_ok. Qed.

Lemma write_open_ok (env : Env) pkt rc : consumer_ok rc -> consumer_ok (write_open env pkt rc).1.
Proof.
  intros Hok. unfold write_open. destruct (rc_writer rc) as [sw|] eqn:Ew; [|done].
  destruct (ok_open _ Hok sw Ew) as (_ & _ & _ & _ & _ & c & Hr). destruct (WriteVideo _ pkt sw) as [sw' e] eqn:E.
  apply (set_writer_ok rc sw sw' (c && accepted e)); [done..|]. by apply (reach_video c (en_clock env AtWrite) pkt sw).
Qed.

Lemma after_write_ok (env : Env) r : consumer_ok r.1 -> consumer_ok (after_write su env r).
Proof.
  destruct r as [rc [e|]]; cbn; intros Hok; [by apply handleWriteError_ok|]. apply maybeRotate_ok. by apply (consumer_ok_same rc).
Qed.

Lemma ensure_creates (env : Env) rc : rc_writer rc = None -> (ensureSegment su env rc).2 = true -> en_create env <> CreateStalled.
Proof.
  intros Hw. unfold ensureSegment. rewrite Hw. destruct (rc_createPending rc); [done|]. destruct (_ <? _); [done|]. by destruct (en_create env).
Qed.

Lemma processVideo_ok (env : Env) pkt rc :
  consumer_ok rc -> he_paused (rc_health rc) = false -> fresh_if_stalled env rc -> consumer_ok (processVideo su env pkt rc).
Proof.
  intros Hok Hp Hf. unfold processVideo. apply updateAudioError_ok.
  destruct (ensureSegment_ok env rc Hok Hp Hf) as [H1 Hopen]. pose proof (ensure_creates env rc) as Hcr.
  assert (rc_writer rc <> None -> (ensureSegment su env rc).1 = rc) as Hsame by (unfold ensureSegment; by destruct (rc_writer rc)).
  destruct (ensureSegment su env rc) as [rc1 [|]]; cbn [fst snd] in *; [|by apply handleWriteError_ok].
  destruct (proj1 Hopen eq_refl) as [sw Hsw]. pose proof (write_open_ok env pkt rc1 H1) as H2.
  assert (fresh_if_stalled env (write_open env pkt rc1).1) as H2f.
  { destruct (decide (rc_writer rc = None)) as [Hn|Hn]; [intros Hs; by destruct (Hcr Hn eq_refl)|].
    rewrite (Hsame Hn). apply (fresh_same env rc); unfold write_open; [..|done]; (destruct (rc_writer rc) as [s|]; [|done]);
      by destruct (WriteVideo (en_clock env AtWrite) pkt s). }
  assert (rc_writer (write_open env pkt rc1).1 <> None) as H2w
    by (unfold write_open; rewrite Hsw; by destruct (WriteVideo (en_clock env AtWrite) pkt sw)).
  destruct (write_open env pkt rc1) as [rc2 e]. cbn [fst] in *.
  assert (consumer_ok (after_write su env (rc2, e))) as Hafter by by apply after_write_ok.
  destruct e as [[]|]; [|done..]. set (rc3 := closeCurrentSegment _ _ _ rc2).
  assert (consumer_ok rc3) as H3 by by apply closeCurrentSegment_ok.
  destruct (ensureSegment_ok env rc3) as [H4 _]; [done| |by apply fresh_closed|].
  { subst rc3. rewrite (proj1 (proj2 (closeCurrentSegment_rest env _ rc2))). destruct (rc_writer rc2) as [s|] eqn:E; [|done].
    by destruct (ok_open _ H2 s E) as (_ & _ & _ & Hpaused & _). }
  destruct (ensureSegment su env rc3) as [rc4 [|]]; cbn [fst] in *; [|by apply handleWriteError_ok].
  apply after_write_ok. by apply write_open_ok.
Qed.

Lemma processAudio_ok (env : Env) pkt rc : consumer_ok rc -> consumer_ok (processAudio su env pkt rc).
Proof.
  intros Hok. unfold processAudio. destruct (rc_writer rc) as [sw|] eqn:Ew; [|done].
  destruct (ok_open _ Hok sw Ew) as (_ & _ & _ & _ & _ & c & Hr). destruct (WriteAudio _ pkt sw) as [sw' e] eqn:E.
  assert (consumer_ok (set_writer (Some sw') rc)) as H1.
  { apply (set_writer_ok rc sw sw' (c && accepted e)); [done..|]. by apply (reach_audio c (en_clock env AtWrite) pkt sw). }
  apply updateAudioError_ok. destruct e; [by apply handleWriteError_ok|done].
Qed.

Lemma discard_ok (env : Env) rc : consumer_ok rc -> consumer_ok (discardWriterAfterPanic env rc).
Proof. intros Hok. unfold discardWriterAfterPanic. destruct (rc_writer rc) as [sw|] eqn:E; [|done]. by apply (removed_ok env rc sw). Qed.

Lemma handlePaused_ok (env : Env) rc : consumer_ok rc -> he_paused (rc_health rc) = true -> consumer_ok (handlePaused env rc).
Proof.
  intros Hok Hp. assert (rc_writer rc = None) as Hw.
  { destruct (rc_writer rc) as [sw|] eqn:E; [|done]. destruct (ok_open _ Hok sw E) as (_ & _ & _ & Hf & _). congruence. }
  unfold handlePaused. destruct (_ <? _); [done|]. destruct (_ <? _); [by apply pause_ok|].
  destruct Hok as [F1 F2 F3 F4]. split; [exact F1| |exact F3|exact F4]. intros sw Hsw. cbn in Hsw. congruence.
Qed.

Lemma rotateAtDiscontinuity_ok (env : Env) rc :
  consumer_ok rc -> he_paused (rc_health rc) = false -> fresh_if_stalled env rc ->
  let rc' := rotateAtDiscontinuity su env rc in consumer_ok rc' /\ he_paused (rc_health rc') = false /\ fresh_if_stalled env rc'.
Proof.
  intros Hok Hp Hf. unfold rotateAtDiscontinuity. destruct (rc_writer rc); [|done]. destruct (negb _); [done|]. destruct (_ && _); [done|].
  set (rc1 := set_drops _ rc). assert (consumer_ok rc1) as H1 by (by apply (consumer_ok_same rc)).
  split; [by apply closeCurrentSegment_ok|]. split; [|by apply fresh_closed].
  by rewrite (proj1 (proj2 (closeCurrentSegment_rest env (en_clock env AtDropClose) rc1))).
Qed.

Lemma dispatch_ok (env : Env) m rc : consumer_ok rc -> fresh_if_stalled env rc -> consumer_ok (dispatch su env m rc).
Proof.
  intros Hok Hf. unfold dispatch. destruct (he_paused (rc_health rc)) eqn:Hp; [by apply handlePaused_ok|].
  set (rc1 := if dr_discontinuous (rc_drops rc) then _ else _).
  assert (consumer_ok rc1 /\ he_paused (rc_health rc1) = false /\ fresh_if_stalled env rc1) as (H1 & Hp1 & Hf1).
  { subst rc1. destruct (dr_discontinuous _); [|done]. apply rotateAtDiscontinuity_ok; [by apply (consumer_ok_same rc)|done|done]. }
  destruct (en_panics env).
  - destruct (mg_video m); [|by apply discard_ok]. destruct (ensureSegment_ok env rc1 H1 Hp1 Hf1) as [H2 _].
    destruct (ensureSegment su env rc1) as [rc2 [|]]; cbn [fst] in H2; [by apply discard_ok, updateAudioError_ok|].
    by apply updateAudioError_ok, handleWriteError_ok.
  - destruct (mg_video m); [by apply processVideo_ok|by apply processAudio_ok].
Qed.

(** ** The consumers there are *)

(** A volume whose rows describe its files. *)
Definition volume_ok (v : Volume) : Prop := forall r, r ∈ sg_rows (vo_rows v) -> final v r.

Inductive consumer_reachable : RecordingConsumer -> Prop :=
| cr_new v : volume_ok v -> consumer_reachable (NewRecordingConsumer v)
| cr_offer m rc : consumer_reachable rc -> consumer_reachable (offer_packet m rc)
| cr_process env rc : consumer_reachable rc -> fresh_if_stalled env rc -> consumer_reachable (process_one su env rc)
| cr_disconnect env now rc : consumer_reachable rc -> consumer_reachable (OnDisconnect su env now rc)
| cr_reap made removed rc : consumer_reachable rc -> consumer_reachable (reap made removed rc)
| cr_close envs last now rc :
    consumer_reachable rc -> (forall i, en_create (envs i) <> CreateStalled) -> consumer_reachable (CloseConsumer su envs last now rc).

Lemma offer_ok m rc : consumer_ok rc -> consumer_ok (offer_packet m rc).
Proof. intros Hok. unfold offer_packet. destruct (rc_closed rc); [done|]. destruct (_ <? _)%nat; by apply (consumer_ok_same rc). Qed.

Lemma reap_ok made removed rc : consumer_ok rc -> consumer_ok (reap made removed rc).
Proof.
  intros Hok. unfold reap. destruct (rc_createPending rc) as [p|] eqn:Ep; [|done]. pose proof (ok_pending _ Hok p Ep) as Hnew.
  destruct Hok as [F1 F2 F3 F4]. split; [exact F1| | |done].
  - intros sw Hsw. destruct (F2 sw Hsw) as (_ & _ & Hn & _). congruence.
  - intros r Hr. destruct (F3 r Hr) as [Hc|Hf]; [by left|right].
    destruct (made && removed); [|by apply (final_files (rc_volume rc))]. apply (final_delete (rc_volume rc)); [|done].
    intros E. apply Hnew. rewrite <- E. by apply list_elem_of_fmap_2.
Qed.

Lemma drain_ok envs q : forall i rc,
  (forall i, en_create (envs i) <> CreateStalled) -> consumer_ok rc -> consumer_ok (drain su envs i q rc).
Proof.
  induction q as [|m q IH]; intros i rc He Hok; [done|]. cbn [drain]. apply IH; [done|]. apply dispatch_ok; [by apply (consumer_ok_same rc)|].
  intros Hs. by destruct (He i).
Qed.

Lemma CloseConsumer_ok envs last now rc :
  (forall i, en_create (envs i) <> CreateStalled) -> consumer_ok rc -> consumer_ok (CloseConsumer su envs last now rc).
Proof.
  intros He Hok. unfold CloseConsumer. destruct (rc_closed rc); [done|]. apply closeCurrentSegment_ok, drain_ok; [done|].
  by apply (consumer_ok_same rc).
Qed.

Lemma consumer_reachable_ok rc : consumer_reachable rc -> consumer_ok rc.
Proof.
  induction 1 as [v Hv|m rc _ IH|env rc _ IH Hf|env now rc _ IH|made removed rc _ IH|envs last now rc _ IH He].
  - split; [done|done| |done]. intros r Hr. right. by apply Hv.
  - by apply offer_ok.
  - unfold process_one. destruct (rc_queue rc); [done|]. apply dispatch_ok; [by apply (consumer_ok_same rc)|done].
  - by apply closeCurrentSegment_ok.
  - by apply reap_ok.
  - by apply CloseConsumer_ok.
Qed.

(** ** The properties *)


(** No segment grows past its length: a video packet that was written leaves no segment
    open that has reached it. *)
Lemma segments_are_bounded (env : Env) pkt rc :
  0 <= he_writeErrors (rc_health rc) ->
  let rc' := processVideo su env pkt rc in
  he_writeErrors (rc_health rc') = 0 -> rc_writer rc' = None \/ Sub (en_clock env AtRotate) (nm_segStart (rc_names rc')) < su_segLen su.
Proof.
  intros Hn. assert (forall rc, rc_writer (updateAudioError rc) = rc_writer rc /\ rc_names (updateAudioError rc) = rc_names rc /\
    he_writeErrors (rc_health (updateAudioError rc)) = he_writeErrors (rc_health rc)) as Hu.
  { intros rc0. unfold updateAudioError. destruct (rc_writer rc0) eqn:E; cbn; by rewrite E. }
  assert (forall rc, 0 <= he_writeErrors (rc_health rc) -> he_writeErrors (rc_health (handleWriteError su env rc)) <> 0) as Hh.
  { intros rc0 H0. unfold handleWriteError. destruct (3 <=? _).
    - cbn. rewrite (proj1 (proj2 (proj2 (closeCurrentSegment_rest env _ _)))). cbn. lia.
    - cbn. lia. }
  assert (forall rc, he_writeErrors (rc_health (ensureSegment su env rc).1) = he_writeErrors (rc_health rc)) as Hens.
  { intros rc0. unfold ensureSegment. destruct (rc_writer rc0); [done|]. destruct (rc_createPending rc0); [done|]. destruct (_ <? _); [done|].
    by destruct (en_create env). }
  assert (forall rc, he_writeErrors (rc_health (write_open env pkt rc).1) = he_writeErrors (rc_health rc)) as Hwr.
  { intros rc0. unfold write_open. destruct (rc_writer rc0) as [sw|]; [|done]. by destruct (WriteVideo (en_clock env AtWrite) pkt sw). }
  assert (forall r, 0 <= he_writeErrors (rc_health r.1) -> he_writeErrors (rc_health (after_write su env r)) = 0 ->
    rc_writer (after_write su env r) = None \/ Sub (en_clock env AtRotate) (nm_segStart (rc_names (after_write su env r))) < su_segLen su) as Haf.
  { intros [rc0 [e|]] H0 Hz; cbn in *; [by destruct (Hh rc0 H0)|]. unfold maybeRotate. destruct (Z.ltb_spec (Sub (en_clock env AtRotate) (nm_segStart (rc_names rc0))) (su_segLen su)).
    - right. cbn. rewrite (proj2 (Z.ltb_lt _ _)) by done. done.
    - left. cbn. rewrite (proj2 (Z.ltb_ge _ _)) by done. apply closeCurrentSegment_rest. }
  unfold processVideo. rewrite (proj1 (Hu _)), (proj1 (proj2 (Hu _))), (proj2 (proj2 (Hu _))).
  specialize (Hens rc) as H1. destruct (ensureSegment su env rc) as [rc1 [|]]; cbn [fst] in H1; [|intros Hz; by destruct (Hh rc1); [rewrite H1|]].
  specialize (Hwr rc1) as H2. destruct (write_open env pkt rc1) as [rc2 e]; cbn [fst] in H2.
  destruct e as [[]|]; try (apply Haf; cbn; by rewrite H2, H1).
  set (rc3 := closeCurrentSegment su env _ rc2). assert (he_writeErrors (rc_health rc3) = he_writeErrors (rc_health rc2)) as H3 by apply closeCurrentSegment_rest.
  specialize (Hens rc3) as H4. destruct (ensureSegment su env rc3) as [rc4 [|]]; cbn [fst] in H4; [|intros Hz; by destruct (Hh rc4); [rewrite H4, H3, H2, H1|]].
  apply Haf. by rewrite Hwr, H4, H3, H2, H1.
Qed.

(** A paused recording resumes: once the volume has room and half a minute has passed, a
    packet ends the pause, and the next video packet opens a segment with its row. *)
Lemma recording_resumes (env env' : Env) m rc disk :
  consumer_reachable rc -> he_paused (rc_health rc) = true -> rc_createPending rc = None ->
  diskPauseRetryInterval <= Sub (en_clock env AtPause) (he_pausedSince (rc_health rc)) ->
  en_MinRequired env <= en_Available env -> en_MinRequired env' <= en_Available env' -> en_create env' = Created disk ->
  let rc1 := dispatch su env m rc in
  let rc2 := (ensureSegment su env' rc1).1 in
  he_paused (rc_health rc1) = false /\ he_writeErrors (rc_health rc1) = 0 /\ (ensureSegment su env' rc1).2 = true /\
  nm_currentPath (rc_names rc2) = nm_segPath (next_name su (en_clock env' AtEnsure) (rc_names rc)) /\
  nm_currentPath (rc_names rc2) ∈ sg_Path <$> rows rc2.
Proof.
  intros Hr Hp Hpend Hwait Hroom Hroom' Hcr rc1 rc2. pose proof (consumer_reachable_ok _ Hr) as Hok.
  assert (rc_writer rc = None) as Hw.
  { destruct (rc_writer rc) as [sw|] eqn:E; [|done]. destruct (ok_open _ Hok sw E) as (_ & _ & _ & Hf & _). congruence. }
  subst rc1 rc2. unfold dispatch. rewrite Hp. unfold handlePaused. rewrite (proj2 (Z.ltb_ge _ _) Hwait), (proj2 (Z.ltb_ge _ _) Hroom).
  cbn. unfold ensureSegment. cbn. rewrite Hw, Hpend, (proj2 (Z.ltb_ge _ _) Hroom'), Hcr. cbn. split_and!; try done.
  exact (SaveSegment_saves (mkSegment 0 (su_camera su) _ _ _ 0 false 0 0 "") _).
Qed.

End theorems.

(** ** Instances *)

#[local] Existing Instance sample_codecs.

(** Summer time ends at [4000] seconds: the offset drops from two hours to one. *)
Definition sample_setup : Setup :=
  mkSetup "cam" (600 * Second) "/rec/cam" (Some ([0x67], [0x68], [])) None None
    (fun now => if now <? 4000 * Second then 7200 * Second else 3600 * Second) (fun content => Z.of_nat (length content)).

Definition at_time (now : Z) : Env := mkEnv (fun _ => now) 1000 100 (Created (fun _ => true)) true true false.

Definition sample_volume : Volume := mkVolume ∅ (mkSegTable [] 0).

Definition fed (l : list Packet) (now : Z) (rc : RecordingConsumer) : RecordingConsumer :=
  fold_left (fun rc p => process_one sample_setup (at_time now) (OnVideoRTP p rc)) l rc.

Lemma fed_reachable l now rc : consumer_reachable sample_setup rc -> consumer_reachable sample_setup (fed l now rc).
Proof.
  revert rc. induction l as [|p l IH]; intros rc Hr; [done|]. cbn [fed fold_left]. apply IH. apply cr_process; [|intros Hs; discriminate Hs].
  by apply cr_offer.
Qed.

Definition sample_consumer : RecordingConsumer :=
  fed [unit_at 0 0x65; unit_at 3000 0x41; unit_at 6000 0x65; unit_at 9000 0x41] (1000 * Second) (NewRecordingConsumer sample_volume).

Lemma sample_consumer_reachable : consumer_reachable sample_setup sample_consumer.
Proof. apply fed_reachable, cr_new. intros r Hr. by apply elem_of_nil in Hr. Qed.


(** A torn initialization is promised as a recording: the write of it fails, the camera
    goes away ten minutes later, and the file without a frame keeps a row of ten minutes. *)
Lemma torn_init_is_promised :
  let at_ now := mkEnv (fun _ => now) 1000 100 (Created (fun n => negb (n =? 0)%nat)) true true false in
  let fed_torn now rc p := process_one sample_setup (at_ now) (OnVideoRTP p rc) in
  let rc := fold_left (fed_torn (1000 * Second)) [unit_at 0 0x65; unit_at 3000 0x41] (NewRecordingConsumer sample_volume) in
  let rc' := OnDisconnect sample_setup (at_ 0) (1600 * Second) rc in
  consumer_reachable sample_setup rc' /\
  (fun r => (sg_Path r, sg_EndTime r - sg_StartTime r)) <$> rows rc' = [("/rec/cam/0001-01-01_02-16-40.mp4"%string, 600 * Second)] /\
  vo_files (rc_volume rc') !! "/rec/cam/0001-01-01_02-16-40.mp4"%string = Some [WTorn].
Proof.
  intros at_ fed_torn rc rc'. split; [|split; by vm_compute]. apply cr_disconnect. unfold rc, fed_torn. cbn [fold_left].
  do 2 (apply cr_process; [apply cr_offer|intros Hs; discriminate Hs]). apply cr_new. intros r Hr. by apply elem_of_nil in Hr.
Qed.

(** An hour that comes twice: a segment opened when the same second of local time comes
    again, after others, takes the file of the first one, and its row. *)
Lemma repeated_hour_truncates :
  let rc1 := OnDisconnect sample_setup (at_time 0) (1001 * Second) sample_consumer in
  let rc2 := OnDisconnect sample_setup (at_time 0) (2001 * Second) (fed [unit_at 0 0x65; unit_at 3000 0x41] (2000 * Second) rc1) in
  let rc3 := fed [unit_at 12000 0x65] (4600 * Second) rc2 in
  let path := "/rec/cam/0001-01-01_02-16-40.mp4"%string in
  consumer_reachable sample_setup rc3 /\
  0 < file_video (default [] (vo_files (rc_volume rc2) !! path)) /\ vo_files (rc_volume rc3) !! path = Some [] /\
  sg_StartTime <$> rows rc2 = [1000 * Second; 2000 * Second] /\ sg_StartTime <$> rows rc3 = [4600 * Second; 2000 * Second].
Proof.
  intros rc1 rc2 rc3 path. split; [apply fed_reachable, cr_disconnect, fed_reachable, cr_disconnect, sample_consumer_reachable|].
  split_and!; by vm_compute.
Qed.
