(* ===== verification/TranscodeProcess.v ===== *)
(** The process boundary of a transcode ([recording/transcode_subprocess.go]): a child
    writes a stage beside the recording, the parent captures the tail of what it prints,
    classifies how it failed, validates the stage and only then replaces the recording.

    The child is arbitrary: it may do anything to the files and end in any way.  The
    JSON decoder and the reader of boxes are parameters.

    What the process boundary of a transcode guarantees: only a validated, smaller file
    ever replaces a recording, and only one that has not changed; a recording is given
    up for good only when the worker said so; the tail of the output is kept. *)

From S2P Require Import Prelude GoStrings Recompress Mp4Bytes Mp4Index.
From Stdlib Require Import Ascii.

#[local] Open Scope list_scope.
#[local] Open Scope Z_scope.

(** ** What the parent keeps of the output *)

Record boundedTailBuffer := mkTail { tb_buf : list ascii; tb_limit : Z }.

Definition newBoundedTailBuffer (limit : Z) : boundedTailBuffer := mkTail [] limit.

Definition Write (p : list ascii) (b : boundedTailBuffer) : boundedTailBuffer :=
  let n := Z.of_nat (length p) in
  if tb_limit b <=? 0 then b
  else if tb_limit b <=? n then mkTail (drop (Z.to_nat (n - tb_limit b)) p) (tb_limit b)
  else
    let overflow := Z.of_nat (length (tb_buf b)) + n - tb_limit b in
    mkTail ((if 0 <? overflow then drop (Z.to_nat overflow) (tb_buf b) else tb_buf b) ++ p) (tb_limit b).

Definition captured (limit : Z) (writes : list (list ascii)) : string :=
  String.string_of_list_ascii (tb_buf (fold_left (fun b p => Write p b) writes (newBoundedTailBuffer limit))).

Definition maxSubprocessStdout : Z := 64 * 2 ^ 10.
Definition maxSubprocessStderr : Z := 2 * 2 ^ 10.

(** ** What the output says *)

Definition TranscodeResultMarker : string := "VEDETTA_TRANSCODE_RESULT:".
Definition TranscodeErrorMarker : string := "VEDETTA_TRANSCODE_ERROR:".

Definition transcodeFailureExit : transcodeFailureKind := "worker_exit".
Definition transcodeFailureProtocol : transcodeFailureKind := "worker_protocol".
Definition transcodeFailureInvalidOutput : transcodeFailureKind := "invalid_output".
Definition transcodeFailureSourceChanged : transcodeFailureKind := "source_changed".
Definition transcodeFailureCodecUnavailable : transcodeFailureKind := "codec_unavailable".

(** The worker's words for a file, and the parent's. *)
Definition sourceFailureKinds : list (string * transcodeFailureKind) :=
  [("codec_unavailable"%string, transcodeFailureCodecUnavailable);
   ("source_not_fragmented"%string, transcodeFailureSourceNotFragmented);
   ("source_undecodable"%string, transcodeFailureSourceUndecodable)].

Definition known_kind (k : string) : option transcodeFailureKind :=
  snd <$> find (fun e => String.eqb (fst e) k) sourceFailureKinds.

(** [json.Unmarshal] of a result, and of the kind and detail of a failure. *)
Class Json := {
  decode_result : string -> option TranscodeResult;
  decode_failure : string -> option (string * string)
}.

(** ** Files *)

(** A file: its identity, what it holds, and its attributes. *)
Record File := mkFile { fl_id : Z; fl_data : bytes; fl_ModTime : Z; fl_Perm : Z; fl_regular : bool }.

Abbreviation FS := (gmap string File).

Definition fl_Size (f : File) : Z := len (fl_data f).

(** How a child ends: the status it exits with, a signal, or a failure to run it. *)
Inductive Exit := Exited (code : Z) | Signalled | RunFailed.

Record ChildRun := mkChild { ch_fs : FS; ch_stdout : list (list ascii); ch_stderr : list (list ascii); ch_exit : Exit; ch_deadline : bool }.

(** The child, given the stage and the source; what the file system answers the parent:
    the name it finds for a stage, and whether removing, changing the mode and renaming
    work. *)
Record System := mkSystem {
  sy_self : bool;
  sy_stage : option (string * File);
  sy_stage_closed : bool;
  sy_child : string -> FS -> ChildRun;
  sy_chmod : bool;
  sy_rename : bool
}.

Section process.
Context `{BoxReader} `{TrackOrder} `{Json}.

Definition verifyFMP4 (f : File) : bool :=
  match indexFile (fl_data f) with
  | (_, Some _) => false
  | (ix, None) => negb (bool_decide (ix_fragments ix = []))
  end.

Definition ValidateFMP4 (f : File) : bool := verifyFMP4 f.

Definition result_line (line : string) : option (option TranscodeResult) := decode_result <$> strip_prefix TranscodeResultMarker line.

(** The first line with the marker decides. *)
Definition parseTranscodeResult (stdout : string) : option TranscodeResult :=
  default None (head (omap result_line (Split stdout "010"%char))).

Definition failure_line (line : string) : option (option (string * string)) :=
  (fun payload => match decode_failure payload with
                  | Some (kind, detail) => if String.eqb kind "" then None else Some (kind, detail)
                  | None => None
                  end) <$> strip_prefix TranscodeErrorMarker line.

Definition parseTranscodeFailure (stdout : string) : option (string * string) :=
  default None (head (omap failure_line (Split stdout "010"%char))).

(** ** Validation *)

Definition validateTranscodeStage (stage : option File) (sourceSize : Z) (res : TranscodeResult) : bool :=
  (tr_OriginalSize res =? sourceSize) && (0 <? tr_NewSize res)
  && match stage with
     | None => false
     | Some f => fl_regular f && (fl_Size f =? tr_NewSize res) && ValidateFMP4 f
     end.

Definition validateTranscodeSource (current : option File) (original : File) : bool :=
  match current with
  | None => false
  | Some f => (fl_id f =? fl_id original) && (fl_Size f =? fl_Size original) && (fl_ModTime f =? fl_ModTime original)
              && (fl_Perm f =? fl_Perm original)
  end.

(** ** The transcode *)

Definition set_perm (perm : Z) (f : File) : File := mkFile (fl_id f) (fl_data f) (fl_ModTime f) perm (fl_regular f).

(** [os.Rename] of a file that exists. *)
Definition Rename (from to : string) (fs : FS) : FS :=
  match fs !! from with Some f => <[to := f]> (delete from fs) | None => fs end.

Definition exit_kind (run : ChildRun) : transcodeFailureKind :=
  match ch_exit run with Signalled => transcodeFailureCrash | _ => transcodeFailureExit end.

(** Why a child that did not succeed failed. *)
Definition run_failure (run : ChildRun) : option TranscodeError :=
  if ch_deadline run then Some (WorkerError transcodeFailureTimeout)
  else match ch_exit run with
       | Exited 0 => None
       | _ =>
           let classified := parseTranscodeFailure (captured maxSubprocessStdout (ch_stdout run)) ≫= fun p => known_kind (fst p) in
           Some (WorkerError (default (exit_kind run) classified))
       end.

(** What is done with the stage of a child that succeeded. *)
Definition commit (sys : System) (path stage : string) (source : File) (run : ChildRun) : FS * result TranscodeError TranscodeResult :=
  let fs := ch_fs run in
  match parseTranscodeResult (captured maxSubprocessStdout (ch_stdout run)) with
  | None => (fs, Err (WorkerError transcodeFailureProtocol))
  | Some res =>
      if tr_Skipped res then (fs, Ok res)
      else if negb (validateTranscodeStage (fs !! stage) (fl_Size source) res) then (fs, Err (WorkerError transcodeFailureInvalidOutput))
      else if tr_OriginalSize res <=? tr_NewSize res then (fs, Ok (mkTranscodeResult (tr_OriginalSize res) (tr_OriginalSize res) true))
      else if negb (validateTranscodeSource (fs !! path) source) then (fs, Err (WorkerError transcodeFailureSourceChanged))
      else if negb (sy_chmod sys) then (fs, Err OtherError)
      else
        let fs := alter (set_perm (fl_Perm source)) stage fs in
        if negb (sy_rename sys) then (fs, Err OtherError) else (Rename stage path fs, Ok res)
  end.

(** The deferred removals. *)
Definition cleanup (stage : string) (fs : FS) : FS := delete (stage ++ ".tmp")%string (delete stage fs).

Definition outOfProcessTranscode (sys : System) (path : string) (fs : FS) : FS * result TranscodeError TranscodeResult :=
  if negb (sy_self sys) then (fs, Err OtherError)
  else match fs !! path with
  | None => (fs, Err OtherError)
  | Some source =>
      match sy_stage sys with
      | None => (fs, Err OtherError)
      | Some (stage, placeholder) =>
          let fs := <[stage := placeholder]> fs in
          if negb (sy_stage_closed sys) then (delete stage fs, Err OtherError)
          else
            let run := sy_child sys stage fs in
            let '(fs, r) := match run_failure run with
                            | Some e => (ch_fs run, Err e)
                            | None => commit sys path stage source run
                            end in
            (cleanup stage fs, r)
      end
  end.

End process.

(** * What the boundary guarantees *)

(** ** The captured tail *)

Definition last_bytes (n : Z) (l : list ascii) : list ascii := drop (length l - Z.to_nat n) l.

Lemma Write_tail limit l p :
  0 < limit -> Write p (mkTail (last_bytes limit l) limit) = mkTail (last_bytes limit (l ++ p)) limit.
Proof.
  intros Hl. unfold Write. cbn [tb_limit tb_buf]. rewrite (proj2 (Z.leb_gt _ _)) by done. unfold last_bytes. rewrite length_app.
  destruct (Z.leb_spec limit (Z.of_nat (length p))) as [Hp|Hp].
  - f_equal. rewrite drop_app_ge by lia. f_equal. lia.
  - f_equal. rewrite length_drop. destruct (Z.ltb_spec 0 (Z.of_nat (length l - (length l - Z.to_nat limit)) + Z.of_nat (length p) - limit)) as [Ho|Ho].
    + rewrite drop_drop, drop_app_le by lia. f_equal. f_equal. lia.
    + rewrite drop_app_le by lia. f_equal. f_equal. lia.
Qed.

(** The captured output is the last [limit] bytes of all that was written, however it
    was cut into writes. *)
Lemma captured_is_the_tail limit writes :
  0 < limit -> captured limit writes = String.string_of_list_ascii (last_bytes limit (concat writes)).
Proof.
  intros Hl. unfold captured. f_equal.
  enough (forall l, fold_left (fun b p => Write p b) writes (mkTail (last_bytes limit l) limit) = mkTail (last_bytes limit (l ++ concat writes)) limit) as Hg.
  { specialize (Hg []). unfold last_bytes at 1 in Hg. cbn [length drop app] in Hg. unfold newBoundedTailBuffer. rewrite drop_nil in Hg. by rewrite Hg. }
  induction writes as [|p writes IH]; intros l; cbn [fold_left concat]; [by rewrite app_nil_r|].
  by rewrite Write_tail, IH, app_assoc.
Qed.

Section theorems.
Context `{BoxReader} `{TrackOrder} `{Json}.

(** ** Committing *)

(** The same file as before, as far as the parent can tell. *)
Definition unchanged (f g : File) : Prop :=
  fl_id f = fl_id g /\ fl_Size f = fl_Size g /\ fl_ModTime f = fl_ModTime g /\ fl_Perm f = fl_Perm g.

Lemma validateTranscodeSource_spec current original :
  validateTranscodeSource current original = true <-> exists f, current = Some f /\ unchanged f original.
Proof.
  unfold validateTranscodeSource, unchanged. destruct current as [f|]; [|split; [done|by intros (? & ? & _)]].
  rewrite !andb_true_iff, !Z.eqb_eq. split; [intros [[[]]]; by exists f|]. by intros (? & [= <-] & ? & ? & ? & ?).
Qed.

Lemma validateTranscodeStage_spec stage size res :
  validateTranscodeStage stage size res = true <->
  tr_OriginalSize res = size /\ 0 < tr_NewSize res /\
  exists f, stage = Some f /\ fl_regular f = true /\ fl_Size f = tr_NewSize res /\ ValidateFMP4 f = true.
Proof.
  unfold validateTranscodeStage. rewrite !andb_true_iff, Z.eqb_eq, Z.ltb_lt. destruct stage as [f|].
  - rewrite !andb_true_iff, Z.eqb_eq. split; [intros [[]] ; destruct_and!; split_and!; try done; by exists f|].
    intros (? & ? & ? & [= <-] & ? & ? & ?). done.
  - split; [by intros [_ ?]|]. by intros (_ & _ & ? & ? & _).
Qed.

(** The child reported a result: of the lines in the last bytes it printed, the first that
    starts with the marker says so. *)
Definition reported (run : ChildRun) (said : TranscodeResult) : Prop :=
  exists l1 payload l2,
    Split (String.string_of_list_ascii (last_bytes maxSubprocessStdout (concat (ch_stdout run)))) "010"%char =
      l1 ++ (TranscodeResultMarker ++ payload)%string :: l2 /\
    (forall line, line ∈ l1 -> ~ exists rest, line = (TranscodeResultMarker ++ rest)%string) /\ decode_result payload = Some said.

Lemma parseTranscodeResult_reported run said :
  parseTranscodeResult (captured maxSubprocessStdout (ch_stdout run)) = Some said -> reported run said.
Proof.
  rewrite captured_is_the_tail by (unfold maxSubprocessStdout; lia). unfold parseTranscodeResult, reported.
  set (lines := Split _ _). clearbody lines. induction lines as [|line lines IH]; [done|]. cbn [omap list_omap].
  unfold result_line at 1. destruct (strip_prefix TranscodeResultMarker line) as [payload|] eqn:E; cbn.
  - intros Hd. exists [], payload, lines. split; [by apply strip_prefix_Some in E as ->|]. split; [by intros l []%elem_of_nil|done].
  - intros (l1 & payload & l2 & -> & Hno & Hd)%IH. exists (line :: l1), payload, l2. split; [done|]. split; [|done].
    intros l [->|Hl]%elem_of_cons; [|by apply Hno]. intros [rest Hrest%strip_prefix_Some]. congruence.
Qed.

(** What became of the recording after a child that succeeded. *)
Lemma commit_spec sys path stage source run fs r :
  stage <> path -> commit sys path stage source run = (fs, r) ->
  (forall p, p <> path -> p <> stage -> fs !! p = ch_fs run !! p) /\
  match r with
  | Ok res =>
      (exists said, reported run said /\ (if tr_Skipped res then tr_Skipped said = false -> tr_OriginalSize said <= tr_NewSize said else res = said)) /\
      if tr_Skipped res then fs !! path = ch_fs run !! path
      else exists st src, ch_fs run !! stage = Some st /\ ch_fs run !! path = Some src /\ unchanged src source /\
        ValidateFMP4 st = true /\ fl_regular st = true /\ fl_Size st = tr_NewSize res /\ 0 < tr_NewSize res < fl_Size source /\
        fs !! path = Some (set_perm (fl_Perm source) st)
  | Err _ => fs !! path = ch_fs run !! path
  end.
Proof.
  intros Hne. unfold commit. destruct (parseTranscodeResult _) as [res|] eqn:Ep; [|by intros [= <- <-]].
  apply parseTranscodeResult_reported in Ep.
  destruct (tr_Skipped res) eqn:Es; [intros [= <- <-]; rewrite Es; split; [done|]; split; [exists res; by rewrite Es|done]|].
  destruct (validateTranscodeStage _ _ _) eqn:Ev; [|by intros [= <- <-]]. cbn [negb].
  destruct (Z.leb_spec (tr_OriginalSize res) (tr_NewSize res)) as [Hle|Hlt]; [intros [= <- <-]; split; [done|]; cbn; split; [by exists res|done]|].
  destruct (validateTranscodeSource _ _) eqn:Ec; [|by intros [= <- <-]]. cbn [negb].
  destruct (sy_chmod sys); [|by intros [= <- <-]]. cbn [negb].
  apply validateTranscodeStage_spec in Ev as (Ho & Hpos & st & Hst & Hreg & Hsize & Hval).
  apply validateTranscodeSource_spec in Ec as (src & Hsrc & Hun).
  destruct (sy_rename sys); cbn [negb].
  - intros [= <- <-]. unfold Rename. rewrite lookup_alter_eq, Hst. cbn [fmap option_fmap option_map]. split.
    + intros p Hp Hps. by rewrite lookup_insert_ne, lookup_delete_ne, lookup_alter_ne by congruence.
    + rewrite Es. split; [by exists res|]. exists st, src. split_and!; try done; [lia|]. by rewrite lookup_insert_eq.
  - intros [= <- <-]. split; [intros p _ Hps; by rewrite lookup_alter_ne by congruence|]. by rewrite lookup_alter_ne.
Qed.

Lemma run_succeeded run : run_failure run = None -> ch_deadline run = false /\ ch_exit run = Exited 0.
Proof. unfold run_failure. destruct (ch_deadline run); [done|]. by destruct (ch_exit run) as [[]| |]. Qed.

(** C27: a transcode replaces a recording only by something better.  Whatever the child
    does to the files and however it ends, the transcode succeeds only when the child ran
    to its end before the deadline, exited with status zero and reported a result: the
    first line with the marker in the last 64 KiB it printed decodes to it.  The recording
    is then replaced only when that result is not a skip: by the stage the child left, a
    regular file that indexes with at least one fragment, of the size reported, smaller
    than the recording, with the recording's permissions; and only if the recording is
    still the file it was.  Otherwise it is left as the child left it.  Nothing else is
    touched, and the stage is gone. *)
Theorem transcode_replaces_only_validated sys path fs fs' r :
  (forall stage placeholder, sy_stage sys = Some (stage, placeholder) -> fs !! stage = None /\ (stage ++ ".tmp")%string <> path) ->
  outOfProcessTranscode sys path fs = (fs', r) ->
  (fs' = fs /\ r = Err OtherError) \/
  exists source stage placeholder,
    let run := sy_child sys stage (<[stage := placeholder]> fs) in
    let left := ch_fs run in
    fs !! path = Some source /\ sy_stage sys = Some (stage, placeholder) /\
    fs' !! stage = None /\ fs' !! (stage ++ ".tmp")%string = None /\
    (forall p, p <> path -> p <> stage -> p <> (stage ++ ".tmp")%string -> fs' !! p = left !! p) /\
    match r with
    | Ok res =>
        ch_deadline run = false /\ ch_exit run = Exited 0 /\
        (exists said, reported run said /\ (if tr_Skipped res then tr_Skipped said = false -> tr_OriginalSize said <= tr_NewSize said else res = said)) /\
        if tr_Skipped res then fs' !! path = left !! path
        else exists st src, left !! stage = Some st /\ left !! path = Some src /\ unchanged src source /\
          ValidateFMP4 st = true /\ fl_regular st = true /\ fl_Size st = tr_NewSize res /\ 0 < tr_NewSize res < fl_Size source /\
          fs' !! path = Some (set_perm (fl_Perm source) st)
    | Err _ => fs' !! path = left !! path
    end.
Proof.
  intros Hname. unfold outOfProcessTranscode. destruct (sy_self sys); [|intros [= <- <-]; by left]. cbn [negb].
  destruct (fs !! path) as [source|] eqn:Epath; [|intros [= <- <-]; by left].
  destruct (sy_stage sys) as [[stage ph]|]; [|intros [= <- <-]; by left]. destruct (Hname stage ph eq_refl) as [Hfree Htmp].
  destruct (sy_stage_closed sys); cbn [negb].
  2: { intros [= <- <-]. left. split; [|done]. apply map_eq. intros p. destruct (decide (p = stage)) as [->|Hp];
         [by rewrite lookup_delete_eq|by rewrite lookup_delete_ne, lookup_insert_ne by congruence]. }
  assert (stage <> path) as Hne by congruence. set (run := sy_child sys stage _). intros E. right. exists source, stage, ph. cbn zeta. fold run.
  assert (forall fs1, cleanup stage fs1 !! path = fs1 !! path) as Hpath by (intros fs1; unfold cleanup; by rewrite !lookup_delete_ne by congruence).
  assert (forall fs1, cleanup stage fs1 !! stage = None /\ cleanup stage fs1 !! (stage ++ ".tmp")%string = None) as Hgone.
  { intros fs1. unfold cleanup. split; [|by rewrite lookup_delete_eq]. apply lookup_delete_None. right. by rewrite lookup_delete_eq. }
  assert (forall fs1 p, p <> stage -> p <> (stage ++ ".tmp")%string -> cleanup stage fs1 !! p = fs1 !! p) as Hother
    by (intros fs1 p ??; unfold cleanup; by rewrite !lookup_delete_ne by congruence).
  destruct (run_failure run) as [e|] eqn:Efail.
  - injection E as <- <-. do 4 (split; [first [done|apply Hgone]|]). split; [intros p _ Hs Ht; by apply Hother|by rewrite Hpath].
  - destruct (commit sys path stage source run) as [fs1 r1] eqn:Ec. injection E as <- <-.
    destruct (commit_spec _ _ _ _ _ _ _ Hne Ec) as [Hframe Hr].
    do 4 (split; [first [done|apply Hgone]|]). split; [intros p Hp Hs Ht; rewrite Hother by done; by apply Hframe|]. rewrite Hpath.
    destruct r1 as [res|e]; [|exact Hr]. destruct (run_succeeded run Efail) as [Hd Hx]. destruct Hr as [Hsaid Hpathr]. split; [done|]. split; [done|]. by split.
Qed.

(** ** Failures *)

Lemma known_kind_cases k kind :
  known_kind k = Some kind ->
  (k = "codec_unavailable"%string /\ kind = transcodeFailureCodecUnavailable) \/
  (k = "source_not_fragmented"%string /\ kind = transcodeFailureSourceNotFragmented) \/
  (k = "source_undecodable"%string /\ kind = transcodeFailureSourceUndecodable).
Proof.
  unfold known_kind, sourceFailureKinds. cbn [find fst snd].
  repeat (case_match; [match goal with E : String.eqb _ _ = true |- _ => apply String.eqb_eq in E; subst end; intros [= <-]; auto|]). done.
Qed.

(** A recording is given up for good only when the worker said so.  A failure that no
    later attempt can clear is reported only when the child ran to its end without
    succeeding and its output has a failure line naming the file as not fragmented or
    undecodable: a crash, a timeout, a failed validation or an unreadable answer is
    always retried. *)
Theorem permanent_failures_are_the_workers sys path fs fs' err :
  outOfProcessTranscode sys path fs = (fs', Err err) -> retryable (failureKindOf err) = false ->
  exists stage placeholder kind detail, sy_stage sys = Some (stage, placeholder) /\
    let run := sy_child sys stage (<[stage := placeholder]> fs) in
    ch_deadline run = false /\ ch_exit run <> Exited 0 /\
    parseTranscodeFailure (captured maxSubprocessStdout (ch_stdout run)) = Some (kind, detail) /\
    (kind = "source_not_fragmented" \/ kind = "source_undecodable")%string.
Proof.
  unfold outOfProcessTranscode. destruct (sy_self sys); [|by intros [= _ <-]]. cbn [negb].
  destruct (fs !! path) as [source|]; [|by intros [= _ <-]]. destruct (sy_stage sys) as [[stage ph]|]; [|by intros [= _ <-]].
  destruct (sy_stage_closed sys); [|by intros [= _ <-]]. cbn [negb]. set (run := sy_child sys stage _). intros E Hret.
  destruct (run_failure run) as [e|] eqn:Ef.
  - injection E as _ <-. unfold run_failure in Ef. destruct (ch_deadline run) eqn:Ed; [by injection Ef as <-|].
    assert (ch_exit run <> Exited 0) as Hx by (intros Hx; by rewrite Hx in Ef).
    assert (Some (WorkerError (default (exit_kind run) (parseTranscodeFailure (captured maxSubprocessStdout (ch_stdout run)) ≫= fun p => known_kind (fst p)))) = Some e) as Ef'.
    { destruct (ch_exit run) as [[]| |]; done. }
    injection Ef' as <-. destruct (parseTranscodeFailure _) as [[kind detail]|] eqn:Ep; cbn [mbind option_bind fst] in Hret.
    + exists stage, ph, kind, detail. cbn zeta. fold run. split_and!; try done. destruct (known_kind kind) as [k|] eqn:Ek.
      * destruct (known_kind_cases _ _ Ek) as [[-> ->]|[[-> ->]|[-> ->]]]; [by vm_compute in Hret|by left|by right].
      * cbn in Hret. unfold exit_kind in Hret. by destruct (ch_exit run).
    + cbn in Hret. unfold exit_kind in Hret. by destruct (ch_exit run).
  - destruct (commit sys path stage source run) as [fs1 r1] eqn:Ec. injection E as _ ->. exfalso. unfold commit in Ec.
    repeat (case_match; [try (injection Ec as _ <-; by vm_compute in Hret); try done|]); try (injection Ec as _ <-; by vm_compute in Hret); done.
Qed.

End theorems.

(** ** Instances: a child that leaves a stage of four bytes, and one that gives up *)

#[local] Instance sample_json : Json := {
  decode_result s := if String.eqb s "ok" then Some (mkTranscodeResult 10 4 false) else None;
  decode_failure s := if String.eqb s "bad" then Some ("source_undecodable", "no frame decodes")%string else None
}.

#[local] Instance one_fragment : BoxReader := fun _ =>
  ([mkBox 0 1 Moof None [] None; mkBox 1 3 Mdat None [] None], None).

#[local] Instance any_track_order : TrackOrder := map_to_list.

Definition sample_recording : File := mkFile 1 (replicate 10 0) 100 420 true.

Definition prints (marker text : string) : list (list ascii) := [String.list_ascii_of_string "noise"; ["010"%char]; String.list_ascii_of_string (marker ++ text)].

Definition good_child : string -> FS -> ChildRun := fun stage fs =>
  mkChild (<[stage := mkFile 2 (replicate 4 0) 200 384 true]> fs) (prints TranscodeResultMarker "ok") [] (Exited 0) false.

Definition giving_up : string -> FS -> ChildRun := fun _ fs => mkChild fs (prints TranscodeErrorMarker "bad") [] (Exited 1) false.

Definition sample_system (child : string -> FS -> ChildRun) : System :=
  mkSystem true (Some ("/rec/.a.mp4.recompress-1"%string, mkFile 2 [] 150 384 true)) true child true true.

Definition sample_fs : FS := {["/rec/a.mp4"%string := sample_recording]}.

Lemma transcode_replaces_only_validated_witness :
  let '(fs', r) := outOfProcessTranscode (sample_system good_child) "/rec/a.mp4" sample_fs in
  r = Ok (mkTranscodeResult 10 4 false) /\ fl_Size <$> fs' !! "/rec/a.mp4"%string = Some 4 /\
  fs' !! "/rec/.a.mp4.recompress-1"%string = None.
Proof.
  destruct (outOfProcessTranscode (sample_system good_child) "/rec/a.mp4" sample_fs) as [fs' r] eqn:E.
  assert (r = Ok (mkTranscodeResult 10 4 false)) as -> by (apply (f_equal snd) in E; vm_compute in E; by rewrite <- E).
  destruct (transcode_replaces_only_validated (sample_system good_child) "/rec/a.mp4" sample_fs fs' (Ok (mkTranscodeResult 10 4 false))) as [[_ Hr]|(source & stage & ph & Hrest)];
    [intros stage ph [= <- <-]; split; by vm_compute|exact E|discriminate Hr|].
  destruct Hrest as (_ & [= <- <-] & Hgone & _ & _ & _ & _ & _ & st & src & _ & _ & _ & _ & _ & Hsize & _ & Hpath).
  split; [done|]. split; [|exact Hgone]. rewrite Hpath. cbn in *. by rewrite <- Hsize.
Defined.

Lemma permanent_failures_are_the_workers_witness :
  exists fs', outOfProcessTranscode (sample_system giving_up) "/rec/a.mp4" sample_fs = (fs', Err (WorkerError transcodeFailureSourceUndecodable)) /\
    exists kind detail, parseTranscodeFailure (captured maxSubprocessStdout (prints TranscodeErrorMarker "bad")) = Some (kind, detail) /\
    (kind = "source_not_fragmented" \/ kind = "source_undecodable")%string.
Proof.
  destruct (outOfProcessTranscode (sample_system giving_up) "/rec/a.mp4" sample_fs) as [fs' r] eqn:E.
  assert (r = Err (WorkerError transcodeFailureSourceUndecodable)) as -> by (apply (f_equal snd) in E; vm_compute in E; by rewrite <- E).
  exists fs'. split; [reflexivity|].
  destruct (permanent_failures_are_the_workers (sample_system giving_up) "/rec/a.mp4" sample_fs fs' _ E) as (stage & ph & kind & detail & _ & _ & _ & Hp & Hk);
    [by vm_compute|]. by exists kind, detail.
Defined.
