(* ===== verification/EventProcessor.v ===== *)
(** The event processor ([event/processor.go], [event/artifacts.go],
    [event/publisher_queue.go]): the state of the Run loop, one function per case of
    its [select], the goroutines it detaches as tasks, and the queue to the broker.

    A task that is waiting is an element of [pr_tasks]; when it runs, it runs in one
    step.  The database answers of other parts of the program, the clock, the recorder
    and the broker are inputs of a step.  Faces and object recognition only matter
    here for what they publish, and are answers too.  Of what happens once the context
    is cancelled, only [stopActiveTimers] is modelled. *)

From S2P Require Import Prelude Float64 CameraEvent ActivityStore Presence ObjectCount.

#[local] Open Scope Z_scope.

(** ** Configuration *)

Record EventConfig := mkEventConfig {
  cf_CooldownSeconds : Z;
  cf_SnapshotQuality : Z;
  cf_MaxEventDuration : Z;
  cf_Continuous : bool;
  cf_ClipSeconds : Z;
  cf_Cameras : list (string * option Z)
}.

Definition EffectiveDoorbellClipSeconds (own : option Z) (global : Z) : Z :=
  match own with Some seconds => seconds | None => global end.

Definition DoorbellClipWindow (cfg : EventConfig) (cameraName : string) : Z :=
  let seconds :=
    match find (fun c => String.eqb (fst c) cameraName) (cf_Cameras cfg) with
    | Some c => EffectiveDoorbellClipSeconds (snd c) (cf_ClipSeconds cfg)
    | None => cf_ClipSeconds cfg
    end in
  let seconds := if seconds <=? 0 then 15 else seconds in
  i64 (seconds * Second).

(** ** Images *)

Definition mqttSnapshotMaxWidth : Z := 640.

Section images.
Context `{Imaging}.

Definition downscaleWidth (img : RGBA) (maxWidth : Z) : RGBA :=
  if (maxWidth <? 1) || (im_Dx img <=? maxWidth) then img
  else
    let height := (im_Dy img * maxWidth + im_Dx img ÷ 2) ÷ im_Dx img in
    let height := if height <? 1 then 1 else height in
    mkRGBA maxWidth height (CatmullRom maxWidth height img).

Definition encodeMQTTSnapshot (img : RGBA) (quality : Z) : option string :=
  encodeJPEG (downscaleWidth img mqttSnapshotMaxWidth) quality.
End images.

(** ** The queue to the broker *)

(** What a job delivers when the worker reaches it. *)
Inductive Publication :=
| PublishEvent (event : Event)
| PublishSnapshot (cameraName label : string) (jpegData : string)
| PublishDoorbell (cameraName person : string) (jpegData : option string)
| PublishObjectCount (cameraName label : string) (count : Z)
| PublishPresence (presence : PresenceEvent) (objectName : string)
| PublishObjectSighting (objectName : string) (event : Event).

Definition mqttPublishQueueCapacity : nat := 256.

(** A job that finds the queue full is dropped; the answer says whether it was taken. *)
Definition enqueue (job : Publication) (jobs : list Publication) : list Publication * bool :=
  if bool_decide (length jobs < mqttPublishQueueCapacity)%nat then (jobs ++ [job], true) else (jobs, false).

(** ** Notifiers *)

(** The methods of an [Enqueuer] over its state [S]; those of the optional interfaces
    are options.  What the closure of an early enqueue captures is part of [S]. *)
Record Notifier (S : Type) := mkNotifier {
  n_Enqueue : Event -> S -> S;
  n_EnqueueDoorbell : option (Event -> S -> S * bool);
  n_EnqueueActivity : option (Activity -> S -> S * bool);
  n_EnqueueDoorbellEarly : option (Event -> S -> S * option (Event -> S -> S * bool));
  n_EnqueueCry : option (Event -> S -> S * bool);
  n_EnqueueCryEarly : option (Event -> S -> S * option (Event -> S -> S * bool));
  n_ReleaseCry : option (string -> S -> S)
}.
Arguments mkNotifier {S}.
Arguments n_Enqueue {S}.
Arguments n_EnqueueDoorbell {S}.
Arguments n_EnqueueActivity {S}.
Arguments n_EnqueueDoorbellEarly {S}.
Arguments n_EnqueueCry {S}.
Arguments n_EnqueueCryEarly {S}.
Arguments n_ReleaseCry {S}.

(** ** The artifacts of an event *)

Definition set_snapshot (path : string) (ev : Event) : Event :=
  mkEvent (ID ev) (CameraName ev) (Label ev) (Score ev) (TrackID ev) (Box ev) (Timestamp ev) (EndTime ev)
    path true (ClipPath ev) (ClipAvailable ev) (ZoneName ev) (ObjectName ev) (SubLabel ev) (Kind ev)
    (AnsweredAt ev) (AnsweredBy ev) (Category ev).

Definition set_EndTime (t : Z) (ev : Event) : Event :=
  mkEvent (ID ev) (CameraName ev) (Label ev) (Score ev) (TrackID ev) (Box ev) (Timestamp ev) t
    (SnapshotPath ev) (SnapshotAvailable ev) (ClipPath ev) (ClipAvailable ev) (ZoneName ev) (ObjectName ev)
    (SubLabel ev) (Kind ev) (AnsweredAt ev) (AnsweredBy ev) (Category ev).

Definition alert_of_kind (kind : string) (ev : Event) : bool :=
  String.eqb (Kind ev) kind && negb (String.eqb (Category ev) CategoryDetection).

(** How the loop over a cry's attempts ends. *)
Inductive CryOutcome := CryAccepted | CryUnavailable | CryCancelled.

Section artifacts.
Context `{Imaging} {S : Type}.

Definition enqueueArtifactNotification (notifier : option (Notifier S)) (submitted : Event) (s : S) : S :=
  match notifier with
  | None => s
  | Some notifier =>
      if String.eqb (Category submitted) CategoryDetection then s
      else if String.eqb (Kind submitted) EventKindCry then
        match n_EnqueueCry notifier with
        | Some immediate => (immediate submitted s).1
        | None => n_Enqueue notifier submitted s
        end
      else
        match (if String.eqb (Kind submitted) EventKindDoorbell then n_EnqueueDoorbell notifier else None) with
        | Some immediate => (immediate submitted s).1
        | None =>
            match n_EnqueueActivity notifier with
            | Some _ => s
            | None => n_Enqueue notifier submitted s
            end
        end
  end.

(** [cancelled attempt]: the context ended in the wait after that attempt. *)
Fixpoint cry_attempts (rest attempt : nat) (ask : S -> S * bool) (cancelled : nat -> bool) (s : S) : S * CryOutcome :=
  match rest with
  | 0%nat => (s, CryUnavailable)
  | Datatypes.S rest =>
      let '(s, complete) := ask s in
      if complete : bool then (s, CryAccepted)
      else if cancelled attempt then (s, CryCancelled)
      else cry_attempts rest (Datatypes.S attempt) ask cancelled s
  end.

Definition early_of (kind : string) (early : option (Event -> S -> S * option (Event -> S -> S * bool)))
    (submitted : Event) (s : S) : S * option (option (Event -> S -> S * bool)) :=
  match (if alert_of_kind kind submitted then early else None) with
  | Some early => let '(s, after) := early submitted s in (s, Some after)
  | None => (s, None)
  end.

(** [ask_cry]: what one attempt does; [None] when no provider is asked for cries. *)
Definition ask_cry (notifier : Notifier S) (planned : option (option (Event -> S -> S * bool))) (submitted : Event)
    : option (S -> S * bool) :=
  match planned, n_EnqueueCry notifier with
  | Some (Some after), _ => Some (after submitted)
  | Some None, _ => Some (fun s => (s, true))
  | None, Some immediate => Some (immediate submitted)
  | None, None => None
  end.

Definition notify_saved (notifier : option (Notifier S)) (doorbell cry : option (option (Event -> S -> S * bool)))
    (cancelled : nat -> bool) (submitted : Event) (s : S) : S * bool :=
  match doorbell with
  | Some after => (match after with Some after => (after submitted s).1 | None => s end, true)
  | None =>
      match notifier with
      | Some n =>
          if alert_of_kind EventKindCry submitted then
            match ask_cry n cry submitted with
            | Some ask =>
                let '(s, outcome) := cry_attempts 10 0 ask cancelled s in
                let s := match n_ReleaseCry n with Some release => release (ID submitted) s | None => s end in
                (s, match outcome with CryCancelled => false | _ => true end)
            | None => (enqueueArtifactNotification notifier submitted s, true)
            end
          else (enqueueArtifactNotification notifier submitted s, true)
      | None => (s, true)
      end
  end.

(** The MQTT part: the event, its image and, for a ring, the doorbell topic. *)
Definition publish_artifacts (snapshotQuality : Z) (sub : Submission) (submitted : Event) (jobs : list Publication)
    : list Publication :=
  let jobs := (enqueue (PublishEvent submitted) jobs).1 in
  let mqttImage := match sb_AnnotatedImage sub with Some img => Some img | None => sb_SnapshotImage sub end in
  let jpegData := mqttImage ≫= fun img => encodeMQTTSnapshot img snapshotQuality in
  let jobs :=
    match jpegData with
    | Some data => (enqueue (PublishSnapshot (CameraName submitted) (Label submitted) data) jobs).1
    | None => jobs
    end in
  if String.eqb (Kind submitted) EventKindDoorbell then
    (enqueue (PublishDoorbell (CameraName submitted) (SubLabel submitted) jpegData) jobs).1
  else jobs.

(** [saver]: what [SaveEventSnapshot] answers, when there is a saver. *)
Definition EmitEventArtifacts (saver : option (option string)) (publisher : bool) (notifier : option (Notifier S))
    (snapshotQuality : Z) (cancelled : nat -> bool) (sub : Submission) (s : S) (jobs : list Publication)
    : S * list Publication :=
  let submitted := sb_event sub in
  let '(s, doorbell) := early_of EventKindDoorbell (notifier ≫= n_EnqueueDoorbellEarly) submitted s in
  let '(s, cry) := early_of EventKindCry (notifier ≫= n_EnqueueCryEarly) submitted s in
  let submitted :=
    match saver, sb_SnapshotImage sub with
    | Some (Some resolved), Some _ =>
        if String.eqb (SnapshotPath submitted) "" then submitted else set_snapshot resolved submitted
    | _, _ => submitted
    end in
  let '(s, proceed) := notify_saved notifier doorbell cry cancelled submitted s in
  (s, if proceed && publisher then publish_artifacts snapshotQuality sub submitted jobs else jobs).

End artifacts.

(** ** The processor *)

(** [tempCancel] and the timers of an active event: [ae_timer] says that the timer of
    its longest duration is armed, [ae_endTimer] holds the instant at which a ring ends
    itself; [ae_emit] names the task whose end closes [emitDone]. *)
Record activeEvent := mkActive {
  ae_event : Event;
  ae_deadline : Z;
  ae_timer : bool;
  ae_endTimer : option (Z * EventEnd);
  ae_tempCancel : bool;
  ae_emit : Z
}.

Record pendingEnd := mkPendingEnd { pd_endTime : Z; pd_parkedAt : Z }.

(** What the processor asks of the server, the recorder and the cameras. *)
Inductive Call :=
| BroadcastActivitySSE (type : string) (activity : Activity)
| RecordDoorbellPress (cameraName : string)
| BroadcastDoorbellSSE (cameraName eventID person : string)
| UpdateZonePresence (zoneID : Z) (label : string) (present : bool)
| StartTemporaryRecording (cameraName url : string)
| StopTemporaryRecording (cameraName : string)
| SetTrackName (cameraName : string) (trackID : Z) (name : string)
| SaveClip (event : Event).

(** The goroutines the processor detaches. *)
Inductive Task :=
| EmitTask (id : Z) (sub : Submission) (publisher : bool)
| RecognizeTask (sub : Submission)
| EndTask (event : Event) (emit : Z) (publisher : bool) (objectCount objectCountSeq : Z)
| StopTask (cameraName : string)
| ClipTask (event : Event).

Record Processor (S : Type) := mkProcessor {
  pr_db : DB;
  pr_active : gmap string activeEvent;
  pr_timeout : list string;
  pr_ends : list EventEnd;
  pr_jobs : list Publication;
  pr_delivered : list Publication;
  pr_objectCounts : gmap string (gmap string Z);
  pr_gate : objectCountGate;
  pr_cooldowns : gmap string Z;
  pr_pendingEnds : gmap string pendingEnd;
  pr_tasks : list Task;
  pr_nextEmit : Z;
  pr_calls : list Call;
  pr_notifier : S
}.
Arguments mkProcessor {S}.
Arguments pr_db {S}.
Arguments pr_active {S}.
Arguments pr_timeout {S}.
Arguments pr_ends {S}.
Arguments pr_jobs {S}.
Arguments pr_delivered {S}.
Arguments pr_objectCounts {S}.
Arguments pr_gate {S}.
Arguments pr_cooldowns {S}.
Arguments pr_pendingEnds {S}.
Arguments pr_tasks {S}.
Arguments pr_nextEmit {S}.
Arguments pr_calls {S}.
Arguments pr_notifier {S}.

Section setters.
Context {S : Type}.
Implicit Type p : Processor S.

Definition set_db db p : Processor S :=
  mkProcessor db (pr_active p) (pr_timeout p) (pr_ends p) (pr_jobs p) (pr_delivered p) (pr_objectCounts p) (pr_gate p)
    (pr_cooldowns p) (pr_pendingEnds p) (pr_tasks p) (pr_nextEmit p) (pr_calls p) (pr_notifier p).
Definition set_active active p : Processor S :=
  mkProcessor (pr_db p) active (pr_timeout p) (pr_ends p) (pr_jobs p) (pr_delivered p) (pr_objectCounts p) (pr_gate p)
    (pr_cooldowns p) (pr_pendingEnds p) (pr_tasks p) (pr_nextEmit p) (pr_calls p) (pr_notifier p).
Definition set_channels timeout ends p : Processor S :=
  mkProcessor (pr_db p) (pr_active p) timeout ends (pr_jobs p) (pr_delivered p) (pr_objectCounts p) (pr_gate p)
    (pr_cooldowns p) (pr_pendingEnds p) (pr_tasks p) (pr_nextEmit p) (pr_calls p) (pr_notifier p).
Definition set_jobs jobs p : Processor S :=
  mkProcessor (pr_db p) (pr_active p) (pr_timeout p) (pr_ends p) jobs (pr_delivered p) (pr_objectCounts p) (pr_gate p)
    (pr_cooldowns p) (pr_pendingEnds p) (pr_tasks p) (pr_nextEmit p) (pr_calls p) (pr_notifier p).
Definition set_delivered jobs delivered p : Processor S :=
  mkProcessor (pr_db p) (pr_active p) (pr_timeout p) (pr_ends p) jobs delivered (pr_objectCounts p) (pr_gate p)
    (pr_cooldowns p) (pr_pendingEnds p) (pr_tasks p) (pr_nextEmit p) (pr_calls p) (pr_notifier p).
Definition set_counts counts gate p : Processor S :=
  mkProcessor (pr_db p) (pr_active p) (pr_timeout p) (pr_ends p) (pr_jobs p) (pr_delivered p) counts gate
    (pr_cooldowns p) (pr_pendingEnds p) (pr_tasks p) (pr_nextEmit p) (pr_calls p) (pr_notifier p).
Definition set_cooldowns cooldowns p : Processor S :=
  mkProcessor (pr_db p) (pr_active p) (pr_timeout p) (pr_ends p) (pr_jobs p) (pr_delivered p) (pr_objectCounts p)
    (pr_gate p) cooldowns (pr_pendingEnds p) (pr_tasks p) (pr_nextEmit p) (pr_calls p) (pr_notifier p).
Definition set_pendingEnds pending p : Processor S :=
  mkProcessor (pr_db p) (pr_active p) (pr_timeout p) (pr_ends p) (pr_jobs p) (pr_delivered p) (pr_objectCounts p)
    (pr_gate p) (pr_cooldowns p) pending (pr_tasks p) (pr_nextEmit p) (pr_calls p) (pr_notifier p).
Definition set_tasks tasks nextEmit p : Processor S :=
  mkProcessor (pr_db p) (pr_active p) (pr_timeout p) (pr_ends p) (pr_jobs p) (pr_delivered p) (pr_objectCounts p)
    (pr_gate p) (pr_cooldowns p) (pr_pendingEnds p) tasks nextEmit (pr_calls p) (pr_notifier p).
Definition set_calls calls p : Processor S :=
  mkProcessor (pr_db p) (pr_active p) (pr_timeout p) (pr_ends p) (pr_jobs p) (pr_delivered p) (pr_objectCounts p)
    (pr_gate p) (pr_cooldowns p) (pr_pendingEnds p) (pr_tasks p) (pr_nextEmit p) calls (pr_notifier p).
Definition set_notifier s p : Processor S :=
  mkProcessor (pr_db p) (pr_active p) (pr_timeout p) (pr_ends p) (pr_jobs p) (pr_delivered p) (pr_objectCounts p)
    (pr_gate p) (pr_cooldowns p) (pr_pendingEnds p) (pr_tasks p) (pr_nextEmit p) (pr_calls p) s.

Definition call (c : Call) p : Processor S := set_calls (pr_calls p ++ [c]) p.
Definition goBackground (t : Task) p : Processor S := set_tasks (pr_tasks p ++ [t]) (pr_nextEmit p) p.
Definition send (job : Publication) p : Processor S := set_jobs (enqueue job (pr_jobs p)).1 p.

(** What [NewProcessor] returns. *)
Definition NewProcessor (db : DB) (s : S) : Processor S :=
  mkProcessor db ∅ [] [] [] [] ∅ newObjectCountGate ∅ ∅ [] 0 [] s.
End setters.

(** ** The Run loop *)

Record Options (S : Type) := mkOptions {
  op_Config : EventConfig;
  op_Recorder : option (string -> string);
  op_Notifier : option (Notifier S);
  op_Server : bool;
  op_ObjectEmbedder : bool;
  op_EndsCapacity : nat
}.
Arguments mkOptions {S}.
Arguments op_Config {S}.
Arguments op_Recorder {S}.
Arguments op_Notifier {S}.
Arguments op_Server {S}.
Arguments op_ObjectEmbedder {S}.
Arguments op_EndsCapacity {S}.

(** What a step finds: the time, whether a broker is connected, and which statements of
    the database work. *)
Record Env := mkEnv {
  en_now : Z;
  en_mqtt : bool;
  en_saves : bool;
  en_updates : bool;
  en_finds : bool;
  en_finalizes : bool;
  en_lists : bool;
  en_marks : string -> bool
}.

Definition pendingEndTTL : Z := 2 * Minute.
Definition maxPendingEnds : nat := 1024.
Definition timeoutCapacity : nat := 100.

Definition cooldownKey (submitted : Event) : string :=
  CameraName submitted +:+ "|" +:+ Label submitted +:+ "|" +:+ ZoneName submitted.

(** Rings and cries are not counted and not held back. *)
Definition is_counted (ev : Event) : bool :=
  negb (String.eqb (Kind ev) EventKindDoorbell) && negb (String.eqb (Kind ev) EventKindCry).

Definition tally (cameraName label : string) (counts : gmap string (gmap string Z)) : Z :=
  default 0 ((counts !! cameraName) ≫= fun labels => labels !! label).

Definition set_tally (cameraName label : string) (count : Z) (counts : gmap string (gmap string Z)) : gmap string (gmap string Z) :=
  <[cameraName := <[label := count]> (default ∅ (counts !! cameraName))]> counts.

(** The order of a range over the parked ends. *)
Class EndOrder := end_order : gmap string pendingEnd -> list (string * pendingEnd).
Class EndOrderOk `{EndOrder} := end_order_perm m : end_order m ≡ₚ map_to_list m.

Section loop.
Context `{Imaging} `{EndOrder} {S : Type} (opts : Options S).

Abbreviation cfg := (op_Config opts).

(** [publish] of the gate, whose [send] puts the count on the queue. *)
Definition publish_count (cameraName label : string) (seq count : Z) (p : Processor S) : Processor S :=
  let overtaken := seq <=? default 0 (published (pr_gate p) !! gate_key cameraName label) in
  let p := set_counts (pr_objectCounts p) (publish cameraName label seq (pr_gate p)) p in
  if overtaken then p else send (PublishObjectCount cameraName label count) p.

Definition publishActivityForEvent (env : Env) (eventID eventType : string) (p : Processor S) : Processor S :=
  if negb (op_Server opts) then p
  else if negb (en_finds env) then p
  else match GetActivityByEventID eventID (pr_db p) with
       | Ok (Some activity) => call (BroadcastActivitySSE eventType activity) p
       | _ => p
       end.

Definition count_begin (env : Env) (ev : Event) (p : Processor S) : Processor S :=
  if en_mqtt env && is_counted ev then
    let count := tally (CameraName ev) (Label ev) (pr_objectCounts p) + 1 in
    let '(gate, seq) := reserve (pr_gate p) in
    let p := set_counts (set_tally (CameraName ev) (Label ev) count (pr_objectCounts p)) gate p in
    publish_count (CameraName ev) (Label ev) seq count p
  else p.

(** The count and its number, or [-1] where nothing is published. *)
Definition count_end (ev : Event) (p : Processor S) : Processor S * Z * Z :=
  if is_counted ev then
    match pr_objectCounts p !! CameraName ev with
    | Some labels =>
        let count := default 0 (labels !! Label ev) - 1 in
        let count := if count <? 0 then 0 else count in
        let '(gate, seq) := reserve (pr_gate p) in
        (set_counts (set_tally (CameraName ev) (Label ev) count (pr_objectCounts p)) gate p, count, seq)
    | None => (p, -1, 0)
    end
  else (p, -1, 0).

Definition finalizeEvent (env : Env) (active : activeEvent) (endTime : Z) (p : Processor S) : Processor S :=
  let event := set_EndTime endTime (ae_event active) in
  let p :=
    if en_updates env then
      match UpdateEventEndTime (en_now env) (ID event) endTime (pr_db p) with
      | Ok db => publishActivityForEvent env (ID event) "activity_updated" (set_db db p)
      | Err _ => p
      end
    else p in
  let '(p, objectCount, objectCountSeq) := count_end event p in
  let p := goBackground (EndTask event (ae_emit active) (en_mqtt env) objectCount objectCountSeq) p in
  let p := set_cooldowns (<[cooldownKey event := endTime]> (pr_cooldowns p)) p in
  let p := if ae_tempCancel active then goBackground (StopTask (CameraName event)) p else p in
  match op_Recorder opts with
  | Some _ => goBackground (ClipTask event) p
  | None => p
  end.

Definition start_temporary (ev : Event) (p : Processor S) : Processor S * bool :=
  match op_Recorder opts with
  | Some CameraURL =>
      let url := CameraURL (CameraName ev) in
      if cf_Continuous cfg || String.eqb url "" then (p, false)
      else (call (StartTemporaryRecording (CameraName ev) url) p, true)
  | None => (p, false)
  end.

(** A ring ends itself, at once when its window is over. *)
Definition end_timer (now : Z) (ev : Event) : option (Z * EventEnd) :=
  if String.eqb (Kind ev) EventKindDoorbell then
    let endTime := Add (Timestamp ev) (DoorbellClipWindow cfg (CameraName ev)) in
    Some (Z.max now endTime, mkEventEnd (ID ev) (CameraName ev) endTime)
  else None.

Definition suppressed (now : Z) (ev : Event) (p : Processor S) : bool :=
  is_counted ev
  && match pr_cooldowns p !! cooldownKey ev with
     | Some until => Sub now until <? i64 (cf_CooldownSeconds cfg * Second)
     | None => false
     end.

(** [persistEvent] and what is told of a ring. *)
Definition announce (env : Env) (ev : Event) (p : Processor S) : Processor S :=
  let p := publishActivityForEvent env (ID ev) "activity_updated" p in
  if String.eqb (Kind ev) EventKindDoorbell && op_Server opts then
    call (BroadcastDoorbellSSE (CameraName ev) (ID ev) (SubLabel ev)) (call (RecordDoorbellPress (CameraName ev)) p)
  else p.

Definition persistEvent (env : Env) (ev : Event) (p : Processor S) : option (Processor S) :=
  if en_saves env then
    match SaveEvent (en_now env) ev (pr_db p) with Ok db => Some (set_db db p) | Err _ => None end
  else None.

(** What is done with a saved event before its timers: the announcements, the count, the
    detached goroutines and the recording that may have to be started. *)
Definition beginEvent (env : Env) (sub : Submission) (p : Processor S) : Processor S * bool :=
  let submitted := sb_event sub in
  let p := announce env submitted p in
  let p := count_begin env submitted p in
  let p := set_tasks (pr_tasks p ++ [EmitTask (pr_nextEmit p) sub (en_mqtt env)]) (pr_nextEmit p + 1) p in
  let p :=
    match sb_SnapshotImage sub with
    | Some _ => if op_ObjectEmbedder opts then goBackground (RecognizeTask sub) p else p
    | None => p
    end in
  start_temporary submitted p.

Definition acceptEvent (env : Env) (sub : Submission) (p : Processor S) : Processor S :=
  let submitted := sb_event sub in
  if suppressed (en_now env) submitted p then p
  else match persistEvent env submitted p with
  | None => p
  | Some p =>
      let emit := pr_nextEmit p in
      let '(p, tempCancel) := beginEvent env sub p in
      let deadline := Add (en_now env) (cf_MaxEventDuration cfg) in
      match pr_pendingEnds p !! ID submitted with
      | Some parked =>
          let active := mkActive submitted deadline true None tempCancel emit in
          let p := set_pendingEnds (delete (ID submitted) (pr_pendingEnds p)) p in
          let p := finalizeEvent env active (pd_endTime parked) p in
          set_active (delete (ID submitted) (pr_active p)) p
      | None =>
          let active := mkActive submitted deadline true (end_timer (en_now env) submitted) tempCancel emit in
          set_active (<[ID submitted := active]> (pr_active p)) p
      end
  end.

(** ** Ends *)

(** The choice of the end to drop: the first of the range, and every later one that was
    parked before the choice so far. *)
Definition older (best : string * Z) (e : string * pendingEnd) : string * Z :=
  if String.eqb (fst best) "" || Before (pd_parkedAt (snd e)) (snd best) then (fst e, pd_parkedAt (snd e)) else best.

Definition oldest_end (pending : gmap string pendingEnd) : string :=
  fst (fold_left older (end_order pending) (""%string, zero_time)).

Definition parkEnd (now : Z) (e : EventEnd) (p : Processor S) : Processor S :=
  let pending := pr_pendingEnds p in
  let pending := if bool_decide (maxPendingEnds <= size pending)%nat then delete (oldest_end pending) pending else pending in
  set_pendingEnds (<[ee_EventID e := mkPendingEnd (ee_EndTime e) now]> pending) p.

Definition expirePendingEnds (now : Z) (p : Processor S) : Processor S :=
  set_pendingEnds (filter (fun e => Sub now (pd_parkedAt (snd e)) < pendingEndTTL) (pr_pendingEnds p)) p.

Definition finish (env : Env) (eventID : string) (active : activeEvent) (endTime : Z) (p : Processor S) : Processor S :=
  let p := finalizeEvent env active endTime p in
  set_active (delete eventID (pr_active p)) p.

Definition handleEnd (env : Env) (e : EventEnd) (p : Processor S) : Processor S :=
  match pr_active p !! ee_EventID e with
  | Some active => finish env (ee_EventID e) active (ee_EndTime e) p
  | None => parkEnd (en_now env) e p
  end.

Definition handleTimeout (env : Env) (eventID : string) (p : Processor S) : Processor S :=
  match pr_active p !! eventID with
  | Some active => finish env eventID active (Add (Timestamp (ae_event active)) (cf_MaxEventDuration cfg)) p
  | None => p
  end.

(** ** The sweep *)

(** One turn says whether the sweep goes on. *)
Definition sweep_one (env : Env) (enqueuer : Activity -> S -> S * bool) (activity : Activity) (db : DB) (s : S) : DB * S * bool :=
  let marked := if en_marks env (act_ID activity) then (MarkActivityNotificationQueued (act_ID activity) (en_now env) db).1 else db in
  if act_HasDoorbell activity && negb (act_MissedDoorbell activity) then (marked, s, en_marks env (act_ID activity))
  else
    let '(s, accepted) := enqueuer activity s in
    if accepted : bool then (marked, s, en_marks env (act_ID activity)) else (db, s, false).

Fixpoint sweep (env : Env) (enqueuer : Activity -> S -> S * bool) (pending : list Activity) (db : DB) (s : S) : DB * S :=
  match pending with
  | [] => (db, s)
  | activity :: pending =>
      let '(db, s, continue) := sweep_one env enqueuer activity db s in
      if continue : bool then sweep env enqueuer pending db s else (db, s)
  end.

Definition enqueuePendingActivityNotifications (env : Env) (p : Processor S) : Processor S :=
  match op_Notifier opts ≫= n_EnqueueActivity with
  | None => p
  | Some enqueuer =>
      if negb (en_lists env) then p
      else match PendingActivityNotifications 100 (pr_db p) with
      | Err _ => p
      | Ok pending =>
          let '(db, s) := sweep env enqueuer pending (pr_db p) (pr_notifier p) in
          set_notifier s (set_db db p)
      end
  end.

Definition finalizeActivities (env : Env) (p : Processor S) : Processor S :=
  if negb (en_finalizes env) then p
  else
    let '(db, activities) := FinalizeDueActivities (en_now env) 100 (pr_db p) in
    let p := set_db db p in
    match activities with
    | Err _ => p
    | Ok activities =>
        let p :=
          if op_Server opts then fold_left (fun p activity => call (BroadcastActivitySSE "activity_finalized" activity) p) activities p
          else p in
        enqueuePendingActivityNotifications env p
    end.

Definition handlePresence (env : Env) (presence : PresenceEvent) (latestName : string) (p : Processor S) : Processor S :=
  let enter := bool_decide (pe_Type presence = EventZoneEnter) in
  let p := call (UpdateZonePresence (pe_ZoneID presence) (pe_Label presence) enter) p in
  if en_mqtt env then send (PublishPresence presence (if enter then latestName else "")) p else p.

(** ** Tasks *)

(** What the world answers a task: the recorder's snapshot and clips, the contexts that
    end, the objects recognised, and whether the wait for [emitDone] ran out. *)
Record Answers := mkAnswers {
  an_snapshot : option string;
  an_cancelled : nat -> bool;
  an_timedOut : bool;
  an_matched : list string;
  an_live : bool;
  an_mqtt : bool;
  an_clip : nat -> bool
}.

(** [extractClip] after its wait: up to five attempts. *)
Fixpoint extract_attempts (rest attempt : nat) (ok : nat -> bool) (event : Event) (p : Processor S) : Processor S :=
  match rest with
  | 0%nat => p
  | Datatypes.S rest =>
      let p := call (SaveClip event) p in
      if ok attempt then p else extract_attempts rest (Datatypes.S attempt) ok event p
  end.

Definition recognizeObject (ans : Answers) (sub : Submission) (p : Processor S) : Processor S :=
  let submitted := sb_event sub in
  let p :=
    match an_matched ans with
    | name :: _ => if an_live ans then call (SetTrackName (CameraName submitted) (TrackID submitted) name) p else p
    | [] => p
    end in
  if an_mqtt ans then fold_left (fun p name => send (PublishObjectSighting name submitted) p) (an_matched ans) p else p.

Definition publishEventEnd (event : Event) (publisher : bool) (objectCount objectCountSeq : Z) (p : Processor S) : Processor S :=
  if negb publisher then p
  else
    let p := send (PublishEvent event) p in
    if 0 <=? objectCount then publish_count (CameraName event) (Label event) objectCountSeq objectCount p else p.

(** Whether [emitDone] is still open. *)
Definition emitting (id : Z) (tasks : list Task) : bool :=
  existsb (fun t => match t with EmitTask id' _ _ => id' =? id | _ => false end) tasks.

Definition run_task (ans : Answers) (t : Task) (p : Processor S) : Processor S :=
  match t with
  | EmitTask _ sub publisher =>
      let saver := match op_Recorder opts with Some _ => Some (an_snapshot ans) | None => None end in
      let '(s, jobs) := EmitEventArtifacts saver publisher (op_Notifier opts) (cf_SnapshotQuality cfg) (an_cancelled ans) sub
                          (pr_notifier p) (pr_jobs p) in
      set_notifier s (set_jobs jobs p)
  | RecognizeTask sub => recognizeObject ans sub p
  | EndTask event _ publisher objectCount objectCountSeq => publishEventEnd event publisher objectCount objectCountSeq p
  | StopTask cameraName => call (StopTemporaryRecording cameraName) p
  | ClipTask event => extract_attempts 5 0 (an_clip ans) event p
  end.

(** ** The system *)

(** What happens, one at a time: the cases of the [select], the timers, the tasks, the
    worker of the queue, the senders of ends, and every other user of the database. *)
Inductive Op :=
| Submit (env : Env) (sub : Submission)
| SendEnd (e : EventEnd)
| ReceiveEnd (env : Env)
| TimerFires (now : Z) (eventID : string)
| EndTimerFires (now : Z) (eventID : string)
| ReceiveTimeout (env : Env)
| Tick (env : Env)
| Presence (env : Env) (presence : PresenceEvent) (latestName : string)
| RunTask (i : nat) (ans : Answers)
| Deliver (connected : bool)
| Elsewhere (db : DB).

Definition disarm (active : activeEvent) : activeEvent :=
  mkActive (ae_event active) (ae_deadline active) false (ae_endTimer active) (ae_tempCancel active) (ae_emit active).
Definition disarm_end (active : activeEvent) : activeEvent :=
  mkActive (ae_event active) (ae_deadline active) (ae_timer active) None (ae_tempCancel active) (ae_emit active).

Definition may_run (ans : Answers) (t : Task) (tasks : list Task) : bool :=
  match t with
  | EndTask _ emit _ _ _ => negb (emitting emit tasks) || an_timedOut ans
  | _ => true
  end.

(** [None]: the operation cannot happen now. *)
Definition step (op : Op) (p : Processor S) : option (Processor S) :=
  match op with
  | Submit env sub => Some (acceptEvent env sub p)
  | SendEnd e =>
      if bool_decide (length (pr_ends p) < op_EndsCapacity opts)%nat then Some (set_channels (pr_timeout p) (pr_ends p ++ [e]) p)
      else None
  | ReceiveEnd env =>
      match pr_ends p with
      | e :: ends => Some (handleEnd env e (set_channels (pr_timeout p) ends p))
      | [] => None
      end
  | TimerFires now eventID =>
      match pr_active p !! eventID with
      | Some active =>
          if ae_timer active && (ae_deadline active <=? now) then
            let timeout := if bool_decide (length (pr_timeout p) < timeoutCapacity)%nat then pr_timeout p ++ [eventID] else pr_timeout p in
            Some (set_channels timeout (pr_ends p) (set_active (<[eventID := disarm active]> (pr_active p)) p))
          else None
      | None => None
      end
  | EndTimerFires now eventID =>
      match pr_active p !! eventID with
      | Some active =>
          match ae_endTimer active with
          | Some (at_, e) =>
              if at_ <=? now then
                let ends := if bool_decide (length (pr_ends p) < op_EndsCapacity opts)%nat then pr_ends p ++ [e] else pr_ends p in
                Some (set_channels (pr_timeout p) ends (set_active (<[eventID := disarm_end active]> (pr_active p)) p))
              else None
          | None => None
          end
      | None => None
      end
  | ReceiveTimeout env =>
      match pr_timeout p with
      | eventID :: timeout => Some (handleTimeout env eventID (set_channels timeout (pr_ends p) p))
      | [] => None
      end
  | Tick env => Some (expirePendingEnds (en_now env) (finalizeActivities env p))
  | Presence env presence latestName => Some (handlePresence env presence latestName p)
  | RunTask i ans =>
      match pr_tasks p !! i with
      | Some t =>
          if may_run ans t (pr_tasks p) then Some (run_task ans t (set_tasks (delete i (pr_tasks p)) (pr_nextEmit p) p)) else None
      | None => None
      end
  | Deliver connected =>
      match pr_jobs p with
      | job :: jobs => Some (set_delivered jobs (if connected : bool then pr_delivered p ++ [job] else pr_delivered p) p)
      | [] => None
      end
  | Elsewhere db => Some (set_db db p)
  end.

Fixpoint run_ops (ops : list Op) (p : Processor S) : option (Processor S) :=
  match ops with
  | [] => Some p
  | op :: ops => step op p ≫= run_ops ops
  end.

(** What happens when the loop stops. *)
Definition stopActiveTimers (p : Processor S) : Processor S :=
  fold_left (fun p e =>
    let p := if ae_tempCancel (snd e) then call (StopTemporaryRecording (CameraName (ae_event (snd e)))) p else p in
    set_active (delete (fst e) (pr_active p)) p) (map_to_list (pr_active p)) p.

End loop.
