(* ===== verification/EventTheorems.v ===== *)
(** Properties of the event processor: the tally of objects, the order of begins and
    ends, and the ends that wait. *)

From S2P Require Import Prelude Float64 CameraEvent ActivityStore ObjectCount EventProcessor.

#[local] Open Scope Z_scope.

Section theorems.
Context `{Imaging} `{EndOrder} {S : Type} (opts : Options S).
Implicit Types (p : Processor S) (env : Env).

(** ** What an operation leaves alone *)

Lemma publish_count_frame c l seq n p :
  let p' := publish_count c l seq n p in
  pr_db p' = pr_db p /\ pr_active p' = pr_active p /\ pr_objectCounts p' = pr_objectCounts p /\
  pr_pendingEnds p' = pr_pendingEnds p /\ pr_cooldowns p' = pr_cooldowns p /\ pr_nextEmit p' = pr_nextEmit p.
Proof. unfold publish_count. by destruct (seq <=? _). Qed.

Lemma publishActivityForEvent_frame env id ty p :
  exists calls, publishActivityForEvent opts env id ty p = set_calls calls p.
Proof.
  unfold publishActivityForEvent. destruct (op_Server opts), (en_finds env); cbn [negb]; try (by exists (pr_calls p); destruct p).
  destruct (GetActivityByEventID _ _) as [[a|]|]; try (by exists (pr_calls p); destruct p). by eexists.
Qed.

Lemma announce_frame env ev p : exists calls, announce opts env ev p = set_calls calls p.
Proof.
  unfold announce. destruct (publishActivityForEvent_frame env (ID ev) "activity_updated" p) as [calls ->].
  destruct (_ && _); by eexists.
Qed.

Lemma start_temporary_frame ev p : exists calls, (start_temporary opts ev p).1 = set_calls calls p.
Proof.
  unfold start_temporary. destruct (op_Recorder opts); [destruct (_ || _)|]; cbn; first [by exists (pr_calls p); destruct p|by eexists].
Qed.

(** ** The tally *)

(** The active events of a camera and label that are counted. *)
Definition present (cameraName label : string) (active : gmap string activeEvent) : Z :=
  Z.of_nat (size (filter (fun e => is_counted (ae_event (snd e)) = true /\
    CameraName (ae_event (snd e)) = cameraName /\ Label (ae_event (snd e)) = label) active)).

Definition counts_of (ev : Event) (cameraName label : string) : bool :=
  is_counted ev && String.eqb (CameraName ev) cameraName && String.eqb (Label ev) label.

Definition one (ev : Event) (cameraName label : string) : Z := if counts_of ev cameraName label then 1 else 0.

Lemma counts_of_spec ev c l : counts_of ev c l = true <-> is_counted ev = true /\ CameraName ev = c /\ Label ev = l.
Proof. unfold counts_of. rewrite !andb_true_iff, !String.eqb_eq. tauto. Qed.

Lemma present_insert c l id active m :
  m !! id = None -> present c l (<[id := active]> m) = present c l m + one (ae_event active) c l.
Proof.
  intros Hn. unfold present, one. destruct (counts_of (ae_event active) c l) eqn:E.
  - rewrite map_filter_insert_True by (by apply counts_of_spec in E). rewrite map_size_insert_None; [lia|].
    apply map_lookup_filter_None. by left.
  - rewrite map_filter_insert_False by (intros Hc%counts_of_spec; cbn [snd] in Hc; congruence). rewrite delete_id by done. lia.
Qed.

Lemma present_delete c l id active m :
  m !! id = Some active -> present c l (delete id m) = present c l m - one (ae_event active) c l.
Proof.
  intros Hs. rewrite <- (insert_delete_id m id active Hs) at 2. rewrite present_insert by apply lookup_delete_eq. lia.
Qed.

(** How counting changes the tally. *)
Lemma tally_set_tally c l n c' l' counts :
  tally c' l' (set_tally c l n counts) = if bool_decide (c' = c /\ l' = l) then n else tally c' l' counts.
Proof.
  unfold tally, set_tally. case_bool_decide as E.
  - destruct E as [-> ->]. by rewrite lookup_insert_eq; cbn; rewrite lookup_insert_eq.
  - destruct (decide (c' = c)) as [->|Hc]; [|by rewrite lookup_insert_ne].
    rewrite lookup_insert_eq. cbn. rewrite lookup_insert_ne by naive_solver. destruct (counts !! c); [done|]. cbn. by rewrite lookup_empty.
Qed.

Lemma one_spec ev c l : one ev c l = if bool_decide (is_counted ev = true /\ c = CameraName ev /\ l = Label ev) then 1 else 0.
Proof.
  unfold one. destruct (counts_of ev c l) eqn:E.
  - rewrite bool_decide_true; [done|]. apply counts_of_spec in E. naive_solver.
  - rewrite bool_decide_false; [done|]. intros (? & -> & ->). by rewrite (proj2 (counts_of_spec ev _ _)) in E.
Qed.

Lemma count_begin_tally env ev p c l :
  tally c l (pr_objectCounts (count_begin env ev p)) = tally c l (pr_objectCounts p) + (if en_mqtt env then one ev c l else 0).
Proof.
  unfold count_begin. destruct (en_mqtt env); cbn [andb]; [|lia]. rewrite one_spec. destruct (is_counted ev); cbn [reserve].
  - destruct (publish_count_frame (CameraName ev) (Label ev) (u64 (next (pr_gate p) + 1)) (tally (CameraName ev) (Label ev) (pr_objectCounts p) + 1)
      (set_counts (set_tally (CameraName ev) (Label ev) (tally (CameraName ev) (Label ev) (pr_objectCounts p) + 1) (pr_objectCounts p))
        (mkGate (u64 (next (pr_gate p) + 1)) (published (pr_gate p)) (sent (pr_gate p))) p)) as (_ & _ & -> & _).
    cbn [pr_objectCounts set_counts]. rewrite tally_set_tally. repeat case_bool_decide; naive_solver lia.
  - rewrite bool_decide_false by naive_solver. lia.
Qed.

Lemma count_end_tally ev p c l :
  tally c l (pr_objectCounts (count_end ev p).1.1) =
  (if counts_of ev c l then Z.max 0 (tally c l (pr_objectCounts p) - 1) else tally c l (pr_objectCounts p)).
Proof.
  unfold count_end. destruct (is_counted ev) eqn:Ec; [|by unfold counts_of; rewrite Ec].
  destruct (pr_objectCounts p !! CameraName ev) as [labels|] eqn:El.
  - cbn [reserve fst pr_objectCounts set_counts]. rewrite tally_set_tally.
    assert (default 0 (labels !! Label ev) = tally (CameraName ev) (Label ev) (pr_objectCounts p)) as -> by (unfold tally; by rewrite El).
    destruct (counts_of ev c l) eqn:E.
    + apply counts_of_spec in E as (_ & <- & <-). rewrite bool_decide_true by done. destruct (Z.ltb_spec (tally (CameraName ev) (Label ev) (pr_objectCounts p) - 1) 0); lia.
    + rewrite bool_decide_false; [done|]. intros [-> ->]. by rewrite (proj2 (counts_of_spec ev _ _)) in E.
  - cbn [fst]. destruct (counts_of ev c l) eqn:E; [|done]. apply counts_of_spec in E as (_ & <- & <-). unfold tally. by rewrite El.
Qed.

(** ** What an operation does to the loop's own state *)

Lemma count_end_frame ev p :
  pr_active (count_end ev p).1.1 = pr_active p /\ pr_pendingEnds (count_end ev p).1.1 = pr_pendingEnds p.
Proof. unfold count_end. destruct (is_counted ev); [|done]. by destruct (pr_objectCounts p !! CameraName ev). Qed.

(** [updated]: the state after the end time is written. *)
Definition updated env (ev : Event) endTime p : Processor S :=
  if en_updates env then
    match UpdateEventEndTime (en_now env) (ID ev) endTime (pr_db p) with
    | Ok db => publishActivityForEvent opts env (ID ev) "activity_updated" (set_db db p)
    | Err _ => p
    end
  else p.

Lemma updated_frame env ev endTime p :
  let p' := updated env ev endTime p in
  pr_active p' = pr_active p /\ pr_pendingEnds p' = pr_pendingEnds p /\ pr_objectCounts p' = pr_objectCounts p.
Proof.
  unfold updated. destruct (en_updates env); [|done]. destruct (UpdateEventEndTime _ _ _ _) as [db|]; [|done].
  by destruct (publishActivityForEvent_frame env (ID ev) "activity_updated" (set_db db p)) as [calls ->].
Qed.

Lemma finalizeEvent_frame env active endTime p :
  let p' := finalizeEvent opts env active endTime p in
  pr_active p' = pr_active p /\ pr_pendingEnds p' = pr_pendingEnds p /\
  forall c l, tally c l (pr_objectCounts p') =
    (if counts_of (ae_event active) c l then Z.max 0 (tally c l (pr_objectCounts p) - 1) else tally c l (pr_objectCounts p)).
Proof.
  cbn zeta. unfold finalizeEvent. fold (updated env (set_EndTime endTime (ae_event active)) endTime p).
  set (ev := set_EndTime endTime (ae_event active)).
  destruct (updated_frame env ev endTime p) as (Ha & Hp & Hc). set (p1 := updated env ev endTime p) in *.
  destruct (count_end_frame ev p1) as [Ha2 Hp2]. pose proof (count_end_tally ev p1) as Ht.
  destruct (count_end ev p1) as [[p2 n] seq]. cbn [fst] in *. rewrite Hc in Ht.
  destruct (ae_tempCancel active), (op_Recorder opts); (split_and!; [by rewrite <- Ha, <- Ha2|by rewrite <- Hp, <- Hp2|exact Ht]).
Qed.

Lemma count_begin_frame env ev p :
  pr_active (count_begin env ev p) = pr_active p /\ pr_pendingEnds (count_begin env ev p) = pr_pendingEnds p.
Proof.
  unfold count_begin. destruct (_ && _); [|done]. cbn [reserve].
  match goal with |- context [publish_count ?c ?l ?s ?n ?q] => destruct (publish_count_frame c l s n q) as (_ & Ha & _ & Hp & _) end.
  by rewrite Ha, Hp.
Qed.

Lemma beginEvent_frame env sub p :
  let p' := (beginEvent opts env sub p).1 in
  pr_active p' = pr_active p /\ pr_pendingEnds p' = pr_pendingEnds p /\
  forall c l, tally c l (pr_objectCounts p') = tally c l (pr_objectCounts p) + (if en_mqtt env then one (sb_event sub) c l else 0).
Proof.
  cbn zeta. unfold beginEvent. match goal with |- context [start_temporary opts ?e ?q] => destruct (start_temporary_frame e q) as [calls ->] end.
  destruct (announce_frame env (sb_event sub) p) as [calls' ->].
  destruct (count_begin_frame env (sb_event sub) (set_calls calls' p)) as [Ha Hp].
  pose proof (fun c l => count_begin_tally env (sb_event sub) (set_calls calls' p) c l) as Ht.
  destruct (sb_SnapshotImage sub), (op_ObjectEmbedder opts); split_and!; try exact Ha; try exact Hp; exact Ht.
Qed.

Inductive accepted_as env (sub : Submission) p : Processor S -> Prop :=
| accept_dropped : accepted_as env sub p p
| accept_adopted db parked active :
    pr_pendingEnds p !! ID (sb_event sub) = Some parked -> ae_event active = sb_event sub ->
    let p1 := (beginEvent opts env sub (set_db db p)).1 in
    let p2 := finalizeEvent opts env active (pd_endTime parked) (set_pendingEnds (delete (ID (sb_event sub)) (pr_pendingEnds p1)) p1) in
    accepted_as env sub p (set_active (delete (ID (sb_event sub)) (pr_active p2)) p2)
| accept_active db active :
    pr_pendingEnds p !! ID (sb_event sub) = None -> ae_event active = sb_event sub ->
    let p1 := (beginEvent opts env sub (set_db db p)).1 in
    accepted_as env sub p (set_active (<[ID (sb_event sub) := active]> (pr_active p1)) p1).

Lemma acceptEvent_cases env sub p : accepted_as env sub p (acceptEvent opts env sub p).
Proof.
  unfold acceptEvent. destruct (suppressed _ _ _ _); [constructor|]. unfold persistEvent.
  destruct (en_saves env); [|constructor]. destruct (SaveEvent _ _ _) as [db|]; [|constructor].
  destruct (beginEvent_frame env sub (set_db db p)) as (_ & Hp & _).
  pose proof (fun parked temp => accept_adopted env sub p db parked
    (mkActive (sb_event sub) (Add (en_now env) (cf_MaxEventDuration (op_Config opts))) true None temp (pr_nextEmit p))) as H1.
  pose proof (fun temp => accept_active env sub p db (mkActive (sb_event sub) (Add (en_now env) (cf_MaxEventDuration (op_Config opts))) true
    (end_timer opts (en_now env) (sb_event sub)) temp (pr_nextEmit p))) as H2.
  destruct (beginEvent opts env sub (set_db db p)) as [p1 temp]. cbn [fst] in *. rewrite Hp in *. cbn [pr_pendingEnds set_db] in *.
  destruct (pr_pendingEnds p !! ID (sb_event sub)) as [parked|]; [by apply H1|by apply H2].
Qed.

(** [exact]: every event so far found the broker connected. *)
Definition tally_ok (exact : bool) (active : gmap string activeEvent) (counts : gmap string (gmap string Z)) : Prop :=
  forall c l, 0 <= tally c l counts <= present c l active /\ (exact = true -> tally c l counts = present c l active).

Lemma one_range ev c l : 0 <= one ev c l <= 1.
Proof. unfold one. destruct (counts_of ev c l); lia. Qed.

Lemma present_member c l id active m :
  m !! id = Some active -> one (ae_event active) c l <= present c l m.
Proof. intros Hs. pose proof (present_delete c l id active m Hs). unfold present in *. lia. Qed.

Lemma accept_tally exact env sub p :
  pr_active p !! ID (sb_event sub) = None -> tally_ok exact (pr_active p) (pr_objectCounts p) ->
  let p' := acceptEvent opts env sub p in
  tally_ok (exact && en_mqtt env) (pr_active p') (pr_objectCounts p').
Proof.
  intros Hfresh Hok. cbn zeta. destruct (acceptEvent_cases env sub p) as [|db parked active Hp Hev p1 p2|db active Hp Hev p1].
  - intros c l. destruct (Hok c l) as [Hr He]. split; [done|]. intros [-> _]%andb_true_iff. auto.
  - destruct (beginEvent_frame env sub (set_db db p)) as (Ha & _ & Ht). fold p1 in Ha, Ht. cbn [pr_active set_db] in Ha.
    destruct (finalizeEvent_frame env active (pd_endTime parked)
      (set_pendingEnds (delete (ID (sb_event sub)) (pr_pendingEnds p1)) p1)) as (Ha2 & _ & Ht2).
    fold p2 in Ha2, Ht2. cbn [pr_active pr_objectCounts set_pendingEnds set_active] in *.
    intros c l. rewrite Ha2, Ha, (delete_id _ _ Hfresh), Ht2, Ht, Hev. cbn [set_db pr_objectCounts]. destruct (Hok c l) as [Hr He].
    unfold one. destruct (counts_of (sb_event sub) c l), (en_mqtt env), exact; cbn [andb]; split; (lia || intros; try done; specialize (He eq_refl); lia).
  - destruct (beginEvent_frame env sub (set_db db p)) as (Ha & _ & Ht). fold p1 in Ha, Ht. cbn [pr_active set_db] in Ha.
    cbn [pr_active pr_objectCounts set_active]. intros c l. rewrite Ha, (present_insert c l _ active _ Hfresh), Ht, Hev. destruct (Hok c l) as [Hr He].
    pose proof (one_range (sb_event sub) c l). cbn [set_db pr_objectCounts].
    destruct (en_mqtt env), exact; cbn [andb]; split; (lia || intros; try done; specialize (He eq_refl); lia).
Qed.

Lemma finish_tally exact env id active endTime p :
  pr_active p !! id = Some active -> tally_ok exact (pr_active p) (pr_objectCounts p) ->
  let p' := finish opts env id active endTime p in
  tally_ok exact (pr_active p') (pr_objectCounts p').
Proof.
  intros Hs Hok. cbn zeta. intros c l. unfold finish. destruct (finalizeEvent_frame env active endTime p) as (Ha & _ & Ht).
  cbn [pr_active pr_objectCounts set_active]. rewrite Ha, Ht, (present_delete c l id active) by done.
  destruct (Hok c l) as [Hr He]. pose proof (present_member c l id active _ Hs) as Hm. unfold one in *.
  destruct (counts_of (ae_event active) c l); split; (lia || intros E; specialize (He E); lia).
Qed.

(** Re-arming changes no event. *)
Lemma tally_ok_same_events exact id active active' m counts :
  m !! id = Some active -> ae_event active' = ae_event active -> tally_ok exact m counts -> tally_ok exact (<[id := active']> m) counts.
Proof.
  intros Hs He Hok c l. destruct (Hok c l) as [Hr Heq]. assert (present c l (<[id := active']> m) = present c l m) as ->; [|done].
  rewrite <- insert_delete_eq, present_insert, He, (present_delete c l id active) by (done || apply lookup_delete_eq). lia.
Qed.

Lemma fold_send_frame (names : list string) ev p :
  let p' := fold_left (fun p name => send (PublishObjectSighting name ev) p) names p in
  pr_active p' = pr_active p /\ pr_objectCounts p' = pr_objectCounts p /\ pr_pendingEnds p' = pr_pendingEnds p.
Proof. revert p. induction names as [|n names IH]; intros p; [done|]. cbn [fold_left]. destruct (IH (send (PublishObjectSighting n ev) p)) as (-> & -> & ->). done. Qed.

Lemma extract_frame rest : forall attempt ok ev p,
  let p' := extract_attempts rest attempt ok ev p in
  pr_active p' = pr_active p /\ pr_objectCounts p' = pr_objectCounts p /\ pr_pendingEnds p' = pr_pendingEnds p.
Proof.
  induction rest as [|rest IH]; intros attempt ok ev p; [done|]. cbn [extract_attempts].
  destruct (ok attempt); [done|]. by destruct (IH (Datatypes.S attempt) ok ev (call (SaveClip ev) p)) as (-> & -> & ->).
Qed.

Lemma run_task_frame ans t p :
  let p' := run_task opts ans t p in
  pr_active p' = pr_active p /\ pr_objectCounts p' = pr_objectCounts p /\ pr_pendingEnds p' = pr_pendingEnds p.
Proof.
  destruct t as [id sub pub|sub|ev emit pub n seq|c|ev]; cbn [run_task].
  - match goal with |- context [EmitEventArtifacts ?a ?b ?c ?d ?e ?f ?g ?h] => destruct (EmitEventArtifacts a b c d e f g h) as [s jobs] end. done.
  - unfold recognizeObject. cbn zeta. set (q := match an_matched ans with [] => p | _ => _ end).
    assert (pr_active q = pr_active p /\ pr_objectCounts q = pr_objectCounts p /\ pr_pendingEnds q = pr_pendingEnds p) as (<- & <- & <-).
    { subst q. destruct (an_matched ans); [done|]. by destruct (an_live ans). }
    destruct (an_mqtt ans); [|done]. apply fold_send_frame.
  - unfold publishEventEnd. destruct pub; [|done]. cbn [negb]. destruct (0 <=? n); [|done].
    by destruct (publish_count_frame (CameraName ev) (Label ev) seq n (send (PublishEvent ev) p)) as (_ & -> & -> & -> & _).
  - done.
  - apply extract_frame.
Qed.

Lemma finalizeActivities_frame env p :
  let p' := finalizeActivities opts env p in
  pr_active p' = pr_active p /\ pr_objectCounts p' = pr_objectCounts p /\ pr_pendingEnds p' = pr_pendingEnds p.
Proof.
  assert (forall q, pr_active (enqueuePendingActivityNotifications opts env q) = pr_active q /\
    pr_objectCounts (enqueuePendingActivityNotifications opts env q) = pr_objectCounts q /\
    pr_pendingEnds (enqueuePendingActivityNotifications opts env q) = pr_pendingEnds q) as Hn.
  { intros q. unfold enqueuePendingActivityNotifications. destruct (_ ≫= _); [|done]. destruct (en_lists env); [|done]. cbn [negb].
    destruct (PendingActivityNotifications _ _); [|done]. by destruct (sweep _ _ _ _ _). }
  assert (forall l (q : Processor S), let q' := fold_left (fun q a => call (BroadcastActivitySSE "activity_finalized" a) q) l q in
    pr_active q' = pr_active q /\ pr_objectCounts q' = pr_objectCounts q /\ pr_pendingEnds q' = pr_pendingEnds q) as Hf.
  { intros l. induction l as [|a l IH]; intros q; [done|]. cbn [fold_left]. by destruct (IH (call (BroadcastActivitySSE "activity_finalized" a) q)) as (-> & -> & ->). }
  unfold finalizeActivities. destruct (en_finalizes env); [|done]. cbn [negb]. destruct (FinalizeDueActivities _ _ _) as [db [l|]]; [|done].
  destruct (op_Server opts).
  - cbn zeta. match goal with |- context [enqueuePendingActivityNotifications opts env ?q] => destruct (Hn q) as (-> & -> & ->) end.
    destruct (Hf l (set_db db p)) as (-> & -> & ->). done.
  - match goal with |- context [enqueuePendingActivityNotifications opts env ?q] => destruct (Hn q) as (-> & -> & ->) end. done.
Qed.

(** ** The theorem on the tally *)

(** Event IDs are not used again while their event is active. *)
Definition fresh_id (op : Op) p : Prop :=
  match op with Submit _ sub => pr_active p !! ID (sb_event sub) = None | _ => True end.

Definition connected (op : Op) : bool := match op with Submit env _ => en_mqtt env | _ => true end.

Fixpoint fresh_run (ops : list Op) p : Prop :=
  match ops with
  | [] => True
  | op :: ops => fresh_id op p /\ match step opts op p with Some p => fresh_run ops p | None => True end
  end.

Lemma step_tally exact op p p' :
  step opts op p = Some p' -> fresh_id op p -> tally_ok exact (pr_active p) (pr_objectCounts p) ->
  tally_ok (exact && connected op) (pr_active p') (pr_objectCounts p').
Proof.
  destruct op as [env sub|e|env|now id|now id|env|env|env pe nm|i ans|conn|db]; cbn [step fresh_id connected]; rewrite ?andb_true_r.
  - intros [= <-] Hf Hok. by apply accept_tally.
  - case_bool_decide; [|done]. by intros [= <-].
  - destruct (pr_ends p) as [|e ends]; [done|]. intros [= <-] _ Hok. unfold handleEnd.
    destruct (pr_active (set_channels (pr_timeout p) ends p) !! ee_EventID e) as [active|] eqn:E; [by apply finish_tally|done].
  - destruct (pr_active p !! id) as [active|] eqn:E; [|done]. destruct (_ && _); [|done]. intros [= <-] _ Hok.
    by apply (tally_ok_same_events _ id active).
  - destruct (pr_active p !! id) as [active|] eqn:E; [|done]. destruct (ae_endTimer active) as [[at_ e]|]; [|done].
    destruct (at_ <=? now); [|done]. intros [= <-] _ Hok. by apply (tally_ok_same_events _ id active).
  - destruct (pr_timeout p) as [|id timeout]; [done|]. intros [= <-] _ Hok. unfold handleTimeout.
    destruct (pr_active (set_channels timeout (pr_ends p) p) !! id) as [active|] eqn:E; [by apply finish_tally|done].
  - intros [= <-] _ Hok. destruct (finalizeActivities_frame env p) as (Ha & Hc & _). unfold expirePendingEnds.
    cbn [pr_active pr_objectCounts set_pendingEnds]. by rewrite Ha, Hc.
  - intros [= <-] _ Hok. unfold handlePresence. by destruct (en_mqtt env).
  - destruct (pr_tasks p !! i) as [t|]; [|done]. destruct (may_run _ _ _); [|done]. intros [= <-] _ Hok.
    by destruct (run_task_frame ans t (set_tasks (delete i (pr_tasks p)) (pr_nextEmit p) p)) as (-> & -> & _).
  - destruct (pr_jobs p); [done|]. by intros [= <-].
  - by intros [= <-].
Qed.

Lemma run_tally ops : forall exact p p',
  run_ops opts ops p = Some p' -> fresh_run ops p -> tally_ok exact (pr_active p) (pr_objectCounts p) ->
  tally_ok (exact && forallb connected ops) (pr_active p') (pr_objectCounts p').
Proof.
  induction ops as [|op ops IH]; intros exact p p' Hrun Hf Hok; cbn [run_ops fresh_run forallb] in *.
  - injection Hrun as <-. by rewrite andb_true_r.
  - apply bind_Some in Hrun as (q & Hq & Hrun). destruct Hf as [Hf1 Hf2]. rewrite Hq in Hf2. rewrite andb_assoc.
    apply (IH _ q p' Hrun Hf2), (step_tally _ _ p); done.
Qed.

(** C5: the tally of objects.  However begins, ends, timeouts, tasks, the broker and the
    other users of the database interleave, the count of a camera and label is never
    negative and never more than the number of active events it stands for; and it is
    exactly that number as long as every event found the broker connected. *)
Theorem tally_counts_active_objects ops db s p c l :
  run_ops opts ops (NewProcessor db s) = Some p -> fresh_run ops (NewProcessor db s) ->
  0 <= tally c l (pr_objectCounts p) <= present c l (pr_active p) /\
  (forallb connected ops = true -> tally c l (pr_objectCounts p) = present c l (pr_active p)).
Proof.
  intros Hrun Hf. exact (run_tally ops true (NewProcessor db s) p Hrun Hf (fun c l => conj (conj (Z.le_refl 0) (Z.le_refl 0)) (fun _ => eq_refl)) c l).
Qed.

(** ** Begins and ends in either order *)

Lemma publishActivity_set_active env id ty m p :
  publishActivityForEvent opts env id ty (set_active m p) = set_active m (publishActivityForEvent opts env id ty p).
Proof.
  unfold publishActivityForEvent. destruct (op_Server opts), (en_finds env); try done. cbn [negb pr_db set_active].
  by destruct (GetActivityByEventID _ _) as [[]|].
Qed.

Lemma publishActivity_set_pendingEnds env id ty m p :
  publishActivityForEvent opts env id ty (set_pendingEnds m p) = set_pendingEnds m (publishActivityForEvent opts env id ty p).
Proof.
  unfold publishActivityForEvent. destruct (op_Server opts), (en_finds env); try done. cbn [negb pr_db set_pendingEnds].
  by destruct (GetActivityByEventID _ _) as [[]|].
Qed.

Lemma finalizeEvent_set_active env active t m p :
  finalizeEvent opts env active t (set_active m p) = set_active m (finalizeEvent opts env active t p).
Proof.
  unfold finalizeEvent. fold (updated env (set_EndTime t (ae_event active)) t p) (updated env (set_EndTime t (ae_event active)) t (set_active m p)).
  assert (updated env (set_EndTime t (ae_event active)) t (set_active m p) = set_active m (updated env (set_EndTime t (ae_event active)) t p)) as ->.
  { unfold updated. destruct (en_updates env); [|done]. cbn [pr_db set_active]. destruct (UpdateEventEndTime _ _ _ _) as [db|]; [|done].
    exact (publishActivity_set_active env _ _ m (set_db db p)). }
  generalize (updated env (set_EndTime t (ae_event active)) t p). intros q. unfold count_end. cbn [pr_objectCounts pr_gate set_active].
  destruct (is_counted _); [destruct (pr_objectCounts q !! _)|]; by destruct (ae_tempCancel active), (op_Recorder opts).
Qed.

Lemma finalizeEvent_ext env active active' t p :
  ae_event active = ae_event active' -> ae_emit active = ae_emit active' -> ae_tempCancel active = ae_tempCancel active' ->
  finalizeEvent opts env active t p = finalizeEvent opts env active' t p.
Proof. unfold finalizeEvent. by intros -> -> ->. Qed.

Lemma beginEvent_set_pendingEnds env sub m p :
  beginEvent opts env sub (set_pendingEnds m p) = (set_pendingEnds m (beginEvent opts env sub p).1, (beginEvent opts env sub p).2).
Proof.
  unfold beginEvent. assert (announce opts env (sb_event sub) (set_pendingEnds m p) = set_pendingEnds m (announce opts env (sb_event sub) p)) as ->.
  { unfold announce. rewrite publishActivity_set_pendingEnds. by destruct (_ && _). }
  generalize (announce opts env (sb_event sub) p). intros q.
  assert (count_begin env (sb_event sub) (set_pendingEnds m q) = set_pendingEnds m (count_begin env (sb_event sub) q)) as ->.
  { unfold count_begin. cbn [pr_objectCounts pr_gate set_pendingEnds]. destruct (_ && _); [|done]. cbn [reserve].
    unfold publish_count. cbn [set_counts set_pendingEnds pr_gate pr_objectCounts]. by destruct (_ <=? _). }
  unfold start_temporary. destruct (sb_SnapshotImage sub), (op_ObjectEmbedder opts), (op_Recorder opts); try done; by destruct (_ || _).
Qed.

(** C32: an end that overtakes its event is not lost.  Where an event and its end arrive at
    the same instant, in whichever order the loop receives them, the processor is left
    in the same state: the same end time, tally, cooldown, publications and clip; as
    long as fewer than 1024 other ends wait. *)
Theorem end_may_overtake_its_event env sub e p :
  ee_EventID e = ID (sb_event sub) -> pr_active p !! ID (sb_event sub) = None ->
  pr_pendingEnds p !! ID (sb_event sub) = None -> (size (pr_pendingEnds p) < maxPendingEnds)%nat ->
  acceptEvent opts env sub (handleEnd opts env e p) = handleEnd opts env e (acceptEvent opts env sub p).
Proof.
  intros He Ha Hp Hroom.
  assert (handleEnd opts env e p = set_pendingEnds (<[ID (sb_event sub) := mkPendingEnd (ee_EndTime e) (en_now env)]> (pr_pendingEnds p)) p) as Hpark.
  { unfold handleEnd. rewrite He, Ha. unfold parkEnd. rewrite bool_decide_false by lia. by rewrite He. }
  rewrite Hpark. unfold acceptEvent. cbn [suppressed pr_cooldowns set_pendingEnds].
  assert (suppressed opts (en_now env) (sb_event sub) (set_pendingEnds (<[ID (sb_event sub) := mkPendingEnd (ee_EndTime e) (en_now env)]> (pr_pendingEnds p)) p)
    = suppressed opts (en_now env) (sb_event sub) p) as -> by done.
  destruct (suppressed _ _ _ _); [by rewrite Hpark|]. unfold persistEvent. cbn [pr_db set_pendingEnds].
  destruct (en_saves env); [|by rewrite Hpark]. destruct (SaveEvent _ _ _) as [db|]; [|by rewrite Hpark].
  pose proof (beginEvent_set_pendingEnds env sub (<[ID (sb_event sub) := mkPendingEnd (ee_EndTime e) (en_now env)]> (pr_pendingEnds p)) (set_db db p)) as Hb.
  destruct (beginEvent_frame env sub (set_db db p)) as (Ha1 & Hp1 & _).
  change (set_db db (set_pendingEnds ?m p)) with (set_pendingEnds m (set_db db p)). rewrite Hb.
  destruct (beginEvent opts env sub (set_db db p)) as [p1 temp]. cbn [fst snd pr_pendingEnds set_pendingEnds set_db pr_nextEmit] in *.
  rewrite lookup_insert_eq, Hp1, Hp. unfold handleEnd. cbn [pr_active set_active]. rewrite He, lookup_insert_eq. unfold finish.
  rewrite finalizeEvent_set_active. cbn [pr_active set_active pd_endTime]. rewrite delete_insert_id by done.
  assert (set_pendingEnds (pr_pendingEnds p) (set_pendingEnds (<[ID (sb_event sub) := mkPendingEnd (ee_EndTime e) (en_now env)]> (pr_pendingEnds p)) p1) = p1) as ->
    by (rewrite <- Hp1; by destruct p1).
  rewrite (delete_insert_id (pr_active p1)) by (rewrite Ha1; exact Ha).
  match goal with |- set_active (delete _ (pr_active (finalizeEvent opts env ?a ?t p1))) _ = set_active _ (set_active _ (finalizeEvent opts env ?b ?t p1)) =>
    rewrite (finalizeEvent_ext env b a t p1) by done; destruct (finalizeEvent_frame env a t p1) as (Hf & _ & _) end.
  rewrite Hf, (delete_id (pr_active p1)) by (rewrite Ha1; exact Ha). done.
Qed.

(** ** The ends that wait *)

Lemma older_member l : forall best,
  let r := fold_left older l best in
  (r = best /\ (l = [] \/ fst best <> ""%string)) \/ (exists d, (fst r, d) ∈ l /\ pd_parkedAt d = snd r).
Proof.
  induction l as [|[k d] l IH]; intros best; cbn [fold_left]; [left; auto|].
  destruct (IH (older best (k, d))) as [[-> _]|(d' & Hin & He)]; [|right; exists d'; split; [by right|done]].
  unfold older. cbn [fst snd]. destruct (String.eqb (fst best) "") eqn:Eb; cbn [orb].
  - right. exists d. split; [by left|done].
  - destruct (Before _ _); [right; exists d; split; [by left|done]|]. left. split; [done|]. right. by apply String.eqb_neq.
Qed.

Lemma end_order_lookup `{!EndOrderOk} (pending : gmap string pendingEnd) k d : (k, d) ∈ end_order pending <-> pending !! k = Some d.
Proof. rewrite end_order_perm. apply elem_of_map_to_list. Qed.

Lemma oldest_end_member `{!EndOrderOk} (pending : gmap string pendingEnd) :
  pending <> ∅ -> is_Some (pending !! oldest_end pending).
Proof.
  intros Hne. unfold oldest_end. destruct (older_member (end_order pending) (""%string, zero_time)) as [[_ [Hn|[]]]|(d & Hin & _)]; [|done|].
  - exfalso. apply Hne. apply map_to_list_empty_iff, Permutation_nil_r. rewrite <- Hn. by rewrite end_order_perm.
  - apply end_order_lookup in Hin. by exists d.
Qed.

Lemma older_min l : forall best,
  fst best <> ""%string -> (forall k d, (k, d) ∈ l -> k <> ""%string) ->
  let r := fold_left older l best in snd r <= snd best /\ forall k d, (k, d) ∈ l -> snd r <= pd_parkedAt d.
Proof.
  induction l as [|[k d] l IH]; intros best Hb Hl; cbn [fold_left]; [split; [lia|]; intros ? ? []%not_elem_of_nil|].
  assert (fst (older best (k, d)) <> ""%string) as Ho.
  { unfold older. destruct (_ || _); [|done]. apply (Hl k d). by left. }
  destruct (IH (older best (k, d)) Ho) as [H1 H2]; [intros k' d' Hin; apply (Hl k' d'); by right|].
  assert (snd (older best (k, d)) <= snd best /\ snd (older best (k, d)) <= pd_parkedAt d) as [H3 H4].
  { unfold older, Before. cbn [fst snd]. apply String.eqb_neq in Hb. rewrite Hb. cbn [orb]. destruct (Z.ltb_spec (pd_parkedAt d) (snd best)); cbn [snd]; lia. }
  split; [lia|]. intros k' d' [[= <- <-]|Hin]%elem_of_cons; [lia|]. by apply (H2 k').
Qed.

Lemma oldest_end_min `{!EndOrderOk} (pending : gmap string pendingEnd) d :
  pending !! ""%string = None -> pending !! oldest_end pending = Some d ->
  forall id d', pending !! id = Some d' -> pd_parkedAt d <= pd_parkedAt d'.
Proof.
  intros Hno Hd id d' Hid. assert (forall k e, (k, e) ∈ end_order pending <-> pending !! k = Some e) as Hl.
  { intros k e. apply end_order_lookup. }
  assert (forall k e, (k, e) ∈ end_order pending -> k <> ""%string) as Hk by (intros k e Hke%Hl ->; congruence).
  apply Hl in Hid. unfold oldest_end in Hd. destruct (end_order pending) as [|[k e] l] eqn:El; [by apply not_elem_of_nil in Hid|].
  cbn [fold_left] in Hd. change (older (""%string, zero_time) (k, e)) with (k, pd_parkedAt e) in Hd.
  destruct (older_min l (k, pd_parkedAt e)) as [M1 M2]; [apply (Hk k e); by left|intros k' e' Hin; apply (Hk k' e'); by right|].
  assert (pd_parkedAt d = snd (fold_left older l (k, pd_parkedAt e))) as ->.
  { destruct (older_member l (k, pd_parkedAt e)) as [[Hr _]|(d'' & Hin & He)].
    - rewrite Hr in *. cbn [fst snd] in *. assert (pending !! k = Some e) as Hke by (apply Hl; by left). congruence.
    - rewrite <- He. assert (pending !! fst (fold_left older l (k, pd_parkedAt e)) = Some d'') as Hke by (apply Hl; by right). congruence. }
  apply elem_of_cons in Hid as [[= -> ->]|Hin]; [done|]. by apply (M2 id).
Qed.


Lemma parkEnd_size `{!EndOrderOk} now e p :
  (size (pr_pendingEnds p) <= maxPendingEnds)%nat -> (size (pr_pendingEnds (parkEnd now e p)) <= maxPendingEnds)%nat.
Proof.
  intros Hs. unfold parkEnd. cbn [pr_pendingEnds set_pendingEnds].
  assert (forall m : gmap string pendingEnd, (size m < maxPendingEnds)%nat -> (size (<[ee_EventID e := mkPendingEnd (ee_EndTime e) now]> m) <= maxPendingEnds)%nat) as Hi.
  { intros m Hm. rewrite map_size_insert. destruct (m !! _); cbn; lia. }
  apply Hi. case_bool_decide as Hfull; [|lia].
  destruct (oldest_end_member (pr_pendingEnds p)) as [d Hd].
  { intros E. rewrite E, map_size_empty in Hfull. unfold maxPendingEnds in Hfull. lia. }
  rewrite map_size_delete_Some by by exists d. destruct (size (pr_pendingEnds p)); [unfold maxPendingEnds; lia|]. cbn. unfold maxPendingEnds in *. lia.
Qed.

Lemma step_pendingEnds `{!EndOrderOk} op p p' :
  step opts op p = Some p' -> (size (pr_pendingEnds p) <= maxPendingEnds)%nat -> (size (pr_pendingEnds p') <= maxPendingEnds)%nat.
Proof.
  intros Hstep Hs. assert (forall q env id active t, pr_pendingEnds (finish opts env id active t q) = pr_pendingEnds q) as Hfin.
  { intros q env id active t. unfold finish. by destruct (finalizeEvent_frame env active t q) as (_ & Hp & _). }
  destruct op as [env sub|e|env|now id|now id|env|env|env pe nm|i ans|conn|db]; cbn [step] in Hstep.
  - injection Hstep as <-. destruct (acceptEvent_cases env sub p) as [|db parked active Hp _ p1 p2|db active Hp _ p1]; [done| |].
    + destruct (beginEvent_frame env sub (set_db db p)) as (_ & Hb & _). fold p1 in Hb.
      destruct (finalizeEvent_frame env active (pd_endTime parked) (set_pendingEnds (delete (ID (sb_event sub)) (pr_pendingEnds p1)) p1)) as (_ & Hf & _).
      fold p2 in Hf. cbn [pr_pendingEnds set_active set_pendingEnds set_db] in *. rewrite Hf, Hb, map_size_delete. destruct (pr_pendingEnds p !! _); cbn; lia.
    + destruct (beginEvent_frame env sub (set_db db p)) as (_ & Hb & _). fold p1 in Hb. cbn [pr_pendingEnds set_active set_db] in *. by rewrite Hb.
  - case_bool_decide; [|done]. by injection Hstep as <-.
  - destruct (pr_ends p) as [|e ends]; [done|]. injection Hstep as <-. unfold handleEnd.
    destruct (pr_active _ !! _); [|by apply parkEnd_size]. by rewrite Hfin.
  - destruct (pr_active p !! id) as [active|]; [|done]. destruct (_ && _); [|done]. by injection Hstep as <-.
  - destruct (pr_active p !! id) as [active|]; [|done]. destruct (ae_endTimer active) as [[at_ e]|]; [|done].
    destruct (at_ <=? now); [|done]. by injection Hstep as <-.
  - destruct (pr_timeout p) as [|id timeout]; [done|]. injection Hstep as <-. unfold handleTimeout. destruct (pr_active _ !! _); [|done]. by rewrite Hfin.
  - injection Hstep as <-. unfold expirePendingEnds. cbn [pr_pendingEnds set_pendingEnds]. destruct (finalizeActivities_frame env p) as (_ & _ & ->).
    etrans; [|exact Hs]. apply map_size_filter.
  - injection Hstep as <-. unfold handlePresence. by destruct (en_mqtt env).
  - destruct (pr_tasks p !! i) as [t|]; [|done]. destruct (may_run _ _ _); [|done]. injection Hstep as <-.
    by destruct (run_task_frame ans t (set_tasks (delete i (pr_tasks p)) (pr_nextEmit p) p)) as (_ & _ & ->).
  - destruct (pr_jobs p); [done|]. by injection Hstep as <-.
  - by injection Hstep as <-.
Qed.

Lemma run_pendingEnds `{!EndOrderOk} ops : forall p p',
  run_ops opts ops p = Some p' -> (size (pr_pendingEnds p) <= maxPendingEnds)%nat -> (size (pr_pendingEnds p') <= maxPendingEnds)%nat.
Proof.
  induction ops as [|op ops IH]; intros p p' Hrun Hs; cbn [run_ops] in Hrun; [by injection Hrun as <-|].
  apply bind_Some in Hrun as (q & Hq & Hrun). apply (IH q p' Hrun), (step_pendingEnds op p q Hq Hs).
Qed.

(** The ends that wait are bounded, and dropped only when they have to be.  At most
    1024 ends wait; parking one more keeps every other, except, when 1024 wait already,
    one that has waited at least as long as each of them; and a tick drops exactly those
    that have waited for two minutes. *)
Theorem parked_ends_are_bounded `{!EndOrderOk} ops db s p e now :
  run_ops opts ops (NewProcessor db s) = Some p ->
  (size (pr_pendingEnds p) <= maxPendingEnds)%nat /\
  pr_pendingEnds (parkEnd now e p) !! ee_EventID e = Some (mkPendingEnd (ee_EndTime e) now) /\
  (forall id d, id <> ee_EventID e -> pr_pendingEnds p !! id = Some d -> pr_pendingEnds p !! ""%string = None ->
    pr_pendingEnds (parkEnd now e p) !! id = Some d \/
    (size (pr_pendingEnds p) = maxPendingEnds /\ forall id' d', pr_pendingEnds p !! id' = Some d' -> pd_parkedAt d <= pd_parkedAt d')) /\
  (forall id d, pr_pendingEnds (expirePendingEnds now p) !! id = Some d <->
    pr_pendingEnds p !! id = Some d /\ Sub now (pd_parkedAt d) < pendingEndTTL).
Proof.
  intros Hrun. assert (size (pr_pendingEnds p) <= maxPendingEnds)%nat as Hs.
  { apply (run_pendingEnds ops (NewProcessor db s) p Hrun). cbn. rewrite map_size_empty. unfold maxPendingEnds. lia. }
  split; [done|]. unfold parkEnd, expirePendingEnds. cbn [pr_pendingEnds set_pendingEnds]. split; [apply lookup_insert_eq|]. split.
  - intros id d Hne Hd Hno. rewrite lookup_insert_ne by done. case_bool_decide as Hfull; [|by left].
    destruct (decide (oldest_end (pr_pendingEnds p) = id)) as [<-|Hk]; [|left; by rewrite lookup_delete_ne].
    right. split; [lia|]. by apply oldest_end_min.
  - intros id d. by rewrite map_lookup_filter_Some.
Qed.
End theorems.

(** ** Instances *)

#[local] Instance no_imaging : Imaging := { CatmullRom _ _ img := im_pixels img; encodeJPEG _ _ := None; DecodeConfig _ := None; ApproxBiLinear _ _ img := im_pixels img; gray_crop _ _ := [] }.
#[local] Instance key_order : EndOrder := map_to_list.
#[local] Instance key_order_ok : EndOrderOk.
Proof. by intros m. Qed.

Definition sample_config : EventConfig := mkEventConfig 30 80 (60 * Second) true 15 [].
Definition sample_options : Options unit := mkOptions sample_config None None false false 4.
Definition at_ (now : Z) (mqtt : bool) : Env := mkEnv (now * Second) mqtt true true true true true (fun _ => true).

Definition person (id : string) (t : Z) : Submission :=
  mkSubmission (mkEvent id "porch" "person" (f64_of_Z 1) 1 (0, 0, 0, 0) (t * Second) 0 "" false "" false "" "" "" EventKindObject 0 "" CategoryAlert) None None.
Definition end_of (id : string) (t : Z) : EventEnd := mkEventEnd id "porch" (t * Second).

(** Two people come and one leaves. *)
Definition visit (mqtt : bool) : list Op :=
  [Submit (at_ 1000 mqtt) (person "a" 1000); Submit (at_ 1001 true) (person "b" 1001); SendEnd (end_of "a" 1010); ReceiveEnd (at_ 1010 true)].

Definition after (ops : list Op) : Processor unit := default (NewProcessor empty_db tt) (run_ops sample_options ops (NewProcessor empty_db tt)).

Lemma tally_counts_active_objects_witness :
  tally "porch" "person" (pr_objectCounts (after (visit true))) = present "porch" "person" (pr_active (after (visit true))) /\
  present "porch" "person" (pr_active (after (visit true))) = 1.
Proof.
  split; [|reflexivity].
  apply (tally_counts_active_objects sample_options (visit true) empty_db tt (after (visit true)) "porch" "person").
  - unfold after. by destruct (run_ops sample_options (visit true) (NewProcessor empty_db tt)) as [q|] eqn:E; [|vm_compute in E; discriminate E].
  - vm_compute. repeat split.
  - reflexivity.
Defined.

(** When the broker is only reached between the two arrivals, the first person was never
    counted but is counted out: one is still there and the tally is zero. *)
Lemma tally_drifts :
  tally "porch" "person" (pr_objectCounts (after (visit false))) = 0 /\ present "porch" "person" (pr_active (after (visit false))) = 1.
Proof. split; reflexivity. Qed.

Lemma end_may_overtake_its_event_witness :
  let p := after [] in
  acceptEvent sample_options (at_ 1000 true) (person "a" 1000) (handleEnd sample_options (at_ 1000 true) (end_of "a" 1000) p) =
  handleEnd sample_options (at_ 1000 true) (end_of "a" 1000) (acceptEvent sample_options (at_ 1000 true) (person "a" 1000) p).
Proof.
  apply (end_may_overtake_its_event sample_options (at_ 1000 true) (person "a" 1000) (end_of "a" 1000) (after [])); try reflexivity.
  cbn. rewrite map_size_empty. unfold maxPendingEnds. lia.
Defined.

(** An event held back by the cooldown leaves its end waiting, as if it were lost. *)
Definition held_back : list Op :=
  [Submit (at_ 1000 true) (person "a" 1000); SendEnd (end_of "a" 1002); ReceiveEnd (at_ 1002 true);
   Submit (at_ 1010 true) (person "b" 1010); SendEnd (end_of "b" 1012); ReceiveEnd (at_ 1012 true)].

Lemma suppressed_end_waits :
  pr_pendingEnds (after held_back) !! "b"%string = Some (mkPendingEnd (1012 * Second) (1012 * Second)) /\
  pr_pendingEnds (expirePendingEnds (1132 * Second) (after held_back)) !! "b"%string = None.
Proof. split; reflexivity. Qed.

Lemma parked_ends_are_bounded_witness :
  (size (pr_pendingEnds (after held_back)) <= maxPendingEnds)%nat.
Proof.
  apply (parked_ends_are_bounded sample_options held_back empty_db tt (after held_back) (end_of "c" 0) 0).
  unfold after. by destruct (run_ops sample_options held_back (NewProcessor empty_db tt)) as [q|] eqn:E; [|vm_compute in E; discriminate E].
Defined.
