(* ===== verification/EventSweep.v ===== *)
(** The sweep that hands finished incidents to the notifier: where it stops, and that
    every incident is handed over when the notifier takes it. *)

From S2P Require Import Prelude Float64 CameraEvent ActivityStore ActivityInvariant ActivityOperations ActivityReachability ObjectCount EventProcessor.

#[local] Open Scope Z_scope.

(** ** The incidents that wait, oldest first *)

Definition pend_rows (db : DB) : list (option Z * string) :=
  (fun kv => (a_finalized_at kv.2, kv.1)) <$> filter (fun kv => notification_pending kv.2) (map_to_list (activities db)).

Definition pend (db : DB) : list string := snd <$> merge_sort null_time_id_le (pend_rows db).

Lemma pending_ids_take limit db : pending_ids limit db = take (clamp_limit limit) (pend db).
Proof. reflexivity. Qed.

#[local] Instance null_time_id_le_total : Total null_time_id_le.
Proof.
  intros [[t|] x] [[u|] y]; unfold null_time_id_le; cbn; try tauto; [|apply (total String.le)].
  destruct (total time_id_le (t, x) (u, y)); tauto.
Qed.

#[local] Instance null_time_id_le_trans : Transitive null_time_id_le.
Proof.
  intros [[t|] x] [[u|] y] [[v|] z]; unfold null_time_id_le; cbn; try tauto; [apply transitivity|]. intros H1 H2. by trans y.
Qed.

#[local] Instance null_time_id_le_antisymm : AntiSymm eq null_time_id_le.
Proof.
  intros [[t|] x] [[u|] y]; unfold null_time_id_le, time_id_le; cbn; try tauto.
  - intros H1 H2. assert (t = u) as -> by lia. f_equal. apply (anti_symm String.le); destruct H1, H2; lia || tauto.
  - intros H1 H2. f_equal. by apply (anti_symm String.le).
Qed.

Lemma mark_pending id t db a :
  activities db !! id = Some a -> notification_pending a ->
  exists b, ~ notification_pending b /\ (MarkActivityNotificationQueued id t db).1 = set_activities (<[id := b]>) db.
Proof.
  intros Ha (Hs & Hc & Hq). unfold MarkActivityNotificationQueued. rewrite Ha, bool_decide_true by done.
  eexists. split; [|reflexivity]. by intros (_ & _ & Hn).
Qed.

Lemma mark_pend id t db rest : pend db = id :: rest -> pend (MarkActivityNotificationQueued id t db).1 = rest.
Proof.
  intros Hp. assert (id ∈ pending_ids (Z.of_nat (length (pend db))) db) as Hin.
  { rewrite pending_ids_take, Hp. cbn [length]. unfold clamp_limit. rewrite (proj2 (Z.leb_gt _ _)) by lia. rewrite Nat2Z.id. by left. }
  apply pending_ids_spec in Hin as (a & Ha & Hpa). destruct (mark_pending id t db a Ha Hpa) as (b & Hb & ->).
  assert (pend_rows db ≡ₚ (a_finalized_at a, id) :: pend_rows (set_activities (<[id := b]>) db)) as Hperm.
  { assert (map_to_list (activities db) ≡ₚ (id, a) :: map_to_list (delete id (activities db))) as E1
      by (rewrite <- map_to_list_insert by apply lookup_delete_eq; by rewrite insert_delete_id).
    assert (map_to_list (<[id := b]> (activities db)) ≡ₚ (id, b) :: map_to_list (delete id (activities db))) as E2
      by (rewrite <- map_to_list_insert by apply lookup_delete_eq; by rewrite insert_delete_eq).
    unfold pend_rows. cbn [activities set_activities]. rewrite E1, E2, filter_cons_True, (filter_cons_False _ (id, b)) by done. done. }
  unfold pend in *. assert (StronglySorted null_time_id_le (merge_sort null_time_id_le (pend_rows db))) as Hs by (apply StronglySorted_merge_sort; apply _).
  pose proof (merge_sort_Permutation null_time_id_le (pend_rows db)) as Hm.
  destruct (merge_sort null_time_id_le (pend_rows db)) as [|[f i] l] eqn:El; [done|]. cbn in Hp. injection Hp as -> <-.
  assert (f = a_finalized_at a) as ->.
  { assert ((f, id) ∈ pend_rows db) as Hin by (rewrite <- Hm; by left). apply list_elem_of_fmap in Hin as ([j c] & [= -> ->] & Hin).
    apply list_elem_of_filter in Hin as [_ Hin%elem_of_map_to_list]. congruence. }
  f_equal. apply (StronglySorted_unique null_time_id_le).
  - apply StronglySorted_merge_sort; apply _.
  - by inversion Hs.
  - rewrite merge_sort_Permutation. apply (Permutation_cons_inv (a := (a_finalized_at a, id))). by rewrite <- Hperm, Hm.
Qed.

(** ** Reading them *)

Definition load (db : DB) (id : string) : result StoreError (option Activity) :=
  match activities db !! id with
  | None => Ok None
  | Some a => let? act := hydrateActivity false id a db in Ok (Some act)
  end.

Lemma PendingActivityNotifications_load limit db :
  PendingActivityNotifications limit db = get_all (load db) (take (clamp_limit limit) (pend db)).
Proof. reflexivity. Qed.

Lemma load_id db id act : load db id = Ok (Some act) -> act_ID act = id.
Proof.
  unfold load. destruct (activities db !! id) as [a|]; [|done]. unfold hydrateActivity. destruct (activity_events_of db id); [done|].
  destruct (best_event _); [|done]. by intros [= <-].
Qed.

Lemma get_all_Forall2 f ids acts :
  Forall (fun id => f id <> Ok None) ids -> get_all f ids = Ok acts <-> Forall2 (fun id act => f id = Ok (Some act)) ids acts.
Proof.
  intros Hn. revert acts. induction Hn as [|id ids Hid _ IH]; intros acts; cbn [get_all].
  - split; [by intros [= <-]; constructor|]. by intros ->%Forall2_nil_inv_l.
  - destruct (f id) as [[act|]|e] eqn:Ef; cbn [rbind]; [|done|].
    + destruct (get_all f ids) as [l|e] eqn:El; cbn [rbind].
      * split.
        -- intros [= <-]. constructor; [done|]. by apply IH.
        -- intros (act' & l' & Hf & Hl & ->)%Forall2_cons_inv_l. apply IH in Hl as [= ->]. congruence.
      * split; [done|]. intros (act' & l' & Hf & Hl & ->)%Forall2_cons_inv_l. by apply IH in Hl.
    + split; [done|]. intros (act' & l' & Hf & _)%Forall2_cons_inv_l. congruence.
Qed.

Lemma pend_load db id : id ∈ pend db -> load db id <> Ok None.
Proof.
  intros Hin. assert (id ∈ pending_ids (Z.of_nat (length (pend db))) db) as Hp.
  { rewrite pending_ids_take. unfold clamp_limit. destruct (pend db) as [|i l] eqn:E; [by apply not_elem_of_nil in Hin|].
    rewrite (proj2 (Z.leb_gt _ _)) by (cbn [length]; lia). by rewrite Nat2Z.id, firstn_all. }
  apply pending_ids_spec in Hp as (a & Ha & _). unfold load. rewrite Ha. by destruct (hydrateActivity _ _ _ _).
Qed.

Lemma listed limit db acts :
  PendingActivityNotifications limit db = Ok acts <->
  Forall2 (fun id act => load db id = Ok (Some act)) (take (clamp_limit limit) (pend db)) acts.
Proof.
  rewrite PendingActivityNotifications_load. apply get_all_Forall2, Forall_forall.
  intros id Hin. apply pend_load. eapply elem_of_sublist; [exact Hin|apply sublist_take].
Qed.

Lemma load_same db db' ids acts :
  Forall2 (fun id act => load db id = Ok (Some act)) ids acts -> (forall id, id ∈ ids -> load db' id = load db id) ->
  Forall2 (fun id act => load db' id = Ok (Some act)) ids acts.
Proof.
  induction 1 as [|id act ids acts Hid _ IH]; intros Hs; constructor; [by rewrite Hs by left|].
  apply IH. intros j Hj. apply Hs. by right.
Qed.

(** ** Marking a prefix *)

Definition mark_all (t : Z) (acts : list Activity) (db : DB) : DB :=
  fold_left (fun db a => (MarkActivityNotificationQueued (act_ID a) t db).1) acts db.

Lemma mark_load id t db j : j <> id -> load (MarkActivityNotificationQueued id t db).1 j = load db j.
Proof.
  intros Hne. unfold MarkActivityNotificationQueued. destruct (activities db !! id) as [a|]; [|done]. destruct (bool_decide _); [|done].
  unfold load. cbn [fst activities set_activities]. by rewrite lookup_insert_ne.
Qed.

Lemma mark_not_pending id t db : id ∉ pend (MarkActivityNotificationQueued id t db).1 \/ id ∉ pend db.
Proof.
  assert (forall d, id ∈ pend d -> exists a, activities d !! id = Some a /\ notification_pending a) as Hspec.
  { intros d Hin. apply (pending_ids_spec (Z.of_nat (length (pend d))) d). rewrite pending_ids_take. unfold clamp_limit.
    destruct (pend d) as [|i l] eqn:E; [by apply not_elem_of_nil in Hin|].
    rewrite (proj2 (Z.leb_gt _ _)) by (cbn [length]; lia). by rewrite Nat2Z.id, firstn_all. }
  destruct (decide (id ∈ pend db)) as [Hin|]; [left|by right]. apply Hspec in Hin as (a & Ha & Hp).
  destruct (mark_pending id t db a Ha Hp) as (b & Hb & ->). intros (c & Hc & Hpc)%Hspec. cbn [activities set_activities] in Hc.
  rewrite lookup_insert_eq in Hc. congruence.
Qed.

Lemma mark_prefix t acts : forall rest db,
  pend db = (act_ID <$> acts) ++ rest ->
  pend (mark_all t acts db) = rest /\ forall j, j ∈ rest -> load (mark_all t acts db) j = load db j.
Proof.
  induction acts as [|a acts IH]; intros rest db Hp; [done|]. cbn [mark_all fold_left fmap list_fmap app] in *.
  pose proof (mark_pend _ t _ _ Hp) as Hp'. destruct (IH rest _ Hp') as [H1 H2]. split; [exact H1|]. intros j Hj.
  change (fold_left _ acts ?d) with (mark_all t acts d). rewrite H2 by done. apply mark_load. intros ->.
  destruct (mark_not_pending (act_ID a) t db) as [Hn|Hn]; [rewrite Hp' in Hn|rewrite Hp in Hn]; apply Hn; [|by left].
  apply elem_of_app. by right.
Qed.

(** ** The sweep *)

Section sweep.
Context `{Imaging} `{EndOrder} {S : Type} (opts : Options S) (enq : Activity -> S -> S * bool).
Implicit Types (p : Processor S) (env : Env).

(** A ring that a member of the household has answered needs no notification. *)
Definition answered (a : Activity) : bool := act_HasDoorbell a && negb (act_MissedDoorbell a).

(** The notifier after it has taken all of [acts] that need a notification. *)
Fixpoint taken (acts : list Activity) (s : S) : option S :=
  match acts with
  | [] => Some s
  | a :: acts => if answered a then taken acts s else let '(s, ok) := enq a s in if ok : bool then taken acts s else None
  end.

Lemma sweep_prefix env acts : forall db s db' s',
  sweep env enq acts db s = (db', s') ->
  exists handled rest s1, acts = handled ++ rest /\ db' = mark_all (en_now env) handled db /\ taken handled s = Some s1 /\
    match rest with
    | [] => s' = s1
    | a :: _ => if answered a then en_marks env (act_ID a) = false /\ s' = s1
                else exists ok, enq a s1 = (s', ok) /\ (ok = true -> en_marks env (act_ID a) = false)
    end.
Proof.
  induction acts as [|a acts IH]; intros db s db' s' Hs; cbn [sweep] in Hs.
  - injection Hs as <- <-. by exists [], [], s.
  - unfold sweep_one in Hs. change (act_HasDoorbell a && negb (act_MissedDoorbell a)) with (answered a) in Hs.
    destruct (answered a) eqn:Ea.
    + destruct (en_marks env (act_ID a)) eqn:Em.
      * apply IH in Hs as (handled & rest & s1 & -> & -> & Ht & Hrest). exists (a :: handled), rest, s1. split; [done|].
        split; [done|]. split; [|done]. cbn [taken]. by rewrite Ea.
      * injection Hs as <- <-. exists [], (a :: acts), s. by rewrite Ea.
    + destruct (enq a s) as [s2 ok] eqn:Eq. destruct ok.
      * destruct (en_marks env (act_ID a)) eqn:Em.
        -- apply IH in Hs as (handled & rest & s1 & -> & -> & Ht & Hrest). exists (a :: handled), rest, s1. split; [done|].
           split; [done|]. split; [|done]. cbn [taken]. by rewrite Ea, Eq.
        -- injection Hs as <- <-. exists [], (a :: acts), s. split; [done|]. split; [done|]. split; [done|]. rewrite Ea. by exists true.
      * injection Hs as <- <-. exists [], (a :: acts), s. split; [done|]. split; [done|]. split; [done|]. rewrite Ea. by exists false.
Qed.

(** The sweep marks only what was taken.  It goes through the finished incidents that
    wait, oldest first and at most a hundred, and marks exactly a prefix of them: each is
    a ring that was answered or an incident the notifier took.  It stops at the first
    incident the notifier refuses or whose mark fails, and touches nothing else. *)
Theorem sweep_marks_a_taken_prefix env p acts :
  op_Notifier opts ≫= n_EnqueueActivity = Some enq -> en_lists env = true -> PendingActivityNotifications 100 (pr_db p) = Ok acts ->
  let p' := enqueuePendingActivityNotifications opts env p in
  exists handled rest s1, acts = handled ++ rest /\
    (act_ID <$> acts) = take 100 (pend (pr_db p)) /\
    pr_db p' = mark_all (en_now env) handled (pr_db p) /\ taken handled (pr_notifier p) = Some s1 /\
    pend (pr_db p') = drop (length handled) (pend (pr_db p)) /\
    match rest with
    | [] => pr_notifier p' = s1
    | a :: _ => if answered a then en_marks env (act_ID a) = false /\ pr_notifier p' = s1
                else exists ok, enq a s1 = (pr_notifier p', ok) /\ (ok = true -> en_marks env (act_ID a) = false)
    end.
Proof.
  intros Hn Hl Hacts. cbn zeta. unfold enqueuePendingActivityNotifications. rewrite Hn, Hl, Hacts. cbn [negb].
  destruct (sweep env enq acts (pr_db p) (pr_notifier p)) as [db' s'] eqn:E. cbn [pr_db pr_notifier set_notifier set_db].
  apply sweep_prefix in E as (handled & rest & s1 & -> & -> & Ht & Hrest). exists handled, rest, s1.
  assert (act_ID <$> handled ++ rest = take 100 (pend (pr_db p))) as Hids.
  { apply listed in Hacts. change (clamp_limit 100) with 100%nat in Hacts. revert Hacts. generalize (take 100 (pend (pr_db p))). intros l Hf.
    induction Hf as [|id act l acts Hid _ IH]; [done|]. cbn. by rewrite IH, (load_id _ _ _ Hid). }
  split; [done|]. split; [done|]. split; [done|]. split; [done|]. split; [|done].
  assert (pend (pr_db p) = (act_ID <$> handled) ++ (act_ID <$> rest) ++ drop 100 (pend (pr_db p))) as Hp.
  { rewrite app_assoc, <- fmap_app, Hids. by rewrite take_drop. }
  rewrite (proj1 (mark_prefix (en_now env) handled _ _ Hp)). rewrite Hp at 2. rewrite drop_app_ge by (by rewrite length_fmap).
  by rewrite length_fmap, Nat.sub_diag.
Qed.

(** The sweeps of a list of ticks. *)
Definition sweeps (envs : list Env) p : Processor S := fold_left (fun p env => enqueuePendingActivityNotifications opts env p) envs p.

Definition hand_over (s : S) (a : Activity) : S := if answered a then s else (enq a s).1.

Lemma taken_all acts : (forall a s, (enq a s).2 = true) -> forall s, taken acts s = Some (fold_left hand_over acts s).
Proof.
  intros Hacc. induction acts as [|a acts IH]; intros s; [done|]. cbn [taken fold_left]. unfold hand_over at 2.
  destruct (answered a); [apply IH|]. specialize (Hacc a s). destruct (enq a s) as [s1 ok]. cbn in Hacc. subst ok. apply IH.
Qed.

Lemma sweep_all env p acts :
  op_Notifier opts ≫= n_EnqueueActivity = Some enq -> (forall a s, (enq a s).2 = true) -> en_lists env = true ->
  (forall id, en_marks env id = true) ->
  Forall2 (fun id act => load (pr_db p) id = Ok (Some act)) (pend (pr_db p)) acts ->
  let p' := enqueuePendingActivityNotifications opts env p in
  Forall2 (fun id act => load (pr_db p') id = Ok (Some act)) (pend (pr_db p')) (drop 100 acts) /\
  pr_notifier p' = fold_left hand_over (take 100 acts) (pr_notifier p).
Proof.
  intros Hn Hacc Hl Hm Hall. assert (PendingActivityNotifications 100 (pr_db p) = Ok (take 100 acts)) as Hacts.
  { apply listed. change (clamp_limit 100) with 100%nat. by apply Forall2_take. }
  cbn zeta. unfold enqueuePendingActivityNotifications. rewrite Hn, Hl, Hacts. cbn [negb].
  destruct (sweep env enq (take 100 acts) (pr_db p) (pr_notifier p)) as [db' s'] eqn:E. cbn [pr_db pr_notifier set_notifier set_db].
  apply sweep_prefix in E as (handled & rest & s1 & Ht & -> & Hs1 & Hrest). rewrite taken_all in Hs1 by done. injection Hs1 as <-.
  assert (rest = []) as ->.
  { destruct rest as [|a rest]; [done|]. destruct (answered a); [destruct Hrest as [Hf _]; by rewrite Hm in Hf|].
    destruct Hrest as (ok & He & Hf). specialize (Hacc a (fold_left hand_over handled (pr_notifier p))). rewrite He in Hacc. rewrite Hm in Hf. by discriminate Hf. }
  rewrite app_nil_r in Ht. subst handled. split; [|done].
  assert (pend (pr_db p) = (act_ID <$> take 100 acts) ++ drop 100 (pend (pr_db p))) as Hp.
  { rewrite <- (take_drop 100 (pend (pr_db p))) at 1. f_equal. clear - Hall. apply (Forall2_take _ _ _ 100) in Hall.
    induction Hall as [|id act l acts' Hid _ IH]; [done|]. cbn. by rewrite <- IH, (load_id _ _ _ Hid). }
  destruct (mark_prefix (en_now env) _ _ _ Hp) as [-> Hload]. apply (Forall2_drop _ _ _ 100) in Hall.
  by apply (load_same (pr_db p)).
Qed.

(** C6: every finished incident is notified.  With a notifier that takes what it is
    given and a database that works, sweeps hand over every incident that waits, each
    exactly once and oldest first, a hundred at a time, leaving out only the rings that
    were answered; and then none waits. *)
Theorem every_finished_incident_is_notified envs p limit acts :
  op_Notifier opts ≫= n_EnqueueActivity = Some enq -> (forall a s, (enq a s).2 = true) ->
  Forall (fun env => en_lists env = true /\ forall id, en_marks env id = true) envs ->
  (length (pend (pr_db p)) <= clamp_limit limit)%nat -> PendingActivityNotifications limit (pr_db p) = Ok acts ->
  (length acts <= 100 * length envs)%nat ->
  pr_notifier (sweeps envs p) = fold_left hand_over acts (pr_notifier p) /\ pend (pr_db (sweeps envs p)) = [].
Proof.
  intros Hn Hacc Henvs Hlim Hacts Hk. apply listed in Hacts. rewrite take_ge in Hacts by done. clear Hlim.
  revert p acts Hacts Hk. induction Henvs as [|env envs [Hl Hm] _ IH]; intros p acts Hacts Hk; cbn [sweeps fold_left length] in *.
  - destruct acts; [|cbn in Hk; lia]. by apply Forall2_nil_inv_r in Hacts.
  - destruct (sweep_all env p acts Hn Hacc Hl Hm Hacts) as [Hf Hs].
    destruct (IH _ _ Hf) as [H1 H2]; [rewrite length_drop; lia|]. split; [|exact H2].
    change (fold_left _ envs ?q) with (sweeps envs q). by rewrite H1, Hs, <- fold_left_app, take_drop.
Qed.
End sweep.

(** ** Instances *)

#[local] Instance no_imaging : Imaging := { CatmullRom _ _ img := im_pixels img; encodeJPEG _ _ := None; DecodeConfig _ := None; ApproxBiLinear _ _ img := im_pixels img; gray_crop _ _ := [] }.

(** A notifier that writes down the incidents it is given, up to [room] of them. *)
Definition log_up_to (room : nat) (a : Activity) (log : list string) : list string * bool :=
  if bool_decide (length log < room)%nat then (log ++ [act_ID a], true) else (log, false).

Definition log_options (enq : Activity -> list string -> list string * bool) : Options (list string) :=
  mkOptions (mkEventConfig 30 80 (60 * Second) true 15 []) None
    (Some (mkNotifier (fun _ s => s) None (Some enq) None None None None)) false false 4.

Definition seen (id camera kind : string) (t : Z) : Event :=
  mkEvent id camera "person" (f64_of_Z 1) 0 (0, 0, 0, 0) (t * Second) 0 "" false "" false "" "" "" kind 0 "" CategoryAlert.

Definition save (db : DB) (ev : Event) : DB :=
  match SaveEvent (2000 * Second) ev db with Ok db => db | Err _ => db end.

(** Three finished incidents: one on the porch, a ring that was answered, one in the yard. *)
Definition finished_db : DB :=
  (FinalizeDueActivities (5000 * Second) 100 (UpdateEventAnswered "r" (1700 * Second) "me"
    (fold_left save [seen "a" "porch" EventKindObject 1000; seen "r" "door" EventKindDoorbell 1500; seen "c" "yard" EventKindObject 2000] empty_db))).1.

Definition sweep_env : Env := mkEnv (6000 * Second) true true true true true true (fun _ => true).

Definition waiting : list Activity := match PendingActivityNotifications 100 finished_db with Ok acts => acts | Err _ => [] end.

Lemma waiting_ok : PendingActivityNotifications 100 finished_db = Ok waiting.
Proof. unfold waiting. destruct (PendingActivityNotifications 100 finished_db) as [l|e] eqn:E; [done|]. vm_compute in E. discriminate E. Qed.

Lemma sweep_marks_a_taken_prefix_witness :
  act_ID <$> waiting = ["act_a"; "act_c"; "act_r"]%string /\
  pend (pr_db (enqueuePendingActivityNotifications (log_options (log_up_to 1)) sweep_env (NewProcessor finished_db []))) = ["act_c"; "act_r"]%string /\
  exists handled rest s1, waiting = handled ++ rest /\ taken (log_up_to 1) handled [] = Some s1.
Proof.
  split; [by vm_compute|]. split; [by vm_compute|].
  destruct (sweep_marks_a_taken_prefix (log_options (log_up_to 1)) (log_up_to 1) sweep_env (NewProcessor finished_db []) waiting
    eq_refl eq_refl waiting_ok) as (handled & rest & s1 & Hw & _ & _ & Ht & _).
  exists handled, rest, s1. split; [exact Hw|exact Ht].
Defined.

Definition log_all (a : Activity) (log : list string) : list string * bool := (log ++ [act_ID a], true).

Lemma every_finished_incident_is_notified_witness :
  let p := sweeps (log_options log_all) [sweep_env] (NewProcessor finished_db []) in
  pr_notifier p = ["act_a"; "act_c"]%string /\ pend (pr_db p) = [].
Proof.
  destruct (every_finished_incident_is_notified (log_options log_all) log_all [sweep_env] (NewProcessor finished_db []) 100 waiting) as [Hn Hp];
    [done|done|by repeat constructor|by vm_compute; lia|exact waiting_ok|by vm_compute; lia|].
  cbn zeta. split; [|exact Hp]. rewrite Hn. by vm_compute.
Defined.
