(* ===== verification/GoSlices.v ===== *)
(** Go slices with their bounds checks, and counting loops over them.

    [None] is the run-time panic of an index out of range.  A slice expression is
    taken to panic past the length (Go allows it up to the capacity).  The loops of
    numeric code write a buffer position by position: [emits] and [writes] describe
    what a piece of such code leaves in it, and compose along sequences and loops. *)

From S2P Require Import Prelude.

#[local] Open Scope list_scope.

Section Slices.
Context {A : Type}.
Implicit Types (l : list A) (v : A).

Definition len l : Z := Z.of_nat (length l).

(** [l[i]] and [l[i] = v]. *)
Definition get l (i : Z) : option A := if 0 <=? i then l !! Z.to_nat i else None.

Definition set l (i : Z) v : option (list A) :=
  if (0 <=? i) && (i <? len l) then Some (<[Z.to_nat i := v]> l) else None.

(** [l[lo:hi]]. *)
Definition subslice l (lo hi : Z) : option (list A) :=
  if (0 <=? lo) && (lo <=? hi) && (hi <=? len l)
  then Some (take (Z.to_nat (hi - lo)) (drop (Z.to_nat lo) l)) else None.

(** The contents of [l] with [vs] over it at [i]. *)
Definition splice l (i : Z) (vs : list A) : list A :=
  take (Z.to_nat i) l ++ vs ++ drop (Z.to_nat i + length vs) l.

(** [copy(l[i:i+n], src[j:j+n])]. *)
Definition copy_block l (i : Z) (src : list A) (j n : Z) : option (list A) :=
  _ ← subslice l i (i + n); block ← subslice src j (j + n); Some (splice l i block).

(** [copy(l, src)]. *)
Definition copy_over l (src : list A) : list A := take (length l) src ++ drop (length src) l.

(** Code that works in place on [l[lo:hi]]. *)
Definition in_slice l (lo hi : Z) (f : list A -> option (list A)) : option (list A) :=
  dst ← subslice l lo hi; dst ← f dst; Some (splice l lo dst).
End Slices.

(** [for i := lo; i < hi; i++ { s = body(i, s) }]. *)
Fixpoint loop {S} (n : nat) (i : Z) (body : Z -> S -> option S) (s : S) : option S :=
  match n with
  | O => Some s
  | S n => s ← body i s; loop n (i + 1) body s
  end.

Definition for_range {S} (lo hi : Z) (body : Z -> S -> option S) (s : S) : option S :=
  loop (Z.to_nat (hi - lo)) lo body s.

(** [for i := lo; i < hi; i += step { ... }] for a positive step. *)
Definition for_step {S} (lo hi step : Z) (body : Z -> S -> option S) (s : S) : option S :=
  for_range 0 ((hi - lo + step - 1) / step) (fun k => body (lo + k * step)) s.

(** [for i := range n { buf[i] = f(i) }]. *)
Definition fill_each {A} (n : Z) (f : Z -> option A) (buf : list A) : option (list A) :=
  for_range 0 n (fun i buf => v ← f i; set buf i v) buf.

(** The integers [lo .. hi-1]. *)
Definition range (lo hi : Z) : list Z := seqZ lo (hi - lo).

(** [for _, v := range l { s = body(v, s) }]. *)
Definition for_each {A S} (l : list A) (body : A -> S -> option S) (s : S) : option S :=
  foldl (fun acc v => s ← acc; body v s) (Some s) l.

(** [buf[idx] = v; idx++]. *)
Definition emit {A} (v : A) : list A * Z -> option (list A * Z) :=
  fun '(buf, idx) => buf ← set buf idx v; Some (buf, idx + 1).

Section Lemmas.
Context {A : Type}.
Implicit Types (l vs : list A) (v : A).

Lemma len_nonneg l : 0 <= len l.
Proof. unfold len. lia. Qed.

Lemma len_nil : len (@nil A) = 0.
Proof. done. Qed.

Lemma len_cons v l : len (v :: l) = 1 + len l.
Proof. unfold len. cbn [length]. lia. Qed.

Lemma len_app l vs : len (l ++ vs) = len l + len vs.
Proof. unfold len. rewrite length_app. lia. Qed.

Lemma len_map {B} (f : B -> A) (l : list B) : len (f <$> l) = len l.
Proof. unfold len. by rewrite length_fmap. Qed.

Lemma len_replicate n v : len (replicate n v) = Z.of_nat n.
Proof. unfold len. by rewrite length_replicate. Qed.

Lemma len_0 l : len l = 0 -> l = [].
Proof. unfold len. intros E. apply nil_length_inv. lia. Qed.

Lemma get_Some l i v : get l i = Some v -> 0 <= i < len l.
Proof.
  unfold get, len. case_match; [|done]. bool_to_prop. intros E%lookup_lt_Some. lia.
Qed.

Lemma get_is_Some l i : 0 <= i < len l -> exists v, get l i = Some v.
Proof.
  unfold get, len. intros Hi. rewrite (proj2 (Z.leb_le 0 i)) by lia.
  apply lookup_lt_is_Some. lia.
Qed.

Lemma get_None l i : i < 0 \/ len l <= i -> get l i = None.
Proof.
  unfold get, len. intros Hi. case_match; [|done]. bool_to_prop. apply lookup_ge_None. lia.
Qed.

Lemma get_nat l (i : nat) : get l (Z.of_nat i) = l !! i.
Proof. unfold get. rewrite (proj2 (Z.leb_le _ _)) by lia. by rewrite Nat2Z.id. Qed.

Lemma get_map {B} (f : B -> A) (l : list B) i : get (f <$> l) i = f <$> get l i.
Proof. unfold get. case_match; [|done]. by rewrite list_lookup_fmap. Qed.

Lemma get_app_l l vs i : i < len l -> get (l ++ vs) i = get l i.
Proof. unfold get, len. intros Hi. case_match; [|done]. bool_to_prop. apply lookup_app_l. lia. Qed.

Lemma get_app_r l vs i : 0 <= i -> get (l ++ vs) (len l + i) = get vs i.
Proof.
  unfold get, len. intros Hi. rewrite !(proj2 (Z.leb_le _ _)) by lia.
  rewrite lookup_app_r by lia. f_equal. lia.
Qed.

Lemma get_ext l vs : len l = len vs -> (forall i, 0 <= i < len l -> get l i = get vs i) -> l = vs.
Proof.
  intros Hl Hi. apply list_eq. intros i. rewrite <- !get_nat. destruct (decide (Z.of_nat i < len l)) as [H|H].
  - apply Hi. lia.
  - rewrite !get_None; [done|lia|lia].
Qed.

Lemma subslice_Some l lo hi :
  0 <= lo <= hi -> hi <= len l -> subslice l lo hi = Some (take (Z.to_nat (hi - lo)) (drop (Z.to_nat lo) l)).
Proof. intros H1 H2. unfold subslice. rewrite !(proj2 (Z.leb_le _ _)) by lia. done. Qed.

Lemma subslice_is_Some l lo hi vs :
  subslice l lo hi = Some vs ->
  0 <= lo <= hi /\ hi <= len l /\ vs = take (Z.to_nat (hi - lo)) (drop (Z.to_nat lo) l) /\ len vs = hi - lo.
Proof.
  unfold subslice, len. intros E. case_match; [|done]. bool_to_prop. simplify_eq.
  rewrite length_take, length_drop. repeat split; lia.
Qed.

Lemma subslice_app l vs r lo hi :
  lo = len l -> hi = lo + len vs -> subslice (l ++ vs ++ r) lo hi = Some vs.
Proof.
  intros -> ->. rewrite subslice_Some; [|pose proof (len_nonneg l); pose proof (len_nonneg vs); lia|].
  - f_equal. unfold len. rewrite Nat2Z.id, drop_app_length.
    replace (Z.to_nat _) with (length vs) by lia. apply take_app_length.
  - rewrite !len_app. pose proof (len_nonneg r). lia.
Qed.

Lemma get_take_drop l (a n i : nat) : (i < n)%nat -> take n (drop a l) !! i = l !! (a + i)%nat.
Proof. intros Hi. rewrite lookup_take_lt by done. apply lookup_drop. Qed.

Lemma get_subslice l lo hi vs i :
  subslice l lo hi = Some vs -> 0 <= i < hi - lo -> get vs i = get l (lo + i).
Proof.
  intros (Hlo & Hhi & -> & _)%subslice_is_Some Hi. unfold get. rewrite !(proj2 (Z.leb_le _ _)) by lia.
  rewrite get_take_drop by lia. f_equal. lia.
Qed.

Lemma set_Some l i v : 0 <= i < len l -> set l i v = Some (splice l i [v]).
Proof.
  intros Hi. unfold set. rewrite (proj2 (Z.leb_le _ _)), (proj2 (Z.ltb_lt _ _)) by lia. cbn [andb].
  unfold splice, len in *. cbn [length app]. rewrite insert_take_drop by lia.
  by rewrite Nat.add_1_r.
Qed.

Lemma len_splice l i vs : 0 <= i -> i + len vs <= len l -> len (splice l i vs) = len l.
Proof.
  unfold splice, len. intros Hi Hl. rewrite !length_app, length_take, length_drop. lia.
Qed.

Lemma splice_nil l i : splice l i [] = l.
Proof. unfold splice. cbn. rewrite Nat.add_0_r. apply take_drop. Qed.

Lemma splice_all l vs : len vs = len l -> splice l 0 vs = vs.
Proof. unfold splice, len. intros E. rewrite take_0, drop_ge by lia. by rewrite app_nil_r. Qed.

Lemma get_splice l i vs j :
  0 <= i -> i + len vs <= len l ->
  get (splice l i vs) j = if (i <=? j) && (j <? i + len vs) then get vs (j - i) else get l j.
Proof.
  intros Hi Hl. unfold splice, len in *.
  destruct (decide (j < 0)) as [Hn|Hn].
  { rewrite (get_None _ j), (get_None l j) by lia. rewrite (proj2 (Z.leb_gt i j)) by lia. done. }
  assert (length (take (Z.to_nat i) l) = Z.to_nat i) as Et by (rewrite length_take; lia).
  unfold get. rewrite !(proj2 (Z.leb_le 0 j)) by lia. destruct (decide (j < i)).
  - rewrite (proj2 (Z.leb_gt i j)) by lia. cbn [andb]. rewrite lookup_app_l by lia. apply lookup_take_lt. lia.
  - rewrite (proj2 (Z.leb_le i j)) by lia. cbn [andb]. rewrite lookup_app_r by lia. rewrite Et.
    destruct (decide (j < i + Z.of_nat (length vs))).
    + rewrite (proj2 (Z.ltb_lt _ _)) by lia. rewrite (proj2 (Z.leb_le 0 (j - i))) by lia.
      rewrite lookup_app_l by lia. f_equal. lia.
    + rewrite (proj2 (Z.ltb_ge _ _)) by lia. rewrite lookup_app_r by lia. rewrite lookup_drop. f_equal. lia.
Qed.

(** Two pieces, one after the other, are one longer piece. *)
Lemma splice_splice l i vs ws :
  0 <= i -> i + len vs + len ws <= len l -> splice (splice l i vs) (i + len vs) ws = splice l i (vs ++ ws).
Proof.
  intros Hi Hl. pose proof (len_nonneg vs). pose proof (len_nonneg ws).
  apply get_ext.
  - rewrite !len_splice; rewrite ?len_app; try lia. rewrite len_splice; lia.
  - intros j _. rewrite !get_splice; rewrite ?len_app, ?len_splice by lia; try lia.
    destruct (decide (i <= j < i + len vs)) as [Hj|Hj].
    + rewrite (proj2 (Z.leb_gt (i + len vs) j)), (proj2 (Z.leb_le i j)) by lia. cbn [andb].
      rewrite !(proj2 (Z.ltb_lt _ _)) by lia. symmetry. apply get_app_l. lia.
    + destruct (decide (i + len vs <= j < i + len vs + len ws)) as [Hk|Hk].
      * rewrite !(proj2 (Z.leb_le _ j)) by lia. cbn [andb]. rewrite !(proj2 (Z.ltb_lt j _)) by lia.
        replace (j - i) with (len vs + (j - (i + len vs))) by lia. rewrite get_app_r by lia. done.
      * destruct (decide (j < i)).
        -- rewrite !(proj2 (Z.leb_gt _ j)) by lia. done.
        -- rewrite !(proj2 (Z.leb_le _ j)) by lia. cbn [andb]. rewrite !(proj2 (Z.ltb_ge j _)) by lia. done.
Qed.
End Lemmas.

(** The flat index of a row and a column. *)
Lemma flat_bound a n b c : 0 <= a < n -> 0 <= b < c -> 0 <= a * c + b < n * c.
Proof. nia. Qed.

(** ** What code leaves in a buffer *)

(** The code, which keeps the next position beside the buffer, writes [vs] from there on. *)
Definition emits {A} (body : list A * Z -> option (list A * Z)) (vs : list A) : Prop :=
  forall buf idx, 0 <= idx -> idx + len vs <= len buf ->
    body (buf, idx) = Some (splice buf idx vs, idx + len vs).

(** The code writes [vs] at position [i], and nothing else. *)
Definition writes {A} (body : list A -> option (list A)) (i : Z) (vs : list A) : Prop :=
  forall buf, 0 <= i -> i + len vs <= len buf -> body buf = Some (splice buf i vs).

(** The same of code whose values depend on the position [i] it starts from. *)
Definition emits_at {A} (body : list A * Z -> option (list A * Z)) (i : Z) (vs : list A) : Prop :=
  forall buf, 0 <= i -> i + len vs <= len buf -> body (buf, i) = Some (splice buf i vs, i + len vs).

Section Emits.
Context {A : Type}.
Implicit Types (vs : list A).

Lemma mjoin_map_cons {B} (f : B -> list A) x l : mjoin (f <$> x :: l) = f x ++ mjoin (f <$> l).
Proof. done. Qed.

Lemma range_nil lo hi : hi <= lo -> range lo hi = [].
Proof. intros H. unfold range, seqZ. by rewrite (Z2Nat.nonpos (hi - lo)) by lia. Qed.

Lemma range_cons lo hi : lo < hi -> range lo hi = lo :: range (lo + 1) hi.
Proof.
  intros H. unfold range. rewrite seqZ_cons by lia. do 2 f_equal; lia.
Qed.

Lemma range_elem lo hi i : i ∈ range lo hi <-> lo <= i < hi.
Proof. unfold range. rewrite elem_of_seqZ. lia. Qed.

Lemma range_len lo hi : lo <= hi -> len (range lo hi) = hi - lo.
Proof. intros H. unfold range, len. rewrite length_seqZ. lia. Qed.

Lemma range_app lo mid hi : lo <= mid <= hi -> range lo hi = range lo mid ++ range mid hi.
Proof.
  intros H. unfold range. replace (hi - lo) with ((mid - lo) + (hi - mid)) by lia.
  rewrite seqZ_app by lia. do 2 f_equal. lia.
Qed.

Lemma get_range lo hi i : 0 <= i < hi - lo -> get (range lo hi) i = Some (lo + i).
Proof.
  intros H. unfold get, range. rewrite (proj2 (Z.leb_le _ _)) by lia.
  rewrite lookup_seqZ. f_equal. lia.
Qed.

Lemma range_shift lo hi k : range (lo + k) (hi + k) = (fun i => i + k) <$> range lo hi.
Proof.
  unfold range. replace (hi + k - (lo + k)) with (hi - lo) by lia.
  replace (lo + k) with (k + lo) by lia. rewrite <- fmap_add_seqZ. apply list_fmap_ext. intros; lia.
Qed.

Lemma for_range_nil {S} lo hi (body : Z -> S -> option S) s : hi <= lo -> for_range lo hi body s = Some s.
Proof. intros H. unfold for_range. by rewrite (Z2Nat.nonpos (hi - lo)) by lia. Qed.

Lemma for_range_step {S} lo hi (body : Z -> S -> option S) s :
  lo < hi -> for_range lo hi body s = (s ← body lo s; for_range (lo + 1) hi body s).
Proof.
  intros H. unfold for_range. replace (Z.to_nat (hi - lo)) with (Datatypes.S (Z.to_nat (hi - (lo + 1)))) by lia. done.
Qed.

Lemma for_range_ind (P : Z -> Z -> Prop) :
  (forall lo hi, hi <= lo -> P lo hi) -> (forall lo hi, lo < hi -> P (lo + 1) hi -> P lo hi) -> forall lo hi, P lo hi.
Proof.
  intros Hnil Hstep lo hi. remember (Z.to_nat (hi - lo)) as n eqn:En. revert lo En.
  induction n as [|n IH]; intros lo En; [apply Hnil; lia|]. apply Hstep; [lia|]. apply IH. lia.
Qed.

Lemma for_range_ext {S} lo hi (f g : Z -> S -> option S) s :
  (forall i s, lo <= i < hi -> f i s = g i s) -> for_range lo hi f s = for_range lo hi g s.
Proof.
  revert s. pattern lo, hi. apply for_range_ind; clear lo hi.
  - intros lo hi H s _. by rewrite !for_range_nil.
  - intros lo hi H IH s Hfg. rewrite !for_range_step by done. rewrite Hfg by lia.
    destruct (g lo s) as [s'|]; [|done]. cbn. apply IH. intros; apply Hfg; lia.
Qed.

(** Two bodies that agree on the states an invariant allows. *)
Lemma for_range_ext_inv {S} (I : S -> Prop) lo hi (f g : Z -> S -> option S) s :
  I s -> (forall i s, lo <= i < hi -> I s -> f i s = g i s /\ forall s', g i s = Some s' -> I s') ->
  for_range lo hi f s = for_range lo hi g s.
Proof.
  revert s. pattern lo, hi. apply for_range_ind; clear lo hi.
  - intros lo hi H s _ _. by rewrite !for_range_nil.
  - intros lo hi H IH s HI Hfg. rewrite !for_range_step by done. destruct (Hfg lo s) as [-> Hnext]; [lia|done|].
    destruct (g lo s) as [s'|]; [|done]. cbn. apply IH; [by apply Hnext|]. intros i s'' Hi. apply Hfg. lia.
Qed.

(** An invariant of a counting loop that never panics. *)
Lemma for_range_inv {S} (I : Z -> S -> Prop) lo hi body s :
  lo <= hi -> I lo s ->
  (forall i s, lo <= i < hi -> I i s -> exists s', body i s = Some s' /\ I (i + 1) s') ->
  exists s', for_range lo hi body s = Some s' /\ I hi s'.
Proof.
  revert s. pattern lo, hi. apply for_range_ind; clear lo hi.
  - intros lo hi H s Hle HI _. assert (hi = lo) as -> by lia. rewrite for_range_nil by done. by eexists.
  - intros lo hi H IH s Hle HI Hb. rewrite for_range_step by done.
    destruct (Hb lo s) as (s' & -> & HI'); [lia|done|]. cbn. apply IH; [lia|done|]. intros; apply Hb; [lia|done].
Qed.

(** What holds of a run, finished or panicking, turn after turn. *)
Lemma for_range_run {S} (R : Z -> option S -> Prop) lo hi body os :
  lo <= hi -> R lo os -> (forall i os, lo <= i < hi -> R i os -> R (i + 1) (os ≫= body i)) ->
  R hi (os ≫= for_range lo hi body).
Proof.
  revert os. pattern lo, hi. apply for_range_ind; clear lo hi.
  - intros lo hi H os Hle HR _. assert (hi = lo) as -> by lia. destruct os as [s|]; [|done]. cbn. by rewrite for_range_nil.
  - intros lo hi H IH os Hle HR Hb. assert (os ≫= for_range lo hi body = (os ≫= body lo) ≫= for_range (lo + 1) hi body) as ->.
    { destruct os as [s|]; [|done]. cbn. by rewrite for_range_step. }
    apply IH; [lia|apply Hb; [lia|done]|]. intros; apply Hb; [lia|done].
Qed.

(** What holds of a run beside another that finishes. *)
Lemma for_range_beside {S T} (R : Z -> S -> option T -> Prop) lo hi f g s os s' :
  lo <= hi -> R lo s os ->
  (forall i s os s', lo <= i < hi -> R i s os -> f i s = Some s' -> R (i + 1) s' (os ≫= g i)) ->
  for_range lo hi f s = Some s' -> R hi s' (os ≫= for_range lo hi g).
Proof.
  intros Hle HR Hstep Hrun.
  revert s os Hle HR Hstep Hrun. pattern lo, hi. apply for_range_ind; clear lo hi.
  - intros lo hi H s os Hle HR _. rewrite for_range_nil by done. intros [= ->]. assert (hi = lo) as -> by lia.
    destruct os as [t|]; [|done]. cbn. by rewrite for_range_nil.
  - intros lo hi H IH s os Hle HR Hstep. rewrite for_range_step by done. intros Hrun.
    destruct (f lo s) as [s1|] eqn:E; [|done]. cbn in Hrun.
    assert (os ≫= for_range lo hi g = (os ≫= g lo) ≫= for_range (lo + 1) hi g) as ->.
    { destruct os as [t|]; [|done]. cbn. by rewrite for_range_step. }
    apply (IH s1); [lia|apply (Hstep _ s); [lia|done..]| |done]. intros i s2 os2 s2' Hi. apply Hstep. lia.
Qed.

(** What holds at the end of a run that finishes. *)
Lemma for_range_after {S} (P : Z -> S -> Prop) lo hi body s s' :
  lo <= hi -> P lo s -> (forall i s s', lo <= i < hi -> P i s -> body i s = Some s' -> P (i + 1) s') ->
  for_range lo hi body s = Some s' -> P hi s'.
Proof.
  intros Hle HP Hstep Hrun. pose proof (for_range_run (fun i os => forall s, os = Some s -> P i s) lo hi body (Some s) Hle) as H.
  apply H; [by intros ? [= <-]| |done]. intros i [t|] Hi Ht t' E; [|done]. apply (Hstep _ t); [done|by apply Ht|done].
Qed.

Lemma for_step_after {S} (P : S -> Prop) lo hi step body s s' :
  P s -> (forall i s s', P s -> body i s = Some s' -> P s') -> for_step lo hi step body s = Some s' -> P s'.
Proof.
  intros HP Hstep Hrun. unfold for_step in Hrun. set (n := (hi - lo + step - 1) / step) in *.
  destruct (decide (0 <= n)); [|rewrite for_range_nil in Hrun by lia; by simplify_eq].
  by apply (for_range_after (fun _ => P) 0 n _ s s') in Hrun; [|lia|done|intros i t t' _; apply Hstep].
Qed.

(** The same for a loop by steps: the invariant at the start of a turn, and at the next
    start or the end. *)
Lemma for_step_inv {S} (I : Z -> S -> Prop) lo hi step body s :
  lo <= hi -> 0 < step -> I lo s ->
  (forall x s, lo <= x < hi -> I x s -> exists s', body x s = Some s' /\ I (Z.min (x + step) hi) s') ->
  exists s', for_step lo hi step body s = Some s' /\ I hi s'.
Proof.
  intros Hle Hstep HI Hb. unfold for_step. set (n := (hi - lo + step - 1) / step).
  pose proof (Z.div_mod (hi - lo + step - 1) step ltac:(lia)) as E. fold n in E.
  pose proof (Z.mod_pos_bound (hi - lo + step - 1) step Hstep) as Hm.
  assert (0 <= n) as Hn by (apply Z.div_pos; lia).
  destruct (for_range_inv (fun q => I (Z.min (lo + q * step) hi)) 0 n (fun q => body (lo + q * step)) s Hn) as (s' & Hrun & HI').
  - rewrite Z.mul_0_l, Z.add_0_r. by rewrite Z.min_l by lia.
  - intros q s' Hq HIq. rewrite Z.min_l in HIq by nia. destruct (Hb (lo + q * step) s') as (s'' & Hb' & HI''); [nia|done|].
    exists s''. split; [done|]. by replace (lo + (q + 1) * step) with (lo + q * step + step) by lia.
  - exists s'. split; [done|]. by rewrite Z.min_r in HI' by nia.
Qed.

Lemma for_each_cons {B S} (x : B) l (body : B -> S -> option S) s :
  for_each (x :: l) body s = (s ← body x s; for_each l body s).
Proof.
  unfold for_each. cbn. destruct (body x s) as [s'|]; cbn; [done|].
  induction l as [|y l IH]; cbn; [done|exact IH].
Qed.

Lemma emits_nil : emits (fun s : list A * Z => Some s) [].
Proof. intros buf idx Hi Hl. by rewrite splice_nil, len_nil, Z.add_0_r. Qed.

Lemma emits_emit (v : A) : emits (emit v) [v].
Proof.
  intros buf idx Hi Hl. cbn in Hl. unfold emit. rewrite set_Some by (unfold len in *; cbn in *; lia). done.
Qed.

Lemma emits_seq f g vs (ws : list A) : emits f vs -> emits g ws -> emits (fun s => s ← f s; g s) (vs ++ ws).
Proof.
  intros Hf Hg buf idx Hi Hl. rewrite len_app in Hl. pose proof (len_nonneg vs). pose proof (len_nonneg ws).
  rewrite Hf by lia. cbn. rewrite Hg; [|lia|rewrite len_splice; lia].
  rewrite splice_splice by lia. rewrite len_app. do 2 f_equal. lia.
Qed.

Lemma emits_loop lo hi body (vs : Z -> list A) :
  (forall i, lo <= i < hi -> emits (body i) (vs i)) -> emits (for_range lo hi body) (mjoin (vs <$> range lo hi)).
Proof.
  pattern lo, hi. apply for_range_ind; clear lo hi.
  - intros lo hi H _ buf idx Hi Hl. rewrite range_nil by done. rewrite for_range_nil by done. cbn. by rewrite splice_nil, len_nil, Z.add_0_r.
  - intros lo hi H IH Hb buf idx Hi Hl. rewrite range_cons in * by done. rewrite mjoin_map_cons in *.
    rewrite for_range_step by done. refine (emits_seq (body lo) _ _ _ _ _ buf idx Hi Hl); [apply Hb; lia|].
    apply IH. intros i Hi'. apply Hb. lia.
Qed.

Lemma emits_each {B} (l : list B) body (vs : B -> list A) :
  (forall x, x ∈ l -> emits (body x) (vs x)) -> emits (for_each l body) (mjoin (vs <$> l)).
Proof.
  induction l as [|x l IH]; intros Hb buf idx Hi Hl.
  - cbn. by rewrite splice_nil, len_nil, Z.add_0_r.
  - rewrite mjoin_map_cons in *. rewrite for_each_cons.
    refine (emits_seq (body x) _ _ _ _ _ buf idx Hi Hl); [apply Hb; by left|].
    apply IH. intros y Hy. apply Hb. by right.
Qed.

(** A whole buffer of the right size. *)
Lemma emits_whole body vs (buf : list A) :
  emits body vs -> len buf = len vs -> body (buf, 0) = Some (vs, len vs).
Proof. intros H E. rewrite H by lia. by rewrite splice_all. Qed.

Lemma emits_at_seq f g i vs (ws : list A) :
  emits_at f i vs -> emits_at g (i + len vs) ws -> emits_at (fun s => s ← f s; g s) i (vs ++ ws).
Proof.
  intros Hf Hg buf Hi Hl. rewrite len_app in Hl. pose proof (len_nonneg vs). pose proof (len_nonneg ws).
  rewrite Hf by lia. cbn. rewrite Hg; [|lia|rewrite len_splice; lia].
  rewrite splice_splice by lia. rewrite len_app. do 2 f_equal. lia.
Qed.

Lemma emits_at_loop lo hi base k body (vs : Z -> list A) :
  (forall i, lo <= i < hi -> emits_at (body i) (base + (i - lo) * k) (vs i)) ->
  (forall i, lo <= i < hi -> len (vs i) = k) ->
  emits_at (for_range lo hi body) base (mjoin (vs <$> range lo hi)).
Proof.
  revert base. pattern lo, hi. apply for_range_ind; clear lo hi.
  - intros lo hi H base _ _ buf Hi Hl. rewrite range_nil by done. rewrite for_range_nil by done. cbn.
    by rewrite splice_nil, len_nil, Z.add_0_r.
  - intros lo hi H IH base Hb Hk buf Hi Hl. rewrite range_cons in * by done. rewrite mjoin_map_cons in *.
    rewrite for_range_step by done. refine (emits_at_seq (body lo) _ _ _ _ _ _ buf Hi Hl).
    + replace base with (base + (lo - lo) * k) by lia. apply Hb. lia.
    + rewrite Hk by lia. apply IH; [|intros; apply Hk; lia]. intros i Hi'.
      replace (base + k + (i - (lo + 1)) * k) with (base + (i - lo) * k) by lia. apply Hb. lia.
Qed.

Lemma mjoin_singles {B} (f : B -> A) l : mjoin ((fun x => [f x]) <$> l) = f <$> l.
Proof. induction l as [|x l IH]; [done|]. rewrite mjoin_map_cons, IH. done. Qed.

(** One value per turn. *)
Lemma emits_at_each lo hi base body (f : Z -> A) :
  (forall i, lo <= i < hi -> emits_at (body i) (base + (i - lo)) [f i]) ->
  emits_at (for_range lo hi body) base (f <$> range lo hi).
Proof.
  intros Hb. rewrite <- mjoin_singles. apply (emits_at_loop _ _ _ 1); [|done]. intros i Hi. rewrite Z.mul_1_r. by apply Hb.
Qed.

Lemma emits_at_whole body (vs buf : list A) :
  emits_at body 0 vs -> len buf = len vs -> body (buf, 0) = Some (vs, len vs).
Proof. intros H E. rewrite H by lia. by rewrite splice_all. Qed.

Lemma emits_emits_at body i (vs : list A) : emits body vs -> emits_at body i vs.
Proof. intros H buf Hi Hl. by apply H. Qed.

Lemma writes_set i (v : A) : writes (fun buf => set buf i v) i [v].
Proof. intros buf Hi Hl. apply set_Some. unfold len in *. cbn in *. lia. Qed.

Lemma writes_nil i : writes (fun buf : list A => Some buf) i [].
Proof. intros buf _ _. by rewrite splice_nil. Qed.

Lemma writes_ext f g i vs : (forall buf : list A, f buf = g buf) -> writes f i vs -> writes g i vs.
Proof. intros H W buf Hi Hl. by rewrite <- H, W. Qed.

Lemma writes_seq f g i vs (ws : list A) :
  writes f i vs -> writes g (i + len vs) ws -> writes (fun s => s ← f s; g s) i (vs ++ ws).
Proof.
  intros Hf Hg buf Hi Hl. rewrite len_app in Hl. pose proof (len_nonneg vs). pose proof (len_nonneg ws).
  rewrite Hf by lia. cbn. rewrite Hg; [|lia|rewrite len_splice; lia]. by rewrite splice_splice by lia.
Qed.

Lemma writes_loop lo hi base k body (vs : Z -> list A) :
  (forall i, lo <= i < hi -> writes (body i) (base + (i - lo) * k) (vs i)) ->
  (forall i, lo <= i < hi -> len (vs i) = k) ->
  writes (for_range lo hi body) base (mjoin (vs <$> range lo hi)).
Proof.
  revert base. pattern lo, hi. apply for_range_ind; clear lo hi.
  - intros lo hi H base _ _ buf Hi Hl. rewrite range_nil by done. rewrite for_range_nil by done. cbn. by rewrite splice_nil.
  - intros lo hi H IH base Hb Hk buf Hi Hl. rewrite range_cons in * by done. rewrite mjoin_map_cons in *.
    rewrite for_range_step by done. refine (writes_seq (body lo) _ _ _ _ _ _ buf Hi Hl).
    + replace base with (base + (lo - lo) * k) by lia. apply Hb. lia.
    + rewrite Hk by lia. apply IH; [|intros; apply Hk; lia]. intros i Hi'.
      replace (base + k + (i - (lo + 1)) * k) with (base + (i - lo) * k) by lia. apply Hb. lia.
Qed.

(** Writing the positions of a buffer in order, one value each. *)
Lemma writes_each lo hi base body (f : Z -> A) :
  (forall i, lo <= i < hi -> writes (body i) (base + (i - lo)) [f i]) ->
  writes (for_range lo hi body) base (f <$> range lo hi).
Proof.
  intros Hb. rewrite <- mjoin_singles. apply (writes_loop _ _ _ 1); [|done]. intros i Hi. rewrite Z.mul_1_r. by apply Hb.
Qed.

Lemma writes_whole body (vs buf : list A) : writes body 0 vs -> len buf = len vs -> body buf = Some vs.
Proof. intros H E. rewrite H by lia. by rewrite splice_all. Qed.

(** Filling a buffer of the right size leaves the values, whatever it held. *)
Lemma fill_each_ok n (f : Z -> option A) buf :
  0 <= n -> len buf = n -> (forall i, 0 <= i < n -> is_Some (f i)) ->
  exists vs, fill_each n f buf = Some vs /\ len vs = n /\ forall i, 0 <= i < n -> get vs i = f i.
Proof.
  intros Hn Hb Hf. destruct (mapM_is_Some_2 f (range 0 n)) as [vs Hvs].
  { apply Forall_forall. intros i Hi. apply Hf. by apply range_elem. }
  assert (len vs = n) as Hlen.
  { apply length_mapM in Hvs. unfold len. rewrite <- Hvs. change (len (range 0 n) = n). rewrite range_len; lia. }
  assert (forall i, 0 <= i < n -> get vs i = f i) as Hget.
  { intros i Hi. apply mapM_Some in Hvs. pose proof (get_range 0 n i ltac:(lia)) as Hr.
    unfold get in Hr |- *. rewrite (proj2 (Z.leb_le 0 i)) in Hr |- * by lia.
    destruct (Forall2_lookup_l _ _ _ _ _ Hvs Hr) as (v & -> & Hv). rewrite Z.add_0_l in Hv. by rewrite Hv. }
  exists vs. split; [|done]. apply (writes_whole _ vs); [|lia].
  destruct (decide (n = 0)) as [->|Hn0]; [rewrite (len_0 vs) by done; intros b Hb0 Hb1; cbn; by rewrite splice_nil|].
  destruct vs as [|v0 vs']; [unfold len in Hlen; cbn in Hlen; lia|]. set (ws := v0 :: vs') in *.
  assert (ws = (fun i => default v0 (get ws i)) <$> range 0 n) as Ews.
  { apply get_ext; [rewrite len_map, range_len; lia|]. intros i Hi. rewrite get_map, get_range by lia. rewrite Z.add_0_l. cbn.
    destruct (get_is_Some ws i Hi) as [x Hx]. by rewrite Hx. }
  rewrite Ews. apply writes_each. intros i Hi. destruct (Hf i Hi) as [x Hx].
  replace (0 + (i - 0)) with i by lia. rewrite Hget, Hx by done.
  apply (writes_ext (fun buf => set buf i x)); [intros b; by rewrite ?Hx|apply writes_set].
Qed.

(** A fill of a buffer that has room: the values, or the index of one that is not there. *)
Lemma fill_each_cases n (f : Z -> option A) buf :
  0 <= n <= len buf ->
  match fill_each n f buf with
  | Some vs => len vs = len buf /\ (forall i, 0 <= i < n -> get vs i = f i) /\ (forall i, n <= i -> get vs i = get buf i)
  | None => exists i, 0 <= i < n /\ f i = None
  end.
Proof.
  intros Hn.
  pose proof (for_range_run (fun k os => match os with
    | Some vs => len vs = len buf /\ (forall i, 0 <= i < k -> get vs i = f i) /\ (forall i, k <= i -> get vs i = get buf i)
    | None => exists i, 0 <= i < k /\ f i = None end) 0 n (fun i buf => v ← f i; set buf i v) (Some buf)) as H.
  cbn [mbind option_bind] in H. apply H; clear H; [lia|split; [done|split; [lia|done]]|].
  intros k [vs|] Hk; cbn [mbind option_bind]; [|intros (i & Hi & E); exists i; split; [lia|done]].
  intros (Hl & Hlt & Hge). destruct (f k) as [v|] eqn:E; cbn [mbind option_bind]; [|by exists k; split; [lia|]].
  rewrite set_Some by lia. split; [by rewrite len_splice; [|lia|change (len [v]) with 1; lia]|].
  split; intros i Hi; (rewrite get_splice by (lia || (change (len [v]) with 1; lia))); change (len [v]) with 1.
  - destruct (Z.eq_dec i k) as [->|].
    + rewrite (proj2 (Z.leb_le _ _)), (proj2 (Z.ltb_lt _ _)) by lia. cbn [andb]. by rewrite Z.sub_diag, E.
    + rewrite (proj2 (Z.leb_gt k i)) by lia. apply Hlt. lia.
  - rewrite (proj2 (Z.ltb_ge i (k + 1))) by lia. rewrite andb_false_r. apply Hge. lia.
Qed.

Lemma set_inv (l : list A) i v l' : set l i v = Some l' -> 0 <= i < len l /\ l' = splice l i [v].
Proof.
  intros E. assert (0 <= i < len l) as Hi by (unfold set in E; case_match; [bool_to_prop; lia|done]).
  rewrite set_Some in E by done. by simplify_eq.
Qed.

Lemma set_len (l : list A) i v l' : set l i v = Some l' -> len l' = len l.
Proof. intros [Hi ->]%set_inv. apply len_splice; [lia|]. change (len [v]) with 1. lia. Qed.

Lemma in_slice_inv (l : list A) lo hi f l' :
  in_slice l lo hi f = Some l' -> exists dst dst', subslice l lo hi = Some dst /\ f dst = Some dst' /\ l' = splice l lo dst'.
Proof.
  unfold in_slice. intros E. destruct (subslice l lo hi) as [dst|]; [|done]. cbn in E. destruct (f dst) as [dst'|] eqn:Ef; [|done].
  cbn in E. simplify_eq. by exists dst, dst'.
Qed.

Lemma writes_copy i (src block : list A) j n :
  0 <= n -> subslice src j (j + n) = Some block -> writes (fun buf => copy_block buf i src j n) i block.
Proof.
  intros Hn Hs buf Hi Hl. pose proof (subslice_is_Some _ _ _ _ Hs) as (_ & _ & _ & Hb). unfold copy_block.
  rewrite (subslice_Some buf) by lia. cbn. by rewrite Hs.
Qed.

Lemma len_mjoin {B} (l : list B) (vs : B -> list A) k :
  (forall x, x ∈ l -> len (vs x) = k) -> len (mjoin (vs <$> l)) = len l * k.
Proof.
  induction l as [|x l IH]; intros Hk; [done|]. rewrite mjoin_map_cons, len_app, len_cons, Hk by (by left).
  rewrite IH by (intros; apply Hk; by right). lia.
Qed.

(** The element of a concatenation of blocks of one size. *)
Lemma get_mjoin {B} (l : list B) (vs : B -> list A) k q r :
  (forall x, x ∈ l -> len (vs x) = k) -> 0 <= r < k -> 0 <= q ->
  get (mjoin (vs <$> l)) (q * k + r) = (x ← get l q; get (vs x) r).
Proof.
  intros Hk Hr Hq. revert q Hq. induction l as [|x l IH]; intros q Hq.
  - rewrite (get_None (@nil B)) by (unfold len; cbn; lia). apply get_None. unfold len. cbn. lia.
  - rewrite mjoin_map_cons. assert (len (vs x) = k) as Ex by (apply Hk; by left).
    destruct (decide (q = 0)) as [->|Hq0].
    + cbn. rewrite get_app_l by lia. f_equal.
    + replace (q * k + r) with (len (vs x) + ((q - 1) * k + r)) by lia. rewrite get_app_r by nia.
      rewrite IH; [|intros; apply Hk; by right|lia].
      change (x :: l) with ([x] ++ l). replace q with (len [x] + (q - 1)) at 2 by (unfold len; cbn; lia).
      by rewrite (get_app_r [x]) by lia.
Qed.
End Emits.

#[export] Hint Rewrite @len_app @len_cons @len_nil @len_map @len_replicate : vedetta.

(** Runs the [fill_each] of the goal: its length, the length of its buffer and that every
    value is there are left to prove. *)
Ltac run_fill_each vs Hlen Hget :=
  match goal with
  | |- context [fill_each ?n ?f ?buf] =>
      let E := fresh "E" in
      destruct (fill_each_ok n f buf) as (vs & E & Hlen & Hget); [| | |rewrite E; clear E; cbn [mbind option_bind]]
  end.
