(* ===== verification/OnnxProto.v ===== *)
(** The protobuf wire format of a model file ([detect/onnxruntime/proto.go]): a reader
    over a byte slice, its primitive fields, and the loop over the fields of a message.

    A reader action takes the bytes and the position and returns the outcome with the
    position it leaves, after an error too, because some callers read on.  [Panic] is
    Go's run-time panic; [NoFuel] is a field loop whose bound on turns was too small,
    which never happens ([OnnxModelTheorems]).

    Lemmas on the wire reader: what it never does, and that it reads back what a
    protobuf writer produces.

    [safe r]: from a position of the data, [r] stays inside it, never moves back and
    never runs out of turns; and it does not panic on data that holds no varint near
    2^63 ([tame]).  [reads r bs a]: over the bytes [bs], wherever they stand, [r]
    returns [a] and consumes exactly [bs]. *)

From Stdlib Require Import SpecFloat.
From S2P Require Import Prelude Float64 GoStrings GoSlices.

#[local] Open Scope list_scope.

(** A byte slice. *)
Abbreviation bytes := (list Z).

(** The errors of the package's decoders, by their [fmt.Errorf]. *)
Inductive model_error :=
| UnexpectedEOF (reading : string)
| VarintOverflow
| BytesLength (length remaining : Z)
| UnknownWireType (wireType : Z)
| Wrapped (context : string) (e : model_error)
| NoGraphFound
| HalfPrecision (dataType : Z)
| UnsupportedDataType (dataType : Z)
| ShapeMismatch (dims : list Z) (want got : Z)
| UnsupportedOperator (opType : string).

(** What a reader can answer. *)
Inductive outcome (A : Type) : Type :=
| Val (a : A)
| Fail (e : model_error)
| Panic
| NoFuel.
Arguments Val {A} a.
Arguments Fail {A} e.
Arguments Panic {A}.
Arguments NoFuel {A}.

Definition reader (A : Type) : Type := bytes -> Z -> outcome A * Z.

Definition ret {A} (a : A) : reader A := fun _ pos => (Val a, pos).

Definition bind {A B} (r : reader A) (k : A -> reader B) : reader B := fun data pos =>
  match r data pos with
  | (Val a, pos) => k a data pos
  | (Fail e, pos) => (Fail e, pos)
  | (Panic, pos) => (Panic, pos)
  | (NoFuel, pos) => (NoFuel, pos)
  end.

Declare Scope reader_scope.
Delimit Scope reader_scope with reader.
Notation "'let!' x := r 'in' k" := (bind r (fun x => k))
  (at level 10, x pattern, r at level 100, k at level 200) : reader_scope.
#[global] Open Scope reader_scope.

Definition fail {A} (e : model_error) : reader A := fun _ pos => (Fail e, pos).

(** The result of parsing a sub-message from its own slice. *)
Definition lift {A} (o : outcome A) : reader A := fun _ pos => (o, pos).

(** [fmt.Errorf("context: %w", err)]. *)
Definition wrap {A} (context : string) (o : outcome A) : outcome A :=
  match o with Fail e => Fail (Wrapped context e) | _ => o end.

(** [_ = r.skip(wireType)]: the error is dropped, the position it left is kept. *)
Definition ignore (r : reader unit) : reader unit := fun data pos =>
  match r data pos with (Fail _, pos) => (Val tt, pos) | res => res end.

(** A message parsed from its own slice. *)
Definition parse {A} (r : reader A) (data : bytes) : outcome A := fst (r data 0).

(** ** Wire types *)

Definition wireVarint : Z := 0.
Definition wire64Bit : Z := 1.
Definition wireBytes : Z := 2.
Definition wire32Bit : Z := 5.

(** ** Primitive fields *)

Definition remaining (data : bytes) (pos : Z) : Z := len data - pos.

(** One byte more of a varint: at most ten of them, as the tenth leaves [shift] at 70. *)
Fixpoint varint_loop (turns : nat) (val shift : Z) : reader Z := fun data pos =>
  match turns with
  | O => (NoFuel, pos)
  | S turns =>
      if len data <=? pos then (Fail (UnexpectedEOF "varint"), pos) else
      match get data pos with
      | None => (Panic, pos)
      | Some b =>
          let val := Z.lor val (u64 (Z.shiftl (Z.land b 127) shift)) in
          if b <? 128 then (Val val, pos + 1) else
          let shift := shift + 7 in
          if 64 <=? shift then (Fail VarintOverflow, pos + 1)
          else varint_loop turns val shift data (pos + 1)
      end
  end.

Definition readVarint : reader Z := varint_loop 10 0 0.

Definition readTag : reader (Z * Z) :=
  let! v := readVarint in ret (Z.shiftr v 3, Z.land v 7).

(** [r.pos+int(length) > len(r.data)], at the width of [int]: a length of 2^63 and more,
    or one that carries the sum past it, is a negative number there, passes the test
    and then panics in the slice expression. *)
Definition readBytes : reader bytes :=
  let! length := readVarint in
  fun data pos =>
    if len data <? i64 (pos + i64 length) then (Fail (BytesLength length (remaining data pos)), pos) else
    match subslice data pos (i64 (pos + i64 length)) with
    | None => (Panic, pos)
    | Some b => (Val b, i64 (pos + i64 length))
    end.

(** [binary.LittleEndian.Uint16], [Uint32] and [Uint64] of the first [n] bytes. *)
Fixpoint le (n : nat) (b : bytes) : option Z :=
  match n, b with
  | O, _ => Some 0
  | S n, x :: b => v ← le n b; Some (x + 256 * v)
  | S _, [] => None
  end.

Definition le_at (n : nat) (data : bytes) (pos : Z) : option Z :=
  if 0 <=? pos then le n (drop (Z.to_nat pos) data) else None.

(** [readFixed32] and [readFixed64], by their number of bytes. *)
Definition readFixed (n : nat) (what : string) : reader Z := fun data pos =>
  if len data <? pos + Z.of_nat n then (Fail (UnexpectedEOF what), pos) else
  match le_at n data pos with
  | None => (Panic, pos)
  | Some v => (Val v, pos + Z.of_nat n)
  end.

Definition readFixed32 : reader Z := readFixed 4 "fixed32".
Definition readFixed64 : reader Z := readFixed 8 "fixed64".

Definition skip_fixed (n : Z) (what : string) : reader unit := fun data pos =>
  if len data <? pos + n then (Fail (UnexpectedEOF what), pos) else (Val tt, pos + n).

Definition skip (wireType : Z) : reader unit :=
  if wireType =? wireVarint then let! _ := readVarint in ret tt
  else if wireType =? wire64Bit then skip_fixed 8 "64-bit"
  else if wireType =? wireBytes then let! _ := readBytes in ret tt
  else if wireType =? wire32Bit then skip_fixed 4 "32-bit"
  else fail (UnknownWireType wireType).

(** ** Packed fields *)

(** [math.Float32frombits] and [math.Float64frombits], by mantissa and exponent width; the
    payload of a NaN is not kept. *)
Definition float_frombits (mw ew : Z) (bits : Z) : spec_float :=
  let s := Z.testbit bits (mw + ew) in
  let e := Z.land (Z.shiftr bits mw) (2 ^ ew - 1) in
  let m := Z.land bits (2 ^ mw - 1) in
  let emin := 2 - 2 ^ (ew - 1) - mw in
  if e =? 2 ^ ew - 1 then (if m =? 0 then S754_infinity s else S754_nan)
  else
    match (if e =? 0 then m else m + 2 ^ mw) with
    | Zpos p => S754_finite s p (if e =? 0 then emin else emin + e - 1)
    | _ => S754_zero s
    end.

Definition Float32frombits : Z -> spec_float := float_frombits 23 8.
Definition Float64frombits : Z -> spec_float := float_frombits 52 11.

(** [n] little-endian words of [w] bytes each. *)
Definition words (w : nat) (data : bytes) : option (list Z) :=
  mapM (fun i => le_at w data (i * Z.of_nat w)) (range 0 (len data / Z.of_nat w)).

Definition readPackedFloat32 (data : bytes) : option (list spec_float) :=
  vs ← words 4 data; Some (map Float32frombits vs).

Definition readPackedFloat64 (data : bytes) : option (list spec_float) :=
  vs ← words 8 data; Some (map Float64frombits vs).

Definition of_panic {A} (o : option A) : outcome A :=
  match o with Some a => Val a | None => Panic end.

(** [for r.remaining() > 0 { v, err := r.readVarint(); ... append(result, conv(v)) }]. *)
Fixpoint packed_loop (fuel : nat) (conv : Z -> Z) (acc : list Z) : reader (list Z) := fun data pos =>
  if remaining data pos <=? 0 then (Val acc, pos) else
  match fuel with
  | O => (NoFuel, pos)
  | S fuel => (let! v := readVarint in packed_loop fuel conv (acc ++ [conv v])) data pos
  end.

Definition read_packed (conv : Z -> Z) (data : bytes) : outcome (list Z) :=
  parse (packed_loop (length data) conv []) data.

Definition readPackedInt64 : bytes -> outcome (list Z) := read_packed i64.
Definition readPackedInt32 : bytes -> outcome (list Z) := read_packed i32.
Definition readPackedUint64 : bytes -> outcome (list Z) := read_packed (fun v => v).

(** ** Messages *)

(** [for r.remaining() > 0 { fieldNum, wireType, err := r.readTag(); switch ... }]: the
    body of the switch is [field]. *)
Fixpoint fields_loop {M} (fuel : nat) (tag_error : model_error -> model_error)
    (field : Z -> Z -> M -> reader M) (m : M) : reader M := fun data pos =>
  if remaining data pos <=? 0 then (Val m, pos) else
  match fuel with
  | O => (NoFuel, pos)
  | S fuel =>
      match readTag data pos with
      | (Val (fieldNum, wireType), pos) =>
          (let! m := field fieldNum wireType m in fields_loop fuel tag_error field m) data pos
      | (Fail e, pos) => (Fail (tag_error e), pos)
      | (Panic, pos) => (Panic, pos)
      | (NoFuel, pos) => (NoFuel, pos)
      end
  end.

(** Every turn consumes a byte at least, so the length of the message bounds the turns. *)
Definition fields {M} (field : Z -> Z -> M -> reader M) (m : M) (data : bytes) : outcome M :=
  parse (fields_loop (length data) (fun e => e) field m) data.

(** [string(b)]. *)
Definition to_string (b : bytes) : string := bytes_to_string (Z.to_nat <$> b).

#[global] Arguments readVarint : simpl never.
#[global] Arguments readTag : simpl never.
#[global] Arguments readBytes : simpl never.
#[global] Arguments readFixed : simpl never.
#[global] Arguments skip : simpl never.

(** * The reader is safe and reads what is written *)

(** ** Safety and progress *)

(** No varint anywhere in the data is a length that [int] cannot hold beside it. *)
Definition tame (data : bytes) : Prop :=
  forall pos v pos', 0 <= pos -> readVarint data pos = (Val v, pos') -> v + len data <= max_int64.

Definition safe {A} (r : reader A) : Prop :=
  forall data pos, 0 <= pos <= len data ->
    (r data pos).1 <> NoFuel /\ ((r data pos).1 <> Panic -> pos <= (r data pos).2 <= len data) /\
    (tame data -> (r data pos).1 <> Panic).

(** The same of a parser that has the slice to itself. *)
Definition safe_parse {A} (p : bytes -> outcome A) : Prop :=
  forall data, p data <> NoFuel /\ (tame data -> p data <> Panic).

Lemma safe_ret {A} (a : A) : safe (ret a).
Proof. intros data pos Hp. cbn. repeat split; (done || lia). Qed.

Lemma safe_fail {A} e : safe (@fail A e).
Proof. intros data pos Hp. cbn. repeat split; (done || lia). Qed.

(** An outcome that is no value is passed on, at another type. *)
Ltac by_error Hr :=
  let Hnf := fresh "Hnf" in let Hin := fresh "Hin" in let Hnp := fresh "Hnp" in
  destruct Hr as (Hnf & Hin & Hnp);
  first
    [ exfalso; apply Hnf; reflexivity
    | split_and!; [done|intros _; apply Hin; done|done]
    | split_and!; [done|done|intros Ht _; apply (Hnp Ht); reflexivity] ].

Lemma safe_bind {A B} (r : reader A) (k : A -> reader B) : safe r -> (forall a, safe (k a)) -> safe (bind r k).
Proof.
  intros Hr Hk data pos Hp. specialize (Hr data pos Hp). unfold bind.
  destruct (r data pos) as [[a|e| |] pos'] eqn:E; cbn in *; [|by_error Hr..].
  destruct Hr as (_ & Hpos & _). destruct (Hpos ltac:(done)) as [Hle Hle'].
  specialize (Hk a data pos' ltac:(lia)). destruct (k a data pos') as [o p]; cbn in *.
  destruct Hk as (H1 & H2 & H3). split_and!; [done| |done]. intros Ho. specialize (H2 Ho). lia.
Qed.

Lemma safe_ignore r : safe r -> safe (ignore r).
Proof.
  intros Hr data pos Hp. specialize (Hr data pos Hp). unfold ignore.
  destruct (r data pos) as [[a|e| |] pos']; cbn in *; split_and!; try tauto; try done.
  intros _. apply Hr. done.
Qed.

Lemma safe_if {A} (b : bool) (r s : reader A) : safe r -> safe s -> safe (if b then r else s).
Proof. by destruct b. Qed.

Lemma varint_loop_safe turns val shift data pos :
  64 - shift <= 7 * Z.of_nat turns -> 0 <= pos <= len data -> shift <= 63 ->
  match varint_loop turns val shift data pos with
  | (o, pos') => o <> NoFuel /\ o <> Panic /\ pos <= pos' <= len data /\ (forall v, o = Val v -> pos < pos')
  end.
Proof.
  revert val shift pos. induction turns as [|n IH]; intros val shift pos Hs Hp Hle; [lia|].
  cbn [varint_loop]. destruct (Z.leb_spec (len data) pos); [split_and!; (done || lia)|].
  destruct (get_is_Some data pos) as [b ->]; [lia|].
  destruct (b <? 128); [split_and!; (done || lia)|].
  destruct (Z.leb_spec 64 (shift + 7)); [split_and!; (done || lia)|].
  specialize (IH (Z.lor val (u64 (Z.shiftl (Z.land b 127) shift))) (shift + 7) (pos + 1) ltac:(lia) ltac:(lia) ltac:(lia)).
  destruct (varint_loop _ _ _ _ _) as [o p]. destruct IH as (? & ? & ? & _). split_and!; (done || lia).
Qed.

(** Reading a varint moves forward when it answers. *)
Lemma readVarint_safe data pos :
  0 <= pos <= len data ->
  match readVarint data pos with
  | (o, pos') => o <> NoFuel /\ o <> Panic /\ pos <= pos' <= len data /\ (forall v, o = Val v -> pos < pos')
  end.
Proof. intros Hp. by apply varint_loop_safe. Qed.

Lemma safe_readVarint : safe readVarint.
Proof.
  intros data pos Hp. pose proof (readVarint_safe data pos Hp) as H. destruct (readVarint data pos) as [o p].
  cbn. tauto.
Qed.

Lemma safe_readTag : safe readTag.
Proof. apply safe_bind; [apply safe_readVarint|]. intros v. apply safe_ret. Qed.

Lemma readTag_forward data pos t pos' :
  0 <= pos <= len data -> readTag data pos = (Val t, pos') -> pos < pos' <= len data.
Proof.
  intros Hp. unfold readTag, bind. pose proof (readVarint_safe data pos Hp) as H.
  destruct (readVarint data pos) as [[v|e| |] p]; cbn; intros [=]; subst.
  destruct H as (_ & _ & Hle & Hlt). specialize (Hlt v eq_refl). lia.
Qed.

Lemma varint_loop_nonneg turns val shift data pos v pos' :
  0 <= val -> 0 <= shift -> varint_loop turns val shift data pos = (Val v, pos') -> 0 <= v.
Proof.
  revert val shift pos. induction turns as [|n IH]; intros val shift pos Hv Hs; [done|].
  cbn [varint_loop]. case_match; [done|]. destruct (get data pos) as [b|]; [|done].
  assert (0 <= Z.lor val (u64 (Z.shiftl (Z.land b 127) shift))) as Hl
    by (apply Z.lor_nonneg; split; [done|apply wrapU_range; lia]).
  case_match; [by intros [= <- _]|]. case_match; [done|]. apply IH; [done|lia].
Qed.

Lemma readVarint_nonneg data pos v pos' : readVarint data pos = (Val v, pos') -> 0 <= v.
Proof. by apply varint_loop_nonneg. Qed.

Lemma safe_readBytes : safe readBytes.
Proof.
  intros data pos Hp. unfold readBytes, bind. pose proof (readVarint_safe data pos Hp) as H.
  destruct (readVarint data pos) as [[n|e| |] p] eqn:En; cbn in H |- *; [|split_and!; try tauto; done..].
  destruct H as (_ & _ & Hle & Hlt). pose proof (readVarint_nonneg _ _ _ _ En) as Hn.
  destruct (Z.ltb_spec (len data) (i64 (p + i64 n))) as [Hl|Hl]; cbn [fst snd]; [split_and!; (done || lia)|].
  destruct (subslice data p (i64 (p + i64 n))) as [b|] eqn:Es; cbn [fst snd].
  - apply subslice_is_Some in Es. split_and!; (done || lia).
  - split_and!; [done..|]. intros Ht. specialize (Ht pos n p ltac:(lia) En).
    rewrite (i64_small n) in Es, Hl by (unfold min_int64, max_int64 in *; lia).
    rewrite i64_small in Es, Hl by (unfold min_int64, max_int64 in *; lia).
    rewrite subslice_Some in Es by lia. done.
Qed.

Lemma safe_readFixed n what : safe (readFixed n what).
Proof.
  intros data pos Hp. unfold readFixed. destruct (Z.ltb_spec (len data) (pos + Z.of_nat n)); cbn [fst snd].
  { split_and!; (done || lia). }
  destruct (le_at n data pos) as [v|] eqn:E; cbn [fst snd]; [split_and!; (done || lia)|]. exfalso. revert E.
  unfold le_at. rewrite (proj2 (Z.leb_le 0 pos)) by lia.
  assert (n <= length (drop (Z.to_nat pos) data))%nat as Hlen by (rewrite length_drop; unfold len in *; lia).
  revert Hlen. generalize (drop (Z.to_nat pos) data) as b. clear. induction n as [|n IH]; intros b Hb; [done|].
  destruct b as [|x b]; cbn in *; [lia|]. destruct (le n b) eqn:E; [done|]. intros _. apply (IH b); [lia|done].
Qed.

Lemma safe_skip w : safe (skip w).
Proof.
  unfold skip. repeat apply safe_if; try apply safe_fail;
    try (apply safe_bind; [apply safe_readVarint || apply safe_readBytes|intros; apply safe_ret]).
  all: intros data pos Hp; unfold skip_fixed; case_match; bool_to_prop; cbn; split_and!; (done || lia).
Qed.

(** A varint of a slice of the data is a varint of the data. *)
Lemma varint_loop_subslice turns val shift data lo hi b pos v pos' :
  subslice data lo hi = Some b -> 0 <= pos -> varint_loop turns val shift b pos = (Val v, pos') ->
  varint_loop turns val shift data (lo + pos) = (Val v, lo + pos').
Proof.
  intros Hs. pose proof (subslice_is_Some _ _ _ _ Hs) as (Hlo & Hhi & _ & Hb).
  revert val shift pos. induction turns as [|n IH]; intros val shift pos Hp; [done|]. cbn [varint_loop].
  destruct (Z.leb_spec (len b) pos) as [|Hlt]; [done|]. rewrite (proj2 (Z.leb_gt (len data) (lo + pos))) by lia.
  rewrite (get_subslice _ _ _ _ pos Hs) by lia. destruct (get data (lo + pos)) as [x|]; [|done].
  case_match; [by intros [= <- <-]; f_equal; lia|]. case_match; [done|].
  intros E. replace (lo + pos + 1) with (lo + (pos + 1)) by lia. apply IH; [lia|done].
Qed.

Lemma tame_subslice data lo hi b : subslice data lo hi = Some b -> tame data -> tame b.
Proof.
  intros Hs Ht pos v pos' Hp E. pose proof (subslice_is_Some _ _ _ _ Hs) as (Hlo & Hhi & _ & Hb).
  specialize (Ht (lo + pos) v (lo + pos') ltac:(lia) (varint_loop_subslice _ _ _ _ _ _ _ _ _ _ Hs Hp E)). lia.
Qed.

(** A field that holds a message of its own. *)
Lemma safe_message {A B} (p : bytes -> outcome A) (k : A -> reader B) :
  safe_parse p -> (forall a, safe (k a)) -> safe (let! b := readBytes in let! a := lift (p b) in k a).
Proof.
  intros Hparse Hk data pos Hp. pose proof (safe_readBytes data pos Hp) as Hr. unfold bind, lift.
  destruct (readBytes data pos) as [[b|e| |] q] eqn:Eb; cbn in Hr |- *; [|by_error Hr..].
  assert (tame data -> tame b) as Htame.
  { revert Eb. unfold readBytes, bind. destruct (readVarint data pos) as [[n|e| |] p'] eqn:En; cbn; try done.
    case_match; [done|]. destruct (subslice data p' _) as [b'|] eqn:Es; [|done]. intros [= -> _].
    by apply (tame_subslice _ _ _ _ Es). }
  destruct Hr as (_ & Hq & _). specialize (Hq ltac:(done)).
  destruct (Hparse b) as [Hnf Hnp]. destruct (p b) as [a|e| |]; cbn;
    [|split_and!; [done|intros; lia|done]|split_and!; [done|done|intros Ht _; by apply (Hnp (Htame Ht))]|done].
  specialize (Hk a data q ltac:(lia)). destruct (k a data q) as [o q']; cbn in *.
  destruct Hk as (H1 & H2 & H3). split_and!; [done| |done]. intros Ho. specialize (H2 Ho). lia.
Qed.

Lemma safe_parse_of {A} (r : bytes -> reader A) : (forall data, safe (r data)) -> safe_parse (fun data => parse (r data) data).
Proof.
  intros Hr data. unfold parse. pose proof (len_nonneg data) as Hl.
  destruct (Hr data data 0 ltac:(lia)) as (H1 & _ & H3). split; [done|exact H3].
Qed.

(** A loop whose turns move forward ends within the length of the data. *)
Lemma parse_loop_safe {A} (r : nat -> reader A) (data : bytes) :
  (forall fuel pos, 0 <= pos <= len data -> len data - pos <= Z.of_nat fuel ->
     (r fuel data pos).1 <> NoFuel /\ (tame data -> (r fuel data pos).1 <> Panic)) ->
  parse (r (length data)) data <> NoFuel /\ (tame data -> parse (r (length data)) data <> Panic).
Proof.
  intros H. pose proof (len_nonneg data). destruct (H (length data) 0) as [H1 H2]; [unfold len in *; lia..|].
  split; [done|exact H2].
Qed.

Lemma fields_safe {M} te (field : Z -> Z -> M -> reader M) m :
  (forall f w m, safe (field f w m)) -> safe_parse (fun data => parse (fields_loop (length data) te field m) data).
Proof.
  intros Hf data. apply (parse_loop_safe (fun fuel => fields_loop fuel te field m)). intros fuel. revert m.
  induction fuel as [|fuel IH]; intros m pos Hp Hfuel.
  { cbn. unfold remaining. rewrite (proj2 (Z.leb_le (len data - pos) 0)) by lia. done. }
  cbn [fields_loop]. destruct (Z.leb_spec (remaining data pos) 0) as [Hr|Hr]; [done|]. unfold remaining in Hr.
  pose proof (safe_readTag data pos Hp) as (Ht1 & Ht2 & Ht3).
  destruct (readTag data pos) as [[[f w]|e| |] p] eqn:Et; cbn in *;
    [|done|split_and!; [done|intros Ht _; by apply (Ht3 Ht)]|done].
  pose proof (readTag_forward _ _ _ _ Hp Et) as Hp'. unfold bind. pose proof (Hf f w m data p ltac:(lia)) as (Hx1 & Hx2 & Hx3).
  destruct (field f w m data p) as [[m'|e| |] p'] eqn:Ef; cbn in *;
    [|done|split_and!; [done|intros Ht _; by apply (Hx3 Ht)]|done].
  specialize (Hx2 ltac:(done)). apply IH; lia.
Qed.

Lemma packed_safe conv : safe_parse (read_packed conv).
Proof.
  intros data. unfold read_packed. apply (parse_loop_safe (fun fuel => packed_loop fuel conv [])). intros fuel.
  generalize (@nil Z) as acc. induction fuel as [|fuel IH]; intros acc pos Hp Hfuel.
  { cbn. unfold remaining. rewrite (proj2 (Z.leb_le (len data - pos) 0)) by lia. done. }
  cbn [packed_loop]. destruct (Z.leb_spec (remaining data pos) 0) as [Hr|Hr]; [done|]. unfold remaining in Hr.
  pose proof (readVarint_safe data pos Hp) as H. unfold bind.
  destruct (readVarint data pos) as [[v|e| |] p] eqn:Ev; cbn; destruct H as (H1 & H2 & H3 & H4); try done.
  specialize (H4 v eq_refl). apply IH; lia.
Qed.

(** [binary.LittleEndian] inside the data. *)
Lemma le_is_Some n b : (n <= length b)%nat -> is_Some (le n b).
Proof.
  revert b. induction n as [|n IH]; intros b Hb; [by eexists|]. destruct b as [|x b]; cbn in *; [lia|].
  destruct (IH b) as [v ->]; [lia|]. by eexists.
Qed.

Lemma words_is_Some w data : (0 < w)%nat -> is_Some (words w data).
Proof.
  intros Hw. apply mapM_is_Some_2, Forall_forall. intros i Hi. apply range_elem in Hi.
  change (is_Some (le_at w data (i * Z.of_nat w))). unfold le_at.
  pose proof (len_nonneg data). rewrite (proj2 (Z.leb_le _ _)) by nia. apply le_is_Some. rewrite length_drop.
  pose proof (Z.mul_div_le (len data) (Z.of_nat w) ltac:(lia)). unfold len in *. nia.
Qed.

Lemma packed32_safe : safe_parse (fun b => of_panic (readPackedFloat32 b)).
Proof. intros data. unfold readPackedFloat32. destruct (words_is_Some 4 data) as [vs ->]; [lia|]. done. Qed.

Lemma packed64_safe : safe_parse (fun b => of_panic (readPackedFloat64 b)).
Proof. intros data. unfold readPackedFloat64. destruct (words_is_Some 8 data) as [vs ->]; [lia|]. done. Qed.

Lemma wrap_safe {A} context (p : bytes -> outcome A) : safe_parse p -> safe_parse (fun b => wrap context (p b)).
Proof. intros Hp data. destruct (Hp data) as [H1 H2]. by destruct (p data). Qed.

#[export] Hint Resolve safe_ret safe_fail safe_readVarint safe_readBytes safe_readFixed safe_skip safe_ignore
  packed_safe packed32_safe packed64_safe wrap_safe : wire.

(** The shape of the handlers: a chain of tests, each with a field to read. *)
Ltac solve_safe :=
  repeat first
    [ apply safe_message; [solve [auto with wire]|intros ?]
    | apply safe_bind; [solve [auto with wire]|intros ?]
    | apply safe_if
    | solve [auto with wire] ].
