(* ===== verification/OnnxModel.v ===== *)
(** The model file ([detect/onnxruntime/model.go]): the messages of an ONNX model, their
    parsers, and the decoding of a tensor's data to [float32]. *)

From Stdlib Require Import SpecFloat.
From S2P Require Import Prelude Float64 GoSlices OnnxProto.

#[local] Open Scope list_scope.

(** ** Data and attribute types *)

Definition onnxFloat : Z := 1.
Definition onnxUint8 : Z := 2.
Definition onnxInt8 : Z := 3.
Definition onnxUint16 : Z := 4.
Definition onnxInt16 : Z := 5.
Definition onnxInt32 : Z := 6.
Definition onnxInt64 : Z := 7.
Definition onnxBool : Z := 9.
Definition onnxFloat16 : Z := 10.
Definition onnxDouble : Z := 11.
Definition onnxUint32 : Z := 12.
Definition onnxUint64 : Z := 13.
Definition onnxBFloat16 : Z := 16.

Definition attrFloat : Z := 1.
Definition attrInt : Z := 2.
Definition attrString : Z := 3.
Definition attrTensor : Z := 4.
Definition attrFloats : Z := 6.
Definition attrInts : Z := 7.

(** ** Messages *)

Record TensorProto := {
  tp_Name : string;
  tp_Dims : list Z;
  tp_DataType : Z;
  tp_RawData : bytes;
  tp_FloatData : list spec_float;
  tp_Int32Data : list Z;
  tp_Int64Data : list Z;
  tp_DoubleData : list spec_float;
  tp_Uint64Data : list Z
}.

Record AttributeProto := {
  at_Name : string;
  at_Type : Z;
  at_F : spec_float;
  at_I : Z;
  at_S : bytes;
  at_T : option TensorProto;
  at_Floats : list spec_float;
  at_Ints : list Z
}.

Record NodeProto := {
  nd_Inputs : list string;
  nd_Outputs : list string;
  nd_Name : string;
  nd_OpType : string;
  nd_Attrs : list AttributeProto
}.

Record ValueInfoProto := { vi_Name : string; vi_Shape : list Z }.

Record GraphProto := {
  gr_Nodes : list NodeProto;
  gr_Initializers : list TensorProto;
  gr_Inputs : list ValueInfoProto;
  gr_Outputs : list ValueInfoProto
}.

Record ModelProto := { md_IRVersion : Z; md_OpsetVersion : Z; md_Graph : option GraphProto }.

(** The zero values the parsers start from. *)
Definition empty_tensor : TensorProto := Build_TensorProto "" [] 0 [] [] [] [] [] [].
Definition empty_attribute : AttributeProto := Build_AttributeProto "" 0 fzero 0 [] None [] [].
Definition empty_node : NodeProto := Build_NodeProto [] [] "" "" [].
Definition empty_value_info : ValueInfoProto := Build_ValueInfoProto "" [].
Definition empty_graph : GraphProto := Build_GraphProto [] [] [] [].
Definition empty_model : ModelProto := Build_ModelProto 0 0 None.

(** [ElementCount]: the product of the dimensions, at the width of [int64]. *)
Definition product (dims : list Z) : Z := foldl (fun n d => i64 (n * d)) 1 dims.

Definition ElementCount (tp : TensorProto) : Z := product (tp_Dims tp).

(** ** parseTensorProto *)

Definition is_field (fieldNum wireType f w : Z) : bool := (fieldNum =? f) && (wireType =? w).

Definition tensor_field (fieldNum wireType : Z) (tp : TensorProto) : reader TensorProto :=
  let '(Build_TensorProto name dims dt raw fl i32s i64s dbl u64s) := tp in
  if is_field fieldNum wireType 1 wireBytes then
    let! b := readBytes in let! ds := lift (readPackedInt64 b) in
    ret (Build_TensorProto name (dims ++ ds) dt raw fl i32s i64s dbl u64s)
  else if is_field fieldNum wireType 1 wireVarint then
    let! v := readVarint in ret (Build_TensorProto name (dims ++ [i64 v]) dt raw fl i32s i64s dbl u64s)
  else if is_field fieldNum wireType 2 wireVarint then
    let! v := readVarint in ret (Build_TensorProto name dims (i32 v) raw fl i32s i64s dbl u64s)
  else if is_field fieldNum wireType 4 wireBytes then
    let! b := readBytes in let! fs := lift (of_panic (readPackedFloat32 b)) in
    ret (Build_TensorProto name dims dt raw (fl ++ fs) i32s i64s dbl u64s)
  else if is_field fieldNum wireType 4 wire32Bit then
    let! v := readFixed32 in ret (Build_TensorProto name dims dt raw (fl ++ [Float32frombits v]) i32s i64s dbl u64s)
  else if is_field fieldNum wireType 5 wireBytes then
    let! b := readBytes in let! vs := lift (readPackedInt32 b) in
    ret (Build_TensorProto name dims dt raw fl (i32s ++ vs) i64s dbl u64s)
  else if is_field fieldNum wireType 5 wireVarint then
    let! v := readVarint in ret (Build_TensorProto name dims dt raw fl (i32s ++ [i32 v]) i64s dbl u64s)
  else if is_field fieldNum wireType 8 wireBytes then
    let! b := readBytes in ret (Build_TensorProto (to_string b) dims dt raw fl i32s i64s dbl u64s)
  else if is_field fieldNum wireType 9 wireBytes then
    let! b := readBytes in ret (Build_TensorProto name dims dt b fl i32s i64s dbl u64s)
  else if is_field fieldNum wireType 10 wireBytes then
    let! b := readBytes in let! ds := lift (of_panic (readPackedFloat64 b)) in
    ret (Build_TensorProto name dims dt raw fl i32s i64s (dbl ++ ds) u64s)
  else if is_field fieldNum wireType 10 wire64Bit then
    let! v := readFixed64 in ret (Build_TensorProto name dims dt raw fl i32s i64s (dbl ++ [Float64frombits v]) u64s)
  else if is_field fieldNum wireType 11 wireBytes then
    let! b := readBytes in let! vs := lift (readPackedUint64 b) in
    ret (Build_TensorProto name dims dt raw fl i32s i64s dbl (u64s ++ vs))
  else if is_field fieldNum wireType 11 wireVarint then
    let! v := readVarint in ret (Build_TensorProto name dims dt raw fl i32s i64s dbl (u64s ++ [v]))
  else if is_field fieldNum wireType 7 wireBytes then
    let! b := readBytes in let! vs := lift (readPackedInt64 b) in
    ret (Build_TensorProto name dims dt raw fl i32s (i64s ++ vs) dbl u64s)
  else if is_field fieldNum wireType 7 wireVarint then
    let! v := readVarint in ret (Build_TensorProto name dims dt raw fl i32s (i64s ++ [i64 v]) dbl u64s)
  else let! _ := skip wireType in ret tp.

Definition parseTensorProto (data : bytes) : outcome TensorProto := fields tensor_field empty_tensor data.

(** ** parseAttributeProto *)

Definition attribute_field (fieldNum wireType : Z) (a : AttributeProto) : reader AttributeProto :=
  let '(Build_AttributeProto name ty f i s t fs ns) := a in
  if is_field fieldNum wireType 1 wireBytes then
    let! b := readBytes in ret (Build_AttributeProto (to_string b) ty f i s t fs ns)
  else if is_field fieldNum wireType 2 wire32Bit then
    let! v := readFixed32 in ret (Build_AttributeProto name ty (Float32frombits v) i s t fs ns)
  else if is_field fieldNum wireType 3 wireVarint then
    let! v := readVarint in ret (Build_AttributeProto name ty f (i64 v) s t fs ns)
  else if is_field fieldNum wireType 4 wireBytes then
    let! b := readBytes in ret (Build_AttributeProto name ty f i b t fs ns)
  else if is_field fieldNum wireType 5 wireBytes then
    let! b := readBytes in let! tensor := lift (parseTensorProto b) in
    ret (Build_AttributeProto name ty f i s (Some tensor) fs ns)
  else if is_field fieldNum wireType 7 wireBytes then
    let! b := readBytes in let! vs := lift (of_panic (readPackedFloat32 b)) in
    ret (Build_AttributeProto name ty f i s t vs ns)
  else if is_field fieldNum wireType 7 wire32Bit then
    let! v := readFixed32 in ret (Build_AttributeProto name ty f i s t (fs ++ [Float32frombits v]) ns)
  else if is_field fieldNum wireType 8 wireBytes then
    let! b := readBytes in let! vs := lift (readPackedInt64 b) in
    ret (Build_AttributeProto name ty f i s t fs vs)
  else if is_field fieldNum wireType 8 wireVarint then
    let! v := readVarint in ret (Build_AttributeProto name ty f i s t fs (ns ++ [i64 v]))
  else if is_field fieldNum wireType 20 wireVarint then
    let! v := readVarint in ret (Build_AttributeProto name (i32 v) f i s t fs ns)
  else let! _ := skip wireType in ret a.

Definition parseAttributeProto (data : bytes) : outcome AttributeProto := fields attribute_field empty_attribute data.

(** ** parseNodeProto *)

Definition node_field (fieldNum wireType : Z) (n : NodeProto) : reader NodeProto :=
  let '(Build_NodeProto inputs outputs name op attrs) := n in
  if is_field fieldNum wireType 1 wireBytes then
    let! b := readBytes in ret (Build_NodeProto (inputs ++ [to_string b]) outputs name op attrs)
  else if is_field fieldNum wireType 2 wireBytes then
    let! b := readBytes in ret (Build_NodeProto inputs (outputs ++ [to_string b]) name op attrs)
  else if is_field fieldNum wireType 3 wireBytes then
    let! b := readBytes in ret (Build_NodeProto inputs outputs (to_string b) op attrs)
  else if is_field fieldNum wireType 4 wireBytes then
    let! b := readBytes in ret (Build_NodeProto inputs outputs name (to_string b) attrs)
  else if is_field fieldNum wireType 5 wireBytes then
    let! b := readBytes in let! attr := lift (parseAttributeProto b) in
    ret (Build_NodeProto inputs outputs name op (attrs ++ [attr]))
  else let! _ := skip wireType in ret n.

Definition parseNodeProto (data : bytes) : outcome NodeProto := fields node_field empty_node data.

(** ** Shapes of inputs and outputs *)

(** The loops of [parseTypeProtoShape], [parseTensorTypeShape] and [parseDimensionProto]:
    the first field [num] of type [wire] is the answer, everything else is skipped with
    its error dropped, and a message without it answers [missing]. *)
Fixpoint scan_loop {A} (fuel : nat) (num wire : Z) (found : reader A) (missing : A) : reader A := fun data pos =>
  if remaining data pos <=? 0 then (Val missing, pos) else
  match fuel with
  | O => (NoFuel, pos)
  | S fuel =>
      (let! (fieldNum, wireType) := readTag in
       if is_field fieldNum wireType num wire then found
       else let! _ := ignore (skip wireType) in scan_loop fuel num wire found missing) data pos
  end.

Definition scan {A} (num wire : Z) (found : reader A) (missing : A) (data : bytes) : outcome A :=
  parse (scan_loop (length data) num wire found missing) data.

Definition parseDimensionProto : bytes -> outcome Z :=
  scan 1 wireVarint (let! v := readVarint in ret (i64 v)) 0.

Definition shape_field (fieldNum wireType : Z) (dims : list Z) : reader (list Z) :=
  if is_field fieldNum wireType 1 wireBytes then
    let! b := readBytes in let! dim := lift (parseDimensionProto b) in ret (dims ++ [dim])
  else let! _ := ignore (skip wireType) in ret dims.

Definition parseTensorShapeProto (data : bytes) : outcome (list Z) := fields shape_field [] data.

Definition parseTensorTypeShape : bytes -> outcome (list Z) :=
  scan 2 wireBytes (let! b := readBytes in lift (parseTensorShapeProto b)) [].

Definition parseTypeProtoShape : bytes -> outcome (list Z) :=
  scan 1 wireBytes (let! b := readBytes in lift (parseTensorTypeShape b)) [].

(** ** parseValueInfoProto *)

Definition value_info_field (fieldNum wireType : Z) (vi : ValueInfoProto) : reader ValueInfoProto :=
  let '(Build_ValueInfoProto name shape) := vi in
  if is_field fieldNum wireType 1 wireBytes then
    let! b := readBytes in ret (Build_ValueInfoProto (to_string b) shape)
  else if is_field fieldNum wireType 2 wireBytes then
    let! b := readBytes in
    match parseTypeProtoShape b with
    | Val shape => ret (Build_ValueInfoProto name shape)
    | Fail _ => ret vi
    | Panic => lift Panic
    | NoFuel => lift NoFuel
    end
  else let! _ := skip wireType in ret vi.

Definition parseValueInfoProto (data : bytes) : outcome ValueInfoProto := fields value_info_field empty_value_info data.

(** ** parseGraphProto *)

Definition graph_field (fieldNum wireType : Z) (g : GraphProto) : reader GraphProto :=
  let '(Build_GraphProto nodes inits inputs outputs) := g in
  if is_field fieldNum wireType 1 wireBytes then
    let! b := readBytes in let! node := lift (wrap "graph.node" (parseNodeProto b)) in
    ret (Build_GraphProto (nodes ++ [node]) inits inputs outputs)
  else if is_field fieldNum wireType 5 wireBytes then
    let! b := readBytes in let! tensor := lift (wrap "graph.initializer" (parseTensorProto b)) in
    ret (Build_GraphProto nodes (inits ++ [tensor]) inputs outputs)
  else if is_field fieldNum wireType 11 wireBytes then
    let! b := readBytes in let! vi := lift (parseValueInfoProto b) in
    ret (Build_GraphProto nodes inits (inputs ++ [vi]) outputs)
  else if is_field fieldNum wireType 12 wireBytes then
    let! b := readBytes in let! vi := lift (parseValueInfoProto b) in
    ret (Build_GraphProto nodes inits inputs (outputs ++ [vi]))
  else let! _ := skip wireType in ret g.

Definition parseGraphProto (data : bytes) : outcome GraphProto := fields graph_field empty_graph data.

(** ** ParseModel *)

(** The inner loop over an operator set: errors end it or are dropped, and the last
    version wins. *)
Fixpoint opset_loop (fuel : nat) (version : Z) : reader Z := fun data pos =>
  if remaining data pos <=? 0 then (Val version, pos) else
  match fuel with
  | O => (NoFuel, pos)
  | S fuel =>
      match readTag data pos with
      | (Fail _, pos) => (Val version, pos)
      | (Panic, pos) => (Panic, pos)
      | (NoFuel, pos) => (NoFuel, pos)
      | (Val (fn, wt), pos) =>
          if is_field fn wt 2 wireVarint then
            match readVarint data pos with
            | (Val v, pos) => opset_loop fuel (i64 v) data pos
            | (Fail _, pos) => opset_loop fuel 0 data pos
            | (Panic, pos) => (Panic, pos)
            | (NoFuel, pos) => (NoFuel, pos)
            end
          else (let! _ := ignore (skip wt) in opset_loop fuel version) data pos
      end
  end.

Definition model_field (fieldNum wireType : Z) (m : ModelProto) : reader ModelProto :=
  let '(Build_ModelProto ir opset graph) := m in
  if is_field fieldNum wireType 1 wireVarint then
    let! v := readVarint in ret (Build_ModelProto (i64 v) opset graph)
  else if is_field fieldNum wireType 7 wireBytes then
    let! b := readBytes in let! g := lift (wrap "model.graph" (parseGraphProto b)) in
    ret (Build_ModelProto ir opset (Some g))
  else if is_field fieldNum wireType 8 wireBytes then
    let! b := readBytes in let! v := lift (parse (opset_loop (length b) opset) b) in
    ret (Build_ModelProto ir v graph)
  else let! _ := skip wireType in ret m.

Definition ParseModel (data : bytes) : outcome ModelProto :=
  match parse (fields_loop (length data) (Wrapped "model") model_field empty_model) data with
  | Val m => if md_Graph m then Val m else Fail NoGraphFound
  | o => o
  end.

(** ** ToFloat32 *)

(** [float32(x)] of a [float64]. *)
Definition narrow (x : spec_float) : spec_float :=
  match x with
  | S754_finite s m e => binary_normalize 24 128 (cond_Zopp s (Zpos m)) e s
  | _ => x
  end.

(** The words of [w] bytes, converted; bytes left over at the end are dropped. *)
Definition decode_words (w : nat) (conv : Z -> spec_float) (raw : bytes) : outcome (list spec_float) :=
  of_panic (vs ← words w raw; Some (map conv vs)).

Definition rawDataToFloat32 (tp : TensorProto) : outcome (list spec_float) :=
  let raw := tp_RawData tp in
  let dt := tp_DataType tp in
  if dt =? onnxFloat then of_panic (readPackedFloat32 raw)
  else if dt =? onnxDouble then decode_words 8 (fun v => narrow (Float64frombits v)) raw
  else if dt =? onnxInt8 then Val (map (fun b => f32_of_Z (wrapS 8 b)) raw)
  else if (dt =? onnxUint8) || (dt =? onnxBool) then Val (map f32_of_Z raw)
  else if dt =? onnxInt16 then decode_words 2 (fun v => f32_of_Z (i16 v)) raw
  else if dt =? onnxUint16 then decode_words 2 f32_of_Z raw
  else if dt =? onnxInt32 then decode_words 4 (fun v => f32_of_Z (i32 v)) raw
  else if dt =? onnxUint32 then decode_words 4 f32_of_Z raw
  else if dt =? onnxInt64 then decode_words 8 (fun v => f32_of_Z (i64 v)) raw
  else if dt =? onnxUint64 then decode_words 8 f32_of_Z raw
  else Fail (UnsupportedDataType dt).

Definition typedDataToFloat32 (tp : TensorProto) : list spec_float :=
  if 0 <? len (tp_FloatData tp) then tp_FloatData tp
  else if 0 <? len (tp_Int32Data tp) then map f32_of_Z (tp_Int32Data tp)
  else if 0 <? len (tp_Int64Data tp) then map f32_of_Z (tp_Int64Data tp)
  else if 0 <? len (tp_DoubleData tp) then map narrow (tp_DoubleData tp)
  else if 0 <? len (tp_Uint64Data tp) then map f32_of_Z (tp_Uint64Data tp)
  else [].

Definition ToFloat32 (tp : TensorProto) : outcome (list spec_float) :=
  if (tp_DataType tp =? onnxFloat16) || (tp_DataType tp =? onnxBFloat16) then Fail (HalfPrecision (tp_DataType tp))
  else if 0 <? len (tp_RawData tp) then rawDataToFloat32 tp
  else Val (typedDataToFloat32 tp).
