(* ===== verification/OnnxEncode.v ===== *)
(** What a protobuf writer produces, and that the wire reader reads it back.

    [reads r bs a]: over the bytes [bs], wherever they stand in a slice, the reader [r]
    returns [a] and consumes exactly [bs]. *)

From Stdlib Require Import SpecFloat.
From S2P Require Import Prelude Float64 GoStrings GoSlices OnnxProto.

#[local] Open Scope list_scope.

(** ** Encoders *)

(** A varint: seven bits a byte, the lowest first, the high bit on all but the last. *)
Fixpoint varint_bytes (turns : nat) (v : Z) : bytes :=
  match turns with
  | O => []
  | S turns => if v <? 128 then [v] else (v mod 128 + 128) :: varint_bytes turns (v / 128)
  end.

Definition enc_varint (v : Z) : bytes := varint_bytes 10 v.
Definition enc_tag (fieldNum wireType : Z) : bytes := enc_varint (fieldNum * 8 + wireType).

Definition varint_field (fieldNum v : Z) : bytes := enc_tag fieldNum wireVarint ++ enc_varint v.
Definition bytes_field (fieldNum : Z) (b : bytes) : bytes :=
  enc_tag fieldNum wireBytes ++ enc_varint (len b) ++ b.

(** [n] bytes of a word, the lowest first. *)
Fixpoint enc_le (n : nat) (v : Z) : bytes :=
  match n with O => [] | S n => v mod 256 :: enc_le n (v / 256) end.

Definition fixed32_field (fieldNum v : Z) : bytes := enc_tag fieldNum wire32Bit ++ enc_le 4 v.

Definition enc_string (s : string) : bytes := (fun a => Z.of_nat (Ascii.nat_of_ascii a)) <$> String.list_ascii_of_string s.
Definition string_field (fieldNum : Z) (s : string) : bytes := bytes_field fieldNum (enc_string s).

Definition enc_packed (vs : list Z) : bytes := mjoin ((fun v => enc_varint (u64 v)) <$> vs).

(** A packed field, left out when it is empty. *)
Definition packed_field {A} (fieldNum : Z) (enc : list A -> bytes) (vs : list A) : bytes :=
  match vs with [] => [] | _ => bytes_field fieldNum (enc vs) end.

(** [math.Float32bits] and [math.Float64bits]. *)
Definition float_bits (mw ew : Z) (x : spec_float) : Z :=
  let sign (s : bool) := if s then 2 ^ (mw + ew) else 0 in
  match x with
  | S754_zero s => sign s
  | S754_infinity s => sign s + (2 ^ ew - 1) * 2 ^ mw
  | S754_nan => (2 ^ ew - 1) * 2 ^ mw + 2 ^ (mw - 1)
  | S754_finite s m e =>
      sign s + (if Zpos m <? 2 ^ mw then Zpos m else (e + mw + 2 ^ (ew - 1) - 1) * 2 ^ mw + (Zpos m - 2 ^ mw))
  end.

Definition Float32bits : spec_float -> Z := float_bits 23 8.
Definition Float64bits : spec_float -> Z := float_bits 52 11.

Definition enc_floats (w : nat) (bits : spec_float -> Z) (xs : list spec_float) : bytes :=
  mjoin ((fun x => enc_le w (bits x)) <$> xs).

(** A value that has a bit pattern of its width. *)
Definition is_float32 (x : spec_float) : Prop := 0 <= Float32bits x < 2 ^ 32 /\ Float32frombits (Float32bits x) = x.
Definition is_float64 (x : spec_float) : Prop := 0 <= Float64bits x < 2 ^ 64 /\ Float64frombits (Float64bits x) = x.

(** A pattern is the bit pattern of the value it stands for, a NaN with a payload apart. *)
Lemma float_bits_frombits mw ew b :
  2 <= mw -> 2 <= ew -> 0 <= b < 2 ^ (mw + ew + 1) ->
  float_frombits mw ew b = S754_nan \/ float_bits mw ew (float_frombits mw ew b) = b.
Proof.
  intros Hmw Hew Hb. unfold float_frombits. set (P := 2 ^ mw). set (Q := 2 ^ ew).
  assert (0 < P) by (apply Z.pow_pos_nonneg; lia). assert (0 < Q) by (apply Z.pow_pos_nonneg; lia).
  assert (2 ^ (mw + ew) = P * Q) as EPQ by (apply Z.pow_add_r; lia).
  assert (2 ^ (mw + ew + 1) = 2 * (P * Q)) as EPQ2 by (rewrite Z.pow_add_r by lia; lia).
  assert (Z.land b (P - 1) = b mod P) as ->.
  { unfold P. rewrite <- Z.land_ones by lia. f_equal. rewrite Z.ones_equiv. lia. }
  assert (Z.land (Z.shiftr b mw) (Q - 1) = (b / P) mod Q) as ->.
  { unfold P, Q. rewrite <- Z.land_ones, Z.shiftr_div_pow2 by lia. f_equal. rewrite Z.ones_equiv. lia. }
  assert (Z.testbit b (mw + ew) = (1 <=? b / (P * Q))) as ->.
  { rewrite Z.testbit_odd, Z.shiftr_div_pow2, EPQ by lia.
    assert (0 <= b / (P * Q) < 2) as Hs by (split; [apply Z.div_pos; nia|apply Z.div_lt_upper_bound; nia]).
    assert (b / (P * Q) = 0 \/ b / (P * Q) = 1) as [->| ->] by lia; done. }
  set (m := b mod P). set (e := (b / P) mod Q). set (g := 1 <=? b / (P * Q)).
  assert (0 <= m < P) as Hm by (apply Z.mod_pos_bound; lia). assert (0 <= e < Q) as He by (apply Z.mod_pos_bound; lia).
  assert (b = (if g then P * Q else 0) + e * P + m) as Eb.
  { assert (b / P / Q = b / (P * Q)) as Ed by (apply Z.div_div; lia).
    pose proof (Z.div_mod b P ltac:(lia)) as E1. pose proof (Z.div_mod (b / P) Q ltac:(lia)) as E2. rewrite Ed in E2.
    assert (0 <= b / (P * Q) < 2) as Hs by (split; [apply Z.div_pos; nia|apply Z.div_lt_upper_bound; nia]).
    fold m in E1. fold e in E2. unfold g. destruct (Z.leb_spec 1 (b / (P * Q))).
    - assert (b / (P * Q) = 1) as E3 by lia. rewrite E3 in E2. rewrite E2 in E1. lia.
    - assert (b / (P * Q) = 0) as E3 by lia. rewrite E3 in E2. rewrite E2 in E1. lia. }
  destruct (Z.eqb_spec e (Q - 1)) as [Ee|Ee].
  { destruct (Z.eqb_spec m 0) as [Em|]; [|by left]. right. unfold float_bits. fold P Q. rewrite EPQ. destruct g; lia. }
  right. destruct (Z.eqb_spec e 0) as [Ee0|Ee0].
  - destruct m as [|p|p] eqn:Em; [| |lia]; unfold float_bits; fold P Q; rewrite EPQ; [destruct g; lia|].
    rewrite (proj2 (Z.ltb_lt _ _)) by lia. destruct g; lia.
  - destruct (m + P) as [|p|p] eqn:Em; [lia| |lia]. unfold float_bits. fold P Q. rewrite EPQ.
    rewrite (proj2 (Z.ltb_ge _ _)) by lia. destruct g; lia.
Qed.

Lemma Float32frombits_ok b : 0 <= b < 2 ^ 32 -> is_float32 (Float32frombits b).
Proof.
  intros Hb. destruct (float_bits_frombits 23 8 b ltac:(lia) ltac:(lia) Hb) as [E|E]; unfold is_float32, Float32bits, Float32frombits.
  - rewrite E. split; by vm_compute.
  - by rewrite E.
Qed.

Lemma Float64frombits_ok b : 0 <= b < 2 ^ 64 -> is_float64 (Float64frombits b).
Proof.
  intros Hb. destruct (float_bits_frombits 52 11 b ltac:(lia) ltac:(lia) Hb) as [E|E]; unfold is_float64, Float64bits, Float64frombits.
  - rewrite E. split; by vm_compute.
  - by rewrite E.
Qed.

(** ** Reading back *)

Definition reads {A} (r : reader A) (bs : bytes) (a : A) : Prop :=
  forall pre post, len (pre ++ bs ++ post) <= max_int64 -> r (pre ++ bs ++ post) (len pre) = (Val a, len pre + len bs).

Lemma reads_ret {A} (a : A) : reads (ret a) [] a.
Proof. intros pre post _. cbn. by rewrite Z.add_0_r. Qed.

Lemma reads_bind {A B} (r : reader A) (k : A -> reader B) bs cs a b :
  reads r bs a -> reads (k a) cs b -> reads (bind r k) (bs ++ cs) b.
Proof.
  intros Hr Hk pre post Hl. unfold bind. rewrite <- !app_assoc in *. rewrite (Hr pre (cs ++ post)) by done.
  specialize (Hk (pre ++ bs) post). rewrite <- app_assoc, (len_app pre bs) in Hk. rewrite Hk by done.
  rewrite len_app. f_equal. lia.
Qed.

(** The last step of a chain returns without reading. *)
Lemma reads_last {A B} (r : reader A) (k : A -> B) bs a : reads r bs a -> reads (let! x := r in ret (k x)) bs (k a).
Proof. intros Hr. rewrite <- (app_nil_r bs). apply (reads_bind _ _ _ _ a); [done|]. apply reads_ret. Qed.

Lemma reads_lift {A B} (o : outcome A) (k : A -> reader B) bs a b :
  o = Val a -> reads (k a) bs b -> reads (let! x := lift o in k x) bs b.
Proof. intros -> Hk pre post Hl. unfold bind, lift. by apply Hk. Qed.

(** Disjoint bits add up. *)
Lemma lor_shiftl a b n : 0 <= n -> 0 <= a < 2 ^ n -> Z.lor a (Z.shiftl b n) = a + b * 2 ^ n.
Proof.
  intros Hn Ha. rewrite <- Z.shiftl_mul_pow2 by done.
  assert (Z.land a (Z.shiftl b n) = 0) as Hz.
  { apply Z.bits_inj'. intros i Hi. rewrite Z.bits_0, Z.land_spec. destruct (decide (i < n)).
    - rewrite Z.shiftl_spec_low by done. apply andb_false_r.
    - assert (Z.testbit a i = false) as ->; [|done]. rewrite <- (Z.mod_small a (2 ^ n)) by lia.
      apply Z.mod_pow2_bits_high. lia. }
  rewrite <- Z.lxor_lor by done. symmetry. by apply Z.add_nocarry_lxor.
Qed.

Lemma land_127 v : Z.land v 127 = v mod 128.
Proof. change 127 with (Z.ones 7). by rewrite Z.land_ones. Qed.

Lemma varint_loop_reads turns val shift v pre post :
  0 <= shift < 64 -> 64 <= shift + 7 * Z.of_nat turns -> 0 <= val < 2 ^ shift -> 0 <= v -> v * 2 ^ shift < 2 ^ 64 ->
  varint_loop turns val shift (pre ++ varint_bytes turns v ++ post) (len pre) =
  (Val (val + v * 2 ^ shift), len pre + len (varint_bytes turns v)).
Proof.
  revert val shift v pre. induction turns as [|n IH]; intros val shift v pre Hs Ht Hval Hv Hw; [lia|].
  assert (0 < 2 ^ shift) by (apply Z.pow_pos_nonneg; lia).
  pose proof (Z.mod_pos_bound v 128 ltac:(lia)) as Hm. pose proof (Z.div_mod v 128 ltac:(lia)) as Hd.
  cbn [varint_bytes]. set (x := if v <? 128 then v else v mod 128 + 128).
  assert (exists rest, (if v <? 128 then [v] else v mod 128 + 128 :: varint_bytes n (v / 128)) = x :: rest) as [rest Erest]
    by (unfold x; case_match; by eexists).
  assert (Z.land x 127 = v mod 128) as Ex.
  { rewrite land_127. unfold x. case_match; [done|]. rewrite <- Z.add_mod_idemp_r by lia. change (128 mod 128) with 0.
    rewrite Z.add_0_r. by rewrite Z.mod_mod by lia. }
  cbn [varint_loop]. rewrite Erest. pose proof (len_nonneg pre). pose proof (len_nonneg rest). pose proof (len_nonneg post).
  rewrite (proj2 (Z.leb_gt _ _)) by (rewrite len_app; cbn [app]; rewrite len_cons, len_app; lia).
  assert (get (pre ++ (x :: rest) ++ post) (len pre) = Some x) as ->.
  { replace (len pre) with (len pre + 0) by lia. rewrite get_app_r by lia. done. }
  assert (v mod 128 <= v) by (apply Z.mod_le; lia).
  assert (0 <= v mod 128 * 2 ^ shift <= v * 2 ^ shift) by (split; [lia|by apply Z.mul_le_mono_nonneg_r; lia]).
  rewrite Ex, u64_small; [|rewrite Z.shiftl_mul_pow2 by lia; change (2 ^ 64) with 18446744073709551616 in *; lia].
  rewrite lor_shiftl by lia.
  unfold x in *. destruct (Z.ltb_spec v 128) as [Hlt|Hge]; simplify_eq.
  - rewrite (proj2 (Z.ltb_lt v 128)) by done. rewrite Z.mod_small by lia. f_equal.
  - rewrite (proj2 (Z.ltb_ge (v mod 128 + 128) 128)) by lia.
    assert (2 ^ (shift + 7) = 128 * 2 ^ shift) as E7 by (rewrite Z.pow_add_r by lia; lia).
    assert (shift + 7 < 64) as Hs7 by (apply (Z.pow_lt_mono_r_iff 2); lia || nia).
    rewrite (proj2 (Z.leb_gt 64 (shift + 7))) by lia.
    specialize (IH (val + v mod 128 * 2 ^ shift) (shift + 7) (v / 128) (pre ++ [v mod 128 + 128])).
    rewrite <- app_assoc in IH. cbn [app] in IH |- *. rewrite (len_app pre) in IH. change (len [_]) with 1 in IH.
    rewrite IH; [|lia|lia|nia|apply Z.div_pos; lia|nia]. rewrite len_cons. f_equal; [f_equal; nia|lia].
Qed.

Lemma reads_varint v : 0 <= v < 2 ^ 64 -> reads readVarint (enc_varint v) v.
Proof.
  intros Hv pre post _. unfold readVarint, enc_varint. rewrite varint_loop_reads; [|lia..].
  by rewrite Z.mul_1_r.
Qed.

Lemma reads_tag f w : 0 <= f < 2 ^ 32 -> 0 <= w < 8 -> reads readTag (enc_tag f w) (f, w).
Proof.
  intros Hf Hw. unfold readTag, enc_tag.
  assert ((f, w) = (Z.shiftr (f * 8 + w) 3, Z.land (f * 8 + w) 7)) as ->.
  { rewrite Z.shiftr_div_pow2 by lia. change 7 with (Z.ones 3). rewrite Z.land_ones by lia. change (2 ^ 3) with 8. f_equal.
    - rewrite Z.div_add_l by lia. rewrite Z.div_small; lia.
    - rewrite Z.add_comm, Z_mod_plus_full. by rewrite Z.mod_small. }
  apply (reads_last _ (fun v => (Z.shiftr v 3, Z.land v 7))). apply reads_varint. lia.
Qed.

Lemma reads_bytes b : reads readBytes (enc_varint (len b) ++ b) b.
Proof.
  intros pre post Hl. pose proof (len_nonneg b). pose proof (len_nonneg pre). pose proof (len_nonneg post).
  pose proof (len_nonneg (enc_varint (len b))). rewrite !len_app in Hl. unfold max_int64 in Hl.
  unfold readBytes, bind. rewrite <- app_assoc. rewrite reads_varint; [|lia|rewrite !len_app; unfold max_int64; lia].
  rewrite (i64_small (len b)) by (unfold min_int64, max_int64; lia). rewrite i64_small by (unfold min_int64, max_int64; lia).
  rewrite (proj2 (Z.ltb_ge _ _)) by (rewrite !len_app; lia). rewrite app_assoc.
  rewrite (subslice_app (pre ++ _)); [|by rewrite len_app|done]. rewrite len_app. f_equal. lia.
Qed.

(** A sub-message parsed from its own slice. *)
Lemma reads_sub {A B} (p : bytes -> outcome A) (k : A -> B) b a :
  (len b <= max_int64 -> p b = Val a) ->
  reads (let! b := readBytes in let! a := lift (p b) in ret (k a)) (enc_varint (len b) ++ b) (k a).
Proof.
  intros Hp pre post Hl. assert (len b <= max_int64) as Hb.
  { rewrite !len_app in Hl. pose proof (len_nonneg pre). pose proof (len_nonneg post).
    pose proof (len_nonneg (enc_varint (len b))). lia. }
  rewrite <- (app_nil_r (_ ++ b)) in Hl |- *.
  refine (reads_bind readBytes _ _ [] b _ (reads_bytes b) _ pre post Hl).
  apply (reads_lift _ (fun a => ret (k a)) _ a); [by apply Hp|]. apply reads_ret.
Qed.

Lemma enc_le_length n v : length (enc_le n v) = n.
Proof. revert v. induction n as [|n IH]; intros v; cbn; [done|]. by rewrite IH. Qed.

Lemma le_enc n v post : 0 <= v < 2 ^ (8 * Z.of_nat n) -> le n (enc_le n v ++ post) = Some v.
Proof.
  revert v. induction n as [|n IH]; intros v Hv.
  - change (2 ^ (8 * Z.of_nat 0)) with 1 in Hv. cbn. f_equal. lia.
  - assert (2 ^ (8 * Z.of_nat (S n)) = 256 * 2 ^ (8 * Z.of_nat n)) as E
      by (replace (8 * Z.of_nat (S n)) with (8 + 8 * Z.of_nat n) by lia; rewrite Z.pow_add_r by lia; done).
    cbn [enc_le le app]. rewrite IH.
    + cbn. f_equal. rewrite (Z.div_mod v 256) at 3 by lia. lia.
    + rewrite E in Hv. split; [apply Z.div_pos; lia|apply Z.div_lt_upper_bound; lia].
Qed.

Lemma reads_fixed n what v : 0 <= v < 2 ^ (8 * Z.of_nat n) -> reads (readFixed n what) (enc_le n v) v.
Proof.
  intros Hv pre post Hl. unfold readFixed. pose proof (len_nonneg post). pose proof (len_nonneg pre).
  assert (len (enc_le n v) = Z.of_nat n) as El by (unfold len; by rewrite enc_le_length).
  rewrite (proj2 (Z.ltb_ge _ _)) by (rewrite !len_app; lia). unfold le_at. rewrite (proj2 (Z.leb_le 0 _)) by done.
  unfold len at 1. rewrite Nat2Z.id, drop_app_length, le_enc by done. by rewrite El.
Qed.

(** ** Messages *)

(** The handler of a message takes [m] to [m'] over the fields [bs]. *)
Inductive reads_fields {M} (field : Z -> Z -> M -> reader M) : M -> bytes -> M -> Prop :=
| reads_none m : reads_fields field m [] m
| reads_field f w payload rest m m' m'' :
    0 <= f < 2 ^ 32 -> 0 <= w < 8 -> reads (field f w m) payload m' -> reads_fields field m' rest m'' ->
    reads_fields field m (enc_tag f w ++ payload ++ rest) m''.

Lemma reads_fields_app {M} (field : Z -> Z -> M -> reader M) m bs m' cs m'' :
  reads_fields field m bs m' -> reads_fields field m' cs m'' -> reads_fields field m (bs ++ cs) m''.
Proof.
  induction 1 as [|f w payload rest m1 m2 m3 Hf Hw Hr _ IH]; intros Hc; [done|].
  rewrite <- !app_assoc. econstructor; [done..|]. by apply IH.
Qed.

Lemma reads_one {M} (field : Z -> Z -> M -> reader M) f w payload m m' :
  0 <= f < 2 ^ 32 -> 0 <= w < 8 -> reads (field f w m) payload m' -> reads_fields field m (enc_tag f w ++ payload) m'.
Proof.
  intros Hf Hw Hr. replace (enc_tag f w ++ payload) with (enc_tag f w ++ payload ++ []) by (by rewrite app_nil_r).
  econstructor; [done..|constructor].
Qed.

(** A field that is left out when it is empty. *)
Lemma reads_opt {M} (field : Z -> Z -> M -> reader M) (b : bool) m bs m' :
  (b = true -> reads_fields field m bs m') -> (b = false -> m = m') ->
  reads_fields field m (if b then bs else []) m'.
Proof. destruct b; intros H1 H2; [by apply H1|]. rewrite H2 by done. constructor. Qed.

(** A packed field, written when it is not empty. *)
Lemma reads_packed_field {M A} (field : Z -> Z -> M -> reader M) f (enc : list A -> bytes) vs m m' :
  0 <= f < 2 ^ 32 -> reads (field f wireBytes m) (enc_varint (len (enc vs)) ++ enc vs) m' ->
  (vs = [] -> m = m') -> reads_fields field m (packed_field f enc vs) m'.
Proof.
  intros Hf Hr H0. destruct vs as [|v vs]; [rewrite H0 by done; constructor|].
  unfold packed_field, bytes_field. by apply reads_one.
Qed.

(** A repeated field: one after the other. *)
Lemma reads_repeated {M X} (field : Z -> Z -> M -> reader M) (enc : X -> bytes) (build : list X -> M) (xs : list X) :
  (forall ys x, x ∈ xs -> reads_fields field (build ys) (enc x) (build (ys ++ [x]))) ->
  forall ys, reads_fields field (build ys) (mjoin (enc <$> xs)) (build (ys ++ xs)).
Proof.
  induction xs as [|x xs IH]; intros Hx ys.
  - rewrite app_nil_r. constructor.
  - rewrite mjoin_map_cons. apply (reads_fields_app _ _ _ (build (ys ++ [x]))).
    + apply Hx. by left.
    + replace (ys ++ x :: xs) with ((ys ++ [x]) ++ xs) by (by rewrite <- app_assoc).
      apply IH. intros zs y Hy. apply Hx. by right.
Qed.

Lemma enc_varint_pos v : 0 < len (enc_varint v).
Proof. unfold enc_varint. cbn [varint_bytes]. case_match; rewrite len_cons; pose proof (len_nonneg (A:=Z)); unfold len; lia. Qed.

Lemma fields_loop_reads {M} te (field : Z -> Z -> M -> reader M) m bs m' :
  reads_fields field m bs m' -> forall fuel pre, len (pre ++ bs) <= max_int64 -> len bs <= Z.of_nat fuel ->
  fields_loop fuel te field m (pre ++ bs) (len pre) = (Val m', len pre + len bs).
Proof.
  induction 1 as [m|f w payload rest m m1 m2 Hf Hw Hr _ IH]; intros fuel pre Hl Hfuel.
  - destruct fuel; cbn [fields_loop]; unfold remaining; rewrite app_nil_r;
      rewrite (proj2 (Z.leb_le _ _)) by lia; cbn; by rewrite Z.add_0_r.
  - assert (0 < len (enc_tag f w)) as Hp by apply enc_varint_pos. pose proof (len_nonneg payload). pose proof (len_nonneg rest).
    rewrite !len_app in Hfuel. destruct fuel as [|fuel]; [lia|]. cbn [fields_loop]. unfold remaining.
    rewrite (proj2 (Z.leb_gt _ _)) by (rewrite !len_app; lia).
    rewrite (reads_tag f w Hf Hw pre (payload ++ rest)) by done. unfold bind.
    rewrite !app_assoc in Hl |- *. rewrite <- (app_assoc (pre ++ _)) in Hl |- *.
    rewrite <- (len_app pre). rewrite (Hr (pre ++ enc_tag f w) rest Hl).
    rewrite app_assoc in Hl |- *. rewrite <- (len_app (pre ++ _)). rewrite IH; [|done|lia]. rewrite !len_app. f_equal. lia.
Qed.

Lemma fields_reads {M} te (field : Z -> Z -> M -> reader M) m bs m' :
  reads_fields field m bs m' -> len bs <= max_int64 -> parse (fields_loop (length bs) te field m) bs = Val m'.
Proof.
  intros Hr Hl. unfold parse. pose proof (fields_loop_reads te field m bs m' Hr (length bs) [] Hl) as E.
  cbn [app] in E. change (len []) with 0 in E. rewrite E; [done|]. unfold len. lia.
Qed.

(** ** Skipped fields *)

Lemma reads_skip_varint v : 0 <= v < 2 ^ 64 -> reads (skip wireVarint) (enc_varint v) tt.
Proof. intros Hv. apply (reads_last _ (fun _ => tt) _ v). by apply reads_varint. Qed.

Lemma reads_skip_bytes b : reads (skip wireBytes) (enc_varint (len b) ++ b) tt.
Proof. apply (reads_last readBytes (fun _ => tt) _ b). apply reads_bytes. Qed.

Lemma reads_ignore r bs : reads r bs tt -> reads (ignore r) bs tt.
Proof. intros Hr pre post Hl. unfold ignore. by rewrite Hr. Qed.

(** ** Packed fields *)

Lemma packed_loop_reads conv vs fuel acc pre :
  Forall (fun v => 0 <= v < 2 ^ 64) vs -> len vs <= Z.of_nat fuel ->
  packed_loop fuel conv acc (pre ++ mjoin (enc_varint <$> vs)) (len pre) =
  (Val (acc ++ (conv <$> vs)), len pre + len (mjoin (enc_varint <$> vs))).
Proof.
  revert fuel acc pre. induction vs as [|v vs IH]; intros fuel acc pre Hvs Hfuel.
  - cbn [fmap list_fmap mjoin list_join]. rewrite !app_nil_r.
    destruct fuel; cbn [packed_loop]; unfold remaining; rewrite (proj2 (Z.leb_le _ _)) by lia; cbn; by rewrite Z.add_0_r.
  - inversion_clear Hvs as [|? ? Hv Hvs']. rewrite len_cons in Hfuel. pose proof (len_nonneg vs).
    destruct fuel as [|fuel]; [lia|]. rewrite mjoin_map_cons. cbn [packed_loop]. unfold remaining.
    pose proof (enc_varint_pos v). pose proof (len_nonneg (mjoin (enc_varint <$> vs))).
    rewrite (proj2 (Z.leb_gt _ _)) by (rewrite !len_app; lia). unfold bind, readVarint, enc_varint at 1.
    rewrite varint_loop_reads; [|lia..]. rewrite Z.mul_1_r, Z.add_0_l. fold (enc_varint v).
    rewrite app_assoc, <- (len_app pre). rewrite IH by (done || lia). rewrite <- app_assoc. rewrite !len_app.
    f_equal. lia.
Qed.

Lemma read_packed_enc conv vs : Forall (fun v => conv (u64 v) = v) vs -> read_packed conv (enc_packed vs) = Val vs.
Proof.
  intros Hvs. unfold read_packed, parse, enc_packed.
  assert ((fun v => enc_varint (u64 v)) <$> vs = enc_varint <$> (wrapU 64 <$> vs)) as -> by (by rewrite <- list_fmap_compose).
  assert (forall us, len us <= len (mjoin (enc_varint <$> us))) as Hlen.
  { induction us as [|u us IH]; [done|]. rewrite mjoin_map_cons, len_app, len_cons. pose proof (enc_varint_pos u). lia. }
  pose proof (packed_loop_reads conv (wrapU 64 <$> vs) (length (mjoin (enc_varint <$> (wrapU 64 <$> vs)))) [] []) as E.
  cbn [app] in E. change (len []) with 0 in E. rewrite E.
  - cbn [fst]. f_equal. rewrite <- list_fmap_compose. clear E. induction Hvs as [|v vs Hv _ IH]; cbn; [done|].
    rewrite IH. unfold compose. by rewrite Hv.
  - apply Forall_fmap, Forall_true. intros v. apply wrapU_range. lia.
  - apply Hlen.
Qed.

(** The words of a packed field, back. *)
Lemma enc_words_len w bits (xs : list spec_float) : len (enc_floats w bits xs) = len xs * Z.of_nat w.
Proof. apply len_mjoin. intros x _. unfold len. by rewrite enc_le_length. Qed.

Lemma le_at_words w bits (xs : list spec_float) i x :
  Forall (fun x => 0 <= bits x < 2 ^ (8 * Z.of_nat w)) xs -> xs !! i = Some x ->
  le_at w (enc_floats w bits xs) (Z.of_nat i * Z.of_nat w) = Some (bits x).
Proof.
  intros Hxs Hi. unfold le_at. rewrite (proj2 (Z.leb_le _ _)) by lia.
  rewrite <- Nat2Z.inj_mul, Nat2Z.id. revert i Hi. induction Hxs as [|y ys Hy _ IH]; intros i Hi; [done|].
  unfold enc_floats. rewrite mjoin_map_cons. destruct i as [|i]; cbn in Hi.
  - simplify_eq. cbn [Nat.mul]. rewrite drop_0. by apply le_enc.
  - replace (S i * w)%nat with (length (enc_le w (bits y)) + i * w)%nat by (rewrite enc_le_length; lia).
    rewrite drop_app_add. by apply IH.
Qed.

Lemma words_enc w bits (xs : list spec_float) :
  (0 < w)%nat -> Forall (fun x => 0 <= bits x < 2 ^ (8 * Z.of_nat w)) xs -> words w (enc_floats w bits xs) = Some (bits <$> xs).
Proof.
  intros Hw Hxs. unfold words. rewrite enc_words_len, Z.div_mul by lia. unfold range. rewrite Z.sub_0_r. unfold len, seqZ.
  rewrite Nat2Z.id. apply mapM_Some. rewrite Forall2_fmap_l, Forall2_fmap_r. apply Forall2_same_length_lookup_2; [by rewrite length_seq|].
  intros i j x Hj Hx. apply lookup_seq in Hj as [-> _]. unfold compose. rewrite Z.add_0_r, Nat.add_0_l. by apply le_at_words.
Qed.

Lemma readPackedFloat32_enc xs : Forall is_float32 xs -> readPackedFloat32 (enc_floats 4 Float32bits xs) = Some xs.
Proof.
  intros Hxs. unfold readPackedFloat32. rewrite words_enc; [|lia|].
  - cbn. f_equal. induction Hxs as [|x xs [_ Hx] _ IH]; cbn; [done|]. by rewrite Hx, IH.
  - eapply Forall_impl; [exact Hxs|]. by intros x [Hx _].
Qed.

Lemma readPackedFloat64_enc xs : Forall is_float64 xs -> readPackedFloat64 (enc_floats 8 Float64bits xs) = Some xs.
Proof.
  intros Hxs. unfold readPackedFloat64. rewrite words_enc; [|lia|].
  - cbn. f_equal. induction Hxs as [|x xs [_ Hx] _ IH]; cbn; [done|]. by rewrite Hx, IH.
  - eapply Forall_impl; [exact Hxs|]. by intros x [Hx _].
Qed.

(** Text. *)
Lemma to_string_enc s : to_string (enc_string s) = s.
Proof.
  unfold to_string, enc_string. induction s as [|a s IH]; [done|]. cbn. rewrite IH.
  by rewrite Nat2Z.id, Ascii.ascii_nat_embedding.
Qed.

#[global] Arguments enc_varint : simpl never.
#[global] Arguments enc_tag : simpl never.
#[global] Arguments float_bits : simpl never.
#[global] Arguments float_frombits : simpl never.
