(* ===== verification/OnnxModelTheorems.v ===== *)
(** Parsing a model file: it always ends; it panics on a length that no [int] holds; and
    it reads back every model a protobuf writer writes.

    A model written by a protobuf writer parses back to itself. *)

From Stdlib Require Import SpecFloat.
From S2P Require Import Prelude Float64 GoStrings GoSlices OnnxProto OnnxModel OnnxEncode.

#[local] Open Scope list_scope.

(** ** The parsers end *)

Lemma scan_safe {A} num wire (found : reader A) missing :
  safe found -> safe_parse (fun data => parse (scan_loop (length data) num wire found missing) data).
Proof.
  intros Hf data. apply (parse_loop_safe (fun fuel => scan_loop fuel num wire found missing)). intros fuel.
  induction fuel as [|fuel IH]; intros pos Hp Hfuel.
  { cbn. unfold remaining. rewrite (proj2 (Z.leb_le (len data - pos) 0)) by lia. done. }
  cbn [scan_loop]. destruct (Z.leb_spec (remaining data pos) 0) as [Hr|Hr]; [done|]. unfold remaining in Hr.
  unfold bind. pose proof (safe_readTag data pos Hp) as (Ht1 & Ht2 & Ht3).
  destruct (readTag data pos) as [[[f w]|e| |] p] eqn:Et; cbn in Ht1, Ht2, Ht3 |- *;
    [|done|split_and!; [done|intros Ht _; by apply (Ht3 Ht)]|done].
  pose proof (readTag_forward _ _ _ _ Hp Et) as Hp'. destruct (is_field f w num wire).
  - pose proof (Hf data p ltac:(lia)) as (H1 & _ & H3). done.
  - pose proof (safe_ignore (skip w) (safe_skip w) data p ltac:(lia)) as (Hx1 & Hx2 & Hx3).
    destruct (ignore (skip w) data p) as [[[]|e| |] p']; cbn in Hx1, Hx2, Hx3 |- *;
      [|done|split_and!; [done|intros Ht _; by apply (Hx3 Ht)]|done].
    specialize (Hx2 ltac:(done)). apply IH; lia.
Qed.

Lemma opset_safe version : safe_parse (fun data => parse (opset_loop (length data) version) data).
Proof.
  intros data. apply (parse_loop_safe (fun fuel => opset_loop fuel version)). intros fuel. revert version.
  induction fuel as [|fuel IH]; intros version pos Hp Hfuel.
  { cbn. unfold remaining. rewrite (proj2 (Z.leb_le (len data - pos) 0)) by lia. done. }
  cbn [opset_loop]. destruct (Z.leb_spec (remaining data pos) 0) as [Hr|Hr]; [done|]. unfold remaining in Hr.
  pose proof (safe_readTag data pos Hp) as (Ht1 & Ht2 & Ht3).
  destruct (readTag data pos) as [[[f w]|e| |] p] eqn:Et; cbn in Ht1, Ht2, Ht3 |- *;
    [|done|split_and!; [done|intros Ht _; by apply (Ht3 Ht)]|done].
  pose proof (readTag_forward _ _ _ _ Hp Et) as Hp'. destruct (is_field f w 2 wireVarint).
  - pose proof (readVarint_safe data p ltac:(lia)) as Hv.
    destruct (readVarint data p) as [[v|e| |] p']; destruct Hv as (Hv1 & Hv2 & Hv3 & _); try done; apply IH; lia.
  - unfold bind. pose proof (safe_ignore (skip w) (safe_skip w) data p ltac:(lia)) as (Hx1 & Hx2 & Hx3).
    destruct (ignore (skip w) data p) as [[[]|e| |] p']; cbn in Hx1, Hx2, Hx3 |- *;
      [|done|split_and!; [done|intros Ht _; by apply (Hx3 Ht)]|done].
    specialize (Hx2 ltac:(done)). apply IH; lia.
Qed.

Lemma tensor_safe : safe_parse parseTensorProto.
Proof.
  apply fields_safe. intros f w [name dims dt raw fl i32s i64s dbl u64s]. unfold tensor_field, readPackedInt64, readPackedInt32, readPackedUint64, readFixed32, readFixed64.
  solve_safe.
Qed.
#[local] Hint Resolve tensor_safe : wire.

Lemma attribute_safe : safe_parse parseAttributeProto.
Proof.
  apply fields_safe. intros f w [name ty fl i s t fs ns]. unfold attribute_field, readPackedInt64, readFixed32. solve_safe.
Qed.
#[local] Hint Resolve attribute_safe : wire.

Lemma node_safe : safe_parse parseNodeProto.
Proof. apply fields_safe. intros f w [inputs outputs name op attrs]. unfold node_field. solve_safe. Qed.

Lemma dimension_safe : safe_parse parseDimensionProto.
Proof. apply scan_safe. solve_safe. Qed.
#[local] Hint Resolve node_safe dimension_safe : wire.

Lemma shape_safe : safe_parse parseTensorShapeProto.
Proof. apply fields_safe. intros f w dims. unfold shape_field. solve_safe. Qed.

(** A message handed straight to its parser. *)
Lemma safe_submessage {A} (p : bytes -> outcome A) : safe_parse p -> safe (let! b := readBytes in lift (p b)).
Proof.
  intros Hp data pos Hpos. pose proof (safe_message p ret Hp safe_ret data pos Hpos) as H.
  assert ((let! b := readBytes in let! a := lift (p b) in ret a) data pos = (let! b := readBytes in lift (p b)) data pos) as E.
  { unfold bind, lift. destruct (readBytes data pos) as [[b|e| |] q]; [|done..]. by destruct (p b). }
  by rewrite E in H.
Qed.

Lemma tensor_type_safe : safe_parse parseTensorTypeShape.
Proof. apply scan_safe, safe_submessage, shape_safe. Qed.

Lemma type_safe : safe_parse parseTypeProtoShape.
Proof. apply scan_safe, safe_submessage, tensor_type_safe. Qed.

Lemma value_info_safe : safe_parse parseValueInfoProto.
Proof.
  apply fields_safe. intros f w [name shape]. unfold value_info_field. apply safe_if; [solve_safe|].
  apply safe_if; [|solve_safe].
  pose (p b := match parseTypeProtoShape b with Fail _ => Val shape | o => o end).
  assert (safe_parse p) as Hp.
  { intros b. unfold p. destruct (type_safe b) as [H1 H2]. by destruct (parseTypeProtoShape b). }
  intros data pos Hpos. pose proof (safe_message p (fun s => ret (Build_ValueInfoProto name s)) Hp (fun _ => safe_ret _) data pos Hpos) as H.
  match goal with |- context [bind readBytes ?k] =>
    assert (bind readBytes k data pos = (let! b := readBytes in let! s := lift (p b) in ret (Build_ValueInfoProto name s)) data pos) as ->;
      [|exact H] end.
  unfold bind, lift, p. destruct (readBytes data pos) as [[b|e| |] q]; [|done..]. by destruct (parseTypeProtoShape b).
Qed.
#[local] Hint Resolve value_info_safe : wire.

Lemma graph_safe : safe_parse parseGraphProto.
Proof. apply fields_safe. intros f w [nodes inits inputs outputs]. unfold graph_field. solve_safe. Qed.
#[local] Hint Resolve graph_safe opset_safe : wire.

Lemma model_safe : safe_parse (fun data => parse (fields_loop (length data) (Wrapped "model") model_field empty_model) data).
Proof.
  apply fields_safe. intros f w [ir opset graph]. unfold model_field. solve_safe.
Qed.

(** Data without eight bytes in a row that say "more" is tame: its varints stay below 2^56. *)
Definition short_varints (data : bytes) : Prop :=
  forall i, 0 <= i -> i + 8 <= len data -> exists j b, i <= j < i + 8 /\ get data j = Some b /\ b < 128.

Lemma varint_loop_short turns data start k val v pos' :
  short_varints data -> 0 <= start -> 0 <= k <= 8 -> 0 <= val < 2 ^ (7 * k) ->
  (forall j b, start <= j < start + k -> get data j = Some b -> 128 <= b) -> start + k <= len data ->
  varint_loop turns val (7 * k) data (start + k) = (Val v, pos') -> 0 <= v < 2 ^ 56.
Proof.
  intros Hshort Hstart. revert k val. induction turns as [|n IH]; intros k val Hk Hval Hmore Hlen; [done|].
  assert (k < 8) as Hk8.
  { destruct (decide (k = 8)) as [->|]; [|lia]. destruct (Hshort start) as (j & b & Hj & Hb & Hlt); [done|lia|].
    specialize (Hmore j b ltac:(lia) Hb). lia. }
  cbn [varint_loop]. destruct (Z.leb_spec (len data) (start + k)); [done|].
  destruct (get data (start + k)) as [b|] eqn:Eb; [|done].
  assert (0 <= Z.land b 127 < 128) as Hb by (rewrite land_127; apply Z.mod_pos_bound; lia).
  assert (0 < 2 ^ (7 * k)) by (apply Z.pow_pos_nonneg; lia).
  assert (2 ^ (7 * (k + 1)) = 128 * 2 ^ (7 * k)) as E7 by (replace (7 * (k + 1)) with (7 + 7 * k) by lia; rewrite Z.pow_add_r by lia; done).
  assert (2 ^ (7 * (k + 1)) <= 2 ^ 56) by (apply Z.pow_le_mono_r; lia).
  rewrite u64_small by (rewrite Z.shiftl_mul_pow2 by lia; change (2 ^ 64) with (256 * 2 ^ 56); nia).
  rewrite lor_shiftl by lia. destruct (Z.ltb_spec b 128); [intros [= <- _]; nia|].
  rewrite (proj2 (Z.leb_gt 64 (7 * k + 7))) by lia.
  replace (7 * k + 7) with (7 * (k + 1)) by lia. replace (start + k + 1) with (start + (k + 1)) by lia.
  apply IH; [lia|nia| |lia]. intros j c Hj Hc. destruct (decide (j = start + k)) as [->|]; [by simplify_eq|].
  apply (Hmore j); [lia|done].
Qed.

Lemma short_varints_tame data : short_varints data -> len data <= 2 ^ 62 -> tame data.
Proof.
  intros Hshort Hl pos v pos' Hp E. destruct (decide (pos <= len data)) as [Hle|Hgt].
  - pose proof (varint_loop_short 10 data pos 0 0 v pos' Hshort Hp ltac:(lia) ltac:(done)) as H.
    rewrite Z.add_0_r in H. specialize (H ltac:(intros; lia) Hle E). unfold max_int64. lia.
  - unfold readVarint in E. cbn [varint_loop] in E. rewrite (proj2 (Z.leb_le (len data) pos)) in E by lia. done.
Qed.

(** C34: parsing a model always ends, whatever the bytes (no turn of a field loop is
    wasted, so the length of each message bounds its turns), and it answers with a model
    or an error and never panics, unless some varint of the file is so large that, added
    to the length of the file, it leaves the range of [int]. *)
Theorem ParseModel_answers data :
  ParseModel data <> NoFuel /\ (tame data -> ParseModel data <> Panic).
Proof.
  unfold ParseModel. destruct (model_safe data) as [H1 H2].
  destruct (parse _ data) as [m|e| |]; [|done..]. by destruct (md_Graph m).
Qed.

(** A length field of 2^63 or more passes the length check of [readBytes], which is
    made on the number it is as an [int], and panics in the slice expression that follows:
    a file that begins with such a graph crashes the parser instead of being refused. *)
Theorem huge_length_panics n rest :
  2 ^ 63 <= n < 2 ^ 64 -> len (enc_tag 7 wireBytes ++ enc_varint n ++ rest) <= max_int64 ->
  ParseModel (enc_tag 7 wireBytes ++ enc_varint n ++ rest) = Panic.
Proof.
  intros Hn Hl. set (data := enc_tag 7 wireBytes ++ enc_varint n ++ rest) in *.
  assert (0 < len (enc_tag 7 wireBytes)) as Hp by done. pose proof (enc_varint_pos n). pose proof (len_nonneg rest).
  assert (len data = len (enc_tag 7 wireBytes) + (len (enc_varint n) + len rest)) as Ed by (unfold data; by rewrite !len_app).
  unfold ParseModel, parse. destruct (length data) as [|fuel] eqn:Ef; [unfold len in Ed at 1; lia|].
  cbn [fields_loop]. unfold remaining. rewrite (proj2 (Z.leb_gt _ _)) by lia.
  pose proof (reads_tag 7 wireBytes ltac:(lia) ltac:(done) [] (enc_varint n ++ rest) Hl) as Et. cbn [app] in Et.
  fold data in Et. change (len []) with 0 in Et. rewrite Et, Z.add_0_l.
  assert (readVarint data (len (enc_tag 7 wireBytes)) = (Val n, len (enc_tag 7 wireBytes) + len (enc_varint n))) as Ev
    by (apply reads_varint; [lia|done]).
  change (model_field 7 wireBytes empty_model) with
    (let! b := readBytes in let! g := lift (wrap "model.graph" (parseGraphProto b)) in ret (Build_ModelProto 0 0 (Some g))).
  unfold bind, readBytes. unfold bind. rewrite Ev.
  assert (i64 n = n - 2 ^ 64) as ->.
  { unfold wrapS. change (2 ^ (64 - 1)) with (2 ^ 63). rewrite <- (Z_mod_plus_full (n + 2 ^ 63) (-1)).
    rewrite Z.mod_small by lia. lia. }
  rewrite i64_small by (unfold min_int64, max_int64 in *; lia). rewrite (proj2 (Z.ltb_ge _ _)) by lia.
  unfold subslice. rewrite (proj2 (Z.leb_gt (_ + _) _)) by lia. by rewrite andb_false_r.
Qed.

Lemma huge_length_panics_witness : ParseModel ([58] ++ [128; 128; 128; 128; 128; 128; 128; 128; 128; 1] ++ [8; 1]) = Panic.
Proof. apply (huge_length_panics (2 ^ 63) [8; 1]); [lia|]. unfold max_int64. vm_compute. intros [=]. Defined.

Lemma ParseModel_answers_witness : tame [8; 1; 255; 1] /\ ParseModel [8; 1; 255; 1] <> Panic.
Proof.
  assert (tame [8; 1; 255; 1]) as Ht.
  { apply short_varints_tame; [|unfold len; cbn; lia]. intros i Hi Hl. unfold len in Hl. cbn in Hl. lia. }
  split; [exact Ht|]. apply (ParseModel_answers [8; 1; 255; 1]). exact Ht.
Defined.

(** * Round trip *)

(** ** The writer *)

Definition enc_tensor (tp : TensorProto) : bytes :=
  packed_field 1 enc_packed (tp_Dims tp) ++ varint_field 2 (u64 (tp_DataType tp)) ++
  packed_field 4 (enc_floats 4 Float32bits) (tp_FloatData tp) ++ packed_field 5 enc_packed (tp_Int32Data tp) ++
  packed_field 7 enc_packed (tp_Int64Data tp) ++ string_field 8 (tp_Name tp) ++ bytes_field 9 (tp_RawData tp) ++
  packed_field 10 (enc_floats 8 Float64bits) (tp_DoubleData tp) ++ packed_field 11 enc_packed (tp_Uint64Data tp).

Definition enc_attribute (a : AttributeProto) : bytes :=
  string_field 1 (at_Name a) ++ fixed32_field 2 (Float32bits (at_F a)) ++ varint_field 3 (u64 (at_I a)) ++
  bytes_field 4 (at_S a) ++ match at_T a with Some t => bytes_field 5 (enc_tensor t) | None => [] end ++
  packed_field 7 (enc_floats 4 Float32bits) (at_Floats a) ++ packed_field 8 enc_packed (at_Ints a) ++
  varint_field 20 (u64 (at_Type a)).

Definition enc_node (n : NodeProto) : bytes :=
  mjoin (string_field 1 <$> nd_Inputs n) ++ mjoin (string_field 2 <$> nd_Outputs n) ++ string_field 3 (nd_Name n) ++
  string_field 4 (nd_OpType n) ++ mjoin ((fun a => bytes_field 5 (enc_attribute a)) <$> nd_Attrs n).

Definition enc_shape (dims : list Z) : bytes := mjoin ((fun d => bytes_field 1 (varint_field 1 (u64 d))) <$> dims).

(** The element type comes before the shape; the parser skips it. *)
Definition enc_type (dims : list Z) : bytes := bytes_field 1 (varint_field 1 onnxFloat ++ bytes_field 2 (enc_shape dims)).

Definition enc_value_info (vi : ValueInfoProto) : bytes :=
  string_field 1 (vi_Name vi) ++ bytes_field 2 (enc_type (vi_Shape vi)).

Definition enc_graph (g : GraphProto) : bytes :=
  mjoin ((fun n => bytes_field 1 (enc_node n)) <$> gr_Nodes g) ++
  mjoin ((fun t => bytes_field 5 (enc_tensor t)) <$> gr_Initializers g) ++
  mjoin ((fun v => bytes_field 11 (enc_value_info v)) <$> gr_Inputs g) ++
  mjoin ((fun v => bytes_field 12 (enc_value_info v)) <$> gr_Outputs g).

(** The operator set has its domain beside its version; the parser skips the domain. *)
Definition enc_model (domain : string) (m : ModelProto) (g : GraphProto) : bytes :=
  varint_field 1 (u64 (md_IRVersion m)) ++ bytes_field 8 (string_field 1 domain ++ varint_field 2 (u64 (md_OpsetVersion m))) ++
  bytes_field 7 (enc_graph g).

(** ** Values of their types *)

Definition is_int64 (v : Z) : Prop := min_int64 <= v <= max_int64.
Definition is_int32 (v : Z) : Prop := - 2 ^ 31 <= v < 2 ^ 31.

Record tensor_ok (tp : TensorProto) : Prop := {
  tok_dims : Forall is_int64 (tp_Dims tp);
  tok_type : is_int32 (tp_DataType tp);
  tok_floats : Forall is_float32 (tp_FloatData tp);
  tok_i32s : Forall is_int32 (tp_Int32Data tp);
  tok_i64s : Forall is_int64 (tp_Int64Data tp);
  tok_doubles : Forall is_float64 (tp_DoubleData tp);
  tok_u64s : Forall (fun v => 0 <= v < 2 ^ 64) (tp_Uint64Data tp)
}.

Record attribute_ok (a : AttributeProto) : Prop := {
  aok_type : is_int32 (at_Type a);
  aok_f : is_float32 (at_F a);
  aok_i : is_int64 (at_I a);
  aok_t : forall t, at_T a = Some t -> tensor_ok t;
  aok_floats : Forall is_float32 (at_Floats a);
  aok_ints : Forall is_int64 (at_Ints a)
}.

Definition node_ok (n : NodeProto) : Prop := Forall attribute_ok (nd_Attrs n).
Definition value_info_ok (vi : ValueInfoProto) : Prop := Forall is_int64 (vi_Shape vi).

Record graph_ok (g : GraphProto) : Prop := {
  gok_nodes : Forall node_ok (gr_Nodes g);
  gok_inits : Forall tensor_ok (gr_Initializers g);
  gok_inputs : Forall value_info_ok (gr_Inputs g);
  gok_outputs : Forall value_info_ok (gr_Outputs g)
}.

(** ** Sign extension *)

Lemma i64_u64 v : is_int64 v -> i64 (u64 v) = v.
Proof.
  unfold is_int64, wrapS, wrapU, min_int64, max_int64. intros H. rewrite Zplus_mod_idemp_l.
  change (2 ^ (64 - 1)) with (2 ^ 63). rewrite Z.mod_small by lia. lia.
Qed.

Lemma i32_u64 v : is_int32 v -> i32 (u64 v) = v.
Proof.
  unfold is_int32, wrapS, wrapU. intros H. change (2 ^ (32 - 1)) with (2 ^ 31).
  destruct (decide (0 <= v)).
  - rewrite (Z.mod_small v) by lia. rewrite Z.mod_small by lia. lia.
  - rewrite <- (Z_mod_plus_full v 1), (Z.mod_small (v + 1 * 2 ^ 64)) by lia.
    replace (v + 1 * 2 ^ 64 + 2 ^ 31) with (v + 2 ^ 31 + 2 ^ 32 * 2 ^ 32) by lia.
    rewrite Z_mod_plus_full, Z.mod_small by lia. lia.
Qed.

Lemma u64_range v : 0 <= u64 v < 2 ^ 64.
Proof. apply wrapU_range. lia. Qed.

(** ** Fields read back *)

Lemma reads_num {M} (k : Z -> M) v m : 0 <= v < 2 ^ 64 -> k v = m -> reads (let! v := readVarint in ret (k v)) (enc_varint v) m.
Proof. intros Hv <-. apply (reads_last readVarint k). by apply reads_varint. Qed.

Lemma reads_text {M} (k : bytes -> M) b m : k b = m -> reads (let! b := readBytes in ret (k b)) (enc_varint (len b) ++ b) m.
Proof. intros <-. apply (reads_last readBytes k). apply reads_bytes. Qed.

Lemma reads_word {M} (k : Z -> M) v m : 0 <= v < 2 ^ 32 -> k v = m -> reads (let! v := readFixed32 in ret (k v)) (enc_le 4 v) m.
Proof. intros Hv <-. apply (reads_last readFixed32 k). by apply reads_fixed. Qed.

Lemma reads_msg {A M} (p : bytes -> outcome A) (k : A -> M) b a m :
  (len b <= max_int64 -> p b = Val a) -> k a = m ->
  reads (let! b := readBytes in let! a := lift (p b) in ret (k a)) (enc_varint (len b) ++ b) m.
Proof. intros Hp <-. by apply reads_sub. Qed.

Lemma packed_int64 vs : Forall is_int64 vs -> readPackedInt64 (enc_packed vs) = Val vs.
Proof. intros H. apply read_packed_enc. eapply Forall_impl; [exact H|]. apply i64_u64. Qed.

Lemma packed_int32 vs : Forall is_int32 vs -> readPackedInt32 (enc_packed vs) = Val vs.
Proof. intros H. apply read_packed_enc. eapply Forall_impl; [exact H|]. apply i32_u64. Qed.

Lemma packed_uint64 vs : Forall (fun v => 0 <= v < 2 ^ 64) vs -> readPackedUint64 (enc_packed vs) = Val vs.
Proof. intros H. apply read_packed_enc. eapply Forall_impl; [exact H|]. intros v. apply u64_small. Qed.

Lemma packed_float32 vs : Forall is_float32 vs -> of_panic (readPackedFloat32 (enc_floats 4 Float32bits vs)) = Val vs.
Proof. intros H. by rewrite readPackedFloat32_enc. Qed.

Lemma packed_float64 vs : Forall is_float64 vs -> of_panic (readPackedFloat64 (enc_floats 8 Float64bits vs)) = Val vs.
Proof. intros H. by rewrite readPackedFloat64_enc. Qed.

(** One field of a message at a time. *)
Ltac next := eapply reads_fields_app.
Ltac field_of lem := apply reads_one; [lia|done|]; eapply lem; try reflexivity.
Ltac packed_of lem :=
  eapply reads_packed_field; [lia|eapply reads_msg; [intros _; by apply lem|reflexivity]|intros ->; reflexivity].

Lemma parseTensorProto_enc tp : tensor_ok tp -> len (enc_tensor tp) <= max_int64 -> parseTensorProto (enc_tensor tp) = Val tp.
Proof.
  intros [Hd Ht Hf H32 H64 Hdb Hu] Hl. apply (fields_reads (fun e => e)); [clear Hl|done]. destruct tp as [name dims dt raw fl i32s i64s dbl u64s].
  cbn in *. unfold enc_tensor, empty_tensor. cbn [tp_Name tp_Dims tp_DataType tp_RawData tp_FloatData tp_Int32Data tp_Int64Data tp_DoubleData tp_Uint64Data].
  next; [packed_of packed_int64|]. next; [field_of @reads_num; apply u64_range|].
  next; [packed_of packed_float32|]. next; [packed_of packed_int32|]. next; [packed_of packed_int64|].
  next; [field_of @reads_text|]. next; [field_of @reads_text|]. next; [packed_of packed_float64|].
  rewrite i32_u64, to_string_enc by done.
  packed_of packed_uint64.
Qed.

Lemma parseAttributeProto_enc a : attribute_ok a -> len (enc_attribute a) <= max_int64 -> parseAttributeProto (enc_attribute a) = Val a.
Proof.
  intros [Hty [Hf Hf'] Hi Ht Hfs Hns] Hl. apply (fields_reads (fun e => e)); [clear Hl|done]. destruct a as [name ty f i s t fs ns].
  cbn in *. unfold enc_attribute, empty_attribute. cbn [at_Name at_Type at_F at_I at_S at_T at_Floats at_Ints].
  next; [field_of @reads_text|]. next; [field_of @reads_word; done|]. next; [field_of @reads_num; apply u64_range|].
  next; [field_of @reads_text|]. rewrite Hf', i64_u64, to_string_enc by done.
  apply (reads_fields_app _ _ _ (Build_AttributeProto name 0 f i s t [] [])).
  { destruct t as [t|]; [|constructor]. field_of @reads_msg. intros. apply parseTensorProto_enc; [by apply Ht|done]. }
  next; [packed_of packed_float32|]. next; [packed_of packed_int64|].
  apply reads_one; [lia|done|]. apply (reads_num (fun v => Build_AttributeProto name (i32 v) f i s t fs ns)); [apply u64_range|].
  by rewrite i32_u64.
Qed.

Lemma parseNodeProto_enc n : node_ok n -> len (enc_node n) <= max_int64 -> parseNodeProto (enc_node n) = Val n.
Proof.
  intros Hok Hl. apply (fields_reads (fun e => e)); [clear Hl|done]. destruct n as [inputs outputs name op attrs].
  unfold node_ok in Hok. cbn in Hok. unfold enc_node, empty_node. cbn [nd_Inputs nd_Outputs nd_Name nd_OpType nd_Attrs].
  next. { apply (reads_repeated _ _ (fun l => Build_NodeProto l [] "" "" [])).
    intros ys x _. apply reads_one; [lia|done|]. eapply reads_text. cbv beta. by rewrite to_string_enc. }
  next. { apply (reads_repeated _ _ (fun l => Build_NodeProto inputs l "" "" [])).
    intros ys x _. apply reads_one; [lia|done|]. eapply reads_text. cbv beta. by rewrite to_string_enc. }
  next; [field_of @reads_text|]. next; [field_of @reads_text|]. rewrite !to_string_enc.
  apply (reads_repeated _ _ (fun l => Build_NodeProto inputs outputs name op l)).
  intros ys x Hx. field_of @reads_msg. apply parseAttributeProto_enc. by apply (proj1 (Forall_forall _ _) Hok).
Qed.

(** The dimension of a shape. *)
Lemma scan_loop_hit {A} fuel num wire (found : reader A) missing payload a pre post :
  0 <= num < 2 ^ 32 -> 0 <= wire < 8 -> reads found payload a -> 0 < Z.of_nat fuel ->
  len (pre ++ enc_tag num wire ++ payload ++ post) <= max_int64 ->
  (scan_loop fuel num wire found missing (pre ++ enc_tag num wire ++ payload ++ post) (len pre)).1 = Val a.
Proof.
  intros Hn Hw Hr Hf Hl. destruct fuel as [|fuel]; [lia|]. cbn [scan_loop]. unfold remaining.
  assert (0 < len (enc_tag num wire)) by apply enc_varint_pos. pose proof (len_nonneg payload). pose proof (len_nonneg post).
  rewrite (proj2 (Z.leb_gt _ _)) by (rewrite !len_app; lia). unfold bind at 1.
  rewrite (reads_tag num wire Hn Hw pre (payload ++ post)) by done. unfold is_field. rewrite !Z.eqb_refl. cbn [andb].
  rewrite app_assoc in Hl |- *. rewrite <- (len_app pre). by rewrite (Hr (pre ++ enc_tag num wire) post Hl).
Qed.

Lemma scan_hit {A} num wire (found : reader A) missing payload a :
  0 <= num < 2 ^ 32 -> 0 <= wire < 8 -> reads found payload a -> len (enc_tag num wire ++ payload) <= max_int64 ->
  scan num wire found missing (enc_tag num wire ++ payload) = Val a.
Proof.
  intros Hn Hw Hr Hl. unfold scan, parse.
  pose proof (scan_loop_hit (length (enc_tag num wire ++ payload)) num wire found missing payload a [] [] Hn Hw Hr) as E.
  rewrite app_nil_r in E. apply E; [|done]. assert (0 < len (enc_tag num wire)) by apply enc_varint_pos.
  pose proof (len_nonneg payload). change (Z.of_nat (length ?l)) with (len l). rewrite len_app. lia.
Qed.

(** A field before it is skipped. *)
Lemma scan_skip {A} num wire (found : reader A) missing f w skipped payload a :
  0 <= num < 2 ^ 32 -> 0 <= wire < 8 -> 0 <= f < 2 ^ 32 -> 0 <= w < 8 -> is_field f w num wire = false ->
  reads (skip w) skipped tt -> reads found payload a ->
  len ((enc_tag f w ++ skipped) ++ enc_tag num wire ++ payload) <= max_int64 ->
  scan num wire found missing ((enc_tag f w ++ skipped) ++ enc_tag num wire ++ payload) = Val a.
Proof.
  intros Hn Hw Hf Hw' Hne Hs Hr Hl. unfold scan, parse. assert (0 < len (enc_tag f w)) by apply enc_varint_pos.
  assert (0 < len (enc_tag num wire)) by apply enc_varint_pos. pose proof (len_nonneg skipped). pose proof (len_nonneg payload).
  set (data := (enc_tag f w ++ skipped) ++ enc_tag num wire ++ payload) in *.
  assert (len data = len (enc_tag f w) + len skipped + (len (enc_tag num wire) + len payload)) as Ed
    by (unfold data; by rewrite !len_app).
  destruct (length data) as [|fuel] eqn:Ef; [unfold len in Ed at 1; lia|]. cbn [scan_loop]. unfold remaining.
  rewrite (proj2 (Z.leb_gt _ _)) by lia. unfold bind.
  assert (data = [] ++ enc_tag f w ++ (skipped ++ enc_tag num wire ++ payload)) as E1 by (unfold data; by rewrite <- app_assoc).
  assert (readTag data 0 = (Val (f, w), len (enc_tag f w))) as ->
    by (rewrite E1; apply (reads_tag f w Hf Hw' [] _); by rewrite <- E1).
  rewrite Hne. assert (data = enc_tag f w ++ skipped ++ (enc_tag num wire ++ payload)) as E2 by (unfold data; by rewrite <- app_assoc).
  assert (ignore (skip w) data (len (enc_tag f w)) = (Val tt, len (enc_tag f w ++ skipped))) as ->
    by (rewrite E2, len_app; apply (reads_ignore _ _ Hs); by rewrite <- E2).
  unfold data. rewrite <- (app_nil_r payload). apply scan_loop_hit; try done.
  - unfold len in *. lia.
  - by rewrite app_nil_r.
Qed.

Lemma parseDimensionProto_enc d :
  is_int64 d -> len (varint_field 1 (u64 d)) <= max_int64 -> parseDimensionProto (varint_field 1 (u64 d)) = Val d.
Proof.
  intros Hd Hl. apply scan_hit; [lia|done| |done]. eapply reads_num; [apply u64_range|]. by apply i64_u64.
Qed.

Lemma parseTensorShapeProto_enc dims :
  Forall is_int64 dims -> len (enc_shape dims) <= max_int64 -> parseTensorShapeProto (enc_shape dims) = Val dims.
Proof.
  intros Hd Hl. apply (fields_reads (fun e => e)); [clear Hl|done]. apply (reads_repeated _ _ (fun l => l)).
  intros ys x Hx. field_of @reads_msg. apply parseDimensionProto_enc. by apply (proj1 (Forall_forall _ _) Hd).
Qed.

(** A message handed straight to its parser. *)
Lemma reads_submessage {A} (p : bytes -> outcome A) b a :
  (len b <= max_int64 -> p b = Val a) -> reads (let! b := readBytes in lift (p b)) (enc_varint (len b) ++ b) a.
Proof.
  intros Hp pre post Hl. pose proof (reads_msg p (fun a => a) b a a Hp eq_refl pre post Hl) as E.
  revert E. unfold bind, lift, ret. destruct (readBytes _ _) as [[c|e| |] q]; [|done..]. by destruct (p c).
Qed.

Lemma parseTypeProtoShape_enc dims :
  Forall is_int64 dims -> len (enc_type dims) <= max_int64 -> parseTypeProtoShape (enc_type dims) = Val dims.
Proof.
  intros Hd Hl. apply scan_hit; [lia|done| |done]. apply reads_submessage. intros Hl'.
  apply (scan_skip 2 wireBytes _ _ 1 wireVarint (enc_varint onnxFloat)); [lia|done|lia|done|done| | |done].
  - by apply reads_skip_varint.
  - apply reads_submessage. intros Hl''. by apply parseTensorShapeProto_enc.
Qed.

Lemma parseValueInfoProto_enc vi :
  value_info_ok vi -> len (enc_value_info vi) <= max_int64 -> parseValueInfoProto (enc_value_info vi) = Val vi.
Proof.
  intros Hok Hl. apply (fields_reads (fun e => e)); [clear Hl|done]. destruct vi as [name shape]. unfold value_info_ok in Hok. cbn in Hok.
  unfold enc_value_info, empty_value_info. cbn [vi_Name vi_Shape]. next; [field_of @reads_text|].
  apply reads_one; [lia|done|]. rewrite to_string_enc. intros pre post Hl'.
  assert (len (enc_type shape) <= max_int64) as Ht.
  { rewrite !len_app in Hl'. pose proof (len_nonneg pre). pose proof (len_nonneg post).
    pose proof (len_nonneg (enc_varint (len (enc_type shape)))). lia. }
  change (value_info_field 2 wireBytes (Build_ValueInfoProto name [])) with
    (let! b := readBytes in match parseTypeProtoShape b with
       | Val shape => ret (Build_ValueInfoProto name shape) | Fail _ => ret (Build_ValueInfoProto name [])
       | Panic => lift Panic | NoFuel => lift NoFuel end).
  unfold bind. rewrite reads_bytes by done. rewrite parseTypeProtoShape_enc by done. done.
Qed.

Lemma parseGraphProto_enc g : graph_ok g -> len (enc_graph g) <= max_int64 -> parseGraphProto (enc_graph g) = Val g.
Proof.
  intros [Hn Ht Hi Ho] Hl. apply (fields_reads (fun e => e)); [clear Hl|done]. destruct g as [nodes inits inputs outputs]. cbn in *.
  unfold enc_graph, empty_graph. cbn [gr_Nodes gr_Initializers gr_Inputs gr_Outputs].
  rewrite Forall_forall in Hn. rewrite Forall_forall in Ht. rewrite Forall_forall in Hi. rewrite Forall_forall in Ho.
  next. { apply (reads_repeated _ _ (fun l => Build_GraphProto l [] [] [])). intros ys x Hx. apply reads_one; [lia|done|].
    eapply (reads_msg (fun b => wrap "graph.node" (parseNodeProto b))); [|reflexivity].
    intros H. by rewrite parseNodeProto_enc by auto. }
  next. { apply (reads_repeated _ _ (fun l => Build_GraphProto nodes l [] [])). intros ys x Hx. apply reads_one; [lia|done|].
    eapply (reads_msg (fun b => wrap "graph.initializer" (parseTensorProto b))); [|reflexivity].
    intros H. by rewrite parseTensorProto_enc by auto. }
  next. { apply (reads_repeated _ _ (fun l => Build_GraphProto nodes inits l [])). intros ys x Hx. field_of @reads_msg.
    intros H. apply parseValueInfoProto_enc; auto. }
  apply (reads_repeated _ _ (fun l => Build_GraphProto nodes inits inputs l)). intros ys x Hx. field_of @reads_msg.
  intros H. apply parseValueInfoProto_enc; auto.
Qed.

(** The operator set: the domain is skipped, the version kept. *)
Lemma opset_enc domain version old :
  is_int64 version ->
  len (string_field 1 domain ++ varint_field 2 (u64 version)) <= max_int64 ->
  parse (opset_loop (length (string_field 1 domain ++ varint_field 2 (u64 version))) old)
    (string_field 1 domain ++ varint_field 2 (u64 version)) = Val version.
Proof.
  intros Hv Hl. unfold parse, string_field, bytes_field, varint_field in *. set (b := enc_string domain) in *.
  set (t1 := enc_tag 1 wireBytes) in *. set (t2 := enc_tag 2 wireVarint) in *. set (skipped := enc_varint (len b) ++ b) in *.
  set (data := (t1 ++ skipped) ++ t2 ++ enc_varint (u64 version)) in *.
  assert (0 < len t1) by done. assert (0 < len t2) by done. pose proof (len_nonneg skipped). pose proof (enc_varint_pos (u64 version)).
  assert (len data = len t1 + len skipped + (len t2 + len (enc_varint (u64 version)))) as Ed by (unfold data; by rewrite !len_app).
  assert (data = [] ++ t1 ++ (skipped ++ t2 ++ enc_varint (u64 version))) as E1 by (unfold data; by rewrite <- app_assoc).
  assert (data = t1 ++ skipped ++ (t2 ++ enc_varint (u64 version))) as E2 by (unfold data; by rewrite <- app_assoc).
  assert (data = ((t1 ++ skipped) ++ t2) ++ enc_varint (u64 version) ++ []) as E3 by (unfold data; by rewrite app_nil_r, <- (app_assoc (t1 ++ skipped))).
  destruct (length data) as [|[|fuel]] eqn:Ef; [unfold len in Ed at 1; lia..|].
  pose proof Hl as Hl1. rewrite E1 in Hl1. pose proof Hl as Hl2. rewrite E2 in Hl2. pose proof Hl as Hl3. rewrite E3 in Hl3.
  assert (readTag data 0 = (Val (1, wireBytes), len t1)) as R1
    by (rewrite E1; exact (reads_tag 1 wireBytes ltac:(lia) ltac:(done) [] _ Hl1)).
  assert (ignore (skip wireBytes) data (len t1) = (Val tt, len (t1 ++ skipped))) as R2
    by (rewrite E2, len_app; exact (reads_ignore _ _ (reads_skip_bytes b) _ _ Hl2)).
  assert (readTag data (len (t1 ++ skipped)) = (Val (2, wireVarint), len ((t1 ++ skipped) ++ t2))) as R3
    by (rewrite (len_app _ t2); exact (reads_tag 2 wireVarint ltac:(lia) ltac:(done) (t1 ++ skipped) _ Hl)).
  assert (readVarint data (len ((t1 ++ skipped) ++ t2)) = (Val (u64 version), len data)) as R4.
  { rewrite E3 at 1. rewrite (reads_varint (u64 version) (u64_range _) _ _ Hl3). f_equal. rewrite E3, !len_app, len_nil. lia. }
  cbn [opset_loop]. unfold remaining. rewrite (proj2 (Z.leb_gt _ 0)) by lia. rewrite R1. cbn [is_field Z.eqb Pos.eqb andb].
  unfold bind. rewrite R2. rewrite (proj2 (Z.leb_gt _ 0)) by (rewrite len_app; lia). rewrite R3.
  change (is_field 2 wireVarint 2 wireVarint) with true. cbv iota. rewrite R4, i64_u64 by done.
  destruct fuel; cbn [opset_loop]; unfold remaining; by rewrite (proj2 (Z.leb_le _ 0)) by lia.
Qed.

(** C22: a model written by a protobuf writer (repeated numbers packed, every scalar field
    present, the domain of the operator set and the element types of inputs and outputs,
    which the parser does not keep, beside what it keeps) parses back to itself: every
    node with its attributes, every initializer with its data, every input and output with
    its shape. *)
Theorem ParseModel_enc_model domain m g :
  md_Graph m = Some g -> graph_ok g -> is_int64 (md_IRVersion m) -> is_int64 (md_OpsetVersion m) ->
  len (enc_model domain m g) <= max_int64 -> ParseModel (enc_model domain m g) = Val m.
Proof.
  intros Hg Hok Hir Hop Hl. unfold ParseModel.
  rewrite (fields_reads (Wrapped "model") model_field empty_model _ m); [by rewrite Hg| |done].
  destruct m as [ir op graph]. cbn in Hg, Hir, Hop. subst graph. clear Hl. unfold enc_model, empty_model.
  cbn [md_IRVersion md_OpsetVersion md_Graph]. next; [field_of @reads_num; apply u64_range|].
  next.
  { apply reads_one; [lia|done|]. cbn beta.
    eapply (reads_msg (fun b => parse (opset_loop (length b) 0) b)); [|reflexivity].
    intros Hl. by apply opset_enc. }
  rewrite i64_u64 by done. apply reads_one; [lia|done|].
  eapply (reads_msg (fun b => wrap "model.graph" (parseGraphProto b))); [|reflexivity].
  intros Hl. by rewrite parseGraphProto_enc.
Qed.

Definition sample_graph : GraphProto := {|
  gr_Nodes := [Build_NodeProto ["x"; "w"] ["y"] "n0" "Gemm" [Build_AttributeProto "transB" attrInt fzero (-1) [] None [] [3; -2]]];
  gr_Initializers := [Build_TensorProto "w" [1; 2] onnxFloat [] [Float32frombits 1069547520; Float32frombits 3221225472] [] [] [] []];
  gr_Inputs := [Build_ValueInfoProto "x" [-1; 2]];
  gr_Outputs := [Build_ValueInfoProto "y" []] |}%string.

Lemma ParseModel_enc_model_witness :
  ParseModel (enc_model "ai.onnx" (Build_ModelProto 8 17 (Some sample_graph)) sample_graph) = Val (Build_ModelProto 8 17 (Some sample_graph)).
Proof.
  assert (forall v, is_int64 v <-> min_int64 <= v <= max_int64) as Hi by done.
  apply ParseModel_enc_model; [done| |unfold is_int64, min_int64, max_int64; cbn; lia..|vm_compute; intros [=]].
  constructor; unfold sample_graph; cbn [gr_Nodes gr_Initializers gr_Inputs gr_Outputs];
    repeat (constructor || (split; vm_compute; done)); unfold is_int32, is_int64, min_int64, max_int64; cbn; try lia; done.
Defined.
