(* ===== verification/OnnxTensor.v ===== *)
(** Tensors ([detect/onnxruntime/tensor.go]): shapes and strides, reshaping, broadcasting,
    transposition, and the free lists their buffers come from.

    A tensor is its data and its shape; where the array of its data comes from is its
    [Origin], which the session keeps beside it.  Shape arithmetic is [int64]; [None] is a
    run-time panic. *)

From Stdlib Require Import SpecFloat.
From S2P Require Import Prelude Float64 GoSlices OnnxModel.

#[local] Open Scope list_scope.

Abbreviation float32 := spec_float.

(** ** Buffers and free lists *)

Record Buffer := { buf_id : Z; buf_cap : Z }.

#[global] Instance Buffer_eq_dec : EqDecision Buffer.
Proof. solve_decision. Defined.

Record Tensor := { Data : list float32; Shape : list Z }.

(** The array of a tensor an operator returns: one from the free lists (the [pooled]
    flag is set), one it made, or the array of its first input. *)
Inductive Origin := Pooled | Made | View.

(** [bits.Len(uint(size - 1))]. *)
Definition bucketFor (size : Z) : Z := if size <=? 1 then 0 else Z.log2 (size - 1) + 1.

(** [tensorFreeLists]: thirty-two stacks of buffers, and the next array's identity. *)
Record FreeLists := { bufs : gmap Z (list Buffer); next_id : Z }.

Definition num_buckets : Z := 32.

Definition bucket (fl : FreeLists) (k : Z) : list Buffer := default [] (bufs fl !! k).

(** Pops the buffer put last; without one, a new array of the bucket's capacity.  An
    index past the last bucket panics. *)
Definition take_buffer (size : Z) (fl : FreeLists) : option (Buffer * FreeLists) :=
  let k := bucketFor size in
  if num_buckets <=? k then None else
  match last (bucket fl k) with
  | Some b => if size <=? buf_cap b
              then Some (b, {| bufs := <[k := take (pred (length (bucket fl k))) (bucket fl k)]> (bufs fl); next_id := next_id fl |})
              else None
  | None => Some ({| buf_id := next_id fl; buf_cap := 2 ^ k |}, {| bufs := bufs fl; next_id := next_id fl + 1 |})
  end.

Definition putTensorData (b : Buffer) (fl : FreeLists) : option FreeLists :=
  if buf_cap b =? 0 then Some fl else
  let k := bucketFor (buf_cap b) in
  if num_buckets <=? k then None
  else Some {| bufs := <[k := bucket fl k ++ [b]]> (bufs fl); next_id := next_id fl |}.

(** ** Shapes *)

Definition tensorSize (shape : list Z) : Z := if len shape =? 0 then 1 else product shape.

Definition Size (t : Tensor) : Z := tensorSize (Shape t).
Definition Dims (t : Tensor) : Z := len (Shape t).

(** [strides[n-1] = 1; strides[i] = strides[i+1] * shape[i+1]]. *)
Fixpoint strides_of (shape : list Z) : list Z :=
  match shape with
  | [] => []
  | _ :: rest =>
      match strides_of rest with
      | [] => [1]
      | s :: strides => i64 (s * hd 1 rest) :: s :: strides
      end
  end.

Definition Strides (t : Tensor) : list Z := strides_of (Shape t).

(** ** Allocation *)

(** What the values of tensors do not tell of the memory behind them: the contents a
    recycled buffer of some size still has, and whether the [Data] of a tensor without
    elements is the nil slice. *)
Class Recycled := {
  stale : Z -> list float32;
  stale_len : forall n, 0 <= n -> len (stale n) = n;
  nil_data : Tensor -> bool
}.

Definition zeros (n : Z) : list float32 := replicate (Z.to_nat n) fzero.

(** [NewTensor(shape, nil)]: [getTensorData] zeroes what it returns. *)
Definition NewTensor (shape : list Z) : Tensor :=
  {| Data := if tensorSize shape <=? 0 then [] else zeros (tensorSize shape); Shape := shape |}.

(** [NewTensor(shape, data)] for a [data] that is not nil, and a [Tensor] literal. *)
Definition TensorOf (shape : list Z) (data : list float32) : Tensor := {| Data := data; Shape := shape |}.

Definition newTensorUninit `{!Recycled} (shape : list Z) : Tensor :=
  {| Data := if tensorSize shape <=? 0 then [] else stale (tensorSize shape); Shape := shape |}.

Definition ScalarTensor (v : float32) : Tensor := TensorOf [] [v].

(** A tensor with its data written. *)
Definition with_data (t : Tensor) (data : list float32) : Tensor := {| Data := data; Shape := Shape t |}.

Definition Clone (t : Tensor) : Tensor := TensorOf (Shape t) (Data t).

(** ** Reshape *)

Inductive op_error :=
| MultipleInferred
| ZeroDimension (index : Z)
| ZeroProduct
| IncompatibleSize (shape : list Z) (size : Z)
| IncompatibleShapes (a b : list Z)
| OpError (what : string).

(** The first loop of [resolveShape]: the index to infer and the product of the others. *)
Definition shape_scan (shape : list Z) : result op_error (option Z * Z) :=
  foldl (fun (acc : result op_error (option Z * Z)) '(i, d) =>
    let? (inferIdx, product) := acc in
    if d =? -1 then
      (if inferIdx then Err MultipleInferred else Ok (Some (Z.of_nat i), product))
    else if d =? 0 then Err (ZeroDimension (Z.of_nat i))
    else Ok (inferIdx, i64 (product * d)))
  (Ok (None, 1)) (imap pair shape).

(** Go's [/] on [int64]: the most negative number divided by -1 wraps. *)
Definition div64 (a b : Z) : Z := i64 (Z.quot a b).

Definition resolveShape (shape : list Z) (totalSize : Z) : result op_error (list Z) :=
  let? (inferIdx, product) := shape_scan shape in
  match inferIdx with
  | Some i =>
      if product =? 0 then Err ZeroProduct else
      let q := div64 totalSize product in
      let out := <[Z.to_nat i := q]> shape in
      if i64 (product * q) =? totalSize then Ok out else Err (IncompatibleSize out totalSize)
  | None => if product =? totalSize then Ok shape else Err (IncompatibleSize shape totalSize)
  end.

Definition Reshape (t : Tensor) (shape : list Z) : result op_error Tensor :=
  let? resolved := resolveShape shape (len (Data t)) in Ok (TensorOf resolved (Data t)).

(** ** Broadcasting *)

(** Dimension [i] of a shape aligned to the right among [maxDims]. *)
Definition aligned (shape : list Z) (maxDims i : Z) : Z :=
  default 1 (get shape (len shape - maxDims + i)).

Definition broadcastShapes (a b : list Z) : result op_error (list Z) :=
  let maxDims := Z.max (len a) (len b) in
  foldl (fun (acc : result op_error (list Z)) i =>
    let? dims := acc in
    let da := aligned a maxDims i in
    let db := aligned b maxDims i in
    if da =? db then Ok (dims ++ [da])
    else if da =? 1 then Ok (dims ++ [db])
    else if db =? 1 then Ok (dims ++ [da])
    else Err (IncompatibleShapes a b))
  (Ok []) (range 0 maxDims).

(** Go's [/] and [%] together; division by zero panics. *)
Definition divmod (a b : Z) : option (Z * Z) :=
  if b =? 0 then None else Some (div64 a b, Z.rem a b).

(** The loop runs from the last dimension to the first. *)
Definition broadcastIndex (flatIdx : Z) (outShape inShape : list Z) : option Z :=
  let n := len outShape in
  let offset := n - len inShape in
  '(_, idx, _) ← for_range 0 n (fun k '(flat, idx, stride) =>
      let i := n - 1 - k in
      dimSize ← get outShape i;
      '(flat, coord) ← divmod flat dimSize;
      if 0 <=? i - offset then
        inDim ← get inShape (i - offset);
        let coord := if inDim =? 1 then 0 else coord in
        Some (flat, i64 (idx + i64 (coord * stride)), i64 (stride * inDim))
      else Some (flat, idx, stride))
    (flatIdx, 0, 1);
  Some idx.

(** ** Transposition *)

(** The loop that takes a flat index apart along [strides] and adds up a term for each
    coordinate; [Transpose], [opSlice], [opPad] and [opReduceMean] each have their own. *)
Definition walk (strides : list Z) (term : Z -> Z -> option Z) (i : Z) : option Z :=
  '(_, acc) ← for_range 0 (len strides) (fun d '(rem, acc) =>
      stride ← get strides d;
      '(coord, rem) ← divmod rem stride;
      t ← term d coord;
      Some (rem, i64 (acc + t)))
    (i, 0);
  Some acc.

Definition Transpose `{!Recycled} (t : Tensor) (perm : list Z) : option (Tensor * Origin) :=
  if negb (len perm =? Dims t) then Some (Clone t, Made) else
  newShape ← mapM (get (Shape t)) perm;
  let oldStrides := Strides t in
  let result := newTensorUninit newShape in
  let newStrides := strides_of newShape in
  data ← fill_each (tensorSize newShape) (fun i =>
      oldIdx ← walk newStrides (fun d coord => p ← get perm d; s ← get oldStrides p; Some (i64 (coord * s))) i;
      get (Data t) oldIdx)
    (Data result);
  Some (with_data result data, Pooled).

Definition Fill (t : Tensor) (v : float32) : Tensor := with_data t (replicate (length (Data t)) v).

(** [Max]: minus infinity for no data. *)
Definition Max (t : Tensor) : float32 :=
  match Data t with
  | [] => S754_infinity true
  | m :: rest => foldl (fun m v => if fgt v m then v else m) m rest
  end.
