(* ===== verification/OnnxShapeOps.v ===== *)
(** Attributes and the operators that move data without computing
    ([detect/onnxruntime/ops.go], [ops_shape.go], [ops_constant.go]).

    An operator takes its inputs, nil for the ones a node leaves out, and answers with
    tensors or an error; [None] is a run-time panic.  Offsets into a buffer, which lie
    within a slice in memory, are not wrapped; products of dimensions are. *)

From Stdlib Require Import SpecFloat.
From S2P Require Import Prelude Float64 GoSlices OnnxModel OnnxTensor.

#[local] Open Scope list_scope.

Record Attributes := {
  Ints : gmap string Z;
  Floats : gmap string float32;
  Strings : gmap string string;
  IntLists : gmap string (list Z);
  FloatLists : gmap string (list float32);
  Tensors : gmap string Tensor
}.

Definition NewAttributes : Attributes := Build_Attributes ∅ ∅ ∅ ∅ ∅ ∅.

Definition GetInt (a : Attributes) (name : string) (dflt : Z) : Z := default dflt (Ints a !! name).
(** The lists of a parsed attribute are nil when they are empty. *)
Definition GetIntList (a : Attributes) (name : string) : option (list Z) :=
  match IntLists a !! name with Some (v :: vs) => Some (v :: vs) | _ => None end.
Definition GetFloat (a : Attributes) (name : string) (dflt : float32) : float32 := default dflt (Floats a !! name).
Definition GetString (a : Attributes) (name dflt : string) : string := default dflt (Strings a !! name).
Definition GetTensor (a : Attributes) (name : string) : option Tensor := Tensors a !! name.

(** What an operator answers, and an operator. *)
Abbreviation op_result := (option (result op_error (list (Tensor * Origin)))).
Abbreviation OpFunc := (list (option Tensor) -> Attributes -> op_result).

Definition op_fail (what : string) : op_result := Some (Err (OpError what)).
Definition op_ok (ts : list (Tensor * Origin)) : op_result := Some (Ok ts).

(** A new tensor from the free lists, one under a made array, one that shares the array of
    the first input. *)
Definition op_new (t : Tensor) : op_result := op_ok [(t, Pooled)].
Definition op_made (t : Tensor) : op_result := op_ok [(t, Made)].
Definition op_view (t : Tensor) : op_result := op_ok [(t, View)].

(** [inputs[i]], which the code goes on to read: nil panics like a missing one. *)
Definition input (inputs : list (option Tensor)) (i : Z) : option Tensor := mjoin (get inputs i).

(** [len(inputs) > i && inputs[i] != nil && len(inputs[i].Data) > 0]. *)
Definition optional_input (inputs : list (option Tensor)) (i : Z) : option Tensor :=
  t ← input inputs i; if 0 <? len (Data t) then Some t else None.

(** [int64(v)] of a [float32]; out of range, the answer of amd64. *)
Definition to_int64 (v : float32) : Z := default min_int64 (f64_trunc v).

Definition toInt64Slice (data : list float32) : list Z := map to_int64 data.

Definition clampInt64 (v lo hi : Z) : Z := if v <? lo then lo else if hi <? v then hi else v.

(** [for d := lo; d < hi; d++ { n *= shape[d] }] from [n = 1]. *)
Definition dims_product (shape : list Z) (lo hi : Z) : option Z :=
  for_range lo hi (fun d n => s ← get shape d; Some (i64 (n * s))) 1.

(** A negative axis counts from the end. *)
Definition from_end (axis ndim : Z) : Z := if axis <? 0 then axis + ndim else axis.

(** ** Reshape and Transpose *)

Definition opReshape : OpFunc := fun inputs _ =>
  if len inputs <? 2 then op_fail "reshape: need 2 inputs" else
  data ← input inputs 0;
  shapeTensor ← input inputs 1;
  let newShape := imap (fun i d => if d =? 0 then default d (Shape data !! i) else d) (toInt64Slice (Data shapeTensor)) in
  match Reshape data newShape with
  | Err e => Some (Err e)
  | Ok out => op_view out
  end.

Definition opTranspose `{!Recycled} : OpFunc := fun inputs attrs =>
  if len inputs <? 1 then op_fail "transpose: need 1 input" else
  t ← input inputs 0;
  let ndim := Dims t in
  let perm := default ((fun i => ndim - 1 - i) <$> range 0 ndim) (GetIntList attrs "perm") in
  out ← Transpose t perm;
  op_ok [out].

(** ** Concat *)

(** The output shape: the dimensions of the first input, the one of the axis added up. *)
Definition concat_shape (axis ndim : Z) (inp : Tensor) (outShape : list Z) : option (result op_error (list Z)) :=
  for_range 0 ndim (fun d acc =>
      match acc with
      | Err e => Some (Err e)
      | Ok outShape =>
          s ← get (Shape inp) d;
          o ← get outShape d;
          if d =? axis then outShape ← set outShape d (i64 (o + s)); Some (Ok outShape)
          else if negb (s =? o) then Some (Err (OpError "concat: shape mismatch"))
          else Some (Ok outShape)
      end)
    (Ok outShape).

Definition concat_shapes (axis ndim : Z) (rest : list (option Tensor)) (first : list Z) : option (result op_error (list Z)) :=
  for_each rest (fun inp acc =>
      match acc with Err e => Some (Err e) | Ok outShape => inp ← inp; concat_shape axis ndim inp outShape end)
    (Ok first).

(** The blocks of one outer position, one input after the other. *)
Definition concat_blocks (axis innerSize outAxisSize outer : Z) (inputs : list Tensor) (out : list float32) : option (list float32) :=
  '(out, _) ← for_each inputs (fun inp '(out, axisOffset) =>
      inpAxisSize ← get (Shape inp) axis;
      let blockSize := inpAxisSize * innerSize in
      let srcBase := outer * blockSize in
      let dstBase := outer * outAxisSize * innerSize + axisOffset * innerSize in
      out ← copy_block out dstBase (Data inp) srcBase blockSize;
      Some (out, axisOffset + inpAxisSize))
    (out, 0);
  Some out.

Definition opConcat `{!Recycled} : OpFunc := fun inputs attrs =>
  if len inputs =? 0 then op_fail "concat: need at least 1 input" else
  first ← input inputs 0;
  let ndim := Dims first in
  let axis := from_end (GetInt attrs "axis" 0) ndim in
  if (axis <? 0) || (ndim <=? axis) then op_fail "concat: axis out of range" else
  shape ← concat_shapes axis ndim (tail inputs) (Shape first);
  match shape with
  | Err e => Some (Err e)
  | Ok outShape =>
      inputs ← mapM (fun t : option Tensor => t) inputs;
      let out := newTensorUninit outShape in
      outerSize ← dims_product outShape 0 axis;
      innerSize ← dims_product outShape (axis + 1) ndim;
      outAxisSize ← get outShape axis;
      data ← for_range 0 outerSize (fun outer data => concat_blocks axis innerSize outAxisSize outer inputs data) (Data out);
      op_new (with_data out data)
  end.

(** ** Slice *)

(** The bounds of slice [i], clamped to the dimension. *)
Definition slice_bounds (s e st dimSize : Z) : Z * Z :=
  let s := if s <? 0 then i64 (s + dimSize) else s in
  let e := if e <? 0 then i64 (e + dimSize) else e in
  if 0 <? st then (clampInt64 s 0 dimSize, clampInt64 e 0 dimSize)
  else (clampInt64 s 0 (dimSize - 1), clampInt64 e (-1) dimSize).

(** The number of steps from [start] to [stop]. *)
Definition slice_length (start stop step : Z) : option Z :=
  n ← (if 0 <? step then fst <$> divmod (i64 (stop - start + step - 1)) step
       else fst <$> divmod (i64 (start - stop - step - 1)) (i64 (- step)));
  Some (if n <? 0 then 0 else n).

Definition opSlice : OpFunc := fun inputs _ =>
  if len inputs <? 3 then op_fail "slice: need at least 3 inputs" else
  data ← input inputs 0;
  startsT ← input inputs 1;
  endsT ← input inputs 2;
  let ndim := Dims data in
  let starts := toInt64Slice (Data startsT) in
  let ends := toInt64Slice (Data endsT) in
  let nSlices := len starts in
  let axes := match optional_input inputs 3 with Some t => toInt64Slice (Data t) | None => range 0 nSlices end in
  let steps := match optional_input inputs 4 with Some t => toInt64Slice (Data t) | None => replicate (Z.to_nat nSlices) 1 end in
  '(dimStart, dimEnd, dimStep) ← for_range 0 nSlices (fun i '(dimStart, dimEnd, dimStep) =>
      a ← get axes i;
      let ax := from_end a ndim in
      s ← get starts i;
      e ← get ends i;
      st ← get steps i;
      dimSize ← get (Shape data) ax;
      let '(s, e) := slice_bounds s e st dimSize in
      dimStart ← set dimStart ax s;
      dimEnd ← set dimEnd ax e;
      dimStep ← set dimStep ax st;
      Some (dimStart, dimEnd, dimStep))
    (replicate (length (Shape data)) 0, Shape data, replicate (length (Shape data)) 1);
  outShape ← mapM (fun d =>
      s ← get dimStart d; e ← get dimEnd d; st ← get dimStep d; slice_length s e st) (range 0 ndim);
  let out := NewTensor outShape in
  if Size out =? 0 then op_new out else
  let inStrides := Strides data in
  let outStrides := Strides out in
  result ← fill_each (Size out) (fun i =>
      inIdx ← walk outStrides (fun d coord =>
          s ← get dimStart d; st ← get dimStep d; stride ← get inStrides d;
          Some (i64 ((s + coord * st) * stride))) i;
      get (Data data) inIdx)
    (Data out);
  op_new (with_data out result).

(** ** Split *)

(** The sizes of an equal split: the first ones take the remainder. *)
Definition equal_splits (dimSize numOutputs : Z) : option (list Z) :=
  '(base, remainder) ← divmod dimSize numOutputs;
  if numOutputs <? 0 then None
  else Some ((fun i => base + (if i <? remainder then 1 else 0)) <$> range 0 numOutputs).

Definition opSplit : OpFunc := fun inputs attrs =>
  if len inputs <? 1 then op_fail "split: need at least 1 input" else
  data ← input inputs 0;
  let ndim := Dims data in
  let axis := from_end (GetInt attrs "axis" 0) ndim in
  dimSize ← get (Shape data) axis;
  splits ← match optional_input inputs 1, GetIntList attrs "split" with
           | Some t, _ => Some (toInt64Slice (Data t))
           | None, Some sl => Some sl
           | None, None => equal_splits dimSize (GetInt attrs "num_outputs" dimSize)
           end;
  outerSize ← dims_product (Shape data) 0 axis;
  innerSize ← dims_product (Shape data) (axis + 1) ndim;
  '(results, _) ← for_each splits (fun ss '(results, axisOffset) =>
      outShape ← set (Shape data) axis ss;
      let out := NewTensor outShape in
      let blockSize := ss * innerSize in
      buf ← for_range 0 outerSize (fun outer buf =>
          let srcBase := outer * dimSize * innerSize + axisOffset * innerSize in
          copy_block buf (outer * blockSize) (Data data) srcBase blockSize)
        (Data out);
      Some (results ++ [(with_data out buf, Pooled)], axisOffset + ss))
    ([], 0);
  op_ok results.

(** ** Shape and Gather *)

Definition opShape : OpFunc := fun inputs _ =>
  if len inputs <? 1 then op_fail "shape: need 1 input" else
  t ← input inputs 0;
  op_made (TensorOf [Dims t] (map f32_of_Z (Shape t))).

Definition opGather : OpFunc := fun inputs attrs =>
  if len inputs <? 2 then op_fail "gather: need 2 inputs" else
  data ← input inputs 0;
  indices ← input inputs 1;
  let ndim := Dims data in
  let axis := from_end (GetInt attrs "axis" 0) ndim in
  before ← subslice (Shape data) 0 axis;
  after ← subslice (Shape data) (axis + 1) ndim;
  let outShape := before ++ Shape indices ++ after in
  let out := NewTensor outShape in
  axisStride ← get (Strides data) axis;
  axisSize ← get (Shape data) axis;
  sliceSize ← dims_product (Shape data) (axis + 1) ndim;
  outerSize ← dims_product (Shape data) 0 axis;
  let numIndices := if len (Data indices) =? 0 then 1 else len (Data indices) in
  '(result, _) ← for_range 0 outerSize (fun outer =>
      for_range 0 numIndices (fun ii st =>
          v ← get (Data indices) ii;
          let idx := from_end (to_int64 v) axisSize in
          let srcBase := outer * axisStride * axisSize + idx * axisStride in
          for_range 0 sliceSize (fun s st => x ← get (Data data) (srcBase + s); emit x st) st))
    (Data out, 0);
  op_new (with_data out result).

(** ** Squeeze, Unsqueeze and Flatten *)

Definition opSqueeze : OpFunc := fun inputs attrs =>
  if len inputs <? 1 then op_fail "squeeze: need at least 1 input" else
  data ← input inputs 0;
  let ndim := Dims data in
  let attrAxes := default [] (GetIntList attrs "axes") in
  axes ← match optional_input inputs 1 with
         | Some t => Some ((fun v => from_end (to_int64 v) ndim) <$> Data t)
         | None =>
             if 0 <? len attrAxes then Some ((fun v => from_end v ndim) <$> attrAxes)
             else Some (filter (fun d => get (Shape data) d = Some 1) (range 0 ndim))
         end;
  newShape ← mapM (get (Shape data)) (filter (fun d => d ∉ (axes : list Z)) (range 0 ndim));
  op_view (TensorOf newShape (Data data)).

(** The loop that fills [newShape]: a 1 at each of the sorted axes. *)
Definition unsqueeze_shape (shape axes : list Z) (outRank : Z) : option (list Z) :=
  '(newShape, _, _) ← for_range 0 outRank (fun i '(newShape, di, axIdx) =>
      if bool_decide (get axes axIdx = Some i) then Some (newShape ++ [1], di, axIdx + 1)
      else d ← get shape di; Some (newShape ++ [d], di + 1, axIdx))
    ([], 0, 0);
  Some newShape.

Definition opUnsqueeze : OpFunc := fun inputs attrs =>
  if len inputs <? 1 then op_fail "unsqueeze: need at least 1 input" else
  data ← input inputs 0;
  axes ← (if 2 <=? len inputs then t ← input inputs 1; Some (toInt64Slice (Data t))
          else Some (default [] (GetIntList attrs "axes")));
  let outRank := Dims data + len axes in
  newShape ← unsqueeze_shape (Shape data) (merge_sort Z.le ((fun ax => from_end ax outRank) <$> axes)) outRank;
  op_view (TensorOf newShape (Data data)).

Definition opFlatten : OpFunc := fun inputs attrs =>
  if len inputs <? 1 then op_fail "flatten: need 1 input" else
  data ← input inputs 0;
  let ndim := Dims data in
  let axis := from_end (GetInt attrs "axis" 1) ndim in
  dim0 ← dims_product (Shape data) 0 axis;
  dim1 ← dims_product (Shape data) axis ndim;
  op_view (TensorOf [dim0; dim1] (Data data)).

(** ** Pad *)

Definition opPad : OpFunc := fun inputs attrs =>
  if len inputs <? 2 then op_fail "pad: need at least 2 inputs" else
  data ← input inputs 0;
  padsTensor ← input inputs 1;
  let ndim := Dims data in
  let constVal := match optional_input inputs 2 with Some t => default fzero (head (Data t)) | None => fzero end in
  if negb (String.eqb (GetString attrs "mode" "constant") "constant") then op_fail "pad: only 'constant' mode supported" else
  let pads := toInt64Slice (Data padsTensor) in
  if negb (len pads =? 2 * ndim) then op_fail "pad: pads length" else
  outShape ← mapM (fun d => s ← get (Shape data) d; p ← get pads d; q ← get pads (ndim + d); Some (i64 (s + p + q))) (range 0 ndim);
  let out := NewTensor outShape in
  let out := if negb (feq constVal fzero) then Fill out constVal else out in
  let inStrides := Strides data in
  let outStrides := Strides out in
  result ← for_range 0 (Size data) (fun i buf =>
      outIdx ← walk inStrides (fun d coord => p ← get pads d; s ← get outStrides d; Some (i64 ((coord + p) * s))) i;
      v ← get (Data data) i;
      set buf outIdx v)
    (Data out);
  op_new (with_data out result).

(** ** Constant *)

Definition opConstant : OpFunc := fun _ attrs =>
  match GetTensor attrs "value", Floats attrs !! "value_float"%string, Ints attrs !! "value_int"%string,
        FloatLists attrs !! "value_floats"%string, IntLists attrs !! "value_ints"%string with
  | Some t, _, _, _, _ => op_made (Clone t)
  | None, Some v, _, _, _ => op_made (ScalarTensor v)
  | None, None, Some v, _, _ => op_made (ScalarTensor (f32_of_Z v))
  | None, None, None, Some v, _ => op_new (with_data (NewTensor [len v]) v)
  | None, None, None, None, Some v => op_made (TensorOf [len v] (map f32_of_Z v))
  | None, None, None, None, None => op_fail "constant: no value attribute found"
  end.
