(* ===== verification/OnnxMathOps.v ===== *)
(** The operators that compute ([detect/onnxruntime/ops_math.go], [blas.go], [blas_generic.go],
    [ops_activation.go], [ops_norm.go]).

    A sum of a product, [x*y + z], is rounded once on the architectures where the
    compiler fuses it and twice elsewhere: it is an operation of the [Machine], and so is
    [math.Exp], which is assembly on some of them. *)

From Stdlib Require Import SpecFloat.
From S2P Require Import Prelude Float64 GoSlices OnnxModel OnnxTensor OnnxShapeOps.

#[local] Open Scope list_scope.

Class Machine := {
  (** [x*y + z]. *)
  mul_add : float32 -> float32 -> float32 -> float32;
  Exp : float64 -> float64
}.

(** A product rounded before it is added. *)
Definition mul_add_rounded (x y z : float32) : float32 := add32 z (mul32 x y).

Definition f32_one : float32 := f32_of_Z 1.

(** ** Element-wise operators *)

Definition shapesEqual (a b : list Z) : bool := bool_decide (a = b).

(** [N,C,H,W] against [C,1,1] or [1,C,1,1]: the size of a channel and their number. *)
Definition isPerChannelBroadcast (big small : list Z) : option (Z * Z) :=
  match big with
  | [_; channels; h; w] =>
      c ← match small with
          | [c; s1; s2] => if negb (s1 =? 1) || negb (s2 =? 1) then None else Some c
          | [s0; c; s2; s3] => if negb (s0 =? 1) || negb (s2 =? 1) || negb (s3 =? 1) then None else Some c
          | _ => None
          end;
      if negb (c =? channels) then None else Some (i64 (h * w), c)
  | _ => None
  end.

(** The loops of the per-channel paths: [f c] is what channel [c] does to its elements. *)
Definition per_channel (n channels spatialSize : Z) (src : list float32) (f : Z -> option (float32 -> float32))
    (buf : list float32) : option (list float32) :=
  '(buf, _) ← for_range 0 n (fun ni =>
      for_range 0 channels (fun c st =>
        g ← f c;
        for_range 0 spatialSize (fun s '(buf, idx) => v ← get src idx; emit (g v) (buf, idx)) st))
    (buf, 0);
  Some buf.

(** The generic fallback using [broadcastIndex]. *)
Definition broadcast_data (outShape aShape bShape : list Z) (aData bData : list float32)
    (op : float32 -> float32 -> float32) (buf : list float32) : option (list float32) :=
  fill_each (tensorSize outShape) (fun i =>
      ai ← broadcastIndex i outShape aShape;
      bi ← broadcastIndex i outShape bShape;
      x ← get aData ai; y ← get bData bi;
      Some (op x y)) buf.

Definition binaryOpSlow (a b : Tensor) (op : float32 -> float32 -> float32) : op_result :=
  match broadcastShapes (Shape a) (Shape b) with
  | Err e => Some (Err e)
  | Ok outShape =>
      let out := NewTensor outShape in
      data ← broadcast_data outShape (Shape a) (Shape b) (Data a) (Data b) op (Data out);
      op_new (with_data out data)
  end.

Section Ops.
Context {Rec : Recycled} {Mach : Machine}.

(** The path of equal shapes, one pass over the output. *)
Definition same_shape (a b : Tensor) (op : float32 -> float32 -> float32) : op_result :=
  let out := newTensorUninit (Shape a) in
  data ← fill_each (len (Data out)) (fun i => x ← get (Data a) i; y ← get (Data b) i; Some (op x y)) (Data out);
  op_new (with_data out data).

(** [opAdd] and [opMul]: equal shapes, a scalar, a value per channel, or the fallback. *)
Definition binary_fast (op : float32 -> float32 -> float32) : OpFunc := fun inputs _ =>
  if len inputs <? 2 then op_fail "binary op requires 2 inputs" else
  a ← input inputs 0;
  b ← input inputs 1;
  if shapesEqual (Shape a) (Shape b) then same_shape a b op
  else if (len (Shape b) =? 0) || (len (Data b) =? 1) then
    bv ← get (Data b) 0;
    let out := newTensorUninit (Shape a) in
    data ← fill_each (len (Data out)) (fun i => x ← get (Data a) i; Some (op x bv)) (Data out);
    op_new (with_data out data)
  else match isPerChannelBroadcast (Shape a) (Shape b) with
  | Some (spatialSize, channels) =>
      let out := newTensorUninit (Shape a) in
      n ← get (Shape a) 0;
      data ← per_channel n channels spatialSize (Data a) (fun c => bv ← get (Data b) c; Some (fun x => op x bv)) (Data out);
      op_new (with_data out data)
  | None => binaryOpSlow a b op
  end.

(** [opSub] and [opDiv]. *)
Definition binary_plain (op : float32 -> float32 -> float32) : OpFunc := fun inputs _ =>
  if len inputs <? 2 then op_fail "binary op requires 2 inputs" else
  a ← input inputs 0;
  b ← input inputs 1;
  if shapesEqual (Shape a) (Shape b) then same_shape a b op else binaryOpSlow a b op.

Definition opAdd : OpFunc := binary_fast add32.
Definition opSub : OpFunc := binary_plain sub32.
Definition opMul : OpFunc := binary_fast mul32.
Definition opDiv : OpFunc := binary_plain div32.

(** ** Matrix products *)

(** One step of the inner loop: [c[i*n+j] += aip * b[p*n+j]]. *)
Definition mac_step (b : list float32) (aip : float32) (n i p j : Z) (c : list float32) : option (list float32) :=
  v ← get c (i * n + j);
  y ← get b (p * n + j);
  set c (i * n + j) (mul_add aip y v).

Definition tileSize : Z := 64.

(** [sgemmPureGo]: the six loops over tiles and inside them. *)
Definition sgemmPureGo (a b c : list float32) (m n k : Z) : option (list float32) :=
  c ← in_slice c 0 (m * n) (fun dst => Some (zeros (len dst)));
  for_step 0 m tileSize (fun ii =>
    let iEnd := Z.min (ii + tileSize) m in
    for_step 0 k tileSize (fun kk =>
      let kEnd := Z.min (kk + tileSize) k in
      for_step 0 n tileSize (fun jj =>
        let jEnd := Z.min (jj + tileSize) n in
        for_range ii iEnd (fun i =>
          for_range kk kEnd (fun p c =>
            aip ← get a (i * k + p);
            for_range jj jEnd (fun j => mac_step b aip n i p j) c))))) c.

(** [sgemm]: the buffer from [getGemmBuffer] is zeroed. *)
Definition Sgemm (a b : list float32) (m n k : Z) : option (list float32) :=
  if m * n <? 0 then None else
  let c := zeros (m * n) in
  if (m =? 0) || (n =? 0) || (k =? 0) then Some c else sgemmPureGo a b c m n k.

Definition SgemmInto (a b c : list float32) (m n k : Z) : option (list float32) :=
  if (m =? 0) || (n =? 0) || (k =? 0) then in_slice c 0 (m * n) (fun dst => Some (zeros (len dst)))
  else sgemmPureGo a b c m n k.

(** The rows of [src] as columns. *)
Definition transposeMatrix2D (src : list float32) (rows cols : Z) : option (list float32) :=
  if rows * cols <? 0 then None else
  for_range 0 rows (fun i =>
    for_range 0 cols (fun j dst => v ← get src (i * cols + j); set dst (j * rows + i) v)) (zeros (rows * cols)).

(** The bias of a [Gemm]: a row, a matrix or a scalar. *)
Definition gemm_bias (beta : float32) (c : Tensor) (m n : Z) (res : list float32) : option (result op_error (list float32)) :=
  if bool_decide (Shape c = [n]) then
    r ← for_range 0 m (fun i =>
        for_range 0 n (fun j res =>
          v ← get res (i * n + j); x ← get (Data c) j; set res (i * n + j) (mul_add beta x v))) res;
    Some (Ok r)
  else if bool_decide (Shape c = [m; n]) then
    r ← fill_each (len res) (fun i => v ← get res i; x ← get (Data c) i; Some (mul_add beta x v)) res;
    Some (Ok r)
  else if (len (Shape c) =? 0) || (len (Data c) =? 1) then
    x ← get (Data c) 0;
    Some (Ok (map (mul_add beta x) res))
  else Some (Err (OpError "gemm: unsupported bias shape")).

Definition opGemm : OpFunc := fun inputs attrs =>
  if len inputs <? 2 then op_fail "gemm requires at least 2 inputs" else
  a ← input inputs 0;
  b ← input inputs 1;
  match Shape a, Shape b with
  | [aRows; aCols], [bRows; bCols] =>
      let alpha := GetFloat attrs "alpha" f32_one in
      let beta := GetFloat attrs "beta" f32_one in
      let transA := negb (GetInt attrs "transA" 0 =? 0) in
      let transB := negb (GetInt attrs "transB" 0 =? 0) in
      let '(m, k) := if transA then (aCols, aRows) else (aRows, aCols) in
      let '(k2, n) := if transB then (bCols, bRows) else (bRows, bCols) in
      if negb (k =? k2) then op_fail "gemm: inner dimensions mismatch" else
      aData ← (if transA then transposeMatrix2D (Data a) aRows aCols else Some (Data a));
      bData ← (if transB then transposeMatrix2D (Data b) bRows bCols else Some (Data b));
      result ← Sgemm aData bData m n k;
      let result := if negb (feq alpha f32_one) then map (fun v => mul32 v alpha) result else result in
      result ← match input inputs 2 with
               | Some c => if negb (feq beta fzero) then gemm_bias beta c m n result else Some (Ok result)
               | None => Some (Ok result)
               end;
      match result with
      | Err e => Some (Err e)
      | Ok result => let out := NewTensor [m; n] in op_new (with_data out (copy_over (Data out) result))
      end
  | _, _ => op_fail "gemm requires 2D inputs"
  end.

Definition opMatMul : OpFunc := fun inputs _ =>
  if len inputs <? 2 then op_fail "matMul requires 2 inputs" else
  a ← input inputs 0;
  b ← input inputs 1;
  if (Dims a <? 2) || (Dims b <? 2) then op_fail "matMul requires at least 2D inputs" else
  m ← get (Shape a) (Dims a - 2);
  k ← get (Shape a) (Dims a - 1);
  k2 ← get (Shape b) (Dims b - 2);
  n ← get (Shape b) (Dims b - 1);
  if negb (k2 =? k) then op_fail "matMul: inner dimensions mismatch" else
  aBatch ← subslice (Shape a) 0 (Dims a - 2);
  bBatch ← subslice (Shape b) 0 (Dims b - 2);
  match broadcastShapes aBatch bBatch with
  | Err e => Some (Err e)
  | Ok batchShape =>
      let aMatSize := m * k in
      let bMatSize := k * n in
      let outMatSize := m * n in
      let out := NewTensor (batchShape ++ [m; n]) in
      data ← for_range 0 (tensorSize batchShape) (fun batch data =>
          ai ← broadcastIndex batch batchShape aBatch;
          bi ← broadcastIndex batch batchShape bBatch;
          aMat ← subslice (Data a) (ai * aMatSize) (ai * aMatSize + aMatSize);
          bMat ← subslice (Data b) (bi * bMatSize) (bi * bMatSize + bMatSize);
          result ← Sgemm aMat bMat m n k;
          in_slice data (batch * outMatSize) (batch * outMatSize + outMatSize) (fun dst => Some (copy_over dst result)))
        (Data out);
      op_new (with_data out data)
  end.

(** ** Means over axes *)

Definition opReduceMean : OpFunc := fun inputs attrs =>
  if len inputs <? 1 then op_fail "reducemean: need at least 1 input" else
  match input inputs 0 with
  | None => op_fail "reducemean: need at least 1 input"
  | Some data =>
      let ndim := Dims data in
      let axes := match optional_input inputs 1, GetIntList attrs "axes" with
                  | Some t, _ => (fun v => from_end (to_int64 v) ndim) <$> Data t
                  | None, Some axes => (fun v => from_end v ndim) <$> axes
                  | None, None => range 0 ndim
                  end in
      let reduced (d : Z) := bool_decide (d ∈ axes) in
      let keepdims := negb (GetInt attrs "keepdims" 1 =? 0) in
      let outShape := mjoin (imap (fun d s =>
          if reduced (Z.of_nat d) then (if keepdims then [1] else []) else [s]) (Shape data)) in
      let outShape := match outShape with [] => [1] | _ => outShape end in
      let outSize := product outShape in
      if outSize <? 0 then None else
      if ndim =? 0 then None else
      let strides := strides_of (Shape data) in
      '(outStrides, _) ← for_range 0 ndim (fun k '(outStrides, outDim) =>
          let d := ndim - 1 - k in
          if reduced d then Some (0 :: outStrides, outDim)
          else s ← get (Shape data) d; Some (outDim :: outStrides, i64 (outDim * s)))
        ([], 1);
      '(out, counts) ← for_range 0 (len (Data data)) (fun i '(out, counts) =>
          outIdx ← walk strides (fun d coord => s ← get outStrides d; Some (i64 (coord * s))) i;
          o ← get out outIdx; v ← get (Data data) i; c ← get counts outIdx;
          out ← set out outIdx (add32 o v);
          counts ← set counts outIdx (add32 c f32_one);
          Some (out, counts))
        (zeros outSize, zeros outSize);
      op_made (TensorOf outShape (zip_with (fun o c => if fgt c fzero then div32 o c else o) out counts))
  end.

(** ** Activations *)

Definition sigmoidLUTSize : Z := 4096.
Definition sigmoidLUTMin : float32 := f32_of_Z (-8).
Definition sigmoidLUTMax : float32 := f32_of_Z 8.
Definition sigmoidLUTScale : float32 := f32_of_Z 256.

(** [float32(1 / (1 + math.Exp(-x)))]. *)
Definition sigmoid64 (x : float64) : float32 :=
  narrow (fdiv (f64_of_Z 1) (fadd (f64_of_Z 1) (Exp (SFopp x)))).

(** The table, over [-8, 8]. *)
Definition sigmoidLUT (i : Z) : option float32 :=
  if (0 <=? i) && (i <=? sigmoidLUTSize) then
    Some (sigmoid64 (fadd (f64_of_Z (-8)) (fmul (fdiv (f64_of_Z i) (f64_of_Z 4096)) (f64_of_Z 16))))
  else None.

Definition fastSigmoid (x : float32) : option float32 :=
  if is_nan x then Some x
  else if fle x sigmoidLUTMin || fge x sigmoidLUTMax then Some (sigmoid64 (widen x))
  else
    let pos := mul32 (sub32 x sigmoidLUTMin) sigmoidLUTScale in
    let idx := to_int64 pos in
    if sigmoidLUTSize <=? idx then sigmoidLUT sigmoidLUTSize
    else
      let frac := sub32 pos (f32_of_Z idx) in
      lo ← sigmoidLUT idx;
      hi ← sigmoidLUT (idx + 1);
      Some (mul_add frac (sub32 hi lo) lo).

(** [for i, v := range x.Data { out.Data[i] = f(v) }] into a new tensor. *)
Definition map_tensor (x : Tensor) (f : float32 -> option float32) : op_result :=
  let out := newTensorUninit (Shape x) in
  data ← fill_each (len (Data x)) (fun i => v ← get (Data x) i; f v) (Data out);
  op_new (with_data out data).

Definition opSigmoid : OpFunc := fun inputs _ =>
  if len inputs <? 1 then op_fail "sigmoid requires 1 input" else
  x ← input inputs 0;
  map_tensor x fastSigmoid.

Definition opRelu : OpFunc := fun inputs _ =>
  if len inputs <? 1 then op_fail "relu requires 1 input" else
  x ← input inputs 0;
  map_tensor x (fun v => Some (if fgt v fzero then v else fzero)).

(** [v] when it is not negative, [slope * v] otherwise. *)
Definition prelu (v slope : float32) : float32 := if fge v fzero then v else mul32 slope v.

Definition opPRelu : OpFunc := fun inputs _ =>
  if len inputs <? 2 then op_fail "prelu requires 2 inputs" else
  x ← input inputs 0;
  slope ← input inputs 1;
  let out := newTensorUninit (Shape x) in
  if shapesEqual (Shape x) (Shape slope) then
    data ← fill_each (len (Data x)) (fun i =>
        v ← get (Data x) i; if fge v fzero then Some v else s ← get (Data slope) i; Some (prelu v s)) (Data out);
    op_new (with_data out data)
  else if (len (Shape slope) =? 0) || (len (Data slope) =? 1) then
    sv ← get (Data slope) 0;
    data ← fill_each (len (Data x)) (fun i => v ← get (Data x) i; Some (prelu v sv)) (Data out);
    op_new (with_data out data)
  else match isPerChannelBroadcast (Shape x) (Shape slope) with
  | Some (spatialSize, channels) =>
      n ← get (Shape x) 0;
      data ← per_channel n channels spatialSize (Data x) (fun c => sv ← get (Data slope) c; Some (fun v => prelu v sv)) (Data out);
      op_new (with_data out data)
  | None =>
      match broadcastShapes (Shape x) (Shape slope) with
      | Err e => Some (Err e)
      | Ok outShape =>
          let out := newTensorUninit outShape in
          data ← fill_each (tensorSize outShape) (fun i =>
              xi ← broadcastIndex i outShape (Shape x);
              si ← broadcastIndex i outShape (Shape slope);
              v ← get (Data x) xi;
              if fge v fzero then Some v else s ← get (Data slope) si; Some (prelu v s)) (Data out);
          op_new (with_data out data)
      end
  end.

(** One row of a softmax: the maximum, the exponentials and their sum, the quotients. *)
Definition softmax_row (axisSize innerSize base : Z) (data : list float32) : option (list float32) :=
  maxVal ← for_range 0 axisSize (fun a maxVal =>
      v ← get data (base + a * innerSize); Some (if fgt v maxVal then v else maxVal)) (S754_infinity true);
  '(data, sum) ← for_range 0 axisSize (fun a '(data, sum) =>
      v ← get data (base + a * innerSize);
      let e := narrow (Exp (widen (sub32 v maxVal))) in
      data ← set data (base + a * innerSize) e;
      Some (data, add32 sum e)) (data, fzero);
  for_range 0 axisSize (fun a data =>
      v ← get data (base + a * innerSize); set data (base + a * innerSize) (div32 v sum)) data.

Definition opSoftmax : OpFunc := fun inputs attrs =>
  if len inputs <? 1 then op_fail "softmax requires 1 input" else
  x ← input inputs 0;
  let ndim := Dims x in
  let axis := from_end (GetInt attrs "axis" (-1)) ndim in
  if (axis <? 0) || (ndim <=? axis) then op_fail "softmax: axis out of range" else
  let out := NewTensor (Shape x) in
  axisSize ← get (Shape x) axis;
  innerSize ← dims_product (Shape x) (axis + 1) ndim;
  '(outerSize, _) ← divmod (len (Data x)) (i64 (axisSize * innerSize));
  data ← for_range 0 outerSize (fun outer =>
      for_range 0 innerSize (fun inner =>
        softmax_row axisSize innerSize (outer * axisSize * innerSize + inner))) (copy_over (Data out) (Data x));
  op_new (with_data out data).

(** ** Batch normalization *)

Definition bn_coeffs (epsilon scale bias mean variance : float32) : float32 * float32 :=
  let invStd := narrow (fdiv (f64_of_Z 1) (fsqrt (widen (add32 variance epsilon)))) in
  let coeffA := mul32 scale invStd in
  (coeffA, mul_add (SFopp mean) coeffA bias).

Definition opBatchNorm : OpFunc := fun inputs attrs =>
  if len inputs <? 5 then op_fail "BatchNormalization requires 5 inputs" else
  x ← input inputs 0;
  scale ← input inputs 1;
  bias ← input inputs 2;
  mean ← input inputs 3;
  variance ← input inputs 4;
  if Dims x <? 2 then op_fail "batchNormalization: input must be at least 2D" else
  let epsilon := GetFloat attrs "epsilon" (f32_lit 1 100000) in
  c ← get (Shape x) 1;
  if negb (len (Data scale) =? c) || negb (len (Data bias) =? c) || negb (len (Data mean) =? c) || negb (len (Data variance) =? c)
  then op_fail "batchNormalization: channel dimension mismatch" else
  let coeffs := zip_with (fun '(s, b) '(m, v) => bn_coeffs epsilon s b m v)
                  (zip (Data scale) (Data bias)) (zip (Data mean) (Data variance)) in
  let out := NewTensor (Shape x) in
  spatialSize ← dims_product (Shape x) 2 (Dims x);
  n ← get (Shape x) 0;
  data ← for_range 0 n (fun batch =>
      for_range 0 c (fun ch data =>
        let offset := (batch * c + ch) * spatialSize in
        '(a, b) ← get coeffs ch;
        for_range 0 spatialSize (fun s data =>
            v ← get (Data x) (offset + s);
            set data (offset + s) (mul_add a v b)) data)) (Data out);
  op_new (with_data out data).
End Ops.
