(* ===== verification/OnnxConv.v ===== *)
(** Convolution, pooling and resizing ([detect/onnxruntime/ops_conv.go], [ops_pool.go],
    [ops_resize.go]).

    A convolution copies the patches of its input into columns and multiplies them by the
    weights; [im2col] splits every row into a border of zeros and an interior it copies
    without tests. *)

From Stdlib Require Import SpecFloat.
From S2P Require Import Prelude Float64 GoSlices OnnxModel OnnxTensor OnnxShapeOps OnnxMathOps.

#[local] Open Scope list_scope.

(** [math.Floor] and [math.Ceil]. *)
Definition ffloor (x : float64) : float64 :=
  match x with
  | S754_finite s m e =>
      if 0 <=? e then x else
      let z := (if s then - Zpos m else Zpos m) / 2 ^ (- e) in
      if z =? 0 then S754_zero s else f64_of_Z z
  | _ => x
  end.

Definition fceil (x : float64) : float64 := SFopp (ffloor (SFopp x)).

(** [int(math.Ceil(float64(a) / float64(b)))]. *)
Definition ceil_ratio (a b : Z) : Z := to_int64 (fceil (fdiv (f64_of_Z a) (f64_of_Z b))).

(** ** Geometry *)

Record Geometry := {
  gN : Z; gC : Z; gH : Z; gW : Z;
  gM : Z; kH : Z; kW : Z;
  group : Z;
  strideH : Z; strideW : Z;
  dilH : Z; dilW : Z;
  padTop : Z; padLeft : Z; padBottom : Z; padRight : Z;
  outH : Z; outW : Z
}.

(** The first two numbers of an attribute, when it has as many. *)
Definition two_ints (attrs : Attributes) (name : string) : Z * Z :=
  match GetIntList attrs name with Some (a :: b :: _) => (a, b) | _ => (1, 1) end.

Definition four_ints (attrs : Attributes) (name : string) : Z * Z * Z * Z :=
  match GetIntList attrs name with Some (a :: b :: c :: d :: _) => (a, b, c, d) | _ => (0, 0, 0, 0) end.

(** The padding of one axis under [auto_pad]: half before and half after, the odd one
    after for [SAME_UPPER].  The sums and products of [int]s wrap; the wraps of the terms of
    one expression are one wrap of its value. *)
Definition same_pads (upper : bool) (size stride kernel dil : Z) : Z * Z :=
  let total := i64 ((ceil_ratio size stride - 1) * stride + (kernel - 1) * dil + 1 - size) in
  let total := if total <? 0 then 0 else total in
  let half := Z.quot total 2 in
  if upper then (half, total - half) else (total - half, half).

(** How far the kernel can move: [H + padTop + padBottom - ((kH-1)*dilH + 1)] as an [int]. *)
Definition kernel_room (size before after kernel dil : Z) : Z :=
  i64 (i64 (i64 (size + before) + after) - i64 (i64 (i64 (kernel - 1) * dil) + 1)).

(** The output length of one axis; a stride of zero panics. *)
Definition out_length (size before after kernel dil stride : Z) : option Z :=
  '(q, _) ← divmod (kernel_room size before after kernel dil) stride;
  Some (i64 (q + 1)).

(** What [opConv] and [opConvSiLU] read of the shapes and attributes. *)
Definition conv_geometry (x w : Tensor) (attrs : Attributes) : option (result op_error Geometry) :=
  match Shape x, Shape w with
  | [N; C; H; W], [M; _; kh; kw] =>
      '(kh, kw) ← match GetIntList attrs "kernel_shape" with
                  | None => Some (kh, kw)
                  | Some (a :: b :: _) => Some (a, b)
                  | Some _ => None
                  end;
      let grp := GetInt attrs "group" 1 in
      let '(sh, sw) := two_ints attrs "strides" in
      let '(dh, dw) := two_ints attrs "dilations" in
      let '(pt, pl, pb, pr) := four_ints attrs "pads" in
      let autoPad := GetString attrs "auto_pad" "NOTSET" in
      let upper := String.eqb autoPad "SAME_UPPER" in
      let '(pt, pl, pb, pr) :=
        if upper || String.eqb autoPad "SAME_LOWER" then
          let '(pt, pb) := same_pads upper H sh kh dh in
          let '(pl, pr) := same_pads upper W sw kw dw in
          (pt, pl, pb, pr)
        else (pt, pl, pb, pr) in
      oh ← out_length H pt pb kh dh sh;
      ow ← out_length W pl pr kw dw sw;
      if (oh <=? 0) || (ow <=? 0) then Some (Err (OpError "conv: invalid output dimensions")) else
      Some (Ok {| gN := N; gC := C; gH := H; gW := W; gM := M; kH := kh; kW := kw; group := grp;
                  strideH := sh; strideW := sw; dilH := dh; dilW := dw;
                  padTop := pt; padLeft := pl; padBottom := pb; padRight := pr; outH := oh; outW := ow |})
  | _, _ => Some (Err (OpError "conv: expected 4D inputs"))
  end.

Definition noPad (g : Geometry) : bool := (padTop g =? 0) && (padLeft g =? 0) && (padBottom g =? 0) && (padRight g =? 0).
Definition noDil (g : Geometry) : bool := (dilH g =? 1) && (dilW g =? 1).
Definition is1x1 (g : Geometry) : bool :=
  (kH g =? 1) && (kW g =? 1) && (strideH g =? 1) && (strideW g =? 1) && noPad g.

(** ** Columns *)

(** Without padding or dilation every tap is inside the input. *)
Definition im2colNoPadNoDil (g : Geometry) (input : list float32) (n cStart cCount : Z) (col : list float32) : option (list float32) :=
  '(col, _) ← for_range 0 cCount (fun c =>
      let inputBase := (n * gC g + (cStart + c)) * gH g * gW g in
      for_range 0 (kH g) (fun kh =>
        for_range 0 (kW g) (fun kw =>
          for_range 0 (outH g) (fun oh =>
            let rowBase := inputBase + (oh * strideH g + kh) * gW g in
            for_range 0 (outW g) (fun ow st =>
              v ← get input (rowBase + ow * strideW g + kw); emit v st)))))
    (col, 0);
  Some col.

(** The output indices [start .. stop-1] whose tap falls inside one axis of the input:
    [size] its length, [out] the output's, [offset] the tap's shift.  A stride of zero
    panics where it divides. *)
Definition interior (size out stride offset : Z) : option (Z * Z) :=
  start ← (if offset <? 0 then fst <$> divmod (- offset + stride - 1) stride else Some 0);
  stop ← (if size - offset <? out * stride then
            '(q, _) ← divmod (size - offset + stride - 1) stride; Some (if out <? q then out else q)
          else Some out);
  Some (start, if stop <? start then start else stop).

(** [for range n { col[colIdx] = 0; colIdx++ }]. *)
Definition emit_zeros (n : Z) : list float32 * Z -> option (list float32 * Z) := for_range 0 n (fun _ => emit fzero).

(** [copy(col[colIdx:colIdx+n], input[src:src+n]); colIdx += n]. *)
Definition emit_block (input : list float32) (src n : Z) : list float32 * Z -> option (list float32 * Z) :=
  fun '(col, colIdx) => col ← copy_block col colIdx input src n; Some (col, colIdx + n).

(** One row of the interior: zeros, the taps, zeros. *)
Definition im2col_row (g : Geometry) (input : list float32) (rowBase kwOffset owStart owEnd : Z)
    (st : list float32 * Z) : option (list float32 * Z) :=
  st ← emit_zeros owStart st;
  st ← (if (strideW g =? 1) && (dilW g =? 1) then
          emit_block input (rowBase + owStart + kwOffset) (owEnd - owStart) st
        else
          for_range owStart owEnd (fun ow st => v ← get input (rowBase + (ow * strideW g + kwOffset)); emit v st) st);
  emit_zeros (outW g - owEnd) st.

(** The rows of one channel and one tap: zeros above, the interior, zeros below. *)
Definition im2col_tap (g : Geometry) (input : list float32) (inputBase kh kw : Z) (st : list float32 * Z) : option (list float32 * Z) :=
  let khOffset := kh * dilH g - padTop g in
  let kwOffset := kw * dilW g - padLeft g in
  '(ohStart, ohEnd) ← interior (gH g) (outH g) (strideH g) khOffset;
  '(owStart, owEnd) ← interior (gW g) (outW g) (strideW g) kwOffset;
  st ← for_range 0 ohStart (fun _ => emit_zeros (outW g)) st;
  st ← for_range ohStart ohEnd (fun oh =>
      im2col_row g input (inputBase + (oh * strideH g + khOffset) * gW g) kwOffset owStart owEnd) st;
  for_range 0 (outH g - ohEnd) (fun _ => emit_zeros (outW g)) st.

Definition im2col (g : Geometry) (input : list float32) (n cStart cCount : Z) (col : list float32) : option (list float32) :=
  '(col, _) ← for_range 0 cCount (fun c =>
      let inputBase := (n * gC g + (cStart + c)) * gH g * gW g in
      for_range 0 (kH g) (fun kh => for_range 0 (kW g) (fun kw => im2col_tap g input inputBase kh kw)))
    (col, 0);
  Some col.

Section Conv.
Context {Rec : Recycled} {Mach : Machine}.

(** ** Convolution *)

(** One group of one image: the patches (the input itself for a 1x1 kernel) by the
    weights, into its part of the output, then [post] on that part. *)
Definition conv_group (g : Geometry) (x w : Tensor) (cPerGroup mPerGroup : Z) (post : Z -> list float32 -> option (list float32))
    (n gi : Z) (st : list float32 * list float32) : option (list float32 * list float32) :=
  let '(out, col) := st in
  let outSpatial := outH g * outW g in
  let colSize := cPerGroup * kH g * kW g in
  let outBase := ((n * gM g + gi * mPerGroup) * outH g) * outW g in
  if is1x1 g then
    wSlice ← subslice (Data w) (gi * mPerGroup * cPerGroup) (gi * mPerGroup * cPerGroup + mPerGroup * cPerGroup);
    let xOffset := (n * gC g + gi * cPerGroup) * gH g * gW g in
    xSlice ← subslice (Data x) xOffset (xOffset + cPerGroup * outSpatial);
    out ← in_slice out outBase (outBase + mPerGroup * outSpatial) (fun dst =>
        dst ← SgemmInto wSlice xSlice dst mPerGroup outSpatial cPerGroup; post (gi * mPerGroup) dst);
    Some (out, col)
  else
    col ← (if noPad g && noDil g then im2colNoPadNoDil g (Data x) n (gi * cPerGroup) cPerGroup col
           else im2col g (Data x) n (gi * cPerGroup) cPerGroup col);
    wSlice ← subslice (Data w) (gi * mPerGroup * colSize) (gi * mPerGroup * colSize + mPerGroup * colSize);
    out ← in_slice out outBase (outBase + mPerGroup * outSpatial) (fun dst =>
        dst ← SgemmInto wSlice col dst mPerGroup outSpatial colSize; post (gi * mPerGroup) dst);
    Some (out, col).

(** The convolution of every group of every image into a new tensor. *)
Definition conv_data (g : Geometry) (x w : Tensor) (post : Z -> Z -> list float32 -> option (list float32)) : option Tensor :=
  '(cPerGroup, _) ← divmod (gC g) (group g);
  '(mPerGroup, _) ← divmod (gM g) (group g);
  let output := newTensorUninit [gN g; gM g; outH g; outW g] in
  let colLen := i64 (cPerGroup * kH g * kW g * (outH g * outW g)) in
  if negb (is1x1 g) && (colLen <? 0) then None else
  '(out, _) ← for_range 0 (gN g) (fun n =>
      for_range 0 (group g) (conv_group g x w cPerGroup mPerGroup (post mPerGroup) n))
    (Data output, if is1x1 g then [] else stale colLen);
  Some (with_data output out).

(** [output.Data[base+i] += b] for every channel. *)
Definition add_bias (g : Geometry) (bias : list float32) (out : list float32) : option (list float32) :=
  for_range 0 (gN g) (fun n =>
    for_range 0 (gM g) (fun m out =>
      let base := ((n * gM g + m) * outH g) * outW g in
      b ← get bias m;
      for_range 0 (outH g * outW g) (fun i out => v ← get out (base + i); set out (base + i) (add32 v b)) out)) out.

(** The bias, when there is one: the input is optional, and the data of a tensor without
    elements may be the nil slice, which [bias != nil] does not tell from no input. *)
Definition bias_of (t : option Tensor) : option (list float32) :=
  match t with
  | Some t => if (len (Data t) =? 0) && nil_data t then None else Some (Data t)
  | None => None
  end.

Definition opConv : OpFunc := fun inputs attrs =>
  if len inputs <? 2 then op_fail "conv: need at least 2 inputs" else
  x ← input inputs 0;
  w ← input inputs 1;
  geometry ← conv_geometry x w attrs;
  match geometry with
  | Err e => Some (Err e)
  | Ok g =>
      output ← conv_data g x w (fun _ _ dst => Some dst);
      match bias_of (input inputs 2) with
      | None => op_new output
      | Some bias => out ← add_bias g bias (Data output); op_new (with_data output out)
      end
  end.

(** [v * fastSigmoid(v)]. *)
Definition silu (v : float32) : option float32 := s ← fastSigmoid v; Some (mul32 v s).

Definition applySiLU (bias : option (list float32)) (outSpatial mPerGroup chanOffset : Z) (dst : list float32) : option (list float32) :=
  match bias with
  | Some bias =>
      for_range 0 mPerGroup (fun m dst =>
        b ← get bias (chanOffset + m);
        in_slice dst (m * outSpatial) ((m + 1) * outSpatial) (fun chunk =>
          fill_each (len chunk) (fun i => v ← get chunk i; silu (add32 v b)) chunk)) dst
  | None => fill_each (len dst) (fun i => v ← get dst i; silu v) dst
  end.

Definition opConvSiLU : OpFunc := fun inputs attrs =>
  if len inputs <? 2 then op_fail "convSiLU: need at least 2 inputs" else
  x ← input inputs 0;
  w ← input inputs 1;
  geometry ← conv_geometry x w attrs;
  match geometry with
  | Err e => Some (Err e)
  | Ok g =>
      output ← conv_data g x w (applySiLU (bias_of (input inputs 2)) (outH g * outW g));
      op_new output
  end.

(** ** Pooling *)

(** The larger of the running maximum and a value; a NaN value is not larger. *)
Definition pool_max (maxVal v : float32) : float32 := if fgt v maxVal then v else maxVal.

Definition pool_geometry (x : Tensor) (attrs : Attributes) (name : string) : option (result op_error Geometry) :=
  match Shape x with
  | [N; C; H; W] =>
      match GetIntList attrs "kernel_shape" with
      | Some (kh :: kw :: _) =>
          let '(sh, sw) := two_ints attrs "strides" in
          let '(pt, pl, pb, pr) := four_ints attrs "pads" in
          let '(dh, dw) := two_ints attrs "dilations" in
          out ← (if negb (GetInt attrs "ceil_mode" 0 =? 0)
                 then Some (i64 (ceil_ratio (kernel_room H pt pb kh dh) sh + 1), i64 (ceil_ratio (kernel_room W pl pr kw dw) sw + 1))
                 else oh ← out_length H pt pb kh dh sh; ow ← out_length W pl pr kw dw sw; Some (oh, ow));
          Some (Ok {| gN := N; gC := C; gH := H; gW := W; gM := C; kH := kh; kW := kw; group := 1;
                      strideH := sh; strideW := sw; dilH := dh; dilW := dw;
                      padTop := pt; padLeft := pl; padBottom := pb; padRight := pr;
                      outH := fst out; outW := snd out |})
      | _ => Some (Err (OpError (name +:+ ": kernel_shape required")))
      end
  | _ => Some (Err (OpError (name +:+ ": expected 4D input")))
  end.

(** The loops over images, channels and output positions, with the value of each. *)
Definition pool_loops (g : Geometry) (value : Z -> Z -> Z -> Z -> option float32) (out : list float32) : option (list float32) :=
  for_range 0 (gN g) (fun n =>
    for_range 0 (gC g) (fun c =>
      for_range 0 (outH g) (fun oh =>
        for_range 0 (outW g) (fun ow out =>
          v ← value n c oh ow;
          set out (((n * gC g + c) * outH g + oh) * outW g + ow) v)))) out.

(** Kernel 2x2, stride 2. *)
Definition max_2x2 (g : Geometry) (x : list float32) (n c oh ow : Z) : option float32 :=
  let inBase := (n * gC g + c) * gH g * gW g in
  let r0 := inBase + oh * 2 * gW g in
  let r1 := r0 + gW g in
  v0 ← get x (r0 + ow * 2);
  v1 ← get x (r0 + ow * 2 + 1);
  v2 ← get x (r1 + ow * 2);
  v3 ← get x (r1 + ow * 2 + 1);
  Some (pool_max (pool_max (pool_max v0 v1) v2) v3).

(** No padding, no dilation. *)
Definition max_inside (g : Geometry) (x : list float32) (n c oh ow : Z) : option float32 :=
  let inBase := (n * gC g + c) * gH g * gW g in
  for_range 0 (kH g) (fun kh =>
    let rowBase := inBase + (oh * strideH g + kh) * gW g in
    for_range 0 (kW g) (fun kw maxVal =>
      v ← get x (rowBase + ow * strideW g + kw); Some (pool_max maxVal v))) (S754_infinity true).

Definition inside (g : Geometry) (ih iw : Z) : bool := (0 <=? ih) && (ih <? gH g) && (0 <=? iw) && (iw <? gW g).

Definition max_padded (g : Geometry) (x : list float32) (n c oh ow : Z) : option float32 :=
  for_range 0 (kH g) (fun kh =>
    let ih := oh * strideH g - padTop g + kh * dilH g in
    for_range 0 (kW g) (fun kw maxVal =>
      let iw := ow * strideW g - padLeft g + kw * dilW g in
      if inside g ih iw
      then v ← get x (((n * gC g + c) * gH g + ih) * gW g + iw); Some (pool_max maxVal v)
      else Some maxVal)) (S754_infinity true).

Definition opMaxPool : OpFunc := fun inputs attrs =>
  if len inputs <? 1 then op_fail "maxPool: need 1 input" else
  x ← input inputs 0;
  geometry ← pool_geometry x attrs "maxPool";
  match geometry with
  | Err e => Some (Err e)
  | Ok g =>
      let output := newTensorUninit [gN g; gC g; outH g; outW g] in
      let floorMode := GetInt attrs "ceil_mode" 0 =? 0 in
      let value :=
        if noPad g && noDil g && floorMode && (kH g =? 2) && (kW g =? 2) && (strideH g =? 2) && (strideW g =? 2)
        then max_2x2 g (Data x)
        else if noPad g && noDil g && floorMode then max_inside g (Data x)
        else max_padded g (Data x) in
      data ← pool_loops g value (Data output);
      op_new (with_data output data)
  end.

Definition opGlobalAveragePool : OpFunc := fun inputs _ =>
  if len inputs <? 1 then op_fail "globalAveragePool: need 1 input" else
  x ← input inputs 0;
  match Shape x with
  | [N; C; H; W] =>
      let spatial := H * W in
      let output := NewTensor [N; C; 1; 1] in
      data ← for_range 0 N (fun n =>
          for_range 0 C (fun c out =>
            sum ← for_range 0 spatial (fun i sum => v ← get (Data x) ((n * C + c) * spatial + i); Some (add32 sum v)) fzero;
            set out (n * C + c) (div32 sum (f32_of_Z spatial)))) (Data output);
      op_new (with_data output data)
  | _ => op_fail "globalAveragePool: expected 4D input"
  end.

(** The sum over one window and the number of taps it counts. *)
Definition average_window (g : Geometry) (x : list float32) (countIncludePad : bool) (n c oh ow : Z) : option (float32 * Z) :=
  for_range 0 (kH g) (fun kh =>
    let ih := oh * strideH g - padTop g + kh in
    for_range 0 (kW g) (fun kw '(sum, count) =>
      let iw := ow * strideW g - padLeft g + kw in
      if inside g ih iw
      then v ← get x (((n * gC g + c) * gH g + ih) * gW g + iw); Some (add32 sum v, count + 1)
      else Some (sum, if countIncludePad then count + 1 else count))) (fzero, 0).

(** [AveragePool] reads neither dilations nor [ceil_mode]. *)
Definition average_geometry (x : Tensor) (attrs : Attributes) : option (result op_error Geometry) :=
  pool_geometry x {| Ints := delete "ceil_mode"%string (Ints attrs); Floats := Floats attrs; Strings := Strings attrs;
                     IntLists := delete "dilations"%string (IntLists attrs); FloatLists := FloatLists attrs;
                     Tensors := Tensors attrs |} "averagePool".

Definition opAveragePool : OpFunc := fun inputs attrs =>
  if len inputs <? 1 then op_fail "averagePool: need 1 input" else
  x ← input inputs 0;
  geometry ← average_geometry x attrs;
  match geometry with
  | Err e => Some (Err e)
  | Ok g =>
      let countIncludePad := negb (GetInt attrs "count_include_pad" 0 =? 0) in
      let output := NewTensor [gN g; gC g; outH g; outW g] in
      data ← for_range 0 (gN g) (fun n =>
          for_range 0 (gC g) (fun c =>
            for_range 0 (outH g) (fun oh =>
              for_range 0 (outW g) (fun ow out =>
                '(sum, count) ← average_window g (Data x) countIncludePad n c oh ow;
                let count := if countIncludePad then kH g * kW g else count in
                if 0 <? count
                then set out (((n * gC g + c) * outH g + oh) * outW g + ow) (div32 sum (f32_of_Z count))
                else Some out)))) (Data output);
      op_new (with_data output data)
  end.

(** ** Resizing *)

Definition half : float64 := f64_lit 1 2.

(** [(float64(i)+0.5)/scale - 0.5]. *)
Definition halfPixel (scale : float64) (i : Z) : float64 := fsub (fdiv (fadd (f64_of_Z i) half) scale) half.

Definition newCoordTransform (mode : string) (inLen outLen : Z) (scale : float64) : result op_error (Z -> float64) :=
  if String.eqb mode "half_pixel" then Ok (halfPixel scale)
  else if String.eqb mode "pytorch_half_pixel" then
    Ok (if outLen <=? 1 then fun _ => fzero else halfPixel scale)
  else if String.eqb mode "align_corners" then
    Ok (if outLen <=? 1 then fun _ => fzero
        else let ratio := fdiv (f64_of_Z (inLen - 1)) (f64_of_Z (outLen - 1)) in fun i => fmul (f64_of_Z i) ratio)
  else if String.eqb mode "asymmetric" then Ok (fun i => fdiv (f64_of_Z i) scale)
  else if String.eqb mode "half_pixel_symmetric" then
    let adjustment := fdiv (f64_of_Z outLen) (fmul scale (f64_of_Z inLen)) in
    let offset := fmul (fdiv (f64_of_Z inLen) (f64_of_Z 2)) (fsub (f64_of_Z 1) adjustment) in
    Ok (fun i => fsub (fadd offset (fdiv (fadd (f64_of_Z i) half) scale)) half)
  else if String.eqb mode "tf_crop_and_resize" then Err (OpError "resize: tf_crop_and_resize needs the roi input")
  else Err (OpError "resize: unsupported coordinate_transformation_mode").

Definition newNearestRound (mode : string) : result op_error (float64 -> float64) :=
  if String.eqb mode "round_prefer_floor" then Ok (fun v => fceil (fsub v half))
  else if String.eqb mode "round_prefer_ceil" then Ok (fun v => ffloor (fadd v half))
  else if String.eqb mode "floor" then Ok ffloor
  else if String.eqb mode "ceil" then Ok fceil
  else Err (OpError "resize: unsupported nearest_mode").

Definition clampIndex (i length : Z) : Z := if i <? 0 then 0 else if length <=? i then length - 1 else i.

Definition nearestIndices (transform : Z -> float64) (round : float64 -> float64) (inLen outLen : Z) : list Z :=
  (fun i => clampIndex (to_int64 (round (transform i))) inLen) <$> range 0 outLen.

(** The two samples an output index blends and the weight of the second. *)
Definition linear_tap (transform : Z -> float64) (inLen i : Z) : Z * Z * float32 :=
  let limit := f64_of_Z (inLen - 1) in
  let v := transform i in
  let v := if flt v fzero then fzero else v in
  let v := if fgt v limit then limit else v in
  let base := ffloor v in
  let lo := to_int64 base in
  (lo, clampIndex (i64 (lo + 1)) inLen, narrow (fsub v base)).

Definition linearTaps (transform : Z -> float64) (inLen outLen : Z) : list (Z * Z * float32) :=
  linear_tap transform inLen <$> range 0 outLen.

(** The loops over images, channels, rows and columns of the output. *)
Definition resize_loops (n c outH outW : Z) (value : Z -> Z -> Z -> Z -> option float32) (out : list float32) : option (list float32) :=
  for_range 0 n (fun ni =>
    for_range 0 c (fun ci =>
      for_range 0 outH (fun y =>
        for_range 0 outW (fun xi out =>
          v ← value ni ci y xi;
          set out ((ni * c + ci) * outH * outW + y * outW + xi) v)))) out.

Definition resizeNearest (x : list float32) (c inH inW : Z) (srcY srcX : list Z) (ni ci y xi : Z) : option float32 :=
  sy ← get srcY y; sx ← get srcX xi;
  get x ((ni * c + ci) * inH * inW + sy * inW + sx).

Definition resizeBilinear (x : list float32) (c inH inW : Z) (tapsY tapsX : list (Z * Z * float32)) (ni ci y xi : Z) : option float32 :=
  '(loY, hiY, fy) ← get tapsY y;
  '(x0, x1, fx) ← get tapsX xi;
  let inBase := (ni * c + ci) * inH * inW in
  let row0 := inBase + loY * inW in
  let row1 := inBase + hiY * inW in
  a ← get x (row0 + x0); b ← get x (row0 + x1);
  d ← get x (row1 + x0); e ← get x (row1 + x1);
  let top := mul_add (sub32 b a) fx a in
  let bottom := mul_add (sub32 e d) fx d in
  Some (mul_add (sub32 bottom top) fy top).

(** The output size and the ratios, from the sizes or the scales. *)
Definition resize_target (inputs : list (option Tensor)) (inH inW : Z) : option (Z * Z * float64 * float64) :=
  match (t ← input inputs 3; if len (Data t) =? 4 then Some (Data t) else None),
        (t ← input inputs 2; if len (Data t) =? 4 then Some (Data t) else None) with
  | Some [_; _; h; w], _ =>
      let outH := to_int64 h in
      let outW := to_int64 w in
      Some (outH, outW, fdiv (f64_of_Z outH) (f64_of_Z inH), fdiv (f64_of_Z outW) (f64_of_Z inW))
  | _, Some [_; _; h; w] =>
      Some (to_int64 (mul32 (f32_of_Z inH) h), to_int64 (mul32 (f32_of_Z inW) w), widen h, widen w)
  | _, _ => None
  end.

Definition opResize : OpFunc := fun inputs attrs =>
  if len inputs <? 1 then op_fail "resize: need at least 1 input" else
  x ← input inputs 0;
  match Shape x with
  | [n; c; inH; inW] =>
      if (inH <=? 0) || (inW <=? 0) then op_fail "resize: invalid input size" else
      match resize_target inputs inH inW with
      | None => op_fail "resize: need either scales or sizes input"
      | Some (outH, outW, scaleH, scaleW) =>
          if (outH <=? 0) || (outW <=? 0) then op_fail "resize: invalid output size" else
          let mode := GetString attrs "mode" "nearest" in
          let nearest := String.eqb mode "nearest" in
          if negb nearest && negb (String.eqb mode "linear") then op_fail "resize: unsupported mode" else
          let coordMode := GetString attrs "coordinate_transformation_mode" "half_pixel" in
          match newCoordTransform coordMode inH outH scaleH, newCoordTransform coordMode inW outW scaleW with
          | Ok transformH, Ok transformW =>
              let out := NewTensor [n; c; outH; outW] in
              if nearest then
                match newNearestRound (GetString attrs "nearest_mode" "round_prefer_floor") with
                | Err e => Some (Err e)
                | Ok round =>
                    data ← resize_loops n c outH outW (resizeNearest (Data x) c inH inW
                      (nearestIndices transformH round inH outH) (nearestIndices transformW round inW outW)) (Data out);
                    op_new (with_data out data)
                end
              else
                data ← resize_loops n c outH outW (resizeBilinear (Data x) c inH inW
                  (linearTaps transformH inH outH) (linearTaps transformW inW outW)) (Data out);
                op_new (with_data out data)
          | Err e, _ => Some (Err e)
          | _, Err e => Some (Err e)
          end
      end
  | _ => op_fail "resize: expected 4D input [N,C,H,W]"
  end.
End Conv.
