(* ===== verification/OnnxGraph.v ===== *)
(** Sessions ([detect/onnxruntime/graph.go]): loading a model, fusing its graph, numbering
    its tensors, and running it.

    Tensors are named in the model and numbered in a session; what a session keeps of a
    tensor is its value, the buffer its data stands in and the [pooled] flag.  Tensors the
    caller passes in and tensors read from the model own no pooled buffer. *)

From Stdlib Require Import SpecFloat.
From S2P Require Import Prelude Float64 GoSlices OnnxProto OnnxModel OnnxTensor OnnxShapeOps OnnxMathOps OnnxConv.

#[local] Open Scope list_scope.

(** ** Decoding tensors and attributes *)

Definition tensorFromProto (tp : TensorProto) : outcome Tensor :=
  match ToFloat32 tp with
  | Val data =>
      let want := ElementCount tp in
      if negb (len data =? want) then Fail (ShapeMismatch (tp_Dims tp) want (len data))
      else Val (TensorOf (tp_Dims tp) data)
  | Fail e => Fail e
  | Panic => Panic
  | NoFuel => NoFuel
  end.

(** One attribute, by its type or, when it states none, by the field that is set. *)
Definition set_attribute (a : AttributeProto) (attrs : Attributes) : outcome Attributes :=
  let '(Build_Attributes ints fs ss ils fls ts) := attrs in
  if (at_Type a =? attrFloat) || ((at_Type a =? 0) && negb (feq (at_F a) fzero)) then
    Val (Build_Attributes ints (<[at_Name a := at_F a]> fs) ss ils fls ts)
  else if (at_Type a =? attrInt) || ((at_Type a =? 0) && negb (at_I a =? 0)) then
    Val (Build_Attributes (<[at_Name a := at_I a]> ints) fs ss ils fls ts)
  else if (at_Type a =? attrString) || ((at_Type a =? 0) && (0 <? len (at_S a))) then
    Val (Build_Attributes ints fs (<[at_Name a := to_string (at_S a)]> ss) ils fls ts)
  else if at_Type a =? attrTensor then
    match at_T a with
    | None => Val attrs
    | Some tp =>
        match tensorFromProto tp with
        | Val t => Val (Build_Attributes ints fs ss ils fls (<[at_Name a := t]> ts))
        | Fail e => Fail (Wrapped (at_Name a) e)
        | Panic => Panic
        | NoFuel => NoFuel
        end
    end
  else if at_Type a =? attrFloats then Val (Build_Attributes ints fs ss ils (<[at_Name a := at_Floats a]> fls) ts)
  else if at_Type a =? attrInts then Val (Build_Attributes ints fs ss (<[at_Name a := at_Ints a]> ils) fls ts)
  else Val attrs.

(** [x, err := f(...); if err != nil { return err }] over outcomes. *)
Definition obind {A B} (o : outcome A) (k : A -> outcome B) : outcome B :=
  match o with Val a => k a | Fail e => Fail e | Panic => Panic | NoFuel => NoFuel end.

Definition nodeAttrsToAttributes (protoAttrs : list AttributeProto) : outcome Attributes :=
  foldl (fun acc a => obind acc (set_attribute a)) (Val NewAttributes) protoAttrs.

(** ** Fusion *)

(** The node that produces a tensor; the last one, when several do. *)
Definition nodeByOutput (nodes : list NodeProto) (name : string) : option nat :=
  last (filter (fun i => Exists (fun o => o = name) (default [] (nd_Outputs <$> nodes !! i))) (seq 0 (length nodes))).

Definition consumers (nodes : list NodeProto) (name : string) : nat :=
  if bool_decide (name = "")%string then 0 else length (filter (fun i => i = name) (mjoin (nd_Inputs <$> nodes))).

(** What the scan of a [Mul] finds under one of its two operand orders: the producer to
    fuse, and the Sigmoid; [None] is the panic of a Sigmoid without inputs. *)
Definition silu_pattern (nodes : list NodeProto) (sigName otherName : string) : option (option (nat * nat)) :=
  match nodeByOutput nodes sigName with
  | None => Some None
  | Some sig =>
      sigNode ← nodes !! sig;
      if negb (String.eqb (nd_OpType sigNode) "Sigmoid") then Some None else
      sigInput ← nd_Inputs sigNode !! 0%nat;
      if negb (String.eqb otherName sigInput) then Some None else
      match nodeByOutput nodes sigInput with
      | None => Some None
      | Some prod =>
          producer ← nodes !! prod;
          if negb (String.eqb (nd_OpType producer) "Conv") then Some None
          else if negb (bool_decide (consumers nodes sigInput = 2%nat)) then Some None
          else Some (Some (prod, sig))
      end
  end.

(** The nodes to drop, and for every Conv to rewrite the name its output takes. *)
Record Fusions := { fusedNodes : gset nat; siluConvs : gmap nat string }.

Definition fuse_scan (nodes : list NodeProto) (i : nat) (n : NodeProto) (f : Fusions) : option Fusions :=
  if negb (String.eqb (nd_OpType n) "Mul") then Some f else
  match nd_Inputs n with
  | in0 :: in1 :: _ =>
      first ← silu_pattern nodes in0 in1;
      found ← match first with Some r => Some (Some r) | None => silu_pattern nodes in1 in0 end;
      match found with
      | None => Some f
      | Some (prod, sig) =>
          out ← nd_Outputs n !! 0%nat;
          Some {| fusedNodes := {[ sig; i ]} ∪ fusedNodes f; siluConvs := <[prod := out]> (siluConvs f) |}
      end
  | _ => Some f
  end.

Definition fuse_find (nodes : list NodeProto) : option Fusions :=
  for_each (imap pair nodes) (fun '(i, n) => fuse_scan nodes i n) {| fusedNodes := ∅; siluConvs := ∅ |}.

(** A node after the fusions: dropped, rewritten or kept. *)
Definition fuse_node (f : Fusions) (i : nat) (n : NodeProto) : list NodeProto :=
  if decide (i ∈ fusedNodes f) then [] else
  match siluConvs f !! i with
  | Some finalOutput => [Build_NodeProto (nd_Inputs n) [finalOutput] (nd_Name n) "ConvSiLU" (nd_Attrs n)]
  | None => [n]
  end.

Definition fuseGraph (nodes : list NodeProto) : option (list NodeProto) :=
  f ← fuse_find nodes;
  if decide (siluConvs f = ∅) then Some nodes else Some (mjoin (imap (fuse_node f) nodes)).

(** The order in which a range over the initializers takes them. *)
Class InitOrder := {
  init_order : gmap string Tensor -> list (string * Tensor);
  init_order_perm : forall m, init_order m ≡ₚ map_to_list m
}.

Section Session.
Context {Rec : Recycled} {Mach : Machine}.

(** What [Register] has put in the registry. *)
Definition Registry : list (string * OpFunc) :=
  [("Reshape", opReshape); ("Transpose", opTranspose); ("Concat", opConcat); ("Slice", opSlice); ("Split", opSplit);
   ("Shape", opShape); ("Gather", opGather); ("Squeeze", opSqueeze); ("Unsqueeze", opUnsqueeze); ("Flatten", opFlatten);
   ("Pad", opPad); ("Constant", opConstant); ("Add", opAdd); ("Sub", opSub); ("Mul", opMul); ("Div", opDiv);
   ("MatMul", opMatMul); ("Gemm", opGemm); ("ReduceMean", opReduceMean); ("Sigmoid", opSigmoid); ("Relu", opRelu);
   ("PRelu", opPRelu); ("Softmax", opSoftmax); ("BatchNormalization", opBatchNorm); ("Conv", opConv);
   ("ConvSiLU", opConvSiLU); ("MaxPool", opMaxPool); ("GlobalAveragePool", opGlobalAveragePool);
   ("AveragePool", opAveragePool); ("Resize", opResize)]%string.

Definition lookup_op (opType : string) : option OpFunc :=
  snd <$> List.find (fun e => String.eqb opType (fst e)) Registry.

(** ** Sessions *)

(** A node ready to run: its function, its attributes, and the numbers of its tensors,
    -1 for a name left out. *)
Record Step := { st_func : OpFunc; st_attrs : Attributes; st_in : list Z; st_out : list Z }.

(** A tensor a session holds. *)
Record Held := { h_tensor : Tensor; h_buffer : option Buffer; h_pooled : bool }.

Record Session := {
  inputNames : list string;
  outputNames : list string;
  steps : list Step;
  tensorIDs : gmap string Z;
  numTensors : Z;
  initIDs : list Z;
  initTensors : list Tensor;
  inputIDs : list Z;
  outputIDs : list Z;
  recyclable : list bool;
  prevOutputs : list Buffer
}.

(** *** Numbering *)

(** The table of numbers and the next one. *)
Definition Ids : Type := gmap string Z * Z.

(** The closure [id]: the number of a name, a new one at its first use. *)
Definition id_of (name : string) (ids : Ids) : Z * Ids :=
  match ids.1 !! name with
  | Some idx => (idx, ids)
  | None => (ids.2, (<[name := ids.2]> ids.1, ids.2 + 1))
  end.

(** The numbers of some names, in order. *)
Fixpoint ids_of (names : list string) (ids : Ids) : list Z * Ids :=
  match names with
  | [] => ([], ids)
  | name :: names =>
      let '(idx, ids) := id_of name ids in
      let '(rest, ids) := ids_of names ids in
      (idx :: rest, ids)
  end.

(** The same for the names of a node, where the empty one has number -1. *)
Fixpoint node_ids (names : list string) (ids : Ids) : list Z * Ids :=
  match names with
  | [] => ([], ids)
  | name :: names =>
      let '(idx, ids) := if String.eqb name "" then (-1, ids) else id_of name ids in
      let '(rest, ids) := node_ids names ids in
      (idx :: rest, ids)
  end.

Fixpoint all_node_ids (nodes : list NodeProto) (ids : Ids) : list (list Z * list Z) * Ids :=
  match nodes with
  | [] => ([], ids)
  | n :: nodes =>
      let '(ins, ids) := node_ids (nd_Inputs n) ids in
      let '(outs, ids) := node_ids (nd_Outputs n) ids in
      let '(rest, ids) := all_node_ids nodes ids in
      ((ins, outs) :: rest, ids)
  end.

(** [recyclable]: every number but those of initializers, inputs and outputs. *)
Definition recyclable_flags (n : Z) (kept : list Z) : list bool :=
  (fun i => bool_decide (i ∉ kept)) <$> range 0 n.

Definition buildTensorIndex `{!InitOrder} (initializers : gmap string Tensor) (inputs outputs : list string)
    (nodes : list NodeProto) (funcs : list (OpFunc * Attributes)) : Session :=
  let inits := init_order initializers in
  let '(initIDs, ids) := ids_of (fst <$> inits) (∅, 0) in
  let '(inputIDs, ids) := ids_of inputs ids in
  let '(nodeIDs, ids) := all_node_ids nodes ids in
  let '(outputIDs, ids) := ids_of outputs ids in
  {| inputNames := inputs; outputNames := outputs;
     steps := zip_with (fun '(f, a) '(ins, outs) => {| st_func := f; st_attrs := a; st_in := ins; st_out := outs |}) funcs nodeIDs;
     tensorIDs := ids.1; numTensors := ids.2; initIDs := initIDs; initTensors := snd <$> inits;
     inputIDs := inputIDs; outputIDs := outputIDs;
     recyclable := recyclable_flags ids.2 (initIDs ++ inputIDs ++ outputIDs);
     prevOutputs := [] |}.

(** *** Loading *)

Definition load_initializers (protos : list TensorProto) : outcome (gmap string Tensor) :=
  foldl (fun acc tp =>
      obind acc (fun m => obind (wrap (tp_Name tp) (tensorFromProto tp)) (fun t => Val (<[tp_Name tp := t]> m))))
    (Val ∅) protos.

(** The attributes and the function of every node, or the error of the first without. *)
Definition load_nodes (nodes : list NodeProto) : outcome (list (OpFunc * Attributes)) :=
  foldl (fun acc n =>
      obind acc (fun fs => obind (wrap (nd_Name n) (nodeAttrsToAttributes (nd_Attrs n))) (fun attrs =>
        match lookup_op (nd_OpType n) with
        | Some f => Val (fs ++ [(f, attrs)])
        | None => Fail (UnsupportedOperator (nd_OpType n))
        end)))
    (Val []) nodes.

(** [NewSession], of a parsed graph. *)
Definition session_of_graph `{!InitOrder} (graph : GraphProto) : outcome Session :=
  obind (load_initializers (gr_Initializers graph)) (fun initializers =>
    let inputs := filter (fun name => initializers !! name = None) (vi_Name <$> gr_Inputs graph) in
    let outputs := vi_Name <$> gr_Outputs graph in
    match fuseGraph (gr_Nodes graph) with
    | None => Panic
    | Some execOrder =>
        obind (load_nodes execOrder) (fun funcs => Val (buildTensorIndex initializers inputs outputs execOrder funcs))
    end).

Definition NewSession `{!InitOrder} (modelData : bytes) : outcome Session :=
  obind (wrap "parse model" (ParseModel modelData)) (fun model =>
    match md_Graph model with
    | None => Panic
    | Some graph => session_of_graph graph
    end).

(** ** Running *)

Inductive run_error :=
| InputNotProvided (name : string)
| NodeFailed (index : Z) (e : op_error)
| OutputNotProduced (name : string).

Abbreviation Values := (list (option Held)).

(** Gives a returned tensor its buffer: a tensor without elements has none. *)
Definition place (firstInput : option Held) (out : Tensor * Origin) (fl : FreeLists) : option (Held * FreeLists) :=
  let '(t, origin) := out in
  match origin with
  | View => Some ({| h_tensor := t; h_buffer := mbind h_buffer firstInput; h_pooled := false |}, fl)
  | Made => Some ({| h_tensor := t; h_buffer := None; h_pooled := false |}, fl)
  | Pooled =>
      if len (Data t) =? 0 then Some ({| h_tensor := t; h_buffer := None; h_pooled := true |}, fl) else
      '(b, fl) ← take_buffer (len (Data t)) fl;
      Some ({| h_tensor := t; h_buffer := Some b; h_pooled := true |}, fl)
  end.

Fixpoint place_all (firstInput : option Held) (outs : list (Tensor * Origin)) (fl : FreeLists) : option (list Held * FreeLists) :=
  match outs with
  | [] => Some ([], fl)
  | out :: outs =>
      '(h, fl) ← place firstInput out fl;
      '(hs, fl) ← place_all firstInput outs fl;
      Some (h :: hs, fl)
  end.

(** [nodeInputs[j] = values[tid]], nil for a name left out. *)
Definition gather (values : Values) (tids : list Z) : option (list (option Held)) :=
  mapM (fun tid => if tid <? 0 then Some None else get values tid) tids.

(** [values[tid] = outputs[j]] for the numbers that are not -1; outputs beyond the
    names are dropped, names beyond the outputs are left alone. *)
Definition store (outIDs : list Z) (outs : list Held) (values : Values) : option Values :=
  for_each (zip outIDs outs) (fun '(tid, h) values => if 0 <=? tid then set values tid (Some h) else Some values) values.

Definition run_step (i : Z) (s : Step) (values : Values) (fl : FreeLists) : option (result (run_error * FreeLists) (Values * FreeLists)) :=
  ins ← gather values (st_in s);
  outputs ← st_func s (fmap h_tensor <$> ins) (st_attrs s);
  match outputs with
  | Err e => Some (Err (NodeFailed i e, fl))
  | Ok outs =>
      '(held, fl) ← place_all (mjoin (head ins)) outs fl;
      values ← store (st_out s) held values;
      Some (Ok (values, fl))
  end.

Definition run_steps (ss : list Step) (values : Values) (fl : FreeLists) : option (result (run_error * FreeLists) (Values * FreeLists)) :=
  for_each (imap pair ss) (fun '(i, s) acc =>
      match acc with
      | Err e => Some (Err e)
      | Ok (values, fl) => run_step (Z.of_nat i) s values fl
      end) (Ok (values, fl)).

(** The buffers of the previous outputs go back to the free lists. *)
Definition put_all (bs : list Buffer) (fl : FreeLists) : option FreeLists := for_each bs putTensorData fl.

Definition unowned (t : Tensor) : Held := {| h_tensor := t; h_buffer := None; h_pooled := false |}.

Definition set_initializers (s : Session) (values : Values) : option Values :=
  for_each (zip (initIDs s) (initTensors s)) (fun '(idx, t) values => set values idx (Some (unowned t))) values.

Definition set_inputs (s : Session) (inputs : gmap string Tensor) (values : Values) : option (result run_error Values) :=
  for_each (zip (inputNames s) (inputIDs s)) (fun '(name, idx) acc =>
      match acc with
      | Err e => Some (Err e)
      | Ok values =>
          match inputs !! name with
          | None => Some (Err (InputNotProvided name))
          | Some t => values ← set values idx (Some (unowned t)); Some (Ok values)
          end
      end) (Ok values).

(** [t.pooled = false]. *)
Definition unpooled (h : Held) : Held := {| h_tensor := h_tensor h; h_buffer := h_buffer h; h_pooled := false |}.

(** The buffer a tensor gives back: that of its data, when it is flagged. *)
Definition owned (h : Held) : list Buffer := if h_pooled h then option_list (h_buffer h) else [].

(** The requested outputs, by name.  The buffer of a pooled one is remembered for the
    next run and its flag cleared, also when a later output turns out to be missing. *)
Definition collect (s : Session) (values : Values) :
    option (result (run_error * list Buffer) (gmap string Held * Values * list Buffer)) :=
  for_each (zip (outputNames s) (outputIDs s)) (fun '(name, idx) acc =>
      match acc with
      | Err e => Some (Err e)
      | Ok (res, values, prev) =>
          h ← get values idx;
          match h with
          | None => Some (Err (OutputNotProduced name, prev))
          | Some h =>
              values ← set values idx (Some (unpooled h));
              Some (Ok (<[name := unpooled h]> res, values, prev ++ owned h))
          end
      end) (Ok (∅, values, [])).

(** The pooled tensors still held, which are nobody's output, go back. *)
Definition recycle (s : Session) (values : Values) (fl : FreeLists) : option FreeLists :=
  for_each (zip values (recyclable s)) (fun '(h, ok) fl =>
      match h with
      | Some h => if (ok : bool) then put_all (owned h) fl else Some fl
      | None => Some fl
      end) fl.

Definition with_prev (s : Session) (prev : list Buffer) : Session :=
  {| inputNames := inputNames s; outputNames := outputNames s; steps := steps s; tensorIDs := tensorIDs s;
     numTensors := numTensors s; initIDs := initIDs s; initTensors := initTensors s; inputIDs := inputIDs s;
     outputIDs := outputIDs s; recyclable := recyclable s; prevOutputs := prev |}.

(** A run: what it answers, the session it leaves and the free lists it leaves. *)
Definition Run (s : Session) (inputs : gmap string Tensor) (fl : FreeLists) :
    option (result run_error (gmap string Held) * Session * FreeLists) :=
  fl ← put_all (prevOutputs s) fl;
  let s := with_prev s [] in
  values ← set_initializers s (replicate (Z.to_nat (numTensors s)) None);
  started ← set_inputs s inputs values;
  match started with
  | Err e => Some (Err e, s, fl)
  | Ok values =>
      ran ← run_steps (steps s) values fl;
      match ran with
      | Err (e, fl) => Some (Err e, s, fl)
      | Ok (values, fl) =>
          collected ← collect s values;
          match collected with
          | Err (e, prev) => Some (Err e, with_prev s prev, fl)
          | Ok (res, values, prev) =>
              fl ← recycle s values fl;
              Some (Ok res, with_prev s prev, fl)
          end
      end
  end.
End Session.
