(* ===== verification/OnnxTensorTheorems.v ===== *)
(** Tensors: flat indices and coordinates, broadcasting, transposition, and the free lists. *)

From Stdlib Require Import SpecFloat.
From S2P Require Import Prelude Float64 GoSlices OnnxModel OnnxTensor OnnxShapeOps.

#[local] Open Scope list_scope.

(** ** Machine arithmetic in range

    [i64] commutes with sums and products up to a last [i64]. *)

Lemma i64_cong a b : (a mod 2 ^ 64 = b mod 2 ^ 64) -> i64 a = i64 b.
Proof. unfold wrapS. intros H. f_equal. rewrite <- Zplus_mod_idemp_l, H, Zplus_mod_idemp_l. done. Qed.

Lemma i64_mod a : i64 a mod 2 ^ 64 = a mod 2 ^ 64.
Proof.
  unfold wrapS. rewrite Zminus_mod, Zmod_mod, <- Zminus_mod. f_equal. lia.
Qed.

Lemma i64_i64 a : i64 (i64 a) = i64 a.
Proof. apply i64_cong, i64_mod. Qed.

Lemma i64_add_l a b : i64 (i64 a + b) = i64 (a + b).
Proof. apply i64_cong. by rewrite <- Zplus_mod_idemp_l, i64_mod, Zplus_mod_idemp_l. Qed.

Lemma i64_add_r a b : i64 (a + i64 b) = i64 (a + b).
Proof. by rewrite Z.add_comm, i64_add_l, Z.add_comm. Qed.

Lemma i64_mul_l a b : i64 (i64 a * b) = i64 (a * b).
Proof. apply i64_cong. by rewrite <- Zmult_mod_idemp_l, i64_mod, Zmult_mod_idemp_l. Qed.

Lemma i64_mul_r a b : i64 (a * i64 b) = i64 (a * b).
Proof. by rewrite Z.mul_comm, i64_mul_l, Z.mul_comm. Qed.

#[export] Hint Rewrite i64_i64 i64_add_l i64_add_r i64_mul_l i64_mul_r : i64.

(** ** Shapes, coordinates and flat indices *)

(** The number of elements, without wrap-around. *)
Fixpoint volume (shape : list Z) : Z :=
  match shape with [] => 1 | d :: shape => d * volume shape end.

(** A shape of positive dimensions whose elements an [int64] counts. *)
Definition shape_ok (shape : list Z) : Prop := Forall (fun d => 0 < d) shape /\ volume shape <= max_int64.

(** Coordinates inside a shape, their flat index, and back. *)
Definition coords_in (shape coords : list Z) : Prop := Forall2 (fun d c => 0 <= c < d) shape coords.

Fixpoint ravel (shape coords : list Z) : Z :=
  match shape, coords with
  | _ :: shape, c :: coords => c * volume shape + ravel shape coords
  | _, _ => 0
  end.

Fixpoint unravel (shape : list Z) (i : Z) : list Z :=
  match shape with
  | [] => []
  | _ :: shape => i / volume shape :: unravel shape (i mod volume shape)
  end.

Lemma volume_pos shape : Forall (fun d => 0 < d) shape -> 0 < volume shape.
Proof. induction 1; cbn; [lia|nia]. Qed.

Lemma volume_app s t : volume (s ++ t) = volume s * volume t.
Proof. induction s as [|d s IH]; cbn -[Z.mul]; [lia|]. rewrite IH. lia. Qed.

Lemma volume_perm s t : s ≡ₚ t -> volume s = volume t.
Proof. induction 1; cbn; lia. Qed.

Lemma shape_ok_cons d s : shape_ok (d :: s) -> 0 < d /\ shape_ok s.
Proof.
  intros [Hpos Hv]. inversion_clear Hpos as [|? ? Hd Hs]. split; [done|]. split; [done|].
  pose proof (volume_pos _ Hs). cbn in Hv. nia.
Qed.

Lemma product_i64 shape acc : foldl (fun n d => i64 (n * d)) (i64 acc) shape = i64 (acc * volume shape).
Proof.
  revert acc. induction shape as [|d s IH]; intros acc; cbn -[Z.mul].
  - by rewrite Z.mul_1_r.
  - rewrite i64_mul_l, IH. f_equal. lia.
Qed.

Lemma product_volume shape : product shape = i64 (volume shape).
Proof. unfold product. replace 1 with (i64 1) at 1 by done. rewrite product_i64. f_equal. lia. Qed.

Lemma tensorSize_i64 shape : tensorSize shape = i64 (volume shape).
Proof. unfold tensorSize. destruct shape as [|d s]; [done|]. rewrite len_cons. pose proof (len_nonneg s). rewrite (proj2 (Z.eqb_neq _ _)) by lia. apply product_volume. Qed.

Lemma tensorSize_volume shape : shape_ok shape -> tensorSize shape = volume shape.
Proof.
  intros [Hpos Hv]. rewrite tensorSize_i64. apply i64_small. pose proof (volume_pos _ Hpos).
  unfold min_int64, max_int64 in *. lia.
Qed.

Lemma ravel_bounds shape coords : coords_in shape coords -> 0 <= ravel shape coords < volume shape.
Proof. induction 1 as [|d c s cs Hc _ IH]; cbn; [lia|nia]. Qed.

Lemma coords_in_length shape coords : coords_in shape coords -> length coords = length shape.
Proof. intros H. symmetry. by eapply Forall2_length. Qed.

Lemma coords_in_pos shape coords : coords_in shape coords -> Forall (fun d => 0 < d) shape.
Proof. induction 1; constructor; [lia|done]. Qed.

Lemma unravel_ravel shape coords : coords_in shape coords -> unravel shape (ravel shape coords) = coords.
Proof.
  induction 1 as [|d c s cs Hc Hcs IH]; cbn; [done|]. pose proof (ravel_bounds _ _ Hcs).
  rewrite Z.div_add_l by lia. rewrite Z.div_small, Z.add_0_r by lia. f_equal.
  rewrite Z.add_comm, Z_mod_plus_full, Z.mod_small by lia. done.
Qed.

Lemma unravel_in shape i : Forall (fun d => 0 < d) shape -> 0 <= i < volume shape -> coords_in shape (unravel shape i).
Proof.
  intros Hpos. revert i. induction Hpos as [|d s Hd Hs IH]; intros i Hi; [constructor|].
  cbn in *. pose proof (volume_pos _ Hs). constructor.
  - split; [apply Z.div_pos; lia|apply Z.div_lt_upper_bound; lia].
  - apply IH. apply Z.mod_pos_bound. lia.
Qed.

Lemma ravel_unravel shape i : Forall (fun d => 0 < d) shape -> 0 <= i < volume shape -> ravel shape (unravel shape i) = i.
Proof.
  intros Hpos. revert i. induction Hpos as [|d s Hd Hs IH]; intros i Hi; [cbn in *; lia|].
  cbn in *. pose proof (volume_pos _ Hs). rewrite IH by (apply Z.mod_pos_bound; lia).
  pose proof (Z.div_mod i (volume s) ltac:(lia)). lia.
Qed.

(** ** Strides *)

Lemma strides_of_length shape : length (strides_of shape) = length shape.
Proof.
  induction shape as [|d s IH]; [done|]. cbn. destruct (strides_of s) as [|x xs]; cbn in *; lia.
Qed.

Lemma strides_of_cons d s : strides_of (d :: s) = i64 (volume s) :: strides_of s.
Proof.
  revert d. induction s as [|e s IH]; intros d; [done|].
  change (strides_of (d :: e :: s)) with (match strides_of (e :: s) with [] => [1] | x :: xs => i64 (x * e) :: x :: xs end).
  rewrite IH. rewrite i64_mul_l. cbn [volume]. f_equal. f_equal. lia.
Qed.

Lemma get_strides shape d : 0 <= d < len shape -> get (strides_of shape) d = Some (i64 (volume (drop (Z.to_nat (d + 1)) shape))).
Proof.
  revert d. induction shape as [|x s IH]; intros d Hd; [unfold len in Hd; cbn in Hd; lia|].
  rewrite strides_of_cons. rewrite len_cons in Hd. destruct (decide (d = 0)) as [->|Hd0]; [done|].
  replace d with (len [i64 (volume s)] + (d - 1)) at 1 by (unfold len; cbn; lia).
  change (i64 (volume s) :: strides_of s) with ([i64 (volume s)] ++ strides_of s). rewrite get_app_r by lia.
  rewrite IH by lia. replace (Z.to_nat (d + 1)) with (S (Z.to_nat (d - 1 + 1))) by lia. done.
Qed.

(** ** The walk along the strides *)

(** The sum of the terms of the coordinates, [f 0 c0 + f 1 c1 + ...]. *)
Fixpoint sum_terms (f : Z -> Z -> Z) (d : Z) (coords : list Z) : Z :=
  match coords with [] => 0 | c :: coords => f d c + sum_terms f (d + 1) coords end.

Lemma divmod_pos a b : 0 <= a <= max_int64 -> 0 < b -> divmod a b = Some (a / b, a mod b).
Proof.
  intros Ha Hb. unfold divmod, div64. rewrite (proj2 (Z.eqb_neq b 0)) by lia.
  rewrite Z.quot_div_nonneg, Z.rem_mod_nonneg by lia. do 2 f_equal. apply i64_small.
  pose proof (Z.div_pos a b ltac:(lia) Hb). pose proof (Z.div_le_upper_bound a b a Hb ltac:(nia)).
  unfold min_int64, max_int64 in *. lia.
Qed.

Lemma walk_loop shape done_ term f i acc :
  shape_ok shape -> 0 <= i < volume shape ->
  (forall d c s, shape !! Z.to_nat (d - len (done_ : list Z)) = Some s -> len done_ <= d -> 0 <= c < s -> term d c = Some (i64 (f d c))) ->
  (forall d, len done_ <= d < len done_ + len shape ->
     get (done_ ++ strides_of shape) d = get (strides_of shape) (d - len done_)) ->
  for_range (len done_) (len done_ + len shape) (fun d '(rem, acc) =>
      stride ← get (done_ ++ strides_of shape) d;
      '(coord, rem) ← divmod rem stride;
      t ← term d coord;
      Some (rem, i64 (acc + t))) (i, i64 acc) =
  Some (if decide (shape = []) then i else 0, i64 (acc + sum_terms f (len done_) (unravel shape i))).
Proof.
  revert done_ i acc. induction shape as [|x s IH]; intros done_ i acc Hok Hi Hterm Hget.
  - rewrite for_range_nil by (unfold len; cbn; lia). cbn. by rewrite Z.add_0_r.
  - pose proof (shape_ok_cons _ _ Hok) as [Hx Hs]. pose proof (volume_pos _ (proj1 Hs)) as Hvs.
    rewrite len_cons in *. pose proof (len_nonneg s). pose proof (len_nonneg done_).
    rewrite for_range_step by lia. rewrite Hget by lia. rewrite Z.sub_diag, strides_of_cons. cbn [get Z.leb].
    assert (i64 (volume s) = volume s) as Ev by (apply i64_small; destruct Hs as [_ Hs]; unfold min_int64, max_int64 in *; lia).
    change (get (i64 (volume s) :: strides_of s) 0) with (Some (i64 (volume s))). cbn [mbind option_bind]. rewrite Ev.
    assert (0 <= i <= max_int64) as Hi' by (destruct Hok as [_ Hv]; lia).
    rewrite divmod_pos by lia. cbn [mbind option_bind].
    assert (0 <= i / volume s < x) as Hc by (cbn in Hi; split; [apply Z.div_pos; lia|apply Z.div_lt_upper_bound; lia]).
    rewrite (Hterm _ _ x); [|by rewrite Z.sub_diag|lia|done]. cbn [mbind option_bind]. rewrite i64_add_r, i64_add_l.
    specialize (IH (done_ ++ [volume s]) (i mod volume s) (acc + f (len done_) (i / volume s)) Hs).
    rewrite len_app in IH. change (len [volume s]) with 1 in IH. rewrite <- app_assoc in IH. cbn [app] in IH.
    replace (len done_ + (1 + len s)) with (len done_ + 1 + len s) by lia.
    rewrite IH; [|apply Z.mod_pos_bound; lia| |].
    + cbn [unravel sum_terms]. rewrite (decide_False (P := x :: s = [])) by done. f_equal. f_equal; [|f_equal; lia].
      case_decide as Hnil; [|done]. subst s. cbn. apply Z.mod_1_r.
    + intros d c y Hy Hd Hc'. apply (Hterm d c y); [|lia|done].
      replace (Z.to_nat (d - len done_)) with (S (Z.to_nat (d - (len done_ + 1)))) by lia. done.
    + intros d Hd. replace d with (len done_ + (1 + (d - (len done_ + 1)))) at 1 by lia. rewrite get_app_r by lia.
      change (volume s :: strides_of s) with ([volume s] ++ strides_of s).
      rewrite (get_app_r [volume s]) by lia. done.
Qed.

(** Walking a flat index adds up the terms of its coordinates. *)
Lemma walk_spec shape term f i :
  shape_ok shape -> 0 <= i < volume shape ->
  (forall d c s, get shape d = Some s -> 0 <= c < s -> term d c = Some (i64 (f d c))) ->
  walk (strides_of shape) term i = Some (i64 (sum_terms f 0 (unravel shape i))).
Proof.
  intros Hok Hi Hterm. unfold walk. replace (len (strides_of shape)) with (0 + len shape) by (unfold len; rewrite strides_of_length; lia).
  pose proof (walk_loop shape [] term f i 0 Hok Hi) as E. cbn [app] in E. change (len []) with 0 in E. change (i64 0) with 0 in E.
  rewrite E.
  - done.
  - intros d c s Hs Hd Hc. apply (Hterm d c s); [|done]. rewrite Z.sub_0_r in Hs. unfold get. by rewrite (proj2 (Z.leb_le 0 d)).
  - intros d _. by rewrite Z.sub_0_r.
Qed.

(** ** A flat index as a sum over the dimensions *)

Definition Zsum (l : list Z) : Z := foldr Z.add 0 l.

Lemma Zsum_perm l m : l ≡ₚ m -> Zsum l = Zsum m.
Proof. unfold Zsum. induction 1; cbn; lia. Qed.

(** The coordinate and the weight of a dimension. *)
Definition coord (coords : list Z) (p : Z) : Z := default 0 (get coords p).
Definition weight (shape : list Z) (p : Z) : Z := volume (drop (Z.to_nat (p + 1)) shape).

Lemma coord_S c coords p : 0 <= p -> coord (c :: coords) (p + 1) = coord coords p.
Proof.
  intros Hp. unfold coord. change (c :: coords) with ([c] ++ coords). rewrite Z.add_comm.
  change (1 + p) with (len [c] + p). by rewrite get_app_r.
Qed.

Lemma weight_S d shape p : 0 <= p -> weight (d :: shape) (p + 1) = weight shape p.
Proof. intros Hp. unfold weight. by replace (Z.to_nat (p + 1 + 1)) with (S (Z.to_nat (p + 1))) by lia. Qed.

Lemma ravel_Zsum shape coords :
  length coords = length shape ->
  ravel shape coords = Zsum ((fun p => coord coords p * weight shape p) <$> range 0 (len shape)).
Proof.
  revert coords. induction shape as [|d s IH]; intros coords Hl; [done|].
  destruct coords as [|c coords]; [done|]. cbn in Hl. pose proof (len_nonneg s).
  rewrite len_cons, range_cons by lia. cbn [fmap list_fmap Zsum foldr ravel]. rewrite IH by lia. f_equal.
  replace (1 + len s) with (len s + 1) by lia. rewrite range_shift, <- list_fmap_compose. unfold Zsum. f_equal.
  apply list_fmap_ext. intros i p Hp. assert (0 <= p) by (apply list_elem_of_lookup_2, range_elem in Hp; lia).
  unfold compose. by rewrite coord_S, weight_S.
Qed.

(** The walk over permuted coordinates, with the weights permuted alike. *)
Lemma sum_terms_perm coords w done_ perm :
  sum_terms (fun d c => c * w (default 0 (get (done_ ++ perm) d))) (len done_) (coord coords <$> perm) =
  Zsum ((fun p => coord coords p * w p) <$> perm).
Proof.
  revert done_. induction perm as [|p perm IH]; intros done_; [done|]. cbn [fmap list_fmap sum_terms Zsum foldr].
  specialize (IH (done_ ++ [p])). rewrite <- app_assoc, len_app in IH. cbn [app] in IH. change (len [p]) with 1 in IH.
  rewrite IH. f_equal. replace (len done_) with (len done_ + 0) by lia. rewrite get_app_r by lia. done.
Qed.

Lemma mapM_get (l : list Z) idx :
  Forall (fun p => 0 <= p < len l) idx -> mapM (get l) idx = Some (coord l <$> idx).
Proof.
  intros H. apply mapM_Some. induction H as [|p idx Hp _ IH]; cbn; constructor; [|done].
  unfold coord. destruct (get_is_Some l p Hp) as [v ->]. done.
Qed.

Lemma coord_range l : coord l <$> range 0 (len l) = l.
Proof.
  apply get_ext; [rewrite len_map, range_len; pose proof (len_nonneg l); lia|]. intros i Hi.
  rewrite len_map, range_len in Hi by (pose proof (len_nonneg l); lia).
  rewrite get_map, get_range, Z.add_0_l by lia. cbn. unfold coord.
  destruct (get_is_Some l i) as [v ->]; [lia|]. done.
Qed.

Lemma perm_bounds perm n : perm ≡ₚ range 0 n -> Forall (fun p => 0 <= p < n) perm.
Proof. intros H. rewrite H. apply Forall_forall. intros p Hp. apply range_elem in Hp. lia. Qed.

Lemma len_perm perm n : perm ≡ₚ range 0 n -> 0 <= n -> len perm = n.
Proof. intros H Hn. unfold len. rewrite H. change (len (range 0 n) = n). rewrite range_len; lia. Qed.

Lemma coord_in shape coords p : coords_in shape coords -> 0 <= p < len shape -> 0 <= coord coords p < coord shape p.
Proof.
  intros H. revert p. induction H as [|d c s cs Hc _ IH]; intros p Hp; [unfold len in Hp; cbn in Hp; lia|].
  rewrite len_cons in Hp. destruct (decide (p = 0)) as [->|Hp0]; [done|].
  replace p with (p - 1 + 1) by lia. rewrite !coord_S by lia. apply IH. lia.
Qed.

Lemma coords_in_perm shape coords perm :
  coords_in shape coords -> Forall (fun p => 0 <= p < len shape) perm -> coords_in (coord shape <$> perm) (coord coords <$> perm).
Proof.
  intros Hc Hp. apply Forall2_fmap. induction Hp as [|p perm Hp _ IH]; constructor; [|done]. by apply coord_in.
Qed.

Lemma shape_ok_perm shape perm : shape_ok shape -> perm ≡ₚ range 0 (len shape) -> shape_ok (coord shape <$> perm).
Proof.
  intros [Hpos Hv] Hp. assert (coord shape <$> perm ≡ₚ shape) as E by (rewrite Hp, coord_range; done).
  split; [by rewrite E|]. by rewrite (volume_perm _ _ E).
Qed.

Lemma coords_in_pointwise shape coords :
  length coords = length shape -> (forall p, 0 <= p < len shape -> 0 <= coord coords p < coord shape p) -> coords_in shape coords.
Proof.
  revert coords. induction shape as [|d s IH]; intros coords Hl Hp; destruct coords as [|c coords]; try done; [constructor|].
  rewrite len_cons in Hp. cbn in Hl. pose proof (len_nonneg s). constructor.
  - apply (Hp 0). lia.
  - apply IH; [lia|]. intros p Hps. specialize (Hp (p + 1) ltac:(lia)). by rewrite !coord_S in Hp by lia.
Qed.

(** Permuted coordinates are the permutation of some coordinates. *)
Lemma coords_unpermute shape perm coords' :
  perm ≡ₚ range 0 (len shape) -> coords_in (coord shape <$> perm) coords' ->
  exists coords, coords_in shape coords /\ coord coords <$> perm = coords'.
Proof.
  intros Hp Hc. pose proof (len_nonneg shape). pose proof (perm_bounds _ _ Hp) as Hb.
  assert (length coords' = length perm) as Hl by (by rewrite (coords_in_length _ _ Hc), length_fmap).
  set (m := list_to_map (zip perm coords') : gmap Z Z).
  set (coords := (fun p => default 0 (m !! p)) <$> range 0 (len shape)).
  assert (forall p, 0 <= p < len shape -> coord coords p = default 0 (m !! p)) as Hcoord.
  { intros p Hpp. unfold coord, coords. rewrite get_map, get_range by lia. by rewrite Z.add_0_l. }
  assert (NoDup perm) as Hnd.
  { rewrite Hp. unfold range. apply NoDup_seqZ. }
  assert (forall d p c, perm !! d = Some p -> coords' !! d = Some c -> m !! p = Some c) as Hm.
  { intros d p c Hd Hcd. apply elem_of_list_to_map_1; [by rewrite fst_zip by lia|].
    apply list_elem_of_lookup_2 with d. by rewrite lookup_zip_with, Hd, Hcd. }
  exists coords. split.
  - apply coords_in_pointwise.
    + unfold coords, range. rewrite length_fmap, length_seqZ. unfold len. lia.
    + intros p Hpp. rewrite Hcoord by done. assert (p ∈ perm) as Hin by (rewrite Hp; apply range_elem; lia).
      apply list_elem_of_lookup_1 in Hin as [d Hd]. unfold coords_in in Hc. rewrite Forall2_fmap_l in Hc.
      destruct (Forall2_lookup_l _ _ _ _ _ Hc Hd) as (c & Hcd & Hcc). by rewrite (Hm _ _ _ Hd Hcd).
  - apply list_eq. intros d. rewrite list_lookup_fmap. destruct (perm !! d) as [p|] eqn:Hd; cbn.
    + destruct (lookup_lt_is_Some_2 coords' d) as [c Hcd]; [apply lookup_lt_Some in Hd; lia|].
      rewrite Hcoord by (rewrite Forall_forall in Hb; apply Hb; by apply list_elem_of_lookup_2 in Hd).
      by rewrite (Hm _ _ _ Hd Hcd), Hcd.
    + symmetry. apply lookup_ge_None. apply lookup_ge_None in Hd. lia.
Qed.

(** A tensor whose data fill its shape. *)
Definition tensor_fits (t : Tensor) : Prop := shape_ok (Shape t) /\ len (Data t) = volume (Shape t).

Lemma newTensorUninit_len `{!Recycled} shape : shape_ok shape -> len (Data (newTensorUninit shape)) = volume shape.
Proof.
  intros Hs. pose proof (volume_pos _ (proj1 Hs)). cbn. rewrite tensorSize_volume by done.
  rewrite (proj2 (Z.leb_gt _ _)) by lia. apply stale_len. lia.
Qed.

Lemma NewTensor_len shape : shape_ok shape -> len (Data (NewTensor shape)) = volume shape.
Proof.
  intros Hs. pose proof (volume_pos _ (proj1 Hs)). cbn. rewrite tensorSize_volume by done.
  rewrite (proj2 (Z.leb_gt _ _)) by lia. unfold zeros. rewrite len_replicate. lia.
Qed.

(** The index [Transpose] reads for an element of the result. *)
Lemma Transpose_index shape perm coords :
  shape_ok shape -> perm ≡ₚ range 0 (len shape) -> coords_in shape coords ->
  walk (strides_of (coord shape <$> perm)) (fun d c => p ← get perm d; s ← get (strides_of shape) p; Some (i64 (c * s)))
    (ravel (coord shape <$> perm) (coord coords <$> perm)) = Some (ravel shape coords).
Proof.
  intros Hok Hp Hc. pose proof (perm_bounds _ _ Hp) as Hb. pose proof (shape_ok_perm _ _ Hok Hp) as Hok'.
  pose proof (coords_in_perm _ _ _ Hc Hb) as Hc'.
  rewrite (walk_spec _ _ (fun d c => c * weight shape (default 0 (get ([] ++ perm) d)))); [|done|by apply ravel_bounds|].
  - rewrite unravel_ravel by done. change 0 with (len (@nil Z)) at 2. rewrite sum_terms_perm.
    assert (Zsum ((fun p => coord coords p * weight shape p) <$> perm) = ravel shape coords) as ->.
    { rewrite (ravel_Zsum shape) by (by apply coords_in_length). apply Zsum_perm. by rewrite Hp. }
    f_equal. apply i64_small. pose proof (ravel_bounds _ _ Hc). destruct Hok as [_ Hv]. unfold min_int64, max_int64 in *. lia.
  - intros d c s Hs Hcs. apply get_Some in Hs. rewrite len_map in Hs. destruct (get_is_Some perm d Hs) as [p Ep].
    cbn [app]. rewrite Ep. cbn [mbind option_bind default]. rewrite get_strides.
    + cbn [mbind option_bind]. unfold weight. by rewrite i64_mul_r.
    + rewrite Forall_forall in Hb. apply Hb. unfold get in Ep. case_match; [|done]. by apply list_elem_of_lookup_2 in Ep.
Qed.

(** C35: transposing a tensor of an [int64]-countable shape by a permutation of its
    dimensions permutes the shape, and puts the element of every coordinates at the
    permuted coordinates; every element of the result is written, so nothing of the recycled
    buffer it stands in is left. *)
Theorem Transpose_permutes `{!Recycled} t perm :
  tensor_fits t -> perm ≡ₚ range 0 (Dims t) ->
  exists t', Transpose t perm = Some (t', Pooled) /\ tensor_fits t' /\
    Shape t' = coord (Shape t) <$> perm /\
    forall coords, coords_in (Shape t) coords ->
      get (Data t') (ravel (Shape t') (coord coords <$> perm)) = get (Data t) (ravel (Shape t) coords).
Proof.
  intros [Hok Hlen] Hp. unfold Dims in Hp. pose proof (perm_bounds _ _ Hp) as Hb.
  pose proof (len_perm _ _ Hp (len_nonneg _)) as Hlp. pose proof (shape_ok_perm _ _ Hok Hp) as Hok'.
  set (shape' := coord (Shape t) <$> perm) in *.
  pose proof (fun coords => Transpose_index (Shape t) perm coords Hok Hp) as Hwalk. fold shape' in Hwalk.
  unfold Transpose. assert (len perm =? Dims t = true) as -> by (apply Z.eqb_eq; unfold Dims; lia). cbn [negb].
  rewrite mapM_get by done. cbn [mbind option_bind]. fold shape'. rewrite tensorSize_volume by done.
  pose proof (volume_pos _ (proj1 Hok')) as Hv.
  run_fill_each vs Hvs Hget; [lia|by apply (newTensorUninit_len shape')| |].
  - intros i Hi. cbv beta. rewrite <- (ravel_unravel shape' i) by (by apply Hok' || done).
    destruct (coords_unpermute (Shape t) perm (unravel shape' i) Hp) as (coords & Hc & Ec).
    { apply unravel_in; [apply Hok'|done]. }
    rewrite <- Ec, Hwalk by done. cbn. apply get_is_Some. rewrite Hlen. by apply ravel_bounds.
  - eexists. split; [done|]. split; [done|]. split; [done|]. intros coords Hc. cbn [Data Shape with_data].
    pose proof (coords_in_perm _ _ _ Hc Hb) as Hc'. fold shape' in Hc'. pose proof (ravel_bounds _ _ Hc') as Hr.
    change (Shape (newTensorUninit shape')) with shape'. rewrite Hget by done. cbv beta. by rewrite Hwalk.
Qed.

(** A free list whose arrays happen to hold zeros. *)
Definition zero_recycled : Recycled.
Proof. refine {| stale := zeros; nil_data := fun _ => true |}. intros n Hn. unfold zeros. rewrite len_replicate. lia. Defined.

(** The numbers [0 .. n-1] in a shape. *)
Definition counting (shape : list Z) : Tensor := {| Data := f32_of_Z <$> range 0 (volume shape); Shape := shape |}.

Lemma counting_fits shape : shape_ok shape -> tensor_fits (counting shape).
Proof.
  intros Hok. split; [done|]. cbn [Data Shape counting]. rewrite len_map, range_len; [lia|].
  pose proof (volume_pos _ (proj1 Hok)). lia.
Qed.

Lemma Transpose_permutes_witness :
  tensor_fits (counting [2; 3]) /\
  exists t', @Transpose zero_recycled (counting [2; 3]) [1; 0] = Some (t', Pooled) /\ tensor_fits t' /\
    Shape t' = coord (Shape (counting [2; 3])) <$> [1; 0] /\
    forall coords, coords_in (Shape (counting [2; 3])) coords ->
      get (Data t') (ravel (Shape t') (coord coords <$> [1; 0])) = get (Data (counting [2; 3])) (ravel (Shape (counting [2; 3])) coords).
Proof.
  assert (tensor_fits (counting [2; 3])) as Hf.
  { apply counting_fits. split; [repeat constructor|]. unfold max_int64. cbn. lia. }
  split; [exact Hf|]. apply (@Transpose_permutes zero_recycled); [exact Hf|]. change (range 0 (Dims (counting [2; 3]))) with [0; 1].
  apply Permutation_swap.
Defined.

(** Slicing from 1 to the largest integer, which is how exporters write "to the end", gives
    nothing: the bound is kept as a float32, 2^63, and comes back as the smallest integer. *)
Definition scalar_list (v : Z) : Tensor := TensorOf [1] [f32_of_Z v].

Theorem slice_to_the_end_is_empty :
  opSlice [Some (counting [3]); Some (scalar_list 1); Some (scalar_list max_int64)] NewAttributes = op_new (NewTensor [0]).
Proof. vm_compute. reflexivity. Qed.
