(* ===== verification/OnnxBroadcast.v ===== *)
(** Broadcasting: what [broadcastShapes] and [broadcastIndex] compute, and that the fast
    paths of the element-wise operators agree with it. *)

From Stdlib Require Import SpecFloat.
From S2P Require Import Prelude Float64 GoSlices OnnxModel OnnxTensor OnnxShapeOps OnnxMathOps OnnxTensorTheorems.

#[local] Open Scope list_scope.

(** A shape aligned to the right among [n] dimensions. *)
Definition padded (shape : list Z) (n : Z) : list Z := replicate (Z.to_nat (n - len shape)) 1 ++ shape.

(** The dimensions of an input stretch to those of the output, or are them. *)
Definition stretches (inShape outShape : list Z) : Prop := Forall2 (fun di d => di = d \/ di = 1) inShape outShape.

(** The coordinates an input is read at: zero along its dimensions of size one. *)
Definition clamped (inShape coords : list Z) : list Z := zip_with (fun d c => if d =? 1 then 0 else c) inShape coords.

Lemma get_padded shape n i :
  len shape <= n -> 0 <= i < n ->
  get (padded shape n) i = if 0 <=? i - (n - len shape) then get shape (i - (n - len shape)) else Some 1.
Proof.
  intros Hn Hi. unfold padded. set (ones := replicate (Z.to_nat (n - len shape)) 1).
  assert (len ones = n - len shape) as Hl by (unfold ones; rewrite len_replicate; lia).
  destruct (Z.leb_spec 0 (i - (n - len shape))).
  - replace i with (len ones + (i - (n - len shape))) at 1 by lia. apply get_app_r. lia.
  - rewrite get_app_l by lia. unfold get. rewrite (proj2 (Z.leb_le 0 i)) by lia. apply lookup_replicate_2. lia.
Qed.

Lemma len_padded shape n : len shape <= n -> len (padded shape n) = n.
Proof. intros H. unfold padded. rewrite len_app, len_replicate. pose proof (len_nonneg shape). lia. Qed.

Lemma volume_padded shape n : volume (padded shape n) = volume shape.
Proof.
  unfold padded. rewrite volume_app. assert (forall k, volume (replicate k 1) = 1) as ->; [|lia].
  induction k as [|k IH]; cbn; [done|lia].
Qed.

(** Leading dimensions of size one do not move an index. *)
Lemma ravel_padded shape n coords :
  len shape <= n -> length coords = length (padded shape n) ->
  ravel (padded shape n) (clamped (padded shape n) coords) =
  ravel shape (clamped shape (drop (Z.to_nat (n - len shape)) coords)).
Proof.
  intros Hn. unfold padded. generalize (Z.to_nat (n - len shape)) as k. intros k.
  revert coords. induction k as [|k IH]; intros coords Hl; [by rewrite drop_0|].
  destruct coords as [|c coords]; [done|]. cbn in Hl |- *. apply IH. lia.
Qed.

Lemma stretches_pos inShape outShape : stretches inShape outShape -> Forall (fun d => 0 < d) outShape -> Forall (fun d => 0 < d) inShape.
Proof. induction 1; inversion_clear 1; constructor; [lia|auto]. Qed.

Lemma stretches_volume inShape outShape :
  stretches inShape outShape -> Forall (fun d => 0 < d) outShape -> volume inShape <= volume outShape.
Proof.
  intros Hs Hp. pose proof (stretches_pos _ _ Hs Hp) as Hp'. induction Hs as [|di d ins outs Hd Hs IH]; [done|].
  inversion_clear Hp. inversion_clear Hp'. specialize (IH ltac:(done) ltac:(done)). cbn.
  pose proof (volume_pos ins ltac:(done)). nia.
Qed.

Lemma clamped_in inShape outShape coords :
  stretches inShape outShape -> coords_in outShape coords -> coords_in inShape (clamped inShape coords).
Proof.
  intros Hs. revert coords. induction Hs as [|di d ins outs Hd Hs IH]; intros coords Hc; inversion_clear Hc; constructor.
  - case_match; bool_to_prop; lia.
  - by apply IH.
Qed.

(** ** The index loop *)

(** One turn, with the input padded to the rank of the output. *)
Definition bcast_step (outShape inShape : list Z) (k : Z) : Z * Z * Z -> option (Z * Z * Z) := fun '(flat, idx, stride) =>
  let i := len outShape - 1 - k in
  dimSize ← get outShape i;
  '(flat, coord) ← divmod flat dimSize;
  inDim ← get inShape i;
  let coord := if inDim =? 1 then 0 else coord in
  Some (flat, i64 (idx + i64 (coord * stride)), i64 (stride * inDim)).

Lemma bcast_step_eq outShape inShape k flat idx stride :
  bcast_step outShape inShape k (flat, idx, stride) =
  (dimSize ← get outShape (len outShape - 1 - k);
   '(flat, coord) ← divmod flat dimSize;
   inDim ← get inShape (len outShape - 1 - k);
   Some (flat, i64 (idx + i64 ((if inDim =? 1 then 0 else coord) * stride)), i64 (stride * inDim))).
Proof. done. Qed.

Lemma unravel_step d suf flat :
  0 < d -> 0 < volume suf ->
  unravel (d :: suf) (flat mod (d * volume suf)) = (flat / volume suf) mod d :: unravel suf (flat mod volume suf).
Proof.
  intros Hd Hv. cbn [unravel]. rewrite (Z.mul_comm d), Z.rem_mul_r by lia. f_equal.
  - rewrite Z.mul_comm, Z.div_add by lia. rewrite Z.div_small by (apply Z.mod_pos_bound; lia). lia.
  - f_equal. rewrite Z.mul_comm, Z_mod_plus_full. apply Z.mod_mod. lia.
Qed.

Lemma bcast_loop pre prei suf sufi flat :
  shape_ok (pre ++ suf) -> stretches prei pre -> stretches sufi suf -> 0 <= flat <= max_int64 ->
  for_range (len suf) (len pre + len suf) (bcast_step (pre ++ suf) (prei ++ sufi))
    (flat / volume suf, ravel sufi (clamped sufi (unravel suf (flat mod volume suf))), volume sufi) =
  Some (flat / volume (pre ++ suf),
        ravel (prei ++ sufi) (clamped (prei ++ sufi) (unravel (pre ++ suf) (flat mod volume (pre ++ suf)))),
        volume (prei ++ sufi)).
Proof.
  revert prei suf sufi. induction pre as [|d pre IH] using rev_ind; intros prei suf sufi Hok Hpre Hsuf Hflat.
  { inversion_clear Hpre. by rewrite for_range_nil by (rewrite len_nil; lia). }
  apply Forall2_app_inv_r in Hpre as (prei' & ? & Hpre & Hlast & ->). inversion_clear Hlast as [|di ? ? ? Hdi Hnil].
  inversion_clear Hnil. rewrite <- !app_assoc in *. cbn [app] in *. pose proof (len_nonneg pre). pose proof (len_nonneg suf).
  rewrite len_app. change (len [d]) with 1. rewrite for_range_step by lia. rewrite bcast_step_eq.
  destruct Hok as [Hpos Hmax]. pose proof (proj1 (Forall_app _ _ _) Hpos) as [Hpp Hds]. inversion_clear Hds as [|? ? Hd Hs].
  pose proof (volume_pos _ Hs) as Hv. pose proof (volume_pos _ Hpp) as Hvp.
  assert (d * volume suf <= max_int64) as Hdv by (rewrite volume_app in Hmax; cbn in Hmax; nia).
  assert (len (pre ++ d :: suf) - 1 - len suf = len pre) as -> by (rewrite len_app, len_cons; lia).
  assert (get (pre ++ d :: suf) (len pre) = Some d) as -> by (replace (len pre) with (len pre + 0) by lia; by rewrite get_app_r).
  assert (len prei' = len pre) as Elen by (unfold len; by rewrite (Forall2_length _ _ _ Hpre)).
  assert (get (prei' ++ di :: sufi) (len pre) = Some di) as Edi by (replace (len pre) with (len prei' + 0) by lia; by rewrite get_app_r).
  cbn [mbind option_bind]. rewrite divmod_pos; [|split; [apply Z.div_pos; lia|apply Z.div_le_upper_bound; nia]|done].
  cbn [mbind option_bind]. rewrite Edi. cbn [mbind option_bind].
  pose proof (stretches_pos _ _ Hsuf Hs) as Hsi. pose proof (volume_pos _ Hsi) as Hvi.
  assert (0 < di) as Hdi0 by lia. pose proof (stretches_volume _ _ Hsuf Hs) as Hle.
  assert (di * volume sufi <= max_int64) as Hdvi by nia.
  set (c := if di =? 1 then 0 else (flat / volume suf) mod d).
  pose proof (Z.mod_pos_bound (flat / volume suf) d ltac:(lia)) as Hcm.
  assert (0 <= c < di) as Hc by (unfold c; case_match; bool_to_prop; lia).
  set (r := ravel sufi (clamped sufi (unravel suf (flat mod volume suf)))).
  assert (0 <= r < volume sufi) as Hr.
  { apply ravel_bounds. apply (clamped_in _ suf); [done|]. apply unravel_in; [done|]. apply Z.mod_pos_bound. lia. }
  rewrite i64_add_r. rewrite (i64_small (r + _)) by (unfold min_int64, max_int64 in *; nia).
  rewrite (i64_small (volume sufi * di)) by (unfold min_int64, max_int64 in *; nia).
  rewrite Z.div_div by lia.
  specialize (IH prei' (d :: suf) (di :: sufi) ltac:(done) Hpre ltac:(by constructor) Hflat).
  rewrite len_cons in IH. replace (len suf + 1) with (1 + len suf) by lia.
  replace (len pre + 1 + len suf) with (len pre + (1 + len suf)) by lia. rewrite <- IH. f_equal. f_equal; [f_equal|].
  - f_equal. cbn. lia.
  - cbn [volume]. rewrite unravel_step by done. cbn [clamped zip_with ravel]. fold c. fold (clamped sufi (unravel suf (flat mod volume suf))).
    fold r. lia.
  - cbn. lia.
Qed.

(** The flat index of an input that stretches to the output. *)
Lemma broadcastIndex_spec flat outShape inShape :
  shape_ok outShape -> len inShape <= len outShape -> stretches (padded inShape (len outShape)) outShape ->
  0 <= flat < volume outShape ->
  broadcastIndex flat outShape inShape =
  Some (ravel inShape (clamped inShape (drop (Z.to_nat (len outShape - len inShape)) (unravel outShape flat)))).
Proof.
  intros Hok Hlen Hst Hflat. unfold broadcastIndex. pose proof Hok as [Hpos Hmax].
  pose proof (bcast_loop outShape (padded inShape (len outShape)) [] [] flat) as E. rewrite !app_nil_r in E.
  specialize (E Hok Hst ltac:(constructor) ltac:(lia)). change (len []) with 0 in E. rewrite Z.add_0_r in E.
  cbn [volume unravel clamped zip_with ravel] in E. rewrite Z.div_1_r in E.
  erewrite (for_range_ext_inv (fun '(_, idx, stride) => i64 idx = idx /\ i64 stride = stride)); [rewrite E|done|].
  - cbn. f_equal. rewrite Z.mod_small by lia. apply ravel_padded; [done|]. rewrite (Forall2_length _ _ _ Hst).
    apply coords_in_length. by apply unravel_in.
  - intros k [[f idx] stride] Hk [Hidx Hstride]. rewrite bcast_step_eq. destruct (get outShape (len outShape - 1 - k)) as [d|]; [|done].
    cbn [mbind option_bind]. destruct (divmod f d) as [[q c]|]; [|done]. cbn [mbind option_bind].
    rewrite get_padded by lia. destruct (0 <=? len outShape - 1 - k - (len outShape - len inShape)); cbn [mbind option_bind].
    + split; [done|]. intros [[q' idx'] stride']. destruct (get inShape _) as [di|]; [|done]. cbn. intros [= <- <- <-].
      by rewrite !i64_i64.
    + cbn [Z.eqb Pos.eqb]. rewrite Z.mul_0_l, Z.mul_1_r. change (i64 0) with 0. rewrite Z.add_0_r, Hidx, Hstride.
      split; [done|]. by intros [[q' idx'] stride'] [= <- <- <-].
Qed.

(** ** The output shape *)

(** The output dimension of two aligned ones. *)
Definition bdim (da db : Z) : option Z :=
  if da =? db then Some da else if da =? 1 then Some db else if db =? 1 then Some da else None.

Lemma broadcastShapes_mapM a b :
  broadcastShapes a b =
  match mapM (fun i => bdim (aligned a (Z.max (len a) (len b)) i) (aligned b (Z.max (len a) (len b)) i)) (range 0 (Z.max (len a) (len b))) with
  | Some dims => Ok dims
  | None => Err (IncompatibleShapes a b)
  end.
Proof.
  unfold broadcastShapes. set (n := Z.max (len a) (len b)). generalize (range 0 n) as l. intros l.
  match goal with |- foldl ?f _ l = _ => set (step := f) end.
  assert (forall e l, foldl step (Err e) l = Err e) as Herr by (intros e l'; induction l'; done).
  assert (forall l dims, foldl step (Ok dims) l =
    match mapM (fun i => bdim (aligned a n i) (aligned b n i)) l with
    | Some r => Ok (dims ++ r) | None => Err (IncompatibleShapes a b) end) as H; [|by rewrite H; destruct (mapM _ l)].
  clear l. induction l as [|i l IH]; intros dims; [cbn; by rewrite app_nil_r|]. cbn [foldl mapM].
  assert (step (Ok dims) i = match bdim (aligned a n i) (aligned b n i) with
            | Some d => Ok (dims ++ [d]) | None => Err (IncompatibleShapes a b) end) as ->.
  { unfold step, bdim. cbn [rbind]. repeat case_match; done. }
  destruct (bdim (aligned a n i) (aligned b n i)) as [d|]; cbn [mbind option_bind]; [|apply Herr].
  rewrite IH. destruct (mapM _ l) as [r|]; cbn; [|done]. by rewrite <- app_assoc.
Qed.

Lemma get_aligned shape n i : len shape <= n -> 0 <= i < n -> get (padded shape n) i = Some (aligned shape n i).
Proof.
  intros Hn Hi. rewrite get_padded by done. unfold aligned. replace (len shape - n + i) with (i - (n - len shape)) by lia.
  destruct (Z.leb_spec 0 (i - (n - len shape))).
  - destruct (get_is_Some shape (i - (n - len shape))) as [d ->]; [lia|]. done.
  - by rewrite get_None by lia.
Qed.

Lemma padded_self shape : padded shape (len shape) = shape.
Proof. unfold padded. by rewrite Z.sub_diag. Qed.

(** A second operand that stretches to the first leaves its shape. *)
Lemma broadcastShapes_left a b :
  len b <= len a -> stretches (padded b (len a)) a -> broadcastShapes a b = Ok a.
Proof.
  intros Hl Hs. rewrite broadcastShapes_mapM. rewrite Z.max_l by done.
  assert (mapM (fun i => bdim (aligned a (len a) i) (aligned b (len a) i)) (range 0 (len a)) = Some a) as ->; [|done].
  apply mapM_Some. apply Forall2_same_length_lookup_2; [unfold range; rewrite length_seqZ; unfold len; lia|].
  intros i x d Hx Hd. unfold range in Hx. apply lookup_seqZ in Hx as [-> Hi]. rewrite Z.add_0_l.
  pose proof (get_aligned a (len a) (Z.of_nat i) ltac:(lia) ltac:(lia)) as Ha. rewrite padded_self, get_nat, Hd in Ha.
  pose proof (get_aligned b (len a) (Z.of_nat i) ltac:(lia) ltac:(lia)) as Hb. rewrite get_nat in Hb.
  destruct (Forall2_lookup_lr _ _ _ _ _ _ Hs Hb Hd) as [E|E]; injection Ha as ->; unfold bdim; repeat case_match; bool_to_prop; congruence.
Qed.

Lemma stretches_self shape : stretches shape shape.
Proof. induction shape; constructor; [by left|done]. Qed.

Lemma clamped_self shape coords : coords_in shape coords -> clamped shape coords = coords.
Proof. induction 1 as [|d c s cs Hc _ IH]; cbn; [done|]. fold (clamped s cs). rewrite IH. f_equal. case_match; bool_to_prop; lia. Qed.

Lemma broadcastIndex_self shape i : shape_ok shape -> 0 <= i < volume shape -> broadcastIndex i shape shape = Some i.
Proof.
  intros Hok Hi. rewrite broadcastIndex_spec; [|done|lia|by rewrite padded_self; apply stretches_self|done].
  rewrite Z.sub_diag, drop_0. rewrite clamped_self by (apply unravel_in; [apply Hok|done]).
  f_equal. apply ravel_unravel; [apply Hok|done].
Qed.

(** Where the second operand is read for the element at some coordinates of the first. *)
Definition operand_index (a b : Tensor) (coords : list Z) : Z :=
  ravel (Shape b) (clamped (Shape b) (drop (Z.to_nat (Dims a - Dims b)) coords)).

(** The fallback, for a second operand that stretches to the first. *)
Lemma binaryOpSlow_left a b op :
  tensor_fits a -> tensor_fits b -> Dims b <= Dims a -> stretches (padded (Shape b) (Dims a)) (Shape a) ->
  exists vs, binaryOpSlow a b op = op_new (TensorOf (Shape a) vs) /\ len vs = volume (Shape a) /\
    forall coords, coords_in (Shape a) coords ->
      get vs (ravel (Shape a) coords) =
      (x ← get (Data a) (ravel (Shape a) coords); y ← get (Data b) (operand_index a b coords); Some (op x y)).
Proof.
  intros [Hoka Hla] [Hokb Hlb] Hl Hs. unfold binaryOpSlow. rewrite broadcastShapes_left by done.
  unfold broadcast_data. rewrite tensorSize_volume by done. pose proof (volume_pos _ (proj1 Hoka)) as Hv.
  assert (forall coords, coords_in (Shape a) coords ->
            broadcastIndex (ravel (Shape a) coords) (Shape a) (Shape b) = Some (operand_index a b coords)) as Hidx.
  { intros coords Hc. rewrite broadcastIndex_spec by (done || by apply ravel_bounds). by rewrite unravel_ravel. }
  assert (forall coords, coords_in (Shape a) coords -> 0 <= operand_index a b coords < volume (Shape b)) as Hbound.
  { intros coords Hc. unfold operand_index. rewrite <- ravel_padded; [|done|].
    - rewrite <- (volume_padded (Shape b) (Dims a)). apply ravel_bounds. by apply (clamped_in _ (Shape a)).
    - rewrite (Forall2_length _ _ _ Hs). by apply coords_in_length. }
  run_fill_each vs Hvs Hget; [lia|by apply (NewTensor_len (Shape a))| |].
  - intros i Hi. rewrite broadcastIndex_self by done. cbn [mbind option_bind].
    rewrite <- (ravel_unravel (Shape a) i) at 1 by (apply Hoka || done).
    assert (coords_in (Shape a) (unravel (Shape a) i)) as Hc by (apply unravel_in; [apply Hoka|done]).
    rewrite Hidx by done. cbn [mbind option_bind]. destruct (get_is_Some (Data a) i) as [x ->]; [lia|]. cbn [mbind option_bind].
    destruct (get_is_Some (Data b) (operand_index a b (unravel (Shape a) i))) as [y ->]; [rewrite Hlb; by apply Hbound|]. by eexists.
  - exists vs. split; [done|]. split; [done|]. intros coords Hc. pose proof (ravel_bounds _ _ Hc).
    rewrite Hget by done. by rewrite broadcastIndex_self, Hidx.
Qed.

(** ** The fast paths *)

Lemma op_new_ext shape vs ws : len vs = len ws -> (forall i, 0 <= i < len vs -> get vs i = get ws i) ->
  op_new (TensorOf shape vs) = op_new (TensorOf shape ws).
Proof. intros Hl Hg. by rewrite (get_ext vs ws). Qed.

(** Equality at all coordinates of a shape is equality. *)
Lemma coords_ext shape vs ws :
  Forall (fun d => 0 < d) shape -> len vs = volume shape -> len ws = volume shape ->
  (forall coords, coords_in shape coords -> get vs (ravel shape coords) = get ws (ravel shape coords)) -> vs = (ws : list float32).
Proof.
  intros Hp Hv Hw H. apply get_ext; [lia|]. intros i Hi. rewrite <- (ravel_unravel shape i) by (done || lia).
  apply H. apply unravel_in; [done|lia].
Qed.

Section FastPaths.
Context {Rec : Recycled} {Mach : Machine}.
Variables (a b : Tensor) (op : float32 -> float32 -> float32).
Hypotheses (Ha : tensor_fits a) (Hb : tensor_fits b).

Lemma same_shape_slow : Shape a = Shape b -> same_shape a b op = binaryOpSlow a b op.
Proof using Ha Hb.
  intros E. destruct (binaryOpSlow_left a b op Ha Hb) as (vs & -> & Hvs & Hget).
  { unfold Dims. rewrite E. lia. }
  { unfold Dims. rewrite E, padded_self. apply stretches_self. }
  destruct Ha as [Hoka Hla], Hb as [Hokb Hlb]. pose proof (volume_pos _ (proj1 Hoka)).
  unfold same_shape. rewrite newTensorUninit_len by done.
  run_fill_each ws Hws Hgw; [lia|by apply newTensorUninit_len| |].
  - intros i Hi. destruct (get_is_Some (Data a) i) as [x ->]; [lia|]. destruct (get_is_Some (Data b) i) as [y ->]; [rewrite Hlb, <- E; lia|].
    by eexists.
  - change (op_new (with_data (newTensorUninit (Shape a)) ws)) with (op_new (TensorOf (Shape a) ws)).
    rewrite (coords_ext (Shape a) ws vs); [done|apply Hoka|done|done|]. intros coords Hc. pose proof (ravel_bounds _ _ Hc).
    rewrite Hgw, Hget by done. unfold operand_index. unfold Dims. rewrite <- E, Z.sub_diag, drop_0. by rewrite clamped_self.
Qed.

(** All dimensions of a one-element tensor are one. *)
Lemma volume_1 shape : Forall (fun d => 0 < d) shape -> volume shape = 1 -> Forall (fun d => d = 1) shape.
Proof.
  induction 1 as [|d s Hd Hs IH]; intros E; [constructor|]. cbn in E. pose proof (volume_pos _ Hs).
  constructor; [nia|]. apply IH. nia.
Qed.

Lemma ones_stretch shape n : Forall (fun d => d = 1) (padded shape (len n)) -> len shape <= len n -> stretches (padded shape (len n)) n.
Proof.
  intros H Hl. apply Forall2_same_length_lookup_2.
  - pose proof (len_padded shape (len n) Hl) as E. unfold len in E |- *. lia.
  - intros i x y Hx _. right. by apply (proj1 (Forall_lookup _ _) H i).
Qed.

Lemma scalar_index coords :
  volume (Shape b) = 1 -> Dims b <= Dims a -> coords_in (Shape a) coords -> operand_index a b coords = 0.
Proof using Ha Hb.
  intros Hv Hd Hc. destruct Hb as [Hokb _]. pose proof (volume_1 _ (proj1 Hokb) Hv) as H1.
  assert (stretches (padded (Shape b) (Dims a)) (Shape a)) as Hs.
  { apply ones_stretch; [|done]. apply Forall_app. split; [|done]. by apply Forall_replicate. }
  unfold operand_index. rewrite <- ravel_padded; [|done|rewrite (Forall2_length _ _ _ Hs); by apply coords_in_length].
  pose proof (ravel_bounds _ _ (clamped_in _ _ _ Hs Hc)) as Hr. rewrite volume_padded in Hr. lia.
Qed.

Lemma scalar_slow bv :
  volume (Shape b) = 1 -> Dims b <= Dims a -> get (Data b) 0 = Some bv ->
  (data ← fill_each (len (Data (newTensorUninit (Shape a)))) (fun i => x ← get (Data a) i; Some (op x bv)) (Data (newTensorUninit (Shape a)));
   op_new (with_data (newTensorUninit (Shape a)) data)) = binaryOpSlow a b op.
Proof using Ha Hb.
  intros Hv Hd Hbv. pose proof Hb as [Hokb Hlb]. pose proof (volume_1 _ (proj1 Hokb) Hv) as H1.
  destruct (binaryOpSlow_left a b op Ha Hb Hd) as (vs & -> & Hvs & Hget).
  { apply ones_stretch; [|done]. apply Forall_app. split; [|done]. by apply Forall_replicate. }
  pose proof Ha as [Hoka Hla]. pose proof (volume_pos _ (proj1 Hoka)). rewrite newTensorUninit_len by done.
  run_fill_each ws Hws Hgw; [lia|by apply newTensorUninit_len| |].
  - intros i Hi. destruct (get_is_Some (Data a) i) as [x ->]; [lia|]. by eexists.
  - change (op_new (with_data (newTensorUninit (Shape a)) ws)) with (op_new (TensorOf (Shape a) ws)).
    rewrite (coords_ext (Shape a) ws vs); [done|apply Hoka|done|done|]. intros coords Hc. pose proof (ravel_bounds _ _ Hc).
    rewrite Hgw, Hget by done. rewrite scalar_index by done. by rewrite Hbv.
Qed.

(** What the per-channel loops leave, by image, channel and position. *)
Lemma per_channel_get n c s src (f : Z -> option (float32 -> float32)) buf :
  0 < n -> 0 < c -> 0 < s -> len src = n * c * s -> len buf = n * c * s ->
  (forall ci, 0 <= ci < c -> is_Some (f ci)) ->
  exists vs, per_channel n c s src f buf = Some vs /\ len vs = n * c * s /\
    forall ni ci si, 0 <= ni < n -> 0 <= ci < c -> 0 <= si < s ->
      get vs ((ni * c + ci) * s + si) = (g ← f ci; v ← get src ((ni * c + ci) * s + si); Some (g v)).
Proof using.
  intros Hn Hc Hs Hsrc Hbuf Hf. set (G ci := default (fun v => v) (f ci)). set (V i := default fzero (get src i)).
  set (row ni ci := (fun si => G ci (V ((ni * c + ci) * s + si))) <$> range 0 s).
  set (image ni := mjoin (row ni <$> range 0 c)).
  assert (forall ni ci, len (row ni ci) = s) as Hrow by (intros; unfold row; rewrite len_map, range_len; lia).
  assert (forall ni, len (image ni) = c * s) as Himage
    by (intros; unfold image; rewrite (len_mjoin _ _ s) by done; rewrite range_len; lia).
  set (vs := mjoin (image <$> range 0 n)).
  assert (len vs = n * c * s) as Hvs by (unfold vs; rewrite (len_mjoin _ _ (c * s)) by done; rewrite range_len; lia).
  exists vs. split; [|split; [done|]].
  - unfold per_channel. rewrite (emits_at_whole _ vs); [done| |lia].
    apply (emits_at_loop _ _ _ (c * s)); [|done]. intros ni Hni. apply (emits_at_loop _ _ _ s); [|done]. intros ci Hci.
    destruct (Hf ci Hci) as [g Hg]. rewrite Hg. cbn [mbind option_bind]. unfold row. apply emits_at_each. intros si Hsi.
    intros b' Hb' Hl. replace (0 + (ni - 0) * (c * s) + (ci - 0) * s + (si - 0)) with ((ni * c + ci) * s + si) in * by lia.
    destruct (get_is_Some src ((ni * c + ci) * s + si)) as [v Hv]; [rewrite Hsrc; apply flat_bound; [by apply flat_bound|done]|].
    unfold G, V. rewrite Hg, Hv. cbn [mbind option_bind default]. by apply emits_emit.
  - intros ni ci si Hni Hci Hsi. replace ((ni * c + ci) * s + si) with (ni * (c * s) + (ci * s + si)) by lia.
    unfold vs. rewrite (get_mjoin _ _ (c * s)); [|done|nia|lia]. rewrite get_range, Z.add_0_l by lia. cbn [mbind option_bind].
    unfold image. rewrite (get_mjoin _ _ s); [|done|lia|lia]. rewrite get_range, Z.add_0_l by lia. cbn [mbind option_bind].
    unfold row. rewrite get_map, get_range, Z.add_0_l by lia. cbn [fmap option_fmap option_map].
    destruct (Hf ci Hci) as [g Hg]. replace (ni * (c * s) + (ci * s + si)) with ((ni * c + ci) * s + si) by lia.
    destruct (get_is_Some src ((ni * c + ci) * s + si)) as [v Hv]; [rewrite Hsrc; apply flat_bound; [by apply flat_bound|done]|]. unfold G, V. by rewrite Hg, Hv.
Qed.

Lemma isPerChannel_inv sp ch :
  isPerChannelBroadcast (Shape a) (Shape b) = Some (sp, ch) ->
  exists n h w, Shape a = [n; ch; h; w] /\ sp = i64 (h * w) /\ (Shape b = [ch; 1; 1] \/ Shape b = [1; ch; 1; 1]).
Proof using.
  unfold isPerChannelBroadcast. destruct (Shape a) as [|n [|c [|h [|w [|? ?]]]]]; try done.
  destruct (Shape b) as [|s0 [|s1 [|s2 [|s3 [|? ?]]]]]; try done.
  - destruct (negb (s1 =? 1) || negb (s2 =? 1)) eqn:E1; cbn; [done|]. destruct (negb (s0 =? c)) eqn:E2; [done|].
    intros [= <- <-]. bool_to_prop. subst. exists n, h, w. auto.
  - destruct (negb (s0 =? 1) || negb (s2 =? 1) || negb (s3 =? 1)) eqn:E1; cbn; [done|]. destruct (negb (s1 =? c)) eqn:E2; [done|].
    intros [= <- <-]. bool_to_prop. subst. exists n, h, w. auto.
Qed.

Lemma per_channel_slow n ch h w :
  Shape a = [n; ch; h; w] -> Shape b = [ch; 1; 1] \/ Shape b = [1; ch; 1; 1] ->
  (data ← per_channel n ch (i64 (h * w)) (Data a) (fun c => bv ← get (Data b) c; Some (fun x => op x bv)) (Data (newTensorUninit (Shape a)));
   op_new (with_data (newTensorUninit (Shape a)) data)) = binaryOpSlow a b op.
Proof using Ha Hb.
  intros Ea Eb. pose proof Ha as [Hoka Hla]. pose proof Hb as [Hokb Hlb].
  assert (0 < n /\ 0 < ch /\ 0 < h /\ 0 < w) as (Hn & Hc & Hh & Hw).
  { destruct Hoka as [Hp _]. rewrite Ea, !Forall_cons in Hp. tauto. }
  assert (volume (Shape a) = n * ch * (h * w)) as Eva by (rewrite Ea; cbn; lia).
  assert (volume (Shape b) = ch) as Evb by (destruct Eb as [-> | ->]; cbn; lia).
  assert (i64 (h * w) = h * w) as ->.
  { apply i64_small. destruct Hoka as [_ Hm]. rewrite Eva in Hm. unfold min_int64, max_int64 in *. nia. }
  assert (Dims b <= Dims a) as Hd by (unfold Dims; rewrite Ea; destruct Eb as [-> | ->]; unfold len; cbn; lia).
  assert (stretches (padded (Shape b) (Dims a)) (Shape a)) as Hs.
  { unfold Dims. rewrite Ea. destruct Eb as [-> | ->]; unfold padded, len; cbn; repeat constructor; (by left) || (by right). }
  destruct (binaryOpSlow_left a b op Ha Hb Hd Hs) as (vs & -> & Hvs & Hget).
  destruct (per_channel_get n ch (h * w) (Data a) (fun c => bv ← get (Data b) c; Some (fun x => op x bv)) (Data (newTensorUninit (Shape a))))
    as (ws & -> & Hws & Hgw); [done|done|nia|lia|rewrite newTensorUninit_len by done; lia| |].
  { intros ci Hci. destruct (get_is_Some (Data b) ci) as [y ->]; [lia|]. by eexists. }
  cbn [mbind option_bind]. change (op_new (with_data (newTensorUninit (Shape a)) ws)) with (op_new (TensorOf (Shape a) ws)).
  rewrite (coords_ext (Shape a) ws vs); [done|apply Hoka|lia|done|]. intros coords Hco. rewrite Hget by done.
  pose proof Hco as Hco'. rewrite Ea in Hco'.
  apply Forall2_cons_inv_l in Hco' as (ni & cs1 & Hni & Hc1 & ->). apply Forall2_cons_inv_l in Hc1 as (ci & cs2 & Hci & Hc2 & ->).
  apply Forall2_cons_inv_l in Hc2 as (hi & cs3 & Hhi & Hc3 & ->). apply Forall2_cons_inv_l in Hc3 as (wi & cs4 & Hwi & Hc4 & ->).
  apply Forall2_nil_inv_l in Hc4 as ->.
  assert (ravel (Shape a) [ni; ci; hi; wi] = (ni * ch + ci) * (h * w) + (hi * w + wi)) as -> by (rewrite Ea; cbn; lia).
  rewrite Hgw by (done || by apply flat_bound).
  assert (operand_index a b [ni; ci; hi; wi] = ci) as ->.
  { unfold operand_index, Dims. rewrite Ea. 
    destruct Eb as [-> | ->];
      [change (Z.to_nat (len [n; ch; h; w] - len [ch; 1; 1])) with 1%nat|change (Z.to_nat (len [n; ch; h; w] - len [1; ch; 1; 1])) with 0%nat];
      cbn -[Z.mul Z.add]; destruct (Z.eqb_spec ch 1); lia. }
  destruct (get (Data b) ci); cbn; [|by destruct (get (Data a) _)]. by destruct (get (Data a) _).
Qed.

(** C21: on operands whose data fill their shapes, the second of no higher rank than the
    first, the fast paths of [opAdd] and [opMul] (equal shapes, one element, one value per
    channel) give, bit for bit, the tensor or the error of the generic broadcast, whatever
    the recycled buffer of the result held. *)
Theorem fast_paths_broadcast attrs :
  Dims b <= Dims a -> binary_fast op [Some a; Some b] attrs = binaryOpSlow a b op.
Proof using Ha Hb.
  intros Hd. pose proof Ha as [Hoka Hla]. pose proof Hb as [Hokb Hlb]. pose proof (volume_pos _ (proj1 Hokb)).
  unfold binary_fast. cbn [len length Z.of_nat Pos.of_succ_nat Z.ltb Z.compare Pos.compare Pos.compare_cont input get mjoin option_join].
  change (input [Some a; Some b] 0) with (Some a). change (input [Some a; Some b] 1) with (Some b).
  change (len [Some a; Some b] <? 2) with false. cbn [mbind option_bind]. unfold shapesEqual.
  case_bool_decide as Es; [by apply same_shape_slow|].
  destruct ((len (Shape b) =? 0) || (len (Data b) =? 1)) eqn:Eone.
  - assert (volume (Shape b) = 1) as Hv.
    { apply orb_true_iff in Eone as [E|E]; apply Z.eqb_eq in E; [|lia]. by rewrite (len_0 _ E). }
    destruct (get_is_Some (Data b) 0) as [bv Hbv]; [lia|]. rewrite Hbv. cbn [mbind option_bind]. by apply scalar_slow.
  - destruct (isPerChannelBroadcast (Shape a) (Shape b)) as [[sp ch]|] eqn:Ep; [|done].
    apply isPerChannel_inv in Ep as (n & h & w & Ea & -> & Eb). rewrite <- (per_channel_slow n ch h w) by done.
    rewrite Ea. done.
Qed.
End FastPaths.

Lemma fast_paths_broadcast_witness :
  @binary_fast zero_recycled add32 [Some (counting [2; 3]); Some (counting [3])] NewAttributes =
  binaryOpSlow (counting [2; 3]) (counting [3]) add32.
Proof.
  assert (max_int64 = 9223372036854775807) as Hmax by done.
  apply (@fast_paths_broadcast zero_recycled); [apply counting_fits; split; [repeat constructor|cbn; lia]..|]. change (1 <= 2). lia.
Defined.
