(* ===== verification/OnnxColumns.v ===== *)
(** Matrix products: the tiled loops of [sgemmPureGo] compute, bit for bit, what the
    textbook triple loop does.

    Columns: what the three ways of laying out the patches of an input for the matrix
    product put there.

    The reference is a tap: the element of the padded input an output position reads with
    one element of the kernel, zero outside the input.  [im2col] tests nothing inside the
    interior it computes, [im2colNoPadNoDil] tests nothing at all, and for a kernel of one
    element the input itself is the columns. *)

From Stdlib Require Import SpecFloat.
From S2P Require Import Prelude Float64 GoSlices OnnxModel OnnxTensor OnnxShapeOps OnnxMathOps OnnxConv OnnxTensorTheorems.

#[local] Open Scope list_scope.

Section Gemm.
Context {Mach : Machine}.

(** An element of a matrix; the matrices below are as large as their dimensions say. *)
Definition at_index (l : list float32) (i : Z) : float32 := default fzero (get l i).

(** The sum of the first [q] products of row [i] and column [j], in the order of the
    columns of [a], each added by the machine's multiply-add. *)
Definition partial_dot (a b : list float32) (n k i j q : Z) : float32 :=
  foldl (fun acc p => mul_add (at_index a (i * k + p)) (at_index b (p * n + j)) acc) fzero (range 0 q).

Definition dot (a b : list float32) (n k i j : Z) : float32 := partial_dot a b n k i j k.

(** The product as a list, row after row. *)
Definition matmul (a b : list float32) (m n k : Z) : list float32 :=
  mjoin ((fun i => (fun j => dot a b n k i j) <$> range 0 n) <$> range 0 m).

Lemma at_index_get l i : 0 <= i < len l -> get l i = Some (at_index l i).
Proof. intros Hi. unfold at_index. by destruct (get_is_Some l i Hi) as [v ->]. Qed.

Lemma partial_dot_0 a b n k i j : partial_dot a b n k i j 0 = fzero.
Proof. done. Qed.

Lemma partial_dot_S a b n k i j q :
  0 <= q -> partial_dot a b n k i j (q + 1) = mul_add (at_index a (i * k + q)) (at_index b (q * n + j)) (partial_dot a b n k i j q).
Proof.
  intros Hq. unfold partial_dot. rewrite (range_app 0 q (q + 1)) by lia. rewrite foldl_app.
  rewrite (range_cons q) by lia. by rewrite (range_nil (q + 1)) by lia.
Qed.

Lemma len_matmul a b m n k : 0 <= m -> 0 <= n -> len (matmul a b m n k) = m * n.
Proof.
  intros Hm Hn. unfold matmul. rewrite (len_mjoin _ _ n) by (intros i _; rewrite len_map, range_len; lia).
  rewrite range_len by lia. lia.
Qed.

Lemma get_matmul a b m n k i j :
  0 <= i < m -> 0 <= j < n -> get (matmul a b m n k) (i * n + j) = Some (dot a b n k i j).
Proof.
  intros Hi Hj. unfold matmul. rewrite (get_mjoin _ _ n); [|intros x _; rewrite len_map, range_len; lia|done|lia].
  rewrite get_range, Z.add_0_l by lia. cbn [mbind option_bind]. by rewrite get_map, get_range, Z.add_0_l by lia.
Qed.

Section Loops.
Variables (a b : list float32) (m n k : Z).
Hypotheses (Hm : 0 < m) (Hn : 0 < n) (Hk : 0 < k) (Hla : m * k <= len a) (Hlb : k * n <= len b).

(** Every element holds the sum of its first [P i j] products. *)
Definition progress (P : Z -> Z -> Z) (c : list float32) : Prop :=
  len c = m * n /\ forall i j, 0 <= i < m -> 0 <= j < n -> get c (i * n + j) = Some (partial_dot a b n k i j (P i j)).

Lemma progress_ext P Q c :
  (forall i j, 0 <= i < m -> 0 <= j < n -> P i j = Q i j) -> progress P c -> progress Q c.
Proof using. intros E [Hl Hp]. split; [done|]. intros i j Hi Hj. rewrite <- E by done. by apply Hp. Qed.

Lemma mac_progress P c i p j :
  0 <= i < m -> 0 <= j < n -> 0 <= p < k -> P i j = p -> progress P c ->
  exists c', mac_step b (at_index a (i * k + p)) n i p j c = Some c' /\
    progress (fun i' j' => if decide (i' = i /\ j' = j) then p + 1 else P i' j') c'.
Proof using Hm Hn Hk Hla Hlb.
  intros Hi Hj Hp EP [Hl Hc]. unfold mac_step. rewrite Hc, EP by done. cbn [mbind option_bind].
  rewrite at_index_get by (pose proof (flat_bound p k j n Hp Hj); lia). cbn [mbind option_bind].
  pose proof (flat_bound i m j n Hi Hj) as Hij. rewrite set_Some by lia. eexists. split; [done|]. split.
  - rewrite len_splice; [done|lia|]. unfold len at 1. cbn. lia.
  - intros i' j' Hi' Hj'. rewrite get_splice by (lia || (unfold len at 1; cbn; lia)). change (len [_]) with 1.
    case_decide as Hd.
    + destruct Hd as [-> ->]. rewrite (proj2 (Z.leb_le _ _)), (proj2 (Z.ltb_lt _ _)) by lia. cbn [andb]. rewrite Z.sub_diag.
      cbn. by rewrite partial_dot_S by lia.
    + assert (i' * n + j' <> i * n + j) as Hne.
      { intros E. apply Hd. assert (i' = i) by nia. subst. split; [done|]. lia. }
      destruct (Z.leb_spec (i * n + j) (i' * n + j')), (Z.ltb_spec (i' * n + j') (i * n + j + 1)); cbn [andb]; try lia; by apply Hc.
Qed.

(** One product for the columns [jj .. jEnd-1] of a row. *)
Lemma row_progress P c i p jj jEnd :
  0 <= i < m -> 0 <= jj <= jEnd -> jEnd <= n -> 0 <= p < k -> (forall j, jj <= j < jEnd -> P i j = p) -> progress P c ->
  exists c', for_range jj jEnd (fun j => mac_step b (at_index a (i * k + p)) n i p j) c = Some c' /\
    progress (fun i' j' => if decide (i' = i /\ jj <= j' < jEnd) then p + 1 else P i' j') c'.
Proof using Hm Hn Hk Hla Hlb.
  intros Hi Hjj Hj Hp HP Hc.
  apply (for_range_inv (fun j0 => progress (fun i' j' => if decide (i' = i /\ jj <= j' < j0) then p + 1 else P i' j')) jj jEnd); [lia| |].
  - eapply progress_ext; [|done]. intros i' j' _ _. case_decide; [lia|done].
  - intros j s Hjr Hs. pose proof (fun E => mac_progress _ s i p j Hi ltac:(lia) Hp E Hs) as Hmac. cbv beta in Hmac. rewrite decide_False in Hmac by lia.
    destruct (Hmac ltac:(by apply HP)) as (c' & E & Hc').
    exists c'. split; [done|]. eapply progress_ext; [|done]. intros i' j' _ _. cbv beta. repeat case_decide; lia.
Qed.

(** The products [kk .. kEnd-1] for those columns. *)
Lemma block_progress P c i jj jEnd kk kEnd :
  0 <= i < m -> 0 <= jj <= jEnd -> jEnd <= n -> 0 <= kk <= kEnd -> kEnd <= k -> (forall j, jj <= j < jEnd -> P i j = kk) -> progress P c ->
  exists c', for_range kk kEnd (fun p c => aip ← get a (i * k + p); for_range jj jEnd (fun j => mac_step b aip n i p j) c) c = Some c' /\
    progress (fun i' j' => if decide (i' = i /\ jj <= j' < jEnd) then kEnd else P i' j') c'.
Proof using Hm Hn Hk Hla Hlb.
  intros Hi Hjj Hj Hkk Hke HP Hc.
  apply (for_range_inv (fun p0 => progress (fun i' j' => if decide (i' = i /\ jj <= j' < jEnd) then p0 else P i' j')) kk kEnd); [lia| |].
  - eapply progress_ext; [|done]. intros i' j' _ _. cbv beta. case_decide as Hd; [|done]. destruct Hd as [-> Hd]. by apply HP.
  - intros p s Hp Hs. rewrite at_index_get by (pose proof (flat_bound i m p k Hi ltac:(lia)); lia). cbn [mbind option_bind].
    pose proof (fun E => row_progress _ s i p jj jEnd Hi Hjj Hj ltac:(lia) E Hs) as Hrow. cbv beta in Hrow.
    destruct (Hrow ltac:(intros j Hjr; by rewrite decide_True by done)) as (c' & E & Hc').
    exists c'. split; [done|]. eapply progress_ext; [|done]. intros i' j' _ _. cbv beta. repeat case_decide; lia.
Qed.

(** A tile: rows [ii .. iEnd-1], those columns, those products. *)
Lemma tile_progress P c ii iEnd jj jEnd kk kEnd :
  0 <= ii <= iEnd -> iEnd <= m -> 0 <= jj <= jEnd -> jEnd <= n -> 0 <= kk <= kEnd -> kEnd <= k ->
  (forall i j, ii <= i < iEnd -> jj <= j < jEnd -> P i j = kk) -> progress P c ->
  exists c', for_range ii iEnd (fun i => for_range kk kEnd (fun p c => aip ← get a (i * k + p); for_range jj jEnd (fun j => mac_step b aip n i p j) c)) c = Some c' /\
    progress (fun i' j' => if decide (ii <= i' < iEnd /\ jj <= j' < jEnd) then kEnd else P i' j') c'.
Proof using Hm Hn Hk Hla Hlb.
  intros Hii Him Hjj Hj Hkk Hke HP Hc.
  apply (for_range_inv (fun i0 => progress (fun i' j' => if decide (ii <= i' < i0 /\ jj <= j' < jEnd) then kEnd else P i' j')) ii iEnd); [lia| |].
  - eapply progress_ext; [|done]. intros i' j' _ _. cbv beta. case_decide; [lia|done].
  - intros i s Hi Hs. pose proof (fun E => block_progress _ s i jj jEnd kk kEnd ltac:(lia) Hjj Hj Hkk Hke E Hs) as Hblock. cbv beta in Hblock.
    destruct (Hblock ltac:(intros j Hjr; rewrite decide_False by lia; apply HP; lia)) as (c' & E & Hc').
    exists c'. split; [done|]. eapply progress_ext; [|done]. intros i' j' _ _. cbv beta. repeat case_decide; lia.
Qed.

(** The tiles of the rows [ii .. iEnd-1], for those products. *)
Lemma strip_progress P c ii iEnd kk kEnd :
  0 <= ii <= iEnd -> iEnd <= m -> 0 <= kk <= kEnd -> kEnd <= k ->
  (forall i j, ii <= i < iEnd -> P i j = kk) -> progress P c ->
  exists c', for_step 0 n tileSize (fun jj => let jEnd := Z.min (jj + tileSize) n in
      for_range ii iEnd (fun i => for_range kk kEnd (fun p c => aip ← get a (i * k + p); for_range jj jEnd (fun j => mac_step b aip n i p j) c))) c = Some c' /\
    progress (fun i' j' => if decide (ii <= i' < iEnd) then kEnd else P i' j') c'.
Proof using Hm Hn Hk Hla Hlb.
  intros Hii Him Hkk Hke HP Hc.
  destruct (for_step_inv (fun j0 => progress (fun i' j' => if decide (ii <= i' < iEnd /\ j' < j0) then kEnd else P i' j')) 0 n tileSize
    (fun jj => let jEnd := Z.min (jj + tileSize) n in
      for_range ii iEnd (fun i => for_range kk kEnd (fun p c => aip ← get a (i * k + p); for_range jj jEnd (fun j => mac_step b aip n i p j) c))) c)
    as (c' & E & Hc'); [lia|done| | |].
  - eapply progress_ext; [|done]. intros i' j' _ Hj'. cbv beta. case_decide; lia.
  - intros jj s Hjj Hs. cbv zeta. assert (0 < tileSize) by done. set (jEnd := Z.min (jj + tileSize) n).
    pose proof (fun E => tile_progress _ s ii iEnd jj jEnd kk kEnd ltac:(lia) ltac:(lia) ltac:(lia) ltac:(lia) ltac:(lia) ltac:(lia) E Hs) as Htile.
    cbv beta in Htile. destruct (Htile ltac:(intros i j Hi Hj; rewrite decide_False by lia; apply HP; lia)) as (s' & E & Hs').
    exists s'. split; [done|]. eapply progress_ext; [|done]. intros i' j' _ Hj'. cbv beta. repeat case_decide; lia.
  - exists c'. split; [done|]. eapply progress_ext; [|done]. intros i' j' _ Hj'. cbv beta. repeat case_decide; lia.
Qed.

(** All the products of those rows. *)
Lemma rows_progress P c ii iEnd :
  0 <= ii <= iEnd -> iEnd <= m -> (forall i j, ii <= i < iEnd -> P i j = 0) -> progress P c ->
  exists c', for_step 0 k tileSize (fun kk => let kEnd := Z.min (kk + tileSize) k in
      for_step 0 n tileSize (fun jj => let jEnd := Z.min (jj + tileSize) n in
        for_range ii iEnd (fun i => for_range kk kEnd (fun p c => aip ← get a (i * k + p); for_range jj jEnd (fun j => mac_step b aip n i p j) c)))) c = Some c' /\
    progress (fun i' j' => if decide (ii <= i' < iEnd) then k else P i' j') c'.
Proof using Hm Hn Hk Hla Hlb.
  intros Hii Him HP Hc.
  apply (for_step_inv (fun k0 => progress (fun i' j' => if decide (ii <= i' < iEnd) then k0 else P i' j')) 0 k tileSize); [lia|done| |].
  - eapply progress_ext; [|done]. intros i' j' _ _. cbv beta. case_decide; [|done]. by apply HP.
  - intros kk s Hkk Hs. cbv zeta. assert (0 < tileSize) by done. set (kEnd := Z.min (kk + tileSize) k).
    pose proof (fun E => strip_progress _ s ii iEnd kk kEnd Hii Him ltac:(lia) ltac:(lia) E Hs) as Hstrip. cbv beta in Hstrip.
    destruct (Hstrip ltac:(intros i j Hi; by rewrite decide_True by done)) as (s' & E & Hs').
    exists s'. split; [done|]. eapply progress_ext; [|done]. intros i' j' _ _. cbv beta. repeat case_decide; lia.
Qed.

(** Every product of every row. *)
Lemma all_progress c :
  progress (fun _ _ => 0) c ->
  exists c', for_step 0 m tileSize (fun ii => let iEnd := Z.min (ii + tileSize) m in
      for_step 0 k tileSize (fun kk => let kEnd := Z.min (kk + tileSize) k in
        for_step 0 n tileSize (fun jj => let jEnd := Z.min (jj + tileSize) n in
          for_range ii iEnd (fun i => for_range kk kEnd (fun p c => aip ← get a (i * k + p); for_range jj jEnd (fun j => mac_step b aip n i p j) c))))) c = Some c' /\
    progress (fun i _ => if decide (i < m) then k else 0) c'.
Proof using Hm Hn Hk Hla Hlb.
  intros Hc.
  apply (for_step_inv (fun i0 => progress (fun i' _ => if decide (i' < i0) then k else 0)) 0 m tileSize); [lia|done| |].
  - eapply progress_ext; [|done]. intros i' j' Hi' _. cbv beta. case_decide; lia.
  - intros ii s Hii Hs. cbv zeta. assert (0 < tileSize) by done. set (iEnd := Z.min (ii + tileSize) m).
    pose proof (fun E => rows_progress _ s ii iEnd ltac:(lia) ltac:(lia) E Hs) as Hrows. cbv beta in Hrows.
    destruct (Hrows ltac:(intros i j Hi; rewrite decide_False by lia; done)) as (s' & E & Hs').
    exists s'. split; [done|]. eapply progress_ext; [|done]. intros i' j' _ _. cbv beta. repeat case_decide; lia.
Qed.

Lemma zeros_progress : progress (fun _ _ => 0) (zeros (m * n)).
Proof using Hm Hn Hk Hla Hlb.
  split; [unfold zeros; rewrite len_replicate; lia|]. intros i j Hi Hj. unfold zeros, get.
  pose proof (flat_bound i m j n Hi Hj). rewrite (proj2 (Z.leb_le _ _)) by lia. apply lookup_replicate_2. lia.
Qed.

(** On matrices of positive dimensions, as long as their dimensions need, the tiled
    loops leave the textbook product in the output: every element is the sum of its
    products in the order of the inner index, with the roundings of the machine's
    multiply-add, whatever the output held. *)
Theorem sgemmPureGo_matmul c :
  len c = m * n -> sgemmPureGo a b c m n k = Some (matmul a b m n k).
Proof using Hm Hn Hk Hla Hlb.
  intros Hlc. unfold sgemmPureGo, in_slice. rewrite subslice_Some by lia. cbn [mbind option_bind].
  rewrite Z.sub_0_r, Z2Nat.inj_0, drop_0. rewrite take_ge by (unfold len in Hlc; lia).
  rewrite Hlc. rewrite splice_all by (unfold zeros; rewrite len_replicate; lia).
  destruct (all_progress _ zeros_progress) as (c' & E & Hl & Hc). cbv zeta in E |- *. rewrite E.
  f_equal. apply get_ext; [rewrite len_matmul; lia|]. intros i Hi. rewrite Hl in Hi.
  pose proof (Z.div_mod i n ltac:(lia)) as Ed. pose proof (Z.mod_pos_bound i n Hn).
  assert (0 <= i / n < m) by (split; [apply Z.div_pos; lia|apply Z.div_lt_upper_bound; lia]).
  replace i with (i / n * n + i mod n) by lia. rewrite get_matmul, Hc by done. by rewrite decide_True by lia.
Qed.
End Loops.
End Gemm.

(** A processor that rounds a product before it adds it (its exponential is not used by a
    matrix product). *)
Definition rounding_machine : Machine := {| mul_add := mul_add_rounded; Exp := fun x => x |}.

(** * Columns *)

(** The numbers of a convolution a machine can have: positive sizes and steps, no negative
    padding, a kernel that fits the padded input, and the output lengths that follow.  The
    last two fields are what [im2col] needs beyond that: padding no wider than the steps of
    the output take it. *)
Record geometry_ok (g : Geometry) : Prop := {
  ok_N : 0 < gN g; ok_C : 0 < gC g; ok_H : 0 < gH g; ok_W : 0 < gW g; ok_M : 0 < gM g <= max_int64;
  ok_kH : 0 < kH g; ok_kW : 0 < kW g; ok_group : 0 < group g;
  ok_strideH : 0 < strideH g; ok_strideW : 0 < strideW g; ok_dilH : 0 < dilH g; ok_dilW : 0 < dilW g;
  ok_pads : 0 <= padTop g /\ 0 <= padLeft g /\ 0 <= padBottom g /\ 0 <= padRight g;
  ok_outH : 0 < outH g /\ (outH g - 1) * strideH g + (kH g - 1) * dilH g < gH g + padTop g + padBottom g <= outH g * strideH g + (kH g - 1) * dilH g;
  ok_outW : 0 < outW g /\ (outW g - 1) * strideW g + (kW g - 1) * dilW g < gW g + padLeft g + padRight g <= outW g * strideW g + (kW g - 1) * dilW g;
  ok_boundH : gH g + padTop g + padBottom g + kH g * dilH g + strideH g <= max_int64;
  ok_boundW : gW g + padLeft g + padRight g + kW g * dilW g + strideW g <= max_int64;
  ok_reachH : padTop g <= outH g * strideH g;
  ok_reachW : padLeft g <= outW g * strideW g /\ padRight g <= outW g * strideW g
}.

(** The element at a row and a column of the padded input. *)
Definition tap (g : Geometry) (input : list float32) (n c ih iw : Z) : float32 :=
  if inside g ih iw then at_index input (((n * gC g + c) * gH g + ih) * gW g + iw) else fzero.

(** What the output position [oh, ow] reads with the kernel element [kh, kw]. *)
Definition patch (g : Geometry) (input : list float32) (n c kh kw oh ow : Z) : float32 :=
  tap g input n c (oh * strideH g + (kh * dilH g - padTop g)) (ow * strideW g + (kw * dilW g - padLeft g)).

Definition patch_row (g : Geometry) input n c kh kw oh : list float32 := patch g input n c kh kw oh <$> range 0 (outW g).
Definition patch_rows (g : Geometry) input n c kh kw : list float32 := mjoin (patch_row g input n c kh kw <$> range 0 (outH g)).

(** The columns of [cCount] channels from [cStart] on: channel by channel, kernel row by
    row, and for each element the row of all output positions. *)
Definition columns (g : Geometry) (input : list float32) (n cStart cCount : Z) : list float32 :=
  mjoin ((fun c => mjoin ((fun kh => mjoin ((fun kw => patch_rows g input n (cStart + c) kh kw) <$> range 0 (kW g))) <$> range 0 (kH g))) <$> range 0 cCount).

(** ** The interior *)

Lemma quot_ceil a s : 0 < s -> 0 < a -> Z.quot (a + s - 1) s = (a + s - 1) / s.
Proof. intros Hs Ha. apply Z.quot_div_nonneg; lia. Qed.

Lemma ceil_le a s o : 0 < s -> ((a + s - 1) / s <= o <-> a <= o * s).
Proof.
  intros Hs. pose proof (Z.div_mod (a + s - 1) s ltac:(lia)). pose proof (Z.mod_pos_bound (a + s - 1) s Hs). split; intros; nia.
Qed.

Lemma divmod_quot a b : b <> 0 -> min_int64 <= Z.quot a b <= max_int64 -> divmod a b = Some (Z.quot a b, Z.rem a b).
Proof.
  intros Hb Hq. unfold divmod, div64. rewrite (proj2 (Z.eqb_neq b 0)) by done. by rewrite i64_small.
Qed.

Lemma quot_bound a s : 0 < s -> Z.abs (Z.quot a s) <= Z.abs a.
Proof.
  intros Hs. destruct (Z.leb_spec 0 a) as [Ha|Ha].
  - pose proof (Z.quot_pos a s Ha Hs). pose proof (Z.quot_le_upper_bound a s a Hs ltac:(nia)). lia.
  - rewrite <- (Z.opp_involutive a), Z.quot_opp_l by lia. pose proof (Z.quot_pos (- a) s ltac:(lia) Hs).
    pose proof (Z.quot_le_upper_bound (- a) s (- a) Hs ltac:(nia)). lia.
Qed.

(** The interior is exactly the output positions whose tap is inside. *)
Lemma interior_spec size out stride offset :
  0 < size -> 0 < out -> 0 < stride -> - offset <= out * stride -> Z.abs offset + size + stride <= max_int64 ->
  exists start stop, interior size out stride offset = Some (start, stop) /\ 0 <= start <= stop /\ stop <= out /\
    (stride = 1 -> start + offset = Z.max 0 offset) /\ forall o, 0 <= o < out -> (start <= o < stop <-> 0 <= o * stride + offset < size).
Proof.
  intros Hsz Ho Hst Hreach Hb. assert (min_int64 = - max_int64 - 1) as Hmin by done. unfold interior.
  assert (exists start, (if offset <? 0 then fst <$> divmod (- offset + stride - 1) stride else Some 0) = Some start /\ 0 <= start <= out /\
    (stride = 1 -> start + offset = Z.max 0 offset) /\ forall o, 0 <= o -> (start <= o <-> 0 <= o * stride + offset)) as (start & -> & Hs & Hone & Hstart).
  { destruct (Z.ltb_spec offset 0) as [Hneg|Hpos]; [|exists 0; split; [done|]; split; [lia|]; split; [lia|]; intros; nia].
    pose proof (quot_bound (- offset + stride - 1) stride Hst). rewrite divmod_quot by lia. rewrite quot_ceil by lia.
    cbn [fmap option_fmap option_map fst]. eexists. split; [done|]. split.
    - split; [apply Z.div_pos; lia|]. by apply ceil_le.
    - split; [intros ->; rewrite Z.div_1_r; lia|]. intros o Hoo. rewrite ceil_le by done. lia. }
  cbn [mbind option_bind].
  assert (exists stop, (if size - offset <? out * stride then '(q, _) ← divmod (size - offset + stride - 1) stride; Some (if out <? q then out else q) else Some out) = Some stop /\
    stop <= out /\ forall o, 0 <= o < out -> (o < stop <-> o * stride + offset < size)) as (stop & -> & Hle & Hstop).
  { destruct (Z.ltb_spec (size - offset) (out * stride)) as [Hlt|Hge]; [|exists out; split; [done|]; split; [lia|]; intros; nia].
    pose proof (quot_bound (size - offset + stride - 1) stride Hst). rewrite divmod_quot by lia. cbn [mbind option_bind].
    eexists. split; [done|]. split; [destruct (Z.ltb_spec out (Z.quot (size - offset + stride - 1) stride)); lia|].
    intros o Hoo. destruct (Z.ltb_spec 0 (size - offset)) as [Hp|Hnp].
    - rewrite quot_ceil by lia. pose proof (ceil_le (size - offset) stride o Hst) as Hc.
      destruct (Z.ltb_spec out ((size - offset + stride - 1) / stride)); lia.
    - assert (Z.quot (size - offset + stride - 1) stride <= 0) as Hq.
      { destruct (Z.leb_spec 0 (size - offset + stride - 1)) as [Hx|Hx].
        - rewrite Z.quot_small by lia. done.
        - rewrite <- (Z.opp_involutive (size - offset + stride - 1)), Z.quot_opp_l by lia. pose proof (Z.quot_pos (- (size - offset + stride - 1)) stride). lia. }
      destruct (Z.ltb_spec out (Z.quot (size - offset + stride - 1) stride)); nia. }
  cbn [mbind option_bind]. exists start, (if stop <? start then start else stop). split; [done|].
  destruct (Z.ltb_spec stop start) as [Hlt|Hge].
  - split; [lia|]. split; [lia|]. split; [done|]. intros o Hoo. rewrite <- Hstart, <- Hstop by lia. lia.
  - split; [lia|]. split; [lia|]. split; [done|]. intros o Hoo. rewrite <- Hstart, <- Hstop by lia. lia.
Qed.

(** ** What the loops emit *)

Lemma for_range_const {S} lo hi (body : S -> option S) s : for_range lo hi (fun _ => body) s = for_range 0 (hi - lo) (fun _ => body) s.
Proof.
  unfold for_range. rewrite Z.sub_0_r. generalize (Z.to_nat (hi - lo)) as k. intros k. generalize 0 as j. revert lo s.
  induction k as [|k IH]; intros lo s j; [done|]. cbn. destruct (body s); [|done]. cbn. apply IH.
Qed.

Lemma emits_ext {A} (f : list A * Z -> option (list A * Z)) vs ws : vs = ws -> emits f vs -> emits f ws.
Proof. by intros ->. Qed.

(** A run of positions, each of its own value. *)
Lemma emits_values {A} lo hi (body : Z -> list A * Z -> option (list A * Z)) (v : Z -> A) :
  (forall i, lo <= i < hi -> emits (body i) [v i]) -> emits (for_range lo hi body) (v <$> range lo hi).
Proof. intros H. rewrite <- mjoin_singles. by apply emits_loop. Qed.

Lemma emits_zeros_as lo hi (v : Z -> float32) :
  (forall i, lo <= i < hi -> v i = fzero) -> emits (emit_zeros (hi - lo)) (v <$> range lo hi).
Proof.
  intros Hv. unfold emit_zeros. intros buf idx. rewrite <- (for_range_const lo hi (emit fzero)). revert buf idx. apply emits_values. intros i Hi.
  rewrite Hv by done. apply emits_emit.
Qed.

Section Taps.
Variables (g : Geometry) (input : list float32) (n c : Z).
Hypotheses (Hg : geometry_ok g) (Hn : 0 <= n < gN g) (Hc : 0 <= c < gC g) (Hlen : gN g * gC g * gH g * gW g <= len input).

Lemma inside_spec ih iw : inside g ih iw = true <-> 0 <= ih < gH g /\ 0 <= iw < gW g.
Proof using Hg Hn Hc Hlen. unfold inside. rewrite !andb_true_iff, !Z.leb_le, !Z.ltb_lt. tauto. Qed.

Lemma tap_inside ih iw :
  0 <= ih < gH g -> 0 <= iw < gW g ->
  get input (((n * gC g + c) * gH g + ih) * gW g + iw) = Some (tap g input n c ih iw) /\
  0 <= ((n * gC g + c) * gH g + ih) * gW g + iw < len input.
Proof using Hg Hn Hc Hlen.
  intros Hi Hw. pose proof (flat_bound n (gN g) c (gC g) Hn Hc) as H1. pose proof (flat_bound _ _ ih (gH g) H1 Hi) as H2.
  pose proof (flat_bound _ _ iw (gW g) H2 Hw) as H3. split; [|lia]. unfold tap. rewrite (proj2 (inside_spec ih iw)) by done.
  apply at_index_get. lia.
Qed.

Lemma tap_outside ih iw : ~ (0 <= ih < gH g /\ 0 <= iw < gW g) -> tap g input n c ih iw = fzero.
Proof using Hg Hn Hc Hlen. intros Ho. unfold tap. destruct (inside g ih iw) eqn:E; [by apply inside_spec in E|done]. Qed.

(** A row of the interior. *)
Lemma row_emits kh kw oh owStart owEnd :
  0 <= oh * strideH g + (kh * dilH g - padTop g) < gH g ->
  0 <= owStart <= owEnd -> owEnd <= outW g -> (strideW g = 1 -> dilW g = 1 -> 0 <= owStart + (kw * dilW g - padLeft g) <= gW g) ->
  (forall ow, 0 <= ow < outW g -> (owStart <= ow < owEnd <-> 0 <= ow * strideW g + (kw * dilW g - padLeft g) < gW g)) ->
  emits (im2col_row g input (((n * gC g + c) * gH g * gW g) + (oh * strideH g + (kh * dilH g - padTop g)) * gW g) (kw * dilW g - padLeft g) owStart owEnd)
    (patch_row g input n c kh kw oh).
Proof using Hg Hn Hc Hlen.
  intros Hih Hs Hout Hcopy Hin. set (ih := oh * strideH g + (kh * dilH g - padTop g)) in *. set (off := kw * dilW g - padLeft g) in *.
  unfold patch_row. rewrite (range_app 0 owStart (outW g)), fmap_app by lia. rewrite (range_app owStart owEnd (outW g)), fmap_app by lia.
  assert (forall ow, owStart <= ow < owEnd ->
    get input (((n * gC g + c) * gH g * gW g) + ih * gW g + (ow * strideW g + off)) = Some (patch g input n c kh kw oh ow) /\
    0 <= ((n * gC g + c) * gH g * gW g) + ih * gW g + (ow * strideW g + off) < len input) as Htap.
  { intros ow How. pose proof (proj1 (Hin ow ltac:(lia)) How) as Hiw.
    replace (((n * gC g + c) * gH g * gW g) + ih * gW g + (ow * strideW g + off)) with (((n * gC g + c) * gH g + ih) * gW g + (ow * strideW g + off)) by lia.
    by apply tap_inside. }
  assert (forall ow, 0 <= ow < owStart \/ owEnd <= ow < outW g -> patch g input n c kh kw oh ow = fzero) as Hzero.
  { intros ow How. apply tap_outside. intros [_ Hiw]. apply Hin in Hiw; lia. }
  unfold im2col_row. apply (emits_seq (emit_zeros owStart)).
  { rewrite <- (Z.sub_0_r owStart) at 1. apply emits_zeros_as. intros ow How. apply Hzero. lia. }
  apply (emits_seq _ (emit_zeros (outW g - owEnd))); [|apply emits_zeros_as; intros ow How; apply Hzero; lia].
  destruct ((strideW g =? 1) && (dilW g =? 1)) eqn:Eone.
  - apply andb_true_iff in Eone as [E1%Z.eqb_eq E2%Z.eqb_eq]. specialize (Hcopy E1 E2). intros buf idx Hi Hl. unfold emit_block.
    rewrite len_map, range_len in * by lia. rewrite E1 in *. set (src := (n * gC g + c) * gH g * gW g + ih * gW g + owStart + off).
    assert (0 <= src /\ src + (owEnd - owStart) <= len input) as [Hlo Hhi].
    { pose proof (flat_bound n (gN g) c (gC g) Hn Hc) as H1. pose proof (flat_bound _ _ ih (gH g) H1 Hih) as H2.
      pose proof (ok_W g Hg). split; [unfold src; nia|]. destruct (decide (owStart = owEnd)) as [->|]; [unfold src; nia|].
      pose proof (Htap (owEnd - 1) ltac:(lia)) as [_ Hh]. unfold src. lia. }
    pose proof (subslice_Some input src (src + (owEnd - owStart)) ltac:(lia) Hhi) as Es.
    assert (subslice input src (src + (owEnd - owStart)) = Some (patch g input n c kh kw oh <$> range owStart owEnd)) as Hsub.
    { rewrite Es. f_equal. pose proof Es as (_ & _ & _ & Hlb)%subslice_is_Some.
      apply get_ext; [rewrite len_map, range_len; lia|]. intros i Hi'. rewrite (get_subslice _ _ _ _ i Es) by lia.
      rewrite get_map, get_range by lia. cbn [fmap option_fmap option_map]. destruct (Htap (owStart + i) ltac:(lia)) as [<- _].
      f_equal. unfold src. lia. }
    rewrite (writes_copy idx input _ src (owEnd - owStart)) by (lia || done || (rewrite len_map, range_len; lia)). done.
  - apply emits_values. intros ow How buf idx Hi Hl. destruct (Htap ow How) as [E _]. rewrite E. cbn [mbind option_bind].
    by apply emits_emit.
Qed.
(** One kernel element: zero rows, the interior, zero rows. *)
Lemma tap_emits kh kw :
  0 <= kh < kH g -> 0 <= kw < kW g ->
  emits (im2col_tap g input ((n * gC g + c) * gH g * gW g) kh kw) (patch_rows g input n c kh kw).
Proof using Hg Hn Hc Hlen.
  intros Hkh Hkw. pose proof Hg as [_ _ HH HW _ _ _ _ HsH HsW HdH HdW Hpads [HoH HfH] [HoW HfW] HbH HbW HrH [HrW HrR]].
  assert (0 <= kh * dilH g <= (kH g - 1) * dilH g) by nia. assert (0 <= kw * dilW g <= (kW g - 1) * dilW g) by nia.
  destruct (interior_spec (gH g) (outH g) (strideH g) (kh * dilH g - padTop g)) as (ohS & ohE & EH & HH1 & HH2 & _ & HHin); [lia..|].
  destruct (interior_spec (gW g) (outW g) (strideW g) (kw * dilW g - padLeft g)) as (owS & owE & EW & HW1 & HW2 & HW3 & HWin); [lia..|].
  unfold patch_rows. rewrite (range_app 0 ohS (outH g)), fmap_app, join_app by lia. rewrite (range_app ohS ohE (outH g)), fmap_app, join_app by lia.
  assert (forall lo hi, 0 <= lo <= hi -> hi <= outH g -> (forall oh, lo <= oh < hi -> oh < ohS \/ ohE <= oh) ->
    emits (for_range 0 (hi - lo) (fun _ => emit_zeros (outW g))) (mjoin (patch_row g input n c kh kw <$> range lo hi))) as Hborder.
  { intros lo hi Hlo Hhi Hout buf idx. rewrite <- (for_range_const lo hi (emit_zeros (outW g))). revert buf idx. apply emits_loop. intros oh Hoh.
    unfold patch_row. rewrite <- (Z.sub_0_r (outW g)) at 1. apply emits_zeros_as. intros ow _. apply tap_outside. intros [Hih _].
    apply HHin in Hih; [|lia]. specialize (Hout oh Hoh). lia. }
  intros buf idx Hi Hl. unfold im2col_tap. rewrite EH. cbn [mbind option_bind]. rewrite EW. cbn [mbind option_bind]. revert buf idx Hi Hl.
  apply (emits_seq (for_range 0 ohS (fun _ => emit_zeros (outW g)))).
  { rewrite <- (Z.sub_0_r ohS) at 1. apply Hborder; [lia|lia|]. intros; lia. }
  apply (emits_seq (for_range ohS ohE _) (for_range 0 (outH g - ohE) (fun _ => emit_zeros (outW g)))).
  - apply emits_loop. intros oh Hoh. apply row_emits; [by apply HHin; lia|lia|lia| |done]. intros E1 E2. rewrite (HW3 E1).
    rewrite E1, E2 in *. lia.
  - apply Hborder; [lia|lia|]. intros; lia.
Qed.

(** Without padding and dilation, no test is needed. *)
Lemma tap_emits_plain kh kw :
  padTop g = 0 -> padLeft g = 0 -> padBottom g = 0 -> padRight g = 0 -> dilH g = 1 -> dilW g = 1 -> 0 <= kh < kH g -> 0 <= kw < kW g ->
  emits (for_range 0 (outH g) (fun oh =>
      for_range 0 (outW g) (fun ow st =>
        v ← get input ((n * gC g + c) * gH g * gW g + (oh * strideH g + kh) * gW g + ow * strideW g + kw); emit v st)))
    (patch_rows g input n c kh kw).
Proof using Hg Hn Hc Hlen.
  intros Pt Pl Pb Pr Dh Dw Hkh Hkw. pose proof Hg as [_ _ HH HW _ _ _ _ HsH HsW _ _ _ [HoH HfH] [HoW HfW] _ _ _ _].
  rewrite Pt, Pl, Pb, Pr, Dh, Dw in *.
  unfold patch_rows. apply emits_loop. intros oh Hoh. unfold patch_row. apply emits_values. intros ow How buf idx Hi Hl.
  unfold patch. rewrite Pt, Pl, Dh, Dw.
  assert (0 <= oh * strideH g + (kh * 1 - 0) < gH g) as Hih by nia. assert (0 <= ow * strideW g + (kw * 1 - 0) < gW g) as Hiw by nia.
  destruct (tap_inside _ _ Hih Hiw) as [E _].
  replace ((n * gC g + c) * gH g * gW g + (oh * strideH g + kh) * gW g + ow * strideW g + kw)
    with (((n * gC g + c) * gH g + (oh * strideH g + (kh * 1 - 0))) * gW g + (ow * strideW g + (kw * 1 - 0))) by lia.
  rewrite E. cbn [mbind option_bind]. by apply emits_emit.
Qed.
End Taps.

Section Columns.
Variables (g : Geometry) (input : list float32) (n cStart cCount : Z).
Hypotheses (Hg : geometry_ok g) (Hn : 0 <= n < gN g) (Hlen : gN g * gC g * gH g * gW g <= len input)
  (Hc0 : 0 <= cStart) (Hcc : 0 <= cCount) (Hc1 : cStart + cCount <= gC g).

Lemma im2col_emits :
  emits (for_range 0 cCount (fun c => for_range 0 (kH g) (fun kh => for_range 0 (kW g) (fun kw =>
      im2col_tap g input ((n * gC g + (cStart + c)) * gH g * gW g) kh kw)))) (columns g input n cStart cCount).
Proof using Hg Hn Hlen Hc0 Hcc Hc1.
  apply emits_loop. intros c Hc. apply emits_loop. intros kh Hkh. apply emits_loop. intros kw Hkw. apply tap_emits; (done || lia).
Qed.

Theorem im2col_columns col : len col = len (columns g input n cStart cCount) -> im2col g input n cStart cCount col = Some (columns g input n cStart cCount).
Proof using Hg Hn Hlen Hc0 Hcc Hc1.
  intros El. unfold im2col. pose proof (emits_whole _ _ col im2col_emits El) as E. cbv zeta. by rewrite E.
Qed.

Lemma im2colNoPadNoDil_columns col :
  noPad g = true -> noDil g = true -> len col = len (columns g input n cStart cCount) ->
  im2colNoPadNoDil g input n cStart cCount col = Some (columns g input n cStart cCount).
Proof using Hg Hn Hlen Hc0 Hcc Hc1.
  unfold noPad, noDil. rewrite !andb_true_iff, !Z.eqb_eq. intros [[[Pt Pl] Pb] Pr] [Dh Dw] El. unfold im2colNoPadNoDil.
  assert (emits (for_range 0 cCount (fun c =>
      for_range 0 (kH g) (fun kh => for_range 0 (kW g) (fun kw =>
        for_range 0 (outH g) (fun oh => for_range 0 (outW g) (fun ow st =>
            v ← get input ((n * gC g + (cStart + c)) * gH g * gW g + (oh * strideH g + kh) * gW g + ow * strideW g + kw); emit v st))))))
    (columns g input n cStart cCount)) as Hem.
  { apply emits_loop. intros c Hc. apply emits_loop. intros kh Hkh. apply emits_loop. intros kw Hkw. apply tap_emits_plain; (done || lia). }
  cbv zeta. rewrite (emits_whole _ _ col Hem El). done.
Qed.

(** ** Reading the columns *)

Lemma len_patch_rows c kh kw : len (patch_rows g input n c kh kw) = outH g * outW g.
Proof using Hg Hn Hlen Hc0 Hcc Hc1.
  pose proof (ok_outH g Hg). pose proof (ok_outW g Hg). unfold patch_rows. rewrite (len_mjoin _ _ (outW g)).
  - rewrite range_len by lia. lia.
  - intros oh _. unfold patch_row. rewrite len_map, range_len; lia.
Qed.

Lemma len_columns : len (columns g input n cStart cCount) = cCount * kH g * kW g * (outH g * outW g).
Proof using Hg Hn Hlen Hc0 Hcc Hc1.
  pose proof (ok_kH g Hg). pose proof (ok_kW g Hg). unfold columns. rewrite (len_mjoin _ _ (kH g * (kW g * (outH g * outW g)))).
  { rewrite range_len by lia. lia. }
  intros c _. rewrite (len_mjoin _ _ (kW g * (outH g * outW g))); [rewrite range_len by lia; lia|].
  intros kh _. rewrite (len_mjoin _ _ (outH g * outW g)); [rewrite range_len by lia; lia|]. intros kw _. apply len_patch_rows.
Qed.

(** The row of the kernel element [c, kh, kw] at the position [oh, ow]. *)
Lemma get_columns c kh kw oh ow :
  0 <= c < cCount -> 0 <= kh < kH g -> 0 <= kw < kW g -> 0 <= oh < outH g -> 0 <= ow < outW g ->
  get (columns g input n cStart cCount) (((c * kH g + kh) * kW g + kw) * (outH g * outW g) + (oh * outW g + ow)) =
  Some (patch g input n (cStart + c) kh kw oh ow).
Proof using Hg Hn Hlen Hc0 Hcc Hc1.
  intros Hc Hkh Hkw Hoh How. pose proof (flat_bound _ _ _ _ Hoh How) as Hs. pose proof (flat_bound _ _ _ _ Hkw Hs) as H1.
  pose proof (flat_bound _ _ _ _ Hkh H1) as H2. set (S := outH g * outW g) in *. unfold columns.
  replace (((c * kH g + kh) * kW g + kw) * S + (oh * outW g + ow)) with (c * (kH g * (kW g * S)) + (kh * (kW g * S) + (kw * S + (oh * outW g + ow)))) by lia.
  rewrite (get_mjoin _ _ (kH g * (kW g * S))); [|intros c' _|lia|lia].
  2:{ rewrite (len_mjoin _ _ (kW g * S)); [rewrite range_len by lia; lia|]. intros kh' _. rewrite (len_mjoin _ _ S); [rewrite range_len by lia; lia|].
      intros kw' _. apply len_patch_rows. }
  rewrite get_range by lia. cbn [mbind option_bind]. rewrite Z.add_0_l.
  rewrite (get_mjoin _ _ (kW g * S)); [|intros kh' _|lia|lia].
  2:{ rewrite (len_mjoin _ _ S); [rewrite range_len by lia; lia|]. intros kw' _. apply len_patch_rows. }
  rewrite get_range by lia. cbn [mbind option_bind]. rewrite Z.add_0_l.
  rewrite (get_mjoin _ _ S); [|intros kw' _; apply len_patch_rows|lia|lia].
  rewrite get_range by lia. cbn [mbind option_bind]. rewrite Z.add_0_l. unfold patch_rows.
  rewrite (get_mjoin _ _ (outW g)); [|intros oh' _; unfold patch_row; rewrite len_map, range_len; lia|lia|lia].
  rewrite get_range by lia. cbn [mbind option_bind]. rewrite Z.add_0_l. unfold patch_row. rewrite get_map, get_range by lia. done.
Qed.

(** For a kernel of one element and no padding, the channels themselves are the columns. *)
Lemma one_by_one_columns xs :
  is1x1 g = true -> subslice input ((n * gC g + cStart) * gH g * gW g) ((n * gC g + cStart) * gH g * gW g + cCount * (outH g * outW g)) = Some xs ->
  xs = columns g input n cStart cCount.
Proof using Hg Hn Hlen Hc0 Hcc Hc1.
  unfold is1x1, noPad. rewrite !andb_true_iff, !Z.eqb_eq. intros [[[[EkH EkW] EsH] EsW] [[[Pt Pl] Pb] Pr]] Hsub.
  assert (outH g = gH g /\ outW g = gW g) as [EoH EoW].
  { pose proof (ok_outH g Hg) as [_ Hh]. pose proof (ok_outW g Hg) as [_ Hw]. rewrite EkH, EkW, EsH, EsW, Pt, Pl, Pb, Pr in *. lia. }
  pose proof Hsub as (_ & _ & _ & Hl)%subslice_is_Some. apply get_ext; [rewrite len_columns, EkH, EkW; lia|].
  intros i Hi. rewrite (get_subslice _ _ _ _ i Hsub) by lia. pose proof (ok_outH g Hg) as [HoH _]. pose proof (ok_outW g Hg) as [HoW _].
  set (S := outH g * outW g) in *. assert (0 < S) as HS by (unfold S; nia).
  pose proof (Z.div_mod i S ltac:(lia)) as D1. pose proof (Z.mod_pos_bound i S HS) as B1.
  pose proof (Z.div_mod (i mod S) (outW g) ltac:(lia)) as D2. pose proof (Z.mod_pos_bound (i mod S) (outW g) HoW) as B2.
  assert (0 <= i / S < cCount) as Hc by (split; [apply Z.div_pos; lia|apply Z.div_lt_upper_bound; lia]).
  assert (0 <= i mod S / outW g < outH g) as Hoh by (split; [apply Z.div_pos; lia|apply Z.div_lt_upper_bound; unfold S in *; lia]).
  pose proof (get_columns (i / S) 0 0 (i mod S / outW g) (i mod S mod outW g) Hc ltac:(lia) ltac:(lia) Hoh B2) as E.
  assert (((i / S * kH g + 0) * kW g + 0) * (outH g * outW g) + (i mod S / outW g * outW g + i mod S mod outW g) = i) as Ei.
  { rewrite EkH, EkW. fold S. lia. }
  rewrite Ei in E. rewrite E. unfold patch. rewrite Pt, Pl, EsH, EsW.
  destruct (tap_inside g input n (cStart + i / S) Hg Hn ltac:(lia) Hlen (i mod S / outW g * 1 + (0 * dilH g - 0)) (i mod S mod outW g * 1 + (0 * dilW g - 0))) as [<- _];
    [lia|lia|]. f_equal. unfold S in *. rewrite EoH, EoW in *. nia.
Qed.
End Columns.
