(* ===== verification/OnnxFusedConv.v ===== *)
(** The fused operator: [opConvSiLU] computes what a [Conv], a [Sigmoid] of it and the [Mul]
    of the two compute, bit for bit.

    The two convolutions run side by side: a block of the output is the same product in
    both, the fused one activates it on the spot, the plain one after all blocks and the
    bias.  What makes them meet is that the blocks tile the output. *)

From Stdlib Require Import SpecFloat.
From S2P Require Import Prelude Float64 GoSlices OnnxModel OnnxTensor OnnxShapeOps OnnxMathOps OnnxConv OnnxTensorTheorems.

#[local] Open Scope list_scope.

(** A product does not depend on the order of its factors. *)
Lemma mul32_comm x y : mul32 x y = mul32 y x.
Proof.
  unfold mul32. destruct x as [sx|sx| |sx mx ex], y as [sy|sy| |sy my ey]; cbn; try done; rewrite 1?(xorb_comm sx sy); try done.
  by rewrite (Pos.mul_comm mx my), (Z.add_comm ex ey).
Qed.

Section Fused.
Context {Rec : Recycled} {Mach : Machine}.

(** ** A matrix product overwrites its output *)

Lemma mac_step_len b aip n i p j c c' : mac_step b aip n i p j c = Some c' -> len c' = len c.
Proof.
  unfold mac_step. intros E. destruct (get c _); [|done]. cbn in E. destruct (get b _); [|done]. cbn in E.
  by apply set_len in E.
Qed.

Lemma range_len_kept {A} lo hi (body : Z -> list A -> option (list A)) c c' :
  (forall i c c', body i c = Some c' -> len c' = len c) -> for_range lo hi body c = Some c' -> len c' = len c.
Proof.
  intros Hb E. destruct (decide (lo <= hi)); [|rewrite for_range_nil in E by lia; by simplify_eq].
  revert E. apply (for_range_after (fun _ s => len s = len c)); [done|done|]. intros i s s' _ Hs E. by rewrite (Hb _ _ _ E).
Qed.

Lemma sgemmPureGo_len a b c m n k c' : sgemmPureGo a b c m n k = Some c' -> len c' = len c.
Proof.
  unfold sgemmPureGo. intros E. destruct (in_slice _ _ _ _) as [z|] eqn:Ez; [|done]. cbn [mbind option_bind] in E.
  assert (len z = len c) as <-.
  { apply in_slice_inv in Ez as (d & d' & (Hlo & Hhi & _ & Hl)%subslice_is_Some & [= <-] & ->). apply len_splice; [lia|].
    unfold zeros. rewrite len_replicate. lia. }
  revert E. apply (for_step_after (fun s => len s = len z)); [done|]. intros ii s s' Hs E. rewrite <- Hs. revert E.
  apply (for_step_after (fun t => len t = len s)); [done|]. intros kk t t' Ht E. rewrite <- Ht. revert E.
  apply (for_step_after (fun u => len u = len t)); [done|]. intros jj u u' Hu E. rewrite <- Hu. revert E.
  apply range_len_kept. intros i c1 c1'. apply range_len_kept. intros p c2 c2' E.
  destruct (get a _); [|done]. cbn in E. revert E. apply range_len_kept. intros j c3 c3'. apply mac_step_len.
Qed.

Lemma SgemmInto_len a b c m n k c' : SgemmInto a b c m n k = Some c' -> len c' = len c.
Proof.
  unfold SgemmInto. case_match; [|apply sgemmPureGo_len].
  intros (d & d' & (Hlo & Hhi & _ & Hl)%subslice_is_Some & [= <-] & ->)%in_slice_inv. apply len_splice; [lia|].
  unfold zeros. rewrite len_replicate. lia.
Qed.

Lemma zeroed_dst (c d : list float32) s :
  len c = s -> len d = s ->
  in_slice c 0 s (fun dst => Some (zeros (len dst))) = in_slice d 0 s (fun dst => Some (zeros (len dst))).
Proof.
  intros Hc Hd. assert (0 <= s) by (rewrite <- Hc; apply len_nonneg). unfold in_slice. rewrite !subslice_Some by lia. cbn [mbind option_bind].
  rewrite Z.sub_0_r, Z2Nat.inj_0, !drop_0, !take_ge by (unfold len in *; lia). rewrite Hc, Hd.
  rewrite !splice_all; [done|unfold zeros; rewrite len_replicate; lia..].
Qed.

Lemma SgemmInto_dst a b c d m n k : len c = m * n -> len d = m * n -> SgemmInto a b c m n k = SgemmInto a b d m n k.
Proof. intros Hc Hd. unfold SgemmInto, sgemmPureGo. by rewrite (zeroed_dst c d). Qed.

(** ** One block *)

(** Where the block of an image and a group stands in the output. *)
Definition block_at (g : Geometry) (mPerGroup n gi : Z) : Z := ((n * gM g + gi * mPerGroup) * outH g) * outW g.

Lemma product_block (g : Geometry) wS col out (post : Z -> list float32 -> option (list float32)) mP k n gi off out' :
  0 <= mP ->
  in_slice out (block_at g mP n gi) (block_at g mP n gi + mP * (outH g * outW g)) (fun dst =>
    dst ← SgemmInto wS col dst mP (outH g * outW g) k; Some dst) = Some out' ->
  exists b, 0 <= block_at g mP n gi /\ block_at g mP n gi + len b <= len out /\ len b = mP * (outH g * outW g) /\
    out' = splice out (block_at g mP n gi) b /\
    forall out2, len out2 = len out ->
      in_slice out2 (block_at g mP n gi) (block_at g mP n gi + mP * (outH g * outW g)) (fun dst =>
        dst ← SgemmInto wS col dst mP (outH g * outW g) k; post off dst) =
      (b' ← post off b; Some (splice out2 (block_at g mP n gi) b')).
Proof.
  intros HmP (d & b & (Hlo & Hhi & _ & Hl)%subslice_is_Some & Eb & ->)%in_slice_inv.
  destruct (SgemmInto wS col d mP (outH g * outW g) k) as [b0|] eqn:E; [|done]. cbn in Eb. simplify_eq.
  pose proof (SgemmInto_len _ _ _ _ _ _ _ E) as Hlb. exists b. split; [lia|]. split; [lia|]. split; [lia|]. split; [done|].
  intros out2 Ho. unfold in_slice. rewrite subslice_Some by lia. cbn [mbind option_bind].
  rewrite (SgemmInto_dst _ _ _ d); [by rewrite E| |lia].
  unfold len in *. rewrite length_take, length_drop. lia.
Qed.

(** The block of the plain convolution and of the fused one. *)
Lemma conv_group_block g x w cP mP post n gi out col out' col' :
  0 <= mP ->
  conv_group g x w cP mP (fun _ dst => Some dst) n gi (out, col) = Some (out', col') ->
  exists b, 0 <= block_at g mP n gi /\ block_at g mP n gi + len b <= len out /\ len b = mP * (outH g * outW g) /\
    out' = splice out (block_at g mP n gi) b /\
    forall out2, len out2 = len out ->
      conv_group g x w cP mP post n gi (out2, col) =
      (b' ← post (gi * mP) b; Some (splice out2 (block_at g mP n gi) b', col')).
Proof.
  intros HmP E. unfold conv_group in *. destruct (is1x1 g).
  - destruct (subslice (Data w) _ _) as [wS|]; [|done]. cbn [mbind option_bind] in *.
    destruct (subslice (Data x) _ _) as [xS|]; [|done]. cbn [mbind option_bind] in *.
    destruct (in_slice out _ _ _) as [o|] eqn:Eo; [|done]. cbn [mbind option_bind] in E. simplify_eq.
    apply (product_block g wS xS out post mP cP n gi (gi * mP)) in Eo as (b & H0 & H1 & H2 & H3 & H4); [|done].
    exists b. split_and!; [done..|]. intros out2 Hl. specialize (H4 out2 Hl). unfold block_at in *. rewrite H4. by destruct (post _ b).
  - destruct (if noPad g && noDil g then _ else _) as [c|]; [|done]. cbn [mbind option_bind] in *.
    destruct (subslice (Data w) _ _) as [wS|]; [|done]. cbn [mbind option_bind] in *.
    destruct (in_slice out _ _ _) as [o|] eqn:Eo; [|done]. cbn [mbind option_bind] in E. simplify_eq.
    apply (product_block g wS col' out post mP (cP * kH g * kW g) n gi (gi * mP)) in Eo as (b & H0 & H1 & H2 & H3 & H4); [|done].
    exists b. split_and!; [done..|]. intros out2 Hl. specialize (H4 out2 Hl). unfold block_at in *. rewrite H4. by destruct (post _ b).
Qed.

(** ** Activating a block *)

(** What the fused operator does to an element of a channel. *)
Definition activated (bias : option (list float32)) (c : Z) (v : float32) : option float32 :=
  match bias with Some bs => b ← get bs c; silu (add32 v b) | None => silu v end.

(** [os] is [b] with the first [k] elements activated, the channel of the first element
    being [off]; or a panic, which one of them causes. *)
Definition activates (act : Z -> float32 -> option float32) (off S k : Z) (b : list float32) (os : option (list float32)) : Prop :=
  match os with
  | Some b' => len b' = len b /\ forall i v, get b i = Some v -> get b' i = if i <? k then act (off + i / S) v else Some v
  | None => exists i v, 0 <= i < k /\ get b i = Some v /\ act (off + i / S) v = None
  end.

Lemma div_row m S i : 0 < S -> m * S <= i < (m + 1) * S -> i / S = m.
Proof. intros HS Hi. symmetry. apply (Z.div_unique_pos _ _ _ (i - m * S)); lia. Qed.

Lemma applySiLU_activates bias S mP off b :
  0 < S -> 0 <= mP -> len b = mP * S -> activates (activated bias) off S (mP * S) b (applySiLU bias S mP off b).
Proof.
  intros HS HmP Hl. unfold applySiLU, activated. destruct bias as [bs|].
  - pose proof (for_range_run (fun m os => activates (fun c v => b ← get bs c; silu (add32 v b)) off S (m * S) b os) 0 mP
      (fun m dst => b ← get bs (off + m); in_slice dst (m * S) ((m + 1) * S) (fun chunk =>
        fill_each (len chunk) (fun i => v ← get chunk i; silu (add32 v b)) chunk)) (Some b)) as H.
    cbn [mbind option_bind] in H. apply H; clear H; [lia| |].
    + split; [done|]. intros i v E. pose proof (get_Some _ _ _ E). by rewrite (proj2 (Z.ltb_ge _ _)) by lia.
    + intros m [d|] Hm; cbn [mbind option_bind activates]; [|intros (i & v & Hi & E); exists i, v; split; [lia|done]].
      intros [Hd Hget]. assert ((m + 1) * S <= len d) as Hroom by nia.
      assert (forall i v, get b i = Some v -> m * S <= i < (m + 1) * S -> get d i = Some v) as Hrest.
      { intros i v E Hi. rewrite (Hget i v E). by rewrite (proj2 (Z.ltb_ge _ _)) by lia. }
      destruct (get_is_Some b (m * S) ltac:(lia)) as [v0 Hv0].
      destruct (get bs (off + m)) as [bv|] eqn:Ebv; cbn [mbind option_bind].
      2:{ exists (m * S), v0. split; [lia|]. split; [done|]. by rewrite (div_row m), Ebv by lia. }
      unfold in_slice. destruct (subslice d (m * S) ((m + 1) * S)) as [chunk|] eqn:Ec.
      2:{ rewrite subslice_Some in Ec by lia. done. }
      pose proof Ec as (_ & _ & _ & Hlc)%subslice_is_Some. cbn [mbind option_bind].
      pose proof (fun i => get_subslice _ _ _ _ i Ec) as Hchunk.
      pose proof (fill_each_cases (len chunk) (fun i => v ← get chunk i; silu (add32 v bv)) chunk ltac:(lia)) as Hfill.
      destruct (fill_each _ _ chunk) as [chunk'|]; cbn [mbind option_bind].
      * destruct Hfill as (Hl' & Hlt & _). split; [by rewrite len_splice by lia|]. intros i v E.
        rewrite get_splice by lia. rewrite (Hget i v E).
        destruct (Z.leb_spec (m * S) i), (Z.ltb_spec i (m * S + len chunk')); cbn [andb].
        -- rewrite Hlt, Hchunk by lia. replace (m * S + (i - m * S)) with i by lia. rewrite (Hrest i v) by (done || lia). cbn.
           rewrite (proj2 (Z.ltb_lt i _)) by lia. by rewrite (div_row m), Ebv by lia.
        -- by rewrite !(proj2 (Z.ltb_ge i _)) by lia.
        -- by rewrite !(proj2 (Z.ltb_lt i _)) by lia.
        -- lia.
      * destruct Hfill as (i & Hi & E). rewrite Hchunk in E by lia.
        destruct (get_is_Some b (m * S + i) ltac:(lia)) as [v Hv]. exists (m * S + i), v. split; [lia|]. split; [done|].
        rewrite (Hrest _ v Hv) in E by lia. cbn in E. by rewrite (div_row m), Ebv by lia.
  - pose proof (fill_each_cases (len b) (fun i => v ← get b i; silu v) b ltac:(pose proof (len_nonneg b); lia)) as Hfill.
    destruct (fill_each _ _ b) as [b'|]; cbn [activates].
    + destruct Hfill as (Hl' & Hlt & _). split; [done|]. intros i v E. pose proof (get_Some _ _ _ E).
      rewrite Hlt, E by done. by rewrite (proj2 (Z.ltb_lt _ _)) by lia.
    + destruct Hfill as (i & Hi & E). destruct (get_is_Some b i Hi) as [v Hv]. exists i, v. rewrite Hv in E. split; [lia|done].
Qed.

(** ** All blocks *)

(** A convolution whose groups divide its channels. *)
Record regular (g : Geometry) : Prop := {
  regular_N : 0 < gN g;
  regular_M : 0 < gM g <= max_int64;
  regular_group : 0 < group g;
  regular_divides : (group g | gM g);
  regular_out : 0 < outH g /\ 0 < outW g
}.

(** The channel of an element of the output. *)
Definition channel_of (g : Geometry) (i : Z) : Z := (i / (outH g * outW g)) mod gM g.

(** The two runs, when the plain one has written the first [k] elements: the fused one has
    written the same activated, or it has panicked on one of them. *)
Definition beside (g : Geometry) (act : Z -> float32 -> option float32) (k : Z)
    (plain : list float32 * list float32) (fused : option (list float32 * list float32)) : Prop :=
  k <= len plain.1 /\
  match fused with
  | Some (out2, col2) => col2 = plain.2 /\ len out2 = len plain.1 /\
      forall i v, 0 <= i < k -> get plain.1 i = Some v -> get out2 i = act (channel_of g i) v
  | None => exists i v, 0 <= i < k /\ get plain.1 i = Some v /\ act (channel_of g i) v = None
  end.

Lemma channel_in_block g mP n gi r :
  0 < outH g * outW g -> 0 <= gi * mP -> (gi + 1) * mP <= gM g -> 0 <= r < mP * (outH g * outW g) ->
  channel_of g (block_at g mP n gi + r) = gi * mP + r / (outH g * outW g).
Proof.
  intros HS H0 H1 Hr. unfold channel_of, block_at. set (S := outH g * outW g) in *.
  replace ((n * gM g + gi * mP) * outH g * outW g + r) with (r + (n * gM g + gi * mP) * S) by (unfold S; lia).
  rewrite Z.div_add by lia. assert (0 <= r / S < mP) by (split; [apply Z.div_pos; lia|apply Z.div_lt_upper_bound; lia]).
  replace (r / S + (n * gM g + gi * mP)) with (gi * mP + r / S + n * gM g) by lia. rewrite Z.mod_add by lia. apply Z.mod_small. lia.
Qed.

Section Blocks.
Variables (g : Geometry) (x w : Tensor) (cP mP : Z) (bias : option (list float32)).
Hypotheses (Hg : regular g) (HM : gM g = group g * mP).

Lemma block_step n gi st fused st' :
  0 <= n -> 0 <= gi < group g ->
  beside g (activated bias) (block_at g mP n gi) st fused ->
  conv_group g x w cP mP (fun _ dst => Some dst) n gi st = Some st' ->
  beside g (activated bias) (block_at g mP n (gi + 1)) st'
    (fused ≫= conv_group g x w cP mP (applySiLU bias (outH g * outW g) mP) n gi).
Proof using Hg HM.
  intros Hn Hgi [Hroom Hb] E. destruct Hg as [HN [HM0 _] Hgr _ [HoH HoW]], st as [out col], st' as [out' col'].
  assert (0 < mP) as HmP by nia. assert (0 < outH g * outW g) as HS by nia.
  assert (0 <= gi * mP) as Hc0 by nia. assert ((gi + 1) * mP <= gM g) as Hc1 by nia.
  apply (conv_group_block _ _ _ _ _ (applySiLU bias (outH g * outW g) mP)) in E as (b & Hat & Hend & Hlb & -> & Hfused); [|lia].
  assert (block_at g mP n (gi + 1) = block_at g mP n gi + len b) as -> by (unfold block_at; lia).
  pose proof (len_nonneg b) as Hb0. cbn [fst snd] in *.
  assert (forall i, 0 <= i < block_at g mP n gi -> get (splice out (block_at g mP n gi) b) i = get out i) as Hbefore.
  { intros i Hi. rewrite get_splice by lia. by rewrite (proj2 (Z.leb_gt _ _)) by lia. }
  assert (forall i, block_at g mP n gi <= i < block_at g mP n gi + len b ->
    get (splice out (block_at g mP n gi) b) i = get b (i - block_at g mP n gi)) as Hin.
  { intros i Hi. rewrite get_splice by lia. by rewrite (proj2 (Z.leb_le _ _)), (proj2 (Z.ltb_lt _ _)) by lia. }
  split; [cbn [fst]; rewrite len_splice by lia; lia|].
  destruct fused as [[out2 col2]|]; cbn [mbind option_bind].
  2:{ destruct Hb as (i & v & Hi & Ei & Ea). exists i, v. split; [lia|]. split; [|done]. cbn [fst]. by rewrite Hbefore. }
  destruct Hb as (-> & Hl2 & Hget). rewrite Hfused by done.
  pose proof (applySiLU_activates bias (outH g * outW g) mP (gi * mP) b HS ltac:(lia) Hlb) as Hact.
  assert (forall i v, get b i = Some v -> channel_of g (block_at g mP n gi + i) = gi * mP + i / (outH g * outW g)) as Hchan.
  { intros i v Ei. apply channel_in_block; [lia..|]. pose proof (get_Some _ _ _ Ei). lia. }
  destruct (applySiLU bias _ mP (gi * mP) b) as [b'|]; cbn [mbind option_bind activates fst snd] in *.
  - destruct Hact as [Hlb' Hact]. split; [done|]. split; [rewrite !len_splice by lia; lia|]. intros i v Hi Ei.
    rewrite get_splice by lia. destruct (Z.leb_spec (block_at g mP n gi) i); cbn [andb].
    + rewrite (proj2 (Z.ltb_lt _ _)) by lia. rewrite Hin in Ei by lia. pose proof (get_Some _ _ _ Ei).
      rewrite (Hact _ _ Ei), (proj2 (Z.ltb_lt _ _)) by lia. rewrite <- (Hchan _ _ Ei). do 2 f_equal. lia.
    + rewrite Hbefore in Ei by lia. apply Hget; [lia|done].
  - destruct Hact as (i & v & Hi & Ei & Ea). exists (block_at g mP n gi + i), v. split; [lia|].
    split; [rewrite Hin by lia; by replace (block_at g mP n gi + i - block_at g mP n gi) with i by lia|]. by rewrite (Hchan _ _ Ei).
Qed.

Lemma blocks_beside st st' :
  for_range 0 (gN g) (fun n => for_range 0 (group g) (conv_group g x w cP mP (fun _ dst => Some dst) n)) st = Some st' ->
  beside g (activated bias) (gN g * gM g * (outH g * outW g)) st'
    (for_range 0 (gN g) (fun n => for_range 0 (group g) (conv_group g x w cP mP (applySiLU bias (outH g * outW g) mP) n)) st).
Proof using Hg HM.
  intros E. pose proof (regular_N g Hg). pose proof (regular_group g Hg).
  replace (gN g * gM g * (outH g * outW g)) with (block_at g mP (gN g) 0) by (unfold block_at; lia).
  refine (for_range_beside (fun n => beside g (activated bias) (block_at g mP n 0)) 0 (gN g) _ _ st (Some st) st' _ _ _ E); [lia| |].
  - split; [unfold block_at; apply len_nonneg|]. destruct st as [out col]. split; [done|]. split; [done|]. unfold block_at. lia.
  - intros n s os s' Hn Hs Es. replace (block_at g mP (n + 1) 0) with (block_at g mP n (group g)) by (unfold block_at; lia).
    refine (for_range_beside (fun gi => beside g (activated bias) (block_at g mP n gi)) 0 (group g) _ _ s os s' _ Hs _ Es); [lia|].
    intros gi t ot t' Hgi. apply block_step; lia.
Qed.
End Blocks.

Lemma blocks_len g x w cP mP st st' :
  0 <= mP -> 0 <= gN g -> 0 <= group g ->
  for_range 0 (gN g) (fun n => for_range 0 (group g) (conv_group g x w cP mP (fun _ dst => Some dst) n)) st = Some st' ->
  len st'.1 = len st.1.
Proof.
  intros HmP HN Hgr. apply (for_range_after (fun _ s => len s.1 = len st.1)); [done|done|]. intros n s s' Hn Hs. rewrite <- Hs.
  apply (for_range_after (fun _ t => len t.1 = len s.1)); [done|done|]. intros gi [out col] [out' col'] Hgi Ht E. rewrite <- Ht.
  apply (conv_group_block _ _ _ _ _ (fun _ dst => Some dst)) in E as (b & H0 & H1 & _ & -> & _); [|done]. cbn. by apply len_splice.
Qed.

Lemma conv_data_len g x w t :
  regular g -> conv_data g x w (fun _ _ dst => Some dst) = Some t -> len (Data t) = len (Data (newTensorUninit [gN g; gM g; outH g; outW g])).
Proof.
  intros Hg E. pose proof Hg as [HN HM Hgr [mP EM] _]. unfold conv_data in E.
  destruct (divmod (gC g) (group g)) as [[cP ?]|]; [|done]. cbn [mbind option_bind] in *.
  rewrite divmod_pos in * by lia. cbn [mbind option_bind] in *. destruct (negb (is1x1 g) && _); [done|].
  destruct (for_range 0 (gN g) _ _) as [[out col]|] eqn:Er in E; [|done]. cbn [mbind option_bind] in E. injection E as <-. cbn [Data with_data].
  apply (blocks_len g x w cP (gM g / group g)) in Er; [done|apply Z.div_pos; lia|lia..].
Qed.

Lemma i64_at_most z : 0 <= z -> i64 z <= z.
Proof. intros Hz. unfold wrapS. pose proof (Z.mod_le (z + 2 ^ (64 - 1)) (2 ^ 64) ltac:(lia) ltac:(lia)). lia. Qed.

Lemma uninit_at_most shape n : 0 <= volume shape -> volume shape <= n -> len (Data (newTensorUninit shape)) <= n.
Proof.
  intros H0 Hn. unfold newTensorUninit. cbn [Data]. rewrite tensorSize_i64. pose proof (i64_at_most (volume shape) H0).
  destruct (Z.leb_spec (i64 (volume shape)) 0); [change (len []) with 0; lia|]. rewrite stale_len; lia.
Qed.

(** The plain and the fused convolution of a tensor. *)
Lemma conv_data_beside g x w bias t :
  regular g -> conv_data g x w (fun _ _ dst => Some dst) = Some t ->
  Shape t = [gN g; gM g; outH g; outW g] /\
  let size := gN g * gM g * (outH g * outW g) in
  len (Data t) = size /\
  match conv_data g x w (applySiLU bias (outH g * outW g)) with
  | Some t2 => Shape t2 = Shape t /\ len (Data t2) = size /\
      forall i v, get (Data t) i = Some v -> get (Data t2) i = activated bias (channel_of g i) v
  | None => exists i v, get (Data t) i = Some v /\ activated bias (channel_of g i) v = None
  end.
Proof.
  intros Hg E. pose proof Hg as [HN HM Hgr [mP EM] [HoH HoW]]. unfold conv_data in *. cbv zeta.
  destruct (divmod (gC g) (group g)) as [[cP ?]|]; [|done]. cbn [mbind option_bind] in *.
  rewrite divmod_pos in * by lia. cbn [mbind option_bind] in *.
  assert (gM g / group g = mP) as EmP by (rewrite EM; apply Z.div_mul; lia). rewrite EmP in *.
  destruct (negb (is1x1 g) && _); [done|]. destruct (for_range 0 (gN g) _ _) as [st'|] eqn:Er in E; [|done].
  cbn [mbind option_bind] in E. destruct st' as [out col]. injection E as <-. cbn [Data Shape with_data].
  assert (len out = len (Data (newTensorUninit [gN g; gM g; outH g; outW g]))) as Hkept by (by apply (blocks_len g x w cP mP) in Er; [|lia..]).
  apply (blocks_beside g x w cP mP bias Hg ltac:(lia)) in Er as [Hroom Hrun]. cbn [fst snd] in *.
  set (S := outH g * outW g) in *.
  assert (len out = gN g * gM g * S) as Hout.
  { apply Z.le_antisymm; [|done]. rewrite Hkept. apply uninit_at_most; cbn; nia. }
  split; [done|]. split; [done|]. destruct (for_range 0 (gN g) _ _) as [[out2 col2]|]; cbn [mbind option_bind].
  - destruct Hrun as (_ & Hl & Hget). cbn [Data Shape with_data]. split; [done|]. split; [lia|]. intros i v Ei. apply Hget; [|done].
    apply get_Some in Ei. lia.
  - destruct Hrun as (i & v & _ & Ei). by exists i, v.
Qed.

(** ** The bias, the Sigmoid and the product *)

(** [out] with the bias added to its first [k] elements. *)
Definition biased (g : Geometry) (bias out : list float32) (k : Z) (out' : list float32) : Prop :=
  len out' = len out /\
  forall i v, get out i = Some v ->
    if i <? k then exists b, get bias (channel_of g i) = Some b /\ get out' i = Some (add32 v b) else get out' i = Some v.

Lemma add_bias_biased g bias out out' :
  regular g -> add_bias g bias out = Some out' -> biased g bias out (gN g * gM g * (outH g * outW g)) out'.
Proof.
  intros Hg. pose proof Hg as [HN [HM _] _ _ [HoH HoW]]. assert (0 < outH g * outW g) as HS by nia. unfold add_bias.
  replace (gN g * gM g * (outH g * outW g)) with (block_at g 1 (gN g) 0) by (unfold block_at; lia).
  apply (for_range_after (fun n => biased g bias out (block_at g 1 n 0))); [lia| |].
  { split; [done|]. intros i v E. pose proof (get_Some _ _ _ E). by rewrite (proj2 (Z.ltb_ge _ _)) by (unfold block_at; lia). }
  intros n s s' Hn Hs. replace (block_at g 1 (n + 1) 0) with (block_at g 1 n (gM g)) by (unfold block_at; lia).
  apply (for_range_after (fun m => biased g bias out (block_at g 1 n m))); [lia|done|].
  intros m u u' Hm Hu E. destruct (get bias m) as [b|] eqn:Eb; [|done]. cbn [mbind option_bind] in E. revert E.
  assert (((n * gM g + m) * outH g) * outW g = block_at g 1 n m) as -> by (unfold block_at; lia).
  replace (block_at g 1 n (m + 1)) with (block_at g 1 n m + outH g * outW g) by (unfold block_at; lia).
  apply (for_range_after (fun j => biased g bias out (block_at g 1 n m + j))); [lia|by rewrite Z.add_0_r|].
  intros j q q' Hj [Hlq Hq] E. set (k := block_at g 1 n m + j) in *.
  destruct (get q k) as [v|] eqn:Ev; [|done]. cbn [mbind option_bind] in E. apply set_inv in E as [Hk ->].
  replace (block_at g 1 n m + (j + 1)) with (k + 1) by lia.
  split; [by rewrite len_splice; [|lia|change (len [add32 v b]) with 1; lia]|]. intros i vi Ei. specialize (Hq i vi Ei).
  rewrite get_splice by (lia || (change (len [add32 v b]) with 1; lia)). change (len [add32 v b]) with 1.
  destruct (Z.eq_dec i k) as [->|].
  - rewrite (proj2 (Z.leb_le k k)), (proj2 (Z.ltb_lt k (k + 1))) by lia. cbn [andb]. rewrite Z.sub_diag.
    rewrite (proj2 (Z.ltb_ge k k)) in Hq by lia. exists b. rewrite Ev in Hq. injection Hq as <-. split; [|done].
    unfold k. rewrite channel_in_block by lia. rewrite Z.div_small by lia. by rewrite Z.add_0_r, Z.mul_1_r.
  - assert ((k <=? i) && (i <? k + 1) = false) as ->.
    { destruct (Z.leb_spec k i), (Z.ltb_spec i (k + 1)); cbn; lia. }
    by replace (i <? k + 1) with (i <? k) by (destruct (Z.ltb_spec i k), (Z.ltb_spec i (k + 1)); lia).
Qed.

(** The groups of a convolution divide its output channels. *)
Definition well_grouped (x w : Tensor) (attrs : Attributes) : Prop :=
  Forall (fun d => 0 < d) (Shape x) /\ Forall (fun d => 0 < d <= max_int64) (Shape w) /\
  0 < GetInt attrs "group" 1 /\ (GetInt attrs "group" 1 | default 1 (head (Shape w))).

Lemma conv_geometry_regular x w attrs g :
  well_grouped x w attrs -> conv_geometry x w attrs = Some (Ok g) -> regular g.
Proof.
  intros (Hx & Hw & Hgr & Hd). unfold conv_geometry.
  destruct (Shape x) as [|N [|C [|H [|W []]]]]; try done. destruct (Shape w) as [|M [|? [|kh [|kw []]]]]; try done.
  cbn [head default] in Hd. apply Forall_cons in Hx as [HN _]. apply Forall_cons in Hw as [HM _].
  destruct (match GetIntList attrs "kernel_shape" with None => _ | Some _ => _ end) as [[kh' kw']|]; [|done]. cbn [mbind option_bind].
  destruct (two_ints attrs "strides") as [sh sw]. destruct (two_ints attrs "dilations") as [dh dw].
  destruct (four_ints attrs "pads") as [[[pt pl] pb] pr].
  destruct (if _ || _ then _ else _) as [[[pt' pl'] pb'] pr'].
  destruct (out_length H pt' pb' kh' dh sh) as [oh|]; [|done]. cbn [mbind option_bind].
  destruct (out_length W pl' pr' kw' dw sw) as [ow|]; [|done]. cbn [mbind option_bind].
  destruct ((oh <=? 0) || (ow <=? 0)) eqn:E; [done|]. apply orb_false_iff in E as [Eh%Z.leb_gt Ew%Z.leb_gt].
  intros [= <-]. constructor; cbn; done.
Qed.

(** What the three operators do to an element. *)
Lemma Sigmoid_elements ins attrs c s o :
  input ins 0 = Some c -> len (Data c) = len (Data (newTensorUninit (Shape c))) -> opSigmoid ins attrs = Some (Ok [(s, o)]) ->
  o = Pooled /\ Shape s = Shape c /\ len (Data s) = len (Data c) /\ forall i v, get (Data c) i = Some v -> get (Data s) i = fastSigmoid v.
Proof.
  intros Hin Hl. unfold opSigmoid, map_tensor. destruct (len ins <? 1); [done|]. rewrite Hin. cbn [mbind option_bind].
  assert (0 <= len (Data c) <= len (Data (newTensorUninit (Shape c)))) as Hr by (pose proof (len_nonneg (Data c)); lia).
  pose proof (fill_each_cases (len (Data c)) (fun i => v ← get (Data c) i; fastSigmoid v) (Data (newTensorUninit (Shape c))) Hr) as Hfill.
  destruct (fill_each _ _ _) as [data|]; cbn [mbind option_bind]; [|done]. unfold op_new, op_ok. intros [= <- <-].
  destruct Hfill as (Hld & Hget & _). split; [done|]. split; [done|]. split; [cbn; lia|]. intros i v E.
  cbn [Data with_data]. rewrite Hget by (by apply get_Some in E). by rewrite E.
Qed.

Lemma Mul_elements ins attrs a b y o :
  input ins 0 = Some a -> input ins 1 = Some b -> Shape a = Shape b -> len (Data a) = len (Data (newTensorUninit (Shape a))) ->
  opMul ins attrs = Some (Ok [(y, o)]) ->
  o = Pooled /\ Shape y = Shape a /\ len (Data y) = len (Data a) /\
  forall i u v, get (Data a) i = Some u -> get (Data b) i = Some v -> get (Data y) i = Some (mul32 u v).
Proof.
  intros Ha Hb Es Hl. unfold opMul, binary_fast. destruct (len ins <? 2); [done|]. rewrite Ha, Hb. cbn [mbind option_bind].
  unfold shapesEqual. rewrite bool_decide_eq_true_2 by done. unfold same_shape.
  set (out := newTensorUninit (Shape a)) in *.
  assert (0 <= len (Data out) <= len (Data out)) as Hr by (pose proof (len_nonneg (Data out)); lia).
  pose proof (fill_each_cases (len (Data out)) (fun i => x ← get (Data a) i; y ← get (Data b) i; Some (mul32 x y)) (Data out) Hr) as Hfill.
  destruct (fill_each _ _ _) as [data|]; cbn [mbind option_bind]; [|done]. unfold op_new, op_ok. intros [= <- <-].
  destruct Hfill as (Hld & Hget & _). split; [done|]. split; [done|]. split; [cbn; lia|]. intros i u v Eu Ev.
  cbn [Data with_data]. rewrite Hget by (apply get_Some in Eu; lia). by rewrite Eu, Ev.
Qed.

(** The convolution with its bias, element by element before the activation. *)
Lemma Conv_elements ins attrs x w c o :
  input ins 0 = Some x -> input ins 1 = Some w -> well_grouped x w attrs -> opConv ins attrs = Some (Ok [(c, o)]) ->
  exists g, conv_geometry x w attrs = Some (Ok g) /\ len (Data c) = len (Data (newTensorUninit (Shape c))) /\
    match conv_data g x w (applySiLU (bias_of (input ins 2)) (outH g * outW g)) with
    | Some t2 => Shape t2 = Shape c /\ len (Data t2) = len (Data c) /\ forall i v, get (Data c) i = Some v -> get (Data t2) i = silu v
    | None => exists i v, get (Data c) i = Some v /\ silu v = None
    end.
Proof.
  intros Hx Hw Hwg. unfold opConv. destruct (len ins <? 2); [done|]. rewrite Hx, Hw. cbn [mbind option_bind].
  destruct (conv_geometry x w attrs) as [[g|e]|] eqn:Eg; [|done..]. cbn [mbind option_bind].
  pose proof (conv_geometry_regular _ _ _ _ Hwg Eg) as Hg.
  destruct (conv_data g x w _) as [t|] eqn:Et; [|done]. cbn [mbind option_bind].
  pose proof Et as Hbeside. apply (conv_data_beside _ _ _ (bias_of (input ins 2))) in Hbeside as (Hsh & Hlt & Hrun); [|done].
  assert (len (Data t) = len (Data (newTensorUninit (Shape t)))) as Hlu by (rewrite Hsh; by apply conv_data_len with x w).
  destruct (bias_of (input ins 2)) as [bt|].
  - destruct (add_bias g bt (Data t)) as [out|] eqn:Eb; [|done]. cbn [mbind option_bind]. unfold op_new, op_ok. intros [= <- <-].
    exists g. split; [done|]. cbn [Data Shape with_data]. apply add_bias_biased in Eb as [Hlo Hb]; [|done]. split; [lia|].
    assert (forall i v, get out i = Some v -> exists u, get (Data t) i = Some u /\ activated (Some bt) (channel_of g i) u = silu v) as Hel.
    { intros i v E. pose proof (get_Some _ _ _ E). destruct (get_is_Some (Data t) i ltac:(lia)) as [u Eu]. exists u. split; [done|].
      specialize (Hb i u Eu). rewrite (proj2 (Z.ltb_lt _ _)) in Hb by lia. destruct Hb as (b & Eb & Ev). unfold activated. rewrite Eb. cbn.
      by simplify_eq. }
    destruct (conv_data g x w (applySiLU (Some bt) (outH g * outW g))) as [t2|].
    + destruct Hrun as (Hs2 & Hl2 & Hget). split; [done|]. split; [lia|]. intros i v E. destruct (Hel i v E) as (u & Eu & <-). by apply Hget.
    + destruct Hrun as (i & u & Eu & Ea). pose proof (get_Some _ _ _ Eu). destruct (get_is_Some out i ltac:(lia)) as [v Ev].
      exists i, v. split; [done|]. destruct (Hel i v Ev) as (u' & Eu' & <-). by simplify_eq.
  - unfold op_new, op_ok. intros [= <- <-]. exists g. split; [done|]. split; [done|].
    destruct (conv_data g x w (applySiLU None (outH g * outW g))) as [t2|]; [|done]. destruct Hrun as (Hs2 & Hl2 & Hget). split; [done|]. split; [lia|done].
Qed.

(** On inputs of positive dimensions whose groups divide the output channels, the fused
    operator gives, bit for bit, the tensor of the three it replaces: the convolution, its
    Sigmoid, and their product in either order. *)
Theorem ConvSiLU_is_the_composition ins attrs sins sattrs mins mattrs x w c oc s os y oy :
  input ins 0 = Some x -> input ins 1 = Some w -> well_grouped x w attrs ->
  opConv ins attrs = Some (Ok [(c, oc)]) ->
  input sins 0 = Some c -> opSigmoid sins sattrs = Some (Ok [(s, os)]) ->
  (input mins 0 = Some c /\ input mins 1 = Some s) \/ (input mins 0 = Some s /\ input mins 1 = Some c) ->
  opMul mins mattrs = Some (Ok [(y, oy)]) ->
  opConvSiLU ins attrs = Some (Ok [(y, oy)]).
Proof.
  intros Hx Hw Hwg Hconv Hs0 Hsig Hm Hmul.
  assert (len ins <? 2 = false) as Hlen by (unfold opConv in Hconv; by destruct (len ins <? 2)).
  destruct (Conv_elements _ _ _ _ _ _ Hx Hw Hwg Hconv) as (g & Eg & Hlc & Hrun).
  destruct (Sigmoid_elements _ _ _ _ _ Hs0 Hlc Hsig) as (_ & Ess & Els & Hsget).
  assert (oy = Pooled /\ Shape y = Shape c /\ len (Data y) = len (Data c) /\
    forall i v, get (Data c) i = Some v -> get (Data y) i = silu v) as (-> & Esy & Ely & Hyget).
  { assert (forall i v, get (Data c) i = Some v -> exists z, get (Data s) i = Some z /\ fastSigmoid v = Some z) as Hz.
    { intros i v E. pose proof (get_Some _ _ _ E). destruct (get_is_Some (Data s) i ltac:(lia)) as [z Ez].
      exists z. split; [done|]. by rewrite <- (Hsget i v). }
    destruct Hm as [[H0 H1]|[H0 H1]].
    - destruct (Mul_elements _ _ _ _ _ _ H0 H1 ltac:(done) Hlc Hmul) as (-> & Esy & Ely & Hyget). split_and!; [done..|].
      intros i v E. destruct (Hz i v E) as (z & Ez & Ef). unfold silu. rewrite Ef. by apply Hyget.
    - destruct (Mul_elements _ _ _ _ _ _ H0 H1 ltac:(done) ltac:(by rewrite Ess, Els) Hmul) as (-> & Esy & Ely & Hyget).
      split_and!; [done|congruence|congruence|].
      intros i v E. destruct (Hz i v E) as (z & Ez & Ef). unfold silu. rewrite Ef. cbn. rewrite mul32_comm. by apply Hyget. }
  unfold opConvSiLU. rewrite Hlen, Hx, Hw. cbn [mbind option_bind]. rewrite Eg. cbn [mbind option_bind].
  destruct (conv_data g x w (applySiLU (bias_of (input ins 2)) (outH g * outW g))) as [t2|].
  - destruct Hrun as (Es2 & El2 & Hget). cbn [mbind option_bind]. unfold op_new, op_ok.
    assert (t2 = y) as ->; [|done]. destruct t2 as [d2 s2], y as [dy sy]. cbn [Data Shape] in *. f_equal; [|congruence].
    apply get_ext; [lia|]. intros i Hi. destruct (get_is_Some (Data c) i ltac:(lia)) as [v Ev]. by rewrite (Hget i v Ev), (Hyget i v Ev).
  - destruct Hrun as (i & v & Ev & Esilu). pose proof (get_Some _ _ _ Ev). destruct (get_is_Some (Data y) i ltac:(lia)) as [z Ez].
    rewrite (Hyget i v Ev) in Ez. congruence.
Qed.

End Fused.
