(* ===== verification/OnnxFusion.v ===== *)
(** What a graph means: its nodes evaluated in order on tensors by name.

    This is the specification a session is measured against: [OnnxFusion] shows that fusing
    the graph keeps it, [OnnxRun] that a session computes it.

    Fusing a graph keeps what it computes, where the Sigmoid it drops is read by nobody
    else; and does not where it is. *)

From Stdlib Require Import SpecFloat.
From S2P Require Import Prelude Float64 GoSlices OnnxProto OnnxModel OnnxTensor OnnxShapeOps OnnxMathOps OnnxConv OnnxGraph OnnxTensorTheorems OnnxColumns OnnxFusedConv.

#[local] Open Scope list_scope.

(** The tensors that have a value. *)
Abbreviation Env := (gmap string Tensor).

Section Eval.
Context {Rec : Recycled} {Mach : Machine}.

(** The operands of a node: none for a name left out or without a value. *)
Definition operand (E : Env) (name : string) : option Tensor := if String.eqb name "" then None else E !! name.
Definition operands (E : Env) (names : list string) : list (option Tensor) := operand E <$> names.

(** The results of a node, under its output names; names beyond the results and results
    beyond the names are dropped. *)
Fixpoint bind_outputs (names : list string) (outs : list Tensor) (E : Env) : Env :=
  match names, outs with
  | name :: names, t :: outs => bind_outputs names outs (if String.eqb name "" then E else <[name := t]> E)
  | _, _ => E
  end.

(** The function and the attributes of a node. *)
Definition node_op (n : NodeProto) : option (OpFunc * Attributes) :=
  match nodeAttrsToAttributes (nd_Attrs n), lookup_op (nd_OpType n) with
  | Val attrs, Some f => Some (f, attrs)
  | _, _ => None
  end.

(** One node; [None] is a panic, or a node that does not load. *)
Definition eval_node (n : NodeProto) (E : Env) : option (result op_error Env) :=
  '(f, attrs) ← node_op n;
  r ← f (operands E (nd_Inputs n)) attrs;
  match r with
  | Err e => Some (Err e)
  | Ok outs => Some (Ok (bind_outputs (nd_Outputs n) (fst <$> outs) E))
  end.

(** The nodes from the [i]th on: the last values, or the first node that fails. *)
Fixpoint eval_nodes (i : Z) (nodes : list NodeProto) (E : Env) : option (result (Z * op_error) Env) :=
  match nodes with
  | [] => Some (Ok E)
  | n :: nodes =>
      r ← eval_node n E;
      match r with
      | Err e => Some (Err (i, e))
      | Ok E => eval_nodes (i + 1) nodes E
      end
  end.

(** ** Valid graphs *)

Definition named (names : list string) : list string := filter (fun name => name <> ""%string) names.
Definition produced (nodes : list NodeProto) : list string := mjoin ((fun n => named (nd_Outputs n)) <$> nodes).

(** Every name has one producer, which is not a name of the start, and no node reads what
    it or a later node produces: what the format asks of a graph. *)
Record valid_graph (nodes : list NodeProto) (E : Env) : Prop := {
  produced_once : NoDup (produced nodes);
  produced_fresh : forall name, name ∈ produced nodes -> E !! name = None;
  in_order : forall i j n m name, nodes !! i = Some n -> nodes !! j = Some m ->
    name <> ""%string -> name ∈ nd_Inputs n -> name ∈ nd_Outputs m -> (j < i)%nat
}.

(** The values satisfy the equation of a node. *)
Definition holds (E : Env) (n : NodeProto) : Prop :=
  exists f attrs outs, node_op n = Some (f, attrs) /\ f (operands E (nd_Inputs n)) attrs = Some (Ok outs) /\
    forall j name, nd_Outputs n !! j = Some name -> name <> ""%string -> E !! name = fst <$> (outs !! j).

(** ** Lemmas *)

Lemma elem_named name names : name ∈ named names <-> name <> ""%string /\ name ∈ names.
Proof. unfold named. by rewrite list_elem_of_filter. Qed.

Lemma elem_produced nodes name :
  name ∈ produced nodes <-> exists i n, nodes !! i = Some n /\ name <> ""%string /\ name ∈ nd_Outputs n.
Proof.
  unfold produced. rewrite list_elem_of_join. setoid_rewrite list_elem_of_fmap. split.
  - intros (l & Hn & n & -> & Hin). apply elem_named in Hn as [Hne Hout]. apply list_elem_of_lookup_1 in Hin as [i Hi]. by exists i, n.
  - intros (i & n & Hi & Hne & Hout). exists (named (nd_Outputs n)). split; [by apply elem_named|].
    exists n. split; [done|]. by eapply list_elem_of_lookup_2.
Qed.

Lemma produced_cons n nodes : produced (n :: nodes) = named (nd_Outputs n) ++ produced nodes.
Proof. done. Qed.

Lemma named_cons name names : named (name :: names) = if String.eqb name "" then named names else name :: named names.
Proof.
  unfold named. destruct (String.eqb_spec name "") as [->|Hn]; [by rewrite filter_cons_False by tauto|].
  by rewrite filter_cons_True.
Qed.

Lemma bind_outputs_other names outs E name : name ∉ named names -> bind_outputs names outs E !! name = E !! name.
Proof.
  revert outs E. induction names as [|x names IH]; intros [|t outs] E Hn; try done. cbn [bind_outputs]. rewrite named_cons in Hn.
  destruct (String.eqb_spec x "") as [->|Hx]; [by apply IH|]. apply not_elem_of_cons in Hn as [Hne Hn].
  rewrite IH by done. by rewrite lookup_insert_ne by done.
Qed.

Lemma bind_outputs_get names outs E j name :
  NoDup (named names) -> E !! name = None -> names !! j = Some name -> name <> ""%string ->
  bind_outputs names outs E !! name = outs !! j.
Proof.
  revert outs E j. induction names as [|x names IH]; intros outs E j Hnd HE Hj Hne; [done|]. rewrite named_cons in Hnd.
  destruct outs as [|t outs]; [done|]. cbn [bind_outputs]. destruct j as [|j]; cbn in Hj.
  - injection Hj as ->. destruct (String.eqb_spec name "") as [->|_]; [done|]. apply NoDup_cons in Hnd as [Hn _].
    rewrite bind_outputs_other by done. by rewrite lookup_insert_eq.
  - cbn. assert (name ∈ named names) as Hin by (apply elem_named; split; [done|by eapply list_elem_of_lookup_2]).
    destruct (String.eqb_spec x "") as [->|Hx]; [by apply IH|]. apply NoDup_cons in Hnd as [Hn Hnd].
    apply IH; [done| |done..]. rewrite lookup_insert_ne; [done|]. by intros ->.
Qed.

Lemma eval_node_inv n E E' :
  eval_node n E = Some (Ok E') ->
  exists f attrs outs, node_op n = Some (f, attrs) /\ f (operands E (nd_Inputs n)) attrs = Some (Ok outs) /\
    E' = bind_outputs (nd_Outputs n) (fst <$> outs) E.
Proof.
  unfold eval_node. intros H. destruct (node_op n) as [[f attrs]|]; [|done]. cbn [mbind option_bind] in H.
  destruct (f _ attrs) as [[outs|e]|] eqn:Ef; [|done..]. cbn in H. injection H as <-. by exists f, attrs, outs.
Qed.

Lemma eval_nodes_other i nodes E E' name :
  eval_nodes i nodes E = Some (Ok E') -> name ∉ produced nodes -> E' !! name = E !! name.
Proof.
  revert i E. induction nodes as [|n nodes IH]; intros i E H Hn; [by cbn in H; simplify_eq|].
  cbn in H. destruct (eval_node n E) as [[E1|e]|] eqn:En; [|done..]. cbn in H. rewrite produced_cons in Hn.
  apply not_elem_of_app in Hn as [Hn1 Hn2]. rewrite (IH _ _ H Hn2).
  apply eval_node_inv in En as (f & attrs & outs & _ & _ & ->). by apply bind_outputs_other.
Qed.

Lemma operands_ext E E' names :
  (forall name, name <> ""%string -> name ∈ names -> E !! name = E' !! name) -> operands E names = operands E' names.
Proof.
  intros H. apply list_fmap_ext. intros i name Hi. unfold operand. destruct (String.eqb_spec name ""); [done|].
  apply H; [done|]. by eapply list_elem_of_lookup_2.
Qed.

(** A later node of a valid graph starts from what the first one leaves. *)
Lemma valid_graph_tail n nodes E outs :
  valid_graph (n :: nodes) E -> valid_graph nodes (bind_outputs (nd_Outputs n) outs E).
Proof.
  intros [Hnd Hfr Hord]. rewrite produced_cons in *. apply NoDup_app in Hnd as (Hnd1 & Hdis & Hnd2). constructor; [done| |].
  - intros name Hin. rewrite bind_outputs_other; [apply Hfr, elem_of_app; by right|]. intros Hn. by apply (Hdis name).
  - intros i j m m' name Hi Hj Hne Hin Hout. pose proof (Hord (S i) (S j) m m' name Hi Hj Hne Hin Hout). lia.
Qed.

(** An evaluation of a valid graph ends with values that satisfy every node. *)
Lemma eval_holds i nodes E E' :
  valid_graph nodes E -> eval_nodes i nodes E = Some (Ok E') -> Forall (holds E') nodes.
Proof.
  revert i E. induction nodes as [|n nodes IH]; intros i E Hv H; [done|]. pose proof H as Hall. cbn in H.
  destruct (eval_node n E) as [[E1|e]|] eqn:En; [|done..]. cbn in H.
  apply eval_node_inv in En as (f & attrs & outs & Hop & Hf & ->).
  pose proof (valid_graph_tail n nodes E (fst <$> outs) Hv) as Hv'. constructor; [|by eapply IH].
  destruct Hv as [Hnd Hfr Hord]. exists f, attrs, outs. split; [done|]. split.
  - rewrite <- Hf. f_equal. apply operands_ext. intros name Hne Hin.
    apply (eval_nodes_other i (n :: nodes)); [done|]. intros Hp. apply elem_produced in Hp as (j & m & Hj & _ & Hout).
    pose proof (Hord 0%nat j n m name eq_refl Hj Hne Hin Hout). lia.
  - intros j name Hj Hne. pose proof Hv' as [_ Hfr' _].
    assert (name ∈ named (nd_Outputs n)) as Hin by (apply elem_named; split; [done|by eapply list_elem_of_lookup_2]).
    rewrite produced_cons in Hnd, Hfr. apply NoDup_app in Hnd as (Hnd1 & Hdis & _).
    rewrite (eval_nodes_other _ _ _ _ _ H) by (by apply Hdis). rewrite (bind_outputs_get _ _ _ j) by (done || (apply Hfr, elem_of_app; by left)).
    by rewrite list_lookup_fmap.
Qed.

(** A node whose equation holds can be evaluated as soon as its operands have their values,
    and leaves its results. *)
Lemma holds_eval E E1 n :
  holds E1 n -> (forall name, name <> ""%string -> name ∈ nd_Inputs n -> E !! name = E1 !! name) -> E ⊆ E1 ->
  exists E', eval_node n E = Some (Ok E') /\ E' ⊆ E1 /\ E ⊆ E' /\
    forall name, name <> ""%string -> name ∈ nd_Outputs n -> E' !! name = E1 !! name.
Proof.
  intros (f & attrs & outs & Hop & Hf & Hout) Hin Hsub. unfold eval_node. rewrite Hop. cbn [mbind option_bind].
  rewrite (operands_ext E E1) by done. rewrite Hf. cbn [mbind option_bind]. eexists. split; [done|].
  clear Hop Hf Hin f attrs. set (ts := fst <$> outs).
  assert (forall j name, nd_Outputs n !! j = Some name -> name <> ""%string -> E1 !! name = ts !! j) as Hts.
  { intros j name Hj Hne. unfold ts. rewrite list_lookup_fmap. by apply Hout. }
  clear Hout. clearbody ts. generalize dependent ts. generalize (nd_Outputs n) as names. clear outs. intros names.
  revert E Hsub. induction names as [|x names IH]; intros E Hsub ts Hts.
  - cbn. destruct ts; split_and!; try done; intros name _ Hn; by apply elem_of_nil in Hn.
  - destruct ts as [|t ts]; cbn [bind_outputs].
    { split_and!; [done..|]. intros name Hne Hn. apply list_elem_of_lookup_1 in Hn as [j Hj]. specialize (Hts j name Hj Hne).
      rewrite lookup_nil in Hts. rewrite Hts. apply eq_None_not_Some. intros [v Hv]. pose proof (lookup_weaken _ E1 _ _ Hv Hsub). congruence. }
    assert (forall j name, names !! j = Some name -> name <> ""%string -> E1 !! name = ts !! j) as Hts' by (intros j; apply (Hts (S j))).
    destruct (String.eqb_spec x "") as [->|Hx].
    + destruct (IH E Hsub ts Hts') as (H1 & H2 & H3). split_and!; [done..|]. intros name Hne Hn.
      apply elem_of_cons in Hn as [->|Hn]; [done|by apply H3].
    + pose proof (Hts 0%nat x eq_refl Hx) as Hxt. cbn in Hxt.
      assert (<[x := t]> E ⊆ E1) as Hsub' by (by apply insert_subseteq_l).
      assert (E ⊆ <[x := t]> E) as Hgrow.
      { destruct (E !! x) as [t'|] eqn:Ex; [|by apply insert_subseteq]. pose proof (lookup_weaken _ _ _ _ Ex Hsub). simplify_eq.
        by rewrite insert_id. }
      destruct (IH _ Hsub' ts Hts') as (H1 & H2 & H3). split_and!; [done|by etrans|]. intros name Hne Hn.
      apply elem_of_cons in Hn as [->|Hn]; [|by apply H3]. rewrite Hxt. eapply lookup_weaken; [|exact H2]. by rewrite lookup_insert_eq.
Qed.

End Eval.

(** * Fusing a graph keeps what it computes *)

(** ** What the scan finds *)

(** The [Mul] at [i] multiplies [x] by its Sigmoid, the node [sig], which gives [s]; the
    Conv [prod] gives [x]; the product is [out]. *)
Record Fusion (nodes : list NodeProto) (i prod sig : nat) (x s out : string) : Prop := {
  fu_mul : exists n, nodes !! i = Some n /\ nd_OpType n = "Mul"%string /\ nd_Outputs n !! 0%nat = Some out /\
    exists in0 in1 rest, nd_Inputs n = in0 :: in1 :: rest /\ ((in0 = s /\ in1 = x) \/ (in0 = x /\ in1 = s));
  fu_sig : exists n, nodes !! sig = Some n /\ nd_OpType n = "Sigmoid"%string /\ s ∈ nd_Outputs n /\ nd_Inputs n !! 0%nat = Some x;
  fu_conv : exists n, nodes !! prod = Some n /\ nd_OpType n = "Conv"%string /\ x ∈ nd_Outputs n;
  fu_consumers : consumers nodes x = 2%nat
}.

Lemma nodeByOutput_in nodes name j :
  nodeByOutput nodes name = Some j -> exists n, nodes !! j = Some n /\ name ∈ nd_Outputs n.
Proof.
  intros [l E]%last_Some.
  assert (j ∈ filter (fun i => Exists (fun o => o = name) (default [] (nd_Outputs <$> nodes !! i))) (seq 0 (length nodes))) as Hj.
  { rewrite E. apply elem_of_app. right. by apply list_elem_of_singleton. }
  apply list_elem_of_filter in Hj as [Hx _]. destruct (nodes !! j) as [n|] eqn:En; cbn in Hx; [|by inversion Hx].
  exists n. split; [done|]. apply Exists_exists in Hx as (o & Ho & ->). done.
Qed.

Lemma silu_pattern_inv nodes s x prod sig :
  silu_pattern nodes s x = Some (Some (prod, sig)) ->
  (exists n, nodes !! sig = Some n /\ nd_OpType n = "Sigmoid"%string /\ s ∈ nd_Outputs n /\ nd_Inputs n !! 0%nat = Some x) /\
  (exists n, nodes !! prod = Some n /\ nd_OpType n = "Conv"%string /\ x ∈ nd_Outputs n) /\ consumers nodes x = 2%nat.
Proof.
  unfold silu_pattern. destruct (nodeByOutput nodes s) as [sg|] eqn:Es; [|done].
  destruct (nodeByOutput_in _ _ _ Es) as (sn & Esn & Hs). rewrite Esn. cbn [mbind option_bind].
  destruct (String.eqb_spec (nd_OpType sn) "Sigmoid") as [Ets|]; cbn [negb]; [|done].
  destruct (nd_Inputs sn !! 0%nat) as [si|] eqn:Ein; [|done]. cbn [mbind option_bind].
  destruct (String.eqb_spec x si) as [<-|]; cbn [negb]; [|done].
  destruct (nodeByOutput nodes x) as [pr|] eqn:Ep; [|done].
  destruct (nodeByOutput_in _ _ _ Ep) as (pn & Epn & Hx). rewrite Epn. cbn [mbind option_bind].
  destruct (String.eqb_spec (nd_OpType pn) "Conv") as [Etp|]; cbn [negb]; [|done].
  destruct (bool_decide (consumers nodes x = 2%nat)) eqn:Ec; cbn [negb]; [|done]. apply bool_decide_eq_true_1 in Ec.
  intros [= -> ->]. split; [by exists sn|]. split; [by exists pn|done].
Qed.

(** What the scan has recorded comes from fusions it has recorded whole. *)
Definition recorded (nodes : list NodeProto) (f : Fusions) (i prod sig : nat) (x s out : string) : Prop :=
  Fusion nodes i prod sig x s out /\ i ∈ fusedNodes f /\ sig ∈ fusedNodes f /\ is_Some (siluConvs f !! prod).

Definition sound (nodes : list NodeProto) (f : Fusions) : Prop :=
  (forall k, k ∈ fusedNodes f -> exists i prod sig x s out, recorded nodes f i prod sig x s out /\ (k = i \/ k = sig)) /\
  (forall prod out, siluConvs f !! prod = Some out -> exists i sig x s, recorded nodes f i prod sig x s out).

Lemma recorded_grow nodes f i prod sig x s out i' prod' sig' out' :
  recorded nodes f i prod sig x s out ->
  recorded nodes {| fusedNodes := {[ sig'; i' ]} ∪ fusedNodes f; siluConvs := <[prod' := out']> (siluConvs f) |} i prod sig x s out.
Proof.
  intros (Hf & Hi & Hs & Hp). split; [done|]. cbn [fusedNodes siluConvs]. split; [set_solver|]. split; [set_solver|].
  destruct (decide (prod' = prod)) as [->|]; [by rewrite lookup_insert_eq|by rewrite lookup_insert_ne].
Qed.

Lemma fuse_scan_sound nodes i n f f' :
  nodes !! i = Some n -> sound nodes f -> fuse_scan nodes i n f = Some f' -> sound nodes f'.
Proof.
  intros Hn Hsound. unfold fuse_scan.
  destruct (String.eqb_spec (nd_OpType n) "Mul") as [Et|]; cbn [negb]; [|by intros [= <-]].
  destruct (nd_Inputs n) as [|in0 [|in1 rest]] eqn:Ein; [by intros [= <-]..|].
  destruct (silu_pattern nodes in0 in1) as [first|] eqn:E1; [|done]. cbn [mbind option_bind].
  destruct (match first with Some r => _ | None => _ end) as [found|] eqn:E2; [|done]. cbn [mbind option_bind].
  destruct found as [[prod sig]|]; [|by intros [= <-]].
  destruct (nd_Outputs n !! 0%nat) as [out|] eqn:Eout; [|done]. cbn [mbind option_bind]. intros [= <-].
  assert (exists x s, Fusion nodes i prod sig x s out) as (x & s & Hf).
  { destruct first as [r|]; simplify_eq.
    - apply silu_pattern_inv in E1 as (Hs & Hc & Hk). exists in1, in0. constructor; [|done..].
      exists n. split_and!; [done..|]. exists in0, in1, rest. split; [done|by left].
    - apply silu_pattern_inv in E2 as (Hs & Hc & Hk). exists in0, in1. constructor; [|done..].
      exists n. split_and!; [done..|]. exists in0, in1, rest. split; [done|by right]. }
  set (f' := {| fusedNodes := _; siluConvs := _ |}).
  assert (recorded nodes f' i prod sig x s out) as Hr.
  { split; [done|]. cbn [fusedNodes siluConvs f']. split; [set_solver|]. split; [set_solver|]. by rewrite lookup_insert_eq. }
  destruct Hsound as [H1 H2]. split.
  - intros k Hk. cbn [fusedNodes f'] in Hk. apply elem_of_union in Hk as [Hk|Hk].
    + exists i, prod, sig, x, s, out. split; [done|]. set_solver.
    + destruct (H1 k Hk) as (i1 & p1 & g1 & x1 & s1 & o1 & Hr1 & Hk1). exists i1, p1, g1, x1, s1, o1. split; [by apply recorded_grow|done].
  - intros p o. cbn [siluConvs f']. destruct (decide (prod = p)) as [->|Hne].
    + rewrite lookup_insert_eq. intros [= <-]. by exists i, sig, x, s.
    + rewrite lookup_insert_ne by done. intros Hp. destruct (H2 p o Hp) as (i1 & g1 & x1 & s1 & Hr1).
      exists i1, g1, x1, s1. by apply recorded_grow.
Qed.

Lemma fuse_find_sound nodes f : fuse_find nodes = Some f -> sound nodes f.
Proof.
  unfold fuse_find. assert (sound nodes {| fusedNodes := ∅; siluConvs := ∅ |}) as H0.
  { split; [intros k Hk; by apply not_elem_of_empty in Hk|intros p o Hp; cbn [siluConvs] in Hp; by rewrite lookup_empty in Hp]. }
  revert H0. generalize {| fusedNodes := ∅; siluConvs := ∅ |} as f0.
  assert (forall k n, (k, n) ∈ imap pair nodes -> nodes !! k = Some n) as Hin.
  { intros k n Hk. apply list_elem_of_lookup_1 in Hk as [j Hj]. rewrite list_lookup_imap in Hj.
    destruct (nodes !! j) eqn:E; [|done]. cbn in Hj. by simplify_eq. }
  revert Hin. generalize (imap pair nodes) as l. induction l as [|[k n] l IH]; intros Hin f0 H0; [by intros [= ->]|].
  rewrite for_each_cons. destruct (fuse_scan nodes k n f0) as [f1|] eqn:E; [|done]. cbn [mbind option_bind]. apply IH.
  - intros k' n' Hk. apply Hin. by right.
  - eapply fuse_scan_sound; [|done..]. apply Hin. by left.
Qed.

(** ** Who reads a tensor *)

Definition reads (nodes : list NodeProto) (name : string) (k : nat) : Prop := exists n, nodes !! k = Some n /\ name ∈ nd_Inputs n.

Lemma readers_counted nodes name ks :
  name <> ""%string -> NoDup ks -> Forall (reads nodes name) ks -> (length ks <= consumers nodes name)%nat.
Proof.
  intros Hne Hnd Hks. unfold consumers. rewrite bool_decide_eq_false_2 by done.
  set (readers := filter (fun k => Exists (fun o => o = name) (default [] (nd_Inputs <$> nodes !! k))) (seq 0 (length nodes))).
  transitivity (length readers).
  - apply submseteq_length, NoDup_submseteq; [done|]. intros k Hk. rewrite Forall_forall in Hks. destruct (Hks k Hk) as (n & En & Hin).
    apply list_elem_of_filter. rewrite En. cbn. split; [|apply elem_of_seq; apply lookup_lt_Some in En; lia].
    apply Exists_exists. by exists name.
  - clear. unfold readers. clear readers. assert (forall off, length (filter (fun k => Exists (fun o => o = name) (default [] (nd_Inputs <$> nodes !! (k - off)%nat))) (seq off (length nodes)))
      <= length (filter (fun i => i = name) (mjoin (nd_Inputs <$> nodes))))%nat as H.
    { induction nodes as [|n nodes IH]; intros off; [done|]. cbn [length seq]. rewrite filter_cons, Nat.sub_diag. cbn [lookup list_lookup fmap option_fmap option_map default].
      rewrite mjoin_map_cons, filter_app, length_app.
      assert (filter (fun k => Exists (fun o => o = name) (default [] (nd_Inputs <$> (n :: nodes) !! (k - off)%nat))) (seq (S off) (length nodes)) =
        filter (fun k => Exists (fun o => o = name) (default [] (nd_Inputs <$> nodes !! (k - S off)%nat))) (seq (S off) (length nodes))) as ->.
      { apply filter_ext_in. intros k Hk%elem_of_seq. replace (k - off)%nat with (S (k - S off)) by lia. done. }
      specialize (IH (S off)). case_decide as Hx; [|lia]. cbn [length].
      enough (1 <= length (filter (fun i => i = name) (nd_Inputs n)))%nat by lia.
      apply Exists_exists in Hx as (o & Ho & ->). destruct (filter (fun i => i = name) (nd_Inputs n)) eqn:E; [|cbn; lia].
      assert (name ∈ filter (fun i => i = name) (nd_Inputs n)) as Hf by (by apply list_elem_of_filter). rewrite E in Hf. by apply elem_of_nil in Hf. }
    specialize (H 0%nat). etrans; [|exact H]. apply Nat.eq_le_incl. f_equal. apply filter_ext_in. intros k _. by rewrite Nat.sub_0_r.
Qed.

Section Semantics.
Context {Rec : Recycled} {Mach : Machine}.

(** ** Operators of one result *)

Lemma opConv_one ins attrs outs : opConv ins attrs = Some (Ok outs) -> exists c, outs = [(c, Pooled)].
Proof.
  unfold opConv. destruct (len ins <? 2); [done|]. destruct (input ins 0) as [x|]; [|done]. destruct (input ins 1) as [w|]; [|done].
  cbn [mbind option_bind]. destruct (conv_geometry x w attrs) as [[g|e]|]; [|done..]. cbn [mbind option_bind].
  destruct (conv_data _ _ _ _) as [t|]; [|done]. cbn [mbind option_bind].
  destruct (bias_of (input ins 2)) as [b|]; [destruct (add_bias _ _ _); [|done]; cbn [mbind option_bind]|]; intros [= <-]; by eexists.
Qed.

Lemma opSigmoid_one ins attrs outs :
  opSigmoid ins attrs = Some (Ok outs) -> exists c s, input ins 0 = Some c /\ outs = [(s, Pooled)].
Proof.
  unfold opSigmoid, map_tensor. destruct (len ins <? 1); [done|]. destruct (input ins 0) as [c|]; [|done]. cbn [mbind option_bind].
  destruct (fill_each _ _ _) as [d|]; [|done]. cbn [mbind option_bind]. intros [= <-]. by exists c, (with_data (newTensorUninit (Shape c)) d).
Qed.

Lemma opMul_one ins attrs outs :
  opMul ins attrs = Some (Ok outs) -> exists a b y, input ins 0 = Some a /\ input ins 1 = Some b /\ outs = [(y, Pooled)].
Proof.
  unfold opMul, binary_fast. destruct (len ins <? 2); [done|]. destruct (input ins 0) as [a|]; [|done]. destruct (input ins 1) as [b|]; [|done].
  cbn [mbind option_bind]. intros H. exists a, b. revert H. destruct (shapesEqual _ _).
  { unfold same_shape. destruct (fill_each _ _ _) as [d|]; [|done]. intros [= <-]. by eexists. }
  destruct (_ || _).
  { destruct (get (Data b) 0) as [bv|]; [|done]. cbn [mbind option_bind]. destruct (fill_each _ _ _) as [d|]; [|done]. intros [= <-]. by eexists. }
  destruct (isPerChannelBroadcast _ _) as [[sp ch]|].
  { destruct (get (Shape a) 0) as [n|]; [|done]. cbn [mbind option_bind]. destruct (per_channel _ _ _ _ _ _) as [d|]; [|done]. intros [= <-]. by eexists. }
  unfold binaryOpSlow. destruct (broadcastShapes _ _) as [sh|]; [|done]. destruct (broadcast_data _ _ _ _ _ _ _) as [d|]; [|done].
  intros [= <-]. by eexists.
Qed.

(** ** The equations of a fusion *)

Lemma holds_op E n opType f :
  holds E n -> nd_OpType n = opType -> lookup_op opType = Some f ->
  exists attrs outs, nodeAttrsToAttributes (nd_Attrs n) = Val attrs /\ f (operands E (nd_Inputs n)) attrs = Some (Ok outs) /\
    forall j name, nd_Outputs n !! j = Some name -> name <> ""%string -> E !! name = fst <$> (outs !! j).
Proof.
  intros (g & attrs & outs & Hop & Hg & Hout) Ht Hf. unfold node_op in Hop. rewrite Ht, Hf in Hop.
  destruct (nodeAttrsToAttributes (nd_Attrs n)); [|done..]. simplify_eq. by exists attrs, outs.
Qed.

Lemma input_operands E names k name :
  names !! k = Some name -> input (operands E names) (Z.of_nat k) = operand E name.
Proof. intros H. unfold input, operands. rewrite get_nat, list_lookup_fmap, H. done. Qed.

Lemma operand_Some E name t : operand E name = Some t -> name <> ""%string /\ E !! name = Some t.
Proof. unfold operand. destruct (String.eqb_spec name ""); [done|]. by split. Qed.

(** Of a node with one result, only the first output has a value. *)
Lemma first_output (E : Env) n (outs : list (Tensor * Origin)) t name :
  (forall j name, nd_Outputs n !! j = Some name -> name <> ""%string -> E !! name = fst <$> (outs !! j)) -> outs = [t] ->
  name <> ""%string -> is_Some (E !! name) -> name ∈ nd_Outputs n -> nd_Outputs n !! 0%nat = Some name /\ E !! name = Some (fst t).
Proof.
  intros Hout -> Hne [v Hv] Hin. apply list_elem_of_lookup_1 in Hin as [[|j] Hj].
  - split; [done|]. by apply (Hout 0%nat).
  - rewrite (Hout _ _ Hj Hne) in Hv. done.
Qed.

(** The shapes and groups of a convolution are as [well_grouped] asks. *)
Definition grouped (E : Env) (n : NodeProto) : Prop :=
  nd_OpType n = "Conv"%string -> forall x w attrs, nodeAttrsToAttributes (nd_Attrs n) = Val attrs ->
    input (operands E (nd_Inputs n)) 0 = Some x -> input (operands E (nd_Inputs n)) 1 = Some w -> well_grouped x w attrs.

(** The fused node. *)
Definition silu_node (n : NodeProto) (out : string) : NodeProto :=
  Build_NodeProto (nd_Inputs n) [out] (nd_Name n) "ConvSiLU" (nd_Attrs n).

Record Equations (nodes : list NodeProto) (E : Env) (i prod sig : nat) (x s out : string) (mn sn cn : NodeProto) : Prop := {
  eq_mul : nodes !! i = Some mn /\ nd_OpType mn = "Mul"%string /\ x ∈ nd_Inputs mn /\ s ∈ nd_Inputs mn;
  eq_mul_out : forall name, name <> ""%string -> is_Some (E !! name) -> name ∈ nd_Outputs mn -> name = out;
  eq_sig : nodes !! sig = Some sn /\ nd_OpType sn = "Sigmoid"%string /\ x ∈ nd_Inputs sn /\ s ∈ nd_Outputs sn;
  eq_sig_out : s <> ""%string /\ forall name, name <> ""%string -> is_Some (E !! name) -> name ∈ nd_Outputs sn -> name = s;
  eq_conv : nodes !! prod = Some cn /\ nd_OpType cn = "Conv"%string /\ x ∈ nd_Outputs cn;
  eq_conv_out : x <> ""%string /\ forall name, name <> ""%string -> is_Some (E !! name) -> name ∈ nd_Outputs cn -> name = x;
  eq_fused : holds E (silu_node cn out)
}.

Lemma opConv_inputs ins attrs outs : opConv ins attrs = Some (Ok outs) -> is_Some (input ins 0) /\ is_Some (input ins 1).
Proof.
  unfold opConv. destruct (len ins <? 2); [done|]. destruct (input ins 0) as [x|]; [|done]. by destruct (input ins 1) as [w|].
Qed.

Lemma fusion_equations nodes E i prod sig x s out :
  Forall (holds E) nodes -> Forall (grouped E) nodes -> Fusion nodes i prod sig x s out ->
  exists mn sn cn, Equations nodes E i prod sig x s out mn sn cn.
Proof.
  intros Hh Hgr [(mn & Emn & Etm & Eo & in0 & in1 & rest & Ein & Hor) (sn & Esn & Ets & Hso & Ex) (cn & Ecn & Etc & Hxo) _].
  pose proof (Forall_lookup_1 _ _ _ _ Hh Emn) as Hm. pose proof (Forall_lookup_1 _ _ _ _ Hh Esn) as Hs.
  pose proof (Forall_lookup_1 _ _ _ _ Hh Ecn) as Hc. pose proof (Forall_lookup_1 _ _ _ _ Hgr Ecn Etc) as Hg.
  destruct (holds_op _ _ _ _ Hm Etm eq_refl) as (ma & mouts & Ema & Fm & Om).
  destruct (holds_op _ _ _ _ Hs Ets eq_refl) as (sa & souts & Esa & Fs & Os).
  destruct (holds_op _ _ _ _ Hc Etc eq_refl) as (ca & couts & Eca & Fc & Oc). clear Hm Hs Hc.
  destruct (opConv_one _ _ _ Fc) as (c & Ec). destruct (opSigmoid_one _ _ _ Fs) as (c' & sv & Hc' & Es).
  destruct (opMul_one _ _ _ Fm) as (a & b & y & Ha & Hb & Em). subst couts souts mouts.
  pose proof (input_operands E _ _ _ Ex) as Hx. change (Z.of_nat 0) with 0 in Hx. rewrite Hc' in Hx. symmetry in Hx.
  apply operand_Some in Hx as [Hxne HxE].
  assert (nd_Inputs mn !! 0%nat = Some in0 /\ nd_Inputs mn !! 1%nat = Some in1) as [Hi0 Hi1] by (by rewrite Ein).
  pose proof (input_operands E _ _ _ Hi0) as Ha'. pose proof (input_operands E _ _ _ Hi1) as Hb'.
  change (Z.of_nat 0) with 0 in Ha'. change (Z.of_nat 1) with 1 in Hb'. rewrite Ha in Ha'. rewrite Hb in Hb'. symmetry in Ha', Hb'.
  apply operand_Some in Ha' as [Hne0 HE0]. apply operand_Some in Hb' as [Hne1 HE1].
  assert (s <> ""%string /\ is_Some (E !! s)) as [Hsne HsE] by (destruct Hor as [[-> ->]|[-> ->]]; eauto).
  assert (x ∈ nd_Inputs mn /\ s ∈ nd_Inputs mn) as [Hxm Hsm].
  { rewrite Ein. destruct Hor as [[-> ->]|[-> ->]]; split; set_solver. }
  destruct (first_output _ _ _ _ _ Oc eq_refl Hxne ltac:(by eexists) Hxo) as [Hx0 Hxc].
  destruct (first_output _ _ _ _ _ Os eq_refl Hsne HsE Hso) as [Hs0 Hsv]. cbn [fst] in *.
  rewrite HxE in Hxc. injection Hxc as ->.
  destruct (opConv_inputs _ _ _ Fc) as [[xt Hxt] [wt Hwt]]. specialize (Hg _ _ _ Eca Hxt Hwt).
  exists mn, sn, cn. constructor.
  - done.
  - intros name Hne HE Hin. destruct (first_output _ _ _ _ _ Om eq_refl Hne HE Hin) as [H0 _]. congruence.
  - split_and!; [done|done|by eapply list_elem_of_lookup_2|done].
  - split; [done|]. intros name Hne HE Hin. destruct (first_output _ _ _ _ _ Os eq_refl Hne HE Hin) as [H0 _]. congruence.
  - done.
  - split; [done|]. intros name Hne HE Hin. destruct (first_output _ _ _ _ _ Oc eq_refl Hne HE Hin) as [H0 _]. congruence.
  - exists opConvSiLU, ca, [(y, Pooled)]. split; [unfold node_op, silu_node; cbn [nd_Attrs nd_OpType]; by rewrite Eca|]. split.
    + cbn [silu_node nd_Inputs]. eapply (ConvSiLU_is_the_composition _ _ (operands E (nd_Inputs sn)) sa (operands E (nd_Inputs mn)) ma xt wt c Pooled sv Pooled); try done.
      destruct Hor as [[-> ->]|[-> ->]]; [right|left]; split; congruence.
    + intros [|j] name Hj Hne; [|done]. cbn in Hj. injection Hj as ->. by apply (Om 0%nat).
Qed.
(** ** The fused graph *)

(** The Sigmoid a fusion drops is read by nobody but the [Mul]. *)
Definition private (nodes : list NodeProto) (f : Fusions) : Prop :=
  forall k n name, k ∈ fusedNodes f -> nodes !! k = Some n -> nd_OpType n = "Sigmoid"%string ->
    name ∈ nd_Outputs n -> name <> ""%string -> (consumers nodes name <= 1)%nat.

(** The tensors inside a fusion, which the fused graph does not produce. *)
Definition dropped (nodes : list NodeProto) (f : Fusions) (name : string) : Prop :=
  exists k n, nodes !! k = Some n /\ name ∈ nd_Outputs n /\
    ((k ∈ fusedNodes f /\ nd_OpType n = "Sigmoid"%string) \/ is_Some (siluConvs f !! k)).

Section Fuse.
Variables (nodes : list NodeProto) (f : Fusions) (E0 E1 : Env).
Hypotheses (Hvalid : valid_graph nodes E0) (Hgrouped : Forall (grouped E1) nodes) (Hfind : fuse_find nodes = Some f)
  (Hprivate : private nodes f) (Heval : eval_nodes 0 nodes E0 = Some (Ok E1)).

Lemma all_hold : Forall (holds E1) nodes.
Proof using Hvalid Hgrouped Hfind Hprivate Heval. by eapply eval_holds. Qed.

Lemma start_kept : E0 ⊆ E1.
Proof using Hvalid Hgrouped Hfind Hprivate Heval.
  apply map_subseteq_spec. intros name t Ht. rewrite (eval_nodes_other _ _ _ _ _ Heval); [done|].
  intros Hp. by rewrite (produced_fresh _ _ Hvalid _ Hp) in Ht.
Qed.

Lemma three_readers i sig k x s out mn sn cn prod n :
  Equations nodes E1 i prod sig x s out mn sn cn -> consumers nodes x = 2%nat ->
  nodes !! k = Some n -> x ∈ nd_Inputs n -> k = i \/ k = sig.
Proof using Hvalid Hgrouped Hfind Hprivate Heval.
  intros [(Emn & Etm & Hxm & _) _ (Esn & Ets & Hxs & _) _ _ [Hne _] _] Hc Ek Hin.
  destruct (decide (k = i)) as [|Hi]; [by left|]. destruct (decide (k = sig)) as [|Hs]; [by right|].
  assert (i <> sig) as His by (intros ->; rewrite Emn in Esn; congruence).
  pose proof (readers_counted nodes x [k; i; sig] Hne) as Hr. rewrite Hc in Hr. cbn in Hr.
  enough (3 <= 2)%nat by lia. apply Hr; [repeat constructor; set_solver|]. repeat constructor; eexists; eauto.
Qed.

(** The one name a [Conv] takes when it is fused. *)
Lemma fused_name i prod sig x s out o :
  recorded nodes f i prod sig x s out -> siluConvs f !! prod = Some o -> o = out.
Proof using Hvalid Hgrouped Hfind Hprivate Heval.
  intros (Hf & _) Ho. destruct (fuse_find_sound _ _ Hfind) as [_ Hs]. destruct (Hs _ _ Ho) as (i' & sig' & x' & s' & Hf' & _).
  destruct (fusion_equations _ _ _ _ _ _ _ _ all_hold Hgrouped Hf) as (mn & sn & cn & Eq).
  destruct (fusion_equations _ _ _ _ _ _ _ _ all_hold Hgrouped Hf') as (mn' & sn' & cn' & Eq').
  pose proof Eq' as [(Emn' & Etm' & Hxm' & _) _ (Esn' & _) _ (Ecn' & _ & Hxc') [Hne' _] _].
  pose proof Eq as [(Emn & Etm & _) _ (Esn & Ets & _) _ (Ecn & _ & Hxc) [Hne Hconv] _].
  assert (cn' = cn) as -> by congruence.
  assert (x' = x) as ->.
  { apply Hconv; [done| |done]. destruct (eq_sig _ _ _ _ _ _ _ _ _ _ _ Eq') as (Es' & Et' & _).
    destruct (fu_sig _ _ _ _ _ _ _ Hf') as (n & En & _ & _ & Hin). assert (n = sn') as -> by congruence.
    pose proof (Forall_lookup_1 _ _ _ _ all_hold En) as Hh. destruct (holds_op _ _ _ _ Hh Et' eq_refl) as (a & outs & _ & Fs & _).
    destruct (opSigmoid_one _ _ _ Fs) as (c & ? & Hc & _). pose proof (input_operands E1 _ _ _ Hin) as Hi. change (Z.of_nat 0) with 0 in Hi.
    rewrite Hc in Hi. symmetry in Hi. apply operand_Some in Hi as [_ Hi]. by eexists. }
  destruct (three_readers _ _ i' _ _ _ _ _ _ _ mn' Eq (fu_consumers _ _ _ _ _ _ _ Hf) Emn' Hxm') as [->| ->]; [|congruence].
  destruct (fu_mul _ _ _ _ _ _ _ Hf) as (m & Em & _ & Hm & _). destruct (fu_mul _ _ _ _ _ _ _ Hf') as (m' & Em' & _ & Hm' & _). congruence.
Qed.

(** Where a value comes from: the start, a node the fused graph keeps, the [Mul] of a
    fusion, or the inside of one. *)
Lemma provenance name v :
  name <> ""%string -> E1 !! name = Some v ->
  E0 !! name = Some v \/
  exists j n, nodes !! j = Some n /\ name ∈ nd_Outputs n /\
    ((j ∉ fusedNodes f /\ siluConvs f !! j = None) \/
     (exists prod, siluConvs f !! prod = Some name /\ (prod < j)%nat) \/
     (exists i prod sig x s out, recorded nodes f i prod sig x s out /\ ((j = sig /\ name = s) \/ (j = prod /\ name = x)))).
Proof using Hvalid Hgrouped Hfind Hprivate Heval.
  intros Hne Hv. destruct (decide (name ∈ produced nodes)) as [Hp|Hp].
  2:{ left. by rewrite <- (eval_nodes_other _ _ _ _ _ Heval). }
  right. apply elem_produced in Hp as (j & n & Ej & _ & Hin). exists j, n. split; [done|]. split; [done|].
  destruct (fuse_find_sound _ _ Hfind) as [Hsf Hsc]. pose proof all_hold as Hh.
  destruct (decide (j ∈ fusedNodes f)) as [Hj|Hj].
  - right. destruct (Hsf j Hj) as (i & prod & sig & x & s & out & Hr & Hk). pose proof Hr as (Hf & _ & _ & [o Ho]).
    destruct (fusion_equations _ _ _ _ _ _ _ _ Hh Hgrouped Hf) as (mn & sn & cn & Eq).
    destruct Eq as [(Emn & _ & _ & Hsm) Hm (Esn & _ & Hxs & Hso) [Hsne Hs] (Ecn & _ & Hxc) [Hxne _] _]. destruct Hk as [->| ->].
    + left. exists prod. assert (n = mn) as -> by congruence. rewrite (fused_name _ _ _ _ _ _ _ Hr Ho) in Ho.
      rewrite (Hm name Hne ltac:(by eexists) Hin). split; [done|].
      pose proof (in_order _ _ Hvalid _ _ _ _ _ Esn Ecn Hxne Hxs Hxc).
      pose proof (in_order _ _ Hvalid _ _ _ _ _ Emn Esn Hsne Hsm Hso). lia.
    + right. exists i, prod, sig, x, s, out. split; [done|]. left. split; [done|]. assert (n = sn) as -> by congruence.
      apply Hs; [done|by eexists|done].
  - destruct (siluConvs f !! j) as [o|] eqn:Eo; [|by left]. right. right.
    destruct (Hsc _ _ Eo) as (i & sig & x & s & Hr). exists i, j, sig, x, s, o. split; [done|]. right. split; [done|].
    destruct Hr as (Hf & _). destruct (fusion_equations _ _ _ _ _ _ _ _ Hh Hgrouped Hf) as (mn & sn & cn & Eq).
    destruct Eq as [_ _ _ _ (Ecn & _) [_ Hc] _]. assert (n = cn) as -> by congruence. apply Hc; [done|by eexists|done].
Qed.

(** The values of the fused run before the [k]th node of the original list. *)
Definition reached (k : nat) (E : Env) : Prop :=
  E0 ⊆ E /\ E ⊆ E1 /\
  forall j n name, (j < k)%nat -> nodes !! j = Some n -> name <> ""%string ->
    (name ∈ nd_Outputs n /\ j ∉ fusedNodes f /\ siluConvs f !! j = None) \/ siluConvs f !! j = Some name -> E !! name = E1 !! name.

Lemma subset_agrees (E E' : Env) name : E ⊆ E' -> E' ⊆ E1 -> E !! name = E1 !! name -> E' !! name = E1 !! name.
Proof using Hvalid Hgrouped Hfind Hprivate Heval.
  intros H H' Ha. destruct (E !! name) as [v|] eqn:Ev; [rewrite <- Ha; by eapply lookup_weaken|].
  rewrite <- Ha. apply eq_None_not_Some. intros [v Hv]. pose proof (lookup_weaken _ _ _ _ Hv H'). congruence.
Qed.

(** A node that is not dropped finds its operands. *)
Lemma operands_reached k n E name :
  reached k E -> nodes !! k = Some n -> k ∉ fusedNodes f -> name <> ""%string -> name ∈ nd_Inputs n -> E !! name = E1 !! name.
Proof using Hvalid Hgrouped Hfind Hprivate Heval.
  intros (H0 & H1 & Hr) Ek Hk Hne Hin. destruct (E1 !! name) as [v|] eqn:Ev.
  2:{ apply eq_None_not_Some. intros [v Hv]. pose proof (lookup_weaken _ _ _ _ Hv H1). congruence. }
  destruct (provenance name v Hne Ev) as [HE|(j & m & Ej & Hout & Hcase)]; [by eapply lookup_weaken|].
  pose proof (in_order _ _ Hvalid _ _ _ _ _ Ek Ej Hne Hin Hout) as Hlt. rewrite <- Ev.
  destruct Hcase as [[Hj Hc]|[(prod & Hp & Hlt')|(i & prod & sig & x & s & out & (Hf & Hi & Hs & _) & Hor)]].
  - apply (Hr j m); [done..|]. by left.
  - destruct (fuse_find_sound _ _ Hfind) as [_ Hsc]. destruct (Hsc _ _ Hp) as (i & sig & x & s & (Hf & _)).
    destruct (fu_conv _ _ _ _ _ _ _ Hf) as (cn & Ecn & _). apply (Hr prod cn); [lia|done..|]. by right.
  - exfalso. destruct (fusion_equations _ _ _ _ _ _ _ _ all_hold Hgrouped Hf) as (mn & sn & cn & Eq).
    destruct Hor as [[-> ->]|[-> ->]].
    + destruct Eq as [(Emn & _ & _ & Hsm) _ (Esn & Ets & _ & Hso) _ _ _ _].
      pose proof (Hprivate _ _ _ Hs Esn Ets Hso Hne) as Hle. pose proof (readers_counted nodes s [k; i] Hne) as Hrd. cbn in Hrd.
      enough (2 <= 1)%nat by lia. etrans; [apply Hrd|exact Hle]; [repeat constructor; set_solver|]. repeat constructor; eexists; eauto.
    + destruct (three_readers _ _ k _ _ _ _ _ _ _ n Eq (fu_consumers _ _ _ _ _ _ _ Hf) Ek Hin) as [->| ->]; done.
Qed.

Lemma silu_not_fused k o : siluConvs f !! k = Some o -> k ∉ fusedNodes f.
Proof using Hvalid Hgrouped Hfind Hprivate Heval.
  intros Ho Hk. destruct (fuse_find_sound _ _ Hfind) as [Hsf Hsc]. destruct (Hsc _ _ Ho) as (i & sig & x & s & (Hf & _)).
  destruct (Hsf _ Hk) as (i' & prod' & sig' & x' & s' & out' & (Hf' & _) & Hor).
  destruct (fu_conv _ _ _ _ _ _ _ Hf) as (cn & Ecn & Et & _). destruct (fu_mul _ _ _ _ _ _ _ Hf') as (mn & Emn & Etm & _).
  destruct (fu_sig _ _ _ _ _ _ _ Hf') as (sn & Esn & Ets & _). destruct Hor as [->| ->]; congruence.
Qed.

(** The nodes the fused graph has for the [k]th one take the run past it. *)
Lemma node_reached k n E i :
  reached k E -> nodes !! k = Some n ->
  exists E', eval_nodes i (fuse_node f k n) E = Some (Ok E') /\ reached (S k) E'.
Proof using Hvalid Hgrouped Hfind Hprivate Heval.
  intros Hr Ek. pose proof Hr as (H0 & H1 & Hav). unfold fuse_node. case_decide as Hk.
  { exists E. split; [done|]. split; [done|]. split; [done|]. intros j m name Hj Ej Hne Hor.
    destruct (decide (j = k)) as [->|]; [|apply (Hav j m); (done || lia)]. destruct Hor as [(_ & ? & _)|Ho]; [done|].
    by apply silu_not_fused in Ho. }
  pose proof (fun name => operands_reached k n E name Hr Ek Hk) as Hin.
  assert (forall n', holds E1 n' -> nd_Inputs n' = nd_Inputs n ->
    (forall name, name <> ""%string -> (name ∈ nd_Outputs n /\ k ∉ fusedNodes f /\ siluConvs f !! k = None) \/ siluConvs f !! k = Some name -> name ∈ nd_Outputs n') ->
    exists E', eval_nodes i [n'] E = Some (Ok E') /\ reached (S k) E') as Hone.
  { intros n' Hh En' Hout. destruct (holds_eval E E1 n' Hh) as (E' & Ee & Hs1 & Hs & Ho); [by rewrite En'|done|].
    exists E'. split; [cbn; by rewrite Ee|]. split; [by etrans|]. split; [done|]. intros j m name Hj Ej Hne Hor.
    destruct (decide (j = k)) as [->|]; [apply Ho; [done|]; apply Hout; [done|]; by simplify_eq|].
    apply (subset_agrees E); [done..|]. apply (Hav j m); (done || lia). }
  destruct (siluConvs f !! k) as [o|] eqn:Eo.
  - apply Hone; [|done|]; cycle 1.
    { intros name _ [(_ & _ & ?)|[= <-]]; [done|]. by left. }
    destruct (fuse_find_sound _ _ Hfind) as [_ Hsc]. destruct (Hsc _ _ Eo) as (i' & sig & x & s & (Hf & _)).
    destruct (fusion_equations _ _ _ _ _ _ _ _ all_hold Hgrouped Hf) as (mn & sn & cn & Eq).
    pose proof (eq_fused _ _ _ _ _ _ _ _ _ _ _ Eq) as Hh. destruct (eq_conv _ _ _ _ _ _ _ _ _ _ _ Eq) as (Ecn & _).
    assert (n = cn) as -> by congruence. exact Hh.
  - apply Hone; [by eapply Forall_lookup_1; [apply all_hold|]|done|]. intros name _ [(? & _)|?]; done.
Qed.

Lemma eval_nodes_app i l1 l2 E E' :
  eval_nodes i l1 E = Some (Ok E') -> eval_nodes i (l1 ++ l2) E = eval_nodes (i + len l1) l2 E'.
Proof using Hvalid Hgrouped Hfind Hprivate Heval.
  revert i E. induction l1 as [|n l1 IH]; intros i E; cbn; [intros [= ->]; by rewrite len_nil, Z.add_0_r|].
  destruct (eval_node n E) as [[E2|e]|]; [|done..]. cbn. intros H. rewrite (IH _ _ H), len_cons. f_equal. lia.
Qed.

Lemma suffix_reached l k E i :
  (forall j n, l !! j = Some n -> nodes !! (k + j)%nat = Some n) -> reached k E ->
  exists E', eval_nodes i (mjoin (imap (fun j n => fuse_node f (k + j) n) l)) E = Some (Ok E') /\ reached (k + length l) E'.
Proof using Hvalid Hgrouped Hfind Hprivate Heval.
  revert k E i. induction l as [|n l IH]; intros k E i Hl Hr; [exists E; split; [done|]; by rewrite Nat.add_0_r|].
  rewrite imap_cons. cbn [mjoin list_join]. rewrite Nat.add_0_r.
  destruct (node_reached k n E i Hr) as (E' & Ee & Hr'); [rewrite <- (Nat.add_0_r k); by apply (Hl 0%nat)|].
  rewrite (eval_nodes_app _ _ _ _ _ Ee). cbn [length].
  destruct (IH (S k) E' (i + len (fuse_node f k n))) as (E'' & Ee' & Hr''); [|done|].
  { intros j m Hj. replace (S k + j)%nat with (k + S j)%nat by lia. by apply Hl. }
  exists E''. split; [|by replace (k + S (length l))%nat with (S k + length l)%nat by lia]. rewrite <- Ee'. f_equal. f_equal.
  apply imap_ext. intros j m Hj. cbn. f_equal. lia.
Qed.

Lemma fused_values :
  exists nodes' E2, fuseGraph nodes = Some nodes' /\ eval_nodes 0 nodes' E0 = Some (Ok E2) /\ E2 ⊆ E1 /\
    forall name, name <> ""%string -> ~ dropped nodes f name -> E2 !! name = E1 !! name.
Proof using Hvalid Hgrouped Hfind Hprivate Heval.
  unfold fuseGraph. rewrite Hfind. cbn [mbind option_bind]. case_decide as Hempty; [by exists nodes, E1|].
  destruct (suffix_reached nodes 0 E0 0) as (E2 & Ee & H0 & H1 & Hav); [done| |].
  { split; [done|]. split; [apply start_kept|]. intros; lia. }
  eexists. exists E2. split; [done|]. split; [exact Ee|]. split; [done|]. intros name Hne Hd.
  destruct (E1 !! name) as [v|] eqn:Ev.
  2:{ apply eq_None_not_Some. intros [v Hv]. pose proof (lookup_weaken _ _ _ _ Hv H1). congruence. }
  destruct (provenance name v Hne Ev) as [HE|(j & m & Ej & Hout & Hcase)]; [by eapply lookup_weaken|]. rewrite <- Ev.
  pose proof (lookup_lt_Some _ _ _ Ej) as Hlt.
  destruct Hcase as [[Hj Hc]|[(prod & Hp & Hlt')|(i & prod & sig & x & s & out & (Hf & Hi & Hs & Hp) & Hor)]].
  - apply (Hav j m); [lia|done..|]. by left.
  - destruct (fuse_find_sound _ _ Hfind) as [_ Hsc]. destruct (Hsc _ _ Hp) as (i & sig & x & s & (Hf & _)).
    destruct (fu_conv _ _ _ _ _ _ _ Hf) as (cn & Ecn & _). apply (Hav prod cn); [lia|done..|]. by right.
  - exfalso. apply Hd. exists j, m. split; [done|]. split; [done|]. destruct Hor as [[-> ->]|[-> ->]]; [left|by right].
    split; [done|]. destruct (fu_sig _ _ _ _ _ _ _ Hf) as (sn & Esn & Ets & _). congruence.
Qed.

(** C36: on a valid graph that evaluates, whose convolutions are well grouped and whose fused
    Sigmoids are read by their [Mul] only, the fused graph evaluates too, and gives every
    tensor that is not inside a fusion the same value, bit for bit. *)
Theorem fuseGraph_keeps_values :
  exists nodes' E2, fuseGraph nodes = Some nodes' /\ eval_nodes 0 nodes' E0 = Some (Ok E2) /\ E2 ⊆ E1 /\
    forall name, name <> ""%string -> ~ dropped nodes f name -> E2 !! name = E1 !! name.
Proof using Hvalid Hgrouped Hfind Hprivate Heval. exact fused_values. Qed.
End Fuse.
End Semantics.

(** A convolution of one pixel, its Sigmoid and their product. *)
Definition silu_nodes : list NodeProto :=
  [Build_NodeProto ["x"; "w"] ["c"] "n0" "Conv" []; Build_NodeProto ["c"] ["s"] "n1" "Sigmoid" [];
   Build_NodeProto ["c"; "s"] ["y"] "n2" "Mul" []]%string.

Definition silu_start : Env := {[ "x" := counting [1; 1; 1; 1]; "w" := counting [1; 1; 1; 1] ]}%string.

Definition silu_end : Env :=
  match @eval_nodes zero_recycled rounding_machine 0 silu_nodes silu_start with Some (Ok E) => E | _ => ∅ end.

Lemma silu_valid : valid_graph silu_nodes silu_start.
Proof.
  constructor.
  - apply (bool_decide_unpack _). by vm_compute.
  - intros name Hin. change (produced silu_nodes) with ["c"; "s"; "y"]%string in Hin.
    repeat (apply elem_of_cons in Hin as [->|Hin]; [done|]). by apply elem_of_nil in Hin.
  - intros i j n m name Hi Hj Hne Hin Hout.
    destruct i as [|[|[|i]]], j as [|[|[|j]]]; cbn in Hi, Hj; simplify_eq; try lia; cbn in Hin, Hout; exfalso; set_solver.
Qed.

Lemma silu_grouped : Forall (grouped silu_end) silu_nodes.
Proof.
  apply Forall_cons. split; [|apply Forall_cons; split; [intros [=]|apply Forall_cons; split; [intros [=]|apply Forall_nil_2]]].
  intros _ x w attrs Ha Hx Hw.
  vm_compute in Ha. injection Ha as <-. vm_compute in Hx. vm_compute in Hw. simplify_eq.
  split_and!; [repeat constructor|repeat constructor; unfold max_int64; cbn; lia|done|]. apply Z.divide_1_l.
Qed.

Lemma fuseGraph_keeps_values_witness :
  exists nodes' E2, fuseGraph silu_nodes = Some nodes' /\
    @eval_nodes zero_recycled rounding_machine 0 nodes' silu_start = Some (Ok E2) /\ E2 ⊆ silu_end /\
    forall name, name <> ""%string -> ~ dropped silu_nodes {| fusedNodes := {[ 1%nat; 2%nat ]} ∪ ∅; siluConvs := <[0%nat := "y"%string]> ∅ |} name ->
      E2 !! name = silu_end !! name.
Proof.
  apply (@fuseGraph_keeps_values zero_recycled rounding_machine).
  - exact silu_valid.
  - exact silu_grouped.
  - reflexivity.
  - intros k n name Hk Hn Ht Hout Hne. assert (k = 1%nat \/ k = 2%nat) as [->| ->] by (cbn [fusedNodes] in Hk; set_solver);
      cbn in Hn; injection Hn as <-; cbn in Ht, Hout; [|done].
    apply elem_of_cons in Hout as [->|Hout]; [by vm_compute; lia|by apply elem_of_nil in Hout].
  - vm_compute. reflexivity.
Defined.
