(* ===== verification/OnnxRun.v ===== *)
(** Sessions compute what their graph means: a run over numbered tensors and recycled
    buffers answers as the evaluation by name of [OnnxFusion].

    The numbers of a session name its tensors one to one; the values of a run are those of
    the evaluation under that naming; and the free lists hold only buffers of their own
    size, so that no run panics on them while tensors stay below 2^31 elements. *)

From Stdlib Require Import SpecFloat.
From S2P Require Import Prelude Float64 GoSlices OnnxProto OnnxModel OnnxTensor OnnxShapeOps OnnxMathOps OnnxConv OnnxGraph OnnxTensorTheorems OnnxColumns OnnxFusion.

#[local] Open Scope list_scope.

(** What a run keeps of each number. *)
Abbreviation Values := (list (option Held)).

(** ** Numbering *)

(** Numbers below the next one, a different one for every name. *)
Record ids_ok (ids : Ids) : Prop := {
  ids_next : 0 <= ids.2;
  ids_bound : forall name idx, ids.1 !! name = Some idx -> 0 <= idx < ids.2;
  ids_inj : forall a b idx, ids.1 !! a = Some idx -> ids.1 !! b = Some idx -> a = b
}.

Definition numbers (m : gmap string Z) : list string -> list Z -> Prop := Forall2 (fun name idx => m !! name = Some idx).

(** The same for the names of a node, where -1 stands for a name left out. *)
Definition node_numbers (m : gmap string Z) : list string -> list Z -> Prop :=
  Forall2 (fun name idx => if String.eqb name "" then idx = -1 else m !! name = Some idx).

Lemma numbers_grow m m' names l : m ⊆ m' -> numbers m names l -> numbers m' names l.
Proof. intros Hs H. eapply Forall2_impl; [exact H|]. cbn. intros name idx Hm. by eapply lookup_weaken. Qed.

Lemma node_numbers_grow m m' names l : m ⊆ m' -> node_numbers m names l -> node_numbers m' names l.
Proof.
  intros Hs H. eapply Forall2_impl; [exact H|]. cbn. intros name idx. destruct (String.eqb name ""); [done|]. intros Hm. by eapply lookup_weaken.
Qed.

Lemma id_of_ok name ids idx ids' :
  ids_ok ids -> id_of name ids = (idx, ids') -> ids_ok ids' /\ ids.1 ⊆ ids'.1 /\ ids'.1 !! name = Some idx.
Proof.
  intros [Hn Hb Hi] E. unfold id_of in E. destruct (ids.1 !! name) as [j|] eqn:Ej; simplify_eq; [done|]. cbn [fst snd].
  split; [constructor; cbn [fst snd]|].
  - lia.
  - intros a j. destruct (decide (name = a)) as [->|]; [rewrite lookup_insert_eq; intros [= <-]; lia|].
    rewrite lookup_insert_ne by done. intros Ha%Hb. lia.
  - intros a b j. destruct (decide (a = name)) as [->|], (decide (b = name)) as [->|]; rewrite ?lookup_insert_eq, ?lookup_insert_ne by done; try done.
    + intros [= <-] Hj%Hb. lia.
    + intros Hj%Hb [= <-]. lia.
    + apply Hi.
  - split; [by apply insert_subseteq|by rewrite lookup_insert_eq].
Qed.

Lemma ids_of_ok names : forall ids l ids',
  ids_ok ids -> ids_of names ids = (l, ids') -> ids_ok ids' /\ ids.1 ⊆ ids'.1 /\ numbers ids'.1 names l.
Proof.
  induction names as [|name names IH]; intros ids l ids' Hok E; cbn in E; [simplify_eq; split_and!; [done|done|constructor]|].
  destruct (id_of name ids) as [idx ids1] eqn:E1. destruct (ids_of names ids1) as [rest ids2] eqn:E2. simplify_eq.
  destruct (id_of_ok _ _ _ _ Hok E1) as (H1 & Hs1 & Hl). destruct (IH _ _ _ H1 E2) as (H2 & Hs2 & Hr).
  split_and!; [done|by etrans|]. constructor; [by eapply lookup_weaken|done].
Qed.

Lemma node_ids_ok names : forall ids l ids',
  ids_ok ids -> node_ids names ids = (l, ids') -> ids_ok ids' /\ ids.1 ⊆ ids'.1 /\ node_numbers ids'.1 names l.
Proof.
  induction names as [|name names IH]; intros ids l ids' Hok E; cbn in E; [simplify_eq; split_and!; [done|done|constructor]|].
  destruct (if String.eqb name "" then _ else _) as [idx ids1] eqn:E1. destruct (node_ids names ids1) as [rest ids2] eqn:E2. simplify_eq.
  assert (ids_ok ids1 /\ ids.1 ⊆ ids1.1 /\ if String.eqb name "" then idx = -1 else ids1.1 !! name = Some idx) as (H1 & Hs1 & Hl).
  { destruct (String.eqb name ""); [by simplify_eq|]. by apply id_of_ok in E1. }
  destruct (IH _ _ _ H1 E2) as (H2 & Hs2 & Hr). split_and!; [done|by etrans|]. constructor; [|done].
  destruct (String.eqb name ""); [done|]. by eapply lookup_weaken.
Qed.

Lemma all_node_ids_ok nodes : forall ids l ids',
  ids_ok ids -> all_node_ids nodes ids = (l, ids') ->
  ids_ok ids' /\ ids.1 ⊆ ids'.1 /\
  Forall2 (fun n io => node_numbers ids'.1 (nd_Inputs n) io.1 /\ node_numbers ids'.1 (nd_Outputs n) io.2) nodes l.
Proof.
  induction nodes as [|n nodes IH]; intros ids l ids' Hok E; cbn in E; [simplify_eq; split_and!; [done|done|constructor]|].
  destruct (node_ids (nd_Inputs n) ids) as [ins ids1] eqn:E1. destruct (node_ids (nd_Outputs n) ids1) as [outs ids2] eqn:E2.
  destruct (all_node_ids nodes ids2) as [rest ids3] eqn:E3. simplify_eq.
  destruct (node_ids_ok _ _ _ _ Hok E1) as (H1 & Hs1 & Hi). destruct (node_ids_ok _ _ _ _ H1 E2) as (H2 & Hs2 & Ho).
  destruct (IH _ _ _ H2 E3) as (H3 & Hs3 & Hr). split_and!; [done|by do 2 (etrans; [done|])|]. constructor; [|done]. cbn [fst snd].
  split; [by do 2 (eapply node_numbers_grow; [done|])|by eapply node_numbers_grow].
Qed.

Section Run.
Context {Rec : Recycled} {Mach : Machine} {Order : InitOrder}.

(** ** A session of a graph *)

Record Indexed (s : Session) (inits : gmap string Tensor) (nodes : list NodeProto) : Prop := {
  ix_ids : ids_ok (tensorIDs s, numTensors s);
  ix_inits : exists names, numbers (tensorIDs s) names (initIDs s) /\ length names = length (initTensors s) /\
    zip names (initTensors s) ≡ₚ map_to_list inits;
  ix_inputs : numbers (tensorIDs s) (inputNames s) (inputIDs s);
  ix_steps : Forall2 (fun n st => node_op n = Some (st_func st, st_attrs st) /\
    node_numbers (tensorIDs s) (nd_Inputs n) (st_in st) /\ node_numbers (tensorIDs s) (nd_Outputs n) (st_out st)) nodes (steps s);
  ix_outputs : numbers (tensorIDs s) (outputNames s) (outputIDs s);
  ix_flags : len (recyclable s) = numTensors s
}.

Lemma load_nodes_ops nodes funcs : load_nodes nodes = Val funcs -> Forall2 (fun n fa => node_op n = Some fa) nodes funcs.
Proof.
  pose (step := fun (acc : outcome (list (OpFunc * Attributes))) (n : NodeProto) => obind acc (fun fs =>
    obind (wrap (nd_Name n) (nodeAttrsToAttributes (nd_Attrs n))) (fun attrs =>
      match lookup_op (nd_OpType n) with Some f => Val (fs ++ [(f, attrs)]) | None => Fail (UnsupportedOperator (nd_OpType n)) end))).
  change (load_nodes nodes) with (foldl step (Val []) nodes).
  assert (forall o, (forall v, o <> Val v) -> forall l fs, foldl step o l <> Val fs) as Hbad.
  { intros o Ho l. revert o Ho. induction l as [|m l IHl]; intros o Ho fs'; [apply Ho|]. cbn [foldl]. apply IHl. intros v. unfold step.
    destruct o as [a|e| |]; [by destruct (Ho a)|done..]. }
  assert (forall todo done_ acc fs, Forall2 (fun n fa => node_op n = Some fa) done_ acc ->
    foldl step (Val acc) todo = Val fs -> Forall2 (fun n fa => node_op n = Some fa) (done_ ++ todo) fs) as H.
  2:{ intros E. by apply (H nodes [] [] funcs). }
  induction todo as [|n todo IH]; intros done_ acc fs Hacc E; [cbn in E; simplify_eq; by rewrite app_nil_r|].
  cbn [foldl] in E. rewrite cons_middle, app_assoc.
  destruct (nodeAttrsToAttributes (nd_Attrs n)) as [attrs| | |] eqn:Ea; [|exfalso; revert E; apply Hbad; intros v; unfold step; cbn [obind]; by rewrite Ea..].
  destruct (lookup_op (nd_OpType n)) as [f|] eqn:Ef; [|exfalso; revert E; apply Hbad; intros v; unfold step; cbn [obind]; by rewrite Ea, ?Ef; cbn; rewrite ?Ef].
  apply (IH _ (acc ++ [(f, attrs)])).
  - apply Forall2_app; [done|]. constructor; [|constructor]. unfold node_op. by rewrite Ea, Ef.
  - rewrite <- E. f_equal. unfold step. cbn [obind]. rewrite Ea. cbn [wrap obind]. by rewrite Ef.
Qed.

Lemma buildTensorIndex_indexed inits inputs outputs nodes funcs :
  Forall2 (fun n fa => node_op n = Some fa) nodes funcs ->
  let s := buildTensorIndex inits inputs outputs nodes funcs in
  Indexed s inits nodes /\ inputNames s = inputs /\ outputNames s = outputs.
Proof.
  intros Hf. unfold buildTensorIndex.
  destruct (ids_of (fst <$> init_order inits) (∅, 0)) as [l1 ids1] eqn:E1. destruct (ids_of inputs ids1) as [l2 ids2] eqn:E2.
  destruct (all_node_ids nodes ids2) as [l3 ids3] eqn:E3. destruct (ids_of outputs ids3) as [l4 ids4] eqn:E4. cbv zeta.
  assert (ids_ok (∅, 0)) as H0 by (constructor; [done|intros ? ? H; cbn [fst] in H; by rewrite lookup_empty in H|intros ? ? ? H; cbn [fst] in H; by rewrite lookup_empty in H]).
  destruct (ids_of_ok _ _ _ _ H0 E1) as (H1 & S1 & N1). destruct (ids_of_ok _ _ _ _ H1 E2) as (H2 & S2 & N2).
  destruct (all_node_ids_ok _ _ _ _ H2 E3) as (H3 & S3 & N3). destruct (ids_of_ok _ _ _ _ H3 E4) as (H4 & S4 & N4).
  split; [|done]. constructor; cbn [tensorIDs numTensors initIDs initTensors inputNames inputIDs steps outputNames outputIDs recyclable].
  - by destruct ids4.
  - exists (fst <$> init_order inits). split; [eapply numbers_grow; [|exact N1]; by do 2 (etrans; [done|])|].
    split; [by rewrite !length_fmap|]. by rewrite zip_fst_snd, init_order_perm.
  - eapply numbers_grow; [|exact N2]. by etrans.
  - clear - Hf N3 S4. revert funcs Hf. induction N3 as [|n [ins outs] nodes l [Hi Ho] _ IH]; intros funcs Hf; [inversion Hf; subst; constructor|].
    inversion Hf as [|? [f a] ? funcs' Hop Hf']; subst. cbn [zip_with]. constructor; [|by apply IH]. cbn [st_func st_attrs st_in st_out fst snd] in *.
    split; [done|]. split; by eapply node_numbers_grow.
  - done.
  - unfold recyclable_flags. rewrite len_map, range_len; [lia|apply (ids_next _ H4)].
Qed.
(** ** Buffers *)

(** A buffer as the free lists make them, and lists that hold each at its size. *)
Definition buffer_ok (b : Buffer) : Prop := exists k, 0 <= k < num_buckets /\ buf_cap b = 2 ^ k.
Definition free_ok (fl : FreeLists) : Prop := forall k b, b ∈ bucket fl k -> 0 <= k < num_buckets /\ buf_cap b = 2 ^ k.

(** The largest tensor the free lists serve, in elements. *)
Definition max_elements : Z := 2 ^ 31.

Lemma bucketFor_fits size : 0 < size <= max_elements -> 0 <= bucketFor size < num_buckets /\ size <= 2 ^ bucketFor size.
Proof.
  intros Hs. unfold bucketFor, num_buckets, max_elements in *. destruct (Z.leb_spec size 1); [lia|].
  pose proof (Z.log2_nonneg (size - 1)). pose proof (Z.log2_spec (size - 1) ltac:(lia)) as [_ Hhi].
  pose proof (Z.log2_le_mono (size - 1) (2 ^ 31 - 1) ltac:(lia)). change (Z.log2 (2 ^ 31 - 1)) with 30 in *.
  split; [lia|]. change (Z.succ (Z.log2 (size - 1))) with (Z.succ (Z.log2 (size - 1))) in Hhi. rewrite <- Z.add_1_r in Hhi. lia.
Qed.

Lemma bucketFor_pow k : 0 <= k -> bucketFor (2 ^ k) = k.
Proof.
  intros Hk. unfold bucketFor. destruct (Z.eq_dec k 0) as [->|]; [done|].
  assert (2 ^ 1 <= 2 ^ k) by (apply Z.pow_le_mono_r; lia). change (2 ^ 1) with 2 in *. rewrite (proj2 (Z.leb_gt _ _)) by lia.
  replace (2 ^ k - 1) with (Z.pred (2 ^ k)) by lia. rewrite Z.log2_pred_pow2 by lia. lia.
Qed.

Lemma last_elem {A} (l : list A) x : last l = Some x -> l = take (pred (length l)) l ++ [x].
Proof. intros [l' ->]%last_Some. rewrite length_app, Nat.add_1_r. cbn [pred]. by rewrite take_app_length. Qed.

Lemma take_buffer_ok size fl :
  free_ok fl -> 0 < size <= max_elements -> exists b fl', take_buffer size fl = Some (b, fl') /\ buffer_ok b /\ free_ok fl'.
Proof.
  intros Hfl Hs. destruct (bucketFor_fits size Hs) as [Hk Hle]. unfold take_buffer. rewrite (proj2 (Z.leb_gt _ _)) by lia.
  destruct (last (bucket fl (bucketFor size))) as [b|] eqn:El.
  - apply last_elem in El. destruct (Hfl (bucketFor size) b) as [_ Hcap]; [rewrite El; apply elem_of_app; right; by apply list_elem_of_singleton|].
    rewrite Hcap, (proj2 (Z.leb_le _ _)) by done. do 2 eexists. split; [done|]. split; [by exists (bucketFor size)|].
    intros k b' Hin. unfold bucket in Hin. cbn [bufs] in Hin. destruct (decide (k = bucketFor size)) as [->|].
    + rewrite lookup_insert_eq in Hin. cbn in Hin. apply Hfl. rewrite El. apply elem_of_app. by left.
    + rewrite lookup_insert_ne in Hin by done. by apply Hfl.
  - do 2 eexists. split; [done|]. split; [by exists (bucketFor size)|]. exact Hfl.
Qed.

Lemma put_ok b fl : buffer_ok b -> free_ok fl -> exists fl', putTensorData b fl = Some fl' /\ free_ok fl'.
Proof.
  intros (k & Hk & Hcap) Hfl. unfold putTensorData. rewrite Hcap. pose proof (Z.pow_pos_nonneg 2 k ltac:(lia) ltac:(lia)).
  rewrite (proj2 (Z.eqb_neq _ _)), bucketFor_pow by lia. rewrite (proj2 (Z.leb_gt _ _)) by lia. eexists. split; [done|].
  intros k' b' Hin. unfold bucket in Hin. cbn [bufs] in Hin. destruct (decide (k' = k)) as [->|].
  - rewrite lookup_insert_eq in Hin. cbn in Hin. apply elem_of_app in Hin as [Hin|Hin]; [by apply Hfl|].
    apply list_elem_of_singleton in Hin as ->. done.
  - rewrite lookup_insert_ne in Hin by done. by apply Hfl.
Qed.

Lemma put_all_ok bs : forall fl, Forall buffer_ok bs -> free_ok fl -> exists fl', put_all bs fl = Some fl' /\ free_ok fl'.
Proof.
  induction bs as [|b bs IH]; intros fl Hbs Hfl; [by exists fl|]. apply Forall_cons in Hbs as [Hb Hbs].
  unfold put_all. rewrite for_each_cons. destruct (put_ok b fl Hb Hfl) as (fl1 & -> & H1). cbn [mbind option_bind]. by apply IH.
Qed.

(** Every buffer a value stands in is one. *)
Definition clean (values : Values) : Prop := Forall (fun oh => forall h, oh = Some h -> forall b, h_buffer h = Some b -> buffer_ok b) values.

Lemma clean_get values i h : clean values -> get values i = Some (Some h) -> forall b, h_buffer h = Some b -> buffer_ok b.
Proof.
  intros Hc Hg. unfold get in Hg. destruct (0 <=? i); [|done]. pose proof (Forall_lookup_1 _ _ _ _ Hc Hg) as H. by apply H.
Qed.

Lemma clean_set values i h values' :
  clean values -> (forall b, h_buffer h = Some b -> buffer_ok b) -> set values i (Some h) = Some values' -> clean values'.
Proof.
  intros Hc Hh E. unfold set in E. destruct (_ && _); [|done]. injection E as <-. apply Forall_insert; [done|]. by intros ? [= <-].
Qed.

(** ** The values of a run *)

Lemma foldl_insert (l : list (string * Tensor)) : forall E : Env,
  NoDup l.*1 -> foldl (fun E '(name, t) => <[name := t]> E) E l = list_to_map l ∪ E.
Proof.
  induction l as [|[a t] l IH]; intros E Hnd; [cbn [foldl]; by rewrite list_to_map_nil, map_empty_union|].
  apply NoDup_cons in Hnd as [Ha Hnd]. cbn [foldl]. rewrite IH, list_to_map_cons by done. rewrite <- insert_union_l. symmetry. apply insert_union_r. by apply not_elem_of_list_to_map_1.
Qed.

Section Of.
Variables (s : Session) (inits : gmap string Tensor) (nodes : list NodeProto).
Hypothesis Hs : Indexed s inits nodes.

(** The values of the run are those of the evaluation. *)
Definition valued (values : Values) (E : Env) : Prop :=
  len values = numTensors s /\ clean values /\
  forall name idx, tensorIDs s !! name = Some idx -> exists oh, get values idx = Some oh /\ h_tensor <$> oh = E !! name.

Lemma valued_set values E name idx h :
  valued values E -> tensorIDs s !! name = Some idx -> (forall b, h_buffer h = Some b -> buffer_ok b) ->
  exists values', set values idx (Some h) = Some values' /\ valued values' (<[name := h_tensor h]> E).
Proof using Hs.
  intros (Hl & Hc & Hv) Hid Hb. pose proof (ix_ids _ _ _ Hs) as [_ Hbound Hinj]. cbn [fst snd] in *. pose proof (Hbound _ _ Hid).
  pose proof (set_Some values idx (Some h) ltac:(lia)) as Eset. eexists. split; [done|]. split; [by rewrite (set_len _ _ _ _ Eset)|].
  split; [by eapply clean_set|]. intros a j Ha. rewrite get_splice by (lia || (change (len [Some h]) with 1; lia)).
  change (len [Some h]) with 1. destruct (decide (a = name)) as [->|Hne].
  - assert (j = idx) as -> by congruence. rewrite (proj2 (Z.leb_le _ _)), (proj2 (Z.ltb_lt _ _)) by lia. cbn [andb]. rewrite Z.sub_diag.
    exists (Some h). split; [done|]. by rewrite lookup_insert_eq.
  - assert (j <> idx) by (intros ->; apply Hne; by eapply Hinj).
    assert ((idx <=? j) && (j <? idx + 1) = false) as -> by (destruct (Z.leb_spec idx j), (Z.ltb_spec j (idx + 1)); cbn; lia).
    rewrite lookup_insert_ne by done. by apply Hv.
Qed.

(** *** The start *)

(** The inputs over the initializers, in the order of the names. *)
Definition bind_inputs (inputs : gmap string Tensor) (names : list string) (E : Env) : Env :=
  foldl (fun E name => match inputs !! name with Some t => <[name := t]> E | None => E end) E names.

Definition first_missing (E : gmap string Tensor) (names : list string) : option string :=
  List.find (fun name => bool_decide (E !! name = None)) names.

Lemma blank_valued : valued (replicate (Z.to_nat (numTensors s)) None) ∅.
Proof using Hs.
  pose proof (ix_ids _ _ _ Hs) as [Hn Hbound _]. cbn [fst snd] in *. split; [rewrite len_replicate; lia|]. split.
  - apply Forall_replicate. done.
  - intros name idx Hid. exists None. pose proof (Hbound _ _ Hid). split; [|by rewrite lookup_empty].
    unfold get. rewrite (proj2 (Z.leb_le _ _)) by lia. apply lookup_replicate_2. lia.
Qed.

Lemma set_initializers_valued : exists values, set_initializers s (replicate (Z.to_nat (numTensors s)) None) = Some values /\ valued values inits.
Proof using Hs.
  destruct (ix_inits _ _ _ Hs) as (names & Hnum & Hlen & Hperm).
  assert (forall names ids ts, numbers (tensorIDs s) names ids -> length names = length ts -> forall values E, valued values E ->
    exists values', for_each (zip ids ts) (fun '(idx, t) values => set values idx (Some (unowned t))) values = Some values' /\
      valued values' (foldl (fun E '(name, t) => <[name := t]> E) E (zip names ts))) as H.
  { clear -Hs. intros names ids ts Hnum. revert ts. induction Hnum as [|name idx names ids Hid _ IH]; intros [|t ts] Hl values E Hv; try done; [by exists values|].
    cbn [zip zip_with]. rewrite for_each_cons. destruct (valued_set values E name idx (unowned t) Hv Hid) as (values1 & -> & H1); [done|].
    cbn [mbind option_bind foldl]. apply (IH ts); [by injection Hl|done]. }
  destruct (H _ _ _ Hnum Hlen _ _ blank_valued) as (values & Hrun & Hv). exists values. split; [exact Hrun|].
  assert (foldl (fun E '(name, t) => <[name := t]> E) ∅ (zip names (initTensors s)) = inits) as <-; [|done].
  assert (NoDup (zip names (initTensors s)).*1) as Hnd by (rewrite Hperm; apply NoDup_fst_map_to_list).
  rewrite foldl_insert, map_union_empty by done. rewrite <- (list_to_map_to_list inits). by apply list_to_map_proper.
Qed.
Lemma set_inputs_valued inputs names ids values E :
  numbers (tensorIDs s) names ids -> valued values E ->
  exists r, for_each (zip names ids) (fun '(name, idx) acc =>
      match acc with
      | Err e => Some (Err e)
      | Ok values =>
          match inputs !! name with
          | None => Some (Err (InputNotProvided name))
          | Some t => values ← set values idx (Some (unowned t)); Some (Ok values)
          end
      end) (Ok values) = Some r /\
    match first_missing inputs names with
    | Some name => r = Err (InputNotProvided name)
    | None => exists values', r = Ok values' /\ valued values' (bind_inputs inputs names E)
    end.
Proof using Hs.
  intros Hnum. revert values E. induction Hnum as [|name idx names ids Hid _ IH]; intros values E Hv; [exists (Ok values); split; [done|]; by exists values|].
  cbn [zip zip_with]. rewrite for_each_cons. unfold first_missing. cbn [List.find bind_inputs foldl].
  destruct (inputs !! name) as [t|] eqn:Et.
  - rewrite bool_decide_eq_false_2 by done.
    destruct (valued_set values E name idx (unowned t) Hv Hid) as (values1 & -> & H1); [done|]. cbn [mbind option_bind].
    exact (IH _ _ H1).
  - rewrite bool_decide_eq_true_2 by done. cbn [mbind option_bind]. exists (Err (InputNotProvided name)). split; [|done].
    clear. induction (zip names ids) as [|[a b] l IH]; [done|]. rewrite for_each_cons. exact IH.
Qed.

(** *** A step *)

Lemma gather_operands values E names tids :
  valued values E -> node_numbers (tensorIDs s) names tids ->
  exists ins : Values, gather values tids = Some ins /\ (fmap (M:=option) h_tensor <$> ins) = operands E names /\ clean ins.
Proof using Hs.
  intros (Hl & Hc & Hv) Hnum. induction Hnum as [|name tid names tids Hid _ IH]; [exists []; split_and!; [done|done|by constructor]|].
  destruct IH as (ins & Hg & Ho & Hci). unfold gather in *. cbn [mapM]. cbn [operands fmap list_fmap]. unfold operand at 1.
  destruct (String.eqb_spec name "") as [->|Hne].
  - subst tid. cbn [Z.ltb Z.compare]. cbn [mbind option_bind]. rewrite Hg. cbn [mbind option_bind]. eexists. split; [done|]. split.
    + cbn. f_equal. exact Ho.
    + constructor; [done|done].
  - pose proof (ids_bound _ (ix_ids _ _ _ Hs) _ _ Hid). cbn [snd] in *. rewrite (proj2 (Z.ltb_ge _ _)) by lia.
    destruct (Hv _ _ Hid) as (oh & Eoh & Eh). rewrite Eoh. cbn [mbind option_bind]. rewrite Hg. cbn [mbind option_bind].
    eexists. split; [done|]. split; [cbn; f_equal; [exact Eh|exact Ho]|]. constructor; [|done].
    intros h -> b Hb. by apply (clean_get values tid h Hc Eoh).
Qed.

Definition small (outs : list (Tensor * Origin)) : bool := forallb (fun o => len (Data o.1) <=? max_elements) outs.

Lemma place_all_ok first outs : forall fl,
  (forall h, first = Some h -> forall b, h_buffer h = Some b -> buffer_ok b) -> small outs = true -> free_ok fl ->
  exists held fl', place_all first outs fl = Some (held, fl') /\ free_ok fl' /\ h_tensor <$> held = fst <$> outs /\
    Forall (fun h => forall b, h_buffer h = Some b -> buffer_ok b) held.
Proof using.
  induction outs as [|[t o] outs IH]; intros fl Hf Hsm Hfl; [exists [], fl; split_and!; [done..|constructor]|].
  cbn [small forallb fst] in Hsm. apply andb_true_iff in Hsm as [Ht%Z.leb_le Hsm]. cbn [place_all].
  assert (exists h fl1, place first (t, o) fl = Some (h, fl1) /\ free_ok fl1 /\ h_tensor h = t /\ forall b, h_buffer h = Some b -> buffer_ok b)
    as (h & fl1 & -> & H1 & Et & Hb).
  { destruct o; cbn [place].
    - destruct (Z.eqb_spec (len (Data t)) 0) as [|Hne]; [do 2 eexists; by split_and!|]. pose proof (len_nonneg (Data t)).
      destruct (take_buffer_ok (len (Data t)) fl Hfl ltac:(lia)) as (b & fl1 & -> & Hb & H1). cbn [mbind option_bind].
      do 2 eexists. split; [done|]. split; [done|]. split; [done|]. by intros ? [= <-].
    - do 2 eexists. by split_and!.
    - do 2 eexists. split; [done|]. split; [done|]. split; [done|]. cbn [h_buffer]. intros b Hb. destruct first as [h|]; [|done]. by eapply Hf. }
  cbn [mbind option_bind]. destruct (IH fl1 Hf Hsm H1) as (held & fl2 & -> & H2 & Eh & Hbs). cbn [mbind option_bind].
  do 2 eexists. split; [done|]. split; [done|]. split; [cbn; by rewrite Et, Eh|by constructor].
Qed.

Lemma store_valued names tids held values E :
  node_numbers (tensorIDs s) names tids -> Forall (fun h => forall b, h_buffer h = Some b -> buffer_ok b) held -> valued values E ->
  exists values', store tids held values = Some values' /\ valued values' (bind_outputs names (h_tensor <$> held) E).
Proof using Hs.
  intros Hnum. revert held values E. unfold store. induction Hnum as [|name tid names tids Hid _ IH]; intros held values E Hh Hv.
  { cbn [zip zip_with bind_outputs]. by exists values. }
  destruct held as [|h held]; [by exists values|]. apply Forall_cons in Hh as [Hb Hh].
  cbn [zip zip_with fmap list_fmap bind_outputs]. rewrite for_each_cons. destruct (String.eqb_spec name "") as [->|Hne].
  - subst tid. cbn [Z.leb Z.compare mbind option_bind]. by apply IH.
  - pose proof (ids_bound _ (ix_ids _ _ _ Hs) _ _ Hid). cbn [snd] in *. rewrite (proj2 (Z.leb_le _ _)) by lia.
    destruct (valued_set values E name tid h Hv Hid Hb) as (values1 & -> & H1). cbn [mbind option_bind]. by apply IH.
Qed.

(** The results of the evaluation are small enough for the free lists. *)
Fixpoint small_results (ns : list NodeProto) (E : Env) : bool :=
  match ns with
  | [] => true
  | n :: ns =>
      match node_op n with
      | Some (f, attrs) =>
          match f (operands E (nd_Inputs n)) attrs with
          | Some (Ok outs) => small outs && small_results ns (bind_outputs (nd_Outputs n) (fst <$> outs) E)
          | _ => true
          end
      | None => true
      end
  end.

Lemma run_steps_valued ns ss : forall k values E fl r,
  Forall2 (fun n st => node_op n = Some (st_func st, st_attrs st) /\
    node_numbers (tensorIDs s) (nd_Inputs n) (st_in st) /\ node_numbers (tensorIDs s) (nd_Outputs n) (st_out st)) ns ss ->
  valued values E -> free_ok fl -> small_results ns E = true -> eval_nodes (Z.of_nat k) ns E = Some r ->
  exists res, for_each (imap (fun i st => ((k + i)%nat, st)) ss) (fun '(i, st) acc =>
      match acc with
      | Err e => Some (Err e)
      | Ok (values, fl) => run_step (Z.of_nat i) st values fl
      end) (Ok (values, fl)) = Some res /\
    match r with
    | Err (i, e) => exists fl', res = Err (NodeFailed i e, fl') /\ free_ok fl'
    | Ok E' => exists values' fl', res = Ok (values', fl') /\ valued values' E' /\ free_ok fl'
    end.
Proof using Hs.
  intros k values E fl r Hall. revert k values E fl r. induction Hall as [|n st ns ss (Hop & Hin & Hout) _ IH]; intros k values E fl r Hv Hfl Hsm He.
  { cbn in He. simplify_eq. eexists. split; [done|]. by exists values, fl. }
  rewrite imap_cons, for_each_cons, Nat.add_0_r. cbn [eval_nodes] in He. unfold eval_node in He. rewrite Hop in He. cbn [mbind option_bind] in He.
  cbn [small_results] in Hsm. rewrite Hop in Hsm. unfold run_step.
  destruct (gather_operands values E _ _ Hv Hin) as (ins & -> & Hins & Hci). cbn [mbind option_bind]. rewrite Hins.
  destruct (st_func st (operands E (nd_Inputs n)) (st_attrs st)) as [[outs|e]|]; [|cbn in *; simplify_eq|done]; cbn [mbind option_bind] in *.
  - apply andb_true_iff in Hsm as [Hso Hsm].
    destruct (place_all_ok (mjoin (head ins)) outs fl) as (held & fl1 & -> & H1 & Eh & Hb); [|done|done|].
    { intros h Hh. destruct ins as [|[h0|] ins]; [done| |done]. cbn in Hh. injection Hh as <-. apply Forall_cons in Hci as [Hc _]. by apply Hc. }
    cbn [mbind option_bind]. destruct (store_valued _ _ held values E Hout Hb Hv) as (values1 & -> & Hv1). cbn [mbind option_bind].
    rewrite Eh in Hv1. replace (Z.of_nat k + 1) with (Z.of_nat (S k)) in He by lia.
    destruct (IH (S k) values1 _ fl1 r Hv1 H1 Hsm He) as (res & Hrun & Hres). exists res. split; [|done]. rewrite <- Hrun. f_equal.
    apply imap_ext. intros i x _. cbn. f_equal. lia.
  - eexists. split; [|by exists fl]. generalize (imap ((fun i st0 => ((k + i)%nat, st0)) ∘ S) ss) as l. clear.
    induction l as [|[a b] l IH]; [done|]. rewrite for_each_cons. exact IH.
Qed.

(** *** The end *)

(** The requested values. *)
Definition select (E : Env) (names : list string) (R : Env) : Env :=
  foldl (fun R name => match E !! name with Some t => <[name := t]> R | None => R end) R names.

Lemma collect_valued names ids : forall values E res prev,
  numbers (tensorIDs s) names ids -> valued values E -> Forall buffer_ok prev ->
  exists r, for_each (zip names ids) (fun '(name, idx) acc =>
      match acc with
      | Err e => Some (Err e)
      | Ok (res, values, prev) =>
          h ← get values idx;
          match h with
          | None => Some (Err (OutputNotProduced name, prev))
          | Some h =>
              values ← set values idx (Some (unpooled h));
              Some (Ok (<[name := unpooled h]> res, values, prev ++ owned h))
          end
      end) (Ok (res, values, prev)) = Some r /\
    match first_missing E names with
    | Some name => exists prev', r = Err (OutputNotProduced name, prev') /\ Forall buffer_ok prev'
    | None => exists (res' : gmap string Held) values' prev', r = Ok (res', values', prev') /\ h_tensor <$> res' = select E names (h_tensor <$> res) /\
        valued values' E /\ Forall buffer_ok prev'
    end.
Proof using Hs.
  intros values E res prev Hnum. revert values res prev. induction Hnum as [|name idx names ids Hid _ IH]; intros values res prev Hv Hp.
  { eexists. split; [done|]. by exists res, values, prev. }
  cbn [zip zip_with]. rewrite for_each_cons. pose proof Hv as (Hl & Hc & Hval). destruct (Hval _ _ Hid) as (oh & Eoh & Eh). rewrite Eoh.
  cbn [mbind option_bind]. unfold first_missing. cbn [List.find select foldl]. destruct oh as [h|]; cbn in Eh; rewrite <- Eh.
  - rewrite bool_decide_eq_false_2 by done. pose proof (clean_get _ _ _ Hc Eoh) as Hb.
    destruct (valued_set values E name idx (unpooled h) Hv Hid) as (values1 & -> & H1); [done|]. cbn [mbind option_bind].
    cbn [h_tensor unpooled] in H1. rewrite (insert_id E) in H1 by done.
    destruct (IH values1 (<[name := unpooled h]> res) (prev ++ owned h) H1) as (r & Hrun & Hr).
    { apply Forall_app. split; [done|]. unfold owned. destruct (h_pooled h); [|constructor].
      destruct (h_buffer h) as [b|]; cbn; [constructor; [by apply Hb|constructor]|constructor]. }
    exists r. split; [exact Hrun|]. unfold first_missing in Hr. destruct (List.find _ names); [done|].
    destruct Hr as (res' & values' & prev' & -> & Er & Hrest). exists res', values', prev'. split; [done|]. split; [|done].
    rewrite Er, fmap_insert. done.
  - rewrite bool_decide_eq_true_2 by done. eexists. split; [|by exists prev]. clear. cbn [mbind option_bind]. induction (zip names ids) as [|[a b] l IH]; [done|].
    rewrite for_each_cons. exact IH.
Qed.

Lemma recycle_ok values fl : clean values -> free_ok fl -> exists fl', recycle s values fl = Some fl' /\ free_ok fl'.
Proof using.
  intros Hc. unfold recycle. generalize (recyclable s) as flags. revert fl. induction values as [|oh values IH]; intros fl flags Hfl; [by exists fl|].
  apply Forall_cons in Hc as [Hh Hc]. destruct flags as [|ok flags]; [by exists fl|]. cbn [zip zip_with]. rewrite for_each_cons.
  assert (exists fl1, match oh with Some h => if ok then put_all (owned h) fl else Some fl | None => Some fl end = Some fl1 /\ free_ok fl1) as (fl1 & -> & H1).
  { destruct oh as [h|]; [|by exists fl]. destruct ok; [|by exists fl]. apply put_all_ok; [|done]. unfold owned.
    destruct (h_pooled h); [|constructor]. destruct (h_buffer h) as [b|] eqn:Eb; cbn; [constructor; [by apply (Hh h)|constructor]|constructor]. }
  cbn [mbind option_bind]. by apply IH.
Qed.
End Of.

(** ** What a session promises *)

(** The answer of a graph: its initializers and the inputs bound to their names, its nodes
    in order, and the requested outputs; or the first thing that is missing or fails. *)
Definition graph_answer (nodes : list NodeProto) (inits : gmap string Tensor) (ins outs : list string) (inputs : gmap string Tensor) :
    option (result run_error (gmap string Tensor)) :=
  match first_missing inputs ins with
  | Some name => Some (Err (InputNotProvided name))
  | None =>
      r ← eval_nodes 0 nodes (bind_inputs inputs ins inits);
      match r with
      | Err (i, e) => Some (Err (NodeFailed i e))
      | Ok E => match first_missing E outs with
                | Some name => Some (Err (OutputNotProduced name))
                | None => Some (Ok (select E outs ∅))
                end
      end
  end.

(** The tensors of an answer, without the buffers they stand in. *)
Definition answered (r : result run_error (gmap string Held)) : result run_error (gmap string Tensor) :=
  match r with Err e => Err e | Ok res => Ok (h_tensor <$> res) end.

(** The inputs a caller provides: those that are no initializers. *)
Definition asked (inits : gmap string Tensor) (graph : GraphProto) : list string :=
  filter (fun name => inits !! name = None) (vi_Name <$> gr_Inputs graph).

Lemma session_indexed graph s nodes inits :
  session_of_graph graph = Val s -> fuseGraph (gr_Nodes graph) = Some nodes -> load_initializers (gr_Initializers graph) = Val inits ->
  Indexed s inits nodes /\ inputNames s = asked inits graph /\ outputNames s = vi_Name <$> gr_Outputs graph.
Proof.
  intros Hload Hfuse Hinits. unfold session_of_graph in Hload. rewrite Hinits, Hfuse in Hload. cbn [obind] in Hload.
  destruct (load_nodes nodes) as [funcs| | |] eqn:Ef; [|done..]. cbn [obind] in Hload. injection Hload as <-.
  by apply buildTensorIndex_indexed, load_nodes_ops.
Qed.

(** The fusion was meant for this graph, started from these tensors: it is valid and
    evaluates, its convolutions are well grouped, each fused Sigmoid is read by its [Mul]
    only, and nobody asks for a tensor inside a fusion. *)
Definition fusible (graph : GraphProto) (start : Env) : Prop :=
  exists f E1, valid_graph (gr_Nodes graph) start /\ eval_nodes 0 (gr_Nodes graph) start = Some (Ok E1) /\
    Forall (grouped E1) (gr_Nodes graph) /\ fuse_find (gr_Nodes graph) = Some f /\ private (gr_Nodes graph) f /\
    Forall (fun name => name <> ""%string /\ ~ dropped (gr_Nodes graph) f name) (vi_Name <$> gr_Outputs graph).

Lemma first_missing_agree (E E' : Env) names :
  Forall (fun name => E !! name = E' !! name) names -> first_missing E names = first_missing E' names.
Proof using.
  unfold first_missing. induction 1 as [|name names Hn _ IH]; [done|]. cbn. rewrite Hn. by destruct (bool_decide _).
Qed.

Lemma select_agree (E E' : Env) names : forall R,
  Forall (fun name => E !! name = E' !! name) names -> select E names R = select E' names R.
Proof using.
  unfold select. induction names as [|name names IH]; intros R Hall; [done|]. apply Forall_cons in Hall as [Hn Hall]. cbn. rewrite Hn. by apply IH.
Qed.

(** Then the fused graph has the same answer as the graph itself. *)
Lemma fused_answer graph nodes inits ins inputs :
  fuseGraph (gr_Nodes graph) = Some nodes -> fusible graph (bind_inputs inputs ins inits) ->
  graph_answer nodes inits ins (vi_Name <$> gr_Outputs graph) inputs = graph_answer (gr_Nodes graph) inits ins (vi_Name <$> gr_Outputs graph) inputs.
Proof using.
  intros Hfuse (f & E1 & Hvalid & Heval & Hgrouped & Hfind & Hprivate & Houts). unfold graph_answer.
  destruct (first_missing inputs ins); [done|]. destruct (fused_values _ f _ E1 Hvalid Hgrouped Hfind Hprivate Heval) as (nodes' & E2 & Hf & He & _ & Hkeep).
  assert (nodes' = nodes) as -> by congruence. rewrite He, Heval. cbn [mbind option_bind].
  assert (Forall (fun name => E2 !! name = E1 !! name) (vi_Name <$> gr_Outputs graph)) as Hagree
    by (eapply Forall_impl; [exact Houts|]; intros name [Hne Hd]; by apply Hkeep).
  by rewrite (first_missing_agree _ _ _ Hagree), (select_agree _ _ _ _ Hagree).
Qed.

(** C37: every run of a session answers as the graph it runs: with the requested outputs of
    the evaluation by name, or the first input, node or output that fails it.  That graph is
    the loaded one after its fusions; when the loaded graph is valid and evaluates from these
    inputs, its convolutions are well grouped, each fused Sigmoid is read by its product
    only, and no tensor inside a fusion is asked for, the answer is that of the graph as it
    was loaded.  A run does not panic where the evaluation does not, as long as no tensor is
    larger than the free lists serve; and it leaves free lists and outputs from which the
    next run can start. *)
Theorem Run_answers_as_the_graph graph s nodes inits inputs prev fl ans :
  session_of_graph graph = Val s -> fuseGraph (gr_Nodes graph) = Some nodes -> load_initializers (gr_Initializers graph) = Val inits ->
  free_ok fl -> Forall buffer_ok prev ->
  small_results nodes (bind_inputs inputs (asked inits graph) inits) = true ->
  graph_answer nodes inits (asked inits graph) (vi_Name <$> gr_Outputs graph) inputs = Some ans ->
  (exists r prev' fl', Run (with_prev s prev) inputs fl = Some (r, with_prev s prev', fl') /\ answered r = ans /\
    free_ok fl' /\ Forall buffer_ok prev') /\
  (fusible graph (bind_inputs inputs (asked inits graph) inits) ->
   graph_answer (gr_Nodes graph) inits (asked inits graph) (vi_Name <$> gr_Outputs graph) inputs = Some ans).
Proof.
  intros Hload Hfuse Hinits Hfl Hprev Hsmall Hans. split; [|intros Hf; by rewrite <- (fused_answer _ _ _ _ _ Hfuse Hf)]. destruct (session_indexed _ _ _ _ Hload Hfuse Hinits) as (Hs & Ein & Eout).
  rewrite <- Ein in *. rewrite <- Eout in *. clear Hload Hfuse Hinits Ein Eout.
  unfold Run. cbn [prevOutputs with_prev]. destruct (put_all_ok prev fl Hprev Hfl) as (fl1 & -> & H1). cbn [mbind option_bind].
  destruct (set_initializers_valued s inits nodes Hs) as (values0 & E0 & Hv0). unfold set_initializers in *. cbn [initIDs initTensors numTensors with_prev].
  rewrite E0. cbn [mbind option_bind]. unfold set_inputs. cbn [inputNames inputIDs with_prev].
  destruct (set_inputs_valued s inits nodes Hs inputs (inputNames s) (inputIDs s) values0 inits (ix_inputs _ _ _ Hs) Hv0) as (started & -> & Hst).
  cbn [mbind option_bind]. unfold graph_answer in Hans. destruct (first_missing inputs (inputNames s)) as [name|].
  { subst started. injection Hans as <-. do 3 eexists. split; [done|]. split; [done|]. split; [done|constructor]. }
  destruct Hst as (values1 & -> & Hv1).
  destruct (eval_nodes 0 nodes (bind_inputs inputs (inputNames s) inits)) as [r|] eqn:Ee; [|done]. cbn [mbind option_bind] in Hans.
  destruct (run_steps_valued s inits nodes Hs nodes (steps s) 0 values1 _ fl1 r (ix_steps _ _ _ Hs) Hv1 H1 Hsmall Ee) as (ran & Hrun & Hr).
  unfold run_steps. cbn [steps with_prev]. change (imap pair (steps s)) with (imap (fun i st => ((0 + i)%nat, st)) (steps s)).
  rewrite Hrun. cbn [mbind option_bind]. destruct r as [E|[i e]].
  - destruct Hr as (values2 & fl2 & -> & Hv2 & H2). unfold collect. cbn [outputNames outputIDs with_prev].
    destruct (collect_valued s inits nodes Hs (outputNames s) (outputIDs s) values2 E ∅ [] (ix_outputs _ _ _ Hs) Hv2 ltac:(constructor)) as (col & -> & Hcol).
    cbn [mbind option_bind]. destruct (first_missing E (outputNames s)) as [name|].
    + destruct Hcol as (prev' & -> & Hp). injection Hans as <-. do 3 eexists. split; [done|]. by split.
    + destruct Hcol as (res & values3 & prev' & -> & Er & (Hl3 & Hc3 & _) & Hp).
      destruct (recycle_ok s values3 fl2 Hc3 H2) as (fl3 & E3 & H3). unfold recycle in *. cbn [recyclable with_prev]. rewrite E3.
      cbn [mbind option_bind]. injection Hans as <-. do 3 eexists. split; [done|]. split; [|done]. cbn [answered]. by rewrite Er, fmap_empty.
  - destruct Hr as (fl2 & -> & H2). injection Hans as <-. do 3 eexists. split; [done|]. split; [done|]. split; [done|constructor].
Qed.
End Run.

(** ** On small graphs *)

(** A range over the initializers in the order of their keys. *)
Definition keyed : InitOrder := {| init_order := map_to_list; init_order_perm := fun m => reflexivity _ |}.

Definition no_buffers : FreeLists := {| bufs := ∅; next_id := 0 |}.

(** The answer of the first run of a graph, and the free lists after it. *)
Definition first_run (graph : GraphProto) (inputs : gmap string Tensor) : option (result run_error (gmap string Held) * FreeLists) :=
  match @session_of_graph zero_recycled rounding_machine keyed graph with
  | Val s => '(r, _, fl) ← Run s inputs no_buffers; Some (r, fl)
  | _ => None
  end.

Definition silu_graph (outputs : list string) : GraphProto := {|
  gr_Nodes := silu_nodes;
  gr_Initializers := [Build_TensorProto "w" [1; 1; 1; 1] onnxFloat [] [f32_of_Z 1] [] [] [] []];
  gr_Inputs := [Build_ValueInfoProto "x" []];
  gr_Outputs := (fun name => Build_ValueInfoProto name []) <$> outputs |}%string.

Definition pixel : gmap string Tensor := {[ "x"%string := counting [1; 1; 1; 1] ]}.

Definition fused_silu : list NodeProto := [silu_node (Build_NodeProto ["x"; "w"] ["c"] "n0" "Conv" []) "y"]%string.
Definition unit_weight : gmap string Tensor := {[ "w"%string := TensorOf [1; 1; 1; 1] [f32_of_Z 1] ]}.

(** The pixel and the weight, and what the graph makes of them. *)
Definition pixel_start : Env := <["x"%string := counting [1; 1; 1; 1]]> unit_weight.
Definition pixel_end : Env :=
  match @eval_nodes zero_recycled rounding_machine 0 silu_nodes pixel_start with Some (Ok E) => E | _ => ∅ end.

Lemma silu_fusible : @fusible zero_recycled rounding_machine (silu_graph ["y"%string]) pixel_start.
Proof.
  exists {| fusedNodes := {[ 1%nat; 2%nat ]} ∪ ∅; siluConvs := <[0%nat := "y"%string]> ∅ |}, pixel_end. split_and!.
  - destruct silu_valid as [H1 _ H3]. constructor; [exact H1| |exact H3]. intros name Hin. change (produced _) with ["c"; "s"; "y"]%string in Hin.
    repeat (apply elem_of_cons in Hin as [->|Hin]; [by vm_compute|]). by apply elem_of_nil in Hin.
  - vm_compute. reflexivity.
  - apply Forall_cons. split; [|apply Forall_cons; split; [intros [=]|apply Forall_cons; split; [intros [=]|apply Forall_nil_2]]].
    intros _ x w attrs Ha Hx Hw. vm_compute in Ha. injection Ha as <-. vm_compute in Hx. vm_compute in Hw. simplify_eq.
    split_and!; [repeat constructor|repeat constructor; unfold max_int64; cbn; lia|done|]. apply Z.divide_1_l.
  - reflexivity.
  - intros k n name Hk Hn Ht Hout Hne. assert (k = 1%nat \/ k = 2%nat) as [->| ->] by (cbn [fusedNodes] in Hk; set_solver);
      cbn in Hn; injection Hn as <-; cbn in Ht, Hout; [|done].
    apply elem_of_cons in Hout as [->|Hout]; [by vm_compute; lia|by apply elem_of_nil in Hout].
  - repeat constructor; [done|]. intros (k & n & Hk & Hout & Hcase). cbn [gr_Nodes silu_graph] in Hk.
    destruct k as [|[|[|k]]]; cbn in Hk; simplify_eq; cbn in Hout; apply list_elem_of_singleton in Hout; try done.
    destruct Hcase as [[_ ?]|[o Ho]]; [done|]. cbn [siluConvs] in Ho. rewrite lookup_insert_ne, lookup_empty in Ho by done. done.
Qed.

Lemma Run_answers_as_the_graph_witness : exists s ans r prev' fl',
  @session_of_graph zero_recycled rounding_machine keyed (silu_graph ["y"%string]) = Val s /\
  @graph_answer zero_recycled rounding_machine silu_nodes unit_weight ["x"%string] ["y"%string] pixel = Some ans /\
  Run (with_prev s []) pixel no_buffers = Some (r, with_prev s prev', fl') /\ answered r = ans.
Proof.
  destruct (@session_of_graph zero_recycled rounding_machine keyed (silu_graph ["y"%string])) as [s| | |] eqn:Es.
  2-4: exfalso; assert (match @session_of_graph zero_recycled rounding_machine keyed (silu_graph ["y"%string]) with Val _ => true | _ => false end = true) as H
    by (vm_compute; reflexivity); rewrite Es in H; discriminate H.
  destruct (@graph_answer zero_recycled rounding_machine fused_silu unit_weight ["x"%string] ["y"%string] pixel) as [ans|] eqn:Ea.
  2: exfalso; vm_compute in Ea; discriminate Ea.
  assert (asked unit_weight (silu_graph ["y"%string]) = ["x"%string]) as Easked by (vm_compute; reflexivity).
  destruct (@Run_answers_as_the_graph zero_recycled rounding_machine keyed (silu_graph ["y"%string]) s fused_silu unit_weight pixel [] no_buffers ans Es)
    as [(r & prev' & fl' & Hrun & Hr & _) Hloaded].
  - reflexivity.
  - vm_compute. reflexivity.
  - intros k b Hb. unfold bucket in Hb. cbn [bufs no_buffers] in Hb. rewrite lookup_empty in Hb. apply elem_of_nil in Hb as [].
  - constructor.
  - vm_compute. reflexivity.
  - rewrite Easked. exact Ea.
  - exists s, ans, r, prev', fl'. split; [reflexivity|]. split; [|by split]. rewrite Easked in Hloaded. apply Hloaded.
    assert (bind_inputs pixel ["x"%string] unit_weight = pixel_start) as -> by reflexivity. exact silu_fusible.
Defined.

(** Fusing a graph whose Sigmoid is an output too loses that output: the graph has a
    value for it, and every run of the session fails. *)
Theorem fused_Sigmoid_is_lost :
  (exists E, @eval_nodes zero_recycled rounding_machine 0 silu_nodes silu_start = Some (Ok E) /\ is_Some (E !! "s"%string)) /\
  exists fl, first_run (silu_graph ["y"; "s"]%string) pixel = Some (Err (OutputNotProduced "s"), fl).
Proof. split; [exists silu_end; split; vm_compute; [reflexivity|by eexists]|]. eexists. vm_compute. reflexivity. Qed.

(** A [Relu] whose result is only reshaped. *)
Definition reshaped_graph : GraphProto := {|
  gr_Nodes := [Build_NodeProto ["x"] ["r"] "n0" "Relu" []; Build_NodeProto ["r"; "shape"] ["y"] "n1" "Reshape" []];
  gr_Initializers := [Build_TensorProto "shape" [1] onnxInt64 [] [] [] [1] [] []];
  gr_Inputs := [Build_ValueInfoProto "x" []];
  gr_Outputs := [Build_ValueInfoProto "y" []] |}%string.

(** An output that is a view of an intermediate tensor is returned to the caller with
    its buffer already on the free lists: the next tensor of that size, of any session,
    takes it and is written over the answer. *)
Theorem view_output_is_recycled : exists res fl h b fl',
  first_run reshaped_graph pixel = Some (Ok res, fl) /\ res !! "y"%string = Some h /\ h_buffer h = Some b /\
  take_buffer (len (Data (h_tensor h))) fl = Some (b, fl').
Proof. do 5 eexists. split; [vm_compute; reflexivity|]. split; [vm_compute; reflexivity|]. split; vm_compute; reflexivity. Qed.
