(* ===== verification/OnnxConvTheorems.v ===== *)
(** Convolutions: [opConv] computes the convolution, element by element and bit for bit.

    The reference is the sum one reads in a textbook: over the channels of the group, the
    rows and the columns of the kernel, in this order, the weight by the element of the
    padded input under it.  The operator gets there by slicing the weights, laying the
    patches out as columns (or taking the input itself) and multiplying matrices in tiles.
    What the numbers must satisfy for that is [geometry_ok]; the last theorem shows that
    the code relies on it. *)

From Stdlib Require Import SpecFloat.
From S2P Require Import Prelude Float64 GoSlices OnnxModel OnnxTensor OnnxShapeOps OnnxMathOps OnnxConv OnnxTensorTheorems OnnxColumns OnnxFusedConv.

#[local] Open Scope list_scope.

(** ** Sums over flat indices *)

Lemma foldl_elem {A S} (f h : S -> A -> S) s l : (forall s a, a ∈ l -> f s a = h s a) -> foldl f s l = foldl h s l.
Proof.
  revert s. induction l as [|a l IH]; intros s Hf; [done|]. cbn. rewrite Hf by set_solver. apply IH. set_solver.
Qed.

Lemma foldl_shift {S} (f : S -> Z -> S) s lo n : foldl f s (range lo (lo + n)) = foldl (fun s j => f s (lo + j)) s (range 0 n).
Proof.
  replace lo with (0 + lo) at 1 by lia. replace (lo + n) with (n + lo) by lia. rewrite range_shift.
  generalize (range 0 n). intros l. revert s. induction l as [|a l IH]; intros s; [done|]. cbn. rewrite IH. by rewrite (Z.add_comm a).
Qed.

(** A sum over [c * k] terms is a sum of [c] sums of [k]. *)
Lemma foldl_flat {S} (f : S -> Z -> S) s c k :
  0 <= c -> 0 <= k ->
  foldl f s (range 0 (c * k)) = foldl (fun s i => foldl (fun s j => f s (i * k + j)) s (range 0 k)) s (range 0 c).
Proof.
  intros Hc Hk. revert s. pattern c. revert c Hc. apply natlike_ind; [intros s; by rewrite Z.mul_0_l, !range_nil by lia|].
  intros c Hc IH s. rewrite (range_app 0 (c * k) (Z.succ c * k)), foldl_app, IH by lia.
  rewrite (range_app 0 c (Z.succ c)), foldl_app by lia. rewrite (range_cons c), (range_nil (c + 1)) by lia. cbn [foldl].
  replace (Z.succ c * k) with (c * k + k) by lia. apply foldl_shift.
Qed.

Lemma at_index_subslice l lo hi vs i : subslice l lo hi = Some vs -> 0 <= i < hi - lo -> at_index vs i = at_index l (lo + i).
Proof. intros E Hi. unfold at_index. by rewrite (get_subslice _ _ _ _ _ E). Qed.

Lemma at_index_is l i v : get l i = Some v -> at_index l i = v.
Proof. unfold at_index. by intros ->. Qed.

Lemma mod_mul_add a b c : b <> 0 -> (a * b + c) mod b = c mod b.
Proof. intros Hb. by rewrite Z.add_comm, Z.mod_add. Qed.

(** Some rows of a matrix of matrices are inside it. *)
Lemma block_fits n N c p C S :
  0 <= n < N -> 0 <= c -> 0 <= p -> c + p <= C -> 0 <= S -> 0 <= (n * C + c) * S /\ (n * C + c) * S + p * S <= N * C * S.
Proof.
  intros Hn Hc Hp HC HS. assert (0 <= n * C + c /\ n * C + c + p <= N * C) as [H0 H1] by nia.
  rewrite <- Z.mul_add_distr_r. split; [nia|]. by apply Z.mul_le_mono_nonneg_r.
Qed.

(** ** The geometry asked for *)

(** Two numbers an attribute gives, or one for each when it does not give two. *)
Definition pair_attr (attrs : Attributes) (name : string) (a b : Z) : Prop :=
  match GetIntList attrs name with
  | Some l => if 2 <=? len l then get l 0 = Some a /\ get l 1 = Some b else a = 1 /\ b = 1
  | None => a = 1 /\ b = 1
  end.

(** Padding of one axis that lets the kernel take [ceil (size / stride)] steps (the code's
    ceiling of a float64 quotient, in [int] arithmetic), as even as it can be. *)
Definition evenly_padded (upper : bool) (size stride kernel dil before after : Z) : Prop :=
  before + after = Z.max 0 (i64 ((ceil_ratio size stride - 1) * stride + (kernel - 1) * dil + 1 - size)) /\
  (if upper then before <= after <= before + 1 else after <= before <= after + 1).

(** The padding of a geometry: what [auto_pad] asks, or the four numbers of [pads], or none. *)
Definition padding_asked (attrs : Attributes) (g : Geometry) : Prop :=
  let even upper :=
    evenly_padded upper (gH g) (strideH g) (kH g) (dilH g) (padTop g) (padBottom g) /\
    evenly_padded upper (gW g) (strideW g) (kW g) (dilW g) (padLeft g) (padRight g) in
  let none := padTop g = 0 /\ padLeft g = 0 /\ padBottom g = 0 /\ padRight g = 0 in
  if String.eqb (GetString attrs "auto_pad" "NOTSET") "SAME_UPPER" then even true
  else if String.eqb (GetString attrs "auto_pad" "NOTSET") "SAME_LOWER" then even false
  else match GetIntList attrs "pads" with
       | Some l => if 4 <=? len l then get l 0 = Some (padTop g) /\ get l 1 = Some (padLeft g) /\ get l 2 = Some (padBottom g) /\ get l 3 = Some (padRight g)
                   else none
       | None => none
       end.

(** What the shapes and attributes of a convolution ask for. *)
Record asked (x w : Tensor) (attrs : Attributes) (g : Geometry) : Prop := {
  asked_input : Shape x = [gN g; gC g; gH g; gW g];
  asked_weights : exists c kh kw, Shape w = [gM g; c; kh; kw] /\
    match GetIntList attrs "kernel_shape" with
    | None => kH g = kh /\ kW g = kw
    | Some l => get l 0 = Some (kH g) /\ get l 1 = Some (kW g)
    end;
  asked_group : group g = GetInt attrs "group" 1;
  asked_strides : pair_attr attrs "strides" (strideH g) (strideW g);
  asked_dilations : pair_attr attrs "dilations" (dilH g) (dilW g);
  asked_padding : padding_asked attrs g
}.

Lemma two_ints_asked attrs name a b : pair_attr attrs name a b -> two_ints attrs name = (a, b).
Proof.
  unfold pair_attr, two_ints. destruct (GetIntList attrs name) as [[|x [|y l]]|]; try (by intros [-> ->]).
  rewrite (proj2 (Z.leb_le _ _)) by (unfold len; cbn [length]; lia). by intros [[= ->] [= ->]].
Qed.

Lemma same_pads_even upper size stride kernel dil before after :
  evenly_padded upper size stride kernel dil before after -> same_pads upper size stride kernel dil = (before, after).
Proof.
  unfold evenly_padded, same_pads. set (t := i64 _). intros [Et Eh].
  assert ((if t <? 0 then 0 else t) = before + after) as -> by (destruct (Z.ltb_spec t 0); lia).
  assert (0 <= before + after) by lia. rewrite Z.quot_div_nonneg by lia. pose proof (Z.div_mod (before + after) 2 ltac:(lia)).
  pose proof (Z.mod_pos_bound (before + after) 2 ltac:(lia)). destruct upper; f_equal; lia.
Qed.

(** The output length is the number of steps of the kernel. *)
Lemma out_length_counts size before after kernel dil stride out :
  0 < size -> 0 < kernel -> 0 < dil -> 0 < stride -> 0 <= before -> 0 <= after -> size + before + after + kernel * dil + stride <= max_int64 ->
  0 < out -> (out - 1) * stride + (kernel - 1) * dil < size + before + after <= out * stride + (kernel - 1) * dil ->
  out_length size before after kernel dil stride = Some out.
Proof.
  intros H1 H2 H3 H4 H5 H6 Hm Ho Hs. unfold out_length, kernel_room. assert (0 <= (kernel - 1) * dil) by nia.
  assert (kernel - 1 <= kernel * dil) by nia. assert (0 <= (out - 1) * stride) by nia.
  assert (out - 1 <= (out - 1) * stride) by nia. assert (max_int64 = 9223372036854775807 /\ min_int64 = -9223372036854775808) as [Emax Emin] by done.
  rewrite (i64_small (size + before)), (i64_small (size + before + after)), (i64_small (kernel - 1)), (i64_small ((kernel - 1) * dil)), (i64_small ((kernel - 1) * dil + 1)) by lia.
  rewrite i64_small by lia. unfold divmod, div64.
  rewrite (proj2 (Z.eqb_neq _ _)) by lia. cbn [mbind option_bind].
  rewrite Z.quot_div_nonneg by lia. rewrite <- (Z.div_unique_pos _ stride (out - 1) (size + before + after - ((kernel - 1) * dil + 1) - (out - 1) * stride)) by lia.
  rewrite (i64_small (out - 1)), i64_small by lia. f_equal. lia.
Qed.

(** The operator reads the geometry asked for. *)
Lemma conv_geometry_asked x w attrs g : asked x w attrs g -> geometry_ok g -> conv_geometry x w attrs = Some (Ok g).
Proof.
  intros [Ex (c & kh & kw & Ew & Ek) Egr Est%two_ints_asked Edi%two_ints_asked Hp] Hg.
  destruct Hg as [HN HC HH HW HM HkH HkW Hgr HsH HsW HdH HdW (Hp1 & Hp2 & Hp3 & Hp4) [HoH HoH'] [HoW HoW'] HbH HbW HrH HrW].
  unfold conv_geometry. rewrite Ex, Ew.
  assert ((match GetIntList attrs "kernel_shape" with None => Some (kh, kw) | Some (a :: b :: _) => Some (a, b) | Some _ => None end) = Some (kH g, kW g)) as ->.
  { destruct (GetIntList attrs "kernel_shape") as [[|a [|b l]]|]; destruct Ek as [Ek1 Ek2]; try done; [by injection Ek1 as ->; injection Ek2 as ->|by rewrite Ek1, Ek2]. }
  cbn [mbind option_bind]. rewrite Est, Edi. destruct (four_ints attrs "pads") as [[[pt pl] pb] pr] eqn:E4.
  assert ((if String.eqb (GetString attrs "auto_pad" "NOTSET") "SAME_UPPER" || String.eqb (GetString attrs "auto_pad" "NOTSET") "SAME_LOWER" then
      let '(pt, pb) := same_pads (String.eqb (GetString attrs "auto_pad" "NOTSET") "SAME_UPPER") (gH g) (strideH g) (kH g) (dilH g) in
      let '(pl, pr) := same_pads (String.eqb (GetString attrs "auto_pad" "NOTSET") "SAME_UPPER") (gW g) (strideW g) (kW g) (dilW g) in
      (pt, pl, pb, pr) else (pt, pl, pb, pr)) = (padTop g, padLeft g, padBottom g, padRight g)) as ->.
  { unfold padding_asked in Hp. destruct (String.eqb _ "SAME_UPPER"); cbn [orb].
    { destruct Hp as [H1 H2]. by rewrite (same_pads_even _ _ _ _ _ _ _ H1), (same_pads_even _ _ _ _ _ _ _ H2). }
    destruct (String.eqb _ "SAME_LOWER").
    { destruct Hp as [H1 H2]. by rewrite (same_pads_even _ _ _ _ _ _ _ H1), (same_pads_even _ _ _ _ _ _ _ H2). }
    unfold four_ints in E4. destruct (GetIntList attrs "pads") as [[|a [|b [|u [|v l]]]]|]; try (injection E4 as <- <- <- <-; by destruct Hp as (-> & -> & -> & ->)).
    rewrite (proj2 (Z.leb_le _ _)) in Hp by (unfold len; cbn [length]; lia). injection E4 as <- <- <- <-.
    by destruct Hp as ([= ->] & [= ->] & [= ->] & [= ->]). }
  rewrite (out_length_counts (gH g) (padTop g) (padBottom g) (kH g) (dilH g) (strideH g) (outH g)) by (done || lia). rewrite (out_length_counts (gW g) (padLeft g) (padRight g) (kW g) (dilW g) (strideW g) (outW g)) by (done || lia).
  cbn [mbind option_bind]. rewrite !(proj2 (Z.leb_gt _ 0)) by done. cbn [orb]. rewrite <- Egr. by destruct g.
Qed.

(** The flat index of a position is one of the output. *)
Lemma position_in g n m oh ow :
  0 <= n < gN g -> 0 <= m < gM g -> 0 <= oh < outH g -> 0 <= ow < outW g ->
  0 <= ((n * gM g + m) * outH g + oh) * outW g + ow < gN g * gM g * (outH g * outW g).
Proof.
  intros Hn Hm Hoh How. pose proof (flat_bound _ _ _ _ Hn Hm) as H1. pose proof (flat_bound _ _ _ _ H1 Hoh) as H2.
  pose proof (flat_bound _ _ _ _ H2 How). lia.
Qed.

(** ** The convolution *)

Section Convolution.
Context {Mach : Machine}.

(** The output element of image [n], channel [m] and position [oh, ow]: the sum over the
    channels of the group of [m] and the kernel elements. *)
Definition conv_at (g : Geometry) (cP mP : Z) (x w : list float32) (n m oh ow : Z) : float32 :=
  foldl (fun acc c =>
    foldl (fun acc kh =>
      foldl (fun acc kw =>
        mul_add (at_index w (((m * cP + c) * kH g + kh) * kW g + kw)) (patch g x n (m / mP * cP + c) kh kw oh ow) acc)
      acc (range 0 (kW g)))
    acc (range 0 (kH g)))
  fzero (range 0 cP).

(** The element with the bias of its channel. *)
Definition with_bias (bias : option (list float32)) (m : Z) (v : float32) : float32 :=
  match bias with None => v | Some b => add32 v (at_index b m) end.

(** A convolution of tensors as large as its geometry says, on a machine that can hold
    its output; [cP] and [mP] are the input and the output channels of a group. *)
Record conv_fits (g : Geometry) (cP mP : Z) (x w : Tensor) (bias : option (list float32)) : Prop := {
  fits_geometry : geometry_ok g;
  fits_C : gC g = group g * cP;
  fits_M : gM g = group g * mP;
  fits_x : gN g * gC g * gH g * gW g <= len (Data x);
  fits_w : gM g * cP * kH g * kW g <= len (Data w);
  fits_bias : forall b, bias = Some b -> gM g <= len b;
  fits_machine : len (Data x) <= max_int64 /\ len (Data w) <= max_int64 /\ cP * kH g * kW g * (outH g * outW g) <= max_int64;
  fits_channels : gC g <= max_int64;
  fits_out : gN g * gM g * (outH g * outW g) <= max_int64
}.

Context {Rec : Recycled}.

Section Groups.
Variables (g : Geometry) (cP mP : Z) (x w : Tensor) (bias : option (list float32)).
Hypothesis Hfits : conv_fits g cP mP x w bias.

Lemma fits_sizes : 0 < cP /\ 0 < mP /\ 0 < outH g /\ 0 < outW g /\ 0 < outH g * outW g /\ 0 < kH g /\ 0 < kW g /\ 0 < group g /\ 0 < gN g.
Proof using Hfits.
  destruct Hfits as [Hg EC EM _ _ _ _ _ _]. destruct Hg as [HN HC _ _ [HM _] HkH HkW Hgr _ _ _ _ _ [HoH _] [HoW _] _ _ _ _].
  assert (0 < cP) by nia. assert (0 < mP) by nia. assert (0 < outH g * outW g) by nia. done.
Qed.

(** The product of the weights of a group with its columns is the convolution. *)
Lemma dot_is_conv n gi wS i oh ow :
  0 <= n < gN g -> 0 <= gi < group g -> 0 <= i < mP -> 0 <= oh < outH g -> 0 <= ow < outW g ->
  subslice (Data w) (gi * mP * (cP * kH g * kW g)) (gi * mP * (cP * kH g * kW g) + mP * (cP * kH g * kW g)) = Some wS ->
  dot wS (columns g (Data x) n (gi * cP) cP) (outH g * outW g) (cP * kH g * kW g) i (oh * outW g + ow) =
  conv_at g cP mP (Data x) (Data w) n (gi * mP + i) oh ow.
Proof using Hfits.
  intros Hn Hgi Hi Hoh How HwS. destruct fits_sizes as (HcP & HmP & _ & _ & HS & HkH & HkW & _ & _).
  unfold dot, partial_dot, conv_at. rewrite <- (Z.mul_assoc cP), foldl_flat by nia. apply foldl_elem. intros s c Hc%range_elem.
  rewrite foldl_flat by lia. apply foldl_elem. intros s' kh Hkh%range_elem. apply foldl_elem. intros s'' kw Hkw%range_elem.
  pose proof (flat_bound _ _ _ _ Hkh Hkw) as H1. pose proof (flat_bound _ _ _ _ Hc H1) as H2. pose proof (flat_bound _ _ _ _ Hi H2) as H3.
  rewrite (at_index_subslice _ _ _ _ _ HwS) by lia. f_equal; [f_equal; lia|]. apply at_index_is.
  rewrite <- (Z.div_unique_pos (gi * mP + i) mP gi i) by lia.
  destruct Hfits as [Hg EC _ Hx _ _ _ _ _].
  rewrite <- (get_columns g (Data x) n (gi * cP) cP Hg Hn Hx ltac:(nia) ltac:(lia) ltac:(nia) c kh kw oh ow) by done. f_equal. lia.
Qed.

(** The element at a flat index of the output. *)
Definition conv_flat (i : Z) : float32 :=
  let s := i mod (outH g * outW g) in
  conv_at g cP mP (Data x) (Data w) (i / (outH g * outW g) / gM g) (channel_of g i) (s / outW g) (s mod outW g).

(** One group of one image. *)
Lemma conv_group_matmul n gi out col :
  0 <= n < gN g -> 0 <= gi < group g -> len out = gN g * gM g * (outH g * outW g) ->
  (is1x1 g = false -> len col = cP * kH g * kW g * (outH g * outW g)) ->
  exists wS col',
    subslice (Data w) (gi * mP * (cP * kH g * kW g)) (gi * mP * (cP * kH g * kW g) + mP * (cP * kH g * kW g)) = Some wS /\
    conv_group g x w cP mP (fun _ dst => Some dst) n gi (out, col) =
      Some (splice out (block_at g mP n gi) (matmul wS (columns g (Data x) n (gi * cP) cP) mP (outH g * outW g) (cP * kH g * kW g)), col') /\
    len col' = len col.
Proof using Hfits.
  intros Hn Hgi Hout Hcol. destruct fits_sizes as (HcP & HmP & HoH & HoW & HS & HkH & HkW & Hgr & _).
  destruct Hfits as [Hg EC EM Hx Hw _ _ _ _]. set (S := outH g * outW g) in *. set (K := cP * kH g * kW g) in *.
  assert (0 < K) as HK by (unfold K; nia). assert (gi * cP + cP <= gC g) as HcC by nia.
  pose proof (len_columns g (Data x) n (gi * cP) cP Hg Hn Hx ltac:(nia) ltac:(lia) HcC) as Hlcol. fold S K in Hlcol.
  assert (gi * mP * K + mP * K <= len (Data w)) as Hwroom by (unfold K in *; nia).
  pose proof (subslice_Some (Data w) (gi * mP * K) (gi * mP * K + mP * K) ltac:(nia) Hwroom) as HwS.
  match type of HwS with _ = Some ?v => set (wS := v) in * end. exists wS.
  pose proof HwS as (_ & _ & _ & HlwS)%subslice_is_Some.
  assert (in_slice out (block_at g mP n gi) (block_at g mP n gi + mP * S) (fun dst =>
      dst ← SgemmInto wS (columns g (Data x) n (gi * cP) cP) dst mP S K; Some dst) =
    Some (splice out (block_at g mP n gi) (matmul wS (columns g (Data x) n (gi * cP) cP) mP S K))) as Hprod.
  { assert (0 <= block_at g mP n gi /\ block_at g mP n gi + mP * S <= len out) as [H0 H1].
    { replace (block_at g mP n gi) with ((n * gM g + gi * mP) * S) by (unfold block_at, S; lia). rewrite Hout. apply block_fits; (done || nia). }
    unfold in_slice. rewrite subslice_Some by lia. cbn [mbind option_bind]. unfold SgemmInto.
    rewrite !(proj2 (Z.eqb_neq _ 0)) by lia. cbn [orb]. rewrite sgemmPureGo_matmul; [done|lia..|].
    unfold len in *. rewrite length_take, length_drop. lia. }
  unfold conv_group. fold S K. change (((n * gM g + gi * mP) * outH g) * outW g) with (block_at g mP n gi).
  destruct (is1x1 g) eqn:E1.
  - assert (K = cP) as EK. { unfold is1x1 in E1. rewrite !andb_true_iff, !Z.eqb_eq in E1. unfold K. destruct E1 as [[[[-> ->] _] _] _]. lia. }
    rewrite EK in *. rewrite HwS. cbn [mbind option_bind].
    assert (gH g = outH g /\ gW g = outW g) as [EH EW].
    { unfold is1x1, noPad in E1. rewrite !andb_true_iff, !Z.eqb_eq in E1. destruct E1 as [[[[EkH EkW] EsH] EsW] [[[Pt Pl] Pb] Pr]].
      pose proof (ok_outH g Hg) as [_ Hh]. pose proof (ok_outW g Hg) as [_ Hww]. rewrite EkH, EkW, EsH, EsW, Pt, Pl, Pb, Pr in *. lia. }
    assert (0 <= (n * gC g + gi * cP) * gH g * gW g /\ (n * gC g + gi * cP) * gH g * gW g + cP * S <= len (Data x)) as [Hx0 Hx1].
    { rewrite EH, EW in *. replace ((n * gC g + gi * cP) * outH g * outW g) with ((n * gC g + gi * cP) * S) by (unfold S; lia).
      replace (gN g * gC g * outH g * outW g) with (gN g * gC g * S) in Hx by (unfold S; lia).
      destruct (block_fits n (gN g) (gi * cP) cP (gC g) S); (done || nia). }
    destruct (subslice (Data x) ((n * gC g + gi * cP) * gH g * gW g) ((n * gC g + gi * cP) * gH g * gW g + cP * S)) as [xS|] eqn:ExS.
    2:{ rewrite subslice_Some in ExS by lia. done. }
    pose proof (one_by_one_columns g (Data x) n (gi * cP) cP Hg Hn Hx ltac:(nia) ltac:(lia) HcC xS E1 ExS) as ->.
    cbn [mbind option_bind]. rewrite Hprod. exists col. done.
  - specialize (Hcol eq_refl). exists (columns g (Data x) n (gi * cP) cP).
    assert ((if noPad g && noDil g then im2colNoPadNoDil g (Data x) n (gi * cP) cP col else im2col g (Data x) n (gi * cP) cP col) =
      Some (columns g (Data x) n (gi * cP) cP)) as ->.
    { destruct (noPad g && noDil g) eqn:Ep.
      - apply andb_true_iff in Ep as [Ep Ed]. apply im2colNoPadNoDil_columns; (done || nia).
      - apply im2col_columns; (done || nia). }
    cbn [mbind option_bind]. rewrite HwS. cbn [mbind option_bind]. rewrite Hprod. split; [done|]. split; [done|]. lia.
Qed.

(** The run when the first [k] elements are written. *)
Definition convolved (k : Z) (st : list float32 * list float32) : Prop :=
  len st.1 = gN g * gM g * (outH g * outW g) /\ (is1x1 g = false -> len st.2 = cP * kH g * kW g * (outH g * outW g)) /\
  forall i, 0 <= i < k -> get st.1 i = Some (conv_flat i).

Lemma convolved_ext k k' st : k = k' -> convolved k st -> convolved k' st.
Proof using. by intros ->. Qed.

Lemma conv_flat_block n gi i j :
  0 <= n < gN g -> 0 <= gi < group g -> 0 <= i < mP -> 0 <= j < outH g * outW g ->
  conv_flat (block_at g mP n gi + (i * (outH g * outW g) + j)) =
  conv_at g cP mP (Data x) (Data w) n (gi * mP + i) (j / outW g) (j mod outW g).
Proof using Hfits.
  intros Hn Hgi Hi Hj. destruct fits_sizes as (HcP & HmP & HoH & HoW & HS & _). destruct Hfits as [_ _ EM _ _ _ _ _ _].
  unfold conv_flat. rewrite channel_in_block by nia. unfold block_at. set (S := outH g * outW g) in *.
  replace ((n * gM g + gi * mP) * outH g * outW g + (i * S + j)) with ((n * gM g + gi * mP + i) * S + j) by (unfold S; lia).
  rewrite Z.div_add_l, mod_mul_add by lia. rewrite !(Z.div_small j), !(Z.mod_small j) by done.
  rewrite !Z.div_add_l, (Z.div_small j) by lia. rewrite Z.add_0_r, (Z.add_0_r i).
  rewrite <- (Z.div_unique_pos (n * gM g + gi * mP + i) (gM g) n (gi * mP + i)) by nia. done.
Qed.

Lemma conv_group_convolved n gi st :
  0 <= n < gN g -> 0 <= gi < group g -> convolved (block_at g mP n gi) st ->
  exists st', conv_group g x w cP mP (fun _ dst => Some dst) n gi st = Some st' /\ convolved (block_at g mP n (gi + 1)) st'.
Proof using Hfits.
  intros Hn Hgi [Hl [Hlc Hget]]. destruct st as [out col]. cbn [fst snd] in *.
  destruct (conv_group_matmul n gi out col Hn Hgi Hl Hlc) as (wS & col' & EwS & -> & Hl').
  destruct fits_sizes as (HcP & HmP & HoH & HoW & HS & HkH & HkW & Hgr & HN). pose proof Hfits as [Hg EC EM Hx _ _ _ _ _].
  eexists. split; [done|]. set (S := outH g * outW g) in *. set (K := cP * kH g * kW g) in *.
  set (b := matmul _ _ _ _ _). assert (len b = mP * S) as Hlb by (apply len_matmul; lia).
  assert (0 <= block_at g mP n gi /\ block_at g mP n gi + mP * S <= len out) as [H0 H1].
  { replace (block_at g mP n gi) with ((n * gM g + gi * mP) * S) by (unfold block_at, S; lia). rewrite Hl. apply block_fits; (done || nia). }
  assert (block_at g mP n (gi + 1) = block_at g mP n gi + mP * S) as -> by (unfold block_at, S; lia).
  split; [cbn [fst]; rewrite len_splice by lia; done|]. split; [intros E; cbn [snd]; rewrite Hl'; by apply Hlc|].
  intros i Hi. cbn [fst]. rewrite get_splice by lia. destruct (Z.leb_spec (block_at g mP n gi) i); cbn [andb]; [|apply Hget; lia].
  rewrite (proj2 (Z.ltb_lt _ _)) by lia. set (r := i - block_at g mP n gi) in *.
  pose proof (Z.div_mod r S ltac:(lia)) as Dr. pose proof (Z.mod_pos_bound r S HS) as Br.
  assert (0 <= r / S < mP) as Hr by (split; [apply Z.div_pos; lia|apply Z.div_lt_upper_bound; lia]).
  replace i with (block_at g mP n gi + (r / S * S + r mod S)) by lia. 
  pose proof (conv_flat_block n gi (r / S) (r mod S) Hn Hgi Hr Br) as Ef. fold S in Ef. rewrite Ef.
  replace r with (r / S * S + r mod S) at 1 by lia. unfold b. rewrite get_matmul by done. f_equal.
  pose proof (Z.div_mod (r mod S) (outW g) ltac:(lia)) as Dj. pose proof (Z.mod_pos_bound (r mod S) (outW g) HoW) as Bj.
  assert (0 <= r mod S / outW g < outH g) as Hoh by (split; [apply Z.div_pos; lia|apply Z.div_lt_upper_bound; unfold S in *; lia]).
  pose proof (dot_is_conv n gi wS (r / S) (r mod S / outW g) (r mod S mod outW g) Hn Hgi Hr Hoh Bj EwS) as Ed.
  rewrite <- Ed. fold S K. f_equal. lia.
Qed.

Lemma conv_data_convolved :
  exists t, conv_data g x w (fun _ _ dst => Some dst) = Some t /\ Shape t = [gN g; gM g; outH g; outW g] /\
    len (Data t) = gN g * gM g * (outH g * outW g) /\ forall i, 0 <= i < len (Data t) -> get (Data t) i = Some (conv_flat i).
Proof using Hfits.
  destruct fits_sizes as (HcP & HmP & HoH & HoW & HS & HkH & HkW & Hgr & HN). pose proof Hfits as [Hg EC EM Hx _ _ Hmach HC Hout].
  pose proof (ok_M g Hg) as HM. unfold conv_data. rewrite !divmod_pos by nia. cbn [mbind option_bind].
  rewrite EC, (Z.mul_comm _ cP), Z.div_mul by lia. rewrite EM, (Z.mul_comm _ mP), Z.div_mul by lia. rewrite <- (Z.mul_comm _ mP), <- EM.
  set (S := outH g * outW g) in *. assert (0 <= cP * kH g * kW g * S) as Hcl by nia.
  rewrite (i64_small (cP * kH g * kW g * S)) by (unfold min_int64; lia).
  rewrite (proj2 (Z.ltb_ge (cP * kH g * kW g * S) 0)), andb_false_r by lia.
  assert (convolved (block_at g mP 0 0) (Data (newTensorUninit [gN g; gM g; outH g; outW g]),
    if is1x1 g then [] else stale (cP * kH g * kW g * S))) as H0.
  { split; [|split; [|unfold block_at; lia]]; cbn [fst snd].
    - unfold newTensorUninit. cbn [Data]. rewrite tensorSize_i64.
      replace (volume [gN g; gM g; outH g; outW g]) with (gN g * gM g * S) by (unfold volume, S; cbn; lia).
      assert (0 < gN g * gM g * S) by nia. assert (min_int64 <= 0) by done. rewrite i64_small by lia. rewrite (proj2 (Z.leb_gt _ _)) by lia. rewrite stale_len; lia.
    - intros ->. rewrite stale_len; lia. }
  destruct (for_range_inv (fun n => convolved (block_at g mP n 0)) 0 (gN g)
    (fun n => for_range 0 (group g) (conv_group g x w cP mP (fun _ dst => Some dst) n)) _ ltac:(lia) H0) as ([out col] & Erun & Hl & _ & Hget).
  { intros n st Hn Hst. replace (block_at g mP (n + 1) 0) with (block_at g mP n (group g)) by (unfold block_at; rewrite EM; lia).
    apply (for_range_inv (fun gi => convolved (block_at g mP n gi))); [lia|done|]. intros gi st' Hgi. by apply conv_group_convolved. }
  cbn [fst snd] in *. rewrite Erun. eexists. split; [done|]. split; [done|]. cbn [Data with_data]. split; [done|].
  intros i Hi. apply Hget. rewrite Hl in Hi. unfold block_at, S in *. lia.
Qed.

Lemma add_bias_total b out :
  gM g <= len b -> len out = gN g * gM g * (outH g * outW g) -> exists out', add_bias g b out = Some out'.
Proof using Hfits.
  intros Hb Hl. destruct fits_sizes as (_ & _ & HoH & HoW & HS & _ & _ & _ & HN). pose proof (ok_M g (fits_geometry _ _ _ _ _ _ Hfits)) as HM.
  set (size := gN g * gM g * (outH g * outW g)) in *. unfold add_bias.
  destruct (for_range_inv (fun _ s => len s = size) 0 (gN g) (fun n => for_range 0 (gM g) (fun m out =>
      let base := ((n * gM g + m) * outH g) * outW g in b ← get b m;
      for_range 0 (outH g * outW g) (fun i out => v ← get out (base + i); set out (base + i) (add32 v b)) out)) out) as (s' & E & _); [lia|done| |by exists s'].
  intros n s Hn Hs. apply (for_range_inv (fun _ s => len s = size)); [lia|done|]. intros m s1 Hm Hs1. cbv zeta.
  destruct (get_is_Some b m ltac:(lia)) as [bv ->]. cbn [mbind option_bind].
  apply (for_range_inv (fun _ s => len s = size)); [lia|done|]. intros j s2 Hj Hs2.
  assert (0 <= ((n * gM g + m) * outH g) * outW g + j < len s2) as Hr.
  { pose proof (flat_bound _ _ _ _ Hn Hm) as H1. pose proof (flat_bound _ _ _ _ H1 Hj). rewrite Hs2. unfold size. lia. }
  destruct (get_is_Some s2 _ Hr) as [v ->]. cbn [mbind option_bind]. rewrite set_Some by done. eexists. split; [done|].
  rewrite len_splice; [done|lia|]. change (len [add32 v bv]) with 1. lia.
Qed.

Lemma fits_regular : regular g.
Proof using Hfits.
  destruct fits_sizes as (HcP & HmP & HoH & HoW & HS & HkH & HkW & Hgr & HN). pose proof Hfits as [Hg EC EM Hx _ _ Hmach HC Hout].
  pose proof (ok_M g Hg). constructor; try done. exists mP. lia.
Qed.

(** The flat index of a position, taken apart. *)
Lemma conv_flat_at n m oh ow :
  0 <= n < gN g -> 0 <= m < gM g -> 0 <= oh < outH g -> 0 <= ow < outW g ->
  conv_flat (((n * gM g + m) * outH g + oh) * outW g + ow) = conv_at g cP mP (Data x) (Data w) n m oh ow /\
  channel_of g (((n * gM g + m) * outH g + oh) * outW g + ow) = m.
Proof using Hfits.
  intros Hn Hm Hoh How. destruct fits_sizes as (HcP & HmP & HoH & HoW & HS & _). pose proof (flat_bound _ _ _ _ Hoh How) as Hj.
  unfold conv_flat, channel_of. set (S := outH g * outW g) in *.
  replace (((n * gM g + m) * outH g + oh) * outW g + ow) with ((n * gM g + m) * S + (oh * outW g + ow)) by (unfold S; lia).
  rewrite Z.div_add_l, mod_mul_add, (Z.div_small (oh * outW g + ow) S), (Z.mod_small (oh * outW g + ow) S) by (done || lia).
  rewrite Z.add_0_r, (Z.div_add_l n), (mod_mul_add n), (Z.div_small m), (Z.mod_small m) by (done || lia).
  rewrite (Z.div_add_l oh), (mod_mul_add oh), (Z.div_small ow), (Z.mod_small ow) by (done || lia). by rewrite !Z.add_0_r.
Qed.
End Groups.

(** C38: [opConv] computes the convolution its inputs and attributes ask for.  For a
    geometry [asked] of the shapes and attributes (kernel, group, strides, dilations, and
    the padding given, or with [auto_pad] half of what is missing on each side), it returns
    one new tensor whose every element is the textbook convolution: the sum over the
    channels of the group and the elements of the kernel, in this order, of the weight by
    the element of the padded input under it, with the roundings of the machine's
    multiply-add, and the bias of the channel added last.  Its lengths are the numbers of
    steps the kernel takes in the padded input.  Neither the layout of the columns, nor the
    tiles of the product, nor what the recycled buffers held shows.  The conditions are
    those of [geometry_ok] and [conv_fits]: positive sizes, strides, dilations and groups,
    groups that divide both channel counts, no negative padding, a kernel no larger than
    the padded input, data (and a bias, unless it is absent or nil) as long as the shapes
    say, sizes that an int holds, and padding no wider than the steps of the output take it
    (the code panics beyond that: [wide_padding_panics]). *)
Theorem opConv_is_convolution ins attrs x w g cP mP :
  input ins 0 = Some x -> input ins 1 = Some w ->
  asked x w attrs g -> conv_fits g cP mP x w (bias_of (input ins 2)) ->
  exists t, opConv ins attrs = Some (Ok [(t, Pooled)]) /\ Shape t = [gN g; gM g; outH g; outW g] /\
    len (Data t) = gN g * gM g * (outH g * outW g) /\
    forall n m oh ow, 0 <= n < gN g -> 0 <= m < gM g -> 0 <= oh < outH g -> 0 <= ow < outW g ->
      get (Data t) (((n * gM g + m) * outH g + oh) * outW g + ow) =
      Some (with_bias (bias_of (input ins 2)) m (conv_at g cP mP (Data x) (Data w) n m oh ow)).
Proof.
  intros Hx Hw Ha Hfits. pose proof (conv_geometry_asked x w attrs g Ha (fits_geometry _ _ _ _ _ _ Hfits)) as Eg.
  destruct (conv_data_convolved g cP mP x w _ Hfits) as (t & Et & Es & El & Hget).
  assert (len ins <? 2 = false) as Hlen.
  { apply Z.ltb_ge. unfold input in Hw. destruct (get ins 1) as [o|] eqn:E; [|done]. apply get_Some in E. lia. }
  unfold opConv. rewrite Hlen, Hx, Hw. cbn [mbind option_bind]. rewrite Eg. cbn [mbind option_bind]. rewrite Et. cbn [mbind option_bind].
  destruct (bias_of (input ins 2)) as [bias|] eqn:E2; cbn [with_bias].
  - pose proof (fits_bias _ _ _ _ _ _ Hfits bias eq_refl) as Hb.
    destruct (add_bias_total g cP mP x w _ Hfits bias (Data t) Hb El) as [out' Eo]. rewrite Eo. cbn [mbind option_bind].
    pose proof (add_bias_biased g _ _ _ (fits_regular g cP mP x w _ Hfits) Eo) as [Hlo Hbiased].
    exists (with_data t out'). split; [done|]. split; [done|]. cbn [Data with_data]. split; [lia|].
    intros n m oh ow Hn Hm Hoh How. pose proof (position_in g n m oh ow Hn Hm Hoh How) as Hr.
    destruct (conv_flat_at g cP mP x w _ Hfits n m oh ow Hn Hm Hoh How) as [Ef Ec].
    specialize (Hbiased _ _ (Hget (((n * gM g + m) * outH g + oh) * outW g + ow) ltac:(lia))). rewrite (proj2 (Z.ltb_lt _ _)) in Hbiased by lia.
    destruct Hbiased as (bv & Ebv & ->). rewrite Ec in Ebv. by rewrite Ef, (at_index_is _ _ _ Ebv).
  - exists t. split; [done|]. split; [done|]. split; [done|]. intros n m oh ow Hn Hm Hoh How.
    pose proof (position_in g n m oh ow Hn Hm Hoh How). rewrite Hget by lia.
    by destruct (conv_flat_at g cP mP x w _ Hfits n m oh ow Hn Hm Hoh How) as [-> _].
Qed.
End Convolution.

(** ** A convolution, and two calls it does not cover *)

(** Attributes that are lists of integers. *)
Definition int_lists (l : list (string * list Z)) : Attributes :=
  {| Ints := {[ "group"%string := 2 ]}; Floats := ∅; Strings := ∅; IntLists := list_to_map l; FloatLists := ∅; Tensors := ∅ |}.

Definition same_3x3 : Attributes := int_lists [("pads", [1; 1; 1; 1]); ("strides", [2; 2])]%string.

Definition g_3x3 : Geometry :=
  {| gN := 1; gC := 2; gH := 4; gW := 4; gM := 2; kH := 3; kW := 3; group := 2; strideH := 2; strideW := 2; dilH := 1; dilW := 1;
     padTop := 1; padLeft := 1; padBottom := 1; padRight := 1; outH := 2; outW := 2 |}.

Lemma opConv_is_convolution_witness : exists t,
  asked (counting [1; 2; 4; 4]) (counting [2; 1; 3; 3]) same_3x3 g_3x3 /\
  @opConv zero_recycled rounding_machine [Some (counting [1; 2; 4; 4]); Some (counting [2; 1; 3; 3]); Some (counting [2])] same_3x3 =
    Some (Ok [(t, Pooled)]) /\ Shape t = [1; 2; 2; 2] /\
  get (Data t) 7 = Some (add32 (f32_of_Z 1) (@conv_at rounding_machine g_3x3 1 1 (Data (counting [1; 2; 4; 4])) (Data (counting [2; 1; 3; 3])) 0 1 1 1)).
Proof.
  assert (asked (counting [1; 2; 4; 4]) (counting [2; 1; 3; 3]) same_3x3 g_3x3) as Ha.
  { constructor; [reflexivity|exists 1, 3, 3; split; [reflexivity|]|reflexivity|..]; vm_compute; repeat split; reflexivity. }
  destruct (@opConv_is_convolution rounding_machine zero_recycled [Some (counting [1; 2; 4; 4]); Some (counting [2; 1; 3; 3]); Some (counting [2])] same_3x3
    (counting [1; 2; 4; 4]) (counting [2; 1; 3; 3]) g_3x3 1 1 eq_refl eq_refl Ha) as (t & Et & Es & _ & Hget).
  - constructor; [constructor|..]; try (repeat split; vm_compute; (reflexivity || discriminate)).
    intros b Eb. vm_compute in Eb. injection Eb as <-. vm_compute. discriminate.
  - exists t. split; [exact Ha|]. split; [exact Et|]. split; [exact Es|].
    exact (Hget 0 1 1 1 ltac:(cbn; lia) ltac:(cbn; lia) ltac:(cbn; lia) ltac:(cbn; lia)).
Defined.

(** Padding wider than the output reaches: the kernel elements whose taps are all in the
    padding start their interior past the end of the row, and the loops run out of the
    columns.  A 5x5 kernel with padding 2 on one pixel, and a 7x7 kernel with padding 3 on
    two by two, are such convolutions, both with an output as large as their input. *)
Definition wide (pad : Z) : Attributes :=
  {| Ints := ∅; Floats := ∅; Strings := ∅; IntLists := {[ "pads"%string := [pad; pad; pad; pad] ]}; FloatLists := ∅; Tensors := ∅ |}.

(** A convolution whose padding is wider than its output panics, though its geometry
    passes every test of the operator. *)
Theorem wide_padding_panics :
  (exists g, conv_geometry (counting [1; 1; 1; 1]) (counting [1; 1; 5; 5]) (wide 2) = Some (Ok g) /\ outH g = 1 /\ outW g = 1) /\
  @opConv zero_recycled rounding_machine [Some (counting [1; 1; 1; 1]); Some (counting [1; 1; 5; 5])] (wide 2) = None /\
  @opConv zero_recycled rounding_machine [Some (counting [1; 1; 2; 2]); Some (counting [1; 1; 7; 7])] (wide 3) = None.
Proof. split; [eexists; split; [vm_compute; reflexivity|done]|]. split; vm_compute; reflexivity. Qed.
