(* ===== verification/Detector.v ===== *)
(** The object detector ([detect/detector.go], [detect/yolo.go], [detect/backend_go.go]):
    a frame is letterboxed into the input of the model, the model's output is decoded to
    boxes, boxes of the same object are suppressed, and the rest is filtered by label.

    The loops of the suppression keep one flag for each detection; the reference is the
    greedy choice: a detection is kept when none of those kept before it suppresses it.
    The inference is an answer; the one of the Go backend is a session of [OnnxGraph].
    [int(x)] outside its range is what an amd64 processor makes of it. *)

From Stdlib Require Import SpecFloat.
From S2P Require Import Prelude Float64 GoSlices CameraEvent Tracker OnnxProto OnnxModel OnnxTensor OnnxShapeOps OnnxMathOps OnnxGraph.

#[local] Open Scope list_scope.

(** ** Suppression *)

(** What [sort.Slice] promises of a sort by descending score: the same elements, none
    before one that exceeds it when all scores compare. *)
Class SortsScores {A} (score : A -> float32) (sort : list A -> list A) : Prop := {
  sort_perm l : sort l ≡ₚ l;
  sort_sorted l : Forall (fun x => is_nan (score x) = false) l ->
    Sorted.StronglySorted (fun x y => fgt (score y) (score x) = false) (sort l)
}.

(** Lengths of lists put together. *)
Ltac len_lia := unfold len in *; repeat rewrite length_app; cbn [length]; lia.

Section Suppression.
Context {A : Type} (suppresses : A -> A -> bool).

(** The turn of [i]: every later one that is still kept and that it suppresses is dropped. *)
Definition suppress_turn (l : list A) (i : Z) (keep : list bool) : option (list bool) :=
  ki ← get keep i;
  if negb ki then Some keep else
  for_range (i + 1) (len l) (fun j keep =>
    kj ← get keep j;
    if negb kj then Some keep else
    x ← get l i;
    y ← get l j;
    if suppresses x y then set keep j false else Some keep) keep.

Fixpoint kept_of (l : list A) (keep : list bool) : list A :=
  match l, keep with
  | x :: l, k :: keep => if k : bool then x :: kept_of l keep else kept_of l keep
  | _, _ => []
  end.

(** Over a list that is already sorted. *)
Definition suppression (l : list A) : option (list A) :=
  keep ← for_range 0 (len l) (suppress_turn l) (replicate (length l) true);
  Some (kept_of l keep).

(** ** The greedy choice *)

(** Whether one of those already chosen suppresses it. *)
Definition beaten (chosen : list A) (x : A) : bool := existsb (fun k => suppresses k x) chosen.

Fixpoint greedy (chosen l : list A) : list A :=
  match l with
  | [] => []
  | x :: l => if beaten chosen x then greedy chosen l else x :: greedy (chosen ++ [x]) l
  end.

Fixpoint greedy_flags (chosen l : list A) : list bool :=
  match l with
  | [] => []
  | x :: l => if beaten chosen x then false :: greedy_flags chosen l else true :: greedy_flags (chosen ++ [x]) l
  end.

Definition unbeaten (chosen : list A) (x : A) : bool := negb (beaten chosen x).

Lemma beaten_snoc chosen k x : beaten (chosen ++ [k]) x = beaten chosen x || suppresses k x.
Proof. unfold beaten. rewrite existsb_app. cbn. by rewrite orb_false_r. Qed.

Lemma kept_of_greedy chosen l : kept_of l (greedy_flags chosen l) = greedy chosen l.
Proof.
  revert chosen. induction l as [|x l IH]; intros chosen; [done|]. cbn. destruct (beaten chosen x); cbn; by rewrite IH.
Qed.

Lemma get_at {B} (pre : list B) (x : B) suf i : i = len pre -> get (pre ++ x :: suf) i = Some x.
Proof. intros ->. rewrite <- (Z.add_0_r (len pre)), get_app_r by lia. done. Qed.

Lemma set_at {B} (pre : list B) (x y : B) suf i : i = len pre -> set (pre ++ x :: suf) i y = Some (pre ++ y :: suf).
Proof.
  intros ->. unfold set. pose proof (len_nonneg pre). pose proof (len_nonneg suf). rewrite (proj2 (Z.leb_le _ _)), (proj2 (Z.ltb_lt _ _)) by len_lia.
  cbn [andb]. f_equal. unfold len. rewrite Nat2Z.id. by rewrite insert_app_r_alt, Nat.sub_diag by lia.
Qed.

(** The inner loop meets the rest of the list. *)
Lemma inner_loop l i x pre suf fpre (f : A -> bool) :
  l = pre ++ suf -> len fpre = len pre -> get l i = Some x ->
  for_range (len pre) (len l) (fun j keep =>
      kj ← get keep j; if negb kj then Some keep else x ← get l i; y ← get l j; if suppresses x y then set keep j false else Some keep)
    (fpre ++ map f suf) = Some (fpre ++ map (fun y => f y && negb (suppresses x y)) suf).
Proof.
  intros -> Hl Hx. revert pre fpre Hl Hx. induction suf as [|y suf IH]; intros pre fpre Hl Hx.
  { rewrite app_nil_r. by rewrite for_range_nil by lia. }
  pose proof (len_nonneg suf). rewrite for_range_step by len_lia. cbn [map].
  rewrite (get_at fpre) by lia. cbn [mbind option_bind]. rewrite Hx, (get_at pre) by done. cbn [mbind option_bind].
  assert ((if negb (f y) then Some (fpre ++ f y :: map f suf) else
    if suppresses x y then set (fpre ++ f y :: map f suf) (len pre) false else Some (fpre ++ f y :: map f suf)) =
    Some ((fpre ++ [f y && negb (suppresses x y)]) ++ map f suf)) as ->.
  { rewrite <- app_assoc. destruct (f y) eqn:Ef, (suppresses x y); cbn [negb andb app]; try done. by apply set_at. }
  cbn [mbind option_bind]. specialize (IH (pre ++ [y]) (fpre ++ [f y && negb (suppresses x y)])).
  rewrite <- !app_assoc in IH. cbn [app] in IH. replace (len pre + 1) with (len (pre ++ [y])) by (len_lia).
  rewrite Hx in IH. rewrite <- app_assoc. cbn [app mbind option_bind] in IH |- *. apply IH; [len_lia|done].
Qed.

Lemma outer_loop l pre suf fpre chosen :
  l = pre ++ suf -> len fpre = len pre ->
  for_range (len pre) (len l) (suppress_turn l) (fpre ++ map (unbeaten chosen) suf) = Some (fpre ++ greedy_flags chosen suf).
Proof.
  intros ->. revert pre fpre chosen. induction suf as [|x suf IH]; intros pre fpre chosen Hl.
  { rewrite app_nil_r. by rewrite for_range_nil by lia. }
  pose proof (len_nonneg suf). rewrite for_range_step by len_lia. cbn [map].
  assert (suppress_turn (pre ++ x :: suf) (len pre) (fpre ++ unbeaten chosen x :: map (unbeaten chosen) suf) =
    Some ((fpre ++ [unbeaten chosen x]) ++ map (unbeaten (if beaten chosen x then chosen else chosen ++ [x])) suf)) as ->.
  { unfold suppress_turn. rewrite (get_at fpre) by lia. cbn [mbind option_bind]. unfold unbeaten at 1.
    destruct (beaten chosen x) eqn:Eb; cbn [negb]; [by rewrite <- app_assoc|].
    pose proof (inner_loop (pre ++ x :: suf) (len pre) x (pre ++ [x]) suf (fpre ++ [unbeaten chosen x]) (unbeaten chosen)
      ltac:(by rewrite <- app_assoc) ltac:(len_lia) ltac:(by apply get_at)) as E.
    rewrite len_app, len_cons, len_nil, <- !app_assoc in E. cbn [app] in E. replace (len pre + (1 + 0)) with (len pre + 1) in E by lia.
    rewrite <- app_assoc. cbn [app]. rewrite E. do 3 f_equal. apply map_ext. intros y. unfold unbeaten. by rewrite beaten_snoc, negb_orb. }
  cbn [mbind option_bind]. replace (len pre + 1) with (len (pre ++ [x])) by (len_lia).
  specialize (IH (pre ++ [x]) (fpre ++ [unbeaten chosen x]) (if beaten chosen x then chosen else chosen ++ [x])).
  rewrite <- (app_assoc pre) in IH. cbn [app] in IH. rewrite IH by (len_lia).
  rewrite <- app_assoc. cbn [greedy_flags app]. unfold unbeaten. by destruct (beaten chosen x).
Qed.

(** The flags come to the greedy choice, and the loops never index out of range. *)
Lemma suppression_greedy l : suppression l = Some (greedy [] l).
Proof.
  unfold suppression. pose proof (outer_loop l [] l [] [] eq_refl eq_refl) as E. cbn [app] in E.
  assert (map (unbeaten []) l = replicate (length l) true) as Er.
  { clear E. induction l as [|x l IH]; [done|]. cbn. by rewrite IH. }
  rewrite Er in E. change (len (@nil A)) with 0 in E. rewrite E. cbn [mbind option_bind]. by rewrite kept_of_greedy.
Qed.

Lemma greedy_sublist chosen l : greedy chosen l `sublist_of` l.
Proof. revert chosen. induction l as [|x l IH]; intros chosen; [done|]. cbn. destruct (beaten chosen x); by constructor. Qed.

Lemma greedy_unbeaten chosen l x : x ∈ greedy chosen l -> beaten chosen x = false.
Proof.
  revert chosen. induction l as [|y l IH]; intros chosen; cbn; [intros []%elem_of_nil|]. destruct (beaten chosen y) eqn:E; [apply IH|].
  intros [->|Hx]%elem_of_cons; [done|]. apply IH in Hx. rewrite beaten_snoc in Hx. by apply orb_false_iff in Hx as [].
Qed.

(** None of those chosen suppresses a later one. *)
Lemma greedy_apart chosen l : Sorted.StronglySorted (fun x y => suppresses x y = false) (greedy chosen l).
Proof.
  revert chosen. induction l as [|y l IH]; intros chosen; cbn; [constructor|]. destruct (beaten chosen y); [apply IH|].
  constructor; [apply IH|]. apply Forall_forall. intros x Hx%greedy_unbeaten. rewrite beaten_snoc in Hx. by apply orb_false_iff in Hx as [].
Qed.

(** What is not chosen is suppressed by one chosen before. *)
Lemma greedy_covers R chosen l x :
  Sorted.StronglySorted R l -> x ∈ l -> Forall (fun k => R k x) chosen ->
  x ∈ greedy chosen l \/ exists k, k ∈ chosen ++ greedy chosen l /\ R k x /\ suppresses k x = true.
Proof.
  revert chosen. induction l as [|y l IH]; intros chosen Hs Hx Hc; [by apply elem_of_nil in Hx|].
  apply Sorted.StronglySorted_inv in Hs as [Hs Hy]. cbn. apply elem_of_cons in Hx as [<-|Hx].
  - destruct (beaten chosen x) eqn:E; [|left; by left]. right. unfold beaten in E. apply existsb_exists in E as (k & Hk%list_elem_of_In & Ek).
    exists k. rewrite Forall_forall in Hc. split; [apply elem_of_app; by left|]. split; [by apply Hc|done].
  - destruct (beaten chosen y) eqn:E; [by apply IH|]. rewrite Forall_forall in Hy.
    destruct (IH (chosen ++ [y]) Hs Hx) as [Hin|(k & Hk & HR & Hsup)]; [|left; by right|].
    + apply Forall_app. split; [done|]. constructor; [by apply Hy|done].
    + right. exists k. rewrite <- app_assoc in Hk. done.
Qed.
End Suppression.

(** ** The input of the model *)

Definition modelInputSize : Z := 640.
Definition numClasses : Z := 80.
Definition numDetections : Z := 8400.
Definition yoloOutputSize : Z := (4 + numClasses) * numDetections.
Definition inputTensorSize : Z := 1 * 3 * modelInputSize * modelInputSize.

(** [CocoLabels]. *)
Definition CocoLabels : list string :=
  ["person"; "bicycle"; "car"; "motorcycle"; "airplane"; "bus"; "train"; "truck"; "boat"; "traffic light";
   "fire hydrant"; "stop sign"; "parking meter"; "bench"; "bird"; "cat"; "dog"; "horse"; "sheep"; "cow";
   "elephant"; "bear"; "zebra"; "giraffe"; "backpack"; "umbrella"; "handbag"; "tie"; "suitcase"; "frisbee";
   "skis"; "snowboard"; "sports ball"; "kite"; "baseball bat"; "baseball glove"; "skateboard"; "surfboard";
   "tennis racket"; "bottle"; "wine glass"; "cup"; "fork"; "knife"; "spoon"; "bowl"; "banana"; "apple";
   "sandwich"; "orange"; "broccoli"; "carrot"; "hot dog"; "pizza"; "donut"; "cake"; "chair"; "couch";
   "potted plant"; "bed"; "dining table"; "toilet"; "tv"; "laptop"; "mouse"; "remote"; "keyboard"; "cell phone";
   "microwave"; "oven"; "toaster"; "sink"; "refrigerator"; "book"; "clock"; "vase"; "scissors"; "teddy bear";
   "hair drier"; "toothbrush"]%string.

(** The size of the frame in the input, and where it stands: what both preparations and
    the decoding of the boxes compute with. *)
Record Letterbox := { lb_scale : float64; lb_newW : Z; lb_newH : Z; lb_padX : Z; lb_padY : Z }.

Definition letterbox (w h : Z) : Letterbox :=
  let origW := f64_of_Z w in
  let origH := f64_of_Z h in
  let scale := fmin (fdiv (f64_of_Z modelInputSize) origW) (fdiv (f64_of_Z modelInputSize) origH) in
  let newW := to_int64 (fmul origW scale) in
  let newH := to_int64 (fmul origH scale) in
  {| lb_scale := scale; lb_newW := newW; lb_newH := newH;
     lb_padX := Z.quot (i64 (modelInputSize - newW)) 2; lb_padY := Z.quot (i64 (modelInputSize - newH)) 2 |}.

(** [float32(b) / 255.0]. *)
Definition unit_pixel (b : Z) : float32 := div32 (f32_of_Z b) (f32_of_Z 255).

(** The source row or column of one of the input, the last one when it is past the end. *)
Definition source_index (scale : float64) (i size : Z) : Z :=
  let s := to_int64 (fdiv (f64_of_Z i) scale) in
  if size <=? s then i64 (size - 1) else s.

(** The loops of both preparations, over pixels of [depth] bytes. *)
Definition prepare (depth : Z) (buf : list float32) (pix : list Z) (w h : Z) : option (list float32 * Letterbox) :=
  let lb := letterbox w h in
  let channelStride := modelInputSize * modelInputSize in
  buf ← for_range 0 (lb_newH lb) (fun y =>
      let srcY := source_index (lb_scale lb) y h in
      for_range 0 (lb_newW lb) (fun x buf =>
        let srcX := source_index (lb_scale lb) x w in
        let srcIdx := (srcY * w + srcX) * depth in
        r ← get pix (srcIdx + 0);
        g ← get pix (srcIdx + 1);
        b ← get pix (srcIdx + 2);
        let dstIdx := (y + lb_padY lb) * modelInputSize + (x + lb_padX lb) in
        buf ← set buf (0 * channelStride + dstIdx) (unit_pixel r);
        buf ← set buf (1 * channelStride + dstIdx) (unit_pixel g);
        set buf (2 * channelStride + dstIdx) (unit_pixel b)))
    (replicate (length buf) (f32_lit 1 2));
  Some (buf, lb).

(** The bytes of an image. *)
Definition Pix (img : RGBA) : list Z :=
  (fun c => Z.of_N (Ascii.N_of_ascii c)) <$> String.list_ascii_of_string (im_pixels img).

Definition prepareInputInto (buf : list float32) (img : RGBA) : option (list float32 * Letterbox) :=
  prepare 4 buf (Pix img) (im_Dx img) (im_Dy img).

Definition prepareInputFromRGB24Into (buf : list float32) (data : list Z) (w h : Z) : option (list float32 * Letterbox) :=
  prepare 3 buf data w h.

Definition prepareInput (img : RGBA) : option (list float32 * Letterbox) :=
  prepareInputInto (replicate (Z.to_nat (3 * modelInputSize * modelInputSize)) fzero) img.

(** ** The output of the model *)

(** The best score of a candidate and its class; zero and the first class when none is positive. *)
Definition best_class (output : list float32) (i : Z) : option (float32 * Z) :=
  for_range 0 numClasses (fun c '(maxScore, maxClass) =>
      score ← get output ((4 + c) * numDetections + i);
      Some (if fgt score maxScore then (score, c) else (maxScore, maxClass)))
    (fzero, 0).

(** The corners of a candidate's box in the frame, before it is confined to it. *)
Definition frame_box (lb : Letterbox) (cx cy w h : float64) : Box :=
  let two := f64_of_Z 2 in
  let out v pad := to_int64 (fdiv (fsub v (f64_of_Z pad)) (lb_scale lb)) in
  mkBox (out (fsub cx (fdiv w two)) (lb_padX lb)) (out (fsub cy (fdiv h two)) (lb_padY lb))
        (out (fadd cx (fdiv w two)) (lb_padX lb)) (out (fadd cy (fdiv h two)) (lb_padY lb)).

Definition label_of (maxClass : Z) : string := default "unknown"%string (get CocoLabels maxClass).

(** One turn of the decoding loop: the detection of a candidate, if it is one. *)
Definition decode_candidate (output : list float32) (scoreThreshold : float32) (lb : Letterbox) (frameW frameH i : Z) : option (option Detection) :=
  '(maxScore, maxClass) ← best_class output i;
  if flt maxScore scoreThreshold then Some None else
  cx ← get output (0 * numDetections + i);
  cy ← get output (1 * numDetections + i);
  w ← get output (2 * numDetections + i);
  h ← get output (3 * numDetections + i);
  let '(box, ok) := clampBox (frame_box lb (widen cx) (widen cy) (widen w) (widen h)) frameW frameH in
  if negb ok then Some None else Some (Some (mkDetection (label_of maxClass) maxScore box)).

Definition same_object (iouThreshold : float64) (a b : Detection) : bool :=
  String.eqb (d_Label a) (d_Label b) && fgt (iou (d_Box a) (d_Box b)) iouThreshold.

Section Detector.
Context (sort : list Detection -> list Detection).

Definition nms (detections : list Detection) (iouThreshold : float64) : option (list Detection) :=
  match detections with [] => Some [] | _ => suppression (same_object iouThreshold) (sort detections) end.

Definition processOutput (output : list float32) (scoreThreshold : float32) (lb : Letterbox) (frameW frameH : Z) : option (list Detection) :=
  if negb (len output =? yoloOutputSize) then Some [] else
  detections ← for_range 0 numDetections (fun i detections =>
      d ← decode_candidate output scoreThreshold lb frameW frameH i; Some (detections ++ option_list d)) [];
  nms detections (f64_lit 1 2).

(** ** The detector *)

Record Detector := { dt_enabled : bool; dt_ScoreThreshold : float32; dt_labelAllowed : option (gset string) }.

Definition SetScoreThreshold (t : float32) (d : Detector) : Detector :=
  {| dt_enabled := dt_enabled d; dt_ScoreThreshold := t; dt_labelAllowed := dt_labelAllowed d |}.

Definition SetLabels (labels : list string) (d : Detector) : Detector :=
  {| dt_enabled := dt_enabled d; dt_ScoreThreshold := dt_ScoreThreshold d;
     dt_labelAllowed := match labels with [] => None | _ => Some (list_to_set labels) end |}.

Definition allowed (d : Detector) (label : string) : Prop :=
  match dt_labelAllowed d with None => True | Some s => label ∈ s end.

#[global] Instance allowed_dec d label : Decision (allowed d label).
Proof. unfold allowed. destruct (dt_labelAllowed d); apply _. Defined.

Definition filterLabels (d : Detector) (dets : list Detection) : list Detection :=
  match dt_labelAllowed d with None => dets | Some _ => filter (fun det => allowed d (d_Label det)) dets end.

(** What the backend answers for an input: its output, an error, or a panic. *)
Definition Backend : Type := list float32 -> option (result string (list float32)).

(** The common part of both ways in: a panic anywhere is recovered to no detections. *)
Definition run_detector (d : Detector) (prepared : option (list float32 * Letterbox)) (w h : Z) (run : Backend) : list Detection :=
  default [] (
    '(input, lb) ← prepared;
    answer ← run input;
    match answer with
    | Err _ => Some []
    | Ok output =>
        dets ← processOutput output (dt_ScoreThreshold d) lb w h;
        Some (filterLabels d dets)
    end).

(** [busy]: another inference holds the lock, for which only a best-effort call does not wait.
    The reusable buffer is overwritten before it is used. *)
Definition detectImage (d : Detector) (img : option RGBA) (bestEffort busy : bool) (run : Backend) : list Detection :=
  match img with
  | Some img =>
      if negb (dt_enabled d) || (bestEffort && busy) then []
      else run_detector d (prepareInput img) (im_Dx img) (im_Dy img) run
  | None => []
  end.

Definition DetectRGB24 (d : Detector) (data : list Z) (w h : Z) (run : Backend) : list Detection :=
  if negb (dt_enabled d) then []
  else run_detector d (prepareInputFromRGB24Into (replicate (Z.to_nat (3 * modelInputSize * modelInputSize)) fzero) data w h) w h run.
End Detector.

(** ** The Go backend *)

Section GoBackend.
Context {Rec : Recycled} {Mach : Machine} {Order : InitOrder}.

Record GoBackend := { gb_session : Session; gb_inputKey : string; gb_outputKey : string }.

(** [Run]: the answer, the session and the free lists after it; [None] is a panic. *)
Definition GoBackend_Run (b : GoBackend) (input : list float32) (fl : FreeLists) :
    option (result string (list float32) * GoBackend * FreeLists) :=
  if negb (len input =? inputTensorSize) then Some (Err "input size"%string, b, fl) else
  let inputTensor := TensorOf [1; 3; modelInputSize; modelInputSize] input in
  '(r, s, fl) ← Run (gb_session b) {[ gb_inputKey b := inputTensor ]} fl;
  let b := {| gb_session := s; gb_inputKey := gb_inputKey b; gb_outputKey := gb_outputKey b |} in
  match r with
  | Err _ => Some (Err "inference"%string, b, fl)
  | Ok outputs =>
      match outputs !! gb_outputKey b with
      | Some h => Some (Ok (Data (h_tensor h)), b, fl)
      | None => Some (Err "model produced no output tensor"%string, b, fl)
      end
  end.

Definition blank_frame : list float32 := replicate (Z.to_nat inputTensorSize) fzero.

(** [warmUp]: whether one inference on a blank frame panics, fails or answers with another
    number of elements than the decoder reads. *)
Definition warmUp_verdict (answer : option (result string (list float32) * GoBackend * FreeLists)) : result string (GoBackend * FreeLists) :=
  match answer with
  | None => Err "model warm-up panicked"%string
  | Some (Err e, _, _) => Err ("model warm-up: " +:+ e)
  | Some (Ok output, b, fl) =>
      if negb (len output =? yoloOutputSize) then Err "model warm-up: output size"%string else Ok (b, fl)
  end.

Definition warmUp (b : GoBackend) (fl : FreeLists) : result string (GoBackend * FreeLists) :=
  warmUp_verdict (GoBackend_Run b blank_frame fl).

Definition NewGoBackend (modelData : bytes) (fl : FreeLists) : outcome (result string (GoBackend * FreeLists)) :=
  obind (NewSession modelData) (fun session =>
    match inputNames session, outputNames session with
    | inputKey :: _, outputKey :: _ => Val (warmUp {| gb_session := session; gb_inputKey := inputKey; gb_outputKey := outputKey |} fl)
    | _, _ => Val (Err "model has no inputs or outputs"%string)
    end).
End GoBackend.

(** The backend a preference selects: [capi] what the C runtime answers, when the build has it. *)
Definition selectBackend {B} (preference : string) (capi : option (result string B)) (go : result string B) : result string B :=
  if String.eqb preference "go" then go
  else if String.eqb preference "onnxruntime_c" then
    match capi with
    | None => Err "c ONNX Runtime backend: c ONNX Runtime not available: build with -tags cgo_onnxruntime"%string
    | Some (Err e) => Err ("c ONNX Runtime backend: " +:+ e)
    | Some (Ok b) => Ok b
    end
  else if String.eqb preference "" || String.eqb preference "auto" then
    match capi with Some (Ok b) => Ok b | _ => go end
  else Err ("unknown backend " +:+ preference).

(** ** The best class *)

(** An element of the output; the theorems below are about outputs of the right size. *)
Definition element (output : list float32) (k : Z) : float32 := default fzero (get output k).
Definition class_score (output : list float32) (i c : Z) : float32 := element output ((4 + c) * numDetections + i).

(** A score no class exceeds: the first class that has it, or zero and the first class when
    none is positive.  A score that is not a number counts for nothing. *)
Record best_of (output : list float32) (i : Z) (s : float32) (c : Z) : Prop := {
  best_class_of : 0 <= c < numClasses;
  best_comparable : is_nan s = false;
  best_maximal : forall c', 0 <= c' < numClasses -> fgt (class_score output i c') s = false;
  best_attained : (s = fzero /\ c = 0) \/
    (s = class_score output i c /\ fgt s fzero = true /\
     forall c', 0 <= c' < c -> is_nan (class_score output i c') = false -> flt (class_score output i c') s = true)
}.

Lemma element_get output k : 0 <= k < len output -> get output k = Some (element output k).
Proof. intros Hk. unfold element. by destruct (get_is_Some output k Hk) as [v ->]. Qed.

Lemma flt_false_trans x y z : is_nan y = false -> flt x y = false -> flt y z = false -> flt x z = false.
Proof.
  intros Hy Hxy Hyz. destruct (is_nan x) eqn:Hx; [by destruct x|]. destruct (is_nan z) eqn:Hz; [by destruct z, x as [|[]| |[]]|].
  rewrite flt_rank in * by done. by eapply rank_le_trans.
Qed.

Lemma flt_asym x y : flt x y = true -> flt y x = false.
Proof.
  intros H. pose proof H as (Hx & Hy & Hr)%flt_rank_true. apply flt_rank; [done..|].
  destruct (rank_le_total (f64_rank x) (f64_rank y)); [done|by destruct Hr].
Qed.

Lemma flt_le_trans x y z : flt x y = true -> flt z y = false -> is_nan z = false -> flt x z = true.
Proof.
  intros Hxy Hzy Hz. destruct (flt x z) eqn:E; [done|]. exfalso.
  pose proof Hxy as (Hx & Hy & _)%flt_rank_true. by rewrite (flt_false_trans x z y) in Hxy.
Qed.

Section Decoding.
Variables (output : list float32) (i : Z).
Hypotheses (Hlen : len output = yoloOutputSize) (Hi : 0 <= i < numDetections).

Lemma row_in_output r : 0 <= r < 4 + numClasses -> get output (r * numDetections + i) = Some (element output (r * numDetections + i)).
Proof using Hlen Hi. intros Hr. apply element_get. unfold yoloOutputSize, numDetections, numClasses in *. lia. Qed.

Lemma best_class_is_best : exists s c, best_class output i = Some (s, c) /\ best_of output i s c.
Proof using Hlen Hi.
  destruct (for_range_inv (fun n '(s, m) =>
      is_nan s = false /\ (forall c', 0 <= c' < n -> fgt (class_score output i c') s = false) /\
      ((s = fzero /\ m = 0) \/ (0 <= m < n /\ s = class_score output i m /\ fgt s fzero = true /\
        forall c', 0 <= c' < m -> is_nan (class_score output i c') = false -> flt (class_score output i c') s = true)))
    0 numClasses (fun c '(maxScore, maxClass) =>
      score ← get output ((4 + c) * numDetections + i); Some (if fgt score maxScore then (score, c) else (maxScore, maxClass))) (fzero, 0))
    as ([s c] & E & Hn & Hmax & Hatt); [done| | |].
  - split; [done|]. split; [intros; lia|by left].
  - intros n [s m] Hr (Hn & Hmax & Hatt). rewrite row_in_output by lia. cbn [mbind option_bind].
    fold (class_score output i n). set (sc := class_score output i n) in *. eexists. split; [done|].
    destruct (fgt sc s) eqn:Egt; unfold fgt in *.
    + pose proof Egt as (_ & Hsc & _)%flt_rank_true. split; [done|]. split.
      * intros c' Hc'. destruct (decide (c' = n)) as [->|]; [apply flt_irrefl|].
        apply (flt_false_trans _ s); [done|by apply flt_asym|apply Hmax; lia].
      * right. split; [lia|]. split; [done|]. split.
        -- destruct Hatt as [[-> _]|(_ & _ & Hpos & _)]; [done|]. apply (flt_le_trans _ s); [done|by apply flt_asym|done].
        -- intros c' Hc' Hnan. destruct (flt (class_score output i c') sc) eqn:E; [done|]. exfalso.
           pose proof (Hmax c' ltac:(lia)) as Hle. pose proof (flt_false_trans s (class_score output i c') sc Hnan Hle E) as Hf. unfold flt in Hf. by rewrite Hf in Egt.
    + split; [done|]. split.
      * intros c' Hc'. destruct (decide (c' = n)) as [->|]; [done|]. apply Hmax. lia.
      * destruct Hatt as [Hz|(Hm & Hrest)]; [by left|]. right. split; [lia|done].
  - exists s, c. split; [done|]. destruct Hatt as [[-> ->]|(Hc & Hrest)]; (constructor; [done||(unfold numClasses in *; lia)|done|done|]).
    + by left.
    + right. done.
Qed.
End Decoding.

(** ** What the output says *)

Definition box_of_candidate (output : list float32) (lb : Letterbox) (i : Z) : Box :=
  let row r := widen (element output (r * numDetections + i)) in frame_box lb (row 0) (row 1) (row 2) (row 3).

(** The candidate [i] is the detection [d]: the label and score of its best class, which
    reaches the threshold, and its box, as far as it covers the frame. *)
Definition decodes (output : list float32) (thr : float32) (lb : Letterbox) (w h i : Z) (d : Detection) : Prop :=
  0 <= i < numDetections /\ flt (d_Score d) thr = false /\ clampBox (box_of_candidate output lb i) w h = (d_Box d, true) /\
  exists c, best_of output i (d_Score d) c /\ d_Label d = label_of c.

Lemma best_of_unique output i s c s' c' : best_of output i s c -> best_of output i s' c' -> s = s' /\ c = c'.
Proof.
  intros [Hc Hn Hmax Hatt] [Hc' Hn' Hmax' Hatt']. unfold fgt in *.
  destruct Hatt as [[-> ->]|(Es & Hpos & Hfirst)], Hatt' as [[-> ->]|(Es' & Hpos' & Hfirst')]; [done| | |].
  - exfalso. subst s'. pose proof (Hmax c' Hc') as Hf. unfold fgt, flt in *. congruence.
  - exfalso. subst s. pose proof (Hmax' c Hc) as Hf. unfold fgt, flt in *. congruence.
  - destruct (Z.lt_trichotomy c c') as [Hlt|[->|Hlt]]; [|by subst|].
    + exfalso. pose proof (Hfirst' c ltac:(lia) ltac:(by rewrite <- Es)) as Hf. pose proof (Hmax c' Hc') as Hm.
      unfold fgt, flt in *. rewrite <- Es in Hf. rewrite <- Es' in Hm. congruence.
    + exfalso. pose proof (Hfirst c' ltac:(lia) ltac:(by rewrite <- Es')) as Hf. pose proof (Hmax' c Hc) as Hm.
      unfold fgt, flt in *. rewrite <- Es' in Hf. rewrite <- Es in Hm. congruence.
Qed.

Lemma decode_candidate_decodes output thr lb w h i :
  len output = yoloOutputSize -> 0 <= i < numDetections ->
  exists od, decode_candidate output thr lb w h i = Some od /\ forall d, od = Some d <-> decodes output thr lb w h i d.
Proof.
  intros Hlen Hi. destruct (best_class_is_best output i Hlen Hi) as (s & c & E & Hbest). unfold decode_candidate. rewrite E.
  cbn [mbind option_bind].
  destruct (flt s thr) eqn:Ethr.
  { exists None. split; [done|]. intros d. split; [done|]. intros (_ & Hthr & _ & c' & Hbest' & _).
    destruct (best_of_unique _ _ _ _ _ _ Hbest Hbest') as [-> _]. congruence. }
  rewrite !(row_in_output output i Hlen Hi) by (unfold numClasses; lia). cbn [mbind option_bind].
  change (frame_box lb _ _ _ _) with (box_of_candidate output lb i).
  destruct (clampBox (box_of_candidate output lb i) w h) as [box ok] eqn:Ebox. destruct ok; cbn [negb].
  - exists (Some (mkDetection (label_of c) s box)). split; [done|]. intros d. split.
    + intros [= <-]. split; [done|]. split; [done|]. split; [done|]. by exists c.
    + intros (_ & _ & Hbox & c' & Hbest' & Hlab). destruct (best_of_unique _ _ _ _ _ _ Hbest Hbest') as [Es ->].
      rewrite Ebox in Hbox. destruct d as [dl ds db]. cbn in *. injection Hbox as ->. by subst.
  - exists None. split; [done|]. intros d. split; [done|]. intros (_ & _ & Hbox & _). rewrite Ebox in Hbox. by injection Hbox.
Qed.

Lemma candidates_decoded output thr lb w h :
  len output = yoloOutputSize ->
  exists l, for_range 0 numDetections (fun i detections =>
      d ← decode_candidate output thr lb w h i; Some (detections ++ option_list d)) [] = Some l /\
    forall d, d ∈ l <-> exists i, decodes output thr lb w h i d.
Proof.
  intros Hlen.
  destruct (for_range_inv (fun n l => forall d, d ∈ l <-> exists i, i < n /\ decodes output thr lb w h i d) 0 numDetections
    (fun i detections => d ← decode_candidate output thr lb w h i; Some (detections ++ option_list d)) []) as (l & E & Hl); [done| | |].
  - intros d. split; [by intros []%elem_of_nil|]. intros (i & Hi & (Hi' & _)). lia.
  - intros n l Hn Hl. destruct (decode_candidate_decodes output thr lb w h n Hlen Hn) as (od & -> & Hod). cbn [mbind option_bind].
    eexists. split; [done|]. intros d. rewrite elem_of_app, Hl. split.
    + intros [(i & Hi & Hd)|Hd]; [exists i; split; [lia|done]|]. destruct od as [d'|]; [|by apply elem_of_nil in Hd].
      apply list_elem_of_singleton in Hd as ->. exists n. split; [lia|]. by apply Hod.
    + intros (i & Hi & Hd). destruct (decide (i = n)) as [->|]; [|left; exists i; split; [lia|done]].
      right. apply Hod in Hd as ->. by apply list_elem_of_singleton.
  - exists l. split; [done|]. intros d. rewrite Hl. split; [intros (i & _ & Hd); by exists i|]. intros (i & Hd).
    exists i. split; [apply Hd|done].
Qed.

(** ** Suppression of detections *)

Section Sorted.
Context (sort : list Detection -> list Detection) {Hsort : SortsScores d_Score sort}.

(** Detections by descending score of which none suppresses a later one. *)
Definition well_separated (thr : float64) (l : list Detection) : Prop :=
  Sorted.StronglySorted (fun a b => fgt (d_Score b) (d_Score a) = false /\ same_object thr a b = false) l.

Lemma StronglySorted_and {A} (R S : relation A) l :
  Sorted.StronglySorted R l -> Sorted.StronglySorted S l -> Sorted.StronglySorted (fun x y => R x y /\ S x y) l.
Proof.
  induction l as [|x l IH]; [constructor|]. intros [HR HRx]%Sorted.StronglySorted_inv [HS HSx]%Sorted.StronglySorted_inv.
  constructor; [by apply IH|]. rewrite Forall_forall in *. intros y Hy. split; [by apply HRx|by apply HSx].
Qed.

Lemma StronglySorted_sublist {A} (R : relation A) l k : l `sublist_of` k -> Sorted.StronglySorted R k -> Sorted.StronglySorted R l.
Proof.
  induction 1 as [|x l k Hs IH|x l k Hs IH]; [done| |]; intros [Hk Hx]%Sorted.StronglySorted_inv; [|by apply IH].
  constructor; [by apply IH|]. rewrite Forall_forall in *. intros y Hy. apply Hx. by eapply elem_of_sublist.
Qed.

Lemma nms_keeps_the_best dets thr :
  Forall (fun d => is_nan (d_Score d) = false) dets ->
  exists l, nms sort dets thr = Some l /\ l ⊆+ dets /\ well_separated thr l /\
    forall d, d ∈ dets -> d ∈ l \/ exists e, e ∈ l /\ fgt (d_Score d) (d_Score e) = false /\ same_object thr e d = true.
Proof using Hsort.
  intros Hnan. unfold nms. destruct dets as [|d0 dets]; [exists []; split; [done|]; split; [done|]; split; [constructor|set_solver]|].
  set (l := d0 :: dets) in *. rewrite suppression_greedy. eexists. split; [done|].
  pose proof (sort_sorted (score := d_Score) (sort := sort) l Hnan) as Hs. pose proof (sort_perm (score := d_Score) (sort := sort) l) as Hp.
  split; [|split].
  - rewrite <- Hp at 2. apply sublist_submseteq, greedy_sublist.
  - apply StronglySorted_and; [|apply greedy_apart]. eapply StronglySorted_sublist; [apply greedy_sublist|done].
  - intros d Hd. destruct (greedy_covers (same_object thr) _ [] (sort l) d Hs) as [H|(e & He & HR & Hsup)]; [by rewrite Hp|constructor|by left|].
    right. exists e. done.
Qed.

(** Decoding does not panic, whatever the output; one of the right size gives the best of
    its candidates. *)
Lemma processOutput_reports_the_best output thr lb w h :
  exists dets, processOutput sort output thr lb w h = Some dets /\ well_separated (f64_lit 1 2) dets /\
    (len output <> yoloOutputSize -> dets = []) /\
    (forall d, d ∈ dets -> exists i, decodes output thr lb w h i d) /\
    forall i d, len output = yoloOutputSize -> decodes output thr lb w h i d ->
      d ∈ dets \/ exists e, e ∈ dets /\ fgt (d_Score d) (d_Score e) = false /\ same_object (f64_lit 1 2) e d = true.
Proof using Hsort.
  unfold processOutput. destruct (Z.eqb_spec (len output) yoloOutputSize) as [Hlen|Hlen]; cbn [negb].
  - destruct (candidates_decoded output thr lb w h Hlen) as (l & -> & Hl). cbn [mbind option_bind].
    assert (Forall (fun d => is_nan (d_Score d) = false) l) as Hnan.
    { apply Forall_forall. intros d (i & _ & _ & _ & c & Hb & _)%Hl. apply (best_comparable _ _ _ _ Hb). }
    destruct (nms_keeps_the_best l (f64_lit 1 2) Hnan) as (dets & -> & Hsub & Hsep & Hcov). exists dets.
    split; [done|]. split; [done|]. split; [done|]. split; [intros d Hd; apply Hl; by eapply elem_of_submseteq|].
    intros i d _ Hd. apply Hcov, Hl. by exists i.
  - exists []. split; [done|]. split; [constructor|]. split; [done|]. split; [by intros d []%elem_of_nil|]. done.
Qed.

(** ** What the detector reports *)

(** A detection of a frame the detector may report. *)
Record reportable (d : Detector) (w h : Z) (det : Detection) : Prop := {
  rp_label : allowed d (d_Label det);
  rp_score : flt (d_Score det) (dt_ScoreThreshold d) = false;
  rp_width : Z.min 0 w <= bx1 (d_Box det) < bx2 (d_Box det) /\ bx2 (d_Box det) <= Z.max 0 w;
  rp_height : Z.min 0 h <= by1 (d_Box det) < by2 (d_Box det) /\ by2 (d_Box det) <= Z.max 0 h
}.

Lemma clampBox_inside b w h b' : clampBox b w h = (b', true) ->
  (Z.min 0 w <= bx1 b' < bx2 b' /\ bx2 b' <= Z.max 0 w) /\ Z.min 0 h <= by1 b' < by2 b' /\ by2 b' <= Z.max 0 h.
Proof using. unfold clampBox, clampBoxToRect. cbn. intros [= <- Hok]. cbn in *. apply andb_true_iff in Hok as [H1%Z.ltb_lt H2%Z.ltb_lt]. lia. Qed.

(** The backend answered for the frame with an output of the right size. *)
Definition answered (prepared : option (list float32 * Letterbox)) (run : Backend) (lb : Letterbox) (output : list float32) : Prop :=
  exists input, prepared = Some (input, lb) /\ run input = Some (Ok output) /\ len output = yoloOutputSize.

(** What is reported of a frame that was prepared so, by a detector whose backend is [run]:
    nothing unless the backend answers with an output of the right size; only candidates of
    that output, and only what it may report, by descending score and without overlaps; and
    each of its candidates with an allowed label, but for those that overlap, as the same
    label, one reported with a score at least as high. *)
Record reports (d : Detector) (prepared : option (list float32 * Letterbox)) (w h : Z) (run : Backend) (l : list Detection) : Prop := {
  rs_nothing : (forall lb output, ~ answered prepared run lb output) -> l = [];
  rs_sound det : det ∈ l -> exists lb output i, answered prepared run lb output /\ decodes output (dt_ScoreThreshold d) lb w h i det;
  rs_reportable : Forall (reportable d w h) l;
  rs_separated : well_separated (f64_lit 1 2) l;
  rs_complete lb output i det :
    answered prepared run lb output -> decodes output (dt_ScoreThreshold d) lb w h i det -> allowed d (d_Label det) ->
    det ∈ l \/ exists e, e ∈ l /\ fgt (d_Score det) (d_Score e) = false /\ same_object (f64_lit 1 2) e det = true
}.

Lemma elem_of_filterLabels d dets det : det ∈ filterLabels d dets <-> det ∈ dets /\ allowed d (d_Label det).
Proof using.
  unfold filterLabels. destruct (dt_labelAllowed d) eqn:E; [rewrite list_elem_of_filter; tauto|].
  assert (allowed d (d_Label det)) by (unfold allowed; by rewrite E). tauto.
Qed.

Lemma filterLabels_sublist d dets : filterLabels d dets `sublist_of` dets.
Proof using.
  unfold filterLabels. destruct (dt_labelAllowed d); [apply sublist_filter|done].
Qed.

Lemma reports_nothing d prepared w h run :
  (forall lb output, ~ answered prepared run lb output) -> reports d prepared w h run [].
Proof using.
  intros Hno. split; [done|by intros det []%elem_of_nil|constructor|constructor|]. intros lb output i det Ha. by destruct (Hno lb output).
Qed.

Lemma run_detector_reports d prepared w h run : reports d prepared w h run (run_detector sort d prepared w h run).
Proof using Hsort.
  unfold run_detector. destruct prepared as [[input lb]|]; [|apply reports_nothing; by intros ?? (? & ? & _)]. cbn [mbind option_bind].
  destruct (run input) as [[output|e]|] eqn:Erun; [|apply reports_nothing; intros ?? (? & [= <- <-] & ? & _); congruence..].
  cbn [mbind option_bind].
  destruct (processOutput_reports_the_best output (dt_ScoreThreshold d) lb w h) as (dets & -> & Hsep & Hsize & Hdec & Hcov).
  cbn [mbind option_bind default]. destruct (decide (len output = yoloOutputSize)) as [Hlen|Hlen].
  2: { rewrite (Hsize Hlen). replace (filterLabels d []) with (@nil Detection) by (unfold filterLabels; by destruct (dt_labelAllowed d)).
    apply reports_nothing. intros ?? (? & [= <- <-] & Er & ?). rewrite Erun in Er. by injection Er as <-. }
  assert (answered (Some (input, lb)) run lb output) as Ha by by exists input. split.
  - intros Hno. by destruct (Hno lb output).
  - intros det [(i & Hi)%Hdec _]%elem_of_filterLabels. by exists lb, output, i.
  - apply Forall_forall. intros det [Hin Hall]%elem_of_filterLabels.
    destruct (Hdec det Hin) as (i & _ & Hthr & Hbox & _). apply clampBox_inside in Hbox as [Hx Hy]. by constructor.
  - eapply StronglySorted_sublist; [apply filterLabels_sublist|done].
  - intros lb' output' i det (? & [= <- <-] & Erun' & _) Hdet Hall. rewrite Erun in Erun'. injection Erun' as <-.
    destruct (Hcov i det Hlen Hdet) as [Hin|(e & He & Hsc & Hso)]; [left; by apply elem_of_filterLabels|right].
    exists e. split; [|done]. apply elem_of_filterLabels. split; [done|]. unfold same_object in Hso.
    apply andb_true_iff in Hso as [->%String.eqb_eq _]. done.
Qed.

(** C13: the detector reports the best of what the model says.  Every detection it reports, of
    an image or of raw pixels, is a candidate of the model's output for that frame; it has
    an allowed label, a score that reaches the threshold and a box inside the frame that
    covers a pixel; they come by descending score, and none overlaps another of its label.
    Conversely every candidate of the output with an allowed label, whose best class
    reaches the threshold and whose box covers a pixel, is reported, or one of its label
    that overlaps it is, with a score at least as high.  An output of another size, an
    error or a panic of the preparation or the backend are answered with no detections; a
    disabled detector reports nothing, of any frame, and neither does one asked for its
    best effort while it is busy, or for no image. *)
Theorem detector_reports_the_best d run :
  (forall img bestEffort busy,
    let l := detectImage sort d img bestEffort busy run in
    (dt_enabled d = false \/ img = None \/ bestEffort = true /\ busy = true -> l = []) /\
    forall im, img = Some im -> dt_enabled d = true -> bestEffort = false \/ busy = false ->
      reports d (prepareInput im) (im_Dx im) (im_Dy im) run l) /\
  (forall data w h,
    let l := DetectRGB24 sort d data w h run in
    (dt_enabled d = false -> l = []) /\
    (dt_enabled d = true ->
      reports d (prepareInputFromRGB24Into (replicate (Z.to_nat (3 * modelInputSize * modelInputSize)) fzero) data w h) w h run l)).
Proof using Hsort.
  split.
  - intros img bestEffort busy. cbn zeta. unfold detectImage. split.
    + intros [-> | [-> | [-> ->]]]; [by destruct img|done|]. destruct img; [|done]. by rewrite orb_true_r.
    + intros im -> -> Hfree. assert (bestEffort && busy = false) as -> by (apply andb_false_iff; done). apply run_detector_reports.
  - intros data w h. cbn zeta. unfold DetectRGB24. split; intros ->; cbn [negb]; [done|apply run_detector_reports].
Qed.
End Sorted.

(** ** One frame *)

(** A sort by descending score. *)
Definition by_score (a b : Detection) : Prop := rank_le (f64_rank (d_Score b)) (f64_rank (d_Score a)).

#[export] Instance by_score_dec : RelDecision by_score.
Proof. intros a b. unfold by_score. apply _. Defined.

#[export] Instance by_score_total : Total by_score.
Proof. intros a b. apply rank_le_total. Qed.

#[export] Instance by_score_trans : Transitive by_score.
Proof. intros a b c. unfold by_score. intros. by eapply rank_le_trans. Qed.

Definition best_first : list Detection -> list Detection := merge_sort by_score.

#[export] Instance best_first_sorts : SortsScores d_Score best_first.
Proof.
  split.
  - intros l. apply merge_sort_Permutation.
  - intros l Hl. eapply StronglySorted_weaken, StronglySorted_merge_sort; [|apply _..].
    intros a b. unfold best_first. autorewrite with vedetta. rewrite Forall_forall in Hl. intros Ha%Hl Hb%Hl H.
    unfold fgt. by apply flt_rank.
Qed.

(** A person, the same person a little to the side, and a cat in the same place. *)
Definition three_boxes : list Detection :=
  [mkDetection "person" (f32_lit 7 10) (mkBox 12 10 52 90); mkDetection "cat" (f32_lit 6 10) (mkBox 12 10 52 90);
   mkDetection "person" (f32_lit 9 10) (mkBox 10 10 50 90)]%string.

Example nms_of_three_boxes :
  nms best_first three_boxes (f64_lit 1 2) =
  Some [mkDetection "person" (f32_lit 9 10) (mkBox 10 10 50 90); mkDetection "cat" (f32_lit 6 10) (mkBox 12 10 52 90)]%string.
Proof. vm_compute. reflexivity. Qed.

Definition cats_only : Detector := SetLabels ["cat"%string] {| dt_enabled := true; dt_ScoreThreshold := f32_lit 1 4; dt_labelAllowed := None |}.

Lemma set_in_range {A} (l : list A) i v : 0 <= i < len l -> exists l', set l i v = Some l' /\ len l' = len l.
Proof. intros Hi. pose proof (set_Some l i v Hi) as E. eexists. split; [exact E|]. by eapply set_len. Qed.

(** The preparation of a frame that has all its bytes, and lies in the input. *)
Lemma prepare_succeeds depth buf pix w h :
  let lb := letterbox w h in
  3 <= depth -> len buf = 3 * modelInputSize * modelInputSize -> depth * (w * h) <= len pix ->
  0 <= lb_newW lb -> 0 <= lb_padX lb -> lb_padX lb + lb_newW lb <= modelInputSize ->
  0 <= lb_newH lb -> 0 <= lb_padY lb -> lb_padY lb + lb_newH lb <= modelInputSize ->
  (forall x, 0 <= x < lb_newW lb -> 0 <= source_index (lb_scale lb) x w < w) ->
  (forall y, 0 <= y < lb_newH lb -> 0 <= source_index (lb_scale lb) y h < h) ->
  exists buf', prepare depth buf pix w h = Some (buf', lb).
Proof.
  intros lb Hd Hbuf Hpix Hw Hpx Hfx Hh Hpy Hfy Hsx Hsy. unfold prepare. fold lb. cbv zeta.
  unfold modelInputSize in *.
  match goal with |- context [for_range 0 (lb_newH lb) ?body ?s] =>
    destruct (for_range_inv (fun _ b => len b = 3 * 640 * 640) 0 (lb_newH lb) body s) as (buf' & -> & _) end; [done| | |by eexists].
  { unfold len in *. rewrite length_replicate. done. }
  intros y b Hy Hb. specialize (Hsy y Hy).
  apply (for_range_inv (fun _ b => len b = 3 * 640 * 640)); [done|done|]. intros x b' Hx Hb'. specialize (Hsx x Hx).
  set (sx := source_index (lb_scale lb) x w) in *. set (sy := source_index (lb_scale lb) y h) in *.
  assert (0 <= (sy * w + sx) * depth /\ (sy * w + sx) * depth + 2 < len pix) as [Hlo Hhi].
  { assert (0 <= sy * w + sx <= w * h - 1) as [? ?] by nia. split; [nia|]. nia. }
  destruct (get_is_Some pix ((sy * w + sx) * depth + 0) ltac:(lia)) as [r ->].
  destruct (get_is_Some pix ((sy * w + sx) * depth + 1) ltac:(lia)) as [g ->].
  destruct (get_is_Some pix ((sy * w + sx) * depth + 2) ltac:(lia)) as [bl ->]. cbn [mbind option_bind].
  set (dst := (y + lb_padY lb) * 640 + (x + lb_padX lb)). assert (0 <= dst < 640 * 640) as Hdst by (unfold dst; nia).
  destruct (set_in_range b' (0 * (640 * 640) + dst) (unit_pixel r)) as (b1 & -> & L1); [lia|]. cbn [mbind option_bind].
  destruct (set_in_range b1 (1 * (640 * 640) + dst) (unit_pixel g)) as (b2 & -> & L2); [lia|]. cbn [mbind option_bind].
  destruct (set_in_range b2 (2 * (640 * 640) + dst) (unit_pixel bl)) as (b3 & -> & L3); [lia|]. exists b3. split; [done|]. lia.
Qed.

(** An output in which the first candidate is a cat that fills the input, and no other candidate has a score. *)
Definition cat_score : float32 := f32_lit 9 10.
Definition one_cat_at (k : Z) : float32 :=
  if k =? 0 * numDetections then f32_of_Z 320 else if k =? 1 * numDetections then f32_of_Z 320
  else if k =? 2 * numDetections then f32_of_Z 640 else if k =? 3 * numDetections then f32_of_Z 640
  else if k =? (4 + 15) * numDetections then cat_score else fzero.
Definition one_cat : list float32 := one_cat_at <$> seqZ 0 yoloOutputSize.
Definition two_by_two : list Z := [9; 9; 9; 9; 9; 9; 9; 9; 9; 9; 9; 9].

Lemma two_by_two_prepared buf : len buf = 3 * modelInputSize * modelInputSize ->
  exists input, prepareInputFromRGB24Into buf two_by_two 2 2 = Some (input, letterbox 2 2).
Proof.
  intros Hbuf. unfold prepareInputFromRGB24Into.
  assert (forall x, 0 <= x < lb_newW (letterbox 2 2) -> 0 <= source_index (lb_scale (letterbox 2 2)) x 2 < 2) as Hs.
  { assert (forallb (fun x => let s := source_index (lb_scale (letterbox 2 2)) x 2 in (0 <=? s) && (s <? 2)) (seqZ 0 640) = true) as Hall
      by (vm_compute; reflexivity).
    intros x Hx. rewrite forallb_forall in Hall. specialize (Hall x ltac:(apply list_elem_of_In, elem_of_seqZ; exact Hx)).
    cbn zeta in Hall. apply andb_true_iff in Hall as [?%Z.leb_le ?%Z.ltb_lt]. lia. }
  apply prepare_succeeds; [lia|done|done|vm_compute; discriminate..|exact Hs|exact Hs].
Qed.

Lemma one_cat_element k : 0 <= k < yoloOutputSize -> element one_cat k = one_cat_at k.
Proof.
  intros Hk. unfold element, one_cat, get. destruct (Z.leb_spec 0 k); [|lia]. rewrite list_lookup_fmap, lookup_seqZ_lt by lia. cbn [fmap option_fmap option_map default]. unfold Datatypes.id. f_equal. lia.
Qed.

Lemma one_cat_decodes : decodes one_cat (f32_lit 1 4) (letterbox 2 2) 2 2 0 (mkDetection "cat" cat_score (mkBox 0 0 2 2)).
Proof.
  assert (forall c, 0 <= c < numClasses -> class_score one_cat 0 c = if c =? 15 then cat_score else fzero) as Hclass.
  { intros c Hc. unfold class_score. rewrite one_cat_element by (unfold yoloOutputSize, numClasses, numDetections in *; lia).
    unfold one_cat_at, numDetections, numClasses in *. repeat match goal with |- context [?a =? ?b] => destruct (Z.eqb_spec a b) end; try done; lia. }
  split; [unfold numDetections; lia|]. split; [vm_compute; reflexivity|]. split.
  - unfold box_of_candidate. rewrite !one_cat_element by (unfold yoloOutputSize, numClasses, numDetections; lia). vm_compute. reflexivity.
  - exists 15. split; [|reflexivity]. split; [unfold numClasses; lia|vm_compute; reflexivity| |right].
    + intros c Hc. rewrite Hclass by done. destruct (c =? 15); vm_compute; reflexivity.
    + split; [by rewrite Hclass by (unfold numClasses; lia)|]. split; [vm_compute; reflexivity|].
      intros c Hc _. rewrite Hclass by (unfold numClasses; lia). destruct (Z.eqb_spec c 15); [lia|]. vm_compute. reflexivity.
Qed.

(** A cat in a frame of two by two pixels: the frame is prepared, the backend answers, and a
    cat is reported; a detector that is disabled reports nothing of the same frame. *)
Lemma detector_reports_the_best_witness :
  let run : Backend := fun _ => Some (Ok one_cat) in
  (exists det, det ∈ DetectRGB24 best_first cats_only two_by_two 2 2 run /\ d_Label det = "cat"%string) /\
  DetectRGB24 best_first {| dt_enabled := false; dt_ScoreThreshold := f32_lit 1 4; dt_labelAllowed := None |} two_by_two 2 2 run = [].
Proof.
  intros run. split.
  2: exact (proj1 (proj2 (detector_reports_the_best best_first {| dt_enabled := false; dt_ScoreThreshold := f32_lit 1 4; dt_labelAllowed := None |} run) two_by_two 2 2) eq_refl).
  destruct (two_by_two_prepared (replicate (Z.to_nat (3 * modelInputSize * modelInputSize)) fzero)) as [input Hin].
  { unfold len. rewrite length_replicate, Z2Nat.id; [reflexivity|]. unfold modelInputSize. lia. }
  destruct (proj2 (detector_reports_the_best best_first cats_only run) two_by_two 2 2) as [_ Hrep]. cbn zeta in Hrep.
  rewrite Hin in Hrep. specialize (Hrep eq_refl).
  assert (answered (Some (input, letterbox 2 2)) run (letterbox 2 2) one_cat) as Ha.
  { exists input. split; [reflexivity|]. split; [reflexivity|]. unfold len, one_cat. rewrite length_fmap, length_seqZ, Z2Nat.id; [reflexivity|].
    unfold yoloOutputSize, numClasses, numDetections. lia. }
  destruct (rs_complete _ _ _ _ _ _ Hrep _ _ _ _ Ha one_cat_decodes) as [Hd|(e & He & _ & Hso)].
  - unfold allowed. cbn. set_solver.
  - eexists. split; [exact Hd|reflexivity].
  - exists e. split; [exact He|]. unfold same_object in Hso. apply andb_true_iff in Hso as [Hl _]. by apply String.eqb_eq in Hl.
Defined.
