(* ===== verification/Identities.v ===== *)
(** Who and what was seen: the tables of people and faces ([storage/db_faces.go]) and of
    known objects, their references and sightings ([storage/db_objects.go]), the matching
    of embeddings ([reid/reid.go], [detect/matching.go], [detect/face.go]) and what the
    event processor does with a recognized face or object ([event/recognition.go],
    [handleFaces] of [event/processor.go]), with the merge of two people
    ([api/handler_people.go]).

    A table is a map from its AUTOINCREMENT ids, which are never reused; a foreign key is
    checked, or applied, by the statement that would break it.  Float operations are not
    fused. *)

From Stdlib Require Import SpecFloat.
From S2P Require Import Prelude Float64 GoStrings GoSlices CameraEvent OnnxProto OnnxModel OnnxTensor OnnxEncode.

#[local] Open Scope list_scope.

(** ** Embeddings *)

(** [Float32ToBytes] and [BytesToFloat32]. *)
Definition Float32ToBytes (f : list float32) : bytes := enc_floats 4 Float32bits f.

Definition BytesToFloat32 (b : bytes) : list float32 :=
  if negb (Z.rem (len b) 4 =? 0) then [] else default [] (readPackedFloat32 b).

(** [CosineSimilarity]. *)
Definition CosineSimilarity (a b : list float32) : float64 :=
  if negb (len a =? len b) then fzero
  else foldl (fun dot '(x, y) => fadd dot (fmul (widen x) (widen y))) fzero (zip a b).

Definition sum_squares (v : list float32) : float64 := foldl (fun n x => fadd n (fmul (widen x) (widen x))) fzero v.

(** [normalize]: to unit length, unless the squared norm is next to nothing. *)
Definition normalize (v : list float32) (norm : float64) : list float32 :=
  if fgt norm (f64_lit 1 10000000000)
  then let invNorm := narrow (fdiv (f64_of_Z 1) (fsqrt norm)) in (fun x => mul32 x invNorm) <$> v
  else v.

(** [l2Normalize]: the same by the norm itself. *)
Definition l2Normalize (v : list float32) : list float32 :=
  let norm := fsqrt (sum_squares v) in
  if flt norm (f64_lit 1 10000000000) then v
  else let invNorm := narrow (fdiv (f64_of_Z 1) norm) in (fun x => mul32 x invNorm) <$> v.

Definition FaceClusterThreshold : float64 := f64_lit 62 100.
Definition PersonCentroidUpdateWeight : float32 := f32_lit 3 10.

Definition BlendCentroid (old new : list float32) (alpha : float32) : list float32 :=
  if (len old =? 0) || negb (len old =? len new) then new else
  let merged := zip_with (fun o n => add32 (mul32 (sub32 (f32_of_Z 1) alpha) o) (mul32 alpha n)) old new in
  normalize merged (sum_squares merged).

Definition AverageNormalized (a b : list float32) : list float32 :=
  if negb (len a =? len b) then a else
  let out := zip_with (fun x y => div32 (add32 x y) (f32_of_Z 2)) a b in
  normalize out (sum_squares out).

Record Candidate := { ca_ID : Z; ca_Centroid : list float32; ca_Ignore : bool; ca_Threshold : float64 }.

Definition effective_threshold (c : Candidate) (threshold : float64) : float64 :=
  if fgt (ca_Threshold c) fzero then ca_Threshold c else threshold.

(** One turn of [BestMatch]. *)
Definition match_turn (embedding : list float32) (threshold : float64) (best : Z * float64) (c : Candidate) : Z * float64 :=
  if ca_Ignore c || (len (ca_Centroid c) =? 0) then best else
  let sim := CosineSimilarity embedding (ca_Centroid c) in
  if fge sim (effective_threshold c threshold) && fgt sim best.2 then (ca_ID c, sim) else best.

Definition BestMatch (embedding : list float32) (candidates : list Candidate) (threshold : float64) : Z * float64 :=
  foldl (match_turn embedding threshold) (0, fzero) candidates.

(** ** The tables *)

Record Person := mkPerson { pe_Name : string; pe_Ignore : bool; pe_Centroid : bytes; pe_SourceEventID : option string }.

Record Face := mkFace {
  fc_EventID : option string; fc_Camera : string; fc_PersonID : option Z; fc_Embedding : bytes; fc_CropPath : option string;
  fc_Confidence : float64; fc_Similarity : option float64; fc_Timestamp : Z
}.

Record KnownObject := mkKnownObject {
  ko_Name : string; ko_Label : string; ko_Centroid : bytes; ko_CropPath : option string; ko_MatchThreshold : option float64
}.

Record ObjectSighting := mkSighting { si_EventID : option string; si_Camera : string; si_ObjectID : Z; si_Similarity : float64; si_Timestamp : Z }.

Record ObjectReference := mkReference { re_ObjectID : Z; re_EventID : option string; re_Embedding : bytes; re_CropPath : option string }.

(** Each table with the next id it gives; of the events, the rows the statements read and
    write. *)
Record DB := mkDB {
  people : gmap Z Person; next_person : Z;
  faces : gmap Z Face; next_face : Z;
  known_objects : gmap Z KnownObject; next_object : Z;
  object_sightings : gmap Z ObjectSighting; next_sighting : Z;
  object_references : gmap Z ObjectReference; next_reference : Z;
  events : gmap string Event
}.

Definition set_people (m : gmap Z Person) (db : DB) : DB :=
  mkDB m (next_person db) (faces db) (next_face db) (known_objects db) (next_object db) (object_sightings db) (next_sighting db)
    (object_references db) (next_reference db) (events db).
Definition set_faces (m : gmap Z Face) (db : DB) : DB :=
  mkDB (people db) (next_person db) m (next_face db) (known_objects db) (next_object db) (object_sightings db) (next_sighting db)
    (object_references db) (next_reference db) (events db).
Definition set_objects (m : gmap Z KnownObject) (db : DB) : DB :=
  mkDB (people db) (next_person db) (faces db) (next_face db) m (next_object db) (object_sightings db) (next_sighting db)
    (object_references db) (next_reference db) (events db).
Definition set_sightings (m : gmap Z ObjectSighting) (db : DB) : DB :=
  mkDB (people db) (next_person db) (faces db) (next_face db) (known_objects db) (next_object db) m (next_sighting db)
    (object_references db) (next_reference db) (events db).
Definition set_references (m : gmap Z ObjectReference) (db : DB) : DB :=
  mkDB (people db) (next_person db) (faces db) (next_face db) (known_objects db) (next_object db) (object_sightings db) (next_sighting db)
    m (next_reference db) (events db).
Definition set_events (m : gmap string Event) (db : DB) : DB :=
  mkDB (people db) (next_person db) (faces db) (next_face db) (known_objects db) (next_object db) (object_sightings db) (next_sighting db)
    (object_references db) (next_reference db) m.

Definition nullString (s : string) : option string := if String.eqb s "" then None else Some s.

Definition foreign_key {A} : result string A := Err "FOREIGN KEY constraint failed"%string.
Definition full {A} : result string A := Err "database or disk is full"%string.

(** A reference that is null or names a row. *)
Definition refers {K A} `{Countable K} (m : gmap K A) (r : option K) : Prop :=
  match r with None => True | Some k => is_Some (m !! k) end.

#[global] Instance refers_dec {K A} `{Countable K} (m : gmap K A) (r : option K) : Decision (refers m r).
Proof. unfold refers. destruct r; apply _. Defined.

(** *** People *)

Definition SavePersonWithEvent (name : string) (ignore : bool) (centroid : bytes) (sourceEventID : string) (db : DB) : result string (Z * DB) :=
  if max_int64 <? next_person db then full else
  let p := mkPerson name ignore centroid (nullString sourceEventID) in
  Ok (next_person db,
    mkDB (<[next_person db := p]> (people db)) (next_person db + 1) (faces db) (next_face db) (known_objects db) (next_object db)
      (object_sightings db) (next_sighting db) (object_references db) (next_reference db) (events db)).

Definition SavePerson (name : string) (ignore : bool) (centroid : bytes) (db : DB) : result string (Z * DB) :=
  SavePersonWithEvent name ignore centroid "" db.

Definition GetPerson (id : Z) (db : DB) : option Person := people db !! id.

(** An [UPDATE ... WHERE id = ?] of the people. *)
Definition update_person (id : Z) (f : Person -> Person) (db : DB) : DB := set_people (alter f id (people db)) db.

Definition UpdatePersonCentroid (id : Z) (centroid : bytes) : DB -> DB :=
  update_person id (fun p => mkPerson (pe_Name p) (pe_Ignore p) centroid (pe_SourceEventID p)).
Definition UpdatePersonName (id : Z) (name : string) : DB -> DB :=
  update_person id (fun p => mkPerson name (pe_Ignore p) (pe_Centroid p) (pe_SourceEventID p)).
Definition SetPersonIgnore (id : Z) (ignore : bool) : DB -> DB :=
  update_person id (fun p => mkPerson (pe_Name p) ignore (pe_Centroid p) (pe_SourceEventID p)).

Definition with_person (p : option Z) (f : Face) : Face :=
  mkFace (fc_EventID f) (fc_Camera f) p (fc_Embedding f) (fc_CropPath f) (fc_Confidence f) (fc_Similarity f) (fc_Timestamp f).

(** [DELETE FROM people WHERE id = ?], with the references the schema sets to null. *)
Definition DeletePerson (id : Z) (db : DB) : DB :=
  set_faces ((fun f => if bool_decide (fc_PersonID f = Some id) then with_person None f else f) <$> faces db)
    (set_people (delete id (people db)) db).

Definition faces_of (id : Z) (db : DB) : gmap Z Face := filter (fun kf => fc_PersonID kf.2 = Some id) (faces db).

(** [UPDATE faces SET person_id = ? WHERE person_id = ?]. *)
Definition reassign_faces (targetID sourceID : Z) (db : DB) : result string DB :=
  if bool_decide (is_Some (people db !! targetID)) || bool_decide (faces_of sourceID db = ∅) then
    Ok (set_faces ((fun f => if bool_decide (fc_PersonID f = Some sourceID) then with_person (Some targetID) f else f) <$> faces db) db)
  else foreign_key.

(** One transaction: the faces change hands, then the source goes. *)
Definition MergePeople (targetID sourceID : Z) (db : DB) : result string DB :=
  match reassign_faces targetID sourceID db with
  | Err e => Err e
  | Ok db => Ok (DeletePerson sourceID db)
  end.

(** *** Faces *)

Definition SaveFace (face : Face) (db : DB) : result string (Z * DB) :=
  if negb (bool_decide (refers (events db) (fc_EventID face))) || negb (bool_decide (refers (people db) (fc_PersonID face))) then foreign_key
  else if max_int64 <? next_face db then full
  else Ok (next_face db,
    mkDB (people db) (next_person db) (<[next_face db := face]> (faces db)) (next_face db + 1) (known_objects db) (next_object db)
      (object_sightings db) (next_sighting db) (object_references db) (next_reference db) (events db)).

Definition assigned (personID : Z) (similarity : float64) (f : Face) : Face :=
  mkFace (fc_EventID f) (fc_Camera f) (Some personID) (fc_Embedding f) (fc_CropPath f) (fc_Confidence f) (Some similarity) (fc_Timestamp f).

Definition UpdateFacePerson (faceID personID : Z) (similarity : float64) (db : DB) : result string DB :=
  if bool_decide (is_Some (faces db !! faceID)) && negb (bool_decide (is_Some (people db !! personID))) then foreign_key
  else Ok (set_faces (alter (assigned personID similarity) faceID (faces db)) db).

Definition DeleteFace (id : Z) (db : DB) : DB := set_faces (delete id (faces db)) db.

(** The faces before the cutoff go, and those of events before it. *)
Definition DeleteFacesOlderThan (cutoff : Z) (db : DB) : DB :=
  let old_event e := match events db !! e with Some ev => Timestamp ev <? cutoff | None => false end in
  set_faces (filter (fun kf => ~ (fc_Timestamp kf.2 < cutoff \/ from_option old_event false (fc_EventID kf.2) = true)) (faces db)) db.

(** *** Known objects *)

Definition SaveKnownObject (obj : KnownObject) (db : DB) : result string (Z * DB) :=
  if max_int64 <? next_object db then full else
  let obj := mkKnownObject (ko_Name obj) (ko_Label obj) (ko_Centroid obj) (ko_CropPath obj) None in
  Ok (next_object db,
    mkDB (people db) (next_person db) (faces db) (next_face db) (<[next_object db := obj]> (known_objects db)) (next_object db + 1)
      (object_sightings db) (next_sighting db) (object_references db) (next_reference db) (events db)).

Definition update_object (id : Z) (f : KnownObject -> KnownObject) (db : DB) : DB := set_objects (alter f id (known_objects db)) db.

Definition UpdateKnownObjectCrop (id : Z) (cropPath : string) : DB -> DB :=
  update_object id (fun o => mkKnownObject (ko_Name o) (ko_Label o) (ko_Centroid o) (Some cropPath) (ko_MatchThreshold o)).
Definition UpdateKnownObjectName (id : Z) (name : string) : DB -> DB :=
  update_object id (fun o => mkKnownObject name (ko_Label o) (ko_Centroid o) (ko_CropPath o) (ko_MatchThreshold o)).
Definition UpdateKnownObjectThreshold (id : Z) (threshold : option float64) : DB -> DB :=
  update_object id (fun o => mkKnownObject (ko_Name o) (ko_Label o) (ko_Centroid o) (ko_CropPath o) threshold).
Definition UpdateKnownObjectCentroid (id : Z) (centroid : bytes) : DB -> DB :=
  update_object id (fun o => mkKnownObject (ko_Name o) (ko_Label o) centroid (ko_CropPath o) (ko_MatchThreshold o)).

(** With the sightings and references that cascade. *)
Definition DeleteKnownObject (id : Z) (db : DB) : DB :=
  set_references (filter (fun kr => re_ObjectID kr.2 <> id) (object_references db))
    (set_sightings (filter (fun ks => si_ObjectID ks.2 <> id) (object_sightings db))
      (set_objects (delete id (known_objects db)) db)).

Definition insert_sighting (s : ObjectSighting) (db : DB) : result string (Z * DB) :=
  if negb (bool_decide (refers (events db) (si_EventID s))) || negb (bool_decide (is_Some (known_objects db !! si_ObjectID s))) then foreign_key
  else if max_int64 <? next_sighting db then full
  else Ok (next_sighting db,
    mkDB (people db) (next_person db) (faces db) (next_face db) (known_objects db) (next_object db)
      (<[next_sighting db := s]> (object_sightings db)) (next_sighting db + 1) (object_references db) (next_reference db) (events db)).

Definition SaveObjectSighting (eventID camera : string) (objectID : Z) (similarity : float64) (timestamp : Z) (db : DB) : result string (Z * DB) :=
  let eventID := TrimSpace eventID in
  if String.eqb eventID "" then Err "object sighting event_id is required"%string
  else if bool_decide (events db !! eventID = None) then Err "object sighting source event not found"%string
  else insert_sighting (mkSighting (Some eventID) camera objectID similarity timestamp) db.

Definition with_names (name : string) (ev : Event) : Event :=
  mkEvent (ID ev) (CameraName ev) (Label ev) (Score ev) (TrackID ev) (Box ev) (Timestamp ev) (EndTime ev) (SnapshotPath ev)
    (SnapshotAvailable ev) (ClipPath ev) (ClipAvailable ev) (ZoneName ev) name name (Kind ev) (AnsweredAt ev) (AnsweredBy ev) (Category ev).

Definition with_sub_label (name : string) (ev : Event) : Event :=
  mkEvent (ID ev) (CameraName ev) (Label ev) (Score ev) (TrackID ev) (Box ev) (Timestamp ev) (EndTime ev) (SnapshotPath ev)
    (SnapshotAvailable ev) (ClipPath ev) (ClipAvailable ev) (ZoneName ev) (ObjectName ev) name (Kind ev) (AnsweredAt ev) (AnsweredBy ev) (Category ev).

Definition with_object_name (name : string) (ev : Event) : Event :=
  mkEvent (ID ev) (CameraName ev) (Label ev) (Score ev) (TrackID ev) (Box ev) (Timestamp ev) (EndTime ev) (SnapshotPath ev)
    (SnapshotAvailable ev) (ClipPath ev) (ClipAvailable ev) (ZoneName ev) name (SubLabel ev) (Kind ev) (AnsweredAt ev) (AnsweredBy ev) (Category ev).

(** One transaction: the event takes the name of the object, and the sighting is kept. *)
Definition SaveObjectRecognition (eventID camera : string) (objectID : Z) (objectName : string) (similarity : float64) (timestamp : Z)
    (db : DB) : result string (Z * DB) :=
  let eventID := TrimSpace eventID in
  if String.eqb eventID "" then Err "object recognition event_id is required"%string
  else if bool_decide (events db !! eventID = None) then Err "object recognition source event not found"%string
  else insert_sighting (mkSighting (Some eventID) camera objectID similarity timestamp)
    (set_events (alter (with_names objectName) eventID (events db)) db).

Definition DeleteObjectSighting (id : Z) (db : DB) : DB := set_sightings (delete id (object_sightings db)) db.

Definition SaveObjectReference (r : ObjectReference) (db : DB) : result string (Z * DB) :=
  if negb (bool_decide (is_Some (known_objects db !! re_ObjectID r))) then foreign_key
  else if max_int64 <? next_reference db then full
  else Ok (next_reference db,
    mkDB (people db) (next_person db) (faces db) (next_face db) (known_objects db) (next_object db) (object_sightings db) (next_sighting db)
      (<[next_reference db := r]> (object_references db)) (next_reference db + 1) (events db)).

Definition DeleteObjectReference (id : Z) (db : DB) : DB := set_references (delete id (object_references db)) db.

Definition CountObjectReferences (objectID : Z) (db : DB) : nat :=
  size (filter (fun kr => re_ObjectID kr.2 = objectID) (object_references db)).

(** *** Events *)

Definition update_event (id : string) (f : Event -> Event) (db : DB) : DB := set_events (alter f id (events db)) db.

Definition UpdateEventObjectName (eventID objectName : string) : DB -> DB := update_event eventID (with_object_name objectName).
Definition UpdateEventSubLabel (eventID subLabel : string) : DB -> DB := update_event eventID (with_sub_label subLabel).

(** Every event in which a face of the person was seen takes the name. *)
Definition UpdateSubLabelsForPerson (personID : Z) (name : string) (db : DB) : DB :=
  let seen (id : string) := map_Exists (fun _ f => fc_PersonID f = Some personID /\ fc_EventID f = Some id) (faces db) in
  set_events (map_imap (fun id ev => Some (if bool_decide (seen id /\ id <> ""%string) then with_sub_label name ev else ev)) (events db)) db.

(** An event of the store appears, or goes, leaving null where it was referred to. *)
Definition event_saved (id : string) (ev : Event) (db : DB) : DB := set_events (<[id := ev]> (events db)) db.

Definition forget_event (id : string) (r : option string) : option string := if bool_decide (r = Some id) then None else r.

Definition event_deleted (id : string) (db : DB) : DB :=
  set_sightings ((fun s => mkSighting (forget_event id (si_EventID s)) (si_Camera s) (si_ObjectID s) (si_Similarity s) (si_Timestamp s)) <$> object_sightings db)
    (set_faces ((fun f => mkFace (forget_event id (fc_EventID f)) (fc_Camera f) (fc_PersonID f) (fc_Embedding f) (fc_CropPath f) (fc_Confidence f)
                   (fc_Similarity f) (fc_Timestamp f)) <$> faces db)
      (set_events (delete id (events db)) db)).

(** ** Recognition *)

(** The orders of the listings: by name, and the newest first; rows that tie come in an
    order of the database's own. *)
Class RowOrder := {
  by_name : list (Z * Person) -> list (Z * Person);
  by_object_name : list (Z * KnownObject) -> list (Z * KnownObject);
  newest_first : list (Z * Face) -> list (Z * Face);
  by_name_perm l : by_name l ≡ₚ l;
  by_name_sorted l : Sorted.StronglySorted (fun a b => String.le (pe_Name a.2) (pe_Name b.2)) (by_name l);
  by_object_name_perm l : by_object_name l ≡ₚ l;
  by_object_name_sorted l : Sorted.StronglySorted (fun a b => String.le (ko_Name a.2) (ko_Name b.2)) (by_object_name l);
  newest_first_perm l : newest_first l ≡ₚ l;
  newest_first_sorted l : Sorted.StronglySorted (fun a b => fc_Timestamp b.2 <= fc_Timestamp a.2) (newest_first l)
}.

Section Recognition.
Context {Rows : RowOrder}.

Definition ListPeople (db : DB) : list (Z * Person) := by_name (map_to_list (people db)).

(** [LIMIT ?] of a positive limit. *)
Definition limited {A} (limit : nat) (l : list A) : list A := match limit with O => l | _ => take limit l end.

Definition ListFacesByPerson (personID : Z) (limit : nat) (db : DB) : list (Z * Face) :=
  limited limit (newest_first (map_to_list (faces_of personID db))).

Definition ListUnmatchedFaces (limit : nat) (db : DB) : list (Z * Face) :=
  limited limit (newest_first (map_to_list (filter (fun kf => fc_PersonID kf.2 = None) (faces db)))).

Definition ListKnownObjectsByLabel (label : string) (db : DB) : list (Z * KnownObject) :=
  by_object_name (map_to_list (filter (fun ko => ko_Label ko.2 = label) (known_objects db))).

Definition person_candidate (ip : Z * Person) : Candidate :=
  {| ca_ID := ip.1; ca_Centroid := BytesToFloat32 (pe_Centroid ip.2); ca_Ignore := pe_Ignore ip.2; ca_Threshold := fzero |}.

Definition matchFaceToPerson (matchThreshold : float64) (embedding : list float32) (db : DB) : Z * float64 :=
  BestMatch embedding (person_candidate <$> ListPeople db) matchThreshold.

Definition updatePersonCentroid (personID : Z) (embedding : list float32) (db : DB) : DB :=
  match GetPerson personID db with
  | None => db
  | Some p =>
      UpdatePersonCentroid personID (Float32ToBytes (BlendCentroid (BytesToFloat32 (pe_Centroid p)) embedding PersonCentroidUpdateWeight)) db
  end.

Definition face_candidate (newFaceID : Z) (jf : Z * Face) : list Candidate :=
  let other := BytesToFloat32 (fc_Embedding jf.2) in
  if (jf.1 =? newFaceID) || (len other =? 0) then []
  else [{| ca_ID := jf.1; ca_Centroid := other; ca_Ignore := false; ca_Threshold := fzero |}].

(** An error of an update that is ignored leaves the rows as they were. *)
Definition ignored {E} (r : result E DB) (db : DB) : DB := match r with Ok db' => db' | Err _ => db end.

Definition clusterUnmatchedFace (newFaceID : Z) (embedding : list float32) (db : DB) : DB :=
  let unmatched := ListUnmatchedFaces 200 db in
  let '(bestID, bestSimilarity) := BestMatch embedding (unmatched ≫= face_candidate newFaceID) FaceClusterThreshold in
  if bestID =? 0 then db else
  match List.find (fun jf => jf.1 =? bestID) unmatched with
  | None => db
  | Some (_, bestFace) =>
      let centroid := AverageNormalized embedding (BytesToFloat32 (fc_Embedding bestFace)) in
      match SavePerson "" false (Float32ToBytes centroid) db with
      | Err _ => db
      | Ok (personID, db) =>
          let db := ignored (UpdateFacePerson bestID personID bestSimilarity db) db in
          ignored (UpdateFacePerson newFaceID personID (f64_of_Z 1) db) db
      end
  end.

(** What the recognizer found of one face. *)
Record FaceResult := mkFaceResult { fr_Embedding : list float32; fr_CropPath : string; fr_Confidence : float32 }.

(** One turn of [handleFaces] at the instant [now]. *)
Definition handle_face (matchThreshold : float64) (eventID camera : string) (result : FaceResult) (now : Z) (db : DB) : DB :=
  let '(personID, similarity) := matchFaceToPerson matchThreshold (fr_Embedding result) db in
  let found := 0 <? personID in
  let face := mkFace (nullString eventID) camera (if found then Some personID else None) (Float32ToBytes (fr_Embedding result))
    (nullString (fr_CropPath result)) (widen (fr_Confidence result)) (if found then Some similarity else None) now in
  match SaveFace face db with
  | Err _ => db
  | Ok (faceID, db) =>
      if personID =? 0 then clusterUnmatchedFace faceID (fr_Embedding result) db else
      let db := updatePersonCentroid personID (fr_Embedding result) db in
      match GetPerson personID db with
      | Some p => if String.eqb (pe_Name p) "" then db else UpdateEventSubLabel eventID (pe_Name p) db
      | None => db
      end
  end.

Definition handleFaces (matchThreshold : float64) (eventID camera : string) (results : list (FaceResult * Z)) (db : DB) : DB :=
  foldl (fun db '(r, now) => handle_face matchThreshold eventID camera r now db) db results.

Definition object_candidate (io : Z * KnownObject) : list Candidate :=
  let centroid := BytesToFloat32 (ko_Centroid io.2) in
  if len centroid =? 0 then []
  else [{| ca_ID := io.1; ca_Centroid := centroid; ca_Ignore := false; ca_Threshold := default fzero (ko_MatchThreshold io.2) |}].

(** The names recognized ([None] of [embedding] is an error of the embedder), and the store. *)
Definition matchEventToKnownObjects (threshold : float64) (submitted : Event) (embedding : option (list float32)) (db : DB) : list string * DB :=
  let knownObjects := ListKnownObjectsByLabel (Label submitted) db in
  match knownObjects, embedding with
  | [], _ | _, None => ([], db)
  | _, Some embedding =>
      let '(bestID, similarity) := BestMatch embedding (knownObjects ≫= object_candidate) threshold in
      if bestID =? 0 then ([], db) else
      match List.find (fun io => io.1 =? bestID) knownObjects with
      | None => ([], db)
      | Some (_, object) =>
          match SaveObjectRecognition (ID submitted) (CameraName submitted) bestID (ko_Name object) similarity (Timestamp submitted) db with
          | Err _ => ([], db)
          | Ok (_, db) => ([ko_Name object], db)
          end
      end
  end.

(** *** Merging two people *)

(** The sum of the embeddings of some faces, as long as the first; one that is longer panics. *)
Definition sum_embeddings (l : list (list float32)) : option (list float32) :=
  match l with
  | [] => Some []
  | first :: _ =>
      for_each l (fun emb centroid =>
        for_range 0 (len emb) (fun i centroid => c ← get centroid i; e ← get emb i; set centroid i (add32 c e)) centroid)
        (replicate (length first) fzero)
  end.

Inductive Response := BadRequest (why : string) | ServerError | Merged.

(** The handler; [None] is a panic, after the merge itself. *)
Definition merge_people_request (targetID sourceID : Z) (db : DB) : option Response * DB :=
  if (targetID =? 0) || (sourceID =? 0) then (Some (BadRequest "target_id and source_id are required"), db)
  else if targetID =? sourceID then (Some (BadRequest "cannot merge a person with themselves"), db)
  else
    match MergePeople targetID sourceID db with
    | Err _ => (Some ServerError, db)
    | Ok db =>
        match ListFacesByPerson targetID 0 db with
        | [] => (Some Merged, db)
        | fs =>
            match sum_embeddings ((fun jf => BytesToFloat32 (fc_Embedding jf.2)) <$> fs) with
            | None => (None, db)
            | Some sum =>
                let n := f32_of_Z (len fs) in
                let mean := (fun x => div32 x n) <$> sum in
                (Some Merged, UpdatePersonCentroid targetID (Float32ToBytes (normalize mean (sum_squares mean))) db)
            end
        end
    end.
End Recognition.
