(* ===== verification/IdentityTheorems.v ===== *)
(** Properties of people, faces and known objects: an embedding is read back as it was
    written; the best match is the most similar of those that clear their threshold; the
    tables stay consistent whatever interleaves; a recognized face is filed as the
    specification says; a merge moves every face. *)

From Stdlib Require Import SpecFloat.
From S2P Require Import Prelude Float64 GoStrings GoSlices CameraEvent OnnxProto OnnxModel OnnxTensor OnnxEncode Identities.

#[local] Open Scope list_scope.

(** ** Embeddings *)

Lemma len_enc_le n v : len (enc_le n v) = Z.of_nat n.
Proof. revert v. induction n as [|n IH]; intros v; [done|]. cbn [enc_le]. rewrite len_cons, IH. lia. Qed.

Lemma len_Float32ToBytes f : len (Float32ToBytes f) = 4 * len f.
Proof.
  unfold Float32ToBytes, enc_floats. induction f as [|x f IH]; [done|]. rewrite mjoin_map_cons, len_app, len_enc_le, len_cons, IH. lia.
Qed.

Lemma BytesToFloat32_Float32ToBytes f : Forall is_float32 f -> BytesToFloat32 (Float32ToBytes f) = f.
Proof.
  intros Hf. unfold BytesToFloat32. rewrite len_Float32ToBytes, Z.mul_comm, Z.rem_mul by lia. cbn [negb Z.eqb].
  unfold Float32ToBytes. by rewrite readPackedFloat32_enc.
Qed.

(** ** The best match *)

Definition similarity (embedding : list float32) (c : Candidate) : float64 := CosineSimilarity embedding (ca_Centroid c).

(** A candidate that counts: not ignored, with a centroid, and as similar as its threshold asks. *)
Definition eligible (embedding : list float32) (threshold : float64) (c : Candidate) : Prop :=
  ca_Ignore c = false /\ ca_Centroid c <> [] /\ fge (similarity embedding c) (effective_threshold c threshold) = true.

(** The answer [best] is the first of the most similar eligible candidates, or nobody when
    none of them is similar at all. *)
Definition best_of_candidates (embedding : list float32) (threshold : float64) (l : list Candidate) (best : Z * float64) : Prop :=
  (best = (0, fzero) /\ forall c, c ∈ l -> eligible embedding threshold c -> fgt (similarity embedding c) fzero = false) \/
  exists l1 c l2, l = l1 ++ c :: l2 /\ best = (ca_ID c, similarity embedding c) /\ eligible embedding threshold c /\
    fgt best.2 fzero = true /\
    (forall c', c' ∈ l1 -> eligible embedding threshold c' -> flt (similarity embedding c') best.2 = true) /\
    forall c', c' ∈ l2 -> eligible embedding threshold c' -> fgt (similarity embedding c') best.2 = false.

Lemma fge_comparable x y : fge x y = true -> is_nan x = false.
Proof. unfold fge, SFleb. by destruct x, y as [|[]| |[]]. Qed.

Lemma flt_trans x y z : flt x y = true -> flt y z = true -> flt x z = true.
Proof.
  intros (Hx & Hy & H1)%flt_rank_true (_ & Hz & H2)%flt_rank_true. apply flt_rank_true. split_and!; [done..|]. intros H3. apply H1.
  eapply rank_le_trans; [|done]. destruct (rank_le_total (f64_rank y) (f64_rank z)); [done|contradiction].
Qed.

Lemma flt_asym' x y : flt x y = true -> fgt x y = false.
Proof.
  intros H. unfold fgt. destruct (SFltb y x) eqn:E; [|done]. pose proof (flt_trans _ _ _ H E) as Hirr. by rewrite flt_irrefl in Hirr.
Qed.

Lemma flt_of_not_flt x y z : is_nan x = false -> flt y x = false -> flt y z = true -> flt x z = true.
Proof.
  intros Hx Hyx (Hy & Hz & H2)%flt_rank_true. apply flt_rank_true. split_and!; [done..|]. intros H3. apply H2.
  eapply rank_le_trans; [done|]. by apply flt_rank.
Qed.

#[local] Instance eligible_dec embedding threshold c : Decision (eligible embedding threshold c).
Proof. unfold eligible. apply _. Defined.

Lemma match_turn_cases embedding threshold best c :
  match_turn embedding threshold best c =
  if decide (eligible embedding threshold c /\ fgt (similarity embedding c) best.2 = true) then (ca_ID c, similarity embedding c) else best.
Proof.
  unfold match_turn. fold (similarity embedding c). cbv zeta. destruct (ca_Ignore c) eqn:Ei; cbn [orb].
  { rewrite decide_False; [done|]. intros [(H1 & H2 & H3) H4]. congruence. }
  destruct (Z.eqb_spec (len (ca_Centroid c)) 0) as [E%len_0|E].
  { rewrite decide_False; [done|]. intros [(H1 & H2 & H3) H4]. congruence. }
  destruct (fge (similarity embedding c) (effective_threshold c threshold)) eqn:Ef; cbn [andb].
  2:{ rewrite decide_False; [done|]. intros [(H1 & H2 & H3) H4]. congruence. }
  destruct (fgt (similarity embedding c) best.2) eqn:Eg; [rewrite decide_True; [done|]|rewrite decide_False; [done|intros [_ H4]; congruence]].
  unfold eligible. split_and!; try done. intros E'. apply E. by rewrite E'.
Qed.

Lemma BestMatch_best embedding l threshold : best_of_candidates embedding threshold l (BestMatch embedding l threshold).
Proof.
  unfold BestMatch. induction l as [|c l IH] using rev_ind; [left; split; [done|by intros c []%elem_of_nil]|].
  rewrite foldl_app. cbn [foldl]. set (best := foldl _ _ l) in *. rewrite match_turn_cases.
  case_decide as Hd.
  - destruct Hd as [Hel Hgt]. right. exists l, c, []. split; [done|]. split; [done|]. split; [done|]. cbn [snd].
    pose proof (fge_comparable _ _ (proj2 (proj2 Hel))) as Hnan. unfold fgt in *. split_and!.
    + destruct IH as [[-> _]|(l1 & c0 & l2 & _ & _ & _ & Hpos & _)]; [done|]. by apply (flt_trans _ best.2).
    + intros c' Hc' Hel'. pose proof (fge_comparable _ _ (proj2 (proj2 Hel'))) as Hnan'.
      destruct IH as [[E Hz]|(l1 & c0 & l2 & -> & E & _ & Hpos & Hb & Ha)].
      * rewrite E in Hgt. cbn in Hgt. by apply (flt_of_not_flt _ fzero); [|apply Hz|].
      * apply elem_of_app in Hc' as [Hc'|[->|Hc']%elem_of_cons].
        -- apply (flt_trans _ best.2); [by apply Hb|done].
        -- by rewrite E in Hgt.
        -- by apply (flt_of_not_flt _ best.2); [|apply Ha|].
    + by intros c' []%elem_of_nil.
  - destruct IH as [[E Hz]|(l1 & c0 & l2 & -> & E & Hel & Hpos & Hb & Ha)].
    + left. split; [done|]. intros c' [Hc'| ->%list_elem_of_singleton]%elem_of_app Hel'; [by apply Hz|].
      destruct (fgt (similarity embedding c) fzero) eqn:Eg; [|done]. exfalso. apply Hd. split; [done|]. by rewrite E.
    + right. exists l1, c0, (l2 ++ [c]). split; [by rewrite <- app_assoc|]. split_and!; [done..|].
      intros c' [Hc'| ->%list_elem_of_singleton]%elem_of_app Hel'; [by apply Ha|].
      destruct (fgt (similarity embedding c) best.2) eqn:Eg; [|done]. exfalso. by apply Hd.
Qed.

(** ** Consistent tables *)

(** Ids are positive and were given; a reference is null or names a row, and the rows that
    belong to an object have one. *)
Record consistent (db : DB) : Prop := {
  ok_people i p : people db !! i = Some p -> 0 < i < next_person db;
  ok_faces i f : faces db !! i = Some f -> 0 < i < next_face db /\ refers (people db) (fc_PersonID f) /\ refers (events db) (fc_EventID f);
  ok_objects i o : known_objects db !! i = Some o -> 0 < i < next_object db;
  ok_sightings i s : object_sightings db !! i = Some s ->
    0 < i < next_sighting db /\ is_Some (known_objects db !! si_ObjectID s) /\ refers (events db) (si_EventID s);
  ok_references i r : object_references db !! i = Some r -> 0 < i < next_reference db /\ is_Some (known_objects db !! re_ObjectID r);
  ok_next : 0 < next_person db /\ 0 < next_face db /\ 0 < next_object db /\ 0 < next_sighting db /\ 0 < next_reference db
}.

Definition empty_db : DB := mkDB ∅ 1 ∅ 1 ∅ 1 ∅ 1 ∅ 1 ∅.

(** One statement or transaction, of any goroutine. *)
Inductive statement : DB -> DB -> Prop :=
| st_SavePerson name ignore centroid e db id db' : SavePersonWithEvent name ignore centroid e db = Ok (id, db') -> statement db db'
| st_update_person id f db : statement db (update_person id f db)
| st_DeletePerson id db : statement db (DeletePerson id db)
| st_MergePeople t s db db' : MergePeople t s db = Ok db' -> statement db db'
| st_SaveFace f db id db' : SaveFace f db = Ok (id, db') -> statement db db'
| st_UpdateFacePerson i p sim db db' : UpdateFacePerson i p sim db = Ok db' -> statement db db'
| st_DeleteFace i db : statement db (DeleteFace i db)
| st_DeleteFacesOlderThan cutoff db : statement db (DeleteFacesOlderThan cutoff db)
| st_SaveKnownObject o db id db' : SaveKnownObject o db = Ok (id, db') -> statement db db'
| st_update_object id f db : statement db (update_object id f db)
| st_DeleteKnownObject id db : statement db (DeleteKnownObject id db)
| st_SaveObjectSighting e c o sim t db id db' : SaveObjectSighting e c o sim t db = Ok (id, db') -> statement db db'
| st_SaveObjectRecognition e c o n sim t db id db' : SaveObjectRecognition e c o n sim t db = Ok (id, db') -> statement db db'
| st_DeleteObjectSighting id db : statement db (DeleteObjectSighting id db)
| st_SaveObjectReference r db id db' : SaveObjectReference r db = Ok (id, db') -> statement db db'
| st_DeleteObjectReference id db : statement db (DeleteObjectReference id db)
| st_update_event id f db : statement db (update_event id f db)
| st_UpdateSubLabelsForPerson p name db : statement db (UpdateSubLabelsForPerson p name db)
| st_event_saved id ev db : statement db (event_saved id ev db)
| st_event_deleted id db : statement db (event_deleted id db).

(** More rows to refer to. *)
Lemma refers_mono {K A B} `{Countable K} (m : gmap K A) (m' : gmap K B) r :
  (forall k, is_Some (m !! k) -> is_Some (m' !! k)) -> refers m r -> refers m' r.
Proof. intros Hm. unfold refers. destruct r; [apply Hm|done]. Qed.

Lemma is_Some_insert {K A} `{Countable K} (m : gmap K A) i x k : is_Some (m !! k) -> is_Some (<[i := x]> m !! k).
Proof. intros Hk. destruct (decide (i = k)) as [->|]; [rewrite lookup_insert_eq; by eexists|by rewrite lookup_insert_ne]. Qed.

Lemma is_Some_alter {K A} `{Countable K} (m : gmap K A) f i k : is_Some (m !! k) -> is_Some (alter f i m !! k).
Proof. intros [x Hx]. destruct (decide (i = k)) as [->|]; [rewrite lookup_alter_eq, Hx; by eexists|rewrite lookup_alter_ne by done; by eexists]. Qed.

Lemma is_Some_alter_inv {K A} `{Countable K} (m : gmap K A) f i k y : alter f i m !! k = Some y -> is_Some (m !! k).
Proof.
  destruct (decide (i = k)) as [->|]; [rewrite lookup_alter_eq|rewrite lookup_alter_ne by done; by eexists].
  destruct (m !! k); [by eexists|done].
Qed.

(** The statements that change one table leave the rest of the invariant alone. *)
Lemma consistent_events m db :
  (forall k, is_Some (events db !! k) -> is_Some (m !! k)) -> consistent db -> consistent (set_events m db).
Proof.
  intros Hm [Hp Hf Ho Hs Hr Hn]. split; cbn; [done| |done| |done|done].
  - intros i f (H1 & H2 & H3)%Hf. split_and!; [lia..|done|]. by eapply refers_mono.
  - intros i s (H1 & H2 & H3)%Hs. split_and!; [lia..|done|]. by eapply refers_mono.
Qed.

Lemma consistent_people m db :
  (forall k, is_Some (m !! k) -> is_Some (people db !! k)) -> (forall k, is_Some (people db !! k) -> is_Some (m !! k)) ->
  consistent db -> consistent (set_people m db).
Proof.
  intros H1 H2 [Hp Hf Ho Hs Hr Hn]. split; cbn; [| |done..].
  - intros i p E. destruct (H1 i ltac:(by eexists)) as [q Hq]. by apply (Hp i q).
  - intros i f (Hi & Hpe & He)%Hf. split_and!; [lia..| |done]. by eapply refers_mono.
Qed.

Lemma consistent_faces m db :
  (forall i f, m !! i = Some f -> is_Some (faces db !! i) /\ refers (people db) (fc_PersonID f) /\ refers (events db) (fc_EventID f)) ->
  consistent db -> consistent (set_faces m db).
Proof.
  intros Hm [Hp Hf Ho Hs Hr Hn]. split; cbn; [done| |done..]. intros i f E. destruct (Hm i f E) as ([f0 E0] & H2 & H3).
  apply Hf in E0 as (H1 & _). done.
Qed.

Lemma consistent_insert_sighting s db id db' : insert_sighting s db = Ok (id, db') -> consistent db -> consistent db'.
Proof.
  unfold insert_sighting. intros E [Hp Hf Ho Hs Hr Hn].
  destruct (negb _ || negb _) eqn:Ek in E; [done|]. apply orb_false_iff in Ek as [He%negb_false_iff%bool_decide_eq_true Hob%negb_false_iff%bool_decide_eq_true].
  destruct (_ <? _) in E; [done|]. injection E as <- <-. split; cbn; [done..| |done|lia].
  intros i s' [[<- <-]|[_ Hi%Hs]]%lookup_insert_Some; [|destruct Hi as (? & ? & ?); split_and!; done || lia]. split_and!; done || lia.
Qed.

Lemma statement_consistent db db' : statement db db' -> consistent db -> consistent db'.
Proof.
  intros Hst Hok. pose proof Hok as [Hp Hf Ho Hs Hr Hn]. destruct Hst as
    [name ignore centroid e db id db' E|id f db|id db|t s db db' E|f db id db' E|i p sim db db' E|i db|cutoff db|o db id db' E|id f db|id db
    |e c o sim t db id db' E|e c o n sim t db id db' E|id db|r db id db' E|id db|id f db|p name db|id ev db|id db].
  - unfold SavePersonWithEvent in E. destruct (_ <? _) in E; [done|]. injection E as <- <-. split; cbn; [| |done|done|done|lia].
    + intros i p [[<- <-]|[_ Hi%Hp]]%lookup_insert_Some; lia.
    + intros i f (H1 & H2 & H3)%Hf. split_and!; [lia..| |done]. eapply refers_mono; [|done]. intros k. apply is_Some_insert.
  - apply consistent_people; [|intros k; apply is_Some_alter|done]. intros k [y Hy]. by eapply is_Some_alter_inv.
  - unfold DeletePerson. split; cbn; [|intros i f|done..].
    + intros i p [_ Hi%Hp]%lookup_delete_Some. lia.
    + rewrite lookup_fmap. destruct (faces db !! i) as [g|] eqn:Eg; [|done]. intros [= <-]. apply Hf in Eg as (H1 & H2 & H3).
      case_bool_decide as Hd; cbn; [done|]. split; [done|]. split; [|done]. unfold refers in *. destruct (fc_PersonID g) as [q|]; [|done].
      rewrite lookup_delete_ne; [done|]. intros ->. done.
  - unfold MergePeople, reassign_faces in E. destruct (_ || _) eqn:Et in E; [|done]. injection E as <-. unfold DeletePerson. split; cbn; [|intros i f|done..].
    + intros i p [_ Hi%Hp]%lookup_delete_Some. lia.
    + rewrite !lookup_fmap. destruct (faces db !! i) as [g|] eqn:Eg; [|done]. intros [= <-]. pose proof Eg as (H1 & H2 & H3)%Hf.
      destruct (decide (fc_PersonID g = Some s)) as [Hd|Hd].
      * rewrite (bool_decide_eq_true_2 _ Hd). cbn. destruct (decide (t = s)) as [->|Hts];
          [by rewrite bool_decide_eq_true_2|rewrite bool_decide_eq_false_2 by congruence; cbn]. split; [done|]. split; [|done].
        apply orb_true_iff in Et as [Ht%bool_decide_eq_true|Ht%bool_decide_eq_true].
        -- rewrite lookup_delete_ne; [done|]. intros ->. done.
        -- exfalso. assert (faces_of s db !! i = Some g) as Hg by (apply map_lookup_filter_Some; done). by rewrite Ht in Hg.
      * rewrite !(bool_decide_eq_false_2 _ Hd). cbn. split; [done|]. split; [|done]. unfold refers in *.
        destruct (fc_PersonID g) as [q|]; [|done]. rewrite lookup_delete_ne; [done|]. intros ->. done.
  - unfold SaveFace in E. destruct (negb _ || negb _) eqn:Ek in E; [done|].
    apply orb_false_iff in Ek as [He%negb_false_iff%bool_decide_eq_true Hpe%negb_false_iff%bool_decide_eq_true].
    destruct (_ <? _) in E; [done|]. injection E as <- <-. split; cbn; [done| |done..|lia].
    intros i g [[<- <-]|[_ Hi%Hf]]%lookup_insert_Some; [split_and!; done || lia|]. destruct Hi as (? & ? & ?). split_and!; done || lia.
  - unfold UpdateFacePerson in E. destruct (_ && _) eqn:Ek in E; [done|]. injection E as <-. apply consistent_faces; [|done].
    intros j g Eg. pose proof (is_Some_alter_inv _ _ _ _ _ Eg) as Hj. split; [done|]. destruct (decide (i = j)) as [->|].
    + rewrite lookup_alter_eq in Eg. destruct (faces db !! j) as [g0|] eqn:E0; [|done]. injection Eg as <-. apply Hf in E0 as (_ & _ & He).
      split; [|done]. apply andb_false_iff in Ek as [Ek%bool_decide_eq_false|Ek%negb_false_iff%bool_decide_eq_true]; [done|done].
    + rewrite lookup_alter_ne in Eg by done. by apply Hf in Eg as (_ & ? & ?).
  - apply consistent_faces; [|done]. intros j g [_ Hj]%lookup_delete_Some. split; [by eexists|]. by apply Hf in Hj as (_ & ? & ?).
  - apply consistent_faces; [|done]. intros j g [Hj _]%map_lookup_filter_Some. split; [by eexists|]. by apply Hf in Hj as (_ & ? & ?).
  - unfold SaveKnownObject in E. destruct (_ <? _) in E; [done|]. injection E as <- <-. split; cbn; [done|done| | | |lia].
    + intros i o' [[<- <-]|[_ Hi%Ho]]%lookup_insert_Some; lia.
    + intros i s (? & ? & ?)%Hs. split_and!; [lia..|by apply is_Some_insert|done].
    + intros i r (? & ?)%Hr. split; [lia|by apply is_Some_insert].
  - split; cbn; [done|done| | | |done].
    + intros i o [y Hy]%is_Some_alter_inv. by apply (Ho i y).
    + intros i s (? & ? & ?)%Hs. split_and!; [lia..|by apply is_Some_alter|done].
    + intros i r (? & ?)%Hr. split; [lia|by apply is_Some_alter].
  - split; cbn; [done|done| | | |done].
    + intros i o [_ Hi%Ho]%lookup_delete_Some. lia.
    + intros i s [(H1 & H2 & H3)%Hs Hne]%map_lookup_filter_Some. split_and!; [lia..| |done]. by rewrite lookup_delete_ne.
    + intros i r [(H1 & H2)%Hr Hne]%map_lookup_filter_Some. split; [lia|]. by rewrite lookup_delete_ne.
  - unfold SaveObjectSighting in E. destruct (String.eqb _ _); [done|]. destruct (bool_decide _) in E; [done|].
    by apply consistent_insert_sighting in E.
  - unfold SaveObjectRecognition in E. destruct (String.eqb _ _); [done|]. destruct (bool_decide _) in E; [done|].
    apply consistent_insert_sighting in E; [done|]. apply consistent_events; [|done]. intros k. apply is_Some_alter.
  - split; cbn; [done|done|done| |done|done]. intros i s [_ Hi]%lookup_delete_Some. by apply Hs.
  - unfold SaveObjectReference in E. destruct (negb _) eqn:Ek in E; [done|]. apply negb_false_iff, bool_decide_eq_true in Ek.
    destruct (_ <? _) in E; [done|]. injection E as <- <-. split; cbn; [done..| |lia].
    intros i r' [[<- <-]|[_ Hi%Hr]]%lookup_insert_Some; [split; [lia|done]|]. destruct Hi. split; [lia|done].
  - split; cbn; [done|done|done|done| |done]. intros i r [_ Hi]%lookup_delete_Some. by apply Hr.
  - apply consistent_events; [|done]. intros k. apply is_Some_alter.
  - apply consistent_events; [|done]. intros k [ev Hk]. rewrite map_lookup_imap, Hk. by eexists.
  - apply consistent_events; [|done]. intros k. apply is_Some_insert.
  - assert (forall r : option string, refers (events db) r -> refers (delete id (events db)) (forget_event id r)) as Hforget.
    { intros r Hr0. unfold forget_event. case_bool_decide as Hd; [done|]. unfold refers in *. destruct r as [e|]; [|done].
      rewrite lookup_delete_ne; [done|]. intros ->. done. }
    unfold event_deleted. split; cbn; [done|intros i f|done|intros i s|done|done].
    + rewrite lookup_fmap. destruct (faces db !! i) as [g|] eqn:Eg; [|done]. intros [= <-]. apply Hf in Eg as (? & ? & ?). cbn. auto.
    + rewrite lookup_fmap. destruct (object_sightings db !! i) as [g|] eqn:Eg; [|done]. intros [= <-]. apply Hs in Eg as (? & ? & ?). cbn. auto.
Qed.

Lemma statements_consistent db db' : rtc statement db db' -> consistent db -> consistent db'.
Proof. induction 1 as [|db db1 db' Hst _ IH]; [done|]. intros Hok. by apply IH, (statement_consistent db). Qed.

Lemma empty_consistent : consistent empty_db.
Proof. split; cbn; try (intros ? ? E; rewrite lookup_empty in E; discriminate E). lia. Qed.

(** ** Handlers run statements *)

Section Handlers.
Context {Rows : RowOrder}.

Lemma updatePersonCentroid_runs p emb db : rtc statement db (updatePersonCentroid p emb db).
Proof using. unfold updatePersonCentroid. destruct (GetPerson p db); [|done]. apply rtc_once, st_update_person. Qed.

Lemma ignored_runs i p sim db : rtc statement db (ignored (UpdateFacePerson i p sim db) db).
Proof using. destruct (UpdateFacePerson i p sim db) as [db'|] eqn:E; cbn; [|done]. by eapply rtc_once, st_UpdateFacePerson. Qed.

Lemma clusterUnmatchedFace_runs i emb db : rtc statement db (clusterUnmatchedFace i emb db).
Proof using.
  unfold clusterUnmatchedFace. destruct (BestMatch _ _ _) as [g sim]. destruct (g =? 0); [done|].
  destruct (List.find _ _) as [[g' f]|]; [|done]. destruct (SavePerson _ _ _ db) as [[p db1]|] eqn:E; [|done].
  eapply rtc_l; [by eapply st_SavePerson|]. cbv zeta. etrans; apply ignored_runs.
Qed.

Lemma handle_face_runs thr e c r now db : rtc statement db (handle_face thr e c r now db).
Proof using.
  unfold handle_face. destruct (matchFaceToPerson _ _ _) as [p sim]. destruct (SaveFace _ db) as [[i db1]|] eqn:E; [|done].
  eapply rtc_l; [by eapply st_SaveFace|]. destruct (p =? 0); [apply clusterUnmatchedFace_runs|]. cbv zeta.
  etrans; [apply updatePersonCentroid_runs|]. destruct (GetPerson _ _); [|done]. destruct (String.eqb _ _); [done|].
  apply rtc_once, st_update_event.
Qed.

Lemma handleFaces_runs thr e c rs db : rtc statement db (handleFaces thr e c rs db).
Proof using.
  unfold handleFaces. revert db. induction rs as [|[r now] rs IH]; intros db; [done|]. cbn. etrans; [apply handle_face_runs|apply IH].
Qed.

Lemma matchEventToKnownObjects_runs thr ev emb db : rtc statement db (matchEventToKnownObjects thr ev emb db).2.
Proof using.
  unfold matchEventToKnownObjects. destruct (ListKnownObjectsByLabel _ _) as [|o os]; [done|]. destruct emb as [emb|]; [|done].
  destruct (BestMatch _ _ _) as [i sim]. destruct (i =? 0); [done|]. destruct (List.find _ _) as [[i' ob]|]; [|done].
  destruct (SaveObjectRecognition _ _ _ _ _ _ db) as [[k db1]|] eqn:E; [|done]. by eapply rtc_once, st_SaveObjectRecognition.
Qed.

Lemma merge_people_request_runs t s db : rtc statement db (merge_people_request t s db).2.
Proof using.
  unfold merge_people_request. destruct (_ || _); [done|]. destruct (t =? s); [done|]. destruct (MergePeople t s db) as [db1|] eqn:E; [|done].
  eapply rtc_l; [by eapply st_MergePeople|]. destruct (ListFacesByPerson t 0 db1) as [|jf l]; [done|]. destruct (sum_embeddings _); [|done].
  apply rtc_once, st_update_person.
Qed.

(** However the statements of the event processor, of the API and of the clean-up
    interleave from an empty store on, and whatever events come and go under them, the
    tables stay consistent: every face, sighting and reference belongs to rows that exist
    or to none, and an id is positive and below the next one.  It is the foreign keys that
    the database enforces; the handlers only run such statements. *)
Lemma identities_stay_consistent db :
  rtc statement empty_db db ->
  consistent db /\
  (forall thr e c rs, consistent (handleFaces thr e c rs db)) /\
  (forall thr ev emb, consistent (matchEventToKnownObjects thr ev emb db).2) /\
  (forall t s, consistent (merge_people_request t s db).2).
Proof using.
  intros Hdb. assert (consistent db) as Hok by (apply (statements_consistent empty_db); [done|apply empty_consistent]).
  split; [done|]. split_and!; intros; (eapply statements_consistent; [|exact Hok]);
    [apply handleFaces_runs|apply matchEventToKnownObjects_runs|apply merge_people_request_runs].
Qed.

(** ** One recognized face *)

(** A person counts for a face: not ignored, with a centroid, as similar as it takes. *)
Definition similar_person (thr : float64) (emb : list float32) (p : Person) (sim : float64) : Prop :=
  eligible emb thr (person_candidate (0, p)) /\ sim = similarity emb (person_candidate (0, p)).

(** The row of a face that was found. *)
Definition face_row (eventID camera : string) (r : FaceResult) (now : Z) (match_ : option (Z * float64)) : Face :=
  mkFace (nullString eventID) camera (fst <$> match_) (Float32ToBytes (fr_Embedding r)) (nullString (fr_CropPath r))
    (widen (fr_Confidence r)) (snd <$> match_) now.

Definition with_face (f : Face) (db : DB) : DB :=
  mkDB (people db) (next_person db) (<[next_face db := f]> (faces db)) (next_face db + 1) (known_objects db) (next_object db)
    (object_sightings db) (next_sighting db) (object_references db) (next_reference db) (events db).

(** A face without a person among the newest two hundred that may be clustered with [emb]. *)
Definition loose_face (db : DB) (new : Z) (emb : list float32) (i : Z) (f : Face) (sim : float64) : Prop :=
  i <> new /\ (i, f) ∈ ListUnmatchedFaces 200 db /\ BytesToFloat32 (fc_Embedding f) <> [] /\
  sim = CosineSimilarity emb (BytesToFloat32 (fc_Embedding f)) /\ fge sim FaceClusterThreshold = true.

Section Filing.
Variables (thr : float64) (eventID camera : string) (r : FaceResult) (now : Z) (db : DB).

(** Nobody known is similar. *)
Definition nobody : Prop := forall i p sim, people db !! i = Some p -> similar_person thr (fr_Embedding r) p sim -> fgt sim fzero = false.

(** What becomes of the face. *)
Inductive filed : DB -> Prop :=
| filed_nowhere : ~ refers (events db) (nullString eventID) \/ max_int64 < next_face db -> filed db
| filed_under i p sim :
    people db !! i = Some p -> similar_person thr (fr_Embedding r) p sim -> fgt sim fzero = true ->
    (forall j q s, people db !! j = Some q -> similar_person thr (fr_Embedding r) q s -> fgt s sim = false) ->
    filed (let db := with_face (face_row eventID camera r now (Some (i, sim))) db in
           let blended := BlendCentroid (BytesToFloat32 (pe_Centroid p)) (fr_Embedding r) PersonCentroidUpdateWeight in
           let db := UpdatePersonCentroid i (Float32ToBytes blended) db in
           if String.eqb (pe_Name p) "" then db else UpdateEventSubLabel eventID (pe_Name p) db)
| filed_loose :
    nobody ->
    (forall i f sim, loose_face (with_face (face_row eventID camera r now None) db) (next_face db) (fr_Embedding r) i f sim -> fgt sim fzero = false)
      \/ max_int64 < next_person db ->
    filed (with_face (face_row eventID camera r now None) db)
| filed_as_new_person i f sim :
    nobody -> let db1 := with_face (face_row eventID camera r now None) db in
    loose_face db1 (next_face db) (fr_Embedding r) i f sim -> fgt sim fzero = true ->
    (forall j g s, loose_face db1 (next_face db) (fr_Embedding r) j g s -> fgt s sim = false) ->
    let centroid := AverageNormalized (fr_Embedding r) (BytesToFloat32 (fc_Embedding f)) in
    filed (set_faces (<[next_face db := assigned (next_person db) (f64_of_Z 1) (face_row eventID camera r now None)]>
                      (<[i := assigned (next_person db) sim f]> (faces db1)))
            (mkDB (<[next_person db := mkPerson "" false (Float32ToBytes centroid) None]> (people db1)) (next_person db + 1) (faces db1) (next_face db1)
               (known_objects db1) (next_object db1) (object_sightings db1) (next_sighting db1) (object_references db1) (next_reference db1) (events db1))).
End Filing.

Lemma alter_Some {K A} `{Countable K} (m : gmap K A) f i x : m !! i = Some x -> alter f i m = <[i := f x]> m.
Proof using.
  intros E. apply map_eq. intros k. destruct (decide (i = k)) as [->|]; [by rewrite lookup_alter_eq, lookup_insert_eq, E|].
  by rewrite lookup_alter_ne, lookup_insert_ne.
Qed.

Lemma elem_of_ListPeople db i p : (i, p) ∈ ListPeople db <-> people db !! i = Some p.
Proof using. unfold ListPeople. by rewrite by_name_perm, elem_of_map_to_list. Qed.

Lemma elem_of_ListUnmatched n db i f : (i, f) ∈ ListUnmatchedFaces n db -> faces db !! i = Some f /\ fc_PersonID f = None.
Proof using.
  unfold ListUnmatchedFaces. intros Hin. assert ((i, f) ∈ newest_first (map_to_list (filter (fun kf => fc_PersonID kf.2 = None) (faces db)))) as H.
  { unfold limited in Hin. destruct n; [done|]. eapply elem_of_sublist; [exact Hin|apply sublist_take]. }
  rewrite newest_first_perm, elem_of_map_to_list in H. apply map_lookup_filter_Some in H as [? ?]. done.
Qed.

Lemma elem_of_candidates new l c :
  c ∈ l ≫= face_candidate new <-> exists i f, (i, f) ∈ l /\ i <> new /\ BytesToFloat32 (fc_Embedding f) <> [] /\
    c = {| ca_ID := i; ca_Centroid := BytesToFloat32 (fc_Embedding f); ca_Ignore := false; ca_Threshold := fzero |}.
Proof using.
  rewrite list_elem_of_bind. split.
  - intros ([i f] & Hc & Hin). unfold face_candidate in Hc. cbn [fst snd] in Hc.
    destruct (Z.eqb_spec i new); [by apply elem_of_nil in Hc|]. cbn [orb] in Hc.
    destruct (Z.eqb_spec (len (BytesToFloat32 (fc_Embedding f))) 0) as [E|E]; [by apply elem_of_nil in Hc|].
    apply list_elem_of_singleton in Hc. exists i, f. split_and!; try done. intros E0. apply E. by rewrite E0.
  - intros (i & f & Hin & Hne & Hemb & ->). exists (i, f). split; [|done]. unfold face_candidate. cbn [fst snd].
    rewrite (proj2 (Z.eqb_neq _ _)) by done. cbn [orb]. rewrite (proj2 (Z.eqb_neq _ 0)) by (intros E%len_0; done). by apply list_elem_of_singleton.
Qed.

Lemma UpdateFacePerson_known i p sim db :
  is_Some (people db !! p) -> UpdateFacePerson i p sim db = Ok (set_faces (alter (assigned p sim) i (faces db)) db).
Proof using. intros Hp. unfold UpdateFacePerson. by rewrite (bool_decide_eq_true_2 _ Hp), andb_false_r. Qed.

Lemma find_by_id {A} (l : list (Z * A)) i x : (i, x) ∈ l -> exists y, List.find (fun jf => jf.1 =? i) l = Some (i, y) /\ (i, y) ∈ l.
Proof using.
  intros Hin. destruct (List.find (fun jf => jf.1 =? i) l) as [[j y]|] eqn:E.
  - apply find_some in E as [Hy%list_elem_of_In E]. apply Z.eqb_eq in E. cbn in E. subst. by exists y.
  - exfalso. apply list_elem_of_In in Hin. pose proof (find_none _ _ E _ Hin) as Hf. cbn in Hf. by rewrite Z.eqb_refl in Hf.
Qed.

Section Clustering.
Variables (thr : float64) (eventID camera : string) (r : FaceResult) (now : Z) (db : DB).
Hypotheses (Hok : consistent db) (Hevent : refers (events db) (nullString eventID)) (Hnobody : nobody thr r db).

Let row : Face := face_row eventID camera r now None.

(** A face nobody known is similar to: what clustering makes of it. *)
Lemma cluster_filed : filed thr eventID camera r now db (clusterUnmatchedFace (next_face db) (fr_Embedding r) (with_face row db)).
Proof using Hok Hevent Hnobody Rows.
  set (db1 := with_face row db).
  assert (forall i f, faces db1 !! i = Some f -> 0 < i) as Hpos.
  { pose proof (ok_next db Hok). intros i f E. unfold db1, with_face in E. cbn [faces] in E.
    apply lookup_insert_Some in E as [[<- _]|[_ Hf]]; [lia|]. apply (ok_faces db Hok) in Hf as [? _]. lia. }
  unfold clusterUnmatchedFace.
  pose proof (BestMatch_best (fr_Embedding r) (ListUnmatchedFaces 200 db1 ≫= face_candidate (next_face db)) FaceClusterThreshold) as Hbest.
  destruct (BestMatch _ _ _) as [g sim]. destruct Hbest as [[[= -> ->] Hnone]|(l1 & c & l2 & El & [= -> ->] & Hel & Hgt & Hb & Ha)].
  - apply filed_loose; [done|]. left. intros i f s (Hne & Hin & Hemb & -> & Hs).
    apply (Hnone {| ca_ID := i; ca_Centroid := BytesToFloat32 (fc_Embedding f); ca_Ignore := false; ca_Threshold := fzero |}); [|done].
    apply elem_of_candidates. by exists i, f.
  - cbn [snd] in *. assert (c ∈ ListUnmatchedFaces 200 db1 ≫= face_candidate (next_face db)) as Hc by (rewrite El; set_solver).
    apply elem_of_candidates in Hc as (i & f & Hin & Hne & Hemb & ->). cbn [ca_ID] in *.
    destruct (elem_of_ListUnmatched _ _ _ _ Hin) as [Hf Hp]. pose proof (Hpos i f Hf). rewrite (proj2 (Z.eqb_neq i 0)) by lia.
    destruct (find_by_id _ i f Hin) as (f' & -> & Hin'). apply elem_of_ListUnmatched in Hin' as [Hf' _]. rewrite Hf in Hf'. injection Hf' as <-.
    unfold SavePerson, SavePersonWithEvent. destruct (Z.ltb_spec max_int64 (next_person db1)) as [Hfull|_].
    { apply filed_loose; [done|]. by right. }
    match goal with |- context [UpdateFacePerson i _ _ ?d] => set (db2 := d) end.
    assert (is_Some (people db2 !! next_person db1)) as Hp2 by (unfold db2; cbn [people]; rewrite lookup_insert_eq; by eexists).
    rewrite (UpdateFacePerson_known i _ _ db2 Hp2). cbn [ignored]. rewrite UpdateFacePerson_known by exact Hp2. cbn [ignored set_faces faces].
    change (faces db2) with (faces db1).
    rewrite (alter_Some (faces db1) _ i f) by done. rewrite (alter_Some _ _ (next_face db) row) by (rewrite lookup_insert_ne by done; apply lookup_insert_eq).
    apply (filed_as_new_person thr eventID camera r now db i f (similarity (fr_Embedding r) _)); [done| |done|].
    + split_and!; try done. apply Hel.
    + intros j h s (Hne' & Hinh & Hembh & -> & Hs).
      set (ch := {| ca_ID := j; ca_Centroid := BytesToFloat32 (fc_Embedding h); ca_Ignore := false; ca_Threshold := fzero |}).
      assert (eligible (fr_Embedding r) FaceClusterThreshold ch) as Helh by done.
      assert (ch ∈ ListUnmatchedFaces 200 db1 ≫= face_candidate (next_face db)) as Hch by (apply elem_of_candidates; by exists j, h).
      rewrite El in Hch. apply elem_of_app in Hch as [Hch|[Ech|Hch]%elem_of_cons].
      * specialize (Hb ch Hch Helh). change (CosineSimilarity (fr_Embedding r) (BytesToFloat32 (fc_Embedding h))) with (similarity (fr_Embedding r) ch).
        by apply flt_asym'.
      * change (CosineSimilarity (fr_Embedding r) (BytesToFloat32 (fc_Embedding h))) with (similarity (fr_Embedding r) ch). rewrite Ech. apply flt_irrefl.
      * by apply (Ha ch).
Qed.
End Clustering.

Lemma handle_face_filed thr eventID camera r now db :
  consistent db -> filed thr eventID camera r now db (handle_face thr eventID camera r now db).
Proof using.
  intros Hok. unfold handle_face, matchFaceToPerson.
  pose proof (BestMatch_best (fr_Embedding r) (person_candidate <$> ListPeople db) thr) as Hbest.
  destruct (BestMatch _ _ _) as [g sim]. destruct Hbest as [[[= -> ->] Hnone]|(l1 & c & l2 & El & [= -> ->] & Hel & Hgt & Hb & Ha)].
  - cbn [Z.ltb Z.compare Z.eqb]. change (mkFace _ _ _ _ _ _ _ _) with (face_row eventID camera r now None).
    assert (nobody thr r db) as Hnobody.
    { intros i p s Hp [Hs ->]. apply (Hnone (person_candidate (i, p))); [|done]. apply list_elem_of_fmap. exists (i, p). split; [done|]. by apply elem_of_ListPeople. }
    unfold SaveFace. cbn [fc_EventID fc_PersonID face_row fmap option_fmap option_map]. rewrite (bool_decide_eq_true_2 (refers (people db) None)) by done.
    cbn [negb]. rewrite orb_false_r. destruct (bool_decide (refers (events db) (nullString eventID))) eqn:He; cbn [negb].
    + apply bool_decide_eq_true in He. destruct (Z.ltb_spec max_int64 (next_face db)); [apply filed_nowhere; by right|].
      by apply cluster_filed.
    + apply bool_decide_eq_false in He. apply filed_nowhere. by left.
  - cbn [snd] in *. assert (c ∈ person_candidate <$> ListPeople db) as Hc by (rewrite El; set_solver).
    apply list_elem_of_fmap in Hc as ([i p] & -> & Hp). apply elem_of_ListPeople in Hp. cbn [person_candidate ca_ID fst] in *.
    pose proof (ok_people db Hok i p Hp) as Hi. rewrite (proj2 (Z.ltb_lt 0 i)) by lia.
    set (s := similarity (fr_Embedding r) (person_candidate (i, p))) in *.
    change (mkFace _ _ _ _ _ _ _ _) with (face_row eventID camera r now (Some (i, s))).
    unfold SaveFace. cbn [fc_EventID fc_PersonID face_row fmap option_fmap option_map fst].
    rewrite (bool_decide_eq_true_2 (refers (people db) (Some i))) by (by eexists). cbn [negb]. rewrite orb_false_r.
    destruct (bool_decide (refers (events db) (nullString eventID))) eqn:He; cbn [negb].
    2:{ apply bool_decide_eq_false in He. apply filed_nowhere. by left. }
    destruct (Z.ltb_spec max_int64 (next_face db)); [apply filed_nowhere; by right|].
    rewrite (proj2 (Z.eqb_neq i 0)) by lia. change (mkDB _ _ _ _ _ _ _ _ _ _ _) with (with_face (face_row eventID camera r now (Some (i, s))) db).
    unfold updatePersonCentroid, GetPerson. cbn [with_face people]. rewrite Hp. cbn [UpdatePersonCentroid update_person set_people people].
    rewrite lookup_alter_eq. cbn [with_face people]. rewrite Hp. cbn [fmap option_fmap option_map pe_Name].
    apply (filed_under thr eventID camera r now db i p s); [done|by split|done|].
    intros j q t Hq [Helq ->].
    assert (person_candidate (j, q) ∈ person_candidate <$> ListPeople db) as Hcq by (apply list_elem_of_fmap; exists (j, q); split; [done|by apply elem_of_ListPeople]).
    rewrite El in Hcq. apply elem_of_app in Hcq as [Hcq|[Ecq|Hcq]%elem_of_cons].
    + specialize (Hb _ Hcq Helq). by apply flt_asym'.
    + change (person_candidate (0, q)) with (person_candidate (0, q)). unfold s. rewrite <- Ecq. apply flt_irrefl.
    + by apply (Ha _ Hcq).
Qed.

(** C16: what one turn of the face handler does to a consistent store is what the
    specification allows.  If the event is gone the face is kept nowhere.  Otherwise its row
    is added, and if some person who is not ignored is similar enough, it belongs to the
    most similar one, whose centroid moves towards it and whose name the event takes; if
    nobody is, it stays without a person, unless a recent face without one is similar
    enough to cluster with: then both belong to a new person without a name, halfway
    between them.  No other row changes. *)
Theorem handle_face_files_the_face thr eventID camera r now db :
  consistent db -> filed thr eventID camera r now db (handle_face thr eventID camera r now db).
Proof using. apply handle_face_filed. Qed.

Lemma filed_keeps_assignments thr eventID camera r now db db' i f p :
  consistent db -> filed thr eventID camera r now db db' -> faces db !! i = Some f -> fc_PersonID f = Some p -> faces db' !! i = Some f.
Proof using.
  intros Hok Hfiled Hf Hp. pose proof (ok_faces db Hok i f Hf) as [Hi _].
  destruct Hfiled as [?|j q sim Hq Hsim Hpos Hbest|? ?|j g sim ? db1 Hloose ? ? ?]; [done| | |].
  - cbv zeta. destruct (String.eqb _ _); cbn; by rewrite lookup_insert_ne by lia.
  - cbn. by rewrite lookup_insert_ne by lia.
  - destruct Hloose as (Hne & Hin%elem_of_ListUnmatched & _). cbn. rewrite lookup_insert_ne by lia. destruct Hin as [Hg Hnone].
    cbn in Hg. rewrite lookup_insert_ne in Hg by done. rewrite lookup_insert_ne by congruence. by rewrite lookup_insert_ne by lia.
Qed.

(** Recognition takes no face from a person, whatever faces an event brings. *)
Theorem recognition_takes_no_face thr eventID camera rs db i f p :
  consistent db -> faces db !! i = Some f -> fc_PersonID f = Some p -> faces (handleFaces thr eventID camera rs db) !! i = Some f.
Proof using.
  unfold handleFaces. revert db. induction rs as [|[r now] rs IH]; intros db Hok Hf Hp; [done|]. cbn. apply IH; [| |done].
  - eapply statements_consistent; [apply handle_face_runs|done].
  - eapply filed_keeps_assignments; [done|by apply handle_face_filed|done|done].
Qed.
End Handlers.

(** ** Merging *)

(** Every face of the source is the target's afterwards, and nothing names the source. *)
Lemma MergePeople_moves_faces t s db db' :
  t <> s -> MergePeople t s db = Ok db' ->
  people db' = delete s (people db) /\ events db' = events db /\
  forall i, faces db' !! i = (fun f => if bool_decide (fc_PersonID f = Some s) then with_person (Some t) f else f) <$> faces db !! i.
Proof.
  intros Hts. unfold MergePeople, reassign_faces. destruct (_ || _); [|done]. intros [= <-]. unfold DeletePerson. cbn. split; [done|]. split; [done|].
  intros i. rewrite !lookup_fmap. destruct (faces db !! i) as [f|]; [|done]. cbn. f_equal.
  destruct (decide (fc_PersonID f = Some s)) as [E|E]; [rewrite (bool_decide_eq_true_2 _ E)|rewrite !(bool_decide_eq_false_2 _ E); done].
  cbn. rewrite bool_decide_eq_false_2; [done|]. by intros [= ->].
Qed.

(** What a coordinate of a centroid is after an embedding was added to it. *)
Definition plus_at (j : nat) (x : float32) (emb : list float32) : float32 :=
  match emb !! j with Some e => add32 x e | None => x end.
Definition added (emb centroid : list float32) : list float32 := imap (fun j x => plus_at j x emb) centroid.

Lemma added_lookup emb c j : added emb c !! j = (fun x => plus_at j x emb) <$> c !! j.
Proof. apply list_lookup_imap. Qed.

Lemma added_length emb c : length (added emb c) = length c.
Proof. apply length_imap. Qed.

(** The inner loop: it panics at the first coordinate the sum does not have. *)
Lemma add_embedding emb c :
  for_range 0 (len emb) (fun i c => x ← get c i; e ← get emb i; set c i (add32 x e)) c =
  if decide (length emb <= length c)%nat then Some (added emb c) else None.
Proof.
  set (body := fun i c => _).
  pose proof (for_range_run (fun i os => (i <= len c -> os = Some (added (take (Z.to_nat i) emb) c)) /\ (len c < i -> os = None))
    0 (len emb) body (Some c)) as H. cbn [mbind option_bind] in H. destruct H as [H1 H2].
  - unfold len. lia.
  - split; [|unfold len; lia]. intros _. cbn. f_equal. apply list_eq. intros j. rewrite added_lookup. unfold plus_at. cbn. by destruct (c !! j).
  - intros i os Hi [Hin Hout]. destruct (decide (i <= len c)) as [Hle|Hgt]; [|rewrite Hout by lia; split; [lia|done]].
    rewrite (Hin Hle). cbn [mbind option_bind]. unfold body.
    assert (forall k, get (added (take (Z.to_nat i) emb) c) (Z.of_nat k) = added (take (Z.to_nat i) emb) c !! k) as Hg by (intros; apply get_nat).
    specialize (Hg (Z.to_nat i)). rewrite Z2Nat.id in Hg by lia. rewrite Hg, added_lookup.
    destruct (decide (i < len c)) as [Hlt|Hge].
    + destruct (lookup_lt_is_Some_2 c (Z.to_nat i) ltac:(unfold len in *; lia)) as [x Hx]. rewrite Hx. cbn [fmap option_fmap option_map mbind option_bind].
      destruct (get_is_Some emb i Hi) as [e He]. rewrite He. cbn [mbind option_bind].
      assert (emb !! Z.to_nat i = Some e) as He' by (unfold get in He; by destruct (0 <=? i)). unfold plus_at at 1. rewrite lookup_take_ge by lia.
      split; [|unfold len in *; lia]. intros _. unfold set. rewrite (proj2 (Z.leb_le 0 i)) by lia.
      unfold len. rewrite added_length. fold (len c). rewrite (proj2 (Z.ltb_lt i (len c))) by lia. cbn [andb]. f_equal.
      apply list_eq. intros j. rewrite added_lookup. replace (Z.to_nat (i + 1)) with (S (Z.to_nat i)) by lia.
      destruct (decide (j = Z.to_nat i)) as [->|Hne].
      * rewrite list_lookup_insert_eq by (rewrite added_length; unfold len in *; lia). rewrite Hx. cbn. unfold plus_at.
        rewrite lookup_take_lt by lia. by rewrite He'.
      * rewrite list_lookup_insert_ne by done. rewrite added_lookup. destruct (c !! j); [|done]. cbn. unfold plus_at. f_equal.
        destruct (decide (j < Z.to_nat i)%nat); [by rewrite !lookup_take_lt by lia|by rewrite !lookup_take_ge by lia].
    + rewrite lookup_ge_None_2 by (unfold len in *; lia). split; [lia|done].
  - case_decide as Hd; unfold len in *; [|apply H2; lia]. rewrite H1 by lia. rewrite take_ge by lia. done.
Qed.

Definition column_sum (l : list (list float32)) (j : nat) : float32 := foldl add32 fzero (omap (fun emb => emb !! j) l).

(** The whole sum: a panic when one is longer than the first, the sums of the columns otherwise. *)
Lemma sum_from l c :
  for_each l (fun emb centroid =>
      for_range 0 (len emb) (fun i centroid => c ← get centroid i; e ← get emb i; set centroid i (add32 c e)) centroid) c =
  if decide (Forall (fun emb => length emb <= length c)%nat l) then Some (foldl (fun c emb => added emb c) c l) else None.
Proof.
  revert c. induction l as [|emb l IH]; intros c; [done|]. rewrite for_each_cons, add_embedding.
  destruct (decide (length emb <= length c)%nat) as [Hle|Hgt]; cbn [mbind option_bind].
  - rewrite IH, added_length. cbn [foldl]. repeat case_decide; try done; exfalso; rewrite Forall_cons in *; naive_solver.
  - rewrite decide_False; [done|]. by intros [? _]%Forall_cons.
Qed.

Lemma foldl_added_lookup l c j : foldl (fun c emb => added emb c) c l !! j = (fun x => foldl add32 x (omap (fun emb => emb !! j) l)) <$> c !! j.
Proof.
  revert c. induction l as [|emb l IH]; intros c; [cbn; by destruct (c !! j)|]. cbn [foldl]. rewrite IH, added_lookup. destruct (c !! j); [|done].
  cbn. unfold plus_at. by destruct (emb !! j).
Qed.

Lemma sum_embeddings_spec first l :
  let embs := first :: l in
  if decide (Forall (fun emb => length emb <= length first)%nat embs)
  then exists sum, sum_embeddings embs = Some sum /\ length sum = length first /\
    forall j, (j < length first)%nat -> sum !! j = Some (column_sum embs j)
  else sum_embeddings embs = None.
Proof.
  cbn zeta. unfold sum_embeddings. rewrite sum_from, length_replicate. case_decide; [|done]. eexists. split; [done|].
  assert (forall j, foldl (fun c emb => added emb c) (replicate (length first) fzero) (first :: l) !! j =
    if decide (j < length first)%nat then Some (column_sum (first :: l) j) else None) as Hall.
  { intros j. rewrite foldl_added_lookup. case_decide; [by rewrite lookup_replicate_2|]. by rewrite lookup_ge_None_2 by (rewrite length_replicate; lia). }
  split; [|intros j Hj; rewrite Hall; by rewrite decide_True].
  assert (forall l c, length (foldl (fun c emb => added emb c) c l) = length c) as Hlen.
  { clear. induction l as [|e l IH]; intros c; [done|]. cbn. by rewrite IH, added_length. }
  by rewrite Hlen, length_replicate.
Qed.


Section Merge.
Context {Rows : RowOrder}.

Definition moved (t s : Z) (f : Face) : Face := if decide (fc_PersonID f = Some s) then with_person (Some t) f else f.

Definition with_centroid (c : bytes) (p : Person) : Person := mkPerson (pe_Name p) (pe_Ignore p) c (pe_SourceEventID p).

(** The centroid a person has after the embeddings of all their faces were averaged: the
    normalized vector of the means of the columns; without faces it stays, and it stays
    when an embedding is longer than the first, which is a panic. *)
Definition recentred (embs : list (list float32)) (answer : option Response) (old new : option Person) : Prop :=
  match embs with
  | [] => answer = Some Merged /\ new = old
  | first :: _ =>
      if decide (Forall (fun emb => length emb <= length first)%nat embs) then
        answer = Some Merged /\ exists mean, length mean = length first /\
          (forall j, (j < length first)%nat -> mean !! j = Some (div32 (column_sum embs j) (f32_of_Z (len embs)))) /\
          new = with_centroid (Float32ToBytes (normalize mean (sum_squares mean))) <$> old
      else answer = None /\ new = old
  end.

(** The person [s] is merged into [t]. *)
Record merged_into (t s : Z) (db : DB) (answer : option Response) (db' : DB) : Prop := {
  mi_rest : set_people (people db) (set_faces (faces db) db') = db;
  mi_faces i : faces db' !! i = moved t s <$> faces db !! i;
  mi_source : people db' !! s = None;
  mi_others p : p <> s -> p <> t -> people db' !! p = people db !! p;
  mi_target : exists l : list (Z * Face),
    (forall i f, (i, f) ∈ l <-> faces db' !! i = Some f /\ fc_PersonID f = Some t) /\ NoDup l /\
    Sorted.StronglySorted (fun a b => fc_Timestamp b.2 <= fc_Timestamp a.2) l /\
    recentred ((fun jf => BytesToFloat32 (fc_Embedding jf.2)) <$> l) answer (people db !! t) (people db' !! t);
  mi_no_orphan :
    (forall i f, faces db !! i = Some f -> refers (people db) (fc_PersonID f)) ->
    forall i f, faces db' !! i = Some f -> refers (people db') (fc_PersonID f)
}.

Lemma moved_person t s f : t <> s -> fc_PersonID (moved t s f) <> Some s.
Proof using. intros Hts. unfold moved. case_decide; [cbn; congruence|done]. Qed.

(** A store that differs from the merged one in the centroid of the target at most. *)
Lemma merged_into_intro t s db answer db1 db' new :
  t <> s -> MergePeople t s db = Ok db1 -> db' = set_people (partial_alter (fun _ => new) t (people db1)) db1 ->
  (is_Some (people db !! t) -> is_Some new) ->
  recentred ((fun jf => BytesToFloat32 (fc_Embedding jf.2)) <$> ListFacesByPerson t 0 db1) answer (people db !! t) new ->
  merged_into t s db answer db'.
Proof using.
  intros Hts Em -> Hnew Hrec. pose proof (MergePeople_moves_faces t s db db1 Hts Em) as (Hp & _ & Hf).
  assert (forall i, faces db1 !! i = moved t s <$> faces db !! i) as Hmoved.
  { intros i. rewrite Hf. destruct (faces db !! i) as [f|]; [|done]. cbn. f_equal. unfold moved. by repeat case_decide || case_bool_decide. }
  split; cbn [people faces set_people].
  - unfold MergePeople, reassign_faces in Em. destruct (_ || _) in Em; [|done]. injection Em as <-. by destruct db.
  - done.
  - rewrite lookup_partial_alter_ne by done. rewrite Hp. apply lookup_delete_eq.
  - intros p Hps Hpt. rewrite lookup_partial_alter_ne by done. rewrite Hp. by apply lookup_delete_ne.
  - exists (ListFacesByPerson t 0 db1). split_and!.
    + intros i f. unfold ListFacesByPerson, limited. rewrite newest_first_perm, elem_of_map_to_list. unfold faces_of.
      by rewrite map_lookup_filter_Some.
    + unfold ListFacesByPerson, limited. rewrite newest_first_perm. apply NoDup_map_to_list.
    + apply newest_first_sorted.
    + by rewrite lookup_partial_alter_eq.
  - intros Hrefs i f. rewrite Hmoved. destruct (faces db !! i) as [g|] eqn:Eg; [|done]. intros [= <-].
    pose proof (Hrefs i g Eg) as Hg. assert (forall p, p <> s -> is_Some (people db !! p) -> is_Some (partial_alter (fun _ => new) t (people db1) !! p)) as Hkeep.
    { intros p Hps Hsome. destruct (decide (p = t)) as [->|Hpt]; [rewrite lookup_partial_alter_eq; by apply Hnew|].
      rewrite lookup_partial_alter_ne by done. by rewrite Hp, lookup_delete_ne by done. }
    pose proof (moved_person t s g Hts) as Hmp. unfold moved in *. case_decide as Hd; cbn [with_person fc_PersonID] in *.
    + cbn. apply Hkeep; [done|]. unfold MergePeople, reassign_faces in Em. destruct (_ || _) eqn:Et in Em; [|done].
      apply orb_true_iff in Et as [Ht%bool_decide_eq_true|Ht%bool_decide_eq_true]; [done|]. exfalso.
      assert (faces_of s db !! i = Some g) as Hin by (apply map_lookup_filter_Some; done). by rewrite Ht in Hin.
    + unfold refers in *. destruct (fc_PersonID g) as [q|]; [|done]. apply Hkeep; [congruence|done].
Qed.

(** C15: a merge of two people keeps every face.  A request without both ids, or with the
    same one twice, is refused, and one whose source has faces fails when nobody has the
    target's id; both leave the store as it was.  Otherwise the source is gone and each of
    its faces is the target's, with all else it holds; no face is lost, none is left with
    a person that is not there, and every other face, the other people, the objects with
    their sightings and references, and the events stay as they are.  The target's centroid
    becomes the normalized mean, column by column, of the embeddings of all faces it now
    has, the newest first, and the rest of its row stays; if one of them is longer than
    the first the request panics, after the merge, with the old centroid. *)
Theorem merge_keeps_every_face t s db :
  let '(answer, db') := merge_people_request t s db in
  match answer with
  | Some (BadRequest _) => (t = 0 \/ s = 0 \/ t = s) /\ db' = db
  | Some ServerError =>
      t <> 0 /\ s <> 0 /\ t <> s /\ people db !! t = None /\ (exists i f, faces db !! i = Some f /\ fc_PersonID f = Some s) /\ db' = db
  | Some Merged | None =>
      t <> 0 /\ s <> 0 /\ t <> s /\
      (is_Some (people db !! t) \/ forall i f, faces db !! i = Some f -> fc_PersonID f <> Some s) /\
      merged_into t s db answer db'
  end.
Proof using.
  unfold merge_people_request. destruct (Z.eqb_spec t 0); [cbn; auto|]. destruct (Z.eqb_spec s 0); [cbn; auto|]. cbn [orb].
  destruct (Z.eqb_spec t s) as [|Hts]; [auto|]. destruct (MergePeople t s db) as [db1|e] eqn:Em.
  2: { unfold MergePeople, reassign_faces in Em. destruct (_ || _) eqn:Et in Em; [done|].
    apply orb_false_iff in Et as [Ht%bool_decide_eq_false Hs%bool_decide_eq_false]. split_and!; try done; [by apply eq_None_not_Some|].
    apply map_choose in Hs as (i & f & [? ?]%map_lookup_filter_Some). by exists i, f. }
  assert (is_Some (people db !! t) \/ forall i f, faces db !! i = Some f -> fc_PersonID f <> Some s) as Hcase.
  { unfold MergePeople, reassign_faces in Em. destruct (_ || _) eqn:Et in Em; [|done].
    apply orb_true_iff in Et as [Ht%bool_decide_eq_true|Ht%bool_decide_eq_true]; [by left|right]. intros i f Hf Hp.
    assert (faces_of s db !! i = Some f) as Hin by (apply map_lookup_filter_Some; done). by rewrite Ht in Hin. }
  pose proof (MergePeople_moves_faces t s db db1 Hts Em) as (Hp & _ & _).
  assert (people db1 !! t = people db !! t) as Ht by (rewrite Hp; by apply lookup_delete_ne).
  assert (forall answer, recentred ((fun jf => BytesToFloat32 (fc_Embedding jf.2)) <$> ListFacesByPerson t 0 db1) answer (people db !! t) (people db !! t) ->
    merged_into t s db answer db1) as Hstay.
  { intros answer Hrec. apply (merged_into_intro t s db answer db1 db1 (people db !! t)); [done|done| |done|exact Hrec]. rewrite <- Ht. destruct db1 as [pe]. unfold set_people. cbn.
    f_equal. apply map_eq. intros p. destruct (decide (p = t)) as [->|]; [by rewrite lookup_partial_alter_eq|by rewrite lookup_partial_alter_ne]. }
  destruct (ListFacesByPerson t 0 db1) as [|jf fs] eqn:Efs; [split_and!; try done; by apply Hstay|].
  cbn [fmap list_fmap]. set (embs := _ :: _).
  pose proof (sum_embeddings_spec (BytesToFloat32 (fc_Embedding jf.2)) ((fun jf => BytesToFloat32 (fc_Embedding jf.2)) <$> fs)) as Hsum.
  cbn zeta in Hsum. fold embs in Hsum. case_decide as Hall.
  - destruct Hsum as (sum & -> & Hlen & Hcols). split_and!; [done..|].
    match goal with |- context [UpdatePersonCentroid t ?b db1] => set (c := b) end.
    apply (merged_into_intro t s db _ db1 _ (with_centroid c <$> people db !! t)); [done|done| |intros [p ->]; by eexists|].
    { rewrite <- Ht. unfold UpdatePersonCentroid, update_person. f_equal. apply map_eq. intros p. destruct (decide (p = t)) as [->|];
        [by rewrite lookup_alter_eq, lookup_partial_alter_eq|by rewrite lookup_alter_ne, lookup_partial_alter_ne by done]. }
    rewrite Efs. cbn [fmap list_fmap recentred]. fold embs. rewrite decide_True by done. split; [done|].
    exists ((fun x => div32 x (f32_of_Z (len (jf :: fs)))) <$> sum). split_and!; [by rewrite length_fmap| |done].
    intros j Hj. rewrite list_lookup_fmap, Hcols by done. cbn. do 3 f_equal. subst embs. unfold len. cbn [length]. by rewrite length_fmap.
  - rewrite Hsum. split_and!; try done. apply Hstay. rewrite Efs || idtac. cbn [fmap list_fmap recentred]. fold embs. by rewrite decide_False.
Qed.
End Merge.

(** ** Examples *)

(** Listings sorted by a merge sort. *)
Definition person_le (a b : Z * Person) : Prop := String.le (pe_Name a.2) (pe_Name b.2).
Definition object_le (a b : Z * KnownObject) : Prop := String.le (ko_Name a.2) (ko_Name b.2).
Definition newer (a b : Z * Face) : Prop := fc_Timestamp b.2 <= fc_Timestamp a.2.

#[local] Instance person_le_dec : RelDecision person_le.
Proof. intros a b. unfold person_le. apply _. Defined.
#[local] Instance object_le_dec : RelDecision object_le.
Proof. intros a b. unfold object_le. apply _. Defined.
#[local] Instance newer_dec : RelDecision newer.
Proof. intros a b. unfold newer. apply _. Defined.
#[local] Instance person_le_total : Total person_le.
Proof. intros a b. apply (total String.le). Qed.
#[local] Instance object_le_total : Total object_le.
Proof. intros a b. apply (total String.le). Qed.
#[local] Instance newer_total : Total newer.
Proof. intros a b. unfold newer. lia. Qed.
#[local] Instance person_le_trans : Transitive person_le.
Proof. intros a b c. unfold person_le. apply (transitivity (R := String.le)). Qed.
#[local] Instance object_le_trans : Transitive object_le.
Proof. intros a b c. unfold object_le. apply (transitivity (R := String.le)). Qed.
#[local] Instance newer_trans : Transitive newer.
Proof. intros a b c. unfold newer. lia. Qed.

#[local] Instance listings : RowOrder := {
  by_name := merge_sort person_le; by_object_name := merge_sort object_le; newest_first := merge_sort newer;
  by_name_perm := merge_sort_Permutation person_le; by_name_sorted := StronglySorted_merge_sort person_le;
  by_object_name_perm := merge_sort_Permutation object_le; by_object_name_sorted := StronglySorted_merge_sort object_le;
  newest_first_perm := merge_sort_Permutation newer; newest_first_sorted := StronglySorted_merge_sort newer
}.

Definition east : list float32 := [f32_of_Z 1; fzero].
Definition north : list float32 := [fzero; f32_of_Z 1].

Definition porch_event (id : string) : Event :=
  mkEvent id "porch" "person" (f64_of_Z 1) 0 (0, 0, 0, 0) 0 0 "" false "" false "" "" "" "object" 0 "" "alert".

(** Alice, who is known, and an event. *)
Definition alice_db : DB :=
  mkDB {[ 1 := mkPerson "Alice" false (Float32ToBytes east) None ]} 2 ∅ 1 ∅ 1 ∅ 1 ∅ 1 {[ "e"%string := porch_event "e" ]}.

Lemma alice_consistent : consistent alice_db.
Proof.
  split; cbn; try (intros ? ? E; rewrite lookup_empty in E; discriminate E); [|lia].
  intros i p E. apply lookup_singleton_Some in E as [<- _]. lia.
Qed.

Definition seen (emb : list float32) : FaceResult := mkFaceResult emb "" (f32_of_Z 1).

Lemma handle_face_files_the_face_witness :
  filed (f64_lit 55 100) "e" "porch" (seen east) 7 alice_db (handle_face (f64_lit 55 100) "e" "porch" (seen east) 7 alice_db) /\
  fc_PersonID <$> faces (handle_face (f64_lit 55 100) "e" "porch" (seen east) 7 alice_db) !! 1 = Some (Some 1) /\
  SubLabel <$> events (handle_face (f64_lit 55 100) "e" "porch" (seen east) 7 alice_db) !! "e"%string = Some "Alice"%string.
Proof.
  split; [apply (handle_face_files_the_face (f64_lit 55 100) "e" "porch" (seen east) 7 alice_db alice_consistent)|].
  split; vm_compute; reflexivity.
Defined.

(** Alice twice, with a face each, one to the east and one to the north. *)
Definition twice_db : DB :=
  mkDB {[ 1 := mkPerson "Alice" false (Float32ToBytes east) None; 2 := mkPerson "Alice?" false (Float32ToBytes north) None ]} 3
    {[ 1 := mkFace None "porch" (Some 1) (Float32ToBytes east) None (f64_of_Z 1) None 9;
       2 := mkFace None "porch" (Some 2) (Float32ToBytes north) None (f64_of_Z 1) None 8 ]} 3 ∅ 1 ∅ 1 ∅ 1 ∅.

Lemma merge_keeps_every_face_witness :
  (merge_people_request 1 2 twice_db).1 = Some Merged /\
  merged_into 1 2 twice_db (Some Merged) (merge_people_request 1 2 twice_db).2 /\
  fc_PersonID <$> faces (merge_people_request 1 2 twice_db).2 !! 2 = Some (Some 1) /\
  pe_Centroid <$> people (merge_people_request 1 2 twice_db).2 !! 1 =
    Some (Float32ToBytes (normalize [f32_lit 1 2; f32_lit 1 2] (sum_squares [f32_lit 1 2; f32_lit 1 2]))).
Proof.
  assert ((merge_people_request 1 2 twice_db).1 = Some Merged) as E by (vm_compute; reflexivity). split; [exact E|]. split.
  - pose proof (merge_keeps_every_face 1 2 twice_db) as H. destruct (merge_people_request 1 2 twice_db) as [answer db']. cbn [fst snd] in *.
    rewrite E in H. apply H.
  - split; vm_compute; reflexivity.
Defined.

(** Two strangers seen alike become a new person. *)
Example strangers_become_a_person :
  let db := handleFaces (f64_lit 55 100) "e" "porch" [(seen north, 7); (seen north, 8)] alice_db in
  fc_PersonID <$> faces db !! 1 = Some (Some 2) /\ fc_PersonID <$> faces db !! 2 = Some (Some 2) /\ pe_Name <$> people db !! 2 = Some ""%string.
Proof. vm_compute. done. Qed.

(** Merging somebody without faces into nobody deletes them, and is answered as a merge. *)
Theorem merge_into_nobody_deletes :
  let '(answer, db) := merge_people_request 7 1 alice_db in answer = Some Merged /\ people db = ∅.
Proof. vm_compute. done. Qed.

(** Embeddings of two models: the merge is committed, and the handler panics. *)
Definition two_models_db : DB :=
  mkDB {[ 1 := mkPerson "Alice" false (Float32ToBytes east) None; 2 := mkPerson "Alice?" false (Float32ToBytes (east ++ north)) None ]} 3
    {[ 1 := mkFace None "porch" (Some 1) (Float32ToBytes east) None (f64_of_Z 1) None 9;
       2 := mkFace None "porch" (Some 2) (Float32ToBytes (east ++ north)) None (f64_of_Z 1) None 8 ]} 3 ∅ 1 ∅ 1 ∅ 1 ∅.

Theorem merge_of_two_models_panics :
  let '(answer, db) := merge_people_request 1 2 two_models_db in
  answer = None /\ people db !! 2 = None /\ fc_PersonID <$> faces db !! 2 = Some (Some 1).
Proof. vm_compute. done. Qed.
